(* ===== verification/_CoqProject ===== *)
-Q . S2P
Prelude.v
Bytes.v
Hlc.v
Json.v
JsonText.v
Crdt.v
CrdtMerge.v
CrdtUpdate.v
CrdtCodec.v
AtRest.v
SlottedPage.v
RecordLog.v
AtRestFiles.v
Identity.v
DiskManager.v
BufferPool.v
BufferPoolProps.v
BPlusTree.v
Pins.v
BNode.v
BTree.v
BPlusProps.v
BPlusGrow.v
BPlusRefine.v
SegmentStore.v
Transit.v
TransitProps.v
Outbox.v
Wal.v
WalCodec.v
WalLog.v
WalProps.v
WalTamper.v
WalPrune.v
Catalog.v
CatalogProps.v
CrossEngineIndex.v
Backend.v
KvBackend.v
KvProps.v
KvRefine.v
ColumnarCodec.v
Columnar.v
Lsm.v
ColumnarProps.v
ColumnarRefine.v
ColumnarRestart.v
Router.v
RouterProps.v
StorageEngine.v
StorageProps.v
Checkpoint.v
ChangeFeed.v
Peer.v
PeerProps.v
TsRollup.v
TsProps.v
TsRefine.v
TsRuns.v
TsSample.v
GraphAdj.v
GraphWalk.v
GraphIndex.v
GraphSnapshot.v
GraphRefine.v
GraphSample.v
Placement.v
PlacementProps.v
Admission.v
Receipt.v
NodeEngine.v
NodeProps.v
WireProtocol.v
WireProps.v
Network.v
Outbound.v
Gossip.v
GossipProps.v
