(* ===== verification/Prelude.v ===== *)
(** * De-Sentry: a verification development

    De-Sentry is an offline-first document database for a mesh of peers.  A node
    keeps JSON documents as CRDTs stamped by a hybrid logical clock, logs every
    write to a hash-chained write-ahead log that is also the node's ledger, and
    replicates through gossip.  Consistent hashing decides which peers hold a
    document; bytes for an absent owner are held in a transit store and named on
    the ledger; a quorum-gated checkpoint prunes what has been claimed.  Writes
    made while isolated wait in an outbox.  This library models that core from
    the C++ sources (src/ and include/desentry/) as executable functions and
    proves the properties each part relies on.

    ** Parts and how they interact

    A request reaches the node engine, which checks access, stamps and merges the
    document and hands it to the storage engine.  The storage engine appends to the
    ledger, syncs, and then calls the router, which picks the engine a collection is
    bound to by the catalog; the engines keep documents in pages of a buffer pool over
    a plain or sealed file.  Writes go on to the network manager, which fans them out
    to peers chosen by placement and the peer table and holds them in the transit store
    for owners that are away; gossip compares digests with peers and exchanges what
    differs; wire messages carry all of it.  At start the ledger is replayed.

    ** Files, in dependency order, and the code they model

    Foundations
    - [Prelude]: this file: bytes, machine integers, [Status]/[StatusOr]
      (common/status.h), string order, [std::sort], association lists.
    - [Bytes]: [ByteWriter]/[ByteReader] (common/byte_buffer.h), [HexEncode]
      (common/hex.h), [Crc32] (common/crc32.cpp).  The reader is a state and
      error monad; [RoundTrip] is the class every codec is proved against.
    - [Hlc]: crdt/hlc.cpp.
    - [Json], [JsonText]: common/json.h and common/json.cpp (values; serializer
      and parser).
    - [Crdt], [CrdtMerge], [CrdtUpdate], [CrdtCodec]: crdt/document.cpp (the data
      type and all operations; then merge laws, local updates, binary codec).

    Files at rest
    - [AtRest], [AtRestFiles]: security/at_rest.cpp (records and pages; whole
      files, sealed JSON files, page headers), over the class [Crypto] that stands
      for the OpenSSL primitives, with [CryptoLaws] as their documented behaviour and
      [toy_crypto], [tagged_crypto] as instances that satisfy it.
    - [Identity]: net/identity.cpp, over a class for Ed25519.

    Pages, trees and segments
    - [SlottedPage]: storage/slotted_page.cpp.
    - [DiskManager], [BufferPool], [BufferPoolProps]: storage/disk_manager.cpp and
      storage/buffer_pool_manager.cpp; [Pins] states what a client that pins several
      pages may rely on.
    - [BPlusTree], [BNode], [BTree], [BPlusProps], [BPlusGrow], [BPlusRefine]:
      storage/bplus_tree.cpp (model; node pages; trees over pages; search; splits;
      whole operations).
    - [SegmentStore]: storage/segment_store.cpp.

    Ledger
    - [RecordLog]: the length-body-checksum log both ledger side stores share
      (AppendRecord, CompactLocked and the reading loop of Load in
      ledger/transit_store.cpp and ledger/outbox_store.cpp).
    - [Transit], [TransitProps]: ledger/transit_store.cpp.
    - [Outbox]: ledger/outbox_store.cpp.
    - [Wal], [WalCodec], [WalLog], [WalProps], [WalTamper], [WalPrune]:
      storage/wal.cpp (model; record codec and frames; what a file means;
      append, replay, crash and boot; the hash chain; pruning).
    - [Checkpoint]: ledger/checkpoint.cpp, composed from [Wal] and [Transit].
    - [ChangeFeed]: ledger/change_feed.cpp, over [Wal].

    Storage
    - [Catalog], [CatalogProps]: storage/catalog.cpp.
    - [CrossEngineIndex]: the index of storage/router.cpp.
    - [Backend]: the contract of storage/router.h as the class [EngineBackend] with its
      laws [BackendSpec], and storage/engines/engine_common.cpp over it.
    - [KvBackend], [KvProps], [KvRefine]: storage/engines/kv_bplus.cpp, the default
      engine (model; invariant; runs and restarts).
    - [ColumnarCodec], [Columnar], [Lsm], [ColumnarProps], [ColumnarRefine],
      [ColumnarRestart]: storage/engines/columnar_lite.cpp (segment codec; engine;
      levels of sealed rows; invariant; runs; restarts).
    - [TsRollup], [TsProps], [TsRefine], [TsRuns], [TsSample]:
      storage/engines/ts_rollup.cpp (model; rollups, chunks and range queries;
      invariant; runs; witnesses and keys written again).
    - [GraphAdj], [GraphWalk], [GraphIndex], [GraphSnapshot], [GraphRefine],
      [GraphSample]: storage/engines/graph_adj.cpp over the key-value engine (model;
      walks; the adjacency maps against the documents; the snapshot; runs; witnesses).
    - [Router], [RouterProps]: the dispatch of storage/router.cpp, proved against
      [BackendSpec].
    - [StorageEngine], [StorageProps]: storage/storage_engine.cpp.

    Node and network
    - [Peer], [PeerProps]: net/peer.cpp.  [Placement], [PlacementProps]:
      net/placement.cpp.
    - [Admission]: the duplicate filter of net/admission.cpp.  [Receipt]:
      net/receipt_tracker.cpp.
    - [NodeEngine], [NodeProps]: engine/node_engine.cpp.
    - [WireProtocol], [WireProps]: net/wire_protocol.cpp.
    - [Network], [Outbound]: net/network_manager.cpp (what it answers; what it sends).
    - [Gossip], [GossipProps]: net/gossip.cpp.

    ** How state and effects are modelled

    A class with mutable members is a record, an operation a function from the
    record to its result and the new record.  A file is the list of its bytes.
    What the environment decides is an argument: the wall clock, nonces, and the
    outcome of each write, sync, rename and reopen ([append_io], [rewrite_io],
    [hwm_io], [append_result_io]), a short write or a failed flush, which the code
    does not look at, leaving a prefix of the frame.
    Errors are [StatusOr]; an exception that escapes a function is [None].
    Integers are in [Z] with [wrap]/[to_signed] where the code's width shows.
    [unordered_map] is stdpp's [gmap]; its iteration order is that of
    [map_to_list], and no theorem depends on it.  [std::sort] is an insertion
    sort, and the theorems speak of it where the compared keys are distinct or
    where any order of equal keys is a correct result.
    Mutexes are not modelled: an operation is one critical section, and where a
    component blocks ([ChangeFeed.Wait], [ReceiptTracker::WaitFor]) the model
    splits at the blocking point and lets other steps run there.  Log messages
    and the texts of errors are left out.

    ** What the theorems show

    Each theorem's comment lists its conditions; the main ones are named here.
    - Clock: issued stamps increase past everything issued or accepted, short of a
      saturated counter; a peer cannot pull the clock past the skew bound.
    - Documents: replicas that merged the same canonical updates of one shape are
      identical whatever the order and repetition; merge is pointwise on objects; local
      updates read back, in the sense of the relation [shows], which is defined on JSON
      values apart from the code's own comparison, and never forget array elements; the
      codec round-trips, and its depth cap is exact.
    - JSON text: parse inverts dump on values without doubles; canonical text
      identifies values up to field order.
    - Ledger, from an intact log: an append whose write, flush and sync succeed is in
      every later replay and verifies; a write that stops at any byte loses at most its own
      record and the next start accepts the file; truncation below the high-water mark is
      refused; range reads equal the filtered replay; the tip hash commits to the whole
      history; pruning drops exactly the settled transit entries and re-derives the chain
      ([settled_entry] is stated on the records, apart from the code's sets of hashes).
      [wal_unflushed_append_lost] shows an acknowledged append that a failed flush lost,
      [prune_stale_mark_refused] a prune that leaves a ledger the next start refuses.
    - Transit store and outbox: while writes succeed and records fit their cap, the log
      on disk implements the map in memory over every run; hold, release and drain are
      exact.
    - Checkpoint: the gate opens exactly on a verified quorum without conflict, the
      quorum being the largest odd number up to the replication factor, or nothing above
      2^31, where the cast to [int] wraps; a run that passes commits as specified and one
      that does not changes nothing.
    - Placement: rings do not depend on join order, replicas are distinct and
      complete, a join at free positions moves no key between the others; holder
      selection is deterministic and stripes cover all candidates.
    - Pages: any run of page operations stays in bounds and refines a list of
      slots; the buffer pool behaves like an array of pages whatever its size; blobs of
      a segment store read back.  Duplicate filter: a sliding window.  Receipts:
      distinct sources.
    - B+Tree: every run of insertions, removals, searches and scans of keys without NUL
      bytes, in at least three frames, answers as a finite map, stays inside its pages and
      follows no null frame, through all splits and evictions.
    - Engines, on a disk whose page writes succeed: the key-value and the columnar engine
      answer every run as a map of documents, and an engine opened on the files that a
      successful flush left holds the same map; the column codec round-trips.  The
      time-series engine answers every run as a map of points; in a collection whose keys
      are written once its range queries are exact, and its retention drops no young point
      and every sealed hour that is wholly old ([range_returns_superseded] and
      [prune_resurrects] show what happens otherwise); the rollups of a chunk are the
      aggregates of its points, first and last in key order.  The graph engine answers
      from its documents: edges, classes and walks follow from the latest versions,
      whatever was overwritten before, and a snapshot decodes to the same; edges whose
      target and label run together can hide one another ([signature_hides_edge]).
      [unflushed_seal_unopenable] and [next_hour_unopenable] show engines that a
      crash leaves unable to open.  The router answers puts, gets, scans and remote merges
      as one map of documents over any engines that satisfy [BackendSpec].
    - Catalog: a successful change is what the next start loads, for schemas without
      doubles; access lists converge.
    - Storage engine: an acknowledged put survives a crash at any byte, unless the backend
      refuses that document during the replay; replay restores the last put of every
      document.
    - Node, over engines that satisfy [BackendSpec]: a put reads back for every permitted
      reader, a private collection is closed to outsiders as long as no access list
      changes, remote access lists count only with their owner's signature, cached
      digests equal scanned ones.
    - Peers: discovery by UDP cannot spoof a proven peer while the table has room; the
      table keeps its invariant and entries move only along the documented lifecycle.
    - Wire and gossip: messages within the limits of their decoders arrive whole and
      unchanged over any split of the stream; after two rounds of a collection that fits
      one response both nodes hold the merge of what either had.
    - Some theorems record where the code departs from its documentation:
      merge across a kind change or deletion is not associative, a failed sync
      forks the ledger, the change feed never serves an increment, a checkpoint
      can release bytes of an unclaimed re-write; others of this kind stand
      beside them (a torn tail is appended behind, oversize holds, ignored drop
      records, doubles in dumps, a stop that does not latch, a summary too long for
      its reader).

    ** Fuel and bounds

    Recursion that is not structural takes fuel that provably suffices:
    [read_loop], [range_loop] and [load_loop] consume at least one byte per step
    and start with the file's length plus one ([read_loop_fuel],
    [range_loop_fuel], [load_log_fuel], on any bytes); [ParseValue] starts with twice the
    text's length plus two and [json_parse_fuel_enough] shows more changes
    nothing; [DecodeAt] recurses on the depth cap itself; [dec_digits] prints at
    most twenty digits, enough for 64 bits; [dec_exponent] searches the 633
    decimal exponents a double can have.  The descent of the B+Tree takes the bound
    the code itself has, and trees that fit 32-bit page ids are shown to be lower; a
    segment chain is walked for at most the allocated pages, as in the code.  The queue
    of a graph walk takes one more step than there are edges ([descendants_levels]).  A varint
    has at most ten bytes; run-length blocks and the blocks of a column are consumed
    with the column's length as fuel, each turn taking a byte ([unrle_fuel]).
    Page ids are 32 bits wide, so runs over pages carry a bound on the pages they can
    allocate: 36 for an operation of the key-value engine, twice that for one of the graph engine, its volume for one of the
    columnar or the time-series engine.

    ** Not modelled

    OpenSSL wrappers, sockets, the secure channel, threads, HTTP routes, discovery,
    configuration, logging, the file search index, the process supervisor and the
    programs' start-up are outside: they are I/O or glue.  Of the engines, the
    vector engine is not modelled; it sits behind the contract the router is proved
    against.  The key-value engine is not an instance of
    [BackendSpec] as it stands, because a key with a NUL byte is lost
    ([nul_key_truncated]) and because a page id can overflow; [kv_engine_refines] states
    the contract it keeps.  Also left out: re-encryption of a data directory, which walks
    the file system around the sealing functions modelled here; key wrapping in
    at_rest.cpp; the token bucket of admission.cpp; the retention sweep and the durability
    threads of node_engine.cpp; the probe thread, the relay and the construction of
    transports in network_manager.cpp. *)
From Stdlib Require Export ZArith Lia Permutation Morphisms.
From coqutil Require Export Byte.
From stdpp Require Export base tactics list gmap sorting.
From Stdlib Require Strings.String.
Export Stdlib.Strings.String.StringSyntax.

#[export] Set Default Goal Selector "!".

(** ** Bytes and strings

    A [std::string] is a finite sequence of 8-bit characters: a list of
    bytes.  Literals in witnesses are written with [bs]. *)
Abbreviation byte := Corelib.Init.Byte.byte.
Abbreviation bytes := (list Corelib.Init.Byte.byte).

#[export] Instance byte_eq_dec : EqDecision byte := Byte.byte_eq_dec.

#[export] Program Instance byte_countable : Countable byte :=
  inj_countable Byte.to_N Byte.of_N _.
Next Obligation. intros b. apply Byte.of_to_N. Qed.

Definition bs (s : String.string) : bytes := String.list_byte_of_string s.
Arguments bs s%_string_scope.

(** The numeric value of a character read as [unsigned char]. *)
Definition uc (b : byte) : Z := byte.unsigned b.

Lemma uc_inj (a b : byte) : uc a = uc b -> a = b.
Proof. apply byte.unsigned_inj. Qed.

Lemma uc_range (b : byte) : (0 <= uc b < 256)%Z.
Proof. apply byte.unsigned_range. Qed.

(** ** Machine integers *)
Definition wrap (w : Z) (z : Z) : Z := (z mod 2 ^ w)%Z.
Definition u8 := wrap 8.
Definition u16 := wrap 16.
Definition u32 := wrap 32.
Definition u64 := wrap 64.

Definition fits (w z : Z) : Prop := (0 <= z < 2 ^ w)%Z.

Lemma wrap_id (w z : Z) : fits w z -> wrap w z = z.
Proof. intros H. apply Z.mod_small, H. Qed.

Lemma wrap_fits (w z : Z) : (0 <= w)%Z -> fits w (wrap w z).
Proof. intros. apply Z.mod_pos_bound. lia. Qed.

Lemma lxor_fits (w a b : Z) : (0 <= w)%Z -> fits w a -> fits w b -> fits w (Z.lxor a b).
Proof.
  unfold fits. intros Hw Ha Hb. split; [apply Z.lxor_nonneg; lia|].
  destruct (Z.eq_dec (Z.lxor a b) 0%Z) as [->|Hne]; [lia|].
  assert (0 <= Z.lxor a b)%Z by (apply Z.lxor_nonneg; lia).
  apply Z.log2_lt_pow2; [lia|]. eapply Z.le_lt_trans; [apply Z.log2_lxor; lia|].
  assert (forall x, 0 <= x < 2 ^ w -> x = 0 \/ Z.log2 x < w)%Z as Hl.
  { intros x Hx. destruct (Z.eq_dec x 0%Z) as [->|]; [by left|right]. apply Z.log2_lt_pow2; lia. }
  destruct (Z.eq_dec w 0%Z) as [->|].
  - exfalso. apply Hne. change (2 ^ 0)%Z with 1%Z in *. replace a with 0%Z by lia.
    replace b with 0%Z by lia. done.
  - destruct (Hl a Ha) as [->|], (Hl b Hb) as [->|]; simpl; lia.
Qed.

(** Two's complement reading of a [w]-bit pattern. *)
Definition to_signed (w z : Z) : Z :=
  if (z <? 2 ^ (w - 1))%Z then z else (z - 2 ^ w)%Z.

Definition sfits (w z : Z) : Prop := (- 2 ^ (w - 1) <= z < 2 ^ (w - 1))%Z.

Lemma to_signed_sfits (w z : Z) : (0 < w)%Z -> fits w z -> sfits w (to_signed w z).
Proof.
  unfold sfits, fits, to_signed. intros Hw Hz.
  assert (2 ^ w = 2 * 2 ^ (w - 1))%Z by (rewrite <- Z.pow_succ_r by lia; f_equal; lia).
  destruct (Z.ltb_spec z (2 ^ (w - 1))); lia.
Qed.

Lemma to_signed_wrap (w z : Z) :
  (0 < w)%Z -> sfits w z -> to_signed w (wrap w z) = z.
Proof.
  unfold sfits, to_signed, wrap. intros Hw Hz.
  assert (2 ^ w = 2 * 2 ^ (w - 1))%Z as Hp.
  { rewrite <- Z.pow_succ_r by lia. f_equal. lia. }
  destruct (Z.leb_spec 0 z).
  - rewrite Z.mod_small by lia. destruct (Z.ltb_spec z (2 ^ (w - 1))); lia.
  - rewrite <- (Z.mod_add z 1) by lia. rewrite Z.mod_small by lia.
    destruct (Z.ltb_spec (z + 1 * 2 ^ w) (2 ^ (w - 1))); lia.
Qed.

(** ** Status and StatusOr (include/desentry/common/status.h)

    The message text is diagnostic only and is not modelled. *)
Inductive StatusCode :=
  | kNotFound | kAlreadyExists | kInvalidArgument | kIOError | kCorruption
  | kOutOfSpace | kSchemaViolation | kAuthError | kNetworkError | kInternal.

#[export] Instance StatusCode_eq_dec : EqDecision StatusCode.
Proof. solve_decision. Defined.

Inductive StatusOr (A : Type) :=
  | OK (a : A)
  | Fault (c : StatusCode).
Arguments OK {A} a.
Arguments Fault {A} c.

Definition ok {A} (r : StatusOr A) : bool :=
  match r with OK _ => true | Fault _ => false end.

Definition sbind {A B} (r : StatusOr A) (k : A -> StatusOr B) : StatusOr B :=
  match r with OK a => k a | Fault c => Fault c end.

Declare Scope status_scope.
Delimit Scope status_scope with status.
Notation "x <-? r ;; k" := (sbind r (fun x => k))
  (at level 20, r at level 99, k at level 200) : status_scope.
Notation "' p <-? r ;; k" := (sbind r (fun x => match x with p => k end))
  (at level 20, p pattern, r at level 99, k at level 200) : status_scope.

(** ** Strict total orders, decided by a boolean

    Every comparison the engine sorts by ([std::string], timestamps, ring
    positions) is an instance; the sorting and association-list lemmas below
    are proved against this interface only. *)
Class StrictTotal {A : Type} (ltb : A -> A -> bool) : Prop := {
  lt_irrefl : forall x, ltb x x = false;
  lt_trans : forall x y z, ltb x y = true -> ltb y z = true -> ltb x z = true;
  lt_total : forall x y, ltb x y = false -> ltb y x = false -> x = y;
}.

Lemma lt_asym {A} (ltb : A -> A -> bool) `{!StrictTotal ltb} x y :
  ltb x y = true -> ltb y x = false.
Proof.
  intros H. destruct (ltb y x) eqn:E; [|done].
  rewrite <- (lt_irrefl x). symmetry. by eapply lt_trans.
Qed.

Lemma nlt_trans {A} (ltb : A -> A -> bool) `{!StrictTotal ltb} x y z :
  ltb y x = false -> ltb z y = false -> ltb z x = false.
Proof.
  intros H1 H2. destruct (ltb z x) eqn:E; [|done].
  destruct (ltb x y) eqn:E1.
  - rewrite (lt_trans z x y) in H2; done.
  - by rewrite (lt_total x y E1 H1), H2 in E.
Qed.

(** [std::string::operator<]: lexicographic on unsigned characters, a proper
    prefix is smaller. *)
Fixpoint str_lt (a b : bytes) : bool :=
  match a, b with
  | _, [] => false
  | [], _ :: _ => true
  | x :: a', y :: b' =>
      if (uc x <? uc y)%Z then true
      else if (uc y <? uc x)%Z then false else str_lt a' b'
  end.

Ltac cmp_cases :=
  repeat match goal with
  | H : context [(?a <? ?b)%Z] |- _ => destruct (Z.ltb_spec a b)
  | |- context [(?a <? ?b)%Z] => destruct (Z.ltb_spec a b)
  end.

#[export] Instance str_lt_strict : StrictTotal str_lt.
Proof.
  split.
  - intros x. induction x as [|a x IH]; simpl; [done|].
    by rewrite Z.ltb_irrefl.
  - intros x. induction x as [|a x IH]; intros [|b y] [|c z]; simpl; try done.
    cmp_cases; try done; try lia. apply IH.
  - intros x. induction x as [|a x IH]; intros [|b y]; simpl; try done.
    cmp_cases; try done; try lia. intros H1 H2.
    rewrite (uc_inj a b) by lia. f_equal. by apply IH.
Qed.

Lemma Zltb_strict : StrictTotal Z.ltb.
Proof.
  split; intros *; rewrite ?Z.ltb_irrefl, ?Z.ltb_lt, ?Z.ltb_ge; try lia; done.
Qed.
#[export] Existing Instance Zltb_strict.

(** ** std::sort

    The engine sorts vectors by a key with a strict-weak-order lambda.  The
    model is an insertion sort; on the inputs the theorems speak about, keys
    are distinct, so the order [std::sort] leaves is determined. *)
Section Sorting.
Context {A K : Type} (ltb : K -> K -> bool) (key : A -> K).

Fixpoint sort_insert (x : A) (l : list A) : list A :=
  match l with
  | [] => [x]
  | y :: l' => if ltb (key y) (key x) then y :: sort_insert x l' else x :: y :: l'
  end.

Fixpoint std_sort (l : list A) : list A :=
  match l with
  | [] => []
  | x :: l' => sort_insert x (std_sort l')
  end.

Definition sorted_strict (l : list A) : Prop :=
  StronglySorted (fun x y => ltb (key x) (key y) = true) l.

Lemma sort_insert_perm x l : sort_insert x l ≡ₚ x :: l.
Proof.
  induction l as [|y l IH]; simpl; [done|].
  destruct (ltb (key y) (key x)); [|done].
  rewrite IH. apply perm_swap.
Qed.

Lemma std_sort_perm l : std_sort l ≡ₚ l.
Proof.
  induction l as [|x l IH]; simpl; [done|]. by rewrite sort_insert_perm, IH.
Qed.

Lemma std_sort_length l : length (std_sort l) = length l.
Proof. by rewrite std_sort_perm. Qed.

Lemma std_sort_elem_of x l : x ∈ std_sort l <-> x ∈ l.
Proof. by rewrite std_sort_perm. Qed.

Context `{!StrictTotal ltb}.

Lemma sort_insert_sorted x l :
  sorted_strict l -> key x ∉ (key <$> l) -> sorted_strict (sort_insert x l).
Proof.
  unfold sorted_strict. induction 1 as [|y l Hs IH Hall]; simpl; intros Hx.
  - repeat constructor.
  - destruct (ltb (key y) (key x)) eqn:E.
    + constructor; [apply IH; set_solver|].
      rewrite sort_insert_perm. by constructor.
    + assert (ltb (key x) (key y) = true) as Hlt.
      { destruct (ltb (key x) (key y)) eqn:E'; [done|].
        exfalso. apply Hx. rewrite (lt_total _ _ E' E). set_solver. }
      constructor; [by constructor|].
      constructor; [done|]. eapply Forall_impl; [exact Hall|].
      intros z Hz. simpl in *. by eapply lt_trans.
Qed.

Lemma std_sort_sorted l : NoDup (key <$> l) -> sorted_strict (std_sort l).
Proof.
  induction l as [|x l IH]; simpl; intros Hnd; [constructor|].
  apply NoDup_cons in Hnd as [Hx Hnd].
  apply sort_insert_sorted; [auto|]. by rewrite std_sort_perm.
Qed.

Lemma sorted_strict_nodup l : sorted_strict l -> NoDup (key <$> l).
Proof.
  unfold sorted_strict. induction 1 as [|x l Hs IH Hall]; simpl; constructor; [|done].
  intros (y & Hk & Hy)%list_elem_of_fmap.
  rewrite Forall_forall in Hall. specialize (Hall y Hy).
  by rewrite Hk, lt_irrefl in Hall.
Qed.

(** A strictly sorted list is determined by its elements. *)
Lemma sorted_strict_unique l1 l2 :
  sorted_strict l1 -> sorted_strict l2 -> l1 ≡ₚ l2 -> l1 = l2.
Proof.
  unfold sorted_strict. intros H1. revert l2.
  induction H1 as [|x l1 Hs1 IH Ha1]; intros l2 H2 Hp.
  - by apply Permutation_nil_l in Hp.
  - destruct H2 as [|y l2 Hs2 Ha2]; [by apply Permutation_nil_r in Hp|].
    rewrite Forall_forall in Ha1, Ha2.
    assert (x = y) as ->.
    { assert (x ∈ y :: l2) as Hx by (rewrite <- Hp; set_solver).
      assert (y ∈ x :: l1) as Hy by (rewrite Hp; set_solver).
      apply elem_of_cons in Hx as [->|Hx]; [done|].
      apply elem_of_cons in Hy as [->|Hy]; [done|].
      specialize (Ha1 y Hy). specialize (Ha2 x Hx).
      by rewrite (lt_asym _ _ _ Ha1) in Ha2. }
    f_equal. apply IH; [done|]. by apply Permutation_cons_inv in Hp.
Qed.

Lemma std_sort_id l : sorted_strict l -> std_sort l = l.
Proof.
  intros Hs. apply sorted_strict_unique; [|done|apply std_sort_perm].
  by apply std_sort_sorted, sorted_strict_nodup.
Qed.

Lemma std_sort_proper l1 l2 :
  NoDup (key <$> l1) -> l1 ≡ₚ l2 -> std_sort l1 = std_sort l2.
Proof.
  intros Hnd Hp. apply sorted_strict_unique.
  - by apply std_sort_sorted.
  - apply std_sort_sorted. by rewrite <- Hp.
  - by rewrite !std_sort_perm.
Qed.
End Sorting.

(** Sorting commutes with maps that keep keys. *)
Section SortMap.
Context {A B K : Type} (ltb : K -> K -> bool) (g : A -> B) (ka : A -> K) (kb : B -> K).
Hypothesis Hkey : forall x, kb (g x) = ka x.

Lemma sort_insert_map x l :
  sort_insert ltb kb (g x) (map g l) = map g (sort_insert ltb ka x l).
Proof.
  induction l as [|y l IH]; simpl; [done|]. rewrite !Hkey.
  destruct (ltb (ka y) (ka x)); simpl; [by rewrite IH|done].
Qed.

Lemma std_sort_map l : std_sort ltb kb (map g l) = map g (std_sort ltb ka l).
Proof. induction l as [|x l IH]; simpl; [done|]. by rewrite IH, sort_insert_map. Qed.
End SortMap.

(** ** Association lists: [vector<pair<string, V>>] scanned front to back *)
Section Assoc.
Context {K V : Type} `{EqDecision K}.

Fixpoint assoc (k : K) (l : list (K * V)) : option V :=
  match l with
  | [] => None
  | (k', v) :: l' => if decide (k = k') then Some v else assoc k l'
  end.

Lemma assoc_elem k v l : assoc k l = Some v -> (k, v) ∈ l.
Proof.
  induction l as [|[k' v'] l IH]; simpl; [done|].
  case_decide; intros ?; simplify_eq; set_solver.
Qed.

Lemma assoc_None k l : assoc k l = None <-> k ∉ l.*1.
Proof.
  induction l as [|[k' v'] l IH]; simpl; [set_solver|].
  case_decide; [subst; set_solver|]. rewrite IH. set_solver.
Qed.

Lemma assoc_Some k v l : NoDup l.*1 -> assoc k l = Some v <-> (k, v) ∈ l.
Proof.
  intros Hnd. split; [apply assoc_elem|].
  induction l as [|[k' v'] l IH]; simpl in *; [set_solver|].
  apply NoDup_cons in Hnd as [Hk Hnd].
  rewrite elem_of_cons. intros [?|Hin]; simplify_eq; [by rewrite decide_True|].
  rewrite decide_False; [auto|].
  intros ->. apply Hk. apply list_elem_of_fmap. by exists (k', v).
Qed.

Lemma assoc_perm k l1 l2 : NoDup l1.*1 -> l1 ≡ₚ l2 -> assoc k l1 = assoc k l2.
Proof.
  intros Hnd Hp. apply option_eq. intros v.
  rewrite !assoc_Some; [by rewrite Hp| by rewrite <- Hp |done].
Qed.

Lemma assoc_ext_perm l1 l2 :
  NoDup l1.*1 -> NoDup l2.*1 -> (forall k, assoc k l1 = assoc k l2) -> l1 ≡ₚ l2.
Proof.
  intros H1 H2 Hext. apply NoDup_Permutation.
  - by eapply NoDup_fmap_1.
  - by eapply NoDup_fmap_1.
  - intros [k v]. by rewrite <- !assoc_Some, Hext.
Qed.

Lemma assoc_sorted_ext (ltb : K -> K -> bool) `{!StrictTotal ltb} l1 l2 :
  sorted_strict ltb fst l1 -> sorted_strict ltb fst l2 ->
  (forall k, assoc k l1 = assoc k l2) -> l1 = l2.
Proof.
  intros H1 H2 Hext. eapply (sorted_strict_unique ltb fst); [done|done|].
  apply assoc_ext_perm; [by eapply sorted_strict_nodup..|done].
Qed.

Lemma assoc_app k l1 l2 :
  assoc k (l1 ++ l2) = match assoc k l1 with Some v => Some v | None => assoc k l2 end.
Proof. induction l1 as [|[k' v'] l1 IH]; simpl; [done|]. by case_decide. Qed.
End Assoc.

Lemma assoc_map_to_list `{Countable K} {V} (m : gmap K V) k : assoc k (map_to_list m) = m !! k.
Proof. apply option_eq. intros v. rewrite assoc_Some by apply NoDup_fst_map_to_list. apply elem_of_map_to_list. Qed.
