(* ===== verification/Bytes.v ===== *)
(** * Binary encoding helpers: src/common and include/desentry/common

    [ByteWriter]/[ByteReader] (byte_buffer.h), [HexEncode] (hex.h) and
    [Crc32] (crc32.cpp).  A writer call is the bytes it appends; a reader is a
    state transformer on the bytes that remain after [pos_], whose exception
    ("unexpected end of buffer") is [None].  Integers are stored with
    [memcpy] from a little-endian host. *)
From coqutil Require Import Word.LittleEndianList.
From S2P Require Import Prelude.
Local Open Scope Z_scope.

(** ** The reader as a monad *)
Definition Reader (A : Type) : Type := bytes -> option (A * bytes).

Definition rret {A} (a : A) : Reader A := fun s => Some (a, s).
Definition rfail {A} : Reader A := fun _ => None.
Definition rbind {A B} (m : Reader A) (k : A -> Reader B) : Reader B :=
  fun s => match m s with Some (a, s') => k a s' | None => None end.

Declare Scope reader_scope.
Delimit Scope reader_scope with reader.
Notation "x <-r m ;; k" := (rbind m (fun x => k))
  (at level 20, m at level 99, k at level 200) : reader_scope.

Definition Zlen {A} (l : list A) : Z := Z.of_nat (length l).

Module ByteWriter.
Definition U8 (v : Z) : bytes := le_split 1 v.
Definition U16 (v : Z) : bytes := le_split 2 v.
Definition U32 (v : Z) : bytes := le_split 4 v.
Definition U64 (v : Z) : bytes := le_split 8 v.
Definition I64 (v : Z) : bytes := le_split 8 v.
(** A double is kept as its 64-bit pattern. *)
Definition F64 (bits : Z) : bytes := le_split 8 bits.
Definition Bytes (s : bytes) : bytes := U32 (Zlen s) ++ s.
Definition RawBytes (s : bytes) : bytes := s.
End ByteWriter.

Module ByteReader.
(** [Need(n)] followed by the copy of [n] bytes and [pos_ += n]. *)
Definition RawBytes (n : Z) : Reader bytes := fun s =>
  if n <=? Zlen s then Some (take (Z.to_nat n) s, drop (Z.to_nat n) s) else None.

Definition Read (n : Z) : Reader Z :=
  (s <-r RawBytes n ;; rret (le_combine s))%reader.

Definition U8 : Reader Z := Read 1.
Definition U16 : Reader Z := Read 2.
Definition U32 : Reader Z := Read 4.
Definition U64 : Reader Z := Read 8.
Definition I64 : Reader Z := (v <-r Read 8 ;; rret (to_signed 64 v))%reader.
Definition F64 : Reader Z := Read 8.
Definition Bytes : Reader bytes := (n <-r U32 ;; RawBytes n)%reader.
Definition remaining : Reader Z := fun s => Some (Zlen s, s).
End ByteReader.

(** What a reader promises about the writer it inverts: exactly the written
    bytes are consumed and the written value comes back. *)
Class RoundTrip {A} (enc : A -> bytes) (dec : Reader A) (wf : A -> Prop) : Prop :=
  round_trip : forall a rest, wf a -> dec (enc a ++ rest) = Some (a, rest).

Lemma round_trip_end {A} (enc : A -> bytes) (dec : Reader A) wf `{!RoundTrip enc dec wf} a :
  wf a -> dec (enc a) = Some (a, []).
Proof. intros H. rewrite <- (app_nil_r (enc a)). by apply round_trip. Qed.

Lemma Zlen_nonneg {A} (l : list A) : 0 <= Zlen l.
Proof. unfold Zlen. lia. Qed.

Lemma Zlen_app {A} (l1 l2 : list A) : Zlen (l1 ++ l2) = Zlen l1 + Zlen l2.
Proof. unfold Zlen. rewrite length_app. lia. Qed.

Lemma RawBytes_app (n : Z) (s rest : bytes) :
  Zlen s = n -> ByteReader.RawBytes n (s ++ rest) = Some (s, rest).
Proof.
  intros <-. unfold ByteReader.RawBytes, Zlen.
  rewrite length_app, Nat2Z.inj_add, Nat2Z.id.
  destruct (Z.leb_spec (Z.of_nat (length s)) (Z.of_nat (length s) + Z.of_nat (length rest))); [|lia].
  by rewrite take_app_length, drop_app_length.
Qed.

Lemma RawBytes_consumes (n : Z) (s b rest : bytes) :
  0 <= n -> ByteReader.RawBytes n s = Some (b, rest) -> s = b ++ rest /\ Zlen b = n.
Proof.
  unfold ByteReader.RawBytes, Zlen. intros Hn. destruct (Z.leb_spec n (Z.of_nat (length s))); [|done].
  intros ?; simplify_eq. rewrite take_drop. split; [done|].
  rewrite length_take. lia.
Qed.

Lemma Read_split (n : nat) (v : Z) (rest : bytes) :
  ByteReader.Read (Z.of_nat n) (le_split n v ++ rest)
  = Some (v mod 2 ^ (Z.of_nat n * 8), rest).
Proof.
  unfold ByteReader.Read, rbind.
  rewrite RawBytes_app by (unfold Zlen; by rewrite length_le_split).
  unfold rret. by rewrite le_combine_split.
Qed.

Lemma Read_small (n : nat) (w v : Z) (rest : bytes) :
  w = Z.of_nat n * 8 -> fits w v ->
  ByteReader.Read (Z.of_nat n) (le_split n v ++ rest) = Some (v, rest).
Proof. intros -> H. rewrite Read_split. by rewrite Z.mod_small. Qed.

#[export] Instance U8_round_trip : RoundTrip ByteWriter.U8 ByteReader.U8 (fits 8).
Proof. intros v rest H. by apply (Read_small 1 8). Qed.
#[export] Instance U16_round_trip : RoundTrip ByteWriter.U16 ByteReader.U16 (fits 16).
Proof. intros v rest H. by apply (Read_small 2 16). Qed.
#[export] Instance U32_round_trip : RoundTrip ByteWriter.U32 ByteReader.U32 (fits 32).
Proof. intros v rest H. by apply (Read_small 4 32). Qed.
#[export] Instance U64_round_trip : RoundTrip ByteWriter.U64 ByteReader.U64 (fits 64).
Proof. intros v rest H. by apply (Read_small 8 64). Qed.
#[export] Instance F64_round_trip : RoundTrip ByteWriter.F64 ByteReader.F64 (fits 64).
Proof. intros v rest H. by apply (Read_small 8 64). Qed.

#[export] Instance I64_round_trip : RoundTrip ByteWriter.I64 ByteReader.I64 (sfits 64).
Proof.
  intros v rest H. unfold ByteReader.I64, rbind, ByteWriter.I64.
  rewrite (Read_split 8). unfold rret. do 2 f_equal.
  by apply (to_signed_wrap 64).
Qed.

Definition blob_ok (s : bytes) : Prop := Zlen s < 2 ^ 32.

#[export] Instance Bytes_round_trip : RoundTrip ByteWriter.Bytes ByteReader.Bytes blob_ok.
Proof.
  intros s rest H. unfold ByteReader.Bytes, ByteWriter.Bytes, rbind.
  rewrite <- app_assoc, round_trip by (split; [apply Zlen_nonneg|exact H]).
  by apply RawBytes_app.
Qed.

Lemma U8_length v : length (ByteWriter.U8 v) = 1%nat.
Proof. apply length_le_split. Qed.
Lemma U32_length v : length (ByteWriter.U32 v) = 4%nat.
Proof. apply length_le_split. Qed.
Lemma U64_length v : length (ByteWriter.U64 v) = 8%nat.
Proof. apply length_le_split. Qed.
Lemma Bytes_length s : length (ByteWriter.Bytes s) = (4 + length s)%nat.
Proof. unfold ByteWriter.Bytes. by rewrite length_app, U32_length. Qed.

Lemma le_combine_U32 v : fits 32 v -> le_combine (ByteWriter.U32 v) = v.
Proof. intros H. unfold ByteWriter.U32. rewrite le_combine_split. by apply Z.mod_small. Qed.

Create Rewrite HintDb codec.
#[export] Hint Rewrite U8_length U32_length U64_length Bytes_length : codec.

(** Runs a reader over the writer output in front of it, one field at a time:
    each field's side condition is left to [tac]. *)
Ltac read_step tac :=
  unfold rbind at 1;
  rewrite <- ?app_assoc;
  rewrite round_trip by tac;
  cbv beta iota.

(** The same for the last field of a buffer. *)
Ltac read_end tac :=
  unfold rbind at 1;
  first
    [ rewrite (round_trip_end ByteWriter.U8 ByteReader.U8 (fits 8)) by tac
    | rewrite (round_trip_end ByteWriter.U32 ByteReader.U32 (fits 32)) by tac
    | rewrite (round_trip_end ByteWriter.U64 ByteReader.U64 (fits 64)) by tac
    | rewrite (round_trip_end ByteWriter.I64 ByteReader.I64 (sfits 64)) by tac
    | rewrite (round_trip_end ByteWriter.F64 ByteReader.F64 (fits 64)) by tac
    | rewrite (round_trip_end ByteWriter.Bytes ByteReader.Bytes blob_ok) by tac ];
  cbv beta iota.

(** ** Hex rendering (hex.h) *)
Definition kHex : bytes := bs "0123456789abcdef".

Definition hex_digit (n : Z) : byte := nth (Z.to_nat n) kHex Byte.x00.

Definition HexEncode (s : bytes) : bytes :=
  flat_map (fun c => [hex_digit (Z.shiftr (uc c) 4); hex_digit (Z.land (uc c) 15)]) s.

Definition unhex (b : byte) : Z :=
  if uc b <? 97 then uc b - 48 else uc b - 87.

Lemma unhex_digit (n : Z) : 0 <= n < 16 -> unhex (hex_digit n) = n.
Proof.
  intros H.
  assert (forallb (fun i => unhex (hex_digit (Z.of_nat i)) =? Z.of_nat i) (seq 0 16) = true)
    as Hall by (by vm_compute).
  apply Is_true_true, forallb_True in Hall. rewrite Forall_forall in Hall.
  specialize (Hall (Z.to_nat n)). rewrite Z2Nat.id in Hall by lia.
  apply Z.eqb_eq, Is_true_true, Hall, elem_of_seq. lia.
Qed.

Lemma HexEncode_cons c s :
  HexEncode (c :: s) = hex_digit (Z.shiftr (uc c) 4) :: hex_digit (Z.land (uc c) 15) :: HexEncode s.
Proof. done. Qed.

Lemma HexEncode_length s : length (HexEncode s) = (2 * length s)%nat.
Proof. induction s as [|c s IH]; [done|]. rewrite HexEncode_cons. cbn [length]. lia. Qed.

Lemma hex_split (z : Z) : 0 <= z -> z = 16 * Z.shiftr z 4 + Z.land z 15.
Proof.
  intros. change 15 with (Z.ones 4). rewrite Z.land_ones by lia.
  rewrite Z.shiftr_div_pow2 by lia. apply (Z.div_mod z (2 ^ 4)). lia.
Qed.

Lemma hex_digits_range (c : byte) :
  0 <= Z.shiftr (uc c) 4 < 16 /\ 0 <= Z.land (uc c) 15 < 16.
Proof.
  pose proof (uc_range c) as H. pose proof (hex_split (uc c)).
  change 15 with (Z.ones 4) in *. rewrite Z.land_ones in * by lia.
  pose proof (Z.mod_pos_bound (uc c) (2 ^ 4)). lia.
Qed.

(** Two byte strings with the same hex rendering are the same string. *)
Lemma HexEncode_inj s1 s2 : HexEncode s1 = HexEncode s2 -> s1 = s2.
Proof.
  revert s2. induction s1 as [|a s1 IH]; intros [|b s2]; try done.
  rewrite !HexEncode_cons. intros H. injection H as Hhi Hlo Ht. f_equal; [|by apply IH].
  destruct (hex_digits_range a) as [Ha1 Ha2], (hex_digits_range b) as [Hb1 Hb2].
  apply (f_equal unhex) in Hhi, Hlo.
  rewrite !unhex_digit in Hhi, Hlo by done.
  apply uc_inj. pose proof (uc_range a). pose proof (uc_range b).
  rewrite (hex_split (uc a)), (hex_split (uc b)) by lia. congruence.
Qed.

(** ** CRC-32 (crc32.cpp) *)
Definition kPoly : Z := 0xEDB88320.

Definition crc_bit (c : Z) : Z :=
  if Z.testbit c 0 then Z.lxor kPoly (Z.shiftr c 1) else Z.shiftr c 1.

Definition MakeTable : list Z :=
  (fun i => Nat.iter 8 crc_bit (Z.of_nat i)) <$> seq 0 256.

Definition kTable : list Z := Eval vm_compute in MakeTable.

Definition crc_table_step (crc : Z) (b : byte) : Z :=
  Z.lxor (nth (Z.to_nat (Z.land (Z.lxor crc (uc b)) 0xFF)) kTable 0) (Z.shiftr crc 8).

Definition Crc32 (data : bytes) : Z :=
  Z.lxor (fold_left crc_table_step data 0xFFFFFFFF) 0xFFFFFFFF.

(** The bit-serial definition of the same checksum. *)
Definition crc_bitwise_step (crc : Z) (b : byte) : Z :=
  Nat.iter 8 crc_bit (Z.lxor crc (uc b)).

Definition Crc32_bitwise (data : bytes) : Z :=
  Z.lxor (fold_left crc_bitwise_step data 0xFFFFFFFF) 0xFFFFFFFF.

Lemma kTable_make : kTable = MakeTable.
Proof. vm_compute. reflexivity. Qed.

Lemma crc_bit_lxor (x y : Z) : crc_bit (Z.lxor x y) = Z.lxor (crc_bit x) (crc_bit y).
Proof.
  unfold crc_bit. rewrite Z.lxor_spec, Z.shiftr_lxor.
  destruct (Z.testbit x 0), (Z.testbit y 0); simpl;
    apply Z.bits_inj'; intros n Hn; rewrite !Z.lxor_spec;
    destruct (Z.testbit kPoly n), (Z.testbit (Z.shiftr x 1) n), (Z.testbit (Z.shiftr y 1) n); done.
Qed.

Lemma crc_bits_lxor n (x y : Z) :
  Nat.iter n crc_bit (Z.lxor x y) = Z.lxor (Nat.iter n crc_bit x) (Nat.iter n crc_bit y).
Proof. induction n as [|n IH]; simpl; [done|]. by rewrite IH, crc_bit_lxor. Qed.

(** Bits above the shifted-out window only move down. *)
Lemma crc_bits_high (n : nat) (z : Z) :
  Nat.iter n crc_bit (Z.shiftl z (Z.of_nat n)) = z.
Proof.
  induction n as [|n IH]; [apply Z.shiftl_0_r|].
  rewrite Nat.iter_succ_r. rewrite <- IH at 2. f_equal.
  unfold crc_bit. rewrite Z.shiftl_spec by lia.
  rewrite Z.testbit_neg_r by lia.
  rewrite Z.shiftr_shiftl_l by lia. f_equal. lia.
Qed.

Lemma byte_split (z : Z) : z = Z.lxor (Z.land z 255) (Z.shiftl (Z.shiftr z 8) 8).
Proof.
  change 255 with (Z.ones 8). apply Z.bits_inj'. intros n Hn.
  rewrite Z.lxor_spec, Z.land_spec, Z.testbit_ones_nonneg, Z.shiftl_spec by lia.
  destruct (Z.ltb_spec n 8).
  - rewrite (Z.testbit_neg_r _ (n - 8)) by lia. by destruct (Z.testbit z n).
  - rewrite Z.shiftr_spec by lia. replace (n - 8 + 8) with n by lia.
    by destruct (Z.testbit z n).
Qed.

Lemma kTable_lookup (i : Z) : 0 <= i < 256 -> nth (Z.to_nat i) kTable 0 = Nat.iter 8 crc_bit i.
Proof.
  intros H. rewrite kTable_make. unfold MakeTable.
  rewrite nth_lookup, list_lookup_fmap, lookup_seq_lt by lia. simpl fmap. simpl default.
  by rewrite Z2Nat.id by lia.
Qed.

Lemma crc_step_equiv (crc : Z) (b : byte) : crc_table_step crc b = crc_bitwise_step crc b.
Proof.
  unfold crc_table_step, crc_bitwise_step.
  assert (0 <= Z.land (Z.lxor crc (uc b)) 255 < 256) as Hr.
  { change 255 with (Z.ones 8). rewrite Z.land_ones by lia. by apply Z.mod_pos_bound. }
  rewrite kTable_lookup by done.
  rewrite (byte_split (Z.lxor crc (uc b))) at 2.
  rewrite crc_bits_lxor. f_equal.
  rewrite (crc_bits_high 8), Z.shiftr_lxor.
  assert (Z.shiftr (uc b) 8 = 0) as ->.
  { pose proof (uc_range b). rewrite Z.shiftr_div_pow2 by lia. by apply Z.div_small. }
  by rewrite Z.lxor_0_r.
Qed.

Lemma crc_bit_range (z : Z) : fits 32 z -> fits 32 (crc_bit z).
Proof.
  intros H. assert (fits 32 (Z.shiftr z 1)) as Hs.
  { unfold fits in *. rewrite Z.shiftr_div_pow2 by lia. split; [apply Z.div_pos; lia|].
    apply Z.div_lt_upper_bound; lia. }
  unfold crc_bit. destruct (Z.testbit z 0); [|done]. by apply lxor_fits.
Qed.

Lemma crc_fold_range data c : fits 32 c -> fits 32 (fold_left crc_table_step data c).
Proof.
  revert c. induction data as [|b data IH]; intros c Hc; [done|]. cbn [fold_left]. apply IH.
  rewrite crc_step_equiv. unfold crc_bitwise_step.
  assert (forall n x, fits 32 x -> fits 32 (Nat.iter n crc_bit x)) as Hn.
  { intros n. induction n as [|n IHn]; intros x Hx; [done|]. simpl. by apply crc_bit_range, IHn. }
  apply Hn. pose proof (uc_range b). apply lxor_fits; [lia|done|unfold fits in *; lia].
Qed.

Lemma Crc32_fits data : fits 32 (Crc32 data).
Proof. apply lxor_fits; [lia|by apply crc_fold_range|done]. Qed.

(** The table-driven checksum is the bit-by-bit division it abbreviates. *)
Lemma Crc32_equiv data : Crc32 data = Crc32_bitwise data.
Proof.
  unfold Crc32, Crc32_bitwise. f_equal. generalize 0xFFFFFFFF as c.
  induction data as [|b data IH]; intros c; [done|]. cbn [fold_left]. by rewrite crc_step_equiv, IH.
Qed.
