(* ===== verification/Hlc.v ===== *)
(** * Hybrid logical clock: include/desentry/crdt/hlc.h, src/crdt/hlc.cpp

    [HLCTimestamp] with its operators and byte encoding, and
    [HybridLogicalClock] as a record stepped by [Now], [Observe] and
    [Restore].  The wall clock read inside each call is an argument; the mutex
    makes each call one atomic step. *)
From coqutil Require Import Word.LittleEndianList.
From S2P Require Import Prelude Bytes.
Local Open Scope Z_scope.

(** ** Timestamps *)
Record HLCTimestamp := mkTs {
  physical_ms : Z;   (* uint64_t *)
  logical : Z;       (* uint32_t *)
  node_id : bytes;
}.

#[export] Instance HLCTimestamp_eq_dec : EqDecision HLCTimestamp.
Proof. solve_decision. Defined.

Definition ts_default : HLCTimestamp := mkTs 0 0 [].

(** [operator<] *)
Definition ts_lt (a b : HLCTimestamp) : bool :=
  if negb (physical_ms a =? physical_ms b) then physical_ms a <? physical_ms b
  else if negb (logical a =? logical b) then logical a <? logical b
  else str_lt (node_id a) (node_id b).

(** [operator>] *)
Definition ts_gt (a b : HLCTimestamp) : bool := ts_lt b a.

#[export] Instance ts_lt_strict : StrictTotal ts_lt.
Proof.
  split; unfold ts_lt.
  - intros x. rewrite !Z.eqb_refl. simpl. apply lt_irrefl.
  - intros x y z.
    destruct (Z.eqb_spec (physical_ms x) (physical_ms y)), (Z.eqb_spec (physical_ms y) (physical_ms z)),
      (Z.eqb_spec (physical_ms x) (physical_ms z)),
      (Z.eqb_spec (logical x) (logical y)), (Z.eqb_spec (logical y) (logical z)),
      (Z.eqb_spec (logical x) (logical z)); simpl; rewrite ?Z.ltb_lt; try lia.
    apply lt_trans.
  - intros x y. rewrite (Z.eqb_sym (physical_ms y)), (Z.eqb_sym (logical y)).
    destruct (Z.eqb_spec (physical_ms x) (physical_ms y)),
      (Z.eqb_spec (logical x) (logical y)); simpl; rewrite ?Z.ltb_ge; try lia.
    intros H1 H2. pose proof (lt_total _ _ H1 H2). destruct x, y; simpl in *; congruence.
Qed.

(** [Encode]: eight plus four little-endian bytes, then the node id. *)
Definition le_bytes (n : nat) (v : Z) : bytes :=
  (fun i => byte.of_Z (Z.land (Z.shiftr v (8 * Z.of_nat i)) 0xFF)) <$> seq 0 n.

Definition ts_Encode (t : HLCTimestamp) : bytes :=
  le_bytes 8 (physical_ms t) ++ le_bytes 4 (logical t) ++ node_id t.

(** The [|=] loop of [Decode] over [n] bytes starting at offset [off]. *)
Definition or_bytes (n : nat) (off : nat) (s : bytes) : Z :=
  fold_left (fun acc i => Z.lor acc (Z.shiftl (uc (nth (off + i) s Byte.x00)) (8 * Z.of_nat i)))
    (seq 0 n) 0.

Definition ts_Decode (s : bytes) : HLCTimestamp :=
  if Zlen s <? 12 then ts_default
  else mkTs (or_bytes 8 0 s) (or_bytes 4 8 s) (drop 12 s).

(** ** The clock *)
Record HybridLogicalClock := mkClock {
  clock_node_id : bytes;
  last_physical : Z;
  last_logical : Z;
}.

Definition UINT32_MAX : Z := 2 ^ 32 - 1.
Definition kMaxFutureSkewMs : Z := 300000.

Definition new_clock (node : bytes) : HybridLogicalClock := mkClock node 0 0.

Definition Now (wall : Z) (c : HybridLogicalClock) : HLCTimestamp * HybridLogicalClock :=
  let c' :=
    if last_physical c <? wall then mkClock (clock_node_id c) wall 0
    else mkClock (clock_node_id c) (last_physical c) (u32 (last_logical c + 1)) in
  (mkTs (last_physical c') (last_logical c') (clock_node_id c'), c').

Definition Observe (wall : Z) (remote : HLCTimestamp) (c : HybridLogicalClock)
  : bool * HybridLogicalClock :=
  if u64 (wall + kMaxFutureSkewMs) <? physical_ms remote then (false, c)
  else if (last_logical c =? UINT32_MAX) || (logical remote =? UINT32_MAX) then (false, c)
  else
    let max_physical := Z.max (Z.max wall (last_physical c)) (physical_ms remote) in
    let l :=
      if (max_physical =? last_physical c) && (max_physical =? physical_ms remote)
      then u32 (Z.max (last_logical c) (logical remote) + 1)
      else if max_physical =? last_physical c then u32 (last_logical c + 1)
      else if max_physical =? physical_ms remote then u32 (logical remote + 1)
      else 0 in
    (true, mkClock (clock_node_id c) max_physical l).

Definition Restore (p l : Z) (c : HybridLogicalClock) : HybridLogicalClock :=
  if (last_physical c <? p) || ((p =? last_physical c) && (last_logical c <? l))
  then mkClock (clock_node_id c) p l else c.

(** ** Encoding *)
Lemma of_Z_land_255 z : byte.of_Z (Z.land z 0xFF) = byte.of_Z z.
Proof.
  apply byte.unsigned_inj. rewrite !byte.unsigned_of_Z. unfold byte.wrap.
  change 255 with (Z.ones 8). rewrite Z.land_ones by lia. by apply Z.mod_mod.
Qed.

Lemma le_bytes_split n v : le_bytes n v = le_split n v.
Proof.
  unfold le_bytes. revert v. induction n as [|n IH]; intros v; [done|].
  cbn [seq fmap list_fmap]. change (le_split (S n) v) with (byte.of_Z v :: le_split n (Z.shiftr v 8)).
  f_equal.
  - rewrite of_Z_land_255. by rewrite Z.shiftr_0_r.
  - rewrite <- IH. rewrite <- fmap_S_seq, <- list_fmap_compose.
    apply list_fmap_ext. intros i x _. unfold compose. rewrite Z.shiftr_shiftr by lia.
    do 3 f_equal. lia.
Qed.

Lemma or_bytes_loop n off s acc k :
  (off + k + n <= length s)%nat ->
  fold_left (fun acc i => Z.lor acc (Z.shiftl (uc (nth (off + i) s Byte.x00)) (8 * Z.of_nat i)))
    (seq k n) acc
  = Z.lor acc (Z.shiftl (le_combine (take n (drop (off + k) s))) (8 * Z.of_nat k)).
Proof.
  revert acc k. induction n as [|n IH]; intros acc k Hlen.
  - cbn [seq fold_left take]. change (le_combine []) with 0.
    by rewrite Z.shiftl_0_l, Z.lor_0_r.
  - cbn [seq fold_left]. rewrite IH by lia.
    destruct (lookup_lt_is_Some_2 s (off + k)) as [b Hb]; [lia|].
    rewrite (drop_S s b (off + k)) by done.
    cbn [take]. change (le_combine (b :: ?x)) with (Z.lor (uc b) (Z.shiftl (le_combine x) 8)).
    rewrite nth_lookup, Hb. cbn [default].
    rewrite Z.shiftl_lor, Z.shiftl_shiftl, Z.lor_assoc by lia.
    replace (off + S k)%nat with (S (off + k)) by lia. do 2 f_equal. lia.
Qed.

Lemma or_bytes_combine n off s :
  (off + n <= length s)%nat -> or_bytes n off s = le_combine (take n (drop off s)).
Proof.
  intros H. unfold or_bytes. rewrite or_bytes_loop by lia.
  rewrite Nat.add_0_r. by rewrite Z.lor_0_l, Z.shiftl_0_r.
Qed.

Definition ts_ok (t : HLCTimestamp) : Prop := fits 64 (physical_ms t) /\ fits 32 (logical t).

Lemma ts_Encode_length t : length (ts_Encode t) = (12 + length (node_id t))%nat.
Proof. unfold ts_Encode. by rewrite !length_app, !le_bytes_split, !length_le_split. Qed.

Lemma ts_Decode_Encode t : ts_ok t -> ts_Decode (ts_Encode t) = t.
Proof.
  intros [Hp Hl]. unfold ts_Decode, Zlen. rewrite ts_Encode_length.
  destruct (Z.ltb_spec (Z.of_nat (12 + length (node_id t))) 12); [lia|].
  rewrite !or_bytes_combine by (rewrite ts_Encode_length; lia).
  unfold ts_Encode. rewrite !le_bytes_split, app_assoc, drop_0.
  rewrite (drop_app_length' _ _ 12) by (by rewrite length_app, !length_le_split).
  rewrite <- app_assoc, (take_app_length' _ _ 8) by (by rewrite length_le_split).
  rewrite (drop_app_length' _ _ 8) by (by rewrite length_le_split).
  rewrite (take_app_length' _ _ 4) by (by rewrite length_le_split).
  rewrite !le_combine_split, !Z.mod_small by done. by destruct t.
Qed.

(** ** What a clock has promised: the lexicographic floor (physical, logical) *)
Definition below (t : HLCTimestamp) (c : HybridLogicalClock) : Prop :=
  physical_ms t < last_physical c \/
  (physical_ms t = last_physical c /\ logical t <= last_logical c).

Definition clock_ok (c : HybridLogicalClock) : Prop :=
  fits 64 (last_physical c) /\ fits 32 (last_logical c).

(** [Now] does not wrap its counter: either the wall clock has moved on or the
    counter has room. *)
Definition now_safe (wall : Z) (c : HybridLogicalClock) : bool :=
  (last_physical c <? wall) || (last_logical c <? UINT32_MAX).

Ltac hlc_cases :=
  repeat match goal with
  | |- context [?a <? ?b] => destruct (Z.ltb_spec a b)
  | |- context [?a =? ?b] => destruct (Z.eqb_spec a b)
  | H : context [?a <? ?b] |- _ => destruct (Z.ltb_spec a b)
  | H : context [?a =? ?b] |- _ => destruct (Z.eqb_spec a b)
  end; simpl in *.

Ltac hlc_unfold :=
  unfold clock_ok, ts_ok, below, now_safe, fits, UINT32_MAX in *; simpl in *.

Lemma Now_ok wall c : clock_ok c -> fits 64 wall -> clock_ok (snd (Now wall c)).
Proof.
  unfold Now. intros Hc Hw.
  pose proof (wrap_fits 32 (last_logical c + 1) ltac:(lia)).
  hlc_unfold. hlc_cases; unfold u32 in *; lia.
Qed.

(** On a safe call [Now] moves the floor up by one wall-clock or counter step. *)
Lemma Now_safe_state wall c :
  clock_ok c -> now_safe wall c = true ->
  snd (Now wall c) = mkClock (clock_node_id c) wall 0 /\ last_physical c < wall \/
  snd (Now wall c) = mkClock (clock_node_id c) (last_physical c) (last_logical c + 1).
Proof.
  unfold Now, now_safe. intros [_ Hl] Hs.
  destruct (Z.ltb_spec (last_physical c) wall) as [|Hge]; [by left|right]. simpl in *.
  apply Z.ltb_lt in Hs. unfold u32. rewrite wrap_id; [done|].
  hlc_unfold. lia.
Qed.

Lemma Now_issued wall c :
  fst (Now wall c)
  = mkTs (last_physical (snd (Now wall c))) (last_logical (snd (Now wall c)))
      (clock_node_id (snd (Now wall c))).
Proof. done. Qed.

Lemma Now_strict wall c t :
  clock_ok c -> now_safe wall c = true -> below t c -> ts_lt t (fst (Now wall c)) = true.
Proof.
  intros Hc Hs Hb. rewrite Now_issued.
  destruct (Now_safe_state wall c Hc Hs) as [[-> ?]| ->]; unfold ts_lt; hlc_unfold;
    hlc_cases; try done; lia.
Qed.

Lemma Now_below wall c t :
  clock_ok c -> now_safe wall c = true -> below t c -> below t (snd (Now wall c)).
Proof.
  intros Hc Hs Hb. destruct (Now_safe_state wall c Hc Hs) as [[-> ?]| ->]; hlc_unfold; lia.
Qed.

Lemma Now_issued_below wall c : below (fst (Now wall c)) (snd (Now wall c)).
Proof. right. unfold Now. destruct (last_physical c <? wall); simpl; lia. Qed.

Ltac observe_cases c remote wall :=
  destruct (Z.eqb_spec (Z.max (Z.max wall (last_physical c)) (physical_ms remote)) (last_physical c)),
    (Z.eqb_spec (Z.max (Z.max wall (last_physical c)) (physical_ms remote)) (physical_ms remote));
  cbn [andb].

Lemma Observe_spec wall remote c c' :
  clock_ok c -> ts_ok remote -> fits 64 wall -> Observe wall remote c = (true, c') ->
  clock_ok c' /\ below remote c' /\ (forall t, below t c -> below t c') /\
  clock_node_id c' = clock_node_id c.
Proof.
  unfold Observe. intros Hc Hr Hw.
  destruct (_ <? physical_ms remote); [done|].
  destruct (_ || _) eqn:Eo; [done|]. apply orb_false_iff in Eo as [E1%Z.eqb_neq E2%Z.eqb_neq].
  intros H. injection H as <-.
  assert (forall z, 0 <= z <= UINT32_MAX -> u32 z = z) as Hu.
  { intros z Hz. apply wrap_id. unfold fits, UINT32_MAX in *. lia. }
  hlc_unfold. observe_cases c remote wall; rewrite ?Hu by lia;
    (split; [|split; [|split; [intros t Ht|done]]]); simpl; lia.
Qed.

Lemma Restore_spec p l c :
  clock_ok c -> fits 64 p -> fits 32 l ->
  clock_ok (Restore p l c) /\ (forall t, below t c -> below t (Restore p l c)) /\
  (forall n, below (mkTs p l n) (Restore p l c)).
Proof.
  unfold Restore. intros Hc Hp Hl. hlc_unfold. hlc_cases; (split; [|split; intros]); lia.
Qed.

(** ** Runs of a clock

    An event records what a call returned: a stamp issued by [Now], a remote
    stamp accepted or refused by [Observe], or a restored floor. *)
Inductive clock_event :=
  | Issued (t : HLCTimestamp)
  | Accepted (t : HLCTimestamp)
  | Refused (t : HLCTimestamp)
  | Restored (p l : Z).

Inductive clock_step : HybridLogicalClock -> clock_event -> HybridLogicalClock -> Prop :=
  | step_now wall c :
      fits 64 wall -> now_safe wall c = true ->
      clock_step c (Issued (fst (Now wall c))) (snd (Now wall c))
  | step_observe wall remote c c' :
      fits 64 wall -> ts_ok remote -> Observe wall remote c = (true, c') ->
      clock_step c (Accepted remote) c'
  | step_refuse wall remote c c' :
      Observe wall remote c = (false, c') -> clock_step c (Refused remote) c'
  | step_restore p l c :
      fits 64 p -> fits 32 l -> clock_step c (Restored p l) (Restore p l c).

(** [clock_run c es c']: the calls with outcomes [es], oldest first. *)
Inductive clock_run : HybridLogicalClock -> list clock_event -> HybridLogicalClock -> Prop :=
  | run_nil c : clock_run c [] c
  | run_snoc c es c' e c'' :
      clock_run c es c' -> clock_step c' e c'' -> clock_run c (es ++ [e]) c''.

Definition seen (e : clock_event) (t : HLCTimestamp) : Prop :=
  e = Issued t \/ e = Accepted t.

Lemma Observe_refuse wall remote c c' : Observe wall remote c = (false, c') -> c' = c.
Proof.
  unfold Observe. destruct (_ <? _); [by (intros H0; injection H0 as <-)|].
  destruct (_ || _); [by (intros H0; injection H0 as <-)|done].
Qed.

Lemma clock_step_inv c e c' :
  clock_ok c -> clock_step c e c' ->
  clock_ok c' /\ (forall t, below t c -> below t c') /\ (forall t, seen e t -> below t c').
Proof.
  intros Hc Hs. destruct Hs as [wall c Hw Hsafe|wall r c c' Hw Hr Ho|wall r c c' Ho|p l c Hp Hl].
  - split; [by apply Now_ok|]. split; [intros t; by apply Now_below|].
    intros t [Hi|Hi]; [injection Hi as <-; apply Now_issued_below|done].
  - destruct (Observe_spec wall r c c') as (? & ? & ? & _); [done..|].
    split; [done|]. split; [done|]. intros t [Hi|Hi]; [done|by injection Hi as <-].
  - rewrite (Observe_refuse _ _ _ _ Ho). split; [done|]. split; [done|]. by intros t [?|?].
  - destruct (Restore_spec p l c) as (? & ? & _); [done..|].
    split; [done|]. split; [done|]. by intros t [?|?].
Qed.

Lemma clock_run_inv c es c' :
  clock_ok c -> clock_run c es c' ->
  clock_ok c' /\ (forall t, below t c -> below t c') /\
  (forall e t, e ∈ es -> seen e t -> below t c').
Proof.
  intros Hc Hr. induction Hr as [c|c es c' e c'' Hr IH Hs].
  - split; [done|]. split; [done|]. intros ? ? ?%elem_of_nil. done.
  - destruct (IH Hc) as (Hc' & Hb & Hin). destruct (clock_step_inv _ _ _ Hc' Hs) as (? & Hb' & Hn).
    split; [done|]. split; [eauto|].
    intros e0 t0 [?| ->%list_elem_of_singleton]%elem_of_app Hsee; eauto.
Qed.

Lemma new_clock_ok node : clock_ok (new_clock node).
Proof. split; split; simpl; lia. Qed.

Lemma clock_run_snoc_inv c es e c' :
  clock_run c (es ++ [e]) c' -> exists cm, clock_run c es cm /\ clock_step cm e c'.
Proof.
  remember (es ++ [e]) as l eqn:Hl. destruct 1 as [c|c es' cm e' c' Hr Hs].
  - symmetry in Hl. by apply app_nil in Hl as [_ ?].
  - apply app_inj_tail in Hl as [-> ->]. eauto.
Qed.

Lemma clock_run_app_inv c es1 es2 c' :
  clock_run c (es1 ++ es2) c' -> exists cm, clock_run c es1 cm /\ clock_run cm es2 c'.
Proof.
  revert c'. induction es2 as [|e es2 IH] using rev_ind; intros c' Hr.
  - rewrite app_nil_r in Hr. exists c'. split; [done|constructor].
  - rewrite app_assoc in Hr. apply clock_run_snoc_inv in Hr as (cm' & Hr' & Hs).
    destruct (IH _ Hr') as (cm & ? & ?).
    exists cm. split; [done|]. by econstructor.
Qed.

(** C9: every stamp issued by [Now] is strictly greater, in the order every
    merge uses, than each stamp the same clock issued or accepted from a peer
    earlier in the run -- provided no [Now] in the run starts from a saturated
    logical counter ([now_safe], part of [clock_step]). *)
Theorem hlc_issued_strictly_increasing node es1 e t1 es2 t2 es3 c' :
  clock_run (new_clock node) (es1 ++ [e] ++ es2 ++ [Issued t2] ++ es3) c' ->
  seen e t1 -> ts_lt t1 t2 = true.
Proof.
  intros Hr Hsee.
  replace (es1 ++ [e] ++ es2 ++ [Issued t2] ++ es3)
    with (((es1 ++ [e] ++ es2) ++ [Issued t2]) ++ es3) in Hr by (by rewrite <- !app_assoc).
  apply clock_run_app_inv in Hr as (cm & Hr & _).
  apply clock_run_snoc_inv in Hr as (c1 & Hr1 & Hs).
  destruct (clock_run_inv _ _ _ (new_clock_ok node) Hr1) as (Hc1 & _ & Hin).
  inversion Hs as [wall c Hw Hsafe| | |]; simplify_eq.
  apply Now_strict; [done..|]. eapply Hin; [|exact Hsee]. set_solver.
Qed.

Lemma hlc_issued_strictly_increasing_witness :
  exists t1 t2, ts_lt t1 t2 = true /\ t1 = mkTs 900 7 (bs "b") /\ t2 = mkTs 900 9 (bs "a").
Proof.
  exists (mkTs 900 7 (bs "b")), (mkTs 900 9 (bs "a")). split; [|done].
  eapply (hlc_issued_strictly_increasing (bs "a") [] (Accepted (mkTs 900 7 (bs "b")))
            (mkTs 900 7 (bs "b")) [] (mkTs 900 9 (bs "a")) []
            (mkClock (bs "a") 900 9)); [|by right].
  simpl. apply (run_snoc _ [Accepted (mkTs 900 7 (bs "b"))] (mkClock (bs "a") 900 8)).
  - apply (run_snoc _ [] (new_clock (bs "a"))); [constructor|].
    apply (step_observe 100); [split; done|split; split; done|done].
  - apply (step_now 100 (mkClock (bs "a") 900 8)); [split; done|done].
Defined.

(** The header's unconditional promise ("guaranteed greater than every
    timestamp this clock has produced or observed") fails at the saturation
    edge: [Observe] accepts a remote stamp whose logical counter is
    UINT32_MAX - 1, which leaves the counter at UINT32_MAX, and the next
    [Now] wraps it to 0, so the stamp it issues is smaller than the accepted one. *)
Theorem hlc_now_wraps_after_accepted_stamp :
  exists wall remote c c',
    clock_ok c /\ ts_ok remote /\ Observe wall remote c = (true, c') /\
    ts_lt (fst (Now wall c')) remote = true.
Proof.
  exists 1000, (mkTs 2000 (UINT32_MAX - 1) (bs "evil")), (new_clock (bs "a")).
  eexists. repeat split; vm_compute; done.
Qed.

Definition stamp_bounded (c : HybridLogicalClock) (w : Z) : Prop :=
  last_physical c <= w + kMaxFutureSkewMs.

(** [Observe] never lets a peer pull the clock more than
    kMaxFutureSkewMs past the local wall clock: an accepted stamp keeps the
    physical part within the skew bound, a refused one changes nothing, and
    refusal happens exactly when the stamp is too far ahead or a counter is
    saturated. *)
Theorem hlc_observe_skew_bound wall remote c :
  0 <= wall < 2 ^ 64 - kMaxFutureSkewMs -> stamp_bounded c wall ->
  stamp_bounded (snd (Observe wall remote c)) wall /\
  (fst (Observe wall remote c) = false -> snd (Observe wall remote c) = c) /\
  (fst (Observe wall remote c) = false <->
   wall + kMaxFutureSkewMs < physical_ms remote \/
   last_logical c = UINT32_MAX \/ logical remote = UINT32_MAX).
Proof.
  unfold stamp_bounded, Observe. intros Hw Hb.
  rewrite (wrap_id 64) by (unfold fits, kMaxFutureSkewMs in *; lia).
  destruct (Z.ltb_spec (wall + kMaxFutureSkewMs) (physical_ms remote)); [simpl; intuition lia|].
  destruct (Z.eqb_spec (last_logical c) UINT32_MAX), (Z.eqb_spec (logical remote) UINT32_MAX);
    simpl; try (intuition lia).
  split; [unfold kMaxFutureSkewMs in *; lia|]. split; [done|].
  split; [done|]. intuition lia.
Qed.

Lemma hlc_observe_skew_bound_witness :
  stamp_bounded (snd (Observe 1000 (mkTs 2000 3 (bs "b")) (new_clock (bs "a")))) 1000.
Proof.
  apply (hlc_observe_skew_bound 1000 (mkTs 2000 3 (bs "b")) (new_clock (bs "a")));
    vm_compute; intuition discriminate.
Defined.
