(* ===== verification/Json.v ===== *)
(** * JSON values: include/desentry/common/json.h

    [JsonValue] with its accessors and object helpers, the numeric views used
    by [JsonEquals], and [std::to_string] on integers.  A double is its IEEE-754
    bit pattern; numeric comparison goes through the Standard Library's
    executable [spec_float]. *)
From Stdlib Require Import SpecFloat.
From S2P Require Import Prelude Bytes.
Local Open Scope Z_scope.

(** ** Values *)
#[local] Unset Elimination Schemes.
Inductive JsonValue :=
  | JNull
  | JBool (b : bool)
  | JInt (i : Z)                                (* int64_t *)
  | JDouble (bits : Z)                          (* double *)
  | JString (s : bytes)
  | JArray (a : list JsonValue)
  | JObject (o : list (bytes * JsonValue)).
#[local] Set Elimination Schemes.

Section JsonInd.
Variable P : JsonValue -> Prop.
Hypothesis Hnull : P JNull.
Hypothesis Hbool : forall b, P (JBool b).
Hypothesis Hint : forall i, P (JInt i).
Hypothesis Hdouble : forall d, P (JDouble d).
Hypothesis Hstring : forall s, P (JString s).
Hypothesis Harray : forall a, Forall P a -> P (JArray a).
Hypothesis Hobject : forall o, Forall (fun kv => P (snd kv)) o -> P (JObject o).

Fixpoint JsonValue_ind (v : JsonValue) : P v :=
  match v with
  | JNull => Hnull
  | JBool b => Hbool b
  | JInt i => Hint i
  | JDouble d => Hdouble d
  | JString s => Hstring s
  | JArray a => Harray a
      ((fix go l : Forall P l :=
          match l with
          | [] => Forall_nil_2 P
          | x :: l' => Forall_cons_2 P x l' (JsonValue_ind x) (go l')
          end) a)
  | JObject o => Hobject o
      ((fix go l : Forall (fun kv => P (snd kv)) l :=
          match l with
          | [] => Forall_nil_2 _
          | kv :: l' => Forall_cons_2 (fun kv => P (snd kv)) kv l' (JsonValue_ind (snd kv)) (go l')
          end) o)
  end.
End JsonInd.

Definition is_object (v : JsonValue) : bool := match v with JObject _ => true | _ => false end.
Definition is_array (v : JsonValue) : bool := match v with JArray _ => true | _ => false end.

(** The fields an object value has ([obj_] is empty for every other kind). *)
Definition AsObject (v : JsonValue) : list (bytes * JsonValue) :=
  match v with JObject o => o | _ => [] end.
Definition AsArray (v : JsonValue) : list JsonValue :=
  match v with JArray a => a | _ => [] end.

Definition Find (v : JsonValue) (key : bytes) : option JsonValue := assoc key (AsObject v).
Definition Has (v : JsonValue) (key : bytes) : bool := bool_decide (is_Some (Find v key)).
Definition Get (v : JsonValue) (key : bytes) : JsonValue := default JNull (Find v key).

(** ** Doubles *)
Definition f64_of_bits (z : Z) : spec_float :=
  let s := Z.testbit z 63 in
  let e := Z.land (Z.shiftr z 52) 2047 in
  let m := Z.land z (2 ^ 52 - 1) in
  if e =? 0 then
    match m with Zpos p => S754_finite s p (-1074) | _ => S754_zero s end
  else if e =? 2047 then
    if m =? 0 then S754_infinity s else S754_nan
  else S754_finite s (Z.to_pos (m + 2 ^ 52)) (e - 1075).

(** [static_cast<double>(int64_t)]: round to nearest even. *)
Definition f64_of_int (i : Z) : spec_float := binary_normalize 53 1024 i 0 false.

(** [AsDouble] *)
Definition AsDouble (v : JsonValue) : spec_float :=
  match v with JInt i => f64_of_int i | JDouble d => f64_of_bits d | _ => S754_zero false end.

Definition is_nan64 (bits : Z) : bool :=
  match f64_of_bits bits with S754_nan => true | _ => false end.

Lemma SFeqb_refl (f : spec_float) :
  match f with S754_nan => true | _ => false end = false -> SFeqb f f = true.
Proof.
  destruct f as [[]|[]| |[] m e]; try done; intros _; unfold SFeqb, SFcompare; simpl;
    rewrite Z.compare_refl; simpl;
    change (Pos.compare_cont Eq m m) with (Pos.compare m m); by rewrite Pos.compare_refl.
Qed.

(** ** std::to_string on integers *)
Definition digit (n : Z) : byte := byte.of_Z (48 + n).

Fixpoint dec_digits (fuel : nat) (n : Z) (acc : bytes) : bytes :=
  match fuel with
  | O => acc
  | S f =>
      let acc' := digit (n mod 10) :: acc in
      if n / 10 =? 0 then acc' else dec_digits f (n / 10) acc'
  end.

(** Twenty decimal digits hold every 64-bit value. *)
Definition to_string (z : Z) : bytes :=
  if z <? 0 then bs "-" ++ dec_digits 20 (- z) [] else dec_digits 20 z [].

(** The number a run of digits denotes, continuing from [acc]. *)
Definition dec_value (s : bytes) (acc : Z) : Z :=
  fold_left (fun a b => 10 * a + (uc b - 48)) s acc.

Lemma digit_uc n : 0 <= n < 10 -> uc (digit n) = 48 + n.
Proof.
  intros H. unfold uc, digit. rewrite byte.unsigned_of_Z. unfold byte.wrap.
  apply Z.mod_small. lia.
Qed.

Definition is_digit (b : byte) : bool := (48 <=? uc b) && (uc b <=? 57).

Lemma digit_is_digit n : 0 <= n < 10 -> is_digit (digit n) = true.
Proof. intros H. unfold is_digit. rewrite digit_uc by done. lia. Qed.

Lemma dec_digits_digits fuel n acc :
  0 <= n -> Forall (fun b => is_digit b = true) acc ->
  Forall (fun b => is_digit b = true) (dec_digits fuel n acc).
Proof.
  revert n acc. induction fuel as [|fuel IH]; intros n acc Hn Hacc; simpl; [done|].
  pose proof (Z.mod_pos_bound n 10 ltac:(lia)).
  assert (Forall (fun b => is_digit b = true) (digit (n mod 10) :: acc)).
  { constructor; [by apply digit_is_digit|done]. }
  destruct (n / 10 =? 0); [done|]. apply IH; [apply Z.div_pos; lia|done].
Qed.

Lemma dec_value_app s1 s2 acc : dec_value (s1 ++ s2) acc = dec_value s2 (dec_value s1 acc).
Proof. apply fold_left_app. Qed.

Lemma dec_digits_app fuel n acc : dec_digits fuel n acc = dec_digits fuel n [] ++ acc.
Proof.
  revert n acc. induction fuel as [|fuel IH]; intros n acc; simpl; [done|].
  destruct (n / 10 =? 0); [done|].
  rewrite (IH _ (_ :: acc)), (IH _ [_]). by rewrite <- app_assoc.
Qed.

Lemma dec_digits_value fuel n :
  0 <= n < 10 ^ Z.of_nat fuel -> dec_value (dec_digits fuel n []) 0 = n.
Proof.
  revert n. induction fuel as [|fuel IH]; intros n Hn; [simpl in *; lia|].
  cbn [dec_digits]. pose proof (Z.mod_pos_bound n 10 ltac:(lia)).
  pose proof (Z.div_mod n 10 ltac:(lia)).
  destruct (Z.eqb_spec (n / 10) 0) as [E|E].
  - unfold dec_value. simpl. rewrite digit_uc by lia. lia.
  - rewrite dec_digits_app, dec_value_app, IH.
    + unfold dec_value. simpl. rewrite digit_uc by lia. lia.
    + split; [apply Z.div_pos; lia|]. apply Z.div_lt_upper_bound; [lia|].
      rewrite Nat2Z.inj_succ, Z.pow_succ_r in Hn by lia. lia.
Qed.

Lemma fits64_dec n : fits 64 n -> 0 <= n < 10 ^ Z.of_nat 20.
Proof. unfold fits. change (10 ^ Z.of_nat 20) with 100000000000000000000. lia. Qed.

Lemma to_string_value n : fits 64 n -> dec_value (to_string n) 0 = n.
Proof.
  intros H. unfold to_string. destruct (Z.ltb_spec n 0); [unfold fits in *; lia|].
  by apply dec_digits_value, fits64_dec.
Qed.

Lemma to_string_inj n1 n2 :
  fits 64 n1 -> fits 64 n2 -> to_string n1 = to_string n2 -> n1 = n2.
Proof.
  intros H1 H2 H. rewrite <- (to_string_value n1 H1), <- (to_string_value n2 H2). by rewrite H.
Qed.

Lemma to_string_digits n : 0 <= n -> Forall (fun b => is_digit b = true) (to_string n).
Proof.
  intros H. unfold to_string. destruct (Z.ltb_spec n 0); [lia|]. by apply dec_digits_digits.
Qed.
