(* ===== verification/JsonText.v ===== *)
(** * JSON text: the serializer and the parser of src/common/json.cpp

    [DumpTo] writes a value, [Parse] is the recursive-descent parser over the
    characters that remain; every exception is [None].  [ostream << double]
    (six significant digits, the [%g] rules) and [std::stod] (nearest even;
    [out_of_range] on overflow and on an inexact subnormal) are written out over
    exact rationals.  The native call stack is not bounded. *)
From Stdlib Require Import SpecFloat.
From S2P Require Import Prelude Bytes Json.
Local Open Scope Z_scope.

(** ** Strings *)
Definition hex4 (c : Z) : bytes := map hex_digit [c / 4096 mod 16; c / 256 mod 16; c / 16 mod 16; c mod 16].

Definition escape_char (c : byte) : bytes :=
  if bool_decide (c = Byte.x22) then [Byte.x5c; Byte.x22]
  else if bool_decide (c = Byte.x5c) then [Byte.x5c; Byte.x5c]
  else if bool_decide (c = Byte.x0a) then [Byte.x5c; Byte.x6e]
  else if bool_decide (c = Byte.x0d) then [Byte.x5c; Byte.x72]
  else if bool_decide (c = Byte.x09) then [Byte.x5c; Byte.x74]
  else if uc c <? 0x20 then [Byte.x5c; Byte.x75] ++ hex4 (uc c)
  else [c].

Definition EscapeStringTo (s : bytes) : bytes := [Byte.x22] ++ concat (map escape_char s) ++ [Byte.x22].

(** ** Doubles: [ostream << double] with the default precision *)
Definition round_half_even (n d : Z) : Z :=
  let q := n / d in
  let r := n mod d in
  if 2 * r <? d then q else if d <? 2 * r then q + 1 else if Z.even q then q else q + 1.

(** The greatest [x] of a descending search with [10^x <= n/d]. *)
Fixpoint dec_exponent (fuel : nat) (x n d : Z) : Z :=
  match fuel with
  | O => x
  | S f => if 10 ^ Z.max x 0 * d <=? n * 10 ^ Z.max (- x) 0 then x else dec_exponent f (x - 1) n d
  end.

(** Significant digits and decimal exponent, rounded to six digits. *)
Definition six_digits (n d : Z) : Z * Z :=
  let x := dec_exponent 640 309 n d in
  let m := round_half_even (n * 10 ^ Z.max (5 - x) 0) (d * 10 ^ Z.max (x - 5) 0) in
  if m =? 1000000 then (100000, x + 1) else (m, x).

Fixpoint strip_zeros (rev : bytes) : bytes :=
  match rev with
  | Byte.x30 :: rev' => strip_zeros rev'
  | _ => rev
  end.

(** A fraction without its trailing zeros, and without its point when empty. *)
Definition fraction (ds : bytes) : bytes :=
  match reverse (strip_zeros (reverse ds)) with [] => [] | f => [Byte.x2e] ++ f end.

Definition general_text (m x : Z) : bytes :=
  let ds := to_string m in
  if (x <? -4) || (6 <=? x) then
    take 1 ds ++ fraction (drop 1 ds) ++ [Byte.x65] ++ (if x <? 0 then [Byte.x2d] else [Byte.x2b])
    ++ (if Z.abs x <? 10 then [Byte.x30] else []) ++ to_string (Z.abs x)
  else if x <? 0 then [Byte.x30] ++ fraction (replicate (Z.to_nat (- x - 1)) Byte.x30 ++ ds)
  else take (Z.to_nat (x + 1)) ds ++ fraction (drop (Z.to_nat (x + 1)) ds).

Definition double_text (bits : Z) : bytes :=
  match f64_of_bits bits with
  | S754_zero s => (if s then [Byte.x2d] else []) ++ [Byte.x30]
  | S754_finite s m e =>
      let '(ds, x) := six_digits (Zpos m * 2 ^ Z.max e 0) (2 ^ Z.max (- e) 0) in
      (if s then [Byte.x2d] else []) ++ general_text ds x
  | _ => [Byte.x30]
  end.

(** ** The serializer *)
Fixpoint join_comma (l : list bytes) : bytes :=
  match l with
  | [] => []
  | [x] => x
  | x :: l' => x ++ [Byte.x2c] ++ join_comma l'
  end.

Definition member_text (kv : bytes * bytes) : bytes := EscapeStringTo (fst kv) ++ [Byte.x3a] ++ snd kv.

Fixpoint DumpTo (canonical : bool) (v : JsonValue) : bytes :=
  match v with
  | JNull => bs "null"
  | JBool b => if b then bs "true" else bs "false"
  | JInt i => to_string i
  | JDouble bits => double_text bits
  | JString s => EscapeStringTo s
  | JArray a => [Byte.x5b] ++ join_comma (map (DumpTo canonical) a) ++ [Byte.x5d]
  | JObject o =>
      let fields := map (fun kv => (fst kv, DumpTo canonical (snd kv))) o in
      let ordered := if canonical then std_sort str_lt fst fields else fields in
      [Byte.x7b] ++ join_comma (map member_text ordered) ++ [Byte.x7d]
  end.

Definition Dump : JsonValue -> bytes := DumpTo false.
Definition CanonicalDump : JsonValue -> bytes := DumpTo true.

(** ** The parser *)
Definition is_ws (c : byte) : bool :=
  bool_decide (c = Byte.x20) || bool_decide (c = Byte.x09) || bool_decide (c = Byte.x0a) || bool_decide (c = Byte.x0d).

Fixpoint SkipWs (s : bytes) : bytes :=
  match s with c :: s' => if is_ws c then SkipWs s' else s | [] => [] end.

Definition Expect (c : byte) : Reader unit := fun s =>
  match s with x :: s' => if bool_decide (x = c) then Some (tt, s') else None | [] => None end.

Definition hex_val (h : byte) : option Z :=
  let c := uc h in
  if (48 <=? c) && (c <=? 57) then Some (c - 48)
  else if (97 <=? c) && (c <=? 102) then Some (c - 97 + 10)
  else if (65 <=? c) && (c <=? 70) then Some (c - 65 + 10)
  else None.

(** UTF-8 for one code unit; surrogates are not paired. *)
Definition utf8 (cp : Z) : bytes :=
  if cp <? 0x80 then [byte.of_Z cp]
  else if cp <? 0x800 then [byte.of_Z (Z.lor 0xC0 (Z.shiftr cp 6)); byte.of_Z (Z.lor 0x80 (Z.land cp 0x3F))]
  else [byte.of_Z (Z.lor 0xE0 (Z.shiftr cp 12)); byte.of_Z (Z.lor 0x80 (Z.land (Z.shiftr cp 6) 0x3F));
        byte.of_Z (Z.lor 0x80 (Z.land cp 0x3F))].

Definition simple_escape (e : byte) : option byte :=
  match e with
  | Byte.x22 => Some Byte.x22
  | Byte.x5c => Some Byte.x5c
  | Byte.x2f => Some Byte.x2f
  | Byte.x6e => Some Byte.x0a
  | Byte.x74 => Some Byte.x09
  | Byte.x72 => Some Byte.x0d
  | Byte.x62 => Some Byte.x08
  | Byte.x66 => Some Byte.x0c
  | _ => None
  end.

(** The body of a string up to its closing quote. *)
Fixpoint string_loop (s : bytes) : option (bytes * bytes) :=
  match s with
  | [] => None
  | Byte.x22 :: s' => Some ([], s')
  | Byte.x5c :: Byte.x75 :: s' =>
      match s' with
      | h1 :: h2 :: h3 :: h4 :: s'' =>
          d1 ← hex_val h1; d2 ← hex_val h2; d3 ← hex_val h3; d4 ← hex_val h4;
          let cp := Z.lor (Z.shiftl (Z.lor (Z.shiftl (Z.lor (Z.shiftl d1 4) d2) 4) d3) 4) d4 in
          '(out, rest) ← string_loop s''; Some (utf8 cp ++ out, rest)
      | _ => None
      end
  | Byte.x5c :: e :: s' =>
      c ← simple_escape e; '(out, rest) ← string_loop s'; Some (c :: out, rest)
  | Byte.x5c :: [] => None
  | c :: s' => '(out, rest) ← string_loop s'; Some (c :: out, rest)
  end.

Definition ParseString : Reader bytes := (_ <-r Expect Byte.x22 ;; string_loop)%reader.

Definition literal (text : bytes) (v : JsonValue) : Reader JsonValue := fun s =>
  if bool_decide (take (length text) s = text) then Some (v, drop (length text) s) else None.

Definition ParseBool : Reader JsonValue := fun s =>
  match literal (bs "true") (JBool true) s with
  | Some r => Some r
  | None => literal (bs "false") (JBool false) s
  end.

Definition ParseNull : Reader JsonValue := literal (bs "null") JNull.

Fixpoint digits (s : bytes) : bytes * bytes :=
  match s with
  | c :: s' => if is_digit c then let '(d, r) := digits s' in (c :: d, r) else ([], s)
  | [] => ([], [])
  end.

(** The nearest double to [n/d], as the 63 low bits; [None]: [ERANGE]. *)
Definition nearest_double (n d : Z) : option Z :=
  if n =? 0 then Some 0
  else
    let k0 := Z.log2 n - Z.log2 d in
    let k := if d * 2 ^ Z.max k0 0 <=? n * 2 ^ Z.max (- k0) 0 then k0 else k0 - 1 in
    let e := Z.max (k - 52) (-1074) in
    let num := n * 2 ^ Z.max (- e) 0 in
    let den := d * 2 ^ Z.max e 0 in
    let m := round_half_even num den in
    let bits := (e + 1074) * 2 ^ 52 + m in
    if 0x7FF0000000000000 <=? bits then None
    else if (m <? 2 ^ 52) && negb (num mod den =? 0) then None
    else Some bits.

(** [std::stod] on a token of the scanner: the longest valid prefix is converted. *)
Definition stod (neg : bool) (ip : bytes) (frac : option bytes) (exp : option (bool * bytes)) : option Z :=
  let f := default [] frac in
  if bool_decide (ip ++ f = []) then None
  else
    let x := match exp with Some (eneg, ds) => if eneg then - dec_value ds 0 else dec_value ds 0 | None => 0 end in
    let e := x - Zlen f in
    bits ← nearest_double (dec_value (ip ++ f) 0 * 10 ^ Z.max e 0) (10 ^ Z.max (- e) 0);
    Some ((if neg then 2 ^ 63 else 0) + bits).

(** The pieces of a number token: sign, fraction, exponent. *)
Definition split_sign (s : bytes) : bool * bytes :=
  match s with Byte.x2d :: s' => (true, s') | _ => (false, s) end.

Definition split_fraction (s : bytes) : option bytes * bytes :=
  match s with
  | Byte.x2e :: s' => let '(f, r) := digits s' in (Some f, r)
  | _ => (None, s)
  end.

Definition split_exp_sign (s : bytes) : bool * bytes :=
  match s with
  | Byte.x2b :: s' => (false, s')
  | Byte.x2d :: s' => (true, s')
  | _ => (false, s)
  end.

Definition split_exponent (s : bytes) : option (bool * bytes) * bytes :=
  match s with
  | Byte.x65 :: s' | Byte.x45 :: s' =>
      let '(eneg, s'') := split_exp_sign s' in let '(ds, r) := digits s'' in (Some (eneg, ds), r)
  | _ => (None, s)
  end.

Definition ParseNumber : Reader JsonValue := fun s =>
  let '(neg, s1) := split_sign s in
  let '(ip, s2) := digits s1 in
  let '(frac, s3) := split_fraction s2 in
  let '(exp, s4) := split_exponent s3 in
  let as_double := bits ← stod neg ip frac exp; Some (JDouble bits, s4) in
  match frac, exp with
  | None, None =>
      if bool_decide (ip = []) then None
      else let z := (if neg then -1 else 1) * dec_value ip 0 in
           if (- 2 ^ 63 <=? z) && (z <? 2 ^ 63) then Some (JInt z, s4) else as_double
  | _, _ => as_double
  end.

Definition Peek (s : bytes) : byte := match s with c :: _ => c | [] => Byte.x00 end.

(** The recursive descent, by fuel; the two loops take an element or a member
    and continue after a comma. *)
Fixpoint ParseValue (fuel : nat) (s : bytes) : option (JsonValue * bytes) :=
  match fuel with
  | O => None
  | S f =>
      match SkipWs s with
      | [] => None
      | c :: s' =>
          if bool_decide (c = Byte.x7b) then
            let s1 := SkipWs s' in
            if bool_decide (Peek s1 = Byte.x7d) then Some (JObject [], drop 1 s1)
            else '(o, r) ← object_loop f s1; Some (JObject o, r)
          else if bool_decide (c = Byte.x5b) then
            let s1 := SkipWs s' in
            if bool_decide (Peek s1 = Byte.x5d) then Some (JArray [], drop 1 s1)
            else '(a, r) ← array_loop f s1; Some (JArray a, r)
          else if bool_decide (c = Byte.x22) then '(x, r) ← ParseString (c :: s'); Some (JString x, r)
          else if bool_decide (c = Byte.x74) || bool_decide (c = Byte.x66) then ParseBool (c :: s')
          else if bool_decide (c = Byte.x6e) then ParseNull (c :: s')
          else if bool_decide (c = Byte.x2d) || is_digit c then ParseNumber (c :: s')
          else None
      end
  end
with object_loop (fuel : nat) (s : bytes) : option (list (bytes * JsonValue) * bytes) :=
  match fuel with
  | O => None
  | S f =>
      let s0 := SkipWs s in
      if negb (bool_decide (Peek s0 = Byte.x22)) then None
      else
        '(key, s1) ← ParseString s0;
        '(_, s2) ← Expect Byte.x3a (SkipWs s1);
        '(v, s3) ← ParseValue f s2;
        let s4 := SkipWs s3 in
        if bool_decide (Peek s4 = Byte.x2c) then '(o, r) ← object_loop f (drop 1 s4); Some ((key, v) :: o, r)
        else if bool_decide (Peek s4 = Byte.x7d) then Some ([(key, v)], drop 1 s4)
        else None
  end
with array_loop (fuel : nat) (s : bytes) : option (list JsonValue * bytes) :=
  match fuel with
  | O => None
  | S f =>
      '(v, s3) ← ParseValue f s;
      let s4 := SkipWs s3 in
      if bool_decide (Peek s4 = Byte.x2c) then '(a, r) ← array_loop f (drop 1 s4); Some (v :: a, r)
      else if bool_decide (Peek s4 = Byte.x5d) then Some ([v], drop 1 s4)
      else None
  end.

Definition strip_bom (s : bytes) : bytes :=
  match s with Byte.xef :: Byte.xbb :: Byte.xbf :: s' => s' | _ => s end.

Definition parse_fuel (s : bytes) : nat := 2 * length s + 2.

Definition Parse (text : bytes) : option JsonValue :=
  let s := strip_bom text in
  '(v, r) ← ParseValue (parse_fuel s) s;
  match SkipWs r with [] => Some v | _ => None end.

(** ** Parsing what was written *)
Fixpoint no_double (v : JsonValue) : bool :=
  match v with
  | JInt i => (- 2 ^ 63 <=? i) && (i <? 2 ^ 63)
  | JDouble _ => false
  | JArray a => forallb no_double a
  | JObject o => forallb (fun kv => no_double (snd kv)) o
  | _ => true
  end.

(** What may follow a number without extending it. *)
Definition stops (rest : bytes) : Prop :=
  match rest with
  | [] => True
  | c :: _ => is_digit c = false /\ c <> Byte.x2e /\ c <> Byte.x65 /\ c <> Byte.x45
  end.

Lemma string_loop_char c s :
  string_loop (escape_char c ++ s) = '(out, rest) ← string_loop s; Some (c :: out, rest).
Proof. destruct c; reflexivity. Qed.

Lemma ParseString_escape s rest : ParseString (EscapeStringTo s ++ rest) = Some (s, rest).
Proof.
  unfold ParseString, EscapeStringTo, rbind. cbn [app Expect]. rewrite bool_decide_eq_true_2 by done.
  rewrite <- app_assoc. induction s as [|c s IH]; [done|]. cbn [map concat].
  rewrite <- app_assoc, string_loop_char, IH. done.
Qed.

Lemma digits_app ds rest :
  Forall (fun b => is_digit b = true) ds -> stops rest -> digits (ds ++ rest) = (ds, rest).
Proof.
  induction 1 as [|d ds Hd _ IH]; intros Hr; cbn [app digits].
  - destruct rest as [|c rest]; [done|]. destruct Hr as [Hr _]. cbn. by rewrite Hr.
  - by rewrite Hd, (IH Hr).
Qed.

Lemma dec_digits_nonnil fuel n acc : dec_digits (S fuel) n acc <> [].
Proof.
  revert n acc. induction fuel as [|fuel IH]; intros n acc; cbn [dec_digits].
  - by destruct (n / 10 =? 0).
  - destruct (n / 10 =? 0); [done|]. apply IH.
Qed.

(** The scan of an integer token: no fraction and no exponent follows. *)
Lemma ParseNumber_digits (neg : bool) ds rest :
  ds <> [] -> Forall (fun b => is_digit b = true) ds -> stops rest ->
  let z := (if neg then -1 else 1) * dec_value ds 0 in
  - 2 ^ 63 <= z < 2 ^ 63 ->
  ParseNumber ((if neg then [Byte.x2d] else []) ++ ds ++ rest) = Some (JInt z, rest).
Proof.
  intros Hne Hds Hr z Hz. unfold ParseNumber.
  assert (split_sign ((if neg then [Byte.x2d] else []) ++ ds ++ rest) = (neg, ds ++ rest)) as ->.
  { destruct neg; [done|]. destruct ds as [|d ds]; [done|]. apply Forall_cons in Hds as [Hd _].
    cbn [app]. destruct d; first [done|vm_compute in Hd; discriminate]. }
  rewrite (digits_app ds rest Hds Hr).
  assert (split_fraction rest = (None, rest)) as ->.
  { destruct rest as [|c rest]; [done|]. destruct Hr as (_ & H & _). destruct c; done. }
  assert (split_exponent rest = (None, rest)) as ->.
  { destruct rest as [|c rest]; [done|]. destruct Hr as (_ & _ & H1 & H2). destruct c; done. }
  rewrite bool_decide_eq_false_2 by done. fold z.
  rewrite (proj2 (Z.leb_le _ _) (proj1 Hz)), (proj2 (Z.ltb_lt _ _) (proj2 Hz)). done.
Qed.

Lemma ParseNumber_to_string i rest : sfits 64 i -> stops rest ->
  ParseNumber (to_string i ++ rest) = Some (JInt i, rest).
Proof.
  unfold sfits. intros Hi Hr. unfold to_string. change (2 ^ (64 - 1)) with (2 ^ 63) in Hi.
  destruct (Z.ltb_spec i 0) as [H|H].
  - pose proof (ParseNumber_digits true (dec_digits 20 (- i) []) rest) as HP. cbv zeta in HP.
    rewrite dec_digits_value in HP by (apply fits64_dec; unfold fits; lia).
    replace (-1 * - i) with i in HP by lia. rewrite <- app_assoc. apply HP;
      [apply dec_digits_nonnil|apply dec_digits_digits; [lia|done]|done|lia].
  - pose proof (ParseNumber_digits false (dec_digits 20 i []) rest) as HP. cbv zeta in HP.
    rewrite dec_digits_value in HP by (apply fits64_dec; unfold fits; lia).
    rewrite Z.mul_1_l in HP. apply HP; [apply dec_digits_nonnil|by apply dec_digits_digits|done|lia].
Qed.

(** The first character of a serialized value. *)
Definition starts_value (s : bytes) : Prop :=
  exists c s', s = c :: s' /\ is_ws c = false /\ c <> Byte.x5d /\ c <> Byte.x7d.

Lemma to_string_head i : sfits 64 i ->
  exists c s', to_string i = c :: s' /\ (c = Byte.x2d \/ is_digit c = true).
Proof.
  intros Hi. unfold to_string. destruct (Z.ltb_spec i 0); [by eexists _, _; split; [|left]|].
  pose proof (dec_digits_digits 20 i [] H (Forall_nil_2 _)) as Hd.
  destruct (dec_digits 20 i []) as [|c s'] eqn:E; [by apply dec_digits_nonnil in E|].
  apply Forall_cons in Hd as [Hd _]. eexists _, _. split; [done|by right].
Qed.

Lemma number_head c : c = Byte.x2d \/ is_digit c = true ->
  is_ws c = false /\ c <> Byte.x5d /\ c <> Byte.x7d /\ c <> Byte.x7b /\ c <> Byte.x5b
  /\ c <> Byte.x22 /\ c <> Byte.x74 /\ c <> Byte.x66 /\ c <> Byte.x6e.
Proof. intros [->|H]; [done|]. destruct c; first [done|vm_compute in H; discriminate]. Qed.

Lemma int_ok i : no_double (JInt i) = true -> sfits 64 i.
Proof.
  cbn. intros [H1 H2]%andb_true_iff. apply Z.leb_le in H1. apply Z.ltb_lt in H2.
  unfold sfits. change (2 ^ (64 - 1)) with (2 ^ 63). lia.
Qed.

Lemma Dump_starts v : no_double v = true -> starts_value (Dump v).
Proof.
  intros Hv. destruct v as [|[]|i|d|s|a|o]; try done; try (by eexists _, _).
  destruct (to_string_head i (int_ok i Hv)) as (c & s' & E & Hc).
  exists c, s'. destruct (number_head c Hc) as (H1 & H2 & H3 & _). done.
Qed.

Lemma SkipWs_start s rest : starts_value s -> SkipWs (s ++ rest) = s ++ rest.
Proof. intros (c & s' & -> & H & _). cbn. by rewrite H. Qed.

Definition parses (v : JsonValue) : Prop :=
  forall f rest, stops rest -> (2 * length (Dump v) + 1 <= f)%nat -> ParseValue f (Dump v ++ rest) = Some (v, rest).

Lemma array_loop_ok a f rest :
  a <> [] -> Forall parses a -> (2 * length (join_comma (map Dump a)) + 2 <= f)%nat ->
  array_loop f (join_comma (map Dump a) ++ Byte.x5d :: rest) = Some (a, rest).
Proof.
  intros Hne Ha. revert f. induction Ha as [|v a Hv Ha IH]; intros f Hf; [done|].
  destruct f as [|f]; [lia|]. destruct a as [|v' a].
  - cbn [map join_comma] in *. cbn [array_loop]. rewrite Hv by (cbn; first [done|lia]).
    cbn [mbind option_bind SkipWs]. done.
  - change (join_comma (map Dump (v :: v' :: a)))
      with (Dump v ++ [Byte.x2c] ++ join_comma (map Dump (v' :: a))) in *.
    rewrite !length_app in Hf. rewrite <- !app_assoc. cbn [array_loop length app] in *.
    rewrite Hv by (cbn; first [done|lia]). cbn [mbind option_bind].
    set (tail := join_comma (map Dump (v' :: a)) ++ Byte.x5d :: rest).
    change (SkipWs (Byte.x2c :: tail)) with (Byte.x2c :: tail). cbn [Peek drop].
    rewrite bool_decide_eq_true_2 by done. unfold tail. rewrite IH by (first [done|lia]). done.
Qed.

Definition member (kv : bytes * JsonValue) : bytes := member_text (fst kv, Dump (snd kv)).

Lemma object_loop_ok o f rest :
  o <> [] -> Forall (fun kv => parses (snd kv)) o -> (2 * length (join_comma (map member o)) + 2 <= f)%nat ->
  object_loop f (join_comma (map member o) ++ Byte.x7d :: rest) = Some (o, rest).
Proof.
  intros Hne Ho. revert f. induction Ho as [|[k v] o Hv Ho IH]; intros f Hf; [done|].
  destruct f as [|f]; [lia|]. cbn [snd] in Hv.
  assert (forall r, SkipWs (EscapeStringTo k ++ r) = EscapeStringTo k ++ r
    /\ Peek (EscapeStringTo k ++ r) = Byte.x22) as Hk by done.
  destruct o as [|kv' o].
  - cbn [map join_comma] in *. unfold member, member_text in *. cbn [fst snd] in *.
    rewrite !length_app in Hf. rewrite <- !app_assoc. cbn [object_loop].
    rewrite (proj1 (Hk _)), (proj2 (Hk _)). cbn [negb]. rewrite bool_decide_eq_true_2 by done. cbn [negb].
    rewrite ParseString_escape. cbn [mbind option_bind app]. set (tail := Byte.x7d :: rest).
    change (SkipWs (Byte.x3a :: Dump v ++ tail)) with (Byte.x3a :: Dump v ++ tail).
    cbn [Expect]. rewrite bool_decide_eq_true_2 by done. cbn [mbind option_bind].
    rewrite Hv by (cbn; first [done|lia]). done.
  - change (join_comma (map member ((k, v) :: kv' :: o)))
      with (member (k, v) ++ [Byte.x2c] ++ join_comma (map member (kv' :: o))) in *.
    unfold member at 1 in Hf. unfold member at 1. unfold member_text in *. cbn [fst snd] in *.
    rewrite !length_app in Hf. rewrite <- !app_assoc. cbn [object_loop].
    rewrite (proj1 (Hk _)), (proj2 (Hk _)). rewrite bool_decide_eq_true_2 by done. cbn [negb].
    rewrite ParseString_escape. cbn [mbind option_bind app].
    set (tail := join_comma (map member (kv' :: o)) ++ Byte.x7d :: rest).
    change (SkipWs (Byte.x3a :: Dump v ++ Byte.x2c :: tail)) with (Byte.x3a :: Dump v ++ Byte.x2c :: tail).
    cbn [Expect]. rewrite bool_decide_eq_true_2 by done. cbn [mbind option_bind].
    cbn [length] in Hf. rewrite Hv by (cbn; first [done|lia]). cbn [mbind option_bind].
    change (SkipWs (Byte.x2c :: tail)) with (Byte.x2c :: tail). cbn [Peek drop].
    rewrite bool_decide_eq_true_2 by done. unfold tail. rewrite IH by (first [done|lia]). done.
Qed.

Lemma ParseValue_array f a rest :
  Forall parses a -> Forall (fun v => no_double v = true) a ->
  (2 * length (Dump (JArray a)) + 1 <= f)%nat ->
  ParseValue f (Dump (JArray a) ++ rest) = Some (JArray a, rest).
Proof.
  intros Ha Hok Hf. destruct f as [|f]; [lia|]. unfold Dump in *. cbn [DumpTo] in *.
  fold Dump in *. rewrite !length_app in Hf. cbn [length] in Hf. rewrite <- !app_assoc. cbn [app ParseValue].
  destruct a as [|v a]; [done|]. apply Forall_cons in Hok as [Hv _]. apply Dump_starts in Hv.
  assert (starts_value (join_comma (map Dump (v :: a)))) as Hst.
  { destruct Hv as (c & s' & E & Hc). destruct a as [|v' a]; cbn [map join_comma]; [by exists c, s'|].
    rewrite E. exists c. by eexists. }
  change (is_ws Byte.x5b) with false. cbn [SkipWs]. change (is_ws Byte.x5b) with false. cbn iota.
  rewrite (SkipWs_start _ _ Hst). rewrite bool_decide_eq_false_2 by done. rewrite bool_decide_eq_true_2 by done.
  rewrite bool_decide_eq_false_2 by (destruct Hst as (c & s' & -> & _ & Hc & _); done).
  rewrite array_loop_ok by (first [done|lia]). done.
Qed.

Lemma ParseValue_object f o rest :
  Forall (fun kv => parses (snd kv)) o -> (2 * length (Dump (JObject o)) + 1 <= f)%nat ->
  ParseValue f (Dump (JObject o) ++ rest) = Some (JObject o, rest).
Proof.
  intros Ho Hf. destruct f as [|f]; [lia|].
  change (Dump (JObject o)) with ([Byte.x7b] ++ join_comma (map member_text
    (map (fun kv => (fst kv, Dump (snd kv))) o)) ++ [Byte.x7d]) in *.
  rewrite map_map in *. change (fun x => member_text (fst x, Dump (snd x))) with member in *.
  rewrite !length_app in Hf. cbn [length] in Hf. rewrite <- !app_assoc. cbn [app ParseValue].
  destruct o as [|kv o]; [done|].
  assert (starts_value (join_comma (map member (kv :: o)))) as Hst.
  { destruct o as [|kv' o]; cbn [map join_comma]; unfold member, member_text, EscapeStringTo; by eexists _, _. }
  cbn [SkipWs]. change (is_ws Byte.x7b) with false. cbn iota. rewrite (SkipWs_start _ _ Hst).
  rewrite bool_decide_eq_true_2 by done.
  rewrite bool_decide_eq_false_2 by (destruct Hst as (c & s' & -> & _ & _ & Hc); done).
  rewrite object_loop_ok by (first [done|lia]). done.
Qed.

Lemma Dump_parses v : no_double v = true -> parses v.
Proof.
  induction v as [|b|i|d|s|a IH|o IH] using JsonValue_ind; intros Hv f rest Hr Hf.
  - destruct f; [cbn in Hf; lia|done].
  - destruct f; [cbn in Hf; lia|]. by destruct b.
  - destruct (to_string_head i (int_ok i Hv)) as (c & s' & E & Hc).
    destruct f as [|f]; [lia|]. change (Dump (JInt i)) with (to_string i).
    pose proof (ParseNumber_to_string i rest (int_ok i Hv) Hr) as HP. rewrite E in *. cbn [app ParseValue SkipWs] in *.
    destruct (number_head c Hc) as (H1 & H2 & H3 & H4 & H5 & H6 & H7 & H8 & H9). rewrite H1.
    rewrite !bool_decide_eq_false_2 by done. cbn [orb].
    assert (bool_decide (c = Byte.x2d) || is_digit c = true) as ->; [|done].
    destruct Hc as [->|Hd]; [done|]. by rewrite Hd, orb_true_r.
  - done.
  - destruct f as [|f]; [lia|]. change (Dump (JString s)) with (EscapeStringTo s).
    change (ParseValue (S f) (EscapeStringTo s ++ rest))
      with ('(x, r) ← ParseString (EscapeStringTo s ++ rest); Some (JString x, r)).
    by rewrite ParseString_escape.
  - cbn in Hv. apply ParseValue_array; [| |done].
    + rewrite forallb_forall in Hv. rewrite Forall_forall in *. intros x Hx. apply IH; [done|].
      by apply Hv, list_elem_of_In.
    + rewrite forallb_forall in Hv. apply Forall_forall. intros x Hx. by apply Hv, list_elem_of_In.
  - cbn in Hv. apply ParseValue_object; [|done]. rewrite forallb_forall in Hv.
    rewrite Forall_forall in *. intros x Hx. apply IH; [done|]. by apply Hv, list_elem_of_In.
Qed.

Lemma strip_bom_start s : starts_value s -> (forall s', s <> Byte.xef :: s') -> strip_bom s = s.
Proof. intros (c & s' & -> & _) Hn. destruct c; try done. by destruct (Hn s'). Qed.

Lemma Dump_no_bom v : no_double v = true -> strip_bom (Dump v) = Dump v.
Proof.
  intros Hv. apply strip_bom_start; [by apply Dump_starts|]. intros s' E.
  destruct v as [|[]|i|d|s|a|o]; try done. destruct (to_string_head i (int_ok i Hv)) as (c & s & E' & Hc).
  change (Dump (JInt i)) with (to_string i) in E. rewrite E' in E. injection E as -> _. by destruct Hc.
Qed.

Lemma Parse_Dump v : no_double v = true -> Parse (Dump v) = Some v.
Proof.
  intros Hv. unfold Parse. rewrite Dump_no_bom by done.
  rewrite <- (app_nil_r (Dump v)) at 2. unfold parse_fuel. rewrite (Dump_parses v Hv) by (cbn; first [done|lia]).
  done.
Qed.

(** C36: text round trip: a value without doubles, whatever bytes its strings
    contain and however deep it nests, is parsed back unchanged from its dump. *)
Theorem json_parse_dump v : no_double v = true -> Parse (Dump v) = Some v.
Proof. apply Parse_Dump. Qed.

Definition demo_json : JsonValue :=
  JObject [(bs "b", JArray [JInt (-42); JNull; JBool true; JString [Byte.x00; Byte.x22; Byte.xff; Byte.x0a]]);
           (bs "a", JObject []); (bs "c", JInt 9223372036854775807)].

Lemma json_parse_dump_witness : Parse (Dump demo_json) = Some demo_json.
Proof. apply (json_parse_dump demo_json). reflexivity. Defined.

(** ** The fuel is enough *)
Lemma SkipWs_len s : (length (SkipWs s) <= length s)%nat.
Proof. induction s as [|c s IH]; cbn; [done|]. destruct (is_ws c); cbn; lia. Qed.

Lemma string_loop_quote s : string_loop (Byte.x22 :: s) = Some ([], s).
Proof. done. Qed.

Lemma string_loop_plain c s : c <> Byte.x22 -> c <> Byte.x5c ->
  string_loop (c :: s) = '(out, rest) ← string_loop s; Some (c :: out, rest).
Proof. intros H1 H2. destruct c; done. Qed.

Lemma string_loop_escape e s : e <> Byte.x75 ->
  string_loop (Byte.x5c :: e :: s) = c ← simple_escape e; '(out, rest) ← string_loop s; Some (c :: out, rest).
Proof. intros H. destruct e; done. Qed.

Lemma bind_Some {A B} (m : option A) (k : A -> option B) b :
  m ≫= k = Some b -> exists a, m = Some a /\ k a = Some b.
Proof. destruct m as [a|]; [by exists a|done]. Qed.

Lemma string_loop_len s out r : string_loop s = Some (out, r) -> (length r < length s)%nat.
Proof.
  revert out r. induction s as [s IH] using (induction_ltof1 _ (@length byte)). unfold ltof in IH.
  intros out r H. destruct s as [|c s]; [done|].
  destruct (decide (c = Byte.x22)) as [->|Hq]; [injection H as _ <-; cbn; lia|].
  destruct (decide (c = Byte.x5c)) as [->|Hb].
  - destruct s as [|e s]; [done|]. destruct (decide (e = Byte.x75)) as [->|Hu].
    + destruct s as [|h1 [|h2 [|h3 [|h4 s]]]]; [done..|]. cbn [string_loop] in H.
      apply bind_Some in H as (d1 & _ & H). apply bind_Some in H as (d2 & _ & H).
      apply bind_Some in H as (d3 & _ & H). apply bind_Some in H as (d4 & _ & H).
      apply bind_Some in H as ([o r'] & Hs & H). injection H as _ <-.
      apply IH in Hs; cbn [length] in *; lia.
    + rewrite string_loop_escape in H by done. apply bind_Some in H as (c & _ & H).
      apply bind_Some in H as ([o r'] & Hs & H). injection H as _ <-. apply IH in Hs; cbn [length] in *; lia.
  - rewrite string_loop_plain in H by done. apply bind_Some in H as ([o r'] & Hs & H). injection H as _ <-.
    apply IH in Hs; cbn [length] in *; lia.
Qed.

Lemma Expect_len c s u r : Expect c s = Some (u, r) -> (length r < length s)%nat.
Proof. destruct s as [|x s]; [done|]. cbn. case_bool_decide; [|done]. intros [= _ <-]. lia. Qed.

Lemma ParseString_len s k r : ParseString s = Some (k, r) -> (length r < length s)%nat.
Proof.
  unfold ParseString, rbind. destruct (Expect _ _) as [[u s1]|] eqn:E; [|done].
  apply Expect_len in E. intros H%string_loop_len. lia.
Qed.

Lemma literal_len text v s x r : text <> [] -> literal text v s = Some (x, r) -> (length r < length s)%nat.
Proof.
  intros Hne. unfold literal. case_bool_decide as Ht; [|done]. intros [= _ <-]. rewrite length_drop.
  pose proof (f_equal length Ht) as Hl. rewrite length_take in Hl.
  destruct text; [done|]. cbn [length] in *. lia.
Qed.

Lemma ParseBool_len s x r : ParseBool s = Some (x, r) -> (length r < length s)%nat.
Proof.
  unfold ParseBool. destruct (literal (bs "true") _ s) as [[y s']|] eqn:E.
  - intros [= -> ->]. apply literal_len in E; [done|by vm_compute].
  - apply literal_len. by vm_compute.
Qed.

Lemma digits_split s d r : digits s = (d, r) -> s = d ++ r.
Proof.
  revert d r. induction s as [|c s IH]; cbn; intros d r; [by intros [= <- <-]|].
  destruct (is_digit c); [|by intros [= <- <-]]. destruct (digits s) as [d' r'].
  intros [= <- <-]. cbn. f_equal. by apply IH.
Qed.

Lemma digits_len s d r : digits s = (d, r) -> (length r <= length s)%nat.
Proof. intros ->%digits_split. rewrite length_app. lia. Qed.

Lemma split_sign_len s : (length (split_sign s).2 <= length s)%nat.
Proof. destruct s as [|c s]; [done|]. destruct c; cbn; lia. Qed.
Lemma split_exp_sign_len s : (length (split_exp_sign s).2 <= length s)%nat.
Proof. destruct s as [|c s]; [done|]. destruct c; cbn; lia. Qed.

Lemma split_fraction_len s : (length (split_fraction s).2 <= length s)%nat.
Proof.
  destruct s as [|c s]; [done|]. destruct (decide (c = Byte.x2e)) as [->|Hc].
  - cbn. destruct (digits s) as [f r] eqn:E. apply digits_len in E. cbn. lia.
  - assert (split_fraction (c :: s) = (None, c :: s)) as -> by (destruct c; done). done.
Qed.

Lemma split_exponent_len s : (length (split_exponent s).2 <= length s)%nat.
Proof.
  destruct s as [|c s]; [done|].
  assert (length (let '(eneg, s'') := split_exp_sign s in
                  let '(ds, r) := digits s'' in (Some (eneg, ds), r)).2 <= length s)%nat as He.
  { pose proof (split_exp_sign_len s) as H. destruct (split_exp_sign s) as [eneg s''].
    destruct (digits s'') as [ds r] eqn:E. apply digits_len in E. cbn in *. lia. }
  destruct (decide (c = Byte.x65)) as [->|H1]; [cbn in *; lia|].
  destruct (decide (c = Byte.x45)) as [->|H2]; [cbn in *; lia|].
  assert (split_exponent (c :: s) = (None, c :: s)) as -> by (destruct c; done). done.
Qed.

(** A number consumes its sign or its first digit. *)
Lemma number_start_len c s : bool_decide (c = Byte.x2d) || is_digit c = true ->
  (length (digits (split_sign (c :: s)).2).2 <= length s)%nat.
Proof.
  intros Hc. destruct (decide (c = Byte.x2d)) as [->|Hn].
  - cbn. destruct (digits s) as [d r] eqn:E. apply digits_len in E. done.
  - rewrite bool_decide_eq_false_2 in Hc by done. cbn in Hc.
    assert (split_sign (c :: s) = (false, c :: s)) as -> by (destruct c; done). cbn. rewrite Hc.
    destruct (digits s) as [d r] eqn:E. apply digits_len in E. done.
Qed.

Lemma ParseNumber_len c s v r : bool_decide (c = Byte.x2d) || is_digit c = true ->
  ParseNumber (c :: s) = Some (v, r) -> (length r < length (c :: s))%nat.
Proof.
  intros Hc. unfold ParseNumber. pose proof (number_start_len c s Hc) as H1.
  destruct (split_sign (c :: s)) as [neg s1]. cbn [snd] in H1. destruct (digits s1) as [ip s2].
  pose proof (split_fraction_len s2) as H2. destruct (split_fraction s2) as [frac s3].
  pose proof (split_exponent_len s3) as H3. destruct (split_exponent s3) as [exp s4].
  cbn [snd length] in *. intros H.
  assert (r = s4) as ->; [|lia].
  assert (forall b, (bits ← b; Some (JDouble bits, s4)) = Some (v, r) -> r = s4) as Hd.
  { intros [b|]; [by intros [= _ <-]|done]. }
  destruct frac, exp; try (by apply Hd in H). case_bool_decide; [done|].
  destruct (_ && _); [by injection H as _ <-|by apply Hd in H].
Qed.

Lemma drop1_len (s : bytes) : (length (drop 1 s) <= length s)%nat.
Proof. rewrite length_drop. lia. Qed.

(** Each of the three parsers consumes at least one character. *)
Lemma parser_consumes f :
  (forall s v r, ParseValue f s = Some (v, r) -> (length r < length s)%nat)
  /\ (forall s o r, object_loop f s = Some (o, r) -> (length r < length s)%nat)
  /\ (forall s a r, array_loop f s = Some (a, r) -> (length r < length s)%nat).
Proof.
  induction f as [|f (IHv & IHo & IHa)]; [done|]. split_and!.
  - intros s v r. cbn [ParseValue]. pose proof (SkipWs_len s) as Hs.
    destruct (SkipWs s) as [|c s']; [done|]. pose proof (SkipWs_len s') as Hs'.
    pose proof (drop1_len (SkipWs s')) as Hd. cbn [length] in Hs.
    case_bool_decide; [case_bool_decide; [intros [= _ <-]; lia|]|].
    { intros ([o r'] & Hx & [= _ <-])%bind_Some. apply IHo in Hx. lia. }
    case_bool_decide; [case_bool_decide; [intros [= _ <-]; lia|]|].
    { intros ([o r'] & Hx & [= _ <-])%bind_Some. apply IHa in Hx. lia. }
    case_bool_decide. { intros ([o r'] & Hx & [= _ <-])%bind_Some. apply ParseString_len in Hx. cbn in Hx. lia. }
    destruct (_ || _). { intros Hx%ParseBool_len. cbn in Hx. lia. }
    case_bool_decide. { intros Hx. apply literal_len in Hx; [cbn in Hx; lia|by vm_compute]. }
    destruct (bool_decide (c = Byte.x2d) || is_digit c) eqn:Hc; [|done].
    intros Hx%(ParseNumber_len _ _ _ _ Hc). cbn in Hx. lia.
  - intros s o r. cbn [object_loop]. pose proof (SkipWs_len s) as Hs. destruct (negb _); [done|].
    intros ([k s1] & H1 & H)%bind_Some. apply ParseString_len in H1. pose proof (SkipWs_len s1) as Hs1.
    apply bind_Some in H as ([u s2] & H2 & H). apply Expect_len in H2.
    apply bind_Some in H as ([v s3] & H3 & H). apply IHv in H3. pose proof (SkipWs_len s3) as Hs3.
    pose proof (drop1_len (SkipWs s3)) as Hd. case_bool_decide.
    { apply bind_Some in H as ([o' r'] & H4 & [= _ <-]). apply IHo in H4. lia. }
    case_bool_decide; [|done]. injection H as _ <-. lia.
  - intros s a r. cbn [array_loop]. intros ([v s3] & H3 & H)%bind_Some. apply IHv in H3.
    pose proof (SkipWs_len s3) as Hs3. pose proof (drop1_len (SkipWs s3)) as Hd. case_bool_decide.
    { apply bind_Some in H as ([o' r'] & H4 & [= _ <-]). apply IHa in H4. lia. }
    case_bool_decide; [|done]. injection H as _ <-. lia.
Qed.
(** Binds of the same computation whose continuations agree on its results. *)
Lemma bind_agree {A B} (m m' : option A) (k k' : A -> option B) :
  m = m' -> (forall a, m = Some a -> k a = k' a) -> m ≫= k = m' ≫= k'.
Proof. intros <- H. destruct m as [a|]; [by apply H|done]. Qed.

Lemma fuel_agree n :
  (forall s f f', (length s <= n)%nat -> (2 * length s + 1 <= f)%nat -> (2 * length s + 1 <= f')%nat ->
     ParseValue f s = ParseValue f' s)
  /\ (forall s f f', (length s <= n)%nat -> (2 * length s + 2 <= f)%nat -> (2 * length s + 2 <= f')%nat ->
     object_loop f s = object_loop f' s /\ array_loop f s = array_loop f' s).
Proof.
  induction n as [n IH] using lt_wf_ind.
  assert (forall s f f', (length s <= n)%nat -> (2 * length s + 1 <= f)%nat -> (2 * length s + 1 <= f')%nat ->
    ParseValue f s = ParseValue f' s) as HV.
  { intros s f f' Hn Hf Hf'. destruct f as [|f]; [lia|]. destruct f' as [|f']; [lia|]. cbn [ParseValue].
    pose proof (SkipWs_len s) as Hs. destruct (SkipWs s) as [|c s']; [done|]. pose proof (SkipWs_len s') as Hs'.
    cbn [length] in Hs. destruct (IH (length s') ltac:(lia)) as [_ IHl].
    destruct (IHl (SkipWs s') f f' ltac:(lia) ltac:(lia) ltac:(lia)) as [-> ->]. done. }
  split; [done|]. intros s f f' Hn Hf Hf'. destruct f as [|f]; [lia|]. destruct f' as [|f']; [lia|].
  assert (forall s', (length s' < length s)%nat -> object_loop f s' = object_loop f' s'
    /\ array_loop f s' = array_loop f' s') as HL.
  { intros s' Hl. destruct (IH (length s') ltac:(lia)) as [_ IHl]. apply IHl; lia. }
  split; cbn [object_loop array_loop].
  - pose proof (SkipWs_len s) as Hs. destruct (negb _); [done|].
    apply bind_agree; [done|]. intros [k s1] H1%ParseString_len. pose proof (SkipWs_len s1) as Hs1.
    apply bind_agree; [done|]. intros [u s2] H2%Expect_len.
    apply bind_agree; [apply HV; lia|]. intros [v s3] H3%parser_consumes. pose proof (SkipWs_len s3) as Hs3.
    pose proof (drop1_len (SkipWs s3)) as Hd. destruct (HL (drop 1 (SkipWs s3)) ltac:(lia)) as [-> _]. done.
  - apply bind_agree; [apply HV; lia|]. intros [v s3] H3%parser_consumes. pose proof (SkipWs_len s3) as Hs3.
    pose proof (drop1_len (SkipWs s3)) as Hd. destruct (HL (drop 1 (SkipWs s3)) ltac:(lia)) as [_ ->]. done.
Qed.

(** The parser terminates on every input: its answer with the fuel [Parse]
    gives it is its answer with any larger fuel. *)
Theorem json_parse_fuel_enough s f :
  (parse_fuel s <= f)%nat -> ParseValue f s = ParseValue (parse_fuel s) s.
Proof.
  intros Hf. unfold parse_fuel in *. apply (proj1 (fuel_agree (length s))); lia.
Qed.

Lemma json_parse_fuel_enough_witness :
  ParseValue 1000 (bs "[[1, 2], {}") = None /\ ParseValue 1000 (bs "[[1], {}]") = Some (JArray [JArray [JInt 1]; JObject []], []).
Proof.
  split.
  - rewrite (json_parse_fuel_enough (bs "[[1, 2], {}") 1000); [vm_compute; reflexivity|cbn; lia].
  - rewrite (json_parse_fuel_enough (bs "[[1], {}]") 1000); [vm_compute; reflexivity|cbn; lia].
Defined.

(** ** Canonical form *)
Fixpoint sort_fields (v : JsonValue) : JsonValue :=
  match v with
  | JArray a => JArray (map sort_fields a)
  | JObject o => JObject (std_sort str_lt fst (map (fun kv => (fst kv, sort_fields (snd kv))) o))
  | _ => v
  end.

Lemma CanonicalDump_sorted v : CanonicalDump v = Dump (sort_fields v).
Proof.
  induction v as [| | | | |a IH|o IH] using JsonValue_ind; try done.
  - unfold CanonicalDump, Dump in *. cbn [DumpTo sort_fields]. do 3 f_equal. rewrite map_map.
    apply map_ext_Forall. done.
  - unfold CanonicalDump, Dump in *. cbn [DumpTo sort_fields]. do 4 f_equal. rewrite <- (std_sort_map str_lt _ fst fst), map_map by done.
    f_equal. apply map_ext_Forall. eapply Forall_impl; [exact IH|]. intros kv E. cbn. by rewrite E.
Qed.

Lemma sort_fields_no_double v : no_double v = true -> no_double (sort_fields v) = true.
Proof.
  induction v as [| | | | |a IH|o IH] using JsonValue_ind; intros Hv; try done; cbn in *;
    rewrite forallb_forall in *; rewrite Forall_forall in IH.
  - intros x Hx. apply in_map_iff in Hx as (y & <- & Hy). apply IH; [by apply list_elem_of_In|]. by apply Hv.
  - intros x Hx. apply list_elem_of_In, std_sort_elem_of, list_elem_of_In in Hx.
    apply in_map_iff in Hx as (y & <- & Hy). cbn. apply IH; [by apply list_elem_of_In|]. by apply Hv.
Qed.

(** The same value up to the order of object fields. *)
#[local] Unset Elimination Schemes.
Inductive same_value : JsonValue -> JsonValue -> Prop :=
  | same_refl v : same_value v v
  | same_array a b : Forall2 same_value a b -> same_value (JArray a) (JArray b)
  | same_object o p q :
      Forall2 (fun x y => fst x = fst y /\ same_value (snd x) (snd y)) o p -> p ≡ₚ q ->
      same_value (JObject o) (JObject q).
#[local] Set Elimination Schemes.

Fixpoint fields_distinct (v : JsonValue) : bool :=
  match v with
  | JArray a => forallb fields_distinct a
  | JObject o => bool_decide (NoDup o.*1) && forallb (fun kv => fields_distinct (snd kv)) o
  | _ => true
  end.

Definition sorted_field (kv : bytes * JsonValue) : bytes * JsonValue := (fst kv, sort_fields (snd kv)).

Lemma sorted_field_keys o : (map sorted_field o).*1 = o.*1.
Proof. induction o; simpl; by f_equal. Qed.

Lemma same_value_sorted v1 v2 : fields_distinct v2 = true -> same_value v1 v2 -> sort_fields v1 = sort_fields v2.
Proof.
  revert v2. induction v1 as [| | | | |a IH|o IH] using JsonValue_ind; intros v2 Hv H;
    inversion H as [|x l2 Hb|o' p q Hp Hq]; subst; try done; cbn [sort_fields fields_distinct] in *.
  - f_equal. rewrite forallb_forall in Hv.
    assert (forall x, x ∈ l2 -> fields_distinct x = true) as Hd by (intros x Hx; by apply Hv, list_elem_of_In).
    clear H Hv. induction Hb as [|x y a' b' Hxy _ IHb]; [done|]. apply Forall_cons in IH as [Hx Ha]. cbn [map]. f_equal.
    + apply Hx; [apply Hd; left|done].
    + apply IHb; [done|]. intros z Hz. apply Hd. by right.
  - apply andb_true_iff in Hv as [Hn Hv]. apply bool_decide_eq_true_1 in Hn. rewrite forallb_forall in Hv.
    assert (forall x, x ∈ p -> fields_distinct (snd x) = true) as Hd.
    { intros x Hx. apply Hv, list_elem_of_In. by rewrite <- Hq. }
    f_equal. change (fun kv => (fst kv, sort_fields (snd kv))) with sorted_field.
    assert (map sorted_field o = map sorted_field p) as ->.
    { clear -Hp IH Hd. induction Hp as [|x y o' p' [Hk Hxy] _ IHp]; [done|]. apply Forall_cons in IH as [Hx Ho].
      cbn [map]. unfold sorted_field at 1 3. rewrite Hk. f_equal.
      - f_equal. apply Hx; [apply Hd; left|done].
      - apply IHp; [done|]. intros z Hz. apply Hd. by right. }
    apply std_sort_proper; [apply _|by rewrite sorted_field_keys, Hq|by apply Permutation_map].
Qed.

Lemma sorted_same_value v1 v2 : sort_fields v1 = sort_fields v2 -> same_value v1 v2.
Proof.
  revert v2. induction v1 as [|b1|i1|d1|s1|a IH|o IH] using JsonValue_ind; intros v2 H;
    destruct v2 as [|b2|i2|d2|s2|b|q]; cbn [sort_fields] in H; try discriminate; try apply same_refl;
    try (rewrite H; apply same_refl).
  - injection H as H. apply same_array. revert b H. induction IH as [|x a Hx _ IHa]; intros [|y b]; try done.
    cbn [map]. intros [= Hxy Hab]. constructor; [by apply Hx|by apply IHa].
  - injection H as H. change (fun kv => (fst kv, sort_fields (snd kv))) with sorted_field in H.
    assert (map sorted_field o ≡ₚ map sorted_field q) as Hp.
    { by rewrite <- (std_sort_perm str_lt fst (map sorted_field o)), H, std_sort_perm. }
    apply Permutation_map_inv in Hp as (p & Hop & Hqp). apply (same_object _ p); [|by symmetry].
    clear -IH Hop. revert p Hop. induction IH as [|x o Hx _ IHo]; intros [|y p]; try done.
    cbn [map]. intros [= Hk Hs Hop]. constructor; [|by apply IHo]. split; [done|by apply Hx].
Qed.

(** Canonical text identifies a value up to the order of its object fields:
    two values whose objects have distinct field names have the same canonical
    dump exactly when they differ only in field order, at any depth. *)
Theorem json_canonical_dump v1 v2 :
  no_double v1 = true -> no_double v2 = true -> fields_distinct v2 = true ->
  CanonicalDump v1 = CanonicalDump v2 <-> same_value v1 v2.
Proof.
  intros H1 H2 Hd. rewrite !CanonicalDump_sorted. split.
  - intros E. pose proof (Parse_Dump _ (sort_fields_no_double _ H1)) as P1.
    pose proof (Parse_Dump _ (sort_fields_no_double _ H2)) as P2. rewrite E in P1.
    apply sorted_same_value. congruence.
  - intros Hs. by rewrite (same_value_sorted _ _ Hd Hs).
Qed.

Definition demo_json_permuted : JsonValue :=
  JObject [(bs "c", JInt 9223372036854775807); (bs "a", JObject []);
           (bs "b", JArray [JInt (-42); JNull; JBool true; JString [Byte.x00; Byte.x22; Byte.xff; Byte.x0a]])].

Lemma json_canonical_dump_witness :
  CanonicalDump demo_json = CanonicalDump demo_json_permuted /\ Dump demo_json <> Dump demo_json_permuted.
Proof.
  split.
  - apply (proj2 (json_canonical_dump demo_json demo_json_permuted eq_refl eq_refl eq_refl)).
    apply sorted_same_value. vm_compute. reflexivity.
  - intros H. vm_compute in H. discriminate.
Defined.

(** A dump keeps six significant digits of a double and no sign that it is
    one: 0.1234567 comes back as 0.123457, and 1.0 comes back as the integer 1. *)
Theorem json_dump_loses_doubles :
  Dump (JDouble 0x3FBF9ADBB8F8DA72) = bs "0.123457"
  /\ Parse (Dump (JDouble 0x3FBF9ADBB8F8DA72)) <> Some (JDouble 0x3FBF9ADBB8F8DA72)
  /\ Parse (Dump (JDouble 0x3FF0000000000000)) = Some (JInt 1).
Proof. split_and!; [vm_compute; reflexivity|vm_compute; discriminate|vm_compute; reflexivity]. Qed.
