(* ===== verification/Crdt.v ===== *)
(** * The CRDT document: include/desentry/crdt/document.h, src/crdt/document.cpp

    [CrdtValue] with [FromJson], [ApplyJsonUpdate], [Merge], [ToJson],
    [MaxTimestamp] and [IsEmpty].  The process-wide OR-Set tag counter is
    passed explicitly.  A vector of fields is an association list from keys
    to children; a vector of array elements is one from tags to
    (tombstone, child). *)
From Stdlib Require Import SpecFloat.
From S2P Require Import Prelude Bytes Hlc Json.
Local Open Scope Z_scope.

(** ** Values *)
#[local] Unset Elimination Schemes.
Inductive CrdtValue :=
  | CNull (ts : HLCTimestamp) (tombstone : bool)
  | CBool (ts : HLCTimestamp) (tombstone : bool) (b : bool)
  | CInt (ts : HLCTimestamp) (tombstone : bool) (i : Z)
  | CDouble (ts : HLCTimestamp) (tombstone : bool) (bits : Z)
  | CString (ts : HLCTimestamp) (tombstone : bool) (s : bytes)
  | CArray (ts : HLCTimestamp) (tombstone : bool) (a : list (bytes * (bool * CrdtValue)))
  | CObject (ts : HLCTimestamp) (tombstone : bool) (o : list (bytes * CrdtValue)).
#[local] Set Elimination Schemes.

Section CrdtInd.
Variable P : CrdtValue -> Prop.
Hypothesis Hnull : forall ts t, P (CNull ts t).
Hypothesis Hbool : forall ts t b, P (CBool ts t b).
Hypothesis Hint : forall ts t i, P (CInt ts t i).
Hypothesis Hdouble : forall ts t d, P (CDouble ts t d).
Hypothesis Hstring : forall ts t s, P (CString ts t s).
Hypothesis Harray : forall ts t a, Forall (fun e => P (snd (snd e))) a -> P (CArray ts t a).
Hypothesis Hobject : forall ts t o, Forall (fun kv => P (snd kv)) o -> P (CObject ts t o).

Fixpoint CrdtValue_ind (v : CrdtValue) : P v :=
  match v with
  | CNull ts t => Hnull ts t
  | CBool ts t b => Hbool ts t b
  | CInt ts t i => Hint ts t i
  | CDouble ts t d => Hdouble ts t d
  | CString ts t s => Hstring ts t s
  | CArray ts t a => Harray ts t a
      ((fix go l : Forall (fun e => P (snd (snd e))) l :=
          match l with
          | [] => Forall_nil_2 _
          | e :: l' => Forall_cons_2 (fun e => P (snd (snd e))) e l' (CrdtValue_ind (snd (snd e))) (go l')
          end) a)
  | CObject ts t o => Hobject ts t o
      ((fix go l : Forall (fun kv => P (snd kv)) l :=
          match l with
          | [] => Forall_nil_2 _
          | kv :: l' => Forall_cons_2 (fun kv => P (snd kv)) kv l' (CrdtValue_ind (snd kv)) (go l')
          end) o)
  end.
End CrdtInd.

Definition ts_of (v : CrdtValue) : HLCTimestamp :=
  match v with
  | CNull ts _ | CBool ts _ _ | CInt ts _ _ | CDouble ts _ _ | CString ts _ _
  | CArray ts _ _ | CObject ts _ _ => ts
  end.

Definition tombstone_of (v : CrdtValue) : bool :=
  match v with
  | CNull _ t | CBool _ t _ | CInt _ t _ | CDouble _ t _ | CString _ t _
  | CArray _ t _ | CObject _ t _ => t
  end.

Definition MakeTombstone (ts : HLCTimestamp) : CrdtValue := CNull ts true.

(** ** OR-Set tags *)
Definition TagCounter := Z.

Definition RestoreTagCounter (value : Z) (counter : TagCounter) : TagCounter :=
  if counter <? value then value else counter.

Definition NextTag (ts : HLCTimestamp) (counter : TagCounter) : bytes * TagCounter :=
  (node_id ts ++ bs ":" ++ to_string (physical_ms ts) ++ bs "." ++ to_string (logical ts)
     ++ bs "#" ++ to_string counter,
   u64 (counter + 1)).

(** ** JsonEquals *)
Fixpoint JsonEquals (a b : JsonValue) : bool :=
  match a, b with
  | JNull, JNull => true
  | JBool x, JBool y => Bool.eqb x y
  | JInt x, JInt y => x =? y
  | JDouble _, JDouble _ | JInt _, JDouble _ | JDouble _, JInt _ => SFeqb (AsDouble a) (AsDouble b)
  | JString x, JString y => bool_decide (x = y)
  | JArray av, JArray bv =>
      if (length av =? length bv)%nat then
        (fix go av bv :=
           match av, bv with
           | x :: av', y :: bv' => if JsonEquals x y then go av' bv' else false
           | _, _ => true
           end) av bv
      else false
  | JObject ao, JObject bo =>
      if (length ao =? length bo)%nat then
        (fix go ao :=
           match ao with
           | [] => true
           | (k, v) :: ao' =>
               match assoc k bo with
               | Some other => if JsonEquals v other then go ao' else false
               | None => false
               end
           end) ao
      else false
  | _, _ => false
  end.

(** ** FromJson *)
Section Loops.
Context (fj : JsonValue -> TagCounter -> CrdtValue * TagCounter) (ts : HLCTimestamp).

Fixpoint from_array (l : list JsonValue) (n : TagCounter)
  : list (bytes * (bool * CrdtValue)) * TagCounter :=
  match l with
  | [] => ([], n)
  | e :: l' =>
      let '(tag, n1) := NextTag ts n in
      let '(v, n2) := fj e n1 in
      let '(r, n3) := from_array l' n2 in
      ((tag, (false, v)) :: r, n3)
  end.

Fixpoint from_object (l : list (bytes * JsonValue)) (n : TagCounter)
  : list (bytes * CrdtValue) * TagCounter :=
  match l with
  | [] => ([], n)
  | (k, e) :: l' =>
      let '(v, n1) := fj e n in
      let '(r, n2) := from_object l' n1 in
      ((k, v) :: r, n2)
  end.
End Loops.

Fixpoint FromJson (ts : HLCTimestamp) (json : JsonValue) (n : TagCounter) {struct json}
  : CrdtValue * TagCounter :=
  match json with
  | JNull => (CNull ts false, n)
  | JBool b => (CBool ts false b, n)
  | JInt i => (CInt ts false i, n)
  | JDouble d => (CDouble ts false d, n)
  | JString s => (CString ts false s, n)
  | JArray a => let '(r, n') := from_array (FromJson ts) ts a n in (CArray ts false r, n')
  | JObject o => let '(r, n') := from_object (FromJson ts) o n in (CObject ts false r, n')
  end.

(** ** ToJson *)
Section ToJsonLoops.
Context (tj : CrdtValue -> JsonValue).

Fixpoint to_array (l : list (bytes * (bool * CrdtValue))) : list JsonValue :=
  match l with
  | [] => []
  | (_, (t, v)) :: l' => if negb t then tj v :: to_array l' else to_array l'
  end.

Fixpoint to_object (l : list (bytes * CrdtValue)) : list (bytes * JsonValue) :=
  match l with
  | [] => []
  | (k, v) :: l' => if negb (tombstone_of v) then (k, tj v) :: to_object l' else to_object l'
  end.
End ToJsonLoops.

Fixpoint ToJson (v : CrdtValue) : JsonValue :=
  if tombstone_of v then JNull
  else match v with
       | CNull _ _ => JNull
       | CBool _ _ b => JBool b
       | CInt _ _ i => JInt i
       | CDouble _ _ d => JDouble d
       | CString _ _ s => JString s
       | CArray _ _ a => JArray (to_array ToJson a)
       | CObject _ _ o => JObject (to_object ToJson o)
       end.

(** ** ApplyJsonUpdate *)

(** The inner scan of the array case: the first live element of [previous]
    that is not matched yet and shows the wanted value, with its flag set. *)
Fixpoint match_elem (prev : list (bytes * (bool * CrdtValue))) (matched : list bool) (j : JsonValue)
  : option ((bytes * (bool * CrdtValue)) * list bool) :=
  match prev, matched with
  | (tag, (t, v)) :: prev', m :: matched' =>
      if m || t || negb (JsonEquals (ToJson v) j) then
        match match_elem prev' matched' j with
        | Some (e, ms) => Some (e, m :: ms)
        | None => None
        end
      else Some ((tag, (t, v)), true :: matched')
  | _, _ => None
  end.

Fixpoint update_array (ts : HLCTimestamp) (prev : list (bytes * (bool * CrdtValue)))
  (news : list JsonValue) (matched : list bool) (n : TagCounter)
  : list (bytes * (bool * CrdtValue)) * list bool * TagCounter :=
  match news with
  | [] => ([], matched, n)
  | j :: news' =>
      match match_elem prev matched j with
      | Some (e, matched') =>
          let '(r, ms, n') := update_array ts prev news' matched' n in (e :: r, ms, n')
      | None =>
          let '(tag, n1) := NextTag ts n in
          let '(v, n2) := FromJson ts j n1 in
          let '(r, ms, n') := update_array ts prev news' matched n2 in
          ((tag, (false, v)) :: r, ms, n')
      end
  end.

(** Unmatched previous elements are carried forward, tombstoned. *)
Fixpoint carry_array (prev : list (bytes * (bool * CrdtValue))) (matched : list bool)
  : list (bytes * (bool * CrdtValue)) :=
  match prev, matched with
  | (tag, (t, v)) :: prev', m :: matched' =>
      if m then carry_array prev' matched' else (tag, (true, v)) :: carry_array prev' matched'
  | _, _ => []
  end.

Section UpdateLoop.
Context (upd : CrdtValue -> JsonValue -> TagCounter -> CrdtValue * TagCounter)
        (ts : HLCTimestamp) (prev : list (bytes * CrdtValue)).

Fixpoint update_object (news : list (bytes * JsonValue)) (n : TagCounter)
  : list (bytes * CrdtValue) * TagCounter :=
  match news with
  | [] => ([], n)
  | (k, j) :: news' =>
      let '(v, n1) :=
        match assoc k prev with
        | Some prev_child => upd prev_child j n
        | None => FromJson ts j n
        end in
      let '(r, n2) := update_object news' n1 in
      ((k, v) :: r, n2)
  end.
End UpdateLoop.

(** Fields of the old document missing from the new one. *)
Fixpoint carry_object (ts : HLCTimestamp) (prev : list (bytes * CrdtValue)) (new_json : JsonValue)
  : list (bytes * CrdtValue) :=
  match prev with
  | [] => []
  | (k, v) :: prev' =>
      if Has new_json k then carry_object ts prev' new_json
      else (k, if tombstone_of v then v else MakeTombstone ts) :: carry_object ts prev' new_json
  end.

Fixpoint apply_update (ts : HLCTimestamp) (new_json : JsonValue) (previous : CrdtValue)
  (n : TagCounter) {struct new_json} : CrdtValue * TagCounter :=
  if negb (tombstone_of previous) && JsonEquals (ToJson previous) new_json then (previous, n)
  else match previous, new_json with
       | CObject _ false prev, JObject news =>
           let '(r, n') :=
             update_object (fun p j m => apply_update ts j p m) ts prev news n in
           (CObject ts false (r ++ carry_object ts prev new_json), n')
       | CArray _ false prev, JArray news =>
           let '(r, matched, n') :=
             update_array ts prev news (replicate (length prev) false) n in
           (CArray ts false (r ++ carry_array prev matched), n')
       | _, _ => FromJson ts new_json n
       end.

Definition ApplyJsonUpdate (previous : CrdtValue) (new_json : JsonValue) (ts : HLCTimestamp)
  (n : TagCounter) : CrdtValue * TagCounter := apply_update ts new_json previous n.

(** ** Merge *)
Section Join.
Context {V : Type} (mergeV : V -> V -> V).

(** [bmap[k] = &v] over [b], last write wins. *)
Definition build_map (l : list (bytes * V)) : gmap bytes V :=
  fold_left (fun m kv => <[fst kv := snd kv]> m) l ∅.

(** The loop over [a]: a key found in the map is merged and erased from it. *)
Fixpoint join_left (la : list (bytes * V)) (m : gmap bytes V) : list (bytes * V) * gmap bytes V :=
  match la with
  | [] => ([], m)
  | (k, av) :: la' =>
      match m !! k with
      | Some bv => let '(r, m') := join_left la' (delete k m) in ((k, mergeV av bv) :: r, m')
      | None => let '(r, m') := join_left la' m in ((k, av) :: r, m')
      end
  end.

(** [bmap.count(k) != 0] *)
Definition has_key (m : gmap bytes V) (k : bytes) : bool := bool_decide (is_Some (m !! k)).

Definition join (la lb : list (bytes * V)) : list (bytes * V) :=
  let '(r, m') := join_left la (build_map lb) in
  std_sort str_lt fst (r ++ List.filter (fun kv => has_key m' (fst kv)) lb).
End Join.

Definition lww (a b : CrdtValue) : CrdtValue := if ts_gt (ts_of b) (ts_of a) then b else a.
Definition max_ts (a b : HLCTimestamp) : HLCTimestamp := if ts_gt b a then b else a.

Fixpoint Merge (a b : CrdtValue) {struct a} : CrdtValue :=
  if tombstone_of a || tombstone_of b then lww a b
  else match a, b with
       | CObject ta _ oa, CObject tb _ ob => CObject (max_ts ta tb) false (join Merge oa ob)
       | CArray ta _ aa, CArray tb _ ab =>
           CArray (max_ts ta tb) false
             (join (fun x y => (fst x || fst y, Merge (snd x) (snd y))) aa ab)
       | _, _ => lww a b
       end.

(** ** MaxTimestamp and IsEmpty *)
Fixpoint MaxTimestamp (v : CrdtValue) : HLCTimestamp :=
  match v with
  | CArray ts _ a =>
      fold_left (fun best e => let child := MaxTimestamp (snd (snd e)) in
                               if ts_gt child best then child else best) a ts
  | CObject ts _ o =>
      fold_left (fun best kv => let child := MaxTimestamp (snd kv) in
                                if ts_gt child best then child else best) o ts
  | _ => ts_of v
  end.

Definition IsEmpty (v : CrdtValue) : bool :=
  match v with
  | CObject _ _ o => forallb (fun kv => tombstone_of (snd kv)) o
  | _ => tombstone_of v
  end.
