(* ===== verification/CrdtMerge.v ===== *)
(** * Merge laws of the CRDT document

    [join] is the keyed join both container cases of [Merge] run: its lookup
    function, its canonical order, and the algebraic laws it inherits from the
    merge of the values.  On values that share a [Shape] -- the same container
    kinds along every path, and at every leaf one write per timestamp --
    [Merge] is a join-semilattice, so replicas that saw the same writes agree.
    Across shapes it is not associative: the counterexamples are closed terms. *)
From S2P Require Import Prelude Bytes Hlc Json Crdt.
Local Open Scope Z_scope.

Section JoinLaws.
Context {V : Type} (f : V -> V -> V).
Implicit Types (la lb lc : list (bytes * V)) (m : gmap bytes V) (k : bytes).

Lemma fold_insert_lookup lb m k :
  NoDup lb.*1 ->
  fold_left (fun m kv => <[fst kv := snd kv]> m) lb m !! k
  = match assoc k lb with Some v => Some v | None => m !! k end.
Proof.
  revert m. induction lb as [|[k' v] lb IH]; intros m Hnd; simpl; [done|].
  apply NoDup_cons in Hnd as [Hk Hnd]. rewrite IH by done. simpl.
  case_decide as E; subst.
  - rewrite (proj2 (assoc_None _ _) Hk). apply lookup_insert_eq.
  - by rewrite lookup_insert_ne.
Qed.

Lemma build_map_lookup lb k : NoDup lb.*1 -> build_map lb !! k = assoc k lb.
Proof.
  intros H. unfold build_map. rewrite fold_insert_lookup, lookup_empty by done.
  by destruct (assoc k lb).
Qed.

Lemma join_left_keys la m : (join_left f la m).1.*1 = la.*1.
Proof.
  revert m. induction la as [|[k v] la IH]; intros m; simpl; [done|].
  destruct (m !! k).
  - specialize (IH (delete k m)). destruct (join_left f la (delete k m)). cbn in *. by f_equal.
  - specialize (IH m). destruct (join_left f la m). cbn in *. by f_equal.
Qed.

Lemma join_left_lookup la m k :
  NoDup la.*1 ->
  assoc k (join_left f la m).1
  = match assoc k la with
    | Some x => Some (match m !! k with Some y => f x y | None => x end)
    | None => None
    end.
Proof.
  revert m. induction la as [|[k' v] la IH]; intros m Hnd; simpl; [done|].
  apply NoDup_cons in Hnd as [Hk Hnd].
  destruct (m !! k') eqn:E.
  - specialize (IH (delete k' m) Hnd). destruct (join_left f la (delete k' m)). simpl in *.
    case_decide; subst; [by rewrite E|]. rewrite IH. by rewrite lookup_delete_ne.
  - specialize (IH m Hnd). destruct (join_left f la m). simpl in *.
    case_decide; subst; [by rewrite E|done].
Qed.

Lemma join_left_rest la m k :
  (join_left f la m).2 !! k = if bool_decide (k ∈ la.*1) then None else m !! k.
Proof.
  revert m. induction la as [|[k' v] la IH]; intros m.
  { case_bool_decide as E; [set_solver|done]. }
  assert (forall (o : option V),
    (if bool_decide (k ∈ la.*1) then None else if bool_decide (k = k') then None else o)
    = if bool_decide (k ∈ ((k', v) :: la).*1) then None else o) as Hb.
  { intros o. repeat case_bool_decide; try done; set_solver. }
  rewrite <- Hb. simpl. destruct (m !! k') eqn:E.
  - specialize (IH (delete k' m)). destruct (join_left f la (delete k' m)). cbn in *.
    rewrite IH, lookup_delete. repeat case_bool_decide; repeat case_decide; congruence.
  - specialize (IH m). destruct (join_left f la m). cbn in *. rewrite IH.
    repeat case_bool_decide; congruence.
Qed.

Lemma assoc_filter (p : bytes -> bool) lb k :
  assoc k (List.filter (fun kv => p (fst kv)) lb) = if p k then assoc k lb else None.
Proof.
  induction lb as [|[k' v] lb IH]; simpl; [by destruct (p k)|].
  destruct (p k') eqn:E; simpl; case_decide; subst; rewrite ?IH, ?E; try done.
Qed.

Lemma filter_keys_sub (p : bytes -> bool) lb :
  sublist (List.filter (fun kv => p (fst kv)) lb).*1 lb.*1.
Proof.
  induction lb as [|[k v] lb IH]; simpl; [constructor|].
  destruct (p k); simpl; by constructor.
Qed.

Definition join_pre la lb : list (bytes * V) :=
  (join_left f la (build_map lb)).1
    ++ List.filter (fun kv => has_key (join_left f la (build_map lb)).2 (fst kv)) lb.

Lemma join_unfold la lb : join f la lb = std_sort str_lt fst (join_pre la lb).
Proof. unfold join, join_pre. by destruct (join_left f la (build_map lb)). Qed.

Lemma join_pre_lookup la lb k :
  NoDup la.*1 -> NoDup lb.*1 ->
  assoc k (join_pre la lb)
  = match assoc k la, assoc k lb with
    | Some x, Some y => Some (f x y)
    | Some x, None => Some x
    | None, o => o
    end.
Proof.
  intros Ha Hb. unfold join_pre.
  rewrite assoc_app, join_left_lookup, build_map_lookup by done.
  rewrite (assoc_filter (has_key (join_left f la (build_map lb)).2)).
  unfold has_key. rewrite join_left_rest, build_map_lookup by done.
  destruct (assoc k la) eqn:Ea; [by destruct (assoc k lb)|].
  apply assoc_None in Ea. rewrite (bool_decide_eq_false_2 (k ∈ _)) by done.
  destruct (assoc k lb); case_bool_decide as E; try done. by destruct E; eauto.
Qed.

Lemma join_pre_nodup la lb : NoDup la.*1 -> NoDup lb.*1 -> NoDup (join_pre la lb).*1.
Proof.
  intros Ha Hb. unfold join_pre. rewrite fmap_app, join_left_keys.
  apply NoDup_app. split; [done|]. split.
  - intros k Hk Hin. apply list_elem_of_fmap in Hin as ([k' v] & -> & Hin).
    rewrite list_elem_of_In in Hin. apply filter_In in Hin as [_ Hin].
    apply bool_decide_eq_true in Hin. simpl in *.
    rewrite join_left_rest, (bool_decide_eq_true_2 (k' ∈ _)) in Hin by done. by destruct Hin.
  - eapply sublist_NoDup; [done|].
    apply (filter_keys_sub (has_key (join_left f la (build_map lb)).2)).
Qed.

Lemma join_lookup la lb k :
  NoDup la.*1 -> NoDup lb.*1 ->
  assoc k (join f la lb)
  = match assoc k la, assoc k lb with
    | Some x, Some y => Some (f x y)
    | Some x, None => Some x
    | None, o => o
    end.
Proof.
  intros Ha Hb. rewrite <- join_pre_lookup, join_unfold by done.
  symmetry. apply assoc_perm; [by apply join_pre_nodup|]. by rewrite std_sort_perm.
Qed.

Lemma join_sorted la lb :
  NoDup la.*1 -> NoDup lb.*1 -> sorted_strict str_lt fst (join f la lb).
Proof.
  intros Ha Hb. rewrite join_unfold. apply std_sort_sorted; [apply _|]. by apply join_pre_nodup.
Qed.

Lemma join_nodup la lb : NoDup la.*1 -> NoDup lb.*1 -> NoDup (join f la lb).*1.
Proof. intros. eapply sorted_strict_nodup; [apply _|]. by apply join_sorted. Qed.

Lemma join_ext la lb l :
  NoDup la.*1 -> NoDup lb.*1 -> sorted_strict str_lt fst l ->
  (forall k, assoc k l = match assoc k la, assoc k lb with
                         | Some x, Some y => Some (f x y)
                         | Some x, None => Some x
                         | None, o => o
                         end) ->
  join f la lb = l.
Proof.
  intros Ha Hb Hs Hl. apply (assoc_sorted_ext str_lt); [by apply join_sorted|done|].
  intros k. by rewrite join_lookup, Hl.
Qed.

Lemma join_comm la lb :
  NoDup la.*1 -> NoDup lb.*1 ->
  (forall k x y, assoc k la = Some x -> assoc k lb = Some y -> f x y = f y x) ->
  join f la lb = join f lb la.
Proof.
  intros Ha Hb Hf. apply join_ext; [done..|by apply join_sorted|].
  intros k. rewrite join_lookup by done.
  destruct (assoc k la) eqn:Ea, (assoc k lb) eqn:Eb; try done. f_equal. symmetry. eauto.
Qed.

Lemma join_assoc la lb lc :
  NoDup la.*1 -> NoDup lb.*1 -> NoDup lc.*1 ->
  (forall k x y z, assoc k la = Some x -> assoc k lb = Some y -> assoc k lc = Some z ->
                   f (f x y) z = f x (f y z)) ->
  join f (join f la lb) lc = join f la (join f lb lc).
Proof.
  intros Ha Hb Hc Hf. pose proof (join_nodup la lb Ha Hb). pose proof (join_nodup lb lc Hb Hc).
  apply join_ext; [done..|by apply join_sorted|].
  intros k. rewrite !join_lookup by done.
  destruct (assoc k la) eqn:Ea, (assoc k lb) eqn:Eb, (assoc k lc) eqn:Ec; try done.
  f_equal. symmetry. eauto.
Qed.

Lemma join_idem la :
  sorted_strict str_lt fst la -> (forall k x, assoc k la = Some x -> f x x = x) ->
  join f la la = la.
Proof.
  intros Hs Hf. assert (NoDup la.*1) by (by eapply sorted_strict_nodup; [apply _|]).
  apply join_ext; [done..|]. intros k. destruct (assoc k la) eqn:E; [|done].
  f_equal. symmetry. eauto.
Qed.

Lemma join_Forall (P : bytes -> V -> Prop) la lb :
  NoDup la.*1 -> NoDup lb.*1 ->
  (forall k x, assoc k la = Some x -> P k x) -> (forall k x, assoc k lb = Some x -> P k x) ->
  (forall k x y, assoc k la = Some x -> assoc k lb = Some y -> P k (f x y)) ->
  forall k x, assoc k (join f la lb) = Some x -> P k x.
Proof.
  intros Ha Hb Pa Pb Pf k x. rewrite join_lookup by done.
  destruct (assoc k la) eqn:Ea, (assoc k lb) eqn:Eb; intros; simplify_eq; eauto.
Qed.
End JoinLaws.

(** ** Join on a set of values, as an interface

    What [Merge] promises its callers (replication, recovery): on the values
    satisfying [P] it is closed, commutative and associative. *)
Class JoinOn {A : Type} (P : A -> Prop) (m : A -> A -> A) : Prop := {
  join_closed : forall a b, P a -> P b -> P (m a b);
  join_commutes : forall a b, P a -> P b -> m a b = m b a;
  join_associates : forall a b c, P a -> P b -> P c -> m (m a b) c = m a (m b c);
}.

Section FoldLaws.
Context {A : Type} (P : A -> Prop) (m : A -> A -> A) `{!JoinOn P m}.

Lemma fold_closed l v : P v -> Forall P l -> P (fold_left m l v).
Proof.
  revert v. induction l as [|a l IH]; intros v Hv Hl; simpl; [done|].
  apply Forall_cons in Hl as [Ha Hl]. apply IH; [by apply join_closed|done].
Qed.

Lemma fold_swap a b v : P a -> P b -> P v -> m (m v a) b = m (m v b) a.
Proof.
  intros Ha Hb Hv. rewrite !join_associates by done. f_equal. by apply join_commutes.
Qed.

Lemma fold_perm l1 l2 v :
  l1 ≡ₚ l2 -> Forall P l1 -> P v -> fold_left m l1 v = fold_left m l2 v.
Proof.
  intros Hp. revert v. induction Hp as [|a l1 l2 Hp IH|a b l|l1 l2 l3 H1 IH1 H2 IH2]; intros v Hl Hv.
  - done.
  - apply Forall_cons in Hl as [Ha Hl]. simpl. apply IH; [done|by apply join_closed].
  - apply Forall_cons in Hl as [Ha Hl]. apply Forall_cons in Hl as [Hb Hl]. simpl.
    f_equal. by apply fold_swap.
  - rewrite IH1 by done. apply IH2; [by rewrite <- H1|done].
Qed.

(** A value already folded in is absorbed. *)
Lemma fold_absorb l v u :
  Forall P l -> P v -> u ∈ l -> m u u = u -> m (fold_left m l v) u = fold_left m l v.
Proof.
  intros Hl Hv Hu Hid. apply elem_of_Permutation in Hu as [l' Hp].
  assert (Forall P (u :: l')) as Hl' by (by rewrite <- Hp).
  apply Forall_cons in Hl' as [Pu Hl''].
  rewrite (fold_perm l (l' ++ [u]) v); [|by rewrite Hp, Permutation_app_comm|done|done].
  rewrite fold_left_app. simpl. rewrite join_associates; [by rewrite Hid| |done..].
  by apply fold_closed.
Qed.

Lemma fold_absorb_all l v us :
  Forall P l -> P v -> (forall u, u ∈ us -> u ∈ l /\ m u u = u) ->
  fold_left m us (fold_left m l v) = fold_left m l v.
Proof.
  intros Hl Hv. induction us as [|u us IH]; intros Hin; simpl; [done|].
  destruct (Hin u) as [? ?]; [set_solver|]. rewrite fold_absorb by done.
  apply IH. set_solver.
Qed.

Lemma fold_same_set l1 l2 v :
  P v -> Forall P l1 -> Forall P l2 -> (forall u, u ∈ l1 -> m u u = u) ->
  (forall u, u ∈ l1 <-> u ∈ l2) -> fold_left m l1 v = fold_left m l2 v.
Proof.
  intros Hv H1 H2 Hid Heq.
  rewrite <- (fold_absorb_all l1 v l2); [|done|done|intros u Hu; split; [|apply Hid]; by apply Heq].
  rewrite <- fold_left_app, (fold_perm (l1 ++ l2) (l2 ++ l1)); cycle 1.
  { apply Permutation_app_comm. } { by apply Forall_app. } { done. }
  rewrite fold_left_app. apply fold_absorb_all; [done|done|].
  intros u Hu. split; [by apply Heq|by apply Hid].
Qed.
End FoldLaws.

(** ** Shapes *)

(** A leaf is resolved purely by last-writer-wins: a scalar or a tombstone. *)
Definition leaf (v : CrdtValue) : bool :=
  tombstone_of v || match v with CArray _ _ _ | CObject _ _ _ => false | _ => true end.

(** [SLeaf w]: at this path the write stamped [ts] is [w ts]. *)
Inductive Shape :=
  | SLeaf (w : HLCTimestamp -> CrdtValue)
  | SArr (f : bytes -> Shape)
  | SObj (f : bytes -> Shape).

Fixpoint has_shape (s : Shape) (v : CrdtValue) : Prop :=
  match s with
  | SLeaf w => leaf v = true /\ v = w (ts_of v)
  | SArr f =>
      match v with
      | CArray _ false a => NoDup a.*1 /\ forall k x, assoc k a = Some x -> has_shape (f k) (snd x)
      | _ => False
      end
  | SObj f =>
      match v with
      | CObject _ false o => NoDup o.*1 /\ forall k x, assoc k o = Some x -> has_shape (f k) x
      | _ => False
      end
  end.

(** Canonical values: every level sorted by key or tag, as [Merge] and
    [Encode] leave them. *)
Inductive canon : CrdtValue -> Prop :=
  | canon_scalar v :
      match v with CArray _ _ _ | CObject _ _ _ => false | _ => true end = true -> canon v
  | canon_array ts t a :
      sorted_strict str_lt fst a -> (forall k x, assoc k a = Some x -> canon (snd x)) ->
      canon (CArray ts t a)
  | canon_object ts t o :
      sorted_strict str_lt fst o -> (forall k x, assoc k o = Some x -> canon x) ->
      canon (CObject ts t o).

Definition merge_elem (x y : bool * CrdtValue) : bool * CrdtValue :=
  (fst x || fst y, Merge (snd x) (snd y)).

Lemma Merge_leaf a b : leaf a = true -> leaf b = true -> Merge a b = lww a b.
Proof. destruct a as [? []|? []|? []|? []|? []|? []|? []], b as [? []|? []|? []|? []|? []|? []|? []]; done. Qed.

Lemma Merge_object ta oa tb ob :
  Merge (CObject ta false oa) (CObject tb false ob) = CObject (max_ts ta tb) false (join Merge oa ob).
Proof. done. Qed.

Lemma Merge_array ta aa tb ab :
  Merge (CArray ta false aa) (CArray tb false ab)
  = CArray (max_ts ta tb) false (join merge_elem aa ab).
Proof. done. Qed.

Lemma max_ts_comm a b : max_ts a b = max_ts b a.
Proof.
  unfold max_ts, ts_gt. destruct (ts_lt a b) eqn:E1, (ts_lt b a) eqn:E2; try done.
  - by rewrite (lt_asym _ _ _ E1) in E2.
  - symmetry. by apply lt_total.
Qed.

Lemma max_ts_assoc a b c : max_ts (max_ts a b) c = max_ts a (max_ts b c).
Proof.
  unfold max_ts, ts_gt.
  destruct (ts_lt a b) eqn:E1, (ts_lt b c) eqn:E2; rewrite ?E1, ?E2; try done.
  - by rewrite (lt_trans _ _ _ E1 E2).
  - rewrite (nlt_trans _ _ _ _ E2 E1). done.
Qed.

Lemma lww_comm w a b : a = w (ts_of a) -> b = w (ts_of b) -> lww a b = lww b a.
Proof.
  unfold lww, ts_gt. intros Ha Hb.
  destruct (ts_lt (ts_of a) (ts_of b)) eqn:E1, (ts_lt (ts_of b) (ts_of a)) eqn:E2; try done.
  - by rewrite (lt_asym _ _ _ E1) in E2.
  - rewrite Ha, Hb. by rewrite (lt_total _ _ E1 E2).
Qed.

Lemma lww_assoc a b c : lww (lww a b) c = lww a (lww b c).
Proof.
  unfold lww, ts_gt.
  destruct (ts_lt (ts_of a) (ts_of b)) eqn:E1, (ts_lt (ts_of b) (ts_of c)) eqn:E2;
    rewrite ?E1, ?E2; try done.
  - by rewrite (lt_trans _ _ _ E1 E2).
  - by rewrite (nlt_trans _ _ _ _ E2 E1).
Qed.

Lemma lww_either a b : lww a b = a \/ lww a b = b.
Proof. unfold lww. destruct (ts_gt _ _); auto. Qed.

Lemma merge_shape_closed s a b : has_shape s a -> has_shape s b -> has_shape s (Merge a b).
Proof.
  revert a b. induction s as [w|f IH|f IH]; intros a b Ha Hb; simpl in Ha, Hb.
  - destruct Ha as [La Ha], Hb as [Lb Hb]. rewrite Merge_leaf by done.
    destruct (lww_either a b) as [->| ->]; done.
  - destruct a as [| | | | |ta [] aa|]; try done. destruct b as [| | | | |tb [] ab|]; try done.
    destruct Ha as [Na Ha], Hb as [Nb Hb]. rewrite Merge_array. simpl.
    split; [by apply join_nodup|]. intros k x.
    apply (join_Forall merge_elem (fun k x => has_shape (f k) (snd x))); [done..|].
    intros k' x' y' Hx Hy. simpl. by eauto.
  - destruct a as [| | | | | |ta [] oa]; try done. destruct b as [| | | | | |tb [] ob]; try done.
    destruct Ha as [Na Ha], Hb as [Nb Hb]. rewrite Merge_object. simpl.
    split; [by apply join_nodup|]. intros k x.
    apply (join_Forall Merge (fun k x => has_shape (f k) x)); [done..|].
    intros k' x' y' Hx Hy. by eauto.
Qed.

Lemma merge_shape_comm s a b : has_shape s a -> has_shape s b -> Merge a b = Merge b a.
Proof.
  revert a b. induction s as [w|f IH|f IH]; intros a b Ha Hb; simpl in Ha, Hb.
  - destruct Ha as [La Ha], Hb as [Lb Hb]. rewrite !Merge_leaf by done. by eapply lww_comm.
  - destruct a as [| | | | |ta [] aa|]; try done. destruct b as [| | | | |tb [] ab|]; try done.
    destruct Ha as [Na Ha], Hb as [Nb Hb]. rewrite !Merge_array, max_ts_comm. f_equal.
    apply join_comm; [done..|]. intros k x y Hx Hy. unfold merge_elem.
    rewrite orb_comm. f_equal. by eauto.
  - destruct a as [| | | | | |ta [] oa]; try done. destruct b as [| | | | | |tb [] ob]; try done.
    destruct Ha as [Na Ha], Hb as [Nb Hb]. rewrite !Merge_object, max_ts_comm. f_equal.
    apply join_comm; [done..|]. by eauto.
Qed.

Lemma merge_shape_assoc s a b c :
  has_shape s a -> has_shape s b -> has_shape s c ->
  Merge (Merge a b) c = Merge a (Merge b c).
Proof.
  revert a b c. induction s as [w|f IH|f IH]; intros a b c Ha Hb Hc; simpl in Ha, Hb, Hc.
  - destruct Ha as [La Ha], Hb as [Lb Hb], Hc as [Lc Hc].
    rewrite (Merge_leaf a b), (Merge_leaf b c) by done.
    rewrite !Merge_leaf; [apply lww_assoc|done| |..|done];
      [destruct (lww_either b c) as [->| ->]|destruct (lww_either a b) as [->| ->]]; done.
  - destruct a as [| | | | |ta [] aa|]; try done. destruct b as [| | | | |tb [] ab|]; try done.
    destruct c as [| | | | |tc [] ac|]; try done.
    destruct Ha as [Na Ha], Hb as [Nb Hb], Hc as [Nc Hc].
    rewrite !Merge_array, max_ts_assoc. f_equal.
    apply join_assoc; [done..|]. intros k x y z Hx Hy Hz. unfold merge_elem. simpl.
    rewrite orb_assoc. f_equal. by eauto.
  - destruct a as [| | | | | |ta [] oa]; try done. destruct b as [| | | | | |tb [] ob]; try done.
    destruct c as [| | | | | |tc [] oc]; try done.
    destruct Ha as [Na Ha], Hb as [Nb Hb], Hc as [Nc Hc].
    rewrite !Merge_object, max_ts_assoc. f_equal. apply join_assoc; [done..|]. by eauto.
Qed.

#[export] Instance Merge_JoinOn s : JoinOn (has_shape s) Merge.
Proof.
  split; [apply merge_shape_closed|apply merge_shape_comm|apply merge_shape_assoc].
Qed.

Lemma lww_same v : lww v v = v.
Proof. unfold lww. by destruct (ts_gt _ _). Qed.

Lemma max_ts_same t : max_ts t t = t.
Proof. unfold max_ts. by destruct (ts_gt _ _). Qed.

Lemma Merge_same v : canon v -> Merge v v = v.
Proof.
  induction 1 as [v Hv|ts t a Hs Hc IH|ts t o Hs Hc IH].
  - destruct v as [? []|? []|? []|? []|? []|? []|? []]; try done; apply lww_same.
  - destruct t; [apply lww_same|]. rewrite Merge_array, max_ts_same. f_equal.
    apply join_idem; [done|]. intros k [t v] Hx. unfold merge_elem. simpl.
    specialize (IH _ _ Hx). simpl in IH. by rewrite orb_diag, IH.
  - destruct t; [apply lww_same|]. rewrite Merge_object, max_ts_same. f_equal.
    by apply join_idem.
Qed.

(** ** What replication relies on *)

(** C1: replicas that start from the same document and have merged the same set of updates
    hold the exact same document, whatever the order and however often each update was
    delivered. Conditions: the start and the updates have a common shape (the container
    kinds agree along every path, and at each leaf one stamp names one write), and the
    updates are canonical, as [Decode] leaves what arrives from disk or wire. Without a
    common shape merging is not associative ([merge_not_associative]). *)
Theorem replicas_converge s v0 l1 l2 :
  has_shape s v0 -> Forall (has_shape s) l1 -> Forall (has_shape s) l2 ->
  Forall canon l1 -> (forall u, u ∈ l1 <-> u ∈ l2) ->
  fold_left Merge l1 v0 = fold_left Merge l2 v0.
Proof.
  intros Hv H1 H2 Hc Heq. apply (fold_same_set (has_shape s)); [apply _|done..| |done].
  intros u Hu. apply Merge_same. by rewrite Forall_forall in Hc; apply Hc.
Qed.

(** Two edits of one field and the deletion of another, by one node. *)
Definition ex_stamp (p : Z) : HLCTimestamp := mkTs p 0 (bs "n").
Definition ex_doc (p : Z) (s : bytes) : CrdtValue :=
  CObject (ex_stamp p) false [(bs "name", CString (ex_stamp p) false s)].
Definition ex_del (p : Z) : CrdtValue :=
  CObject (ex_stamp p) false [(bs "tag", CNull (ex_stamp p) true)].
Definition ex_shape : Shape := SObj (fun k => SLeaf (fun t =>
  if decide (k = bs "tag") then CNull t true
  else CString t false (if physical_ms t =? 1 then bs "asha" else bs "ravi"))).

Lemma replicas_converge_witness :
  fold_left Merge [ex_doc 2 (bs "ravi"); ex_del 3] (ex_doc 1 (bs "asha"))
  = fold_left Merge [ex_del 3; ex_doc 2 (bs "ravi"); ex_del 3] (ex_doc 1 (bs "asha")).
Proof.
  assert (forall (k k' : bytes) (x y : CrdtValue), assoc k [(k', x)] = Some y -> k = k' /\ y = x) as Hone.
  { intros k k' x y. simpl. case_decide; [|done]. intros; by simplify_eq. }
  assert (forall v, v = ex_doc 1 (bs "asha") \/ v = ex_doc 2 (bs "ravi") \/ v = ex_del 3 ->
            has_shape ex_shape v) as Hs.
  { intros v [->|[->| ->]]; simpl; (split; [apply NoDup_singleton|]);
      intros k x [-> ->]%Hone; split; reflexivity. }
  assert (forall v, v = ex_doc 2 (bs "ravi") \/ v = ex_del 3 -> canon v) as Hc.
  { intros v [->| ->]; (apply canon_object; [apply SSorted_cons; constructor|]);
      intros k x [-> ->]%Hone; by constructor. }
  apply (replicas_converge ex_shape).
  - apply Hs. by left.
  - apply Forall_forall. intros u Hu. apply Hs. set_solver.
  - apply Forall_forall. intros u Hu. apply Hs. set_solver.
  - apply Forall_forall. intros u Hu. apply Hc. set_solver.
  - set_solver.
Defined.

(** [Merge] is not associative when a path changes kind or is deleted and
    re-created: with three canonical values, stamped in strictly increasing
    order, an object, a tombstone of it and a newer object (and likewise an
    object, a scalar and a newer object), the two groupings differ -- the
    re-created document shows the deleted field again in one of them. *)
Theorem merge_not_associative :
  exists a b b' c,
    canon a /\ canon b /\ canon b' /\ canon c /\
    ts_lt (ts_of a) (ts_of b) = true /\ ts_of b' = ts_of b /\ ts_lt (ts_of b) (ts_of c) = true /\
    tombstone_of b = true /\ tombstone_of b' = false /\
    ToJson (Merge (Merge a b) c) <> ToJson (Merge a (Merge b c)) /\
    ToJson (Merge (Merge a b') c) <> ToJson (Merge a (Merge b' c)).
Proof.
  pose (t := fun p => mkTs p 0 (bs "n")).
  pose (o := fun p k => CObject (t p) false [(k, CInt (t p) false p)]).
  assert (forall p k, canon (o p k)) as Hc.
  { intros p k. apply canon_object; [apply SSorted_cons; constructor|].
    intros k' x. simpl. case_decide; [|done]. intros; simplify_eq. by constructor. }
  exists (o 1 (bs "x")), (MakeTombstone (t 2)), (CInt (t 2) false 7), (o 3 (bs "y")).
  split; [apply Hc|]. split; [by constructor|]. split; [by constructor|]. split; [apply Hc|].
  repeat split; vm_compute; congruence.
Qed.

(** At a leaf, [Merge] keeps the operand with the greatest stamp, a
    tombstone included, so a delete beats every older scalar write and loses to
    every newer one. *)
Theorem merge_leaf_is_lww a b :
  leaf a = true -> leaf b = true -> ts_of a <> ts_of b ->
  Merge a b = (if ts_lt (ts_of a) (ts_of b) then b else a) /\
  Merge b a = Merge a b /\
  ts_of (Merge a b) = max_ts (ts_of a) (ts_of b).
Proof.
  intros Ha Hb Hne. rewrite !Merge_leaf by done. unfold lww, max_ts, ts_gt.
  destruct (ts_lt (ts_of a) (ts_of b)) eqn:E1, (ts_lt (ts_of b) (ts_of a)) eqn:E2; try done.
  - by rewrite (lt_asym _ _ _ E1) in E2.
  - by destruct Hne; apply lt_total.
Qed.

Lemma merge_leaf_is_lww_witness :
  Merge (CInt (mkTs 1 0 (bs "a")) false 5) (MakeTombstone (mkTs 1 0 (bs "b")))
  = MakeTombstone (mkTs 1 0 (bs "b")).
Proof.
  destruct (merge_leaf_is_lww (CInt (mkTs 1 0 (bs "a")) false 5) (MakeTombstone (mkTs 1 0 (bs "b"))))
    as [H _]; [done|done|discriminate|]. exact H.
Defined.

(** The merge of two objects (or arrays) shows, under every key, the merge
    of what the two sides hold there or the only side's child, in strictly
    increasing key order -- whatever order the two field vectors were in. *)
Theorem merge_object_pointwise ta oa tb ob :
  NoDup oa.*1 -> NoDup ob.*1 ->
  exists o, Merge (CObject ta false oa) (CObject tb false ob) = CObject (max_ts ta tb) false o /\
    sorted_strict str_lt fst o /\
    (forall oa' ob', oa' ≡ₚ oa -> ob' ≡ₚ ob ->
       Merge (CObject ta false oa') (CObject tb false ob') = CObject (max_ts ta tb) false o) /\
    forall k, assoc k o = match assoc k oa, assoc k ob with
                          | Some x, Some y => Some (Merge x y)
                          | Some x, None => Some x
                          | None, r => r
                          end.
Proof.
  intros Ha Hb. exists (join Merge oa ob). split; [done|].
  split; [by apply join_sorted|]. split; [|intros k; by apply join_lookup].
  intros oa' ob' Pa Pb. rewrite Merge_object. f_equal.
  apply join_ext; [by rewrite Pa|by rewrite Pb|by apply join_sorted|].
  intros k. rewrite join_lookup by done.
  rewrite (assoc_perm k oa oa'), (assoc_perm k ob ob'); [done|done|by symmetry|done|by symmetry].
Qed.

Lemma merge_object_pointwise_witness :
  let t := mkTs 1 0 (bs "n") in
  exists o, Merge (CObject t false [(bs "b", CNull t false); (bs "a", CInt t false 1)])
                  (CObject t false [(bs "c", CNull t false)]) = CObject t false o /\
    sorted_strict str_lt fst o.
Proof.
  intros t.
  destruct (merge_object_pointwise t [(bs "b", CNull t false); (bs "a", CInt t false 1)]
              t [(bs "c", CNull t false)]) as (o & H1 & H2 & _).
  - repeat constructor; set_solver.
  - repeat constructor; set_solver.
  - exists o. split; [exact H1|exact H2].
Defined.
