(* ===== verification/CrdtUpdate.v ===== *)
(** * Local writes: FromJson, ToJson and ApplyJsonUpdate

    A document built from JSON shows that JSON; an update shows the new JSON
    (up to the order of object fields and the writing of numbers), leaves an equal
    document alone, and never forgets an array tag or an object key it has seen. *)
From Stdlib Require Import SpecFloat.
From S2P Require Import Prelude Bytes Hlc Json JsonText Crdt.
Local Open Scope Z_scope.

(** JSON the API can hand over: no NaN, and object keys distinct. *)
Inductive json_ok : JsonValue -> Prop :=
  | ok_null : json_ok JNull
  | ok_bool b : json_ok (JBool b)
  | ok_int i : json_ok (JInt i)
  | ok_double d : is_nan64 d = false -> json_ok (JDouble d)
  | ok_string s : json_ok (JString s)
  | ok_array a : (forall x, x ∈ a -> json_ok x) -> json_ok (JArray a)
  | ok_object o : NoDup o.*1 -> (forall k x, (k, x) ∈ o -> json_ok x) -> json_ok (JObject o).

(** What it means that a document shows a value: the same scalars, numbers of the same
    value when one of them is a double, arrays element by element and in order, objects
    field by field in any order.  [JsonEquals] is not mentioned. *)
#[local] Set Warnings "-register-all".
#[local] Unset Elimination Schemes.
Inductive shows : JsonValue -> JsonValue -> Prop :=
  | shows_null : shows JNull JNull
  | shows_bool b : shows (JBool b) (JBool b)
  | shows_int i : shows (JInt i) (JInt i)
  | shows_string s : shows (JString s) (JString s)
  | shows_double a b :
      match a, b with JDouble _, JDouble _ | JInt _, JDouble _ | JDouble _, JInt _ => True | _, _ => False end ->
      SFcompare (AsDouble a) (AsDouble b) = Some Eq -> shows a b
  | shows_array a b : Forall2 shows a b -> shows (JArray a) (JArray b)
  | shows_object a p b :
      Forall2 (fun x y => fst x = fst y /\ shows (snd x) (snd y)) a p -> p ≡ₚ b -> shows (JObject a) (JObject b).
#[local] Set Elimination Schemes.

(** ** FromJson *)
Lemma from_array_ToJson ts a n :
  Forall (fun j => forall n, tombstone_of (FromJson ts j n).1 = false /\
                             ToJson (FromJson ts j n).1 = j) a ->
  to_array ToJson (from_array (FromJson ts) ts a n).1 = a.
Proof.
  intros H. revert n. induction H as [|j a Hj Ha IH]; intros n; [done|]. cbn [from_array].
  destruct (NextTag ts n) as [tag n1]. specialize (Hj n1).
  destruct (FromJson ts j n1) as [v n2]. specialize (IH n2).
  destruct (from_array (FromJson ts) ts a n2) as [r n3]. simpl in *. by destruct Hj as [_ ->]; f_equal.
Qed.

Lemma from_object_ToJson ts o n :
  Forall (fun kv => forall n, tombstone_of (FromJson ts (snd kv) n).1 = false /\
                              ToJson (FromJson ts (snd kv) n).1 = snd kv) o ->
  to_object ToJson (from_object (FromJson ts) o n).1 = o.
Proof.
  intros H. revert n. induction H as [|[k j] o Hj Ho IH]; intros n; [done|]. cbn [from_object].
  specialize (Hj n). simpl in Hj. destruct (FromJson ts j n) as [v n2]. specialize (IH n2).
  destruct (from_object (FromJson ts) o n2) as [r n3]. simpl in *.
  destruct Hj as [-> ->]. simpl. by f_equal.
Qed.

Lemma FromJson_spec ts j :
  forall n, tombstone_of (FromJson ts j n).1 = false /\ ToJson (FromJson ts j n).1 = j.
Proof.
  induction j as [|b|i|d|s|a IH|o IH] using JsonValue_ind; intros n; try done; simpl.
  - pose proof (from_array_ToJson ts a n IH) as H.
    destruct (from_array (FromJson ts) ts a n). simpl in *. split; [done|by f_equal].
  - pose proof (from_object_ToJson ts o n IH) as H.
    destruct (from_object (FromJson ts) o n). simpl in *. split; [done|by f_equal].
Qed.

Lemma FromJson_live ts j n : tombstone_of (FromJson ts j n).1 = false.
Proof. apply FromJson_spec. Qed.

Lemma ToJson_FromJson ts j n : ToJson (FromJson ts j n).1 = j.
Proof. apply FromJson_spec. Qed.

(** ** JsonEquals, unfolded on containers *)
Lemma JsonEquals_array av bv :
  JsonEquals (JArray av) (JArray bv) = true <->
  Forall2 (fun x y => JsonEquals x y = true) av bv.
Proof.
  cbn [JsonEquals]. destruct (Nat.eqb_spec (length av) (length bv)) as [Hl|Hl].
  - revert bv Hl. induction av as [|x av IH]; intros [|y bv] Hl; try done.
    destruct (JsonEquals x y) eqn:E; simpl in Hl.
    + rewrite Forall2_cons_iff, (IH bv) by lia. naive_solver.
    + rewrite Forall2_cons_iff. naive_solver.
  - split; [done|]. intros H%Forall2_length. done.
Qed.

Lemma JsonEquals_object ao bo :
  JsonEquals (JObject ao) (JObject bo) = true <->
  length ao = length bo /\
  Forall (fun kv => exists o, assoc (fst kv) bo = Some o /\ JsonEquals (snd kv) o = true) ao.
Proof.
  cbn [JsonEquals]. destruct (Nat.eqb_spec (length ao) (length bo)) as [Hl|Hl]; [|naive_solver].
  split; [intros H; split; [done|]; revert H|intros [_ H]; revert H]; clear Hl;
    induction ao as [|[k v] ao IH]; try done; simpl; rewrite Forall_cons; simpl;
    destruct (assoc k bo) as [o|]; try naive_solver; destruct (JsonEquals v o) eqn:E; naive_solver.
Qed.

Lemma JsonEquals_refl j : json_ok j -> JsonEquals j j = true.
Proof.
  induction 1 as [| | |d Hd| |a Ha IH|o Hnd Ho IH].
  - done.
  - apply eqb_reflx.
  - apply Z.eqb_refl.
  - simpl. by apply SFeqb_refl.
  - simpl. by apply bool_decide_eq_true_2.
  - apply JsonEquals_array. apply Forall2_same_length_lookup_2; [done|].
    intros i x y Hx Hy. simplify_eq. apply IH. by eapply list_elem_of_lookup_2.
  - apply JsonEquals_object. split; [done|]. apply Forall_forall. intros [k x] Hx.
    exists x. split; [by apply assoc_Some|]. simpl. by eapply IH.
Qed.

Lemma SFeqb_compare a b : SFeqb a b = true -> SFcompare a b = Some Eq.
Proof. unfold SFeqb. by destruct (SFcompare a b) as [[]|]. Qed.

Lemma shows_refl j : json_ok j -> shows j j.
Proof.
  induction 1 as [| | |d Hd| |a Ha IH|o Hnd Ho IH].
  - constructor.
  - constructor.
  - constructor.
  - apply shows_double; [done|]. apply SFeqb_compare. by apply SFeqb_refl.
  - constructor.
  - apply shows_array, Forall2_same_length_lookup_2; [done|]. intros i x y Hx Hy. simplify_eq. apply IH. by eapply list_elem_of_lookup_2.
  - apply (shows_object o o); [|done]. apply Forall2_same_length_lookup_2; [done|]. intros i [k x] y Hx Hy. simplify_eq.
    split; [done|]. eapply IH. by eapply list_elem_of_lookup_2.
Qed.

(** A shown value whose objects have distinct field names: the engine's comparison finds
    nothing else equal. *)
Lemma JsonEquals_shows a b : fields_distinct a = true -> JsonEquals a b = true -> shows a b.
Proof.
  revert b. induction a as [|x|i|d|s|av IH|ao IH] using JsonValue_ind; intros b Hd; destruct b as [|y|i'|d'|s'|bv|bo];
    try (intros E; discriminate E); cbn [fields_distinct] in Hd.
  - intros _. constructor.
  - intros E%eqb_prop. subst. constructor.
  - intros E%Z.eqb_eq. subst. constructor.
  - intros E. apply shows_double; [done|by apply SFeqb_compare].
  - intros E. apply shows_double; [done|by apply SFeqb_compare].
  - intros E. apply shows_double; [done|by apply SFeqb_compare].
  - intros E%bool_decide_eq_true_1. subst. constructor.
  - intros HF%JsonEquals_array. apply shows_array. rewrite forallb_forall in Hd.
    induction HF as [|x y av bv Hxy _ IHF]; [constructor|]. apply Forall_cons in IH as [IHx IHa]. constructor.
    + apply IHx; [apply Hd; by left|done].
    + apply IHF; [done|]. intros z Hz. apply Hd. by right.
  - intros [Hl HF]%JsonEquals_object. apply andb_true_iff in Hd as [Hn%bool_decide_eq_true_1 Hd]. rewrite forallb_forall in Hd.
    set (p := map (fun kv => (fst kv, default JNull (assoc (fst kv) bo))) ao).
    assert (Hkeys : p.*1 = ao.*1) by (subst p; clear; induction ao; simpl; by f_equal).
    apply (shows_object ao p).
    + clear Hkeys Hl Hn. subst p. induction HF as [|[k v] ao (o & Ho & Hv) _ IHF]; [constructor|].
      apply Forall_cons in IH as [IHx IHa]. cbn [map fst snd] in *. constructor.
      * cbn [fst snd]. split; [done|]. rewrite Ho. cbn. apply IHx; [apply (Hd (k, v)); by left|done].
      * apply IHF; [done|]. intros z Hz. apply Hd. by right.
    + apply submseteq_length_Permutation; [|subst p; rewrite length_map; lia]. apply NoDup_submseteq.
      * apply (NoDup_fmap_1 fst). by rewrite Hkeys.
      * intros y Hy. apply list_elem_of_fmap in Hy as ([k v] & -> & Hin). cbn [fst].
        rewrite Forall_forall in HF. destruct (HF _ Hin) as (o & Ho & _). cbn [fst] in Ho. rewrite Ho. cbn. by apply assoc_elem.
Qed.

(** ** Arrays *)
Lemma match_elem_spec (prev : list (bytes * (bool * CrdtValue))) matched j e ms :
  match_elem prev matched j = Some (e, ms) ->
  exists tag v, e = (tag, (false, v)) /\ e ∈ prev /\ JsonEquals (ToJson v) j = true /\
    length ms = length matched.
Proof.
  revert matched ms. induction prev as [|[tag [t v]] prev IH]; intros [|m matched] ms; try done.
  simpl. destruct (m || t || negb (JsonEquals (ToJson v) j)) eqn:E.
  - destruct (match_elem prev matched j) as [[e' ms']|] eqn:Em; [|done].
    intros; simplify_eq. destruct (IH _ _ Em) as (tag' & v' & -> & ? & ? & ?).
    exists tag', v'. repeat split; [set_solver|done|simpl; lia].
  - apply orb_false_iff in E as [[_ ->]%orb_false_iff Hj%negb_false_iff].
    intros; simplify_eq. exists tag, v. repeat split; [set_solver|done].
Qed.

Lemma carry_array_hidden prev matched tj : to_array tj (carry_array prev matched) = [].
Proof.
  revert matched. induction prev as [|[tag [t v]] prev IH]; intros [|[] matched]; simpl; auto.
Qed.

Lemma to_array_app tj l1 l2 : to_array tj (l1 ++ l2) = to_array tj l1 ++ to_array tj l2.
Proof. induction l1 as [|[tag [[] v]] l1 IH]; simpl; [done|done|by f_equal]. Qed.

Lemma to_array_elem tj tag v l : (tag, (false, v)) ∈ l -> tj v ∈ to_array tj l.
Proof.
  induction l as [|[tag' [t' v']] l IH]; [by intros ?%elem_of_nil|]. intros [E|H]%elem_of_cons; cbn.
  - simplify_eq. cbn. by left.
  - destruct (negb t'); [right|]; by apply IH.
Qed.

Lemma update_array_shows ts prev news matched n :
  forallb fields_distinct (to_array ToJson prev) = true ->
  (forall j, j ∈ news -> json_ok j) ->
  Forall2 shows (to_array ToJson (update_array ts prev news matched n).1.1) news.
Proof.
  intros Hd. revert matched n. induction news as [|j news IH]; intros matched n Hok; [constructor|]. cbn [update_array].
  assert (forall j', j' ∈ news -> json_ok j') as Hok' by set_solver.
  destruct (match_elem prev matched j) as [[e ms]|] eqn:Em.
  - destruct (match_elem_spec _ _ _ _ _ Em) as (tag & v & -> & Hin & Hj & _).
    specialize (IH ms n Hok'). destruct (update_array ts prev news ms n) as [[r ms'] n'].
    simpl in *. constructor; [|done]. apply JsonEquals_shows; [|done].
    rewrite forallb_forall in Hd. apply Hd, list_elem_of_In. by eapply to_array_elem.
  - destruct (NextTag ts n) as [tag n1]. pose proof (ToJson_FromJson ts j n1) as Hv.
    destruct (FromJson ts j n1) as [v n2]. specialize (IH matched n2 Hok').
    destruct (update_array ts prev news matched n2) as [[r ms'] n']. simpl in *.
    constructor; [|done]. rewrite Hv. apply shows_refl. set_solver.
Qed.

(** ** Objects *)
Lemma carry_object_hidden tj ts prev new_json : to_object tj (carry_object ts prev new_json) = [].
Proof.
  induction prev as [|[k v] prev IH]; simpl; [done|]. destruct (Has new_json k); [done|].
  simpl. destruct (tombstone_of v) eqn:E; [|done]. rewrite E. done.
Qed.

Lemma to_object_app tj l1 l2 : to_object tj (l1 ++ l2) = to_object tj l1 ++ to_object tj l2.
Proof. induction l1 as [|[k v] l1 IH]; simpl; [done|]. destruct (negb _); simpl; by f_equal. Qed.

Lemma to_object_elem tj k v l : (k, v) ∈ l -> tombstone_of v = false -> (k, tj v) ∈ to_object tj l.
Proof.
  induction l as [|[k' v'] l IH]; [by intros ?%elem_of_nil|]. intros [E|H]%elem_of_cons Ht; cbn.
  - simplify_eq. rewrite Ht. cbn. by left.
  - destruct (negb _); [right|]; by apply IH.
Qed.

(** The fields of a child, shown or not. *)
Lemma child_fields_distinct ts prev k v :
  fields_distinct (ToJson (CObject ts false prev)) = true -> assoc k prev = Some v -> fields_distinct (ToJson v) = true.
Proof.
  intros Hd Hk. cbn [ToJson tombstone_of fields_distinct] in Hd. apply andb_true_iff in Hd as [_ Hd]. rewrite forallb_forall in Hd.
  destruct (tombstone_of v) eqn:Et; [destruct v; cbn in Et; subst; done|].
  apply (Hd (k, ToJson v)), list_elem_of_In, to_object_elem; [by apply assoc_elem|done].
Qed.

Lemma update_object_shows upd ts prev news n :
  (forall j, j ∈ news.*2 -> json_ok j) ->
  (forall k p j m, assoc k prev = Some p -> j ∈ news.*2 ->
     tombstone_of (upd p j m).1 = false /\ shows (ToJson (upd p j m).1) j) ->
  Forall2 (fun x y => fst x = fst y /\ shows (snd x) (snd y))
    (to_object ToJson (update_object upd ts prev news n).1) news.
Proof.
  revert n. induction news as [|[k j] news IH]; intros n Hok Hu; [constructor|]. simpl.
  set (c := match assoc k prev with Some p => upd p j n | None => FromJson ts j n end).
  assert (tombstone_of c.1 = false /\ shows (ToJson c.1) j) as [Hl Hj].
  { subst c. destruct (assoc k prev) as [p|] eqn:Ek; [apply (Hu k); [done|set_solver]|].
    rewrite ToJson_FromJson. split; [apply FromJson_live|]. apply shows_refl, Hok. set_solver. }
  destruct c as [v n1]. specialize (IH n1). destruct (update_object upd ts prev news n1) as [r n2].
  simpl in *. rewrite Hl. simpl. constructor; [done|].
  apply IH; [set_solver|]. intros k' p j' m Hk' Hj'. apply (Hu k'); [done|set_solver].
Qed.

Lemma apply_update_shows ts j prev n :
  json_ok j -> fields_distinct (ToJson prev) = true ->
  tombstone_of (apply_update ts j prev n).1 = false /\ shows (ToJson (apply_update ts j prev n).1) j.
Proof.
  intros Hok. revert prev n. induction Hok as [| | |d Hd| |a Ha IH|o Hnd Ho IH]; intros prev n Hdist.
  all: cbn [apply_update]; destruct (negb (tombstone_of prev) && _) eqn:Enoop;
    [apply andb_true_iff in Enoop as [?%negb_true_iff ?]; split; [done|by apply JsonEquals_shows]|].
  all: clear Enoop; destruct prev as [| | | | |tp [] prev|tp [] prev];
    try (split; [apply FromJson_live|rewrite ToJson_FromJson; apply shows_refl; by constructor]).
  - pose proof (update_array_shows ts prev a (replicate (length prev) false) n Hdist Ha) as Hs.
    destruct (update_array ts prev a (replicate (length prev) false) n) as [[r ms] n'].
    split; [done|]. simpl fst in *. change (ToJson (CArray ts false ?l)) with (JArray (to_array ToJson l)).
    rewrite to_array_app, carry_array_hidden, app_nil_r. by apply shows_array.
  - epose proof (update_object_shows (fun p j m => apply_update ts j p m) ts prev o n) as Hs.
    destruct (update_object (fun p j m => apply_update ts j p m) ts prev o n) as [r n'].
    split; [done|]. simpl fst in *. change (ToJson (CObject ts false ?l)) with (JObject (to_object ToJson l)).
    rewrite to_object_app, carry_object_hidden, app_nil_r.
    apply (shows_object _ o); [|done]. apply Hs.
    + intros x ([k y] & -> & Hx)%list_elem_of_fmap. by eapply Ho.
    + intros k' p x m Hp ([k y] & -> & Hx)%list_elem_of_fmap. eapply IH; [done|]. by eapply child_fields_distinct.
Qed.

(** ** The OR-Set never forgets a tag *)
Lemma match_elem_index prev matched j e ms :
  match_elem prev matched j = Some (e, ms) ->
  exists i, prev !! i = Some e /\ matched !! i = Some false /\ ms = <[i := true]> matched.
Proof.
  revert matched ms. induction prev as [|[tag [t v]] prev IH]; intros [|m matched] ms; try done.
  simpl. destruct (m || t || negb (JsonEquals (ToJson v) j)) eqn:E.
  - destruct (match_elem prev matched j) as [[e' ms']|] eqn:Em; [|done].
    intros; simplify_eq. destruct (IH _ _ Em) as (i & ? & ? & ->). by exists (S i).
  - apply orb_false_iff in E as [[-> _]%orb_false_iff _]. intros; simplify_eq. by exists 0%nat.
Qed.

Lemma update_array_matched ts prev news matched n i e :
  prev !! i = Some e ->
  (update_array ts prev news matched n).1.2 !! i = Some true ->
  matched !! i = Some true \/ e ∈ (update_array ts prev news matched n).1.1.
Proof.
  intros He. revert matched n. induction news as [|j news IH]; intros matched n; [by left|].
  cbn [update_array]. destruct (match_elem prev matched j) as [[e' ms]|] eqn:Em.
  - destruct (match_elem_index _ _ _ _ _ Em) as (i' & He' & Hm & ->).
    specialize (IH (<[i' := true]> matched) n).
    destruct (update_array ts prev news _ n) as [[r ms'] n']. simpl in *.
    intros Ht. destruct (IH Ht) as [Hi|Hi]; [|set_solver].
    destruct (decide (i' = i)) as [->|Hne]; [simplify_eq; set_solver|].
    rewrite list_lookup_insert_ne in Hi by done. by left.
  - destruct (NextTag ts n) as [tag n1]. destruct (FromJson ts j n1) as [v n2].
    specialize (IH matched n2). destruct (update_array ts prev news matched n2) as [[r ms'] n'].
    simpl in *. intros Ht. destruct (IH Ht); [by left|right; set_solver].
Qed.

Lemma update_array_length ts prev news matched n :
  length (update_array ts prev news matched n).1.2 = length matched.
Proof.
  revert matched n. induction news as [|j news IH]; intros matched n; [done|].
  cbn [update_array]. destruct (match_elem prev matched j) as [[e' ms]|] eqn:Em.
  - destruct (match_elem_spec _ _ _ _ _ Em) as (? & ? & _ & _ & _ & Hl).
    specialize (IH ms n). destruct (update_array ts prev news _ n) as [[r ms'] n']. simpl in *. lia.
  - destruct (NextTag ts n) as [tag n1]. destruct (FromJson ts j n1) as [v n2].
    specialize (IH matched n2). by destruct (update_array ts prev news matched n2) as [[r ms'] n'].
Qed.

Lemma carry_array_elem prev ms i tag t v :
  prev !! i = Some (tag, (t, v)) -> ms !! i = Some false -> (tag, (true, v)) ∈ carry_array prev ms.
Proof.
  revert ms i. induction prev as [|[tag' [t' v']] prev IH]; intros [|m ms] [|i]; try done; simpl.
  - intros; simplify_eq. set_solver.
  - intros He Hm. destruct m; [by eapply IH|]. apply elem_of_cons. right. by eapply IH.
Qed.

Lemma update_array_keeps ts prev news n tag t v :
  (tag, (t, v)) ∈ prev ->
  exists t', (tag, (t', v)) ∈ (update_array ts prev news (replicate (length prev) false) n).1.1
               ++ carry_array prev (update_array ts prev news (replicate (length prev) false) n).1.2
             /\ (t = true -> t' = true).
Proof.
  intros [i Hi]%list_elem_of_lookup.
  set (u := update_array ts prev news (replicate (length prev) false) n).
  assert (i < length u.1.2)%nat as Hlt.
  { subst u. rewrite update_array_length, length_replicate. by eapply lookup_lt_Some. }
  destruct (lookup_lt_is_Some_2 _ _ Hlt) as [[] Hm].
  - destruct (update_array_matched ts prev news (replicate (length prev) false) n i _ Hi Hm) as [Hr|Hr].
    + by apply lookup_replicate in Hr as [? _].
    + exists t. split; [|done]. apply elem_of_app. by left.
  - exists true. split; [|done]. apply elem_of_app. right. by eapply carry_array_elem.
Qed.

(** ** The theorems *)

(** C28: a local write is read back: after [ApplyJsonUpdate] of a value without NaN whose
    objects have distinct field names, on any document whose shown objects have distinct
    field names, live or deleted, the document is live and shows the value: the same
    scalars (5 and 5.0 being the same number), array elements in order, object fields in
    any order. *)
Theorem apply_update_reads_back prev j ts n :
  json_ok j -> fields_distinct (ToJson prev) = true ->
  tombstone_of (ApplyJsonUpdate prev j ts n).1 = false /\
  shows (ToJson (ApplyJsonUpdate prev j ts n).1) j.
Proof. apply apply_update_shows. Qed.

Lemma apply_update_reads_back_witness :
  let prev := CObject (mkTs 1 0 (bs "n")) false [(bs "k", MakeTombstone (mkTs 1 0 (bs "n")))] in
  let j := JObject [(bs "k", JArray [JInt 1; JNull]); (bs "l", JString (bs "x"))] in
  shows (ToJson (ApplyJsonUpdate prev j (mkTs 2 0 (bs "n")) 0).1) j.
Proof.
  intros prev j. apply (apply_update_reads_back prev j (mkTs 2 0 (bs "n")) 0); [|by vm_compute].
  apply ok_object; [repeat constructor; set_solver|].
  intros k x Hx. repeat (apply elem_of_cons in Hx as [Hx|Hx]; [simplify_eq|]).
  - apply ok_array. intros y Hy. repeat (apply elem_of_cons in Hy as [->|Hy]; [constructor|]).
    by apply elem_of_nil in Hy.
  - constructor.
  - by apply elem_of_nil in Hx.
Defined.

(** OR-Set monotonicity: when an array is updated in place, every element
    ever seen keeps its tag and value in the new array, and an element that was
    removed stays removed. *)
Theorem array_update_never_forgets tp prev j ts n :
  JsonEquals (ToJson (CArray tp false prev)) (JArray j) = false ->
  exists l n', ApplyJsonUpdate (CArray tp false prev) (JArray j) ts n = (CArray ts false l, n') /\
    forall tag t v, (tag, (t, v)) ∈ prev ->
      exists t', (tag, (t', v)) ∈ l /\ (t = true -> t' = true).
Proof.
  intros Hne. unfold ApplyJsonUpdate. cbn [apply_update]. rewrite Hne, andb_false_r.
  pose proof (update_array_keeps ts prev j n) as Hk.
  destruct (update_array ts prev j (replicate (length prev) false) n) as [[r ms] n'].
  exists (r ++ carry_array prev ms), n'. split; [done|]. intros tag t v Hin. by apply Hk.
Qed.

Lemma array_update_never_forgets_witness :
  let ts := mkTs 1 0 (bs "n") in
  exists l n', ApplyJsonUpdate (CArray ts false [(bs "n:1.0#0", (false, CInt ts false 1))])
                 (JArray [JInt 2]) (mkTs 2 0 (bs "n")) 1 = (CArray (mkTs 2 0 (bs "n")) false l, n') /\
    exists t', (bs "n:1.0#0", (t', CInt ts false 1)) ∈ l.
Proof.
  intros ts.
  destruct (array_update_never_forgets ts [(bs "n:1.0#0", (false, CInt ts false 1))] [JInt 2]
              (mkTs 2 0 (bs "n")) 1) as (l & n' & Ha & Hk); [reflexivity|].
  exists l, n'. split; [exact Ha|].
  destruct (Hk (bs "n:1.0#0") false (CInt ts false 1)) as (t' & Ht & _); [left|]. by exists t'.
Defined.

(** Deleting a document is writing the empty object: the result is
    [IsEmpty] whatever was there, and every key the previous live document had
    is still present, so the deletion takes part in later merges. *)
Theorem delete_by_empty_object prev ts n :
  IsEmpty (ApplyJsonUpdate prev (JObject []) ts n).1 = true /\
  (forall tp o k, prev = CObject tp false o -> k ∈ o.*1 ->
     exists tp' o', (ApplyJsonUpdate prev (JObject []) ts n).1 = CObject tp' false o' /\ k ∈ o'.*1).
Proof.
  unfold ApplyJsonUpdate.
  assert (forall o, (carry_object ts o (JObject [])).*1 = o.*1) as Hkeys.
  { induction o as [|[k v] o IH]; [done|]. cbn. by f_equal. }
  assert (forall o, forallb (fun kv => tombstone_of (snd kv)) (carry_object ts o (JObject [])) = true) as Hdead.
  { induction o as [|[k v] o IH]; [done|]. cbn [carry_object]. change (Has (JObject []) k) with false.
    simpl. rewrite IH, andb_true_r. by destruct (tombstone_of v) eqn:E. }
  split.
  - cbn [apply_update]. destruct (negb (tombstone_of prev) && _) eqn:E.
    + apply andb_true_iff in E as [E1%negb_true_iff E2]. simpl fst.
      destruct prev as [| | | | |? t|? t o]; simpl in E1; subst; try done.
      change (ToJson (CObject ts0 false o)) with (JObject (to_object ToJson o)) in E2.
      apply JsonEquals_object in E2 as [E2 _]. simpl. clear -E2.
      induction o as [|[k v] o IH]; [done|]. simpl in *. by destruct (tombstone_of v); [apply IH|].
    + destruct prev as [| | | | |? []|? [] o]; try done. simpl. apply Hdead.
  - intros tp o k -> Hk. cbn [apply_update]. destruct (negb _ && _); [by exists tp, o|].
    exists ts, (carry_object ts o (JObject [])). split; [done|]. by rewrite Hkeys.
Qed.
