(* ===== verification/CrdtCodec.v ===== *)
(** * Binary codec of the CRDT document: [Encode], [Decode], [DecodeAt]

    What storage writes and gossip ships.  [Encode] sorts every level by key or
    tag, so its bytes do not depend on the order fields were written in;
    [Decode] inverts it up to that order, and is total: the depth cap bounds
    its recursion. *)
From S2P Require Import Prelude Bytes Hlc Json Crdt CrdtMerge.
Local Open Scope Z_scope.

(** [enum class WireKind : uint8_t] *)
Definition wire_kind (v : CrdtValue) : Z :=
  match v with
  | CNull _ _ => 0 | CBool _ _ _ => 1 | CInt _ _ _ => 2 | CDouble _ _ _ => 3
  | CString _ _ _ => 4 | CArray _ _ _ => 5 | CObject _ _ _ => 6
  end.

Definition b2z (b : bool) : Z := if b then 1 else 0.

Definition enc_elem (e : bytes * (bool * bytes)) : bytes :=
  ByteWriter.Bytes (fst e) ++ ByteWriter.U8 (b2z (fst (snd e))) ++ ByteWriter.Bytes (snd (snd e)).

Definition enc_field (kv : bytes * bytes) : bytes :=
  ByteWriter.Bytes (fst kv) ++ ByteWriter.Bytes (snd kv).

Fixpoint Encode (v : CrdtValue) : bytes :=
  ByteWriter.U8 (wire_kind v) ++ ByteWriter.U8 (b2z (tombstone_of v))
  ++ ByteWriter.Bytes (ts_Encode (ts_of v))
  ++ match v with
     | CNull _ _ => []
     | CBool _ _ b => ByteWriter.U8 (b2z b)
     | CInt _ _ i => ByteWriter.I64 i
     | CDouble _ _ d => ByteWriter.F64 d
     | CString _ _ s => ByteWriter.Bytes s
     | CArray _ _ a =>
         ByteWriter.U32 (Zlen a)
         ++ concat (map enc_elem (std_sort str_lt fst
              (map (fun e => (fst e, (fst (snd e), Encode (snd (snd e))))) a)))
     | CObject _ _ o =>
         ByteWriter.U32 (Zlen o)
         ++ concat (map enc_field (std_sort str_lt fst
              (map (fun kv => (fst kv, Encode (snd kv))) o)))
     end.

Section DecodeLoops.
Context (dec : bytes -> option CrdtValue).

Definition child : Reader CrdtValue := fun s =>
  match ByteReader.Bytes s with
  | Some (b, s') => match dec b with Some v => Some (v, s') | None => None end
  | None => None
  end.

Fixpoint dec_array (n : nat) : Reader (list (bytes * (bool * CrdtValue))) :=
  match n with
  | O => rret []
  | S n' => (tag <-r ByteReader.Bytes ;; t <-r ByteReader.U8 ;; v <-r child ;;
             r <-r dec_array n' ;; rret ((tag, (negb (t =? 0), v)) :: r))%reader
  end.

Fixpoint dec_object (n : nat) : Reader (list (bytes * CrdtValue)) :=
  match n with
  | O => rret []
  | S n' => (k <-r ByteReader.Bytes ;; v <-r child ;;
             r <-r dec_object n' ;; rret ((k, v) :: r))%reader
  end.

(** One level: the header, then the payload its kind announces.  A kind byte
    outside the enumeration matches no case and leaves a null. *)
Definition dec_level : Reader CrdtValue :=
  (wk <-r ByteReader.U8 ;; t <-r ByteReader.U8 ;; tsb <-r ByteReader.Bytes ;;
   let tomb := negb (t =? 0) in
   let ts := ts_Decode tsb in
   if wk =? 1 then b <-r ByteReader.U8 ;; rret (CBool ts tomb (negb (b =? 0)))
   else if wk =? 2 then i <-r ByteReader.I64 ;; rret (CInt ts tomb i)
   else if wk =? 3 then d <-r ByteReader.F64 ;; rret (CDouble ts tomb d)
   else if wk =? 4 then s <-r ByteReader.Bytes ;; rret (CString ts tomb s)
   else if wk =? 5 then n <-r ByteReader.U32 ;; a <-r dec_array (Z.to_nat n) ;; rret (CArray ts tomb a)
   else if wk =? 6 then n <-r ByteReader.U32 ;; o <-r dec_object (Z.to_nat n) ;; rret (CObject ts tomb o)
   else rret (CNull ts tomb))%reader.
End DecodeLoops.

Definition kMaxDecodeDepth : nat := 64.

(** [levels] is how many nesting levels the cap still allows:
    [kMaxDecodeDepth + 1 - depth].  [None] is the thrown exception. *)
Fixpoint DecodeAt (levels : nat) (s : bytes) : option CrdtValue :=
  match levels with
  | O => None
  | S l => match dec_level (DecodeAt l) s with Some (v, _) => Some v | None => None end
  end.

Definition Decode (s : bytes) : option CrdtValue := DecodeAt (S kMaxDecodeDepth) s.

(** ** Normal form *)
Fixpoint normalize (v : CrdtValue) : CrdtValue :=
  match v with
  | CArray ts t a =>
      CArray ts t (std_sort str_lt fst (map (fun e => (fst e, (fst (snd e), normalize (snd (snd e))))) a))
  | CObject ts t o =>
      CObject ts t (std_sort str_lt fst (map (fun kv => (fst kv, normalize (snd kv))) o))
  | _ => v
  end.

(** The depth of the deepest value below this one. *)
Fixpoint nesting (v : CrdtValue) : nat :=
  match v with
  | CArray _ _ a => fold_right (fun e m => Nat.max (S (nesting (snd (snd e)))) m) O a
  | CObject _ _ o => fold_right (fun kv m => Nat.max (S (nesting (snd kv))) m) O o
  | _ => O
  end.

(** Every number fits its field on the wire. *)
Definition payload_ok (v : CrdtValue) : Prop :=
  match v with
  | CInt _ _ i => sfits 64 i
  | CDouble _ _ d => fits 64 d
  | CString _ _ s => blob_ok s
  | CArray _ _ a => Zlen a < 2 ^ 32
  | CObject _ _ o => Zlen o < 2 ^ 32
  | _ => True
  end.

Definition header_ok (v : CrdtValue) : Prop := ts_ok (ts_of v) /\ blob_ok (ts_Encode (ts_of v)).

Inductive wire_ok : CrdtValue -> Prop :=
  | wire_scalar v :
      match v with CArray _ _ _ | CObject _ _ _ => false | _ => true end = true ->
      header_ok v -> payload_ok v -> wire_ok v
  | wire_array ts t a :
      header_ok (CArray ts t a) -> payload_ok (CArray ts t a) ->
      (forall e, e ∈ a -> blob_ok (fst e) /\ blob_ok (Encode (snd (snd e)))) ->
      (forall e, e ∈ a -> wire_ok (snd (snd e))) ->
      wire_ok (CArray ts t a)
  | wire_object ts t o :
      header_ok (CObject ts t o) -> payload_ok (CObject ts t o) ->
      (forall kv, kv ∈ o -> blob_ok (fst kv) /\ blob_ok (Encode (snd kv))) ->
      (forall kv, kv ∈ o -> wire_ok (snd kv)) ->
      wire_ok (CObject ts t o).

(** ** Lengths *)
Lemma map_length_Zlen {A B} (g : A -> B) l : Zlen (map g l) = Zlen l.
Proof. unfold Zlen. by rewrite length_map. Qed.

Lemma std_sort_Zlen {A} (k : A -> bytes) l : Zlen (std_sort str_lt k l) = Zlen l.
Proof. unfold Zlen. by rewrite std_sort_length. Qed.

(** ** Round trip *)
Lemma b2z_fits b : fits 8 (b2z b).
Proof. destruct b; split; simpl; lia. Qed.

Lemma b2z_neq b : negb (b2z b =? 0) = b.
Proof. by destruct b. Qed.

Lemma wire_kind_fits v : fits 8 (wire_kind v).
Proof. destruct v; split; simpl; lia. Qed.

Lemma child_round_trip dec (v w : CrdtValue) rest :
  blob_ok (Encode v) -> dec (Encode v) = Some w ->
  child dec (ByteWriter.Bytes (Encode v) ++ rest) = Some (w, rest).
Proof. intros Hb Hd. unfold child. rewrite round_trip by done. by rewrite Hd. Qed.

Lemma dec_array_round_trip dec a rest :
  (forall e, e ∈ a -> blob_ok (fst e) /\ blob_ok (Encode (snd (snd e))) /\
                      dec (Encode (snd (snd e))) = Some (normalize (snd (snd e)))) ->
  dec_array dec (length a)
    (concat (map enc_elem (map (fun e => (fst e, (fst (snd e), Encode (snd (snd e))))) a)) ++ rest)
  = Some (map (fun e => (fst e, (fst (snd e), normalize (snd (snd e))))) a, rest).
Proof.
  induction a as [|[tag [t v]] a IH]; intros Hall; [done|].
  destruct (Hall (tag, (t, v))) as (Hk & Hb & Hd); [set_solver|]. simpl in Hk, Hb, Hd.
  cbn [length dec_array map concat]. unfold enc_elem at 1. simpl fst; simpl snd.
  read_step ltac:(done). read_step ltac:(apply b2z_fits).
  unfold rbind at 1. rewrite <- ?app_assoc, (child_round_trip dec v (normalize v)) by done.
  unfold rbind at 1. rewrite IH by set_solver. unfold rret. by rewrite b2z_neq.
Qed.

Lemma dec_object_round_trip dec o rest :
  (forall kv, kv ∈ o -> blob_ok (fst kv) /\ blob_ok (Encode (snd kv)) /\
                        dec (Encode (snd kv)) = Some (normalize (snd kv))) ->
  dec_object dec (length o)
    (concat (map enc_field (map (fun kv => (fst kv, Encode (snd kv))) o)) ++ rest)
  = Some (map (fun kv => (fst kv, normalize (snd kv))) o, rest).
Proof.
  induction o as [|[k v] o IH]; intros Hall; [done|].
  destruct (Hall (k, v)) as (Hk & Hb & Hd); [set_solver|]. simpl in Hk, Hb, Hd.
  cbn [length dec_object map concat]. unfold enc_field at 1. simpl fst; simpl snd.
  read_step ltac:(done).
  unfold rbind at 1. rewrite <- ?app_assoc, (child_round_trip dec v (normalize v)) by done.
  unfold rbind at 1. by rewrite IH by set_solver.
Qed.

Lemma nesting_array ts t a e : e ∈ a -> (nesting (snd (snd e)) < nesting (CArray ts t a))%nat.
Proof.
  intros He. cbn [nesting]. induction a as [|x a IH]; [by apply elem_of_nil in He|].
  cbn [fold_right]. apply elem_of_cons in He as [->|He]; [lia|]. specialize (IH He). lia.
Qed.

Lemma nesting_object ts t o kv : kv ∈ o -> (nesting (snd kv) < nesting (CObject ts t o))%nat.
Proof.
  intros He. cbn [nesting]. induction o as [|x o IH]; [by apply elem_of_nil in He|].
  cbn [fold_right]. apply elem_of_cons in He as [->|He]; [lia|]. specialize (IH He). lia.
Qed.

(** The three header fields, read in order. *)
Lemma dec_level_header dec v payload :
  header_ok v ->
  dec_level dec (ByteWriter.U8 (wire_kind v) ++ ByteWriter.U8 (b2z (tombstone_of v))
                 ++ ByteWriter.Bytes (ts_Encode (ts_of v)) ++ payload)
  = (let tomb := tombstone_of v in
     let ts := ts_of v in
     match v with
     | CNull _ _ => rret (CNull ts tomb)
     | CBool _ _ _ => rbind ByteReader.U8 (fun b => rret (CBool ts tomb (negb (b =? 0))))
     | CInt _ _ _ => rbind ByteReader.I64 (fun i => rret (CInt ts tomb i))
     | CDouble _ _ _ => rbind ByteReader.F64 (fun d => rret (CDouble ts tomb d))
     | CString _ _ _ => rbind ByteReader.Bytes (fun s => rret (CString ts tomb s))
     | CArray _ _ _ =>
         rbind ByteReader.U32 (fun n => rbind (dec_array dec (Z.to_nat n)) (fun a => rret (CArray ts tomb a)))
     | CObject _ _ _ =>
         rbind ByteReader.U32 (fun n => rbind (dec_object dec (Z.to_nat n)) (fun o => rret (CObject ts tomb o)))
     end) payload.
Proof.
  intros [Ht Hb]. unfold dec_level.
  read_step ltac:(apply wire_kind_fits). read_step ltac:(apply b2z_fits). read_step ltac:(done).
  rewrite ts_Decode_Encode, b2z_neq by done. by destruct v.
Qed.

Lemma DecodeAt_Encode v : wire_ok v ->
  forall levels, (nesting v < levels)%nat -> DecodeAt levels (Encode v) = Some (normalize v).
Proof.
  induction 1 as [v Hs Hh Hp|ts t a Hh Hp Hb Hw IH|ts t o Hh Hp Hb Hw IH];
    intros [|l] Hl; try lia; cbn [DecodeAt].
  - destruct v; try done; cbn [Encode]; rewrite dec_level_header by done; cbn zeta iota;
      try done;
      (read_end ltac:(first [exact Hp|apply b2z_fits])); unfold rret; by rewrite ?b2z_neq.
  - cbn [Encode]. rewrite dec_level_header by done. cbn zeta iota.
    read_step ltac:(split; [apply Zlen_nonneg|done]).
    rewrite (std_sort_map str_lt _ fst fst) by done. unfold rbind at 1.
    rewrite <- (std_sort_Zlen fst a). unfold Zlen at 1. rewrite Nat2Z.id, <- (app_nil_r (concat _)).
    rewrite dec_array_round_trip.
    + unfold rret. cbn [normalize tombstone_of ts_of]. by rewrite (std_sort_map str_lt _ fst fst).
    + intros e He%std_sort_elem_of. destruct (Hb e He). split; [done|]. split; [done|].
      apply IH; [done|]. pose proof (nesting_array ts t a e He). lia.
  - cbn [Encode]. rewrite dec_level_header by done. cbn zeta iota.
    read_step ltac:(split; [apply Zlen_nonneg|done]).
    rewrite (std_sort_map str_lt _ fst fst) by done. unfold rbind at 1.
    rewrite <- (std_sort_Zlen fst o). unfold Zlen at 1. rewrite Nat2Z.id, <- (app_nil_r (concat _)).
    rewrite dec_object_round_trip.
    + unfold rret. cbn [normalize tombstone_of ts_of]. by rewrite (std_sort_map str_lt _ fst fst).
    + intros e He%std_sort_elem_of. destruct (Hb e He). split; [done|]. split; [done|].
      apply IH; [done|]. pose proof (nesting_object ts t o e He). lia.
Qed.

Lemma normalize_canon v : canon v -> normalize v = v.
Proof.
  induction 1 as [v Hv|ts t a Hs Hc IH|ts t o Hs Hc IH]; [by destruct v| |]; cbn [normalize]; f_equal.
  - assert (map (fun e => (fst e, (fst (snd e), normalize (snd (snd e))))) a = a) as ->.
    { rewrite <- (map_id a) at 2. apply map_ext_in. intros [k [b x]] Hin. simpl.
      assert (normalize x = x) as ->; [|done]. apply (IH k (b, x)), assoc_Some; [by eapply sorted_strict_nodup; [apply _|]|].
      by apply list_elem_of_In. }
    by apply std_sort_id; [apply _|].
  - assert (map (fun kv => (fst kv, normalize (snd kv))) o = o) as ->.
    { rewrite <- (map_id o) at 2. apply map_ext_in. intros [k x] Hin. simpl.
      rewrite (IH k x); [done|]. apply assoc_Some; [by eapply sorted_strict_nodup; [apply _|]|].
      by apply list_elem_of_In. }
    by apply std_sort_id; [apply _|].
Qed.

(** Keys and tags are distinct at every level. *)
Inductive keys_distinct : CrdtValue -> Prop :=
  | kd_scalar v :
      match v with CArray _ _ _ | CObject _ _ _ => false | _ => true end = true -> keys_distinct v
  | kd_array ts t a :
      NoDup a.*1 -> (forall e, e ∈ a -> keys_distinct (snd (snd e))) -> keys_distinct (CArray ts t a)
  | kd_object ts t o :
      NoDup o.*1 -> (forall kv, kv ∈ o -> keys_distinct (snd kv)) -> keys_distinct (CObject ts t o).

Lemma canon_normalize v : keys_distinct v -> canon (normalize v).
Proof.
  induction 1 as [v Hv|ts t a Hn Hc IH|ts t o Hn Hc IH]; [by constructor; destruct v| |]; cbn [normalize].
  - set (m := map _ a).
    assert (m.*1 = a.*1) as Hk by (subst m; clear; induction a; simpl; by f_equal).
    apply canon_array; [apply std_sort_sorted; [apply _|by rewrite Hk]|].
    intros k x Hx%assoc_elem. rewrite std_sort_elem_of in Hx.
    apply list_elem_of_In, in_map_iff in Hx as (e & [= <- <-] & He%list_elem_of_In). by apply IH.
  - set (m := map _ o).
    assert (m.*1 = o.*1) as Hk by (subst m; clear; induction o; simpl; by f_equal).
    apply canon_object; [apply std_sort_sorted; [apply _|by rewrite Hk]|].
    intros k x Hx%assoc_elem. rewrite std_sort_elem_of in Hx.
    apply list_elem_of_In, in_map_iff in Hx as (e & [= <- <-] & He%list_elem_of_In). by apply IH.
Qed.

(** C10: what is stored or shipped decodes to the document that was encoded, in
    canonical field order: at most [kMaxDecodeDepth] levels below the root and
    every length below 2^32.  A canonical document comes back identical. *)
Theorem crdt_decode_encode v :
  wire_ok v -> (nesting v <= kMaxDecodeDepth)%nat -> keys_distinct v ->
  Decode (Encode v) = Some (normalize v) /\ canon (normalize v) /\ (canon v -> normalize v = v).
Proof.
  intros Hw Hn Hk. split; [apply DecodeAt_Encode; [done|lia]|].
  split; [by apply canon_normalize|apply normalize_canon].
Qed.

Definition ex_wire_doc : CrdtValue :=
  let t := mkTs 7 1 (bs "n1") in
  CObject t false
    [(bs "b", CArray t false [(bs "n1:7.1#1", (true, CInt t false (-5)));
                              (bs "n1:7.1#0", (false, CDouble t false 4607182418800017408))]);
     (bs "a", CNull t true)].

Lemma crdt_decode_encode_witness : Decode (Encode ex_wire_doc) = Some (normalize ex_wire_doc).
Proof.
  apply (crdt_decode_encode ex_wire_doc).
  - unfold ex_wire_doc. apply wire_object; [vm_compute; intuition discriminate|done| |].
    + intros kv Hkv. repeat (apply elem_of_cons in Hkv as [->|Hkv]; [by split|]).
      by apply elem_of_nil in Hkv.
    + intros kv Hkv. apply elem_of_cons in Hkv as [->|Hkv].
      * apply wire_array; [vm_compute; intuition discriminate|done| |];
          (intros e He; repeat (apply elem_of_cons in He as [->|He];
             [first [by split
                    |apply wire_scalar; vm_compute; intuition discriminate]|]);
           by apply elem_of_nil in He).
      * apply elem_of_cons in Hkv as [->|Hkv]; [|by apply elem_of_nil in Hkv].
        apply wire_scalar; vm_compute; intuition discriminate.
  - vm_compute. lia.
  - apply kd_object; [repeat constructor; set_solver|].
    intros kv Hkv. apply elem_of_cons in Hkv as [->|Hkv].
    + apply kd_array; [repeat constructor; set_solver|].
      intros e He. repeat (apply elem_of_cons in He as [->|He]; [by constructor|]).
      by apply elem_of_nil in He.
    + apply elem_of_cons in Hkv as [->|Hkv]; [by constructor|by apply elem_of_nil in Hkv].
Defined.

(** The encoded bytes of an object do not depend on the order its fields
    were written or merged in, so content hashes of equal documents agree. *)
Theorem crdt_encode_field_order ts t o1 o2 :
  NoDup o1.*1 -> o1 ≡ₚ o2 -> Encode (CObject ts t o1) = Encode (CObject ts t o2).
Proof.
  intros Hn Hp. cbn [Encode]. do 4 f_equal; [by unfold Zlen; rewrite Hp|].
  do 2 f_equal. apply std_sort_proper; [apply _| |].
  - assert ((map (fun kv => (fst kv, Encode (snd kv))) o1).*1 = o1.*1) as ->; [|done].
    clear. induction o1; simpl; by f_equal.
  - by apply Permutation_map.
Qed.

Lemma crdt_encode_field_order_witness :
  let t := mkTs 1 0 (bs "n") in
  Encode (CObject t false [(bs "b", CNull t false); (bs "a", CNull t false)])
  = Encode (CObject t false [(bs "a", CNull t false); (bs "b", CNull t false)]).
Proof.
  intros t. apply crdt_encode_field_order; [repeat constructor; set_solver|apply perm_swap].
Defined.

(** Whatever is accepted nests less than the levels allowed. *)
Lemma DecodeAt_nesting levels s v : DecodeAt levels s = Some v -> (nesting v < levels)%nat.
Proof.
  revert s v. induction levels as [|l IH]; intros s v; [done|]. cbn [DecodeAt].
  destruct (dec_level (DecodeAt l) s) as [[v' rest]|] eqn:E; [|done]. intros; simplify_eq.
  assert (forall n s r rest, dec_array (DecodeAt l) n s = Some (r, rest) ->
    (fold_right (fun e m => Nat.max (S (nesting (snd (snd e)))) m) O r <= l)%nat) as Ha.
  { clear -IH. induction n as [|n IHn]; intros s r rest; simpl; [unfold rret; intros; simplify_eq; simpl; lia|].
    unfold rbind, child. repeat case_match; simplify_eq; try done.
    unfold rret. intros; simplify_eq. simpl.
    match goal with H : DecodeAt l _ = Some _ |- _ => apply IH in H end.
    match goal with H : dec_array _ n _ = Some _ |- _ => apply IHn in H end. lia. }
  assert (forall n s r rest, dec_object (DecodeAt l) n s = Some (r, rest) ->
    (fold_right (fun kv m => Nat.max (S (nesting (snd kv))) m) O r <= l)%nat) as Ho.
  { clear -IH. induction n as [|n IHn]; intros s r rest; simpl; [unfold rret; intros; simplify_eq; simpl; lia|].
    unfold rbind, child. repeat case_match; simplify_eq; try done.
    unfold rret. intros; simplify_eq. simpl.
    match goal with H : DecodeAt l _ = Some _ |- _ => apply IH in H end.
    match goal with H : dec_object _ n _ = Some _ |- _ => apply IHn in H end. lia. }
  revert E. unfold dec_level, rbind, rret.
  repeat case_match; intros; simplify_eq; simpl; try lia;
    match goal with
    | H : dec_array _ _ _ = Some _ |- _ => apply Ha in H
    | H : dec_object _ _ _ = Some _ |- _ => apply Ho in H
    end; lia.
Qed.

(** A level decoded with a more permissive child decoder gives no other answer. *)
Section DecodeMono.
Context (d1 d2 : bytes -> option CrdtValue) (Hmono : forall s v, d1 s = Some v -> d2 s = Some v).

Lemma child_mono s r : child d1 s = Some r -> child d2 s = Some r.
Proof.
  unfold child. destruct (ByteReader.Bytes s) as [[b s']|]; [|done].
  destruct (d1 b) as [v|] eqn:E; [|done]. by rewrite (Hmono _ _ E).
Qed.

Lemma rbind_mono {A B} (m1 m2 : Reader A) (k1 k2 : A -> Reader B) s r :
  (forall r, m1 s = Some r -> m2 s = Some r) -> (forall a s r, k1 a s = Some r -> k2 a s = Some r) ->
  rbind m1 k1 s = Some r -> rbind m2 k2 s = Some r.
Proof.
  intros Hm Hk. unfold rbind. destruct (m1 s) as [[a s']|] eqn:E; [|done].
  rewrite (Hm _ eq_refl). apply Hk.
Qed.

Lemma dec_array_mono n s r : dec_array d1 n s = Some r -> dec_array d2 n s = Some r.
Proof.
  revert s r. induction n as [|n IH]; intros s r; [done|]. cbn [dec_array].
  apply rbind_mono; [done|]. intros tag s1 r1. apply rbind_mono; [done|]. intros t s2 r2.
  apply rbind_mono; [apply child_mono|]. intros v s3 r3. apply rbind_mono; [apply IH|done].
Qed.

Lemma dec_object_mono n s r : dec_object d1 n s = Some r -> dec_object d2 n s = Some r.
Proof.
  revert s r. induction n as [|n IH]; intros s r; [done|]. cbn [dec_object].
  apply rbind_mono; [done|]. intros k s1 r1.
  apply rbind_mono; [apply child_mono|]. intros v s3 r3. apply rbind_mono; [apply IH|done].
Qed.

Lemma dec_level_mono s r : dec_level d1 s = Some r -> dec_level d2 s = Some r.
Proof.
  unfold dec_level. apply rbind_mono; [done|]. intros wk s1 r1. apply rbind_mono; [done|]. intros t s2 r2.
  apply rbind_mono; [done|]. intros tsb s3 r3. cbv zeta. do 4 (destruct (_ =? _); [done|]).
  destruct (_ =? _); [|destruct (_ =? _); [|done]].
  - apply rbind_mono; [done|]. intros n s4 r4. apply rbind_mono; [apply dec_array_mono|done].
  - apply rbind_mono; [done|]. intros n s4 r4. apply rbind_mono; [apply dec_object_mono|done].
Qed.
End DecodeMono.

Lemma DecodeAt_more l l' s v : (l <= l')%nat -> DecodeAt l s = Some v -> DecodeAt l' s = Some v.
Proof.
  revert l' s v. induction l as [|l IH]; intros l' s v Hl; [done|]. destruct l' as [|l']; [lia|]. cbn [DecodeAt].
  destruct (dec_level (DecodeAt l) s) as [r|] eqn:E; [|done].
  rewrite (dec_level_mono (DecodeAt l) (DecodeAt l') (fun s v => IH l' s v ltac:(lia)) _ _ E). done.
Qed.

Lemma deepest_perm {A} (g : A -> nat) l1 l2 : l1 ≡ₚ l2 ->
  fold_right (fun e m => Nat.max (g e) m) O l1 = fold_right (fun e m => Nat.max (g e) m) O l2.
Proof. induction 1; simpl; lia. Qed.

Lemma deepest_map {A B} (f : A -> B) (g : A -> nat) (h : B -> nat) l :
  Forall (fun a => h (f a) = g a) l ->
  fold_right (fun e m => Nat.max (h e) m) O (map f l) = fold_right (fun e m => Nat.max (g e) m) O l.
Proof. induction 1 as [|a l Ha _ IH]; simpl; [done|]. by rewrite Ha, IH. Qed.

Lemma nesting_normalize v : nesting (normalize v) = nesting v.
Proof.
  induction v as [| | | | |ts t a IH|ts t o IH] using CrdtValue_ind; try done; cbn [normalize nesting].
  - rewrite (deepest_perm (fun e => S (nesting (snd (snd e)))) _ _ (std_sort_perm str_lt fst _)).
    apply (deepest_map _ (fun e => S (nesting (snd (snd e)))) (fun e => S (nesting (snd (snd e))))).
    eapply Forall_impl; [exact IH|]. intros e He. cbn. by rewrite He.
  - rewrite (deepest_perm (fun kv => S (nesting (snd kv))) _ _ (std_sort_perm str_lt fst _)).
    apply (deepest_map _ (fun kv => S (nesting (snd kv))) (fun kv => S (nesting (snd kv)))).
    eapply Forall_impl; [exact IH|]. intros e He. cbn. by rewrite He.
Qed.

(** The depth cap is exact: of the documents within the wire format's
    length limits, the decoder accepts the encodings of those with at most
    [kMaxDecodeDepth] levels below the root and throws on every deeper one; and
    whatever bytes it accepts nest within the cap. *)
Theorem crdt_decode_depth_exact v : wire_ok v ->
  ((exists v', Decode (Encode v) = Some v') <-> (nesting v <= kMaxDecodeDepth)%nat)
  /\ forall s v', Decode s = Some v' -> (nesting v' <= kMaxDecodeDepth)%nat.
Proof.
  intros Hw. assert (forall s v', Decode s = Some v' -> (nesting v' <= kMaxDecodeDepth)%nat) as Hb.
  { intros s v' H%DecodeAt_nesting. lia. }
  split; [|done]. split.
  - intros [v' H]. pose proof (Hb _ _ H) as Hn.
    apply (DecodeAt_more _ (S (Nat.max kMaxDecodeDepth (nesting v)))) in H; [|lia].
    rewrite (DecodeAt_Encode v Hw) in H by lia. injection H as <-. by rewrite nesting_normalize in Hn.
  - intros Hn. exists (normalize v). apply DecodeAt_Encode; [done|lia].
Qed.

(** A chain of one-element arrays. *)
Fixpoint nested (n : nat) : CrdtValue :=
  match n with
  | O => CNull ts_default false
  | S n' => CArray ts_default false [(bs "t", (false, nested n'))]
  end.

Lemma nested_short n : (n <= 65)%nat -> blob_ok (Encode (nested n)).
Proof.
  intros Hn. assert (forallb (fun n => Zlen (Encode (nested n)) <? 2 ^ 32) (seq 0 66) = true) as H
    by (vm_compute; reflexivity).
  rewrite forallb_forall in H. apply Z.ltb_lt, H, in_seq. lia.
Qed.

Lemma nested_wire n : (n <= 65)%nat -> wire_ok (nested n).
Proof.
  induction n as [|n IH]; intros Hn; [apply wire_scalar; vm_compute; intuition discriminate|].
  apply wire_array; [vm_compute; intuition discriminate|done| |];
    intros e ->%list_elem_of_singleton; [|apply IH; lia].
  split; [done|]. apply nested_short. lia.
Qed.

Lemma crdt_decode_depth_exact_witness :
  (exists v', Decode (Encode (nested 64)) = Some v') /\ ~ exists v', Decode (Encode (nested 65)) = Some v'.
Proof.
  split.
  - apply (proj2 (proj1 (crdt_decode_depth_exact (nested 64) (nested_wire 64 ltac:(lia))))). apply Nat.leb_le. reflexivity.
  - intros H. apply (proj1 (proj1 (crdt_decode_depth_exact (nested 65) (nested_wire 65 ltac:(lia))))) in H.
    apply Nat.leb_le in H. discriminate.
Defined.
