(* ===== verification/AtRest.v ===== *)
(** * Crypto interface and at-rest sealing: src/security/at_rest.cpp

    The primitives that crypto.cpp takes from OpenSSL are the operations of a
    class; what the engine relies on is a second class of laws.  Sealing of log
    records and of pages, and the recovery-key decoder, are modelled on top.
    The random nonce of a seal is an argument. *)
From coqutil Require Import Word.LittleEndianList.
From S2P Require Import Prelude Bytes.
Local Open Scope Z_scope.

Class Crypto := {
  Sha256 : bytes -> bytes;
  (** key, nonce, plaintext, associated data *)
  AesGcmSeal : bytes -> bytes -> bytes -> bytes -> StatusOr bytes;
  (** key, nonce, ciphertext and tag, associated data *)
  AesGcmOpen : bytes -> bytes -> bytes -> bytes -> option bytes;
  (** input key, salt, info, length; [None] is its exception *)
  HkdfSha256 : bytes -> bytes -> bytes -> Z -> option bytes;
}.

Definition kWalHashLen : nat := 32.
Definition kPageNonceLen : nat := 12.
Definition kPageTagLen : nat := 16.
Definition kDekLen : Z := 32.

(** A digest is 32 bytes; opening a sealed text with the same key, nonce and
    associated data gives the plaintext; the tag adds 16 bytes; a seal with a
    32-byte key and a 12-byte nonce succeeds; a derived key has the asked length. *)
Class CryptoLaws `(C : Crypto) : Prop := {
  sha_length : forall m, length (Sha256 m) = kWalHashLen;
  gcm_open_seal : forall k n p a c, AesGcmSeal k n p a = OK c -> AesGcmOpen k n c a = Some p;
  gcm_seal_length : forall k n p a c,
    AesGcmSeal k n p a = OK c -> length c = (length p + kPageTagLen)%nat;
  gcm_seal_ok : forall k n p a, Zlen k = kDekLen -> length n = kPageNonceLen ->
    exists c, AesGcmSeal k n p a = OK c;
  hkdf_length : forall ikm salt info n k, HkdfSha256 ikm salt info n = Some k -> Zlen k = n;
}.

(** A concrete instance, so that statements about the class have models. *)
Definition toy_crypto : Crypto := {|
  Sha256 m := le_split 32 (Crc32 m + 2 ^ 32 * Zlen m);
  AesGcmSeal k n p a := OK (p ++ replicate kPageTagLen Byte.x00);
  AesGcmOpen k n c a := Some (take (length c - kPageTagLen) c);
  HkdfSha256 ikm salt info n := if Zlen ikm =? n then Some ikm else None;
|}.

#[export] Instance toy_crypto_laws : CryptoLaws toy_crypto.
Proof.
  split.
  - intros m. apply length_le_split.
  - intros k n p a c H.
    assert (c = p ++ replicate kPageTagLen Byte.x00) as -> by (by injection H).
    cbn [AesGcmOpen toy_crypto]. f_equal.
    rewrite length_app, length_replicate. apply take_app_length'. unfold kPageTagLen. lia.
  - intros k n p a c H.
    assert (c = p ++ replicate kPageTagLen Byte.x00) as -> by (by injection H).
    by rewrite length_app, length_replicate.
  - intros k n p a _ _. by eexists.
  - intros ikm salt info n k. cbn [HkdfSha256 toy_crypto].
    destruct (Z.eqb_spec (Zlen ikm) n); [|done]. intros H. by injection H as <-.
Qed.

Section AtRest.
Context `{C : Crypto}.

Definition kSealedRecordMagic : bytes := bs "DSWE".

Definition LooksSealedRecord (s : bytes) : bool :=
  (4 <=? Zlen s) && bool_decide (take 4 s = kSealedRecordMagic).

Definition FileSubkey (dek file_tag : bytes) : StatusOr bytes :=
  if negb (Zlen dek =? kDekLen) then Fault kInvalidArgument
  else match HkdfSha256 dek file_tag (bs "desentry-at-rest-v1") kDekLen with
       | Some k => OK k
       | None => Fault kInternal
       end.

Definition SealRecord (nonce subkey plaintext aad : bytes) : StatusOr bytes :=
  if negb (Zlen subkey =? kDekLen) then Fault kInvalidArgument
  else (ct <-? AesGcmSeal subkey nonce plaintext aad ;;
        OK (kSealedRecordMagic ++ nonce ++ ct))%status.

(** [None]: [sealed.substr(4 + kPageNonceLen)] throws [std::out_of_range] on
    a payload shorter than the magic and nonce. *)
Definition OpenRecord (subkey sealed aad : bytes) : option (StatusOr bytes) :=
  if negb (LooksSealedRecord sealed) then Some (Fault kCorruption)
  else if negb (Zlen subkey =? kDekLen) then Some (Fault kInvalidArgument)
  else if Zlen sealed <? 4 + Z.of_nat kPageNonceLen then None
  else
    let nonce := take kPageNonceLen (drop 4 sealed) in
    let ct_tag := drop (4 + kPageNonceLen) sealed in
    match AesGcmOpen subkey nonce ct_tag aad with
    | Some p => Some (OK p)
    | None => Some (Fault kCorruption)
    end.

(** ** Pages *)
Definition kPageSize : Z := 4096.
Definition kSealedPageSize : Z := kPageSize + Z.of_nat kPageNonceLen + Z.of_nat kPageTagLen.

(** File tag, then the page id big-endian. *)
Definition PageAad (file_tag : bytes) (page_id : Z) : bytes :=
  let id := u32 page_id in
  file_tag ++ map byte.of_Z [Z.land (Z.shiftr id 24) 0xFF; Z.land (Z.shiftr id 16) 0xFF;
                             Z.land (Z.shiftr id 8) 0xFF; Z.land id 0xFF].

Definition SealPage (nonce subkey : bytes) (page_id : Z) (file_tag plaintext_page : bytes)
  : StatusOr bytes :=
  if negb (Zlen subkey =? kDekLen) then Fault kInvalidArgument
  else (ct_tag <-? AesGcmSeal subkey nonce (take (Z.to_nat kPageSize) plaintext_page) (PageAad file_tag page_id) ;;
        if negb (Zlen ct_tag =? kPageSize + Z.of_nat kPageTagLen) then Fault kInternal
        else OK (nonce ++ ct_tag))%status.

Definition OpenPage (subkey : bytes) (page_id : Z) (file_tag sealed_page : bytes) : StatusOr bytes :=
  if negb (Zlen subkey =? kDekLen) then Fault kInvalidArgument
  else
    let nonce := take kPageNonceLen sealed_page in
    let ct_tag := take (Z.to_nat kPageSize + kPageTagLen) (drop kPageNonceLen sealed_page) in
    match AesGcmOpen subkey nonce ct_tag (PageAad file_tag page_id) with
    | Some p => if Zlen p =? kPageSize then OK p else Fault kCorruption
    | None => Fault kCorruption
    end.

Context `{!CryptoLaws C}.

Lemma LooksSealed_magic rest : LooksSealedRecord (kSealedRecordMagic ++ rest) = true.
Proof.
  unfold LooksSealedRecord, Zlen. rewrite length_app. apply andb_true_iff. split.
  - apply Z.leb_le. simpl. lia.
  - by apply bool_decide_eq_true_2.
Qed.

Lemma OpenRecord_SealRecord nonce subkey p aad s :
  length nonce = kPageNonceLen -> SealRecord nonce subkey p aad = OK s ->
  OpenRecord subkey s aad = Some (OK p).
Proof.
  intros Hn. unfold SealRecord, OpenRecord.
  destruct (Zlen subkey =? kDekLen) eqn:Ek; simpl negb; cbv iota; [|done].
  destruct (AesGcmSeal subkey nonce p aad) as [ct|] eqn:Es; [|done]. simpl. intros [= <-].
  change (Byte.x44 :: Byte.x53 :: Byte.x57 :: Byte.x45 :: ?r) with (kSealedRecordMagic ++ r).
  rewrite LooksSealed_magic. simpl negb. cbv iota. unfold Zlen.
  rewrite !length_app, Hn. change (length kSealedRecordMagic) with 4%nat.
  destruct (Z.ltb_spec (Z.of_nat (4 + (kPageNonceLen + length ct))) (4 + Z.of_nat kPageNonceLen));
    [lia|].
  rewrite (drop_app_length' kSealedRecordMagic) by done.
  rewrite (take_app_length' nonce) by done.
  rewrite app_assoc, (drop_app_length' (kSealedRecordMagic ++ nonce))
    by (rewrite length_app, Hn; done).
  by rewrite (gcm_open_seal _ _ _ _ _ Es).
Qed.

Lemma OpenPage_SealPage nonce subkey id tag page s :
  length nonce = kPageNonceLen -> Zlen page = kPageSize ->
  SealPage nonce subkey id tag page = OK s ->
  OpenPage subkey id tag s = OK page /\ Zlen s = kSealedPageSize.
Proof.
  intros Hn Hp. unfold SealPage, OpenPage.
  destruct (negb (Zlen subkey =? kDekLen)); [done|].
  rewrite take_ge by (unfold Zlen in *; lia).
  destruct (AesGcmSeal subkey nonce page (PageAad tag id)) as [ct|] eqn:Es; [|done].
  cbn [sbind]. destruct (Z.eqb_spec (Zlen ct) (kPageSize + Z.of_nat kPageTagLen)) as [El|]; [|done].
  cbn [negb]. intros H. injection H as <-.
  rewrite (take_app_length' nonce), (drop_app_length' nonce) by done.
  rewrite (take_ge ct) by (unfold Zlen in *; lia).
  rewrite (gcm_open_seal _ _ _ _ _ Es), Hp, Z.eqb_refl. split; [done|].
  rewrite Zlen_app, El. unfold kSealedPageSize, Zlen. rewrite Hn. lia.
Qed.
End AtRest.
