(* ===== verification/SlottedPage.v ===== *)
(** * Slotted pages: src/storage/slotted_page.cpp

    A page is its bytes; header and slot directory are read and written in
    place, little-endian.  An access outside the page is [None], so that a
    theorem that an operation returns is also one about memory safety.  The
    specification keeps the list of slots and the record bytes consumed. *)
From coqutil Require Import Word.LittleEndianList.
From S2P Require Import Prelude Bytes AtRest.
Local Open Scope Z_scope.

(** ** Bounded access to a byte array *)
Definition mem_read (off n : Z) (p : bytes) : option bytes :=
  if (0 <=? off) && (0 <=? n) && (off + n <=? Zlen p)
  then Some (take (Z.to_nat n) (drop (Z.to_nat off) p)) else None.

Definition mem_write (off : Z) (d p : bytes) : option bytes :=
  if (0 <=? off) && (off + Zlen d <=? Zlen p)
  then Some (take (Z.to_nat off) p ++ d ++ drop (Z.to_nat off + length d) p) else None.

Lemma mem_write_some off d p :
  0 <= off -> off + Zlen d <= Zlen p -> exists p', mem_write off d p = Some p'.
Proof.
  intros H1 H2. unfold mem_write. rewrite (proj2 (Z.leb_le _ _) H1), (proj2 (Z.leb_le _ _) H2).
  by eexists.
Qed.

Lemma mem_write_length off d p p' : mem_write off d p = Some p' -> Zlen p' = Zlen p.
Proof.
  unfold mem_write, Zlen. destruct (_ && _) eqn:E; [|done]. apply andb_true_iff in E as [H1 H2].
  apply Z.leb_le in H1, H2. intros [= <-]. rewrite !length_app, length_take, length_drop. lia.
Qed.

Lemma mem_read_same off d p p' :
  mem_write off d p = Some p' -> mem_read off (Zlen d) p' = Some d.
Proof.
  intros Hw. pose proof (mem_write_length _ _ _ _ Hw) as Hl. unfold mem_write in Hw.
  destruct (_ && _) eqn:E; [|done]. apply andb_true_iff in E as [H1 H2]. apply Z.leb_le in H1, H2.
  injection Hw as Hw. unfold mem_read. rewrite Hl, (proj2 (Z.leb_le _ _) H1), (proj2 (Z.leb_le _ _) H2).
  rewrite (proj2 (Z.leb_le _ _) (Zlen_nonneg d)). cbn [andb]. f_equal. subst p'.
  unfold Zlen in *. rewrite drop_app_length' by (rewrite length_take; lia).
  by rewrite Nat2Z.id, take_app_length.
Qed.

Lemma mem_read_other off d p p' o n :
  mem_write off d p = Some p' -> o + n <= off \/ off + Zlen d <= o -> mem_read o n p' = mem_read o n p.
Proof.
  intros Hw Hd. pose proof (mem_write_length _ _ _ _ Hw) as Hl. unfold mem_write in Hw.
  destruct (_ && _) eqn:E; [|done]. apply andb_true_iff in E as [H1 H2]. apply Z.leb_le in H1, H2.
  injection Hw as Hw. unfold mem_read. rewrite Hl. destruct (_ && _) eqn:E; [|done].
  rewrite !andb_true_iff, !Z.leb_le in E. destruct E as [[Ho Hn] Hb]. f_equal. subst p'.
  unfold Zlen in *. apply list_eq. intros i. destruct (decide (i < Z.to_nat n)%nat) as [Hi|Hi].
  - rewrite !lookup_take_lt, !lookup_drop by lia. destruct Hd as [Hd|Hd].
    + rewrite lookup_app_l by (rewrite length_take; lia). apply lookup_take_lt. lia.
    + rewrite lookup_app_r by (rewrite length_take; lia). rewrite length_take.
      rewrite lookup_app_r by lia. rewrite lookup_drop. f_equal. lia.
  - rewrite !lookup_take_ge by lia. done.
Qed.

Definition get16 (off : Z) (p : bytes) : option Z := le_combine <$> mem_read off 2 p.
Definition set16 (off v : Z) (p : bytes) : option bytes := mem_write off (ByteWriter.U16 v) p.

(** ** The operations *)
Definition kTombstoneLength : Z := 0xFFFF.

(** [sizeof(SlottedPageHeader)] and [sizeof(SlotEntry)] are both 4: two [uint16_t]. *)
Definition Slot (slot_id : Z) : Z := 4 + slot_id * 4.

Definition num_slots (p : bytes) : option Z := get16 0 p.
Definition free_space_offset (p : bytes) : option Z := get16 2 p.

Definition Init (p : bytes) : option bytes := p1 ← set16 0 0 p; set16 2 (u16 kPageSize) p1.

Definition FreeSpace (p : bytes) : option Z :=
  n ← num_slots p; fso ← free_space_offset p;
  let slots_end := 4 + n * 4 in
  Some (if fso <? slots_end then 0 else fso - slots_end).

(** The search for a tombstoned slot, [i] counting up and [k] slots left. *)
Fixpoint find_tombstone (k : nat) (i : Z) (p : bytes) : option (option Z) :=
  match k with
  | O => Some None
  | S k' => len ← get16 (Slot i + 2) p;
            if len =? kTombstoneLength then Some (Some i) else find_tombstone k' (i + 1) p
  end.

(** Copies the record below the free-space mark, points slot [i] at it and moves the mark. *)
Definition write_record (i fso : Z) (data p : bytes) : option bytes :=
  let new_offset := u16 (fso - Zlen data) in
  p1 ← mem_write new_offset data p;
  p2 ← set16 (Slot i) new_offset p1;
  p3 ← set16 (Slot i + 2) (u16 (Zlen data)) p2;
  set16 2 new_offset p3.

Definition InsertRecord (data p : bytes) : option (Z * bytes) :=
  free ← FreeSpace p;
  if free <? u64 (Zlen data + 4) then Some (-1, p)
  else
    n ← num_slots p; fso ← free_space_offset p;
    tomb ← find_tombstone (Z.to_nat n) 0 p;
    match tomb with
    | Some i => p' ← write_record i fso data p; Some (i, p')
    | None => p1 ← write_record n fso data p; p2 ← set16 0 (u16 (n + 1)) p1; Some (to_signed 16 n, p2)
    end.

Definition GetRecord (slot_id : Z) (p : bytes) : option (option bytes) :=
  n ← num_slots p;
  if (slot_id <? 0) || (to_signed 16 n <=? slot_id) then Some None
  else
    len ← get16 (Slot slot_id + 2) p;
    if len =? kTombstoneLength then Some None
    else off ← get16 (Slot slot_id) p; d ← mem_read off len p; Some (Some d).

Definition DeleteRecord (slot_id : Z) (p : bytes) : option (bool * bytes) :=
  n ← num_slots p;
  if (slot_id <? 0) || (to_signed 16 n <=? slot_id) then Some (false, p)
  else
    len ← get16 (Slot slot_id + 2) p;
    if len =? kTombstoneLength then Some (false, p)
    else p1 ← set16 (Slot slot_id + 2) kTombstoneLength p; p2 ← set16 (Slot slot_id) 0 p1; Some (true, p2).

(** ** The specification *)
Record slots_spec := mkSlots { recs : list (option bytes); used : Z }.

Definition spec_free (s : slots_spec) : Z := kPageSize - used s - 4 - 4 * Zlen (recs s).

Definition first_free (l : list (option bytes)) : option nat := fst <$> list_find (fun r => r = None) l.

Definition spec_insert (d : bytes) (s : slots_spec) : Z * slots_spec :=
  if spec_free s <? Zlen d + 4 then (-1, s)
  else match first_free (recs s) with
       | Some i => (Z.of_nat i, mkSlots (<[i := Some d]> (recs s)) (used s + Zlen d))
       | None => (Zlen (recs s), mkSlots (recs s ++ [Some d]) (used s + Zlen d))
       end.

Definition spec_get (id : Z) (s : slots_spec) : option bytes :=
  if id <? 0 then None else mjoin (recs s !! Z.to_nat id).

Definition spec_delete (id : Z) (s : slots_spec) : bool * slots_spec :=
  match spec_get id s with
  | Some _ => (true, mkSlots (<[Z.to_nat id := None]> (recs s)) (used s))
  | None => (false, s)
  end.

(** What a page's bytes mean. *)
Definition slot_means (p : bytes) (fso : Z) (i : Z) (r : option bytes) : Prop :=
  match r with
  | None => get16 (Slot i + 2) p = Some kTombstoneLength
  | Some d => exists off, get16 (Slot i) p = Some off /\ get16 (Slot i + 2) p = Some (Zlen d)
      /\ fso <= off /\ off + Zlen d <= kPageSize /\ mem_read off (Zlen d) p = Some d
  end.

Record page_means (p : bytes) (s : slots_spec) : Prop := {
  pm_len : Zlen p = kPageSize;
  pm_num : num_slots p = Some (Zlen (recs s));
  pm_fso : free_space_offset p = Some (kPageSize - used s);
  pm_used : 0 <= used s;
  pm_room : 0 <= spec_free s;
  pm_slots : forall i r, recs s !! i = Some r -> slot_means p (kPageSize - used s) (Z.of_nat i) r;
}.

Lemma Zlen_U16 v : Zlen (ByteWriter.U16 v) = 2.
Proof. unfold Zlen, ByteWriter.U16. by rewrite length_le_split. Qed.

Lemma get16_same off v p p' : set16 off v p = Some p' -> fits 16 v -> get16 off p' = Some v.
Proof.
  intros Hw Hv. unfold get16. rewrite <- (Zlen_U16 v), (mem_read_same _ _ _ _ Hw). cbn. f_equal.
  unfold ByteWriter.U16. rewrite le_combine_split. by apply Z.mod_small.
Qed.

Lemma get16_other off d p p' o :
  mem_write off d p = Some p' -> o + 2 <= off \/ off + Zlen d <= o -> get16 o p' = get16 o p.
Proof. intros Hw Hd. unfold get16. by rewrite (mem_read_other _ _ _ _ _ _ Hw Hd). Qed.

Lemma set16_some off v p : 0 <= off -> off + 2 <= Zlen p -> exists p', set16 off v p = Some p'.
Proof. intros. apply mem_write_some; [done|]. by rewrite Zlen_U16. Qed.

Lemma set16_other off v p p' o n :
  set16 off v p = Some p' -> o + n <= off \/ off + 2 <= o -> mem_read o n p' = mem_read o n p.
Proof. intros Hw Hd. apply (mem_read_other _ _ _ _ _ _ Hw). by rewrite Zlen_U16. Qed.

Lemma get16_set16_other off v p p' o :
  set16 off v p = Some p' -> o + 2 <= off \/ off + 2 <= o -> get16 o p' = get16 o p.
Proof. intros Hw Hd. unfold get16. by rewrite (set16_other _ _ _ _ _ _ Hw Hd). Qed.

(** A slot keeps its meaning when a write misses its entry and its record. *)
Lemma slot_means_write off d p p' fso fso' i r :
  mem_write off d p = Some p' -> fso' <= fso ->
  Slot i + 4 <= off \/ off + Zlen d <= Slot i -> off + Zlen d <= fso ->
  slot_means p fso i r -> slot_means p' fso' i r.
Proof.
  intros Hw Hf Hd Hb. unfold slot_means. destruct r as [rec|].
  - intros (o & H1 & H2 & H3 & H4 & H5). exists o.
    rewrite !(get16_other _ _ _ _ _ Hw) by lia. rewrite (mem_read_other _ _ _ _ _ _ Hw) by lia.
    split_and!; [done..|lia|done|done].
  - by rewrite (get16_other _ _ _ _ _ Hw) by lia.
Qed.

Lemma write_record_ok i fso d p :
  Zlen p = kPageSize -> 0 <= i -> fso <= kPageSize -> Slot i + 4 + Zlen d <= fso ->
  exists p', write_record i fso d p = Some p' /\ Zlen p' = kPageSize
    /\ num_slots p' = num_slots p /\ free_space_offset p' = Some (fso - Zlen d)
    /\ slot_means p' (fso - Zlen d) i (Some d)
    /\ forall j r, j <> i -> 0 <= j -> Slot j + 4 <= fso - Zlen d ->
         slot_means p fso j r -> slot_means p' (fso - Zlen d) j r.
Proof.
  intros Hp Hi Hf Hr. pose proof (Zlen_nonneg d) as Hd. unfold write_record, kPageSize in *.
  assert (fits 16 (fso - Zlen d)) as H16 by (unfold fits, Slot in *; lia).
  assert (fits 16 (Zlen d)) as Hd16 by (unfold fits, Slot in *; lia).
  unfold u16. rewrite !wrap_id by done.
  destruct (mem_write_some (fso - Zlen d) d p) as [p1 W1]; [unfold Slot in *; lia..|].
  pose proof (mem_write_length _ _ _ _ W1) as L1.
  destruct (set16_some (Slot i) (fso - Zlen d) p1) as [p2 W2]; [unfold Slot in *; lia..|].
  pose proof (mem_write_length _ _ _ _ W2) as L2.
  destruct (set16_some (Slot i + 2) (Zlen d) p2) as [p3 W3]; [unfold Slot in *; lia..|].
  pose proof (mem_write_length _ _ _ _ W3) as L3.
  destruct (set16_some 2 (fso - Zlen d) p3) as [p4 W4]; [unfold Slot in *; lia..|].
  pose proof (mem_write_length _ _ _ _ W4) as L4.
  exists p4. rewrite W1. cbn. rewrite W2. cbn. rewrite W3. cbn. split; [done|]. split; [lia|].
  unfold num_slots, free_space_offset. unfold Slot in *. split_and!.
  - rewrite (get16_set16_other _ _ _ _ _ W4), (get16_set16_other _ _ _ _ _ W3),
      (get16_set16_other _ _ _ _ _ W2), (get16_other _ _ _ _ _ W1) by lia. done.
  - by rewrite (get16_same _ _ _ _ W4).
  - exists (fso - Zlen d). unfold Slot.
    rewrite !(get16_set16_other _ _ _ _ _ W4) by lia. rewrite (get16_same _ _ _ _ W3) by done.
    rewrite (get16_set16_other _ _ _ _ _ W3), (get16_same _ _ _ _ W2) by first [done|lia].
    rewrite (set16_other _ _ _ _ _ _ W4), (set16_other _ _ _ _ _ _ W3), (set16_other _ _ _ _ _ _ W2) by lia.
    rewrite (mem_read_same _ _ _ _ W1). unfold kPageSize. split_and!; [done|done|lia|lia|done].
  - intros j r Hj Hj0 Hjb Hm.
    apply (slot_means_write _ _ _ _ (fso - Zlen d) _ _ _ W4); rewrite ?Zlen_U16; unfold Slot; [lia..|].
    apply (slot_means_write _ _ _ _ (fso - Zlen d) _ _ _ W3); rewrite ?Zlen_U16; unfold Slot; [lia..|].
    apply (slot_means_write _ _ _ _ (fso - Zlen d) _ _ _ W2); rewrite ?Zlen_U16; unfold Slot; [lia..|].
    apply (slot_means_write _ _ _ _ fso _ _ _ W1); unfold Slot; [lia..|done].
Qed.

Lemma Init_ok p : Zlen p = kPageSize -> exists p', Init p = Some p' /\ page_means p' (mkSlots [] 0).
Proof.
  intros Hp. unfold Init. unfold kPageSize in *.
  destruct (set16_some 0 0 p) as [p1 W1]; [lia..|]. pose proof (mem_write_length _ _ _ _ W1) as L1.
  destruct (set16_some 2 (u16 4096) p1) as [p2 W2]; [lia..|]. pose proof (mem_write_length _ _ _ _ W2) as L2.
  exists p2. rewrite W1. split; [done|]. split; cbn [recs used]; [unfold kPageSize; lia| | |done|done|done].
  - unfold num_slots. rewrite (get16_set16_other _ _ _ _ _ W2) by lia. by apply (get16_same _ _ _ _ W1).
  - by apply (get16_same _ _ _ _ W2).
Qed.

Lemma page_room p s : page_means p s -> 4 + 4 * Zlen (recs s) <= kPageSize - used s /\ Zlen (recs s) < 1024.
Proof.
  intros Hm. pose proof (pm_room _ _ Hm) as H. pose proof (pm_used _ _ Hm). unfold spec_free, kPageSize in *. lia.
Qed.

Lemma FreeSpace_ok p s : page_means p s -> FreeSpace p = Some (spec_free s).
Proof.
  intros Hm. pose proof (page_room _ _ Hm) as [Hr _]. unfold FreeSpace.
  rewrite (pm_num _ _ Hm). cbn. rewrite (pm_fso _ _ Hm). cbn. f_equal.
  destruct (Z.ltb_spec (kPageSize - used s) (4 + Zlen (recs s) * 4)); unfold spec_free; lia.
Qed.

Lemma lookup_Zlen {A} (l : list A) i x : l !! i = Some x -> Z.of_nat i < Zlen l.
Proof. intros H%lookup_lt_Some. unfold Zlen. lia. Qed.

(** Whether the length field of a live slot reads as the tombstone mark. *)
Lemma slot_length p s i r : page_means p s -> recs s !! i = Some r ->
  exists len, get16 (Slot (Z.of_nat i) + 2) p = Some len /\ (len =? kTombstoneLength) = bool_decide (r = None).
Proof.
  intros Hm Hi. pose proof (pm_slots _ _ Hm i r Hi) as Hs. pose proof (pm_used _ _ Hm) as Hu.
  destruct r as [d|]; cbn in Hs.
  - destruct Hs as (off & _ & Hl & H1 & H2 & _). exists (Zlen d). split; [done|].
    pose proof (page_room _ _ Hm) as [Hr _]. pose proof (Zlen_nonneg (recs s)).
    rewrite bool_decide_eq_false_2 by done. apply Z.eqb_neq. unfold kTombstoneLength, kPageSize in *. lia.
  - exists kTombstoneLength. split; [done|]. by rewrite bool_decide_eq_true_2.
Qed.

Lemma find_tombstone_ok p s pre l : page_means p s -> recs s = pre ++ l ->
  find_tombstone (length l) (Zlen pre) p = Some ((fun i => Zlen pre + Z.of_nat i) <$> first_free l).
Proof.
  intros Hm. revert pre. induction l as [|r l IH]; intros pre Hs; [done|]. cbn [length find_tombstone].
  destruct (slot_length p s (length pre) r Hm) as (len & Hg & Ht).
  { rewrite Hs. by rewrite list_lookup_middle. }
  change (Z.of_nat (length pre)) with (Zlen pre) in Hg. rewrite Hg. cbn [mbind option_bind]. rewrite Ht. unfold first_free. cbn [list_find].
  case_bool_decide as Hr.
  - rewrite decide_True by done. cbn. do 2 f_equal. lia.
  - rewrite decide_False by done. specialize (IH (pre ++ [r])). rewrite <- app_assoc in IH.
    specialize (IH Hs). rewrite Zlen_app in IH. change (Zlen [r]) with 1 in IH. rewrite IH.
    unfold first_free. destruct (list_find _ l) as [[i x]|]; cbn; [do 2 f_equal; lia|done].
Qed.

Lemma first_free_Some l i : first_free l = Some i -> l !! i = Some None.
Proof.
  unfold first_free. destruct (list_find _ l) as [[j x]|] eqn:E; [|done]. intros [= <-].
  apply list_find_Some in E as (H & -> & _). done.
Qed.

(** The meaning of a page after a record is placed in slot [i]. *)
Lemma place_slots (p p' : bytes) (s : slots_spec) (i : nat) (d : bytes) (l : list (option bytes)) :
  (forall j r, recs s !! j = Some r -> slot_means p (kPageSize - used s) (Z.of_nat j) r) ->
  slot_means p' (kPageSize - (used s + Zlen d)) (Z.of_nat i) (Some d) ->
  (forall j r, Z.of_nat j <> Z.of_nat i -> slot_means p (kPageSize - used s) (Z.of_nat j) r ->
     recs s !! j = Some r -> slot_means p' (kPageSize - (used s + Zlen d)) (Z.of_nat j) r) ->
  (forall j r, l !! j = Some r -> j = i /\ r = Some d \/ j <> i /\ recs s !! j = Some r) ->
  forall j r, l !! j = Some r -> slot_means p' (kPageSize - (used s + Zlen d)) (Z.of_nat j) r.
Proof.
  intros Hold Hnew Hkeep Hl j r Hj. destruct (Hl j r Hj) as [[-> ->]|[Hne Hr]]; [done|].
  apply Hkeep; [lia|by apply Hold|done].
Qed.

(** Writing [d] through slot [i], a tombstone of the directory. *)
Lemma reuse_ok d p s i : page_means p s -> recs s !! i = Some None -> Zlen d + 4 <= spec_free s ->
  exists p', write_record (Z.of_nat i) (kPageSize - used s) d p = Some p'
    /\ page_means p' (mkSlots (<[i := Some d]> (recs s)) (used s + Zlen d)).
Proof.
  intros Hm Ei Hf. pose proof (Zlen_nonneg d) as Hd0. pose proof (pm_used _ _ Hm) as Hu.
  pose proof (lookup_Zlen _ _ _ Ei) as Hi. unfold spec_free in Hf.
  destruct (write_record_ok (Z.of_nat i) (kPageSize - used s) d p) as (p' & W & L & N & F & M & K);
    [by apply (pm_len p s)|lia|lia|unfold Slot; lia|].
  exists p'. split; [done|]. rewrite <- Z.sub_add_distr in *.
  split; cbn [recs used]; [done| |done|lia| |].
  - rewrite N, (pm_num _ _ Hm). unfold Zlen. by rewrite length_insert.
  - unfold spec_free, Zlen in *. cbn [recs used]. rewrite length_insert. lia.
  - apply (place_slots p p' s i d); [by apply pm_slots|done| |].
    + intros j r Hj Hs Hl. apply K; [done|lia| |done]. apply lookup_Zlen in Hl. unfold Slot. lia.
    + intros j r Hj. destruct (decide (j = i)) as [->|Hne].
      * rewrite list_lookup_insert_eq in Hj by (apply lookup_lt_Some in Ei; lia). left. by simplify_eq.
      * rewrite list_lookup_insert_ne in Hj by done. by right.
Qed.

(** Writing [d] through a new slot at the end of the directory. *)
Lemma fresh_ok d p s : page_means p s -> Zlen d + 4 <= spec_free s ->
  exists p1 p2, write_record (Zlen (recs s)) (kPageSize - used s) d p = Some p1
    /\ set16 0 (u16 (Zlen (recs s) + 1)) p1 = Some p2
    /\ page_means p2 (mkSlots (recs s ++ [Some d]) (used s + Zlen d)).
Proof.
  intros Hm Hf. pose proof (Zlen_nonneg d) as Hd0. pose proof (pm_used _ _ Hm) as Hu.
  pose proof (page_room _ _ Hm) as [Hr Hn]. pose proof (Zlen_nonneg (recs s)) as Hn0. unfold spec_free in Hf.
  destruct (write_record_ok (Zlen (recs s)) (kPageSize - used s) d p) as (p1 & W & L & N & F & M & K);
    [by apply (pm_len p s)|done|lia|unfold Slot; lia|].
  unfold u16. rewrite wrap_id by (unfold fits; lia).
  destruct (set16_some 0 (Zlen (recs s) + 1) p1) as [p2 W2]; [lia|unfold kPageSize in *; lia|].
  pose proof (mem_write_length _ _ _ _ W2) as L2. exists p1, p2. rewrite <- Z.sub_add_distr in *.
  split; [done|]. split; [done|]. split; cbn [recs used]; [lia| | |lia| |].
  - rewrite Zlen_app. change (Zlen [Some d]) with 1. apply (get16_same _ _ _ _ W2). unfold fits. lia.
  - unfold free_space_offset. rewrite (get16_set16_other _ _ _ _ _ W2) by lia. done.
  - unfold spec_free. cbn [recs used]. rewrite Zlen_app. change (Zlen [Some d]) with 1. lia.
  - intros j r Hj. apply (slot_means_write _ _ _ _ (kPageSize - (used s + Zlen d)) _ _ _ W2);
      rewrite ?Zlen_U16; [lia|unfold Slot; lia|lia|]. revert j r Hj.
    apply (place_slots p p1 s (length (recs s)) d); [by apply pm_slots|done| |].
    + intros j r Hj Hs Hl. apply lookup_Zlen in Hl. apply K; [unfold Zlen; lia|lia| |done]. unfold Slot. lia.
    + intros j r Hj. apply lookup_app_Some in Hj as [Hj|[Hge Hj]].
      * right. split; [apply lookup_lt_Some in Hj; lia|done].
      * left. apply list_lookup_singleton_Some in Hj as [? ->]. split; [lia|done].
Qed.

(** A slot count is read back unchanged through the narrower [slot_id_t]. *)
Lemma slot_id_count p s : page_means p s -> to_signed 16 (Zlen (recs s)) = Zlen (recs s).
Proof.
  intros Hm. pose proof (page_room _ _ Hm) as [_ Hn]. unfold to_signed.
  destruct (Z.ltb_spec (Zlen (recs s)) (2 ^ (16 - 1))); [done|lia].
Qed.

Lemma InsertRecord_ok d p s : page_means p s -> Zlen d < 2 ^ 64 - 4 ->
  exists p', InsertRecord d p = Some ((spec_insert d s).1, p') /\ page_means p' (spec_insert d s).2.
Proof.
  intros Hm Hd. pose proof (Zlen_nonneg d) as Hd0. unfold InsertRecord, spec_insert.
  rewrite (FreeSpace_ok _ _ Hm). cbn [mbind option_bind]. unfold u64. rewrite wrap_id by (unfold fits; lia).
  destruct (Z.ltb_spec (spec_free s) (Zlen d + 4)) as [Hf|Hf]; [by exists p|].
  rewrite (pm_num _ _ Hm). cbn [mbind option_bind]. rewrite (pm_fso _ _ Hm). cbn [mbind option_bind].
  pose proof (find_tombstone_ok p s [] (recs s) Hm eq_refl) as Ht.
  change (Zlen (@nil (option bytes))) with 0 in Ht.
  replace (Z.to_nat (Zlen (recs s))) with (length (recs s)) by (unfold Zlen; lia). rewrite Ht.
  cbn [mbind option_bind]. destruct (first_free (recs s)) as [i|] eqn:Ei; cbn [fmap option_fmap option_map].
  - rewrite Z.add_0_l. destruct (reuse_ok d p s i Hm (first_free_Some _ _ Ei) Hf) as (p' & W & Hm').
    exists p'. by rewrite W.
  - destruct (fresh_ok d p s Hm Hf) as (p1 & p2 & W1 & W2 & Hm'). exists p2.
    rewrite W1. cbn [mbind option_bind]. rewrite W2. cbn [mbind option_bind fst snd].
    by rewrite (slot_id_count _ _ Hm).
Qed.

(** The range check of [GetRecord] and [DeleteRecord]. *)
Lemma slot_range p s id : page_means p s ->
  ((id <? 0) || (to_signed 16 (Zlen (recs s)) <=? id) = true /\ spec_get id s = None)
  \/ (exists i r, id = Z.of_nat i /\ recs s !! i = Some r
       /\ (id <? 0) || (to_signed 16 (Zlen (recs s)) <=? id) = false /\ spec_get id s = r).
Proof.
  intros Hm. rewrite (slot_id_count _ _ Hm). unfold spec_get.
  destruct (Z.ltb_spec id 0); [by left|]. destruct (Z.leb_spec (Zlen (recs s)) id) as [Hge|Hlt].
  - left. split; [done|]. rewrite lookup_ge_None_2; [done|]. unfold Zlen in Hge. lia.
  - right. destruct (lookup_lt_is_Some_2 (recs s) (Z.to_nat id)) as [r Hr]; [unfold Zlen in Hlt; lia|].
    exists (Z.to_nat id), r. rewrite Hr. split_and!; [lia|done|done|by destruct r].
Qed.

Lemma GetRecord_ok id p s : page_means p s -> GetRecord id p = Some (spec_get id s).
Proof.
  intros Hm. unfold GetRecord. rewrite (pm_num _ _ Hm). cbn [mbind option_bind].
  destruct (slot_range p s id Hm) as [[-> ->]|(i & r & -> & Hr & -> & ->)]; [done|].
  destruct (slot_length p s i r Hm Hr) as (len & Hl & Ht). rewrite Hl. cbn [mbind option_bind]. rewrite Ht.
  case_bool_decide as Hn; [by subst r|]. destruct r as [d|]; [|done].
  destruct (pm_slots _ _ Hm i _ Hr) as (off & Ho & Hl' & _ & _ & Hd). rewrite Hl in Hl'. simplify_eq.
  rewrite Ho. cbn [mbind option_bind]. by rewrite Hd.
Qed.

Lemma DeleteRecord_ok id p s : page_means p s ->
  exists p', DeleteRecord id p = Some ((spec_delete id s).1, p') /\ page_means p' (spec_delete id s).2.
Proof.
  intros Hm. unfold DeleteRecord, spec_delete. rewrite (pm_num _ _ Hm). cbn [mbind option_bind].
  destruct (slot_range p s id Hm) as [[-> ->]|(i & r & -> & Hr & -> & ->)]; [by exists p|].
  destruct (slot_length p s i r Hm Hr) as (len & Hl & Ht). rewrite Hl. cbn [mbind option_bind]. rewrite Ht.
  case_bool_decide as Hn; [subst r; by exists p|]. destruct r as [d|]; [|done]. rewrite Nat2Z.id.
  pose proof (lookup_Zlen _ _ _ Hr) as Hi. pose proof (page_room _ _ Hm) as [Hroom _].
  pose proof (pm_used _ _ Hm) as Hu. pose proof (pm_len _ _ Hm) as Hlen.
  destruct (set16_some (Slot (Z.of_nat i) + 2) kTombstoneLength p) as [p1 W1]; [unfold Slot; lia..|].
  pose proof (mem_write_length _ _ _ _ W1) as L1.
  destruct (set16_some (Slot (Z.of_nat i)) 0 p1) as [p2 W2]; [unfold Slot; lia..|].
  pose proof (mem_write_length _ _ _ _ W2) as L2.
  rewrite W1. cbn [mbind option_bind]. rewrite W2. cbn [mbind option_bind fst snd]. exists p2. split; [done|].
  split; cbn [recs used]; [lia| | |done| |].
  - unfold num_slots. rewrite (get16_set16_other _ _ _ _ _ W2), (get16_set16_other _ _ _ _ _ W1) by (unfold Slot; lia).
    rewrite (pm_num _ _ Hm : get16 0 p = _). unfold Zlen. by rewrite length_insert.
  - unfold free_space_offset.
    rewrite (get16_set16_other _ _ _ _ _ W2), (get16_set16_other _ _ _ _ _ W1) by (unfold Slot; lia).
    apply (pm_fso _ _ Hm).
  - pose proof (pm_room _ _ Hm) as H. unfold spec_free, Zlen in *. cbn [recs used]. rewrite length_insert. lia.
  - intros j r Hj. destruct (decide (j = i)) as [->|Hne].
    + rewrite list_lookup_insert_eq in Hj by (apply lookup_lt_Some in Hr; lia). simplify_eq. cbn.
      rewrite (get16_set16_other _ _ _ _ _ W2) by lia. by apply (get16_same _ _ _ _ W1).
    + rewrite list_lookup_insert_ne in Hj by done.
      apply (slot_means_write _ _ _ _ (kPageSize - used s) _ _ _ W2); rewrite ?Zlen_U16; [lia|unfold Slot; lia|unfold Slot; lia|].
      apply (slot_means_write _ _ _ _ (kPageSize - used s) _ _ _ W1); rewrite ?Zlen_U16; [lia|unfold Slot; lia|unfold Slot; lia|].
      by apply pm_slots.
Qed.

(** ** Runs *)
Inductive page_op := OpInsert (d : bytes) | OpGet (id : Z) | OpDelete (id : Z) | OpFree.
Inductive page_out := OutSlot (id : Z) | OutRecord (r : option bytes) | OutDeleted (b : bool) | OutFree (n : Z).

Definition page_step (p : bytes) (op : page_op) : option (page_out * bytes) :=
  match op with
  | OpInsert d => '(id, p') ← InsertRecord d p; Some (OutSlot id, p')
  | OpGet id => r ← GetRecord id p; Some (OutRecord r, p)
  | OpDelete id => '(b, p') ← DeleteRecord id p; Some (OutDeleted b, p')
  | OpFree => n ← FreeSpace p; Some (OutFree n, p)
  end.

Definition spec_step_page (s : slots_spec) (op : page_op) : page_out * slots_spec :=
  match op with
  | OpInsert d => (OutSlot (spec_insert d s).1, (spec_insert d s).2)
  | OpGet id => (OutRecord (spec_get id s), s)
  | OpDelete id => (OutDeleted (spec_delete id s).1, (spec_delete id s).2)
  | OpFree => (OutFree (spec_free s), s)
  end.

Fixpoint page_run (p : bytes) (ops : list page_op) : option (list page_out * bytes) :=
  match ops with
  | [] => Some ([], p)
  | op :: ops' => '(o, p1) ← page_step p op; '(os, p2) ← page_run p1 ops'; Some (o :: os, p2)
  end.

Fixpoint spec_run (s : slots_spec) (ops : list page_op) : list page_out * slots_spec :=
  match ops with
  | [] => ([], s)
  | op :: ops' => let '(o, s1) := spec_step_page s op in let '(os, s2) := spec_run s1 ops' in (o :: os, s2)
  end.

Definition op_ok (op : page_op) : Prop :=
  match op with OpInsert d => Zlen d < 2 ^ 64 - 4 | _ => True end.

Lemma page_step_ok p s op : page_means p s -> op_ok op ->
  exists p', page_step p op = Some ((spec_step_page s op).1, p') /\ page_means p' (spec_step_page s op).2.
Proof.
  intros Hm Hok. destruct op as [d|id|id|]; cbn [page_step spec_step_page fst snd].
  - destruct (InsertRecord_ok d p s Hm Hok) as (p' & -> & H). by exists p'.
  - rewrite (GetRecord_ok id p s Hm). by exists p.
  - destruct (DeleteRecord_ok id p s Hm) as (p' & -> & H). by exists p'.
  - rewrite (FreeSpace_ok p s Hm). by exists p.
Qed.

(** C29: a slotted page refines the list of its slots: from [Init], any sequence
    of inserts, reads, deletes and free-space queries stays inside the page and
    answers exactly as the specification, in which a record is returned until its
    slot is deleted, a freed slot is reused first, and record bytes are never
    reclaimed. *)
Theorem slotted_page_refines p ops :
  Zlen p = kPageSize -> Forall op_ok ops ->
  exists p0 p', Init p = Some p0 /\ page_run p0 ops = Some ((spec_run (mkSlots [] 0) ops).1, p')
    /\ page_means p' (spec_run (mkSlots [] 0) ops).2.
Proof.
  intros Hp Hops. destruct (Init_ok p Hp) as (p0 & Hi & Hm). exists p0. rewrite Hi. clear Hi Hp p.
  revert p0 Hm. generalize (mkSlots [] 0). induction Hops as [|op ops Hok _ IH]; intros s p0 Hm; [by exists p0|].
  cbn [page_run spec_run]. destruct (page_step_ok p0 s op Hm Hok) as (p1 & -> & Hm1).
  destruct (spec_step_page s op) as [o s1]. cbn [mbind option_bind fst snd] in *.
  destruct (IH s1 p1 Hm1) as (p' & _ & -> & Hm'). destruct (spec_run s1 ops) as [os s2]. by exists p'.
Qed.

Definition demo_ops : list page_op :=
  [OpInsert (bs "alpha"); OpInsert (bs "be"); OpDelete 0; OpInsert (bs "gamma!"); OpGet 0; OpGet 1; OpGet 7; OpFree].

Lemma slotted_page_refines_witness :
  exists p0 p', Init (replicate 4096 Byte.x00) = Some p0
    /\ page_run p0 demo_ops
       = Some ([OutSlot 0; OutSlot 1; OutDeleted true; OutSlot 0; OutRecord (Some (bs "gamma!"));
                OutRecord (Some (bs "be")); OutRecord None; OutFree 4071], p').
Proof.
  destruct (slotted_page_refines (replicate 4096 Byte.x00) demo_ops) as (p0 & p' & H0 & Hr & _).
  - reflexivity.
  - repeat constructor.
  - exists p0, p'. split; [exact H0|]. rewrite Hr. vm_compute. reflexivity.
Defined.
