(* ===== verification/RecordLog.v ===== *)
(** * Append logs with an in-memory map: the shape transit.log and outbox.log share

    The frame [u32 length][payload][u32 crc] of src/ledger/transit_store.cpp and
    src/ledger/outbox_store.cpp, its append, its load loop and the mode probe of
    src/security/at_rest.cpp ([DetectLogMode]).  The load loop is generic in what
    a store does with a body; the lemmas say that loading a log folds that step
    over the bodies that were appended. *)
From coqutil Require Import Word.LittleEndianList.
From S2P Require Import Prelude Bytes AtRest.
Local Open Scope Z_scope.

(** One append: written, or the stream fails after [n] bytes, or it takes the frame and the
    flush, whose outcome is not looked at, fails after [n] bytes and loses the rest. *)
Inductive append_result_io := LogOk | LogWriteFail (n : nat) | LogFlushFail (n : nat).

(** Replacing a log through a sibling file: remove, rename, reopen. *)
Inductive rewrite_io :=
  | RwOk
  | RwTmpFail           (* the temporary file cannot be written: nothing changed *)
  | RwRenameFail        (* the log was removed and the rename failed *)
  | RwReopenFail.       (* renamed, but the new file cannot be opened *)

Inductive log_end := LClean | LTorn | LCorrupt | LThrow.

#[export] Instance log_end_eq_dec : EqDecision log_end.
Proof. solve_decision. Defined.

Inductive next_body := NEnd | NTorn | NBad | NBody (body rest : bytes).

Definition next_record (cap : Z) (s : bytes) : next_body :=
  if Zlen s <? 4 then NEnd
  else
    let body_len := le_combine (take 4 s) in
    if (body_len =? 0) || (cap <? body_len) then NBad
    else
      let rest := drop 4 s in
      if Zlen rest <? body_len then NTorn
      else
        let body := take (Z.to_nat body_len) rest in
        let rest := drop (Z.to_nat body_len) rest in
        if Zlen rest <? 4 then NTorn
        else if le_combine (take 4 rest) =? Crc32 body then NBody body (drop 4 rest)
        else NBad.

Definition log_frame (payload : bytes) : bytes :=
  ByteWriter.U32 (Zlen payload) ++ payload ++ ByteWriter.U32 (Crc32 payload).

Section RecordLog.
Context `{C : Crypto}.

Inductive unsealed := UOk (body : bytes) | UBad | UThrow.

Definition unseal_log (key tag body : bytes) : unsealed :=
  if bool_decide (key = []) then (if LooksSealedRecord body then UBad else UOk body)
  else if negb (LooksSealedRecord body) then UBad
  else match OpenRecord key body tag with
       | Some (OK p) => UOk p
       | Some (Fault _) => UBad
       | None => UThrow
       end.

Definition seal_log (key tag nonce body : bytes) : StatusOr bytes :=
  if bool_decide (key = []) then OK body else SealRecord nonce key body tag.

(** [AppendRecord]: the log after it, for each outcome of the write. *)
Definition AppendRecord (key tag nonce : bytes) (open : bool) (io : append_result_io)
    (log body : bytes) : StatusOr unit * bytes :=
  match seal_log key tag nonce body with
  | Fault c => (Fault c, log)
  | OK payload =>
      if negb open then (Fault kIOError, log)
      else match io with
           | LogOk => (OK tt, log ++ log_frame payload)
           | LogWriteFail n => (Fault kIOError, log ++ take n (log_frame payload))
           | LogFlushFail n => (OK tt, log ++ take n (log_frame payload))
           end
  end.

(** The frames [CompactLocked] writes, each seal with its own nonce. *)
Fixpoint compact_frames (key tag : bytes) (nonces : nat -> bytes) (bodies : list bytes)
  : StatusOr bytes :=
  match bodies with
  | [] => OK []
  | b :: bs' =>
      (payload <-? seal_log key tag (nonces 0%nat) b ;;
       rest <-? compact_frames key tag (fun i => nonces (S i)) bs' ;;
       OK (log_frame payload ++ rest))%status
  end.

(** [DetectLogMode] of at_rest.cpp. *)
Definition DetectLogMode (cap : Z) (file : bytes) (have_key : bool) : StatusOr bool :=
  if Zlen file <? 4 then OK false
  else
    let body_len := le_combine (take 4 file) in
    if (body_len =? 0) || (cap <? body_len) then Fault kCorruption
    else
      let peek := Z.min body_len 64 in
      if Zlen (drop 4 file) <? peek then OK false
      else
        let head := take (Z.to_nat peek) (drop 4 file) in
        let sealed := (4 <=? Zlen head) && LooksSealedRecord head in
        if sealed && negb have_key then Fault kCorruption
        else if negb sealed && have_key then Fault kCorruption
        else OK sealed.

Lemma next_record_consumes cap s body rest : next_record cap s = NBody body rest -> (length rest < length s)%nat.
Proof.
  unfold next_record, Zlen. destruct (Z.ltb_spec (Z.of_nat (length s)) 4); [done|].
  repeat (destruct (_ || _) || destruct (_ <? _) || destruct (_ =? _)); try done.
  intros [= _ <-]. rewrite !length_drop. lia.
Qed.

Section Load.
Context {St : Type} (apply_body : St -> bytes -> St) (cap : Z) (key tag : bytes).

(** One record per iteration; every record consumes at least nine bytes. *)
Fixpoint load_loop (fuel : nat) (s : bytes) (st : St) : St * log_end :=
  match fuel with
  | O => (st, LClean)
  | S f =>
      match next_record cap s with
      | NEnd => (st, LClean)
      | NTorn => (st, LTorn)
      | NBad => (st, LCorrupt)
      | NBody body rest =>
          match unseal_log key tag body with
          | UThrow => (st, LThrow)
          | UBad => (st, LCorrupt)
          | UOk b => load_loop f rest (apply_body st b)
          end
      end
  end.

Definition load_log (s : bytes) (st : St) : St * log_end := load_loop (S (length s)) s st.

(** The fuel is enough on any bytes: more of it changes nothing. *)
Lemma load_log_fuel f s st : (length s < f)%nat -> load_loop f s st = load_log s st.
Proof.
  unfold load_log. intros Hf. assert (length s < S (length s))%nat as Hf' by lia. revert Hf'.
  generalize (S (length s)) as f'. intros f' Hf'. revert f' s st Hf Hf'.
  induction f as [|f IH]; intros [|f'] s st Hf Hf'; try lia. cbn [load_loop].
  destruct (next_record cap s) as [| | |body rest] eqn:E; try done. apply next_record_consumes in E.
  destruct (unseal_log key tag body); try done. apply IH; lia.
Qed.
End Load.

(** ** What a log of appended bodies loads to *)
Context `{!CryptoLaws C}.

(** [s] is the frame of [body], sealed under [key] when there is one. *)
Definition body_frame (key tag body s : bytes) : Prop :=
  exists nonce payload, length nonce = kPageNonceLen
    /\ seal_log key tag nonce body = OK payload /\ s = log_frame payload.

(** A body a loader accepts back: not itself sealed-looking, within the cap. *)
Definition body_ok (cap : Z) (body : bytes) : Prop :=
  LooksSealedRecord body = false /\ 0 < Zlen body /\ Zlen body + 32 <= cap /\ cap < 2 ^ 32.

Inductive rlog (cap : Z) (key tag : bytes) : list bytes -> bytes -> Prop :=
  | rlog_nil : rlog cap key tag [] []
  | rlog_cons b bs s f :
      body_ok cap b -> body_frame key tag b s -> rlog cap key tag bs f ->
      rlog cap key tag (b :: bs) (s ++ f).

Lemma rlog_app cap key tag bs1 bs2 f1 f2 :
  rlog cap key tag bs1 f1 -> rlog cap key tag bs2 f2 -> rlog cap key tag (bs1 ++ bs2) (f1 ++ f2).
Proof.
  induction 1 as [|b bs s f Hb Hs _ IH]; [done|]. intros H2. rewrite <- app_assoc. cbn [app].
  by constructor; [| |apply IH].
Qed.

Lemma rlog_snoc cap key tag bs b f s :
  rlog cap key tag bs f -> body_ok cap b -> body_frame key tag b s ->
  rlog cap key tag (bs ++ [b]) (f ++ s).
Proof.
  intros Hf Hb Hs. apply rlog_app; [done|]. rewrite <- (app_nil_r s).
  by constructor; [| |constructor].
Qed.

Lemma seal_log_ok key tag nonce body :
  (key = [] \/ Zlen key = kDekLen) -> length nonce = kPageNonceLen ->
  exists payload, seal_log key tag nonce body = OK payload.
Proof.
  intros Hk Hn. unfold seal_log. case_bool_decide as Hd; [by eexists|].
  destruct Hk as [?|Hk]; [done|]. unfold SealRecord. rewrite Hk, Z.eqb_refl. cbn [negb].
  destruct (gcm_seal_ok key nonce body tag Hk Hn) as [c ->]. by eexists.
Qed.

Lemma seal_log_length key tag nonce body payload :
  length nonce = kPageNonceLen -> seal_log key tag nonce body = OK payload ->
  Zlen body <= Zlen payload <= Zlen body + 32.
Proof.
  intros Hn. unfold seal_log. case_bool_decide; [intros [= <-]; lia|].
  unfold SealRecord. destruct (negb _); [done|].
  destruct (AesGcmSeal key nonce body tag) as [c|] eqn:E; [|done]. cbn [sbind]. intros Hs.
  assert (payload = kSealedRecordMagic ++ nonce ++ c) as -> by (by injection Hs).
  apply gcm_seal_length in E. rewrite !Zlen_app. unfold Zlen. rewrite Hn, E.
  unfold kPageTagLen, kPageNonceLen. change (length kSealedRecordMagic) with 4%nat. lia.
Qed.

Lemma unseal_seal key tag nonce body payload :
  length nonce = kPageNonceLen -> LooksSealedRecord body = false ->
  seal_log key tag nonce body = OK payload -> unseal_log key tag payload = UOk body.
Proof.
  intros Hn Hl. unfold seal_log, unseal_log. case_bool_decide as Hk.
  - intros [= <-]. by rewrite Hl.
  - intros Hs. pose proof (OpenRecord_SealRecord _ _ _ _ _ Hn Hs) as Ho.
    assert (LooksSealedRecord payload = true) as Hl'.
    { revert Ho. unfold OpenRecord. by destruct (LooksSealedRecord payload). }
    by rewrite Hl', Ho.
Qed.

Lemma log_frame_Zlen payload : Zlen (log_frame payload) = Zlen payload + 8.
Proof. unfold log_frame, Zlen. rewrite !length_app, !U32_length. lia. Qed.

Lemma next_record_frame cap payload rest :
  0 < Zlen payload <= cap -> cap < 2 ^ 32 ->
  next_record cap (log_frame payload ++ rest) = NBody payload rest.
Proof.
  intros Hp Hc. unfold next_record, log_frame. rewrite <- !app_assoc.
  rewrite (take_app_length' (ByteWriter.U32 _)) by (by rewrite U32_length).
  rewrite (drop_app_length' (ByteWriter.U32 _)) by (by rewrite U32_length).
  rewrite le_combine_U32 by (unfold fits; lia).
  rewrite (take_app_length' payload), (drop_app_length' payload) by (unfold Zlen; lia).
  rewrite (take_app_length' (ByteWriter.U32 _)) by (by rewrite U32_length).
  rewrite (drop_app_length' (ByteWriter.U32 _)) by (by rewrite U32_length).
  rewrite !Zlen_app. assert (forall v, Zlen (ByteWriter.U32 v) = 4) as H4
    by (intros v; unfold Zlen; by rewrite U32_length).
  rewrite !H4. pose proof (Zlen_nonneg rest).
  destruct (Z.ltb_spec (4 + (Zlen payload + (4 + Zlen rest))) 4); [lia|].
  destruct (Z.eqb_spec (Zlen payload) 0); [lia|]. destruct (Z.ltb_spec cap (Zlen payload)); [lia|].
  cbn [orb]. destruct (Z.ltb_spec (Zlen payload + (4 + Zlen rest)) (Zlen payload)); [lia|].
  destruct (Z.ltb_spec (4 + Zlen rest) 4); [lia|].
  by rewrite le_combine_U32, Z.eqb_refl by apply Crc32_fits.
Qed.

Lemma next_record_torn cap payload n :
  0 < Zlen payload <= cap -> cap < 2 ^ 32 -> (n < length (log_frame payload))%nat ->
  next_record cap (take n (log_frame payload)) = NEnd
  \/ next_record cap (take n (log_frame payload)) = NTorn.
Proof.
  intros Hp Hc Hn. pose proof (log_frame_Zlen payload) as Hf. unfold next_record.
  assert (Zlen (take n (log_frame payload)) = Z.of_nat n) as Hz.
  { unfold Zlen. rewrite length_take. lia. }
  rewrite Hz. destruct (Z.ltb_spec (Z.of_nat n) 4); [by left|]. right.
  rewrite take_take, Nat.min_l by lia.
  assert (take 4 (log_frame payload) = ByteWriter.U32 (Zlen payload)) as ->
    by (apply take_app_length'; by rewrite U32_length).
  rewrite le_combine_U32 by (unfold fits; lia).
  destruct (Z.eqb_spec (Zlen payload) 0); [lia|]. destruct (Z.ltb_spec cap (Zlen payload)); [lia|].
  cbn [orb].
  assert (Zlen (drop 4 (take n (log_frame payload))) = Z.of_nat n - 4) as Hd.
  { unfold Zlen. rewrite length_drop, length_take. unfold Zlen in Hf. lia. }
  rewrite Hd. destruct (Z.ltb_spec (Z.of_nat n - 4) (Zlen payload)); [done|].
  destruct (Z.ltb_spec (Zlen (drop (Z.to_nat (Zlen payload)) (drop 4 (take n (log_frame payload))))) 4)
    as [|Hge]; [done|].
  unfold Zlen in Hge, Hf. rewrite !length_drop, length_take in Hge. unfold Zlen in *. lia.
Qed.

Section LoadLemmas.
Context {St : Type} (apply_body : St -> bytes -> St) (cap : Z) (key tag : bytes).

(** What may follow the log without being an error. *)
Definition log_tail_ok (tail : bytes) : Prop :=
  next_record cap tail = NEnd \/ next_record cap tail = NTorn.

Lemma log_tail_nil : log_tail_ok [].
Proof. by left. Qed.

Lemma rlog_length bs f : rlog cap key tag bs f -> (length bs <= length f)%nat.
Proof.
  induction 1 as [|b bs s f Hb (nonce & p & Hn & Hs & ->) _ IH]; [done|].
  pose proof (log_frame_Zlen p) as Hz. pose proof (Zlen_nonneg p). rewrite length_app.
  unfold Zlen in *. cbn [length]. lia.
Qed.

Lemma load_loop_log bs f tail fuel st :
  rlog cap key tag bs f -> (length bs <= fuel)%nat ->
  load_loop apply_body cap key tag fuel (f ++ tail) st
  = load_loop apply_body cap key tag (fuel - length bs) tail (fold_left apply_body bs st).
Proof.
  intros Hf. revert fuel st.
  induction Hf as [|b bs s f (Hl & Hpos & Hcap & Hc) (nonce & p & Hn & Hs & ->) Hf IH]; intros fuel st Hle.
  { cbn [length app fold_left]. by rewrite Nat.sub_0_r. }
  destruct fuel as [|fuel]; [cbn [length] in Hle; lia|]. cbn [load_loop].
  pose proof (seal_log_length _ _ _ _ _ Hn Hs).
  rewrite <- app_assoc, next_record_frame by lia. rewrite (unseal_seal _ _ _ _ _ Hn Hl Hs).
  rewrite IH by (cbn [length] in Hle; lia). done.
Qed.

Lemma load_log_ok bs f tail st :
  rlog cap key tag bs f -> log_tail_ok tail ->
  exists e, (load_log apply_body cap key tag (f ++ tail) st) = (fold_left apply_body bs st, e)
    /\ e <> LCorrupt /\ e <> LThrow.
Proof.
  intros Hf Ht. unfold load_log. pose proof (rlog_length _ _ Hf).
  rewrite (load_loop_log bs) by (rewrite ?length_app; done || lia). rewrite length_app.
  destruct (S (length f + length tail) - length bs)%nat as [|n] eqn:E; [lia|].
  cbn [load_loop]. destruct Ht as [->| ->]; [exists LClean|exists LTorn]; by split_and!.
Qed.
End LoadLemmas.

Lemma compact_frames_ok cap key tag nonces bodies :
  (key = [] \/ Zlen key = kDekLen) -> (forall i, length (nonces i) = kPageNonceLen) ->
  Forall (body_ok cap) bodies ->
  exists f, compact_frames key tag nonces bodies = OK f /\ rlog cap key tag bodies f.
Proof.
  intros Hk Hn Hb. revert nonces Hn. induction Hb as [|b bs Hb _ IH]; intros nonces Hn.
  { exists []. split; [done|constructor]. }
  cbn [compact_frames]. destruct (seal_log_ok key tag (nonces 0%nat) b Hk (Hn _)) as [p Hp].
  destruct (IH (fun i => nonces (S i))) as (f & Hf & Hr); [by intros i|].
  rewrite Hp. cbn [sbind]. rewrite Hf. cbn [sbind]. exists (log_frame p ++ f). split; [done|].
  constructor; [done|by exists (nonces 0%nat), p|done].
Qed.
End RecordLog.
