(* ===== verification/AtRestFiles.v ===== *)
(** * At-rest files: src/security/at_rest.cpp

    The recovery-key decoder against its arithmetic meaning, whole-file sealing,
    sealed JSON files with their replacement on disk, and the sidecar header that
    marks a page file as sealed.  A missing file is [None]. *)
From S2P Require Import Prelude Bytes AtRest RecordLog.
Local Open Scope Z_scope.

(** ** Recovery keys: Crockford base32 *)
Definition kAlpha : bytes := bs "0123456789ABCDEFGHJKMNPQRSTVWXYZ".

Fixpoint index_of (c : byte) (s : bytes) : option nat :=
  match s with
  | [] => None
  | x :: s' => if decide (c = x) then Some O else S <$> index_of c s'
  end.

(** [strchr] also finds the terminator: a NUL has position 32. *)
Definition CrockfordValue (raw : byte) : Z :=
  let c := if (97 <=? uc raw) && (uc raw <=? 122) then byte.of_Z (uc raw - 97 + 65) else raw in
  if decide (c = Byte.x4f) then 0
  else if decide (c = Byte.x49 \/ c = Byte.x4c) then 1
  else match index_of c (kAlpha ++ [Byte.x00]) with Some i => Z.of_nat i | None => -1 end.

Definition is_separator (c : byte) : bool :=
  bool_decide (c ∈ [Byte.x2d; Byte.x20; Byte.x09; Byte.x0a; Byte.x0d; Byte.x5f]).

(** One character of the loop: [bits], [bit_count], [out]. *)
Definition key_step (st : Z * Z * bytes) (v : Z) : Z * Z * bytes :=
  let '(bits, bit_count, out) := st in
  let bits' := Z.lor (u32 (Z.shiftl bits 5)) v in
  let bc := bit_count + 5 in
  if 8 <=? bc then (bits', bc - 8, out ++ [byte.of_Z (Z.land (Z.shiftr bits' (bc - 8)) 0xFF)])
  else (bits', bc, out).

Fixpoint key_loop (text : bytes) (st : Z * Z * bytes) : option bytes :=
  match text with
  | [] => Some st.2
  | raw :: rest =>
      if is_separator raw then key_loop rest st
      else
        let v := CrockfordValue raw in
        if (v <? 0) || (31 <? v) then None else key_loop rest (key_step st v)
  end.

Definition DecodeRecoveryKey (text : bytes) : StatusOr bytes :=
  match key_loop text (0, 0, []) with
  | None => Fault kCorruption
  | Some out => if negb (Zlen out =? kDekLen) then Fault kCorruption else OK out
  end.

(** What a text means: its digits, most significant first. *)
Fixpoint key_digits (text : bytes) : option (list Z) :=
  match text with
  | [] => Some []
  | raw :: rest =>
      if is_separator raw then key_digits rest
      else
        let v := CrockfordValue raw in
        if (v <? 0) || (31 <? v) then None else cons v <$> key_digits rest
  end.

Definition base32_value (ds : list Z) : Z := fold_left (fun a d => 32 * a + d) ds 0.
Definition be_value (s : bytes) : Z := fold_left (fun a b => 256 * a + uc b) s 0.

Lemma be_value_snoc s b : be_value (s ++ [b]) = 256 * be_value s + uc b.
Proof. unfold be_value. by rewrite fold_left_app. Qed.

Lemma base32_value_snoc ds d : base32_value (ds ++ [d]) = 32 * base32_value ds + d.
Proof. unfold base32_value. by rewrite fold_left_app. Qed.

Record key_inv (ds : list Z) (st : Z * Z * bytes) : Prop := {
  inv_bits : st.1.1 = u32 (base32_value ds);
  inv_count : 0 <= st.1.2 < 8;
  inv_total : 5 * Zlen ds = 8 * Zlen st.2 + st.1.2;
  inv_out : be_value st.2 = base32_value ds / 2 ^ st.1.2;
}.

Lemma lor_shl5 b v : 0 <= v < 32 -> Z.lor (u32 (Z.shiftl (u32 b) 5)) v = u32 (32 * b + v).
Proof.
  intros Hv. unfold u32, wrap. rewrite !Z.shiftl_mul_pow2 by lia. change (2 ^ 5) with 32.
  assert (b mod 2 ^ 32 * 32 mod 2 ^ 32 = 32 * (b mod 2 ^ 27)) as ->.
  { change (2 ^ 32) with (2 ^ 27 * 32) at 2. rewrite Z.mul_mod_distr_r by lia.
    rewrite Z.mul_comm. f_equal. change (2 ^ 32) with (2 ^ 27 * 32).
    rewrite Z.rem_mul_r by lia. rewrite Z.mul_comm, Z.mod_add by lia. by apply Z.mod_mod. }
  assert ((32 * b + v) mod 2 ^ 32 = 32 * (b mod 2 ^ 27) + v) as ->.
  { change (2 ^ 32) with (32 * 2 ^ 27). rewrite Z.rem_mul_r by lia.
    rewrite (Z.add_comm (32 * b)), (Z.mul_comm 32 b), Z.mod_add, Z.div_add by lia.
    rewrite Z.mod_small, Z.div_small by lia. rewrite Z.add_0_l. lia. }
  rewrite <- Z.add_lor_land, (Z.mul_comm 32). change 32 with (2 ^ 5).
  rewrite <- Z.shiftl_mul_pow2 by lia. enough (Z.land (Z.shiftl (b mod 2 ^ 27) 5) v = 0) by lia.
  apply Z.bits_inj_0. intros i. rewrite Z.land_spec. destruct (Z.ltb_spec i 0) as [|Hi]; [by rewrite !Z.testbit_neg_r|].
  destruct (Z.ltb_spec i 5) as [H5|H5].
  - by rewrite Z.shiftl_spec_low.
  - assert (Z.testbit v i = false) as ->; [|apply andb_false_r].
    destruct (Z.eq_dec v 0) as [->|]; [apply Z.bits_0|].
    assert (Z.log2 v < 5) by (apply Z.log2_lt_pow2; lia). apply Z.bits_above_log2; lia.
Qed.

Lemma land_byte a k : 0 <= k -> Z.land (Z.shiftr a k) 0xFF = a / 2 ^ k mod 256.
Proof.
  intros Hk. change 0xFF with (Z.ones 8). rewrite Z.land_ones by lia. by rewrite Z.shiftr_div_pow2.
Qed.

Lemma key_step_inv ds st v :
  0 <= v < 32 -> key_inv ds st -> key_inv (ds ++ [v]) (key_step st v).
Proof.
  intros Hv. destruct st as [[bits bc] out]. intros [Hb Hc Ht Ho]. cbn [fst snd] in *. unfold key_step.
  rewrite Hb, lor_shl5 by done. rewrite <- base32_value_snoc.
  assert (forall k, 0 <= k -> base32_value (ds ++ [v]) / 2 ^ (k + 5) = base32_value ds / 2 ^ k) as Hdiv.
  { intros k Hk. rewrite base32_value_snoc, Z.pow_add_r, (Z.mul_comm (2 ^ k)), <- Z.div_div by lia.
    change (2 ^ 5) with 32. rewrite (Z.mul_comm 32), Z.div_add_l by lia.
    rewrite (Z.div_small v) by lia. by rewrite Z.add_0_r. }
  assert (Zlen (ds ++ [v]) = Zlen ds + 1) as Hl by (unfold Zlen; rewrite length_app; cbn; lia).
  destruct (Z.leb_spec 8 (bc + 5)) as [H8|H8]; split; cbn [fst snd]; rewrite ?Hl; try lia; try done.
  - unfold Zlen. rewrite length_app. cbn [length]. unfold Zlen in Ht. lia.
  - rewrite be_value_snoc. unfold uc. rewrite byte.unsigned_of_Z. unfold byte.wrap.
    rewrite land_byte, Z.mod_mod by lia.
    rewrite Ho, <- Hdiv by lia. replace (bc + 5) with (bc + 5 - 8 + 8) at 1 by lia.
    rewrite Z.pow_add_r, <- Z.div_div by lia. change (2 ^ 8) with 256.
    unfold u32, wrap. set (V := base32_value (ds ++ [v])). set (k := bc + 5 - 8).
    assert (V mod 2 ^ 32 / 2 ^ k mod 256 = V / 2 ^ k mod 256) as ->.
    { replace (2 ^ 32) with (2 ^ k * 2 ^ (32 - k)) by (rewrite <- Z.pow_add_r by lia; f_equal; lia).
      rewrite Z.rem_mul_r by (apply Z.pow_nonzero || apply Z.pow_pos_nonneg; lia).
      rewrite (Z.mul_comm (2 ^ k)), Z.div_add by (apply Z.pow_nonzero; lia).
      rewrite (Z.div_small (V mod 2 ^ k)) by (apply Z.mod_pos_bound; lia). rewrite Z.add_0_l.
      replace (2 ^ (32 - k)) with (256 * 2 ^ (24 - k)) by (change 256 with (2 ^ 8); rewrite <- Z.pow_add_r by lia; f_equal; lia).
      rewrite Z.rem_mul_r by (try apply Z.pow_pos_nonneg; lia).
      rewrite Z.mul_comm, Z.mod_add by lia. apply Z.mod_mod. lia. }
    pose proof (Z.div_mod (V / 2 ^ k) 256). lia.
  - rewrite Ho. by rewrite Hdiv by lia.
Qed.

Lemma key_loop_spec text ds st :
  key_inv ds st ->
  match key_digits text with
  | None => key_loop text st = None
  | Some ds' => exists bits bc out, key_loop text st = Some out /\ key_inv (ds ++ ds') (bits, bc, out)
  end.
Proof.
  revert ds st. induction text as [|raw rest IH]; intros ds st Hinv; cbn [key_digits key_loop].
  - destruct st as [[bits bc] out]. exists bits, bc, out. by rewrite app_nil_r.
  - destruct (is_separator raw); [by apply IH|].
    destruct (_ || _) eqn:Ev; [done|]. apply orb_false_iff in Ev as [H1 H2].
    apply Z.ltb_ge in H1, H2.
    specialize (IH (ds ++ [CrockfordValue raw]) (key_step st (CrockfordValue raw))).
    destruct (key_digits rest) as [ds'|]; cbn [fmap option_fmap option_map].
    + destruct IH as (bits & bc & out & Hl & Hi); [apply key_step_inv; [lia|done]|].
      exists bits, bc, out. split; [done|]. by rewrite <- app_assoc in Hi.
    + apply IH, key_step_inv; [lia|done].
Qed.

(** A recovery key is accepted exactly when, separators aside, it has 52 base32
    digits; the key it gives is the 32 bytes whose big-endian value is the digits'
    value without its last four bits.  Case, separators and the transcriptions of
    0 and 1 do not matter. *)
Theorem recovery_key_value text :
  match key_digits text with
  | Some ds =>
      if (length ds =? 52)%nat
      then exists key, DecodeRecoveryKey text = OK key /\ Zlen key = kDekLen
             /\ be_value key = base32_value ds / 16
      else DecodeRecoveryKey text = Fault kCorruption
  | None => DecodeRecoveryKey text = Fault kCorruption
  end.
Proof.
  pose proof (key_loop_spec text [] (0, 0, [])) as H. unfold DecodeRecoveryKey.
  destruct (key_digits text) as [ds|]; [|by rewrite H by (split; done || lia)].
  destruct H as (bits & bc & out & Hl & Hi); [split; cbn; done || lia|]. rewrite Hl. cbn [app] in Hi.
  destruct Hi as [_ Hc Ht Ho]. cbn [fst snd] in *. unfold kDekLen in *.
  destruct (Nat.eqb_spec (length ds) 52) as [E|E]; destruct (Z.eqb_spec (Zlen out) 32) as [E'|E'];
    cbn [negb]; unfold Zlen in *; try lia.
  - exists out. split; [done|]. split; [done|]. by replace bc with 4 in Ho by lia.
  - done.
Qed.

(** ** Replacing a file through a temporary: write, remove, rename *)
Inductive commit_io :=
  | CmOk
  | CmTmpFail          (* the temporary cannot be opened or written: nothing changed *)
  | CmRenameFail.      (* the old file is removed and the rename fails *)

Definition commit_file (io : commit_io) (content : bytes) (old : option bytes)
  : StatusOr unit * option bytes :=
  match io with
  | CmOk => (OK tt, Some content)
  | CmTmpFail => (Fault kIOError, old)
  | CmRenameFail => (Fault kIOError, None)
  end.

(** ** The sidecar header of a sealed page file *)

(** [std::string::find] from the start of the text. *)
Fixpoint find_sub (pat text : bytes) : option nat :=
  if bool_decide (take (length pat) text = pat) then Some O
  else match text with [] => None | _ :: text' => S <$> find_sub pat text' end.

Definition dquote : byte := Byte.x22.
Definition in_quotes (s : bytes) : bytes := [dquote] ++ s ++ [dquote].

Definition page_header_text (tag_hex : bytes) : bytes :=
  [Byte.x7b] ++ in_quotes (bs "magic") ++ [Byte.x3a] ++ in_quotes (bs "DSNENC1") ++ [Byte.x2c]
  ++ in_quotes (bs "file_tag_hex") ++ [Byte.x3a] ++ in_quotes tag_hex ++ [Byte.x7d].

Definition WritePageHeaderFile (io : commit_io) (tag_hex : bytes) (old : option bytes)
  : StatusOr unit * option bytes := commit_file io (page_header_text tag_hex) old.

(** The text between the first two quotes after position [kpos + key.size()]. *)
Definition header_tag (rest : bytes) : StatusOr bytes :=
  match find_sub [dquote] rest with
  | None => Fault kCorruption
  | Some q1 =>
      let after := drop (S q1) rest in
      match find_sub [dquote] after with
      | None => Fault kCorruption
      | Some n => let tag := take n after in if bool_decide (tag = []) then Fault kCorruption else OK tag
      end
  end.

Definition ReadPageHeaderFile (file : option bytes) : StatusOr bytes :=
  match file with
  | None => Fault kNotFound
  | Some text =>
      let key := in_quotes (bs "file_tag_hex") in
      match find_sub (in_quotes (bs "DSNENC1")) text, find_sub key text with
      | Some _, Some kpos => header_tag (drop (kpos + length key) text)
      | _, _ => Fault kCorruption
      end
  end.

Lemma find_sub_quote tag rest : dquote ∉ tag -> find_sub [dquote] (tag ++ dquote :: rest) = Some (length tag).
Proof.
  induction tag as [|c tag IH]; intros Hn; [done|]. apply not_elem_of_cons in Hn as [Hc Hn].
  cbn [app find_sub length take]. rewrite bool_decide_eq_false_2 by (intros [= ->]; done).
  by rewrite IH.
Qed.

Lemma header_round_trip tag :
  tag <> [] -> dquote ∉ tag -> ReadPageHeaderFile (Some (page_header_text tag)) = OK tag.
Proof.
  intros Hne Hq. unfold page_header_text, ReadPageHeaderFile.
  set (rest := in_quotes tag ++ [Byte.x7d]).
  change (find_sub (in_quotes (bs "DSNENC1")) _) with (Some 9%nat).
  change (find_sub (in_quotes (bs "file_tag_hex")) _) with (Some 19%nat).
  cbn iota. change (drop _ _) with (Byte.x3a :: rest). unfold header_tag.
  change (find_sub [dquote] (Byte.x3a :: rest)) with (Some 1%nat). cbv iota zeta.
  change (drop 2 (Byte.x3a :: rest)) with ((tag ++ [dquote]) ++ [Byte.x7d]).
  rewrite <- app_assoc. cbn [app]. rewrite find_sub_quote by done.
  rewrite take_app_length. by rewrite bool_decide_eq_false_2.
Qed.

(** ** Whole files *)
Section SealedFiles.
Context `{C : Crypto}.

Definition kSealedFileMagic : bytes := bs "DSNJ".

Definition LooksSealedFile (s : bytes) : bool :=
  (4 <=? Zlen s) && bool_decide (take 4 s = kSealedFileMagic).

Definition SealFile (nonce subkey plaintext aad : bytes) : StatusOr bytes :=
  if negb (Zlen subkey =? kDekLen) then Fault kInvalidArgument
  else (ct <-? AesGcmSeal subkey nonce plaintext aad ;; OK (kSealedFileMagic ++ nonce ++ ct))%status.

(** [None]: [substr] past the end throws, as in [OpenRecord]. *)
Definition OpenFile (subkey sealed aad : bytes) : option (StatusOr bytes) :=
  if negb (LooksSealedFile sealed) then Some (Fault kCorruption)
  else if negb (Zlen subkey =? kDekLen) then Some (Fault kInvalidArgument)
  else if Zlen sealed <? 4 + Z.of_nat kPageNonceLen then None
  else
    match AesGcmOpen subkey (take kPageNonceLen (drop 4 sealed)) (drop (4 + kPageNonceLen) sealed) aad with
    | Some p => Some (OK p)
    | None => Some (Fault kCorruption)
    end.

Definition bad_dek (dek : bytes) : bool := negb (bool_decide (dek = [])) && negb (Zlen dek =? 32).

Definition ReadSealedJsonFile (file : option bytes) (dek aad : bytes) : option (StatusOr bytes) :=
  if bad_dek dek then Some (Fault kInvalidArgument)
  else
    match file with
    | None => Some (Fault kNotFound)
    | Some text =>
        if bool_decide (text = []) then Some (OK text)
        else
          let sealed := LooksSealedFile text in
          let no_dek := bool_decide (dek = []) in
          if sealed && no_dek then Some (Fault kCorruption)
          else if negb sealed && negb no_dek then Some (Fault kCorruption)
          else if negb sealed then Some (OK text)
          else match FileSubkey dek aad with
               | Fault c => Some (Fault c)
               | OK subkey => OpenFile subkey text aad
               end
    end.

Definition WriteSealedJsonFile (io : commit_io) (nonce content dek aad : bytes) (old : option bytes)
  : StatusOr unit * option bytes :=
  if bad_dek dek then (Fault kInvalidArgument, old)
  else
    let out := if bool_decide (dek = []) then OK content
               else (subkey <-? FileSubkey dek aad ;; SealFile nonce subkey content aad)%status in
    match out with
    | Fault c => (Fault c, old)
    | OK out => commit_file io out old
    end.

Context `{!CryptoLaws C}.

Lemma LooksSealedFile_magic rest : LooksSealedFile (kSealedFileMagic ++ rest) = true.
Proof.
  unfold LooksSealedFile, Zlen. rewrite length_app. apply andb_true_iff. split.
  - apply Z.leb_le. simpl. lia.
  - by apply bool_decide_eq_true_2.
Qed.

Lemma OpenFile_SealFile nonce subkey p aad s :
  length nonce = kPageNonceLen -> SealFile nonce subkey p aad = OK s ->
  OpenFile subkey s aad = Some (OK p) /\ exists rest, s = kSealedFileMagic ++ rest.
Proof.
  intros Hn. unfold SealFile, OpenFile. destruct (Zlen subkey =? kDekLen) eqn:Ek; cbn [negb]; [|done].
  destruct (AesGcmSeal subkey nonce p aad) as [ct|] eqn:Es; [|done]. cbn [sbind].
  intros H. assert (s = kSealedFileMagic ++ nonce ++ ct) as -> by congruence.
  split; [|by eexists]. rewrite LooksSealedFile_magic. cbn [negb].
  assert (4 + Z.of_nat kPageNonceLen <= Zlen (kSealedFileMagic ++ nonce ++ ct)) as Hl.
  { unfold Zlen. rewrite !length_app, Hn. change (length kSealedFileMagic) with 4%nat. lia. }
  rewrite (proj2 (Z.ltb_ge _ _) Hl), (drop_app_length' kSealedFileMagic) by done.
  rewrite (take_app_length' nonce) by done.
  rewrite app_assoc, (drop_app_length' (kSealedFileMagic ++ nonce)) by (rewrite length_app, Hn; done).
  by rewrite (gcm_open_seal _ _ _ _ _ Es).
Qed.

(** A key is used from the sealed text exactly when one is configured. *)
Lemma sealed_json_round_trip io nonce content dek aad old file' :
  length nonce = kPageNonceLen -> content <> [] -> LooksSealedFile content = false ->
  WriteSealedJsonFile io nonce content dek aad old = (OK tt, file') ->
  ReadSealedJsonFile file' dek aad = Some (OK content)
  /\ (dek = [] -> file' = Some content)
  /\ (dek <> [] -> ReadSealedJsonFile file' [] aad = Some (Fault kCorruption)).
Proof.
  intros Hn Hc Hm. unfold WriteSealedJsonFile, ReadSealedJsonFile.
  destruct (bad_dek dek) eqn:Eb; [done|]. destruct (decide (dek = [])) as [->|Hd].
  - rewrite bool_decide_eq_true_2 by done. destruct io; try done. cbn [commit_file].
    intros [= <-]. rewrite bool_decide_eq_false_2, Hm by done. done.
  - rewrite (bool_decide_eq_false_2 (dek = [])) by done.
    destruct (FileSubkey dek aad) as [sk|] eqn:Ek; [|done]. cbn [sbind].
    destruct (SealFile nonce sk content aad) as [s|] eqn:Es; [|done]. destruct io; try done.
    cbn [commit_file]. intros [= <-]. destruct (OpenFile_SealFile _ _ _ _ _ Hn Es) as [Ho [rest ->]].
    rewrite bool_decide_eq_false_2 by done. rewrite LooksSealedFile_magic. cbn [negb andb].
    rewrite Ho. split; [done|]. by split.
Qed.

(** A JSON file written at rest reads back as its content under the same key; a
    sealed one is refused without the key, and a plain one with a key; a failed
    replacement either leaves the old file or, once it was removed, no file. *)
Theorem sealed_json_files io nonce content dek aad old :
  length nonce = kPageNonceLen -> content <> [] -> LooksSealedFile content = false ->
  let '(st, file') := WriteSealedJsonFile io nonce content dek aad old in
  match st with
  | OK _ => ReadSealedJsonFile file' dek aad = Some (OK content)
            /\ (dek <> [] -> ReadSealedJsonFile file' [] aad = Some (Fault kCorruption))
            /\ (dek = [] -> forall dek', dek' <> [] -> Zlen dek' = 32 ->
                  ReadSealedJsonFile file' dek' aad = Some (Fault kCorruption))
  | Fault _ => file' = old \/ (io = CmRenameFail /\ file' = None)
  end.
Proof.
  intros Hn Hc Hm. destruct (WriteSealedJsonFile io nonce content dek aad old) as [st file'] eqn:E.
  destruct st as [[]|c].
  - destruct (sealed_json_round_trip _ _ _ _ _ _ _ Hn Hc Hm E) as (H1 & H2 & H3).
    split; [done|]. split; [done|]. intros Hd dek' Hd' Hl. rewrite (H2 Hd). unfold ReadSealedJsonFile, bad_dek.
    rewrite Hl, !bool_decide_eq_false_2, Hm by done. done.
  - revert E. unfold WriteSealedJsonFile. destruct (bad_dek dek); [intros [= _ <-]; by left|].
    destruct (if bool_decide (dek = []) then _ else _) as [out|]; [|intros [= _ <-]; by left].
    destruct io; cbn [commit_file]; intros [= <- <-]; auto.
Qed.
End SealedFiles.

Lemma sealed_json_files_witness :
  let nonce := replicate kPageNonceLen Byte.x07 in
  let key := replicate 32 Byte.x01 in
  let '(st, file') := @WriteSealedJsonFile toy_crypto CmOk nonce (bs "{}") key (bs "catalog") None in
  match st with
  | OK _ => @ReadSealedJsonFile toy_crypto file' key (bs "catalog") = Some (OK (bs "{}"))
            /\ (key <> [] -> @ReadSealedJsonFile toy_crypto file' [] (bs "catalog") = Some (Fault kCorruption))
            /\ (key = [] -> forall dek', dek' <> [] -> Zlen dek' = 32 ->
                  @ReadSealedJsonFile toy_crypto file' dek' (bs "catalog") = Some (Fault kCorruption))
  | Fault _ => file' = None \/ (CmOk = CmRenameFail /\ file' = None)
  end.
Proof.
  apply (sealed_json_files (C := toy_crypto) CmOk (replicate kPageNonceLen Byte.x07) (bs "{}")
           (replicate 32 Byte.x01) (bs "catalog") None); done.
Defined.
