(* ===== verification/Identity.v ===== *)
(** * The node's identity: src/net/identity.cpp

    The Ed25519 primitives of OpenSSL are a class, with the law that a signature made
    with a key pair's private half verifies under its public half.  [LoadOrCreate] reads
    the key file, or makes a key pair (an argument: it is random) and writes it. *)
From S2P Require Import Prelude Bytes AtRest AtRestFiles.
Local Open Scope Z_scope.

Definition kEd25519PrivateKeyLen : nat := 32.
Definition kEd25519PublicKeyLen : nat := 32.

Class Ed25519 := {
  Ed25519Sign : bytes -> bytes -> bytes;              (* private key, message *)
  Ed25519Verify : bytes -> bytes -> bytes -> bool;    (* public key, message, signature *)
  key_pair : bytes -> bytes -> Prop;                  (* what [GenerateEd25519] returns *)
}.

Class Ed25519Laws `(D : Ed25519) : Prop := {
  key_pair_length : forall priv pub, key_pair priv pub ->
    length priv = kEd25519PrivateKeyLen /\ length pub = kEd25519PublicKeyLen;
  verify_sign : forall priv pub m, key_pair priv pub -> Ed25519Verify pub m (Ed25519Sign priv m) = true;
}.

(** A model of the class: the signature names the key and carries the message. *)
Definition toy_ed25519 : Ed25519 := {|
  Ed25519Sign priv m := priv ++ m;
  Ed25519Verify pub m s := bool_decide (s = pub ++ m);
  key_pair priv pub := priv = pub /\ length priv = 32%nat;
|}.
#[export] Instance toy_ed25519_laws : Ed25519Laws toy_ed25519.
Proof.
  split.
  - intros priv pub [-> H]. done.
  - intros priv pub m [-> _]. by apply bool_decide_eq_true_2.
Qed.

Record NodeIdentity := mkIdentity {
  private_key : bytes;
  public_key : bytes;
  id_node_id : bytes;
}.

(** [out << content] is not checked: a short write goes unnoticed. *)
Inductive identity_io := IdOk | IdOpenFail | IdShort (n : nat).

Section Identity.
Context `{C : Crypto} `{D : Ed25519}.

Definition DeriveNodeId (pub : bytes) : bytes := take 32 (HexEncode (Sha256 pub)).

Definition identity_of (priv pub : bytes) : NodeIdentity := mkIdentity priv pub (DeriveNodeId pub).

(** What the existing file gives: [OK None] means a key pair has to be made. *)
Definition read_identity (file : option bytes) (dek : bytes) : option (StatusOr (option NodeIdentity)) :=
  match file with
  | None => Some (OK None)
  | Some stored =>
      let opened :=
        if bool_decide (stored = []) then Some (OK stored)
        else if LooksSealedFile stored then
          if bool_decide (dek = []) then Some (Fault kCorruption)
          else match FileSubkey dek (bs "identity") with
               | Fault c => Some (Fault c)
               | OK subkey => OpenFile subkey stored (bs "identity")
               end
        else if bool_decide (dek = []) then Some (OK stored) else Some (Fault kCorruption) in
      match opened with
      | None => None
      | Some (Fault c) => Some (Fault c)
      | Some (OK raw) =>
          if (length raw =? kEd25519PrivateKeyLen + kEd25519PublicKeyLen)%nat
          then Some (OK (Some (identity_of (take kEd25519PrivateKeyLen raw) (drop kEd25519PrivateKeyLen raw))))
          else if negb (bool_decide (dek = [])) && negb (bool_decide (stored = [])) then Some (Fault kCorruption)
          else Some (OK None)
      end
  end.

(** [None]: an exception escapes. *)
Definition LoadOrCreate (kp : bytes * bytes) (nonce : bytes) (io : identity_io) (file : option bytes) (dek : bytes)
  : option (StatusOr NodeIdentity) * option bytes :=
  if bad_dek dek then (Some (Fault kInvalidArgument), file)
  else
    match read_identity file dek with
    | None => (None, file)
    | Some (Fault c) => (Some (Fault c), file)
    | Some (OK (Some id)) => (Some (OK id), file)
    | Some (OK None) =>
        let content :=
          if bool_decide (dek = []) then OK (kp.1 ++ kp.2)
          else (subkey <-? FileSubkey dek (bs "identity") ;;
                SealFile nonce subkey (kp.1 ++ kp.2) (bs "identity"))%status in
        match content with
        | Fault c => (Some (Fault c), file)
        | OK text =>
            match io with
            | IdOpenFail => (Some (Fault kIOError), file)
            | IdOk => (Some (OK (identity_of kp.1 kp.2)), Some text)
            | IdShort n => (Some (OK (identity_of kp.1 kp.2)), Some (take n text))
            end
        end
    end.

Definition Sign (id : NodeIdentity) (message : bytes) : bytes := Ed25519Sign (private_key id) message.

(** ** Theorems *)
Context `{!CryptoLaws C} `{!Ed25519Laws D}.

Lemma SealFile_open nonce subkey p aad text :
  length nonce = kPageNonceLen -> SealFile nonce subkey p aad = OK text ->
  LooksSealedFile text = true /\ text <> [] /\ OpenFile subkey text aad = Some (OK p).
Proof.
  intros Hn. unfold SealFile. destruct (Zlen subkey =? kDekLen) eqn:Ek; [|done]. cbn [negb].
  destruct (AesGcmSeal subkey nonce p aad) as [ct|] eqn:Es; [|done]. intros E.
  assert (text = kSealedFileMagic ++ nonce ++ ct) as -> by (by inversion E). clear E.
  assert (Hlen : length (kSealedFileMagic ++ nonce ++ ct) = (16 + length ct)%nat).
  { rewrite !length_app, Hn. done. }
  assert (Hl : LooksSealedFile (kSealedFileMagic ++ nonce ++ ct) = true).
  { unfold LooksSealedFile, Zlen. rewrite Hlen. apply andb_true_iff. split; [apply Z.leb_le; lia|].
    apply bool_decide_eq_true_2. done. }
  split; [done|]. split; [done|]. unfold OpenFile. rewrite Hl, Ek. cbn [negb].
  replace (Zlen _ <? 4 + Z.of_nat kPageNonceLen) with false
    by (symmetry; unfold Zlen; rewrite Hlen; apply Z.ltb_ge; unfold kPageNonceLen; lia).
  change (drop 4 (kSealedFileMagic ++ nonce ++ ct)) with (nonce ++ ct).
  change (drop (4 + kPageNonceLen) (kSealedFileMagic ++ nonce ++ ct)) with (drop kPageNonceLen (nonce ++ ct)).
  rewrite <- Hn, take_app_length, drop_app_length. by rewrite (gcm_open_seal _ _ _ _ _ Es).
Qed.

(** A node keeps its identity: the key pair made at the first start is the one every
    later start loads, whatever key pair that start could have made instead, its id is
    derived from its public key and its signatures verify under it; a sealed identity
    is refused without the key and a plaintext one is refused when a key is given, in
    both cases without touching the file. *)
Theorem identity_survives_restart priv pub nonce dek id file :
  key_pair priv pub -> length nonce = kPageNonceLen -> LooksSealedFile (priv ++ pub) = false ->
  LoadOrCreate (priv, pub) nonce IdOk None dek = (Some (OK id), file) ->
  (forall kp' nonce' io', LoadOrCreate kp' nonce' io' file dek = (Some (OK id), file))
  /\ id_node_id id = DeriveNodeId (public_key id)
  /\ (forall m, Ed25519Verify (public_key id) m (Sign id m) = true)
  /\ (forall kp' nonce' io' dek', Zlen dek' = 32 -> dek = [] ->
        LoadOrCreate kp' nonce' io' file dek' = (Some (Fault kCorruption), file))
  /\ (forall kp' nonce' io', dek <> [] ->
        LoadOrCreate kp' nonce' io' file [] = (Some (Fault kCorruption), file)).
Proof.
  intros Hkp Hn Hplain. destruct (key_pair_length _ _ Hkp) as [Lp Lq]. unfold LoadOrCreate at 1.
  destruct (bad_dek dek) eqn:Eb; [done|]. cbn [read_identity fst snd].
  assert (Hraw : length (priv ++ pub) = 64%nat) by (rewrite length_app, Lp, Lq; done).
  assert (Hne : priv ++ pub <> []) by (intros E; by rewrite E in Hraw).
  assert (Hid : identity_of (take kEd25519PrivateKeyLen (priv ++ pub)) (drop kEd25519PrivateKeyLen (priv ++ pub))
                = identity_of priv pub) by (by rewrite <- Lp, take_app_length, drop_app_length).
  case_bool_decide as Hd.
  - subst dek. intros [= <- <-].
    assert (Hread : forall dek', read_identity (Some (priv ++ pub)) dek'
              = if bool_decide (dek' = []) then Some (OK (Some (identity_of priv pub))) else Some (Fault kCorruption)).
    { intros dek'. unfold read_identity. rewrite (bool_decide_eq_false_2 (priv ++ pub = [])) by done. rewrite Hplain.
      case_bool_decide; [|done]. rewrite Hraw. by rewrite Hid. }
    split; [|split; [done|split; [intros m; by apply verify_sign|split; [|done]]]].
    + intros kp' nonce' io'. unfold LoadOrCreate. rewrite Eb, Hread. done.
    + intros kp' nonce' io' dek' Hl _. assert (dek' <> []) by (intros ->; done). unfold LoadOrCreate, bad_dek.
      rewrite Hl. rewrite (bool_decide_eq_false_2 (dek' = [])) by done. cbn [negb andb Z.eqb].
      rewrite Hread. by rewrite bool_decide_eq_false_2.
  - destruct (FileSubkey dek (bs "identity")) as [sk|] eqn:Ek; [|done].
    destruct (SealFile nonce sk (priv ++ pub) (bs "identity")) as [text|] eqn:Es; simpl; rewrite Es; [|done].
    intros [= <- <-]. destruct (SealFile_open _ _ _ _ _ Hn Es) as (S1 & S2 & S3).
    split; [|split; [done|split; [intros m; by apply verify_sign|split; [by intros ? ? ? ? _ ?|]]]].
    + intros kp' nonce' io'. unfold LoadOrCreate, read_identity. rewrite Eb.
      rewrite (bool_decide_eq_false_2 (text = [])), S1, (bool_decide_eq_false_2 (dek = [])), Ek, S3 by done.
      rewrite Hraw. by rewrite Hid.
    + intros kp' nonce' io' _. unfold LoadOrCreate, read_identity. change (bad_dek []) with false.
      by rewrite (bool_decide_eq_false_2 (text = [])), S1 by done.
Qed.
End Identity.

Definition demo_key : bytes := replicate 32 Byte.x2a.
Definition demo_identity : NodeIdentity := identity_of (C := toy_crypto) demo_key demo_key.

Lemma identity_survives_restart_witness :
  exists file, LoadOrCreate (C := toy_crypto) (demo_key, demo_key) (replicate kPageNonceLen Byte.x07) IdOk None demo_key
                 = (Some (OK demo_identity), file)
    /\ LoadOrCreate (C := toy_crypto) ([], []) [] IdOpenFail file demo_key = (Some (OK demo_identity), file).
Proof.
  eexists. split; [vm_compute; reflexivity|].
  apply (identity_survives_restart (C := toy_crypto) (D := toy_ed25519) demo_key demo_key
           (replicate kPageNonceLen Byte.x07) demo_key); [done|done|by vm_compute|by vm_compute].
Defined.

(** A write cut short leaves a plaintext file the next start takes for malformed: it
    makes another key pair, and the node comes back under another id. *)
Lemma short_write_changes_identity :
  let '(first, file) := LoadOrCreate (C := toy_crypto) (demo_key, demo_key) [] (IdShort 40) None [] in
  let other := replicate 32 Byte.x2b in
  first = Some (OK demo_identity)
  /\ (LoadOrCreate (C := toy_crypto) (other, other) [] IdOk file []).1
     = Some (OK (identity_of (C := toy_crypto) other other)).
Proof. vm_compute. split; reflexivity. Qed.
