(* ===== verification/DiskManager.v ===== *)
(** * Paged file I/O: src/storage/disk_manager.cpp

    The data file is its bytes, plain or sealed page by page.  What a write meets
    (the nonce drawn, how many bytes reach the file) is an environment stream.
    [frame_view] is the page a caller sees that, like the buffer pool, starts from
    a zeroed frame and ignores the status. *)
From S2P Require Import Prelude Bytes AtRest RecordLog AtRestFiles.
Local Open Scope Z_scope.

(** [we_io = Some k]: only [k] bytes reach the file and the stream goes bad. *)
Record write_env := mkWriteEnv { we_nonce : bytes; we_io : option nat }.

Record DiskManager := mkDisk {
  d_file : bytes;
  next_page_id_ : Z;
  d_subkey : bytes;
  d_file_tag : bytes;
  encrypted_ : bool;
  d_env : nat -> write_env;
  d_writes : nat;               (* writes done so far: the position in [d_env] *)
}.

Definition stride_of (encrypted : bool) : nat :=
  Z.to_nat (if encrypted then kSealedPageSize else kPageSize).

Definition zeros (n : nat) : bytes := replicate n Byte.x00.
Definition zero_page : bytes := zeros (Z.to_nat kPageSize).

(** Writing at an offset; a seek past the end leaves a gap of zeros. *)
Definition file_write (off : nat) (d f : bytes) : bytes :=
  take off (f ++ zeros (off - length f)) ++ d ++ drop (off + length d) f.

(** The bytes a read of [s] at block [i] returns. *)
Definition block (s i : nat) (f : bytes) : bytes := take s (drop (i * s) f).

(** What opening a file meets. *)
Record open_env := mkOpenEnv {
  oe_create : bool;             (* a missing file can be created *)
  oe_open : bool;               (* the file can be opened for reading and writing *)
  oe_tag : option bytes;        (* the random tag; [None]: the generator throws *)
  oe_header_io : commit_io;
}.

Lemma HexEncode_no_quote s : dquote ∉ HexEncode s.
Proof.
  induction s as [|c s IH]; [by apply not_elem_of_nil|]. rewrite HexEncode_cons, !not_elem_of_cons.
  pose proof (uc_range c). assert (forall n, 0 <= n < 16 -> dquote <> hex_digit n) as Hd.
  { intros n Hn. assert (n ∈ seqZ 0 16) as Hin by (apply elem_of_seqZ; lia).
    clear Hn. revert n Hin. apply Forall_forall. vm_compute. repeat constructor; done. }
  split; [|split; [|done]]; apply Hd.
  - rewrite Z.shiftr_div_pow2 by lia. change (2 ^ 4) with 16. split; [apply Z.div_pos; lia|].
    apply Z.div_lt_upper_bound; lia.
  - change 15 with (Z.ones 4). rewrite Z.land_ones by lia. apply Z.mod_pos_bound. lia.
Qed.

Section DiskManager.
Context `{C : Crypto}.

(** The tag and subkey of a sealed file: read from the header, or minted with it. *)
Definition open_sealed (env : open_env) (dek : bytes) (existed_nonempty : bool) (hdr : option bytes)
  : StatusOr (bytes * bytes) * option bytes :=
  if negb (Zlen dek =? 32) then (Fault kInvalidArgument, hdr)
  else
    let with_tag tag h := ((subkey <-? FileSubkey dek tag ;; OK (tag, subkey))%status, h) in
    match ReadPageHeaderFile hdr with
    | OK tag => with_tag tag hdr
    | Fault c =>
        if negb (bool_decide (c = kNotFound)) then (Fault c, hdr)
        else if existed_nonempty then (Fault kCorruption, hdr)
        else match oe_tag env with
             | None => (Fault kInternal, hdr)
             | Some raw =>
                 let tag := HexEncode raw in
                 match WritePageHeaderFile (oe_header_io env) tag hdr with
                 | (Fault c, h) => (Fault c, h)
                 | (OK _, h) => with_tag tag h
                 end
             end
    end.

(** Opening an existing (or just created) file.  Result, data file, header. *)
Definition open_file (env : open_env) (wenv : nat -> write_env) (f : bytes) (hdr : option bytes) (dek : bytes)
  : StatusOr DiskManager * (option bytes * option bytes) :=
  if negb (oe_open env) then (Fault kIOError, (Some f, hdr))
  else
    let encrypted := negb (bool_decide (dek = [])) in
    let '(keys, hdr') :=
      if encrypted then open_sealed env dek (negb (bool_decide (f = []))) hdr
      else match ReadPageHeaderFile hdr with
           | OK _ => (Fault kCorruption, hdr)
           | Fault c => (if negb (bool_decide (c = kNotFound)) then Fault c else OK ([], []), hdr)
           end in
    match keys with
    | Fault c => (Fault c, (Some f, hdr'))
    | OK (tag, subkey) =>
        (OK (mkDisk f (Zlen f / Z.of_nat (stride_of encrypted)) subkey tag encrypted wenv 0), (Some f, hdr'))
    end.

Definition OpenDisk (env : open_env) (wenv : nat -> write_env) (file hdr : option bytes) (dek : bytes)
  : StatusOr DiskManager * (option bytes * option bytes) :=
  match file with
  | None => if negb (oe_create env) then (Fault kIOError, (None, hdr)) else open_file env wenv [] hdr dek
  | Some f => open_file env wenv f hdr dek
  end.

(** [out] after an OK; a fault leaves [out] alone. *)
Definition ReadPage (page_id : Z) (d : DiskManager) : StatusOr bytes :=
  if page_id <? 0 then OK zero_page
  else
    let b := block (stride_of (encrypted_ d)) (Z.to_nat page_id) (d_file d) in
    if negb (encrypted_ d) then OK (b ++ zeros (Z.to_nat kPageSize - length b))
    else if Zlen b <? kSealedPageSize then OK zero_page
    else OpenPage (d_subkey d) page_id (d_file_tag d) b.

Definition put_block (page_id : Z) (data : bytes) (d : DiskManager) : StatusOr unit * DiskManager :=
  let env := d_env d (d_writes d) in
  let next f := mkDisk f (next_page_id_ d) (d_subkey d) (d_file_tag d) (encrypted_ d) (d_env d) (S (d_writes d)) in
  if page_id <? 0 then (Fault kIOError, next (d_file d))
  else
    let off := (Z.to_nat page_id * stride_of (encrypted_ d))%nat in
    match we_io env with
    | None => (OK tt, next (file_write off data (d_file d)))
    | Some k => (Fault kIOError, next (file_write off (take k data) (d_file d)))
    end.

Definition WritePage (page_id : Z) (data : bytes) (d : DiskManager) : StatusOr unit * DiskManager :=
  if negb (encrypted_ d) then put_block page_id (take (Z.to_nat kPageSize) data) d
  else match SealPage (we_nonce (d_env d (d_writes d))) (d_subkey d) page_id (d_file_tag d) data with
       | Fault c => (Fault c, d)
       | OK sealed => put_block page_id sealed d
       end.

(** [fetch_add] on 64 bits, then the cast to [int32_t]. *)
Definition AllocatePage (d : DiskManager) : Z * DiskManager :=
  (to_signed 32 (u32 (next_page_id_ d)),
   mkDisk (d_file d) (to_signed 64 (u64 (next_page_id_ d + 1))) (d_subkey d) (d_file_tag d) (encrypted_ d)
     (d_env d) (d_writes d)).

Definition NumAllocatedPages (d : DiskManager) : Z := next_page_id_ d.

(** [ok]: the flush and the system's sync succeed. *)
Definition SyncDisk (ok : bool) (d : DiskManager) : StatusOr unit := if ok then OK tt else Fault kIOError.

Definition frame_view (d : DiskManager) (page_id : Z) : bytes :=
  match ReadPage page_id d with OK p => p | Fault _ => zero_page end.

(** ** Blocks of a file *)
Lemma zeros_length n : length (zeros n) = n.
Proof. apply length_replicate. Qed.

Lemma file_write_lookup off d f k :
  file_write off d f !! k =
  if (k <? off)%nat then (f ++ zeros (off - length f)) !! k
  else if (k <? off + length d)%nat then d !! (k - off)%nat else f !! k.
Proof.
  unfold file_write. assert (length (take off (f ++ zeros (off - length f))) = off) as Hl.
  { rewrite length_take, length_app, zeros_length. lia. }
  destruct (Nat.ltb_spec k off) as [H|H].
  - rewrite lookup_app_l by lia. by apply lookup_take_lt.
  - rewrite lookup_app_r, Hl by lia. destruct (Nat.ltb_spec k (off + length d)) as [H'|H'].
    + by rewrite lookup_app_l by lia.
    + rewrite lookup_app_r by lia. rewrite lookup_drop. f_equal. lia.
Qed.

Lemma file_write_length off d f : length (file_write off d f) = Nat.max (length f) (off + length d).
Proof.
  unfold file_write. rewrite !length_app, length_take, length_drop, length_app, zeros_length. lia.
Qed.

Lemma block_lookup s i f k : block s i f !! k = if (k <? s)%nat then f !! (i * s + k)%nat else None.
Proof.
  unfold block. destruct (Nat.ltb_spec k s) as [H|H].
  - by rewrite lookup_take_lt, lookup_drop.
  - by rewrite lookup_take_ge.
Qed.

Lemma block_write_same s i d f : length d = s -> block s i (file_write (i * s) d f) = d.
Proof.
  intros Hd. apply list_eq. intros k. rewrite block_lookup, file_write_lookup.
  destruct (Nat.ltb_spec k s) as [H|H].
  - rewrite (proj2 (Nat.ltb_ge _ _)), (proj2 (Nat.ltb_lt _ _)) by lia. f_equal. lia.
  - symmetry. apply lookup_ge_None. lia.
Qed.

Lemma block_write_other s i j d f m :
  (0 < s)%nat -> length d = s -> length f = (m * s)%nat -> i <> j ->
  block s j (file_write (i * s) d f) = block s j f
  \/ (block s j f = [] /\ block s j (file_write (i * s) d f) = zeros s).
Proof.
  intros Hs Hd Hf Hij. destruct (Nat.lt_ge_cases i j) as [H|H]; [left|].
  - apply list_eq. intros k. rewrite !block_lookup, file_write_lookup.
    destruct (Nat.ltb_spec k s); [|done]. rewrite !(proj2 (Nat.ltb_ge _ _)) by nia. done.
  - destruct (Nat.lt_ge_cases j m) as [Hj|Hj].
    + left. apply list_eq. intros k. rewrite !block_lookup, file_write_lookup.
      destruct (Nat.ltb_spec k s); [|done]. rewrite (proj2 (Nat.ltb_lt _ _)) by nia.
      apply lookup_app_l. nia.
    + right. split.
      * unfold block. rewrite drop_ge by nia. by rewrite take_nil.
      * apply list_eq. intros k. rewrite !block_lookup, file_write_lookup. unfold zeros.
        destruct (Nat.ltb_spec k s) as [Hk|Hk].
        -- rewrite (proj2 (Nat.ltb_lt _ _)) by nia. rewrite lookup_app_r by nia.
           rewrite !lookup_replicate_2 by nia. done.
        -- symmetry. apply lookup_ge_None. by rewrite length_replicate.
Qed.

Lemma block_length s i f m :
  length f = (m * s)%nat -> length (block s i f) = if (i <? m)%nat then s else 0%nat.
Proof.
  intros Hf. unfold block. rewrite length_take, length_drop, Hf.
  destruct (Nat.ltb_spec i m); nia.
Qed.

(** ** What a healthy disk is *)

(** The gap an out-of-order write leaves in a sealed file is not an authentic page. *)
Definition gap_rejected (subkey tag : bytes) : Prop :=
  forall id c, OpenPage subkey id tag (zeros (Z.to_nat kSealedPageSize)) <> OK c.

Record disk_ok (d : DiskManager) : Prop := {
  disk_aligned : exists m, length (d_file d) = (m * stride_of (encrypted_ d))%nat;
  disk_sealed : encrypted_ d = true ->
    Zlen (d_subkey d) = kDekLen /\ gap_rejected (d_subkey d) (d_file_tag d);
  disk_writes : forall n, we_io (d_env d n) = None /\ length (we_nonce (d_env d n)) = kPageNonceLen;
}.

Context `{!CryptoLaws C}.

Lemma stride_pos e : (0 < stride_of e)%nat.
Proof. destruct e; unfold stride_of; vm_compute; lia. Qed.

Lemma zero_page_length : Zlen zero_page = kPageSize.
Proof. unfold Zlen, zero_page. rewrite zeros_length. vm_compute. done. Qed.

Lemma OpenPage_length sk id tag b p : OpenPage sk id tag b = OK p -> Zlen p = kPageSize.
Proof.
  unfold OpenPage. destruct (negb _); [done|]. destruct (AesGcmOpen _ _ _ _) as [q|]; [|done].
  destruct (Z.eqb_spec (Zlen q) kPageSize); [|done]. by intros [= <-].
Qed.

Lemma frame_view_length d id : Zlen (frame_view d id) = kPageSize.
Proof.
  unfold frame_view, ReadPage. destruct (id <? 0); [apply zero_page_length|].
  destruct (encrypted_ d); cbn [negb].
  - destruct (_ <? _); [apply zero_page_length|]. destruct (OpenPage _ _ _ _) eqn:E;
      [by eapply OpenPage_length|apply zero_page_length].
  - unfold Zlen. rewrite length_app, zeros_length. unfold block. rewrite length_take, length_drop.
    change (stride_of false) with (Z.to_nat kPageSize). assert (0 <= kPageSize) by done. lia.
Qed.

(** The view of a page depends on its block only, and a gap reads like no block. *)
Definition view_of (e : bool) (sk tag : bytes) (id : Z) (b : bytes) : bytes :=
  if negb e then b ++ zeros (Z.to_nat kPageSize - length b)
  else if Zlen b <? kSealedPageSize then zero_page
  else match OpenPage sk id tag b with OK p => p | Fault _ => zero_page end.

Lemma frame_view_block d id :
  0 <= id ->
  frame_view d id = view_of (encrypted_ d) (d_subkey d) (d_file_tag d) id
                      (block (stride_of (encrypted_ d)) (Z.to_nat id) (d_file d)).
Proof.
  intros Hid. unfold frame_view, ReadPage, view_of. rewrite (proj2 (Z.ltb_ge _ _) Hid).
  destruct (encrypted_ d); cbn [negb]; [|done]. by destruct (_ <? _).
Qed.

Lemma view_of_gap e sk tag id :
  (e = true -> gap_rejected sk tag) ->
  view_of e sk tag id (zeros (stride_of e)) = view_of e sk tag id [].
Proof.
  intros Hg. unfold view_of. destruct e; cbn [negb].
  - rewrite (proj2 (Z.ltb_ge _ _)) by (vm_compute; done).
    rewrite (proj2 (Z.ltb_lt _ _)) by (vm_compute; done).
    unfold stride_of. destruct (OpenPage sk id tag _) as [p|] eqn:E; [|done].
    by destruct (Hg eq_refl _ _ E).
  - unfold stride_of. rewrite zeros_length, Nat.sub_diag. cbn [zeros replicate].
    by rewrite app_nil_r, Nat.sub_0_r.
Qed.

Lemma put_block_view page_id b d :
  disk_ok d -> 0 <= page_id -> length b = stride_of (encrypted_ d) ->
  let '(st, d') := put_block page_id b d in
  st = OK tt /\ disk_ok d' /\ next_page_id_ d' = next_page_id_ d
  /\ frame_view d' page_id = view_of (encrypted_ d) (d_subkey d) (d_file_tag d) page_id b
  /\ forall id, 0 <= id -> id <> page_id -> frame_view d' id = frame_view d id.
Proof.
  intros [[m Hm] Hs Hw] Hid Hb. unfold put_block. rewrite (proj2 (Z.ltb_ge _ _) Hid).
  destruct (Hw (d_writes d)) as [-> _]. pose proof (stride_pos (encrypted_ d)) as Hpos.
  split; [done|]. split; [split; cbn; try done|split; [done|split]].
  - rewrite file_write_length, Hb, Hm. exists (Nat.max m (S (Z.to_nat page_id))). nia.
  - rewrite frame_view_block by done. cbn [encrypted_ d_subkey d_file_tag d_file].
    by rewrite block_write_same.
  - intros id H0 Hne. rewrite !frame_view_block by done. cbn [encrypted_ d_subkey d_file_tag d_file].
    destruct (block_write_other (stride_of (encrypted_ d)) (Z.to_nat page_id) (Z.to_nat id) b (d_file d) m)
      as [->|[-> ->]]; [done|done|done|lia|done|].
    apply view_of_gap. intros He. by apply Hs.
Qed.

(** A write to a healthy disk succeeds, reads back, and no other page changes. *)
Lemma WritePage_view page_id data d :
  disk_ok d -> 0 <= page_id -> Zlen data = kPageSize ->
  let '(st, d') := WritePage page_id data d in
  st = OK tt /\ disk_ok d' /\ next_page_id_ d' = next_page_id_ d
  /\ frame_view d' page_id = data
  /\ forall id, 0 <= id -> id <> page_id -> frame_view d' id = frame_view d id.
Proof.
  intros Hd Hid Hl. unfold WritePage. destruct (encrypted_ d) eqn:He; cbn [negb].
  - destruct (disk_sealed d Hd He) as [Hk _]. destruct (disk_writes d Hd (d_writes d)) as [_ Hn].
    assert (exists s, SealPage (we_nonce (d_env d (d_writes d))) (d_subkey d) page_id (d_file_tag d) data = OK s) as [s Es].
    { unfold SealPage. rewrite Hk, Z.eqb_refl. cbn [negb].
      destruct (gcm_seal_ok (d_subkey d) (we_nonce (d_env d (d_writes d))) (take (Z.to_nat kPageSize) data)
                  (PageAad (d_file_tag d) page_id) Hk Hn) as [c Ec]. rewrite Ec. cbn [sbind].
      apply gcm_seal_length in Ec. rewrite length_take_le in Ec by (unfold Zlen in Hl; lia).
      rewrite (proj2 (Z.eqb_eq _ _)); [by eexists|]. unfold Zlen. rewrite Ec. vm_compute. done. }
    rewrite Es. destruct (OpenPage_SealPage _ _ _ _ _ _ Hn Hl Es) as [Ho Hls].
    pose proof (put_block_view page_id s d Hd Hid) as H.
    destruct (put_block page_id s d) as [st d'] eqn:Ep.
    destruct H as (H1 & H2 & H3 & H4 & H5); [rewrite He; unfold Zlen in Hls; unfold stride_of; lia|].
    split_and!; try done. rewrite H4, He. unfold view_of. cbn [negb].
    by rewrite Hls, Z.ltb_irrefl, Ho.
  - assert (take (Z.to_nat kPageSize) data = data) as -> by (apply take_ge; unfold Zlen in Hl; lia).
    pose proof (put_block_view page_id data d Hd Hid) as H.
    destruct (put_block page_id data d) as [st d'] eqn:Ep.
    destruct H as (H1 & H2 & H3 & H4 & H5); [rewrite He; unfold stride_of; unfold Zlen in Hl; lia|].
    split_and!; try done. rewrite H4, He. unfold view_of. cbn [negb].
    replace (Z.to_nat kPageSize - length data)%nat with 0%nat by (unfold Zlen in Hl; lia).
    apply app_nil_r.
Qed.

(** The first page nobody has written is past the end. *)
Lemma frame_view_fresh d id :
  disk_ok d -> 0 <= id -> Zlen (d_file d) / Z.of_nat (stride_of (encrypted_ d)) <= id ->
  frame_view d id = zero_page.
Proof.
  intros [[m Hm] _ _] Hid Hn. rewrite frame_view_block by done.
  assert (block (stride_of (encrypted_ d)) (Z.to_nat id) (d_file d) = []) as ->.
  { pose proof (stride_pos (encrypted_ d)). apply nil_length_inv. rewrite (block_length _ _ _ m) by done.
    rewrite (proj2 (Nat.ltb_ge _ _)); [done|]. unfold Zlen in Hn. rewrite Hm, Nat2Z.inj_mul, Z.div_mul in Hn by lia.
    lia. }
  unfold view_of. destruct (encrypted_ d); cbn [negb]; [done|]. by rewrite Nat.sub_0_r.
Qed.

(** ** Opening *)

(** The modes fail closed: a sealed file without a key, and a plain one with a key. *)
Lemma OpenDisk_mode_mismatch env wenv f hdr dek :
  oe_open env = true ->
  (dek = [] /\ (exists tag, ReadPageHeaderFile hdr = OK tag))
  \/ (Zlen dek = 32 /\ hdr = None /\ f <> []) ->
  OpenDisk env wenv (Some f) hdr dek = (Fault kCorruption, (Some f, hdr)).
Proof.
  intros Ho [[-> [tag Ht]]|(Hl & -> & Hf)]; cbn [OpenDisk]; unfold open_file; rewrite Ho; cbn [negb].
  - rewrite bool_decide_eq_true_2 by done. cbn [negb]. by rewrite Ht.
  - rewrite (bool_decide_eq_false_2 (dek = [])) by (intros ->; done). cbn [negb]. unfold open_sealed.
    rewrite Hl, (bool_decide_eq_false_2 (f = [])) by done. done.
Qed.

(** A reopened file shows the same pages: same tag, same subkey, same bytes. *)
Lemma OpenDisk_reopen env env' wenv wenv' file hdr dek d file1 hdr1 :
  oe_open env' = true -> dek <> [] \/ hdr = None ->
  (forall raw, oe_tag env = Some raw -> raw <> []) ->
  OpenDisk env wenv file hdr dek = (OK d, (file1, hdr1)) ->
  forall f', exists d', OpenDisk env' wenv' (Some f') hdr1 dek = (OK d', (Some f', hdr1))
    /\ d_file d' = f' /\ encrypted_ d' = encrypted_ d
    /\ d_subkey d' = d_subkey d /\ d_file_tag d' = d_file_tag d.
Proof.
  intros Ho Hk Hraw H f'. assert (exists f, open_file env wenv f hdr dek = (OK d, (file1, hdr1))) as [f Hf].
  { destruct file as [f|]; [by exists f|]. cbn [OpenDisk] in H. destruct (oe_create env); [|done]. by exists []. }
  clear H. revert Hf. cbn [OpenDisk]. unfold open_file. rewrite Ho. cbn [negb].
  destruct (oe_open env); [|done]. cbn [negb]. destruct (decide (dek = [])) as [->|Hne].
  - rewrite bool_decide_eq_true_2 by done. cbn [negb]. destruct Hk as [Hk| ->]; [done|].
    cbn [ReadPageHeaderFile]. rewrite bool_decide_eq_true_2 by done. cbn [negb].
    intros [= <- _ <-]. eexists. split; [done|]. done.
  - rewrite (bool_decide_eq_false_2 (dek = [])) by done. cbn [negb]. unfold open_sealed.
    destruct (negb (Zlen dek =? 32)); [done|]. destruct (ReadPageHeaderFile hdr) as [tag|c] eqn:Eh.
    + destruct (FileSubkey dek tag) as [sk|] eqn:Es; [|done]. cbn [sbind]. intros [= <- _ <-].
      rewrite Eh, Es. cbn [sbind]. eexists. by split.
    + destruct (negb _); [done|]. destruct (negb _); [done|]. destruct (oe_tag env) as [raw|] eqn:Er; [|done].
      unfold WritePageHeaderFile. destruct (oe_header_io env); cbn [commit_file]; [|done|done].
      destruct (FileSubkey dek (HexEncode raw)) as [sk|] eqn:Es; [|done]. cbn [sbind]. intros [= <- _ <-].
      rewrite header_round_trip; [rewrite Es; cbn [sbind]; eexists; by split|..].
      * intros E. apply (f_equal length) in E. rewrite HexEncode_length in E. cbn in E.
        apply (Hraw raw eq_refl). destruct raw; [done|]. cbn in E. lia.
      * apply HexEncode_no_quote.
Qed.
End DiskManager.
