(* ===== verification/BufferPool.v ===== *)
(** * The buffer pool: src/storage/buffer_pool_manager.cpp

    Frames, page table, free list and LRU replacer over the disk manager.  A frame
    is shared: callers hold its index while the page is pinned and write through
    it ([write_frame]).  [view] is what a caller would see of a page, wherever it
    lives; the operations are proved to keep it. *)
From S2P Require Import Prelude Bytes AtRest DiskManager.
Local Open Scope Z_scope.

Definition kInvalidPageId : Z := -1.

Record Page := mkPage {
  p_data : bytes;
  p_page_id : Z;
  pin_count_ : Z;
  is_dirty_ : bool;
  page_lsn_ : Z;
}.

Definition ResetMemory : Page := mkPage zero_page (-1) 0 false (-1).

(** ** LRUReplacer: the list, most recent first; [position_] is its index *)
Definition RecordAccess (f : nat) (l : list nat) : list nat := f :: filter (fun x => x <> f) l.
Definition LruPin (f : nat) (l : list nat) : list nat := filter (fun x => x <> f) l.
Definition Victim (l : list nat) : option (nat * list nat) :=
  v ← last l; Some (v, take (length l - 1) l).

Record BufferPool := mkPool {
  pages_ : list Page;
  page_table_ : gmap Z nat;
  free_list_ : list nat;        (* the back of the vector first *)
  lru_list_ : list nat;
  disk_ : DiskManager;
}.

Definition new_pool (pool_size : nat) (d : DiskManager) : BufferPool :=
  mkPool (replicate pool_size ResetMemory) ∅ (reverse (seq 0 pool_size)) [] d.

Section BufferPool.
Context `{C : Crypto}.

(** [None]: every frame is pinned.  The status of the write-back is dropped. *)
Definition FindFreeOrVictimFrame (b : BufferPool) : option (nat * BufferPool) :=
  match free_list_ b with
  | f :: rest => Some (f, mkPool (pages_ b) (page_table_ b) rest (lru_list_ b) (disk_ b))
  | [] =>
      '(victim, lru) ← Victim (lru_list_ b);
      page ← pages_ b !! victim;
      let d := if is_dirty_ page then (WritePage (p_page_id page) (p_data page) (disk_ b)).2 else disk_ b in
      Some (victim, mkPool (pages_ b) (delete (p_page_id page) (page_table_ b)) [] lru d)
  end.

(** The status of the read is dropped: a page that does not open stays zeroed. *)
Definition FetchPage (page_id : Z) (b : BufferPool) : option nat * BufferPool :=
  match page_table_ b !! page_id with
  | Some f =>
      match pages_ b !! f with
      | None => (None, b)
      | Some page =>
          let lru := if pin_count_ page =? 0 then LruPin f (lru_list_ b) else lru_list_ b in
          let page' := mkPage (p_data page) (p_page_id page) (pin_count_ page + 1) (is_dirty_ page) (page_lsn_ page) in
          (Some f, mkPool (<[f := page']> (pages_ b)) (page_table_ b) (free_list_ b) lru (disk_ b))
      end
  | None =>
      match FindFreeOrVictimFrame b with
      | None => (None, b)
      | Some (f, b1) =>
          let page := mkPage (frame_view (disk_ b1) page_id) page_id 1 false (page_lsn_ ResetMemory) in
          (Some f, mkPool (<[f := page]> (pages_ b1)) (<[page_id := f]> (page_table_ b1))
                     (free_list_ b1) (lru_list_ b1) (disk_ b1))
      end
  end.

Definition NewPage (b : BufferPool) : option (nat * Z) * BufferPool :=
  match FindFreeOrVictimFrame b with
  | None => (None, b)
  | Some (f, b1) =>
      let '(new_id, d) := AllocatePage (disk_ b1) in
      let page := mkPage zero_page new_id 1 true (page_lsn_ ResetMemory) in
      (Some (f, new_id), mkPool (<[f := page]> (pages_ b1)) (<[new_id := f]> (page_table_ b1))
                           (free_list_ b1) (lru_list_ b1) d)
  end.

Definition UnpinPage (page_id : Z) (is_dirty : bool) (b : BufferPool) : bool * BufferPool :=
  match page_table_ b !! page_id with
  | None => (false, b)
  | Some f =>
      match pages_ b !! f with
      | None => (false, b)
      | Some page =>
          if pin_count_ page <=? 0 then (false, b)
          else
            let pin := pin_count_ page - 1 in
            let page' := mkPage (p_data page) (p_page_id page) pin (is_dirty || is_dirty_ page) (page_lsn_ page) in
            (true, mkPool (<[f := page']> (pages_ b)) (page_table_ b) (free_list_ b)
                     (if pin =? 0 then RecordAccess f (lru_list_ b) else lru_list_ b) (disk_ b))
      end
  end.

Definition clean (page : Page) : Page :=
  mkPage (p_data page) (p_page_id page) (pin_count_ page) false (page_lsn_ page).

Definition FlushPage (page_id : Z) (b : BufferPool) : bool * BufferPool :=
  match page_table_ b !! page_id with
  | None => (false, b)
  | Some f =>
      match pages_ b !! f with
      | None => (false, b)
      | Some page =>
          (true, mkPool (<[f := clean page]> (pages_ b)) (page_table_ b) (free_list_ b) (lru_list_ b)
                   (WritePage page_id (p_data page) (disk_ b)).2)
      end
  end.

(** One entry of the loop of [FlushAllPages]. *)
Definition flush_entry (b : BufferPool) (e : Z * nat) : BufferPool :=
  match pages_ b !! e.2 with
  | Some page => if is_dirty_ page
                 then mkPool (<[e.2 := clean page]> (pages_ b)) (page_table_ b) (free_list_ b) (lru_list_ b)
                        (WritePage e.1 (p_data page) (disk_ b)).2
                 else b
  | None => b
  end.

Definition FlushAllPages (b : BufferPool) : BufferPool := fold_left flush_entry (map_to_list (page_table_ b)) b.

Definition PoolSize (b : BufferPool) : nat := length (pages_ b).

(** What a holder of the frame does: read its bytes, overwrite them. *)
Definition frame_data (f : nat) (b : BufferPool) : bytes :=
  match pages_ b !! f with Some page => p_data page | None => [] end.

Definition write_frame (f : nat) (data : bytes) (b : BufferPool) : BufferPool :=
  mkPool (alter (fun p => mkPage data (p_page_id p) (pin_count_ p) (is_dirty_ p) (page_lsn_ p)) f (pages_ b))
    (page_table_ b) (free_list_ b) (lru_list_ b) (disk_ b).

(** ** The abstraction *)
Definition view (b : BufferPool) (id : Z) : bytes :=
  match page_table_ b !! id with
  | Some f => frame_data f b
  | None => frame_view (disk_ b) id
  end.

Definition pin (b : BufferPool) (id : Z) : Z :=
  match page_table_ b !! id ≫= fun f => pages_ b !! f with
  | Some page => pin_count_ page
  | None => 0
  end.

Definition pages_allocated (b : BufferPool) : Z := next_page_id_ (disk_ b).

(** One resident page: [T] are the pages a holder has written and not yet declared. *)
Record entry_ok (T : gset Z) (b : BufferPool) (id : Z) (f : nat) (page : Page) : Prop := {
  eo_id : p_page_id page = id;
  eo_range : 0 <= id < pages_allocated b;
  eo_pin : 0 <= pin_count_ page;
  eo_len : Zlen (p_data page) = kPageSize;
  eo_free : f ∉ free_list_ b;
  eo_lru : pin_count_ page = 0 <-> f ∈ lru_list_ b;
  eo_clean : is_dirty_ page = false -> id ∉ T -> p_data page = frame_view (disk_ b) id;
  eo_touched : id ∈ T -> 0 < pin_count_ page;
}.

(** [D] is a frame that was taken from the pool and not yet given a page. *)
Record pool_inv (T : gset Z) (D : option nat) (b : BufferPool) : Prop := {
  pi_disk : disk_ok (disk_ b);
  pi_next : 0 <= pages_allocated b;
  pi_table : forall id f, page_table_ b !! id = Some f ->
    (exists page, pages_ b !! f = Some page /\ entry_ok T b id f page);
  pi_touched : forall id, id ∈ T -> is_Some (page_table_ b !! id);
  pi_free : forall f, f ∈ free_list_ b -> (f < length (pages_ b))%nat;
  pi_lru : forall f, f ∈ lru_list_ b -> (exists id, page_table_ b !! id = Some f);
  pi_nodup : NoDup (free_list_ b) /\ NoDup (lru_list_ b);
  pi_all : forall f, (f < length (pages_ b))%nat ->
    f ∈ free_list_ b \/ (exists id, page_table_ b !! id = Some f) \/ D = Some f;
  pi_detached : forall f, D = Some f -> (f < length (pages_ b))%nat /\ (f ∉ free_list_ b)
    /\ (f ∉ lru_list_ b) /\ (forall id, page_table_ b !! id <> Some f);
}.

Definition pool_ok (T : gset Z) (b : BufferPool) : Prop := pool_inv T None b.

Lemma table_inj T D b id1 id2 f :
  pool_inv T D b -> page_table_ b !! id1 = Some f -> page_table_ b !! id2 = Some f -> id1 = id2.
Proof.
  intros Hb H1 H2. destruct (pi_table _ _ _ Hb _ _ H1) as (p1 & E1 & O1).
  destruct (pi_table _ _ _ Hb _ _ H2) as (p2 & E2 & O2).
  rewrite E1 in E2. injection E2 as <-. by rewrite <- (eo_id _ _ _ _ _ O1), (eo_id _ _ _ _ _ O2).
Qed.

Lemma view_resident b id f page :
  page_table_ b !! id = Some f -> pages_ b !! f = Some page -> view b id = p_data page.
Proof. intros H1 H2. unfold view, frame_data. by rewrite H1, H2. Qed.

Lemma pin_resident b id f page :
  page_table_ b !! id = Some f -> pages_ b !! f = Some page -> pin b id = pin_count_ page.
Proof. intros H1 H2. unfold pin. rewrite H1. cbn [mbind option_bind]. by rewrite H2. Qed.

Lemma view_length T D b id : pool_inv T D b -> Zlen (view b id) = kPageSize.
Proof.
  intros Hb. unfold view. destruct (page_table_ b !! id) as [f|] eqn:E.
  - destruct (pi_table _ _ _ Hb _ _ E) as (p & Ep & O). unfold frame_data. rewrite Ep. apply O.
  - apply frame_view_length.
Qed.

Lemma new_pool_ok n d : disk_ok d -> 0 <= next_page_id_ d -> pool_ok ∅ (new_pool n d).
Proof.
  intros Hd Hn. split; cbn; try done.
  - intros f. rewrite elem_of_reverse, elem_of_seq, length_replicate. lia.
  - intros f Hf. by apply not_elem_of_nil in Hf.
  - split; [rewrite reverse_Permutation; apply NoDup_seq|constructor].
  - intros f. rewrite length_replicate. left. rewrite elem_of_reverse, elem_of_seq. lia.
Qed.

(** ** Overwriting one resident frame, its page and pin rules kept *)

Lemma other_frame T D b id f id' f' :
  pool_inv T D b -> page_table_ b !! id = Some f -> page_table_ b !! id' = Some f' -> id' <> id -> f' <> f.
Proof. intros Hb H1 H2 Hne ->. apply Hne. by eapply table_inj. Qed.

(** An update of frame [f] with the replacer and the disk adjusted for it. *)
Lemma update_frame_inv T T' b id f page' lru d :
  pool_ok T b -> page_table_ b !! id = Some f ->
  let b' := mkPool (<[f := page']> (pages_ b)) (page_table_ b) (free_list_ b) lru d in
  disk_ok d -> next_page_id_ d = pages_allocated b ->
  (forall j, 0 <= j -> j <> id -> frame_view d j = frame_view (disk_ b) j) ->
  (forall j, j <> id -> (j ∈ T' <-> j ∈ T)) ->
  (forall g, g <> f -> (g ∈ lru <-> g ∈ lru_list_ b)) -> NoDup lru ->
  entry_ok T' b' id f page' -> pool_ok T' b'.
Proof.
  intros Hb Hf b' Hd Hnext Hview HT Hlru Hnd He.
  assert (f < length (pages_ b))%nat as Hlt.
  { destruct (pi_table _ _ _ Hb _ _ Hf) as (p & Ep & _). by eapply lookup_lt_Some. }
  split; cbn; try done.
  - unfold pages_allocated in *. cbn. rewrite Hnext. apply Hb.
  - intros j g Hj. destruct (decide (j = id)) as [->|Hne].
    + assert (g = f) as -> by congruence. exists page'. by rewrite list_lookup_insert_eq.
    + pose proof (other_frame _ _ _ _ _ _ _ Hb Hf Hj Hne) as Hgf.
      destruct (pi_table _ _ _ Hb _ _ Hj) as (p & Ep & O). exists p.
      rewrite list_lookup_insert_ne by done. split; [done|]. destruct O. split; cbn; try done.
      * unfold pages_allocated in *. cbn. by rewrite Hnext.
      * rewrite Hlru by done. done.
      * rewrite HT by done. intros Hc Hn. rewrite Hview by (done || lia). auto.
      * rewrite HT by done. done.
  - intros j Hj. destruct (decide (j = id)) as [->|Hne]; [by eexists|]. apply (pi_touched _ _ _ Hb).
    by apply HT.
  - rewrite length_insert. apply Hb.
  - intros g Hg. destruct (decide (g = f)) as [->|Hne]; [by eexists|]. apply (pi_lru _ _ _ Hb). by apply Hlru.
  - split; [apply Hb|done].
  - rewrite length_insert. apply Hb.
Qed.

Lemma update_frame_view T D b id f page' lru d :
  pool_inv T D b -> page_table_ b !! id = Some f ->
  (forall j, 0 <= j -> j <> id -> frame_view d j = frame_view (disk_ b) j) ->
  let b' := mkPool (<[f := page']> (pages_ b)) (page_table_ b) (free_list_ b) lru d in
  view b' id = p_data page' /\ pin b' id = pin_count_ page'
  /\ (forall j, 0 <= j -> j <> id -> view b' j = view b j /\ pin b' j = pin b j).
Proof.
  intros Hb Hf Hv b'.
  assert (f < length (pages_ b))%nat as Hlt.
  { destruct (pi_table _ _ _ Hb _ _ Hf) as (p & Ep & _). by eapply lookup_lt_Some. }
  assert (pages_ b' !! f = Some page') as Hp' by (by apply list_lookup_insert_eq).
  split; [by eapply view_resident|]. split; [by eapply pin_resident|]. intros j H0 Hne.
  unfold view, pin, frame_data, b'. cbn [page_table_ pages_ disk_].
  destruct (page_table_ b !! j) as [g|] eqn:Ej; cbn [mbind option_bind].
  - assert (g <> f) by (by eapply other_frame). by rewrite list_lookup_insert_ne.
  - by rewrite Hv.
Qed.
(** ** Operations on a resident page *)
Lemma LruPin_spec f l : 
  NoDup l -> NoDup (LruPin f l) /\ (f ∉ LruPin f l) /\ (forall g, g <> f -> (g ∈ LruPin f l <-> g ∈ l)).
Proof.
  intros Hn. unfold LruPin. split; [by apply NoDup_filter|].
  split; [rewrite list_elem_of_filter; tauto|]. intros g Hg. rewrite list_elem_of_filter. tauto.
Qed.

(** A pin of a resident page. *)
Lemma fetch_resident T b id f :
  pool_ok T b -> page_table_ b !! id = Some f ->
  exists b', FetchPage id b = (Some f, b') /\ pool_ok T b' /\ page_table_ b' = page_table_ b
    /\ pages_allocated b' = pages_allocated b /\ pin b' id = pin b id + 1
    /\ (forall j, 0 <= j -> view b' j = view b j) /\ (forall j, 0 <= j -> j <> id -> pin b' j = pin b j)
    /\ length (pages_ b') = length (pages_ b).
Proof.
  intros Hb Hf. destruct (pi_table _ _ _ Hb _ _ Hf) as (p & Ep & O). unfold FetchPage. rewrite Hf, Ep.
  set (p' := mkPage _ _ _ _ _). set (lru := if pin_count_ p =? 0 then _ else _). eexists. split; [done|].
  pose proof (proj2 (pi_nodup _ _ _ Hb)) as Hnd. destruct (LruPin_spec f _ Hnd) as (H1 & H2 & H3).
  pose proof (eo_pin _ _ _ _ _ O). pose proof (eo_lru _ _ _ _ _ O) as Hl.
  destruct (update_frame_view T None b id f p' lru (disk_ b) Hb Hf ltac:(done)) as (V1 & V2 & V3).
  split; [|split; [done|split; [done|split; [|split; [|split]]]]].
  - apply (update_frame_inv T T b id); try done; try apply Hb.
    + intros g Hg. unfold lru. destruct (pin_count_ p =? 0); [by apply H3|done].
    + unfold lru. by destruct (_ =? 0).
    + destruct O. split; cbn; try done; try lia.
      assert (f ∉ lru) as Hnl.
      { unfold lru. destruct (Z.eqb_spec (pin_count_ p) 0); [done|]. by rewrite <- Hl. }
      split; [lia|done].
  - rewrite V2, (pin_resident b id f p) by done. done.
  - intros j H0. destruct (decide (j = id)) as [->|Hne]; [|by apply V3].
    rewrite V1, (view_resident b id f p) by done. done.
  - intros j H0 Hne. by apply V3.
  - cbn. apply length_insert.
Qed.

(** Unpinning a page that is pinned; a written page has to be declared dirty. *)
Lemma unpin_resident T b id dirty :
  pool_ok T b -> 0 < pin b id -> (dirty = false -> id ∉ T) ->
  exists b', UnpinPage id dirty b = (true, b') /\ pool_ok (T ∖ {[id]}) b'
    /\ page_table_ b' = page_table_ b /\ pages_allocated b' = pages_allocated b /\ pin b' id = pin b id - 1
    /\ (forall j, 0 <= j -> view b' j = view b j) /\ (forall j, 0 <= j -> j <> id -> pin b' j = pin b j)
    /\ length (pages_ b') = length (pages_ b).
Proof.
  intros Hb Hpin Hd. unfold UnpinPage. unfold pin in Hpin.
  destruct (page_table_ b !! id) as [f|] eqn:Hf; cbn [mbind option_bind] in Hpin; [|lia].
  destruct (pi_table _ _ _ Hb _ _ Hf) as (p & Ep & O). rewrite Ep in *.
  destruct (Z.leb_spec (pin_count_ p) 0); [lia|].
  set (p' := mkPage _ _ _ _ _). set (lru := if pin_count_ p - 1 =? 0 then _ else _). eexists. split; [done|].
  pose proof (proj2 (pi_nodup _ _ _ Hb)) as Hnd. destruct (LruPin_spec f _ Hnd) as (H1 & H2 & H3).
  pose proof (eo_lru _ _ _ _ _ O) as Hl.
  destruct (update_frame_view T None b id f p' lru (disk_ b) Hb Hf ltac:(done)) as (V1 & V2 & V3).
  split; [|split; [done|split; [done|split; [|split; [|split]]]]].
  - apply (update_frame_inv T (T ∖ {[id]}) b id); try done; try apply Hb.
    + intros j Hj. set_solver.
    + intros g Hg. unfold lru, RecordAccess. destruct (_ =? 0); [|done].
      rewrite elem_of_cons. unfold LruPin in H3. rewrite H3 by done. tauto.
    + unfold lru, RecordAccess. destruct (_ =? 0); [|done]. by constructor.
    + destruct O. split; cbn; try done; try lia.
      * unfold lru, RecordAccess. destruct (Z.eqb_spec (pin_count_ p - 1) 0) as [E|E].
        -- split; [left|lia].
        -- split; [lia|]. intros Hin. apply Hl in Hin. lia.
      * intros Hc _. apply orb_false_iff in Hc as [-> Hc]. apply eo_clean0; [done|]. by apply Hd.
      * intros [_ []]%elem_of_difference. by apply elem_of_singleton.
  - rewrite V2, (pin_resident b id f p) by done. done.
  - intros j H0. destruct (decide (j = id)) as [->|Hne]; [|by apply V3].
    rewrite V1, (view_resident b id f p) by done. done.
  - intros j H0 Hne. by apply V3.
  - cbn. apply length_insert.
Qed.

(** Writing through a pinned frame. *)
Lemma write_frame_resident T b id f data :
  pool_ok T b -> page_table_ b !! id = Some f -> 0 < pin b id -> Zlen data = kPageSize ->
  let b' := write_frame f data b in
  pool_ok ({[id]} ∪ T) b' /\ page_table_ b' = page_table_ b /\ pages_allocated b' = pages_allocated b
  /\ view b' id = data /\ (forall j, 0 <= j -> j <> id -> view b' j = view b j)
  /\ (forall j, 0 <= j -> pin b' j = pin b j) /\ length (pages_ b') = length (pages_ b).
Proof.
  intros Hb Hf Hpin Hlen b'. destruct (pi_table _ _ _ Hb _ _ Hf) as (p & Ep & O).
  rewrite (pin_resident _ _ _ _ Hf Ep) in Hpin.
  set (p' := mkPage data (p_page_id p) (pin_count_ p) (is_dirty_ p) (page_lsn_ p)).
  assert (b' = mkPool (<[f := p']> (pages_ b)) (page_table_ b) (free_list_ b) (lru_list_ b) (disk_ b)) as ->.
  { unfold b', write_frame. f_equal. apply list_eq. intros i. destruct (decide (i = f)) as [->|Hne].
    - rewrite list_lookup_alter_eq, Ep, list_lookup_insert_eq by (by eapply lookup_lt_Some). done.
    - by rewrite list_lookup_alter_ne, list_lookup_insert_ne. }
  destruct (update_frame_view T None b id f p' (lru_list_ b) (disk_ b) Hb Hf ltac:(done)) as (V1 & V2 & V3).
  split; [|split; [done|split; [done|split; [done|split; [|split]]]]].
  - apply (update_frame_inv T ({[id]} ∪ T) b id); try done; try apply Hb.
    + intros j Hj. set_solver.
    + destruct O. split; cbn; try done; try lia. intros _ Hn. set_solver.
  - intros j H0 Hne. by apply V3.
  - intros j H0. destruct (decide (j = id)) as [->|Hne]; [|by apply V3].
    rewrite V2. by rewrite (pin_resident b id f p).
  - cbn. apply length_insert.
Qed.

(** ** Taking a frame *)
Context `{!CryptoLaws C}.

Lemma Victim_spec l v l' : Victim l = Some (v, l') -> l = l' ++ [v].
Proof.
  unfold Victim. intros H. apply bind_Some in H as (x & Hx & [= <- <-]).
  apply last_Some in Hx as [l0 ->]. rewrite length_app. cbn [length].
  replace (length l0 + 1 - 1)%nat with (length l0) by lia. by rewrite take_app_length.
Qed.

(** The victim's write-back: the disk takes over what the frame held. *)
Lemma write_back T b id f page :
  pool_ok T b -> page_table_ b !! id = Some f -> pages_ b !! f = Some page -> id ∉ T ->
  let d := if is_dirty_ page then (WritePage (p_page_id page) (p_data page) (disk_ b)).2 else disk_ b in
  disk_ok d /\ next_page_id_ d = pages_allocated b /\ frame_view d id = p_data page
  /\ forall j, 0 <= j -> j <> id -> frame_view d j = frame_view (disk_ b) j.
Proof.
  intros Hb Hf Ep HT d. destruct (pi_table _ _ _ Hb _ _ Hf) as (p & Ep' & O). rewrite Ep in Ep'. injection Ep' as <-.
  pose proof (pi_disk _ _ _ Hb) as Hd. unfold d. destruct (is_dirty_ page) eqn:Edirty.
  - rewrite (eo_id _ _ _ _ _ O). pose proof (WritePage_view id (p_data page) (disk_ b) Hd) as H.
    destruct (WritePage id (p_data page) (disk_ b)) as [st d']. cbn [snd].
    destruct H as (_ & H1 & H2 & H3 & H4); [apply O|apply O|]. done.
  - split; [done|]. split; [done|]. split; [|done]. symmetry. by apply (eo_clean _ _ _ _ _ O).
Qed.

Lemma FindFree_spec T b f b1 :
  pool_ok T b -> FindFreeOrVictimFrame b = Some (f, b1) ->
  pool_inv T (Some f) b1 /\ pages_allocated b1 = pages_allocated b /\ pages_ b1 = pages_ b
  /\ (forall j, 0 <= j -> view b1 j = view b j) /\ (forall j, pin b1 j = pin b j)
  /\ (forall j, page_table_ b !! j = None -> page_table_ b1 !! j = None).
Proof.
  intros Hb. unfold FindFreeOrVictimFrame. destruct (free_list_ b) as [|f0 rest] eqn:Efree.
  - intros H. apply bind_Some in H as ([v lru] & Hv & H). apply bind_Some in H as (page & Ep & H).
    set (d := if is_dirty_ page then _ else _) in H. injection H as <- <-.
    apply Victim_spec in Hv. pose proof (pi_nodup _ _ _ Hb) as [_ Hnd]. rewrite Hv in Hnd.
    apply NoDup_app in Hnd as (Hnd & Hdis & _).
    assert (v ∉ lru) as Hvl by (intros Hin; apply (Hdis v Hin); set_solver).
    destruct (pi_lru _ _ _ Hb v) as [id Hid]; [rewrite Hv; set_solver|].
    destruct (pi_table _ _ _ Hb _ _ Hid) as (p & Ep' & O). rewrite Ep in Ep'. injection Ep' as <-.
    assert (pin_count_ page = 0) as Hpin by (apply O; rewrite Hv; set_solver).
    assert (id ∉ T) as HT by (intros Hin; apply (eo_touched _ _ _ _ _ O) in Hin; lia).
    pose proof (write_back T b id v page Hb Hid Ep HT) as (D1 & D2 & D3 & D4).
    fold d in D1, D2, D3, D4. rewrite (eo_id _ _ _ _ _ O).
    split; [|split; [by unfold pages_allocated|split; [done|split; [|split]]]].
    + split; cbn; try done.
      * unfold pages_allocated in *. cbn. rewrite D2. apply Hb.
      * intros j g Hj. apply lookup_delete_Some in Hj as [Hne Hj].
        destruct (pi_table _ _ _ Hb _ _ Hj) as (q & Eq & Q). exists q. split; [done|].
        assert (g <> v) as Hgv by (eapply other_frame; eauto).
        destruct Q. split; cbn; try done.
        -- unfold pages_allocated in *. cbn. by rewrite D2.
        -- apply not_elem_of_nil.
        -- rewrite eo_lru0, Hv, elem_of_app, list_elem_of_singleton. tauto.
        -- intros Hc Hn. rewrite D4 by (done || lia). auto.
      * intros j Hj. rewrite lookup_delete_ne by congruence. by apply (pi_touched _ _ _ Hb).
      * intros g Hg. by apply not_elem_of_nil in Hg.
      * intros g Hg. destruct (pi_lru _ _ _ Hb g) as [j Hj]; [rewrite Hv; set_solver|].
        exists j. rewrite lookup_delete_ne; [done|]. intros <-. congruence.
      * split; [constructor|done].
      * intros g Hg. destruct (pi_all _ _ _ Hb g Hg) as [Hin|[[j Hj]|]]; [|..|done].
        -- rewrite Efree in Hin. by apply not_elem_of_nil in Hin.
        -- right. destruct (decide (j = id)) as [->|Hne]; [right; congruence|left].
           exists j. by rewrite lookup_delete_ne.
      * intros g [= <-]. split; [by eapply lookup_lt_Some|]. split; [apply not_elem_of_nil|]. split; [done|].
        intros j Hj. apply lookup_delete_Some in Hj as [Hne Hj]. apply Hne. by eapply table_inj.
    + intros j H0. unfold view, frame_data. cbn [page_table_ pages_ disk_].
      destruct (decide (j = id)) as [->|Hne].
      * by rewrite lookup_delete_eq, D3, Hid, Ep.
      * rewrite lookup_delete_ne by done. destruct (page_table_ b !! j); [done|]. by apply D4.
    + intros j. unfold pin. cbn [page_table_ pages_]. destruct (decide (j = id)) as [->|Hne].
      * rewrite lookup_delete_eq, Hid. cbn [mbind option_bind]. by rewrite Ep.
      * by rewrite lookup_delete_ne.
    + intros j Hj. cbn. apply lookup_delete_None. by right.
  - intros [= <- <-]. split; [|done].
    pose proof (pi_nodup _ _ _ Hb) as [Hnd Hnl]. rewrite Efree in Hnd. apply NoDup_cons in Hnd as [Hn0 Hnd].
    assert (f0 ∈ free_list_ b) as Hf0 by (rewrite Efree; left).
    split; cbn; try apply Hb; try done.
    + intros j g Hj. destruct (pi_table _ _ _ Hb _ _ Hj) as (q & Eq & Q). exists q. split; [done|].
      destruct Q. split; cbn; try done. rewrite Efree in *. set_solver.
    + intros g Hg. apply Hb. rewrite Efree. set_solver.
    + intros g Hg. destruct (pi_all _ _ _ Hb g Hg) as [Hin|[Hj|]]; [|by auto|done].
      rewrite Efree in Hin. apply elem_of_cons in Hin as [->|]; auto.
    + intros g [= <-]. split; [by apply Hb|]. split; [done|]. split.
      * intros Hin. destruct (pi_lru _ _ _ Hb _ Hin) as [j Hj].
        destruct (pi_table _ _ _ Hb _ _ Hj) as (q & Eq & Q). by apply (eo_free _ _ _ _ _ Q).
      * intros j Hj. destruct (pi_table _ _ _ Hb _ _ Hj) as (q & Eq & Q). by apply (eo_free _ _ _ _ _ Q).
Qed.

(** ** Giving the frame a page *)
Lemma attach_inv T b f id page d :
  pool_inv T (Some f) b -> page_table_ b !! id = None -> disk_ok d ->
  pages_allocated b <= next_page_id_ d -> 0 <= id < next_page_id_ d ->
  (forall j, frame_view d j = frame_view (disk_ b) j) ->
  p_page_id page = id -> pin_count_ page = 1 -> Zlen (p_data page) = kPageSize ->
  (is_dirty_ page = false -> p_data page = frame_view d id) ->
  let b' := mkPool (<[f := page]> (pages_ b)) (<[id := f]> (page_table_ b)) (free_list_ b) (lru_list_ b) d in
  pool_ok T b' /\ view b' id = p_data page /\ pin b' id = 1
  /\ (forall j, 0 <= j -> j <> id -> view b' j = view b j /\ pin b' j = pin b j).
Proof.
  intros Hb Hnone Hd Hnext Hid Hview Epid Epin Hlen Hclean b'.
  destruct (pi_detached _ _ _ Hb f eq_refl) as (Hlt & Hnf & Hnl & Hnt).
  assert (forall j g, page_table_ b !! j = Some g -> g <> f) as Hgf by (intros j g Hj ->; by apply (Hnt j)).
  assert (id ∉ T) as HT by (intros Hin; destruct (pi_touched _ _ _ Hb _ Hin); congruence).
  assert (pages_ b' !! f = Some page) as Hp by (by apply list_lookup_insert_eq).
  assert (page_table_ b' !! id = Some f) as Ht by (by apply lookup_insert_eq).
  split; [|split; [by eapply view_resident|split; [by rewrite <- Epin; eapply pin_resident|]]].
  - split; cbn; try done.
    + unfold pages_allocated in *. cbn. pose proof (pi_next _ _ _ Hb). unfold pages_allocated in *. lia.
    + intros j g Hj. apply lookup_insert_Some in Hj as [[<- <-]|[Hne Hj]].
      * exists page. split; [done|]. split; cbn; try done; rewrite ?Epin; try lia; [by split|auto].
      * destruct (pi_table _ _ _ Hb _ _ Hj) as (q & Eq & Q). exists q.
        rewrite list_lookup_insert_ne by (intros E; eapply Hgf; eauto). split; [done|].
        destruct Q. split; cbn; try done.
        -- unfold pages_allocated in *. cbn. lia.
        -- rewrite Hview. done.
    + intros j Hj. rewrite lookup_insert_ne by congruence. by apply (pi_touched _ _ _ Hb).
    + rewrite length_insert. apply Hb.
    + intros g Hg. destruct (pi_lru _ _ _ Hb g Hg) as [j Hj]. exists j.
      by rewrite lookup_insert_ne by congruence.
    + apply Hb.
    + rewrite length_insert. intros g Hg. destruct (pi_all _ _ _ Hb g Hg) as [Hin|[[j Hj]|[= ->]]]; [by left|..].
      * right. left. exists j. by rewrite lookup_insert_ne by congruence.
      * right. left. exists id. by apply lookup_insert_eq.
  - intros j H0 Hne. unfold view, pin, frame_data, b'. cbn [page_table_ pages_ disk_].
    rewrite lookup_insert_ne by done. destruct (page_table_ b !! j) as [g|] eqn:Ej; cbn [mbind option_bind].
    + rewrite list_lookup_insert_ne by (intros E; eapply Hgf; eauto). done.
    + by rewrite Hview.
Qed.

(** ** Specifications of the operations *)
Definition pinned (b : BufferPool) : gset Z := filter (fun id => 0 < pin b id) (dom (page_table_ b)).

(** The operations that move no bytes a caller can see. *)
Record same_pages (b b' : BufferPool) : Prop := {
  sp_view : forall j, 0 <= j -> view b' j = view b j;
  sp_next : pages_allocated b' = pages_allocated b;
  sp_size : length (pages_ b') = length (pages_ b);
}.

(** When no frame is found, every frame holds a pinned page. *)
Lemma pool_exhausted T b :
  pool_ok T b -> FindFreeOrVictimFrame b = None -> (length (pages_ b) <= size (pinned b))%nat.
Proof.
  intros Hb H.
  assert (forall f, (f < length (pages_ b))%nat -> exists page, pages_ b !! f = Some page
            /\ page_table_ b !! p_page_id page = Some f /\ p_page_id page ∈ pinned b) as Hall.
  { intros f Hf. unfold FindFreeOrVictimFrame in H. destruct (free_list_ b) as [|] eqn:Ef; [|done].
    destruct (pi_all _ _ _ Hb f Hf) as [Hin|[[id Hid]|]]; [|..|done].
    { rewrite Ef in Hin. by apply not_elem_of_nil in Hin. }
    destruct (pi_table _ _ _ Hb _ _ Hid) as (page & Ep & O). exists page. split; [done|].
    rewrite (eo_id _ _ _ _ _ O). split; [done|]. unfold pinned. apply elem_of_filter.
    split; [|by apply elem_of_dom_2 in Hid]. rewrite (pin_resident _ _ _ _ Hid Ep).
    pose proof (eo_pin _ _ _ _ _ O). enough (pin_count_ page <> 0) by lia. intros Hz.
    apply (eo_lru _ _ _ _ _ O) in Hz. unfold Victim in H.
    destruct (last (lru_list_ b)) as [v|] eqn:El; cbn [mbind option_bind] in H.
    - apply last_Some in El as [l0 El]. destruct (pi_lru _ _ _ Hb v) as [j Hj]; [rewrite El; set_solver|].
      destruct (pi_table _ _ _ Hb _ _ Hj) as (q & Eq & _). by rewrite Eq in H.
    - apply last_None in El. rewrite El in Hz. by apply not_elem_of_nil in Hz. }
  rewrite <- (length_fmap p_page_id (pages_ b)).
  assert (NoDup (p_page_id <$> pages_ b)) as Hnd.
  { apply NoDup_alt. intros i j x Hi Hj. rewrite list_lookup_fmap in Hi, Hj.
    destruct (Hall i) as (p & Ep & Tp & _).
    { destruct (pages_ b !! i) eqn:E; [by eapply lookup_lt_Some|done]. }
    destruct (Hall j) as (q & Eq & Tq & _).
    { destruct (pages_ b !! j) eqn:E; [by eapply lookup_lt_Some|done]. }
    rewrite Ep in Hi. rewrite Eq in Hj. cbn in Hi, Hj. congruence. }
  rewrite <- (size_list_to_set (C := gset Z) _ Hnd). apply subseteq_size. intros x Hx.
  apply elem_of_list_to_set, list_elem_of_fmap in Hx as (page & -> & Hin).
  apply list_elem_of_lookup in Hin as [i Hi]. destruct (Hall i) as (p & Ep & _ & Hp); [by eapply lookup_lt_Some|].
  congruence.
Qed.

Lemma FetchPage_spec T b id :
  pool_ok T b -> 0 <= id < pages_allocated b -> (size (pinned b) < length (pages_ b))%nat ->
  exists f b', FetchPage id b = (Some f, b') /\ pool_ok T b' /\ same_pages b b'
    /\ page_table_ b' !! id = Some f /\ frame_data f b' = view b id
    /\ pin b' id = pin b id + 1 /\ (forall j, 0 <= j -> j <> id -> pin b' j = pin b j).
Proof.
  intros Hb Hid Hroom. destruct (page_table_ b !! id) as [f|] eqn:Hf.
  - destruct (fetch_resident T b id f Hb Hf) as (b' & E & H1 & H2 & H3 & H4 & H5 & H6 & H7).
    exists f, b'. split; [done|]. split; [done|]. split; [by split|]. rewrite H2. split; [done|].
    split; [|done]. rewrite <- H5 by lia. unfold view. by rewrite H2, Hf.
  - unfold FetchPage. rewrite Hf. destruct (FindFreeOrVictimFrame b) as [[f b1]|] eqn:E;
      [|apply (pool_exhausted T) in E; [lia|done]].
    destruct (FindFree_spec _ _ _ _ Hb E) as (H1 & H2 & H3 & H4 & H5 & H6).
    eexists f, _. split; [done|].
    destruct (attach_inv T b1 f id (mkPage (frame_view (disk_ b1) id) id 1 false (page_lsn_ ResetMemory)) (disk_ b1) H1
                (H6 id Hf)) as (A1 & A2 & A3 & A4); try done.
    { apply H1. } { unfold pages_allocated in *. lia. } { apply frame_view_length. }
    assert (view b id = frame_view (disk_ b1) id) as Hv.
    { rewrite <- H4 by lia. unfold view. by rewrite (H6 id Hf). }
    split; [done|]. split; [split|].
    + intros j H0. destruct (decide (j = id)) as [->|Hne]; [by rewrite A2, Hv|].
      destruct (A4 j H0 Hne) as [-> _]. by apply H4.
    + done.
    + cbn. by rewrite length_insert, H3.
    + split; [apply lookup_insert_eq|]. split.
      * rewrite Hv. unfold frame_data. cbn [pages_]. rewrite list_lookup_insert_eq; [done|].
        by apply (pi_detached _ _ _ H1).
      * split; [rewrite A3; unfold pin; by rewrite Hf|]. intros j H0 Hne.
        destruct (A4 j H0 Hne) as [_ ->]. apply H5.
Qed.

Lemma AllocatePage_id d : 0 <= next_page_id_ d < 2 ^ 31 ->
  AllocatePage d = (next_page_id_ d, mkDisk (d_file d) (next_page_id_ d + 1) (d_subkey d) (d_file_tag d)
                                       (encrypted_ d) (d_env d) (d_writes d)).
Proof.
  intros H. unfold AllocatePage, u32, u64. rewrite !to_signed_wrap; try done; unfold sfits.
  - change (2 ^ (64 - 1)) with (2 ^ 63). lia.
  - change (2 ^ (32 - 1)) with (2 ^ 31). lia.
Qed.

Lemma NewPage_spec T b :
  pool_ok T b -> pages_allocated b < 2 ^ 31 -> (size (pinned b) < length (pages_ b))%nat ->
  exists f b', NewPage b = (Some (f, pages_allocated b), b') /\ pool_ok T b'
    /\ pages_allocated b' = pages_allocated b + 1 /\ length (pages_ b') = length (pages_ b)
    /\ page_table_ b' !! pages_allocated b = Some f /\ frame_data f b' = zero_page
    /\ view b' (pages_allocated b) = zero_page /\ pin b' (pages_allocated b) = 1
    /\ (forall j, 0 <= j -> j <> pages_allocated b -> view b' j = view b j /\ pin b' j = pin b j).
Proof.
  intros Hb Hmax Hroom. unfold NewPage. destruct (FindFreeOrVictimFrame b) as [[f b1]|] eqn:E;
    [|apply (pool_exhausted T) in E; [lia|done]].
  destruct (FindFree_spec _ _ _ _ Hb E) as (H1 & H2 & H3 & H4 & H5 & H6).
  pose proof (pi_next _ _ _ Hb) as H0. unfold pages_allocated in H2.
  rewrite AllocatePage_id by (rewrite H2; unfold pages_allocated in *; lia). rewrite H2.
  assert (page_table_ b !! next_page_id_ (disk_ b) = None) as Hnone.
  { destruct (page_table_ b !! _) as [g|] eqn:Eg; [|done]. destruct (pi_table _ _ _ Hb _ _ Eg) as (q & _ & Q).
    pose proof (eo_range _ _ _ _ _ Q). unfold pages_allocated in *. lia. }
  eexists f, _. split; [done|].
  destruct (attach_inv T b1 f (next_page_id_ (disk_ b)) (mkPage zero_page (next_page_id_ (disk_ b)) 1 true (page_lsn_ ResetMemory))
              (mkDisk (d_file (disk_ b1)) (next_page_id_ (disk_ b) + 1) (d_subkey (disk_ b1))
                 (d_file_tag (disk_ b1)) (encrypted_ (disk_ b1)) (d_env (disk_ b1)) (d_writes (disk_ b1)))
              H1 (H6 _ Hnone)) as (A1 & A2 & A3 & A4); try done.
  { destruct (pi_disk _ _ _ H1). by split. } { unfold pages_allocated in *. cbn. lia. }
  { unfold pages_allocated in *. cbn. lia. }
  split; [done|]. split; [done|]. split; [cbn; by rewrite length_insert, H3|].
  split; [apply lookup_insert_eq|]. split.
  { unfold frame_data. cbn [pages_]. rewrite list_lookup_insert_eq; [done|]. by apply (pi_detached _ _ _ H1). }
  split; [done|]. split; [done|]. intros j Hj Hne. destruct (A4 j Hj Hne) as [-> ->].
  split; [by apply H4|apply H5].
Qed.
End BufferPool.
