(* ===== verification/BufferPoolProps.v ===== *)
(** * The buffer pool refines an array of pages

    Brackets (fetch, use, unpin) on a pool without outstanding pins; any run of
    them gives the results of the same run on a list of pages, whatever the pool
    size and the evictions in between; flushing leaves every page on disk.  Where
    I/O fails the pool does not notice: two theorems record what is lost. *)
From S2P Require Import Prelude Bytes AtRest AtRestFiles DiskManager BufferPool.
Local Open Scope Z_scope.

Section Brackets.
Context `{C : Crypto}.

(** No page is pinned and no write undeclared; there is at least one frame. *)
Record quiet (b : BufferPool) : Prop := {
  q_ok : pool_ok ∅ b;
  q_pins : forall j, 0 <= j -> pin b j = 0;
  q_frames : (0 < length (pages_ b))%nat;
}.

Context `{!CryptoLaws C}.

Lemma quiet_room b : quiet b -> (size (pinned b) < length (pages_ b))%nat.
Proof.
  intros [Hok Hp Hf]. enough (pinned b = ∅) as -> by (by rewrite size_empty).
  apply set_eq. intros id. unfold pinned. rewrite elem_of_filter, elem_of_empty. split; [|done].
  intros [Hpin Hd]. apply elem_of_dom in Hd as [f Hf']. destruct (pi_table _ _ _ Hok _ _ Hf') as (p & _ & O).
  rewrite Hp in Hpin by apply O. lia.
Qed.

Lemma empty_diff (x : Z) : (∅ : gset Z) ∖ {[x]} = ∅.
Proof. set_solver. Qed.

(** Unpinning the one pinned page makes the pool quiet again. *)
Lemma unpin_quiet T b id dirty :
  pool_ok T b -> T ⊆ {[id]} -> 0 <= id -> pin b id = 1 -> (forall j, 0 <= j -> j <> id -> pin b j = 0) ->
  (dirty = false -> T = ∅) -> (0 < length (pages_ b))%nat ->
  exists b', UnpinPage id dirty b = (true, b') /\ quiet b' /\ same_pages b b'.
Proof.
  intros Hb HT Hid Hpin Hothers Hd Hlen.
  destruct (unpin_resident T b id dirty Hb) as (b' & E & H1 & H2 & H3 & H4 & H5 & H6 & H7);
    [lia|intros ->; rewrite Hd by done; apply not_elem_of_empty|].
  exists b'. split; [done|]. split; [|by split].
  assert (T ∖ {[id]} = ∅) as HE by (apply set_eq; set_solver). rewrite HE in H1. split; [done| |by rewrite H7].
  intros j Hj. destruct (decide (j = id)) as [->|Hne]; [lia|]. rewrite H6 by done. by apply Hothers.
Qed.

(** Fetch, look, unpin. *)
Lemma read_bracket b id :
  quiet b -> 0 <= id < pages_allocated b ->
  exists f b1 b2, FetchPage id b = (Some f, b1) /\ frame_data f b1 = view b id
    /\ UnpinPage id false b1 = (true, b2) /\ quiet b2 /\ same_pages b b2.
Proof.
  intros Hq Hid. pose proof Hq as [Hok Hp Hl].
  destruct (FetchPage_spec ∅ b id Hok Hid (quiet_room b Hq)) as (f & b1 & E & H1 & [V N S] & _ & H3 & H4 & H5).
  destruct (unpin_quiet ∅ b1 id false H1) as (b2 & E2 & Q2 & [V2 N2 S2]); try done; try lia.
  { rewrite H4, Hp by lia. done. } { intros j H0 Hne. rewrite H5 by done. by apply Hp. }
  exists f, b1, b2. do 4 (split; [done|]). split; [|congruence..].
  intros j H0. rewrite V2 by done. by apply V.
Qed.

(** Fetch, overwrite, unpin dirty. *)
Lemma update_bracket b id :
  quiet b -> 0 <= id < pages_allocated b ->
  exists f b1, FetchPage id b = (Some f, b1) /\ frame_data f b1 = view b id
    /\ forall data, Zlen data = kPageSize ->
       exists b2, UnpinPage id true (write_frame f data b1) = (true, b2) /\ quiet b2
         /\ pages_allocated b2 = pages_allocated b /\ length (pages_ b2) = length (pages_ b)
         /\ view b2 id = data /\ (forall j, 0 <= j -> j <> id -> view b2 j = view b j).
Proof.
  intros Hq Hid. pose proof Hq as [Hok Hp Hl].
  destruct (FetchPage_spec ∅ b id Hok Hid (quiet_room b Hq)) as (f & b1 & E & H1 & [V N S] & H2 & H3 & H4 & H5).
  exists f, b1. split; [done|]. split; [done|]. intros data Hlen.
  destruct (write_frame_resident ∅ b1 id f data H1 H2) as (W1 & W2 & W3 & W4 & W5 & W6 & W7);
    [rewrite H4, Hp by lia; lia|done|].
  destruct (unpin_quiet ({[id]} ∪ ∅) (write_frame f data b1) id true W1) as (b2 & E2 & Q2 & [V2 N2 S2]); try done.
  { set_solver. } { lia. } { rewrite W6, H4, Hp by lia. done. }
  { intros j H0 Hne. rewrite W6, H5 by done. by apply Hp. } { lia. }
  exists b2. split; [done|]. split; [done|]. split; [congruence|]. split; [congruence|].
  split; [by rewrite V2 by lia|]. intros j H0 Hne. rewrite V2, W5 by done. by apply V.
Qed.

(** Allocate, fill, unpin. *)
Lemma new_bracket b :
  quiet b -> pages_allocated b < 2 ^ 31 ->
  exists f b1, NewPage b = (Some (f, pages_allocated b), b1) /\ frame_data f b1 = zero_page
    /\ forall data, Zlen data = kPageSize ->
       exists b2, UnpinPage (pages_allocated b) true (write_frame f data b1) = (true, b2) /\ quiet b2
         /\ pages_allocated b2 = pages_allocated b + 1 /\ length (pages_ b2) = length (pages_ b)
         /\ view b2 (pages_allocated b) = data
         /\ (forall j, 0 <= j -> j <> pages_allocated b -> view b2 j = view b j).
Proof.
  intros Hq Hmax. pose proof Hq as [Hok Hp Hl]. pose proof (pi_next _ _ _ Hok) as Hn0.
  destruct (NewPage_spec ∅ b Hok Hmax (quiet_room b Hq)) as (f & b1 & E & H1 & N & S & H2 & H3 & _ & H4 & H5).
  set (id := pages_allocated b) in *.
  exists f, b1. split; [done|]. split; [done|]. intros data Hlen.
  destruct (write_frame_resident ∅ b1 id f data H1 H2) as (W1 & W2 & W3 & W4 & W5 & W6 & W7); [lia|done|].
  destruct (unpin_quiet ({[id]} ∪ ∅) (write_frame f data b1) id true W1) as (b2 & E2 & Q2 & [V2 N2 S2]); try done.
  { set_solver. } { by rewrite W6, H4. }
  { intros j H0 Hne. rewrite W6 by done. destruct (H5 j H0 Hne) as [_ ->]. by apply Hp. } { lia. }
  exists b2. split; [done|]. split; [done|]. split; [congruence|]. split; [congruence|].
  split; [by rewrite V2|]. intros j H0 Hne. rewrite V2, W5 by done. by apply H5.
Qed.

(** ** Flushing *)
Definition dirty (b : BufferPool) (f : nat) : bool :=
  match pages_ b !! f with Some page => is_dirty_ page | None => false end.

Lemma flush_entry_spec T b id f :
  pool_ok T b -> page_table_ b !! id = Some f -> id ∉ T ->
  let b' := flush_entry b (id, f) in
  pool_ok T b' /\ same_pages b b' /\ page_table_ b' = page_table_ b /\ (forall j, 0 <= j -> pin b' j = pin b j)
  /\ dirty b' f = false /\ (forall g, dirty b g = false -> dirty b' g = false).
Proof.
  intros Hb Hf HT b'. unfold b', flush_entry. cbn [fst snd].
  destruct (pi_table _ _ _ Hb _ _ Hf) as (page & Ep & O). rewrite Ep.
  destruct (is_dirty_ page) eqn:Ed.
  - pose proof (eo_range _ _ _ _ _ O) as Hr.
    pose proof (write_back T b id f page Hb Hf Ep HT) as (D1 & D2 & D3 & D4). rewrite Ed in D1, D2, D3, D4.
    rewrite (eo_id _ _ _ _ _ O) in D1, D2, D3, D4.
    set (d := (WritePage id (p_data page) (disk_ b)).2) in *.
    destruct (update_frame_view T None b id f (clean page) (lru_list_ b) d Hb Hf D4) as (V1 & V2 & V3).
    pose proof (lookup_lt_Some _ _ _ Ep) as Hlt.
    split; [|split; [split|split; [done|split; [|split]]]].
    + apply (update_frame_inv T T b id); try done; try apply Hb. destruct O. split; cbn; try done.
      unfold pages_allocated in *. cbn. by rewrite D2.
    + intros j H0. destruct (decide (j = id)) as [->|Hne]; [|by apply V3].
      by rewrite V1, (view_resident b id f page).
    + done.
    + cbn. apply length_insert.
    + intros j H0. destruct (decide (j = id)) as [->|Hne]; [|by apply V3].
      by rewrite V2, (pin_resident b id f page).
    + unfold dirty. cbn [pages_]. by rewrite list_lookup_insert_eq.
    + intros g Hg. unfold dirty in *. cbn [pages_]. destruct (decide (g = f)) as [->|Hne].
      * by rewrite list_lookup_insert_eq.
      * by rewrite list_lookup_insert_ne.
  - split; [done|]. split; [done|]. split; [done|]. split; [done|]. split; [|done].
    unfold dirty. by rewrite Ep, Ed.
Qed.

Lemma flush_fold l b :
  pool_ok ∅ b -> (forall e, e ∈ l -> page_table_ b !! e.1 = Some e.2) ->
  let b' := fold_left flush_entry l b in
  pool_ok ∅ b' /\ same_pages b b' /\ page_table_ b' = page_table_ b /\ (forall j, 0 <= j -> pin b' j = pin b j)
  /\ (forall e, e ∈ l -> dirty b' e.2 = false) /\ (forall g, dirty b g = false -> dirty b' g = false).
Proof.
  revert b. induction l as [|[id f] l IH]; intros b Hb Hl; cbn [fold_left].
  - split; [done|]. split; [done|]. split; [done|]. split; [done|]. split; [|done].
    intros e He. by apply not_elem_of_nil in He.
  - destruct (flush_entry_spec ∅ b id f Hb) as (H1 & [V1 N1 S1] & H3 & H4 & H5 & H6);
      [apply (Hl (id, f)); left|apply not_elem_of_empty|].
    destruct (IH (flush_entry b (id, f)) H1) as (I1 & [V2 N2 S2] & I3 & I4 & I5 & I6).
    { intros e He. rewrite H3. apply Hl. by right. }
    split; [done|]. split; [split|split; [congruence|split; [|split]]].
    + intros j H0. rewrite V2 by done. by apply V1.
    + congruence.
    + congruence.
    + intros j H0. rewrite I4 by done. by apply H4.
    + intros e He. apply elem_of_cons in He as [->|He]; [by apply I6|by apply I5].
    + intros g Hg. by apply I6, H6.
Qed.

Lemma FlushAllPages_spec b :
  pool_ok ∅ b ->
  let b' := FlushAllPages b in
  pool_ok ∅ b' /\ same_pages b b' /\ (forall j, 0 <= j -> pin b' j = pin b j)
  /\ forall id, 0 <= id -> frame_view (disk_ b') id = view b id.
Proof.
  intros Hb. destruct (flush_fold (map_to_list (page_table_ b)) b Hb) as (H1 & H2 & H3 & H4 & H5 & _).
  { intros [id f] He. by apply elem_of_map_to_list in He. }
  fold (FlushAllPages b) in *. split; [done|]. split; [done|]. split; [done|]. intros id Hid.
  rewrite <- (sp_view _ _ H2) by done. unfold view. rewrite H3.
  destruct (page_table_ b !! id) as [f|] eqn:Hf; [|done].
  rewrite <- H3 in Hf. destruct (pi_table _ _ _ H1 _ _ Hf) as (page & Ep & O). unfold frame_data. rewrite Ep.
  symmetry. apply (eo_clean _ _ _ _ _ O); [|apply not_elem_of_empty].
  rewrite H3 in Hf. specialize (H5 (id, f)). unfold dirty in H5. cbn [snd] in H5. rewrite Ep in H5. apply H5.
  by apply elem_of_map_to_list.
Qed.

(** ** Runs of brackets against a list of pages *)
Inductive pool_cmd :=
  | CNew (data : bytes)                     (* NewPage, fill, UnpinPage *)
  | CRead (id : Z)                          (* FetchPage, copy, UnpinPage *)
  | CWrite (id : Z) (g : bytes -> bytes)    (* FetchPage, overwrite, UnpinPage *)
  | CFlush (id : Z)
  | CFlushAll.

Inductive pool_out := ONew (id : Z) | ORead (data : bytes) | ODone.

(** [None]: a null frame or a failed unpin. *)
Definition run_cmd (c : pool_cmd) (b : BufferPool) : option (pool_out * BufferPool) :=
  match c with
  | CNew data =>
      match NewPage b with
      | (Some (f, id), b1) =>
          let '(ok, b2) := UnpinPage id true (write_frame f data b1) in
          if (ok : bool) then Some (ONew id, b2) else None
      | (None, _) => None
      end
  | CRead id =>
      match FetchPage id b with
      | (Some f, b1) => let '(ok, b2) := UnpinPage id false b1 in
                        if (ok : bool) then Some (ORead (frame_data f b1), b2) else None
      | (None, _) => None
      end
  | CWrite id g =>
      match FetchPage id b with
      | (Some f, b1) => let '(ok, b2) := UnpinPage id true (write_frame f (g (frame_data f b1)) b1) in
                        if (ok : bool) then Some (ODone, b2) else None
      | (None, _) => None
      end
  | CFlush id => Some (ODone, (FlushPage id b).2)
  | CFlushAll => Some (ODone, FlushAllPages b)
  end.

Fixpoint run_cmds (cs : list pool_cmd) (b : BufferPool) : option (list pool_out * BufferPool) :=
  match cs with
  | [] => Some ([], b)
  | c :: cs' => '(o, b1) ← run_cmd c b; '(os, b2) ← run_cmds cs' b1; Some (o :: os, b2)
  end.

Definition spec_cmd (c : pool_cmd) (l : list bytes) : pool_out * list bytes :=
  match c with
  | CNew data => (ONew (Zlen l), l ++ [data])
  | CRead id => (ORead (default [] (l !! Z.to_nat id)), l)
  | CWrite id g => (ODone, alter g (Z.to_nat id) l)
  | CFlush _ | CFlushAll => (ODone, l)
  end.

Fixpoint spec_cmds (cs : list pool_cmd) (l : list bytes) : list pool_out * list bytes :=
  match cs with
  | [] => ([], l)
  | c :: cs' => let '(o, l1) := spec_cmd c l in let '(os, l2) := spec_cmds cs' l1 in (o :: os, l2)
  end.

(** Commands name existing pages and keep the page size. *)
Definition cmd_ok (n : Z) (c : pool_cmd) : Prop :=
  match c with
  | CNew data => Zlen data = kPageSize
  | CRead id => 0 <= id < n
  | CWrite id g => 0 <= id < n /\ forall p, Zlen p = kPageSize -> Zlen (g p) = kPageSize
  | CFlush _ | CFlushAll => True
  end.

Fixpoint cmds_ok (n : Z) (cs : list pool_cmd) : Prop :=
  match cs with
  | [] => n <= 2 ^ 31
  | c :: cs' => cmd_ok n c /\ cmds_ok (match c with CNew _ => n + 1 | _ => n end) cs'
  end.

Lemma cmds_ok_bound cs n : cmds_ok n cs -> n <= 2 ^ 31.
Proof.
  revert n. induction cs as [|c cs IH]; intros n; cbn [cmds_ok]; [done|]. intros [_ H%IH].
  destruct c; lia.
Qed.

Record refines (b : BufferPool) (l : list bytes) : Prop := {
  rf_quiet : quiet b;
  rf_count : pages_allocated b = Zlen l;
  rf_pages : forall i p, l !! i = Some p -> view b (Z.of_nat i) = p;
}.

Lemma FlushPage_spec b id : quiet b -> let b' := (FlushPage id b).2 in quiet b' /\ same_pages b b'.
Proof.
  intros Hq. unfold FlushPage. destruct (page_table_ b !! id) as [f|] eqn:Hf; [|done].
  destruct (pi_table _ _ _ (q_ok _ Hq) _ _ Hf) as (page & Ep & O). rewrite Ep. cbn [snd].
  pose proof (flush_entry_spec ∅ b id f (q_ok _ Hq) Hf (not_elem_of_empty _)) as H. unfold flush_entry in H.
  cbn [fst snd] in H. rewrite Ep in H. destruct (is_dirty_ page) eqn:Ed.
  - destruct H as (H1 & H2 & H3 & H4 & _). split; [|done]. split; [done| |cbn; rewrite length_insert; apply (q_frames _ Hq)].
    intros j H0. rewrite H4 by done. by apply Hq.
  - (* a clean page is written as well: the same bytes *)
    clear H. pose proof (pi_disk _ _ _ (q_ok _ Hq)) as Hd. pose proof (eo_range _ _ _ _ _ O) as Hr.
    pose proof (WritePage_view id (p_data page) (disk_ b) Hd) as H.
    destruct (WritePage id (p_data page) (disk_ b)) as [st d]. cbn [snd].
    destruct H as (_ & H1 & H2 & H3 & H4); [lia|apply O|].
    destruct (update_frame_view ∅ None b id f (clean page) (lru_list_ b) d (q_ok _ Hq) Hf H4) as (V1 & V2 & V3).
    assert (pool_ok ∅ (mkPool (<[f:=clean page]> (pages_ b)) (page_table_ b) (free_list_ b) (lru_list_ b) d)) as Hok.
    { apply (update_frame_inv ∅ ∅ b id); try done; try apply Hq. destruct O. split; cbn; try done.
      unfold pages_allocated in *. cbn. by rewrite H2. }
    split; [split; [done| |cbn; rewrite length_insert; apply (q_frames _ Hq)]|split; [|done|cbn; apply length_insert]].
    + intros j H0. destruct (decide (j = id)) as [->|Hne].
      * rewrite V2. rewrite <- (q_pins _ Hq id) by done. by rewrite (pin_resident b id f page).
      * destruct (V3 j H0 Hne) as [_ ->]. by apply Hq.
    + intros j H0. destruct (decide (j = id)) as [->|Hne]; [|by apply V3].
      by rewrite V1, (view_resident b id f page).
Qed.

Lemma refines_same b b' l : same_pages b b' -> quiet b' -> refines b l -> refines b' l.
Proof.
  intros [V N S] Hq' [Hq Hc Hv]. split; [done|congruence|]. intros i p Hi. rewrite V by lia. by apply Hv.
Qed.

Lemma run_cmd_refines c b l :
  refines b l -> cmd_ok (Zlen l) c -> Zlen l < 2 ^ 31 \/ (forall d, c <> CNew d) ->
  exists b', run_cmd c b = Some ((spec_cmd c l).1, b') /\ refines b' (spec_cmd c l).2.
Proof.
  intros Hr Hc Hmax. pose proof Hr as [Hq Hn Hv]. destruct c as [data|id|id g|id|]; cbn [run_cmd spec_cmd cmd_ok fst snd] in *.
  - destruct (new_bracket b Hq) as (f & b1 & E & _ & H); [destruct Hmax as [|Hm]; [lia|by destruct (Hm data)]|].
    destruct (H data Hc) as (b2 & E2 & Q2 & N2 & _ & V2 & V3). rewrite E, E2, Hn. exists b2. split; [done|].
    split; [done|rewrite Zlen_app, N2, Hn; done|]. intros i p Hi. apply lookup_app_Some in Hi as [Hi|[Hge Hi]].
    + apply lookup_lt_Some in Hi as Hlt. rewrite V3; [by apply Hv|lia|]. unfold Zlen in Hn. lia.
    + apply list_lookup_singleton_Some in Hi as [Hi <-]. rewrite <- V2. f_equal. unfold Zlen in Hn. lia.
  - destruct (read_bracket b id Hq) as (f & b1 & b2 & E & D & E2 & Q2 & S2); [by rewrite Hn|].
    rewrite E, E2, D. exists b2. split; [|by eapply refines_same].
    destruct (lookup_lt_is_Some_2 l (Z.to_nat id)) as [p Hp]; [unfold Zlen in Hc; lia|].
    rewrite Hp. cbn. specialize (Hv _ _ Hp). rewrite Z2Nat.id in Hv by lia. by rewrite Hv.
  - destruct Hc as [Hid Hg]. destruct (update_bracket b id Hq) as (f & b1 & E & D & H); [by rewrite Hn|].
    rewrite E, D. destruct (H (g (view b id))) as (b2 & E2 & Q2 & N2 & _ & V2 & V3).
    { apply Hg. eapply view_length. apply Hq. }
    rewrite E2. exists b2. split; [done|]. split; [done|unfold Zlen; rewrite length_alter, N2, Hn; done|].
    intros i p Hi. destruct (decide (i = Z.to_nat id)) as [->|Hne].
    + rewrite list_lookup_alter_eq in Hi. apply fmap_Some in Hi as (q & Hq' & ->). rewrite Z2Nat.id by lia.
      specialize (Hv _ _ Hq'). rewrite Z2Nat.id in Hv by lia. by rewrite V2, Hv.
    + rewrite list_lookup_alter_ne in Hi by done. rewrite V3 by lia. by apply Hv.
  - eexists. split; [done|]. destruct (FlushPage_spec b id Hq). by eapply refines_same.
  - eexists. split; [done|]. destruct (FlushAllPages_spec b (q_ok _ Hq)) as (H1 & H2 & H3 & _).
    eapply refines_same; [done| |done]. split; [done| |rewrite (sp_size _ _ H2); apply (q_frames _ Hq)].
    intros j H0. rewrite H3 by done. by apply Hq.
Qed.

Lemma run_cmds_refines cs b l :
  refines b l -> cmds_ok (Zlen l) cs ->
  exists b', run_cmds cs b = Some ((spec_cmds cs l).1, b') /\ refines b' (spec_cmds cs l).2.
Proof.
  revert b l. induction cs as [|c cs IH]; intros b l Hr Hok; [by exists b|]. cbn [cmds_ok] in Hok.
  destruct Hok as [Hc Hcs]. destruct (run_cmd_refines c b l Hr Hc) as (b1 & E1 & R1).
  { apply cmds_ok_bound in Hcs. destruct c; [left; lia|right; done..]. }
  assert (Zlen (spec_cmd c l).2 = match c with CNew _ => Zlen l + 1 | _ => Zlen l end) as Hl.
  { destruct c; cbn [spec_cmd snd]; try done; [by rewrite Zlen_app|]. unfold Zlen. by rewrite length_alter. }
  rewrite <- Hl in Hcs. destruct (IH b1 _ R1 Hcs) as (b2 & E2 & R2). exists b2.
  cbn [run_cmds spec_cmds]. rewrite E1. cbn [mbind option_bind]. rewrite E2. cbn [mbind option_bind].
  destruct (spec_cmd c l) as [o l1]. cbn [fst snd] in *. by destruct (spec_cmds cs l1).
Qed.

Lemma new_pool_refines n d : disk_ok d -> next_page_id_ d = 0 -> (0 < n)%nat -> refines (new_pool n d) [].
Proof.
  intros Hd Hn Hpos. split; [split|done|done].
  - apply new_pool_ok; [done|lia].
  - done.
  - cbn. by rewrite length_replicate.
Qed.

(** C16: a buffer pool of at least one frame over an empty healthy file behaves like an
    array of pages: any run of allocations, reads, writes and flushes, each page unpinned as
    it was fetched, every id allocated before and at most 2^31 of them, gives the results of
    the same run on the list, through all evictions, plain or sealed, and never runs out of
    frames; after a final flush the file itself holds the list. Healthy: every page write
    succeeds and, in a sealed file, a slot of zeroes does not pass as a page. *)
Theorem buffer_pool_refines n d cs :
  (0 < n)%nat -> disk_ok d -> next_page_id_ d = 0 -> cmds_ok 0 cs ->
  exists b, run_cmds cs (new_pool n d) = Some ((spec_cmds cs []).1, b)
    /\ forall i p, (spec_cmds cs []).2 !! i = Some p ->
         view b (Z.of_nat i) = p /\ frame_view (disk_ (FlushAllPages b)) (Z.of_nat i) = p.
Proof.
  intros Hn Hd Hnext Hok.
  destruct (run_cmds_refines cs (new_pool n d) []) as (b & E & R); [by apply new_pool_refines|done|].
  exists b. split; [done|]. intros i p Hi. pose proof (rf_pages _ _ R i p Hi) as Hv.
  split; [done|]. destruct (FlushAllPages_spec b (q_ok _ (rf_quiet _ _ R))) as (_ & _ & _ & H). by rewrite H by lia.
Qed.
End Brackets.

(** ** I/O failures the pool does not report *)
Section Failures.
Context `{C : Crypto}.

(** The pool drops the status of its reads: fetching a page that fails
    authentication succeeds and hands out a zeroed page, although the disk manager
    reports Corruption so that this never happens. *)
Theorem fetch_hides_corruption b id c :
  page_table_ b !! id = None -> ReadPage id (disk_ b) = Fault c -> free_list_ b <> [] ->
  exists f b', FetchPage id b = (Some f, b')
    /\ forall page, pages_ b' !! f = Some page -> p_data page = zero_page.
Proof.
  intros Hn Hr Hf. unfold FetchPage, FindFreeOrVictimFrame. rewrite Hn.
  destruct (free_list_ b) as [|f rest]; [done|]. eexists f, _. split; [done|]. cbn [pages_ disk_].
  intros page Hp. apply list_lookup_insert_Some in Hp as [(_ & <- & _)|[? _]]; [|done].
  unfold frame_view. cbn [p_data]. by rewrite Hr.
Qed.

(** The pool drops the status of its write-backs: when the write of a dirty victim
    fails before any byte, the page is out of the table and its bytes are nowhere. *)
Theorem eviction_loses_page b id v page lru :
  free_list_ b = [] -> Victim (lru_list_ b) = Some (v, lru) -> pages_ b !! v = Some page ->
  p_page_id page = id -> 0 <= id -> is_dirty_ page = true -> encrypted_ (disk_ b) = false ->
  we_io (d_env (disk_ b) (d_writes (disk_ b))) = Some O ->
  Zlen (d_file (disk_ b)) = Z.of_nat (Z.to_nat id * stride_of false) ->
  exists b', FindFreeOrVictimFrame b = Some (v, b') /\ page_table_ b' !! id = None
    /\ view b' id = zero_page.
Proof.
  intros Hfree Hv Hp Hid H0 Hdirty He Hio Hlen. unfold FindFreeOrVictimFrame. rewrite Hfree, Hv.
  cbn [mbind option_bind]. rewrite Hp. cbn [mbind option_bind]. rewrite Hdirty, Hid. eexists. split; [done|]. cbn [page_table_].
  split; [apply lookup_delete_eq|]. unfold view. cbn [page_table_ disk_]. rewrite lookup_delete_eq.
  unfold WritePage. rewrite He. cbn [negb]. unfold put_block. rewrite He, Hio, (proj2 (Z.ltb_ge _ _) H0).
  cbn [snd]. rewrite frame_view_block by done. cbn [encrypted_ d_file d_subkey d_file_tag]. unfold view_of.
  cbn [negb]. unfold Zlen in Hlen. unfold block, file_write. rewrite take_0. cbn [app length].
  rewrite Nat.add_0_r.
  assert (length (d_file (disk_ b)) = Z.to_nat id * stride_of false)%nat as Hl by lia.
  rewrite Hl, Nat.sub_diag. cbn [zeros replicate]. rewrite app_nil_r.
  rewrite (take_ge (d_file (disk_ b))), (drop_ge (d_file (disk_ b))) by (rewrite Hl; done).
  rewrite app_nil_r, drop_ge by (rewrite Hl; done).
  rewrite take_nil. cbn [app length]. by rewrite Nat.sub_0_r.
Qed.
End Failures.

(** ** Witnesses *)

(** An authenticated cipher that rejects a gap of zeros. *)
Definition tagged_crypto : Crypto := {|
  Sha256 := @Sha256 toy_crypto;
  AesGcmSeal k n p a := OK (p ++ replicate kPageTagLen Byte.x01);
  AesGcmOpen k n c a :=
    let m := (length c - kPageTagLen)%nat in
    if bool_decide (drop m c = replicate kPageTagLen Byte.x01) then Some (take m c) else None;
  HkdfSha256 := @HkdfSha256 toy_crypto;
|}.

#[export] Instance tagged_crypto_laws : CryptoLaws tagged_crypto.
Proof.
  split.
  - apply (sha_length (C := toy_crypto)).
  - intros k n p a c H. assert (c = p ++ replicate kPageTagLen Byte.x01) as -> by (by injection H).
    cbn [AesGcmOpen tagged_crypto]. rewrite length_app, length_replicate, Nat.add_sub.
    rewrite drop_app_length, take_app_length. by rewrite bool_decide_eq_true_2.
  - intros k n p a c H. assert (c = p ++ replicate kPageTagLen Byte.x01) as -> by (by injection H).
    by rewrite length_app, length_replicate.
  - intros k n p a _ _. by eexists.
  - apply (hkdf_length (C := toy_crypto)).
Qed.

Definition good_env : nat -> write_env := fun _ => mkWriteEnv (replicate kPageNonceLen Byte.x05) None.
Definition sealed_disk : DiskManager :=
  mkDisk [] 0 (replicate 32 Byte.x09) (bs "tag") true good_env 0.

Lemma sealed_disk_ok : @disk_ok tagged_crypto sealed_disk.
Proof.
  split; [by exists 0%nat| |done]. intros _. split; [done|]. intros id c. unfold OpenPage.
  cbn [negb]. change (Zlen (d_subkey sealed_disk) =? kDekLen) with true. cbn [negb AesGcmOpen tagged_crypto].
  rewrite bool_decide_eq_false_2; [done|]. vm_compute. done.
Qed.

Definition page_a : bytes := replicate (Z.to_nat kPageSize) Byte.x41.
Definition page_b : bytes := replicate (Z.to_nat kPageSize) Byte.x42.

Definition sample_cmds : list pool_cmd :=
  [CNew page_a; CNew page_b; CRead 0; CWrite 1 (fun _ => page_a); CFlushAll; CRead 1].

Lemma page_a_len : Zlen page_a = kPageSize.
Proof. vm_compute. done. Qed.

Lemma buffer_pool_refines_witness :
  exists b, @run_cmds tagged_crypto sample_cmds (new_pool 1 sealed_disk) = Some ((spec_cmds sample_cmds []).1, b)
    /\ forall i p, (spec_cmds sample_cmds []).2 !! i = Some p ->
         @view tagged_crypto b (Z.of_nat i) = p
         /\ @frame_view tagged_crypto (disk_ (@FlushAllPages tagged_crypto b)) (Z.of_nat i) = p.
Proof.
  apply (buffer_pool_refines (C := tagged_crypto)); [lia|apply sealed_disk_ok|done|].
  cbn -[page_a page_b]. pose proof page_a_len. repeat split; try lia; try done.
Defined.

(** A page whose tag does not authenticate. *)
Definition tampered : BufferPool :=
  new_pool 2 (mkDisk (zeros (Z.to_nat kSealedPageSize)) 1 (replicate 32 Byte.x09) (bs "tag") true good_env 0).

Lemma fetch_hides_corruption_witness :
  exists f b', @FetchPage tagged_crypto 0 tampered = (Some f, b')
    /\ forall page, pages_ b' !! f = Some page -> p_data page = zero_page.
Proof.
  apply (fetch_hides_corruption (C := tagged_crypto) tampered 0 kCorruption); vm_compute; done.
Defined.
