(* ===== verification/BPlusTree.v ===== *)
(** * The B+Tree: src/storage/bplus_tree.cpp

    Nodes laid out in pages of the buffer pool, searched from the root and grown from
    the leaves through parent links.  [None] is an access outside a page or through a
    null frame, so that a theorem that an operation returns is also one about memory
    safety. *)
From coqutil Require Import Word.LittleEndianList.
From S2P Require Import Prelude Bytes AtRest SlottedPage DiskManager BufferPool.
Local Open Scope Z_scope.

Definition kMaxKeyBytes : Z := 64.
Definition kMaxKeysPerNode : Z := 50.

Record RID := mkRid { rid_page : Z; rid_slot : Z }.
#[export] Instance RID_eq : EqDecision RID.
Proof. solve_decision. Defined.

(** ** Node layout *)
Definition kHeaderSize : Z := 11.                                             (* u8, i16, i32, i32, packed *)
Definition kLeafKeysOffset : Z := kHeaderSize.
Definition kLeafRidsOffset : Z := kLeafKeysOffset + kMaxKeysPerNode * kMaxKeyBytes.
Definition kInternalChildrenOffset : Z := kHeaderSize.
Definition kInternalKeysOffset : Z := kInternalChildrenOffset + (kMaxKeysPerNode + 1) * 4.
Definition kPackedRid : Z := 6.

Definition get_i16 (off : Z) (p : bytes) : option Z := (fun s => to_signed 16 (le_combine s)) <$> mem_read off 2 p.
Definition set_i16 (off v : Z) (p : bytes) : option bytes := mem_write off (ByteWriter.U16 (u16 v)) p.
Definition get_i32 (off : Z) (p : bytes) : option Z := (fun s => to_signed 32 (le_combine s)) <$> mem_read off 4 p.
Definition set_i32 (off v : Z) (p : bytes) : option bytes := mem_write off (ByteWriter.U32 (u32 v)) p.

Definition IsLeaf (p : bytes) : option bool := (fun s => negb (le_combine s =? 0)) <$> mem_read 0 1 p.
Definition set_is_leaf (v : Z) (p : bytes) : option bytes := mem_write 0 (ByteWriter.U8 v) p.
Definition NumKeys (p : bytes) : option Z := get_i16 1 p.
Definition set_num_keys (v : Z) (p : bytes) : option bytes := set_i16 1 v p.
Definition parent_page_id (p : bytes) : option Z := get_i32 3 p.
Definition set_parent (v : Z) (p : bytes) : option bytes := set_i32 3 v p.
Definition next_leaf_page_id (p : bytes) : option Z := get_i32 7 p.
Definition set_next_leaf (v : Z) (p : bytes) : option bytes := set_i32 7 v p.

(** [strnlen]: up to the first NUL. *)
Fixpoint until_nul (s : bytes) : bytes :=
  match s with
  | [] => []
  | c :: s' => if bool_decide (c = Byte.x00) then [] else c :: until_nul s'
  end.

Definition key_offset (leaf : bool) (i : Z) : Z :=
  (if leaf then kLeafKeysOffset else kInternalKeysOffset) + i * kMaxKeyBytes.

Definition GetKeyAt (p : bytes) (i : Z) (leaf : bool) : option bytes :=
  until_nul <$> mem_read (key_offset leaf i) kMaxKeyBytes p.
Definition SetKeyAt (p : bytes) (i : Z) (leaf : bool) (key : bytes) : option bytes :=
  p1 ← mem_write (key_offset leaf i) (zeros (Z.to_nat kMaxKeyBytes)) p;
  mem_write (key_offset leaf i) (take (Z.to_nat kMaxKeyBytes) key) p1.

Definition GetRidAt (p : bytes) (i : Z) : option RID :=
  page ← get_i32 (kLeafRidsOffset + i * kPackedRid) p;
  slot ← get_i16 (kLeafRidsOffset + i * kPackedRid + 4) p;
  Some (mkRid page slot).
Definition SetRidAt (p : bytes) (i : Z) (r : RID) : option bytes :=
  p1 ← set_i32 (kLeafRidsOffset + i * kPackedRid) (rid_page r) p;
  set_i16 (kLeafRidsOffset + i * kPackedRid + 4) (rid_slot r) p1.

Definition GetChildAt (p : bytes) (i : Z) : option Z := get_i32 (kInternalChildrenOffset + i * 4) p.
Definition SetChildAt (p : bytes) (i : Z) (id : Z) : option bytes := set_i32 (kInternalChildrenOffset + i * 4) id p.

Definition init_node (is_leaf parent : Z) (p : bytes) : option bytes :=
  p1 ← set_is_leaf is_leaf p; p2 ← set_num_keys 0 p1; p3 ← set_parent parent p2; set_next_leaf kInvalidPageId p3.
Definition InitLeaf (parent : Z) (p : bytes) : option bytes := init_node 1 parent p.
Definition InitInternal (parent : Z) (p : bytes) : option bytes := init_node 0 parent p.

(** ** Loops over one page; [count] passes, [i] the index *)

(** The first index whose key is above [key]. *)
Fixpoint upper_index (p key : bytes) (count : nat) (i : Z) : option (option Z) :=
  match count with
  | O => Some None
  | S more =>
      k ← GetKeyAt p i false;
      if str_lt key k then Some (Some i) else upper_index p key more (i + 1)
  end.

(** The index that holds [key] exactly. *)
Fixpoint key_index (p key : bytes) (count : nat) (i : Z) : option (option Z) :=
  match count with
  | O => Some None
  | S more =>
      k ← GetKeyAt p i true;
      if bool_decide (k = key) then Some (Some i) else key_index p key more (i + 1)
  end.

(** Where a key goes in a leaf: the index that holds it, or the first above it. *)
Fixpoint insert_index (p key : bytes) (count : nat) (i : Z) : option (option (bool * Z)) :=
  match count with
  | O => Some None
  | S more =>
      k ← GetKeyAt p i true;
      if bool_decide (k = key) then Some (Some (true, i))
      else if str_lt key k then Some (Some (false, i))
      else insert_index p key more (i + 1)
  end.

Fixpoint shift_entries (count : nat) (i : Z) (p : bytes) : option bytes :=
  match count with
  | O => Some p
  | S more =>
      k ← GetKeyAt p (i - 1) true; p1 ← SetKeyAt p i true k;
      r ← GetRidAt p1 (i - 1); p2 ← SetRidAt p1 i r;
      shift_entries more (i - 1) p2
  end.

Fixpoint unshift_entries (count : nat) (i : Z) (p : bytes) : option bytes :=
  match count with
  | O => Some p
  | S more =>
      k ← GetKeyAt p (i + 1) true; p1 ← SetKeyAt p i true k;
      r ← GetRidAt p1 (i + 1); p2 ← SetRidAt p1 i r;
      unshift_entries more (i + 1) p2
  end.

Fixpoint shift_keys (count : nat) (i : Z) (p : bytes) : option bytes :=
  match count with
  | O => Some p
  | S more => k ← GetKeyAt p (i - 1) false; p1 ← SetKeyAt p i false k; shift_keys more (i - 1) p1
  end.

Fixpoint shift_children (count : nat) (i : Z) (p : bytes) : option bytes :=
  match count with
  | O => Some p
  | S more => c ← GetChildAt p (i - 1); p1 ← SetChildAt p i c; shift_children more (i - 1) p1
  end.

Fixpoint read_entries (p : bytes) (count : nat) (i : Z) : option (list (bytes * RID)) :=
  match count with
  | O => Some []
  | S more => k ← GetKeyAt p i true; r ← GetRidAt p i; rest ← read_entries p more (i + 1); Some ((k, r) :: rest)
  end.

Fixpoint write_entries (l : list (bytes * RID)) (i : Z) (p : bytes) : option bytes :=
  match l with
  | [] => Some p
  | (k, r) :: rest => p1 ← SetKeyAt p i true k; p2 ← SetRidAt p1 i r; write_entries rest (i + 1) p2
  end.

Fixpoint read_keys (p : bytes) (count : nat) (i : Z) : option (list bytes) :=
  match count with
  | O => Some []
  | S more => k ← GetKeyAt p i false; rest ← read_keys p more (i + 1); Some (k :: rest)
  end.

Fixpoint write_keys (l : list bytes) (i : Z) (p : bytes) : option bytes :=
  match l with
  | [] => Some p
  | k :: rest => p1 ← SetKeyAt p i false k; write_keys rest (i + 1) p1
  end.

Fixpoint read_children (p : bytes) (count : nat) (i : Z) : option (list Z) :=
  match count with
  | O => Some []
  | S more => c ← GetChildAt p i; rest ← read_children p more (i + 1); Some (c :: rest)
  end.

Fixpoint write_children (l : list Z) (i : Z) (p : bytes) : option bytes :=
  match l with
  | [] => Some p
  | c :: rest => p1 ← SetChildAt p i c; write_children rest (i + 1) p1
  end.

(** [v.insert(v.begin() + i, x)] *)
Definition insert_at {A} (i : Z) (x : A) (l : list A) : list A := take (Z.to_nat i) l ++ x :: drop (Z.to_nat i) l.

Section BPlusTree.
Context `{C : Crypto}.
Implicit Types b : BufferPool.

(** [p] is changed in its frame. *)
Definition edit (f : nat) (g : bytes -> option bytes) b : option BufferPool :=
  p ← g (frame_data f b); Some (write_frame f p b).

Definition unpin (id : Z) (dirty : bool) b : BufferPool := (UnpinPage id dirty b).2.

(** A page that the code fetches without checking the result. *)
Definition fetch_deref (id : Z) b : option (nat * BufferPool) :=
  match FetchPage id b with (Some f, b1) => Some (f, b1) | (None, _) => None end.
Definition new_deref b : option (nat * Z * BufferPool) :=
  match NewPage b with (Some (f, id), b1) => Some (f, id, b1) | (None, _) => None end.

Definition CreateNew b : option (StatusOr Z * BufferPool) :=
  match NewPage b with
  | (None, b1) => Some (Fault kOutOfSpace, b1)
  | (Some (f, id), b1) => b2 ← edit f (InitLeaf kInvalidPageId) b1; Some (OK id, unpin id true b2)
  end.

Definition kMaxDescent : nat := 64.

Fixpoint descend (hops : nat) (cur : Z) (key : bytes) b : option (Z * BufferPool) :=
  match hops with
  | O => Some (kInvalidPageId, b)
  | S more =>
      if cur =? kInvalidPageId then Some (kInvalidPageId, b)
      else
        match FetchPage cur b with
        | (None, b1) => Some (kInvalidPageId, b1)
        | (Some f, b1) =>
            let p := frame_data f b1 in
            leaf ← IsLeaf p;
            if (leaf : bool) then Some (cur, unpin cur false b1)
            else
              n ← NumKeys p;
              idx ← upper_index p key (Z.to_nat n) 0;
              child ← GetChildAt p (default n idx);
              let b2 := unpin cur false b1 in
              if child =? cur then Some (kInvalidPageId, b2) else descend more child key b2
        end
  end.

Definition FindLeaf (root : Z) (key : bytes) b : option (Z * BufferPool) := descend kMaxDescent root key b.

Definition RootLooksValid (root : Z) b : option (bool * BufferPool) :=
  if root =? kInvalidPageId then Some (false, b)
  else
    match FetchPage root b with
    | (None, b1) => Some (false, b1)
    | (Some f, b1) =>
        let p := frame_data f b1 in
        parent ← parent_page_id p; leaf ← IsLeaf p; n ← NumKeys p;
        Some ((parent =? kInvalidPageId) && (leaf || (0 <? n)), unpin root false b1)
    end.

Definition Search (root : Z) (key : bytes) b : option (option RID * BufferPool) :=
  '(leaf_id, b0) ← FindLeaf root key b;
  if leaf_id =? kInvalidPageId then Some (None, b0)
  else
    match FetchPage leaf_id b0 with
    | (None, b1) => Some (None, b1)
    | (Some f, b1) =>
        let p := frame_data f b1 in
        n ← NumKeys p;
        found ← key_index p key (Z.to_nat n) 0;
        match found with
        | None => Some (None, unpin leaf_id false b1)
        | Some i => r ← GetRidAt p i; Some (Some r, unpin leaf_id false b1)
        end
    end.

(** ** Insertion *)

(** The halves of a full leaf with its new entry. *)
Definition split_leaf (entries : list (bytes * RID)) (parent old_next right_id : Z) (f fr : nat) b : option BufferPool :=
  let left_count := (length entries / 2)%nat in
  let low := take left_count entries in
  let high := drop left_count entries in
  b1 ← edit fr (fun q => q1 ← InitLeaf parent q; q2 ← write_entries high 0 q1;
                            q3 ← set_num_keys (Zlen high) q2; set_next_leaf old_next q3) b;
  edit f (fun q => q1 ← write_entries low 0 q; q2 ← set_num_keys (Zlen low) q1; set_next_leaf right_id q2) b1.

Definition new_root (left_id : Z) (sep : bytes) (right_id : Z) (q : bytes) : option bytes :=
  q1 ← InitInternal kInvalidPageId q; q2 ← SetChildAt q1 0 left_id; q3 ← SetKeyAt q2 0 false sep;
  q4 ← SetChildAt q3 1 right_id; set_num_keys 1 q4.

(** A fetched page gets a parent. *)
Definition reparent (id parent : Z) b : option BufferPool :=
  '(f, b1) ← fetch_deref id b; b2 ← edit f (set_parent parent) b1; Some (unpin id true b2).

(** The children of the new right node, read back from its page, get it as their parent. *)
Fixpoint reparent_moved (count : nat) (i : Z) (fr : nat) (parent : Z) b : option BufferPool :=
  match count with
  | O => Some b
  | S more =>
      id ← GetChildAt (frame_data fr b) i;
      '(f, b1) ← fetch_deref id b;
      b2 ← edit f (set_parent parent) b1;
      id' ← GetChildAt (frame_data fr b2) i;
      reparent_moved more (i + 1) fr parent (unpin id' true b2)
  end.

Definition insert_child (n idx : Z) (sep : bytes) (right_id : Z) (q : bytes) : option bytes :=
  q1 ← shift_keys (Z.to_nat (n - idx)) n q;
  q2 ← shift_children (Z.to_nat (n - idx)) (n + 1) q1;
  q3 ← SetKeyAt q2 idx false sep;
  q4 ← SetChildAt q3 (idx + 1) right_id;
  set_num_keys (n + 1) q4.

(** [fuel] bounds the recursion; the result is the root. *)
Fixpoint InsertIntoParentAfterSplit (fuel : nat) (left_id : Z) (sep : bytes) (right_id root : Z) b
  : option (Z * BufferPool) :=
  match fuel with
  | O => None
  | S more =>
      '(f, b1) ← fetch_deref left_id b;
      parent ← parent_page_id (frame_data f b1);
      let b2 := unpin left_id false b1 in
      if parent =? kInvalidPageId then
        '(fr, new_root_id, b3) ← new_deref b2;
        b4 ← edit fr (new_root left_id sep right_id) b3;
        b5 ← reparent left_id new_root_id (unpin new_root_id true b4);
        b6 ← reparent right_id new_root_id b5;
        Some (new_root_id, b6)
      else
        '(fp, b3) ← fetch_deref parent b2;
        let p := frame_data fp b3 in
        n ← NumKeys p;
        found ← upper_index p sep (Z.to_nat n) 0;
        let idx := default n found in
        if n <? kMaxKeysPerNode then
          b4 ← edit fp (insert_child n idx sep right_id) b3;
          b5 ← reparent right_id parent (unpin parent true b4);
          Some (root, b5)
        else
          ks ← read_keys p (Z.to_nat n) 0;
          cs ← read_children p (Z.to_nat (n + 1)) 0;
          let keys := insert_at idx sep ks in
          let children := insert_at (idx + 1) right_id cs in
          let mid := (length keys / 2)%nat in
          promoted ← keys !! mid;
          grandparent ← parent_page_id p;
          '(fr, new_right_id, b4) ← new_deref b3;
          let high_keys := drop (S mid) keys in
          let high_children := drop (S mid) children in
          b5 ← edit fr (fun q => q1 ← InitInternal grandparent q; q2 ← write_keys high_keys 0 q1;
                                 q3 ← write_children high_children 0 q2; set_num_keys (Zlen high_keys) q3) b4;
          b6 ← reparent_moved (length high_children) 0 fr new_right_id b5;
          b7 ← edit fp (fun q => q1 ← write_keys (take mid keys) 0 q; q2 ← write_children (take (S mid) children) 0 q1;
                                 set_num_keys (Z.of_nat mid) q2) b6;
          InsertIntoParentAfterSplit more parent promoted new_right_id root (unpin new_right_id true (unpin parent true b7))
  end.

(** One level of the tree per step, and one for the new root. *)
Definition parent_fuel : nat := S kMaxDescent.

Definition insert_entry (n idx : Z) (key : bytes) (r : RID) (q : bytes) : option bytes :=
  q1 ← shift_entries (Z.to_nat (n - idx)) n q;
  q2 ← SetKeyAt q1 idx true key; q3 ← SetRidAt q2 idx r; set_num_keys (n + 1) q3.

Definition InsertIntoLeaf (leaf_id : Z) (key : bytes) (r : RID) (root : Z) b
  : option (StatusOr unit * Z * BufferPool) :=
  match FetchPage leaf_id b with
  | (None, b1) => Some (Fault kOutOfSpace, root, b1)
  | (Some f, b1) =>
      let p := frame_data f b1 in
      n ← NumKeys p;
      found ← insert_index p key (Z.to_nat n) 0;
      match found with
      | Some (true, i) => b2 ← edit f (fun q => SetRidAt q i r) b1; Some (OK tt, root, unpin leaf_id true b2)
      | _ =>
          let idx := match found with Some (_, i) => i | None => n end in
          if n <? kMaxKeysPerNode then
            b2 ← edit f (insert_entry n idx key r) b1; Some (OK tt, root, unpin leaf_id true b2)
          else
            old ← read_entries p (Z.to_nat n) 0;
            let entries := insert_at idx (key, r) old in
            parent ← parent_page_id p; old_next ← next_leaf_page_id p;
            match NewPage b1 with
            | (None, b2) => Some (Fault kOutOfSpace, root, unpin leaf_id false b2)
            | (Some (fr, right_id), b2) =>
                b3 ← split_leaf entries parent old_next right_id f fr b2;
                '(sep, _) ← entries !! (length entries / 2)%nat;
                '(root', b4) ← InsertIntoParentAfterSplit parent_fuel leaf_id sep right_id root
                                 (unpin right_id true (unpin leaf_id true b3));
                Some (OK tt, root', b4)
            end
      end
  end.

Definition Insert (root : Z) (key : bytes) (r : RID) b : option (StatusOr unit * Z * BufferPool) :=
  if bool_decide (key = []) || (kMaxKeyBytes <=? Zlen key) then Some (Fault kInvalidArgument, root, b)
  else
    '(leaf_id, b0) ← FindLeaf root key b;
    if leaf_id =? kInvalidPageId then Some (Fault kInternal, root, b0)
    else InsertIntoLeaf leaf_id key r root b0.

(** ** Removal and scans *)
Definition remove_entry (n i : Z) (q : bytes) : option bytes :=
  q1 ← unshift_entries (Z.to_nat (n - 1 - i)) i q; set_num_keys (n - 1) q1.

Definition Remove (root : Z) (key : bytes) b : option (bool * BufferPool) :=
  '(leaf_id, b0) ← FindLeaf root key b;
  if leaf_id =? kInvalidPageId then Some (false, b0)
  else
    match FetchPage leaf_id b0 with
    | (None, b1) => Some (false, b1)
    | (Some f, b1) =>
        n ← NumKeys (frame_data f b1);
        found ← key_index (frame_data f b1) key (Z.to_nat n) 0;
        match found with
        | None => Some (false, unpin leaf_id false b1)
        | Some i => b2 ← edit f (remove_entry n i) b1; Some (true, unpin leaf_id true b2)
        end
    end.

(** The entries of one leaf; the flag says that the limit was reached. *)
Fixpoint scan_leaf (p start : bytes) (limit : nat) (count : nat) (i : Z) (out : list (bytes * RID))
  : option (bool * list (bytes * RID)) :=
  match count with
  | O => Some (false, out)
  | S more =>
      k ← GetKeyAt p i true;
      if str_lt k start then scan_leaf p start limit more (i + 1) out
      else
        r ← GetRidAt p i;
        let out' := out ++ [(k, r)] in
        if negb (limit =? 0)%nat && (limit <=? length out')%nat then Some (true, out')
        else scan_leaf p start limit more (i + 1) out'
  end.

(** The walk along the leaves; [None] also when the chain is longer than [fuel]. *)
Fixpoint scan_leaves (fuel : nat) (leaf_id : Z) (start : bytes) (limit : nat) (out : list (bytes * RID)) b
  : option (list (bytes * RID) * BufferPool) :=
  if leaf_id =? kInvalidPageId then Some (out, b)
  else
    match fuel with
    | O => None
    | S more =>
        match FetchPage leaf_id b with
        | (None, b1) => Some (out, b1)
        | (Some f, b1) =>
            let p := frame_data f b1 in
            n ← NumKeys p;
            '(full, out') ← scan_leaf p start limit (Z.to_nat n) 0 out;
            if (full : bool) then Some (out', unpin leaf_id false b1)
            else next ← next_leaf_page_id p; scan_leaves more next start limit out' (unpin leaf_id false b1)
        end
    end.

(** More leaves than pages would be a cycle. *)
Definition scan_fuel b : nat := S (Z.to_nat (pages_allocated b)).

Definition ScanTree (root : Z) (start : bytes) (limit : nat) b : option (list (bytes * RID) * BufferPool) :=
  '(leaf_id, b0) ← FindLeaf root start b;
  if leaf_id =? kInvalidPageId then Some ([], b0) else scan_leaves (scan_fuel b0) leaf_id start limit [] b0.
End BPlusTree.
