(* ===== verification/Pins.v ===== *)
(** * Pages held through the buffer pool

    What a client that pins several pages at once may rely on: [held b V n fs T] says that
    the pool shows the pages [V], [n] of them allocated, that exactly the pages of [fs] are
    pinned, each once and in its frame, and that those of [T] were written since. *)
From stdpp Require Import functions.
From S2P Require Import Prelude Bytes AtRest SlottedPage DiskManager BufferPool BPlusTree.
Local Open Scope Z_scope.

(** Under which key the pages are sealed; it never changes. *)
Definition disk_key (d : DiskManager) : bool * bytes * bytes := (encrypted_ d, d_subkey d, d_file_tag d).
Class DiskKey := the_key : bool * bytes * bytes.

Section Pins.
Context `{C : Crypto} `{!CryptoLaws C} `{K : DiskKey}.
Implicit Types (b : BufferPool) (V : Z -> bytes).

Lemma WritePage_key id p d : disk_key (WritePage id p d).2 = disk_key d.
Proof.
  assert (P : forall x, disk_key (put_block id x d).2 = disk_key d) by (intros x; unfold put_block; destruct (_ <? _); [done|]; by destruct (we_io _)).
  unfold WritePage. destruct (negb _); [apply P|]. destruct (SealPage _ _ _ _ _); [apply P|done].
Qed.

Record held b V (n : Z) (fs : list (Z * nat)) (T : gset Z) : Prop := {
  h_ok : pool_ok T b;
  h_count : pages_allocated b = n;
  h_view : forall j, 0 <= j -> view b j = V j;
  h_table : forall id f, (id, f) ∈ fs -> page_table_ b !! id = Some f;
  h_pin : forall j, 0 <= j -> pin b j = if decide (j ∈ fs.*1) then 1 else 0;
  h_nodup : NoDup fs.*1;
  h_frames : (3 <= length (pages_ b))%nat;
  h_key : disk_key (disk_ b) = the_key;
}.

Lemma FindFree_key b f b1 : FindFreeOrVictimFrame b = Some (f, b1) -> disk_key (disk_ b1) = disk_key (disk_ b).
Proof.
  unfold FindFreeOrVictimFrame. destruct (free_list_ b); [|by intros [= <- <-]].
  intros H. apply bind_Some in H as ([v lru] & _ & H). apply bind_Some in H as (page & _ & H). injection H as <- <-. cbn.
  destruct (is_dirty_ page); [apply WritePage_key|done].
Qed.

Lemma fetch_key id b : disk_key (disk_ (FetchPage id b).2) = disk_key (disk_ b).
Proof.
  unfold FetchPage. destruct (page_table_ b !! id) as [f|]; [by destruct (pages_ b !! f)|].
  destruct (FindFreeOrVictimFrame b) as [[f b1]|] eqn:E; [|done]. by apply FindFree_key in E.
Qed.

Lemma new_key b : disk_key (disk_ (NewPage b).2) = disk_key (disk_ b).
Proof. unfold NewPage. destruct (FindFreeOrVictimFrame b) as [[f b1]|] eqn:E; [|done]. by apply FindFree_key in E. Qed.

Lemma unpin_key id dirty b : disk_key (disk_ (UnpinPage id dirty b).2) = disk_key (disk_ b).
Proof. unfold UnpinPage. destruct (page_table_ b !! id) as [f|]; [|done]. destruct (pages_ b !! f); [|done]. by destruct (_ <=? _). Qed.

Lemma flush_key b : disk_key (disk_ (FlushAllPages b)) = disk_key (disk_ b).
Proof.
  unfold FlushAllPages. generalize (map_to_list (page_table_ b)). intros l. revert b. induction l as [|[id f] l IH]; intros b; [done|].
  cbn [fold_left]. rewrite IH. unfold flush_entry. cbn. destruct (pages_ b !! f); [|done]. destruct (is_dirty_ _); [apply WritePage_key|done].
Qed.

Lemma FindFree_table b f b1 j g :
  FindFreeOrVictimFrame b = Some (f, b1) -> page_table_ b1 !! j = Some g -> page_table_ b !! j = Some g.
Proof.
  unfold FindFreeOrVictimFrame. destruct (free_list_ b); [|by intros [= <- <-]].
  intros H. apply bind_Some in H as ([v lru] & _ & H). apply bind_Some in H as (page & _ & H). injection H as <- <-.
  cbn. intros Hj. by apply lookup_delete_Some in Hj as [_ Hj].
Qed.

Lemma fetch_table b id f b1 j g :
  FetchPage id b = (Some f, b1) -> j <> id -> page_table_ b1 !! j = Some g -> page_table_ b !! j = Some g.
Proof.
  unfold FetchPage. intros H Hne Hj. destruct (page_table_ b !! id) as [f'|].
  - destruct (pages_ b !! f'); [|done]. by injection H as <- <-.
  - destruct (FindFreeOrVictimFrame b) as [[f' b']|] eqn:E; [|done]. injection H as <- <-. cbn in Hj.
    rewrite lookup_insert_ne in Hj by done. by eapply FindFree_table.
Qed.

Lemma new_table b id f b1 j g :
  NewPage b = (Some (f, id), b1) -> j <> id -> page_table_ b1 !! j = Some g -> page_table_ b !! j = Some g.
Proof.
  unfold NewPage. intros H Hne Hj. destruct (FindFreeOrVictimFrame b) as [[f' b']|] eqn:E; [|done].
  destruct (AllocatePage (disk_ b')) as [x d]. injection H as <- <- <-. cbn in Hj.
  rewrite lookup_insert_ne in Hj by done. by eapply FindFree_table.
Qed.

(** A pinned page has a frame, and it is in the table. *)
Lemma pin_in_table b j : 0 < pin b j -> exists g, page_table_ b !! j = Some g.
Proof. unfold pin. destruct (page_table_ b !! j) as [g|]; [by exists g|]. cbn. lia. Qed.

Lemma held_room b V n fs T : held b V n fs T -> (length fs < 3)%nat -> (size (pinned b) < length (pages_ b))%nat.
Proof.
  intros H Hl. pose proof (h_frames _ _ _ _ _ H).
  assert (size (pinned b) <= length fs)%nat; [|lia].
  rewrite <- (length_fmap fst fs), <- (size_list_to_set (C := gset Z) fs.*1) by apply H.
  apply subseteq_size. intros id. unfold pinned. rewrite elem_of_filter, elem_of_list_to_set. intros [Hp Hd].
  apply elem_of_dom in Hd as [f Hf]. destruct (pi_table _ _ _ (h_ok _ _ _ _ _ H) _ _ Hf) as (page & _ & O).
  rewrite (h_pin _ _ _ _ _ H) in Hp by apply O. by case_decide.
Qed.

Lemma held_range b V n fs T id f : held b V n fs T -> (id, f) ∈ fs -> 0 <= id < n.
Proof.
  intros H Hin. destruct (pi_table _ _ _ (h_ok _ _ _ _ _ H) _ _ (h_table _ _ _ _ _ H _ _ Hin)) as (p & _ & O).
  rewrite <- (h_count _ _ _ _ _ H). apply O.
Qed.

Lemma held_data b V n fs T id f : held b V n fs T -> (id, f) ∈ fs -> frame_data f b = V id.
Proof.
  intros H Hin. rewrite <- (h_view _ _ _ _ _ H) by (eapply held_range; eauto). unfold view.
  by rewrite (h_table _ _ _ _ _ H _ _ Hin).
Qed.

Lemma held_fetch b V n fs T id :
  held b V n fs T -> id ∉ fs.*1 -> 0 <= id < n -> (length fs < 3)%nat ->
  exists f b', FetchPage id b = (Some f, b') /\ held b' V n ((id, f) :: fs) T /\ frame_data f b' = V id.
Proof.
  intros H Hid Hr Hl. destruct (FetchPage_spec T b id) as (f & b' & E & H1 & [V1 N1 S1] & H3 & H4 & H5 & H6);
    [apply H|rewrite (h_count _ _ _ _ _ H); done|by eapply held_room|].
  exists f, b'. split; [done|]. assert (Hh : held b' V n ((id, f) :: fs) T).
  { split; [done|rewrite N1; apply H| | | | |rewrite S1; exact (h_frames _ _ _ _ _ H)|].
    5:{ pose proof (fetch_key id b) as G. rewrite E in G. rewrite <- (h_key _ _ _ _ _ H). exact G. }
    - intros j Hj. by rewrite V1, (h_view _ _ _ _ _ H).
    - intros j g [[= -> ->]|Hin]%elem_of_cons; [done|].
      assert (Hj : j ∈ fs.*1) by (apply list_elem_of_fmap; by exists (j, g)). assert (Hne : j <> id) by (intros ->; done).
      pose proof (held_range _ _ _ _ _ _ _ H Hin) as Hjr.
      destruct (pin_in_table b' j) as [g' Hg']; [rewrite H6, (h_pin _ _ _ _ _ H) by (done || lia); by rewrite decide_True|].
      pose proof (fetch_table _ _ _ _ _ _ E Hne Hg') as Hg''. rewrite (h_table _ _ _ _ _ H _ _ Hin) in Hg''. congruence.
    - intros j Hj. cbn. destruct (decide (j = id)) as [->|Hne].
      + rewrite H5, (h_pin _ _ _ _ _ H) by done. rewrite decide_False by done. rewrite decide_True by set_solver. done.
      + rewrite H6, (h_pin _ _ _ _ _ H) by done. repeat case_decide; set_solver.
    - cbn. constructor; [done|exact (h_nodup _ _ _ _ _ H)]. }
  split; [done|]. apply (held_data _ _ _ _ _ _ _ Hh). left.
Qed.

Lemma held_new b V n fs T :
  held b V n fs T -> n < 2 ^ 31 -> (length fs < 3)%nat ->
  exists f b', NewPage b = (Some (f, n), b') /\ held b' (<[n := zero_page]> V) (n + 1) ((n, f) :: fs) T.
Proof.
  intros H Hn Hl. pose proof (h_count _ _ _ _ _ H) as Hc. pose proof (pi_next _ _ _ (h_ok _ _ _ _ _ H)) as H0.
  destruct (NewPage_spec T b) as (f & b' & E & H1 & N1 & S1 & H3 & H4 & H5 & H6 & H7);
    [apply H|rewrite Hc; done|by eapply held_room|]. rewrite Hc in *.
  assert (Hnew : n ∉ fs.*1).
  { intros ([j g] & Heq & Hin)%list_elem_of_fmap. cbn in Heq. subst j. pose proof (held_range _ _ _ _ _ _ _ H Hin). lia. }
  exists f, b'. split; [done|]. split; [done|done| | | | |rewrite S1; exact (h_frames _ _ _ _ _ H)|].
  5:{ pose proof (new_key b) as G. rewrite E in G. rewrite <- (h_key _ _ _ _ _ H). exact G. }
  - intros j Hj. destruct (decide (j = n)) as [->|Hne]; [by rewrite fn_lookup_insert|].
    rewrite fn_lookup_insert_ne by done. destruct (H7 j Hj Hne) as [-> _]. by apply H.
  - intros j g [[= -> ->]|Hin]%elem_of_cons; [done|].
    assert (Hj : j ∈ fs.*1) by (apply list_elem_of_fmap; by exists (j, g)). assert (Hne : j <> n) by (intros ->; done).
    pose proof (held_range _ _ _ _ _ _ _ H Hin) as Hjr. destruct (H7 j ltac:(lia) Hne) as [_ Hp].
    destruct (pin_in_table b' j) as [g' Hg']; [rewrite Hp, (h_pin _ _ _ _ _ H) by lia; by rewrite decide_True|].
    pose proof (new_table _ _ _ _ _ _ E Hne Hg') as Hg''. rewrite (h_table _ _ _ _ _ H _ _ Hin) in Hg''. congruence.
  - intros j Hj. cbn. destruct (decide (j = n)) as [->|Hne]; [by rewrite H6, decide_True by set_solver|].
    destruct (H7 j Hj Hne) as [_ ->]. rewrite (h_pin _ _ _ _ _ H) by done. repeat case_decide; set_solver.
  - cbn. constructor; [done|apply H].
Qed.

Lemma held_write b V n fs T id f data :
  held b V n fs T -> (id, f) ∈ fs -> Zlen data = kPageSize ->
  held (write_frame f data b) (<[id := data]> V) n fs ({[id]} ∪ T).
Proof.
  intros H Hin Hd. pose proof (held_range _ _ _ _ _ _ _ H Hin) as Hr.
  destruct (write_frame_resident T b id f data) as (W1 & W2 & W3 & W4 & W5 & W6 & W7); [apply H|by apply H| |done|].
  { rewrite (h_pin _ _ _ _ _ H) by lia. rewrite decide_True; [lia|]. apply list_elem_of_fmap. by exists (id, f). }
  split; [done|by rewrite W3; apply H| | | |apply H|rewrite W7; exact (h_frames _ _ _ _ _ H)|apply H].
  - intros j Hj. destruct (decide (j = id)) as [->|Hne]; [by rewrite fn_lookup_insert|].
    rewrite fn_lookup_insert_ne, W5 by done. by apply H.
  - intros j g Hj. rewrite W2. by apply H.
  - intros j Hj. rewrite W6 by done. by apply H.
Qed.

(** The held page at the front is given back. *)
Lemma held_unpin b V n id f fs T dirty :
  held b V n ((id, f) :: fs) T -> (dirty = false -> id ∉ T) ->
  held (unpin id dirty b) V n fs (T ∖ {[id]}).
Proof.
  intros H Hd. pose proof (held_range _ _ _ _ _ id f H ltac:(left)) as Hr.
  pose proof (h_nodup _ _ _ _ _ H) as Hn. cbn in Hn. apply NoDup_cons in Hn as [Hni Hn].
  assert (Hp : pin b id = 1) by (rewrite (h_pin _ _ _ _ _ H) by lia; rewrite decide_True; [done|cbn; left]).
  destruct (unpin_resident T b id dirty) as (b' & E & H1 & H2 & H3 & H4 & H5 & H6 & H7); [apply H|lia|done|].
  unfold unpin. rewrite E. cbn [snd]. split; [done|by rewrite H3; apply H| | | |done|rewrite H7; exact (h_frames _ _ _ _ _ H)|].
  4:{ pose proof (unpin_key id dirty b) as G. rewrite E in G. rewrite <- (h_key _ _ _ _ _ H). exact G. }
  - intros j Hj. rewrite H5 by done. by apply H.
  - intros j g Hj. rewrite H2. apply H. by right.
  - intros j Hj. destruct (decide (j = id)) as [->|Hne].
    + by rewrite H4, Hp, decide_False by done.
    + rewrite H6, (h_pin _ _ _ _ _ H) by done. cbn. repeat case_decide; set_solver.
Qed.

Lemma held_perm b V n fs fs' T : held b V n fs T -> fs ≡ₚ fs' -> held b V n fs' T.
Proof.
  intros H Hp. split; [apply H|apply H|apply H| | | |exact (h_frames _ _ _ _ _ H)|apply H].
  - intros id f. rewrite <- Hp. apply H.
  - intros j Hj. rewrite (h_pin _ _ _ _ _ H) by done. rewrite (decide_ext (j ∈ fs.*1) (j ∈ fs'.*1)); [done|by rewrite Hp].
  - rewrite <- Hp. apply H.
Qed.

(** An edit through the frame. *)
Lemma held_edit b V n fs T id f g p :
  held b V n fs T -> (id, f) ∈ fs -> g (V id) = Some p -> Zlen p = kPageSize ->
  edit f g b = Some (write_frame f p b) /\ held (write_frame f p b) (<[id := p]> V) n fs ({[id]} ∪ T).
Proof.
  intros H Hin Hg Hp. split; [|by apply held_write]. unfold edit. by rewrite (held_data _ _ _ _ _ _ _ H Hin), Hg.
Qed.
End Pins.

(** ** Files opened anew *)
Section Reopen.
Context `{C : Crypto}.

Lemma OpenDisk_empty env wenv dek d fs : OpenDisk env wenv None None dek = (OK d, fs) -> next_page_id_ d = 0.
Proof.
  cbn [OpenDisk]. destruct (oe_create env); [|done]. cbn [negb]. unfold open_file. destruct (oe_open env); [|done]. cbn [negb].
  destruct (if negb (bool_decide (dek = [])) then _ else _) as [[[tag sk]|e] h]; [|done]. intros [= <- _]. cbn. apply Zdiv_0_l.
Qed.

Lemma OpenDisk_shape env wenv f hdr dek d fs :
  OpenDisk env wenv (Some f) hdr dek = (OK d, fs) -> next_page_id_ d = Zlen (d_file d) / Z.of_nat (stride_of (encrypted_ d)) /\ d_env d = wenv.
Proof.
  cbn [OpenDisk]. unfold open_file. destruct (oe_open env); [|done]. cbn [negb].
  destruct (if negb (bool_decide (dek = [])) then _ else _) as [[[tag sk]|e] h]; [|done]. by intros [= <- _].
Qed.

Lemma same_key_view d d' i : disk_key d' = disk_key d -> d_file d' = d_file d -> frame_view d' i = frame_view d i.
Proof. unfold disk_key, frame_view, ReadPage. intros [= -> -> ->] ->. done. Qed.
End Reopen.
