(* ===== verification/BNode.v ===== *)
(** * B+Tree nodes

    What the page of a leaf and of an internal node means, and what each in-page
    routine of [BPlusTree] does to it. *)
From coqutil Require Import Word.LittleEndianList.
From S2P Require Import Prelude Bytes AtRest SlottedPage DiskManager BufferPool BPlusTree.
Local Open Scope Z_scope.

(** ** Bytes *)
Definition key_ok (k : bytes) : Prop := (Byte.x00 ∉ k) /\ Zlen k <= kMaxKeyBytes.
Definition rid_ok (r : RID) : Prop := sfits 32 (rid_page r) /\ sfits 16 (rid_slot r).

(** Reads outside [off, off + len) see the same bytes. *)
Record same_out (off len : Z) (p p' : bytes) : Prop := {
  so_len : Zlen p' = Zlen p;
  so_read : forall o n, o + n <= off \/ off + len <= o -> mem_read o n p' = mem_read o n p;
}.

Lemma same_out_trans off len p q r : same_out off len p q -> same_out off len q r -> same_out off len p r.
Proof. intros [L1 R1] [L2 R2]. split; [congruence|]. intros o n H. by rewrite R2, R1. Qed.

Lemma same_out_sub off len off' len' p q :
  same_out off len p q -> off' <= off -> off + len <= off' + len' -> same_out off' len' p q.
Proof. intros [L R] H1 H2. split; [done|]. intros o n H. apply R. lia. Qed.

Lemma mem_write_out off d p p' : mem_write off d p = Some p' -> same_out off (Zlen d) p p'.
Proof. intros H. split; [by eapply mem_write_length|]. intros o n Ho. by eapply mem_read_other. Qed.

Lemma mem_read_some off n p : 0 <= off -> 0 <= n -> off + n <= Zlen p -> exists s, mem_read off n p = Some s /\ Zlen s = n.
Proof.
  intros H1 H2 H3. unfold mem_read. rewrite !(proj2 (Z.leb_le _ _)) by done. cbn. eexists. split; [done|].
  unfold Zlen in *. rewrite length_take, length_drop. lia.
Qed.

Lemma until_nul_ok s : key_ok (until_nul s) \/ kMaxKeyBytes < Zlen s.
Proof.
  destruct (Z.le_gt_cases (Zlen s) kMaxKeyBytes) as [H|H]; [left|by right].
  enough ((Byte.x00 ∉ until_nul s) /\ Zlen (until_nul s) <= Zlen s) as [H1 H2] by (split; [done|lia]).
  clear H. unfold Zlen. induction s as [|c s [IH1 IH2]]; cbn; [split; [apply not_elem_of_nil|lia]|].
  case_bool_decide; cbn; [split; [apply not_elem_of_nil|lia]|]. split; [|lia]. rewrite not_elem_of_cons. by split.
Qed.

Lemma until_nul_zeros k n : Byte.x00 ∉ k -> until_nul (k ++ zeros n) = k.
Proof.
  induction k as [|c k IH]; intros Hk; cbn.
  - destruct n; cbn; by rewrite ?bool_decide_eq_true_2.
  - apply not_elem_of_cons in Hk as [Hc Hk]. rewrite bool_decide_eq_false_2 by done. f_equal. by apply IH.
Qed.

Lemma mem_write_eq off d p :
  0 <= off -> off + Zlen d <= Zlen p ->
  mem_write off d p = Some (take (Z.to_nat off) p ++ d ++ drop (Z.to_nat off + length d) p).
Proof. intros H1 H2. unfold mem_write. by rewrite !(proj2 (Z.leb_le _ _)). Qed.

(** Clearing a field and writing its first bytes. *)
Lemma mem_write_twice off k n p p1 p2 :
  mem_write off (zeros n) p = Some p1 -> mem_write off k p1 = Some p2 -> (length k <= n)%nat ->
  mem_write off (k ++ zeros (n - length k)) p = Some p2.
Proof.
  intros H1 H2 Hn. pose proof (mem_write_length _ _ _ _ H1) as Hl. unfold mem_write in H1.
  destruct (_ && _) eqn:E; [|done]. apply andb_true_iff in E as [E1 E2]. apply Z.leb_le in E1, E2.
  unfold zeros, Zlen in *. rewrite length_replicate in E2. injection H1 as H1.
  rewrite mem_write_eq in H2 |- *; unfold Zlen in *; rewrite ?length_app, ?length_replicate; try lia.
  injection H2 as <-. f_equal. subst p1. rewrite take_app_length' by (rewrite length_take; lia). f_equal.
  rewrite <- app_assoc. f_equal.
  rewrite !length_replicate. rewrite drop_app_ge by (rewrite length_take; lia). rewrite length_take.
  replace (Z.to_nat off + length k - Nat.min (Z.to_nat off) (length p))%nat with (length k) by lia.
  rewrite drop_app_le by (rewrite length_replicate; lia). rewrite drop_replicate.
  f_equal. f_equal. lia.
Qed.

(** Arithmetic on the layout. *)
Ltac layout :=
  unfold key_offset, kLeafRidsOffset, kLeafKeysOffset, kInternalKeysOffset, kInternalChildrenOffset, kHeaderSize,
    kPackedRid, kMaxKeyBytes, kMaxKeysPerNode, kPageSize in *;
  repeat match goal with l : bool |- _ => destruct l end; lia.

(** ** Fields *)
Section Fields.
Variable p : bytes.
Hypothesis Hp : Zlen p = kPageSize.

(** A field that is written and read back. *)
Lemma field_write off d : 0 <= off -> off + Zlen d <= kPageSize ->
  exists p', mem_write off d p = Some p' /\ mem_read off (Zlen d) p' = Some d /\ same_out off (Zlen d) p p'.
Proof using Hp.
  intros H1 H2. destruct (mem_write_some off d p) as [p' E]; [done|lia|]. exists p'. split; [done|].
  split; [by eapply mem_read_same|by apply mem_write_out].
Qed.

Lemma set_i16_ok off v : 0 <= off -> off + 2 <= kPageSize -> sfits 16 v ->
  exists p', set_i16 off v p = Some p' /\ get_i16 off p' = Some v /\ same_out off 2 p p'.
Proof using Hp.
  intros H1 H2 Hv. destruct (field_write off (ByteWriter.U16 (u16 v))) as (p' & E & R & S).
  { done. } { by rewrite Zlen_U16. } rewrite Zlen_U16 in R, S. exists p'. split; [done|]. split; [|done].
  unfold get_i16. rewrite R. cbn. f_equal. unfold ByteWriter.U16. rewrite le_combine_split.
  unfold u16. rewrite Z.mod_small by (by apply wrap_fits). by apply to_signed_wrap.
Qed.

Lemma set_i32_ok off v : 0 <= off -> off + 4 <= kPageSize -> sfits 32 v ->
  exists p', set_i32 off v p = Some p' /\ get_i32 off p' = Some v /\ same_out off 4 p p'.
Proof using Hp.
  assert (Hl : forall v, Zlen (ByteWriter.U32 v) = 4) by (intros ?; unfold Zlen; by rewrite U32_length).
  intros H1 H2 Hv. destruct (field_write off (ByteWriter.U32 (u32 v))) as (p' & E & R & S).
  { done. } { by rewrite Hl. } rewrite Hl in R, S. exists p'. split; [done|]. split; [|done].
  unfold get_i32. rewrite R. cbn. f_equal. rewrite le_combine_U32 by (by apply wrap_fits). by apply to_signed_wrap.
Qed.

Lemma set_is_leaf_ok v : v = 0 \/ v = 1 ->
  exists p', set_is_leaf v p = Some p' /\ IsLeaf p' = Some (negb (v =? 0)) /\ same_out 0 1 p p'.
Proof using Hp.
  assert (Hl : Zlen (ByteWriter.U8 v) = 1) by (unfold Zlen; by rewrite U8_length).
  intros Hv. destruct (field_write 0 (ByteWriter.U8 v)) as (p' & E & R & S).
  { done. } { rewrite Hl. done. } rewrite Hl in R, S. exists p'. split; [done|]. split; [|done].
  unfold IsLeaf. rewrite R. destruct Hv as [-> | ->]; reflexivity.
Qed.

Lemma GetKeyAt_some i leaf : 0 <= i < kMaxKeysPerNode -> exists k, GetKeyAt p i leaf = Some k /\ key_ok k.
Proof using Hp.
  intros Hi. unfold GetKeyAt. destruct (mem_read_some (key_offset leaf i) kMaxKeyBytes p) as (s & E & Hs).
  { layout. } { done. } { rewrite Hp. layout. }
  exists (until_nul s). rewrite E. split; [done|]. destruct (until_nul_ok s); [done|lia].
Qed.

Lemma SetKeyAt_ok i leaf k : 0 <= i < kMaxKeysPerNode -> key_ok k ->
  exists p', SetKeyAt p i leaf k = Some p' /\ GetKeyAt p' i leaf = Some k /\ same_out (key_offset leaf i) kMaxKeyBytes p p'.
Proof using Hp.
  intros Hi [Hn Hl].
  assert (B : 0 <= key_offset leaf i /\ key_offset leaf i + kMaxKeyBytes <= kPageSize) by layout.
  assert (Hz : forall n, Zlen (zeros n) = Z.of_nat n) by (intros n; unfold Zlen, zeros; by rewrite length_replicate).
  assert (Hk : Zlen (k ++ zeros (Z.to_nat kMaxKeyBytes - length k)) = kMaxKeyBytes).
  { unfold Zlen in *. rewrite length_app. unfold zeros. rewrite length_replicate. unfold kMaxKeyBytes in *. lia. }
  unfold SetKeyAt. rewrite take_ge by (unfold Zlen, kMaxKeyBytes in *; lia).
  destruct (mem_write_some (key_offset leaf i) (zeros (Z.to_nat kMaxKeyBytes)) p) as [p1 E1]; [lia|rewrite Hz, Hp; unfold kMaxKeyBytes in *; lia|].
  destruct (mem_write_some (key_offset leaf i) k p1) as [p2 E2]; [lia|rewrite (mem_write_length _ _ _ _ E1), Hp; lia|].
  rewrite E1. cbn [mbind option_bind]. exists p2. split; [done|].
  pose proof (mem_write_twice _ _ _ _ _ _ E1 E2 ltac:(unfold Zlen, kMaxKeyBytes in *; lia)) as E.
  split; [|rewrite <- Hk; by apply mem_write_out].
  unfold GetKeyAt. rewrite <- Hk at 1. rewrite (mem_read_same _ _ _ _ E). cbn. f_equal. by apply until_nul_zeros.
Qed.

Lemma GetRidAt_some i : 0 <= i < kMaxKeysPerNode -> exists r, GetRidAt p i = Some r /\ rid_ok r.
Proof using Hp.
  intros Hi. unfold GetRidAt, get_i32, get_i16.
  destruct (mem_read_some (kLeafRidsOffset + i * kPackedRid) 4 p) as (s & -> & Hs); [layout|done|rewrite Hp; layout|].
  destruct (mem_read_some (kLeafRidsOffset + i * kPackedRid + 4) 2 p) as (t & -> & Ht); [layout|done|rewrite Hp; layout|].
  eexists. split; [done|]. split; cbn; apply to_signed_sfits; try done.
  - pose proof (le_combine_bound s) as H. unfold Zlen in Hs. by rewrite Hs in H.
  - pose proof (le_combine_bound t) as H. unfold Zlen in Ht. by rewrite Ht in H.
Qed.

Lemma GetChildAt_some i : 0 <= i <= kMaxKeysPerNode -> exists c, GetChildAt p i = Some c /\ sfits 32 c.
Proof using Hp.
  intros Hi. unfold GetChildAt, get_i32.
  destruct (mem_read_some (kInternalChildrenOffset + i * 4) 4 p) as (s & -> & Hs); [layout|done|rewrite Hp; layout|].
  eexists. split; [done|]. apply to_signed_sfits; [done|].
  pose proof (le_combine_bound s) as H. unfold Zlen in Hs. by rewrite Hs in H.
Qed.

Lemma SetChildAt_ok i c : 0 <= i <= kMaxKeysPerNode -> sfits 32 c ->
  exists p', SetChildAt p i c = Some p' /\ GetChildAt p' i = Some c /\ same_out (kInternalChildrenOffset + i * 4) 4 p p'.
Proof using Hp. intros Hi Hc. apply set_i32_ok; [layout|layout|done]. Qed.
End Fields.

Lemma SetRidAt_ok p i r : Zlen p = kPageSize -> 0 <= i < kMaxKeysPerNode -> rid_ok r ->
  exists p', SetRidAt p i r = Some p' /\ GetRidAt p' i = Some r /\ same_out (kLeafRidsOffset + i * kPackedRid) kPackedRid p p'.
Proof.
  intros Hp Hi [H1 H2]. unfold SetRidAt, GetRidAt. set (o := kLeafRidsOffset + i * kPackedRid).
  assert (B : 0 <= o /\ o + 6 <= kPageSize) by (unfold o; layout).
  destruct (set_i32_ok p Hp o (rid_page r)) as (p1 & -> & R1 & S1); [lia|lia|done|]. cbn [mbind option_bind].
  assert (Hp1 : Zlen p1 = kPageSize) by (by rewrite (so_len _ _ _ _ S1)).
  destruct (set_i16_ok p1 Hp1 (o + 4) (rid_slot r)) as (p2 & -> & R2 & S2); [lia|lia|done|].
  exists p2. split; [done|]. split.
  - assert (get_i32 o p2 = Some (rid_page r)) as ->.
    { rewrite <- R1. unfold get_i32. by rewrite (so_read _ _ _ _ S2) by lia. }
    cbn. rewrite R2. by destruct r.
  - eapply same_out_trans; [eapply (same_out_sub _ _ o kPackedRid); [exact S1|..]|eapply (same_out_sub _ _ o kPackedRid); [exact S2|..]];
      unfold kPackedRid; lia.
Qed.

(** What the fields read depends only on their own bytes. *)
Lemma key_same off len p p' i leaf :
  same_out off len p p' -> key_offset leaf i + kMaxKeyBytes <= off \/ off + len <= key_offset leaf i ->
  GetKeyAt p' i leaf = GetKeyAt p i leaf.
Proof. intros S H. unfold GetKeyAt. by rewrite (so_read _ _ _ _ S). Qed.

Lemma rid_same off len p p' i :
  same_out off len p p' -> kLeafRidsOffset + i * kPackedRid + kPackedRid <= off \/ off + len <= kLeafRidsOffset + i * kPackedRid ->
  GetRidAt p' i = GetRidAt p i.
Proof. intros S H. unfold GetRidAt, get_i32, get_i16, kPackedRid in *. by rewrite !(so_read _ _ _ _ S) by lia. Qed.

Lemma child_same off len p p' i :
  same_out off len p p' -> kInternalChildrenOffset + i * 4 + 4 <= off \/ off + len <= kInternalChildrenOffset + i * 4 ->
  GetChildAt p' i = GetChildAt p i.
Proof. intros S H. unfold GetChildAt, get_i32. by rewrite (so_read _ _ _ _ S). Qed.

(** The header: eleven bytes at the start. *)
Record same_header (p p' : bytes) : Prop := {
  sh_leaf : IsLeaf p' = IsLeaf p;
  sh_num : NumKeys p' = NumKeys p;
  sh_parent : parent_page_id p' = parent_page_id p;
  sh_next : next_leaf_page_id p' = next_leaf_page_id p;
}.

Lemma same_out_header off len p p' : same_out off len p p' -> kHeaderSize <= off -> same_header p p'.
Proof.
  intros S H. unfold kHeaderSize in *.
  split; unfold IsLeaf, NumKeys, parent_page_id, next_leaf_page_id, get_i16, get_i32;
    by rewrite (so_read _ _ _ _ S) by lia.
Qed.

Lemma same_header_trans p q r : same_header p q -> same_header q r -> same_header p r.
Proof. intros [] []. split; congruence. Qed.

(** ** Arrays in a page

    An edit that touches only slots and reads back [f] where it wrote. *)
Definition slot_key (p : bytes) (leaf : bool) (i : nat) : option bytes := GetKeyAt p (Z.of_nat i) leaf.
Definition slot_rid (p : bytes) (i : nat) : option RID := GetRidAt p (Z.of_nat i).
Definition slot_child (p : bytes) (i : nat) : option Z := GetChildAt p (Z.of_nat i).
Definition key_slots : nat := Z.to_nat kMaxKeysPerNode.

(** [p'] has the length and header of [p]. *)
Definition body_edit (p p' : bytes) : Prop := Zlen p' = Zlen p /\ same_header p p'.

Lemma body_edit_refl p : body_edit p p.
Proof. by repeat split. Qed.
Lemma body_edit_trans p q r : body_edit p q -> body_edit q r -> body_edit p r.
Proof. intros [L1 H1] [L2 H2]. split; [congruence|by eapply same_header_trans]. Qed.

Lemma out_body off len p p' : same_out off len p p' -> kHeaderSize <= off -> body_edit p p'.
Proof. intros S H. split; [apply S|by eapply same_out_header]. Qed.

(** One slot of each kind. *)
Lemma set_key p leaf i k :
  Zlen p = kPageSize -> (i < key_slots)%nat -> key_ok k ->
  exists p', SetKeyAt p (Z.of_nat i) leaf k = Some p' /\ body_edit p p'
    /\ (forall j, (j < key_slots)%nat -> slot_key p' leaf j = if decide (j = i) then Some k else slot_key p leaf j)
    /\ (forall j, (j < key_slots)%nat -> leaf = true -> slot_rid p' j = slot_rid p j)
    /\ (forall j, (j <= key_slots)%nat -> leaf = false -> slot_child p' j = slot_child p j).
Proof.
  intros Hp Hi Hk. unfold key_slots in *.
  destruct (SetKeyAt_ok p Hp (Z.of_nat i) leaf k) as (p' & E & R & S); [layout|done|].
  exists p'. split; [done|]. split; [eapply out_body; [exact S|layout]|]. split_and!; intros j Hj.
  - case_decide as Hji; [by subst|]. eapply key_same; [exact S|layout].
  - intros ->. eapply rid_same; [exact S|layout].
  - intros ->. eapply child_same; [exact S|layout].
Qed.

Lemma set_rid p i r :
  Zlen p = kPageSize -> (i < key_slots)%nat -> rid_ok r ->
  exists p', SetRidAt p (Z.of_nat i) r = Some p' /\ body_edit p p'
    /\ (forall j, (j < key_slots)%nat -> slot_rid p' j = if decide (j = i) then Some r else slot_rid p j)
    /\ (forall j, (j < key_slots)%nat -> slot_key p' true j = slot_key p true j).
Proof.
  intros Hp Hi Hr. unfold key_slots in *.
  destruct (SetRidAt_ok p (Z.of_nat i) r Hp) as (p' & E & R & S); [layout|done|].
  exists p'. split; [done|]. split; [eapply out_body; [exact S|layout]|]. split; intros j Hj.
  - case_decide as Hji; [by subst|]. eapply rid_same; [exact S|layout].
  - eapply key_same; [exact S|layout].
Qed.

Lemma set_child p i c :
  Zlen p = kPageSize -> (i <= key_slots)%nat -> sfits 32 c ->
  exists p', SetChildAt p (Z.of_nat i) c = Some p' /\ body_edit p p'
    /\ (forall j, (j <= key_slots)%nat -> slot_child p' j = if decide (j = i) then Some c else slot_child p j)
    /\ (forall j, (j < key_slots)%nat -> slot_key p' false j = slot_key p false j).
Proof.
  intros Hp Hi Hc. unfold key_slots in *.
  destruct (SetChildAt_ok p Hp (Z.of_nat i) c) as (p' & E & R & S); [layout|done|].
  exists p'. split; [done|]. split; [eapply out_body; [exact S|layout]|]. split; intros j Hj.
  - case_decide as Hji; [by subst|]. eapply child_same; [exact S|layout].
  - eapply key_same; [exact S|layout].
Qed.

(** Every slot can be read, and holds something that can be written back. *)
Lemma slot_key_some p leaf i : Zlen p = kPageSize -> (i < key_slots)%nat -> exists k, slot_key p leaf i = Some k /\ key_ok k.
Proof. intros Hp Hi. apply GetKeyAt_some; [done|]. unfold key_slots in Hi. layout. Qed.
Lemma slot_rid_some p i : Zlen p = kPageSize -> (i < key_slots)%nat -> exists r, slot_rid p i = Some r /\ rid_ok r.
Proof. intros Hp Hi. apply GetRidAt_some; [done|]. unfold key_slots in Hi. layout. Qed.
Lemma slot_child_some p i : Zlen p = kPageSize -> (i <= key_slots)%nat -> exists c, slot_child p i = Some c /\ sfits 32 c.
Proof. intros Hp Hi. apply GetChildAt_some; [done|]. unfold key_slots in Hi. layout. Qed.

(** *** Leaf loops *)

(** The slots of [p'] are those of [p] at [f]. *)
Definition leaf_moved (f : nat -> nat) (p p' : bytes) : Prop :=
  body_edit p p' /\ forall j, (j < key_slots)%nat -> slot_key p' true j = slot_key p true (f j) /\ slot_rid p' j = slot_rid p (f j).

(** One pass: slot [i] becomes a copy of slot [s]. *)
Lemma copy_entry p i s :
  Zlen p = kPageSize -> (i < key_slots)%nat -> (s < key_slots)%nat ->
  exists k p1 r p2, slot_key p true s = Some k /\ SetKeyAt p (Z.of_nat i) true k = Some p1
    /\ slot_rid p1 s = Some r /\ SetRidAt p1 (Z.of_nat i) r = Some p2
    /\ leaf_moved (fun j => if decide (j = i) then s else j) p p2.
Proof.
  intros Hp Hi Hs. destruct (slot_key_some p true s Hp Hs) as (k & Ek & Hk).
  destruct (set_key p true i k Hp Hi Hk) as (p1 & E1 & B1 & K1 & R1 & _).
  assert (Hp1 : Zlen p1 = kPageSize) by (by rewrite (proj1 B1)).
  destruct (slot_rid_some p1 s Hp1 Hs) as (r & Er & Hr).
  destruct (set_rid p1 i r Hp1 Hi Hr) as (p2 & E2 & B2 & R2 & K2).
  exists k, p1, r, p2. split_and!; try done. split; [by eapply body_edit_trans|]. intros j Hj.
  rewrite K2, K1, R2 by done. rewrite R1 in Er by done. case_decide; [by rewrite Ek, Er|]. by rewrite R1.
Qed.

Lemma leaf_moved_trans f g p q r :
  (forall j, (j < key_slots)%nat -> (g j < key_slots)%nat) ->
  leaf_moved f p q -> leaf_moved g q r -> leaf_moved (fun j => f (g j)) p r.
Proof.
  intros Hg [B1 H1] [B2 H2]. split; [by eapply body_edit_trans|]. intros j Hj.
  destruct (H2 j Hj) as [-> ->]. by apply H1, Hg.
Qed.

Lemma leaf_moved_ext f g p q : leaf_moved f p q -> (forall j, (j < key_slots)%nat -> f j = g j) -> leaf_moved g p q.
Proof. intros [B H] E. split; [done|]. intros j Hj. rewrite <- E by done. by apply H. Qed.

Lemma shift_entries_ok c i p :
  Zlen p = kPageSize -> (c <= i < key_slots)%nat ->
  exists p', shift_entries c (Z.of_nat i) p = Some p'
    /\ leaf_moved (fun j => if decide (i - c < j <= i)%nat then (j - 1)%nat else j) p p'.
Proof.
  revert i p. induction c as [|c IH]; intros i p Hp Hi.
  - exists p. split; [done|]. split; [apply body_edit_refl|]. intros j Hj. by rewrite decide_False by lia.
  - destruct (copy_entry p i (i - 1) Hp) as (k & p1 & r & p2 & E1 & E2 & E3 & E4 & M); [lia|lia|].
    cbn [shift_entries]. unfold slot_key, slot_rid in E1, E3.
    replace (Z.of_nat (i - 1)) with (Z.of_nat i - 1) in E1, E3 by lia.
    rewrite E1. cbn. rewrite E2. cbn. rewrite E3. cbn. rewrite E4. cbn.
    destruct (IH (i - 1)%nat p2) as (p' & E & M'); [by rewrite (proj1 (proj1 M))|lia|].
    replace (Z.of_nat i - 1) with (Z.of_nat (i - 1)) by lia. exists p'. split; [done|].
    eapply leaf_moved_ext; [eapply leaf_moved_trans; [|exact M|exact M']|].
    + intros j Hj. cbn. case_decide; lia.
    + intros j Hj. cbn. repeat case_decide; lia.
Qed.

Lemma unshift_entries_ok c i p :
  Zlen p = kPageSize -> (i + c < key_slots)%nat ->
  exists p', unshift_entries c (Z.of_nat i) p = Some p'
    /\ leaf_moved (fun j => if decide (i <= j < i + c)%nat then (j + 1)%nat else j) p p'.
Proof.
  revert i p. induction c as [|c IH]; intros i p Hp Hi.
  - exists p. split; [done|]. split; [apply body_edit_refl|]. intros j Hj. by rewrite decide_False by lia.
  - destruct (copy_entry p i (i + 1) Hp) as (k & p1 & r & p2 & E1 & E2 & E3 & E4 & M); [lia|lia|].
    cbn [unshift_entries]. unfold slot_key, slot_rid in E1, E3.
    replace (Z.of_nat (i + 1)) with (Z.of_nat i + 1) in E1, E3 by lia.
    rewrite E1. cbn. rewrite E2. cbn. rewrite E3. cbn. rewrite E4. cbn.
    destruct (IH (i + 1)%nat p2) as (p' & E & M'); [by rewrite (proj1 (proj1 M))|lia|].
    replace (Z.of_nat i + 1) with (Z.of_nat (i + 1)) by lia. exists p'. split; [done|].
    eapply leaf_moved_ext; [eapply leaf_moved_trans; [|exact M|exact M']|].
    + intros j Hj. cbn. case_decide; lia.
    + intros j Hj. cbn. repeat case_decide; lia.
Qed.

Lemma write_entries_ok l i p :
  Zlen p = kPageSize -> (i + length l <= key_slots)%nat -> Forall (fun e => key_ok e.1 /\ rid_ok e.2) l ->
  exists p', write_entries l (Z.of_nat i) p = Some p' /\ body_edit p p'
    /\ forall j, (j < key_slots)%nat ->
         match l !! (j - i)%nat with
         | Some e => if decide (i <= j)%nat then slot_key p' true j = Some e.1 /\ slot_rid p' j = Some e.2
                     else slot_key p' true j = slot_key p true j /\ slot_rid p' j = slot_rid p j
         | None => slot_key p' true j = slot_key p true j /\ slot_rid p' j = slot_rid p j
         end.
Proof.
  revert i p. induction l as [|[k r] l IH]; intros i p Hp Hi Hl.
  - exists p. split; [done|]. split; [apply body_edit_refl|done].
  - apply Forall_cons in Hl as [[Hk Hr] Hl]. cbn [length write_entries fst snd] in *.
    destruct (set_key p true i k Hp) as (p1 & E1 & B1 & K1 & R1 & _); [lia|done|].
    assert (Hp1 : Zlen p1 = kPageSize) by (by rewrite (proj1 B1)).
    destruct (set_rid p1 i r Hp1) as (p2 & E2 & B2 & R2 & K2); [lia|done|].
    destruct (IH (S i) p2) as (p' & E & B & H); [by rewrite (proj1 B2)|lia|done|].
    rewrite E1. cbn. rewrite E2. cbn. replace (Z.of_nat i + 1) with (Z.of_nat (S i)) by lia. exists p'.
    split; [done|]. split; [by do 2 (eapply body_edit_trans; [done|])|]. intros j Hj. specialize (H j Hj).
    assert (K : slot_key p2 true j = if decide (j = i) then Some k else slot_key p true j) by (by rewrite K2, K1).
    assert (R : slot_rid p2 j = if decide (j = i) then Some r else slot_rid p j) by (rewrite R2 by done; case_decide; [done|by rewrite R1]).
    rewrite K, R in H. destruct (decide (j = i)) as [->|Hne].
    + rewrite Nat.sub_diag. cbn. rewrite decide_True by lia. replace (i - S i)%nat with 0%nat in H by lia.
      destruct (l !! 0%nat); [by rewrite decide_False in H by lia|done].
    + destruct (decide (i <= j)%nat) as [Hle|Hle].
      * replace (j - i)%nat with (S (j - S i)) by lia. cbn. destruct (l !! (j - S i)%nat); [|done].
        by rewrite decide_True in H by lia.
      * replace (j - i)%nat with 0%nat by lia. cbn. replace (j - S i)%nat with 0%nat in H by lia.
        destruct (l !! 0%nat); [by rewrite decide_False in H by lia|done].
Qed.

(** Both facts in the form the nodes need: from slot 0 on. *)
Lemma write_entries_from0 l p :
  Zlen p = kPageSize -> (length l <= key_slots)%nat -> Forall (fun e => key_ok e.1 /\ rid_ok e.2) l ->
  exists p', write_entries l 0 p = Some p' /\ body_edit p p'
    /\ forall j e, l !! j = Some e -> slot_key p' true j = Some e.1 /\ slot_rid p' j = Some e.2.
Proof.
  intros Hp Hl Hf. destruct (write_entries_ok l 0 p Hp) as (p' & E & B & H); [lia|done|]. exists p'.
  split; [done|]. split; [done|]. intros j e He. pose proof (lookup_lt_Some _ _ _ He). specialize (H j ltac:(lia)).
  rewrite Nat.sub_0_r, He, decide_True in H by lia. done.
Qed.

Lemma read_entries_ok p l i :
  (forall j e, l !! j = Some e -> slot_key p true (i + j) = Some e.1 /\ slot_rid p (i + j) = Some e.2) ->
  read_entries p (length l) (Z.of_nat i) = Some l.
Proof.
  revert i. induction l as [|[k r] l IH]; intros i H; [done|]. cbn [length read_entries].
  destruct (H 0%nat (k, r) eq_refl) as [E1 E2]. rewrite Nat.add_0_r in E1, E2. unfold slot_key, slot_rid in E1, E2.
  rewrite E1. cbn. rewrite E2. cbn. replace (Z.of_nat i + 1) with (Z.of_nat (S i)) by lia. rewrite IH; [done|].
  intros j e He. replace (S i + j)%nat with (i + S j)%nat by lia. by apply H.
Qed.

(** *** Loops of internal nodes *)
Definition node_moved (f g : nat -> nat) (p p' : bytes) : Prop :=
  body_edit p p' /\ (forall j, (j < key_slots)%nat -> slot_key p' false j = slot_key p false (f j))
  /\ (forall j, (j <= key_slots)%nat -> slot_child p' j = slot_child p (g j)).

Lemma shift_keys_ok c i p :
  Zlen p = kPageSize -> (c <= i < key_slots)%nat ->
  exists p', shift_keys c (Z.of_nat i) p = Some p'
    /\ node_moved (fun j => if decide (i - c < j <= i)%nat then (j - 1)%nat else j) (fun j => j) p p'.
Proof.
  revert i p. induction c as [|c IH]; intros i p Hp Hi.
  - exists p. split; [done|]. split; [apply body_edit_refl|]. split; [|done]. intros j Hj. by rewrite decide_False by lia.
  - destruct (slot_key_some p false (i - 1) Hp) as (k & Ek & Hk); [lia|].
    destruct (set_key p false i k Hp) as (p1 & E1 & B1 & K1 & _ & C1); [lia|done|].
    destruct (IH (i - 1)%nat p1) as (p' & E & B & K & H); [by rewrite (proj1 B1)|lia|].
    cbn [shift_keys]. pose proof Ek as Ek'. unfold slot_key in Ek'. replace (Z.of_nat (i - 1)) with (Z.of_nat i - 1) in Ek', E by lia.
    rewrite Ek'. cbn. rewrite E1. cbn. exists p'. split; [done|]. split; [by eapply body_edit_trans|]. split.
    + intros j Hj. rewrite K, K1 by (try case_decide; lia). repeat case_decide; try lia; try done; [by replace (j - 1)%nat with (i - 1)%nat by lia].
    + intros j Hj. by rewrite H, C1.
Qed.

Lemma shift_children_ok c i p :
  Zlen p = kPageSize -> (c <= i <= key_slots)%nat ->
  exists p', shift_children c (Z.of_nat i) p = Some p'
    /\ node_moved (fun j => j) (fun j => if decide (i - c < j <= i)%nat then (j - 1)%nat else j) p p'.
Proof.
  revert i p. induction c as [|c IH]; intros i p Hp Hi.
  - exists p. split; [done|]. split; [apply body_edit_refl|]. split; [done|]. intros j Hj. by rewrite decide_False by lia.
  - destruct (slot_child_some p (i - 1) Hp) as (k & Ek & Hk); [lia|].
    destruct (set_child p i k Hp) as (p1 & E1 & B1 & C1 & K1); [lia|done|].
    destruct (IH (i - 1)%nat p1) as (p' & E & B & K & H); [by rewrite (proj1 B1)|lia|].
    cbn [shift_children]. pose proof Ek as Ek'. unfold slot_child in Ek'. replace (Z.of_nat (i - 1)) with (Z.of_nat i - 1) in Ek', E by lia.
    rewrite Ek'. cbn. rewrite E1. cbn. exists p'. split; [done|]. split; [by eapply body_edit_trans|]. split.
    + intros j Hj. by rewrite K, K1.
    + intros j Hj. rewrite H, C1 by (try case_decide; lia). repeat case_decide; try lia; try done; [by replace (j - 1)%nat with (i - 1)%nat by lia].
Qed.

Lemma write_keys_ok l i p :
  Zlen p = kPageSize -> (i + length l <= key_slots)%nat -> Forall key_ok l ->
  exists p', write_keys l (Z.of_nat i) p = Some p' /\ body_edit p p'
    /\ (forall j k, l !! j = Some k -> slot_key p' false (i + j) = Some k)
    /\ (forall j, (j < i)%nat -> slot_key p' false j = slot_key p false j)
    /\ (forall j, (j <= key_slots)%nat -> slot_child p' j = slot_child p j).
Proof.
  revert i p. induction l as [|k l IH]; intros i p Hp Hi Hl.
  - exists p. split; [done|]. split; [apply body_edit_refl|]. done.
  - apply Forall_cons in Hl as [Hk Hl]. cbn [length write_keys] in *.
    destruct (set_key p false i k Hp) as (p1 & E1 & B1 & K1 & _ & C1); [lia|done|].
    destruct (IH (S i) p1) as (p' & E & B & H1 & H2 & H3); [by rewrite (proj1 B1)|lia|done|].
    rewrite E1. cbn. replace (Z.of_nat i + 1) with (Z.of_nat (S i)) by lia. exists p'.
    split; [done|]. split; [by eapply body_edit_trans|]. split_and!.
    + intros [|j] k' Hj; cbn in Hj.
      * injection Hj as <-. rewrite Nat.add_0_r, H2, K1 by lia. by rewrite decide_True.
      * replace (i + S j)%nat with (S i + j)%nat by lia. by apply H1.
    + intros j Hj. rewrite H2, K1 by lia. by rewrite decide_False by lia.
    + intros j Hj. by rewrite H3, C1.
Qed.

Lemma write_children_ok l i p :
  Zlen p = kPageSize -> (i + length l <= S key_slots)%nat -> Forall (sfits 32) l ->
  exists p', write_children l (Z.of_nat i) p = Some p' /\ body_edit p p'
    /\ (forall j c, l !! j = Some c -> slot_child p' (i + j) = Some c)
    /\ (forall j, (j < i)%nat -> slot_child p' j = slot_child p j)
    /\ (forall j, (j < key_slots)%nat -> slot_key p' false j = slot_key p false j).
Proof.
  revert i p. induction l as [|k l IH]; intros i p Hp Hi Hl.
  - exists p. split; [done|]. split; [apply body_edit_refl|]. done.
  - apply Forall_cons in Hl as [Hk Hl]. cbn [length write_children] in *.
    destruct (set_child p i k Hp) as (p1 & E1 & B1 & K1 & C1); [lia|done|].
    destruct (IH (S i) p1) as (p' & E & B & H1 & H2 & H3); [by rewrite (proj1 B1)|lia|done|].
    rewrite E1. cbn. replace (Z.of_nat i + 1) with (Z.of_nat (S i)) by lia. exists p'.
    split; [done|]. split; [by eapply body_edit_trans|]. split_and!.
    + intros [|j] k' Hj; cbn in Hj.
      * injection Hj as <-. rewrite Nat.add_0_r, H2, K1 by lia. by rewrite decide_True.
      * replace (i + S j)%nat with (S i + j)%nat by lia. by apply H1.
    + intros j Hj. rewrite H2, K1 by lia. by rewrite decide_False by lia.
    + intros j Hj. by rewrite H3, C1.
Qed.

Lemma read_keys_ok p l i :
  (forall j k, l !! j = Some k -> slot_key p false (i + j) = Some k) -> read_keys p (length l) (Z.of_nat i) = Some l.
Proof.
  revert i. induction l as [|k l IH]; intros i H; [done|]. cbn [length read_keys].
  pose proof (H 0%nat k eq_refl) as E. rewrite Nat.add_0_r in E. unfold slot_key in E.
  rewrite E. cbn. replace (Z.of_nat i + 1) with (Z.of_nat (S i)) by lia. rewrite IH; [done|].
  intros j e He. replace (S i + j)%nat with (i + S j)%nat by lia. by apply H.
Qed.

Lemma read_children_ok p l i :
  (forall j c, l !! j = Some c -> slot_child p (i + j) = Some c) -> read_children p (length l) (Z.of_nat i) = Some l.
Proof.
  revert i. induction l as [|k l IH]; intros i H; [done|]. cbn [length read_children].
  pose proof (H 0%nat k eq_refl) as E. rewrite Nat.add_0_r in E. unfold slot_child in E.
  rewrite E. cbn. replace (Z.of_nat i + 1) with (Z.of_nat (S i)) by lia. rewrite IH; [done|].
  intros j e He. replace (S i + j)%nat with (i + S j)%nat by lia. by apply H.
Qed.

(** ** Header edits keep the slots *)
Record slots_same (p p' : bytes) : Prop := {
  ss_len : Zlen p' = Zlen p;
  ss_key : forall leaf j, (j < key_slots)%nat -> slot_key p' leaf j = slot_key p leaf j;
  ss_rid : forall j, (j < key_slots)%nat -> slot_rid p' j = slot_rid p j;
  ss_child : forall j, (j <= key_slots)%nat -> slot_child p' j = slot_child p j;
}.

Lemma slots_same_trans p q r : slots_same p q -> slots_same q r -> slots_same p r.
Proof.
  intros [L1 K1 R1 C1] [L2 K2 R2 C2]. split; [congruence|..].
  - intros leaf j Hj. by rewrite K2, K1.
  - intros j Hj. by rewrite R2, R1.
  - intros j Hj. by rewrite C2, C1.
Qed.

Lemma out_slots off len p p' : same_out off len p p' -> 0 <= off -> off + len <= kHeaderSize -> slots_same p p'.
Proof.
  intros S H0 H. unfold key_slots. split; [apply S|..].
  - intros leaf j Hj. eapply key_same; [exact S|layout].
  - intros j Hj. eapply rid_same; [exact S|layout].
  - intros j Hj. eapply child_same; [exact S|layout].
Qed.

(** The four fields together. *)
Record header (leaf : bool) (n parent next : Z) (p : bytes) : Prop := {
  hd_len : Zlen p = kPageSize;
  hd_leaf : IsLeaf p = Some leaf;
  hd_num : NumKeys p = Some n;
  hd_parent : parent_page_id p = Some parent;
  hd_next : next_leaf_page_id p = Some next;
}.

Lemma header_body leaf n par nxt p p' : header leaf n par nxt p -> body_edit p p' -> header leaf n par nxt p'.
Proof. intros [] [L []]. split; congruence. Qed.

Ltac other_field S := unfold IsLeaf, NumKeys, parent_page_id, next_leaf_page_id, get_i16, get_i32; by rewrite (so_read _ _ _ _ S) by lia.

Lemma set_num_header leaf n par nxt p v :
  header leaf n par nxt p -> sfits 16 v ->
  exists p', set_num_keys v p = Some p' /\ header leaf v par nxt p' /\ slots_same p p'.
Proof.
  intros [Hp H1 H2 H3 H4] Hv. destruct (set_i16_ok p Hp 1 v) as (p' & E & R & S); [lia|done|done|].
  exists p'. split; [done|]. split; [|eapply out_slots; [exact S|lia|done]].
  split; [by rewrite (so_len _ _ _ _ S)|rewrite <- H1; other_field S|done|rewrite <- H3; other_field S|rewrite <- H4; other_field S].
Qed.

Lemma set_parent_header leaf n par nxt p v :
  header leaf n par nxt p -> sfits 32 v ->
  exists p', set_parent v p = Some p' /\ header leaf n v nxt p' /\ slots_same p p'.
Proof.
  intros [Hp H1 H2 H3 H4] Hv. destruct (set_i32_ok p Hp 3 v) as (p' & E & R & S); [lia|done|done|].
  exists p'. split; [done|]. split; [|eapply out_slots; [exact S|lia|done]].
  split; [by rewrite (so_len _ _ _ _ S)|rewrite <- H1; other_field S|rewrite <- H2; other_field S|done|rewrite <- H4; other_field S].
Qed.

Lemma set_next_header leaf n par nxt p v :
  header leaf n par nxt p -> sfits 32 v ->
  exists p', set_next_leaf v p = Some p' /\ header leaf n par v p' /\ slots_same p p'.
Proof.
  intros [Hp H1 H2 H3 H4] Hv. destruct (set_i32_ok p Hp 7 v) as (p' & E & R & S); [lia|done|done|].
  exists p'. split; [done|]. split; [|eapply out_slots; [exact S|lia|done]].
  split; [by rewrite (so_len _ _ _ _ S)|rewrite <- H1; other_field S|rewrite <- H2; other_field S|rewrite <- H3; other_field S|done].
Qed.

Lemma init_node_header v par p :
  Zlen p = kPageSize -> v = 0 \/ v = 1 -> sfits 32 par ->
  exists p', init_node v par p = Some p' /\ header (negb (v =? 0)) 0 par kInvalidPageId p'.
Proof.
  intros Hp Hv Hpar. unfold init_node. destruct (set_is_leaf_ok p Hp v Hv) as (p1 & -> & R1 & S1). cbn.
  assert (L1 : Zlen p1 = kPageSize) by (by rewrite (so_len _ _ _ _ S1)).
  destruct (set_i16_ok p1 L1 1 0) as (p2 & E2 & R2 & S2); [lia|done|done|]. unfold set_num_keys. rewrite E2. cbn.
  assert (L2 : Zlen p2 = kPageSize) by (by rewrite (so_len _ _ _ _ S2)).
  destruct (set_i32_ok p2 L2 3 par) as (p3 & E3 & R3 & S3); [lia|done|done|]. unfold set_parent. rewrite E3. cbn.
  assert (L3 : Zlen p3 = kPageSize) by (by rewrite (so_len _ _ _ _ S3)).
  destruct (set_i32_ok p3 L3 7 kInvalidPageId) as (p4 & E4 & R4 & S4); [lia|done|done|]. unfold set_next_leaf. rewrite E4.
  exists p4. split; [done|].
  assert (P : forall o n, o + n <= 7 -> mem_read o n p4 = mem_read o n p3) by (intros; by rewrite (so_read _ _ _ _ S4) by lia).
  assert (Q : forall o n, o + n <= 3 -> mem_read o n p3 = mem_read o n p2) by (intros; by rewrite (so_read _ _ _ _ S3) by lia).
  assert (W : forall o n, o + n <= 1 -> mem_read o n p2 = mem_read o n p1) by (intros; by rewrite (so_read _ _ _ _ S2) by lia).
  split; [by rewrite (so_len _ _ _ _ S4)|..|done].
  - rewrite <- R1. unfold IsLeaf. by rewrite P, Q, W by lia.
  - rewrite <- R2. unfold NumKeys, get_i16. by rewrite P, Q by lia.
  - rewrite <- R3. unfold parent_page_id, get_i32. by rewrite P by lia.
Qed.

(** ** Nodes *)
Record leaf_page (par nxt : Z) (es : list (bytes * RID)) (p : bytes) : Prop := {
  lp_header : header true (Zlen es) par nxt p;
  lp_room : (length es <= key_slots)%nat;
  lp_slots : forall j e, es !! j = Some e -> slot_key p true j = Some e.1 /\ slot_rid p j = Some e.2;
}.

Record node_page (par : Z) (ks : list bytes) (cs : list Z) (p : bytes) : Prop := {
  np_header : exists nxt, header false (Zlen ks) par nxt p;
  np_room : (length ks <= key_slots)%nat;
  np_len : length cs = S (length ks);
  np_keys : forall j k, ks !! j = Some k -> slot_key p false j = Some k;
  np_children : forall j c, cs !! j = Some c -> slot_child p j = Some c;
}.

Lemma small_count (n : nat) : (n <= key_slots)%nat -> sfits 16 (Z.of_nat n).
Proof. intros H. unfold key_slots in H. unfold sfits. layout. Qed.

Lemma leaf_entry_ok par nxt es p e : leaf_page par nxt es p -> e ∈ es -> key_ok e.1 /\ rid_ok e.2.
Proof.
  intros [[Hp _ _ _ _] Hr Hs] [j Hj]%list_elem_of_lookup. pose proof (lookup_lt_Some _ _ _ Hj).
  destruct (Hs j e Hj) as [E1 E2]. destruct (slot_key_some p true j Hp) as (k & E3 & ?); [lia|].
  destruct (slot_rid_some p j Hp) as (r & E4 & ?); [lia|]. rewrite E1 in E3. rewrite E2 in E4. by simplify_eq.
Qed.

Lemma node_key_ok par ks cs p k : node_page par ks cs p -> k ∈ ks -> key_ok k.
Proof.
  intros [[nxt [Hp _ _ _ _]] Hr _ Hs _] [j Hj]%list_elem_of_lookup. pose proof (lookup_lt_Some _ _ _ Hj).
  destruct (slot_key_some p false j Hp) as (k' & E & ?); [lia|]. rewrite (Hs j k Hj) in E. by simplify_eq.
Qed.

Lemma node_child_ok par ks cs p c : node_page par ks cs p -> c ∈ cs -> sfits 32 c.
Proof.
  intros [[nxt [Hp _ _ _ _]] Hr Hl _ Hs] [j Hj]%list_elem_of_lookup. pose proof (lookup_lt_Some _ _ _ Hj).
  destruct (slot_child_some p j Hp) as (c' & E & ?); [lia|]. rewrite (Hs j c Hj) in E. by simplify_eq.
Qed.

(** *** Edits of a leaf *)
Lemma InitLeaf_ok par p : Zlen p = kPageSize -> sfits 32 par ->
  exists p', InitLeaf par p = Some p' /\ leaf_page par kInvalidPageId [] p'.
Proof.
  intros Hp Hpar. destruct (init_node_header 1 par p Hp) as (p' & E & H); [by right|done|].
  exists p'. split; [done|]. split; [done|cbn; lia|done].
Qed.

(** New entries and a new count. *)
Lemma refill_leaf par nxt n es p p1 :
  header true n par nxt p -> body_edit p p1 -> (length es <= key_slots)%nat ->
  (forall j e, es !! j = Some e -> slot_key p1 true j = Some e.1 /\ slot_rid p1 j = Some e.2) ->
  exists p2, set_num_keys (Zlen es) p1 = Some p2 /\ leaf_page par nxt es p2.
Proof.
  intros Hh Hb Hr Hs. destruct (set_num_header true n par nxt p1 (Zlen es)) as (p2 & E & H2 & S);
    [by eapply header_body|by apply small_count|]. exists p2. split; [done|]. split; [done|done|].
  intros j e He. pose proof (lookup_lt_Some _ _ _ He). rewrite (ss_key _ _ S), (ss_rid _ _ S) by lia. by apply Hs.
Qed.

Lemma leaf_set_rid par nxt l1 k r0 l2 r p :
  leaf_page par nxt (l1 ++ (k, r0) :: l2) p -> rid_ok r ->
  exists p', SetRidAt p (Zlen l1) r = Some p' /\ leaf_page par nxt (l1 ++ (k, r) :: l2) p'.
Proof.
  intros [Hh Hr Hs] Hok. pose proof (hd_len _ _ _ _ _ Hh) as Hp. rewrite length_app in Hr. cbn in Hr.
  destruct (set_rid p (length l1) r Hp) as (p' & E & B & R & K); [lia|done|]. exists p'. split; [done|]. split.
  - eapply header_body; [|exact B]. unfold Zlen in *. by rewrite !length_app in *.
  - rewrite length_app. cbn. lia.
  - intros j e He. pose proof (lookup_lt_Some _ _ _ He) as Hj. rewrite length_app in Hj. cbn in Hj.
    rewrite R, K by lia. destruct (decide (j = length l1)) as [->|Hne].
    + rewrite list_lookup_middle in He by done. injection He as <-. split; [|done].
      apply (Hs (length l1) (k, r0)). by apply list_lookup_middle.
    + apply Hs. destruct (decide (j < length l1)%nat) as [Hlt|Hge].
      * rewrite lookup_app_l in He |- * by done. done.
      * rewrite lookup_app_r in He |- * by lia. replace (j - length l1)%nat with (S (j - length l1 - 1)) in * by lia. done.
Qed.

Lemma insert_entry_ok par nxt l1 l2 k r p :
  leaf_page par nxt (l1 ++ l2) p -> (length (l1 ++ l2) < key_slots)%nat -> key_ok k -> rid_ok r ->
  exists p', insert_entry (Zlen (l1 ++ l2)) (Zlen l1) k r p = Some p' /\ leaf_page par nxt (l1 ++ (k, r) :: l2) p'.
Proof.
  intros [Hh _ Hs] Hr Hk Hrid. pose proof (hd_len _ _ _ _ _ Hh) as Hp. unfold insert_entry, Zlen in *. rewrite length_app in *.
  replace (Z.to_nat (Z.of_nat (length l1 + length l2) - Z.of_nat (length l1))) with (length l2) by lia.
  destruct (shift_entries_ok (length l2) (length l1 + length l2) p Hp) as (p1 & -> & B1 & M); [lia|]. cbn [mbind option_bind].
  assert (Hp1 : Zlen p1 = kPageSize) by (by rewrite (proj1 B1)).
  destruct (set_key p1 true (length l1) k Hp1) as (p2 & -> & B2 & K2 & R2 & _); [lia|done|]. cbn [mbind option_bind].
  assert (Hp2 : Zlen p2 = kPageSize) by (by rewrite (proj1 B2)).
  destruct (set_rid p2 (length l1) r Hp2) as (p3 & -> & B3 & R3 & K3); [lia|done|]. cbn [mbind option_bind].
  destruct (refill_leaf par nxt (Z.of_nat (length l1 + length l2)) (l1 ++ (k, r) :: l2) p p3) as (p4 & E & L);
    [done|by do 2 (eapply body_edit_trans; [done|])|rewrite length_app; cbn; lia| |].
  - intros j e He. pose proof (lookup_lt_Some _ _ _ He) as Hj. rewrite length_app in Hj. cbn in Hj.
    rewrite K3, R3, K2 by lia. destruct (decide (j = length l1)) as [->|Hne].
    { rewrite list_lookup_middle in He by done. by injection He as <-. }
    rewrite R2 by (done || lia). destruct (M j ltac:(lia)) as [-> ->]. apply Hs.
    destruct (decide (j < length l1)%nat) as [Hlt|Hge].
    + rewrite decide_False by lia. rewrite lookup_app_l in He |- * by lia. done.
    + rewrite decide_True by lia. rewrite lookup_app_r in He |- * by lia.
      replace (j - length l1)%nat with (S (j - 1 - length l1)) in He by lia. done.
  - exists p4. split; [|done]. rewrite <- E. unfold Zlen. rewrite length_app. cbn. do 2 f_equal. lia.
Qed.

Lemma remove_entry_ok par nxt l1 e l2 p :
  leaf_page par nxt (l1 ++ e :: l2) p ->
  exists p', remove_entry (Zlen (l1 ++ e :: l2)) (Zlen l1) p = Some p' /\ leaf_page par nxt (l1 ++ l2) p'.
Proof.
  intros [Hh Hr Hs]. pose proof (hd_len _ _ _ _ _ Hh) as Hp. unfold remove_entry, Zlen in *. rewrite length_app in *. cbn [length] in *.
  replace (Z.to_nat (Z.of_nat (length l1 + S (length l2)) - 1 - Z.of_nat (length l1))) with (length l2) by lia.
  destruct (unshift_entries_ok (length l2) (length l1) p Hp) as (p1 & -> & B1 & M); [lia|]. cbn [mbind option_bind].
  destruct (refill_leaf par nxt (Z.of_nat (length l1 + S (length l2))) (l1 ++ l2) p p1) as (p4 & E & L);
    [done|done|rewrite length_app; lia| |].
  - intros j x He. pose proof (lookup_lt_Some _ _ _ He) as Hj. rewrite length_app in Hj.
    destruct (M j ltac:(lia)) as [-> ->]. apply Hs. destruct (decide (j < length l1)%nat) as [Hlt|Hge].
    + rewrite decide_False by lia. rewrite lookup_app_l in He |- * by lia. done.
    + rewrite decide_True by lia. rewrite lookup_app_r in He |- * by lia.
      replace (j + 1 - length l1)%nat with (S (j - length l1)) by lia. done.
  - exists p4. split; [|done]. rewrite <- E. unfold Zlen. rewrite length_app. do 2 f_equal. lia.
Qed.

(** The halves of a split. *)
Lemma right_leaf_ok par nxt es p :
  Zlen p = kPageSize -> sfits 32 par -> sfits 32 nxt -> (length es <= key_slots)%nat ->
  Forall (fun e => key_ok e.1 /\ rid_ok e.2) es ->
  exists p', (q1 ← InitLeaf par p; q2 ← write_entries es 0 q1; q3 ← set_num_keys (Zlen es) q2; set_next_leaf nxt q3) = Some p'
    /\ leaf_page par nxt es p'.
Proof.
  intros Hp Hpar Hnxt Hr Hf. destruct (InitLeaf_ok par p Hp Hpar) as (q1 & -> & [H1 _ _]). cbn [mbind option_bind].
  destruct (write_entries_from0 es q1) as (q2 & -> & B2 & W); [apply H1|done|done|]. cbn [mbind option_bind].
  destruct (refill_leaf par kInvalidPageId _ es q1 q2 H1 B2 Hr W) as (q3 & -> & [H3 _ S3]). cbn [mbind option_bind].
  destruct (set_next_header _ _ _ _ _ nxt H3 Hnxt) as (q4 & E & H4 & S4). exists q4. split; [done|]. split; [done|done|].
  intros j e He. pose proof (lookup_lt_Some _ _ _ He). rewrite (ss_key _ _ S4), (ss_rid _ _ S4) by lia. by apply S3.
Qed.

Lemma left_leaf_ok par nxt nxt' n es p :
  header true n par nxt p -> sfits 32 nxt' -> (length es <= key_slots)%nat ->
  Forall (fun e => key_ok e.1 /\ rid_ok e.2) es ->
  exists p', (q1 ← write_entries es 0 p; q2 ← set_num_keys (Zlen es) q1; set_next_leaf nxt' q2) = Some p'
    /\ leaf_page par nxt' es p'.
Proof.
  intros H1 Hnxt Hr Hf.
  destruct (write_entries_from0 es p) as (q2 & -> & B2 & W); [apply H1|done|done|]. cbn [mbind option_bind].
  destruct (refill_leaf par nxt _ es p q2 H1 B2 Hr W) as (q3 & -> & [H3 _ S3]). cbn [mbind option_bind].
  destruct (set_next_header _ _ _ _ _ nxt' H3 Hnxt) as (q4 & E & H4 & S4). exists q4. split; [done|]. split; [done|done|].
  intros j e He. pose proof (lookup_lt_Some _ _ _ He). rewrite (ss_key _ _ S4), (ss_rid _ _ S4) by lia. by apply S3.
Qed.

Lemma leaf_set_parent par par' nxt es p : leaf_page par nxt es p -> sfits 32 par' ->
  exists p', set_parent par' p = Some p' /\ leaf_page par' nxt es p'.
Proof.
  intros [H1 Hr Hs] Hp. destruct (set_parent_header _ _ _ _ _ par' H1 Hp) as (q & E & H & S). exists q. split; [done|].
  split; [done|done|]. intros j e He. pose proof (lookup_lt_Some _ _ _ He). rewrite (ss_key _ _ S), (ss_rid _ _ S) by lia. by apply Hs.
Qed.

(** *** Edits of an internal node *)
Lemma node_set_parent par par' ks cs p : node_page par ks cs p -> sfits 32 par' ->
  exists p', set_parent par' p = Some p' /\ node_page par' ks cs p'.
Proof.
  intros [[nxt H1] Hr Hl Hk Hc] Hp. destruct (set_parent_header _ _ _ _ _ par' H1 Hp) as (q & E & H & S).
  exists q. split; [done|]. split; [by exists nxt|done|done|..].
  - intros j k Hj. pose proof (lookup_lt_Some _ _ _ Hj). rewrite (ss_key _ _ S) by lia. by apply Hk.
  - intros j c Hj. pose proof (lookup_lt_Some _ _ _ Hj). rewrite (ss_child _ _ S) by lia. by apply Hc.
Qed.

Lemma refill_node par nxt n ks cs p p1 :
  header false n par nxt p -> body_edit p p1 -> (length ks <= key_slots)%nat -> length cs = S (length ks) ->
  (forall j k, ks !! j = Some k -> slot_key p1 false j = Some k) ->
  (forall j c, cs !! j = Some c -> slot_child p1 j = Some c) ->
  exists p2, set_num_keys (Zlen ks) p1 = Some p2 /\ node_page par ks cs p2.
Proof.
  intros Hh Hb Hr Hl Hk Hc. destruct (set_num_header false n par nxt p1 (Zlen ks)) as (p2 & E & H2 & S);
    [by eapply header_body|by apply small_count|]. exists p2. split; [done|]. split; [by exists nxt|done|done|..].
  - intros j k Hj. pose proof (lookup_lt_Some _ _ _ Hj). rewrite (ss_key _ _ S) by lia. by apply Hk.
  - intros j c Hj. pose proof (lookup_lt_Some _ _ _ Hj). rewrite (ss_child _ _ S) by lia. by apply Hc.
Qed.

(** Keys and children written from slot 0 on, in either order of the two loops. *)
Lemma write_node_ok par nxt n ks cs p :
  header false n par nxt p -> (length ks <= key_slots)%nat -> length cs = S (length ks) ->
  Forall key_ok ks -> Forall (sfits 32) cs ->
  exists p', (q1 ← write_keys ks 0 p; q2 ← write_children cs 0 q1; set_num_keys (Zlen ks) q2) = Some p' /\ node_page par ks cs p'.
Proof.
  intros H1 Hr Hl Hk Hc. pose proof (hd_len _ _ _ _ _ H1) as Hp.
  destruct (write_keys_ok ks 0 p Hp) as (q1 & E1 & B1 & K1 & _ & C1); [lia|done|]. change (Z.of_nat 0) with 0 in E1. rewrite E1. cbn [mbind option_bind].
  destruct (write_children_ok cs 0 q1) as (q2 & E2 & B2 & C2 & _ & K2); [by rewrite (proj1 B1)|lia|done|].
  change (Z.of_nat 0) with 0 in E2. rewrite E2. cbn [mbind option_bind].
  apply (refill_node par nxt n ks cs p q2); [done|by eapply body_edit_trans|done|done|..].
  - intros j k Hj. pose proof (lookup_lt_Some _ _ _ Hj). rewrite K2 by lia. by apply K1.
  - intros j c Hj. by apply C2.
Qed.

Lemma right_node_ok par ks cs p :
  Zlen p = kPageSize -> sfits 32 par -> (length ks <= key_slots)%nat -> length cs = S (length ks) ->
  Forall key_ok ks -> Forall (sfits 32) cs ->
  exists p', (q1 ← InitInternal par p; q2 ← write_keys ks 0 q1; q3 ← write_children cs 0 q2; set_num_keys (Zlen ks) q3) = Some p'
    /\ node_page par ks cs p'.
Proof.
  intros Hp Hpar Hr Hl Hk Hc. destruct (init_node_header 0 par p Hp) as (q1 & E & H); [by left|done|].
  unfold InitInternal. rewrite E. cbn [mbind option_bind]. by apply (write_node_ok par kInvalidPageId 0).
Qed.

Lemma new_root_ok left_id sep right_id p :
  Zlen p = kPageSize -> sfits 32 left_id -> sfits 32 right_id -> key_ok sep ->
  exists p', new_root left_id sep right_id p = Some p' /\ node_page kInvalidPageId [sep] [left_id; right_id] p'.
Proof.
  intros Hp Hl Hr Hk. unfold new_root, InitInternal.
  destruct (init_node_header 0 kInvalidPageId p Hp) as (q1 & -> & H1); [by left|done|]. cbn [mbind option_bind].
  pose proof (hd_len _ _ _ _ _ H1) as L1.
  destruct (set_child q1 0 left_id L1) as (q2 & E2 & B2 & C2 & K2); [unfold key_slots; layout|done|].
  change (Z.of_nat 0) with 0 in E2. rewrite E2. cbn [mbind option_bind].
  assert (L2 : Zlen q2 = kPageSize) by (by rewrite (proj1 B2)).
  destruct (set_key q2 false 0 sep L2) as (q3 & E3 & B3 & K3 & _ & C3); [unfold key_slots; layout|done|].
  change (Z.of_nat 0) with 0 in E3. rewrite E3. cbn [mbind option_bind].
  assert (L3 : Zlen q3 = kPageSize) by (by rewrite (proj1 B3)).
  destruct (set_child q3 1 right_id L3) as (q4 & E4 & B4 & C4 & K4); [unfold key_slots; layout|done|].
  change (Z.of_nat 1) with 1 in E4. rewrite E4. cbn [mbind option_bind].
  assert (Hs : (2 <= key_slots)%nat) by (unfold key_slots; layout).
  apply (refill_node kInvalidPageId kInvalidPageId 0 [sep] [left_id; right_id] q1 q4);
    [done|by do 2 (eapply body_edit_trans; [done|])|cbn; lia|done|..].
  - intros [|j] k Hj; cbn in Hj; [|done]. injection Hj as <-. rewrite K4, K3 by lia. done.
  - intros [|[|j]] c Hj; cbn in Hj; [..|done]; injection Hj as <-.
    + rewrite C4 by lia. cbn. rewrite C3, C2 by (done || lia). done.
    + rewrite C4 by lia. done.
Qed.

Lemma insert_child_ok par ks1 ks2 cs1 c cs2 sep right_id p :
  node_page par (ks1 ++ ks2) (cs1 ++ c :: cs2) p -> length cs1 = length ks1 -> (length (ks1 ++ ks2) < key_slots)%nat ->
  key_ok sep -> sfits 32 right_id ->
  exists p', insert_child (Zlen (ks1 ++ ks2)) (Zlen ks1) sep right_id p = Some p'
    /\ node_page par (ks1 ++ sep :: ks2) (cs1 ++ c :: right_id :: cs2) p'.
Proof.
  intros [[nxt Hh] _ Hl Hk Hc] Hlen Hr Hsep Hrid. pose proof (hd_len _ _ _ _ _ Hh) as Hp.
  unfold insert_child, Zlen in *. rewrite !length_app in *. cbn [length] in *.
  replace (Z.to_nat (Z.of_nat (length ks1 + length ks2) - Z.of_nat (length ks1))) with (length ks2) by lia.
  destruct (shift_keys_ok (length ks2) (length ks1 + length ks2) p Hp) as (q1 & -> & B1 & K1 & C1); [lia|]. cbn [mbind option_bind].
  replace (Z.of_nat (length ks1 + length ks2) + 1) with (Z.of_nat (length ks1 + length ks2 + 1)) by lia.
  destruct (shift_children_ok (length ks2) (length ks1 + length ks2 + 1) q1) as (q2 & -> & B2 & K2 & C2); [by rewrite (proj1 B1)|lia|].
  cbn [mbind option_bind]. assert (L2 : Zlen q2 = kPageSize) by (by rewrite (proj1 B2), (proj1 B1)).
  destruct (set_key q2 false (length ks1) sep L2) as (q3 & -> & B3 & K3 & _ & C3); [lia|done|]. cbn [mbind option_bind].
  assert (L3 : Zlen q3 = kPageSize) by (by rewrite (proj1 B3)).
  replace (Z.of_nat (length ks1) + 1) with (Z.of_nat (S (length ks1))) by lia.
  destruct (set_child q3 (S (length ks1)) right_id L3) as (q4 & -> & B4 & C4 & K4); [lia|done|]. cbn [mbind option_bind].
  destruct (refill_node par nxt (Z.of_nat (length ks1 + length ks2)) (ks1 ++ sep :: ks2) (cs1 ++ c :: right_id :: cs2) p q4) as (q5 & E & N);
    [done|by do 3 (eapply body_edit_trans; [done|])|rewrite length_app; cbn; lia|rewrite !length_app; cbn; lia|..].
  - intros j k Hj. pose proof (lookup_lt_Some _ _ _ Hj) as Hlt. rewrite length_app in Hlt. cbn in Hlt.
    rewrite K4, K3 by lia. case_decide as Hji.
    { subst j. rewrite list_lookup_middle in Hj by done. by injection Hj as <-. }
    rewrite K2, K1 by lia. apply Hk. destruct (decide (j < length ks1)%nat).
    + rewrite decide_False by lia. rewrite lookup_app_l in Hj |- * by lia. done.
    + rewrite decide_True by lia. rewrite lookup_app_r in Hj |- * by lia.
      replace (j - length ks1)%nat with (S (j - 1 - length ks1)) in Hj by lia. done.
  - intros j x Hj. pose proof (lookup_lt_Some _ _ _ Hj) as Hlt. rewrite length_app in Hlt. cbn in Hlt.
    rewrite C4 by lia. case_decide as Hji.
    { subst j. rewrite lookup_app_r in Hj by lia. replace (S (length ks1) - length cs1)%nat with 1%nat in Hj by lia. by injection Hj as <-. }
    rewrite C3, C2 by (done || lia). rewrite C1 by (case_decide; lia). apply Hc. destruct (decide (j < S (length ks1))%nat).
    + rewrite decide_False by lia. destruct (decide (j < length cs1)%nat); [by rewrite lookup_app_l in Hj |- * by lia|].
      rewrite lookup_app_r in Hj |- * by lia. replace (j - length cs1)%nat with 0%nat in * by lia. done.
    + rewrite decide_True by lia. rewrite lookup_app_r in Hj |- * by lia.
      replace (j - length cs1)%nat with (S (S (j - length cs1 - 2))) in Hj by lia.
      replace (j - 1 - length cs1)%nat with (S (j - length cs1 - 2)) by lia. done.
  - exists q5. split; [|done]. rewrite <- E. unfold Zlen. rewrite length_app. cbn. do 2 f_equal. lia.
Qed.

(** *** Looking a key up in a page *)

(** [l] is split at the first key above [key]. *)
Definition splits_above (key : bytes) (l l1 l2 : list bytes) : Prop :=
  l = l1 ++ l2 /\ Forall (fun k => str_lt key k = false) l1 /\ (forall k, head l2 = Some k -> str_lt key k = true).

Lemma upper_index_ok p key l i :
  (forall j k, l !! j = Some k -> slot_key p false (i + j) = Some k) ->
  exists r l1 l2, upper_index p key (length l) (Z.of_nat i) = Some r /\ splits_above key l l1 l2
    /\ default (Z.of_nat i + Zlen l) r = Z.of_nat i + Zlen l1.
Proof.
  revert i. induction l as [|k l IH]; intros i H; cbn [length upper_index].
  - exists None, [], []. done.
  - pose proof (H 0%nat k eq_refl) as E. rewrite Nat.add_0_r in E. unfold slot_key in E. rewrite E. cbn [mbind option_bind].
    destruct (str_lt key k) eqn:Ek.
    { exists (Some (Z.of_nat i)), [], (k :: l). split; [done|]. split; [|cbn; unfold Zlen; cbn; lia].
      split; [done|]. split; [constructor|]. intros k' [= <-]. done. }
    replace (Z.of_nat i + 1) with (Z.of_nat (S i)) by lia.
    destruct (IH (S i)) as (r & l1 & l2 & -> & (-> & H1 & H2) & Hd).
    { intros j e He. replace (S i + j)%nat with (i + S j)%nat by lia. by apply H. }
    exists r, (k :: l1), l2. split; [done|]. split; [split; [done|]; split; [by constructor|done]|].
    destruct r as [r|]; cbn [default] in *; unfold Zlen in *; cbn [length] in *; lia.
Qed.

Lemma key_index_ok p key l i :
  (forall j k, l !! j = Some k -> slot_key p true (i + j) = Some k) ->
  (key_index p key (length l) (Z.of_nat i) = Some None /\ key ∉ l)
  \/ exists l1 l2, l = l1 ++ key :: l2 /\ (key ∉ l1) /\ key_index p key (length l) (Z.of_nat i) = Some (Some (Z.of_nat i + Zlen l1)).
Proof.
  revert i. induction l as [|k l IH]; intros i H; cbn [length key_index].
  - left. split; [done|]. apply not_elem_of_nil.
  - pose proof (H 0%nat k eq_refl) as E. rewrite Nat.add_0_r in E. unfold slot_key in E. rewrite E. cbn [mbind option_bind].
    case_bool_decide as Hk.
    { subst k. right. exists [], l. split; [done|]. split; [apply not_elem_of_nil|]. do 2 f_equal. unfold Zlen. cbn. lia. }
    replace (Z.of_nat i + 1) with (Z.of_nat (S i)) by lia.
    destruct (IH (S i)) as [[-> Hn]|(l1 & l2 & -> & Hn & ->)].
    { intros j e He. replace (S i + j)%nat with (i + S j)%nat by lia. by apply H. }
    + left. split; [done|]. rewrite not_elem_of_cons. by split.
    + right. exists (k :: l1), l2. split; [done|]. split; [rewrite not_elem_of_cons; by split|].
      do 2 f_equal. unfold Zlen. cbn [length]. lia.
Qed.

Lemma insert_index_ok p key l i :
  (forall j k, l !! j = Some k -> slot_key p true (i + j) = Some k) ->
  exists r l1 l2, insert_index p key (length l) (Z.of_nat i) = Some r /\ l = l1 ++ l2
    /\ Forall (fun k => k <> key /\ str_lt key k = false) l1
    /\ (if decide (head l2 = Some key) then r = Some (true, Z.of_nat i + Zlen l1)
        else (forall k, head l2 = Some k -> str_lt key k = true)
             /\ match r with Some (b, x) => b = false /\ x = Z.of_nat i + Zlen l1 | None => l2 = [] end).
Proof.
  revert i. induction l as [|k l IH]; intros i H; cbn [length insert_index].
  - exists None, [], []. split; [done|]. split; [done|]. split; [constructor|]. by rewrite decide_False.
  - pose proof (H 0%nat k eq_refl) as E. rewrite Nat.add_0_r in E. unfold slot_key in E. rewrite E. cbn [mbind option_bind].
    case_bool_decide as Hk.
    { subst k. exists (Some (true, Z.of_nat i)), [], (key :: l). split; [done|]. split; [done|]. split; [constructor|].
      rewrite decide_True by done. do 2 f_equal. unfold Zlen. cbn. lia. }
    destruct (str_lt key k) eqn:Ek.
    { exists (Some (false, Z.of_nat i)), [], (k :: l). split; [done|]. split; [done|]. split; [constructor|].
      rewrite decide_False by (cbn; congruence). split; [intros k' [= <-]; done|]. split; [done|]. unfold Zlen. cbn. lia. }
    replace (Z.of_nat i + 1) with (Z.of_nat (S i)) by lia.
    destruct (IH (S i)) as (r & l1 & l2 & -> & -> & H1 & H2).
    { intros j e He. replace (S i + j)%nat with (i + S j)%nat by lia. by apply H. }
    exists r, (k :: l1), l2. split; [done|]. split; [done|]. split; [by constructor|].
    assert (Hz : Z.of_nat (S i) + Zlen l1 = Z.of_nat i + Zlen (k :: l1)) by (unfold Zlen; cbn [length]; lia).
    rewrite Hz in H2. exact H2.
Qed.

(** A leaf of a scan. *)
Definition scan_room (limit : nat) (out : list (bytes * RID)) : Prop := limit = 0%nat \/ (length out < limit)%nat.

Lemma scan_leaf_ok p start limit es i out :
  (forall j e, es !! j = Some e -> slot_key p true (i + j) = Some e.1 /\ slot_rid p (i + j) = Some e.2) ->
  scan_room limit out ->
  let all := out ++ filter (fun e => str_lt e.1 start = false) es in
  scan_leaf p start limit (length es) (Z.of_nat i) out
  = Some (if (limit =? 0)%nat || (length all <? limit)%nat then (false, all) else (true, take limit all)).
Proof.
  revert i out. induction es as [|[k r] es IH]; intros i out H Hroom; cbn [length scan_leaf].
  - cbv zeta. rewrite filter_nil, app_nil_r. destruct Hroom as [-> |Hr]; [done|]. rewrite (proj2 (Nat.ltb_lt _ _) Hr), orb_true_r. done.
  - destruct (H 0%nat (k, r) eq_refl) as [E1 E2]. rewrite Nat.add_0_r in E1, E2. unfold slot_key, slot_rid in E1, E2. cbn [fst snd] in E1, E2.
    assert (Hs : forall j e, es !! j = Some e -> slot_key p true (S i + j) = Some e.1 /\ slot_rid p (S i + j) = Some e.2).
    { intros j e He. replace (S i + j)%nat with (i + S j)%nat by lia. by apply H. }
    rewrite E1. cbn [mbind option_bind]. replace (Z.of_nat i + 1) with (Z.of_nat (S i)) by lia. destruct (str_lt k start) eqn:Ek.
    { rewrite (IH (S i) out Hs Hroom). cbv zeta. rewrite filter_cons_False by (cbn; rewrite Ek; discriminate). reflexivity. }
    rewrite E2. cbn [mbind option_bind]. rewrite filter_cons_True by done.
    assert (Ha : (out ++ (k, r) :: filter (fun e => str_lt e.1 start = false) es)
                 = (out ++ [(k, r)]) ++ filter (fun e => str_lt e.1 start = false) es) by (by rewrite <- app_assoc).
    cbv zeta. rewrite Ha. destruct (negb (limit =? 0)%nat && (limit <=? length (out ++ [(k, r)]))%nat) eqn:El.
    + apply andb_true_iff in El as [E0 El]. apply negb_true_iff in E0. apply Nat.leb_le in El. rewrite E0. cbn [orb].
      apply Nat.eqb_neq in E0. destruct Hroom as [|Hroom]; [done|]. rewrite length_app in El. cbn in El.
      rewrite (proj2 (Nat.ltb_ge _ _)) by (rewrite !length_app; cbn; lia).
      rewrite take_app_le by (rewrite length_app; cbn; lia). rewrite take_ge by (rewrite length_app; cbn; lia). done.
    + rewrite IH; [done|done|]. apply andb_false_iff in El as [El|El]; [left; by apply negb_false_iff, Nat.eqb_eq in El|].
      right. by apply Nat.leb_gt in El.
Qed.
