(* ===== verification/BTree.v ===== *)
(** * B+Trees over pages

    The tree that a set of pages holds, the path to one of its leaves, and the sequence of
    entries and separators that orders it. *)
From stdpp Require Import functions.
From S2P Require Import Prelude Bytes AtRest SlottedPage DiskManager BufferPool BPlusTree Pins BNode.
Local Open Scope Z_scope.

Abbreviation entry := (bytes * RID)%type.

(** ** Order *)
Inductive item := IEntry (k : bytes) (r : RID) | ISep (k : bytes).

(** An entry is below the next separator, and not below the previous one. *)
Definition item_lt (x y : item) : Prop :=
  match x, y with
  | IEntry a _, IEntry b _ | IEntry a _, ISep b | ISep a, ISep b => str_lt a b = true
  | ISep a, IEntry b _ => str_lt b a = false
  end.

Definition below (key : bytes) (x : item) : Prop :=
  match x with IEntry a _ => str_lt a key = true | ISep a => str_lt key a = false end.
Definition above (key : bytes) (x : item) : Prop :=
  match x with IEntry a _ | ISep a => str_lt key a = true end.

Lemma str_lt_le a b c : str_lt a b = true -> str_lt c b = false -> str_lt a c = true.
Proof. intros H1 H2. destruct (str_lt a c) eqn:E; [done|]. by rewrite (nlt_trans str_lt b c a) in H1. Qed.
Lemma str_le_lt a b c : str_lt b a = false -> str_lt b c = true -> str_lt a c = true.
Proof. intros H1 H2. destruct (str_lt a c) eqn:E; [done|]. by rewrite (nlt_trans str_lt c a b) in H2. Qed.

#[export] Instance item_lt_trans : Transitive item_lt.
Proof.
  intros x y z. destruct x as [a ?|a], y as [b ?|b], z as [c ?|c]; cbn; intros H1 H2.
  - by apply (lt_trans (ltb := str_lt) a b c).
  - by apply (lt_trans (ltb := str_lt) a b c).
  - by apply (str_lt_le a b c).
  - by apply (lt_trans (ltb := str_lt) a b c).
  - apply (lt_asym str_lt). by apply (str_le_lt a b c).
  - by apply (str_le_lt a b c).
  - apply (lt_asym str_lt). by apply (str_lt_le a b c).
  - by apply (lt_trans (ltb := str_lt) a b c).
Qed.

Abbreviation ordered := (StronglySorted item_lt).

Lemma ordered_app l1 l2 : ordered (l1 ++ l2) <-> ordered l1 /\ ordered l2 /\ forall x y, x ∈ l1 -> y ∈ l2 -> item_lt x y.
Proof.
  induction l1 as [|x l1 IH]; cbn.
  - split; [|tauto]. intros H. split; [constructor|]. split; [done|]. intros x y Hx. by apply elem_of_nil in Hx.
  - split.
    + intros H. inversion H as [|? ? Hs Hf]; subst. apply IH in Hs as (H1 & H2 & H3). apply Forall_app in Hf as [F1 F2].
      split; [by constructor|]. split; [done|]. intros y z [->|Hy]%elem_of_cons Hz; [|by apply H3].
      rewrite Forall_forall in F2. by apply F2.
    + intros (H1 & H2 & H3). inversion H1 as [|? ? Hs Hf]; subst. constructor.
      * apply IH. split; [done|]. split; [done|]. intros y z Hy Hz. apply H3; [by right|done].
      * apply Forall_app. split; [done|]. apply Forall_forall. intros y Hy. apply H3; [left|done].
Qed.

(** An item that fits between two parts. *)
Lemma ordered_insert l1 x l2 :
  ordered (l1 ++ l2) -> (forall y, y ∈ l1 -> item_lt y x) -> (forall y, y ∈ l2 -> item_lt x y) -> ordered (l1 ++ x :: l2).
Proof.
  intros (H1 & H2 & H3)%ordered_app A B. apply ordered_app. split; [done|]. split; [constructor; [done|]; by apply Forall_forall|].
  intros y z Hy [->|Hz]%elem_of_cons; [by apply A|by apply H3].
Qed.

Lemma ordered_remove l1 x l2 : ordered (l1 ++ x :: l2) -> ordered (l1 ++ l2).
Proof.
  intros (H1 & H2 & H3)%ordered_app. inversion H2; subst. apply ordered_app. split; [done|]. split; [done|].
  intros y z Hy Hz. apply H3; [done|by right].
Qed.

Definition items (es : list entry) : list item := map (fun e => IEntry e.1 e.2) es.
Definition entries_of (l : list item) : list entry := omap (fun x => match x with IEntry k r => Some (k, r) | ISep _ => None end) l.

Lemma entries_items es : entries_of (items es) = es.
Proof. unfold entries_of, items. induction es as [|[k r] es IH]; cbn; [done|]. by rewrite IH. Qed.
Lemma entries_app l1 l2 : entries_of (l1 ++ l2) = entries_of l1 ++ entries_of l2.
Proof. apply omap_app. Qed.
Lemma entry_in l k r : (k, r) ∈ entries_of l <-> IEntry k r ∈ l.
Proof.
  unfold entries_of. rewrite list_elem_of_omap. split.
  - intros ([k' r'|k'] & Hin & Heq); [by injection Heq as -> ->|done].
  - intros H. by exists (IEntry k r).
Qed.

(** What stands around a key does not hold it. *)
Lemma below_not key l : Forall (below key) l -> key ∉ (entries_of l).*1.
Proof.
  rewrite Forall_forall. intros H ([k r] & -> & Hin)%list_elem_of_fmap. apply entry_in in Hin. apply H in Hin. cbn in Hin.
  by rewrite (lt_irrefl (ltb := str_lt)) in Hin.
Qed.
Lemma above_not key l : Forall (above key) l -> key ∉ (entries_of l).*1.
Proof.
  rewrite Forall_forall. intros H ([k r] & -> & Hin)%list_elem_of_fmap. apply entry_in in Hin. apply H in Hin. cbn in Hin.
  by rewrite (lt_irrefl (ltb := str_lt)) in Hin.
Qed.

Lemma ordered_entries l : ordered l -> sorted_strict str_lt fst (entries_of l).
Proof.
  unfold sorted_strict. induction 1 as [|x l Hs IH Hf]; [constructor|]. destruct x as [k r|k]; cbn; [|done].
  constructor; [done|]. apply Forall_forall. intros [k' r'] Hin. apply entry_in in Hin. rewrite Forall_forall in Hf.
  by apply Hf in Hin.
Qed.

(** ** Trees *)
Inductive tree := TLeaf (id : Z) (es : list entry) | TNode (id : Z) (ks : list bytes) (ts : list tree).

Definition root_id (t : tree) : Z := match t with TLeaf id _ | TNode id _ _ => id end.

(** Separators after, or before, the parts they belong to. *)
Fixpoint pre (ks : list bytes) (ls : list (list item)) : list item :=
  match ks, ls with k :: ks', l :: ls' => l ++ ISep k :: pre ks' ls' | _, _ => [] end.
Fixpoint suf (ks : list bytes) (ls : list (list item)) : list item :=
  match ks, ls with k :: ks', l :: ls' => ISep k :: l ++ suf ks' ls' | _, _ => [] end.
Definition weave (ks : list bytes) (ls : list (list item)) : list item :=
  match ls with [] => [] | l :: ls' => l ++ suf ks ls' end.

Fixpoint flat (t : tree) : list item :=
  match t with TLeaf _ es => items es | TNode _ ks ts => weave ks (map flat ts) end.
Fixpoint ids (t : tree) : list Z :=
  match t with TLeaf id _ => [id] | TNode id _ ts => id :: concat (map ids ts) end.
Fixpoint leafs (t : tree) : list (Z * list entry) :=
  match t with TLeaf id es => [(id, es)] | TNode _ _ ts => concat (map leafs ts) end.

Lemma weave_zip ks1 ks2 ls1 l ls2 :
  length ls1 = length ks1 -> weave (ks1 ++ ks2) (ls1 ++ l :: ls2) = pre ks1 ls1 ++ l ++ suf ks2 ls2.
Proof.
  revert ls1. induction ks1 as [|k ks1 IH]; intros [|l1 ls1] Hl; try done. cbn in Hl. injection Hl as Hl.
  specialize (IH ls1 Hl). cbn [app weave suf pre]. rewrite <- app_assoc. f_equal. cbn [app]. rewrite <- IH.
  unfold weave. by destruct ls1.
Qed.

Lemma weave_split ks1 k ks2 ls1 ls2 :
  length ls1 = S (length ks1) -> ls2 <> [] -> weave (ks1 ++ k :: ks2) (ls1 ++ ls2) = weave ks1 ls1 ++ ISep k :: weave ks2 ls2.
Proof.
  intros Hl Hne. destruct ls1 as [|l1 ls1]; [done|]. destruct ls2 as [|l2 ls2]; [done|]. cbn in Hl. injection Hl as Hl. cbn [weave app].
  rewrite <- app_assoc. f_equal. revert ls1 Hl. induction ks1 as [|k1 ks1 IH]; intros [|l ls1] Hl; try done. cbn in Hl. injection Hl as Hl.
  cbn [app suf]. rewrite <- app_assoc. do 2 f_equal. by apply IH.
Qed.

(** The pages hold the tree; all leaves at depth [h]. *)
Fixpoint stored (h : nat) (V : Z -> bytes) (par : Z) (t : tree) : Prop :=
  match h, t with
  | O, TLeaf id es => exists nxt, leaf_page par nxt es (V id)
  | S h', TNode id ks ts => ks <> [] /\ node_page par ks (map root_id ts) (V id) /\ Forall (stored h' V id) ts
  | _, _ => False
  end.

Lemma root_in_ids t : root_id t ∈ ids t.
Proof. destruct t; cbn; left. Qed.

Lemma in_concat_map {A B} (f : A -> list B) l x y : x ∈ l -> y ∈ f x -> y ∈ concat (map f l).
Proof. intros Hx Hy. apply list_elem_of_In, in_concat. exists (f x). split; [apply in_map; by apply list_elem_of_In|by apply list_elem_of_In]. Qed.

Lemma stored_frame h V V' par t : (forall i, i ∈ ids t -> V' i = V i) -> stored h V par t -> stored h V' par t.
Proof.
  revert par t. induction h as [|h IH]; intros par [id es|id ks ts] HV; cbn; try done.
  - intros [nxt H]. exists nxt. rewrite HV; [done|cbn; left].
  - intros (H1 & H2 & H3). split; [done|]. split; [rewrite HV; [done|cbn; left]|].
    rewrite Forall_forall in H3 |- *. intros t Ht. apply IH; [|by apply H3]. intros i Hi. apply HV. cbn. right.
    by eapply in_concat_map.
Qed.

(** ** Paths: the nodes above a subtree, innermost first *)
Record step := mkStep { st_id : Z; st_lk : list bytes; st_lt : list tree; st_rk : list bytes; st_rt : list tree }.
Abbreviation path := (list step).

Definition wrap_node (t : tree) (s : step) : tree := TNode (st_id s) (st_lk s ++ st_rk s) (st_lt s ++ t :: st_rt s).
Definition plug (c : path) (t : tree) : tree := fold_left wrap_node c t.
Definition parent_of (c : path) : Z := match c with [] => kInvalidPageId | s :: _ => st_id s end.

Fixpoint flat_left (c : path) : list item :=
  match c with [] => [] | s :: up => flat_left up ++ pre (st_lk s) (map flat (st_lt s)) end.
Fixpoint flat_right (c : path) : list item :=
  match c with [] => [] | s :: up => suf (st_rk s) (map flat (st_rt s)) ++ flat_right up end.
Fixpoint path_ids (c : path) : list Z :=
  match c with [] => [] | s :: up => st_id s :: concat (map ids (st_lt s)) ++ concat (map ids (st_rt s)) ++ path_ids up end.
Fixpoint leafs_left (c : path) : list (Z * list entry) :=
  match c with [] => [] | s :: up => leafs_left up ++ concat (map leafs (st_lt s)) end.
Fixpoint leafs_right (c : path) : list (Z * list entry) :=
  match c with [] => [] | s :: up => concat (map leafs (st_rt s)) ++ leafs_right up end.

(** The pages of a path, around a subtree of height [h] rooted at [hole]. *)
Fixpoint path_stored (h : nat) (V : Z -> bytes) (c : path) (hole : Z) : Prop :=
  match c with
  | [] => True
  | s :: up =>
      length (st_lt s) = length (st_lk s) /\ st_lk s ++ st_rk s <> []
      /\ node_page (parent_of up) (st_lk s ++ st_rk s) (map root_id (st_lt s) ++ hole :: map root_id (st_rt s)) (V (st_id s))
      /\ Forall (stored h V (st_id s)) (st_lt s) /\ Forall (stored h V (st_id s)) (st_rt s)
      /\ path_stored (S h) V up (st_id s)
  end.

Lemma stored_plug h V c t :
  path_stored h V c (root_id t) -> stored h V (parent_of c) t -> stored (length c + h) V kInvalidPageId (plug c t).
Proof.
  revert h t. induction c as [|s up IH]; intros h t; cbn [path_stored parent_of length plug fold_left]; [done|].
  intros (H1 & H2 & H3 & H4 & H5 & H6) Ht. replace (S (length up) + h)%nat with (length up + S h)%nat by lia.
  apply (IH (S h) (wrap_node t s)); [done|]. cbn. split; [done|]. split; [by rewrite map_app|].
  apply Forall_app. split; [done|]. by constructor.
Qed.

Lemma path_frame h V V' c hole : (forall i, i ∈ path_ids c -> V' i = V i) -> path_stored h V c hole -> path_stored h V' c hole.
Proof.
  revert h hole. induction c as [|s up IH]; intros h hole HV; cbn [path_stored]; [done|].
  intros (H1 & H2 & H3 & H4 & H5 & H6). split; [done|]. split; [done|].
  assert (Hin : forall i, i ∈ concat (map ids (st_lt s)) \/ i ∈ concat (map ids (st_rt s)) -> V' i = V i)
    by (intros i Hi; apply HV; cbn; set_solver).
  split; [rewrite HV; [done|cbn; left]|].
  split; [|split].
  - rewrite Forall_forall in H4 |- *. intros t Ht. eapply stored_frame; [|by apply H4]. intros i Hi. apply Hin. left. by eapply in_concat_map.
  - rewrite Forall_forall in H5 |- *. intros t Ht. eapply stored_frame; [|by apply H5]. intros i Hi. apply Hin. right. by eapply in_concat_map.
  - apply IH; [|done]. intros i Hi. apply HV. cbn. set_solver.
Qed.

Lemma flat_plug h V c t : path_stored h V c (root_id t) -> flat (plug c t) = flat_left c ++ flat t ++ flat_right c.
Proof.
  revert h t. induction c as [|s up IH]; intros h t; cbn [path_stored plug fold_left flat_left flat_right].
  - intros _. by rewrite app_nil_r.
  - intros (H1 & _ & _ & _ & _ & H6). fold (plug up (wrap_node t s)). rewrite (IH (S h)) by done. cbn [wrap_node flat].
    rewrite map_app. cbn [map]. rewrite weave_zip by (by rewrite length_map). by rewrite <- !app_assoc.
Qed.

Lemma ids_plug c t : ids (plug c t) ≡ₚ ids t ++ path_ids c.
Proof.
  revert t. induction c as [|s up IH]; intros t; cbn [plug fold_left path_ids]; [by rewrite app_nil_r|].
  fold (plug up (wrap_node t s)). rewrite IH. cbn [wrap_node ids]. rewrite map_app, concat_app. cbn [map concat]. solve_Permutation.
Qed.

Lemma leafs_plug c t : leafs (plug c t) = leafs_left c ++ leafs t ++ leafs_right c.
Proof.
  revert t. induction c as [|s up IH]; intros t; cbn [plug fold_left leafs_left leafs_right]; [by rewrite app_nil_r|].
  fold (plug up (wrap_node t s)). rewrite IH. cbn [wrap_node leafs]. rewrite map_app, concat_app. cbn [map concat].
  by rewrite <- !app_assoc.
Qed.

(** ** Leaves in order *)
Lemma tree_forall_ind (P : tree -> Prop) :
  (forall id es, P (TLeaf id es)) -> (forall id ks ts, Forall P ts -> P (TNode id ks ts)) -> forall t, P t.
Proof.
  intros HL HN. fix IH 1. intros [id es|id ks ts]; [apply HL|]. apply HN. induction ts as [|t ts IHts]; constructor; [apply IH|done].
Qed.

Lemma sublist_mem {A} (l l' : list A) x : sublist l l' -> x ∈ l -> x ∈ l'.
Proof. intros H Hx. eapply elem_of_submseteq; [exact Hx|]. by apply sublist_submseteq. Qed.
Lemma sublist_nodup {A} (l l' : list A) : sublist l l' -> NoDup l' -> NoDup l.
Proof.
  induction 1 as [|x l l' Hs IH|x l l' Hs IH]; intros Hn; [done|..]; apply NoDup_cons in Hn as [Hx Hn]; [|by apply IH].
  constructor; [|by apply IH]. intros Hin. by apply Hx, (sublist_mem l).
Qed.

Lemma sublist_concat {A B C} (f : A -> list B) (g : A -> list C) (h : C -> B) l :
  Forall (fun x => sublist (map h (g x)) (f x)) l -> sublist (map h (concat (map g l))) (concat (map f l)).
Proof. induction 1 as [|x l Hx _ IH]; cbn; [done|]. rewrite map_app. by apply sublist_app. Qed.

Lemma leafs_sublist t : sublist (leafs t).*1 (ids t).
Proof.
  induction t as [id es|id ks ts IH] using tree_forall_ind; cbn; [done|]. apply sublist_cons.
  by apply (sublist_concat ids leafs fst).
Qed.

Lemma leaf_in_ids t e : e ∈ leafs t -> e.1 ∈ ids t.
Proof. intros He. eapply sublist_mem; [apply leafs_sublist|]. apply list_elem_of_fmap. by exists e. Qed.

(** The leaves are on pages, and their entries in order are those of the tree. *)
Lemma leaf_stored h V par t e : stored h V par t -> e ∈ leafs t -> exists par' nxt, leaf_page par' nxt e.2 (V e.1).
Proof.
  revert par t. induction h as [|h IH]; intros par [id es|id ks ts]; cbn; try done.
  - intros [nxt H] ->%list_elem_of_singleton. by exists par, nxt.
  - intros (_ & _ & H) He. apply list_elem_of_In, in_concat in He as (l & Hl & He). apply in_map_iff in Hl as (t & <- & Ht).
    rewrite Forall_forall in H. apply (IH id t); [apply H|]; by apply list_elem_of_In.
Qed.

Lemma entries_weave ks (ts : list tree) :
  length ts = S (length ks) -> Forall (fun t => entries_of (flat t) = concat (leafs t).*2) ts ->
  entries_of (weave ks (map flat ts)) = concat (concat (map leafs ts)).*2.
Proof.
  intros Hl Hf. destruct ts as [|t ts]; [done|]. cbn in Hl. injection Hl as Hl. apply Forall_cons in Hf as [Ht Hf].
  cbn [map weave concat]. rewrite entries_app, fmap_app, concat_app, Ht. f_equal.
  revert ks Hl. induction Hf as [|u ts Hu _ IH]; intros [|k ks] Hl; try done. cbn in Hl. injection Hl as Hl.
  cbn [map suf concat]. cbn [entries_of omap list_omap]. fold (entries_of (flat u ++ suf ks (map flat ts))).
  rewrite entries_app, Hu, fmap_app, concat_app. f_equal. by apply IH.
Qed.

Lemma entries_leafs h V par t : stored h V par t -> entries_of (flat t) = concat (leafs t).*2.
Proof.
  revert par t. induction h as [|h IH]; intros par [id es|id ks ts]; cbn [stored flat leafs]; try done.
  - intros _. cbn. by rewrite entries_items, app_nil_r.
  - intros (_ & Hn & H). apply entries_weave; [pose proof (np_len _ _ _ _ Hn) as Hl; by rewrite length_map in Hl|].
    eapply Forall_impl; [exact H|]. intros t. apply IH.
Qed.

(** A tree of height [h] has at least [2 ^ h] leaves. *)
Lemma leafs_many h V par t : stored h V par t -> (2 ^ h <= length (leafs t))%nat.
Proof.
  revert par t. induction h as [|h IH]; intros par [id es|id ks ts]; cbn [stored leafs]; try done.
  intros (Hk & Hn & H). pose proof (np_len _ _ _ _ Hn) as Hl. rewrite length_map in Hl.
  destruct ks as [|k ks]; [done|]. destruct ts as [|t1 [|t2 ts]]; try done.
  apply Forall_cons in H as [H1 H]. apply Forall_cons in H as [H2 _]. apply IH in H1, H2.
  cbn [map concat]. rewrite !length_app. cbn [Nat.pow]. lia.
Qed.

(** The leaves are chained. *)
Fixpoint links (V : Z -> bytes) (l : list Z) : Prop :=
  match l with
  | [] => True
  | i :: rest => next_leaf_page_id (V i) = Some (default kInvalidPageId (head rest)) /\ links V rest
  end.

Lemma links_frame V V' l : (forall i, i ∈ l -> next_leaf_page_id (V' i) = next_leaf_page_id (V i)) -> links V l -> links V' l.
Proof.
  induction l as [|i l IH]; [done|]. intros HV [H1 H2]. split; [rewrite HV; [done|left]|]. apply IH; [|done].
  intros j Hj. apply HV. by right.
Qed.

Lemma links_app V l1 l2 : links V (l1 ++ l2) -> links V l2.
Proof. induction l1 as [|i l1 IH]; [done|]. intros [_ H]. by apply IH. Qed.

(** A new leaf behind [i]. *)
Lemma links_insert V V' l1 i j l2 nxt :
  links V (l1 ++ i :: l2) -> NoDup (l1 ++ i :: j :: l2) ->
  next_leaf_page_id (V i) = Some nxt -> next_leaf_page_id (V' i) = Some j -> next_leaf_page_id (V' j) = Some nxt ->
  (forall x, x ∈ l1 \/ x ∈ l2 -> next_leaf_page_id (V' x) = next_leaf_page_id (V x)) ->
  links V' (l1 ++ i :: j :: l2).
Proof.
  induction l1 as [|x l1 IH]; cbn [app links].
  - intros [H1 H2] _ Hi Hi' Hj HV. split; [done|]. rewrite H1 in Hi. injection Hi as <-. split; [done|].
    eapply links_frame; [|exact H2]. intros y Hy. apply HV. by right.
  - intros [H1 H2] Hn Hi Hi' Hj HV. split.
    + rewrite HV by (left; left). rewrite H1. by destruct l1.
    + apply IH; try done; [by apply NoDup_cons in Hn as [_ Hn]|]. intros y [Hy|Hy]; apply HV; [left; by right|by right].
Qed.

Record tree_ok (V : Z -> bytes) (n : Z) (h : nat) (t : tree) : Prop := {
  to_stored : stored h V kInvalidPageId t;
  to_nodup : NoDup (ids t);
  to_range : forall i, i ∈ ids t -> 0 <= i < n;
  to_links : links V (leafs t).*1;
  to_order : ordered (flat t);
}.

(** Page ids are 32 bits wide, so no tree is as deep as the bound of a descent. *)
Lemma tree_height V n h t : tree_ok V n h t -> n <= 2 ^ 31 -> (h <= 31)%nat.
Proof.
  intros [Hs Hn Hr _ _] Hmax. pose proof (leafs_many _ _ _ _ Hs) as H1.
  pose proof (sublist_length _ _ (leafs_sublist t)) as H2. rewrite length_fmap in H2.
  assert (H3 : (length (ids t) <= Z.to_nat n)%nat).
  { rewrite <- (length_seq (Z.to_nat n) 0), <- (length_fmap Z.to_nat (ids t)). apply submseteq_length, NoDup_submseteq.
    - apply (NoDup_fmap_2_strong Z.to_nat); [|done]. intros x y Hx Hy. pose proof (Hr x Hx). pose proof (Hr y Hy). lia.
    - intros x (i & -> & Hi)%list_elem_of_fmap. apply elem_of_seq. pose proof (Hr i Hi). lia. }
  destruct (Nat.le_gt_cases h 31) as [|Hh]; [done|]. exfalso.
  assert (2 ^ 32 <= 2 ^ h)%nat by (apply Nat.pow_le_mono_r; lia).
  assert (Z.of_nat (2 ^ 32) = 2 ^ 32) by (rewrite Nat2Z.inj_pow; done). lia.
Qed.
