(* ===== verification/BPlusProps.v ===== *)
(** * The B+Tree is an ordered map *)
From stdpp Require Import functions.
From S2P Require Import Prelude Bytes AtRest SlottedPage DiskManager BufferPool BufferPoolProps BPlusTree Pins BNode BTree.
Local Open Scope Z_scope.

Lemma to_nat_Zlen {A} (l : list A) : Z.to_nat (Zlen l) = length l.
Proof. unfold Zlen. apply Nat2Z.id. Qed.

(** ** What surrounds a path *)
Definition brackets (key : bytes) (c : path) : Prop := Forall (below key) (flat_left c) /\ Forall (above key) (flat_right c).

Lemma pre_below key ks ls :
  length ls = length ks -> Forall (fun k => str_lt key k = false) ks -> ordered (pre ks ls) -> Forall (below key) (pre ks ls).
Proof.
  revert ls. induction ks as [|k ks IH]; intros [|l ls] Hl Hk Ho; cbn [pre] in *; try constructor.
  apply Forall_cons in Hk as [Hk Hks]. cbn in Hl. apply ordered_app in Ho as (_ & Ho2 & Hlt). inversion Ho2; subst.
  apply Forall_app. split; [|constructor; [done|apply IH; [lia|done|done]]].
  apply Forall_forall. intros x Hx. specialize (Hlt x (ISep k) Hx ltac:(left)).
  destruct x as [a r|a]; cbn in *; [by apply (str_lt_le a k key)|]. apply (lt_asym str_lt). by apply (str_lt_le a k key).
Qed.

Lemma suf_above key ks ls :
  length ls = length ks -> (forall k, head ks = Some k -> str_lt key k = true) -> ordered (suf ks ls) -> Forall (above key) (suf ks ls).
Proof.
  destruct ks as [|k ks], ls as [|l ls]; intros Hl Hk Ho; cbn [suf] in *; try constructor; [by apply Hk|].
  specialize (Hk k eq_refl). inversion Ho as [|? ? _ Hf]; subst. eapply Forall_impl; [exact Hf|].
  intros [a r|a]; cbn; [by apply str_lt_le|by apply (lt_trans (ltb := str_lt))].
Qed.

Lemma ordered_infix l1 l2 l3 : ordered (l1 ++ l2 ++ l3) -> ordered l2.
Proof. intros (_ & (H & _ & _)%ordered_app & _)%ordered_app. done. Qed.

(** The key is looked up in the leaf at the end of the path, and nowhere else. *)
Lemma bracket_assoc key l es r :
  Forall (below key) l -> Forall (above key) r -> assoc key (entries_of (l ++ items es ++ r)) = assoc key es.
Proof.
  intros Hl Hr. rewrite !entries_app, entries_items.
  assert (A : forall (x y : list entry), key ∉ x.*1 -> assoc key (x ++ y) = assoc key y).
  { intros x y. induction x as [|[k v] x IH]; [done|]. cbn. rewrite not_elem_of_cons. intros [H1 H2].
    rewrite decide_False by done. by apply IH. }
  rewrite A by (by apply below_not). destruct (assoc key es) as [v|] eqn:E.
  - clear A Hl. induction es as [|[k v'] es IH]; [done|]. cbn in *. case_decide; [done|]. by apply IH.
  - rewrite A; [|by apply assoc_None]. apply assoc_None. by apply above_not.
Qed.

(** ** Entries as a map *)
Lemma assoc_skip {V} (k : bytes) (x y : list (bytes * V)) : k ∉ x.*1 -> assoc k (x ++ y) = assoc k y.
Proof.
  induction x as [|[k' v] x IH]; [done|]. cbn. rewrite not_elem_of_cons. intros [H1 H2]. rewrite decide_False by done. by apply IH.
Qed.

Lemma assoc_middle {V} (key k : bytes) (x y : list (bytes * V)) v :
  key ∉ x.*1 -> assoc k (x ++ (key, v) :: y) = if decide (k = key) then Some v else assoc k (x ++ y).
Proof.
  intros Hx. case_decide as Hk.
  - subst k. rewrite assoc_skip by done. cbn. by rewrite decide_True.
  - clear Hx. induction x as [|[k' v'] x IH]; cbn; [by rewrite decide_False|]. case_decide; [done|]. apply IH.
Qed.

(** Where a new key fits. *)
Definition fits_between (key : bytes) (l1 l2 : list entry) : Prop :=
  Forall (fun e => str_lt e.1 key = true) l1 /\ Forall (fun e => str_lt key e.1 = true) l2.

Lemma fits_order key r l l1 l2 rr :
  ordered (l ++ items (l1 ++ l2) ++ rr) -> Forall (below key) l -> Forall (above key) rr -> fits_between key l1 l2 ->
  ordered (l ++ items (l1 ++ (key, r) :: l2) ++ rr).
Proof.
  intros Ho Hl Hr [H1 H2]. unfold items in *. rewrite !map_app in *. cbn [map fst snd]. rewrite <- !app_assoc in *. cbn [app].
  rewrite app_assoc in Ho |- *. rewrite Forall_forall in Hl. rewrite Forall_forall in Hr. rewrite Forall_forall in H1. rewrite Forall_forall in H2. apply ordered_insert; [done|..].
  - intros y [Hy|Hy]%elem_of_app.
    + specialize (Hl y Hy). by destruct y.
    + apply list_elem_of_In, in_map_iff in Hy as (e & <- & He). apply H1. by apply list_elem_of_In.
  - intros y [Hy|Hy]%elem_of_app.
    + apply list_elem_of_In, in_map_iff in Hy as (e & <- & He). apply H2. by apply list_elem_of_In.
    + specialize (Hr y Hy). by destruct y.
Qed.

Lemma fits_not key l1 l2 : fits_between key l1 l2 -> (key ∉ l1.*1) /\ (key ∉ l2.*1).
Proof.
  intros [H1 H2]. rewrite Forall_forall in H1. rewrite Forall_forall in H2.
  split; intros (e & -> & He)%list_elem_of_fmap; [apply H1 in He|apply H2 in He]; by rewrite (lt_irrefl (ltb := str_lt)) in He.
Qed.

(** In an ordered leaf the loop of an insertion stops where the key fits. *)
Lemma ordered_items_tail e l : ordered (items (e :: l)) -> Forall (fun e' => str_lt e.1 e'.1 = true) l.
Proof.
  cbn [items map]. intros H. inversion H as [|? ? _ Hf]; subst. rewrite Forall_forall in Hf. apply Forall_forall. intros e' He'.
  apply (Hf (IEntry e'.1 e'.2)). unfold items. apply list_elem_of_In, in_map_iff. exists e'. split; [done|]. by apply list_elem_of_In.
Qed.

Lemma ordered_items_app l1 l2 : ordered (items (l1 ++ l2)) -> ordered (items l2).
Proof. unfold items. rewrite map_app. by intros (_ & H & _)%ordered_app. Qed.

Section Tree.
Context `{C : Crypto} `{!CryptoLaws C} `{K : DiskKey}.
Implicit Types (b : BufferPool) (V : Z -> bytes).

(** A page read and given back. *)
Lemma held_read b V n id :
  held b V n [] ∅ -> 0 <= id < n ->
  exists f b1, FetchPage id b = (Some f, b1) /\ frame_data f b1 = V id /\ held b1 V n [(id, f)] ∅
    /\ held (unpin id false b1) V n [] ∅.
Proof.
  intros H Hid. destruct (held_fetch b V n [] ∅ id H) as (f & b1 & E & H1 & D); [apply not_elem_of_nil|done|cbn; lia|].
  exists f, b1. split; [done|]. split; [done|]. split; [done|]. rewrite <- (empty_diff id). eapply held_unpin; [exact H1|].
  intros _. apply not_elem_of_empty.
Qed.

Record at_leaf V (whole : tree) (key : bytes) (c : path) (id : Z) (es : list entry) : Prop := {
  al_plug : plug c (TLeaf id es) = whole;
  al_path : path_stored 0 V c id;
  al_leaf : stored 0 V (parent_of c) (TLeaf id es);
  al_key : brackets key c;
}.

Lemma descend_ok hops h key c t b V n whole :
  held b V n [] ∅ -> path_stored h V c (root_id t) -> stored h V (parent_of c) t -> plug c t = whole ->
  ordered (flat whole) -> NoDup (ids whole) -> (forall i, i ∈ ids whole -> 0 <= i < n) -> (h < hops)%nat -> brackets key c ->
  exists c' id es b', descend hops (root_id t) key b = Some (id, b') /\ held b' V n [] ∅
    /\ at_leaf V whole key c' id es /\ length c' = (length c + h)%nat.
Proof.
  revert hops c t b. induction h as [|h IH]; intros [|hops] c t b Hb Hc Ht Hw Ho Hn Hr Hh Hk; try lia;
    assert (Hid : 0 <= root_id t < n) by (apply Hr; rewrite <- Hw, ids_plug; apply elem_of_app; left; apply root_in_ids);
    destruct (held_read b V n (root_id t) Hb Hid) as (f & b1 & E & D & _ & Hb');
    cbn [descend]; rewrite (proj2 (Z.eqb_neq _ _)) by (unfold kInvalidPageId; lia); rewrite E; cbv zeta; rewrite D.
  - destruct t as [id es|]; [|done]. cbn [root_id] in *. destruct Ht as [nxt Hl].
    rewrite (hd_leaf _ _ _ _ _ (lp_header _ _ _ _ Hl)). cbn [mbind option_bind].
    exists c, id, es, (unpin id false b1). split; [done|]. split; [done|]. split; [|lia]. split; try done. by exists nxt.
  - destruct t as [|id ks ts]; [done|]. cbn [root_id] in *. destruct Ht as (Hne & Hp & Hts).
    destruct Hp as [[nxt Hh'] Hroom Hlen Hkeys Hcs]. rewrite (hd_leaf _ _ _ _ _ Hh'). cbn [mbind option_bind].
    rewrite (hd_num _ _ _ _ _ Hh'). cbn [mbind option_bind]. rewrite to_nat_Zlen.
    destruct (upper_index_ok (V id) key ks 0) as (r & l1 & l2 & Ei & (-> & S1 & S2) & Hd); [done|].
    change (Z.of_nat 0) with 0 in Ei, Hd. rewrite Ei. cbn [mbind option_bind]. rewrite !Z.add_0_l in Hd.
    rewrite length_map in Hlen. rewrite length_app in Hlen, Hroom.
    assert (Hlt : (length l1 < length ts)%nat) by lia. apply lookup_lt_is_Some in Hlt as [u Hu].
    pose proof (take_drop_middle _ _ _ Hu) as Hts'. set (tl := take (length l1) ts) in *. set (tr := drop (S (length l1)) ts) in *.
    assert (Htl : length tl = length l1) by (unfold tl; rewrite length_take; lia).
    assert (Htr : length tr = length l2) by (unfold tr; rewrite length_drop; lia).
    rewrite Hd. unfold Zlen at 1. pose proof (Hcs (length l1) (root_id u)) as Hcu. unfold slot_child in Hcu.
    rewrite Hcu by (rewrite list_lookup_fmap, Hu; done). cbn [mbind option_bind].
    set (s := mkStep id l1 tl l2 tr). assert (Hw' : plug (s :: c) u = whole) by (rewrite <- Hw; cbn; unfold wrap_node; cbn; by rewrite Hts').
    assert (Hnid : id <> root_id u).
    { intros Heq. rewrite <- Hw', ids_plug in Hn. apply NoDup_app in Hn as (_ & Hn & _). apply (Hn (root_id u)); [apply root_in_ids|].
      rewrite <- Heq. cbn. left. }
    rewrite (proj2 (Z.eqb_neq _ _)) by congruence. rewrite <- Hts' in Hts. apply Forall_app in Hts as [F1 F2]. apply Forall_cons in F2 as [Fu F2].
    assert (Hcp : path_stored h V (s :: c) (root_id u)).
    { cbn. split; [done|]. split; [done|]. split; [|done]. split; [by exists nxt|by rewrite length_app| | |].
      - rewrite <- map_cons, <- map_app, Hts', length_map, length_app. lia.
      - done.
      - by rewrite <- map_cons, <- map_app, Hts'. }
    assert (Hfl : ordered (flat_left (s :: c) ++ flat u ++ flat_right (s :: c))) by (by rewrite <- (flat_plug h V), Hw').
    destruct (IH hops (s :: c) u (unpin id false b1)) as (c' & lid & es & b' & Ed & Hb2 & Ha & Hl2); try done; [lia| |].
    { destruct Hk as [K1 K2]. cbn [flat_left flat_right] in Hfl. split; cbn [flat_left flat_right st_lk st_lt st_rk st_rt s].
      - apply Forall_app. split; [done|]. apply pre_below; [by rewrite length_map|done|].
        rewrite <- app_assoc in Hfl. by apply ordered_infix in Hfl.
      - apply Forall_app. split; [|done]. apply suf_above; [by rewrite length_map|done|].
        rewrite app_assoc in Hfl. by apply ordered_infix in Hfl. }
    exists c', lid, es, b'. split; [done|]. split; [done|]. split; [done|]. cbn in Hl2. lia.
Qed.

Lemma FindLeaf_ok key b V n h t :
  held b V n [] ∅ -> tree_ok V n h t -> n <= 2 ^ 31 ->
  exists c id es b', FindLeaf (root_id t) key b = Some (id, b') /\ held b' V n [] ∅ /\ at_leaf V t key c id es /\ length c = h.
Proof.
  intros Hb Ht Hn. pose proof (tree_height _ _ _ _ Ht Hn). destruct Ht as [H1 H2 H3 H4 H5].
  destruct (descend_ok kMaxDescent h key [] t b V n t) as (c & id & es & b' & E & Hb' & Ha & Hl); try done.
  - unfold kMaxDescent. lia.
  - exists c, id, es, b'. done.
Qed.

(** ** Reading *)
Lemma leaf_slots_keys par nxt es p : leaf_page par nxt es p -> forall j k, es.*1 !! j = Some k -> slot_key p true j = Some k.
Proof. intros H j k Hj. rewrite list_lookup_fmap in Hj. apply fmap_Some in Hj as (e & He & ->). by apply (lp_slots _ _ _ _ H). Qed.

Lemma assoc_split (key : bytes) (es : list entry) :
  ((key ∉ es.*1) /\ assoc key es = None)
  \/ exists l1 r l2, es = l1 ++ (key, r) :: l2 /\ (key ∉ l1.*1) /\ assoc key es = Some r.
Proof.
  induction es as [|[k r] es IH]; [left; split; [apply not_elem_of_nil|done]|]. cbn. case_decide as Hk.
  - subst k. right. exists [], r, es. split; [done|]. split; [apply not_elem_of_nil|done].
  - destruct IH as [[H1 H2]|(l1 & r' & l2 & -> & H1 & H2)].
    + left. split; [|done]. rewrite not_elem_of_cons. done.
    + right. exists ((k, r) :: l1), r', l2. split; [done|]. split; [|done]. cbn. rewrite not_elem_of_cons. done.
Qed.

(** The loop finds the key where the association list has it. *)
Lemma key_index_leaf par nxt es p key :
  leaf_page par nxt es p ->
  (key_index p key (length es) 0 = Some None /\ assoc key es = None)
  \/ exists l1 r l2, es = l1 ++ (key, r) :: l2 /\ (key ∉ l1.*1) /\ assoc key es = Some r
       /\ key_index p key (length es) 0 = Some (Some (Zlen l1)).
Proof.
  intros Hp. pose proof (key_index_ok p key es.*1 0 (leaf_slots_keys _ _ _ _ Hp)) as Hi. rewrite length_fmap in Hi.
  change (Z.of_nat 0) with 0 in Hi. destruct (assoc_split key es) as [[H1 H2]|(l1 & r & l2 & -> & H1 & H2)].
  - left. split; [|done]. destruct Hi as [[Hi _]|(x & y & Hx & _)]; [done|]. exfalso. apply H1. rewrite Hx. set_solver.
  - right. exists l1, r, l2. split; [done|]. split; [done|]. split; [done|].
    destruct Hi as [[_ Hi]|(x & y & Hx & Hn & ->)]; [exfalso; apply Hi; rewrite fmap_app; cbn; set_solver|].
    do 2 f_equal. rewrite Z.add_0_l. unfold Zlen. f_equal. rewrite <- (length_fmap fst l1), fmap_app in *. cbn in Hx.
    clear -Hx Hn H1. revert x Hx Hn. induction l1.*1 as [|k l IH]; intros [|k' x] Hx Hn; cbn in *; simplify_eq; try done.
    + exfalso. apply Hn. left.
    + exfalso. apply H1. left.
    + f_equal. apply IH; [set_solver|done|set_solver].
Qed.

Lemma at_leaf_assoc V t key c id es : at_leaf V t key c id es -> assoc key (entries_of (flat t)) = assoc key es.
Proof. intros [<- Hp Hl [K1 K2]]. rewrite (flat_plug 0 V) by done. by apply bracket_assoc. Qed.

Lemma at_leaf_ids V t key c id es n : at_leaf V t key c id es -> (forall i, i ∈ ids t -> 0 <= i < n) -> 0 <= id < n.
Proof. intros [<- _ _ _] H. apply H. rewrite ids_plug. cbn. left. Qed.

Lemma Search_ok key b V n h t :
  held b V n [] ∅ -> tree_ok V n h t -> n <= 2 ^ 31 ->
  exists b', Search (root_id t) key b = Some (assoc key (entries_of (flat t)), b') /\ held b' V n [] ∅.
Proof.
  intros Hb Ht Hn. destruct (FindLeaf_ok key b V n h t Hb Ht Hn) as (c & id & es & b1 & E & Hb1 & Ha & _).
  pose proof (at_leaf_ids _ _ _ _ _ _ n Ha (to_range _ _ _ _ Ht)) as Hid. destruct (al_leaf _ _ _ _ _ _ Ha) as [nxt Hl].
  destruct (held_read b1 V n id Hb1 Hid) as (f & b2 & E2 & D & _ & Hb2). rewrite (at_leaf_assoc _ _ _ _ _ _ Ha).
  unfold Search. rewrite E. cbn [mbind option_bind]. rewrite (proj2 (Z.eqb_neq _ _)) by (unfold kInvalidPageId; lia).
  rewrite E2. cbv zeta. rewrite D, (hd_num _ _ _ _ _ (lp_header _ _ _ _ Hl)). cbn [mbind option_bind]. rewrite to_nat_Zlen.
  destruct (key_index_leaf _ _ _ _ key Hl) as [[-> ->]|(l1 & r & l2 & -> & _ & -> & ->)]; cbn [mbind option_bind].
  - by exists (unpin id false b2).
  - destruct (lp_slots _ _ _ _ Hl (length l1) (key, r)) as [_ Hr]; [by apply list_lookup_middle|]. unfold slot_rid in Hr.
    unfold Zlen. rewrite Hr. cbn [mbind option_bind]. by exists (unpin id false b2).
Qed.

(** ** One leaf rewritten in place *)
Lemma root_plug c t t' : root_id t = root_id t' -> root_id (plug c t) = root_id (plug c t').
Proof. intros H. destruct c as [|s c _] using rev_ind; [done|]. unfold plug. by rewrite !fold_left_app. Qed.

Lemma replace_leaf V t key c id es es' p n h nxt :
  tree_ok V n h t -> at_leaf V t key c id es -> length c = h ->
  leaf_page (parent_of c) nxt es (V id) -> leaf_page (parent_of c) nxt es' p ->
  ordered (flat_left c ++ items es' ++ flat_right c) ->
  exists t', tree_ok (<[id := p]> V) n h t' /\ root_id t' = root_id t /\ (ids t' ≡ₚ ids t)
    /\ flat t' = flat_left c ++ items es' ++ flat_right c /\ flat t = flat_left c ++ items es ++ flat_right c.
Proof.
  intros [S1 N1 R1 L1 O1] [<- Hp Hl Hk] Hc Hold Hnew Ho.
  rewrite ids_plug in N1. cbn [ids app] in N1. apply NoDup_cons in N1 as [Hid N1].
  assert (HV : forall i, i <> id -> (<[id := p]> V) i = V i) by (intros i Hi; by apply fn_lookup_insert_ne).
  assert (Hp' : path_stored 0 (<[id := p]> V) c id) by (eapply path_frame; [|exact Hp]; intros i Hi; apply HV; by intros ->).
  exists (plug c (TLeaf id es')). split; [|split; [|split; [by rewrite !ids_plug|split; [by apply (flat_plug 0 (<[id := p]> V))|by apply (flat_plug 0 V)]]]].
  - split.
    + rewrite <- Hc. rewrite <- (Nat.add_0_r (length c)). apply stored_plug; [done|]. exists nxt. by rewrite fn_lookup_insert.
    + rewrite ids_plug. cbn. by constructor.
    + intros i. rewrite ids_plug. intros Hi. apply R1. rewrite ids_plug. done.
    + rewrite leafs_plug in *. eapply (links_frame V); [|rewrite !fmap_app in *; exact L1].
      intros i _. destruct (decide (i = id)) as [->|Hi]; [|by rewrite HV].
      rewrite fn_lookup_insert, (hd_next _ _ _ _ _ (lp_header _ _ _ _ Hold)). apply (lp_header _ _ _ _ Hnew).
    + by rewrite (flat_plug 0 (<[id := p]> V)).
  - by apply root_plug.
Qed.

Lemma fmap_split {A B} (g : A -> B) (l : list A) (x y : list B) :
  g <$> l = x ++ y -> exists l1 l2, l = l1 ++ l2 /\ g <$> l1 = x /\ g <$> l2 = y.
Proof.
  intros H. exists (take (length x) l), (drop (length x) l). rewrite take_drop, fmap_take, fmap_drop, H.
  by rewrite take_app_length, drop_app_length.
Qed.

Lemma insert_index_leaf par nxt es p key :
  leaf_page par nxt es p -> ordered (items es) ->
  exists r l1 l2, insert_index p key (length es) 0 = Some r /\ es = l1 ++ l2
    /\ ((exists r0 l2', l2 = (key, r0) :: l2' /\ fits_between key l1 l2' /\ r = Some (true, Zlen l1))
        \/ (fits_between key l1 l2 /\ (r = Some (false, Zlen l1) \/ (r = None /\ Zlen es = Zlen l1)))).
Proof.
  intros Hp Ho. destruct (insert_index_ok p key es.*1 0 (leaf_slots_keys _ _ _ _ Hp)) as (r & x & y & Ei & Hxy & Hx & Hy).
  rewrite length_fmap in Ei. change (Z.of_nat 0) with 0 in *. destruct (fmap_split _ _ _ _ Hxy) as (l1 & l2 & -> & <- & <-).
  exists r, l1, l2. split; [done|]. split; [done|]. rewrite Z.add_0_l in Hy.
  assert (F1 : Forall (fun e => str_lt e.1 key = true) l1).
  { rewrite Forall_fmap in Hx. eapply Forall_impl; [exact Hx|]. intros e [Hne Hlt]. cbn in *.
    destruct (str_lt e.1 key) eqn:E; [done|]. exfalso. apply Hne. by apply (lt_total (ltb := str_lt)). }
  assert (Z1 : Zlen l1.*1 = Zlen l1) by (unfold Zlen; by rewrite length_fmap). rewrite Z1 in Hy.
  destruct l2 as [|[k r0] l2]; cbn [fmap list_fmap head] in Hy.
  - rewrite decide_False in Hy by done. destruct Hy as [_ Hy]. right. split; [by split|]. destruct r as [[bb x]|].
    + left. by destruct Hy as [-> ->].
    + right. split; [done|]. by rewrite app_nil_r.
  - apply ordered_items_app in Ho. pose proof (ordered_items_tail _ _ Ho) as Ht. cbn in Ht. case_decide as Hk.
    + injection Hk as ->. left. exists r0, l2. split; [done|]. split; [by split|done].
    + destruct Hy as [Hy1 Hy2]. specialize (Hy1 k eq_refl). right. split.
      * split; [done|]. constructor; [done|]. eapply Forall_impl; [exact Ht|]. intros e He. cbn in *. by apply (lt_trans (ltb := str_lt) key k).
      * destruct r as [[bb x]|]; [left|done]. by destruct Hy2 as [-> ->].
Qed.

Definition maps_to (t t' : tree) (key : bytes) (v : option RID) : Prop :=
  forall k, assoc k (entries_of (flat t')) = if decide (k = key) then v else assoc k (entries_of (flat t)).

(** The map of a tree whose leaf was rewritten. *)
Lemma leaf_maps key l l1 l2 rr v r0 :
  Forall (below key) l -> Forall (above key) rr -> fits_between key l1 l2 ->
  let es := l1 ++ match r0 with Some r => [(key, r)] | None => [] end ++ l2 in
  let es' := l1 ++ match v with Some r => [(key, r)] | None => [] end ++ l2 in
  forall k, assoc k (entries_of (l ++ items es' ++ rr))
          = if decide (k = key) then v else assoc k (entries_of (l ++ items es ++ rr)).
Proof.
  intros Hl Hr Hf es es' k. destruct (fits_not _ _ _ Hf) as [F1 F2].
  assert (G : forall w, assoc k (entries_of (l ++ items (l1 ++ match w with Some r => [(key, r)] | None => [] end ++ l2) ++ rr))
              = if decide (k = key) then w else assoc k ((entries_of l ++ l1) ++ l2 ++ entries_of rr)).
  { intros w. rewrite !entries_app, entries_items, <- !app_assoc. rewrite !(app_assoc (entries_of l) l1).
    assert (N : key ∉ (entries_of l ++ l1).*1) by (rewrite fmap_app; pose proof (below_not _ _ Hl); set_solver).
    destruct w as [r|]; cbn [app]; [by apply assoc_middle|]. case_decide as Hk; [|done]. subst k.
    apply assoc_None. rewrite !fmap_app. pose proof (below_not _ _ Hl). pose proof (above_not _ _ Hr). set_solver. }
  unfold es, es'. rewrite (G v), (G r0). by repeat case_decide.
Qed.

Lemma held_rewrite b V n id f g p :
  held b V n [(id, f)] ∅ -> g (V id) = Some p -> Zlen p = kPageSize ->
  edit f g b = Some (write_frame f p b) /\ held (unpin id true (write_frame f p b)) (<[id := p]> V) n [] ∅.
Proof.
  intros H Hg Hp. destruct (held_edit b V n [(id, f)] ∅ id f g p H ltac:(left) Hg Hp) as [E H1]. split; [done|].
  replace (∅ : gset Z) with (({[id]} ∪ ∅) ∖ {[id]} : gset Z) by set_solver. by eapply held_unpin.
Qed.

Record tree_state b V n h t : Prop := { ts_pool : held b V n [] ∅; ts_tree : tree_ok V n h t }.

(** The map changed at one key, and only pages of the tree or new ones were written. *)
Record updated V n t key v V' t' : Prop := {
  up_maps : maps_to t t' key v;
  up_frame : forall i, i < n -> i ∉ ids t -> V' i = V i;
  up_ids : forall i, i ∈ ids t' -> i ∈ ids t \/ n <= i;
}.

(** The leaf that was found, its page in a frame, and a new page for it. *)
Lemma leaf_edit b V t key c id f l1 o l2 n h nxt v g p :
  held b V n [(id, f)] ∅ -> tree_ok V n h t -> length c = h ->
  let at_key := fun w => l1 ++ match w with Some r => [(key, r)] | None => [] end ++ l2 in
  at_leaf V t key c id (at_key o) -> fits_between key l1 l2 ->
  leaf_page (parent_of c) nxt (at_key o) (V id) -> g (V id) = Some p -> leaf_page (parent_of c) nxt (at_key v) p ->
  exists b' t', edit f g b = Some b' /\ tree_state (unpin id true b') (<[id := p]> V) n h t'
    /\ root_id t' = root_id t /\ updated V n t key v (<[id := p]> V) t'.
Proof.
  intros Hb Ht Hc at_key Ha Hf Hold Hg Hnew.
  destruct (held_rewrite b V n id f g p Hb Hg (hd_len _ _ _ _ _ (lp_header _ _ _ _ Hnew))) as [E Hb'].
  pose proof (al_key _ _ _ _ _ _ Ha) as [K1 K2]. pose proof (to_order _ _ _ _ Ht) as Ho.
  assert (Hflat : flat t = flat_left c ++ items (at_key o) ++ flat_right c).
  { destruct Ha as [<- Hp _ _]. by apply (flat_plug 0 V). }
  assert (Hnone : ordered (flat_left c ++ items (l1 ++ l2) ++ flat_right c)).
  { rewrite Hflat in Ho. unfold at_key in Ho. destruct o as [r|]; [|done]. unfold items in *. rewrite !map_app in *. cbn in Ho.
    rewrite <- !app_assoc in *. cbn in Ho. rewrite app_assoc in *. by apply ordered_remove in Ho. }
  destruct (replace_leaf V t key c id (at_key o) (at_key v) p n h nxt Ht Ha Hc Hold Hnew) as (t' & T1 & T2 & T2' & T3 & T4).
  { unfold at_key. destruct v as [r|]; [by apply fits_order|done]. }
  exists (write_frame f p b), t'. split; [done|]. split; [by split|]. split; [done|]. split.
  - intros k. rewrite T3, T4. by apply leaf_maps.
  - intros i _ Hi. apply fn_lookup_insert_ne. intros <-. apply Hi. destruct Ha as [<- _ _ _]. rewrite ids_plug. cbn. left.
  - intros i. rewrite T2'. by left.
Qed.

Lemma leaf_order V t key c id es n h : tree_ok V n h t -> at_leaf V t key c id es -> ordered (items es).
Proof.
  intros Ht [<- Hp _ _]. pose proof (to_order _ _ _ _ Ht) as Ho. rewrite (flat_plug 0 V) in Ho by done.
  by apply ordered_infix in Ho.
Qed.

(** ** Removal *)
Lemma Remove_ok key b V n h t :
  tree_state b V n h t -> n <= 2 ^ 31 ->
  exists b' V' t', Remove (root_id t) key b = Some (bool_decide (is_Some (assoc key (entries_of (flat t)))), b')
    /\ tree_state b' V' n h t' /\ root_id t' = root_id t /\ updated V n t key None V' t'.
Proof.
  intros [Hb Ht] Hn. destruct (FindLeaf_ok key b V n h t Hb Ht Hn) as (c & id & es & b1 & E & Hb1 & Ha & Hc).
  pose proof (at_leaf_ids _ _ _ _ _ _ n Ha (to_range _ _ _ _ Ht)) as Hid. destruct (al_leaf _ _ _ _ _ _ Ha) as [nxt Hl].
  pose proof (leaf_order _ _ _ _ _ _ _ _ Ht Ha) as Ho.
  destruct (held_read b1 V n id Hb1 Hid) as (f & b2 & E2 & D & Hb2 & Hb2'). pose proof (at_leaf_assoc _ _ _ _ _ _ Ha) as Hm.
  unfold Remove. rewrite E. cbn [mbind option_bind]. rewrite (proj2 (Z.eqb_neq _ _)) by (unfold kInvalidPageId; lia).
  rewrite E2. cbv zeta. rewrite D, (hd_num _ _ _ _ _ (lp_header _ _ _ _ Hl)). cbn [mbind option_bind]. rewrite to_nat_Zlen, Hm.
  destruct (key_index_leaf _ _ _ _ key Hl) as [[-> Hnone]|(l1 & r & l2 & -> & Hl1 & Hsome & ->)]; cbn [mbind option_bind].
  - rewrite Hnone in *. exists (unpin id false b2), V, t. split; [by rewrite bool_decide_eq_false_2 by (by intros [])|]. split; [done|].
    split; [done|]. split; [|done|by left]. intros k. case_decide; [by subst|done].
  - destruct (remove_entry_ok _ _ l1 (key, r) l2 _ Hl) as (p & Ep & Hp).
    assert (Hf : fits_between key l1 l2).
    { split; [|pose proof (ordered_items_tail _ _ (ordered_items_app _ _ Ho)) as F; exact F].
      unfold items in Ho. rewrite map_app in Ho. apply ordered_app in Ho as (_ & _ & Ho). apply Forall_forall. intros e He.
      apply (Ho (IEntry e.1 e.2) (IEntry key r)); [|cbn; left]. apply list_elem_of_In, in_map_iff. exists e. split; [done|by apply list_elem_of_In]. }
    destruct (leaf_edit b2 V t key c id f l1 (Some r) l2 n h nxt None _ p Hb2 Ht Hc Ha Hf Hl Ep Hp) as (b3 & t' & E3 & S & R & M).
    rewrite E3. cbn [mbind option_bind]. exists (unpin id true b3), (<[id := p]> V), t'.
    split; [|done]. rewrite Hsome. by rewrite bool_decide_eq_true_2 by done.
Qed.

(** ** Insertion where the leaf has room *)
Definition leaf_found b V n h t key c id f nxt es : Prop :=
  held b V n [(id, f)] ∅ /\ tree_ok V n h t /\ length c = h /\ at_leaf V t key c id es /\ leaf_page (parent_of c) nxt es (V id).

Lemma insert_existing b V n h t key c id f nxt l1 r0 l2 r :
  leaf_found b V n h t key c id f nxt (l1 ++ (key, r0) :: l2) -> fits_between key l1 l2 -> rid_ok r ->
  exists b' V' t', edit f (fun q => SetRidAt q (Zlen l1) r) b = Some b' /\ tree_state (unpin id true b') V' n h t'
    /\ root_id t' = root_id t /\ updated V n t key (Some r) V' t'.
Proof.
  intros (Hb & Ht & Hc & Ha & Hl) Hf Hr. destruct (leaf_set_rid _ _ l1 key r0 l2 r _ Hl Hr) as (p & Ep & Hp).
  destruct (leaf_edit b V t key c id f l1 (Some r0) l2 n h nxt (Some r) (fun q => SetRidAt q (Zlen l1) r) p Hb Ht Hc Ha Hf Hl Ep Hp) as (b' & t' & ?).
  by exists b', (<[id := p]> V), t'.
Qed.

Lemma insert_room b V n h t key c id f nxt l1 l2 r :
  leaf_found b V n h t key c id f nxt (l1 ++ l2) -> fits_between key l1 l2 -> key_ok key -> rid_ok r ->
  (length (l1 ++ l2) < key_slots)%nat ->
  exists b' V' t', edit f (insert_entry (Zlen (l1 ++ l2)) (Zlen l1) key r) b = Some b' /\ tree_state (unpin id true b') V' n h t'
    /\ root_id t' = root_id t /\ updated V n t key (Some r) V' t'.
Proof.
  intros (Hb & Ht & Hc & Ha & Hl) Hf Hk Hr Hroom. destruct (insert_entry_ok _ _ l1 l2 key r _ Hl Hroom Hk Hr) as (p & Ep & Hp).
  destruct (leaf_edit b V t key c id f l1 None l2 n h nxt (Some r) _ p Hb Ht Hc Ha Hf Hl Ep Hp) as (b' & t' & ?).
  by exists b', (<[id := p]> V), t'.
Qed.
End Tree.
