(* ===== verification/BPlusGrow.v ===== *)
(** * A B+Tree grows

    Two subtrees where the path had one: the state between the split of a node and the
    entry for its new half in the parent, and how one step of
    [InsertIntoParentAfterSplit] ends it or carries it one level up. *)
From stdpp Require Import functions.
From S2P Require Import Prelude Bytes AtRest SlottedPage DiskManager BufferPool BufferPoolProps BPlusTree Pins BNode BTree BPlusProps.
Local Open Scope Z_scope.

(** [l] is in the tree, [r] behind it is not yet. *)
Record growing (V : Z -> bytes) (n : Z) (h : nat) (c : path) (l : tree) (sep : bytes) (r : tree) : Prop := {
  gr_path : path_stored h V c (root_id l);
  gr_left : stored h V (parent_of c) l;
  gr_right : stored h V (parent_of c) r;
  gr_nodup : NoDup (ids l ++ ids r ++ path_ids c);
  gr_range : forall i, i ∈ ids l ++ ids r ++ path_ids c -> 0 <= i < n;
  gr_links : links V (leafs_left c ++ leafs l ++ leafs r ++ leafs_right c).*1;
  gr_order : ordered (flat_left c ++ flat l ++ ISep sep :: flat r ++ flat_right c);
  gr_key : key_ok sep;
}.

(** ** Lists *)
Lemma pre_sep ks ls k : length ls = length ks -> k ∈ ks -> ISep k ∈ pre ks ls.
Proof.
  revert ls. induction ks as [|k' ks IH]; intros [|l ls] Hl Hk; try done; [by apply elem_of_nil in Hk|]. cbn in *. apply elem_of_app. right.
  apply elem_of_cons in Hk as [->|Hk]; [left|]. right. apply IH; [lia|done].
Qed.
Lemma suf_sep ks ls k : length ls = length ks -> k ∈ ks -> ISep k ∈ suf ks ls.
Proof.
  revert ls. induction ks as [|k' ks IH]; intros [|l ls] Hl Hk; try done; [by apply elem_of_nil in Hk|]. cbn in *.
  apply elem_of_cons in Hk as [->|Hk]; [left|]. right. apply elem_of_app. right. apply IH; [lia|done].
Qed.

(** The first key above [key] in a list that [key] splits. *)
Lemma splits_unique key lk rk l1 l2 :
  splits_above key (lk ++ rk) l1 l2 -> Forall (fun k => str_lt k key = true) lk -> Forall (fun k => str_lt key k = true) rk ->
  l1 = lk /\ l2 = rk.
Proof.
  intros (H & H1 & H2) Hl Hr. revert lk H Hl. induction l1 as [|a l1 IH]; intros lk H Hl.
  - destruct lk as [|b lk]; [done|]. cbn in H. subst l2. apply Forall_cons in Hl as [Hb _].
    specialize (H2 b eq_refl). apply (lt_asym str_lt) in H2. congruence.
  - apply Forall_cons in H1 as [Ha H1]. destruct lk as [|b lk]; cbn in H.
    + subst rk. apply Forall_cons in Hr as [Hr _]. congruence.
    + injection H as -> H. apply Forall_cons in Hl as [_ Hl]. destruct (IH H1 lk H Hl) as [-> ->]. done.
Qed.

Lemma path_leafs_ids c i : i ∈ (leafs_left c).*1 \/ i ∈ (leafs_right c).*1 -> i ∈ path_ids c.
Proof.
  assert (G : forall (ts : list tree), i ∈ (concat (map leafs ts)).*1 -> i ∈ concat (map ids ts)).
  { intros ts Hi. apply (sublist_mem (map fst (concat (map leafs ts)))); [|done]. apply sublist_concat, Forall_forall. intros t _. apply leafs_sublist. }
  induction c as [|s up IH]; cbn; [intros [H|H]; by apply elem_of_nil in H|]. rewrite !fmap_app, !elem_of_app.
  intros [[H|H]|[H|H]]; right; rewrite !elem_of_app; auto.
Qed.

Lemma stored_parent h V par t : stored h V par t -> parent_page_id (V (root_id t)) = Some par.
Proof.
  destruct h, t as [id es|id ks ts]; cbn; try done.
  - intros [nxt H]. by rewrite (hd_parent _ _ _ _ _ (lp_header _ _ _ _ H)).
  - intros (_ & [[nxt H] _ _ _ _] & _). by rewrite (hd_parent _ _ _ _ _ H).
Qed.

Lemma stored_page h V par t : stored h V par t -> Zlen (V (root_id t)) = kPageSize.
Proof.
  destruct h, t as [id es|id ks ts]; cbn; try done.
  - intros [nxt H]. apply H.
  - intros (_ & [[nxt H] _ _ _ _] & _). apply H.
Qed.

Lemma set_parent_next v p p' : set_parent v p = Some p' -> next_leaf_page_id p' = next_leaf_page_id p.
Proof.
  unfold set_parent, set_i32, next_leaf_page_id, get_i32. intros H. rewrite (mem_read_other _ _ _ _ 7 4 H); [done|].
  right. unfold Zlen. rewrite U32_length. done.
Qed.

(** A subtree that gets another parent. *)
Lemma stored_set_parent h V par par' t :
  stored h V par t -> NoDup (ids t) -> sfits 32 par' ->
  exists p, set_parent par' (V (root_id t)) = Some p /\ stored h (<[root_id t := p]> V) par' t.
Proof.
  intros Ht Hn Hp. destruct h, t as [id es|id ks ts]; cbn [stored root_id] in *; try done.
  - destruct Ht as [nxt H]. destruct (leaf_set_parent _ par' _ _ _ H Hp) as (p & E & H'). exists p. split; [done|].
    exists nxt. by rewrite fn_lookup_insert.
  - destruct Ht as (H1 & H2 & H3). destruct (node_set_parent _ par' _ _ _ H2 Hp) as (p & E & H'). exists p. split; [done|].
    split; [done|]. split; [by rewrite fn_lookup_insert|]. cbn in Hn. apply NoDup_cons in Hn as [Hid _].
    rewrite Forall_forall in H3. apply Forall_forall. intros t Ht. eapply stored_frame; [|by apply H3].
    intros i Hi. apply fn_lookup_insert_ne. intros <-. apply Hid. by eapply in_concat_map.
Qed.

(** ** The parent's separators around the new one *)
Section Parent.
Context (V : Z -> bytes) (n : Z) (h : nat) (s : step) (up : path) (l r : tree) (sep : bytes).
Context (Hg : growing V n h (s :: up) l sep r).

Lemma parent_page : node_page (parent_of up) (st_lk s ++ st_rk s) (map root_id (st_lt s) ++ root_id l :: map root_id (st_rt s)) (V (st_id s)).
Proof using Hg. exact (proj1 (proj2 (proj2 (gr_path _ _ _ _ _ _ _ Hg)))). Qed.
Lemma parent_lengths : length (st_lt s) = length (st_lk s) /\ length (st_rt s) = length (st_rk s).
Proof using Hg.
  pose proof (np_len _ _ _ _ parent_page) as Hl. pose proof (proj1 (gr_path _ _ _ _ _ _ _ Hg)) as H1.
  rewrite !length_app in Hl. cbn in Hl. rewrite !length_map in Hl. lia.
Qed.

Lemma parent_keys : Forall (fun k => str_lt k sep = true) (st_lk s) /\ Forall (fun k => str_lt sep k = true) (st_rk s).
Proof using Hg.
  destruct parent_lengths as [L1 L2]. pose proof (gr_order _ _ _ _ _ _ _ Hg) as Ho. cbn [flat_left flat_right] in Ho.
  rewrite app_assoc in Ho. apply ordered_app in Ho as (_ & Ho2 & Ho3). inversion Ho2 as [|? ? _ Hf]; subst.
  rewrite Forall_forall in Hf. split; apply Forall_forall; intros k Hk.
  - apply (Ho3 (ISep k) (ISep sep)); [|left]. apply elem_of_app. left. apply elem_of_app. right. apply pre_sep; [by rewrite length_map|done].
  - apply (Hf (ISep k)). apply elem_of_app. right. apply elem_of_app. left. apply suf_sep; [by rewrite length_map|done].
Qed.

Lemma parent_index : exists found, upper_index (V (st_id s)) sep (length (st_lk s ++ st_rk s)) 0 = Some found
  /\ default (Zlen (st_lk s ++ st_rk s)) found = Zlen (st_lk s).
Proof using Hg.
  destruct (upper_index_ok (V (st_id s)) sep (st_lk s ++ st_rk s) 0) as (found & l1 & l2 & E & Hs & Hd); [apply parent_page|].
  destruct parent_keys as [K1 K2]. destruct (splits_unique _ _ _ _ _ Hs K1 K2) as [-> _]. by exists found.
Qed.

Lemma parent_range : 0 <= st_id s < n.
Proof using Hg. apply (gr_range _ _ _ _ _ _ _ Hg). rewrite !elem_of_app. right. right. cbn. left. Qed.

(** The pages by what they are. *)
Lemma parent_nodup :
  NoDup (st_id s :: path_ids up ++ (ids l ++ ids r ++ concat (map ids (st_lt s)) ++ concat (map ids (st_rt s)))).
Proof using Hg. pose proof (gr_nodup _ _ _ _ _ _ _ Hg) as H. cbn [path_ids] in H. eapply NoDup_Permutation_proper; [|exact H]. solve_Permutation. Qed.

Lemma parent_not_leaf i : i ∈ (leafs_left (s :: up) ++ leafs l ++ leafs r ++ leafs_right (s :: up)).*1 -> i <> st_id s.
Proof using Hg.
  intros Hi ->. pose proof parent_nodup as H. apply NoDup_cons in H as [H _]. apply H. clear H.
  pose proof (fun t => sublist_mem _ _ (st_id s) (leafs_sublist t)) as G.
  assert (G' : forall (ts : list tree), st_id s ∈ (concat (map leafs ts)).*1 -> st_id s ∈ concat (map ids ts)).
  { intros ts. apply sublist_mem, sublist_concat, Forall_forall. intros t _. apply leafs_sublist. }
  cbn [leafs_left leafs_right] in Hi. rewrite !fmap_app, !elem_of_app in Hi. rewrite !elem_of_app.
  pose proof (path_leafs_ids up (st_id s)). pose proof (G l). pose proof (G r). pose proof (G' (st_lt s)). pose proof (G' (st_rt s)). tauto.
Qed.

(** The parent's items with the new separator. *)
Lemma parent_weave :
  weave (st_lk s ++ sep :: st_rk s) (map flat (st_lt s ++ l :: r :: st_rt s))
  = pre (st_lk s) (map flat (st_lt s)) ++ flat l ++ ISep sep :: flat r ++ suf (st_rk s) (map flat (st_rt s)).
Proof using Hg. rewrite map_app. cbn [map]. apply weave_zip. rewrite length_map. apply parent_lengths. Qed.
End Parent.

Section Grow.
Context `{C : Crypto} `{!CryptoLaws C} `{K : DiskKey}.
Implicit Types (b : BufferPool) (V : Z -> bytes).

Lemma reparent_edit b V n fs T h par par' t :
  held b V n fs T -> (length fs < 3)%nat -> (root_id t ∉ fs.*1) -> 0 <= root_id t < n ->
  stored h V par t -> NoDup (ids t) -> sfits 32 par' ->
  exists f b1 b2 p, fetch_deref (root_id t) b = Some (f, b1) /\ edit f (set_parent par') b1 = Some b2
    /\ held b2 (<[root_id t := p]> V) n ((root_id t, f) :: fs) ({[root_id t]} ∪ T)
    /\ stored h (<[root_id t := p]> V) par' t /\ next_leaf_page_id p = next_leaf_page_id (V (root_id t)).
Proof.
  intros Hb Hl Hf Hr Ht Hn Hp. destruct (stored_set_parent h V par par' t Ht Hn Hp) as (p & E & Ht').
  destruct (held_fetch b V n fs T (root_id t) Hb Hf Hr Hl) as (f & b1 & E1 & Hb1 & D).
  destruct (held_edit b1 V n ((root_id t, f) :: fs) T (root_id t) f (set_parent par') p Hb1) as [E2 Hb2]; [left|done| |].
  { pose proof (stored_page _ _ _ _ Ht') as Hz. by rewrite fn_lookup_insert in Hz. }
  exists f, b1, (write_frame f p b1), p. unfold fetch_deref. rewrite E1. split; [done|]. split; [done|]. split; [done|].
  split; [done|by eapply set_parent_next].
Qed.

Lemma held_return b V n id f fs T : held b V n ((id, f) :: fs) ({[id]} ∪ T) -> id ∉ T -> held (unpin id true b) V n fs T.
Proof. intros Hb HT. replace T with (({[id]} ∪ T) ∖ {[id]}) by set_solver. by eapply held_unpin. Qed.

Lemma held_return2 b V n x f y g :
  held b V n [(x, f); (y, g)] ({[x]} ∪ ({[y]} ∪ ∅)) -> x <> y -> held (unpin y true (unpin x true b)) V n [] ∅.
Proof. intros Hb Hne. apply (held_return _ _ _ _ g); [|apply not_elem_of_empty]. apply (held_return _ _ _ _ f); [done|set_solver]. Qed.

Lemma reparent_ok b V n h par par' t :
  held b V n [] ∅ -> 0 <= root_id t < n -> stored h V par t -> NoDup (ids t) -> sfits 32 par' ->
  exists b' p, reparent (root_id t) par' b = Some b' /\ held b' (<[root_id t := p]> V) n [] ∅
    /\ stored h (<[root_id t := p]> V) par' t /\ next_leaf_page_id p = next_leaf_page_id (V (root_id t)).
Proof.
  intros Hb Hr Ht Hn Hp.
  destruct (reparent_edit b V n [] ∅ h par par' t) as (f & b1 & b2 & p & E1 & E2 & Hb2 & Ht2 & X); try done; [cbn; lia|apply not_elem_of_nil|].
  exists (unpin (root_id t) true b2), p. unfold reparent. rewrite E1. cbn [mbind option_bind]. rewrite E2. split; [done|].
  split; [apply (held_return _ _ _ _ f); [done|apply not_elem_of_empty]|done].
Qed.

(** The loop over the children listed in the page [nid], held in frame [fr]. *)
Lemma reparent_moved_ok ts i fr nid b V n fs T h par par' :
  held b V n fs T -> (length fs < 3)%nat -> (nid, fr) ∈ fs ->
  (forall j t, ts !! j = Some t -> slot_child (V nid) (i + j) = Some (root_id t)) ->
  (forall t, t ∈ ts -> (root_id t ∉ fs.*1) /\ (root_id t ∉ T) /\ 0 <= root_id t < n) ->
  Forall (stored h V par) ts -> NoDup (concat (map ids ts)) -> sfits 32 par' ->
  exists b' V', reparent_moved (length ts) (Z.of_nat i) fr par' b = Some b' /\ held b' V' n fs T /\ Forall (stored h V' par') ts
    /\ (forall i, i ∉ map root_id ts -> V' i = V i) /\ (forall i, next_leaf_page_id (V' i) = next_leaf_page_id (V i)).
Proof.
  revert i b V. induction ts as [|t ts IH]; intros i b V Hb Hl Hfr Hc Hr Hs Hn Hp; cbn [length reparent_moved].
  - exists b, V. split; [done|]. split; [done|]. split; [constructor|done].
  - apply Forall_cons in Hs as [Ht Hs]. cbn in Hn. apply NoDup_app in Hn as (N1 & N2 & N3).
    destruct (Hr t ltac:(left)) as (R1 & R2 & R3). pose proof (Hc 0%nat t eq_refl) as Ec. rewrite Nat.add_0_r in Ec. unfold slot_child in Ec.
    rewrite (held_data _ _ _ _ _ _ _ Hb Hfr), Ec. cbn [mbind option_bind].
    destruct (reparent_edit b V n fs T h par par' t Hb Hl R1 R3 Ht N1 Hp) as (f & b1 & b2 & p & -> & E2 & Hb2 & Ht1 & Hx). cbn [mbind option_bind].
    rewrite E2. cbn [mbind option_bind].
    assert (F : forall i, i <> root_id t -> (<[root_id t := p]> V) i = V i) by (intros j Hj; by apply fn_lookup_insert_ne).
    assert (Hnid : nid <> root_id t) by (intros ->; apply R1, list_elem_of_fmap; by exists (root_id t, fr)).
    rewrite (held_data _ _ _ _ _ _ _ Hb2 ltac:(right; exact Hfr)), F, Ec by done. cbn [mbind option_bind].
    replace (Z.of_nat i + 1) with (Z.of_nat (S i)) by lia.
    destruct (IH (S i) (unpin (root_id t) true b2) (<[root_id t := p]> V)) as (b3 & V3 & -> & Hb3 & Hs3 & F3 & X3); try done.
    { apply (held_return _ _ _ _ f); done. }
    { intros j u Hu. rewrite F by done. replace (S i + j)%nat with (i + S j)%nat by lia. by apply Hc. }
    { intros u Hu. apply Hr. by right. }
    { rewrite Forall_forall in Hs. apply Forall_forall. intros u Hu. eapply stored_frame; [|by apply Hs].
      intros j Hj. apply F. intros ->. apply (N2 (root_id t)); [apply root_in_ids|by eapply in_concat_map]. }
    exists b3, V3. split; [done|]. split; [done|]. split; [|split].
    + constructor; [|done]. eapply stored_frame; [|exact Ht1]. intros j Hj. apply F3. intros Hin.
      apply list_elem_of_In, in_map_iff in Hin as (u & <- & Hu). apply list_elem_of_In in Hu.
      apply (N2 (root_id u)); [done|]. eapply in_concat_map; [exact Hu|apply root_in_ids].
    + intros j. cbn [map]. rewrite not_elem_of_cons. intros [Hj Hj']. by rewrite F3, F.
    + intros j. rewrite X3. destruct (decide (j = root_id t)) as [->|Hj]; [by rewrite fn_lookup_insert|by rewrite F].
Qed.

(** The tree is whole again, and no page but its own changed. *)
Definition grown V0 n0 (own : list Z) b V n h (l : list item) t : Prop :=
  tree_state b V n h t /\ flat t = l /\ (forall i, i < n0 -> i ∉ own -> V i = V0 i) /\ (forall i, i ∈ ids t -> i ∈ own \/ n0 <= i).

Lemma parent_read b V n h par t :
  held b V n [] ∅ -> 0 <= root_id t < n -> stored h V par t ->
  exists f b1, fetch_deref (root_id t) b = Some (f, b1) /\ parent_page_id (frame_data f b1) = Some par
    /\ held (unpin (root_id t) false b1) V n [] ∅.
Proof.
  intros Hb Hr Ht. destruct (held_read b V n (root_id t) Hb Hr) as (f & b1 & E & D & _ & H). exists f, b1.
  unfold fetch_deref. rewrite E, D. split; [done|]. split; [by eapply stored_parent|done].
Qed.

Lemma sfits_id i n : 0 <= i < n -> n <= 2 ^ 31 -> sfits 32 i.
Proof. unfold sfits. lia. Qed.

(** *** At the root *)
Lemma grow_root_tree V V' n h l sep r :
  growing V n h [] l sep r -> node_page kInvalidPageId [sep] [root_id l; root_id r] (V' n) ->
  stored h V' n l -> stored h V' n r -> (forall i, i <> n -> next_leaf_page_id (V' i) = next_leaf_page_id (V i)) ->
  tree_ok V' (n + 1) (S h) (TNode n [sep] [l; r]) /\ flat (TNode n [sep] [l; r]) = flat l ++ ISep sep :: flat r.
Proof.
  intros [_ _ _ Hn Hr Hk Ho _] Hp Hl Hr' HX. cbn [path_ids leafs_left leafs_right flat_left flat_right app] in *.
  assert (E : flat (TNode n [sep] [l; r]) = flat l ++ ISep sep :: flat r) by (cbn; by rewrite app_nil_r).
  assert (Hnew : n ∉ ids l ++ ids r ++ []) by (intros Hi; apply Hr in Hi; lia).
  rewrite !app_nil_r in *. split; [|done]. split; cbn [ids leafs map concat]; rewrite ?app_nil_r.
  - cbn. split; [done|]. split; [done|]. by repeat constructor.
  - by constructor.
  - intros i [->|Hi]%elem_of_cons; [|apply Hr in Hi; lia]. assert (0 <= root_id l < n) by (apply Hr, elem_of_app; left; apply root_in_ids). lia.
  - eapply links_frame; [|exact Hk]. intros i Hi. apply HX. intros ->. rewrite fmap_app in Hi.
    apply Hnew. apply elem_of_app in Hi as [Hi|Hi]; apply elem_of_app; [left|right]; (eapply sublist_mem; [apply leafs_sublist|exact Hi]).
  - by rewrite E.
Qed.

Lemma grow_root more root b V n h l sep r :
  held b V n [] ∅ -> growing V n h [] l sep r -> n < 2 ^ 31 ->
  exists b' V', InsertIntoParentAfterSplit (S more) (root_id l) sep (root_id r) root b = Some (n, b')
    /\ grown V n (ids l ++ ids r) b' V' (n + 1) (S h) (flat l ++ ISep sep :: flat r) (TNode n [sep] [l; r]).
Proof.
  intros Hb Hg Hn. pose proof Hg as [_ Hl Hr Hd Hrange _ _ Hsep]. cbn [path_ids parent_of] in *. rewrite app_nil_r in Hd, Hrange.
  apply NoDup_app in Hd as (N1 & N2 & N3).
  assert (Il : 0 <= root_id l < n) by (apply Hrange, elem_of_app; left; apply root_in_ids).
  assert (Ir : 0 <= root_id r < n) by (apply Hrange, elem_of_app; right; apply root_in_ids).
  assert (Hlr : root_id l <> root_id r) by (intros Heq; apply (N2 (root_id l)); [|rewrite Heq]; apply root_in_ids).
  destruct (parent_read b V n h kInvalidPageId l Hb Il Hl) as (f & b1 & E1 & D1 & Hb1).
  cbn [InsertIntoParentAfterSplit]. rewrite E1. cbn [mbind option_bind]. rewrite D1. cbn [mbind option_bind]. cbv zeta. rewrite Z.eqb_refl.
  destruct (held_new _ V n [] ∅ Hb1 Hn ltac:(cbn; lia)) as (fr & b2 & E2 & Hb2). unfold new_deref. rewrite E2. cbn [mbind option_bind].
  destruct (new_root_ok (root_id l) sep (root_id r) zero_page) as (p & Ep & Hp); [done|eapply sfits_id; [done|lia]|eapply sfits_id; [done|lia]|done|].
  destruct (held_rewrite b2 (<[n := zero_page]> V) (n + 1) n fr (new_root (root_id l) sep (root_id r)) p Hb2) as [E3 Hb3];
    [by rewrite fn_lookup_insert|by destruct Hp as [[? []]]|]. rewrite E3. cbn [mbind option_bind].
  set (V3 := <[n := p]> (<[n := zero_page]> V)) in *.
  assert (F3 : forall i, i <> n -> V3 i = V i) by (intros i Hi; unfold V3; by rewrite !fn_lookup_insert_ne).
  assert (In : forall i, i ∈ ids l \/ i ∈ ids r -> i <> n) by (intros i Hi ->; assert (0 <= n < n) by (apply Hrange, elem_of_app, Hi); lia).
  destruct (reparent_ok _ V3 (n + 1) h kInvalidPageId n l Hb3) as (b4 & pl & -> & Hb4 & Hl4 & X4);
    [lia| |done|by eapply (sfits_id n (n + 1)); lia|].
  { eapply stored_frame; [|exact Hl]. intros i Hi. apply F3, In. by left. }
  cbn [mbind option_bind]. set (V4 := <[root_id l := pl]> V3) in *.
  destruct (reparent_ok _ V4 (n + 1) h kInvalidPageId n r Hb4) as (b5 & pr & -> & Hb5 & Hr5 & X5);
    [lia| |done|by eapply (sfits_id n (n + 1)); lia|].
  { eapply stored_frame; [|exact Hr]. intros i Hi. unfold V4. rewrite fn_lookup_insert_ne; [apply F3, In; by right|].
    intros <-. apply (N2 (root_id l)); [apply root_in_ids|done]. }
  cbn [mbind option_bind]. exists b5, (<[root_id r := pr]> V4). split; [done|].
  destruct (grow_root_tree V (<[root_id r := pr]> V4) n h l sep r Hg) as [T1 T2]; [| |done| |split; [by split|split; [done|split]]].
  - rewrite fn_lookup_insert_ne by lia. unfold V4. rewrite fn_lookup_insert_ne by lia. unfold V3. by rewrite fn_lookup_insert.
  - eapply stored_frame; [|exact Hl4]. intros i Hi. apply fn_lookup_insert_ne. intros <-. apply (N2 (root_id r)); [done|apply root_in_ids].
  - intros i Hi. destruct (decide (i = root_id r)) as [->|Hir].
    + rewrite fn_lookup_insert, X5. unfold V4. rewrite fn_lookup_insert_ne by done. by rewrite F3.
    + rewrite fn_lookup_insert_ne by done. unfold V4. destruct (decide (i = root_id l)) as [->|Hil].
      * by rewrite fn_lookup_insert, X4, F3.
      * by rewrite fn_lookup_insert_ne, F3.
  - intros i Hi Hno. rewrite elem_of_app in Hno. unfold V4. rewrite !fn_lookup_insert_ne by (intros <-; apply Hno; auto using root_in_ids).
    apply F3. lia.
  - intros i. cbn [ids map concat]. rewrite app_nil_r, elem_of_cons. intros [->|Hi]; [right; lia|by left].
Qed.

(** *** A parent with room *)
Lemma grow_room_tree V V' n h s up l sep r :
  growing V n h (s :: up) l sep r ->
  node_page (parent_of up) (st_lk s ++ sep :: st_rk s) (map root_id (st_lt s) ++ root_id l :: root_id r :: map root_id (st_rt s)) (V' (st_id s)) ->
  stored h V' (st_id s) r -> (forall i, i <> st_id s -> i <> root_id r -> V' i = V i) ->
  next_leaf_page_id (V' (root_id r)) = next_leaf_page_id (V (root_id r)) ->
  let t := TNode (st_id s) (st_lk s ++ sep :: st_rk s) (st_lt s ++ l :: r :: st_rt s) in
  tree_ok V' n (length up + S h) (plug up t) /\ ids (plug up t) ≡ₚ ids l ++ ids r ++ path_ids (s :: up)
  /\ flat (plug up t) = flat_left (s :: up) ++ flat l ++ ISep sep :: flat r ++ flat_right (s :: up).
Proof.
  intros Hg Hp Hr HV HX t. pose proof (parent_nodup _ _ _ _ _ _ _ _ Hg) as Hn. apply NoDup_cons in Hn as [Hs Hn].
  apply NoDup_app in Hn as (N1 & N2 & N3). apply NoDup_app in N3 as (N3 & N4 & N5). apply NoDup_app in N5 as (N5 & N6 & N7).
  pose proof (root_in_ids r) as Hrr.
  assert (F : forall i, i ∈ path_ids up \/ i ∈ ids l \/ i ∈ concat (map ids (st_lt s)) \/ i ∈ concat (map ids (st_rt s)) -> V' i = V i).
  { intros i Hi. apply HV; intros ->; [apply Hs; rewrite !elem_of_app; tauto|]. rewrite !elem_of_app in *.
    destruct Hi as [Hi|[Hi|Hi]]; [apply (N2 _ Hi)|apply (N4 _ Hi)|apply (N6 _ Hrr)]; rewrite ?elem_of_app; tauto. }
  pose proof Hg as [Hc Hl _ Hd Hrange Hk Ho _]. destruct Hc as (C1 & C2 & C3 & C4 & C5 & C6).
  assert (Hup : path_stored (S h) V' up (root_id t)) by (eapply path_frame; [|exact C6]; intros i Hi; apply F; tauto).
  assert (E : flat (plug up t) = flat_left (s :: up) ++ flat l ++ ISep sep :: flat r ++ flat_right (s :: up)).
  { rewrite (flat_plug (S h) V') by done. cbn [flat_left flat_right flat t]. rewrite (parent_weave V n h s up l r sep Hg), <- !app_assoc.
    cbn [app]. by rewrite <- !app_assoc. }
  assert (Hi : ids (plug up t) ≡ₚ ids l ++ ids r ++ path_ids (s :: up)).
  { rewrite ids_plug. cbn [ids t path_ids]. rewrite map_app, concat_app. cbn [map concat]. solve_Permutation. }
  split; [|by split]. split.
  - apply stored_plug; [done|]. cbn. split; [by destruct (st_lk s)|]. split; [by rewrite map_app|].
    apply Forall_app. split; [|constructor; [|constructor; [done|]]].
    + rewrite Forall_forall in C4. apply Forall_forall. intros u Hu. eapply stored_frame; [|by apply C4]. intros i Hi'. apply F. right; right; left. by eapply in_concat_map.
    + eapply stored_frame; [|exact Hl]. intros i Hi'. apply F. tauto.
    + rewrite Forall_forall in C5. apply Forall_forall. intros u Hu. eapply stored_frame; [|by apply C5]. intros i Hi'. apply F. right; right; right. by eapply in_concat_map.
  - by rewrite Hi.
  - intros i. rewrite Hi. apply Hrange.
  - assert (El : leafs (plug up t) = leafs_left (s :: up) ++ leafs l ++ leafs r ++ leafs_right (s :: up)).
    { rewrite leafs_plug. cbn [leafs t leafs_left leafs_right]. rewrite map_app, concat_app. cbn [map concat]. by rewrite <- !app_assoc. }
    rewrite El. eapply links_frame; [|exact Hk]. intros i Hi'. pose proof (parent_not_leaf _ _ _ _ _ _ _ _ Hg _ Hi') as Hne.
    destruct (decide (i = root_id r)) as [->|]; [done|by rewrite HV].
  - by rewrite E.
Qed.

Lemma grow_ids V n h c l sep r :
  growing V n h c l sep r -> (0 <= root_id l < n) /\ 0 <= root_id r < n /\ NoDup (ids l) /\ NoDup (ids r).
Proof.
  intros [_ _ _ Hd Hr _ _ _]. pose proof (root_in_ids l). pose proof (root_in_ids r). apply NoDup_app in Hd as (N1 & _ & N2).
  apply NoDup_app in N2 as (N2 & _ & _). split; [apply Hr; rewrite !elem_of_app; tauto|]. split; [apply Hr; rewrite !elem_of_app; tauto|done].
Qed.

(** The parent's page, fetched after the left half's. *)
Lemma parent_fetched b V n h s up l sep r :
  held b V n [] ∅ -> growing V n h (s :: up) l sep r ->
  exists f b1 fp b2, fetch_deref (root_id l) b = Some (f, b1) /\ parent_page_id (frame_data f b1) = Some (st_id s)
    /\ fetch_deref (st_id s) (unpin (root_id l) false b1) = Some (fp, b2) /\ frame_data fp b2 = V (st_id s)
    /\ held b2 V n [(st_id s, fp)] ∅.
Proof.
  intros Hb Hg. destruct (grow_ids _ _ _ _ _ _ _ Hg) as (Il & _). pose proof (parent_range _ _ _ _ _ _ _ _ Hg) as Is.
  destruct (parent_read b V n h (st_id s) l Hb Il (gr_left _ _ _ _ _ _ _ Hg)) as (f & b1 & E1 & D1 & Hb1).
  destruct (held_read _ V n (st_id s) Hb1 Is) as (fp & b2 & E2 & D2 & Hb2 & _). exists f, b1, fp, b2.
  split; [done|]. split; [done|]. unfold fetch_deref. rewrite E2. done.
Qed.

Lemma grow_room more root b V n h s up l sep r :
  held b V n [] ∅ -> growing V n h (s :: up) l sep r -> n <= 2 ^ 31 -> (length (st_lk s ++ st_rk s) < key_slots)%nat ->
  exists b' V' t, InsertIntoParentAfterSplit (S more) (root_id l) sep (root_id r) root b = Some (root, b')
    /\ root_id t = root_id (plug (s :: up) l)
    /\ grown V n (ids l ++ ids r ++ path_ids (s :: up)) b' V' n (length up + S h) (flat_left (s :: up) ++ flat l ++ ISep sep :: flat r ++ flat_right (s :: up)) t.
Proof.
  intros Hb Hg Hn Hroom. destruct (grow_ids _ _ _ _ _ _ _ Hg) as (Il & Ir & Nl & Nr). pose proof (parent_range _ _ _ _ _ _ _ _ Hg) as Is.
  destruct (parent_fetched b V n h s up l sep r Hb Hg) as (f & b1 & fp & b2 & E1 & D1 & E2 & D2 & Hb2).
  pose proof (parent_page _ _ _ _ _ _ _ _ Hg) as Hp. destruct (np_header _ _ _ _ Hp) as [nxt Hh].
  destruct (parent_index _ _ _ _ _ _ _ _ Hg) as (found & Ef & Hd).
  cbn [InsertIntoParentAfterSplit]. rewrite E1. cbn [mbind option_bind]. rewrite D1. cbn [mbind option_bind]. cbv zeta.
  rewrite (proj2 (Z.eqb_neq _ _)) by (unfold kInvalidPageId; lia). rewrite E2. cbn [mbind option_bind].
  rewrite D2, (hd_num _ _ _ _ _ Hh). cbn [mbind option_bind]. rewrite to_nat_Zlen, Ef. cbn [mbind option_bind]. rewrite Hd.
  rewrite (proj2 (Z.ltb_lt _ _)) by (unfold Zlen, key_slots in *; lia).
  destruct (insert_child_ok _ _ _ _ _ _ sep (root_id r) _ Hp) as (p & Ep & Hp'); [by rewrite length_map; apply (parent_lengths _ _ _ _ _ _ _ _ Hg)|done|by apply Hg|by eapply sfits_id|].
  destruct (held_rewrite b2 V n (st_id s) fp _ p Hb2 Ep) as [E3 Hb3]; [by destruct Hp' as [[? []]]|]. rewrite E3. cbn [mbind option_bind].
  set (V3 := <[st_id s := p]> V) in *. assert (F3 : forall i, i <> st_id s -> V3 i = V i) by (intros i Hi; by apply fn_lookup_insert_ne).
  pose proof (parent_nodup _ _ _ _ _ _ _ _ Hg) as Hnd. apply NoDup_cons in Hnd as [Hs _].
  assert (Hsr : st_id s ∉ ids r) by (intros Hi; apply Hs; rewrite !elem_of_app; tauto).
  assert (Hne : root_id r <> st_id s) by (intros Heq; apply Hsr; rewrite <- Heq; apply root_in_ids).
  destruct (reparent_ok _ V3 n h (st_id s) (st_id s) r Hb3) as (b4 & q & -> & Hb4 & Hr4 & X4);
    [done| |done|by eapply sfits_id|].
  { eapply stored_frame; [|apply Hg]. intros i Hi. apply F3. by intros ->. }
  cbn [mbind option_bind].
  destruct (grow_room_tree V (<[root_id r := q]> V3) n h s up l sep r Hg) as (T1 & T2 & T3);
    [..|exists b4, (<[root_id r := q]> V3), (plug up (TNode (st_id s) (st_lk s ++ sep :: st_rk s) (st_lt s ++ l :: r :: st_rt s))); split; [done|]; split; [by apply (root_plug up _ (wrap_node l s))|split; [by split|split; [done|split]]]].
  - rewrite fn_lookup_insert_ne by congruence. unfold V3. by rewrite fn_lookup_insert.
  - done.
  - intros i H1 H2. rewrite fn_lookup_insert_ne by congruence. by apply F3.
  - rewrite fn_lookup_insert, X4. by rewrite F3.
  - intros i Hi Hno. rewrite !elem_of_app in Hno. rewrite fn_lookup_insert_ne by (intros <-; apply Hno; auto using root_in_ids).
    apply F3. intros ->. apply Hno. right. right. cbn. left.
  - intros i. rewrite T2. by left.
Qed.

(** *** A full parent is split in turn *)
Section Split.
Context (V : Z -> bytes) (n : Z) (h : nat) (s : step) (up : path) (l r : tree) (sep m : bytes).
Context (k1 k2 : list bytes) (t1 t2 : list tree).
Context (Hg : growing V n h (s :: up) l sep r).
Context (HK : st_lk s ++ sep :: st_rk s = k1 ++ m :: k2) (HT : st_lt s ++ l :: r :: st_rt s = t1 ++ t2).
Context (L1 : length t1 = S (length k1)) (L2 : length t2 = S (length k2)).

Lemma split_ids : ids l ++ ids r ++ path_ids (s :: up) ≡ₚ st_id s :: path_ids up ++ concat (map ids t1) ++ concat (map ids t2).
Proof using HT.
  rewrite <- concat_app, <- map_app, <- HT, map_app, concat_app. cbn [map concat path_ids]. solve_Permutation.
Qed.

Lemma split_nodup : NoDup (st_id s :: path_ids up ++ concat (map ids t1) ++ concat (map ids t2)).
Proof using Hg HT. rewrite <- split_ids. apply Hg. Qed.

Lemma split_range i : i ∈ st_id s :: path_ids up ++ concat (map ids t1) ++ concat (map ids t2) -> 0 <= i < n.
Proof using Hg HT. rewrite <- split_ids. apply Hg. Qed.

Lemma split_stored : Forall (stored h V (st_id s)) t1 /\ Forall (stored h V (st_id s)) t2.
Proof using Hg HT.
  apply Forall_app. rewrite <- HT. destruct (gr_path _ _ _ _ _ _ _ Hg) as (_ & _ & _ & C4 & C5 & _).
  apply Forall_app. split; [done|]. constructor; [apply Hg|]. constructor; [apply Hg|done].
Qed.

Lemma split_flat :
  flat_left up ++ flat (TNode (st_id s) k1 t1) ++ ISep m :: flat (TNode n k2 t2) ++ flat_right up
  = flat_left (s :: up) ++ flat l ++ ISep sep :: flat r ++ flat_right (s :: up).
Proof using Hg HK HT L1 L2.
  cbn [flat_left flat_right flat]. pose proof (parent_weave _ _ _ _ _ _ _ _ Hg) as W.
  rewrite HK, HT, map_app, weave_split in W; [|by rewrite length_map|by destruct t2].
  rewrite app_comm_cons, (app_assoc (weave k1 _)), W, <- !app_assoc. cbn [app]. by rewrite <- !app_assoc.
Qed.

Lemma split_keys_ok : Forall key_ok k1 /\ key_ok m /\ Forall key_ok k2.
Proof using Hg HK.
  assert (H : Forall key_ok (k1 ++ m :: k2)).
  { rewrite <- HK. apply Forall_forall. intros k Hin. apply elem_of_app in Hin as [Hin|[->|Hin]%elem_of_cons]; [|apply Hg|];
      (eapply node_key_ok; [exact (parent_page _ _ _ _ _ _ _ _ Hg)|]; rewrite elem_of_app; tauto). }
  apply Forall_app in H as [H1 H2]. by apply Forall_cons in H2 as [H2 H3].
Qed.

(** The new page, the parent's and those of the children that moved changed. *)
Context (V' : Z -> bytes).
Context (Hl : node_page (parent_of up) k1 (map root_id t1) (V' (st_id s))) (Hr : node_page (parent_of up) k2 (map root_id t2) (V' n)).
Context (Hm : Forall (stored h V' n) t2) (HV : forall i, i <> n -> i <> st_id s -> i ∉ map root_id t2 -> V' i = V i).
Context (HX : forall i, i <> n -> i <> st_id s -> next_leaf_page_id (V' i) = next_leaf_page_id (V i)).

Lemma split_same i : i ∈ path_ids up \/ i ∈ concat (map ids t1) -> V' i = V i.
Proof using Hg HT HV L1 L2.
  intros Hi. pose proof split_nodup as Hn. apply NoDup_cons in Hn as [Hs Hn]. rewrite app_assoc in Hn. apply NoDup_app in Hn as (_ & Hn & _).
  apply HV.
  - intros ->. pose proof (split_range n) as Hx. rewrite elem_of_cons, !elem_of_app in Hx. assert (0 <= n < n) by tauto. lia.
  - intros ->. apply Hs. rewrite !elem_of_app. tauto.
  - intros Hin. apply list_elem_of_In, in_map_iff in Hin as (u & <- & Hu). apply list_elem_of_In in Hu.
    apply (Hn (root_id u)); [by rewrite elem_of_app|]. eapply in_concat_map; [exact Hu|apply root_in_ids].
Qed.

Lemma grow_up_tree : k1 <> [] -> k2 <> [] -> growing V' (n + 1) (S h) up (TNode (st_id s) k1 t1) m (TNode n k2 t2).
Proof using All.
  intros Hk1 Hk2. destruct split_stored as [S1 _]. pose proof split_nodup as Hnd. pose proof split_range as Hrange.
  assert (Hi : ids (TNode (st_id s) k1 t1) ++ ids (TNode n k2 t2) ++ path_ids up
               ≡ₚ n :: st_id s :: path_ids up ++ concat (map ids t1) ++ concat (map ids t2)) by (cbn [ids]; solve_Permutation).
  assert (Hlf : leafs_left up ++ leafs (TNode (st_id s) k1 t1) ++ leafs (TNode n k2 t2) ++ leafs_right up
                = leafs_left (s :: up) ++ leafs l ++ leafs r ++ leafs_right (s :: up)).
  { cbn [leafs leafs_left leafs_right]. rewrite !app_assoc, <- (app_assoc (leafs_left up)), <- concat_app, <- map_app, <- HT, map_app, concat_app.
    cbn [map concat]. by rewrite <- !app_assoc. }
  split.
  - eapply path_frame; [|exact (proj2 (proj2 (proj2 (proj2 (proj2 (gr_path _ _ _ _ _ _ _ Hg))))))]. intros i Hj. apply split_same. tauto.
  - cbn. split; [done|]. split; [done|]. rewrite Forall_forall in S1. apply Forall_forall. intros u Hu.
    eapply stored_frame; [|by apply S1]. intros i Hj. apply split_same. right. by eapply in_concat_map.
  - by cbn.
  - rewrite Hi. constructor; [|done]. intros Hn. apply Hrange in Hn. lia.
  - intros i. rewrite Hi, elem_of_cons. intros [->|Hj]; [pose proof (parent_range _ _ _ _ _ _ _ _ Hg); lia|]. apply Hrange in Hj. lia.
  - rewrite Hlf. eapply links_frame; [|apply Hg]. intros i Hj. pose proof (parent_not_leaf _ _ _ _ _ _ _ _ Hg _ Hj) as Hne. apply HX; [|done].
    intros ->. rewrite <- Hlf, !fmap_app, !elem_of_app in Hj. pose proof (path_leafs_ids up n) as H1.
    pose proof (sublist_mem _ _ n (leafs_sublist (TNode (st_id s) k1 t1))) as H2.
    assert (H3 : n ∈ (leafs (TNode n k2 t2)).*1 -> n ∈ concat (map ids t2)).
    { apply sublist_mem, sublist_concat, Forall_forall. intros t _. apply leafs_sublist. }
    assert (0 <= n < n); [|lia]. apply Hrange. cbn [ids] in H2. rewrite elem_of_cons in H2. rewrite elem_of_cons, !elem_of_app. tauto.
  - rewrite split_flat. apply Hg.
  - apply split_keys_ok.
Qed.
End Split.

(** The pages of the halves. *)
Definition fill_node (ks : list bytes) (cs : list Z) (q : bytes) : option bytes :=
  q1 ← write_keys ks 0 q; q2 ← write_children cs 0 q1; set_num_keys (Zlen ks) q2.

Lemma split_pages b V n h gp pid fp ks cs k1 k2 t1 t2 :
  held b V n [(pid, fp)] ∅ -> n < 2 ^ 31 -> sfits 32 gp -> node_page gp ks cs (V pid) ->
  (length k1 <= key_slots)%nat -> (length k2 <= key_slots)%nat -> length t1 = S (length k1) -> length t2 = S (length k2) ->
  Forall key_ok k1 -> Forall key_ok k2 -> (forall i, i ∈ concat (map ids (t1 ++ t2)) -> 0 <= i < n /\ i <> pid) ->
  Forall (stored h V pid) t2 -> NoDup (concat (map ids t2)) ->
  exists fr b1 b2 b3 b4 V', new_deref b = Some (fr, n, b1)
    /\ edit fr (fun q => q1 ← InitInternal gp q; fill_node k2 (map root_id t2) q1) b1 = Some b2
    /\ reparent_moved (length t2) 0 fr n b2 = Some b3
    /\ edit fp (fill_node k1 (map root_id t1)) b3 = Some b4
    /\ held (unpin n true (unpin pid true b4)) V' (n + 1) [] ∅
    /\ node_page gp k1 (map root_id t1) (V' pid) /\ node_page gp k2 (map root_id t2) (V' n) /\ Forall (stored h V' n) t2
    /\ (forall i, i <> n -> i <> pid -> i ∉ map root_id t2 -> V' i = V i)
    /\ (forall i, i <> n -> i <> pid -> next_leaf_page_id (V' i) = next_leaf_page_id (V i)).
Proof.
  intros Hb Hn Hgp Hp R1 R2 L1 L2 K1 K2 Ht Hs Hnd. pose proof (held_range _ _ _ _ _ _ _ Hb ltac:(left)) as Hpid.
  assert (Hroot : forall u, u ∈ t1 ++ t2 -> 0 <= root_id u < n /\ root_id u <> pid)
    by (intros u Hu; apply Ht; eapply in_concat_map; [exact Hu|apply root_in_ids]).
  assert (Hc : forall ts, (forall u, u ∈ ts -> u ∈ t1 ++ t2) -> Forall (sfits 32) (map root_id ts)).
  { intros ts Hts. apply Forall_forall. intros i Hi. apply list_elem_of_In, in_map_iff in Hi as (u & <- & Hu).
    apply list_elem_of_In in Hu. eapply sfits_id; [apply Hroot; by apply Hts|lia]. }
  assert (H2 : forall u, u ∈ t2 -> u ∈ t1 ++ t2) by (intros u Hu; apply elem_of_app; by right).
  assert (H1 : forall u, u ∈ t1 -> u ∈ t1 ++ t2) by (intros u Hu; apply elem_of_app; by left).
  destruct (held_new b V n _ ∅ Hb Hn ltac:(cbn; lia)) as (fr & b1 & E1 & Hb1).
  destruct (right_node_ok gp k2 (map root_id t2) zero_page) as (q & Eq & Hq); [done|done|done|by rewrite length_map|done|by apply Hc|].
  destruct (held_edit b1 _ (n + 1) _ ∅ n fr (fun q => q1 ← InitInternal gp q; fill_node k2 (map root_id t2) q1) q Hb1 ltac:(left) ltac:(rewrite fn_lookup_insert; exact Eq)) as [E2 Hb2]; [by destruct Hq as [[? []]]|].
  set (V2 := <[n := q]> (<[n := zero_page]> V)) in *.
  assert (F2 : forall i, i <> n -> V2 i = V i) by (intros i Hi; unfold V2; by rewrite !fn_lookup_insert_ne).
  destruct (reparent_moved_ok t2 0 fr n _ V2 (n + 1) _ _ h pid n Hb2) as (b3 & V3 & E3 & Hb3 & Hs3 & F3 & X3); [cbn; lia|left| | | |done|eapply (sfits_id n (n + 1)); lia|].
  { intros j u Hu. unfold V2. rewrite fn_lookup_insert. apply (np_children _ _ _ _ Hq). cbn. change (map root_id t2) with (root_id <$> t2).
    by rewrite list_lookup_fmap, Hu. }
  { intros u Hu. destruct (Hroot u (H2 u Hu)). cbn. rewrite !not_elem_of_cons, not_elem_of_union, not_elem_of_singleton.
    split; [|split; [|lia]]; [split; [lia|split; [lia|apply not_elem_of_nil]]|split; [lia|apply not_elem_of_empty]]. }
  { rewrite Forall_forall in Hs. apply Forall_forall. intros u Hu. eapply stored_frame; [|by apply Hs]. intros i Hi. apply F2.
    intros ->. destruct (Ht n) as [? _]; [eapply in_concat_map; [by apply H2|done]|lia]. }
  assert (Hn3 : n ∉ map root_id t2) by (intros Hi; apply list_elem_of_In, in_map_iff in Hi as (u & Hu & Hi); apply list_elem_of_In in Hi; destruct (Hroot u (H2 u Hi)); lia).
  assert (Hp3 : pid ∉ map root_id t2) by (intros Hi; apply list_elem_of_In, in_map_iff in Hi as (u & Hu & Hi); apply list_elem_of_In in Hi; destruct (Hroot u (H2 u Hi)); lia).
  destruct (np_header _ _ _ _ Hp) as [nxt Hh]. destruct (write_node_ok gp nxt _ k1 (map root_id t1) (V pid) Hh) as (q' & Eq' & Hq');
    [done|by rewrite length_map|done|by apply Hc|]. rewrite <- (F2 pid), <- F3 in Eq' by (done || lia).
  destruct (held_edit b3 V3 (n + 1) _ _ pid fp (fill_node k1 (map root_id t1)) q' Hb3 ltac:(right; left) Eq') as [E4 Hb4]; [by destruct Hq' as [[? []]]|].
  exists fr, b1, (write_frame fr q b1), b3, (write_frame fp q' b3), (<[pid := q']> V3).
  unfold new_deref. rewrite E1. split; [done|]. split; [done|]. split; [done|]. split; [done|]. split; [|split; [|split; [|split; [|split]]]].
  - eapply held_perm in Hb4; [|apply perm_swap]. apply (held_return2 _ _ _ _ fp _ fr); [done|lia].
  - by rewrite fn_lookup_insert.
  - rewrite fn_lookup_insert_ne, F3 by (done || lia). unfold V2. by rewrite fn_lookup_insert.
  - rewrite Forall_forall in Hs3. apply Forall_forall. intros u Hu. eapply stored_frame; [|by apply Hs3]. intros i Hi. apply fn_lookup_insert_ne.
    intros <-. destruct (Ht pid) as [_ ?]; [eapply in_concat_map; [by apply H2|done]|done].
  - intros i A1 A2 A3. rewrite fn_lookup_insert_ne, F3, F2 by done. done.
  - intros i A1 A2. rewrite fn_lookup_insert_ne, X3, F2 by done. done.
Qed.

Lemma insert_at_app {A} (a c : list A) x : insert_at (Zlen a) x (a ++ c) = a ++ x :: c.
Proof. unfold insert_at. by rewrite to_nat_Zlen, take_app_length, drop_app_length. Qed.

Lemma parent_fits V n h s up l sep r : growing V n h (s :: up) l sep r -> n <= 2 ^ 31 -> sfits 32 (parent_of up).
Proof.
  intros Hg Hn. destruct up as [|s' up]; [done|]. cbn [parent_of]. eapply sfits_id; [|exact Hn]. apply (gr_range _ _ _ _ _ _ _ Hg).
  cbn [path_ids]. rewrite !elem_of_app. right. right. right. rewrite !elem_of_app. right. right. left.
Qed.

(** The program's lists are those of the parent with the new half. *)
Lemma parent_lists V n h s up l sep r :
  growing V n h (s :: up) l sep r -> (key_slots <= length (st_lk s ++ st_rk s))%nat ->
  let ks := st_lk s ++ sep :: st_rk s in let ts := st_lt s ++ l :: r :: st_rt s in
  read_keys (V (st_id s)) (length (st_lk s ++ st_rk s)) 0 = Some (st_lk s ++ st_rk s)
  /\ (exists cs, read_children (V (st_id s)) (Z.to_nat (Zlen (st_lk s ++ st_rk s) + 1)) 0 = Some cs
        /\ insert_at (Zlen (st_lk s) + 1) (root_id r) cs = map root_id ts)
  /\ length ks = 51%nat /\ length ts = 52%nat.
Proof.
  intros Hg Hfull ks ts. pose proof (parent_page _ _ _ _ _ _ _ _ Hg) as Hp. destruct (parent_lengths _ _ _ _ _ _ _ _ Hg) as [L1 L2].
  pose proof (np_room _ _ _ _ Hp) as Hr. change key_slots with 50%nat in *. pose proof (np_len _ _ _ _ Hp) as Hl.
  split; [apply (read_keys_ok _ _ 0), Hp|]. split.
  - exists (map root_id (st_lt s) ++ root_id l :: map root_id (st_rt s)). split.
    + replace (Z.to_nat _) with (length (map root_id (st_lt s) ++ root_id l :: map root_id (st_rt s))) by (rewrite Hl; unfold Zlen; lia).
      apply (read_children_ok _ _ 0), Hp.
    + replace (Zlen (st_lk s) + 1) with (Zlen (map root_id (st_lt s) ++ [root_id l]))
        by (unfold Zlen; rewrite length_app, length_map, L1; cbn; lia).
      rewrite (cons_middle (root_id l) (map root_id (st_lt s)) (map root_id (st_rt s))), app_assoc, insert_at_app. unfold ts. rewrite map_app. cbn [map]. by rewrite <- app_assoc.
  - unfold ks, ts. rewrite length_app in Hr, Hfull. rewrite !length_app. cbn [length]. lia.
Qed.

Lemma grow_split more root b V n h s up l sep r :
  held b V n [] ∅ -> growing V n h (s :: up) l sep r -> n < 2 ^ 31 -> (key_slots <= length (st_lk s ++ st_rk s))%nat ->
  exists b' V' l' m r', InsertIntoParentAfterSplit (S more) (root_id l) sep (root_id r) root b
      = InsertIntoParentAfterSplit more (root_id l') m (root_id r') root b'
    /\ held b' V' (n + 1) [] ∅ /\ growing V' (n + 1) (S h) up l' m r' /\ root_id l' = st_id s
    /\ (ids l' ++ ids r' ++ path_ids up ≡ₚ n :: ids l ++ ids r ++ path_ids (s :: up))
    /\ (forall i, i < n -> i ∉ ids l ++ ids r ++ path_ids (s :: up) -> V' i = V i)
    /\ flat_left up ++ flat l' ++ ISep m :: flat r' ++ flat_right up
       = flat_left (s :: up) ++ flat l ++ ISep sep :: flat r ++ flat_right (s :: up).
Proof.
  intros Hb Hg Hn Hfull. pose proof (parent_range _ _ _ _ _ _ _ _ Hg) as Is.
  destruct (parent_fetched b V n h s up l sep r Hb Hg) as (f & b1 & fp & b2 & E1 & D1 & E2 & D2 & Hb2).
  pose proof (parent_page _ _ _ _ _ _ _ _ Hg) as Hp. destruct (np_header _ _ _ _ Hp) as [nxt Hh].
  destruct (parent_index _ _ _ _ _ _ _ _ Hg) as (found & Ef & Hd).
  destruct (parent_lists V n h s up l sep r Hg Hfull) as (Ek & (cs & Ec & Ei) & Lk & Lt).
  pose proof (parent_fits _ _ _ _ _ _ _ _ Hg ltac:(lia)) as Hgp.
  set (ks := st_lk s ++ sep :: st_rk s) in *. set (ts := st_lt s ++ l :: r :: st_rt s) in *.
  destruct (lookup_lt_is_Some_2 ks 25) as [m Hm]; [lia|]. pose proof (eq_sym (take_drop_middle _ _ _ Hm)) as HK.
  pose proof (eq_sym (take_drop 26 ts)) as HT. set (k1 := take 25 ks) in *. set (k2 := drop 26 ks) in *.
  set (t1 := take 26 ts) in *. set (t2 := drop 26 ts) in *.
  assert (L1 : length t1 = S (length k1)) by (unfold t1, k1; rewrite !length_take; lia).
  assert (L2 : length t2 = S (length k2)) by (unfold t2, k2; rewrite !length_drop; lia).
  assert (L3 : length k1 = 25%nat) by (unfold k1; rewrite length_take; lia). assert (L4 : length k2 = 25%nat) by (unfold k2; rewrite length_drop; lia).
  cbn [InsertIntoParentAfterSplit]. rewrite E1. cbn [mbind option_bind]. rewrite D1. cbn [mbind option_bind]. cbv zeta.
  rewrite (proj2 (Z.eqb_neq _ _)) by (unfold kInvalidPageId; lia). rewrite E2. cbn [mbind option_bind].
  rewrite D2, (hd_num _ _ _ _ _ Hh). cbn [mbind option_bind]. rewrite to_nat_Zlen, Ef. cbn [mbind option_bind]. rewrite Hd.
  rewrite (proj2 (Z.ltb_ge _ _)) by (unfold Zlen, key_slots in *; lia). rewrite Ek. cbn [mbind option_bind]. rewrite Ec. cbn [mbind option_bind].
  rewrite Ei, insert_at_app. fold ks. rewrite Lk. change (51 / 2)%nat with 25%nat. rewrite Hm. cbn [mbind option_bind].
  rewrite (hd_parent _ _ _ _ _ Hh). cbn [mbind option_bind]. rewrite skipn_map, firstn_map. fold k1 k2 t1 t2.
  destruct (split_keys_ok V n h s up l r sep m k1 k2 Hg HK) as (Ok1 & _ & Ok2).
  pose proof (split_nodup V n h s up l r sep t1 t2 Hg HT) as Hnd. apply NoDup_cons in Hnd as [Hs Hnd]. apply NoDup_app in Hnd as (_ & _ & Hnd).
  apply NoDup_app in Hnd as (_ & _ & Hnd).
  destruct (split_pages b2 V n h (parent_of up) (st_id s) fp _ _ k1 k2 t1 t2 Hb2 Hn Hgp Hp) as
    (fr & b3 & b4 & b5 & b6 & V' & E3 & E4 & E5 & E6 & Hb6 & P1 & P2 & P3 & P4 & P5); try done; [change key_slots with 50%nat; lia..| | |].
  { intros i Hi. rewrite map_app, concat_app in Hi. split; [|by intros ->; apply Hs, elem_of_app; right].
    apply (split_range V n h s up l r sep t1 t2 Hg HT). right. apply elem_of_app. by right. }
  { apply (split_stored V n h s up l r sep t1 t2 Hg HT). }
  unfold fill_node in E4, E6. rewrite E3. cbn [mbind option_bind]. rewrite E4. cbn [mbind option_bind]. rewrite length_map, E5. cbn [mbind option_bind].
  rewrite <- L3. change (Z.of_nat (length k1)) with (Zlen k1). rewrite E6. cbn [mbind option_bind].
  exists (unpin n true (unpin (st_id s) true b6)), V', (TNode (st_id s) k1 t1), m, (TNode n k2 t2).
  split; [done|]. split; [done|]. split; [|split; [done|split; [|split; [|by apply (split_flat V n h s up l r sep m k1 k2 t1 t2)]]]].
  - apply (grow_up_tree V n h s up l r sep m k1 k2 t1 t2 Hg HK HT L1 L2 V' P1 P2 P3 P4 P5); intros Hnil; [rewrite Hnil in L3|rewrite Hnil in L4]; done.
  - rewrite (split_ids s up l r t1 t2 HT). cbn [ids]. solve_Permutation.
  - intros i Hi Hno. rewrite (split_ids s up l r t1 t2 HT) in Hno.
    apply P4; [lia|..].
    + intros ->. apply Hno. left.
    + intros Hin. apply Hno. right. apply elem_of_app. right. apply elem_of_app. right.
      apply list_elem_of_In, in_map_iff in Hin as (u & <- & Hu). apply list_elem_of_In in Hu. eapply in_concat_map; [exact Hu|apply root_in_ids].
Qed.

(** ** The whole way up *)
Lemma grow_ok c fuel root b V n h l sep r :
  held b V n [] ∅ -> growing V n h c l sep r -> n + Zlen c < 2 ^ 31 -> (length c < fuel)%nat -> root = root_id (plug c l) ->
  exists b' V' n' h' t, InsertIntoParentAfterSplit fuel (root_id l) sep (root_id r) root b = Some (root_id t, b')
    /\ grown V n (ids l ++ ids r ++ path_ids c) b' V' n' h' (flat_left c ++ flat l ++ ISep sep :: flat r ++ flat_right c) t
    /\ n <= n' <= n + Zlen c + 1.
Proof.
  revert fuel b V n h l sep r. induction c as [|s up IH]; intros [|fuel] b V n h l sep r Hb Hg Hn Hf Hroot; try (cbn in Hf; lia).
  - destruct (grow_root fuel root b V n h l sep r Hb Hg) as (b' & V' & E & G); [unfold Zlen in Hn; cbn in Hn; lia|].
    exists b', V', (n + 1), (S h), (TNode n [sep] [l; r]). split; [done|]. cbn [flat_left flat_right app path_ids]. rewrite !app_nil_r.
    split; [done|unfold Zlen; cbn; lia].
  - assert (Hz : Zlen (s :: up) = Zlen up + 1) by (unfold Zlen; cbn; lia). assert (0 <= Zlen up) by (unfold Zlen; lia).
    destruct (Nat.lt_ge_cases (length (st_lk s ++ st_rk s)) key_slots) as [Hroom|Hfull].
    + destruct (grow_room fuel root b V n h s up l sep r Hb Hg ltac:(lia) Hroom) as (b' & V' & t & E & R & G).
      exists b', V', n, (length up + S h)%nat, t. split; [by rewrite E, R, Hroot|]. split; [done|lia].
    + destruct (grow_split fuel root b V n h s up l sep r Hb Hg ltac:(lia) Hfull) as (b1 & V1 & l' & m & r' & E & Hb1 & Hg1 & R & I & F1 & F).
      destruct (IH fuel b1 V1 (n + 1) (S h) l' m r' Hb1 Hg1) as (b' & V' & n' & h' & t & E' & (G1 & G2 & G3 & G4) & B);
        [lia|cbn in Hf; lia|rewrite Hroot; by apply (root_plug up (wrap_node l s))|].
      exists b', V', n', h', t. rewrite E, E'. split; [done|]. split; [|lia]. split; [done|]. split; [by rewrite <- F|]. split.
      * intros i Hi Hno. rewrite G3; [by apply F1|lia|]. rewrite I, not_elem_of_cons. split; [lia|done].
      * intros i Hi. destruct (G4 i Hi) as [Hx|Hx]; [|right; lia]. rewrite I, elem_of_cons in Hx. destruct Hx as [->|Hx]; [right; lia|by left].
Qed.
End Grow.
