(* ===== verification/BPlusRefine.v ===== *)
(** * The operations of the B+Tree refine those of a finite map

    The split of a full leaf, the whole of [Insert], the scan along the chained leaves, and
    a run of operations against a [gmap]. *)
From stdpp Require Import functions.
From coqutil Require Import Byte.
From S2P Require Import Prelude Bytes AtRest SlottedPage DiskManager BufferPool BufferPoolProps BPlusTree Pins BNode BTree BPlusProps BPlusGrow.
Local Open Scope Z_scope.

(** ** The separator of two leaves *)
Lemma sep_before k r y : item_lt (IEntry k r) y -> item_lt (ISep k) y.
Proof. destruct y; cbn; [apply (lt_asym str_lt)|done]. Qed.

(** An entry of the left leaf keeps the separators further left below. *)
Lemma separate L low k r high R :
  low <> [] -> ordered (L ++ items (low ++ (k, r) :: high) ++ R) -> ordered (L ++ items low ++ ISep k :: items ((k, r) :: high) ++ R).
Proof.
  intros Hlow Ho. unfold items in *. rewrite map_app in Ho. cbn [map fst snd] in *. rewrite <- app_assoc in Ho.
  rewrite app_assoc in Ho |- *. pose proof Ho as (H1 & H2 & H3)%ordered_app. cbn [app] in *. inversion H2 as [|? ? _ Hf]; subst.
  apply ordered_insert; [done|..].
  - destruct (exists_last Hlow) as (low' & e & ->). rewrite map_app in *. cbn [map] in *. rewrite app_assoc in *.
    assert (He : item_lt (IEntry e.1 e.2) (ISep k)).
    { apply (H3 (IEntry e.1 e.2) (IEntry k r)); [|left]. apply elem_of_app. right. left. }
    intros y [Hy|Hy]%elem_of_app; [|by apply list_elem_of_singleton in Hy as ->].
    apply ordered_app in H1 as (_ & _ & H1). etransitivity; [|exact He]. apply H1; [done|left].
  - intros y [->|Hy]%elem_of_cons; [cbn; by apply (lt_irrefl (ltb := str_lt))|]. apply (sep_before k r). rewrite Forall_forall in Hf. by apply Hf.
Qed.

Lemma entries_sep k l : entries_of (ISep k :: l) = entries_of l.
Proof. done. Qed.

Section Refine.
Context `{C : Crypto} `{!CryptoLaws C} `{K : DiskKey}.
Implicit Types (b : BufferPool) (V : Z -> bytes).

(** The tree in the middle of an insertion that split its leaf. *)
Lemma split_growing V V' t n h key c id nxt es low k r high :
  tree_ok V n h t -> at_leaf V t key c id es -> leaf_page (parent_of c) nxt es (V id) ->
  leaf_page (parent_of c) n low (V' id) -> leaf_page (parent_of c) nxt ((k, r) :: high) (V' n) ->
  (forall i, i <> id -> i <> n -> V' i = V i) -> low <> [] -> ordered (flat_left c ++ items (low ++ (k, r) :: high) ++ flat_right c) ->
  growing V' (n + 1) 0 c (TLeaf id low) k (TLeaf n ((k, r) :: high)).
Proof.
  intros [_ N1 R1 L1 _] [<- Hp _ _] Hold Hlow Hhigh HV Hne Ho.
  assert (Hids : ids (plug c (TLeaf id es)) ≡ₚ id :: path_ids c) by (by rewrite ids_plug).
  rewrite Hids in N1. assert (R : forall i, i ∈ id :: path_ids c -> 0 <= i < n) by (intros i Hi; apply R1; by rewrite Hids).
  apply NoDup_cons in N1 as [Hid N1]. pose proof (R id ltac:(left)) as Rid.
  assert (Hn : n ∉ id :: path_ids c) by (intros Hi; apply R in Hi; lia). rewrite not_elem_of_cons in Hn. destruct Hn as [Hn1 Hn2].
  assert (Hl : forall i, i ∈ (leafs_left c).*1 \/ i ∈ (leafs_right c).*1 -> i <> id /\ i <> n).
  { intros i Hi%path_leafs_ids. split; intros ->; done. }
  split; cbn [ids leafs flat root_id].
  - eapply path_frame; [|exact Hp]. intros i Hi. apply HV; intros ->; done.
  - by exists n.
  - by exists nxt.
  - cbn. constructor; [rewrite not_elem_of_cons; by split|]. by constructor.
  - intros i Hi. cbn in Hi. rewrite !elem_of_cons in Hi. destruct Hi as [->|[->|Hi]]; [lia|lia|]. assert (0 <= i < n) by (apply R; by right). lia.
  - rewrite leafs_plug in L1. cbn [leafs app] in L1 |- *. rewrite fmap_app in *. cbn [fmap list_fmap fst] in *.
    eapply (links_insert V); [exact L1| |apply (lp_header _ _ _ _ Hold)|apply (lp_header _ _ _ _ Hlow)|apply (lp_header _ _ _ _ Hhigh)|].
    + assert (G : NoDup (leafs (plug c (TLeaf id es))).*1) by (eapply sublist_nodup; [apply leafs_sublist|rewrite Hids; by constructor]).
      rewrite leafs_plug, fmap_app in G. cbn in G. rewrite <- !Permutation_middle in *. apply NoDup_cons in G as [G1 G2].
      constructor; [|constructor; [|done]].
      * rewrite not_elem_of_cons. by split.
      * rewrite elem_of_app. intros Hi. destruct (Hl n Hi). done.
    + intros x Hx. destruct (Hl x Hx). by rewrite HV.
  - by apply separate.
  - eapply (leaf_entry_ok _ _ _ _ (k, r)); [exact Hhigh|left].
Qed.

Lemma get_i32_fits off p v : get_i32 off p = Some v -> sfits 32 v.
Proof.
  unfold get_i32. intros H'. apply fmap_Some in H' as (s & Hs & ->). apply to_signed_sfits; [done|].
  pose proof (LittleEndianList.le_combine_bound s) as H. unfold mem_read in Hs. destruct (_ && _) eqn:E in Hs; [|done]. injection Hs as <-.
  rewrite length_take, length_drop in H. apply andb_true_iff in E as [E1 E2]. apply andb_true_iff in E1 as [E0 E1]. apply Z.leb_le in E0, E2.
  unfold Zlen in E2. rewrite Nat.min_l in H by lia. done.
Qed.

Lemma split_leaf_ok b V n id f par nxt es low high :
  held b V n [(id, f)] ∅ -> n < 2 ^ 31 -> leaf_page par nxt es (V id) ->
  let entries := low ++ high in
  length low = (length entries / 2)%nat -> (length low <= key_slots)%nat -> (length high <= key_slots)%nat ->
  Forall (fun e => key_ok e.1 /\ rid_ok e.2) entries ->
  exists fr b1 b2 V', NewPage b = (Some (fr, n), b1) /\ split_leaf entries par nxt n f fr b1 = Some b2
    /\ held (unpin n true (unpin id true b2)) V' (n + 1) [] ∅
    /\ leaf_page par n low (V' id) /\ leaf_page par nxt high (V' n) /\ (forall i, i <> id -> i <> n -> V' i = V i).
Proof.
  intros Hb Hn Hl entries Hlow R1 R2 Hok. pose proof (held_range _ _ _ _ _ _ _ Hb ltac:(left)) as Hid. apply Forall_app in Hok as [Ok1 Ok2].
  pose proof (lp_header _ _ _ _ Hl) as Hh.
  pose proof (get_i32_fits _ _ _ (hd_parent _ _ _ _ _ Hh)) as Fp. pose proof (get_i32_fits _ _ _ (hd_next _ _ _ _ _ Hh)) as Fn.
  destruct (held_new b V n _ ∅ Hb Hn ltac:(cbn; lia)) as (fr & b1 & E1 & Hb1).
  destruct (right_leaf_ok par nxt high zero_page) as (p & Ep & Hp); [done..|].
  destruct (held_edit b1 _ (n + 1) _ ∅ n fr (fun q => q1 ← InitLeaf par q; q2 ← write_entries high 0 q1; q3 ← set_num_keys (Zlen high) q2; set_next_leaf nxt q3)
              p Hb1 ltac:(left) ltac:(rewrite fn_lookup_insert; exact Ep)) as [E2 Hb2]; [by destruct Hp as [[]]|].
  set (V2 := <[n := p]> (<[n := zero_page]> V)) in *.
  assert (F2 : forall i, i <> n -> V2 i = V i) by (intros i Hi; unfold V2; by rewrite !fn_lookup_insert_ne).
  destruct (left_leaf_ok par nxt n _ low (V id) Hh) as (q & Eq & Hq); [eapply (sfits_id n (n + 1)); lia|done|done|].
  rewrite <- (F2 id) in Eq by lia.
  destruct (held_edit _ V2 (n + 1) _ _ id f (fun q => q1 ← write_entries low 0 q; q2 ← set_num_keys (Zlen low) q1; set_next_leaf n q2)
              q Hb2 ltac:(right; left) Eq) as [E3 Hb3]; [by destruct Hq as [[]]|].
  exists fr, b1, (write_frame f q (write_frame fr p b1)), (<[id := q]> V2). split; [done|]. split; [|split; [|split; [|split]]].
  - unfold split_leaf. rewrite <- Hlow. unfold entries. rewrite take_app_length, drop_app_length, E2. cbn [mbind option_bind]. done.
  - eapply held_perm in Hb3; [|apply perm_swap]. apply (held_return2 _ _ _ _ f _ fr); [done|lia].
  - by rewrite fn_lookup_insert.
  - rewrite fn_lookup_insert_ne by lia. unfold V2. by rewrite fn_lookup_insert.
  - intros i A1 A2. rewrite fn_lookup_insert_ne by done. by apply F2.
Qed.

Lemma insert_split b V n h t key c id f nxt l1 l2 r :
  leaf_found b V n h t key c id f nxt (l1 ++ l2) -> fits_between key l1 l2 -> key_ok key -> rid_ok r ->
  (key_slots <= length (l1 ++ l2))%nat -> n + 33 <= 2 ^ 31 ->
  let entries := l1 ++ (key, r) :: l2 in
  exists fr b1 b2 sep x b3 V' n' h' t', NewPage b = (Some (fr, n), b1) /\ split_leaf entries (parent_of c) nxt n f fr b1 = Some b2
    /\ entries !! (length entries / 2)%nat = Some (sep, x)
    /\ InsertIntoParentAfterSplit parent_fuel id sep n (root_id t) (unpin n true (unpin id true b2)) = Some (root_id t', b3)
    /\ tree_state b3 V' n' h' t' /\ updated V n t key (Some r) V' t' /\ n <= n' <= n + 33.
Proof.
  intros (Hb & Ht & Hc & Ha & Hl) Hf Hk Hr Hfull Hn entries. pose proof (lp_room _ _ _ _ Hl) as Hroom. change key_slots with 50%nat in *.
  assert (Le : length entries = 51%nat) by (unfold entries; rewrite length_app in *; cbn; lia).
  destruct (lookup_lt_is_Some_2 entries 25) as [[sep x] Hx]; [lia|]. pose proof (eq_sym (take_drop_middle _ _ _ Hx)) as He.
  set (low := take 25 entries) in *. set (high := drop 26 entries) in *.
  assert (L1 : length low = 25%nat) by (unfold low; rewrite length_take; lia). assert (L2 : length high = 25%nat) by (unfold high; rewrite length_drop; lia).
  assert (Hok : Forall (fun e => key_ok e.1 /\ rid_ok e.2) entries).
  { apply Forall_forall. intros e [He'|[->|He']%elem_of_cons]%elem_of_app; [|done|]; (eapply leaf_entry_ok; [exact Hl|]; rewrite elem_of_app; tauto). }
  destruct (split_leaf_ok b V n id f (parent_of c) nxt (l1 ++ l2) low ((sep, x) :: high) Hb ltac:(lia) Hl) as (fr & b1 & b2 & V1 & E1 & E2 & Hb2 & P1 & P2 & F1);
    [by rewrite <- He, L1, Le|change key_slots with 50%nat; lia|change key_slots with 50%nat; cbn; lia|by rewrite <- He|]. rewrite <- He in E2.
  assert (Hfl : flat t = flat_left c ++ items (l1 ++ l2) ++ flat_right c) by (destruct Ha as [<- Hp _ _]; by apply (flat_plug 0 V)).
  pose proof (al_key _ _ _ _ _ _ Ha) as [K1 K2]. pose proof (to_order _ _ _ _ Ht) as Ho. rewrite Hfl in Ho.
  pose proof (fits_order key r _ _ _ _ Ho K1 K2 Hf) as Ho'. fold entries in Ho'. rewrite He in Ho'.
  assert (Hg : growing V1 (n + 1) 0 c (TLeaf id low) sep (TLeaf n ((sep, x) :: high)))
    by (apply (split_growing V V1 t n h key c id nxt (l1 ++ l2)); try done; intros Hnil; by rewrite Hnil in L1).
  pose proof (tree_height _ _ _ _ Ht ltac:(lia)) as Hh.
  destruct (grow_ok c parent_fuel (root_id t) _ V1 (n + 1) 0 _ sep _ Hb2 Hg) as (b3 & V' & n' & h' & t' & E3 & (G1 & G2 & G3 & G4) & B);
    [unfold Zlen; lia|unfold parent_fuel, kMaxDescent; lia|destruct Ha as [<- _ _ _]; by apply root_plug|].
  exists fr, b1, b2, sep, x, b3, V', n', h', t'. split; [done|]. split; [done|]. rewrite Le. split; [done|]. split; [done|]. split; [done|].
  split; [|unfold Zlen in B; lia]. cbn [ids] in G3, G4. assert (Hids : ids t ≡ₚ id :: path_ids c) by (destruct Ha as [<- _ _ _]; by rewrite ids_plug).
  split.
  - intros k. rewrite G2, Hfl. cbn [flat].
    pose proof (leaf_maps key (flat_left c) l1 l2 (flat_right c) (Some r) None K1 K2 Hf k) as M. cbn [app] in M. fold entries in M. rewrite <- M. f_equal.
    by rewrite !entries_app, entries_sep, entries_app, !entries_items, He, <- !app_assoc.
  - intros i Hi Hno. rewrite Hids, not_elem_of_cons in Hno. destruct Hno as [H1 H2]. rewrite G3; [apply F1; lia|lia|].
    cbn. rewrite !not_elem_of_cons. split; [done|]. split; [lia|done].
  - intros i Hi. rewrite Hids. destruct (G4 i Hi) as [Hj|Hj]; [|right; lia]. cbn in Hj. rewrite !elem_of_cons in Hj. rewrite elem_of_cons.
    destruct Hj as [->|[->|Hj]]; [tauto|right; lia|tauto].
Qed.

(** ** Insert *)
Definition key_valid (key : bytes) : Prop := key <> [] /\ Zlen key < kMaxKeyBytes /\ (Byte.x00 ∉ key).

Lemma InsertIntoLeaf_ok b V n h t key c id es r :
  tree_state b V n h t -> at_leaf V t key c id es -> length c = h -> n + 33 <= 2 ^ 31 -> key_ok key -> rid_ok r ->
  exists b' V' n' h' t', InsertIntoLeaf id key r (root_id t) b = Some (OK tt, root_id t', b')
    /\ tree_state b' V' n' h' t' /\ updated V n t key (Some r) V' t' /\ n <= n' <= n + 33.
Proof.
  intros [Hb Ht] Ha Hc Hn Hk Hr. pose proof (at_leaf_ids _ _ _ _ _ _ n Ha (to_range _ _ _ _ Ht)) as Hid. destruct (al_leaf _ _ _ _ _ _ Ha) as [nxt Hl].
  pose proof (leaf_order _ _ _ _ _ _ _ _ Ht Ha) as Ho. destruct (held_read b V n id Hb Hid) as (f & b1 & E1 & D & Hb1 & _).
  pose proof (lp_header _ _ _ _ Hl) as Hh. unfold InsertIntoLeaf. rewrite E1. cbv zeta. rewrite D, (hd_num _ _ _ _ _ Hh). cbn [mbind option_bind].
  rewrite to_nat_Zlen. destruct (insert_index_leaf _ _ es _ key Hl Ho) as (found & l1 & l2 & -> & -> & Hcase). cbn [mbind option_bind].
  assert (Hlf : leaf_found b1 V n h t key c id f nxt (l1 ++ l2)) by done.
  destruct Hcase as [(r0 & l2' & -> & Hf & ->)|[Hf Hfound]].
  { destruct (insert_existing b1 V n h t key c id f nxt l1 r0 l2' r Hlf Hf Hr) as (b2 & V' & t' & -> & S & R & U). cbn [mbind option_bind].
    exists (unpin id true b2), V', n, h, t'. rewrite R. split; [done|]. split; [done|]. split; [done|lia]. }
  assert (Hidx : match found with Some (_, i) => i | None => Zlen (l1 ++ l2) end = Zlen l1).
  { destruct Hfound as [->|[-> H]]; done. }
  rewrite Hidx. destruct (Nat.lt_ge_cases (length (l1 ++ l2)) key_slots) as [Hroom|Hfull].
  - rewrite (proj2 (Z.ltb_lt _ _)) by (unfold Zlen, key_slots in *; lia).
    destruct (insert_room b1 V n h t key c id f nxt l1 l2 r Hlf Hf Hk Hr Hroom) as (b2 & V' & t' & E2 & S & R & U).
    exists (unpin id true b2), V', n, h, t'. rewrite R, E2. cbn [mbind option_bind]. split; [by destruct Hfound as [->|[-> _]]|]. split; [done|]. split; [done|lia].
  - rewrite (proj2 (Z.ltb_ge _ _)) by (unfold Zlen, key_slots in *; lia).
    destruct (insert_split b1 V n h t key c id f nxt l1 l2 r Hlf Hf Hk Hr Hfull Hn) as (fr & b2 & b3 & sep & x & b4 & V' & n' & h' & t' & E2 & E3 & Ex & E4 & S & U & B).
    exists b4, V', n', h', t'. rewrite (read_entries_ok _ (l1 ++ l2) 0) by apply Hl. cbn [mbind option_bind]. rewrite insert_at_app.
    rewrite (hd_parent _ _ _ _ _ Hh), (hd_next _ _ _ _ _ Hh). cbn [mbind option_bind]. rewrite E2, E3. cbn [mbind option_bind]. rewrite Ex.
    cbn [mbind option_bind]. rewrite E4. cbn [mbind option_bind]. split; [by destruct Hfound as [->|[-> _]]|done].
Qed.

Lemma Insert_ok b V n h t key r :
  tree_state b V n h t -> n + 33 <= 2 ^ 31 -> key_valid key -> rid_ok r ->
  exists b' V' n' h' t', Insert (root_id t) key r b = Some (OK tt, root_id t', b')
    /\ tree_state b' V' n' h' t' /\ updated V n t key (Some r) V' t' /\ n <= n' <= n + 33.
Proof.
  intros [Hb Ht] Hn (K1 & K2 & K3) Hr. destruct (FindLeaf_ok key b V n h t Hb Ht ltac:(lia)) as (c & id & es & b1 & E & Hb1 & Ha & Hc).
  pose proof (at_leaf_ids _ _ _ _ _ _ n Ha (to_range _ _ _ _ Ht)) as Hid.
  destruct (InsertIntoLeaf_ok b1 V n h t key c id es r) as (b' & V' & n' & h' & t' & E' & H); try done; [split; [done|unfold kMaxKeyBytes in *; lia]|].
  exists b', V', n', h', t'. split; [|done]. unfold Insert. rewrite bool_decide_eq_false_2 by done. rewrite (proj2 (Z.leb_gt _ _)) by done. cbn [orb].
  rewrite E. cbn [mbind option_bind]. by rewrite (proj2 (Z.eqb_neq _ _)) by (unfold kInvalidPageId; lia).
Qed.

(** ** A new tree *)
Lemma CreateNew_ok b V n :
  held b V n [] ∅ -> 0 <= n < 2 ^ 31 ->
  exists b' p, CreateNew b = Some (OK n, b') /\ tree_state b' (<[n := p]> V) (n + 1) 0 (TLeaf n []).
Proof.
  intros Hb Hn. destruct (held_new b V n [] ∅ Hb ltac:(lia) ltac:(cbn; lia)) as (f & b1 & E1 & Hb1).
  destruct (InitLeaf_ok kInvalidPageId zero_page) as (p & Ep & Hp); [done|done|].
  destruct (held_rewrite b1 _ (n + 1) n f (InitLeaf kInvalidPageId) p Hb1) as [E2 Hb2]; [by rewrite fn_lookup_insert|apply Hp|].
  assert (Hv : (<[n := p]> (<[n := zero_page]> V)) n = p) by (by rewrite fn_lookup_insert).
  exists (unpin n true (write_frame f p b1)), p. unfold CreateNew. rewrite E1, E2. split; [done|].
  assert (Hh : held (unpin n true (write_frame f p b1)) (<[n := p]> V) (n + 1) [] ∅).
  { destruct Hb2 as [H1 H2 H3 H4 H5 H6 H7]. split; try done. intros j Hj. rewrite H3 by done.
    destruct (decide (j = n)) as [->|Hne]; [by rewrite !fn_lookup_insert|by rewrite !fn_lookup_insert_ne]. }
  split; [done|]. split; cbn.
  - exists kInvalidPageId. by rewrite fn_lookup_insert.
  - apply NoDup_singleton.
  - intros i ->%list_elem_of_singleton. lia.
  - split; [|done]. rewrite fn_lookup_insert. apply (lp_header _ _ _ _ Hp).
  - constructor.
Qed.

Lemma RootLooksValid_ok b V n h t :
  tree_state b V n h t -> exists b', RootLooksValid (root_id t) b = Some (true, b') /\ tree_state b' V n h t.
Proof.
  intros [Hb Ht]. assert (Hid : 0 <= root_id t < n) by (apply Ht, root_in_ids).
  destruct (held_read b V n (root_id t) Hb Hid) as (f & b1 & E & D & _ & Hb1). exists (unpin (root_id t) false b1).
  unfold RootLooksValid. rewrite (proj2 (Z.eqb_neq _ _)) by (unfold kInvalidPageId; lia). rewrite E, D. split; [|done].
  pose proof (to_stored _ _ _ _ Ht) as Hs. rewrite (stored_parent _ _ _ _ Hs). cbn [mbind option_bind]. destruct h, t as [id es|id ks ts]; try done.
  - destruct Hs as [nxt [H _ _]]. cbn [root_id]. rewrite (hd_leaf _ _ _ _ _ H), (hd_num _ _ _ _ _ H). done.
  - destruct Hs as (Hne & [[nxt H] _ _ _ _] & _). cbn [root_id]. rewrite (hd_leaf _ _ _ _ _ H), (hd_num _ _ _ _ _ H). cbn.
    by destruct ks.
Qed.

(** ** Scans *)
Definition limited {A} (limit : nat) (l : list A) : list A := if (limit =? 0)%nat then l else take limit l.
Definition from (start : bytes) (l : list entry) : list entry := filter (fun e => str_lt e.1 start = false) l.

Lemma limited_full {A} limit (l l' : list A) : (limit =? 0)%nat || (length l <? limit)%nat = false -> limited limit (l ++ l') = take limit l.
Proof.
  unfold limited. rewrite orb_false_iff. intros [-> H]. apply Nat.ltb_ge in H. by rewrite take_app_le.
Qed.

Lemma scan_leaves_ok L fuel start limit out b V n :
  held b V n [] ∅ -> links V L.*1 -> (forall e, e ∈ L -> 0 <= e.1 < n /\ exists par nxt, leaf_page par nxt e.2 (V e.1)) ->
  (length L <= fuel)%nat -> scan_room limit out ->
  exists b', scan_leaves fuel (default kInvalidPageId (head L.*1)) start limit out b = Some (limited limit (out ++ from start (concat L.*2)), b')
    /\ held b' V n [] ∅.
Proof.
  revert fuel out b. induction L as [|[id es] L IH]; intros fuel out b Hb Hk Hl Hf Hroom.
  - exists b. split; [|done]. cbn. rewrite app_nil_r. unfold limited.
    assert (Ho : (if (limit =? 0)%nat then out else take limit out) = out).
    { destruct Hroom as [->|Hr]; [done|]. by destruct (limit =? 0)%nat; [|rewrite take_ge by lia]. }
    rewrite Ho. by destruct fuel.
  - destruct (Hl (id, es) ltac:(left)) as (Hid & par & nxt & Hp). cbn [fst snd] in Hid, Hp. destruct fuel as [|fuel]; [cbn in Hf; lia|].
    destruct Hk as [Hn Hk]. change (default kInvalidPageId (head ((id, es) :: L).*1)) with id.
    change (concat ((id, es) :: L).*2) with (es ++ concat L.*2). cbn [fst] in Hn. cbn [scan_leaves].
    rewrite (proj2 (Z.eqb_neq _ _)) by (unfold kInvalidPageId; lia).
    destruct (held_read b V n id Hb Hid) as (f & b1 & E & D & _ & Hb1). rewrite E. cbv zeta. rewrite D.
    rewrite (hd_num _ _ _ _ _ (lp_header _ _ _ _ Hp)). cbn [mbind option_bind]. rewrite to_nat_Zlen.
    pose proof (scan_leaf_ok (V id) start limit es 0 out (lp_slots _ _ _ _ Hp) Hroom) as Es. change (Z.of_nat 0) with 0 in Es.
    rewrite Es. clear Es. fold (from start es).
    assert (Hfa : from start (es ++ concat L.*2) = from start es ++ from start (concat L.*2)) by apply filter_app.
    destruct (_ || _) eqn:Efull; cbn [mbind option_bind].
    + assert (Hn' : next_leaf_page_id (V id) = Some (default kInvalidPageId (head L.*1))) by exact Hn. rewrite Hn'. cbn [mbind option_bind].
      destruct (IH fuel (out ++ from start es) (unpin id false b1) Hb1 Hk) as (b' & E' & Hb'); [intros e He; apply Hl; by right|cbn in Hf; lia| |].
      { apply orb_true_iff in Efull as [E0|E0]; [left; by apply Nat.eqb_eq|right; by apply Nat.ltb_lt]. }
      exists b'. split; [|done]. rewrite E'. by rewrite Hfa, app_assoc.
    + exists (unpin id false b1). split; [|done]. by rewrite Hfa, app_assoc, limited_full.
Qed.

Lemma entries_suf ks (ts : list tree) :
  length ts = length ks -> Forall (fun t => entries_of (flat t) = concat (leafs t).*2) ts ->
  entries_of (suf ks (map flat ts)) = concat (concat (map leafs ts)).*2.
Proof.
  intros Hl Hf. revert ks Hl. induction Hf as [|u ts Hu _ IH]; intros [|k ks] Hl; try done. cbn in Hl. injection Hl as Hl.
  cbn [map suf concat]. rewrite entries_sep, entries_app, Hu, fmap_app, concat_app. f_equal. by apply IH.
Qed.

Lemma entries_right h V c hole : path_stored h V c hole -> entries_of (flat_right c) = concat (leafs_right c).*2.
Proof.
  revert h hole. induction c as [|s up IH]; intros h hole; [done|]. intros (H1 & _ & H3 & _ & H5 & H6). cbn [flat_right leafs_right].
  rewrite entries_app, fmap_app, concat_app, (IH (S h) (st_id s)) by done. f_equal.
  apply entries_suf; [|eapply Forall_impl; [exact H5|]; intros t; apply entries_leafs].
  pose proof (np_len _ _ _ _ H3) as Hl. rewrite !length_app in Hl. cbn in Hl. rewrite !length_map in Hl. lia.
Qed.

(** Nothing before the leaf is asked for. *)
Lemma from_below start l es : Forall (below start) l -> from start (entries_of l ++ es) = from start es.
Proof.
  intros Hl. unfold from. rewrite filter_app. replace (filter _ (entries_of l)) with (@nil entry); [done|].
  rewrite Forall_forall in Hl. destruct (filter _ (entries_of l)) as [|[k r] l'] eqn:E; [done|].
  assert (Hin : (k, r) ∈ filter (fun e => str_lt e.1 start = false) (entries_of l)) by (rewrite E; left).
  apply list_elem_of_filter in Hin as [H1 Hin%entry_in]. apply Hl in Hin. cbn in *. congruence.
Qed.

Lemma leafs_bounded V n h t : tree_ok V n h t -> (length (leafs t) <= Z.to_nat n)%nat.
Proof.
  intros Ht. rewrite <- (length_fmap fst), <- (length_fmap Z.to_nat), <- (length_seq (Z.to_nat n) 0). apply submseteq_length, NoDup_submseteq.
  - apply (NoDup_fmap_2_strong Z.to_nat).
    + intros x y ([x' ?] & -> & Hx)%list_elem_of_fmap ([y' ?] & -> & Hy)%list_elem_of_fmap.
      apply leaf_in_ids, (to_range _ _ _ _ Ht) in Hx, Hy. cbn in *. lia.
    + eapply sublist_nodup; [apply leafs_sublist|apply Ht].
  - intros x (i & -> & ([i' ?] & -> & Hi)%list_elem_of_fmap)%list_elem_of_fmap. apply leaf_in_ids, (to_range _ _ _ _ Ht) in Hi.
    apply elem_of_seq. cbn in *. lia.
Qed.

Lemma Scan_ok b V n h t start limit :
  tree_state b V n h t -> n <= 2 ^ 31 ->
  exists b', ScanTree (root_id t) start limit b = Some (limited limit (from start (entries_of (flat t))), b') /\ tree_state b' V n h t.
Proof.
  intros [Hb Ht] Hn. destruct (FindLeaf_ok start b V n h t Hb Ht Hn) as (c & id & es & b1 & E & Hb1 & Ha & Hc).
  pose proof (at_leaf_ids _ _ _ _ _ _ n Ha (to_range _ _ _ _ Ht)) as Hid. pose proof (leafs_bounded _ _ _ _ Ht) as Hlen.
  unfold ScanTree. rewrite E. cbn [mbind option_bind]. rewrite (proj2 (Z.eqb_neq _ _)) by (unfold kInvalidPageId; lia).
  assert (Hlf : leafs t = leafs_left c ++ (id, es) :: leafs_right c) by (destruct Ha as [<- _ _ _]; by rewrite leafs_plug).
  assert (Hfl : entries_of (flat t) = entries_of (flat_left c) ++ concat ((id, es) :: leafs_right c).*2).
  { destruct Ha as [<- Hp _ _]. rewrite (flat_plug 0 V), !entries_app, (entries_right 0 V c id) by done. cbn [flat]. by rewrite entries_items. }
  destruct (scan_leaves_ok ((id, es) :: leafs_right c) (scan_fuel b1) start limit [] b1 V n Hb1) as (b' & E' & Hb').
  - pose proof (to_links _ _ _ _ Ht) as Hk. rewrite Hlf, fmap_app in Hk. by apply links_app in Hk.
  - intros e He. assert (He' : e ∈ leafs t) by (rewrite Hlf; apply elem_of_app; by right).
    split; [by apply (to_range _ _ _ _ Ht), leaf_in_ids|]. eapply leaf_stored; [apply Ht|done].
  - rewrite Hlf, length_app in Hlen. unfold scan_fuel. rewrite (h_count _ _ _ _ _ Hb1). lia.
  - destruct limit; [by left|right; cbn; lia].
  - exists b'. rewrite Hfl, from_below by (destruct Ha as [_ _ _ [HK _]]; done). split; [exact E'|done].
Qed.

(** ** The abstract map *)
Abbreviation index_map := (gmap bytes RID).

Definition sorted_rows (m : index_map) : list entry := std_sort str_lt fst (map_to_list m).

Definition represents (t : tree) (m : index_map) : Prop := forall k, assoc k (entries_of (flat t)) = m !! k.

Lemma represents_rows V n h t m : tree_ok V n h t -> represents t m -> entries_of (flat t) = sorted_rows m.
Proof.
  intros Ht Hm. assert (Hn : NoDup (map_to_list m).*1) by apply NoDup_fst_map_to_list.
  apply (assoc_sorted_ext str_lt); [apply ordered_entries, Ht|apply std_sort_sorted; [apply _|exact Hn]|].
  intros k. rewrite Hm, <- (assoc_map_to_list m k). apply assoc_perm; [done|]. symmetry. apply std_sort_perm.
Qed.

Lemma represents_update V n t key v V' t' m :
  updated V n t key v V' t' -> represents t m -> represents t' (partial_alter (fun _ => v) key m).
Proof.
  intros U Hm k. rewrite (up_maps _ _ _ _ _ _ _ U). case_decide as Hk.
  - subst k. by rewrite lookup_partial_alter_eq.
  - by rewrite lookup_partial_alter_ne.
Qed.

(** *** Runs of operations *)
Inductive index_op := OpInsert (key : bytes) (r : RID) | OpRemove (key : bytes) | OpSearch (key : bytes) | OpScan (start : bytes) (limit : nat).
Inductive index_answer := AInsert (s : StatusOr unit) | ARemove (found : bool) | ASearch (r : option RID) | AScan (rows : list entry).

Definition run_op (o : index_op) (s : Z * BufferPool) : option (index_answer * (Z * BufferPool)) :=
  let '(root, b) := s in
  match o with
  | OpInsert key r => '(st, root', b') ← Insert root key r b; Some (AInsert st, (root', b'))
  | OpRemove key => '(found, b') ← Remove root key b; Some (ARemove found, (root, b'))
  | OpSearch key => '(r, b') ← Search root key b; Some (ASearch r, (root, b'))
  | OpScan start limit => '(rows, b') ← ScanTree root start limit b; Some (AScan rows, (root, b'))
  end.

Definition spec_op (o : index_op) (m : index_map) : index_answer * index_map :=
  match o with
  | OpInsert key r =>
      if bool_decide (key = []) || (kMaxKeyBytes <=? Zlen key) then (AInsert (Fault kInvalidArgument), m)
      else (AInsert (OK tt), <[key := r]> m)
  | OpRemove key => (ARemove (bool_decide (is_Some (m !! key))), delete key m)
  | OpSearch key => (ASearch (m !! key), m)
  | OpScan start limit => (AScan (limited limit (from start (sorted_rows m))), m)
  end.

Fixpoint run_ops (ops : list index_op) (s : Z * BufferPool) : option (list index_answer * (Z * BufferPool)) :=
  match ops with
  | [] => Some ([], s)
  | o :: ops' => '(a, s1) ← run_op o s; '(rest, s2) ← run_ops ops' s1; Some (a :: rest, s2)
  end.

Fixpoint spec_ops (ops : list index_op) (m : index_map) : list index_answer * index_map :=
  match ops with
  | [] => ([], m)
  | o :: ops' => let '(a, m1) := spec_op o m in let '(rest, m2) := spec_ops ops' m1 in (a :: rest, m2)
  end.

(** A key holds no NUL, and a record id has the width of its type. *)
Definition op_ok (o : index_op) : Prop :=
  match o with OpInsert key r => (Byte.x00 ∉ key) /\ rid_ok r | _ => True end.

Lemma run_op_refines o b V n h t m :
  tree_state b V n h t -> represents t m -> op_ok o -> n + 33 <= 2 ^ 31 ->
  exists b' V' n' h' t', run_op o (root_id t, b) = Some ((spec_op o m).1, (root_id t', b'))
    /\ tree_state b' V' n' h' t' /\ represents t' (spec_op o m).2 /\ n <= n' <= n + 33.
Proof.
  intros S Hm Hok Hn. destruct o as [key r|key|key|start limit]; cbn [run_op spec_op].
  - destruct Hok as [Hz Hr]. destruct (bool_decide (key = []) || (kMaxKeyBytes <=? Zlen key)) eqn:Ev.
    + exists b, V, n, h, t. unfold Insert. rewrite Ev. split; [done|]. split; [done|]. split; [done|lia].
    + apply orb_false_iff in Ev as [E1 E2]. apply bool_decide_eq_false in E1. apply Z.leb_gt in E2.
      destruct (Insert_ok b V n h t key r S Hn ltac:(done) Hr) as (b' & V' & n' & h' & t' & -> & S' & U & B).
      exists b', V', n', h', t'. split; [done|]. split; [done|]. split; [by apply (represents_update _ _ _ _ _ _ _ _ U)|done].
  - destruct (Remove_ok key b V n h t S ltac:(lia)) as (b' & V' & t' & -> & S' & R & U). cbn [mbind option_bind].
    exists b', V', n, h, t'. rewrite Hm, R. split; [done|]. split; [done|]. split; [by apply (represents_update _ _ _ _ _ _ _ _ U)|lia].
  - destruct (Search_ok key b V n h t (ts_pool _ _ _ _ _ S) (ts_tree _ _ _ _ _ S) ltac:(lia)) as (b' & -> & Hb'). cbn [mbind option_bind].
    exists b', V, n, h, t. rewrite Hm. split; [done|]. split; [split; [done|apply S]|]. split; [done|lia].
  - destruct (Scan_ok b V n h t start limit S ltac:(lia)) as (b' & -> & S'). cbn [mbind option_bind].
    exists b', V, n, h, t. rewrite (represents_rows _ _ _ _ m (ts_tree _ _ _ _ _ S) Hm). split; [done|]. split; [done|]. split; [done|lia].
Qed.

Lemma run_ops_refines ops b V n h t m :
  tree_state b V n h t -> represents t m -> Forall op_ok ops -> n + 33 * Zlen ops <= 2 ^ 31 ->
  exists b' V' n' h' t', run_ops ops (root_id t, b) = Some ((spec_ops ops m).1, (root_id t', b'))
    /\ tree_state b' V' n' h' t' /\ represents t' (spec_ops ops m).2.
Proof.
  revert b V n h t m. induction ops as [|o ops IH]; intros b V n h t m S Hm Hok Hn; cbn [run_ops spec_ops].
  - by exists b, V, n, h, t.
  - apply Forall_cons in Hok as [Ho Hok]. assert (Hz : Zlen (o :: ops) = Zlen ops + 1) by (unfold Zlen; cbn; lia).
    assert (0 <= Zlen ops) by (unfold Zlen; lia).
    destruct (run_op_refines o b V n h t m S Hm Ho ltac:(lia)) as (b1 & V1 & n1 & h1 & t1 & -> & S1 & M1 & B). cbn [mbind option_bind].
    destruct (spec_op o m) as [a m1]. cbn [fst snd] in *.
    destruct (IH b1 V1 n1 h1 t1 m1 S1 M1 Hok ltac:(lia)) as (b2 & V2 & n2 & h2 & t2 & -> & S2 & M2). cbn [mbind option_bind].
    destruct (spec_ops ops m1) as [rest m2]. exists b2, V2, n2, h2, t2. done.
Qed.

End Refine.

Section Fresh.
Context `{C : Crypto} `{!CryptoLaws C}.

Lemma new_pool_held frames d :
  (3 <= frames)%nat -> disk_ok d -> 0 <= next_page_id_ d ->
  held (K := disk_key d) (new_pool frames d) (view (new_pool frames d)) (next_page_id_ d) [] ∅.
Proof.
  intros Hf Hd Hn. split; [by apply new_pool_ok|done|done| | |constructor|cbn; by rewrite length_replicate|done].
  - intros id f Hin. by apply elem_of_nil in Hin.
  - intros j Hj. unfold pin. cbn. rewrite lookup_empty. cbn. by rewrite decide_False by apply not_elem_of_nil.
Qed.

(** C17: a new index answers every sequence of insertions, removals, searches and scans as a
    finite map does, scans in key order and from the start key on; no operation reads or
    writes outside a page or follows a null frame, the walk along the leaves ends, and the
    height never reaches the descent's bound. Conditions: the inserted keys have no NUL byte
    (such keys are truncated, [nul_key_truncated]), record ids are within their widths, the
    pool has at least three frames, every page write succeeds and zeroes do not pass as a
    sealed page, and the file is small enough for the page ids of all operations (33 each)
    to stay below 2^31. *)
Theorem bplus_tree_refines frames d ops :
  (3 <= frames)%nat -> disk_ok d -> 0 <= next_page_id_ d -> Forall op_ok ops -> next_page_id_ d + 1 + 33 * Zlen ops <= 2 ^ 31 ->
  exists root b root' b', CreateNew (new_pool frames d) = Some (OK root, b)
    /\ run_ops ops (root, b) = Some ((spec_ops ops ∅).1, (root', b')).
Proof.
  intros Hf Hd Hn Hok Hmax. assert (0 <= Zlen ops) by (unfold Zlen; lia).
  destruct (CreateNew_ok (K := disk_key d) _ _ _ (new_pool_held frames d Hf Hd Hn) ltac:(lia)) as (b & p & E & S).
  destruct (run_ops_refines (K := disk_key d) ops b _ _ _ _ ∅ S) as (b' & V' & n' & h' & t' & E' & _); [|done|lia|].
  - intros k. by rewrite lookup_empty.
  - exists (next_page_id_ d), b, (root_id t'), b'. split; [done|exact E'].
Qed.
End Fresh.

(** ** Witness *)
#[export] Instance op_ok_dec o : Decision (op_ok o).
Proof. destruct o as [key r|key|key|start limit]; cbn; unfold rid_ok, sfits; apply _. Defined.

Definition numbered (i : nat) : bytes := bs "k" ++ byte.of_Z (48 + Z.of_nat i / 10) :: [byte.of_Z (48 + Z.of_nat i mod 10)].

(** More keys than one leaf holds, one of them twice, and a refused one. *)
Definition sample_index_ops : list index_op :=
  map (fun i => OpInsert (numbered i) (mkRid (Z.of_nat i) 0)) (seq 0 60)
  ++ [OpInsert [] (mkRid 0 0); OpInsert (bs "k07") (mkRid 99 1); OpRemove (bs "k08"); OpSearch (bs "k07"); OpScan (bs "k55") 3].

Lemma bplus_tree_refines_witness :
  exists root b root' b', @CreateNew tagged_crypto (new_pool 3 sealed_disk) = Some (OK root, b)
    /\ @run_ops tagged_crypto sample_index_ops (root, b) = Some ((spec_ops sample_index_ops ∅).1, (root', b')).
Proof.
  apply (bplus_tree_refines (C := tagged_crypto)); [lia|apply sealed_disk_ok|done| |].
  - apply (bool_decide_unpack (Forall op_ok sample_index_ops)). vm_compute. exact I.
  - vm_compute. discriminate.
Defined.

Definition index_answers (ops : list index_op) : option (list index_answer) :=
  match @CreateNew tagged_crypto (new_pool 3 sealed_disk) with
  | Some (OK root, b) => fst <$> @run_ops tagged_crypto ops (root, b)
  | _ => None
  end.

(** A key with a NUL passes the length check and is stored, but reads back cut at the NUL:
    the key itself is never found again, another key is, and a second insertion makes a
    second entry. *)
Theorem nul_key_truncated :
  let key := bs "a" ++ [Byte.x00] ++ bs "b" in
  index_answers [OpInsert key (mkRid 7 1); OpSearch key; OpSearch (bs "a"); OpInsert key (mkRid 8 1); OpScan [] 0]
  = Some [AInsert (OK tt); ASearch None; ASearch (Some (mkRid 7 1)); AInsert (OK tt);
          AScan [(bs "a", mkRid 7 1); (bs "a", mkRid 8 1)]].
Proof. vm_compute. reflexivity. Qed.
