(* ===== verification/SegmentStore.v ===== *)
(** * The segment store: src/storage/segment_store.cpp

    Blobs as chains of checksummed pages in a buffer pool.  A blob is written back
    to front, so its pages have decreasing ids; the walk that reads it is bounded
    by the number of allocated pages, as in the code. *)
From coqutil Require Import Word.LittleEndianList.
From S2P Require Import Prelude Bytes AtRest AtRestFiles DiskManager BufferPool BufferPoolProps.
Local Open Scope Z_scope.

Definition kSegmentPageMagic : Z := 0x44534753.
Definition kSegmentPageHeaderBytes : nat := 16.
Definition kSegmentPagePayload : nat := Z.to_nat kPageSize - kSegmentPageHeaderBytes.

Record SegPageHeader := mkSegHeader {
  sh_magic : Z;
  sh_chunk_len : Z;
  sh_next_page_id : Z;
  sh_crc : Z;
}.

(** [memcpy] of [d] into the page at [off]. *)
Definition memcpy_at (off : nat) (d page : bytes) : bytes := take off page ++ d ++ drop (off + length d) page.

Definition WriteHeader (data : bytes) (h : SegPageHeader) : bytes :=
  memcpy_at 12 (ByteWriter.U32 (sh_crc h))
    (memcpy_at 8 (ByteWriter.U32 (u32 (sh_next_page_id h)))
       (memcpy_at 4 (ByteWriter.U32 (sh_chunk_len h))
          (memcpy_at 0 (ByteWriter.U32 (sh_magic h)) data))).

Definition u32_at (off : nat) (data : bytes) : Z := le_combine (take 4 (drop off data)).

Definition ReadHeader (data : bytes) : SegPageHeader :=
  mkSegHeader (u32_at 0 data) (u32_at 4 data) (to_signed 32 (u32_at 8 data)) (u32_at 12 data).

Definition payload_of (data : bytes) (n : Z) : bytes := take (Z.to_nat n) (drop kSegmentPageHeaderBytes data).

Section SegmentStore.
Context `{C : Crypto}.

Definition OpenSegments (env : open_env) (wenv : nat -> write_env) (file hdr : option bytes) (frames : nat)
    (dek : bytes) : StatusOr BufferPool * (option bytes * option bytes) :=
  if negb (bool_decide (dek = [])) && negb (Zlen dek =? 32) then (Fault kInvalidArgument, (file, hdr))
  else match OpenDisk env wenv file hdr dek with
       | (Fault c, fs) => (Fault c, fs)
       | (OK d, fs) => (OK (new_pool frames d), fs)
       end.

(** The bytes of chunk [i], and the page that holds it. *)
Definition chunk (s : bytes) (i : nat) : bytes :=
  take kSegmentPagePayload (drop (i * kSegmentPagePayload) s).

Definition seg_page (c : bytes) (next : Z) : bytes :=
  let h := mkSegHeader kSegmentPageMagic (u32 (Zlen c)) next (if (length c =? 0)%nat then 0 else Crc32 c) in
  let data := WriteHeader zero_page h in
  if (length c =? 0)%nat then data else memcpy_at kSegmentPageHeaderBytes c data.

(** The loop, [i] chunks still to write. *)
Fixpoint append_loop (s : bytes) (i : nat) (next first : Z) (b : BufferPool) : StatusOr Z * BufferPool :=
  match i with
  | O => (OK first, b)
  | S i' =>
      match NewPage b with
      | (None, b1) => (Fault kOutOfSpace, b1)
      | (Some (f, page_id), b1) =>
          let b2 := write_frame f (seg_page (chunk s i') next) b1 in
          append_loop s i' page_id page_id (UnpinPage page_id true b2).2
      end
  end.

Definition num_chunks (s : bytes) : nat :=
  if (length s =? 0)%nat then 1 else (length s + kSegmentPagePayload - 1) / kSegmentPagePayload.

Definition AppendBlob (s : bytes) (b : BufferPool) : StatusOr Z * BufferPool :=
  append_loop s (num_chunks s) kInvalidPageId kInvalidPageId b.

Definition bad_chunk (data : bytes) : bool :=
  let h := ReadHeader data in
  (0 <? sh_chunk_len h) && negb (Crc32 (payload_of data (sh_chunk_len h)) =? sh_crc h).

Definition bad_header (h : SegPageHeader) : bool :=
  negb (sh_magic h =? kSegmentPageMagic) || (Z.of_nat kSegmentPagePayload <? sh_chunk_len h).

(** [left] visits remain before the chain counts as endless. *)
Fixpoint read_chain (left : nat) (cursor : Z) (out : bytes) (b : BufferPool) : StatusOr bytes * BufferPool :=
  if cursor =? kInvalidPageId then (OK out, b)
  else
    match left with
    | O => (Fault kCorruption, b)
    | S left' =>
        match FetchPage cursor b with
        | (None, b1) => (Fault kInternal, b1)
        | (Some f, b1) =>
            let data := frame_data f b1 in
            let h := ReadHeader data in
            let b2 := (UnpinPage cursor false b1).2 in
            if bad_header h then
              if sh_magic h =? 0 then (OK out, b2) else (Fault kCorruption, b2)
            else if bad_chunk data then (Fault kCorruption, b2)
            else read_chain left' (sh_next_page_id h) (out ++ payload_of data (sh_chunk_len h)) b2
        end
    end.

(** [visited] runs from 0 to [max_pages]. *)
Definition max_visits (b : BufferPool) : nat := Z.to_nat (pages_allocated b + 2).

Definition ReadBlob (first : Z) (b : BufferPool) : StatusOr bytes * BufferPool :=
  read_chain (max_visits b) first [] b.

Fixpoint verify_chain (left : nat) (cursor : Z) (b : BufferPool) : StatusOr unit * BufferPool :=
  if cursor =? kInvalidPageId then (OK tt, b)
  else
    match left with
    | O => (Fault kCorruption, b)
    | S left' =>
        match FetchPage cursor b with
        | (None, b1) => (Fault kInternal, b1)
        | (Some f, b1) =>
            let data := frame_data f b1 in
            let h := ReadHeader data in
            let b2 := (UnpinPage cursor false b1).2 in
            if bad_header h || bad_chunk data then (Fault kCorruption, b2)
            else verify_chain left' (sh_next_page_id h) b2
        end
    end.

Definition VerifyBlob (first : Z) (b : BufferPool) : StatusOr unit * BufferPool :=
  verify_chain (max_visits b) first b.

Definition BytesOnDisk (b : BufferPool) : Z :=
  let pages := pages_allocated b in u64 ((if pages <? 0 then 0 else pages) * kPageSize).

Definition FlushSegments (sync_ok : bool) (b : BufferPool) : StatusOr unit * BufferPool :=
  let b' := FlushAllPages b in (SyncDisk sync_ok (disk_ b'), b').

(** ** One page *)
Lemma memcpy_length off d p : (off + length d <= length p)%nat -> length (memcpy_at off d p) = length p.
Proof. intros H. unfold memcpy_at. rewrite !length_app, length_take, length_drop. lia. Qed.

Lemma memcpy_same off d p : (off + length d <= length p)%nat -> take (length d) (drop off (memcpy_at off d p)) = d.
Proof.
  intros H. unfold memcpy_at. rewrite drop_app_length' by (rewrite length_take; lia). apply take_app_length.
Qed.

Lemma memcpy_other off d p o n :
  (off + length d <= length p)%nat -> (o + n <= off \/ off + length d <= o)%nat ->
  take n (drop o (memcpy_at off d p)) = take n (drop o p).
Proof.
  intros H Ho. apply list_eq. intros k. destruct (decide (k < n)%nat) as [Hk|Hk].
  - rewrite !lookup_take_lt, !lookup_drop by lia. unfold memcpy_at. destruct Ho as [Ho|Ho].
    + rewrite lookup_app_l by (rewrite length_take; lia). apply lookup_take_lt. lia.
    + rewrite lookup_app_r by (rewrite length_take; lia). rewrite length_take.
      rewrite lookup_app_r by lia. rewrite lookup_drop. f_equal. lia.
  - by rewrite !lookup_take_ge by lia.
Qed.

Lemma U32_len v : length (ByteWriter.U32 v) = 4%nat.
Proof. apply U32_length. Qed.

Ltac mlen :=
  repeat rewrite U32_len;
  lazymatch goal with
  | |- context [length (memcpy_at ?o ?d ?p)] => rewrite (memcpy_length o d p) by mlen; mlen
  | _ => lia
  end.

Definition header_ok (h : SegPageHeader) : Prop :=
  fits 32 (sh_magic h) /\ fits 32 (sh_chunk_len h) /\ sfits 32 (sh_next_page_id h) /\ fits 32 (sh_crc h).

Lemma WriteHeader_length data h : (16 <= length data)%nat -> length (WriteHeader data h) = length data.
Proof. intros H. unfold WriteHeader. mlen. Qed.

Lemma ReadHeader_WriteHeader data h :
  (16 <= length data)%nat -> header_ok h -> ReadHeader (WriteHeader data h) = h.
Proof.
  intros Hl (H1 & H2 & H3 & H4). unfold ReadHeader, WriteHeader, u32_at.
  repeat match goal with
  | |- context [take 4 (drop ?o (memcpy_at ?o (ByteWriter.U32 ?v) ?p))] =>
      replace (take 4 (drop o (memcpy_at o (ByteWriter.U32 v) p))) with (ByteWriter.U32 v)
        by (symmetry; apply (memcpy_same o (ByteWriter.U32 v)); mlen)
  | |- context [take 4 (drop ?o (memcpy_at _ _ _))] =>
      rewrite (memcpy_other _ _ _ o 4) by mlen
  end.
  rewrite !le_combine_U32; try done; [|by apply wrap_fits]. rewrite to_signed_wrap by done. by destruct h.
Qed.

Lemma payload_small : Z.of_nat kSegmentPagePayload = 4080.
Proof. vm_compute. done. Qed.

Lemma zero_page_len : length zero_page = (kSegmentPageHeaderBytes + kSegmentPagePayload)%nat.
Proof. vm_compute. done. Qed.

Section OnePage.
Variables (c : bytes) (next : Z).
Hypothesis Hc : (length c <= kSegmentPagePayload)%nat.
Hypothesis Hnext : sfits 32 next.

Definition page_header : SegPageHeader :=
  mkSegHeader kSegmentPageMagic (u32 (Zlen c)) next (if (length c =? 0)%nat then 0 else Crc32 c).

Lemma chunk_len_u32 : u32 (Zlen c) = Zlen c.
Proof. apply wrap_id. unfold fits, Zlen. pose proof payload_small. lia. Qed.

Lemma page_header_ok : header_ok page_header.
Proof.
  unfold header_ok, page_header. cbn. split; [vm_compute; done|]. split; [by apply wrap_fits|].
  split; [done|]. destruct (_ =? 0)%nat; [vm_compute; done|apply Crc32_fits].
Qed.

Lemma seg_page_header_len : length (WriteHeader zero_page page_header) = (kSegmentPageHeaderBytes + kSegmentPagePayload)%nat.
Proof. rewrite WriteHeader_length; rewrite zero_page_len; [done|]. unfold kSegmentPageHeaderBytes. lia. Qed.

Lemma seg_page_length : Zlen (seg_page c next) = kPageSize.
Proof.
  unfold seg_page. fold page_header. pose proof seg_page_header_len as H. unfold Zlen.
  destruct (_ =? 0)%nat; [|rewrite memcpy_length by lia]; rewrite H; vm_compute; done.
Qed.

Lemma seg_page_header : ReadHeader (seg_page c next) = mkSegHeader kSegmentPageMagic (Zlen c) next (sh_crc page_header).
Proof.
  assert (ReadHeader (WriteHeader zero_page page_header) = page_header) as H.
  { apply ReadHeader_WriteHeader; [|apply page_header_ok]. rewrite zero_page_len. unfold kSegmentPageHeaderBytes. lia. }
  unfold seg_page. fold page_header. rewrite <- chunk_len_u32. destruct (_ =? 0)%nat; [done|].
  etransitivity; [|exact H].
  pose proof seg_page_header_len as Hl. unfold ReadHeader, u32_at.
  rewrite !(memcpy_other kSegmentPageHeaderBytes c (WriteHeader zero_page page_header))
    by (try lia; unfold kSegmentPageHeaderBytes; lia). done.
Qed.

Lemma seg_page_payload : payload_of (seg_page c next) (Zlen c) = c.
Proof.
  unfold payload_of, seg_page. fold page_header. unfold Zlen. rewrite Nat2Z.id.
  destruct (Nat.eqb_spec (length c) 0) as [E|E].
  - rewrite E, take_0. symmetry. by apply nil_length_inv.
  - apply memcpy_same. rewrite seg_page_header_len. lia.
Qed.

Lemma seg_page_good : bad_header (ReadHeader (seg_page c next)) = false /\ bad_chunk (seg_page c next) = false.
Proof.
  unfold bad_chunk, bad_header. rewrite seg_page_header. cbn [sh_magic sh_chunk_len sh_crc].
  rewrite seg_page_payload. unfold Zlen. split.
  - rewrite Z.eqb_refl, (proj2 (Z.ltb_ge _ _)) by lia. done.
  - cbn [page_header sh_crc]. destruct (Nat.eqb_spec (length c) 0) as [->|E]; [done|].
    by rewrite Z.eqb_refl, andb_false_r.
Qed.
End OnePage.

(** ** Chains *)
Inductive chain (V : Z -> bytes) : Z -> list bytes -> Prop :=
  | chain_nil : chain V kInvalidPageId []
  | chain_cons id next c cs :
      0 <= id -> -1 <= next < id -> (length c <= kSegmentPagePayload)%nat ->
      V id = seg_page c next -> chain V next cs -> chain V id (c :: cs).

Lemma chain_ext V V' id cs :
  (forall j, 0 <= j <= id -> V' j = V j) -> chain V id cs -> chain V' id cs.
Proof.
  intros HV H. induction H as [|id next c cs H0 Hn Hl Hp Hc IH]; [constructor|].
  econstructor; try done; [by rewrite HV by lia|]. apply IH. intros j Hj. apply HV. lia.
Qed.

Lemma chain_length V id cs : chain V id cs -> -1 <= id /\ Zlen cs <= id + 1.
Proof.
  unfold Zlen. induction 1 as [|id next c cs H0 Hn Hl Hp Hc [IH1 IH2]]; cbn; [unfold kInvalidPageId; lia|]. lia.
Qed.

Context `{!CryptoLaws C}.

Lemma same_pages_trans b1 b2 b3 : same_pages b1 b2 -> same_pages b2 b3 -> same_pages b1 b3.
Proof.
  intros [V1 N1 S1] [V2 N2 S2]. split; [|congruence..]. intros j H. rewrite V2 by done. by apply V1.
Qed.

Lemma same_pages_refl b : same_pages b b.
Proof. by split. Qed.

Lemma read_chain_ok left id cs out b :
  quiet b -> chain (view b) id cs -> id < pages_allocated b -> pages_allocated b <= 2 ^ 31 ->
  (length cs <= left)%nat ->
  exists b', read_chain left id out b = (OK (out ++ concat cs), b') /\ quiet b' /\ same_pages b b'.
Proof.
  revert left id out b. induction cs as [|c cs IH]; intros left id out b Hq Hch Hid Hmax Hleft.
  - inversion Hch; subst. exists b. cbn [concat]. rewrite app_nil_r.
    split; [by destruct left|]. split; [done|apply same_pages_refl].
  - inversion Hch as [|id' next c' cs' H0 Hn Hl Hp Hc]; subst. destruct left as [|left]; [cbn in Hleft; lia|].
    assert (sfits 32 next) as Hs by (unfold sfits; change (2 ^ (32 - 1)) with (2 ^ 31); lia).
    cbn [read_chain]. rewrite (proj2 (Z.eqb_neq _ _)) by (unfold kInvalidPageId; lia).
    destruct (read_bracket b id Hq ltac:(lia)) as (f & b1 & b2 & E1 & D & E2 & Q2 & S2).
    rewrite E1, D, E2, Hp. cbn [snd]. destruct (seg_page_good c next Hl Hs) as [-> ->].
    rewrite seg_page_header by done. cbn [sh_next_page_id sh_chunk_len]. rewrite seg_page_payload by done.
    destruct (IH left next (out ++ c) b2) as (b' & E & Q & S); try done.
    + eapply chain_ext; [|done]. intros j Hj. apply S2. lia.
    + rewrite (sp_next _ _ S2). lia.
    + by rewrite (sp_next _ _ S2).
    + cbn in Hleft. lia.
    + exists b'. rewrite E. cbn [concat]. rewrite app_assoc. split; [done|]. split; [done|].
      by eapply same_pages_trans.
Qed.

Lemma verify_chain_ok left id cs b :
  quiet b -> chain (view b) id cs -> id < pages_allocated b -> pages_allocated b <= 2 ^ 31 ->
  (length cs <= left)%nat ->
  exists b', verify_chain left id b = (OK tt, b') /\ quiet b' /\ same_pages b b'.
Proof.
  revert left id b. induction cs as [|c cs IH]; intros left id b Hq Hch Hid Hmax Hleft.
  - inversion Hch; subst. exists b. split; [by destruct left|]. split; [done|apply same_pages_refl].
  - inversion Hch as [|id' next c' cs' H0 Hn Hl Hp Hc]; subst. destruct left as [|left]; [cbn in Hleft; lia|].
    assert (sfits 32 next) as Hs by (unfold sfits; change (2 ^ (32 - 1)) with (2 ^ 31); lia).
    cbn [verify_chain]. rewrite (proj2 (Z.eqb_neq _ _)) by (unfold kInvalidPageId; lia).
    destruct (read_bracket b id Hq ltac:(lia)) as (f & b1 & b2 & E1 & D & E2 & Q2 & S2).
    rewrite E1, D, E2, Hp. cbn [snd]. destruct (seg_page_good c next Hl Hs) as [-> ->]. cbn [orb].
    rewrite seg_page_header by done. cbn [sh_next_page_id].
    destruct (IH left next b2) as (b' & E & Q & S); try done.
    + eapply chain_ext; [|done]. intros j Hj. apply S2. lia.
    + rewrite (sp_next _ _ S2). lia.
    + by rewrite (sp_next _ _ S2).
    + cbn in Hleft. lia.
    + exists b'. split; [done|]. split; [done|]. by eapply same_pages_trans.
Qed.

(** ** Writing a blob *)
Lemma append_loop_ok s i next first cs b :
  quiet b -> chain (view b) next cs -> next < pages_allocated b -> pages_allocated b + Z.of_nat i <= 2 ^ 31 ->
  (i = 0%nat -> first = next) ->
  exists b' first', append_loop s i next first b = (OK first', b') /\ quiet b'
    /\ pages_allocated b' = pages_allocated b + Z.of_nat i
    /\ (forall j, 0 <= j < pages_allocated b -> view b' j = view b j)
    /\ chain (view b') first' ((chunk s <$> seq 0 i) ++ cs) /\ first' < pages_allocated b'.
Proof.
  revert next first cs b. induction i as [|i IH]; intros next first cs b Hq Hch Hn Hmax Hfirst.
  - exists b, first. cbn. rewrite Z.add_0_r, Hfirst by done. done.
  - cbn [append_loop]. pose proof (pi_next _ _ _ (q_ok _ Hq)) as Hpos.
    destruct (new_bracket b Hq) as (f & b1 & E & _ & H); [lia|]. rewrite E.
    assert (-1 <= next) as Hn1 by (apply chain_length in Hch; lia).
    assert (length (chunk s i) <= kSegmentPagePayload)%nat as Hc.
    { unfold chunk. rewrite length_take. lia. }
    assert (sfits 32 next) as Hs by (unfold sfits; change (2 ^ (32 - 1)) with (2 ^ 31); lia).
    destruct (H (seg_page (chunk s i) next)) as (b2 & E2 & Q2 & N2 & _ & V2 & V3); [by apply seg_page_length|].
    rewrite E2. cbn [snd]. set (id := pages_allocated b) in *.
    destruct (IH id id (chunk s i :: cs) b2) as (b' & first' & E' & Q' & N' & V' & C' & F'); try done; try lia.
    + econstructor; try done. eapply chain_ext; [|done]. intros j Hj. apply V3; lia.
    + exists b', first'. split; [done|]. split; [done|]. split; [lia|]. split.
      * intros j Hj. rewrite V' by lia. apply V3; lia.
      * split; [|done]. rewrite seq_S, fmap_app. cbn [fmap list_fmap]. by rewrite <- app_assoc.
Qed.

Lemma num_chunks_cover s : (length s <= num_chunks s * kSegmentPagePayload)%nat.
Proof.
  unfold num_chunks. destruct (Nat.eqb_spec (length s) 0) as [->|Hne]; [lia|].
  assert (0 < kSegmentPagePayload)%nat as Hp by (pose proof payload_small; lia).
  pose proof (Nat.div_mod (length s + kSegmentPagePayload - 1) kSegmentPagePayload).
  pose proof (Nat.mod_upper_bound (length s + kSegmentPagePayload - 1) kSegmentPagePayload). nia.
Qed.

Lemma num_chunks_pos s : (0 < num_chunks s)%nat.
Proof.
  pose proof (num_chunks_cover s). unfold num_chunks in *. destruct (Nat.eqb_spec (length s) 0); [lia|].
  destruct (_ / _)%nat; lia.
Qed.

Lemma concat_chunks s n k :
  concat (chunk s <$> seq k n) = take (n * kSegmentPagePayload) (drop (k * kSegmentPagePayload) s).
Proof.
  revert k. induction n as [|n IH]; intros k; [done|]. cbn [seq fmap list_fmap concat].
  rewrite IH. unfold chunk. cbn [Nat.mul]. rewrite <- take_take_drop, drop_drop. do 3 f_equal. lia.
Qed.

(** A blob that starts at page [first]. *)
Definition blob_at (V : Z -> bytes) (n first : Z) (s : bytes) : Prop :=
  exists cs, chain V first cs /\ concat cs = s /\ 0 <= first < n.

Lemma blob_at_frame V V' n n' first s :
  (forall j, 0 <= j < n -> V' j = V j) -> n <= n' -> blob_at V n first s -> blob_at V' n' first s.
Proof.
  intros HV Hn (cs & Hc & E & Hf). exists cs. split; [|split; [done|lia]]. eapply chain_ext; [|exact Hc]. intros j Hj. apply HV. lia.
Qed.

Lemma append_blob_at s b :
  quiet b -> pages_allocated b + Z.of_nat (num_chunks s) <= 2 ^ 31 ->
  exists first b', AppendBlob s b = (OK first, b') /\ quiet b'
    /\ pages_allocated b' = pages_allocated b + Z.of_nat (num_chunks s)
    /\ (forall j, 0 <= j < pages_allocated b -> view b' j = view b j)
    /\ blob_at (view b') (pages_allocated b') first s.
Proof.
  intros Hq Hmax. pose proof (pi_next _ _ _ (q_ok _ Hq)) as Hpos.
  destruct (append_loop_ok s (num_chunks s) kInvalidPageId kInvalidPageId [] b) as (b' & first & E & Q & N & V & Ch & F);
    try done; [constructor|unfold kInvalidPageId; lia|].
  exists first, b'. split; [done|]. split; [done|]. split; [done|]. split; [done|]. rewrite app_nil_r in Ch.
  exists (chunk s <$> seq 0 (num_chunks s)). split; [done|]. split.
  - rewrite concat_chunks, drop_0. apply take_ge, num_chunks_cover.
  - split; [|done]. pose proof (num_chunks_pos s). destruct (num_chunks s) as [|k]; [lia|]. by inversion Ch.
Qed.

Lemma read_blob_at s first b :
  quiet b -> pages_allocated b <= 2 ^ 31 -> blob_at (view b) (pages_allocated b) first s ->
  exists b', ReadBlob first b = (OK s, b') /\ quiet b' /\ same_pages b b'.
Proof.
  intros Hq Hmax (cs & Hc & E & Hf). destruct (chain_length _ _ _ Hc) as [_ Hlen]. unfold Zlen in Hlen.
  destruct (read_chain_ok (max_visits b) first cs [] b) as (b' & E' & H); try done; [lia|unfold max_visits; lia|].
  exists b'. unfold ReadBlob. rewrite E', <- E. done.
Qed.

Lemma verify_blob_at s first b :
  quiet b -> pages_allocated b <= 2 ^ 31 -> blob_at (view b) (pages_allocated b) first s ->
  exists b', VerifyBlob first b = (OK tt, b') /\ quiet b' /\ same_pages b b'.
Proof.
  intros Hq Hmax (cs & Hc & E & Hf). destruct (chain_length _ _ _ Hc) as [_ Hlen]. unfold Zlen in Hlen.
  apply (verify_chain_ok (max_visits b) first cs b); try done; [lia|unfold max_visits; lia].
Qed.

Lemma append_read s b :
  quiet b -> pages_allocated b + Z.of_nat (num_chunks s) <= 2 ^ 31 ->
  exists first b', AppendBlob s b = (OK first, b') /\ quiet b'
    /\ pages_allocated b' = pages_allocated b + Z.of_nat (num_chunks s)
    /\ (forall j, 0 <= j < pages_allocated b -> view b' j = view b j)
    /\ forall b2, quiet b2 -> pages_allocated b' <= pages_allocated b2 <= 2 ^ 31 ->
         (forall j, 0 <= j < pages_allocated b' -> view b2 j = view b' j) ->
         (ReadBlob first b2).1 = OK s /\ (VerifyBlob first b2).1 = OK tt.
Proof.
  intros Hq Hmax. destruct (append_blob_at s b Hq Hmax) as (first & b' & E & Q & N & V & B).
  exists first, b'. split; [done|]. split; [done|]. split; [done|]. split; [done|]. intros b2 Q2 [N2 N3] V2.
  pose proof (blob_at_frame _ _ _ _ _ _ V2 N2 B) as B2.
  destruct (read_blob_at s first b2 Q2 N3 B2) as (b3 & -> & _), (verify_blob_at s first b2 Q2 N3 B2) as (b4 & -> & _). done.
Qed.

(** ** Many blobs *)
Fixpoint append_all (blobs : list bytes) (b : BufferPool) : option (list Z * BufferPool) :=
  match blobs with
  | [] => Some ([], b)
  | s :: blobs' =>
      match AppendBlob s b with
      | (OK first, b1) => '(ids, b2) ← append_all blobs' b1; Some (first :: ids, b2)
      | (Fault _, _) => None
      end
  end.

Definition pages_needed (blobs : list bytes) : Z :=
  foldr (fun s n => Z.of_nat (num_chunks s) + n) 0 blobs.

Lemma pages_needed_nonneg blobs : 0 <= pages_needed blobs.
Proof. induction blobs as [|s blobs IH]; [done|]. cbn [pages_needed foldr]. unfold pages_needed in IH. lia. Qed.

Lemma append_all_ok blobs b :
  quiet b -> pages_allocated b + pages_needed blobs <= 2 ^ 31 ->
  exists ids b', append_all blobs b = Some (ids, b') /\ quiet b' /\ length ids = length blobs
    /\ pages_allocated b' = pages_allocated b + pages_needed blobs
    /\ (forall j, 0 <= j < pages_allocated b -> view b' j = view b j)
    /\ forall i id s, ids !! i = Some id -> blobs !! i = Some s ->
         (ReadBlob id b').1 = OK s /\ (VerifyBlob id b').1 = OK tt.
Proof.
  revert b. induction blobs as [|s blobs IH]; intros b Hq Hmax.
  - exists [], b. cbn. rewrite Z.add_0_r. done.
  - change (pages_needed (s :: blobs)) with (Z.of_nat (num_chunks s) + pages_needed blobs) in *.
    pose proof (pages_needed_nonneg blobs). destruct (append_read s b Hq) as (first & b1 & E & Q & N & V & R); [lia|].
    pose proof (pi_next _ _ _ (q_ok _ Hq)) as Hpos.
    destruct (IH b1 Q) as (ids & b2 & E2 & Q2 & L2 & N2 & V2 & R2); [lia|].
    exists (first :: ids), b2. cbn [append_all]. rewrite E, E2. cbn [mbind option_bind].
    split; [done|]. split; [done|]. split; [cbn; lia|]. split; [lia|]. split.
    + intros j Hj. rewrite V2 by lia. by apply V.
    + intros [|i] id s' Hid Hs; cbn in Hid, Hs; [|by eapply R2]. injection Hid as <-. injection Hs as <-.
      apply R; [done|lia|done].
Qed.

(** Blobs appended to a segment store over an empty healthy file read back and
    verify, every one of them after all were appended, whatever their sizes (also
    empty) and however small the pool, as long as the pages they need have 32-bit ids. *)
Theorem segments_read_back n d blobs :
  (0 < n)%nat -> disk_ok d -> next_page_id_ d = 0 -> pages_needed blobs <= 2 ^ 31 ->
  exists ids b, append_all blobs (new_pool n d) = Some (ids, b) /\ length ids = length blobs
    /\ forall i id s, ids !! i = Some id -> blobs !! i = Some s ->
         (ReadBlob id b).1 = OK s /\ (VerifyBlob id b).1 = OK tt.
Proof.
  intros Hn Hd Hnext Hmax. pose proof (new_pool_refines n d Hd Hnext Hn) as [Hq Hc _].
  destruct (append_all_ok blobs (new_pool n d) Hq) as (ids & b & E & _ & L & _ & _ & R); [rewrite Hc; exact Hmax|].
  by exists ids, b.
Qed.

Lemma zero_header : ReadHeader zero_page = mkSegHeader 0 0 0 0.
Proof. vm_compute. done. Qed.

(** A page of a chain that reads as zeros -- which is what the pool hands out for a
    page that is torn, or fails authentication -- ends the blob without an error: the
    read returns a prefix as if it were the blob, while verification reports
    Corruption. *)
Theorem zeroed_page_truncates_blob b id next c :
  quiet b -> 0 <= id < pages_allocated b -> 0 <= next < pages_allocated b -> pages_allocated b <= 2 ^ 31 ->
  (length c <= kSegmentPagePayload)%nat ->
  view b id = seg_page c next -> view b next = zero_page ->
  (ReadBlob id b).1 = OK c /\ (VerifyBlob id b).1 = Fault kCorruption.
Proof.
  intros Hq Hid Hn Hmax Hc Hp Hz.
  assert (sfits 32 next) as Hs by (unfold sfits; change (2 ^ (32 - 1)) with (2 ^ 31); lia).
  destruct (seg_page_good c next Hc Hs) as [G1 G2].
  destruct (read_bracket b id Hq Hid) as (f & b1 & b2 & E1 & D & E2 & Q2 & S2).
  destruct (read_bracket b2 next Q2) as (g & b3 & b4 & E3 & D3 & E4 & _); [by rewrite (sp_next _ _ S2)|].
  rewrite (sp_view _ _ S2), Hz in D3 by lia.
  unfold ReadBlob, VerifyBlob. assert (exists k, max_visits b = S (S k)) as [k ->].
  { exists (Z.to_nat (pages_allocated b)). unfold max_visits. lia. }
  split; cbn [read_chain verify_chain]; rewrite (proj2 (Z.eqb_neq id _)) by (unfold kInvalidPageId; lia);
    rewrite E1, D, E2, Hp; cbn [snd]; rewrite G1, G2; cbn [orb];
    rewrite seg_page_header by done; cbn [sh_next_page_id sh_chunk_len];
    rewrite (proj2 (Z.eqb_neq next _)) by (unfold kInvalidPageId; lia);
    rewrite E3, D3, E4, zero_header; [|done].
  rewrite seg_page_payload by done. done.
Qed.
End SegmentStore.

(** ** Witnesses *)
Definition big_blob : bytes := replicate (Z.to_nat 9000) Byte.x61.

Lemma segments_read_back_witness :
  exists ids b, @append_all tagged_crypto [big_blob; []; bs "x"] (new_pool 1 sealed_disk) = Some (ids, b)
    /\ length ids = 3%nat
    /\ forall i id s, ids !! i = Some id -> [big_blob; []; bs "x"] !! i = Some s ->
         (@ReadBlob tagged_crypto id b).1 = OK s /\ (@VerifyBlob tagged_crypto id b).1 = OK tt.
Proof.
  apply (segments_read_back (C := tagged_crypto)); [lia|apply sealed_disk_ok|done|vm_compute; done].
Defined.

(** Page 1 names page 0, which is zeroed. *)
Definition torn_disk : DiskManager :=
  mkDisk (zero_page ++ seg_page (bs "x") 0) 2 [] [] false good_env 0.

Lemma torn_quiet : @quiet toy_crypto (new_pool 1 torn_disk).
Proof.
  split; [apply new_pool_ok; [|done]|done|cbn; lia]. split; [exists 2%nat; vm_compute; done|done|done].
Qed.

Lemma zeroed_page_truncates_blob_witness :
  (@ReadBlob toy_crypto 1 (new_pool 1 torn_disk)).1 = OK (bs "x")
  /\ (@VerifyBlob toy_crypto 1 (new_pool 1 torn_disk)).1 = Fault kCorruption.
Proof.
  apply (zeroed_page_truncates_blob (C := toy_crypto) _ 1 0 (bs "x") torn_quiet);
    [vm_compute; done|vm_compute; done|vm_compute; done| |vm_compute; done|vm_compute; done].
  pose proof payload_small. cbn [bs length]. change (length (bs "x")) with 1%nat. lia.
Defined.
