(* ===== verification/Transit.v ===== *)
(** * The transit store: src/ledger/transit_store.cpp

    Envelopes held for offline owners: an append log and the map it loads to.
    Operations take the wall clock, the nonces and the outcome of each write;
    [std::unordered_map] is a finite map, so the order in which rows are
    written out is left to [map_to_list]. *)
From coqutil Require Import Word.LittleEndianList.
From S2P Require Import Prelude Bytes AtRest RecordLog.
Local Open Scope Z_scope.

Definition kTransitMagic : Z := 0x44534E54.
Definition kTransitVersion : Z := 3.
Definition kTransitRecordCap : Z := 2 ^ 20.
Definition kRecordHold : Z := 1.
Definition kRecordDrop : Z := 2.

Definition TransitChunkCount (doc_bytes chunk_bytes : Z) : Z :=
  let unit := if 0 <? chunk_bytes then chunk_bytes else 256 * 1024 in
  let total := u32 (u64 (doc_bytes + unit - 1) / unit) in
  if total =? 0 then 1 else total.

Record TransitEnvelope := mkEnvelope {
  owner_node : bytes;
  e_collection : bytes;
  e_key : bytes;
  e_key_hash : bytes;
  encoded_doc : bytes;
  holder_node : bytes;
  intent_lsn : Z;
  expires_ms : Z;
  doc_size_bytes : Z;
  chunk_index : Z;
  chunk_total : Z;
  message_id : bytes;
  content_hash : bytes;
  holder_sig : bytes;
}.

Definition TransitAttestMessage (key_hash content_hash : bytes) (index total : Z) : bytes :=
  bs "DSN-TRANSIT-v1" ++ [Byte.x00] ++ key_hash ++ content_hash
  ++ flat_map (fun shift => [byte.of_Z (Z.land (Z.shiftr index shift) 0xFF);
                             byte.of_Z (Z.land (Z.shiftr total shift) 0xFF)]) [24; 16; 8; 0].

Definition MapKey (owner key_hash : bytes) : bytes := owner ++ [Byte.x00] ++ key_hash.

Definition EncodeEnvelope (e : TransitEnvelope) : bytes :=
  ByteWriter.U32 kTransitMagic ++ ByteWriter.U32 kTransitVersion ++ ByteWriter.U8 kRecordHold
  ++ ByteWriter.Bytes (owner_node e) ++ ByteWriter.Bytes (e_collection e) ++ ByteWriter.Bytes (e_key e)
  ++ ByteWriter.Bytes (e_key_hash e) ++ ByteWriter.Bytes (encoded_doc e)
  ++ ByteWriter.Bytes (holder_node e) ++ ByteWriter.I64 (intent_lsn e) ++ ByteWriter.I64 (expires_ms e)
  ++ ByteWriter.U64 (doc_size_bytes e) ++ ByteWriter.U32 (chunk_index e)
  ++ ByteWriter.U32 (chunk_total e) ++ ByteWriter.Bytes (message_id e)
  ++ ByteWriter.Bytes (content_hash e) ++ ByteWriter.Bytes (holder_sig e).

Definition EncodeDropBody (owner key_hash : bytes) : bytes :=
  ByteWriter.U32 kTransitMagic ++ ByteWriter.U32 kTransitVersion ++ ByteWriter.U8 kRecordDrop
  ++ ByteWriter.Bytes owner ++ ByteWriter.Bytes key_hash.

Inductive TransitRecord := RHold (e : TransitEnvelope) | RDrop (owner key_hash : bytes).

(** A field of the tolerant v2/v3 tail: absent when no bytes are left. *)
Definition opt_bytes : Reader bytes :=
  (rem <-r ByteReader.remaining ;; if 0 <? rem then ByteReader.Bytes else rret [])%reader.

(** The striping and integrity fields of the version read, or the defaults. *)
Definition dec_stripe (version : Z) : Reader (Z * Z * Z * (bytes * bytes * bytes)) :=
  (if (version =? 3) || (version =? 2) then
     size <-r ByteReader.U64 ;; idx <-r ByteReader.U32 ;; total <-r ByteReader.U32 ;;
     if (total =? 0) || (total <=? idx) then rfail
     else
       mid <-r opt_bytes ;;
       if version =? 3 then
         ch <-r opt_bytes ;; hs <-r opt_bytes ;; rret (size, idx, total, (mid, ch, hs))
       else rret (size, idx, total, (mid, [], []))
   else rret (0, 0, 1, ([], [], [])))%reader.

(** Nothing may follow a record. *)
Definition expect_end {A} (a : A) : Reader A :=
  (rem <-r ByteReader.remaining ;; if negb (rem =? 0) then rfail else rret a)%reader.

Definition dec_record : Reader TransitRecord :=
  (magic <-r ByteReader.U32 ;;
   if negb (magic =? kTransitMagic) then rfail
   else
     version <-r ByteReader.U32 ;;
     if negb (version =? 3) && negb (version =? 2) && negb (version =? 1) then rfail
     else
       kind <-r ByteReader.U8 ;;
       if kind =? kRecordDrop then
         owner <-r ByteReader.Bytes ;; kh <-r ByteReader.Bytes ;;
         d <-r expect_end (RDrop owner kh) ;;
         if bool_decide (owner = []) || negb (Zlen kh =? Z.of_nat kWalHashLen) then rfail else rret d
       else if negb (kind =? kRecordHold) then rfail
       else
         owner <-r ByteReader.Bytes ;; coll <-r ByteReader.Bytes ;; key <-r ByteReader.Bytes ;;
         kh <-r ByteReader.Bytes ;; doc <-r ByteReader.Bytes ;; holder <-r ByteReader.Bytes ;;
         lsn <-r ByteReader.I64 ;; exp <-r ByteReader.I64 ;;
         st <-r dec_stripe version ;;
         let '(size, idx, total, (mid, ch, hs)) := st in
         r <-r expect_end (RHold (mkEnvelope owner coll key kh doc holder lsn exp size idx total mid ch hs)) ;;
         if bool_decide (owner = []) || negb (Zlen kh =? Z.of_nat kWalHashLen) then rfail else rret r)%reader.

(** [DecodeBody]; [None] is Corruption. *)
Definition DecodeBody (body : bytes) : option TransitRecord :=
  match dec_record body with Some (r, _) => Some r | None => None end.

(** [Decode], the wire and storage entry point. *)
Definition Decode (body : bytes) : StatusOr TransitEnvelope :=
  match DecodeBody body with
  | Some (RHold e) => OK e
  | Some (RDrop _ _) => Fault kNotFound
  | None => Fault kCorruption
  end.

Record TransitStore := mkStore {
  t_log : bytes;
  t_open : bool;
  entries_ : gmap bytes TransitEnvelope;
  load_corrupt : bool;
  t_subkey : bytes;
  ttl_seconds : Z;
  holder_node_id : bytes;
}.

Definition with_log (st : TransitStore) (log : bytes) : TransitStore :=
  mkStore log (t_open st) (entries_ st) (load_corrupt st) (t_subkey st) (ttl_seconds st)
    (holder_node_id st).
Definition with_entries (st : TransitStore) (m : gmap bytes TransitEnvelope) : TransitStore :=
  mkStore (t_log st) (t_open st) m (load_corrupt st) (t_subkey st) (ttl_seconds st) (holder_node_id st).

(** Nonce and outcome of the i-th append of an operation. *)
Definition append_envs : Type := nat -> bytes * append_result_io.

Section Transit.
Context `{C : Crypto}.

Definition log_append (env : bytes * append_result_io) (st : TransitStore) (body : bytes)
  : StatusOr unit * TransitStore :=
  let '(r, log) := AppendRecord (t_subkey st) (bs "transit") env.1 (t_open st) env.2 (t_log st) body in
  (r, with_log st log).

Definition stamp (now : Z) (st : TransitStore) (e : TransitEnvelope) : TransitEnvelope :=
  mkEnvelope (owner_node e) (e_collection e) (e_key e) (e_key_hash e) (encoded_doc e)
    (holder_node_id st) (intent_lsn e)
    (if ttl_seconds st =? 0 then 0 else now + ttl_seconds st * 1000)
    (doc_size_bytes e) (chunk_index e) (chunk_total e) (message_id e) (content_hash e) (holder_sig e).

Definition put (env : bytes * append_result_io) (st : TransitStore) (e : TransitEnvelope)
  : StatusOr unit * TransitStore :=
  match log_append env st (EncodeEnvelope e) with
  | (Fault c, st') => (Fault c, st')
  | (OK _, st') => (OK tt, with_entries st' (<[MapKey (owner_node e) (e_key_hash e) := e]> (entries_ st')))
  end.

Definition Hold (env : bytes * append_result_io) (now : Z) (st : TransitStore) (e : TransitEnvelope)
  : StatusOr unit * TransitStore :=
  if bool_decide (owner_node e = []) then (Fault kInvalidArgument, st)
  else if negb (Zlen (e_key_hash e) =? Z.of_nat kWalHashLen) then (Fault kInvalidArgument, st)
  else if bool_decide (owner_node e = holder_node_id st) then (Fault kInvalidArgument, st)
  else put env st (stamp now st e).

Definition MergeRemoteEnvelope (env : bytes * append_result_io) (st : TransitStore) (e : TransitEnvelope)
  : StatusOr unit * TransitStore :=
  if bool_decide (owner_node e = []) || negb (Zlen (e_key_hash e) =? Z.of_nat kWalHashLen)
  then (Fault kInvalidArgument, st)
  else put env st e.

Definition expired_at (now : Z) (e : TransitEnvelope) : bool :=
  negb (expires_ms e =? 0) && (expires_ms e <=? now).

Definition live (now : Z) (st : TransitStore) : list TransitEnvelope :=
  filter (fun e => expired_at now e = false) (map_to_list (entries_ st)).*2.

Definition PendingFor (now : Z) (st : TransitStore) (owner : bytes) : list TransitEnvelope :=
  filter (fun e => owner_node e = owner) (live now st).

Definition Lookup (now : Z) (st : TransitStore) (owner key_hash : bytes) : StatusOr TransitEnvelope :=
  if negb (Zlen key_hash =? Z.of_nat kWalHashLen) then Fault kInvalidArgument
  else match entries_ st !! MapKey owner key_hash with
       | None => Fault kNotFound
       | Some e => if expired_at now e then Fault kNotFound else OK e
       end.

(** [std::set] of the owners, as its sorted contents. *)
Definition Owners (now : Z) (st : TransitStore) : list bytes :=
  std_sort str_lt id (remove_dups (owner_node <$> live now st)).
Definition Size (now : Z) (st : TransitStore) : Z := Zlen (live now st).
Definition BytesHeld (now : Z) (st : TransitStore) : Z :=
  u64 (foldr (fun e n => Zlen (encoded_doc e) + n) 0 (live now st)).

Definition CompactLocked (nonces : nat -> bytes) (io : rewrite_io) (st : TransitStore)
  : StatusOr unit * TransitStore :=
  match io with
  | RwTmpFail => (Fault kIOError, st)
  | _ =>
      match compact_frames (t_subkey st) (bs "transit") nonces
              (EncodeEnvelope <$> (map_to_list (entries_ st)).*2) with
      | Fault c => (Fault c, st)
      | OK log =>
          let st' (l : bytes) (o : bool) :=
            mkStore l o (entries_ st) (load_corrupt st) (t_subkey st) (ttl_seconds st)
              (holder_node_id st) in
          match io with
          | RwRenameFail => (Fault kIOError, st' [] false)
          | RwReopenFail => (Fault kIOError, st' log false)
          | _ => (OK tt, st' log true)
          end
      end
  end.

Fixpoint append_drops (envs : append_envs) (st : TransitStore) (es : list TransitEnvelope)
  : StatusOr unit * TransitStore :=
  match es with
  | [] => (OK tt, st)
  | e :: es' =>
      match log_append (envs 0%nat) st (EncodeDropBody (owner_node e) (e_key_hash e)) with
      | (Fault c, st') => (Fault c, st')
      | (OK _, st') => append_drops (fun i => envs (S i)) st' es'
      end
  end.

Definition ExpireAsOf (envs : append_envs) (nonces : nat -> bytes) (io : rewrite_io) (now : Z)
    (st : TransitStore) : StatusOr Z * TransitStore :=
  let to_drop := filter (fun e => expired_at now e = true) (map_to_list (entries_ st)).*2 in
  let st1 := with_entries st (filter (fun kv => expired_at now kv.2 = false) (entries_ st)) in
  match append_drops envs st1 to_drop with
  | (Fault c, st2) => (Fault c, st2)
  | (OK _, st2) =>
      if 0 <? Zlen to_drop
      then match CompactLocked nonces io st2 with
           | (Fault c, st3) => (Fault c, st3)
           | (OK _, st3) => (OK (Zlen to_drop), st3)
           end
      else (OK 0, st2)
  end.

(** One pass over the rows: a drop record, then the erase, row by row. *)
Fixpoint release_loop (envs : append_envs) (wanted : list bytes) (rows : list (bytes * TransitEnvelope))
    (released : Z) (st : TransitStore) : StatusOr Z * TransitStore :=
  match rows with
  | [] => (OK released, st)
  | (k, e) :: rows' =>
      if bool_decide (e_key_hash e ∈ wanted) then
        match log_append (envs 0%nat) st (EncodeDropBody (owner_node e) (e_key_hash e)) with
        | (Fault c, st') => (Fault c, st')
        | (OK _, st') =>
            release_loop (fun i => envs (S i)) wanted rows' (released + 1)
              (with_entries st' (delete k (entries_ st')))
        end
      else release_loop envs wanted rows' released st
  end.

Definition Release (envs : append_envs) (nonces : nat -> bytes) (io : rewrite_io) (st : TransitStore)
    (key_hashes : list bytes) : StatusOr Z * TransitStore :=
  if bool_decide (key_hashes = []) then (OK 0, st)
  else match release_loop envs key_hashes (map_to_list (entries_ st)) 0 st with
       | (Fault c, st') => (Fault c, st')
       | (OK n, st') =>
           if 0 <? n then
             match CompactLocked nonces io st' with
             | (Fault c, st2) => (Fault c, st2)
             | (OK _, st2) => (OK n, st2)
             end
           else (OK n, st')
       end.

(** What [Load] does with one body: hold, drop, or skip what does not decode. *)
Definition apply_body (m : gmap bytes TransitEnvelope) (body : bytes) : gmap bytes TransitEnvelope :=
  match DecodeBody body with
  | None => m
  | Some (RDrop owner kh) => delete (MapKey owner kh) m
  | Some (RHold e) => <[MapKey (owner_node e) (e_key_hash e) := e]> m
  end.

(** [None]: an exception escapes.  A corrupt log is compacted to the rows read
    before the corruption; a failure of that is only logged. *)
Definition Load (nonces : nat -> bytes) (io : rewrite_io) (st : TransitStore) : option TransitStore :=
  let '(m, e) := load_log apply_body kTransitRecordCap (t_subkey st) (bs "transit") (t_log st) (entries_ st) in
  match e with
  | LThrow => None
  | _ =>
      let st' := mkStore (t_log st) (t_open st) m (bool_decide (e = LCorrupt)) (t_subkey st)
                   (ttl_seconds st) (holder_node_id st) in
      Some (if bool_decide (e = LCorrupt) then (CompactLocked nonces io st').2 else st')
  end.

Definition Open (nonces : nat -> bytes) (io : rewrite_io) (log : bytes) (ttl : Z) (holder dek : bytes)
  : option (StatusOr TransitStore) :=
  if bool_decide (holder = []) then Some (Fault kInvalidArgument)
  else if negb (bool_decide (dek = [])) && negb (Zlen dek =? 32) then Some (Fault kInvalidArgument)
  else match DetectLogMode kTransitRecordCap log (negb (bool_decide (dek = []))) with
  | Fault c => Some (Fault c)
  | OK _ =>
      match (if bool_decide (dek = []) then OK [] else FileSubkey dek (bs "transit")) with
      | Fault c => Some (Fault c)
      | OK key =>
          match Load nonces io (mkStore log true ∅ false key ttl holder) with
          | None => None
          | Some st => Some (OK st)
          end
      end
  end.
End Transit.
