(* ===== verification/TransitProps.v ===== *)
(** * The transit store keeps what it holds: src/ledger/transit_store.cpp

    The abstract store is the map from (owner, key hash) to an envelope; the log
    on disk refines it: loading the log after any sequence of operations gives
    back the map those operations left in memory. *)
From coqutil Require Import Word.LittleEndianList.
From S2P Require Import Prelude Bytes AtRest RecordLog Transit.
Local Open Scope Z_scope.

(** Two rows share a map key only if owner and hash agree: hashes have a fixed length. *)
Lemma MapKey_inj o1 h1 o2 h2 :
  length h1 = length h2 -> MapKey o1 h1 = MapKey o2 h2 -> o1 = o2 /\ h1 = h2.
Proof.
  intros Hl H. unfold MapKey in H. rewrite !app_assoc in H.
  apply app_inj_2 in H as [H ->]; [|done]. by apply app_inj_2 in H as [-> _].
Qed.

Record env_ok (e : TransitEnvelope) : Prop := {
  eok_owner : owner_node e <> [];
  eok_hash : length (e_key_hash e) = kWalHashLen;
  eok_lsn : sfits 64 (intent_lsn e);
  eok_expires : sfits 64 (expires_ms e);
  eok_size : fits 64 (doc_size_bytes e);
  eok_total : fits 32 (chunk_total e);
  eok_index : 0 <= chunk_index e < chunk_total e;
  eok_cap : Zlen (EncodeEnvelope e) + 32 <= kTransitRecordCap;
}.

Lemma env_blobs e : Zlen (EncodeEnvelope e) + 32 <= kTransitRecordCap ->
  blob_ok (owner_node e) /\ blob_ok (e_collection e) /\ blob_ok (e_key e) /\ blob_ok (e_key_hash e)
  /\ blob_ok (encoded_doc e) /\ blob_ok (holder_node e) /\ blob_ok (message_id e)
  /\ blob_ok (content_hash e) /\ blob_ok (holder_sig e).
Proof.
  unfold blob_ok, Zlen, kTransitRecordCap, EncodeEnvelope.
  rewrite !length_app, !Bytes_length. intros H. split_and!; lia.
Qed.

Lemma opt_bytes_ok s rest : blob_ok s -> opt_bytes (ByteWriter.Bytes s ++ rest) = Some (s, rest).
Proof.
  intros Hs. unfold opt_bytes, ByteReader.remaining, rbind at 1.
  destruct (Z.ltb_spec 0 (Zlen (ByteWriter.Bytes s ++ rest))) as [|Hz]; [by apply round_trip|].
  unfold Zlen in Hz. rewrite length_app, Bytes_length in Hz. lia.
Qed.

Lemma dec_stripe_ok e rest :
  env_ok e ->
  dec_stripe 3 (ByteWriter.U64 (doc_size_bytes e) ++ ByteWriter.U32 (chunk_index e)
    ++ ByteWriter.U32 (chunk_total e) ++ ByteWriter.Bytes (message_id e)
    ++ ByteWriter.Bytes (content_hash e) ++ ByteWriter.Bytes (holder_sig e) ++ rest)
  = Some ((doc_size_bytes e, chunk_index e, chunk_total e, (message_id e, content_hash e, holder_sig e)), rest).
Proof.
  intros [_ _ _ _ Hs Ht Hi Hc]. pose proof (env_blobs e Hc) as (_ & _ & _ & _ & _ & _ & B1 & B2 & B3).
  unfold dec_stripe. cbn [Z.eqb Pos.eqb orb]. read_step ltac:(done).
  read_step ltac:(unfold fits in *; lia). read_step ltac:(done).
  destruct (Z.eqb_spec (chunk_total e) 0); [lia|].
  destruct (Z.leb_spec (chunk_total e) (chunk_index e)); [lia|]. cbn [orb].
  do 3 (unfold rbind at 1; rewrite opt_bytes_ok by done; cbv beta iota). done.
Qed.

Lemma DecodeBody_hold e : env_ok e -> DecodeBody (EncodeEnvelope e) = Some (RHold e).
Proof.
  intros He. pose proof (env_blobs e (eok_cap _ He)) as (B1 & B2 & B3 & B4 & B5 & B6 & _).
  unfold DecodeBody, dec_record, EncodeEnvelope.
  do 3 (read_step ltac:(done); cbn [negb andb Z.eqb Pos.eqb kTransitMagic kTransitVersion kRecordHold kRecordDrop]).
  do 6 (read_step ltac:(done)).
  read_step ltac:(apply (eok_lsn _ He)). read_step ltac:(apply (eok_expires _ He)).
  rewrite <- (app_nil_r (ByteWriter.Bytes (holder_sig e))).
  change (dec_stripe kTransitVersion) with (dec_stripe 3).
  unfold rbind at 1. rewrite (dec_stripe_ok e [] He). cbv beta iota.
  unfold expect_end, rbind, ByteReader.remaining, rret. cbn [negb Z.eqb].
  change (Zlen (@nil byte)) with 0. cbn [Z.eqb negb].
  rewrite bool_decide_eq_false_2 by apply (eok_owner _ He).
  unfold Zlen. rewrite (eok_hash _ He), Z.eqb_refl. by destruct e.
Qed.

Lemma DecodeBody_drop o h :
  o <> [] -> length h = kWalHashLen -> blob_ok o -> DecodeBody (EncodeDropBody o h) = Some (RDrop o h).
Proof.
  intros Ho Hh Hb. unfold DecodeBody, dec_record, EncodeDropBody.
  do 3 (read_step ltac:(done); cbn [negb andb Z.eqb Pos.eqb kTransitMagic kTransitVersion kRecordHold kRecordDrop]).
  read_step ltac:(done).
  read_end ltac:(unfold blob_ok, Zlen; by rewrite Hh).
  unfold expect_end, rbind, ByteReader.remaining, rret. change (Zlen (@nil byte)) with 0. cbn [negb Z.eqb].
  rewrite bool_decide_eq_false_2 by done. unfold Zlen. by rewrite Hh, Z.eqb_refl.
Qed.

Section TransitProps.
Context `{C : Crypto} `{!CryptoLaws C}.
Implicit Types (st : TransitStore) (e : TransitEnvelope).

Lemma not_sealed (b rest : bytes) : take 4 b = ByteWriter.U32 kTransitMagic -> LooksSealedRecord b = false.
Proof. intros H. unfold LooksSealedRecord. rewrite H. apply andb_false_r. Qed.

Lemma hold_body_ok e : env_ok e -> body_ok kTransitRecordCap (EncodeEnvelope e).
Proof.
  intros He. split_and!; [by apply (not_sealed _ [])| |apply (eok_cap _ He)|done].
  unfold EncodeEnvelope, Zlen. rewrite length_app, U32_length. lia.
Qed.

Lemma drop_body_ok e : env_ok e -> body_ok kTransitRecordCap (EncodeDropBody (owner_node e) (e_key_hash e)).
Proof.
  intros He. split_and!; [by apply (not_sealed _ [])| | |done].
  - unfold EncodeDropBody, Zlen. rewrite length_app, U32_length. lia.
  - pose proof (eok_cap _ He) as Hc. revert Hc. unfold EncodeEnvelope, EncodeDropBody, Zlen.
    rewrite !length_app, !Bytes_length, !U8_length, !U32_length. lia.
Qed.

Definition rows_ok (m : gmap bytes TransitEnvelope) : Prop :=
  map_Forall (fun k e => env_ok e /\ k = MapKey (owner_node e) (e_key_hash e)) m.

(** The log on disk stands for the map in memory. *)
Record store_inv st : Prop := {
  s_open : t_open st = true;
  s_key : t_subkey st = [] \/ Zlen (t_subkey st) = kDekLen;
  s_rows : rows_ok (entries_ st);
  s_log : exists bodies, rlog kTransitRecordCap (t_subkey st) (bs "transit") bodies (t_log st)
            /\ fold_left apply_body bodies ∅ = entries_ st;
}.

Lemma apply_hold m e :
  env_ok e -> apply_body m (EncodeEnvelope e) = <[MapKey (owner_node e) (e_key_hash e) := e]> m.
Proof. intros He. unfold apply_body. by rewrite DecodeBody_hold. Qed.

Lemma apply_drop m e :
  env_ok e -> apply_body m (EncodeDropBody (owner_node e) (e_key_hash e))
    = delete (MapKey (owner_node e) (e_key_hash e)) m.
Proof.
  intros He. unfold apply_body.
  rewrite DecodeBody_drop; [done|apply (eok_owner _ He)|apply (eok_hash _ He)|].
  apply (env_blobs e (eok_cap _ He)).
Qed.

Definition env_good (env : bytes * append_result_io) : Prop :=
  length env.1 = kPageNonceLen /\ env.2 = LogOk.

(** A successful append of an acceptable body. *)
Lemma log_append_ok env st body bodies m :
  t_open st = true -> (t_subkey st = [] \/ Zlen (t_subkey st) = kDekLen) -> env_good env ->
  body_ok kTransitRecordCap body ->
  rlog kTransitRecordCap (t_subkey st) (bs "transit") bodies (t_log st) ->
  fold_left apply_body bodies ∅ = m ->
  exists log', log_append env st body = (OK tt, with_log st log')
    /\ rlog kTransitRecordCap (t_subkey st) (bs "transit") (bodies ++ [body]) log'
    /\ fold_left apply_body (bodies ++ [body]) ∅ = apply_body m body.
Proof.
  intros Ho Hk [Hn Hio] Hb Hr Hm.
  destruct (seal_log_ok (t_subkey st) (bs "transit") env.1 body Hk Hn) as [p Hp].
  exists (t_log st ++ log_frame p). split_and!.
  - unfold log_append, AppendRecord. by rewrite Hp, Ho, Hio.
  - apply rlog_snoc; [done|done|]. by exists env.1, p.
  - rewrite fold_left_app, Hm. done.
Qed.

Lemma put_inv env st e :
  store_inv st -> env_good env -> env_ok e ->
  exists st', put env st e = (OK tt, st') /\ store_inv st'
    /\ entries_ st' = <[MapKey (owner_node e) (e_key_hash e) := e]> (entries_ st)
    /\ t_subkey st' = t_subkey st /\ ttl_seconds st' = ttl_seconds st
    /\ holder_node_id st' = holder_node_id st.
Proof.
  intros [Ho Hk Hr (bodies & Hb & Hm)] Hg He.
  destruct (log_append_ok env st _ bodies _ Ho Hk Hg (hold_body_ok e He) Hb Hm) as (log' & Hap & Hb' & Hm').
  eexists. split_and!; [unfold put; by rewrite Hap| |done|done|done|done].
  split; [done|done| |].
  - cbn. by apply map_Forall_insert_2.
  - eexists. split; [exact Hb'|]. cbn. by rewrite Hm', apply_hold.
Qed.

(** ** Compaction *)
Lemma fold_insert_list_to_map {V} (l : list (bytes * V)) :
  fold_left (fun m kv => <[kv.1 := kv.2]> m) l (∅ : gmap bytes V) = list_to_map (rev l).
Proof.
  induction l as [|[k v] l IH] using rev_ind; [done|]. rewrite fold_left_app, rev_app_distr. cbn.
  by rewrite IH.
Qed.

Lemma fold_apply_rows (l : list (bytes * TransitEnvelope)) m :
  Forall (fun kv => env_ok kv.2 /\ kv.1 = MapKey (owner_node kv.2) (e_key_hash kv.2)) l ->
  fold_left apply_body (EncodeEnvelope <$> l.*2) m = fold_left (fun m kv => <[kv.1 := kv.2]> m) l m.
Proof.
  intros H. revert m. induction H as [|[k e] l [He Hk] _ IH]; intros m; [done|].
  cbn in *. rewrite apply_hold by done. rewrite IH, Hk. done.
Qed.

Lemma rows_ok_list m :
  rows_ok m ->
  Forall (fun kv => env_ok kv.2 /\ kv.1 = MapKey (owner_node kv.2) (e_key_hash kv.2)) (map_to_list m).
Proof.
  intros H. apply Forall_forall. intros [k e] Hin. apply elem_of_map_to_list in Hin. by apply (H k e).
Qed.

Lemma compact_fold m : rows_ok m ->
  fold_left apply_body (EncodeEnvelope <$> (map_to_list m).*2) ∅ = m.
Proof.
  intros Hr. rewrite fold_apply_rows by (by apply rows_ok_list). rewrite fold_insert_list_to_map.
  rewrite (list_to_map_proper _ (map_to_list m)); [apply list_to_map_to_list| |symmetry; apply Permutation_rev].
  rewrite <- Permutation_rev. apply NoDup_fst_map_to_list.
Qed.

Definition nonces_good (nonces : nat -> bytes) : Prop := forall i, length (nonces i) = kPageNonceLen.

Lemma CompactLocked_ok nonces st :
  t_open st = true -> (t_subkey st = [] \/ Zlen (t_subkey st) = kDekLen) -> rows_ok (entries_ st) ->
  nonces_good nonces ->
  exists st', CompactLocked nonces RwOk st = (OK tt, st') /\ store_inv st' /\ entries_ st' = entries_ st
    /\ t_subkey st' = t_subkey st /\ ttl_seconds st' = ttl_seconds st
    /\ holder_node_id st' = holder_node_id st.
Proof.
  intros Ho Hk Hr Hn. unfold CompactLocked.
  destruct (compact_frames_ok kTransitRecordCap (t_subkey st) (bs "transit") nonces
    (EncodeEnvelope <$> (map_to_list (entries_ st)).*2) Hk Hn) as (f & -> & Hf).
  { apply Forall_fmap, Forall_fmap. eapply Forall_impl; [by apply rows_ok_list|].
    intros [k e] [He _]. by apply hold_body_ok. }
  eexists. split_and!; [done| |done|done|done|done]. split; [done|done|done|].
  eexists. split; [exact Hf|]. by apply compact_fold.
Qed.

(** ** Release and expiry *)
Definition wanted_keys (wanted : list bytes) (rows : list (bytes * TransitEnvelope)) : list bytes :=
  (filter (fun kv => e_key_hash kv.2 ∈ wanted) rows).*1.

Lemma wanted_keys_nil rows : wanted_keys [] rows = [].
Proof.
  unfold wanted_keys. induction rows as [|kv rows IH]; [done|].
  rewrite filter_cons_False by apply not_elem_of_nil. apply IH.
Qed.

Lemma lookup_fold_delete {V} (ks : list bytes) (m : gmap bytes V) k :
  fold_left (fun m k => delete k m) ks m !! k = if decide (k ∈ ks) then None else m !! k.
Proof.
  revert m. induction ks as [|k' ks IH]; intros m; [by rewrite decide_False by apply not_elem_of_nil|].
  cbn [fold_left]. rewrite IH. destruct (decide (k = k')) as [->|Hne].
  - rewrite (decide_True (P := k' ∈ k' :: ks)) by (by apply elem_of_cons; left).
    rewrite lookup_delete_eq. by case_decide.
  - rewrite lookup_delete_ne by done. destruct (decide (k ∈ ks)) as [Hin|Hin].
    + by rewrite decide_True by (by apply elem_of_cons; right).
    + rewrite decide_False; [done|]. intros [?|?]%elem_of_cons; done.
Qed.

Lemma release_loop_ok envs wanted rows n st :
  store_inv st -> (forall i, env_good (envs i)) ->
  Forall (fun kv => env_ok kv.2 /\ kv.1 = MapKey (owner_node kv.2) (e_key_hash kv.2)) rows ->
  exists st', release_loop envs wanted rows n st = (OK (n + Zlen (wanted_keys wanted rows)), st')
    /\ store_inv st'
    /\ entries_ st' = fold_left (fun m k => delete k m) (wanted_keys wanted rows) (entries_ st)
    /\ t_subkey st' = t_subkey st /\ ttl_seconds st' = ttl_seconds st
    /\ holder_node_id st' = holder_node_id st.
Proof.
  intros Hst Hg Hrows. revert envs n st Hst Hg.
  induction Hrows as [|[k e] rows [He Hk] _ IH]; intros envs n st Hst Hg.
  { exists st. cbn [release_loop]. unfold wanted_keys. change (Zlen _) with 0. rewrite Z.add_0_r.
    by split_and!. }
  cbn [fst snd] in He, Hk. cbn [release_loop]. unfold wanted_keys. rewrite filter_cons. cbn [snd].
  case_bool_decide as Hw; [rewrite decide_True by done|rewrite decide_False by done; by apply IH].
  destruct Hst as [Ho Hkey Hr (bodies & Hb & Hm)].
  destruct (log_append_ok (envs 0%nat) st _ bodies _ Ho Hkey (Hg _) (drop_body_ok e He) Hb Hm)
    as (log' & -> & Hb' & Hm').
  rewrite (apply_drop _ e He), <- Hk in Hm'.
  destruct (IH (fun i => envs (S i)) (n + 1) (with_entries (with_log st log') (delete k (entries_ st))))
    as (st' & Hrun & Hinv & Hent & Hrest).
  - split; [done|done|by apply map_Forall_delete|]. by exists (bodies ++ [EncodeDropBody (owner_node e) (e_key_hash e)]).
  - intros i. apply Hg.
  - exists st'. split_and!; try apply Hrest; [|done|done].
    cbn [entries_ with_log] in Hrun. cbn [entries_ with_log]. rewrite Hrun. do 2 f_equal. cbn [fmap list_fmap].
    unfold wanted_keys, Zlen. cbn [length fmap list_fmap]. lia.
Qed.

Lemma fold_delete_filter m wanted :
  fold_left (fun m k => delete k m) (wanted_keys wanted (map_to_list m)) m
  = filter (fun kv => e_key_hash kv.2 ∉ wanted) m.
Proof.
  apply map_eq. intros k. rewrite lookup_fold_delete. unfold wanted_keys.
  assert (k ∈ (filter (fun kv : bytes * TransitEnvelope => e_key_hash kv.2 ∈ wanted) (map_to_list m)).*1
          <-> exists e, m !! k = Some e /\ e_key_hash e ∈ wanted) as Hiff.
  { rewrite list_elem_of_fmap. split.
    - intros ([k' e] & -> & [Hw Hin]%list_elem_of_filter). apply elem_of_map_to_list in Hin. by exists e.
    - intros (e & Hl & Hw). exists (k, e). split; [done|]. apply list_elem_of_filter.
      split; [done|]. by apply elem_of_map_to_list. }
  destruct (m !! k) as [e|] eqn:E.
  - destruct (decide (e_key_hash e ∈ wanted)) as [Hw|Hw].
    + rewrite decide_True by (apply Hiff; by exists e). symmetry. apply map_lookup_filter_None. right.
      intros x Hx. rewrite E in Hx. injection Hx as <-. cbn. by intros H.
    + rewrite decide_False by (rewrite Hiff; intros (e' & [= <-] & ?); done).
      symmetry. by apply map_lookup_filter_Some.
  - rewrite decide_False by (rewrite Hiff; intros (e' & ? & ?); done).
    symmetry. apply map_lookup_filter_None. by left.
Qed.

Lemma map_to_list_filter_length (m : gmap bytes TransitEnvelope) (hs : list bytes) :
  length (filter (fun kv => e_key_hash kv.2 ∈ hs) (map_to_list m))
  = (length (map_to_list m) - length (map_to_list (filter (fun kv => e_key_hash kv.2 ∉ hs) m)))%nat.
Proof.
  rewrite map_filter_alt, map_to_list_to_map.
  2:{ eapply sublist_NoDup; [apply (NoDup_fst_map_to_list m)|apply fmap_sublist, sublist_filter]. }
  induction (map_to_list m) as [|kv l IH]; [done|]. rewrite !filter_cons.
  pose proof (length_filter (fun kv : bytes * TransitEnvelope => e_key_hash kv.2 ∉ hs) l).
  destruct (decide (e_key_hash kv.2 ∈ hs)) as [Hi|Hi];
    [rewrite (decide_False (P := e_key_hash kv.2 ∉ hs)) by (by intros Hn)
    |rewrite (decide_True (P := e_key_hash kv.2 ∉ hs)) by done]; cbn [length]; lia.
Qed.

Lemma lookup_not_in (m : gmap bytes TransitEnvelope) (hs : list bytes) k :
  filter (fun kv => e_key_hash kv.2 ∉ hs) m !! k
  = match m !! k with
    | Some e => if decide (e_key_hash e ∈ hs) then None else Some e
    | None => None
    end.
Proof.
  destruct (m !! k) as [e|] eqn:E.
  - case_decide as Hd.
    + apply map_lookup_filter_None. right. intros x Hx. rewrite E in Hx. injection Hx as <-. cbn.
      by intros Hc.
    + by apply map_lookup_filter_Some.
  - apply map_lookup_filter_None. by left.
Qed.

Lemma append_drops_ok envs st es :
  t_open st = true -> (t_subkey st = [] \/ Zlen (t_subkey st) = kDekLen) ->
  (forall i, env_good (envs i)) ->
  exists log', append_drops envs st es = (OK tt, with_log st log').
Proof.
  intros Ho Hk. revert envs st Ho Hk. induction es as [|e es IH]; intros envs st Ho Hk Hg.
  { exists (t_log st). by destruct st. }
  cbn [append_drops]. destruct (Hg 0%nat) as [Hn Hio].
  destruct (seal_log_ok (t_subkey st) (bs "transit") (envs 0%nat).1
    (EncodeDropBody (owner_node e) (e_key_hash e)) Hk Hn) as [p Hp].
  unfold log_append at 1, AppendRecord. rewrite Hp, Ho, Hio. cbn [negb].
  by apply (IH (fun i => envs (S i)) (with_log st (t_log st ++ log_frame p))).
Qed.

Lemma rows_ok_filter (P : bytes * TransitEnvelope -> Prop) `{!forall kv, Decision (P kv)} m :
  rows_ok m -> rows_ok (filter P m).
Proof. intros Hm k e Hl. apply map_lookup_filter_Some in Hl as [Hl _]. by apply (Hm k e). Qed.

Lemma Release_ok envs nonces st hs :
  store_inv st -> (forall i, env_good (envs i)) -> nonces_good nonces ->
  exists n st', Release envs nonces RwOk st hs = (OK n, st') /\ store_inv st'
    /\ entries_ st' = filter (fun kv => e_key_hash kv.2 ∉ hs) (entries_ st)
    /\ n = Zlen (wanted_keys hs (map_to_list (entries_ st)))
    /\ t_subkey st' = t_subkey st /\ ttl_seconds st' = ttl_seconds st
    /\ holder_node_id st' = holder_node_id st.
Proof.
  intros Hst Hg Hn. unfold Release. case_bool_decide as Hh.
  { exists 0, st. subst hs. split_and!; try done.
    - rewrite map_filter_id; [done|]. intros. apply not_elem_of_nil.
    - by rewrite wanted_keys_nil. }
  destruct (release_loop_ok envs hs (map_to_list (entries_ st)) 0 st Hst Hg)
    as (st' & -> & Hinv & Hent & Hsub & Httl & Hho); [apply rows_ok_list, (s_rows _ Hst)|].
  rewrite fold_delete_filter in Hent. rewrite Z.add_0_l.
  destruct (Z.ltb_spec 0 (Zlen (wanted_keys hs (map_to_list (entries_ st))))).
  - destruct (CompactLocked_ok nonces st') as (st2 & -> & Hinv2 & Hent2 & Hsub2 & Httl2 & Hho2);
      [apply (s_open _ Hinv)|apply (s_key _ Hinv)|apply (s_rows _ Hinv)|done|].
    eexists _, st2. split_and!; try done; congruence.
  - eexists _, st'. by split_and!.
Qed.

Lemma ExpireAsOf_ok envs nonces now st :
  store_inv st -> (forall i, env_good (envs i)) -> nonces_good nonces ->
  exists n st', ExpireAsOf envs nonces RwOk now st = (OK n, st') /\ store_inv st'
    /\ entries_ st' = filter (fun kv => expired_at now kv.2 = false) (entries_ st)
    /\ t_subkey st' = t_subkey st /\ ttl_seconds st' = ttl_seconds st
    /\ holder_node_id st' = holder_node_id st.
Proof.
  intros Hst Hg Hn. unfold ExpireAsOf.
  set (to_drop := filter (fun e => expired_at now e = true) (map_to_list (entries_ st)).*2).
  set (st1 := with_entries st (filter (fun kv => expired_at now kv.2 = false) (entries_ st))).
  destruct (append_drops_ok envs st1 to_drop) as [log' Hd];
    [apply (s_open _ Hst)|apply (s_key _ Hst)|done|]. rewrite Hd.
  destruct (Z.ltb_spec 0 (Zlen to_drop)) as [Hpos|Hz].
  - destruct (CompactLocked_ok nonces (with_log st1 log')) as (st2 & -> & Hinv2 & Hent2 & Hrest);
      [apply (s_open _ Hst)|apply (s_key _ Hst)|apply rows_ok_filter, (s_rows _ Hst)|done|].
    eexists _, st2. by split_and!; try apply Hrest.
  - assert (to_drop = []) as He by (destruct to_drop; [done|unfold Zlen in Hz; cbn in Hz; lia]).
    rewrite He in Hd. cbn in Hd. injection Hd as Hl.
    assert (filter (fun kv => expired_at now kv.2 = false) (entries_ st) = entries_ st) as Hf.
    { apply map_filter_id. intros k e Hl'. cbn. destruct (expired_at now e) eqn:Ee; [|done].
      assert (e ∈ to_drop) as Hin; [|rewrite He in Hin; by apply elem_of_nil in Hin].
      apply list_elem_of_filter. split; [done|]. apply list_elem_of_fmap. exists (k, e).
      split; [done|]. by apply elem_of_map_to_list. }
    exists 0, (with_log st1 log'). rewrite <- Hl. split_and!; try done.
    destruct Hst as [H1 H2 H3 H4]. unfold st1. cbn. split; cbn; rewrite ?Hf; done.
Qed.

(** ** Sequences of operations *)
Inductive transit_op :=
  | OpHold (env : bytes * append_result_io) (now : Z) (e : TransitEnvelope)
  | OpMerge (env : bytes * append_result_io) (e : TransitEnvelope)
  | OpExpire (envs : append_envs) (nonces : nat -> bytes) (now : Z)
  | OpRelease (envs : append_envs) (nonces : nat -> bytes) (key_hashes : list bytes).

Definition run_op st (op : transit_op) : TransitStore :=
  match op with
  | OpHold env now e => (Hold env now st e).2
  | OpMerge env e => (MergeRemoteEnvelope env st e).2
  | OpExpire envs nonces now => (ExpireAsOf envs nonces RwOk now st).2
  | OpRelease envs nonces hs => (Release envs nonces RwOk st hs).2
  end.

(** The writes succeed and what is stored fits its fields and the record cap. *)
Definition op_ok (ttl : Z) (holder : bytes) (op : transit_op) : Prop :=
  match op with
  | OpHold env now e => env_good env
      /\ env_ok (stamp now (mkStore [] true ∅ false [] ttl holder) e)
  | OpMerge env e => env_good env /\ env_ok e
  | OpExpire envs nonces _ => (forall i, env_good (envs i)) /\ nonces_good nonces
  | OpRelease envs nonces _ => (forall i, env_good (envs i)) /\ nonces_good nonces
  end.

Definition same_config st1 st2 : Prop :=
  t_subkey st1 = t_subkey st2 /\ ttl_seconds st1 = ttl_seconds st2
  /\ holder_node_id st1 = holder_node_id st2.

Lemma Hold_ok env now st e :
  store_inv st -> env_good env -> env_ok (stamp now st e) ->
  (owner_node e = holder_node_id st /\ Hold env now st e = (Fault kInvalidArgument, st))
  \/ (owner_node e <> holder_node_id st /\ exists st', Hold env now st e = (OK tt, st') /\ store_inv st'
        /\ entries_ st' = <[MapKey (owner_node e) (e_key_hash e) := stamp now st e]> (entries_ st)
        /\ same_config st' st).
Proof.
  intros Hst Hg He. unfold Hold.
  pose proof (eok_owner _ He) as Ho. pose proof (eok_hash _ He) as Hh. cbn in Ho, Hh.
  rewrite bool_decide_eq_false_2 by done. unfold Zlen. rewrite Hh, Z.eqb_refl. cbn [negb].
  case_bool_decide as Hs; [by left|]. right. split; [done|].
  destruct (put_inv env st (stamp now st e) Hst Hg He) as (st' & H1 & H2 & H3 & H4).
  exists st'. by split_and!.
Qed.

Lemma run_op_inv st op :
  store_inv st -> op_ok (ttl_seconds st) (holder_node_id st) op ->
  store_inv (run_op st op) /\ same_config (run_op st op) st.
Proof.
  intros Hst Hop. destruct op as [env now e|env e|envs nonces now|envs nonces hs]; cbn [run_op op_ok] in *.
  - destruct Hop as [Hg He]. destruct (Hold_ok env now st e Hst Hg He) as [[_ ->]|(_ & st' & -> & ? & _ & ?)];
      done.
  - destruct Hop as [Hg He]. unfold MergeRemoteEnvelope.
    rewrite bool_decide_eq_false_2 by apply (eok_owner _ He). unfold Zlen.
    rewrite (eok_hash _ He), Z.eqb_refl. cbn [negb orb].
    destruct (put_inv env st e Hst Hg He) as (st' & -> & H2 & _ & H4). done.
  - destruct Hop as [Hg Hn].
    destruct (ExpireAsOf_ok envs nonces now st Hst Hg Hn) as (n & st' & -> & H1 & _ & H2). done.
  - destruct Hop as [Hg Hn].
    destruct (Release_ok envs nonces st hs Hst Hg Hn) as (n & st' & -> & H1 & _ & _ & H2). done.
Qed.

Lemma run_ops_inv st ops :
  store_inv st -> Forall (op_ok (ttl_seconds st) (holder_node_id st)) ops ->
  store_inv (fold_left run_op ops st) /\ same_config (fold_left run_op ops st) st.
Proof.
  intros Hst Hops. revert st Hst Hops. induction ops as [|op ops IH]; intros st Hst Hops; [done|].
  apply Forall_cons in Hops as [Hop Hops]. cbn [fold_left].
  destruct (run_op_inv st op Hst Hop) as [H1 (C1 & C2 & C3)].
  rewrite <- C2, <- C3 in Hops. destruct (IH _ H1 Hops) as [H2 (D1 & D2 & D3)].
  split; [done|]. unfold same_config. split_and!; congruence.
Qed.

Lemma Load_inv nonces io st :
  store_inv st ->
  Load nonces io (mkStore (t_log st) true ∅ false (t_subkey st) (ttl_seconds st) (holder_node_id st))
  = Some (mkStore (t_log st) true (entries_ st) false (t_subkey st) (ttl_seconds st) (holder_node_id st)).
Proof.
  intros [Ho Hk Hr (bodies & Hb & Hm)]. unfold Load. cbn [t_log t_subkey entries_].
  destruct (load_log_ok apply_body kTransitRecordCap (t_subkey st) (bs "transit") bodies (t_log st) [] ∅ Hb
    (log_tail_nil _)) as (e & He & Hc & Ht).
  rewrite app_nil_r in He. rewrite He, Hm. destruct e; try done.
Qed.

(** C7: the log on disk implements the map in memory: after any sequence of holds, merges,
    expiries and releases, a restart that loads the log reconstructs exactly the envelopes
    held before it, and does not report corruption. Conditions: the store starts from a log
    that holds its map, every append, rewrite and flush of the run succeeds, and every
    envelope stored fits its field widths and the cap on a record (a larger one is held and
    lost at the restart, [transit_oversize_hold_lost]). *)
Theorem transit_survives_restart nonces io st ops :
  store_inv st -> Forall (op_ok (ttl_seconds st) (holder_node_id st)) ops ->
  let st' := fold_left run_op ops st in
  exists st2, Load nonces io (mkStore (t_log st') true ∅ false (t_subkey st) (ttl_seconds st) (holder_node_id st))
    = Some st2 /\ entries_ st2 = entries_ st' /\ load_corrupt st2 = false.
Proof.
  intros Hst Hops st'. destruct (run_ops_inv st ops Hst Hops) as [Hinv (C1 & C2 & C3)].
  fold st' in Hinv, C1, C2, C3. rewrite <- C1, <- C2, <- C3.
  eexists. by rewrite (Load_inv nonces io st' Hinv).
Qed.

(** A successful [Hold] upserts one row and nothing else: afterwards a
    lookup of that owner and hash returns the stamped envelope until it
    expires, and every other lookup answers as before, because two different
    (owner, hash) pairs never share a map key. *)
Theorem transit_hold_lookup env now st e now' o h :
  store_inv st -> env_good env -> env_ok (stamp now st e) -> owner_node e <> holder_node_id st ->
  length h = kWalHashLen ->
  exists st', Hold env now st e = (OK tt, st')
    /\ Lookup now' st' o h
       = if decide (o = owner_node e /\ h = e_key_hash e)
         then (if expired_at now' (stamp now st e) then Fault kNotFound else OK (stamp now st e))
         else Lookup now' st o h.
Proof.
  intros Hst Hg He Hne Hh.
  destruct (Hold_ok env now st e Hst Hg He) as [[? _]|(_ & st' & -> & Hinv & Hent & _)]; [done|].
  exists st'. split; [done|]. unfold Lookup, Zlen. rewrite Hh, Z.eqb_refl. cbn [negb]. rewrite Hent.
  case_decide as Hd.
  - destruct Hd as [-> ->]. by rewrite lookup_insert_eq.
  - rewrite lookup_insert_ne; [done|]. intros Hk. apply Hd.
    apply MapKey_inj in Hk as [-> ->]; [done|]. pose proof (eok_hash _ He) as Hx. cbn in Hx.
    by rewrite Hh, Hx.
Qed.

(** A release after a checkpoint is exact: it succeeds, reports how many
    rows it removed, removes every envelope whose key hash was named and keeps
    every other one unchanged. *)
Theorem transit_release_exact envs nonces st hs :
  store_inv st -> (forall i, env_good (envs i)) -> nonces_good nonces ->
  exists n st', Release envs nonces RwOk st hs = (OK n, st')
    /\ n = Zlen (map_to_list (entries_ st)) - Zlen (map_to_list (entries_ st'))
    /\ forall k, entries_ st' !! k
         = match entries_ st !! k with
           | Some e => if decide (e_key_hash e ∈ hs) then None else Some e
           | None => None
           end.
Proof.
  intros Hst Hg Hn. destruct (Release_ok envs nonces st hs Hst Hg Hn) as (n & st' & H1 & _ & Hent & Hcnt & _).
  exists n, st'. split_and!; [done| |].
  - rewrite Hcnt, Hent. unfold wanted_keys, Zlen. rewrite length_fmap, map_to_list_filter_length.
    rewrite !length_map_to_list.
    pose proof (map_size_filter (fun kv => e_key_hash kv.2 ∉ hs) (entries_ st)). lia.
  - intros k. rewrite Hent. apply lookup_not_in.
Qed.

(** ** Envelopes above the record cap *)
Lemma CompactLocked_rows nonces io st :
  entries_ (CompactLocked nonces io st).2 = entries_ st
  /\ load_corrupt (CompactLocked nonces io st).2 = load_corrupt st.
Proof.
  unfold CompactLocked.
  destruct io; try done; by destruct (compact_frames _ _ _ _).
Qed.

Lemma next_record_oversize cap p rest :
  cap < Zlen p < 2 ^ 32 -> 0 <= cap -> next_record cap (log_frame p ++ rest) = NBad.
Proof.
  intros Hp Hc. unfold next_record, log_frame. rewrite <- !app_assoc.
  rewrite (take_app_length' (ByteWriter.U32 _)) by (by rewrite U32_length).
  rewrite le_combine_U32 by (unfold fits; lia).
  destruct (Z.ltb_spec (Zlen (ByteWriter.U32 (Zlen p) ++ p ++ ByteWriter.U32 (Crc32 p) ++ rest)) 4) as [Hs|_].
  { unfold Zlen in Hs. rewrite length_app, U32_length in Hs. lia. }
  destruct (Z.ltb_spec cap (Zlen p)); [|lia]. by rewrite orb_true_r.
Qed.

(** [Hold] accepts an envelope whose record is larger than the cap [Load]
    enforces, as a chunk of the largest size the configuration allows produces:
    the hold succeeds and answers lookups, but after a restart that envelope and
    everything logged after it are gone and the log reads as corrupt. *)
Theorem transit_oversize_hold_lost nonces io env now st e later :
  store_inv st -> t_subkey st = [] -> env.2 = LogOk ->
  owner_node e <> [] -> length (e_key_hash e) = kWalHashLen -> owner_node e <> holder_node_id st ->
  kTransitRecordCap < Zlen (EncodeEnvelope (stamp now st e)) < 2 ^ 32 ->
  exists st1 st2, Hold env now st e = (OK tt, st1)
    /\ entries_ st1 !! MapKey (owner_node e) (e_key_hash e) = Some (stamp now st e)
    /\ Load nonces io (mkStore (t_log st1 ++ later) true ∅ false [] (ttl_seconds st) (holder_node_id st))
       = Some st2
    /\ entries_ st2 = entries_ st /\ load_corrupt st2 = true.
Proof.
  intros [Ho Hk Hr (bodies & Hb & Hm)] Hkey Hio Hown Hh Hne Hbig.
  set (body := EncodeEnvelope (stamp now st e)) in *.
  assert (Hold env now st e = (OK tt, with_entries (with_log st (t_log st ++ log_frame body))
            (<[MapKey (owner_node e) (e_key_hash e) := stamp now st e]> (entries_ st)))) as Hhold.
  { unfold Hold. rewrite !bool_decide_eq_false_2 by done. unfold Zlen. rewrite Hh, Z.eqb_refl. cbn [negb].
    unfold put, log_append, AppendRecord. fold body. unfold seal_log. rewrite Hkey, Ho, Hio.
    by rewrite bool_decide_eq_true_2. }
  eexists _, _. split_and!; [exact Hhold|by apply lookup_insert_eq|..].
  - unfold Load. cbn [t_log t_subkey entries_ with_entries with_log]. unfold load_log. rewrite <- app_assoc.
    rewrite Hkey in Hb. pose proof (rlog_length _ _ _ _ _ Hb).
    rewrite (load_loop_log _ _ _ _ bodies) by (rewrite ?length_app; done || lia).
    rewrite Hm. destruct (S _ - length bodies)%nat as [|n] eqn:En; [rewrite !length_app in En; lia|].
    cbn [load_loop]. rewrite next_record_oversize by done. done.
  - rewrite bool_decide_eq_true_2 by done. by rewrite (proj1 (CompactLocked_rows _ _ _)).
  - rewrite bool_decide_eq_true_2 by done. by rewrite (proj2 (CompactLocked_rows _ _ _)).
Qed.
End TransitProps.

(** ** Concrete runs *)
#[local] Existing Instance toy_crypto.

Definition demo_store : TransitStore := mkStore [] true ∅ false [] 60 (bs "holder").
Definition demo_hash : bytes := replicate kWalHashLen Byte.x01.
Definition demo_envelope (doc : bytes) : TransitEnvelope :=
  mkEnvelope (bs "owner") (bs "c") (bs "k") demo_hash doc [] 7 0 4 0 1 (bs "m") [] [].
Definition demo_wenv : bytes * append_result_io := (replicate kPageNonceLen Byte.x07, LogOk).

Lemma demo_store_inv : store_inv demo_store.
Proof. split; [done|by left|apply map_Forall_empty|]. exists []. split; [constructor|done]. Qed.

Lemma demo_wenv_good : env_good demo_wenv.
Proof. split; [apply length_replicate|done]. Qed.

Lemma demo_envelope_ok : env_ok (stamp 1000 demo_store (demo_envelope (bs "doc!"))).
Proof. split; try done; try (by vm_compute). Qed.

Lemma transit_survives_restart_witness :
  let st' := fold_left run_op [OpHold demo_wenv 1000 (demo_envelope (bs "doc!"));
                               OpRelease (fun _ => demo_wenv) (fun _ => demo_wenv.1) [demo_hash]] demo_store in
  exists st2, Load (fun _ => []) RwOk (mkStore (t_log st') true ∅ false [] 60 (bs "holder")) = Some st2
    /\ entries_ st2 = entries_ st' /\ load_corrupt st2 = false.
Proof.
  apply (transit_survives_restart (fun _ => []) RwOk demo_store
    [OpHold demo_wenv 1000 (demo_envelope (bs "doc!"));
     OpRelease (fun _ => demo_wenv) (fun _ => demo_wenv.1) [demo_hash]] demo_store_inv).
  constructor; [|constructor; [|constructor]].
  - split; [apply demo_wenv_good|apply demo_envelope_ok].
  - split; [intros _; apply demo_wenv_good|intros _; apply length_replicate].
Defined.

Lemma transit_hold_lookup_witness :
  exists st', Hold demo_wenv 1000 demo_store (demo_envelope (bs "doc!")) = (OK tt, st')
    /\ Lookup 2000 st' (bs "owner") demo_hash = OK (stamp 1000 demo_store (demo_envelope (bs "doc!"))).
Proof.
  destruct (transit_hold_lookup demo_wenv 1000 demo_store (demo_envelope (bs "doc!")) 2000 (bs "owner") demo_hash
    demo_store_inv demo_wenv_good demo_envelope_ok ltac:(discriminate) (length_replicate _ _))
    as (st' & H1 & H2).
  exists st'. split; [exact H1|]. rewrite decide_True in H2 by done. exact H2.
Defined.

Lemma transit_release_exact_witness :
  exists n st', Release (fun _ => demo_wenv) (fun _ => demo_wenv.1) RwOk demo_store [demo_hash] = (OK n, st').
Proof.
  destruct (transit_release_exact (fun _ => demo_wenv) (fun _ => demo_wenv.1) demo_store [demo_hash]
    demo_store_inv (fun _ => demo_wenv_good) (fun _ => length_replicate _ _)) as (n & st' & H & _).
  by exists n, st'.
Defined.

Definition big_doc : bytes := replicate (Z.to_nat (2 ^ 20)) Byte.x00.

Lemma transit_oversize_hold_lost_witness :
  exists st1 st2, Hold demo_wenv 1000 demo_store (demo_envelope big_doc) = (OK tt, st1)
    /\ Load (fun _ => []) RwOk (mkStore (t_log st1 ++ []) true ∅ false [] 60 (bs "holder")) = Some st2
    /\ entries_ st2 = ∅ /\ load_corrupt st2 = true.
Proof.
  destruct (transit_oversize_hold_lost (fun _ => []) RwOk demo_wenv 1000 demo_store (demo_envelope big_doc) []
    demo_store_inv eq_refl eq_refl ltac:(discriminate) (length_replicate _ _) ltac:(discriminate))
    as (st1 & st2 & H1 & _ & H2 & H3 & H4).
  - unfold EncodeEnvelope, Zlen. rewrite !length_app, !Bytes_length, !U32_length, !U64_length, U8_length.
    change (encoded_doc (stamp 1000 demo_store (demo_envelope big_doc))) with big_doc.
    unfold big_doc. rewrite length_replicate. unfold kTransitRecordCap.
    cbn [owner_node e_collection e_key e_key_hash holder_node message_id content_hash holder_sig stamp demo_envelope].
    rewrite !Nat2Z.inj_add, Z2Nat.id by done.
    unfold demo_hash. rewrite length_replicate. vm_compute. split; reflexivity.
  - exists st1, st2. split; [exact H1|]. split; [exact H2|]. split; [exact H3|exact H4].
Defined.
