(* ===== verification/Outbox.v ===== *)
(** * The outbox store: src/ledger/outbox_store.cpp

    Writes staged while the node is isolated: an append log, the map it loads
    to, and the drain that hands the entries over for replay. *)
From coqutil Require Import Word.LittleEndianList.
From S2P Require Import Prelude Bytes Hlc AtRest RecordLog.
Local Open Scope Z_scope.

Definition kOutboxMagic : Z := 0x44534E4F.
Definition kOutboxVersion : Z := 1.
Definition kOutboxRecordCap : Z := 2 ^ 20.
Definition kOutboxCollection : bytes := bs "_outbox".

Record OutboxEntry := mkEntry {
  x_collection : bytes;
  x_key : bytes;
  x_key_hash : bytes;
  x_doc : bytes;
  x_hlc : HLCTimestamp;
  created_ms : Z;
}.

Definition OutboxKey (collection key_hash : bytes) : bytes := collection ++ [Byte.x00] ++ key_hash.

Definition EncodeEntry (e : OutboxEntry) : bytes :=
  ByteWriter.U32 kOutboxMagic ++ ByteWriter.U32 kOutboxVersion ++ ByteWriter.U8 1
  ++ ByteWriter.Bytes (x_collection e) ++ ByteWriter.Bytes (x_key e) ++ ByteWriter.Bytes (x_key_hash e)
  ++ ByteWriter.Bytes (x_doc e) ++ ByteWriter.U64 (physical_ms (x_hlc e))
  ++ ByteWriter.U32 (logical (x_hlc e)) ++ ByteWriter.Bytes (node_id (x_hlc e))
  ++ ByteWriter.I64 (created_ms e).

Definition OutboxDropBody (collection key_hash : bytes) : bytes :=
  ByteWriter.U32 kOutboxMagic ++ ByteWriter.U32 kOutboxVersion ++ ByteWriter.U8 2
  ++ ByteWriter.Bytes collection ++ ByteWriter.Bytes key_hash.

(** [None] covers both answers the loader skips: Corruption and, for a drop
    record, NotFound. *)
Definition dec_entry : Reader OutboxEntry :=
  (magic <-r ByteReader.U32 ;;
   if negb (magic =? kOutboxMagic) then rfail
   else
     version <-r ByteReader.U32 ;;
     if negb (version =? kOutboxVersion) then rfail
     else
       kind <-r ByteReader.U8 ;;
       if kind =? 2 then rfail
       else if negb (kind =? 1) then rfail
       else
         coll <-r ByteReader.Bytes ;; key <-r ByteReader.Bytes ;; kh <-r ByteReader.Bytes ;;
         doc <-r ByteReader.Bytes ;; p <-r ByteReader.U64 ;; l <-r ByteReader.U32 ;;
         n <-r ByteReader.Bytes ;; created <-r ByteReader.I64 ;;
         rem <-r ByteReader.remaining ;;
         if negb (rem =? 0) then rfail
         else if bool_decide (coll = []) || negb (Zlen kh =? Z.of_nat kWalHashLen) then rfail
         else rret (mkEntry coll key kh doc (mkTs p l n) created))%reader.

Definition DecodeEntry (body : bytes) : option OutboxEntry :=
  match dec_entry body with Some (e, _) => Some e | None => None end.

Record OutboxStore := mkOutbox {
  ox_log : bytes;
  ox_open : bool;
  ox_entries : gmap bytes OutboxEntry;
  ox_subkey : bytes;
}.

Section Outbox.
Context `{C : Crypto}.

Definition apply_entry (m : gmap bytes OutboxEntry) (body : bytes) : gmap bytes OutboxEntry :=
  match DecodeEntry body with
  | None => m
  | Some e => <[OutboxKey (x_collection e) (x_key_hash e) := e]> m
  end.

(** Every way the loop stops is "stop loading"; [None]: an exception escapes. *)
Definition OutboxLoad (ox : OutboxStore) : option OutboxStore :=
  let '(m, e) := load_log apply_entry kOutboxRecordCap (ox_subkey ox) (bs "outbox") (ox_log ox) (ox_entries ox) in
  match e with
  | LThrow => None
  | _ => Some (mkOutbox (ox_log ox) (ox_open ox) m (ox_subkey ox))
  end.

Definition ox_append (env : bytes * append_result_io) (ox : OutboxStore) (body : bytes)
  : StatusOr unit * OutboxStore :=
  let '(r, log) := AppendRecord (ox_subkey ox) (bs "outbox") env.1 (ox_open ox) env.2 (ox_log ox) body in
  (r, mkOutbox log (ox_open ox) (ox_entries ox) (ox_subkey ox)).

Definition OutboxPut (env : bytes * append_result_io) (now : Z) (ox : OutboxStore) (e : OutboxEntry)
  : StatusOr unit * OutboxStore :=
  if bool_decide (x_collection e = []) then (Fault kInvalidArgument, ox)
  else if negb (Zlen (x_key_hash e) =? Z.of_nat kWalHashLen) then (Fault kInvalidArgument, ox)
  else if bool_decide (x_collection e = kOutboxCollection) then (Fault kInvalidArgument, ox)
  else
    let stored := mkEntry (x_collection e) (x_key e) (x_key_hash e) (x_doc e) (x_hlc e) now in
    match ox_append env ox (EncodeEntry stored) with
    | (Fault c, ox') => (Fault c, ox')
    | (OK _, ox') =>
        (OK tt, mkOutbox (ox_log ox') (ox_open ox')
                  (<[OutboxKey (x_collection e) (x_key_hash e) := stored]> (ox_entries ox')) (ox_subkey ox'))
    end.

Definition OutboxCompact (nonces : nat -> bytes) (io : rewrite_io) (ox : OutboxStore)
  : StatusOr unit * OutboxStore :=
  match io with
  | RwTmpFail => (Fault kIOError, ox)
  | _ =>
      match compact_frames (ox_subkey ox) (bs "outbox") nonces (EncodeEntry <$> (map_to_list (ox_entries ox)).*2) with
      | Fault c => (Fault c, ox)
      | OK log =>
          match io with
          | RwRenameFail => (Fault kIOError, mkOutbox [] false (ox_entries ox) (ox_subkey ox))
          | RwReopenFail => (Fault kIOError, mkOutbox log false (ox_entries ox) (ox_subkey ox))
          | _ => (OK tt, mkOutbox log true (ox_entries ox) (ox_subkey ox))
          end
      end
  end.

(** The drops of a drain: a failed append is only logged. *)
Fixpoint drain_drops (envs : nat -> bytes * append_result_io) (ox : OutboxStore) (es : list OutboxEntry)
  : OutboxStore :=
  match es with
  | [] => ox
  | e :: es' => drain_drops (fun i => envs (S i))
                  (ox_append (envs 0%nat) ox (OutboxDropBody (x_collection e) (x_key_hash e))).2 es'
  end.

Definition DrainAll (envs : nat -> bytes * append_result_io) (nonces : nat -> bytes) (io : rewrite_io)
    (ox : OutboxStore) : list OutboxEntry * OutboxStore :=
  let out := std_sort Z.ltb created_ms (map_to_list (ox_entries ox)).*2 in
  if bool_decide (out = []) then (out, ox)
  else
    let ox1 := drain_drops envs ox out in
    (out, (OutboxCompact nonces io (mkOutbox (ox_log ox1) (ox_open ox1) ∅ (ox_subkey ox1))).2).

Definition OutboxSize (ox : OutboxStore) : Z := Z.of_nat (size (ox_entries ox)).
Definition OutboxBytes (ox : OutboxStore) : Z :=
  u64 (foldr (fun e n => Zlen (x_doc e) + n) 0 (map_to_list (ox_entries ox)).*2).

Definition OutboxOpen (log local_node_id dek : bytes) : option (StatusOr OutboxStore) :=
  if bool_decide (local_node_id = []) then Some (Fault kInvalidArgument)
  else if negb (bool_decide (dek = [])) && negb (Zlen dek =? 32) then Some (Fault kInvalidArgument)
  else match DetectLogMode kOutboxRecordCap log (negb (bool_decide (dek = []))) with
  | Fault c => Some (Fault c)
  | OK _ =>
      match (if bool_decide (dek = []) then OK [] else FileSubkey dek (bs "outbox")) with
      | Fault c => Some (Fault c)
      | OK key =>
          match OutboxLoad (mkOutbox log true ∅ key) with
          | None => None
          | Some ox => Some (OK ox)
          end
      end
  end.

(** ** What is staged is replayed *)
Context `{!CryptoLaws C}.

Record entry_ok (e : OutboxEntry) : Prop := {
  xo_coll : x_collection e <> [] /\ x_collection e <> kOutboxCollection;
  xo_hash : length (x_key_hash e) = kWalHashLen;
  xo_hlc : fits 64 (physical_ms (x_hlc e)) /\ fits 32 (logical (x_hlc e));
  xo_created : sfits 64 (created_ms e);
  xo_cap : Zlen (EncodeEntry e) + 32 <= kOutboxRecordCap;
}.

Lemma DecodeEntry_ok e : entry_ok e -> DecodeEntry (EncodeEntry e) = Some e.
Proof.
  intros [[Hc _] Hh [Hp Hl] Ht Hcap].
  assert (blob_ok (x_collection e) /\ blob_ok (x_key e) /\ blob_ok (x_key_hash e) /\ blob_ok (x_doc e)
    /\ blob_ok (node_id (x_hlc e))) as (B1 & B2 & B3 & B4 & B5).
  { revert Hcap. unfold blob_ok, Zlen, kOutboxRecordCap, EncodeEntry. rewrite !length_app, !Bytes_length.
    intros H. split_and!; lia. }
  unfold DecodeEntry, dec_entry, EncodeEntry.
  do 3 (read_step ltac:(done); cbn [negb andb Z.eqb Pos.eqb kOutboxMagic kOutboxVersion]).
  do 7 (read_step ltac:(done)).
  unfold rbind at 1. rewrite (round_trip_end ByteWriter.I64 ByteReader.I64 (sfits 64)) by done. cbv beta iota.
  unfold rbind, ByteReader.remaining, rret. change (Zlen (@nil byte)) with 0. cbn [negb Z.eqb].
  rewrite bool_decide_eq_false_2 by done. unfold Zlen. rewrite Hh, Z.eqb_refl. by destruct e as [? ? ? ? [? ? ?] ?].
Qed.

Lemma entry_body_ok e : entry_ok e -> body_ok kOutboxRecordCap (EncodeEntry e).
Proof.
  intros He. split_and!; [| |apply (xo_cap _ He)|done].
  - unfold LooksSealedRecord. assert (take 4 (EncodeEntry e) = ByteWriter.U32 kOutboxMagic) as -> by done.
    apply andb_false_r.
  - unfold EncodeEntry, Zlen. rewrite length_app, U32_length. lia.
Qed.

Record outbox_inv (ox : OutboxStore) : Prop := {
  oi_open : ox_open ox = true;
  oi_key : ox_subkey ox = [] \/ Zlen (ox_subkey ox) = kDekLen;
  oi_rows : map_Forall (fun _ e => entry_ok e) (ox_entries ox);
  oi_log : exists bodies, rlog kOutboxRecordCap (ox_subkey ox) (bs "outbox") bodies (ox_log ox)
             /\ fold_left apply_entry bodies ∅ = ox_entries ox;
}.

Definition ox_env_good (env : bytes * append_result_io) : Prop :=
  length env.1 = kPageNonceLen /\ env.2 = LogOk.

Lemma OutboxPut_inv env now ox e :
  outbox_inv ox -> ox_env_good env ->
  entry_ok (mkEntry (x_collection e) (x_key e) (x_key_hash e) (x_doc e) (x_hlc e) now) ->
  exists ox', OutboxPut env now ox e = (OK tt, ox') /\ outbox_inv ox'
    /\ ox_entries ox' = <[OutboxKey (x_collection e) (x_key_hash e)
         := mkEntry (x_collection e) (x_key e) (x_key_hash e) (x_doc e) (x_hlc e) now]> (ox_entries ox)
    /\ ox_subkey ox' = ox_subkey ox.
Proof.
  intros [Ho Hk Hr (bodies & Hb & Hm)] [Hn Hio] He. set (stored := mkEntry _ _ _ _ _ now) in *.
  destruct (seal_log_ok (ox_subkey ox) (bs "outbox") env.1 (EncodeEntry stored) Hk Hn) as [p Hp].
  destruct (xo_coll _ He) as [Hc1 Hc2]. pose proof (xo_hash _ He) as Hh. cbn in Hc1, Hc2, Hh.
  eexists. split_and!.
  - unfold OutboxPut. rewrite !bool_decide_eq_false_2 by done. unfold Zlen. rewrite Hh, Z.eqb_refl.
    cbn [negb]. fold stored. unfold ox_append, AppendRecord. rewrite Hp, Ho, Hio. done.
  - split; [done|done|by apply map_Forall_insert_2|]. exists (bodies ++ [EncodeEntry stored]). split.
    + apply rlog_snoc; [done|by apply entry_body_ok|]. by exists env.1, p.
    + rewrite fold_left_app, Hm. cbn. unfold apply_entry at 1. by rewrite DecodeEntry_ok.
  - done.
  - done.
Qed.

Lemma OutboxLoad_inv ox :
  outbox_inv ox ->
  OutboxLoad (mkOutbox (ox_log ox) true ∅ (ox_subkey ox))
  = Some (mkOutbox (ox_log ox) true (ox_entries ox) (ox_subkey ox)).
Proof.
  intros [Ho Hk Hr (bodies & Hb & Hm)]. unfold OutboxLoad. cbn [ox_log ox_subkey ox_entries ox_open].
  destruct (load_log_ok apply_entry kOutboxRecordCap (ox_subkey ox) (bs "outbox") bodies (ox_log ox) [] ∅ Hb
    (log_tail_nil _)) as (e & He & Hc & Ht).
  rewrite app_nil_r in He. rewrite He, Hm. by destruct e.
Qed.

(** A sequence of staged writes, each with its environment and clock. *)
Definition staged : Type := (bytes * append_result_io) * Z * OutboxEntry.
Definition stage (ox : OutboxStore) (p : staged) : OutboxStore :=
  let '(env, now, e) := p in (OutboxPut env now ox e).2.
Definition staged_ok (p : staged) : Prop :=
  let '(env, now, e) := p in
  ox_env_good env /\ entry_ok (mkEntry (x_collection e) (x_key e) (x_key_hash e) (x_doc e) (x_hlc e) now).

Lemma stage_all_inv ox ps :
  outbox_inv ox -> Forall staged_ok ps ->
  outbox_inv (fold_left stage ps ox) /\ ox_subkey (fold_left stage ps ox) = ox_subkey ox.
Proof.
  intros Hox Hps. revert ox Hox. induction Hps as [|[[env now] e] ps [Hg He] _ IH]; intros ox Hox; [done|].
  cbn [fold_left]. change (stage ox (env, now, e)) with (OutboxPut env now ox e).2.
  destruct (OutboxPut_inv env now ox e Hox Hg He) as (ox' & -> & Hinv & _ & Hsub).
  cbn [snd]. destruct (IH ox' Hinv) as [H1 H2]. split; [done|]. by rewrite H2.
Qed.

(** Writes staged while isolated survive a restart: after any sequence of
    successful puts, loading the log reconstructs exactly the staged entries,
    the newest per collection and key. *)
Theorem outbox_survives_restart ox ps :
  outbox_inv ox -> Forall staged_ok ps ->
  let ox' := fold_left stage ps ox in
  OutboxLoad (mkOutbox (ox_log ox') true ∅ (ox_subkey ox))
  = Some (mkOutbox (ox_log ox') true (ox_entries ox') (ox_subkey ox)).
Proof.
  intros Hox Hps ox'. destruct (stage_all_inv ox ps Hox Hps) as [Hinv Hsub].
  fold ox' in Hinv, Hsub. rewrite <- Hsub. by apply OutboxLoad_inv.
Qed.

(** Oldest first: no entry is followed by one created before it. *)
Definition replay_order (es : list OutboxEntry) : Prop :=
  StronglySorted (fun a b => created_ms a <= created_ms b) es.

Lemma sort_insert_order e es : replay_order es -> replay_order (sort_insert Z.ltb created_ms e es).
Proof.
  induction 1 as [|x es Hs IH Hall]; cbn [sort_insert]; [by repeat constructor|].
  destruct (Z.ltb_spec (created_ms x) (created_ms e)).
  - constructor; [done|]. rewrite sort_insert_perm. constructor; [lia|done].
  - constructor; [by constructor|]. constructor; [done|]. eapply Forall_impl; [exact Hall|]. cbn. lia.
Qed.

Lemma std_sort_order es : replay_order (std_sort Z.ltb created_ms es).
Proof. induction es as [|e es IH]; cbn [std_sort]; [constructor|by apply sort_insert_order]. Qed.

Lemma drain_drops_config envs ox es :
  ox_open (drain_drops envs ox es) = ox_open ox /\ ox_subkey (drain_drops envs ox es) = ox_subkey ox.
Proof.
  revert envs ox. induction es as [|e es IH]; intros envs ox; [done|]. cbn [drain_drops].
  destruct (IH (fun i => envs (S i))
    (ox_append (envs 0%nat) ox (OutboxDropBody (x_collection e) (x_key_hash e))).2) as [-> ->].
  unfold ox_append. by destruct (AppendRecord _ _ _ _ _ _ _).
Qed.

(** A drain hands over every staged entry once, oldest first, and leaves an
    empty outbox: in memory, and in the log a restart would load. *)
Theorem outbox_drain_hands_over envs nonces ox :
  outbox_inv ox ->
  exists out ox', DrainAll envs nonces RwOk ox = (out, ox')
    /\ replay_order out /\ out ≡ₚ (map_to_list (ox_entries ox)).*2
    /\ ox_entries ox' = ∅
    /\ exists ox2, OutboxLoad (mkOutbox (ox_log ox') true ∅ (ox_subkey ox')) = Some ox2
         /\ ox_entries ox2 = ∅.
Proof.
  intros Hox. pose proof (std_sort_order (map_to_list (ox_entries ox)).*2) as Hord.
  pose proof (std_sort_perm Z.ltb created_ms (map_to_list (ox_entries ox)).*2) as Hperm.
  unfold DrainAll. set (out := std_sort Z.ltb created_ms _) in *. exists out.
  case_bool_decide as He.
  - exists ox. split; [done|]. split; [done|]. split; [done|].
    rewrite He in Hperm. symmetry in Hperm. apply Permutation_nil_r, fmap_nil_inv, map_to_list_empty_iff in Hperm.
    split; [done|]. eexists. split; [by apply OutboxLoad_inv|exact Hperm].
  - eexists. split; [done|]. split; [done|]. split; [done|]. unfold OutboxCompact.
    cbn [ox_entries ox_subkey ox_log]. rewrite map_to_list_empty.
    cbn. split; [done|]. by eexists.
Qed.

Lemma drop_entry_ok e : entry_ok e -> body_ok kOutboxRecordCap (OutboxDropBody (x_collection e) (x_key_hash e)).
Proof.
  intros He. split_and!; [| | |done].
  - unfold LooksSealedRecord.
    assert (take 4 (OutboxDropBody (x_collection e) (x_key_hash e)) = ByteWriter.U32 kOutboxMagic) as -> by done.
    apply andb_false_r.
  - unfold OutboxDropBody, Zlen. rewrite length_app, U32_length. lia.
  - pose proof (xo_cap _ He) as Hc. revert Hc. unfold EncodeEntry, OutboxDropBody, Zlen.
    rewrite !length_app, !Bytes_length, !U8_length, !U32_length. lia.
Qed.

Lemma apply_drop_skips m c h : apply_entry m (OutboxDropBody c h) = m.
Proof.
  unfold apply_entry, DecodeEntry, dec_entry, OutboxDropBody.
  do 3 (read_step ltac:(done); cbn [negb andb Z.eqb Pos.eqb kOutboxMagic kOutboxVersion]). done.
Qed.

Lemma drain_drops_log envs ox es bodies :
  ox_open ox = true -> (ox_subkey ox = [] \/ Zlen (ox_subkey ox) = kDekLen) ->
  (forall i, ox_env_good (envs i)) -> Forall entry_ok es ->
  rlog kOutboxRecordCap (ox_subkey ox) (bs "outbox") bodies (ox_log ox) ->
  exists drops, rlog kOutboxRecordCap (ox_subkey ox) (bs "outbox") (bodies ++ drops) (ox_log (drain_drops envs ox es))
    /\ forall m, fold_left apply_entry drops m = m.
Proof.
  intros Ho Hk Hg Hes. revert envs ox bodies Ho Hk Hg.
  induction Hes as [|e es He _ IH]; intros envs ox bodies Ho Hk Hg Hb.
  { exists []. rewrite app_nil_r. by split. }
  cbn [drain_drops]. destruct (Hg 0%nat) as [Hn Hio].
  destruct (seal_log_ok (ox_subkey ox) (bs "outbox") (envs 0%nat).1
    (OutboxDropBody (x_collection e) (x_key_hash e)) Hk Hn) as [p Hp].
  assert ((ox_append (envs 0%nat) ox (OutboxDropBody (x_collection e) (x_key_hash e))).2
    = mkOutbox (ox_log ox ++ log_frame p) true (ox_entries ox) (ox_subkey ox)) as ->
    by (unfold ox_append, AppendRecord; by rewrite Hp, Ho, Hio).
  destruct (IH (fun i => envs (S i)) (mkOutbox (ox_log ox ++ log_frame p) true (ox_entries ox) (ox_subkey ox))
    (bodies ++ [OutboxDropBody (x_collection e) (x_key_hash e)])) as (drops & Hr & Hskip).
  - done.
  - done.
  - intros i. apply Hg.
  - apply rlog_snoc; [done|by apply drop_entry_ok|]. by exists (envs 0%nat).1, p.
  - exists (OutboxDropBody (x_collection e) (x_key_hash e) :: drops). split.
    + by rewrite <- app_assoc in Hr.
    + intros m. cbn [fold_left]. by rewrite apply_drop_skips, Hskip.
Qed.

(** The drop records of a drain have no effect: the loader skips them, so
    when the compaction after a drain does not happen (the sibling file cannot
    be written, or the process dies first), a restart brings back every entry
    that was already handed over, although a drop record for each is on disk. *)
Theorem outbox_drop_records_ignored envs nonces ox :
  outbox_inv ox -> (forall i, ox_env_good (envs i)) ->
  exists out ox', DrainAll envs nonces RwTmpFail ox = (out, ox')
    /\ out ≡ₚ (map_to_list (ox_entries ox)).*2
    /\ exists ox2, OutboxLoad (mkOutbox (ox_log ox') true ∅ (ox_subkey ox)) = Some ox2
         /\ ox_entries ox2 = ox_entries ox.
Proof.
  intros Hox Hg. pose proof (std_sort_perm Z.ltb created_ms (map_to_list (ox_entries ox)).*2) as Hperm.
  unfold DrainAll. set (out := std_sort Z.ltb created_ms _) in *.
  case_bool_decide as He; eexists _, _; (split; [done|]); (split; [done|]).
  - eexists. split; [by apply OutboxLoad_inv|done].
  - cbn [OutboxCompact snd ox_log]. destruct Hox as [Ho Hk Hr (bodies & Hb & Hm)].
    destruct (drain_drops_log envs ox out bodies Ho Hk Hg) as (drops & Hlog & Hskip); [|done|].
    { rewrite Hperm. apply Forall_fmap, Forall_forall. intros [k e] Hin.
      apply elem_of_map_to_list in Hin. by apply (Hr k e). }
    unfold OutboxLoad. cbn [ox_log ox_subkey ox_entries ox_open].
    destruct (load_log_ok apply_entry kOutboxRecordCap (ox_subkey ox) (bs "outbox") _ _ [] ∅ Hlog
      (log_tail_nil _)) as (e & Hload & Hc & Ht).
    rewrite app_nil_r in Hload. rewrite Hload, fold_left_app, Hm, Hskip. destruct e; try done; by eexists.
Qed.
End Outbox.

(** ** Concrete runs *)
#[local] Existing Instance toy_crypto.

Definition empty_outbox : OutboxStore := mkOutbox [] true ∅ [].
Definition ox_demo_env : bytes * append_result_io := (replicate kPageNonceLen Byte.x07, LogOk).
Definition ox_demo_entry : OutboxEntry :=
  mkEntry (bs "c") (bs "k") (replicate kWalHashLen Byte.x02) (bs "doc") (mkTs 5 0 (bs "n")) 9.

Lemma empty_outbox_inv : outbox_inv empty_outbox.
Proof. split; [done|by left|apply map_Forall_empty|]. exists []. split; [constructor|done]. Qed.

Lemma ox_demo_env_good : ox_env_good ox_demo_env.
Proof. split; [apply length_replicate|done]. Qed.

Lemma ox_demo_staged : staged_ok (ox_demo_env, 9, ox_demo_entry).
Proof. split; [apply ox_demo_env_good|]. split; try done; by vm_compute. Qed.

Lemma outbox_survives_restart_witness :
  exists ox2, OutboxLoad (mkOutbox (ox_log (stage empty_outbox (ox_demo_env, 9, ox_demo_entry))) true ∅ []) = Some ox2
    /\ ox_entries ox2 = ox_entries (stage empty_outbox (ox_demo_env, 9, ox_demo_entry)).
Proof.
  eexists. split; [|].
  - apply (outbox_survives_restart empty_outbox [(ox_demo_env, 9, ox_demo_entry)] empty_outbox_inv).
    constructor; [apply ox_demo_staged|constructor].
  - done.
Defined.

Lemma outbox_drain_hands_over_witness :
  exists out ox', DrainAll (fun _ => ox_demo_env) (fun _ => ox_demo_env.1) RwOk empty_outbox = (out, ox')
    /\ replay_order out.
Proof.
  destruct (outbox_drain_hands_over (fun _ => ox_demo_env) (fun _ => ox_demo_env.1) empty_outbox empty_outbox_inv)
    as (out & ox' & H1 & H2 & _).
  by exists out, ox'.
Defined.

Definition staged_outbox : OutboxStore := fold_left stage [(ox_demo_env, 9, ox_demo_entry)] empty_outbox.

Lemma staged_outbox_inv : outbox_inv staged_outbox.
Proof. apply stage_all_inv; [apply empty_outbox_inv|]. constructor; [apply ox_demo_staged|constructor]. Qed.

Lemma outbox_drop_records_ignored_witness :
  exists out ox' ox2, DrainAll (fun _ => ox_demo_env) (fun _ => ox_demo_env.1) RwTmpFail staged_outbox = (out, ox')
    /\ OutboxLoad (mkOutbox (ox_log ox') true ∅ (ox_subkey staged_outbox)) = Some ox2
    /\ ox_entries ox2 = ox_entries staged_outbox.
Proof.
  destruct (outbox_drop_records_ignored (fun _ => ox_demo_env) (fun _ => ox_demo_env.1) staged_outbox
    staged_outbox_inv (fun _ => ox_demo_env_good)) as (out & ox' & H1 & _ & ox2 & H2 & H3).
  exists out, ox', ox2. split; [exact H1|]. split; [exact H2|exact H3].
Defined.
