(* ===== verification/Wal.v ===== *)
(** * The write-ahead log and hash-chained ledger: src/storage/wal.cpp

    Records and their canonical bytes, framing with length and CRC, [Append],
    [ReadAllLocked], [ReadRange], [VerifyChain], [Prune] and [Open] over a file
    that is a byte string.  Signer, nonces, the monotonic clock and the outcome
    of each write and sync are arguments: they are the environment's. *)
From coqutil Require Import Word.LittleEndianList.
From S2P Require Import Prelude Bytes Hlc AtRest RecordLog.
Local Open Scope Z_scope.

Inductive WalRecordType :=
  | kPut | kDelete | kCheckpoint | kTransitIntent | kTransitClaimed | kAbort | kAcl
  | kOtherType (code : Z).     (* a byte outside the enumeration *)

#[export] Instance WalRecordType_eq_dec : EqDecision WalRecordType.
Proof. solve_decision. Defined.

Definition type_code (t : WalRecordType) : Z :=
  match t with
  | kPut => 1 | kDelete => 2 | kCheckpoint => 3 | kTransitIntent => 4 | kTransitClaimed => 5
  | kAbort => 6 | kAcl => 7 | kOtherType c => c
  end.

Definition type_of_code (c : Z) : WalRecordType :=
  if c =? 1 then kPut else if c =? 2 then kDelete else if c =? 3 then kCheckpoint
  else if c =? 4 then kTransitIntent else if c =? 5 then kTransitClaimed
  else if c =? 6 then kAbort else if c =? 7 then kAcl else kOtherType c.

Record WalRecord := mkRec {
  r_lsn : Z;
  r_type : WalRecordType;
  r_collection : bytes;
  r_key : bytes;
  r_document : bytes;
  r_key_hash : bytes;
  r_hlc : HLCTimestamp;
  r_origin : bytes;
  r_signature : bytes;
  r_prev_hash : bytes;
  r_entry_hash : bytes;
  r_transit_holder : bytes;
  r_transit_size : Z;
  r_chunk_index : Z;
  r_chunk_total : Z;
  r_position_bound : bool;
}.

#[export] Instance WalRecord_eq_dec : EqDecision WalRecord.
Proof. solve_decision. Defined.

Definition IsTransit (r : WalRecord) : bool :=
  bool_decide (r_type r = kTransitIntent) || bool_decide (r_type r = kTransitClaimed).

Definition kInvalidLsn : Z := -1.
Definition kWalRecordMagicV2 : Z := 0x44535732.
Definition kWalRecordMagicV3 : Z := 0x44535733.
Definition kMaxRecordBytes : Z := 256 * 2 ^ 20.
Definition INT64_MAX : Z := 2 ^ 63 - 1.

Definition GenesisHash : bytes := replicate kWalHashLen Byte.x00.

(** What the environment decides during one [Append]. *)
Inductive append_io :=
  | IoOk                      (* written and synced *)
  | IoWriteFail (n : nat)     (* the stream fails after [n] bytes *)
  | IoFlushFail (n : nat)     (* buffered whole; the flush, whose outcome is not looked at, fails
                                 after [n] bytes, the rest is lost, and the sync succeeds *)
  | IoSyncFail.               (* written, but the sync reports an error *)

(** The best-effort high-water mark: written, left as it was, or lost between
    [remove] and [rename]. *)
Inductive hwm_io := HwmOk | HwmKept | HwmLost.

(** [file_] is the content behind the stream, which [is_open] guards. *)
Record WriteAheadLog := mkWal {
  file_ : bytes;
  is_open : bool;
  hwm_file : option (Z * bytes);
  next_lsn : Z;
  lsn_offsets : list Z;
  tip_hash : bytes;
  last_checkpoint_lsn : Z;
  last_read_corrupt : bool;
  origin_node_id : bytes;
  signer : option (bytes -> bytes);
  subkey : bytes;
  hwm_saved_lsn : Z;
  hwm_saved_ms : Z;
  migrated_from_v1 : bool;
}.

Record AppendOptions := mkOpts {
  o_hlc : HLCTimestamp;
  o_transit_holder : bytes;
  o_transit_size : Z;
  o_chunk_index : Z;
  o_chunk_total : Z;
}.

(** [transit_owner] is left out: [Append] only re-assigns the same fields for it. *)
Definition default_options : AppendOptions := mkOpts ts_default [] 0 0 1.

Section Wal.
Context `{C : Crypto}.

Definition LedgerKeyHash (collection key : bytes) : bytes :=
  Sha256 (collection ++ [Byte.x00] ++ key).

Definition TransitChunkKeyHash (doc_key_hash : bytes) (chunk_index : Z) : bytes :=
  Sha256 (doc_key_hash ++ [Byte.x00]
    ++ map (fun shift => byte.of_Z (Z.land (Z.shiftr chunk_index shift) 0xFF)) [24; 16; 8; 0]).

(** ** Canonical content *)
Definition BuildContentLegacy (r : WalRecord) : bytes :=
  ByteWriter.U32 kWalRecordMagicV2 ++ ByteWriter.U64 (r_lsn r) ++ ByteWriter.U8 (type_code (r_type r))
  ++ ByteWriter.Bytes (r_collection r) ++ ByteWriter.Bytes (r_key r) ++ ByteWriter.Bytes (r_document r)
  ++ ByteWriter.Bytes (r_key_hash r)
  ++ ByteWriter.U64 (physical_ms (r_hlc r)) ++ ByteWriter.U32 (logical (r_hlc r))
  ++ ByteWriter.Bytes (node_id (r_hlc r)) ++ ByteWriter.Bytes (r_origin r).

(** The magic is overwritten in place, then prev_hash is appended. *)
Definition BuildContent (r : WalRecord) : bytes :=
  ByteWriter.U32 kWalRecordMagicV3 ++ drop 4 (BuildContentLegacy r) ++ r_prev_hash r.

Definition EncodeBody (r : WalRecord) : bytes :=
  (if r_position_bound r then BuildContent r else BuildContentLegacy r)
  ++ ByteWriter.Bytes (r_signature r) ++ ByteWriter.RawBytes (r_prev_hash r)
  ++ ByteWriter.RawBytes (r_entry_hash r)
  ++ (if bool_decide (r_type r = kTransitIntent)
      then ByteWriter.Bytes (r_transit_holder r) ++ ByteWriter.U64 (r_transit_size r)
           ++ ByteWriter.U32 (r_chunk_index r) ++ ByteWriter.U32 (r_chunk_total r)
      else []).

(** [None]: a Status other than OK (every one of them is Corruption). *)
Definition dec_tail (t : WalRecordType) : Reader (bytes * Z * Z * Z) :=
  (rem <-r ByteReader.remaining ;;
   if rem <=? 0 then rret ([], 0, 0, 1)
   else if negb (bool_decide (t = kTransitIntent)) then rfail
   else holder <-r ByteReader.Bytes ;; size <-r ByteReader.U64 ;;
        idx <-r ByteReader.U32 ;; total <-r ByteReader.U32 ;;
        if total =? 0 then rfail
        else if total <=? idx then rfail
        else rret (holder, size, idx, total))%reader.

Definition dec_body : Reader WalRecord :=
  (magic <-r ByteReader.U32 ;;
   if negb (magic =? kWalRecordMagicV2) && negb (magic =? kWalRecordMagicV3) then rfail
   else
     let bound := magic =? kWalRecordMagicV3 in
     lsn <-r ByteReader.U64 ;; tc <-r ByteReader.U8 ;;
     coll <-r ByteReader.Bytes ;; key <-r ByteReader.Bytes ;; doc <-r ByteReader.Bytes ;;
     kh <-r ByteReader.Bytes ;;
     p <-r ByteReader.U64 ;; l <-r ByteReader.U32 ;; hn <-r ByteReader.Bytes ;;
     origin <-r ByteReader.Bytes ;;
     cprev <-r (if bound then ByteReader.RawBytes (Z.of_nat kWalHashLen) else rret []) ;;
     sig <-r ByteReader.Bytes ;;
     rem <-r ByteReader.remaining ;;
     if rem <? 2 * Z.of_nat kWalHashLen then rfail
     else
       prev <-r ByteReader.RawBytes (Z.of_nat kWalHashLen) ;;
       if bound && negb (bool_decide (prev = cprev)) then rfail
       else
         entry <-r ByteReader.RawBytes (Z.of_nat kWalHashLen) ;;
         tail <-r dec_tail (type_of_code tc) ;;
         let '(holder, size, idx, total) := tail in
         rret (mkRec (to_signed 64 lsn) (type_of_code tc) coll key doc kh (mkTs p l hn) origin sig
                 prev entry holder size idx total bound))%reader.

Definition DecodeBody (body : bytes) : option WalRecord :=
  match dec_body body with Some (r, _) => Some r | None => None end.

Definition kMinBodyLenV1 : Z := 8 + 1 + 4 + 4 + 4 + 32 + 32 + 4.

Definition DecodeBodyV1 (body : bytes) : option WalRecord :=
  if Zlen body <? kMinBodyLenV1 - 4 then None
  else match (lsn <-r ByteReader.U64 ;; tc <-r ByteReader.U8 ;;
              coll <-r ByteReader.Bytes ;; key <-r ByteReader.Bytes ;; doc <-r ByteReader.Bytes ;;
              prev <-r ByteReader.RawBytes (Z.of_nat kWalHashLen) ;;
              entry <-r ByteReader.RawBytes (Z.of_nat kWalHashLen) ;;
              rret (mkRec (to_signed 64 lsn) (type_of_code tc) coll key doc
                      (LedgerKeyHash coll key) ts_default [] [] prev entry [] 0 0 1 false))%reader body
       with Some (r, _) => Some r | None => None end.

(** ** Sealing and frames *)
Definition SealPayload (key nonce payload : bytes) : StatusOr bytes :=
  if bool_decide (key = []) then OK payload else SealRecord nonce key payload (bs "wal").

(** [None]: the exception [OpenRecord] can throw. *)
Definition UnsealPayload (key payload : bytes) : option (StatusOr bytes) :=
  let sealed := LooksSealedRecord payload in
  if sealed && bool_decide (key = []) then Some (Fault kCorruption)
  else if negb sealed && negb (bool_decide (key = [])) then Some (Fault kCorruption)
  else if negb sealed then Some (OK payload)
  else OpenRecord key payload (bs "wal").

Definition frame (payload : bytes) : bytes :=
  let body := payload ++ ByteWriter.U32 (Crc32 payload) in
  ByteWriter.U32 (Zlen body) ++ body.

Inductive frame_result :=
  | FEnd                                            (* fewer than four bytes left *)
  | FTorn                                           (* the body is cut short *)
  | FCorrupt                                        (* present but invalid *)
  | FThrow                                          (* an exception escapes *)
  | FRec (r : WalRecord) (v1 : bool) (rest : bytes).

Definition decode_payload (p : bytes) : option (WalRecord * bool) :=
  let magic := le_combine (take 4 p) in
  if (4 <=? Zlen p) && ((magic =? kWalRecordMagicV2) || (magic =? kWalRecordMagicV3))
  then match DecodeBody p with Some r => Some (r, false) | None => None end
  else match DecodeBodyV1 p with Some r => Some (r, true) | None => None end.

Definition read_frame (key s : bytes) : frame_result :=
  if Zlen s <? 4 then FEnd
  else
    let body_len := le_combine (take 4 s) in
    if (body_len <? 8) || (kMaxRecordBytes <? body_len) then FCorrupt
    else
      let rest := drop 4 s in
      if Zlen rest <? body_len then FTorn
      else
        let body := take (Z.to_nat body_len) rest in
        let payload := take (Z.to_nat (body_len - 4)) body in
        let stored_crc := le_combine (drop (Z.to_nat (body_len - 4)) body) in
        if negb (stored_crc =? Crc32 payload) then FCorrupt
        else match UnsealPayload key payload with
             | None => FThrow
             | Some (Fault _) => FCorrupt
             | Some (OK p) =>
                 match decode_payload p with
                 | Some (r, v1) => FRec r v1 (drop (Z.to_nat body_len) rest)
                 | None => FCorrupt
                 end
             end.

(** ** ReadAllLocked *)
Inductive read_end := EClean | ETorn | ECorrupt | EThrow.

#[export] Instance read_end_eq_dec : EqDecision read_end.
Proof. solve_decision. Defined.

Definition set_offset (offsets : list Z) (lsn off : Z) : list Z :=
  if 0 <=? lsn then
    let i := Z.to_nat lsn in
    <[i := off]> (if (length offsets <=? i)%nat then resize (S i) (-1) offsets else offsets)
  else offsets.

(** One frame per iteration; [fuel] bounds the iterations and every frame
    consumes at least twelve bytes. *)
Fixpoint read_loop (fuel : nat) (key s : bytes) (off expected : Z) (offsets : list Z)
  : list WalRecord * list Z * bool * read_end :=
  match fuel with
  | O => ([], offsets, false, EClean)
  | S f =>
      match read_frame key s with
      | FEnd => ([], offsets, false, EClean)
      | FTorn => ([], offsets, false, ETorn)
      | FCorrupt => ([], offsets, false, ECorrupt)
      | FThrow => ([], offsets, false, EThrow)
      | FRec r v1 rest =>
          if (0 <=? r_lsn r) && (r_lsn r <? expected) then ([], offsets, v1, ECorrupt)
          else
            let expected' := if expected <=? r_lsn r then r_lsn r + 1 else expected in
            let '(rs, offsets', v1', e) :=
              read_loop f key rest (off + (Zlen s - Zlen rest)) expected'
                (set_offset offsets (r_lsn r) off) in
            (r :: rs, offsets', v1 || v1', e)
      end
  end.

Definition read_all (key file : bytes) (offsets : list Z) : list WalRecord * list Z * bool * read_end :=
  read_loop (S (length file)) key file 0 0 offsets.

(** A closed stream reads no bytes. *)
Definition stream (w : WriteAheadLog) : bytes := if is_open w then file_ w else [].

(** The fields a replay writes: offset index, corruption flag, v1 flag. *)
Definition after_read (w : WriteAheadLog) (offsets : list Z) (corrupt v1 : bool) : WriteAheadLog :=
  mkWal (file_ w) (is_open w) (hwm_file w) (next_lsn w) offsets (tip_hash w) (last_checkpoint_lsn w)
    corrupt (origin_node_id w) (signer w) (subkey w) (hwm_saved_lsn w) (hwm_saved_ms w)
    (migrated_from_v1 w || v1).

(** [None]: an exception escapes. *)
Definition ReadAllLocked (w : WriteAheadLog) : option (list WalRecord * WriteAheadLog) :=
  let '(rs, offsets, v1, e) := read_all (subkey w) (stream w) (lsn_offsets w) in
  match e with
  | EThrow => None
  | _ => Some (rs, after_read w offsets (bool_decide (e = ECorrupt)) v1)
  end.

(** ** Append *)
Definition hwm_after (io : hwm_io) (old : option (Z * bytes)) (id : Z) (hash : bytes) :=
  match io with HwmOk => Some (id, take 32 hash) | HwmKept => old | HwmLost => None end.

(** [WriteHwmIfDueLocked]: the mark, and the position and time it was saved. *)
Definition WriteHwmIfDueLocked (now : Z) (io : hwm_io) (w : WriteAheadLog) (id : Z) (hash : bytes)
  : option (Z * bytes) * Z * Z :=
  if (id <? hwm_saved_lsn w + 64) && (now <? hwm_saved_ms w + 1000)
  then (hwm_file w, hwm_saved_lsn w, hwm_saved_ms w)
  else (hwm_after io (hwm_file w) id hash, id, now).

(** The record [Append] builds from the log's state and its arguments. *)
Definition new_record (w : WriteAheadLog) (t : WalRecordType) (collection key doc : bytes)
    (o : AppendOptions) : WalRecord :=
  let hlc := if bool_decide (node_id (o_hlc o) = [])
             then mkTs (physical_ms (o_hlc o)) (logical (o_hlc o)) (origin_node_id w) else o_hlc o in
  let intent := bool_decide (t = kTransitIntent) in
  let unhashed sig entry :=
    mkRec (next_lsn w) t collection key doc (LedgerKeyHash collection key) hlc (origin_node_id w)
      sig (tip_hash w) entry
      (if intent then o_transit_holder o else []) (if intent then o_transit_size o else 0)
      (if intent then o_chunk_index o else 0) (if intent then o_chunk_total o else 1) true in
  let content := BuildContent (unhashed [] []) in
  unhashed (match signer w with Some f => f content | None => [] end) (Sha256 content).

Definition with_file (w : WriteAheadLog) (file : bytes) : WriteAheadLog :=
  mkWal file (is_open w) (hwm_file w) (next_lsn w) (lsn_offsets w) (tip_hash w) (last_checkpoint_lsn w)
    (last_read_corrupt w) (origin_node_id w) (signer w) (subkey w) (hwm_saved_lsn w) (hwm_saved_ms w)
    (migrated_from_v1 w).

Definition commit_record (now : Z) (hio : hwm_io) (w : WriteAheadLog) (file : bytes) (rec : WalRecord)
  : WriteAheadLog :=
  let '(hwm, saved_lsn, saved_ms) := WriteHwmIfDueLocked now hio w (r_lsn rec) (r_entry_hash rec) in
  mkWal file (is_open w) hwm (next_lsn w + 1) (set_offset (lsn_offsets w) (r_lsn rec) (Zlen (file_ w)))
    (r_entry_hash rec)
    (if bool_decide (r_type rec = kCheckpoint) then r_lsn rec else last_checkpoint_lsn w)
    (last_read_corrupt w) (origin_node_id w) (signer w) (subkey w) saved_lsn saved_ms
    (migrated_from_v1 w).

(** What one [Append] takes from its environment: the seal's nonce, the
    monotonic clock, the outcome of the write and of the mark's update. *)
Record append_env := mkEnv { e_nonce : bytes; e_now : Z; e_io : append_io; e_hwm : hwm_io }.

Definition Append (env : append_env) (w : WriteAheadLog) (t : WalRecordType)
    (collection key doc : bytes) (o : AppendOptions) : StatusOr Z * WriteAheadLog :=
  if next_lsn w =? INT64_MAX then (Fault kOutOfSpace, w)
  else
    let rec := new_record w t collection key doc o in
    match SealPayload (subkey w) (e_nonce env) (EncodeBody rec) with
    | Fault c => (Fault c, w)
    | OK payload =>
        if negb (is_open w) then (Fault kIOError, w)
        else match e_io env with
             | IoWriteFail n => (Fault kIOError, with_file w (file_ w ++ take n (frame payload)))
             | IoFlushFail n => (OK (r_lsn rec),
                                 commit_record (e_now env) (e_hwm env) w (file_ w ++ take n (frame payload)) rec)
             | IoSyncFail => (Fault kIOError, with_file w (file_ w ++ frame payload))
             | IoOk => (OK (r_lsn rec),
                        commit_record (e_now env) (e_hwm env) w (file_ w ++ frame payload) rec)
             end
    end.

Definition SetOrigin (w : WriteAheadLog) (id : bytes) (s : option (bytes -> bytes)) : WriteAheadLog :=
  mkWal (file_ w) (is_open w) (hwm_file w) (next_lsn w) (lsn_offsets w) (tip_hash w)
    (last_checkpoint_lsn w) (last_read_corrupt w) id s (subkey w) (hwm_saved_lsn w) (hwm_saved_ms w)
    (migrated_from_v1 w).

Definition LastLsn (w : WriteAheadLog) : Z := next_lsn w - 1.
Definition Tip (w : WriteAheadLog) : Z * bytes := (next_lsn w - 1, tip_hash w).

(** ** ReadRange *)
Fixpoint range_loop (fuel : nat) (key s : bytes) (from to : Z) : option (list WalRecord) :=
  match fuel with
  | O => Some []
  | S f =>
      match read_frame key s with
      | FThrow => None
      | FRec r _ rest =>
          if to <? r_lsn r then Some []
          else match range_loop f key rest from to with
               | Some rs => Some (if from <=? r_lsn r then r :: rs else rs)
               | None => None
               end
      | _ => Some []
      end
  end.

(** The first indexed frame of an LSN in [from, from + n). *)
Fixpoint start_offset (n : nat) (offsets : list Z) (lsn : Z) : option Z :=
  match n with
  | O => None
  | S n' =>
      match offsets !! Z.to_nat lsn with
      | None => None
      | Some off => if 0 <=? off then Some off else start_offset n' offsets (lsn + 1)
      end
  end.

Definition ReadRange (w : WriteAheadLog) (from to : Z) : option (list WalRecord) :=
  if (to <? 0) || (next_lsn w <=? 0) then Some []
  else
    let from := if from <? 0 then 0 else from in
    if to <? from then Some []
    else
      let start := match start_offset (Z.to_nat (Z.min (to - from + 1) (Zlen (lsn_offsets w))))
                           (lsn_offsets w) from with
                   | Some off => off | None => 0 end in
      range_loop (S (length (stream w))) (subkey w) (drop (Z.to_nat start) (stream w)) from to.

(** ** VerifyChain *)
Record VerifyResult := mkVerify {
  v_ok : bool;
  entries_checked : Z;
  signed_entries : Z;
  unsigned_entries : Z;
  failed_at_entry_id : Z;
}.

Definition SignatureVerifier : Type := bytes -> bytes -> bytes -> bool.

Definition bound_ok (r : WalRecord) : bool := bool_decide (Sha256 (BuildContent r) = r_entry_hash r).
Definition legacy_ok (r : WalRecord) : bool :=
  negb (bound_ok r) && bool_decide (Sha256 (BuildContentLegacy r ++ r_prev_hash r) = r_entry_hash r).

Definition sig_ok (verify : SignatureVerifier) (r : WalRecord) : bool :=
  verify (r_origin r) (BuildContent r) (r_signature r)
  || (negb (bound_ok r) && verify (r_origin r) (BuildContentLegacy r) (r_signature r)).

Definition is_unsigned (r : WalRecord) : bool :=
  bool_decide (r_signature r = []) || bool_decide (r_origin r = []).

Fixpoint verify_loop (verify : option SignatureVerifier) (expected_prev : bytes)
    (rs : list WalRecord) (checked signed unsigned : Z) : VerifyResult :=
  match rs with
  | [] => mkVerify true checked signed unsigned kInvalidLsn
  | r :: rs' =>
      if negb (bool_decide (r_prev_hash r = expected_prev))
      then mkVerify false checked signed unsigned (r_lsn r)
      else if negb (bound_ok r) && negb (legacy_ok r)
      then mkVerify false checked signed unsigned (r_lsn r)
      else if is_unsigned r
      then verify_loop verify (r_entry_hash r) rs' (checked + 1) signed (unsigned + 1)
      else if match verify with Some v => negb (sig_ok v r) | None => false end
      then mkVerify false checked (signed + 1) unsigned (r_lsn r)
      else verify_loop verify (r_entry_hash r) rs' (checked + 1) (signed + 1) unsigned
  end.

Definition last_lsn (rs : list WalRecord) : Z :=
  match last rs with Some r => r_lsn r | None => kInvalidLsn end.
Definition last_hash (rs : list WalRecord) : bytes :=
  match last rs with Some r => r_entry_hash r | None => GenesisHash end.

Definition VerifyChain (verify : option SignatureVerifier) (w : WriteAheadLog)
  : option (VerifyResult * WriteAheadLog) :=
  match ReadAllLocked w with
  | None => None
  | Some (rs, w') =>
      Some (if last_read_corrupt w'
            then mkVerify false (Zlen rs) 0 0 (last_lsn rs + 1)
            else verify_loop verify GenesisHash rs 0 0 0, w')
  end.

(** ** RewriteLocked and Prune *)
(** The frames of the rewritten file; each seal draws its own nonce. *)
Fixpoint rewrite_frames (nonces : nat -> bytes) (key : bytes) (rs : list WalRecord) : StatusOr bytes :=
  match rs with
  | [] => OK []
  | r :: rs' =>
      (payload <-? SealPayload key (nonces 0%nat) (EncodeBody r) ;;
       rest <-? rewrite_frames (fun i => nonces (S i)) key rs' ;;
       OK (frame payload ++ rest))%status
  end.

Definition with_stream (w : WriteAheadLog) (file : bytes) (open : bool) (offsets : list Z)
  : WriteAheadLog :=
  mkWal file open (hwm_file w) (next_lsn w) offsets (tip_hash w) (last_checkpoint_lsn w)
    (last_read_corrupt w) (origin_node_id w) (signer w) (subkey w) (hwm_saved_lsn w) (hwm_saved_ms w)
    (migrated_from_v1 w).

Definition RewriteLocked (nonces : nat -> bytes) (io : rewrite_io) (w : WriteAheadLog)
    (rs : list WalRecord) : option (StatusOr unit * WriteAheadLog) :=
  match io with
  | RwTmpFail => Some (Fault kIOError, w)
  | _ =>
      match rewrite_frames nonces (subkey w) rs with
      | Fault c => Some (Fault c, w)
      | OK file =>
          match io with
          | RwRenameFail => Some (Fault kIOError, with_stream w [] false (lsn_offsets w))
          | RwReopenFail => Some (Fault kIOError, with_stream w file false (lsn_offsets w))
          | _ => match ReadAllLocked (with_stream w file true []) with
                 | None => None
                 | Some (_, w') => Some (OK tt, w')
                 end
          end
      end
  end.

(** Keys claimed at or below the checkpoint; the scan stops at the first
    record above it. *)
Fixpoint claimed_below (ckpt : Z) (rs : list WalRecord) : list bytes :=
  match rs with
  | [] => []
  | r :: rs' =>
      if ckpt <? r_lsn r then []
      else if bool_decide (r_type r = kTransitClaimed) then r_key_hash r :: claimed_below ckpt rs'
      else claimed_below ckpt rs'
  end.

Definition droppable (ckpt : Z) (claimed : list bytes) (r : WalRecord) : bool :=
  (r_lsn r <=? ckpt) && IsTransit r && bool_decide (r_key_hash r ∈ claimed).

Definition set_links (r : WalRecord) (sig prev entry : bytes) (bound : bool) : WalRecord :=
  mkRec (r_lsn r) (r_type r) (r_collection r) (r_key r) (r_document r) (r_key_hash r) (r_hlc r)
    (r_origin r) sig prev entry (r_transit_holder r) (r_transit_size r) (r_chunk_index r)
    (r_chunk_total r) bound.

(** One survivor, linked after [prev]: hash over its own layout, signature cleared. *)
Definition relink (prev : bytes) (r : WalRecord) : WalRecord :=
  let entry := if r_position_bound r
               then Sha256 (BuildContent (set_links r (r_signature r) prev (r_entry_hash r) true))
               else Sha256 (BuildContentLegacy r ++ prev) in
  set_links r [] prev entry (r_position_bound r).

Fixpoint rechain (prev : bytes) (rs : list WalRecord) : list WalRecord :=
  match rs with
  | [] => []
  | r :: rs' => let r' := relink prev r in r' :: rechain (r_entry_hash r') rs'
  end.

Definition last_checkpoint (rs : list WalRecord) : Z :=
  fold_left (fun acc r => if bool_decide (r_type r = kCheckpoint) then r_lsn r else acc) rs kInvalidLsn.

Record PruneResult := mkPrune {
  dropped : Z;
  pruned_through : Z;
  previous_tip_hash : bytes;
  new_tip_hash : bytes;
}.

Definition Prune (nonces : nat -> bytes) (io : rewrite_io) (hio : hwm_io) (w : WriteAheadLog)
    (checkpoint_lsn : Z) : option (StatusOr PruneResult * WriteAheadLog) :=
  match ReadAllLocked w with
  | None => None
  | Some (rs, w1) =>
      let claimed := claimed_below checkpoint_lsn rs in
      let kept := filter (fun r => droppable checkpoint_lsn claimed r = false) rs in
      let n := Zlen rs - Zlen kept in
      if n =? 0
      then Some (OK (mkPrune 0 checkpoint_lsn (tip_hash w) (tip_hash w)), w1)
      else
        let kept := rechain GenesisHash kept in
        match RewriteLocked nonces io w1 kept with
        | None => None
        | Some (Fault c, w2) => Some (Fault c, w2)
        | Some (OK _, w2) =>
            let tip := last_hash kept in
            let next := if bool_decide (kept = []) then 0 else last_lsn kept + 1 in
            Some (OK (mkPrune n checkpoint_lsn (tip_hash w) tip),
                  mkWal (file_ w2) (is_open w2) (hwm_after hio (hwm_file w2) (next - 1) tip) next
                    (lsn_offsets w2) tip (last_checkpoint kept) (last_read_corrupt w2)
                    (origin_node_id w2) (signer w2) (subkey w2) (hwm_saved_lsn w2) (hwm_saved_ms w2)
                    (migrated_from_v1 w2))
        end
  end.

(** ** Open *)
Definition DetectMode (file : bytes) (have_key : bool) : StatusOr bool :=
  if Zlen file <? 4 then OK false
  else
    let body_len := le_combine (take 4 file) in
    if (body_len <? 8) || (kMaxRecordBytes <? body_len) then Fault kCorruption
    else
      let n := Z.min body_len 64 in
      if Zlen (drop 4 file) <? n then OK false
      else
        let head := take (Z.to_nat n) (drop 4 file) in
        let sealed := (8 <=? Zlen head) && LooksSealedRecord head in
        if sealed && negb have_key then Fault kCorruption
        else if negb sealed && have_key then Fault kCorruption
        else OK sealed.

(** One record of a v1 log under the legacy layout. *)
Definition upgrade (prev : bytes) (r : WalRecord) : WalRecord :=
  set_links r (r_signature r) prev (Sha256 (BuildContentLegacy r ++ prev)) false.

Fixpoint upgrade_all (prev : bytes) (rs : list WalRecord) : list WalRecord :=
  match rs with
  | [] => []
  | r :: rs' => let r' := upgrade prev r in r' :: upgrade_all (r_entry_hash r') rs'
  end.

(** Below the recorded mark, or level with it and different. *)
Definition below_mark (hwm : option (Z * bytes)) (rs : list WalRecord) : bool :=
  match hwm with
  | None => false
  | Some (id, hash) => (last_lsn rs <? id) || ((last_lsn rs =? id) && negb (bool_decide (last_hash rs = hash)))
  end.

Definition set_tip (w : WriteAheadLog) (hwm : option (Z * bytes)) (next : Z) (tip : bytes) (ckpt : Z)
  : WriteAheadLog :=
  mkWal (file_ w) (is_open w) hwm next (lsn_offsets w) tip ckpt (last_read_corrupt w)
    (origin_node_id w) (signer w) (subkey w) (hwm_saved_lsn w) (hwm_saved_ms w) (migrated_from_v1 w).

(** [file]/[hwm]: what the disk holds ([hwm] is [None] for a mark file that is
    absent or not 40 bytes).  [None]: an exception escapes. *)
Definition Open (nonces : nat -> bytes) (io : rewrite_io) (hio : hwm_io) (file : bytes)
    (hwm : option (Z * bytes)) (dek : bytes) : option (StatusOr WriteAheadLog) :=
  match DetectMode file (negb (bool_decide (dek = []))) with
  | Fault c => Some (Fault c)
  | OK _ =>
    if negb (bool_decide (dek = [])) && negb (Zlen dek =? 32) then Some (Fault kInvalidArgument)
    else match (if bool_decide (dek = []) then OK [] else FileSubkey dek (bs "wal")) with
    | Fault c => Some (Fault c)
    | OK key =>
      let w0 := mkWal file true hwm 0 [] GenesisHash kInvalidLsn false [] None key (-1) 0 false in
      match ReadAllLocked w0 with
      | None => None
      | Some (rs, w1) =>
        if negb (bool_decide (dek = [])) && bool_decide (rs = []) && last_read_corrupt w1
        then Some (Fault kCorruption)
        else
          let w2 := if bool_decide (rs = []) then w1
                    else set_tip w1 hwm (last_lsn rs + 1) (last_hash rs) (last_checkpoint rs) in
          if below_mark hwm rs then Some (Fault kCorruption)
          else match VerifyChain None w2 with
          | None => None
          | Some (vr, w3) =>
            if negb (v_ok vr) then Some (Fault kCorruption)
            else if negb (migrated_from_v1 w3) then Some (OK w3)
            else
              let upgraded := upgrade_all GenesisHash rs in
              match RewriteLocked nonces io w3 upgraded with
              | None => None
              | Some (Fault c, _) => Some (Fault c)
              | Some (OK _, w4) =>
                  Some (OK (set_tip w4 (hwm_after hio (hwm_file w4) (next_lsn w4 - 1) (last_hash upgraded))
                              (next_lsn w4) (last_hash upgraded) (last_checkpoint_lsn w4)))
              end
          end
      end
    end
  end.
End Wal.
