(* ===== verification/WalCodec.v ===== *)
(** * Ledger records on disk: round trips of src/storage/wal.cpp

    The encoder and decoder of a record body, the sealed and plain frame around
    it, and what a replay makes of a sequence of frames that ends cleanly, in a
    torn frame, or in garbage. *)
From coqutil Require Import Word.LittleEndianList.
From S2P Require Import Prelude Bytes Hlc AtRest RecordLog Wal.
Local Open Scope Z_scope.

(** A reader makes its writer prefix-injective. *)
Lemma round_trip_inj {A} (enc : A -> bytes) (dec : Reader A) wf `{!RoundTrip enc dec wf} a b r1 r2 :
  wf a -> wf b -> enc a ++ r1 = enc b ++ r2 -> a = b /\ r1 = r2.
Proof.
  intros Ha Hb H. pose proof (round_trip a r1 Ha) as H1. rewrite H, round_trip in H1 by done.
  by injection H1.
Qed.

Lemma RawBytes_exact (s rest : bytes) (n : nat) :
  length s = n -> ByteReader.RawBytes (Z.of_nat n) (s ++ rest) = Some (s, rest).
Proof. intros <-. by apply RawBytes_app. Qed.

Section WalCodec.
Context `{C : Crypto}.

(** What the C++ types and [Append] guarantee of a record: field widths, hash
    lengths, transit metadata only on intents. *)
Record rec_ok (r : WalRecord) : Prop := {
  ok_lsn : 0 <= r_lsn r < 2 ^ 63;
  ok_type : fits 8 (type_code (r_type r)) /\ type_of_code (type_code (r_type r)) = r_type r;
  ok_collection : blob_ok (r_collection r);
  ok_key : blob_ok (r_key r);
  ok_document : blob_ok (r_document r);
  ok_key_hash : blob_ok (r_key_hash r);
  ok_hlc : fits 64 (physical_ms (r_hlc r)) /\ fits 32 (logical (r_hlc r));
  ok_hlc_node : blob_ok (node_id (r_hlc r));
  ok_origin : blob_ok (r_origin r);
  ok_signature : blob_ok (r_signature r);
  ok_prev : length (r_prev_hash r) = kWalHashLen;
  ok_entry : length (r_entry_hash r) = kWalHashLen;
  ok_transit :
    if bool_decide (r_type r = kTransitIntent)
    then blob_ok (r_transit_holder r) /\ fits 64 (r_transit_size r)
         /\ fits 32 (r_chunk_total r) /\ 0 <= r_chunk_index r < r_chunk_total r
    else (r_transit_holder r, r_transit_size r, r_chunk_index r, r_chunk_total r) = ([], 0, 0, 1);
  ok_size : Zlen (EncodeBody r) + 36 <= kMaxRecordBytes;
}.

Definition magic_of (r : WalRecord) : Z :=
  if r_position_bound r then kWalRecordMagicV3 else kWalRecordMagicV2.

(** The body after its magic number, one field per writer call. *)
Definition body_fields (r : WalRecord) : bytes :=
  ByteWriter.U64 (r_lsn r) ++ ByteWriter.U8 (type_code (r_type r))
  ++ ByteWriter.Bytes (r_collection r) ++ ByteWriter.Bytes (r_key r) ++ ByteWriter.Bytes (r_document r)
  ++ ByteWriter.Bytes (r_key_hash r)
  ++ ByteWriter.U64 (physical_ms (r_hlc r)) ++ ByteWriter.U32 (logical (r_hlc r))
  ++ ByteWriter.Bytes (node_id (r_hlc r)) ++ ByteWriter.Bytes (r_origin r).

Lemma BuildContentLegacy_fields r :
  BuildContentLegacy r = ByteWriter.U32 kWalRecordMagicV2 ++ body_fields r.
Proof. done. Qed.

Lemma BuildContent_fields r :
  BuildContent r = ByteWriter.U32 kWalRecordMagicV3 ++ body_fields r ++ r_prev_hash r.
Proof.
  unfold BuildContent. rewrite BuildContentLegacy_fields.
  by rewrite (drop_app_length' (ByteWriter.U32 _)) by (by rewrite U32_length).
Qed.

Definition body_tail (r : WalRecord) : bytes :=
  if bool_decide (r_type r = kTransitIntent)
  then ByteWriter.Bytes (r_transit_holder r) ++ ByteWriter.U64 (r_transit_size r)
       ++ ByteWriter.U32 (r_chunk_index r) ++ ByteWriter.U32 (r_chunk_total r)
  else [].

Lemma EncodeBody_fields r :
  EncodeBody r = ByteWriter.U32 (magic_of r) ++ body_fields r
    ++ (if r_position_bound r then r_prev_hash r else [])
    ++ ByteWriter.Bytes (r_signature r) ++ r_prev_hash r ++ r_entry_hash r ++ body_tail r.
Proof.
  unfold EncodeBody, magic_of, ByteWriter.RawBytes, body_tail.
  destruct (r_position_bound r).
  - rewrite BuildContent_fields. by rewrite <- !app_assoc.
  - rewrite BuildContentLegacy_fields. by rewrite <- !app_assoc.
Qed.

Lemma dec_tail_ok r :
  rec_ok r ->
  dec_tail (r_type r) (body_tail r)
  = Some ((r_transit_holder r, r_transit_size r, r_chunk_index r, r_chunk_total r), []).
Proof.
  intros H. pose proof (ok_transit _ H) as Ht. unfold dec_tail, body_tail.
  destruct (bool_decide (r_type r = kTransitIntent)); [|by rewrite Ht].
  destruct Ht as (Hh & Hs & Hn & Hi). cbn [negb]. unfold ByteReader.remaining, rbind at 1.
  cbv beta iota. destruct (Z.leb_spec (Zlen (ByteWriter.Bytes (r_transit_holder r) ++
    ByteWriter.U64 (r_transit_size r) ++ ByteWriter.U32 (r_chunk_index r) ++
    ByteWriter.U32 (r_chunk_total r))) 0) as [Hz|_].
  { unfold Zlen in Hz. rewrite !length_app, Bytes_length in Hz. lia. }
  read_step ltac:(done). read_step ltac:(done).
  read_step ltac:(unfold fits in *; lia). read_end ltac:(done).
  destruct (Z.eqb_spec (r_chunk_total r) 0); [lia|].
  by destruct (Z.leb_spec (r_chunk_total r) (r_chunk_index r)); [lia|].
Qed.

Lemma magic_of_cases r :
  negb (magic_of r =? kWalRecordMagicV2) && negb (magic_of r =? kWalRecordMagicV3) = false
  /\ (magic_of r =? kWalRecordMagicV3) = r_position_bound r.
Proof. unfold magic_of. by destruct (r_position_bound r). Qed.

Lemma magic_of_fits r : fits 32 (magic_of r).
Proof. unfold magic_of. destruct (r_position_bound r); done. Qed.

Lemma DecodeBody_EncodeBody r : rec_ok r -> DecodeBody (EncodeBody r) = Some r.
Proof.
  intros H. unfold DecodeBody, dec_body. rewrite EncodeBody_fields.
  read_step ltac:(apply magic_of_fits). destruct (magic_of_cases r) as [-> ->].
  pose proof (dec_tail_ok r H) as Htail.
  unfold body_fields. destruct H as [Hl [Ht1 Ht2] Hc Hk Hd Hh [Hp Hg] Hn Ho Hs Hpv He _ _].
  read_step ltac:(unfold fits; lia).
  do 5 (read_step ltac:(done)). do 2 (read_step ltac:(done)). do 2 (read_step ltac:(done)).
  assert (to_signed 64 (r_lsn r) = r_lsn r) as Hsg.
  { unfold to_signed. destruct (Z.ltb_spec (r_lsn r) (2 ^ (64 - 1))); lia. }
  assert (forall cprev, (if r_position_bound r then ByteReader.RawBytes (Z.of_nat kWalHashLen) else rret [])
            ((if r_position_bound r then r_prev_hash r else []) ++ cprev)
          = Some (if r_position_bound r then r_prev_hash r else [], cprev)) as Hcp.
  { intros cprev. destruct (r_position_bound r); [by apply RawBytes_exact|done]. }
  unfold rbind at 1. rewrite Hcp. cbv beta iota. clear Hcp.
  read_step ltac:(done).
  unfold rbind at 1, ByteReader.remaining at 1. cbv beta iota.
  destruct (Z.ltb_spec (Zlen (r_prev_hash r ++ r_entry_hash r ++ body_tail r))
              (2 * Z.of_nat kWalHashLen)) as [Hz|_].
  { unfold Zlen in Hz. rewrite !length_app in Hz. lia. }
  unfold rbind at 1. rewrite RawBytes_exact by done. cbv beta iota.
  replace (r_position_bound r && negb (bool_decide (r_prev_hash r =
    (if r_position_bound r then r_prev_hash r else [])))) with false.
  2:{ destruct (r_position_bound r); [|done]. by rewrite bool_decide_eq_true_2. }
  unfold rbind at 1. rewrite RawBytes_exact by done. cbv beta iota.
  unfold rbind at 1. rewrite Ht2, Htail. cbv beta iota.
  unfold rret. rewrite Hsg. by destruct r as [? ? ? ? ? ? [? ? ?] ? ? ? ? ? ? ? ? ?].
Qed.

(** ** Frames *)
Context `{!CryptoLaws C}.

Definition key_ok (key : bytes) : Prop := key = [] \/ Zlen key = kDekLen.
Definition nonce_ok (nonce : bytes) : Prop := length nonce = kPageNonceLen.

(** [s] is a frame that holds [r], sealed under [key] when there is one. *)
Definition is_frame (key : bytes) (r : WalRecord) (s : bytes) : Prop :=
  exists nonce payload, nonce_ok nonce
    /\ SealPayload key nonce (EncodeBody r) = OK payload /\ s = frame payload.

Lemma EncodeBody_length r :
  rec_ok r -> 8 <= Zlen (EncodeBody r).
Proof.
  intros H. rewrite EncodeBody_fields. unfold Zlen.
  rewrite !length_app, U32_length, (ok_prev _ H), (ok_entry _ H). unfold kWalHashLen. lia.
Qed.

Lemma EncodeBody_magic r :
  take 4 (EncodeBody r) = ByteWriter.U32 (magic_of r).
Proof. rewrite EncodeBody_fields. apply take_app_length'. by rewrite U32_length. Qed.

Lemma magic_bytes r : le_combine (ByteWriter.U32 (magic_of r)) = magic_of r.
Proof. unfold magic_of. by destruct (r_position_bound r). Qed.

Lemma EncodeBody_not_sealed r : LooksSealedRecord (EncodeBody r) = false.
Proof.
  unfold LooksSealedRecord. rewrite EncodeBody_magic.
  apply andb_false_iff. right. apply bool_decide_eq_false_2.
  unfold magic_of. by destruct (r_position_bound r); vm_compute.
Qed.

Lemma decode_payload_EncodeBody r : rec_ok r -> decode_payload (EncodeBody r) = Some (r, false).
Proof.
  intros H. unfold decode_payload.
  rewrite EncodeBody_magic, magic_bytes.
  pose proof (EncodeBody_length r H). destruct (Z.leb_spec 4 (Zlen (EncodeBody r))); [|lia].
  rewrite (DecodeBody_EncodeBody r H). unfold magic_of. by destruct (r_position_bound r).
Qed.

Lemma SealPayload_ok key nonce p :
  key_ok key -> nonce_ok nonce -> exists payload, SealPayload key nonce p = OK payload.
Proof.
  intros [->|Hk] Hn; [by exists p|]. unfold SealPayload.
  case_bool_decide; [by exists p|]. unfold SealRecord. rewrite Hk, Z.eqb_refl. cbn [negb].
  destruct (gcm_seal_ok key nonce p (bs "wal") Hk Hn) as [c ->]. by eexists.
Qed.

Lemma SealPayload_Zlen key nonce p payload :
  nonce_ok nonce -> SealPayload key nonce p = OK payload ->
  Zlen payload = Zlen p + (if bool_decide (key = []) then 0 else 32).
Proof.
  intros Hn. unfold SealPayload. case_bool_decide; [intros [= <-]; lia|].
  unfold SealRecord. destruct (negb _); [done|].
  destruct (AesGcmSeal key nonce p (bs "wal")) as [c|] eqn:E; [|done].
  cbn [sbind]. intros Hs.
  assert (payload = kSealedRecordMagic ++ nonce ++ c) as -> by (by injection Hs).
  apply gcm_seal_length in E. rewrite !Zlen_app. unfold Zlen. rewrite Hn, E.
  unfold kPageTagLen, kPageNonceLen. change (length kSealedRecordMagic) with 4%nat. lia.
Qed.

Lemma SealPayload_length key nonce p payload :
  nonce_ok nonce -> SealPayload key nonce p = OK payload ->
  Zlen p <= Zlen payload <= Zlen p + 32.
Proof. intros Hn Hs. rewrite (SealPayload_Zlen _ _ _ _ Hn Hs). case_bool_decide; lia. Qed.

Lemma UnsealPayload_SealPayload key nonce r payload :
  nonce_ok nonce -> SealPayload key nonce (EncodeBody r) = OK payload ->
  UnsealPayload key payload = Some (OK (EncodeBody r)).
Proof.
  intros Hn. unfold SealPayload, UnsealPayload. case_bool_decide as Hk.
  - intros [= <-]. by rewrite EncodeBody_not_sealed.
  - intros Hs. pose proof (OpenRecord_SealRecord _ _ _ _ _ Hn Hs) as Ho.
    assert (LooksSealedRecord payload = true) as ->; [|done].
    revert Ho. unfold OpenRecord. by destruct (LooksSealedRecord payload).
Qed.

Lemma frame_length payload : Zlen (frame payload) = Zlen payload + 8.
Proof. unfold frame, Zlen. rewrite !length_app, !U32_length. lia. Qed.


(** A frame in front of anything is read back as its record. *)
Lemma read_frame_ok key r s rest :
  rec_ok r -> is_frame key r s -> read_frame key (s ++ rest) = FRec r false rest.
Proof.
  intros Hr (nonce & payload & Hn & Hs & ->).
  pose proof (SealPayload_length _ _ _ _ Hn Hs). pose proof (EncodeBody_length r Hr).
  pose proof (ok_size _ Hr) as Hmax. unfold kMaxRecordBytes in *.
  assert (Zlen (payload ++ ByteWriter.U32 (Crc32 payload)) = Zlen payload + 4) as Hb.
  { rewrite Zlen_app. unfold Zlen at 2. by rewrite U32_length. }
  unfold read_frame, frame. rewrite <- app_assoc.
  set (body := payload ++ ByteWriter.U32 (Crc32 payload)) in *.
  rewrite (take_app_length' (ByteWriter.U32 (Zlen body))) by (by rewrite U32_length).
  rewrite (drop_app_length' (ByteWriter.U32 (Zlen body))) by (by rewrite U32_length).
  rewrite le_combine_U32 by (unfold fits; lia). rewrite !Zlen_app.
  destruct (Z.ltb_spec (Zlen (ByteWriter.U32 (Zlen body)) + (Zlen body + Zlen rest)) 4) as [Hlt|_].
  { unfold Zlen at 1 in Hlt. rewrite U32_length in Hlt. pose proof (Zlen_nonneg rest). lia. }
  destruct (Z.ltb_spec (Zlen body) 8); [lia|]. unfold kMaxRecordBytes.
  destruct (Z.ltb_spec (256 * 2 ^ 20) (Zlen body)); [lia|]. cbn [orb].
  destruct (Z.ltb_spec (Zlen body + Zlen rest) (Zlen body)); [pose proof (Zlen_nonneg rest); lia|].
  rewrite (take_app_length' body), (drop_app_length' body) by (unfold Zlen; lia).
  assert (Z.to_nat (Zlen body - 4) = length payload) as -> by (rewrite Hb; unfold Zlen; lia).
  assert (take (length payload) body = payload) as -> by apply take_app_length.
  assert (drop (length payload) body = ByteWriter.U32 (Crc32 payload)) as -> by apply drop_app_length.
  rewrite le_combine_U32 by apply Crc32_fits. rewrite Z.eqb_refl. cbn [negb].
  rewrite (UnsealPayload_SealPayload _ _ _ _ Hn Hs).
  by rewrite (decode_payload_EncodeBody r Hr).
Qed.

(** A frame cut short ends the replay without an error. *)
Lemma read_frame_torn key r s n :
  rec_ok r -> is_frame key r s -> (n < length s)%nat ->
  read_frame key (take n s) = FEnd \/ read_frame key (take n s) = FTorn.
Proof.
  intros Hr (nonce & payload & Hn & Hs & ->) Hlt.
  pose proof (SealPayload_length _ _ _ _ Hn Hs). pose proof (EncodeBody_length r Hr).
  pose proof (ok_size _ Hr) as Hmax. pose proof (frame_length payload) as Hf.
  unfold kMaxRecordBytes in *. unfold read_frame.
  assert (Zlen (take n (frame payload)) = Z.of_nat n) as Hz.
  { unfold Zlen. rewrite length_take. lia. }
  rewrite Hz. destruct (Z.ltb_spec (Z.of_nat n) 4); [by left|]. right.
  rewrite take_take, Nat.min_l by lia.
  assert (take 4 (frame payload) = ByteWriter.U32 (Zlen (payload ++ ByteWriter.U32 (Crc32 payload))))
    as -> by (apply take_app_length'; by rewrite U32_length).
  assert (Zlen (payload ++ ByteWriter.U32 (Crc32 payload)) = Zlen payload + 4) as Hb.
  { rewrite Zlen_app. unfold Zlen at 2. by rewrite U32_length. }
  rewrite le_combine_U32 by (unfold fits; lia). rewrite Hb.
  destruct (Z.ltb_spec (Zlen payload + 4) 8); [lia|]. unfold kMaxRecordBytes.
  destruct (Z.ltb_spec (256 * 2 ^ 20) (Zlen payload + 4)); [lia|]. cbn [orb].
  destruct (Z.ltb_spec (Zlen (drop 4 (take n (frame payload)))) (Zlen payload + 4)) as [|Hge]; [done|].
  unfold Zlen in *. rewrite length_drop, length_take in Hge. lia.
Qed.
End WalCodec.
