(* ===== verification/WalLog.v ===== *)
(** * Replaying the ledger file: src/storage/wal.cpp

    A file as a sequence of record frames: what [ReadAllLocked] and [ReadRange]
    return for it, what the LSN index holds, and what [VerifyChain] concludes. *)
From S2P Require Import Prelude Bytes Hlc AtRest RecordLog Wal WalCodec.
Local Open Scope Z_scope.

(** Two facts about [set_offset] carry every index argument. *)
Lemma set_offset_here offsets lsn off :
  0 <= lsn -> set_offset offsets lsn off !! Z.to_nat lsn = Some off.
Proof.
  intros H. unfold set_offset. destruct (Z.leb_spec 0 lsn); [|lia].
  apply list_lookup_insert_eq. destruct (Nat.leb_spec (length offsets) (Z.to_nat lsn)).
  - rewrite length_resize. lia.
  - lia.
Qed.

Lemma set_offset_other offsets lsn off i :
  i <> Z.to_nat lsn ->
  set_offset offsets lsn off !! i = offsets !! i
  \/ (offsets !! i = None /\ set_offset offsets lsn off !! i = Some (-1)).
Proof.
  intros H. unfold set_offset. destruct (Z.leb_spec 0 lsn); [|by left].
  rewrite list_lookup_insert_ne by done.
  destruct (Nat.leb_spec (length offsets) (Z.to_nat lsn)); [|by left].
  destruct (decide (i < length offsets)%nat).
  - left. by rewrite lookup_resize by lia.
  - destruct (decide (i < S (Z.to_nat lsn))%nat).
    + right. split; [by apply lookup_ge_None_2; lia|]. by apply lookup_resize_new; lia.
    + left. rewrite lookup_resize_old by lia. symmetry. apply lookup_ge_None_2. lia.
Qed.

Section WalLog.
Context `{C : Crypto} `{!CryptoLaws C}.

(** ** The fuel of the two reading loops is enough on any bytes *)
Lemma read_frame_consumes key s r v1 rest : read_frame key s = FRec r v1 rest -> (length rest < length s)%nat.
Proof.
  unfold read_frame, Zlen. destruct (Z.ltb_spec (Z.of_nat (length s)) 4); [done|].
  destruct (_ || _); [done|]. destruct (_ <? _); [done|]. destruct (negb _); [done|].
  destruct (UnsealPayload _ _) as [[p|c]|]; try done. destruct (decode_payload p) as [[r' v1']|]; [|done].
  intros [= _ _ <-]. rewrite !length_drop. lia.
Qed.

Lemma read_loop_fuel f f' key s off expected offsets :
  (length s < f)%nat -> (length s < f')%nat ->
  read_loop f key s off expected offsets = read_loop f' key s off expected offsets.
Proof.
  revert f' s off expected offsets. induction f as [|f IH]; intros [|f'] s off expected offsets Hf Hf'; try lia.
  cbn [read_loop]. destruct (read_frame key s) as [| | | |r v1 rest] eqn:E; try done.
  apply read_frame_consumes in E. destruct (_ && _); [done|]. rewrite (IH f') by lia. done.
Qed.

Lemma range_loop_fuel f f' key s from to :
  (length s < f)%nat -> (length s < f')%nat -> range_loop f key s from to = range_loop f' key s from to.
Proof.
  revert f' s. induction f as [|f IH]; intros [|f'] s Hf Hf'; try lia.
  cbn [range_loop]. destruct (read_frame key s) as [| | | |r v1 rest] eqn:E; try done.
  apply read_frame_consumes in E. destruct (_ <? _); [done|]. rewrite (IH f') by lia. done.
Qed.
Implicit Types (r : WalRecord) (rs : list WalRecord) (key f s : bytes).

(** [f] is the frames of [rs], one after the other. *)
Inductive log_of (key : bytes) : list WalRecord -> bytes -> Prop :=
  | log_nil : log_of key [] []
  | log_cons r rs s f :
      rec_ok r -> is_frame key r s -> log_of key rs f -> log_of key (r :: rs) (s ++ f).

Fixpoint lsns_from (e : Z) (rs : list WalRecord) : Prop :=
  match rs with [] => True | r :: rs' => e <= r_lsn r /\ lsns_from (r_lsn r + 1) rs' end.

Definition expect (e : Z) (rs : list WalRecord) : Z := fold_left (fun _ r => r_lsn r + 1) rs e.

Definition frame_size (key : bytes) (r : WalRecord) : Z :=
  Zlen (EncodeBody r) + 8 + (if bool_decide (key = []) then 0 else 32).

Definition log_size (key : bytes) (rs : list WalRecord) : Z :=
  foldr (fun r n => frame_size key r + n) 0 rs.

Fixpoint index_log (key : bytes) (off : Z) (offsets : list Z) (rs : list WalRecord) : list Z :=
  match rs with
  | [] => offsets
  | r :: rs' => index_log key (off + frame_size key r) (set_offset offsets (r_lsn r) off) rs'
  end.

Lemma frame_size_ok key r s : is_frame key r s -> Zlen s = frame_size key r.
Proof.
  intros (nonce & payload & Hn & Hs & ->). rewrite frame_length, (SealPayload_Zlen _ _ _ _ Hn Hs).
  unfold frame_size. lia.
Qed.

Lemma frame_size_pos key r : 8 <= frame_size key r.
Proof. unfold frame_size. pose proof (Zlen_nonneg (EncodeBody r)). case_bool_decide; lia. Qed.

Lemma log_of_size key rs f : log_of key rs f -> Zlen f = log_size key rs.
Proof.
  induction 1 as [|r rs s f Hr Hs _ IH]; [done|]. rewrite Zlen_app, (frame_size_ok _ _ _ Hs), IH. done.
Qed.

Lemma log_of_length key rs f : log_of key rs f -> (length rs <= length f)%nat.
Proof.
  induction 1 as [|r rs s f Hr Hs _ IH]; [done|].
  pose proof (frame_size_ok _ _ _ Hs). pose proof (frame_size_pos key r).
  rewrite length_app. unfold Zlen in *. cbn [length]. lia.
Qed.

Lemma log_of_app key rs1 rs2 f1 f2 :
  log_of key rs1 f1 -> log_of key rs2 f2 -> log_of key (rs1 ++ rs2) (f1 ++ f2).
Proof.
  induction 1 as [|r rs s f Hr Hs _ IH]; [done|]. intros H2. rewrite <- app_assoc.
  cbn [app]. constructor; [done|done|by apply IH].
Qed.

Lemma log_of_snoc key rs r f s :
  log_of key rs f -> rec_ok r -> is_frame key r s -> log_of key (rs ++ [r]) (f ++ s).
Proof.
  intros Hf Hr Hs. apply log_of_app; [done|]. rewrite <- (app_nil_r s).
  constructor; [done|done|constructor].
Qed.

Lemma log_of_split key rs1 rs2 f :
  log_of key (rs1 ++ rs2) f ->
  exists f1 f2, f = f1 ++ f2 /\ log_of key rs1 f1 /\ log_of key rs2 f2.
Proof.
  revert f. induction rs1 as [|r rs1 IH]; intros f H; [exists [], f; split_and!; [done|constructor|done]|].
  inversion H as [|? ? s f' Hr Hs Hf]; subst.
  destruct (IH _ Hf) as (f1 & f2 & -> & H1 & H2).
  exists (s ++ f1), f2. rewrite <- app_assoc. split_and!; [done|by constructor|done].
Qed.

Lemma log_of_ok key rs f : log_of key rs f -> Forall rec_ok rs.
Proof. induction 1; by constructor. Qed.

(** Replay over a log runs through its records and goes on with what follows. *)
Lemma read_loop_log key rs f tail fuel off e offsets :
  log_of key rs f -> lsns_from e rs -> 0 <= e -> (length rs <= fuel)%nat ->
  read_loop fuel key (f ++ tail) off e offsets
  = let '(rs', offs', v1, en) :=
      read_loop (fuel - length rs) key tail (off + Zlen f) (expect e rs) (index_log key off offsets rs) in
    (rs ++ rs', offs', v1, en).
Proof.
  intros Hf. revert fuel off e offsets.
  induction Hf as [|r rs s f Hr Hs Hf IH]; intros fuel off e offsets Hl He Hn.
  { cbn [length app]. rewrite Nat.sub_0_r. change (Zlen (@nil byte)) with 0. rewrite Z.add_0_r.
    cbn [expect fold_left index_log]. by destruct (read_loop _ _ _ _ _ _) as [[[? ?] ?] ?]. }
  destruct fuel as [|fuel]; [cbn [length] in Hn; lia|]. cbn [read_loop].
  rewrite <- app_assoc, (read_frame_ok key r s _ Hr Hs). destruct Hl as [Hl Hls].
  destruct (Z.leb_spec 0 (r_lsn r)); [|lia]. destruct (Z.ltb_spec (r_lsn r) e); [lia|]. cbn [andb].
  destruct (Z.leb_spec e (r_lsn r)); [|lia].
  rewrite IH; [|done|lia|cbn [length] in Hn; lia].
  cbn [length Nat.sub]. rewrite !Zlen_app.
  replace (off + (Zlen s + (Zlen f + Zlen tail) - (Zlen f + Zlen tail)) + Zlen f)
    with (off + (Zlen s + Zlen f)) by lia.
  cbn [index_log expect fold_left].
  replace (off + (Zlen s + (Zlen f + Zlen tail) - (Zlen f + Zlen tail)))
    with (off + frame_size key r) by (rewrite <- (frame_size_ok _ _ _ Hs); lia).
  fold (expect (r_lsn r + 1) rs).
  by destruct (read_loop _ _ _ _ _ _) as [[[? ?] ?] ?].
Qed.

(** What ends a replay without an error: nothing, or a torn frame. *)
Definition benign (key tail : bytes) : Prop :=
  read_frame key tail = FEnd \/ read_frame key tail = FTorn.

Lemma benign_nil key : benign key [].
Proof. by left. Qed.

Lemma read_all_log key rs f tail offsets :
  log_of key rs f -> lsns_from 0 rs -> benign key tail ->
  exists en, en <> ECorrupt /\ en <> EThrow
    /\ read_all key (f ++ tail) offsets = (rs, index_log key 0 offsets rs, false, en).
Proof.
  intros Hf Hl Ht. unfold read_all. pose proof (log_of_length _ _ _ Hf).
  rewrite (read_loop_log key rs f); [|done|done|lia|rewrite length_app; lia].
  rewrite length_app.
  destruct (S (length f + length tail) - length rs)%nat as [|n] eqn:En; [lia|].
  cbn [read_loop]. destruct Ht as [->| ->]; rewrite app_nil_r; [exists EClean|exists ETorn]; by split_and!.
Qed.

(** A frame whose LSN was already passed stops the replay as corrupt. *)
Lemma read_all_duplicate key rs f r2 s2 offsets :
  log_of key rs f -> lsns_from 0 rs -> rec_ok r2 -> is_frame key r2 s2 -> r_lsn r2 < expect 0 rs ->
  exists offs, read_all key (f ++ s2) offsets = (rs, offs, false, ECorrupt).
Proof.
  intros Hf Hl Hr Hs Hlt. unfold read_all. pose proof (log_of_length _ _ _ Hf).
  rewrite (read_loop_log key rs f); [|done|done|lia|rewrite length_app; lia].
  rewrite length_app.
  destruct (S (length f + length s2) - length rs)%nat as [|n] eqn:En; [lia|].
  cbn [read_loop]. pose proof (read_frame_ok key r2 s2 [] Hr Hs) as Hrf. rewrite app_nil_r in Hrf.
  rewrite Hrf. pose proof (ok_lsn _ Hr). destruct (Z.leb_spec 0 (r_lsn r2)); [|lia].
  destruct (Z.ltb_spec (r_lsn r2) (expect 0 rs)); [|lia]. cbn [andb]. rewrite app_nil_r. by eexists.
Qed.

(** ** The LSN index *)
Definition entry_at key rs (i off : Z) : Prop :=
  exists rs1 r rs2, rs = rs1 ++ r :: rs2 /\ r_lsn r = i /\ off = log_size key rs1.

Definition index_sound key rs (offsets : list Z) : Prop :=
  forall i off, offsets !! i = Some off -> 0 <= off -> entry_at key rs (Z.of_nat i) off.

Definition index_covers (offsets : list Z) rs : Prop :=
  forall r, r ∈ rs -> exists off, offsets !! Z.to_nat (r_lsn r) = Some off /\ 0 <= off.

Lemma log_size_app key rs1 rs2 : log_size key (rs1 ++ rs2) = log_size key rs1 + log_size key rs2.
Proof.
  induction rs1 as [|r rs1 IH]; [done|]. cbn [app].
  change (log_size key (r :: ?l)) with (frame_size key r + log_size key l). lia.
Qed.

Lemma log_size_nonneg key rs : 0 <= log_size key rs.
Proof.
  induction rs as [|r rs IH]; [done|]. change (log_size key (r :: rs)) with (frame_size key r + log_size key rs).
  pose proof (frame_size_pos key r). lia.
Qed.

Lemma index_sound_set key rs offsets i off :
  0 <= i -> index_sound key rs offsets -> entry_at key rs i off ->
  index_sound key rs (set_offset offsets i off).
Proof.
  intros Hi Hs He j o Hj Ho. destruct (decide (j = Z.to_nat i)) as [->|Hne].
  - rewrite set_offset_here in Hj by done. injection Hj as <-. by rewrite Z2Nat.id by lia.
  - destruct (set_offset_other offsets i off j Hne) as [E|[_ E]]; rewrite E in Hj.
    + by apply Hs.
    + injection Hj as <-. lia.
Qed.

Lemma index_covers_set offsets i off rs :
  0 <= off -> 0 <= i -> index_covers offsets rs -> index_covers (set_offset offsets i off) rs.
Proof.
  intros Ho Hi Hc r Hr. destruct (decide (Z.to_nat (r_lsn r) = Z.to_nat i)) as [->|Hne].
  - exists off. by rewrite set_offset_here.
  - destruct (Hc r Hr) as (o & Hl & Hlo). exists o.
    destruct (set_offset_other offsets i off _ Hne) as [E|[E _]]; [by rewrite E|by rewrite E in Hl].
Qed.

Lemma index_log_ok key rs1 rs2 offsets :
  Forall (fun r => 0 <= r_lsn r) rs2 ->
  index_sound key (rs1 ++ rs2) offsets -> index_covers offsets rs1 ->
  index_sound key (rs1 ++ rs2) (index_log key (log_size key rs1) offsets rs2)
  /\ index_covers (index_log key (log_size key rs1) offsets rs2) (rs1 ++ rs2).
Proof.
  revert rs1 offsets. induction rs2 as [|r rs2 IH]; intros rs1 offsets Hp Hs Hc.
  { cbn [index_log]. by rewrite app_nil_r in *. }
  apply Forall_cons in Hp as [Hr Hp]. cbn [index_log].
  pose proof (log_size_nonneg key rs1).
  specialize (IH (rs1 ++ [r]) (set_offset offsets (r_lsn r) (log_size key rs1)) Hp).
  rewrite log_size_app, <- app_assoc in IH. cbn [app] in IH.
  change (log_size key [r]) with (frame_size key r + 0) in IH. rewrite Z.add_0_r in IH.
  apply IH.
  - apply index_sound_set; [done|done|]. by exists rs1, r, rs2.
  - intros r' Hr'. apply elem_of_app in Hr' as [Hr'|Hr'].
    + by apply (index_covers_set _ _ _ rs1).
    + apply list_elem_of_singleton in Hr' as ->. exists (log_size key rs1).
      by rewrite set_offset_here.
Qed.

(** ** Bounded reads *)
Definition in_range (from to : Z) r : bool := (from <=? r_lsn r) && (r_lsn r <=? to).
Definition range_of (from to : Z) rs : list WalRecord := filter (fun r => in_range from to r = true) rs.

Lemma lsns_from_weaken e e' rs : e' <= e -> lsns_from e rs -> lsns_from e' rs.
Proof. destruct rs as [|r rs]; [done|]. intros H [H1 H2]. split; [lia|done]. Qed.

Lemma lsns_from_elem e rs r : lsns_from e rs -> r ∈ rs -> e <= r_lsn r.
Proof.
  revert e. induction rs as [|r' rs IH]; intros e Hl Hr; [by apply elem_of_nil in Hr|].
  destruct Hl as [H Hs]. apply elem_of_cons in Hr as [->|Hr]; [done|]. specialize (IH _ Hs Hr). lia.
Qed.

Lemma lsns_from_app e rs1 rs2 : lsns_from e (rs1 ++ rs2) <-> lsns_from e rs1 /\ lsns_from (expect e rs1) rs2.
Proof.
  revert e. induction rs1 as [|r rs1 IH]; intros e; cbn [app lsns_from expect fold_left]; [tauto|].
  fold (expect (r_lsn r + 1) rs1). rewrite IH. tauto.
Qed.

Lemma expect_mono e rs : lsns_from e rs -> e <= expect e rs.
Proof.
  revert e. induction rs as [|r rs IH]; intros e; [cbn; lia|]. intros [H Hs].
  cbn [expect fold_left]. specialize (IH _ Hs). unfold expect in IH. lia.
Qed.

Lemma range_of_nil from to rs :
  (forall r, r ∈ rs -> in_range from to r = false) -> range_of from to rs = [].
Proof.
  induction rs as [|r rs IH]; intros H; [done|]. unfold range_of. rewrite filter_cons_False.
  - apply IH. intros r' Hr'. apply H. by apply elem_of_cons; right.
  - rewrite (H r) by (by apply elem_of_cons; left). done.
Qed.

Lemma range_of_cons from to r rs :
  range_of from to (r :: rs)
  = if in_range from to r then r :: range_of from to rs else range_of from to rs.
Proof. unfold range_of. rewrite filter_cons. by destruct (in_range from to r). Qed.

Lemma range_of_ext from from' to rs :
  (forall r, r ∈ rs -> in_range from to r = in_range from' to r) ->
  range_of from to rs = range_of from' to rs.
Proof.
  induction rs as [|r rs IH]; intros H; [done|]. rewrite !range_of_cons.
  rewrite (H r) by (by apply elem_of_cons; left). rewrite IH; [done|].
  intros r' Hr'. apply H. by apply elem_of_cons; right.
Qed.

Lemma range_of_all from to rs :
  (forall r, r ∈ rs -> from <= r_lsn r <= to) -> range_of from to rs = rs.
Proof.
  induction rs as [|r rs IH]; intros H; [done|]. rewrite range_of_cons. unfold in_range.
  pose proof (H r ltac:(by apply elem_of_cons; left)).
  destruct (Z.leb_spec from (r_lsn r)), (Z.leb_spec (r_lsn r) to); try lia. cbn [andb].
  rewrite IH; [done|]. intros r' Hr'. apply H. by apply elem_of_cons; right.
Qed.

Lemma lsns_from_last e rs r : lsns_from e rs -> r ∈ rs -> r_lsn r < expect e rs.
Proof.
  revert e. induction rs as [|r0 rs IH]; intros e Hl Hr; [by apply elem_of_nil in Hr|].
  destruct Hl as [He Hl]. cbn [expect fold_left]. apply elem_of_cons in Hr as [->|Hr].
  - pose proof (expect_mono _ _ Hl) as Hm. unfold expect in Hm. lia.
  - by apply (IH (r_lsn r0 + 1)).
Qed.

Lemma range_of_app from to rs1 rs2 :
  range_of from to (rs1 ++ rs2) = range_of from to rs1 ++ range_of from to rs2.
Proof. apply filter_app. Qed.

Lemma range_loop_log key rs f tail fuel e from to :
  log_of key rs f -> lsns_from e rs -> benign key tail -> (length rs < fuel)%nat ->
  range_loop fuel key (f ++ tail) from to = Some (range_of from to rs).
Proof.
  intros Hf. revert fuel e. induction Hf as [|r rs s f Hr Hs Hf IH]; intros fuel e Hl Ht Hn.
  { destruct fuel as [|fuel]; [lia|]. cbn [range_loop app]. by destruct Ht as [->| ->]. }
  destruct fuel as [|fuel]; [cbn [length] in Hn; lia|]. destruct Hl as [Hl Hls].
  cbn [range_loop]. rewrite <- app_assoc, (read_frame_ok key r s _ Hr Hs).
  destruct (Z.ltb_spec to (r_lsn r)).
  - rewrite range_of_nil; [done|]. intros r' Hr'. apply andb_false_iff. right.
    apply Z.leb_gt. apply elem_of_cons in Hr' as [->|Hr']; [lia|].
    pose proof (lsns_from_elem _ _ _ Hls Hr'). lia.
  - rewrite (IH fuel _ Hls Ht) by (cbn [length] in Hn; lia). rewrite range_of_cons. unfold in_range.
    destruct (Z.leb_spec (r_lsn r) to); [|lia]. by destruct (from <=? r_lsn r).
Qed.

Lemma start_offset_spec n offsets lsn off :
  0 <= lsn -> start_offset n offsets lsn = Some off ->
  exists i, lsn <= i /\ offsets !! Z.to_nat i = Some off /\ 0 <= off
    /\ forall j o, lsn <= j < i -> offsets !! Z.to_nat j = Some o -> o < 0.
Proof.
  revert lsn. induction n as [|n IH]; intros lsn Hl; [done|]. cbn [start_offset].
  destruct (offsets !! Z.to_nat lsn) as [o|] eqn:E; [|done].
  destruct (Z.leb_spec 0 o) as [Ho|Ho].
  - intros [= <-]. exists lsn. split_and!; [lia|done|done|]. intros. lia.
  - intros H. destruct (IH (lsn + 1) ltac:(lia) H) as (i & Hi & Hlk & Hpos & Hmin).
    exists i. split_and!; [lia|done|done|]. intros j o' Hj Hjo.
    destruct (decide (j = lsn)) as [->|]; [by simplify_eq|]. eapply Hmin; [|done]. lia.
Qed.

(** Seeking to the first indexed frame skips only records below the range. *)
Lemma start_offset_skips key rs f offsets n from off to :
  log_of key rs f -> lsns_from 0 rs -> index_sound key rs offsets -> index_covers offsets rs ->
  0 <= from -> start_offset n offsets from = Some off ->
  exists rs1 rs2 f1 f2, f = f1 ++ f2 /\ Zlen f1 = off /\ log_of key rs2 f2 /\ lsns_from 0 rs2
    /\ range_of from to rs = range_of from to rs2 /\ rs = rs1 ++ rs2.
Proof.
  intros Hf Hl Hs Hc Hfr Hst.
  destruct (start_offset_spec _ _ _ _ Hfr Hst) as (i & Hi & Hlk & Hpos & Hmin).
  destruct (Hs _ _ Hlk Hpos) as (rs1 & r & rs2 & -> & Hri & ->).
  rewrite Z2Nat.id in Hri by lia.
  destruct (log_of_split _ _ _ _ Hf) as (f1 & f2 & -> & H1 & H2).
  exists rs1, (r :: rs2), f1, f2. pose proof (proj1 (lsns_from_app _ _ _) Hl) as [Hl1 Hl2].
  split_and!; [done|by apply log_of_size|done| | |done].
  - eapply lsns_from_weaken; [|exact Hl2]. by apply expect_mono.
  - rewrite range_of_app, (range_of_nil _ _ rs1); [done|].
    intros r' Hr'. apply andb_false_iff. left. apply Z.leb_gt.
    destruct (Z.lt_ge_cases (r_lsn r') from) as [|Hge]; [done|exfalso].
    destruct (Hc r') as (o & Ho & Hop); [by apply elem_of_app; left|].
    enough (r_lsn r' < i) by (specialize (Hmin (r_lsn r') o ltac:(lia) Ho); lia).
    rewrite <- Hri. clear -Hl1 Hl2 Hr'. revert Hl1 Hl2. generalize 0.
    induction rs1 as [|a rs1 IH]; intros e; [by apply elem_of_nil in Hr'|].
    cbn [lsns_from expect fold_left]. intros [H1 H2] H3.
    apply elem_of_cons in Hr' as [->|Hr'].
    + pose proof (expect_mono _ _ H2) as Hm. unfold expect in Hm. destruct H3 as [H3 _]. lia.
    + eapply IH; [done|done|exact H3].
Qed.

(** ** The hash chain *)
Definition hash_ok r : Prop := bound_ok r || legacy_ok r = true.

Fixpoint chain_ok (prev : bytes) rs : Prop :=
  match rs with
  | [] => True
  | r :: rs' => r_prev_hash r = prev /\ hash_ok r /\ chain_ok (r_entry_hash r) rs'
  end.

Definition tip_of (prev : bytes) rs : bytes := fold_left (fun _ r => r_entry_hash r) rs prev.

Lemma chain_ok_app prev rs1 rs2 :
  chain_ok prev (rs1 ++ rs2) <-> chain_ok prev rs1 /\ chain_ok (tip_of prev rs1) rs2.
Proof.
  revert prev. induction rs1 as [|r rs1 IH]; intros prev; cbn [app chain_ok tip_of fold_left]; [tauto|].
  fold (tip_of (r_entry_hash r) rs1). rewrite IH. tauto.
Qed.

Lemma last_hash_tip rs : last_hash rs = tip_of GenesisHash rs.
Proof.
  unfold last_hash, tip_of. destruct rs as [|r rs _] using rev_ind; [done|].
  rewrite last_snoc, fold_left_app. done.
Qed.

Lemma last_lsn_expect rs : last_lsn rs + 1 = expect 0 rs.
Proof.
  unfold last_lsn, expect, kInvalidLsn. destruct rs as [|r rs _] using rev_ind; [done|].
  rewrite last_snoc, fold_left_app. done.
Qed.

(** Without a verifier the loop accepts exactly the well-linked chains. *)
Lemma verify_loop_chain prev rs a b c :
  (v_ok (verify_loop None prev rs a b c) = true <-> chain_ok prev rs)
  /\ (chain_ok prev rs -> entries_checked (verify_loop None prev rs a b c) = a + Zlen rs).
Proof.
  revert prev a b c. induction rs as [|r rs IH]; intros prev a b c.
  { unfold Zlen. cbn. split; [tauto|]. intros _. lia. }
  cbn [verify_loop chain_ok]. unfold hash_ok.
  assert (Zlen (r :: rs) = Zlen rs + 1) as -> by (unfold Zlen; cbn [length]; lia).
  case_bool_decide as Hp; cbn [negb]; [|split; [split; [done|tauto]|tauto]].
  rewrite <- negb_orb. destruct (bound_ok r || legacy_ok r); cbn [negb].
  2:{ split; [split; [done|intros (_ & ? & _); done]|intros (_ & ? & _); done]. }
  destruct (is_unsigned r);
    [destruct (IH (r_entry_hash r) (a + 1) b (c + 1)) as [H1 H2]
    |destruct (IH (r_entry_hash r) (a + 1) (b + 1) c) as [H1 H2]];
    (split; [rewrite H1; tauto|intros (_ & _ & H); rewrite H2 by done; lia]).
Qed.

(** ** Opening a file *)
Definition has_key (key : bytes) : bool := negb (bool_decide (key = [])).

Lemma SealPayload_looks key nonce r p :
  nonce_ok nonce -> SealPayload key nonce (EncodeBody r) = OK p ->
  LooksSealedRecord p = has_key key.
Proof.
  intros Hn Hs. pose proof (UnsealPayload_SealPayload _ _ _ _ Hn Hs) as Hu. revert Hu.
  unfold UnsealPayload, has_key.
  by destruct (LooksSealedRecord p), (bool_decide (key = [])).
Qed.

Lemma LooksSealed_prefix p x n :
  4 <= Zlen p -> (4 <= n)%nat -> LooksSealedRecord (take n (p ++ x)) = LooksSealedRecord p.
Proof.
  intros Hp Hn. unfold LooksSealedRecord. rewrite take_take, Nat.min_l by lia.
  assert (take 4 (p ++ x) = take 4 p) as -> by (apply take_app_le; unfold Zlen in Hp; lia).
  destruct (Z.leb_spec 4 (Zlen p)); [|lia].
  destruct (Z.leb_spec 4 (Zlen (take n (p ++ x)))) as [|Hl]; [done|].
  unfold Zlen in *. rewrite length_take, length_app in Hl. lia.
Qed.

(** The mode probe accepts a log, and any cut of it, under its own key. *)
Lemma DetectMode_frame key r s rest n :
  rec_ok r -> is_frame key r s -> exists b, DetectMode (take n (s ++ rest)) (has_key key) = OK b.
Proof.
  intros Hr (nonce & p & Hn & Hs & ->). pose proof (SealPayload_looks _ _ _ _ Hn Hs) as Hlook.
  pose proof (SealPayload_length _ _ _ _ Hn Hs). pose proof (EncodeBody_length r Hr).
  pose proof (ok_size _ Hr). unfold kMaxRecordBytes in *. unfold DetectMode.
  destruct (Z.ltb_spec (Zlen (take n (frame p ++ rest))) 4) as [|Hge]; [by eexists|].
  assert (4 <= n)%nat as H4 by (unfold Zlen in Hge; rewrite length_take in Hge; lia).
  set (body := p ++ ByteWriter.U32 (Crc32 p)).
  assert (frame p = ByteWriter.U32 (Zlen body) ++ body) as Ef by done.
  assert (Zlen body = Zlen p + 4) as Hb.
  { unfold body. rewrite Zlen_app. unfold Zlen at 2. by rewrite U32_length. }
  rewrite take_take, Nat.min_l by lia. rewrite Ef, <- app_assoc.
  rewrite (take_app_length' (ByteWriter.U32 _)) by (by rewrite U32_length).
  rewrite le_combine_U32 by (unfold fits; lia).
  destruct (Z.ltb_spec (Zlen body) 8); [lia|]. unfold kMaxRecordBytes.
  destruct (Z.ltb_spec (256 * 2 ^ 20) (Zlen body)); [lia|]. cbn [orb].
  rewrite skipn_firstn_comm, (drop_app_length' (ByteWriter.U32 _)) by (by rewrite U32_length).
  destruct (Z.ltb_spec (Zlen (take (n - 4) (body ++ rest))) (Z.min (Zlen body) 64)) as [|Hbig];
    [by eexists|].
  rewrite take_take, Nat.min_l by (unfold Zlen in *; rewrite length_take in Hbig; lia).
  set (head := take (Z.to_nat (Z.min (Zlen body) 64)) (body ++ rest)).
  assert (LooksSealedRecord head = has_key key) as ->.
  { unfold head, body at 2. rewrite <- app_assoc, LooksSealed_prefix by lia. done. }
  assert (8 <= Zlen head).
  { unfold head, Zlen. rewrite length_take, length_app. unfold Zlen in *. lia. }
  destruct (Z.leb_spec 8 (Zlen head)); [|lia]. destruct (has_key key); by eexists.
Qed.

Lemma DetectMode_log key rs f r s n :
  log_of key rs f -> rec_ok r -> is_frame key r s ->
  exists b, DetectMode (f ++ take n s) (has_key key) = OK b.
Proof.
  intros Hf Hr Hs. destruct Hf as [|r0 rs s0 f Hr0 Hs0 Hf].
  - cbn [app]. rewrite <- (app_nil_r s). by apply (DetectMode_frame key r).
  - rewrite <- app_assoc. set (x := f ++ take n s).
    rewrite <- (take_ge (s0 ++ x) (length (s0 ++ x))) by done. by apply (DetectMode_frame key r0).
Qed.

Lemma DetectMode_intact key rs f :
  log_of key rs f -> exists b, DetectMode f (has_key key) = OK b.
Proof.
  intros Hf. destruct Hf as [|r0 rs s0 f Hr0 Hs0 Hf]; [by eexists|].
  rewrite <- (take_ge (s0 ++ f) (length (s0 ++ f))) by done. by apply (DetectMode_frame key r0).
Qed.

Lemma ReadAllLocked_tail w rs f tail :
  is_open w = true -> file_ w = f ++ tail -> log_of (subkey w) rs f -> lsns_from 0 rs ->
  benign (subkey w) tail ->
  ReadAllLocked w
  = Some (rs, after_read w (index_log (subkey w) 0 (lsn_offsets w) rs) false false).
Proof.
  intros Ho Hfile Hf Hl Ht. unfold ReadAllLocked, stream. rewrite Ho, Hfile.
  destruct (read_all_log (subkey w) rs f tail (lsn_offsets w) Hf Hl Ht) as (en & Hc & Hth & He).
  rewrite He. by destruct en.
Qed.

(** The data-encryption key and the log's subkey belong together. *)
Definition dek_for (dek key : bytes) : Prop :=
  (dek = [] /\ key = []) \/ (dek <> [] /\ Zlen dek = 32 /\ FileSubkey dek (bs "wal") = OK key).

Lemma dek_for_key dek key : dek_for dek key -> key_ok key /\ has_key key = has_key dek.
Proof.
  intros [[-> ->]|(Hne & Hl & Hk)]; [split; [by left|done]|].
  revert Hk. unfold FileSubkey. rewrite Hl. cbn [negb Z.eqb Pos.eqb kDekLen].
  destruct (HkdfSha256 dek (bs "wal") (bs "desentry-at-rest-v1") kDekLen) as [k|] eqn:E; [|done].
  intros H. injection H as <-. apply hkdf_length in E. split; [by right|].
  unfold has_key. rewrite !bool_decide_eq_false_2; [done|done|]. intros ->. done.
Qed.

Definition opened_state (w : WriteAheadLog) (hwm : option (Z * bytes)) rs : WriteAheadLog :=
  set_tip w hwm (expect 0 rs) (tip_of GenesisHash rs) (last_checkpoint rs).

(** [Open] on a log followed by a benign tail replays the log. *)
Lemma Open_log nonces io hio key rs f tail hwm dek :
  dek_for dek key -> log_of key rs f -> lsns_from 0 rs -> chain_ok GenesisHash rs ->
  benign key tail -> (exists b, DetectMode (f ++ tail) (has_key dek) = OK b) ->
  Open nonces io hio (f ++ tail) hwm dek
  = if below_mark hwm rs then Some (Fault kCorruption)
    else Some (OK (mkWal (f ++ tail) true hwm (expect 0 rs)
                     (index_log key 0 (index_log key 0 [] rs) rs) (tip_of GenesisHash rs)
                     (last_checkpoint rs) false [] None key (-1) 0 false)).
Proof.
  intros Hd Hf Hl Hc Ht [b Hb]. unfold Open. fold (has_key dek). rewrite Hb.
  assert (has_key dek && negb (Zlen dek =? 32) = false
    /\ (if bool_decide (dek = []) then OK [] else FileSubkey dek (bs "wal")) = OK key) as [-> ->].
  { destruct Hd as [[-> ->]|(Hne & Hlen & Hk)]; [done|].
    rewrite bool_decide_eq_false_2, Hlen, andb_false_r by done. done. }
  set (w0 := mkWal (f ++ tail) true hwm 0 [] GenesisHash kInvalidLsn false [] None key (-1) 0 false).
  rewrite (ReadAllLocked_tail w0 rs f tail) by done. cbn [last_read_corrupt after_read].
  rewrite andb_false_r. set (w1 := after_read w0 _ _ _).
  assert ((if bool_decide (rs = []) then w1 else set_tip w1 hwm (last_lsn rs + 1) (last_hash rs) (last_checkpoint rs))
    = mkWal (f ++ tail) true hwm (expect 0 rs) (index_log key 0 [] rs) (tip_of GenesisHash rs)
        (last_checkpoint rs) false [] None key (-1) 0 false) as ->.
  { rewrite last_lsn_expect, last_hash_tip. case_bool_decide as He; [by subst|done]. }
  destruct (below_mark hwm rs); [done|]. unfold VerifyChain.
  rewrite (ReadAllLocked_tail _ rs f tail) by done. cbn [last_read_corrupt after_read].
  destruct (verify_loop_chain GenesisHash rs 0 0 0) as [[_ H2] _]. rewrite (H2 Hc). cbn [negb].
  done.
Qed.
End WalLog.
