(* ===== verification/WalProps.v ===== *)
(** * The ledger's guarantees: src/storage/wal.cpp

    The state invariant of an open log, its preservation by [Append] and
    [Prune], what reads and verification report under it, recovery through
    [Open] after a crash inside an append, and the histories that break it. *)
From coqutil Require Import Word.LittleEndianList.
From S2P Require Import Prelude Bytes Hlc AtRest RecordLog Wal WalCodec WalLog.
Local Open Scope Z_scope.

Section WalProps.
Context `{C : Crypto} `{!CryptoLaws C}.
Implicit Types (r : WalRecord) (rs : list WalRecord) (key f s : bytes) (w : WriteAheadLog).

(** The log [w] holds exactly the records [rs]. *)
Record wal_inv w rs : Prop := {
  inv_open : is_open w = true;
  inv_key : key_ok (subkey w);
  inv_log : log_of (subkey w) rs (file_ w);
  inv_lsns : lsns_from 0 rs;
  inv_next : next_lsn w = expect 0 rs;
  inv_max : next_lsn w <= INT64_MAX;
  inv_chain : chain_ok GenesisHash rs;
  inv_tip : tip_hash w = tip_of GenesisHash rs;
  inv_ckpt : last_checkpoint_lsn w = last_checkpoint rs;
  inv_index : index_sound (subkey w) rs (lsn_offsets w) /\ index_covers (lsn_offsets w) rs;
  inv_mark : below_mark (hwm_file w) rs = false;
}.

Lemma tip_of_length rs : Forall rec_ok rs -> length (tip_of GenesisHash rs) = kWalHashLen.
Proof.
  intros H. destruct rs as [|r rs _] using rev_ind; [by apply length_replicate|].
  unfold tip_of. rewrite fold_left_app. cbn [fold_left].
  apply Forall_app in H as [_ H]. apply Forall_cons in H as [H _]. apply (ok_entry _ H).
Qed.

Lemma tip_of_app prev rs r : tip_of prev (rs ++ [r]) = r_entry_hash r.
Proof. unfold tip_of. by rewrite fold_left_app. Qed.

Lemma expect_app e rs r : expect e (rs ++ [r]) = r_lsn r + 1.
Proof. unfold expect. by rewrite fold_left_app. Qed.

Lemma last_checkpoint_app rs r :
  last_checkpoint (rs ++ [r])
  = if bool_decide (r_type r = kCheckpoint) then r_lsn r else last_checkpoint rs.
Proof. unfold last_checkpoint. by rewrite fold_left_app. Qed.

(** ** Append *)
(** The arguments an [Append] can be given: the C++ types bound the integers,
    the type is an enumerator, and the record fits the size a reader accepts. *)
Record append_args_ok w (t : WalRecordType) (collection k doc : bytes) (o : AppendOptions) : Prop := {
  arg_type : fits 8 (type_code t) /\ type_of_code (type_code t) = t;
  arg_hlc : fits 64 (physical_ms (o_hlc o)) /\ fits 32 (logical (o_hlc o));
  arg_transit : t = kTransitIntent ->
    fits 64 (o_transit_size o) /\ fits 32 (o_chunk_total o) /\ 0 <= o_chunk_index o < o_chunk_total o;
  arg_size : Zlen (EncodeBody (new_record w t collection k doc o)) + 36 <= kMaxRecordBytes;
}.

Lemma size_bounds_blobs r :
  Zlen (EncodeBody r) + 36 <= kMaxRecordBytes ->
  blob_ok (r_collection r) /\ blob_ok (r_key r) /\ blob_ok (r_document r) /\ blob_ok (r_key_hash r)
  /\ blob_ok (node_id (r_hlc r)) /\ blob_ok (r_origin r) /\ blob_ok (r_signature r)
  /\ (r_type r = kTransitIntent -> blob_ok (r_transit_holder r)).
Proof.
  unfold blob_ok, Zlen, kMaxRecordBytes. rewrite EncodeBody_fields. unfold body_fields.
  rewrite !length_app, !Bytes_length. intros H. do 7 (split; [lia|]).
  intros Ht. unfold body_tail in H. rewrite bool_decide_eq_true_2 in H by done.
  rewrite !length_app, Bytes_length in H. lia.
Qed.

Lemma new_record_hashes w t c k d o :
  let r := new_record w t c k d o in
  r_prev_hash r = tip_hash w /\ bound_ok r = true /\ r_entry_hash r = Sha256 (BuildContent r).
Proof. cbv zeta. split_and!; [done| |done]. by apply bool_decide_eq_true_2. Qed.

Lemma new_record_ok w rs t c k d o :
  wal_inv w rs -> next_lsn w < INT64_MAX -> append_args_ok w t c k d o ->
  rec_ok (new_record w t c k d o).
Proof.
  intros Hw Hn [Ht Hh Hx Hs]. pose proof (size_bounds_blobs _ Hs) as (B1 & B2 & B3 & B4 & B5 & B6 & B7 & B8).
  split; try done.
  - change (r_lsn (new_record w t c k d o)) with (next_lsn w).
    rewrite (inv_next _ _ Hw) in *. pose proof (expect_mono _ _ (inv_lsns _ _ Hw)).
    unfold INT64_MAX in *. lia.
  - unfold new_record. cbn [r_hlc]. case_bool_decide; [|done]. by cbn.
  - change (r_prev_hash (new_record w t c k d o)) with (tip_hash w).
    rewrite (inv_tip _ _ Hw). eapply tip_of_length, log_of_ok, (inv_log _ _ Hw).
  - rewrite (proj2 (proj2 (new_record_hashes w t c k d o))). apply sha_length.
  - change (r_type (new_record w t c k d o)) with t in *.
    unfold new_record. cbn [r_transit_holder r_transit_size r_chunk_index r_chunk_total].
    case_bool_decide as Hi; [|done]. specialize (Hx Hi). specialize (B8 Hi).
    revert B8. unfold new_record. cbn [r_transit_holder]. by rewrite bool_decide_eq_true_2.
Qed.

Lemma below_mark_extend hwm rs r :
  below_mark hwm rs = false -> last_lsn rs < r_lsn r -> below_mark hwm (rs ++ [r]) = false.
Proof.
  unfold below_mark. destruct hwm as [[id h]|]; [|done]. intros H Hlt.
  assert (last_lsn (rs ++ [r]) = r_lsn r) as -> by (unfold last_lsn; by rewrite last_snoc).
  apply orb_false_iff in H as [H _]. apply Z.ltb_ge in H.
  apply orb_false_iff. split; [apply Z.ltb_ge; lia|].
  apply andb_false_iff. left. apply Z.eqb_neq. lia.
Qed.

Lemma below_mark_here rs r h : h = r_entry_hash r -> below_mark (Some (r_lsn r, h)) (rs ++ [r]) = false.
Proof.
  intros ->. unfold below_mark, last_lsn, last_hash. rewrite last_snoc, Z.ltb_irrefl, Z.eqb_refl.
  by rewrite bool_decide_eq_true_2.
Qed.

Lemma commit_mark now hio w f rs r :
  below_mark (hwm_file w) rs = false -> last_lsn rs < r_lsn r -> length (r_entry_hash r) = kWalHashLen ->
  below_mark (hwm_file (commit_record now hio w f r)) (rs ++ [r]) = false.
Proof.
  intros Hm Hlt Hl. unfold commit_record, WriteHwmIfDueLocked.
  destruct (_ && _); cbn [hwm_file]; [by apply below_mark_extend|].
  destruct hio; cbn [hwm_after]; [|by apply below_mark_extend|done].
  apply below_mark_here. apply take_ge. by rewrite Hl.
Qed.

(** Committing a framed record keeps the invariant. *)
Lemma commit_inv now hio w rs r s :
  wal_inv w rs -> rec_ok r -> r_lsn r = next_lsn w -> next_lsn w < INT64_MAX ->
  r_prev_hash r = tip_hash w -> hash_ok r -> is_frame (subkey w) r s ->
  wal_inv (commit_record now hio w (file_ w ++ s) r) (rs ++ [r]).
Proof.
  intros Hw Hr Hl Hmax Hp Hh Hs. pose proof (commit_mark now hio w (file_ w ++ s) rs r) as Hmark.
  assert (last_lsn rs < r_lsn r) as Hlt.
  { pose proof (last_lsn_expect rs). rewrite Hl, (inv_next _ _ Hw). lia. }
  specialize (Hmark (inv_mark _ _ Hw) Hlt (ok_entry _ Hr)).
  destruct (inv_index _ _ Hw) as [Hi1 Hi2].
  revert Hmark. unfold commit_record. destruct (WriteHwmIfDueLocked _ _ _ _ _) as [[hwm sl] sm].
  intros Hmark. split; cbn [is_open subkey file_ next_lsn tip_hash last_checkpoint_lsn lsn_offsets hwm_file].
  - apply (inv_open _ _ Hw).
  - apply (inv_key _ _ Hw).
  - apply log_of_snoc; [apply (inv_log _ _ Hw)|done|done].
  - apply lsns_from_app. split; [apply (inv_lsns _ _ Hw)|]. split; [|done].
    rewrite Hl, (inv_next _ _ Hw). lia.
  - rewrite expect_app. lia.
  - lia.
  - apply chain_ok_app. split; [apply (inv_chain _ _ Hw)|].
    split_and!; [by rewrite <- (inv_tip _ _ Hw)|done|done].
  - by rewrite tip_of_app.
  - rewrite last_checkpoint_app, (inv_ckpt _ _ Hw). done.
  - pose proof (index_log_ok (subkey w) rs [r] (lsn_offsets w)) as Hix. cbn [index_log] in Hix.
    rewrite (log_of_size _ _ _ (inv_log _ _ Hw)). apply Hix; [| |done].
    + constructor; [|constructor]. apply (ok_lsn _ Hr).
    + intros i off Hi Ho. destruct (Hi1 i off Hi Ho) as (rs1 & r' & rs2 & -> & H1 & H2).
      exists rs1, r', (rs2 ++ [r]). by rewrite <- app_assoc.
  - done.
Qed.

(** ** Reading an intact log *)
Lemma after_read_inv w rs :
  wal_inv w rs ->
  wal_inv (after_read w (index_log (subkey w) 0 (lsn_offsets w) rs) false false) rs.
Proof.
  intros Hw. destruct (inv_index _ _ Hw) as [Hi1 Hi2].
  pose proof (log_of_ok _ _ _ (inv_log _ _ Hw)) as Hok.
  destruct (index_log_ok (subkey w) [] rs (lsn_offsets w)) as [H1 H2].
  { eapply Forall_impl; [exact Hok|]. intros r Hr. apply (ok_lsn _ Hr). }
  { done. }
  { intros r Hr. by apply elem_of_nil in Hr. }
  destruct Hw. by split.
Qed.

Lemma ReadAllLocked_inv w rs :
  wal_inv w rs ->
  ReadAllLocked w
  = Some (rs, after_read w (index_log (subkey w) 0 (lsn_offsets w) rs) false false).
Proof.
  intros []. apply ReadAllLocked_tail with (f := file_ w) (tail := []);
    [done|by rewrite app_nil_r|done|done|apply benign_nil].
Qed.

Lemma VerifyChain_inv w rs :
  wal_inv w rs ->
  exists vr w', VerifyChain None w = Some (vr, w') /\ v_ok vr = true
    /\ entries_checked vr = Zlen rs /\ wal_inv w' rs.
Proof.
  intros Hw. unfold VerifyChain. rewrite (ReadAllLocked_inv _ _ Hw). cbn [last_read_corrupt after_read].
  destruct (verify_loop_chain GenesisHash rs 0 0 0) as [H1 H2].
  eexists _, _. split; [done|]. pose proof (inv_chain _ _ Hw) as Hc. split_and!.
  - by apply H1.
  - by rewrite H2 by done.
  - by apply after_read_inv.
Qed.

Lemma Append_inv env w rs t c k d o :
  wal_inv w rs -> next_lsn w < INT64_MAX -> append_args_ok w t c k d o ->
  nonce_ok (e_nonce env) -> e_io env = IoOk ->
  exists w', Append env w t c k d o = (OK (next_lsn w), w')
    /\ wal_inv w' (rs ++ [new_record w t c k d o]).
Proof.
  intros Hw Hmax Ha Hn Hio. pose proof (new_record_ok _ _ _ _ _ _ _ Hw Hmax Ha) as Hr.
  set (rec := new_record w t c k d o) in *.
  destruct (SealPayload_ok (subkey w) (e_nonce env) (EncodeBody rec) (inv_key _ _ Hw) Hn) as [p Hp].
  eexists. split.
  - unfold Append. fold rec. destruct (Z.eqb_spec (next_lsn w) INT64_MAX); [lia|].
    by rewrite Hp, (inv_open _ _ Hw), Hio.
  - destruct (new_record_hashes w t c k d o) as (H1 & H2 & _). apply commit_inv; try done.
    + unfold hash_ok. subst rec. by rewrite H2.
    + by exists (e_nonce env), p.
Qed.

(** Any number of appends, each with arguments it can be given, written and synced:
    [appends w later w'] adds the records [later]. *)
Inductive appends : WriteAheadLog -> list WalRecord -> WriteAheadLog -> Prop :=
  | appends_nil w : appends w [] w
  | appends_cons env w t c k d o w1 later w' :
      next_lsn w < INT64_MAX -> append_args_ok w t c k d o -> nonce_ok (e_nonce env) -> e_io env = IoOk ->
      Append env w t c k d o = (OK (next_lsn w), w1) -> appends w1 later w' ->
      appends w (new_record w t c k d o :: later) w'.

Lemma appends_inv w later w' rs : appends w later w' -> wal_inv w rs -> wal_inv w' (rs ++ later).
Proof.
  intros H. revert rs. induction H as [w|env w t c k d o w1 later w' Hm Ha Hn Hio E _ IH]; intros rs Hw; [by rewrite app_nil_r|].
  destruct (Append_inv _ _ _ _ _ _ _ _ Hw Hm Ha Hn Hio) as (w1' & E' & Hw1). rewrite E in E'. injection E' as <-.
  apply IH in Hw1. by rewrite <- app_assoc in Hw1.
Qed.

(** C2: on an intact log (no torn tail, every record readable and chained) that holds [rs],
    an [Append] with arguments within the record limits whose write and sync succeed
    returns the next LSN, and from then on, whatever further such appends follow, a full
    replay returns [rs], this record and the later ones in order, and [VerifyChain]
    accepts the whole chain. *)
Theorem wal_append_durable env w rs t c k d o :
  wal_inv w rs -> next_lsn w < INT64_MAX -> append_args_ok w t c k d o ->
  nonce_ok (e_nonce env) -> e_io env = IoOk ->
  exists w', Append env w t c k d o = (OK (next_lsn w), w')
    /\ wal_inv w' (rs ++ [new_record w t c k d o])
    /\ forall later w'', appends w' later w'' ->
         exists wr vr wv, ReadAllLocked w'' = Some (rs ++ new_record w t c k d o :: later, wr)
           /\ VerifyChain None w'' = Some (vr, wv)
           /\ v_ok vr = true /\ entries_checked vr = Zlen rs + 1 + Zlen later.
Proof.
  intros Hw Hmax Ha Hn Hio. destruct (Append_inv _ _ _ _ _ _ _ _ Hw Hmax Ha Hn Hio) as (w' & Hap & Hinv).
  exists w'. split; [done|]. split; [done|]. intros later w'' Hl. pose proof (appends_inv _ _ _ _ Hl Hinv) as Hinv'.
  rewrite <- app_assoc in Hinv'. cbn [app] in Hinv'.
  destruct (VerifyChain_inv _ _ Hinv') as (vr & wv & Hv & Hok & Hcnt & _).
  eexists _, vr, wv. split_and!; [by apply ReadAllLocked_inv|done|done|].
  rewrite Hcnt, Zlen_app. unfold Zlen. cbn [length]. lia.
Qed.

Lemma ReadRange_inv w rs from to :
  wal_inv w rs ->
  ReadRange w from to = Some (range_of from to rs).
Proof.
  intros Hw. unfold ReadRange, stream. rewrite (inv_open _ _ Hw).
  pose proof (inv_log _ _ Hw) as Hf. pose proof (inv_lsns _ _ Hw) as Hl.
  pose proof (log_of_length _ _ _ Hf). destruct (inv_index _ _ Hw) as [Hi1 Hi2].
  assert (forall r, r ∈ rs -> 0 <= r_lsn r) as Hpos by (intros r Hr; by apply (lsns_from_elem 0 rs)).
  destruct (Z.ltb_spec to 0); cbn [orb].
  { rewrite range_of_nil; [done|]. intros r Hr. specialize (Hpos r Hr).
    apply andb_false_iff. right. apply Z.leb_gt. lia. }
  destruct (Z.leb_spec (next_lsn w) 0) as [Hz|_].
  { rewrite (inv_next _ _ Hw) in Hz. destruct rs as [|r rs]; [done|exfalso].
    destruct Hl as [Hl Hls]. pose proof (expect_mono _ _ Hls) as Hm. revert Hz Hm.
    unfold expect. cbn [fold_left]. lia. }
  set (from' := if from <? 0 then 0 else from).
  assert (0 <= from') by (subst from'; destruct (Z.ltb_spec from 0); lia).
  assert (range_of from to rs = range_of from' to rs) as ->.
  { apply range_of_ext. intros r Hr. specialize (Hpos r Hr). unfold in_range.
    subst from'. destruct (Z.ltb_spec from 0); [|done].
    destruct (Z.leb_spec from (r_lsn r)), (Z.leb_spec 0 (r_lsn r)); (done || lia). }
  destruct (Z.ltb_spec to from').
  { rewrite range_of_nil; [done|]. intros r Hr. unfold in_range.
    destruct (Z.leb_spec from' (r_lsn r)), (Z.leb_spec (r_lsn r) to); (done || lia). }
  destruct (start_offset _ (lsn_offsets w) from') as [off|] eqn:Es.
  - destruct (start_offset_skips _ _ _ _ _ _ _ to Hf Hl Hi1 Hi2 ltac:(done) Es)
      as (rs1 & rs2 & f1 & f2 & Ef & <- & Hf2 & Hl2 & -> & ->).
    rewrite Ef, drop_app_length' by (unfold Zlen; lia). rewrite <- (app_nil_r f2) at 2.
    eapply range_loop_log; [done|done|apply benign_nil|].
    pose proof (log_of_length _ _ _ Hf2). rewrite length_app. lia.
  - change (drop (Z.to_nat 0) (file_ w)) with (file_ w). rewrite <- (app_nil_r (file_ w)) at 2.
    eapply range_loop_log; [done|done|apply benign_nil|lia].
Qed.

(** A bounded read through the LSN index returns exactly the records of the
    full replay whose LSN lies in the range, whatever gaps pruning left. *)
Theorem wal_read_range w rs from to :
  wal_inv w rs ->
  ReadRange w from to = Some (range_of from to rs).
Proof. apply ReadRange_inv. Qed.

(** Once an [Append] has failed at its sync, the ledger is lost: the frame
    is in the file but the counter was not advanced, so the next successful
    append writes a second record with the same LSN, and the replay stops
    there as corrupt, without the record just acknowledged. *)
Theorem wal_sync_failure_forks w rs env1 t1 c1 k1 d1 o1 env2 t2 c2 k2 d2 o2 :
  wal_inv w rs -> next_lsn w < INT64_MAX ->
  append_args_ok w t1 c1 k1 d1 o1 -> append_args_ok w t2 c2 k2 d2 o2 ->
  nonce_ok (e_nonce env1) -> nonce_ok (e_nonce env2) ->
  e_io env1 = IoSyncFail -> e_io env2 = IoOk ->
  exists w1 w2 w3 vr w4, Append env1 w t1 c1 k1 d1 o1 = (Fault kIOError, w1)
    /\ Append env2 w1 t2 c2 k2 d2 o2 = (OK (next_lsn w), w2)
    /\ ReadAllLocked w2 = Some (rs ++ [new_record w t1 c1 k1 d1 o1], w3)
    /\ last_read_corrupt w3 = true
    /\ VerifyChain None w2 = Some (vr, w4) /\ v_ok vr = false.
Proof.
  intros Hw Hmax Ha1 Ha2 Hn1 Hn2 Hio1 Hio2.
  pose proof (new_record_ok _ _ _ _ _ _ _ Hw Hmax Ha1) as Hr1.
  pose proof (new_record_ok _ _ _ _ _ _ _ Hw Hmax Ha2) as Hr2.
  destruct (SealPayload_ok (subkey w) (e_nonce env1) (EncodeBody (new_record w t1 c1 k1 d1 o1))
    (inv_key _ _ Hw) Hn1) as [p1 Hp1].
  destruct (SealPayload_ok (subkey w) (e_nonce env2) (EncodeBody (new_record w t2 c2 k2 d2 o2))
    (inv_key _ _ Hw) Hn2) as [p2 Hp2].
  set (w1 := with_file w (file_ w ++ frame p1)).
  set (w2 := commit_record (e_now env2) (e_hwm env2) w1 (file_ w1 ++ frame p2)
               (new_record w t2 c2 k2 d2 o2)).
  assert (exists offs, read_all (subkey w2) (stream w2) (lsn_offsets w2)
            = (rs ++ [new_record w t1 c1 k1 d1 o1], offs, false, ECorrupt)) as [offs Hread].
  { assert (stream w2 = (file_ w ++ frame p1) ++ frame p2 /\ subkey w2 = subkey w) as [-> ->].
    { unfold w2, commit_record, stream. destruct (WriteHwmIfDueLocked _ _ _ _ _) as [[? ?] ?].
      cbn [is_open file_ subkey]. change (is_open w1) with (is_open w). by rewrite (inv_open _ _ Hw). }
    apply read_all_duplicate with (r2 := new_record w t2 c2 k2 d2 o2); try done.
    - apply log_of_snoc; [apply (inv_log _ _ Hw)|done|by exists (e_nonce env1), p1].
    - apply lsns_from_app. split; [apply (inv_lsns _ _ Hw)|]. split; [|done].
      change (r_lsn _) with (next_lsn w). rewrite (inv_next _ _ Hw). lia.
    - by exists (e_nonce env2), p2.
    - rewrite expect_app. change (r_lsn (new_record w ?t ?c ?k ?d ?o)) with (next_lsn w). lia. }
  assert (ReadAllLocked w2 = Some (rs ++ [new_record w t1 c1 k1 d1 o1], after_read w2 offs true false))
    as Hra by (unfold ReadAllLocked; by rewrite Hread).
  exists w1, w2. eexists _, _, _. split_and!; [| |exact Hra|done| |].
  - unfold Append. destruct (Z.eqb_spec (next_lsn w) INT64_MAX); [lia|].
    by rewrite Hp1, (inv_open _ _ Hw), Hio1.
  - unfold Append. change (next_lsn w1) with (next_lsn w).
    destruct (Z.eqb_spec (next_lsn w) INT64_MAX); [lia|].
    change (new_record w1 t2 c2 k2 d2 o2) with (new_record w t2 c2 k2 d2 o2).
    change (subkey w1) with (subkey w). change (is_open w1) with (is_open w).
    by rewrite Hp2, (inv_open _ _ Hw), Hio2.
  - unfold VerifyChain. by rewrite Hra.
  - done.
Qed.

(** ** Crash recovery *)
Lemma torn_benign key r s n :
  rec_ok r -> is_frame key r s -> (n < length s)%nat -> benign key (take n s).
Proof. apply read_frame_torn. Qed.

Lemma crash_recovery nonces io hio dek env w rs t c k d o n :
  wal_inv w rs -> next_lsn w < INT64_MAX -> append_args_ok w t c k d o ->
  nonce_ok (e_nonce env) -> e_io env = IoWriteFail n -> dek_for dek (subkey w) ->
  exists w1 w2 w3, Append env w t c k d o = (Fault kIOError, w1)
    /\ Open nonces io hio (file_ w1) (hwm_file w1) dek = Some (OK w2)
    /\ let rs' := if Zlen (file_ w1) <? Zlen (file_ w) + frame_size (subkey w) (new_record w t c k d o)
                  then rs else rs ++ [new_record w t c k d o] in
       ReadAllLocked w2 = Some (rs', w3) /\ next_lsn w2 = expect 0 rs'
       /\ tip_hash w2 = tip_of GenesisHash rs'.
Proof.
  intros Hw Hmax Ha Hn Hio Hdek. pose proof (new_record_ok _ _ _ _ _ _ _ Hw Hmax Ha) as Hr.
  pose proof (inv_log _ _ Hw) as Hf. pose proof (inv_lsns _ _ Hw) as Hl.
  pose proof (inv_chain _ _ Hw) as Hc. destruct (dek_for_key _ _ Hdek) as [Hk Hhk].
  destruct (new_record_hashes w t c k d o) as (Hprev & Hbound & _).
  set (rec := new_record w t c k d o) in *.
  destruct (SealPayload_ok (subkey w) (e_nonce env) (EncodeBody rec) Hk Hn) as [p Hp].
  assert (is_frame (subkey w) rec (frame p)) as Hfr by (by exists (e_nonce env), p).
  pose proof (frame_size_ok _ _ _ Hfr) as Hsz.
  exists (with_file w (file_ w ++ take n (frame p))). cbn [file_ with_file hwm_file]. rewrite Zlen_app.
  assert (Append env w t c k d o = (Fault kIOError, with_file w (file_ w ++ take n (frame p)))) as Happ.
  { unfold Append. fold rec. destruct (Z.eqb_spec (next_lsn w) INT64_MAX); [lia|].
    by rewrite Hp, (inv_open _ _ Hw), Hio. }
  destruct (Nat.lt_ge_cases n (length (frame p))) as [Hlt|Hge].
  - pose proof (torn_benign _ _ _ _ Hr Hfr Hlt) as Ht.
    rewrite (Open_log _ _ _ (subkey w) rs); [|done|done|done|done|done|rewrite <- Hhk; by eapply DetectMode_log].
    rewrite (inv_mark _ _ Hw). eexists _, _. split; [done|]. split; [done|].
    destruct (Z.ltb_spec (Zlen (file_ w) + Zlen (take n (frame p))) (Zlen (file_ w) + frame_size (subkey w) rec))
      as [_|Hno]; [|unfold Zlen in *; rewrite length_take in Hno; lia].
    split_and!; [by rewrite (ReadAllLocked_tail _ rs (file_ w) (take n (frame p)))|done|done].
  - rewrite take_ge by lia. rewrite Hsz, Z.ltb_irrefl. rewrite take_ge in Happ by lia.
    assert (log_of (subkey w) (rs ++ [rec]) (file_ w ++ frame p)) as Hf' by (by apply log_of_snoc).
    assert (lsns_from 0 (rs ++ [rec])) as Hl'.
    { apply lsns_from_app. split; [done|]. split; [|done].
      change (r_lsn rec) with (next_lsn w). rewrite (inv_next _ _ Hw). lia. }
    assert (chain_ok GenesisHash (rs ++ [rec])) as Hc'.
    { apply chain_ok_app. split; [done|]. split_and!; [by rewrite Hprev, (inv_tip _ _ Hw)| |done].
      unfold hash_ok. by rewrite Hbound. }
    destruct (DetectMode_intact _ _ _ Hf') as [b Hb].
    rewrite <- (app_nil_r (file_ w ++ frame p)).
    rewrite (Open_log _ _ _ (subkey w) (rs ++ [rec])); [|done|done|done|done|apply benign_nil|].
    2:{ rewrite <- Hhk, app_nil_r. by exists b. }
    rewrite below_mark_extend.
    2:{ apply (inv_mark _ _ Hw). }
    2:{ pose proof (last_lsn_expect rs). change (r_lsn rec) with (next_lsn w). rewrite (inv_next _ _ Hw). lia. }
    eexists _, _. split; [by rewrite app_nil_r|]. split; [done|].
    split_and!; [|done|done]. by rewrite (ReadAllLocked_tail _ (rs ++ [rec]) (file_ w ++ frame p) []) by (done || apply benign_nil).
Qed.

(** C40: an append whose flush fails is acknowledged and lost: the outcome of [flush] is not
    looked at, so when only part of the frame reaches the file and the sync then succeeds,
    [Append] reports the record's LSN and advances the chain, while a replay of the file
    stops before the record and takes the rest for the torn tail of a crash. *)
Theorem wal_unflushed_append_lost env w rs t c k d o n :
  wal_inv w rs -> next_lsn w < INT64_MAX -> append_args_ok w t c k d o ->
  nonce_ok (e_nonce env) -> e_io env = IoFlushFail n ->
  Z.of_nat n < frame_size (subkey w) (new_record w t c k d o) ->
  exists w' wr, Append env w t c k d o = (OK (next_lsn w), w')
    /\ next_lsn w' = next_lsn w + 1
    /\ ReadAllLocked w' = Some (rs, wr) /\ last_read_corrupt wr = false.
Proof.
  intros Hw Hmax Ha Hn Hio Hlt. pose proof (new_record_ok _ _ _ _ _ _ _ Hw Hmax Ha) as Hr.
  set (rec := new_record w t c k d o) in *.
  destruct (SealPayload_ok (subkey w) (e_nonce env) (EncodeBody rec) (inv_key _ _ Hw) Hn) as [p Hp].
  assert (is_frame (subkey w) rec (frame p)) as Hfr by (by exists (e_nonce env), p).
  pose proof (frame_size_ok _ _ _ Hfr) as Hsz.
  set (w' := commit_record (e_now env) (e_hwm env) w (file_ w ++ take n (frame p)) rec).
  assert (is_open w' = is_open w /\ file_ w' = file_ w ++ take n (frame p) /\ subkey w' = subkey w /\ next_lsn w' = next_lsn w + 1)
    as (F1 & F2 & F3 & F4) by (unfold w', commit_record; by destruct (WriteHwmIfDueLocked _ _ _ _ _) as [[? ?] ?]).
  assert (Hread : ReadAllLocked w' = Some (rs, after_read w' (index_log (subkey w') 0 (lsn_offsets w') rs) false false)).
  { assert (Hb : benign (subkey w) (take n (frame p))) by (apply (torn_benign _ rec); [done|done|]; unfold Zlen in Hsz; lia).
    apply (ReadAllLocked_tail w' rs (file_ w) (take n (frame p))); rewrite ?F1, ?F2, ?F3; [apply (inv_open _ _ Hw)|done|apply (inv_log _ _ Hw)|apply (inv_lsns _ _ Hw)|done]. }
  eexists w', _. split_and!; [|done|exact Hread|done].
  unfold Append. fold rec. destruct (Z.eqb_spec (next_lsn w) INT64_MAX); [lia|].
  by rewrite Hp, (inv_open _ _ Hw), Hio.
Qed.

(** C5: an append on an intact log whose write stops after any number of bytes loses at
    most itself: it reports an I/O error, and a start with the same key and mark accepts
    the file and holds exactly the records the log had, followed by the new one in the one
    case that its frame is complete although it was not acknowledged. *)
Theorem wal_crash_recovery nonces io hio dek env w rs t c k d o n :
  wal_inv w rs -> next_lsn w < INT64_MAX -> append_args_ok w t c k d o ->
  nonce_ok (e_nonce env) -> e_io env = IoWriteFail n -> dek_for dek (subkey w) ->
  exists w1 w2 w3, Append env w t c k d o = (Fault kIOError, w1)
    /\ Open nonces io hio (file_ w1) (hwm_file w1) dek = Some (OK w2)
    /\ let rs' := if Zlen (file_ w1) <? Zlen (file_ w) + frame_size (subkey w) (new_record w t c k d o)
                  then rs else rs ++ [new_record w t c k d o] in
       ReadAllLocked w2 = Some (rs', w3) /\ next_lsn w2 = expect 0 rs'
       /\ tip_hash w2 = tip_of GenesisHash rs'.
Proof. apply crash_recovery. Qed.

(** A ledger cut back to fewer records than its high-water mark records is
    refused at boot: [Open] on the frames of a proper prefix whose last LSN is
    below the mark answers Corruption instead of reusing LSNs. *)
Theorem wal_truncation_refused nonces io hio dek w rs1 rs2 f1 id h :
  wal_inv w (rs1 ++ rs2) -> dek_for dek (subkey w) ->
  hwm_file w = Some (id, h) -> last_lsn rs1 < id -> log_of (subkey w) rs1 f1 ->
  Open nonces io hio f1 (hwm_file w) dek = Some (Fault kCorruption).
Proof.
  intros Hw Hdek Hm Hlt Hf. destruct (dek_for_key _ _ Hdek) as [Hk Hhk].
  pose proof (proj1 (lsns_from_app _ _ _) (inv_lsns _ _ Hw)) as [Hl _].
  pose proof (proj1 (chain_ok_app _ _ _) (inv_chain _ _ Hw)) as [Hc _].
  destruct (DetectMode_intact _ _ _ Hf) as [b Hb].
  rewrite <- (app_nil_r f1), (Open_log _ _ _ (subkey w) rs1);
    [|done|done|done|done|apply benign_nil|rewrite <- Hhk, app_nil_r; by exists b].
  rewrite Hm. unfold below_mark. by destruct (Z.ltb_spec (last_lsn rs1) id); [|lia].
Qed.
End WalProps.

(** ** Concrete logs *)
Definition empty_log (key : bytes) : WriteAheadLog :=
  mkWal [] true None 0 [] GenesisHash kInvalidLsn false [] None key (-1) 0 false.

Lemma empty_log_inv `{CryptoLaws} key : key_ok key -> wal_inv (empty_log key) [].
Proof.
  intros Hk. split; try done; try constructor.
  - intros i off Hi. change (@nil Z !! i = Some off) in Hi. by rewrite lookup_nil in Hi.
  - intros r Hr. by apply elem_of_nil in Hr.
Qed.

#[local] Existing Instance toy_crypto.

Definition demo_env : append_env := mkEnv (replicate kPageNonceLen Byte.x07) 5000 IoOk HwmOk.
Definition demo_put (io : append_io) (w : WriteAheadLog) (k : bytes) : StatusOr Z * WriteAheadLog :=
  Append (mkEnv (replicate kPageNonceLen Byte.x07) 5000 io HwmOk) w kPut (bs "c") k (bs "v") default_options.
Definition demo_log : WriteAheadLog := (demo_put IoOk (empty_log []) (bs "k1")).2.

Lemma demo_args w k :
  Zlen (EncodeBody (new_record w kPut (bs "c") k (bs "v") default_options)) + 36 <= kMaxRecordBytes ->
  append_args_ok w kPut (bs "c") k (bs "v") default_options.
Proof. by split. Qed.

Lemma demo_log_inv :
  wal_inv demo_log [new_record (empty_log []) kPut (bs "c") (bs "k1") (bs "v") default_options].
Proof.
  destruct (Append_inv demo_env (empty_log []) [] kPut (bs "c") (bs "k1") (bs "v") default_options)
    as (w' & Hap & Hinv); try done.
  - apply empty_log_inv. by left.
  - unfold demo_log, demo_put. fold demo_env. by rewrite Hap.
Qed.

Lemma demo_args_2 : append_args_ok demo_log kPut (bs "c") (bs "k2") (bs "v") default_options.
Proof. apply demo_args. by vm_compute. Qed.
Lemma demo_args_3 : append_args_ok demo_log kPut (bs "c") (bs "k3") (bs "v") default_options.
Proof. apply demo_args. by vm_compute. Qed.
Lemma demo_max : next_lsn demo_log < INT64_MAX.
Proof. by vm_compute. Qed.
Lemma demo_nonce : nonce_ok (replicate kPageNonceLen Byte.x07).
Proof. apply length_replicate. Qed.
Lemma demo_dek : dek_for [] (subkey demo_log).
Proof. by left. Qed.

Definition demo_rec (w : WriteAheadLog) (k : bytes) : WalRecord :=
  new_record w kPut (bs "c") k (bs "v") default_options.

Lemma wal_append_durable_witness :
  exists w' wr, demo_put IoOk demo_log (bs "k2") = (OK (next_lsn demo_log), w')
    /\ ReadAllLocked w' = Some ([demo_rec (empty_log []) (bs "k1"); demo_rec demo_log (bs "k2")], wr).
Proof.
  destruct (wal_append_durable demo_env demo_log _ kPut (bs "c") (bs "k2") (bs "v") default_options
    demo_log_inv demo_max demo_args_2 demo_nonce eq_refl) as (w' & H1 & _ & H2).
  destruct (H2 [] w' (appends_nil w')) as (wr & vr & wv & H3 & _).
  by exists w', wr.
Defined.

Lemma wal_read_range_witness :
  ReadRange demo_log 0 0 = Some [demo_rec (empty_log []) (bs "k1")].
Proof. exact (wal_read_range demo_log _ 0 0 demo_log_inv). Defined.

Lemma wal_sync_failure_forks_witness :
  exists w1 w2 w3, demo_put IoSyncFail demo_log (bs "k2") = (Fault kIOError, w1)
    /\ demo_put IoOk w1 (bs "k3") = (OK (next_lsn demo_log), w2)
    /\ ReadAllLocked w2 = Some ([demo_rec (empty_log []) (bs "k1"); demo_rec demo_log (bs "k2")], w3).
Proof.
  destruct (wal_sync_failure_forks demo_log _
    (mkEnv (replicate kPageNonceLen Byte.x07) 5000 IoSyncFail HwmOk)
    kPut (bs "c") (bs "k2") (bs "v") default_options demo_env
    kPut (bs "c") (bs "k3") (bs "v") default_options
    demo_log_inv demo_max demo_args_2 demo_args_3 demo_nonce demo_nonce eq_refl eq_refl)
    as (w1 & w2 & w3 & vr & w4 & H1 & H2 & H3 & _).
  by exists w1, w2, w3.
Defined.

Lemma wal_unflushed_append_lost_witness :
  exists w' wr, demo_put (IoFlushFail 20) demo_log (bs "k2") = (OK (next_lsn demo_log), w')
    /\ ReadAllLocked w' = Some ([demo_rec (empty_log []) (bs "k1")], wr).
Proof.
  destruct (wal_unflushed_append_lost (mkEnv (replicate kPageNonceLen Byte.x07) 5000 (IoFlushFail 20) HwmOk) demo_log _
    kPut (bs "c") (bs "k2") (bs "v") default_options 20
    demo_log_inv demo_max demo_args_2 demo_nonce eq_refl ltac:(by vm_compute)) as (w' & wr & H1 & _ & H2 & _).
  by exists w', wr.
Defined.

Lemma wal_crash_recovery_witness :
  exists w1 w2, demo_put (IoWriteFail 20) demo_log (bs "k2") = (Fault kIOError, w1)
    /\ Open (fun _ => []) RwOk HwmOk (file_ w1) (hwm_file w1) [] = Some (OK w2).
Proof.
  destruct (wal_crash_recovery (fun _ => []) RwOk HwmOk []
    (mkEnv (replicate kPageNonceLen Byte.x07) 5000 (IoWriteFail 20) HwmOk) demo_log _
    kPut (bs "c") (bs "k2") (bs "v") default_options 20
    demo_log_inv demo_max demo_args_2 demo_nonce eq_refl demo_dek)
    as (w1 & w2 & w3 & H1 & H2 & H3 & _).
  by exists w1, w2.
Defined.

Lemma wal_truncation_refused_witness :
  Open (fun _ => []) RwOk HwmOk [] (hwm_file demo_log) [] = Some (Fault kCorruption).
Proof.
  refine (wal_truncation_refused (fun _ => []) RwOk HwmOk [] demo_log []
    [demo_rec (empty_log []) (bs "k1")] [] 0 (tip_hash demo_log) demo_log_inv demo_dek _ _ _).
  - by vm_compute.
  - by vm_compute.
  - constructor.
Defined.

Definition demo_open (w : WriteAheadLog) : option (StatusOr WriteAheadLog) :=
  Open (fun _ => []) RwOk HwmOk (file_ w) (hwm_file w) [].
Definition torn_log : WriteAheadLog := (demo_put (IoWriteFail 20) demo_log (bs "k2")).2.
Definition torn_reopened : WriteAheadLog :=
  match demo_open torn_log with Some (OK w) => w | _ => empty_log [] end.
Definition torn_extended : WriteAheadLog := (demo_put IoOk torn_reopened (bs "k3")).2.

(** [Open] does not remove the torn tail it tolerates: after a crash in the
    middle of an append the log reopens, but the next append is written behind
    the torn bytes; it is acknowledged, and the following [Open] refuses the
    ledger as corrupt. *)
Theorem wal_append_after_torn_tail :
  demo_put (IoWriteFail 20) demo_log (bs "k2") = (Fault kIOError, torn_log)
  /\ demo_open torn_log = Some (OK torn_reopened)
  /\ demo_put IoOk torn_reopened (bs "k3") = (OK 1, torn_extended)
  /\ demo_open torn_extended = Some (Fault kCorruption).
Proof. split_and!; vm_compute; reflexivity. Qed.
