(* ===== verification/WalTamper.v ===== *)
(** * Tamper evidence of the hash chain: src/storage/wal.cpp, [VerifyChain]

    Two files, whatever bytes they hold, that both verify and end in the same
    entry hash attest to the same history, unless the attacker found two
    different strings with one digest or a string that hashes to zero. *)
From coqutil Require Import Word.LittleEndianList.
From S2P Require Import Prelude Bytes Hlc AtRest RecordLog Wal WalCodec WalLog WalProps.
Local Open Scope Z_scope.

(** ** What a reader's results satisfy, whatever the input *)
Definition reads {A} (P : A -> Prop) (m : Reader A) : Prop :=
  forall s a s', m s = Some (a, s') -> P a.

Lemma reads_bind {A B} (P : A -> Prop) (Q : B -> Prop) (m : Reader A) (k : A -> Reader B) :
  reads P m -> (forall a, P a -> reads Q (k a)) -> reads Q (rbind m k).
Proof.
  intros Hm Hk s b s'. unfold rbind. destruct (m s) as [[a s1]|] eqn:E; [|done].
  intros H. by apply (Hk a (Hm _ _ _ E) s1 b s').
Qed.

Lemma reads_ret {A} (P : A -> Prop) a : P a -> reads P (rret a).
Proof. intros Ha s b s' H. by injection H as <- _. Qed.

Lemma reads_fail {A} (P : A -> Prop) : reads P rfail.
Proof. done. Qed.

Lemma reads_if {A} (P : A -> Prop) (b : bool) (m1 m2 : Reader A) :
  reads P m1 -> reads P m2 -> reads P (if b then m1 else m2).
Proof. by destruct b. Qed.

Lemma reads_RawBytes (n : nat) : reads (fun s => length s = n) (ByteReader.RawBytes (Z.of_nat n)).
Proof.
  intros s a s' H. apply RawBytes_consumes in H as [_ H]; [|lia]. unfold Zlen in H. lia.
Qed.

Lemma reads_Read (n : nat) (w : Z) : w = Z.of_nat n * 8 -> reads (fits w) (ByteReader.Read (Z.of_nat n)).
Proof.
  intros ->. eapply reads_bind; [apply reads_RawBytes|]. intros s Hs. apply reads_ret.
  unfold fits. pose proof (le_combine_bound s) as Hb. rewrite Hs in Hb.
  by rewrite Z.mul_comm.
Qed.

Lemma reads_U8 : reads (fits 8) ByteReader.U8.
Proof. by apply (reads_Read 1). Qed.
Lemma reads_U32 : reads (fits 32) ByteReader.U32.
Proof. by apply (reads_Read 4). Qed.
Lemma reads_U64 : reads (fits 64) ByteReader.U64.
Proof. by apply (reads_Read 8). Qed.

Lemma reads_Bytes : reads blob_ok ByteReader.Bytes.
Proof.
  eapply reads_bind; [apply reads_U32|]. intros n Hn s a s' H. unfold fits in Hn.
  apply RawBytes_consumes in H as [_ H]; [|lia]. unfold blob_ok. lia.
Qed.

Create HintDb reads.
#[export] Hint Resolve reads_U8 reads_U32 reads_U64 reads_Bytes reads_RawBytes reads_ret reads_fail : reads.

Ltac reads_step := eapply reads_bind; [by eauto with reads|]; intros ? ?.

Section WalTamper.
Context `{C : Crypto} `{!CryptoLaws C}.
Implicit Types (r : WalRecord) (rs : list WalRecord).

(** Widths every decoded record has. *)
Record dec_ok r : Prop := {
  d_lsn : sfits 64 (r_lsn r);
  d_type : fits 8 (type_code (r_type r)) /\ type_of_code (type_code (r_type r)) = r_type r;
  d_collection : blob_ok (r_collection r);
  d_key : blob_ok (r_key r);
  d_document : blob_ok (r_document r);
  d_key_hash : blob_ok (r_key_hash r);
  d_hlc : fits 64 (physical_ms (r_hlc r)) /\ fits 32 (logical (r_hlc r));
  d_hlc_node : blob_ok (node_id (r_hlc r));
  d_origin : blob_ok (r_origin r);
  d_prev : length (r_prev_hash r) = kWalHashLen;
}.

Lemma type_of_code_ok c :
  fits 8 c -> fits 8 (type_code (type_of_code c))
    /\ type_of_code (type_code (type_of_code c)) = type_of_code c.
Proof.
  intros H. assert (type_code (type_of_code c) = c) as ->; [|done].
  unfold type_of_code.
  repeat match goal with |- context [c =? ?n] => destruct (Z.eqb_spec c n); [by subst|] end. done.
Qed.

Lemma dec_body_ok : reads dec_ok dec_body.
Proof.
  unfold dec_body. reads_step. apply reads_if; [apply reads_fail|].
  do 10 reads_step.
  eapply (reads_bind (fun _ => True)); [done|]. intros ? _. reads_step.
  eapply (reads_bind (fun _ => True)); [done|]. intros ? _.
  apply reads_if; [apply reads_fail|]. reads_step. apply reads_if; [apply reads_fail|]. reads_step.
  eapply (reads_bind (fun _ => True)); [done|]. intros [[[? ?] ?] ?] _.
  apply reads_ret. split; try done; [by apply to_signed_sfits|by apply type_of_code_ok].
Qed.

Lemma DecodeBodyV1_ok body r : DecodeBodyV1 body = Some r -> dec_ok r.
Proof.
  unfold DecodeBodyV1. destruct (_ <? _); [done|].
  match goal with |- context [match ?m body with _ => _ end] => assert (reads dec_ok m) as Hm end.
  { do 7 reads_step. apply reads_ret.
    split; try done; [by apply to_signed_sfits|by apply type_of_code_ok|].
    unfold LedgerKeyHash, blob_ok, Zlen. cbn [r_key_hash]. by rewrite sha_length. }
  match goal with |- context [match ?m body with _ => _ end] => destruct (m body) as [[r' s']|] eqn:E end;
    [|done].
  intros H. injection H as <-. by apply (Hm _ _ _ E).
Qed.

Lemma read_frame_dec key s r v1 rest : read_frame key s = FRec r v1 rest -> dec_ok r.
Proof.
  unfold read_frame. destruct (_ <? 4); [done|]. destruct (_ || _); [done|].
  destruct (_ <? _); [done|]. destruct (negb _); [done|].
  destruct (UnsealPayload _ _) as [[p|]|]; try done.
  unfold decode_payload. destruct (_ && _).
  - unfold DecodeBody. destruct (dec_body p) as [[r' s']|] eqn:E; [|done].
    intros H. injection H as <- _ _. by apply (dec_body_ok _ _ _ E).
  - destruct (DecodeBodyV1 p) as [r'|] eqn:E; [|done].
    intros H. injection H as <- _ _. by apply (DecodeBodyV1_ok p).
Qed.

Lemma read_loop_dec fuel key s off e offsets :
  Forall dec_ok (read_loop fuel key s off e offsets).1.1.1.
Proof.
  revert s off e offsets. induction fuel as [|fuel IH]; intros s off e offsets; [constructor|].
  cbn [read_loop]. destruct (read_frame key s) as [| | | |r v1 rest] eqn:E; try constructor.
  destruct (_ && _); [constructor|].
  match goal with |- context [read_loop fuel key rest ?a ?b ?c] =>
    specialize (IH rest a b c); destruct (read_loop fuel key rest a b c) as [[[rs o'] v'] en] end.
  constructor; [by eapply read_frame_dec|done].
Qed.

Lemma ReadAllLocked_dec w rs w' : ReadAllLocked w = Some (rs, w') -> Forall dec_ok rs.
Proof.
  unfold ReadAllLocked, read_all.
  pose proof (read_loop_dec (S (length (stream w))) (subkey w) (stream w) 0 0 (lsn_offsets w)) as H.
  destruct (read_loop _ _ _ _ _ _) as [[[rs0 o] v] en]. destruct en; intros [= <- _] || done; done.
Qed.

(** ** What a verified record commits to *)
Definition attested r :=
  (r_lsn r, r_type r, (r_collection r, r_key r, r_document r, r_key_hash r), r_hlc r, r_origin r,
   r_prev_hash r).

(** The string whose digest is the entry hash. *)
Definition hashed r : bytes :=
  if bound_ok r then BuildContent r else BuildContentLegacy r ++ r_prev_hash r.

Lemma hash_ok_hashed r : hash_ok r -> Sha256 (hashed r) = r_entry_hash r.
Proof.
  unfold hash_ok, hashed, legacy_ok. destruct (bound_ok r) eqn:E.
  - intros _. by apply bool_decide_eq_true_1 in E.
  - cbn [negb orb andb]. intros H. by apply bool_decide_eq_true_1 in H.
Qed.

Lemma lsn_bytes_inj (a b : Z) (x y : bytes) :
  sfits 64 a -> sfits 64 b -> ByteWriter.U64 a ++ x = ByteWriter.U64 b ++ y -> a = b /\ x = y.
Proof. apply (round_trip_inj ByteWriter.I64 ByteReader.I64 (sfits 64)). Qed.

Lemma body_fields_inj r1 r2 x1 x2 :
  dec_ok r1 -> dec_ok r2 -> body_fields r1 ++ x1 = body_fields r2 ++ x2 ->
  (r_lsn r1, r_type r1, (r_collection r1, r_key r1, r_document r1, r_key_hash r1), r_hlc r1, r_origin r1)
  = (r_lsn r2, r_type r2, (r_collection r2, r_key r2, r_document r2, r_key_hash r2), r_hlc r2, r_origin r2)
  /\ x1 = x2.
Proof.
  intros [A1 [A2 A2'] A3 A4 A5 A6 [A7 A7'] A8 A9 _] [B1 [B2 B2'] B3 B4 B5 B6 [B7 B7'] B8 B9 _] H.
  unfold body_fields in H. rewrite <- !app_assoc in H.
  apply lsn_bytes_inj in H as [? H]; [|done|done].
  apply (round_trip_inj _ ByteReader.U8 (fits 8)) in H as [Ht H]; [|done|done].
  apply (f_equal type_of_code) in Ht. rewrite A2', B2' in Ht.
  do 4 (apply (round_trip_inj _ ByteReader.Bytes blob_ok) in H as [? H]; [|done|done]).
  apply (round_trip_inj _ ByteReader.U64 (fits 64)) in H as [? H]; [|done|done].
  apply (round_trip_inj _ ByteReader.U32 (fits 32)) in H as [? H]; [|done|done].
  do 2 (apply (round_trip_inj _ ByteReader.Bytes blob_ok) in H as [? H]; [|done|done]).
  split; [|done]. destruct (r_hlc r1), (r_hlc r2). cbn in *. congruence.
Qed.

Lemma hashed_inj r1 r2 : dec_ok r1 -> dec_ok r2 -> hashed r1 = hashed r2 -> attested r1 = attested r2.
Proof.
  intros H1 H2. unfold hashed. rewrite !BuildContent_fields, !BuildContentLegacy_fields, <- !app_assoc.
  destruct (bound_ok r1), (bound_ok r2); intros H;
    (apply app_inj_1 in H as [Hm H]; [|by rewrite !U32_length]);
    try (exfalso; by vm_compute in Hm);
    (apply body_fields_inj in H as [Hf H]; [|done|done]); unfold attested; congruence.
Qed.

Lemma verify_loop_sound verify prev rs a b c :
  v_ok (verify_loop verify prev rs a b c) = true -> chain_ok prev rs.
Proof.
  revert prev a b c. induction rs as [|r rs IH]; intros prev a b c; [done|].
  cbn [verify_loop chain_ok]. unfold hash_ok. case_bool_decide as Hp; cbn [negb]; [|done].
  rewrite <- negb_orb. destruct (bound_ok r || legacy_ok r); cbn [negb]; [|done].
  destruct (is_unsigned r); [by intros H; apply IH in H|].
  destruct (match verify with Some v => _ | None => _ end); [done|]. by intros H; apply IH in H.
Qed.

Lemma VerifyChain_sound verify w vr w' :
  VerifyChain verify w = Some (vr, w') -> v_ok vr = true ->
  exists rs, ReadAllLocked w = Some (rs, w') /\ chain_ok GenesisHash rs /\ Forall dec_ok rs.
Proof.
  unfold VerifyChain. destruct (ReadAllLocked w) as [[rs w1]|] eqn:E; [|done].
  intros H. injection H as Hv <-. subst vr. destruct (last_read_corrupt w1); [done|]. intros H.
  exists rs. split_and!; [done|by eapply verify_loop_sound|by eapply ReadAllLocked_dec].
Qed.

(** An entry of each ledger, with one hash for two contents; an entry that hashes to the
    genesis value. *)
Definition sha_collision rs1 rs2 : Prop :=
  exists r1 r2, r1 ∈ rs1 /\ r2 ∈ rs2 /\ hashed r1 <> hashed r2 /\ Sha256 (hashed r1) = Sha256 (hashed r2).
Definition sha_zero_preimage rs1 rs2 : Prop := exists r, r ∈ rs1 ++ rs2 /\ Sha256 (hashed r) = GenesisHash.

Lemma collision_weaken rs1 rs2 x1 x2 :
  sha_collision rs1 rs2 \/ sha_zero_preimage rs1 rs2 ->
  sha_collision (rs1 ++ x1) (rs2 ++ x2) \/ sha_zero_preimage (rs1 ++ x1) (rs2 ++ x2).
Proof.
  intros [(r1 & r2 & ? & ? & ?)|(r & Hr & ?)]; [left; exists r1, r2|right; exists r]; set_solver.
Qed.

Lemma chain_determines rs1 rs2 :
  Forall dec_ok rs1 -> Forall dec_ok rs2 -> chain_ok GenesisHash rs1 -> chain_ok GenesisHash rs2 ->
  tip_of GenesisHash rs1 = tip_of GenesisHash rs2 ->
  map attested rs1 = map attested rs2 \/ sha_collision rs1 rs2 \/ sha_zero_preimage rs1 rs2.
Proof.
  revert rs2. induction rs1 as [|r1 rs1 IH] using rev_ind; intros rs2 D1 D2 C1 C2 Ht.
  - destruct rs2 as [|r2 rs2 _] using rev_ind; [by left|]. right. right.
    rewrite tip_of_app in Ht. apply chain_ok_app in C2 as [_ (_ & Hh & _)].
    exists r2. rewrite (hash_ok_hashed _ Hh), <- Ht. set_solver.
  - destruct rs2 as [|r2 rs2 _] using rev_ind.
    { right. right. rewrite tip_of_app in Ht. apply chain_ok_app in C1 as [_ (_ & Hh & _)].
      exists r1. rewrite (hash_ok_hashed _ Hh), Ht. set_solver. }
    rewrite !tip_of_app in Ht. apply chain_ok_app in C1 as [C1 (P1 & H1 & _)].
    apply chain_ok_app in C2 as [C2 (P2 & H2 & _)].
    apply Forall_app in D1 as [D1 E1]. apply Forall_app in D2 as [D2 E2].
    apply Forall_cons in E1 as [E1 _]. apply Forall_cons in E2 as [E2 _].
    destruct (decide (hashed r1 = hashed r2)) as [Heq|Hne].
    + pose proof (hashed_inj _ _ E1 E2 Heq) as Ha.
      assert (r_prev_hash r1 = r_prev_hash r2) as Hp by (unfold attested in Ha; congruence).
      destruct (IH rs2) as [Hm|Hbad]; try done; [congruence| |right; by apply collision_weaken].
      left. rewrite !map_app, Hm. cbn [map]. by rewrite Ha.
    + right. left. exists r1, r2. rewrite (hash_ok_hashed _ H1), (hash_ok_hashed _ H2). set_solver.
Qed.

(** C3: the tip hash commits to the whole history: two ledger files, whatever
    their bytes, that both pass [VerifyChain] and end in the same entry hash
    hold the same entries in the same order (position, type, collection, key,
    document, timestamp and origin), unless an entry of one and an entry
    of the other are a SHA-256 collision, or one of them hashes to the all-zero genesis
    value. *)
Theorem ledger_tip_commits_to_history ver1 ver2 w1 w2 vr1 vr2 w1' w2' :
  VerifyChain ver1 w1 = Some (vr1, w1') -> v_ok vr1 = true ->
  VerifyChain ver2 w2 = Some (vr2, w2') -> v_ok vr2 = true ->
  exists rs1 rs2, ReadAllLocked w1 = Some (rs1, w1') /\ ReadAllLocked w2 = Some (rs2, w2')
    /\ (last_hash rs1 = last_hash rs2 ->
        map attested rs1 = map attested rs2 \/ sha_collision rs1 rs2 \/ sha_zero_preimage rs1 rs2).
Proof.
  intros V1 O1 V2 O2.
  destruct (VerifyChain_sound _ _ _ _ V1 O1) as (rs1 & R1 & C1 & D1).
  destruct (VerifyChain_sound _ _ _ _ V2 O2) as (rs2 & R2 & C2 & D2).
  exists rs1, rs2. split_and!; [done|done|]. rewrite !last_hash_tip. by apply chain_determines.
Qed.
End WalTamper.

#[local] Existing Instance toy_crypto.
Definition demo_verified : option (VerifyResult * WriteAheadLog) := VerifyChain None demo_log.

Lemma ledger_tip_commits_to_history_witness :
  exists vr w', demo_verified = Some (vr, w') /\ v_ok vr = true
    /\ exists rs1 rs2, ReadAllLocked demo_log = Some (rs1, w') /\ ReadAllLocked demo_log = Some (rs2, w')
    /\ (last_hash rs1 = last_hash rs2 ->
        map attested rs1 = map attested rs2 \/ sha_collision rs1 rs2 \/ sha_zero_preimage rs1 rs2).
Proof.
  destruct (VerifyChain_inv _ _ demo_log_inv) as (vr & w' & Hv & Hok & _).
  exists vr, w'. split; [exact Hv|]. split; [exact Hok|].
  exact (ledger_tip_commits_to_history None None demo_log demo_log vr vr w' w' Hv Hok Hv Hok).
Defined.
