(* ===== verification/WalPrune.v ===== *)
(** * Pruning settled transit entries: src/storage/wal.cpp, [Prune]

    What a prune keeps, that the re-derived chain is again a complete log, and
    two histories in which it drops more than it should. *)
From S2P Require Import Prelude Bytes Hlc AtRest RecordLog Wal WalCodec WalLog WalProps.
Local Open Scope Z_scope.

Section WalPrune.
Context `{C : Crypto} `{!CryptoLaws C}.
Implicit Types (r : WalRecord) (rs : list WalRecord) (key f : bytes) (w : WriteAheadLog).

Definition survivors (ckpt : Z) rs : list WalRecord :=
  filter (fun r => droppable ckpt (claimed_below ckpt rs) r = false) rs.

(** Everything a record carries but its links and its signature. *)
Definition payload_of r :=
  (r_lsn r, r_type r, (r_collection r, r_key r, r_document r, r_key_hash r), r_hlc r, r_origin r,
   (r_transit_holder r, r_transit_size r, r_chunk_index r, r_chunk_total r), r_position_bound r).

Lemma relink_payload prev r : payload_of (relink prev r) = payload_of r.
Proof. done. Qed.

Lemma rechain_payload prev rs : map payload_of (rechain prev rs) = map payload_of rs.
Proof. revert prev. induction rs as [|r rs IH]; intros prev; [done|]. cbn. by rewrite IH. Qed.

Lemma relink_entry_length prev r : length (r_entry_hash (relink prev r)) = kWalHashLen.
Proof. unfold relink. cbn. destruct (r_position_bound r); apply sha_length. Qed.

Lemma relink_hash_ok prev r : hash_ok (relink prev r).
Proof.
  unfold hash_ok, legacy_ok. destruct (bound_ok (relink prev r)) eqn:E; [done|]. cbn [orb negb andb].
  apply bool_decide_eq_true_2. destruct (r_position_bound r) eqn:Eb.
  - apply bool_decide_eq_false_1 in E. destruct E. unfold relink. by rewrite Eb.
  - unfold relink. rewrite Eb. done.
Qed.

Lemma rechain_chain prev rs :
  chain_ok prev (rechain prev rs).
Proof.
  revert prev. induction rs as [|r rs IH]; intros prev; [done|]. cbn [rechain chain_ok].
  split_and!; [done|apply relink_hash_ok|apply IH].
Qed.

Lemma rechain_lsns e prev rs : lsns_from e rs -> lsns_from e (rechain prev rs).
Proof.
  revert e prev. induction rs as [|r rs IH]; intros e prev; [done|]. cbn [rechain lsns_from].
  intros [H1 H2]. split; [done|]. by apply IH.
Qed.

Lemma rechain_expect e prev rs : expect e (rechain prev rs) = expect e rs.
Proof.
  revert e prev. induction rs as [|r rs IH]; intros e prev; [done|].
  cbn [rechain expect fold_left]. apply IH.
Qed.

Lemma rechain_checkpoint prev rs : last_checkpoint (rechain prev rs) = last_checkpoint rs.
Proof.
  unfold last_checkpoint. generalize kInvalidLsn. revert prev.
  induction rs as [|r rs IH]; intros prev acc; [done|]. cbn [rechain fold_left]. apply IH.
Qed.

Lemma relink_size prev r :
  rec_ok r -> length prev = kWalHashLen -> Zlen (EncodeBody (relink prev r)) <= Zlen (EncodeBody r).
Proof.
  intros Hr Hp. unfold Zlen. rewrite !EncodeBody_fields.
  change (body_fields (relink prev r)) with (body_fields r).
  change (body_tail (relink prev r)) with (body_tail r).
  change (r_position_bound (relink prev r)) with (r_position_bound r).
  change (r_prev_hash (relink prev r)) with prev.
  rewrite !length_app, !U32_length, !Bytes_length, relink_entry_length, Hp, (ok_entry _ Hr), (ok_prev _ Hr).
  change (length (r_signature (relink prev r))) with 0%nat.
  destruct (r_position_bound r); [|lia]. rewrite Hp, (ok_prev _ Hr). lia.
Qed.

Lemma relink_ok prev r : rec_ok r -> length prev = kWalHashLen -> rec_ok (relink prev r).
Proof.
  intros Hr Hp. pose proof (relink_size prev r Hr Hp) as Hs. pose proof (relink_entry_length prev r).
  destruct Hr. split; try done. lia.
Qed.

Lemma rechain_ok prev rs :
  Forall rec_ok rs -> length prev = kWalHashLen -> Forall rec_ok (rechain prev rs).
Proof.
  intros H. revert prev. induction H as [|r rs Hr Hrs IH]; intros prev Hp; [constructor|].
  cbn [rechain]. constructor; [by apply relink_ok|]. apply IH, relink_entry_length.
Qed.

Lemma lsns_from_filter (P : WalRecord -> Prop) `{!forall r, Decision (P r)} e rs :
  lsns_from e rs -> lsns_from e (filter P rs) /\ expect e (filter P rs) <= expect e rs.
Proof.
  revert e. induction rs as [|r rs IH]; intros e; [done|]. cbn [lsns_from]. intros [H1 H2].
  rewrite filter_cons. destruct (IH _ H2) as [I1 I2]. destruct (decide (P r)).
  - cbn [lsns_from]. by split.
  - destruct (IH e) as [J1 J2]; [eapply lsns_from_weaken; [|done]; lia|]. split; [done|].
    pose proof (expect_mono _ _ H2).
    destruct rs as [|r' rs']; [cbn in *; lia|]. change (expect e (r :: r' :: rs')) with (expect e (r' :: rs')).
    done.
Qed.

Lemma rewrite_frames_ok nonces key rs :
  Forall rec_ok rs -> key_ok key -> (forall i, nonce_ok (nonces i)) ->
  exists f, rewrite_frames nonces key rs = OK f /\ log_of key rs f.
Proof.
  intros H Hk. revert nonces. induction H as [|r rs Hr Hrs IH]; intros nonces Hn.
  { exists []. split; [done|constructor]. }
  cbn [rewrite_frames]. destruct (SealPayload_ok key (nonces 0%nat) (EncodeBody r) Hk (Hn _)) as [p Hp].
  destruct (IH (fun i => nonces (S i))) as (f & Hf & Hlog); [by intros i|].
  rewrite Hp. cbn [sbind]. rewrite Hf. cbn [sbind]. exists (frame p ++ f). split; [done|].
  constructor; [done|by exists (nonces 0%nat), p|done].
Qed.

(** The log a rewrite leaves behind. *)
Lemma RewriteLocked_ok nonces w rs :
  Forall rec_ok rs -> lsns_from 0 rs -> key_ok (subkey w) -> (forall i, nonce_ok (nonces i)) ->
  exists f, log_of (subkey w) rs f
    /\ RewriteLocked nonces RwOk w rs
       = Some (OK tt, after_read (with_stream w f true []) (index_log (subkey w) 0 [] rs) false false).
Proof.
  intros Hok Hl Hk Hn. destruct (rewrite_frames_ok nonces _ rs Hok Hk Hn) as (f & Hf & Hlog).
  exists f. split; [done|]. unfold RewriteLocked. rewrite Hf.
  rewrite (ReadAllLocked_tail (with_stream w f true []) rs f []); try done;
    [cbn; by rewrite app_nil_r|apply benign_nil].
Qed.

Lemma filter_Zlen_eq (P : WalRecord -> Prop) `{!forall r, Decision (P r)} rs :
  Zlen rs - Zlen (filter P rs) = 0 -> filter P rs = rs.
Proof.
  unfold Zlen. induction rs as [|r rs IH]; [done|]. rewrite filter_cons.
  pose proof (length_filter P rs). destruct (decide (P r)); cbn [length]; intros Hz.
  - by rewrite IH by lia.
  - lia.
Qed.

Lemma below_mark_tip rs : Forall rec_ok rs ->
  below_mark (Some (expect 0 rs - 1, take 32 (tip_of GenesisHash rs))) rs = false.
Proof.
  intros H. rewrite take_ge by (by rewrite tip_of_length). unfold below_mark.
  rewrite <- last_lsn_expect, last_hash_tip. replace (last_lsn rs + 1 - 1) with (last_lsn rs) by lia.
  by rewrite Z.ltb_irrefl, Z.eqb_refl, bool_decide_eq_true_2.
Qed.

Lemma claimed_below_elem ckpt rs h :
  h ∈ claimed_below ckpt rs ->
  exists r, r ∈ rs /\ r_type r = kTransitClaimed /\ r_key_hash r = h /\ r_lsn r <= ckpt.
Proof.
  induction rs as [|r rs IH]; cbn [claimed_below]; [by intros ?%elem_of_nil|].
  destruct (Z.ltb_spec ckpt (r_lsn r)); [by intros ?%elem_of_nil|].
  assert (h ∈ claimed_below ckpt rs ->
    exists r', r' ∈ r :: rs /\ r_type r' = kTransitClaimed /\ r_key_hash r' = h /\ r_lsn r' <= ckpt) as Hrec.
  { intros Hh. destruct (IH Hh) as (r' & Hr' & Hrest). exists r'. split; [by apply elem_of_cons; right|done]. }
  case_bool_decide; [|done]. intros [->|Hh]%elem_of_cons; [|by apply Hrec].
  exists r. split_and!; [by apply elem_of_cons; left|done|done|lia].
Qed.

Lemma claimed_below_iff ckpt rs e h :
  lsns_from e rs ->
  h ∈ claimed_below ckpt rs
  <-> exists r, r ∈ rs /\ r_type r = kTransitClaimed /\ r_key_hash r = h /\ r_lsn r <= ckpt.
Proof.
  intros Hl. split; [apply claimed_below_elem|].
  revert e Hl. induction rs as [|r0 rs IH]; intros e Hl (r & Hr & Ht & Hh & Hle); [by apply elem_of_nil in Hr|].
  destruct Hl as [He Hl]. cbn [claimed_below]. apply elem_of_cons in Hr as [->|Hr].
  - destruct (Z.ltb_spec ckpt (r_lsn r0)); [lia|]. rewrite bool_decide_eq_true_2 by done.
    apply elem_of_cons. by left.
  - pose proof (lsns_from_elem _ _ _ Hl Hr). destruct (Z.ltb_spec ckpt (r_lsn r0)); [lia|].
    assert (h ∈ claimed_below ckpt rs) by (eapply IH; [done|by exists r]).
    case_bool_decide; [apply elem_of_cons; by right|done].
Qed.

(** ** What settled means *)

(** The key was claimed at or below the checkpoint. *)
Definition claimed_at (ckpt : Z) rs (h : bytes) : Prop :=
  exists r, r ∈ rs /\ r_type r = kTransitClaimed /\ r_key_hash r = h /\ r_lsn r <= ckpt.

(** A transit entry at or below the checkpoint whose key was claimed there. *)
Definition settled_entry (ckpt : Z) rs r : Prop :=
  (r_type r = kTransitIntent \/ r_type r = kTransitClaimed) /\ r_lsn r <= ckpt /\ claimed_at ckpt rs (r_key_hash r).

(** [kept] is [rs] in its order without the settled entries. *)
Definition unsettled (ckpt : Z) rs (kept : list WalRecord) : Prop :=
  kept `sublist_of` rs /\ forall r, r ∈ rs -> (r ∈ kept <-> ~ settled_entry ckpt rs r).

Lemma survivors_unsettled ckpt rs e : lsns_from e rs -> unsettled ckpt rs (survivors ckpt rs).
Proof.
  intros Hl. split.
  { unfold survivors. generalize (claimed_below ckpt rs). intros h. clear Hl. induction rs as [|r rs IH]; [done|].
    rewrite filter_cons. case_decide; by constructor. }
  intros r Hr. unfold survivors. rewrite list_elem_of_filter. unfold settled_entry, claimed_at.
  rewrite <- (claimed_below_iff _ _ _ _ Hl). unfold droppable, IsTransit.
  destruct (Z.leb_spec (r_lsn r) ckpt); cbn [andb]; [|split; [intros _ (_ & ? & _); lia|done]].
  destruct (decide (r_key_hash r ∈ claimed_below ckpt rs)) as [Hc|Hc];
    [rewrite (bool_decide_eq_true_2 (_ ∈ _)) by done|rewrite (bool_decide_eq_false_2 (_ ∈ _)), andb_false_r by done].
  - destruct (r_type r); cbn; naive_solver.
  - split; [by intros _ (_ & _ & ?)|done].
Qed.

Lemma prune_ok nonces hio w rs ckpt :
  wal_inv w rs -> (forall i, nonce_ok (nonces i)) -> hio <> HwmKept ->
  exists pr w' rs', Prune nonces RwOk hio w ckpt = Some (OK pr, w')
    /\ wal_inv w' rs'
    /\ map payload_of rs' = map payload_of (survivors ckpt rs)
    /\ dropped pr = Zlen rs - Zlen rs'.
Proof.
  intros Hw Hn Hio.
  unfold Prune. rewrite (ReadAllLocked_inv _ _ Hw). fold (survivors ckpt rs).
  pose proof (after_read_inv _ _ Hw) as Hw1.
  pose proof (log_of_ok _ _ _ (inv_log _ _ Hw)) as Hok.
  destruct (Z.eqb_spec (Zlen rs - Zlen (survivors ckpt rs)) 0) as [Hz|Hz].
  { eexists _, _, rs. split; [done|]. split; [exact Hw1|].
    rewrite (filter_Zlen_eq _ _ Hz : survivors ckpt rs = rs) in *. split; [done|cbn; lia]. }
  set (kept := rechain GenesisHash (survivors ckpt rs)).
  destruct (lsns_from_filter (fun r => droppable ckpt (claimed_below ckpt rs) r = false) 0 rs (inv_lsns _ _ Hw))
    as [Hl1 Hl2]. fold (survivors ckpt rs) in Hl1, Hl2.
  assert (Forall rec_ok kept) as Hkok.
  { apply rechain_ok; [|apply length_replicate]. apply Forall_forall. intros r [_ Hr]%list_elem_of_filter.
    by eapply Forall_forall in Hok. }
  assert (lsns_from 0 kept) as Hkl by (by apply rechain_lsns).
  set (w1 := after_read w _ _ _) in *.
  destruct (RewriteLocked_ok nonces w1 kept Hkok Hkl (inv_key _ _ Hw) Hn) as (f & Hf & ->).
  eexists _, _, kept. split; [done|].
  assert ((if bool_decide (kept = []) then 0 else last_lsn kept + 1) = expect 0 kept) as Hnext.
  { rewrite last_lsn_expect. case_bool_decide as Hk; [by rewrite Hk|done]. }
  split_and!.
  - destruct (index_log_ok (subkey w) [] kept []) as [Hi1 Hi2].
    { eapply Forall_impl; [exact Hkok|]. intros r Hr. apply (ok_lsn _ Hr). }
    { intros i off Hi. by rewrite lookup_nil in Hi. }
    { intros r Hr. by apply elem_of_nil in Hr. }
    split; cbn; rewrite ?Hnext; try done.
    + apply (inv_key _ _ Hw).
    + unfold kept. rewrite rechain_expect. pose proof (inv_max _ _ Hw). rewrite (inv_next _ _ Hw) in *. lia.
    + apply rechain_chain.
    + apply last_hash_tip.
    + rewrite last_hash_tip. destruct hio; [by apply below_mark_tip|done|done].
  - apply rechain_payload.
  - cbn. assert (Zlen kept = Zlen (survivors ckpt rs)) as ->; [|done].
    pose proof (f_equal length (rechain_payload GenesisHash (survivors ckpt rs))) as Hlen.
    rewrite !length_map in Hlen. unfold Zlen, kept. by rewrite Hlen.
Qed.

End WalPrune.

#[local] Existing Instance toy_crypto.

Definition transit_put (t : WalRecordType) (w : WriteAheadLog) : WriteAheadLog :=
  (Append demo_env w t (bs "c") (bs "k") [] default_options).2.

(** Intent, its claim, and a second intent of the same key, not yet claimed. *)
Definition reused_key_log : WriteAheadLog :=
  transit_put kTransitIntent (transit_put kTransitClaimed (transit_put kTransitIntent (empty_log []))).

Definition transit_rec (t : WalRecordType) (w : WriteAheadLog) : WalRecord :=
  new_record w t (bs "c") (bs "k") [] default_options.

Lemma transit_put_inv t w rs :
  wal_inv w rs -> next_lsn w < INT64_MAX -> append_args_ok w t (bs "c") (bs "k") [] default_options ->
  wal_inv (transit_put t w) (rs ++ [transit_rec t w]).
Proof.
  intros Hw Hm Ha. destruct (Append_inv demo_env w rs t (bs "c") (bs "k") [] default_options Hw Hm Ha demo_nonce eq_refl) as (w' & E & Hi).
  unfold transit_put. by rewrite E.
Qed.

Lemma reused_key_inv : exists rs, wal_inv reused_key_log rs /\ length rs = 3%nat.
Proof.
  eexists. split.
  - unfold reused_key_log. repeat (apply transit_put_inv; [|by vm_compute|by split; vm_compute]). apply empty_log_inv. by left.
  - done.
Qed.

Definition pruned_log : WriteAheadLog :=
  match Prune (fun _ => []) RwOk HwmOk reused_key_log 2 with Some (_, w) => w | None => reused_key_log end.

(** A claim settles every intent of its key at or below the checkpoint, the
    ones issued after it included: pruning a log that ends in an unclaimed
    intent of a key claimed earlier drops that intent, and with the whole tail
    gone the LSN counter goes back to zero, so that the next append reuses the
    number of an entry peers have already seen. *)
Theorem prune_drops_unclaimed_intent :
  (exists rs w, ReadAllLocked reused_key_log = Some (rs, w)
     /\ map (fun r => (r_lsn r, r_type r)) rs
        = [(0, kTransitIntent); (1, kTransitClaimed); (2, kTransitIntent)])
  /\ (exists pr, Prune (fun _ => []) RwOk HwmOk reused_key_log 2 = Some (OK pr, pruned_log) /\ dropped pr = 3)
  /\ file_ pruned_log = []
  /\ LastLsn reused_key_log = 2 /\ LastLsn pruned_log = -1
  /\ (Append demo_env pruned_log kPut (bs "c") (bs "other") [] default_options).1 = OK 0.
Proof.
  split_and!; try (vm_compute; reflexivity).
  - eexists _, _. split; vm_compute; reflexivity.
  - eexists. split; vm_compute; reflexivity.
Qed.

(** A prune whose update of the high-water mark fails reports success, and the next start
    refuses the ledger: the mark still names an entry that was dropped. *)
Definition stale_mark_log : WriteAheadLog :=
  match Prune (fun _ => []) RwOk HwmKept reused_key_log 2 with Some (_, w) => w | None => reused_key_log end.

Theorem prune_stale_mark_refused :
  (exists pr, Prune (fun _ => []) RwOk HwmKept reused_key_log 2 = Some (OK pr, stale_mark_log) /\ dropped pr = 3)
  /\ Open (fun _ => []) RwOk HwmOk (file_ stale_mark_log) (hwm_file stale_mark_log) [] = Some (Fault kCorruption).
Proof. split; [eexists; split; vm_compute; reflexivity|vm_compute; reflexivity]. Qed.

