(* ===== verification/Catalog.v ===== *)
(** * The catalog: src/storage/catalog.cpp

    Collection metadata with its JSON file, and the access-control decisions made
    from it.  Every mutation changes memory first and then rewrites the file, whose
    fate ([commit_io]) and nonce are arguments. *)
From Stdlib Require Import SpecFloat.
From S2P Require Import Prelude Bytes Json JsonText AtRest AtRestFiles.
Local Open Scope Z_scope.

(** ** JSON accessors not used elsewhere *)
Definition is_string (v : JsonValue) : bool := match v with JString _ => true | _ => false end.
Definition is_bool (v : JsonValue) : bool := match v with JBool _ => true | _ => false end.
Definition is_null (v : JsonValue) : bool := match v with JNull => true | _ => false end.
Definition is_number (v : JsonValue) : bool := match v with JInt _ | JDouble _ => true | _ => false end.
Definition AsString (v : JsonValue) : bytes := match v with JString s => s | _ => [] end.
Definition AsBool (v : JsonValue) : bool := match v with JBool b => b | _ => false end.

(** [static_cast<int64_t>(double)]: towards zero, where the result fits. *)
Definition f64_trunc (f : spec_float) : Z :=
  match f with
  | S754_finite s m e =>
      let a := if 0 <=? e then Zpos m * 2 ^ e else Zpos m / 2 ^ (- e) in if s then - a else a
  | _ => 0
  end.
Definition AsInt (v : JsonValue) : Z :=
  match v with JInt i => i | JDouble d => f64_trunc (f64_of_bits d) | _ => 0 end.

(** ** Access control lists *)
Record CollectionAcl := mkAcl {
  owner_node : bytes;
  is_private : bool;
  readers : list bytes;
  acl_parent : bytes;
}.

#[export] Instance CollectionAcl_eq_dec : EqDecision CollectionAcl.
Proof. solve_decision. Defined.

Definition public_acl : CollectionAcl := mkAcl [] false [] [].

Definition AllowsReader (a : CollectionAcl) (node_id : bytes) : bool :=
  if negb (is_private a) then true
  else if negb (bool_decide (owner_node a = [])) && bool_decide (node_id = owner_node a) then true
  else bool_decide (node_id ∈ readers a).

Definition EncodeAcl (a : CollectionAcl) : JsonValue :=
  JObject [(bs "owner_node", JString (owner_node a)); (bs "private", JBool (is_private a));
           (bs "readers", JArray (map JString (readers a))); (bs "parent", JString (acl_parent a))].

Definition string_member (v : JsonValue) (key : bytes) (d : bytes) : bytes :=
  match Find v key with Some x => if is_string x then AsString x else d | None => d end.

(** The members of an ACL object: shared by the catalog file, ledger replay and
    replicated envelopes. *)
Definition acl_members (v : JsonValue) : CollectionAcl :=
  mkAcl (string_member v (bs "owner_node") [])
    (match Find v (bs "private") with Some x => if is_bool x then AsBool x else false | None => false end)
    (match Find v (bs "readers") with
     | Some x => if is_array x then map AsString (filter (fun r => is_string r = true) (AsArray x)) else []
     | None => []
     end)
    (string_member v (bs "parent") []).

Definition DecodeAcl (v : JsonValue) : CollectionAcl := if is_object v then acl_members v else public_acl.

(** ** Metadata *)
Record CollectionMeta := mkMeta {
  cm_name : bytes;
  root_page_id : Z;
  has_schema : bool;
  cm_schema : JsonValue;
  created_at_ms : Z;
  cm_engine : bytes;
  cm_acl : CollectionAcl;
  acl_updated_ms : Z;
  retention_days : Z;
  shard_key : bytes;
  cm_replication_factor : Z;
  secondary_indexes : list bytes;
}.

Definition default_meta : CollectionMeta := mkMeta [] (-1) false JNull 0 [] public_acl 0 0 [] 0 [].

Record Catalog := mkCatalog { collections_ : gmap bytes CollectionMeta; cat_dek : bytes }.

Definition kMaxAclParentDepth : nat := 16.

(** One entry of the file. *)
Definition encode_meta (m : CollectionMeta) : JsonValue :=
  JObject
    [(bs "name", JString (cm_name m));
     (bs "root_page_id", JInt (root_page_id m));
     (bs "created_at_ms", JInt (to_signed 64 (created_at_ms m)));
     (bs "schema", if has_schema m then cm_schema m else JNull);
     (bs "engine", JString (cm_engine m));
     (bs "acl", EncodeAcl (cm_acl m));
     (bs "acl_updated_ms", JInt (to_signed 64 (acl_updated_ms m)));
     (bs "retention_days", JInt (retention_days m));
     (bs "shard_key", JString (shard_key m));
     (bs "replication_factor", JInt (cm_replication_factor m))].

Definition number_member (v : JsonValue) (key : bytes) (w : Z) (d : Z) : Z :=
  match Find v key with Some x => if is_number x then wrap w (AsInt x) else d | None => d end.

Definition decode_meta (e : JsonValue) : CollectionMeta :=
  let schema := match Find e (bs "schema") with Some s => if is_null s then None else Some s | None => None end in
  mkMeta (AsString (Json.Get e (bs "name")))
    (to_signed 32 (u32 (AsInt (Json.Get e (bs "root_page_id")))))
    (match schema with Some _ => true | None => false end) (default JNull schema)
    (u64 (AsInt (Json.Get e (bs "created_at_ms"))))
    (string_member e (bs "engine") [])
    (match Find e (bs "acl") with Some a => DecodeAcl a | None => public_acl end)
    (number_member e (bs "acl_updated_ms") 64 0)
    (number_member e (bs "retention_days") 32 0)
    (string_member e (bs "shard_key") [])
    (number_member e (bs "replication_factor") 32 0) [].

Definition load_entry (m : gmap bytes CollectionMeta) (e : JsonValue) : gmap bytes CollectionMeta :=
  let meta := decode_meta e in <[cm_name meta := meta]> m.

Section Catalog.
Context `{C : Crypto}.

(** [None]: an exception of [OpenFile] escapes. *)
Definition LoadFromDisk (file : option bytes) (dek : bytes) : option (StatusOr (gmap bytes CollectionMeta)) :=
  match ReadSealedJsonFile file dek (bs "catalog") with
  | None => None
  | Some (Fault c) => Some (if bool_decide (c = kNotFound) then OK ∅ else Fault c)
  | Some (OK text) =>
      if bool_decide (text = []) then Some (OK ∅)
      else match Parse text with
           | None => Some (Fault kCorruption)
           | Some root => Some (OK (if is_array root then fold_left load_entry (AsArray root) ∅ else ∅))
           end
  end.

Definition OpenCatalog (file : option bytes) (dek : bytes) : option (StatusOr Catalog) :=
  if bad_dek dek then Some (Fault kInvalidArgument)
  else match LoadFromDisk file dek with
       | None => None
       | Some (Fault c) => Some (Fault c)
       | Some (OK m) => Some (OK (mkCatalog m dek))
       end.

Definition catalog_text (m : gmap bytes CollectionMeta) : bytes := Dump (JArray (map encode_meta (map_to_list m).*2)).

(** What a save meets: the fate of the replacement and the nonce. *)
Record save_env := mkSaveEnv { se_io : commit_io; se_nonce : bytes }.

Definition SaveLocked (e : save_env) (c : Catalog) (file : option bytes) : StatusOr unit * option bytes :=
  WriteSealedJsonFile (se_io e) (se_nonce e) (catalog_text (collections_ c)) (cat_dek c) (bs "catalog") file.

Definition HasCollection (c : Catalog) (name : bytes) : bool := bool_decide (is_Some (collections_ c !! name)).
Definition GetCopy (c : Catalog) (name : bytes) : option CollectionMeta := collections_ c !! name.
Definition ListCollections (c : Catalog) : list bytes := (map_to_list (collections_ c)).*1.

(** Memory is changed, then the file; a failed save leaves memory changed. *)
Definition store (e : save_env) (name : bytes) (m : CollectionMeta) (c : Catalog) (file : option bytes)
  : StatusOr unit * Catalog * option bytes :=
  let c' := mkCatalog (<[name := m]> (collections_ c)) (cat_dek c) in
  let '(st, file') := SaveLocked e c' file in (st, c', file').

Definition fresh_meta (now : Z) (name : bytes) (root : Z) : CollectionMeta :=
  mkMeta name root false JNull now [] public_acl 0 0 [] 0 [].

Definition CreateCollection (now : Z) (e : save_env) (name : bytes) (root : Z) (c : Catalog) (file : option bytes)
  : StatusOr unit * Catalog * option bytes :=
  match collections_ c !! name with
  | Some _ => (Fault kAlreadyExists, c, file)
  | None => store e name (fresh_meta now name root) c file
  end.

Definition set_root (root : Z) (m : CollectionMeta) : CollectionMeta :=
  mkMeta (cm_name m) root (has_schema m) (cm_schema m) (created_at_ms m) (cm_engine m) (cm_acl m)
    (acl_updated_ms m) (retention_days m) (shard_key m) (cm_replication_factor m) (secondary_indexes m).

Definition UpsertRootPageId (now : Z) (e : save_env) (name : bytes) (root : Z) (c : Catalog) (file : option bytes)
  : StatusOr unit * Catalog * option bytes :=
  store e name (match collections_ c !! name with
                | Some m => set_root root m
                | None => fresh_meta now name root
                end) c file.

(** The setters of an existing collection. *)
Definition with_meta (e : save_env) (name : bytes) (g : CollectionMeta -> StatusOr CollectionMeta) (c : Catalog)
    (file : option bytes) : StatusOr unit * Catalog * option bytes :=
  match collections_ c !! name with
  | None => (Fault kNotFound, c, file)
  | Some m => match g m with
              | Fault code => (Fault code, c, file)
              | OK m' => store e name m' c file
              end
  end.

Definition SetSchema e name (schema : JsonValue) :=
  with_meta e name (fun m => OK (mkMeta (cm_name m) (root_page_id m) true schema (created_at_ms m) (cm_engine m)
    (cm_acl m) (acl_updated_ms m) (retention_days m) (shard_key m) (cm_replication_factor m) (secondary_indexes m))).

Definition DropSchema e name :=
  with_meta e name (fun m => OK (mkMeta (cm_name m) (root_page_id m) false (cm_schema m) (created_at_ms m) (cm_engine m)
    (cm_acl m) (acl_updated_ms m) (retention_days m) (shard_key m) (cm_replication_factor m) (secondary_indexes m))).

Definition SetEngine e name (engine : bytes) :=
  with_meta e name (fun m =>
    if negb (bool_decide (cm_engine m = [])) && negb (bool_decide (cm_engine m = engine)) then Fault kInvalidArgument
    else OK (mkMeta (cm_name m) (root_page_id m) (has_schema m) (cm_schema m) (created_at_ms m) engine
      (cm_acl m) (acl_updated_ms m) (retention_days m) (shard_key m) (cm_replication_factor m) (secondary_indexes m))).

Definition SetAclAt e name (acl : CollectionAcl) (updated_ms : Z) :=
  with_meta e name (fun m =>
    if bool_decide (acl_parent acl = name) then Fault kInvalidArgument
    else if updated_ms <? acl_updated_ms m then Fault kInvalidArgument
    else OK (mkMeta (cm_name m) (root_page_id m) (has_schema m) (cm_schema m) (created_at_ms m) (cm_engine m)
      acl updated_ms (retention_days m) (shard_key m) (cm_replication_factor m) (secondary_indexes m))).

Definition SetAcl (now : Z) e name acl := SetAclAt e name acl now.

Definition SetRetentionDays e name (days : Z) :=
  with_meta e name (fun m => OK (mkMeta (cm_name m) (root_page_id m) (has_schema m) (cm_schema m) (created_at_ms m)
    (cm_engine m) (cm_acl m) (acl_updated_ms m) days (shard_key m) (cm_replication_factor m) (secondary_indexes m))).

Definition SetPlacement e name (key : bytes) (rf : Z) :=
  with_meta e name (fun m => OK (mkMeta (cm_name m) (root_page_id m) (has_schema m) (cm_schema m) (created_at_ms m)
    (cm_engine m) (cm_acl m) (acl_updated_ms m) (retention_days m) key rf (secondary_indexes m))).
End Catalog.

(** ** Decisions *)
Definition asserts_own (a : CollectionAcl) : bool :=
  is_private a || negb (bool_decide (owner_node a = [])) || negb (bool_decide (readers a = [])).

Definition denied_acl : CollectionAcl := mkAcl ([Byte.x01] ++ bs "invalid") true [] [].

Fixpoint resolve_acl (depth : nat) (m : gmap bytes CollectionMeta) (cursor : bytes) : CollectionAcl :=
  match depth with
  | O => denied_acl
  | S depth' =>
      match m !! cursor with
      | None => public_acl
      | Some meta =>
          let a := cm_acl meta in
          if bool_decide (acl_parent a = []) || asserts_own a then a else resolve_acl depth' m (acl_parent a)
      end
  end.

Definition EffectiveAcl (c : Catalog) (name : bytes) : CollectionAcl :=
  resolve_acl kMaxAclParentDepth (collections_ c) name.

Definition CanRead (c : Catalog) (collection node_id : bytes) : bool :=
  AllowsReader (EffectiveAcl c collection) node_id.

Definition CanWrite (c : Catalog) (collection node_id : bytes) : bool :=
  let a := EffectiveAcl c collection in
  if negb (is_private a) then true
  else negb (bool_decide (owner_node a = [])) && bool_decide (node_id = owner_node a).
