(* ===== verification/CatalogProps.v ===== *)
(** * Theorems about the catalog

    What was saved is what the next start loads, and it decides access alike; the
    parent chain of an access-control list resolves within its bound or denies;
    concurrent lists converge under last-writer-wins. *)
From S2P Require Import Prelude Bytes Json JsonText AtRest AtRestFiles Catalog.
Local Open Scope Z_scope.

(** ** One entry of the file *)
Definition meta_ok (m : CollectionMeta) : Prop :=
  sfits 32 (root_page_id m) /\ fits 64 (created_at_ms m) /\ fits 64 (acl_updated_ms m)
  /\ fits 32 (retention_days m) /\ fits 32 (cm_replication_factor m) /\ secondary_indexes m = []
  /\ (has_schema m = true -> cm_schema m <> JNull /\ no_double (cm_schema m) = true).

(** What a restart keeps of an entry: a dropped schema is gone. *)
Definition saved (m : CollectionMeta) : CollectionMeta :=
  mkMeta (cm_name m) (root_page_id m) (has_schema m) (if has_schema m then cm_schema m else JNull)
    (created_at_ms m) (cm_engine m) (cm_acl m) (acl_updated_ms m) (retention_days m) (shard_key m)
    (cm_replication_factor m) (secondary_indexes m).

Lemma strings_filtered l : map AsString (filter (fun r => is_string r = true) (map JString l)) = l.
Proof. induction l as [|s l IH]; [done|]. cbn [map]. rewrite filter_cons_True by done. cbn. by rewrite IH. Qed.

Lemma DecodeAcl_EncodeAcl a : DecodeAcl (EncodeAcl a) = a.
Proof.
  destruct a as [o p r q]. rewrite <- (strings_filtered r) at 2. done.
Qed.

Lemma wrap_to_signed64 z : fits 64 z -> wrap 64 (to_signed 64 z) = z /\ sfits 64 (to_signed 64 z).
Proof.
  unfold fits, sfits, to_signed, wrap. intros Hz. change (2 ^ (64 - 1)) with (2 ^ 63).
  destruct (Z.ltb_spec z (2 ^ 63)); [rewrite Z.mod_small by lia; lia|].
  split; [|lia]. rewrite <- (Z.mod_add _ 1) by lia. rewrite Z.mul_1_l, Z.sub_add. by apply Z.mod_small.
Qed.

Lemma decode_encode_meta m : meta_ok m -> decode_meta (encode_meta m) = saved m.
Proof.
  destruct m as [n r h s t e a u d k f x]. unfold meta_ok. cbn.
  intros (Hr & Ht & Hu & Hd & Hf & -> & Hs).
  transitivity (mkMeta n (to_signed 32 (wrap 32 r)) h (if h then s else JNull) (wrap 64 (to_signed 64 t)) e
                  (DecodeAcl (EncodeAcl a)) (wrap 64 (to_signed 64 u)) (wrap 32 d) k (wrap 32 f) []).
  - destruct h; [|done]. destruct Hs as [Hn _]; [done|]. by destruct s.
  - rewrite DecodeAcl_EncodeAcl, to_signed_wrap, (proj1 (wrap_to_signed64 t Ht)), (proj1 (wrap_to_signed64 u Hu)), !wrap_id by done. done.
Qed.

Lemma int64_no_double z : sfits 64 z -> no_double (JInt z) = true.
Proof. unfold sfits. change (2 ^ (64 - 1)) with (2 ^ 63). cbn. lia. Qed.

Lemma fits32_sfits64 z : fits 32 z \/ sfits 32 z -> sfits 64 z.
Proof. unfold fits, sfits. cbn. lia. Qed.

Lemma encode_meta_no_double m : meta_ok m -> no_double (encode_meta m) = true.
Proof.
  intros (Hr & Ht & Hu & Hd & Hf & _ & Hs). unfold encode_meta.
  change (forallb (fun kv => no_double (snd kv))
    [(bs "root_page_id", JInt (root_page_id m)); (bs "created_at_ms", JInt (to_signed 64 (created_at_ms m)));
     (bs "schema", if has_schema m then cm_schema m else JNull); (bs "acl", EncodeAcl (cm_acl m));
     (bs "acl_updated_ms", JInt (to_signed 64 (acl_updated_ms m)));
     (bs "retention_days", JInt (retention_days m));
     (bs "replication_factor", JInt (cm_replication_factor m))] = true).
  cbn [forallb snd]. rewrite !int64_no_double by (first [by apply wrap_to_signed64 | apply fits32_sfits64; auto]).
  assert (no_double (if has_schema m then cm_schema m else JNull) = true) as ->.
  { destruct (has_schema m); [by apply Hs|done]. }
  cbn. rewrite !andb_true_r. apply forallb_forall. intros x Hx. by apply in_map_iff in Hx as (? & <- & _).
Qed.

(** ** The whole file *)
Definition catalog_ok (m : gmap bytes CollectionMeta) : Prop :=
  map_Forall (fun name meta => cm_name meta = name /\ meta_ok meta) m.

Lemma load_entries (l : list (bytes * CollectionMeta)) (m0 : gmap bytes CollectionMeta) :
  NoDup l.*1 -> Forall (fun kv => cm_name kv.2 = kv.1 /\ meta_ok kv.2) l ->
  fold_left load_entry (map encode_meta l.*2) m0 = list_to_map (prod_map id saved <$> l) ∪ m0.
Proof.
  intros Hn Hl. revert m0 Hn. induction Hl as [|[k v] l [Hk Hv] _ IH]; intros m0 Hn; [symmetry; apply map_empty_union|].
  cbn in *. apply NoDup_cons in Hn as [Hni Hn]. rewrite IH by done.
  unfold load_entry. rewrite decode_encode_meta by done. cbn. rewrite Hk.
  rewrite <- insert_union_l. symmetry. apply insert_union_r, not_elem_of_list_to_map.
  by rewrite <- list_fmap_compose.
Qed.

Lemma load_encoded m :
  catalog_ok m -> fold_left load_entry (map encode_meta (map_to_list m).*2) ∅ = saved <$> m.
Proof.
  intros Hm. rewrite load_entries.
  - rewrite map_union_empty, list_to_map_fmap. by rewrite list_to_map_to_list.
  - apply NoDup_fst_map_to_list.
  - apply Forall_forall. intros [k v] Hk. by apply Hm, elem_of_map_to_list.
Qed.

Lemma catalog_no_double m : catalog_ok m -> no_double (JArray (map encode_meta (map_to_list m).*2)) = true.
Proof.
  intros Hm. cbn. apply forallb_forall. intros x (v & <- & Hv)%in_map_iff.
  apply list_elem_of_In, list_elem_of_fmap in Hv as ([k v'] & -> & Hk).
  apply encode_meta_no_double. by eapply Hm, elem_of_map_to_list.
Qed.

Lemma catalog_text_head m : exists rest, catalog_text m = Byte.x5b :: rest.
Proof. by eexists. Qed.

Section Restart.
Context `{C : Crypto} `{!CryptoLaws C}.

Lemma saved_loads e c file file' :
  length (se_nonce e) = kPageNonceLen -> catalog_ok (collections_ c) ->
  SaveLocked e c file = (OK tt, file') ->
  OpenCatalog file' (cat_dek c) = Some (OK (mkCatalog (saved <$> collections_ c) (cat_dek c))).
Proof.
  intros Hn Hm Hs. unfold SaveLocked in Hs.
  assert (Hb : bad_dek (cat_dek c) = false).
  { revert Hs. unfold WriteSealedJsonFile. by destruct (bad_dek (cat_dek c)). }
  destruct (catalog_text_head (collections_ c)) as [rest Ht].
  assert (Hne : catalog_text (collections_ c) <> []) by by rewrite Ht.
  assert (Hls : LooksSealedFile (catalog_text (collections_ c)) = false).
  { rewrite Ht. unfold LooksSealedFile. apply andb_false_r. }
  destruct (sealed_json_round_trip _ _ _ _ _ _ _ Hn Hne Hls Hs) as [Hr _].
  unfold OpenCatalog, LoadFromDisk. rewrite Hb, Hr, bool_decide_eq_false_2 by done.
  unfold catalog_text. rewrite Parse_Dump by by apply catalog_no_double.
  cbn [is_array AsArray]. by rewrite load_encoded.
Qed.

(** ** Operations *)
Inductive cat_op :=
  | OpCreate (now : Z) (name : bytes) (root : Z)
  | OpUpsertRoot (now : Z) (name : bytes) (root : Z)
  | OpSetSchema (name : bytes) (schema : JsonValue)
  | OpDropSchema (name : bytes)
  | OpSetEngine (name engine : bytes)
  | OpSetAcl (name : bytes) (acl : CollectionAcl) (updated_ms : Z)
  | OpSetRetention (name : bytes) (days : Z)
  | OpSetPlacement (name key : bytes) (rf : Z).

Definition cat_step (e : save_env) (o : cat_op) : Catalog -> option bytes -> StatusOr unit * Catalog * option bytes :=
  match o with
  | OpCreate now name root => CreateCollection now e name root
  | OpUpsertRoot now name root => UpsertRootPageId now e name root
  | OpSetSchema name schema => SetSchema e name schema
  | OpDropSchema name => DropSchema e name
  | OpSetEngine name engine => SetEngine e name engine
  | OpSetAcl name acl ms => SetAclAt e name acl ms
  | OpSetRetention name days => SetRetentionDays e name days
  | OpSetPlacement name key rf => SetPlacement e name key rf
  end.

(** Arguments within the widths of their parameters; a schema is a JSON value without
    doubles, not [null]. *)
Definition op_ok (o : cat_op) : Prop :=
  match o with
  | OpCreate now _ root | OpUpsertRoot now _ root => fits 64 now /\ sfits 32 root
  | OpSetSchema _ schema => schema <> JNull /\ no_double schema = true
  | OpDropSchema _ | OpSetEngine _ _ => True
  | OpSetAcl _ _ ms => fits 64 ms
  | OpSetRetention _ days => fits 32 days
  | OpSetPlacement _ _ rf => fits 32 rf
  end.

(** An operation is refused with nothing changed, or it stores one well-formed entry
    and saves. *)
Definition refused_or_stored (e : save_env) (c : Catalog) (file : option bytes)
    (r : StatusOr unit * Catalog * option bytes) : Prop :=
  (exists code, r = (Fault code, c, file))
  \/ (exists name m, cm_name m = name /\ meta_ok m /\ r = store e name m c file).

Lemma with_meta_cases e name g c file :
  catalog_ok (collections_ c) ->
  (forall m m', cm_name m = name -> meta_ok m -> g m = OK m' -> cm_name m' = name /\ meta_ok m') ->
  refused_or_stored e c file (with_meta e name g c file).
Proof.
  intros Hm Hg. unfold with_meta. destruct (collections_ c !! name) as [m|] eqn:E; [|left; by eexists].
  apply Hm in E as [E1 E2]. destruct (g m) as [m'|code] eqn:Eg; [|left; by eexists].
  right. exists name, m'. destruct (Hg m m' E1 E2 Eg). done.
Qed.

Lemma cat_step_cases e o c file :
  op_ok o -> catalog_ok (collections_ c) -> refused_or_stored e c file (cat_step e o c file).
Proof.
  intros Ho Hm.
  assert (Hf : forall now name root, fits 64 now -> sfits 32 root -> meta_ok (fresh_meta now name root)).
  { intros. unfold meta_ok. cbn. split_and!; try done; unfold fits; lia. }
  destruct o; cbn in Ho |- *;
    try (apply with_meta_cases; [done|]; unfold meta_ok; intros [] m' Hn Hok;
         repeat case_match; intros [= <-]; cbn in *; by naive_solver).
  - unfold CreateCollection. destruct (collections_ c !! name); [left; by eexists|].
    right. exists name, (fresh_meta now name root). destruct Ho. split_and!; [done|by apply Hf|done].
  - right. destruct Ho. unfold UpsertRootPageId. destruct (collections_ c !! name) as [m|] eqn:E.
    + apply Hm in E as [E Hok]. exists name, (set_root root m). split_and!; [done| |done].
      unfold meta_ok in *. by destruct m; cbn in *; naive_solver.
    + exists name, (fresh_meta now name root). split_and!; [done|by apply Hf|done].
Qed.

Fixpoint run_cat (l : list (save_env * cat_op)) (c : Catalog) (file : option bytes) : Catalog * option bytes :=
  match l with
  | [] => (c, file)
  | (e, o) :: l => let '(_, c', file') := cat_step e o c file in run_cat l c' file'
  end.

Lemma cat_step_ok e o c file st c' file' :
  op_ok o -> catalog_ok (collections_ c) -> cat_step e o c file = (st, c', file') ->
  catalog_ok (collections_ c') /\ cat_dek c' = cat_dek c.
Proof.
  intros Ho Hm E. destruct (cat_step_cases e o c file Ho Hm) as [[code H]|(name & m & Hn & Hok & H)];
    rewrite E in H; [by simplify_eq|]. revert H. unfold store.
  destruct (SaveLocked _ _ file) as [st' f']. intros. simplify_eq. cbn. split; [|done].
  by apply map_Forall_insert_2.
Qed.

Lemma run_cat_ok l c file :
  Forall (fun eo => op_ok eo.2) l -> catalog_ok (collections_ c) ->
  catalog_ok (collections_ (run_cat l c file).1) /\ cat_dek (run_cat l c file).1 = cat_dek c.
Proof.
  intros Hl. revert c file. induction Hl as [|[e o] l Ho _ IH]; intros c file Hm; [done|]. cbn.
  destruct (cat_step e o c file) as [[st c'] file'] eqn:E.
  destruct (cat_step_ok _ _ _ _ _ _ _ Ho Hm E) as [Hm' <-]. by apply IH.
Qed.

Lemma resolve_acl_saved n m cursor : resolve_acl n (saved <$> m) cursor = resolve_acl n m cursor.
Proof.
  revert cursor. induction n as [|n IH]; intros cursor; [done|]. cbn. rewrite lookup_fmap.
  destruct (m !! cursor) as [meta|]; [|done]. cbn. by rewrite IH.
Qed.

(** C30: whatever operations ran before from an empty catalog, an operation that reports
    success left a file from which the next start loads exactly the collections in memory
    (less dropped schemas) and answers every access question alike; one that reports failure
    left the file as it was, or lost it when the replacement was interrupted after the old
    file was removed. Conditions: the schemas set are not null and hold no floating-point
    numbers (their text loads as different values), numbers fit their widths, the key has
    its length or is absent, and the nonce its length. *)
Theorem catalog_survives_restart dek file0 l e o :
  bad_dek dek = false ->
  Forall (fun eo => op_ok eo.2) l -> op_ok o -> length (se_nonce e) = kPageNonceLen ->
  let '(c, file) := run_cat l (mkCatalog ∅ dek) file0 in
  let '(st, c', file') := cat_step e o c file in
  match st with
  | OK _ =>
      exists c2, OpenCatalog file' dek = Some (OK c2)
        /\ collections_ c2 = saved <$> collections_ c'
        /\ forall name node, CanRead c2 name node = CanRead c' name node
                          /\ CanWrite c2 name node = CanWrite c' name node
  | Fault _ => file' = file \/ (se_io e = CmRenameFail /\ file' = None)
  end.
Proof.
  intros Hd Hl Ho Hn. destruct (run_cat l (mkCatalog ∅ dek) file0) as [c file] eqn:Er.
  destruct (run_cat_ok l (mkCatalog ∅ dek) file0 Hl) as [Hm Hk]; [apply map_Forall_empty|].
  rewrite Er in Hm, Hk. cbn in Hm, Hk.
  destruct (cat_step e o c file) as [[st c'] file'] eqn:E.
  destruct (cat_step_ok _ _ _ _ _ _ _ Ho Hm E) as [Hm' Hk'].
  destruct (cat_step_cases e o c file Ho Hm) as [[code H]|(name & m & Hn' & Hok & H)]; rewrite E in H.
  { simplify_eq. by left. }
  unfold store in H. destruct (SaveLocked e _ file) as [st' f'] eqn:Es. simplify_eq.
  destruct st' as [[]|code].
  - pose proof (saved_loads _ _ _ _ Hn Hm' Es) as Ho'. cbn in Ho'.
    eexists. split; [done|]. split; [done|]. intros name' node. unfold CanRead, CanWrite, EffectiveAcl.
    cbn [collections_]. by rewrite resolve_acl_saved.
  - revert Es. unfold SaveLocked, WriteSealedJsonFile. destruct (bad_dek _); [intros [= _ <-]; by left|].
    destruct (if bool_decide _ then _ else _) as [out|]; [|intros [= _ <-]; by left].
    destruct (se_io e); cbn [commit_file]; intros [= _ <-]; auto.
Qed.

(** A save interrupted between removing the old file and renaming the new one leaves
    no catalog, and the next start opens empty: every collection is then public. *)
Lemma interrupted_save_opens_public dek name node :
  bad_dek dek = false ->
  exists c, OpenCatalog None dek = Some (OK c) /\ CanRead c name node = true /\ CanWrite c name node = true.
Proof.
  intros Hd. exists (mkCatalog ∅ dek). unfold OpenCatalog, LoadFromDisk, ReadSealedJsonFile. by rewrite Hd.
Qed.
End Restart.

Definition demo_acl : CollectionAcl := mkAcl (bs "ab") true [bs "cd"] [].

Lemma catalog_survives_restart_witness :
  exists file,
    @OpenCatalog toy_crypto file (replicate 32 Byte.x01)
    = Some (OK (mkCatalog {[bs "c" := mkMeta (bs "c") 5 false JNull 7 [] demo_acl 9 0 [] 0 []]} (replicate 32 Byte.x01))).
Proof.
  pose (env := mkSaveEnv CmOk (replicate kPageNonceLen Byte.x07)).
  pose proof (catalog_survives_restart (C := toy_crypto) (replicate 32 Byte.x01) None
    [(env, OpCreate 7 (bs "c") 5)] env (OpSetAcl (bs "c") demo_acl 9) ltac:(done)
    ltac:(repeat constructor; unfold fits, sfits; cbn; lia) ltac:(cbn; unfold fits; lia) ltac:(done)) as H.
  destruct (run_cat _ _ _) as [c file] eqn:E1.
  destruct (cat_step _ _ _ _) as [[st c'] file'] eqn:E2.
  assert (st = OK tt /\ collections_ c' = {[bs "c" := mkMeta (bs "c") 5 false JNull 7 [] demo_acl 9 0 [] 0 []]}) as [-> Ec].
  { revert E2. vm_compute in E1. injection E1 as <- <-. intros E2. vm_compute in E2.
    injection E2 as <- <- _. split; by vm_compute. }
  destruct H as ([m d] & Ho & Em & _). exists file'. rewrite Ho. cbn in Em. subst m. rewrite Ec.
  revert Ho. unfold OpenCatalog. destruct (bad_dek _); [done|].
  destruct (LoadFromDisk _ _) as [[m'|]|]; intros [= _ <-]. by rewrite map_fmap_singleton.
Defined.

(** ** Parent chains *)

(** [name] takes its access list from [d]. *)
Definition inherits (m : gmap bytes CollectionMeta) (name d : bytes) : Prop :=
  exists meta, m !! name = Some meta /\ asserts_own (cm_acl meta) = false
    /\ acl_parent (cm_acl meta) = d /\ d <> [].

Lemma resolve_acl_cases n m name :
  (exists k d, (k < n)%nat /\ nsteps (inherits m) k name d /\ (forall d', ~ inherits m d d')
     /\ resolve_acl n m name = match m !! d with Some meta => cm_acl meta | None => public_acl end)
  \/ (exists d, nsteps (inherits m) n name d /\ resolve_acl n m name = denied_acl).
Proof.
  revert name. induction n as [|n IH]; intros name; [right; exists name; by split; [constructor|]|].
  cbn [resolve_acl]. destruct (m !! name) as [meta|] eqn:E.
  2: { left. exists 0%nat, name. split; [lia|]. split; [constructor|]. rewrite E. split; [|done].
       by intros d' (? & ? & _); simplify_eq. }
  destruct (_ || _) eqn:Eb.
  - left. exists 0%nat, name. split; [lia|]. split; [constructor|]. rewrite E. split; [|done].
    intros d' (meta' & ? & Ha & Hp & Hne). simplify_eq. rewrite Ha, orb_false_r in Eb.
    by apply bool_decide_eq_true in Eb.
  - apply orb_false_iff in Eb as [Eb Ha]. apply bool_decide_eq_false in Eb.
    assert (Hi : inherits m name (acl_parent (cm_acl meta))) by (exists meta; done).
    destruct (IH (acl_parent (cm_acl meta))) as [(k & d & Hk & Hs & Hd & Hr)|(d & Hs & Hr)].
    + left. exists (S k), d. split; [lia|]. split; [by econstructor|]. done.
    + right. exists d. split; [by econstructor|done].
Qed.

Lemma inherits_fun m a b b' : inherits m a b -> inherits m a b' -> b = b'.
Proof. intros (? & ? & _ & ? & _) (? & ? & _ & ? & _). by simplify_eq. Qed.

Lemma nsteps_fun m k a b b' : nsteps (inherits m) k a b -> nsteps (inherits m) k a b' -> b = b'.
Proof.
  intros Hs. revert b'. induction Hs as [|k a y b Hay _ IH]; intros b' Hs'; inversion Hs' as [|? ? y' ? Hay' Hyb]; [done|].
  subst. apply IH. by rewrite (inherits_fun _ _ _ _ Hay Hay').
Qed.

Lemma nsteps_end m k n a d :
  nsteps (inherits m) k a d -> (forall d', ~ inherits m d d') -> forall z, nsteps (inherits m) n a z -> (n <= k)%nat.
Proof.
  intros Hs Hd. revert n. induction Hs as [a|k a b d Hab Hs IH]; intros n z Hz.
  - inversion Hz as [|n' ? y ? Hay]; subst; [lia|]. by destruct (Hd y).
  - inversion Hz as [|n' ? y ? Hay Hyz]; subst; [lia|]. rewrite <- (inherits_fun _ _ _ _ Hab Hay) in Hyz.
    apply IH in Hyz; [lia|done].
Qed.

Lemma cycle_nsteps m name : tc (inherits m) name name -> forall n, exists z, nsteps (inherits m) n name z.
Proof.
  intros Hc n. apply tc_nsteps in Hc as (k & Hk & Hs).
  assert (exists z, nsteps (inherits m) (n * k) name z) as [z Hz].
  { exists name. induction n as [|n IH]; [constructor|]. by eapply nsteps_trans. }
  replace (n * k)%nat with (n + (n * (k - 1)))%nat in Hz by nia.
  apply nsteps_add_inv in Hz as (y & Hy & _). by exists y.
Qed.

(** The effective access list of a collection is that of the first collection on
    its parent chain that asserts one of its own or names no parent (the public
    default when the chain leaves the catalog), provided the chain is shorter than
    sixteen; on a longer chain, and so on any cycle, no node whose id is free of the
    byte 1 can read or write. *)
Theorem effective_acl_resolution c name :
  (forall k d, (k < kMaxAclParentDepth)%nat -> nsteps (inherits (collections_ c)) k name d ->
     (forall d', ~ inherits (collections_ c) d d') ->
     EffectiveAcl c name = match collections_ c !! d with Some meta => cm_acl meta | None => public_acl end)
  /\ ((exists d, nsteps (inherits (collections_ c)) kMaxAclParentDepth name d)
      \/ tc (inherits (collections_ c)) name name ->
      forall node, Byte.x01 ∉ node -> CanRead c name node = false /\ CanWrite c name node = false).
Proof.
  unfold CanRead, CanWrite, EffectiveAcl.
  destruct (resolve_acl_cases kMaxAclParentDepth (collections_ c) name) as [(k & d & Hk & Hs & Hd & Hr)|(d & Hs & Hr)].
  - split.
    + intros k' d' Hk' Hs' Hd'. rewrite Hr. pose proof (nsteps_end _ _ _ _ _ Hs Hd _ Hs').
      pose proof (nsteps_end _ _ _ _ _ Hs' Hd' _ Hs). assert (k' = k) as -> by lia.
      by rewrite (nsteps_fun _ _ _ _ _ Hs Hs').
    + intros Hl. exfalso.
      assert (exists z, nsteps (inherits (collections_ c)) kMaxAclParentDepth name z) as [z Hz].
      { destruct Hl as [|Hc]; [done|]. by apply cycle_nsteps. }
      pose proof (nsteps_end _ _ _ _ _ Hs Hd _ Hz). lia.
  - split.
    + intros k' d' Hk' Hs' Hd'. pose proof (nsteps_end _ _ _ _ _ Hs' Hd' _ Hs). lia.
    + intros _ node Hn. rewrite Hr. unfold AllowsReader. cbn.
      rewrite bool_decide_eq_false_2; [done|]. intros ->. apply Hn. by left.
Qed.

(** ** Last writer wins *)
Section Converge.
Context `{C : Crypto}.

Definition acl_entry : Type := save_env * (CollectionAcl * Z).
Definition set_acls (name : bytes) (l : list acl_entry) (c : Catalog) (file : option bytes) : Catalog * option bytes :=
  run_cat (map (fun u => (u.1, OpSetAcl name u.2.1 u.2.2)) l) c file.

Definition adopt (name : bytes) (u : CollectionAcl * Z) (m : CollectionMeta) : CollectionMeta :=
  if bool_decide (acl_parent u.1 = name) || (u.2 <? acl_updated_ms m) then m
  else mkMeta (cm_name m) (root_page_id m) (has_schema m) (cm_schema m) (created_at_ms m) (cm_engine m)
         u.1 u.2 (retention_days m) (shard_key m) (cm_replication_factor m) (secondary_indexes m).

Lemma set_acls_alter name l c file :
  collections_ (set_acls name l c file).1
  = fold_left (fun m u => alter (adopt name u.2) name m) l (collections_ c).
Proof.
  revert c file. induction l as [|[e [a ms]] l IH]; intros c file; [done|]. unfold set_acls in *. cbn.
  unfold SetAclAt, with_meta, store. destruct (collections_ c !! name) as [m|] eqn:E.
  2: { rewrite IH. f_equal. apply map_eq. intros k. destruct (decide (k = name)) as [->|].
       - by rewrite lookup_alter_eq, E.
       - by rewrite lookup_alter_ne. }
  assert (Ha : alter (adopt name (a, ms)) name (collections_ c)
               = <[name := adopt name (a, ms) m]> (collections_ c)).
  { apply map_eq. intros k. destruct (decide (k = name)) as [->|].
    - by rewrite lookup_alter_eq, E, lookup_insert_eq.
    - by rewrite lookup_alter_ne, lookup_insert_ne. }
  rewrite Ha. unfold adopt. cbn. destruct (bool_decide (acl_parent a = name)); cbn.
  { by rewrite IH, insert_id. }
  destruct (ms <? acl_updated_ms m); [by rewrite IH, insert_id|].
  destruct (SaveLocked _ _ _) as [st f']. by rewrite IH.
Qed.

Lemma adopt_comm name u v m : u.2 <> v.2 -> adopt name u (adopt name v m) = adopt name v (adopt name u m).
Proof.
  destruct u as [a s], v as [b t]. cbn. intros Hst. unfold adopt. cbn.
  destruct (bool_decide (acl_parent a = name)), (bool_decide (acl_parent b = name)); cbn; try done;
    destruct (Z.ltb_spec s (acl_updated_ms m)), (Z.ltb_spec t (acl_updated_ms m)); cbn;
    repeat match goal with |- context [?x <? ?y] => destruct (Z.ltb_spec x y); cbn end; done || lia.
Qed.

(** C33: replicas that receive the same access lists for a collection, with pairwise
    distinct versions, end with the same metadata in whatever order the lists
    arrive and whatever happens to the saves. *)
Theorem acl_updates_converge name l l' c file file' :
  Permutation (map snd l) (map snd l') -> NoDup (map (fun u : acl_entry => u.2.2) l) ->
  collections_ (set_acls name l c file).1 = collections_ (set_acls name l' c file').1.
Proof.
  intros Hp Hn. rewrite !set_acls_alter.
  assert (Hf : forall (k : list acl_entry) (m : gmap bytes CollectionMeta), fold_left (fun m u => alter (adopt name u.2) name m) k m
                     = fold_left (fun m u => alter (adopt name u) name m) (map snd k) m).
  { intros k. induction k as [|? k IHk]; intros m; [done|]. apply IHk. }
  rewrite !Hf. assert (Hn' : NoDup (map snd (map snd l))) by (by rewrite map_map). clear Hn. rename Hn' into Hn.
  generalize (collections_ c) as m. revert Hn. induction Hp as [|u k k' _ IH|u v k|k1 k2 k3 H12 IH1 _ IH2]; intros Hn m.
  - done.
  - cbn in *. apply NoDup_cons in Hn as [_ Hn]. by apply IH.
  - cbn in *. f_equal. apply map_eq. intros x. destruct (decide (x = name)) as [->|]; [|by rewrite !lookup_alter_ne].
    rewrite !lookup_alter_eq. destruct (m !! name) as [y|]; [|done]. cbn.
    rewrite adopt_comm; [done|]. apply NoDup_cons in Hn as [Hn _]. intros E. apply Hn. rewrite E. by left.
  - rewrite IH1 by done. apply IH2. by rewrite <- H12.
Qed.
End Converge.

Definition acl_env (n : byte) : save_env := mkSaveEnv CmOk (replicate kPageNonceLen n).
Definition acl_seed : Catalog := mkCatalog {[bs "c" := fresh_meta 7 (bs "c") 5]} [].

Lemma acl_updates_converge_witness :
  let l := [(acl_env Byte.x01, (demo_acl, 9)); (acl_env Byte.x02, (public_acl, 12))] in
  let l' := [(acl_env Byte.x03, (public_acl, 12)); (acl_env Byte.x04, (demo_acl, 9))] in
  collections_ (set_acls (C := toy_crypto) (bs "c") l acl_seed None).1
  = collections_ (set_acls (C := toy_crypto) (bs "c") l' acl_seed None).1.
Proof.
  intros l l'. apply (acl_updates_converge (C := toy_crypto) (bs "c") l l' acl_seed None None).
  - apply perm_swap.
  - by apply (bool_decide_unpack _).
Defined.

(** Two lists of the same version are not ordered: the later arrival wins, so two
    replicas that see them in opposite orders keep different lists. *)
Lemma acl_tie_diverges :
  let u := (acl_env Byte.x01, (demo_acl, 9)) in
  let v := (acl_env Byte.x02, (public_acl, 9)) in
  CanRead (set_acls (C := toy_crypto) (bs "c") [u; v] acl_seed None).1 (bs "c") (bs "ee") = true
  /\ CanRead (set_acls (C := toy_crypto) (bs "c") [v; u] acl_seed None).1 (bs "c") (bs "ee") = false.
Proof. by vm_compute. Qed.

(** A two-collection cycle and a chain that ends in a private collection. *)
Definition chain_meta (name parent : bytes) : CollectionMeta :=
  mkMeta name 0 false JNull 0 [] (mkAcl [] false [] parent) 0 0 [] 0 [].
Definition cycle_catalog : Catalog :=
  mkCatalog {[bs "a" := chain_meta (bs "a") (bs "b"); bs "b" := chain_meta (bs "b") (bs "a")]} [].

Lemma effective_acl_resolution_witness :
  CanRead cycle_catalog (bs "a") (bs "ab") = false /\ CanWrite cycle_catalog (bs "a") (bs "ab") = false.
Proof.
  apply (proj2 (effective_acl_resolution cycle_catalog (bs "a"))).
  - right. eapply tc_l; [|apply tc_once]; [exists (chain_meta (bs "a") (bs "b")) | exists (chain_meta (bs "b") (bs "a"))];
      (split; [by vm_compute|done]).
  - by apply (bool_decide_unpack _).
Defined.
