(* ===== verification/CrossEngineIndex.v ===== *)
(** * The cross-engine index: [CrossEngineIndex] of src/storage/router.cpp

    Which engine and node hold a key: an append log of checked records, the map it
    loads to, and its compaction.  Framing, sealing and the mode probe are those of
    RecordLog; the load loop is the index's own, because it stops at a body that does
    not decode. *)
From coqutil Require Import Word.LittleEndianList.
From S2P Require Import Prelude Bytes AtRest AtRestFiles RecordLog.
Local Open Scope Z_scope.

Definition kIndexRecordCap : Z := 2 ^ 20.

Record IndexEntry := mkIndexEntry {
  ix_key : bytes;
  ix_collection : bytes;
  ix_engine : bytes;
  ix_node_id : bytes;
  ix_updated_ms : Z;
}.

#[export] Instance IndexEntry_eq_dec : EqDecision IndexEntry.
Proof. solve_decision. Defined.

Definition EncodeIndexEntry (e : IndexEntry) : bytes :=
  ByteWriter.Bytes (ix_key e) ++ ByteWriter.Bytes (ix_collection e) ++ ByteWriter.Bytes (ix_engine e)
  ++ ByteWriter.Bytes (ix_node_id e) ++ ByteWriter.I64 (ix_updated_ms e).

Definition dec_index_entry : Reader IndexEntry :=
  (key <-r ByteReader.Bytes ;; coll <-r ByteReader.Bytes ;; engine <-r ByteReader.Bytes ;;
   node <-r ByteReader.Bytes ;; ms <-r ByteReader.I64 ;; rret (mkIndexEntry key coll engine node ms))%reader.

Record CrossEngineIndex := mkIndex {
  ix_log : bytes;
  ix_open : bool;                             (* the stream behind [file_] *)
  ix_entries : gmap bytes IndexEntry;
  ix_subkey : bytes;
}.

Section Index.
Context `{C : Crypto}.

(** Every way to stop keeps what was loaded; [None]: an exception of [OpenRecord]
    escapes. *)
Fixpoint index_loop (fuel : nat) (key s : bytes) (m : gmap bytes IndexEntry) : option (gmap bytes IndexEntry) :=
  match fuel with
  | O => Some m
  | S f =>
      match next_record kIndexRecordCap s with
      | NBody body rest =>
          match unseal_log key (bs "index") body with
          | UThrow => None
          | UBad => Some m
          | UOk b =>
              match dec_index_entry b with
              | None => Some m
              | Some (e, _) => index_loop f key rest (<[ix_key e := e]> m)
              end
          end
      | _ => Some m
      end
  end.

Definition IndexLoad (log key : bytes) : option CrossEngineIndex :=
  m ← index_loop (S (length log)) key log ∅; Some (mkIndex log true m key).

(** A missing file is created empty. *)
Definition IndexOpen (log dek : bytes) : option (StatusOr CrossEngineIndex) :=
  if bad_dek dek then Some (Fault kInvalidArgument)
  else match DetectLogMode kIndexRecordCap log (negb (bool_decide (dek = []))) with
       | Fault c => Some (Fault c)
       | OK _ =>
           match (if bool_decide (dek = []) then OK [] else FileSubkey dek (bs "index")) with
           | Fault c => Some (Fault c)
           | OK key => OK <$> IndexLoad log key
           end
       end.

(** [env]: the nonce and the fate of the write. *)
Definition ix_append (env : bytes * append_result_io) (ix : CrossEngineIndex) (e : IndexEntry)
  : StatusOr unit * CrossEngineIndex :=
  let '(r, log) := AppendRecord (ix_subkey ix) (bs "index") env.1 (ix_open ix) env.2 (ix_log ix)
                     (EncodeIndexEntry e) in
  (r, mkIndex log (ix_open ix) (ix_entries ix) (ix_subkey ix)).

Definition IndexUpsert (env : bytes * append_result_io) (now : Z) (e : IndexEntry) (ix : CrossEngineIndex)
  : StatusOr unit * CrossEngineIndex :=
  let stored := if ix_updated_ms e =? 0
                then mkIndexEntry (ix_key e) (ix_collection e) (ix_engine e) (ix_node_id e) now else e in
  match ix_append env ix stored with
  | (Fault c, ix') => (Fault c, ix')
  | (OK _, ix') =>
      (OK tt, mkIndex (ix_log ix') (ix_open ix') (<[ix_key stored := stored]> (ix_entries ix')) (ix_subkey ix'))
  end.

Definition IndexLookup (key : bytes) (ix : CrossEngineIndex) : StatusOr IndexEntry :=
  match ix_entries ix !! key with Some e => OK e | None => Fault kNotFound end.

Definition index_rows (ix : CrossEngineIndex) : list IndexEntry := (map_to_list (ix_entries ix)).*2.
Definition ByEngine (engine : bytes) (ix : CrossEngineIndex) : list IndexEntry :=
  filter (fun e => ix_engine e = engine) (index_rows ix).
Definition ByCollection (collection : bytes) (ix : CrossEngineIndex) : list IndexEntry :=
  filter (fun e => ix_collection e = collection) (index_rows ix).
Definition IndexSize (ix : CrossEngineIndex) : nat := size (ix_entries ix).

(** The frames are written in the clear whatever the key. *)
Definition IndexCompact (io : rewrite_io) (ix : CrossEngineIndex) : StatusOr unit * CrossEngineIndex :=
  let log := concat (map (fun e => log_frame (EncodeIndexEntry e)) (index_rows ix)) in
  match io with
  | RwTmpFail => (Fault kIOError, ix)
  | RwRenameFail => (Fault kIOError, mkIndex [] false (ix_entries ix) (ix_subkey ix))
  | RwReopenFail => (Fault kIOError, mkIndex log false (ix_entries ix) (ix_subkey ix))
  | RwOk => (OK tt, mkIndex log true (ix_entries ix) (ix_subkey ix))
  end.

(** ** What was recorded is loaded *)
Context `{!CryptoLaws C}.

Record index_entry_ok (e : IndexEntry) : Prop := {
  io_ms : sfits 64 (ix_updated_ms e);
  io_cap : Zlen (EncodeIndexEntry e) + 32 <= kIndexRecordCap;
}.

Lemma index_blobs e : index_entry_ok e ->
  blob_ok (ix_key e) /\ blob_ok (ix_collection e) /\ blob_ok (ix_engine e) /\ blob_ok (ix_node_id e).
Proof.
  intros [_ Hc]. revert Hc. unfold blob_ok, Zlen, kIndexRecordCap, EncodeIndexEntry.
  rewrite !length_app, !Bytes_length. intros H. split_and!; lia.
Qed.

Lemma dec_index_ok e : index_entry_ok e -> dec_index_entry (EncodeIndexEntry e) = Some (e, []).
Proof.
  intros He. destruct (index_blobs e He) as (B1 & B2 & B3 & B4). pose proof (io_ms _ He).
  unfold dec_index_entry, EncodeIndexEntry. do 4 (read_step ltac:(done)).
  unfold rbind at 1. rewrite (round_trip_end ByteWriter.I64 ByteReader.I64 (sfits 64)) by done.
  by destruct e.
Qed.

Lemma index_not_sealed e : index_entry_ok e -> LooksSealedRecord (EncodeIndexEntry e) = false.
Proof.
  intros He. pose proof (io_cap _ He) as Hc. unfold LooksSealedRecord. apply andb_false_iff. right.
  apply bool_decide_eq_false_2. intros E.
  assert (take 4 (EncodeIndexEntry e) = ByteWriter.U32 (Zlen (ix_key e))) as Ht.
  { unfold EncodeIndexEntry, ByteWriter.Bytes. rewrite <- app_assoc. apply take_app_length'. by rewrite U32_length. }
  assert (Hk : 0 <= Zlen (ix_key e) < 2 ^ 20).
  { revert Hc. unfold EncodeIndexEntry, kIndexRecordCap, Zlen. rewrite length_app, Bytes_length. lia. }
  assert (le_combine (ByteWriter.U32 (Zlen (ix_key e))) = Zlen (ix_key e)) as Hl
    by (apply le_combine_U32; unfold fits; lia).
  rewrite <- Ht, E in Hl. revert Hl. change (le_combine kSealedRecordMagic) with 1163350852. lia.
Qed.

Lemma index_body_ok e : index_entry_ok e -> body_ok kIndexRecordCap (EncodeIndexEntry e).
Proof.
  intros He. split_and!; [by apply index_not_sealed| |apply (io_cap _ He)|done].
  unfold EncodeIndexEntry, Zlen. rewrite length_app, Bytes_length. lia.
Qed.

Definition apply_index (m : gmap bytes IndexEntry) (e : IndexEntry) : gmap bytes IndexEntry := <[ix_key e := e]> m.

Lemma index_loop_log es f tail key fuel m :
  Forall index_entry_ok es -> rlog kIndexRecordCap key (bs "index") (map EncodeIndexEntry es) f ->
  log_tail_ok kIndexRecordCap tail -> (length es < fuel)%nat ->
  index_loop fuel key (f ++ tail) m = Some (fold_left apply_index es m).
Proof.
  intros Hes. revert f fuel m. induction Hes as [|e es He _ IH]; intros f fuel m Hf Ht Hlen.
  - inversion Hf; subst. destruct fuel as [|fuel]; [cbn in Hlen; lia|]. cbn [app index_loop].
    by destruct Ht as [->| ->].
  - inversion Hf as [|b bs s f' (Hl & Hpos & Hcap & Hc) (nonce & p & Hn & Hs & ->) Hf']; subst.
    destruct fuel as [|fuel]; [lia|]. cbn [index_loop]. pose proof (seal_log_length _ _ _ _ _ Hn Hs).
    rewrite <- app_assoc, next_record_frame by lia. rewrite (unseal_seal _ _ _ _ _ Hn Hl Hs), dec_index_ok by done.
    apply IH; [done|done|]. cbn [length] in Hlen. lia.
Qed.

Record index_inv (ix : CrossEngineIndex) : Prop := {
  ii_open : ix_open ix = true;
  ii_key : ix_subkey ix = [] \/ Zlen (ix_subkey ix) = kDekLen;
  ii_log : exists es, Forall index_entry_ok es
    /\ rlog kIndexRecordCap (ix_subkey ix) (bs "index") (map EncodeIndexEntry es) (ix_log ix)
    /\ fold_left apply_index es ∅ = ix_entries ix;
}.

Lemma index_loads ix tail :
  index_inv ix -> log_tail_ok kIndexRecordCap tail ->
  IndexLoad (ix_log ix ++ tail) (ix_subkey ix) = Some (mkIndex (ix_log ix ++ tail) true (ix_entries ix) (ix_subkey ix)).
Proof.
  intros [_ _ (es & He & Hl & Hm)] Ht. unfold IndexLoad.
  rewrite (index_loop_log es) by (try done; apply rlog_length in Hl; rewrite length_map in Hl; rewrite length_app; lia).
  cbn. by rewrite Hm.
Qed.

Lemma index_upsert_ok env now e ix :
  index_inv ix -> length env.1 = kPageNonceLen ->
  index_entry_ok (if ix_updated_ms e =? 0
                  then mkIndexEntry (ix_key e) (ix_collection e) (ix_engine e) (ix_node_id e) now else e) ->
  env.2 = LogOk ->
  exists ix', IndexUpsert env now e ix = (OK tt, ix') /\ index_inv ix' /\ ix_subkey ix' = ix_subkey ix.
Proof.
  intros [Ho Hk (es & He & Hl & Hm)] Hn Hs Hio. unfold IndexUpsert. set (stored := if _ =? 0 then _ else _) in *.
  destruct (seal_log_ok (ix_subkey ix) (bs "index") env.1 (EncodeIndexEntry stored) Hk Hn) as [p Hp].
  unfold ix_append, AppendRecord. rewrite Hp, Ho, Hio. cbn [negb]. eexists. split; [done|]. split; [|done].
  split; [done|done|]. exists (es ++ [stored]). cbn [ix_log ix_subkey ix_entries].
  split; [apply Forall_app; split; [done|by constructor]|].
  rewrite map_app, fold_left_app, Hm. split; [|done].
  apply rlog_snoc; [done|by apply index_body_ok|by exists env.1, p].
Qed.

(** A sequence of upserts with their environments and clocks. *)
Definition index_put : Type := (bytes * append_result_io) * Z * IndexEntry.
Definition put_index (ix : CrossEngineIndex) (p : index_put) : CrossEngineIndex :=
  let '(env, now, e) := p in (IndexUpsert env now e ix).2.
Definition index_put_ok (p : index_put) : Prop :=
  let '(env, now, e) := p in
  length env.1 = kPageNonceLen /\ env.2 = LogOk
  /\ index_entry_ok (if ix_updated_ms e =? 0
                     then mkIndexEntry (ix_key e) (ix_collection e) (ix_engine e) (ix_node_id e) now else e).

Lemma put_index_inv ix ps :
  index_inv ix -> Forall index_put_ok ps ->
  index_inv (fold_left put_index ps ix) /\ ix_subkey (fold_left put_index ps ix) = ix_subkey ix.
Proof.
  intros Hix Hps. revert ix Hix. induction Hps as [|[[env now] e] ps (Hn & Hio & He) _ IH]; intros ix Hix; [done|].
  cbn [fold_left]. unfold put_index at 2 4. destruct (index_upsert_ok env now e ix Hix Hn He Hio) as (ix' & -> & Hi & Hk).
  cbn [snd]. rewrite <- Hk. by apply IH.
Qed.

(** The index survives a restart: after any sequence of successful upserts, plain
    or sealed, and even with a record torn by a crash at the end of the log, loading
    gives the entry last recorded for every key. *)
Theorem index_survives_restart ix ps torn n :
  index_inv ix -> Forall index_put_ok ps ->
  0 < Zlen torn <= kIndexRecordCap -> (n < length (log_frame torn))%nat ->
  let ix' := fold_left put_index ps ix in
  (IndexLoad (ix_log ix') (ix_subkey ix)) = Some (mkIndex (ix_log ix') true (ix_entries ix') (ix_subkey ix))
  /\ ix_entries <$> (IndexLoad (ix_log ix' ++ take n (log_frame torn)) (ix_subkey ix)) = Some (ix_entries ix').
Proof.
  intros Hix Hps Ht Hn ix'. destruct (put_index_inv ix ps Hix Hps) as [Hi Hk]. fold ix' in Hi, Hk. rewrite <- Hk.
  split.
  - pose proof (index_loads ix' [] Hi (log_tail_nil _)) as H. by rewrite app_nil_r in H.
  - rewrite (index_loads ix'); [done|done|]. by apply next_record_torn.
Qed.

(** ** Compaction *)
Lemma fold_apply_unique es m :
  NoDup (map ix_key es) -> (forall e, e ∈ es -> m !! ix_key e = None) ->
  fold_left apply_index es m = m ∪ list_to_map (map (fun e => (ix_key e, e)) es).
Proof.
  revert m. induction es as [|e es IH]; intros m Hn Hm; cbn in *; [by rewrite map_union_empty|].
  apply NoDup_cons in Hn as [Hni Hn]. unfold apply_index at 2. rewrite IH; [|done|].
  - rewrite <- insert_union_l. apply insert_union_r. apply Hm. by left.
  - intros e' He'. rewrite lookup_insert_ne; [apply Hm; by right|]. intros E. apply Hni. rewrite E.
    apply list_elem_of_fmap. by exists e'.
Qed.

(** The log of a plain index after a compaction loads to the same entries. *)
Lemma compact_plain ix :
  index_inv ix -> ix_subkey ix = [] -> map_Forall (fun k e => ix_key e = k /\ index_entry_ok e) (ix_entries ix) ->
  exists ix', IndexCompact RwOk ix = (OK tt, ix') /\ ix_entries ix' = ix_entries ix /\ index_inv ix'.
Proof.
  intros [Ho Hk _] Hs Hm. eexists. split; [done|]. split; [done|]. split; [done|done|].
  exists (index_rows ix). cbn [ix_log ix_entries ix_subkey]. rewrite Hs.
  assert (Hok : Forall index_entry_ok (index_rows ix)).
  { unfold index_rows. apply Forall_fmap, Forall_forall. intros [k e] Hin. by apply elem_of_map_to_list, Hm in Hin as [_ ?]. }
  split; [done|]. split.
  - clear -Hok CryptoLaws0. induction Hok as [|e es He _ IH]; [constructor|]. cbn [map concat].
    constructor; [by apply index_body_ok| |done].
    exists (replicate kPageNonceLen Byte.x00), (EncodeIndexEntry e). split; [apply length_replicate|done].
  - assert (Hkeys : map (fun e => (ix_key e, e)) (index_rows ix) = map_to_list (ix_entries ix)).
    { etransitivity; [symmetry; apply (list_fmap_compose snd (fun e => (ix_key e, e)))|].
      etransitivity; [|apply list_fmap_id]. apply list_fmap_ext.
      intros i [k e] Hin%list_elem_of_lookup_2%elem_of_map_to_list%Hm. cbn. by destruct Hin as [-> _]. }
    rewrite fold_apply_unique.
    + rewrite map_empty_union, Hkeys. apply list_to_map_to_list.
    + replace (map ix_key (index_rows ix)) with ((map_to_list (ix_entries ix)).*1); [apply NoDup_fst_map_to_list|].
      rewrite <- Hkeys. symmetry. apply (list_fmap_compose (fun e => (ix_key e, e)) fst).
    + intros e _. apply lookup_empty.
Qed.

(** Compacting a sealed index writes its entries in the clear, and the next start
    of the node refuses the file as corrupt: the key is configured, the log is not
    sealed. *)
Theorem compaction_unseals_index ix dek :
  ix_entries ix <> ∅ -> map_Forall (fun k e => ix_key e = k /\ index_entry_ok e) (ix_entries ix) ->
  Zlen dek = 32 ->
  exists ix', IndexCompact RwOk ix = (OK tt, ix') /\ IndexOpen (ix_log ix') dek = Some (Fault kCorruption).
Proof.
  intros Hne Hm Hd. eexists. split; [done|]. cbn [ix_log]. unfold index_rows.
  assert (dek <> []) as Hdn by (by intros ->).
  destruct (map_to_list (ix_entries ix)) as [|[k e] l] eqn:El.
  { by apply map_to_list_empty_iff in El. }
  assert (index_entry_ok e) as He.
  { apply (Hm k e). apply elem_of_map_to_list. rewrite El. by left. }
  unfold IndexOpen, bad_dek. rewrite Hd, bool_decide_eq_false_2 by done. cbn [negb andb Z.eqb Pos.eqb fmap list_fmap map concat snd].
  unfold DetectLogMode, log_frame. set (body := EncodeIndexEntry e).
  assert (Hb : 24 <= Zlen body <= kIndexRecordCap).
  { pose proof (io_cap _ He). split; [|unfold body in *; lia]. unfold body, EncodeIndexEntry, Zlen.
    rewrite !length_app, !Bytes_length. change (length (ByteWriter.I64 _)) with 8%nat. lia. }
  rewrite <- !app_assoc. set (rest := ByteWriter.U32 (Crc32 body) ++ _). rewrite !Zlen_app.
  assert (Zlen (ByteWriter.U32 (Zlen body)) = 4) as H4 by (unfold Zlen; by rewrite U32_length). rewrite H4.
  pose proof (Zlen_nonneg rest).
  destruct (Z.ltb_spec (4 + (Zlen body + Zlen rest)) 4); [lia|].
  rewrite (take_app_length' (ByteWriter.U32 _)), (drop_app_length' (ByteWriter.U32 _)) by (by rewrite U32_length).
  rewrite le_combine_U32 by (unfold fits, kIndexRecordCap in *; lia).
  destruct (Z.eqb_spec (Zlen body) 0); [lia|]. destruct (Z.ltb_spec kIndexRecordCap (Zlen body)); [lia|]. cbn [orb].
  rewrite Zlen_app. destruct (Z.ltb_spec (Zlen body + Zlen rest) (Z.min (Zlen body) 64)); [lia|].
  assert (LooksSealedRecord (take (Z.to_nat (Z.min (Zlen body) 64)) (body ++ rest)) = false) as ->.
  { pose proof (index_not_sealed e He) as Hns. fold body in Hns. unfold LooksSealedRecord in *.
    apply andb_false_iff in Hns as [Hns|Hns]; [apply Z.leb_gt in Hns; lia|]. apply andb_false_iff. right.
    rewrite take_take, Nat.min_l by lia. rewrite take_app_le by (unfold Zlen in *; lia). done. }
  rewrite !andb_false_r. done.
Qed.
End Index.

Definition ix_demo (k c : bytes) : IndexEntry := mkIndexEntry k c (bs "kv") (bs "n1") 7.
Definition ix_demo_env : bytes * append_result_io := (replicate kPageNonceLen Byte.x07, LogOk).
Definition ix_empty : CrossEngineIndex := mkIndex [] true ∅ (replicate 32 Byte.x01).

Lemma ix_empty_inv : @index_inv toy_crypto ix_empty.
Proof. split; [done|by right|]. exists []. split; [done|]. split; [constructor|done]. Qed.

Lemma ix_demo_ok k c : (length k + length c <= 100)%nat -> index_entry_ok (ix_demo k c).
Proof.
  intros H. split; [cbn; unfold sfits; lia|]. unfold EncodeIndexEntry, Zlen.
  rewrite !length_app, !Bytes_length. cbn [ix_key ix_collection ix_engine ix_node_id ix_updated_ms ix_demo].
  change (length (ByteWriter.I64 7)) with 8%nat. change (length (bs "kv")) with 2%nat.
  change (length (bs "n1")) with 2%nat. change kIndexRecordCap with 1048576. lia.
Qed.

Lemma index_survives_restart_witness :
  let ix' := fold_left (@put_index toy_crypto) [(ix_demo_env, 3, ix_demo (bs "k") (bs "c"))] ix_empty in
  @IndexLoad toy_crypto (ix_log ix') (replicate 32 Byte.x01) = Some (mkIndex (ix_log ix') true (ix_entries ix') (replicate 32 Byte.x01))
  /\ ix_entries <$> (@IndexLoad toy_crypto (ix_log ix' ++ take 3 (log_frame (bs "torn"))) (replicate 32 Byte.x01))
     = Some (ix_entries ix').
Proof.
  apply (index_survives_restart (C := toy_crypto) ix_empty [(ix_demo_env, 3, ix_demo (bs "k") (bs "c"))] (bs "torn") 3).
  - apply ix_empty_inv.
  - constructor; [|constructor]. split; [done|]. split; [done|]. apply ix_demo_ok. cbn. lia.
  - vm_compute. done.
  - vm_compute. lia.
Defined.

Lemma compaction_unseals_index_witness :
  let ix := fold_left (@put_index toy_crypto) [(ix_demo_env, 3, ix_demo (bs "k") (bs "c"))] ix_empty in
  exists ix', IndexCompact RwOk ix = (OK tt, ix')
    /\ @IndexOpen toy_crypto (ix_log ix') (replicate 32 Byte.x01) = Some (Fault kCorruption).
Proof.
  set (ix := fold_left _ _ _).
  assert (E : ix_entries ix = {[bs "k" := ix_demo (bs "k") (bs "c")]})
    by (apply (bool_decide_unpack _); vm_compute; exact I).
  apply (compaction_unseals_index (C := toy_crypto)).
  - rewrite E. apply map_non_empty_singleton.
  - intros k e. rewrite E. intros [<- <-]%lookup_singleton_Some. split; [done|]. apply ix_demo_ok. cbn. lia.
  - done.
Defined.

(** The map is keyed by the document key alone: a second collection that uses the same
    key takes the first one's entry away. *)
Lemma index_key_collision :
  let ix := fold_left (@put_index toy_crypto)
              [(ix_demo_env, 3, ix_demo (bs "k") (bs "a")); (ix_demo_env, 3, ix_demo (bs "k") (bs "b"))] ix_empty in
  ByCollection (bs "a") ix = [] /\ IndexSize ix = 1%nat.
Proof. by vm_compute. Qed.
