(* ===== verification/Backend.v ===== *)
(** * The backend contract: include/desentry/storage/router.h and
    src/storage/engines/engine_common.cpp

    [EngineBackend] is the abstract class of router.h, [BackendSpec] what its comments
    promise: documents by collection and key, an upsert that either stores or leaves
    everything as it was, an ordered scan.  The members every backend inherits from
    [BaseBackend] (merging, the fingerprint, quota accounting) are definitions over it. *)
From S2P Require Import Prelude Bytes Hlc Json Crdt CrdtMerge CrdtCodec AtRest.
Local Open Scope Z_scope.

Definition EngineRow : Type := bytes * bytes.

Class EngineBackend (B : Type) := {
  be_name : B -> bytes;
  (** inside a merge scope, collection, key, document *)
  be_put : bool -> bytes -> bytes -> bytes -> B -> StatusOr unit * B;
  be_get : bytes -> bytes -> B -> StatusOr bytes * B;
  (** collection, first key, limit (0: none) *)
  be_scan : bytes -> bytes -> nat -> B -> list EngineRow * B;
  be_quota_use : B -> Z;
  be_verify : B -> StatusOr unit * B;
  be_flush : B -> StatusOr unit * B;
}.

(** ** What a backend holds *)
Abbreviation docs := (gmap (bytes * bytes) bytes).

Definition rows_of (m : docs) (collection : bytes) : list EngineRow :=
  std_sort str_lt fst (omap (fun '(ck, d) => if bool_decide (ck.1 = collection) then Some (ck.2, d) else None)
                         (map_to_list m)).

Definition scan_rows (m : docs) (collection start : bytes) (limit : nat) : list EngineRow :=
  let l := filter (fun r => str_lt r.1 start = false) (rows_of m collection) in
  if (limit =? 0)%nat then l else take limit l.

Class BackendSpec {B} (E : EngineBackend B) := {
  be_inv : B -> Prop;
  be_docs : B -> docs;
  be_get_spec b c k : be_inv b ->
    exists b', be_get c k b = (match be_docs b !! (c, k) with Some d => OK d | None => Fault kNotFound end, b')
      /\ be_inv b' /\ be_docs b' = be_docs b /\ be_name b' = be_name b;
  be_put_spec b merge c k d : be_inv b ->
    let '(r, b') := be_put merge c k d b in
    be_inv b' /\ be_name b' = be_name b
    /\ be_docs b' = match r with OK _ => <[(c, k) := d]> (be_docs b) | Fault _ => be_docs b end;
  be_scan_spec b c start limit : be_inv b ->
    exists b', be_scan c start limit b = (scan_rows (be_docs b) c start limit, b')
      /\ be_inv b' /\ be_docs b' = be_docs b /\ be_name b' = be_name b;
  be_flush_spec b : be_inv b ->
    let '(r, b') := be_flush b in be_inv b' /\ be_docs b' = be_docs b /\ be_name b' = be_name b;
}.

(** ** BaseBackend *)
Definition ts_ToString (t : HLCTimestamp) : bytes :=
  to_string (physical_ms t) ++ bs "." ++ to_string (logical t) ++ bs "@" ++ node_id t.

Section Base.
Context `{C : Crypto} {B : Type} `{E : !EngineBackend B}.

Definition MergeRemote (collection key remote_encoded_doc : bytes) (b : B) : StatusOr unit * B :=
  match Decode remote_encoded_doc with
  | None => (Fault kCorruption, b)
  | Some remote =>
      match be_get collection key b with
      | (OK existing, b1) =>
          match Decode existing with
          | None => (Fault kCorruption, b1)
          | Some local => be_put true collection key (Encode (Merge local remote)) b1
          end
      | (Fault c, b1) =>
          if bool_decide (c = kNotFound) then be_put true collection key (Encode remote) b1 else (Fault c, b1)
      end
  end.

(** One fingerprint per live or unreadable row. *)
Definition fingerprint (row : EngineRow) : option bytes :=
  match Decode row.2 with
  | None => Some (row.1 ++ bs "=!corrupt:" ++ HexEncode (Sha256 row.2))
  | Some doc => if IsEmpty doc then None else Some (row.1 ++ bs "=" ++ ts_ToString (MaxTimestamp doc))
  end.

Definition FingerprintRows (rows : list EngineRow) : bytes :=
  HexEncode (Sha256 (concat (map (fun f => f ++ [Byte.x0a]) (std_sort str_lt id (omap fingerprint rows))))).

Definition Checksum (collection : bytes) (b : B) : bytes * B :=
  let '(rows, b') := be_scan collection [] 0 b in (FingerprintRows rows, b').
End Base.

(** ** Sorting strings: equal ones cannot be told apart *)
Section SortStrings.

Lemma lt_above z x y : str_lt z x = true -> str_lt z y = false -> str_lt y x = true.
Proof.
  intros Hx Hy. destruct (str_lt y x) eqn:E; [done|]. destruct (str_lt x y) eqn:E'.
  - by rewrite (lt_trans z x y) in Hy.
  - by rewrite (lt_total x y), Hy in Hx.
Qed.

Lemma sort_insert_comm x y l :
  sort_insert str_lt id x (sort_insert str_lt id y l) = sort_insert str_lt id y (sort_insert str_lt id x l).
Proof.
  unfold id. induction l as [|z l IH]; cbn.
  - destruct (str_lt y x) eqn:E1, (str_lt x y) eqn:E2; try done.
    + by rewrite (lt_asym _ _ _ E1) in E2.
    + by rewrite (lt_total x y).
  - destruct (str_lt z x) eqn:Ex, (str_lt z y) eqn:Ey; cbn; rewrite ?Ex, ?Ey; cbn; try (by rewrite IH).
    + by rewrite (lt_above z x y) by done.
    + by rewrite (lt_above z y x) by done.
    + destruct (str_lt y x) eqn:E1, (str_lt x y) eqn:E2; rewrite ?Ex, ?Ey; try done.
      * by rewrite (lt_asym _ _ _ E1) in E2.
      * by rewrite (lt_total x y).
Qed.

Lemma std_sort_strings l1 l2 : l1 ≡ₚ l2 -> std_sort str_lt id l1 = std_sort str_lt id l2.
Proof.
  induction 1 as [|x l1 l2 _ IH|x y l|l1 l2 l3 _ IH1 _ IH2]; cbn; [done|by rewrite IH|apply sort_insert_comm|congruence].
Qed.
End SortStrings.

(** ** Rows of a collection *)
Definition row_in (c : bytes) (x : bytes * bytes * bytes) : option EngineRow :=
  let '(ck, d) := x in if bool_decide (ck.1 = c) then Some (ck.2, d) else None.

Lemma row_in_elem c (l : list (bytes * bytes * bytes)) k d : (k, d) ∈ omap (row_in c) l <-> ((c, k), d) ∈ l.
Proof.
  rewrite list_elem_of_omap. split.
  - intros ([[c' k'] d'] & Hin & Hr). cbn in Hr. case_bool_decide; by simplify_eq.
  - intros H. exists ((c, k), d). split; [done|]. cbn. by rewrite bool_decide_eq_true_2.
Qed.

Lemma row_in_nodup c (l : list (bytes * bytes * bytes)) : NoDup l.*1 -> NoDup (omap (row_in c) l).*1.
Proof.
  induction l as [|[[c' k] d] l IH]; intros Hn; [constructor|]. apply NoDup_cons in Hn as [Hk Hn]. cbn.
  case_bool_decide as Hc; [|by apply IH]. cbn in Hc. subst c'. cbn. constructor; [|by apply IH].
  intros ([k' d'] & Heq & Hin)%list_elem_of_fmap. cbn in Heq. subst k'. apply row_in_elem in Hin.
  apply Hk. apply list_elem_of_fmap. by exists ((c, k), d').
Qed.

Lemma scan_all m c : scan_rows m c [] 0 = rows_of m c.
Proof.
  unfold scan_rows. cbn. induction (rows_of m c) as [|[k d] l IH]; [done|].
  rewrite filter_cons_True by (by destruct k). f_equal. apply IH.
Qed.

Lemma rows_of_nodup m c : NoDup (rows_of m c).*1.
Proof.
  unfold rows_of. change (omap _ (map_to_list m)) with (omap (row_in c) (map_to_list m)).
  rewrite std_sort_perm. apply row_in_nodup, NoDup_fst_map_to_list.
Qed.

Lemma rows_of_sorted m c : sorted_strict str_lt fst (rows_of m c).
Proof. apply std_sort_sorted; [apply _|]. apply row_in_nodup, NoDup_fst_map_to_list. Qed.

Lemma rows_of_lookup m c k : assoc k (rows_of m c) = m !! (c, k).
Proof.
  apply option_eq. intros d. rewrite assoc_Some by apply rows_of_nodup. unfold rows_of.
  change (omap _ (map_to_list m)) with (omap (row_in c) (map_to_list m)).
  rewrite std_sort_perm, row_in_elem. apply elem_of_map_to_list.
Qed.

(** ** Quota accounting *)
Definition kMergeOverdraftPercent : Z := 5.

Record quota := mkQuota { quota_bytes_ : Z; bytes_used_ : Z }.

Definition ceiling (merge : bool) (q : Z) : Z := if merge then u64 (q + q / 100 * kMergeOverdraftPercent) else q.

(** One attempt of the compare-and-swap loop, having read [current]: the value it would
    store, or a refusal. *)
Definition charge_next (merge : bool) (q old_cost new_cost current : Z) : StatusOr Z :=
  if new_cost <=? old_cost then
    let freed := old_cost - new_cost in OK (if current <? freed then 0 else current - freed)
  else
    let growth := new_cost - old_cost in
    if q =? 0 then OK (u64 (current + growth))
    else if ceiling merge q <? u64 (current + growth) then Fault kOutOfSpace
    else OK (u64 (current + growth)).

(** Without another writer the first attempt succeeds. *)
Definition Charge (merge : bool) (old_cost new_cost : Z) (q : quota) : StatusOr unit * quota :=
  match charge_next merge (quota_bytes_ q) old_cost new_cost (bytes_used_ q) with
  | Fault c => (Fault c, q)
  | OK n => (OK tt, mkQuota (quota_bytes_ q) n)
  end.

Definition RecordCost (key encoded_doc : bytes) : Z := Zlen key + Zlen encoded_doc + 32.

(** Writers of one backend.  Each has a request; it loads the counter and then swaps,
    which fails when the counter moved (or spuriously) and hands back what it saw. *)
Record request := mkReq { rq_merge : bool; rq_old : Z; rq_new : Z }.
Inductive charger :=
  | Waiting (r : request)
  | Loaded (r : request) (current : Z)
  | Charged (r : request) (before : Z)
  | Refused (r : request).

Inductive charge_step (q : Z) : Z * list charger -> Z * list charger -> Prop :=
  | step_load used ts i r :
      ts !! i = Some (Waiting r) ->
      charge_step q (used, ts) (used, <[i := Loaded r used]> ts)
  | step_refuse used ts i r current c :
      ts !! i = Some (Loaded r current) ->
      charge_next (rq_merge r) q (rq_old r) (rq_new r) current = Fault c ->
      charge_step q (used, ts) (used, <[i := Refused r]> ts)
  | step_swap used ts i r next :
      ts !! i = Some (Loaded r used) ->
      charge_next (rq_merge r) q (rq_old r) (rq_new r) used = OK next ->
      charge_step q (used, ts) (next, <[i := Charged r used]> ts)
  | step_retry used ts i r current next :
      ts !! i = Some (Loaded r current) ->
      charge_next (rq_merge r) q (rq_old r) (rq_new r) current = OK next ->
      charge_step q (used, ts) (used, <[i := Loaded r used]> ts).

(** Costs of records that exist: far from the width of the counter. *)
Definition request_ok (q : Z) (r : request) : Prop :=
  0 <= rq_old r /\ 0 <= rq_new r /\ q + q / 100 * kMergeOverdraftPercent + rq_new r < 2 ^ 64.

Definition charger_request (t : charger) : request :=
  match t with Waiting r | Loaded r _ | Charged r _ | Refused r => r end.

Lemma charge_next_bound merge q old new current next :
  0 < q -> request_ok q (mkReq merge old new) -> 0 <= current <= ceiling true q ->
  charge_next merge q old new current = OK next -> 0 <= next <= Z.max current (ceiling merge q).
Proof.
  intros Hq (H1 & H2 & H3) Hc. cbn [rq_old rq_new] in *.
  assert (Hd : 0 <= q / 100) by (apply Z.div_pos; lia). unfold kMergeOverdraftPercent in *.
  assert (Hceil : ceiling true q = q + q / 100 * 5) by (apply wrap_id; unfold fits, kMergeOverdraftPercent; lia).
  unfold charge_next. destruct (Z.leb_spec new old).
  { destruct (Z.ltb_spec current (old - new)); intros [= <-]; lia. }
  destruct (Z.eqb_spec q 0); [lia|].
  assert (u64 (current + (new - old)) = current + (new - old)) as -> by (apply wrap_id; unfold fits; lia).
  destruct (Z.ltb_spec (ceiling merge q) (current + (new - old))); [done|]. intros [= <-]. lia.
Qed.

(** C39: however the writers of a backend with a quota interleave, and whatever their
    swaps lose, the bytes accounted for never exceed the quota, or the quota and its
    five percent overdraft when replication merges are among them. *)
Theorem charge_never_overshoots q used0 ts0 used ts :
  0 < q -> Forall (fun t => request_ok q (charger_request t)) ts0 ->
  Forall (fun t => exists r, t = Waiting r) ts0 ->
  0 <= used0 <= q -> rtc (charge_step q) (used0, ts0) (used, ts) ->
  0 <= used <= ceiling (existsb (fun t => rq_merge (charger_request t)) ts0) q.
Proof.
  intros Hq Hok Hw Hu Hsteps. set (any := existsb _ ts0).
  assert (Hd : 0 <= q / 100) by (apply Z.div_pos; lia).
  destruct (decide (ts0 = [])) as [->|Hne].
  { inversion Hsteps as [|? [u1 t1] ? Hs]; subst; [cbn; lia|]. inversion Hs; subst; done. }
  assert (Hfit : q + q / 100 * kMergeOverdraftPercent < 2 ^ 64).
  { destruct ts0 as [|t0 l]; [done|]. apply Forall_cons in Hok as [(H1 & H2 & H3) _]. lia. }
  assert (Hceil : ceiling true q = q + q / 100 * 5).
  { apply wrap_id. unfold fits, kMergeOverdraftPercent in *. lia. }
  assert (Hqc : forall m, q <= ceiling m q <= ceiling true q).
  { intros []; rewrite ?Hceil; cbn; lia. }
  pose (good := fun t => request_ok q (charger_request t)
                 /\ (rq_merge (charger_request t) = true -> any = true)
                 /\ (forall r c, t = Loaded r c -> 0 <= c <= ceiling any q)).
  assert (Hinv : forall s s', rtc (charge_step q) s s' ->
            (0 <= s.1 <= ceiling any q /\ Forall good s.2) -> 0 <= s'.1 <= ceiling any q /\ Forall good s'.2).
  { intros s s'. induction 1 as [|s1 s2 s3 Hstep _ IH]; [done|]. intros [Hb Hg]. apply IH. clear IH.
    inversion Hstep as [u l i r Hi|u l i r c code Hi Hn|u l i r next Hi Hn|u l i r c next Hi Hn]; subst; cbn [fst snd] in *;
      pose proof (Forall_lookup_1 _ _ _ _ Hg Hi) as (G1 & G2 & G3); cbn in G1, G2;
      (split; [|apply Forall_insert; [done|split; [done|split; [done|]]]]); try done.
    - intros r' c' [= _ <-]. done.
    - pose proof (charge_next_bound (rq_merge r) q (rq_old r) (rq_new r) u next Hq G1 ltac:(destruct (Hqc any); lia) Hn) as Hc.
      assert (ceiling (rq_merge r) q <= ceiling any q); [|lia].
      destruct (rq_merge r); [rewrite G2 by done; lia|apply Hqc].
    - intros r' c' [= _ <-]. done. }
  apply (Hinv _ _ Hsteps). cbn [fst snd]. split; [destruct (Hqc any); lia|].
  apply Forall_forall. intros t Ht. rewrite Forall_forall in Hok, Hw. split; [by apply Hok|]. split.
  - intros Hm. unfold any. apply existsb_exists. exists t. split; [by apply list_elem_of_In|done].
  - intros r c ->. by destruct (Hw _ Ht).
Qed.

(** ** Convergence does not depend on the layout *)
Section Converge.
Context `{C : Crypto} {B1 B2 : Type} {E1 : EngineBackend B1} {E2 : EngineBackend B2}.
Context `{S1 : !BackendSpec E1} `{S2 : !BackendSpec E2}.

Lemma omap_perm {A D} (f : A -> option D) l l' : l ≡ₚ l' -> omap f l ≡ₚ omap f l'.
Proof.
  induction 1 as [|x l l' _ IH|x y l|]; cbn; [done| | |by etrans].
  - destruct (f x); by rewrite IH.
  - destruct (f x), (f y); (done || by apply perm_swap).
Qed.

Lemma FingerprintRows_perm l l' : l ≡ₚ l' -> FingerprintRows l = FingerprintRows l'.
Proof. intros Hp. unfold FingerprintRows. by rewrite (std_sort_strings _ _ (omap_perm fingerprint _ _ Hp)). Qed.

Lemma MergeRemote_ok {B} {E : EngineBackend B} `{S : !BackendSpec E} c k remote v (b : B) local u :
  be_inv b -> be_docs b !! (c, k) = Some local -> Decode local = Some u -> Decode remote = Some v ->
  forall r b', MergeRemote c k remote b = (r, b') ->
    be_inv b' /\ be_docs b' = match r with OK _ => <[(c, k) := Encode (Merge u v)]> (be_docs b) | Fault _ => be_docs b end.
Proof.
  intros Hb Hl Hu Hv r b'. unfold MergeRemote. rewrite Hv.
  destruct (be_get_spec b c k Hb) as (b1 & -> & H1 & H2 & _). rewrite Hl, Hu.
  pose proof (be_put_spec b1 true c k (Encode (Merge u v)) H1) as Hp. intros Ep. rewrite Ep in Hp.
  destruct Hp as (Hi & _ & Hd). rewrite H2 in Hd. done.
Qed.

(** Two nodes that bound a collection to different engines and exchange their
    versions of a document, each merging what it receives, store the same bytes, and
    where they agree on every other document they report the same checksum. *)
Theorem merge_remote_converges s c k d1 d2 v1 v2 (b1 b1' : B1) (b2 b2' : B2) :
  be_inv b1 -> be_inv b2 ->
  be_docs b1 !! (c, k) = Some d1 -> be_docs b2 !! (c, k) = Some d2 ->
  Decode d1 = Some v1 -> Decode d2 = Some v2 -> has_shape s v1 -> has_shape s v2 ->
  MergeRemote c k d2 b1 = (OK tt, b1') -> MergeRemote c k d1 b2 = (OK tt, b2') ->
  be_docs b1' !! (c, k) = Some (Encode (Merge v1 v2))
  /\ be_docs b2' !! (c, k) = be_docs b1' !! (c, k)
  /\ (delete (c, k) (be_docs b1) = delete (c, k) (be_docs b2) ->
      forall c', (Checksum c' b1').1 = (Checksum c' b2').1).
Proof.
  intros I1 I2 L1 L2 D1 D2 Hs1 Hs2 M1 M2.
  destruct (MergeRemote_ok c k d2 v2 b1 d1 v1 I1 L1 D1 D2 _ _ M1) as [J1 R1].
  destruct (MergeRemote_ok c k d1 v1 b2 d2 v2 I2 L2 D2 D1 _ _ M2) as [J2 R2].
  assert (Hm : Merge v2 v1 = Merge v1 v2) by (by apply (join_commutes (P := has_shape s))).
  rewrite Hm in R2. rewrite R1, R2, !lookup_insert_eq. split; [done|]. split; [done|].
  intros Hd c'. unfold Checksum.
  destruct (be_scan_spec b1' c' [] 0 J1) as (x & -> & _). destruct (be_scan_spec b2' c' [] 0 J2) as (y & -> & _).
  cbn [fst]. rewrite R1, R2. rewrite <- (insert_delete_eq (be_docs b1)), <- (insert_delete_eq (be_docs b2)), Hd. done.
Qed.
End Converge.

(** ** A backend in memory, with the inherited accounting: a model of the contract *)
Record MemBackend := mkMem { me_name : bytes; me_docs : docs; me_quota : quota }.

Definition mem_put (merge : bool) (c k d : bytes) (b : MemBackend) : StatusOr unit * MemBackend :=
  let old := match me_docs b !! (c, k) with Some e => RecordCost k e | None => 0 end in
  match Charge merge old (RecordCost k d) (me_quota b) with
  | (Fault code, _) => (Fault code, b)
  | (OK _, q) => (OK tt, mkMem (me_name b) (<[(c, k) := d]> (me_docs b)) q)
  end.

#[export] Instance mem_backend : EngineBackend MemBackend := {|
  be_name := me_name;
  be_put := mem_put;
  be_get c k b := (match me_docs b !! (c, k) with Some d => OK d | None => Fault kNotFound end, b);
  be_scan c start limit b := (scan_rows (me_docs b) c start limit, b);
  be_quota_use b := bytes_used_ (me_quota b);
  be_verify b := (OK tt, b);
  be_flush b := (OK tt, b);
|}.

#[export] Instance mem_backend_spec : BackendSpec mem_backend.
Proof.
  refine {| be_inv _ := True; be_docs := me_docs |}.
  - intros b c k _. by eexists.
  - intros b merge c k d _. cbn. unfold mem_put. by destruct (Charge _ _ _ _) as [[] q].
  - intros b c start limit _. by eexists.
  - intros b _. done.
Defined.

Definition mem_with (d : bytes) : MemBackend := mkMem (bs "kv") {[(bs "c", bs "k") := d]} (mkQuota 0 0).

Definition mem_merge (mine theirs : CrdtValue) : StatusOr unit * MemBackend :=
  @MergeRemote MemBackend mem_backend (bs "c") (bs "k") (Encode theirs) (mem_with (Encode mine)).

Lemma mem_merged mine theirs : (mem_merge mine theirs).1 = OK tt -> mem_merge mine theirs = (OK tt, (mem_merge mine theirs).2).
Proof. intros <-. by destruct (mem_merge mine theirs). Qed.

Lemma merge_remote_converges_witness :
  let v1 := ex_doc 1 (bs "asha") in
  let v2 := ex_doc 2 (bs "ravi") in
  me_docs (mem_merge v2 v1).2 !! (bs "c", bs "k") = me_docs (mem_merge v1 v2).2 !! (bs "c", bs "k").
Proof.
  intros v1 v2.
  assert (E1 : (mem_merge v1 v2).1 = OK tt) by (vm_compute; reflexivity).
  assert (E2 : (mem_merge v2 v1).1 = OK tt) by (vm_compute; reflexivity).
  apply (merge_remote_converges (C := toy_crypto) (S1 := mem_backend_spec) (S2 := mem_backend_spec) ex_shape
           (bs "c") (bs "k") (Encode v1) (Encode v2) v1 v2 (mem_with (Encode v1)) (mem_merge v1 v2).2
           (mem_with (Encode v2)) (mem_merge v2 v1).2).
  - exact I.
  - exact I.
  - apply lookup_singleton_eq.
  - apply lookup_singleton_eq.
  - vm_compute. reflexivity.
  - vm_compute. reflexivity.
  - split; [apply NoDup_singleton|]. intros k x. cbn. case_decide as Hk; [|intros [=]]. intros [= <-]. rewrite Hk. split; reflexivity.
  - split; [apply NoDup_singleton|]. intros k x. cbn. case_decide as Hk; [|intros [=]]. intros [= <-]. rewrite Hk. split; reflexivity.
  - exact (mem_merged v1 v2 E1).
  - exact (mem_merged v2 v1 E2).
Defined.

(** Two writers race for the last bytes of the quota; the loser of the swap is refused. *)
Lemma charge_never_overshoots_witness :
  let r := mkReq false 0 60 in
  exists ts, rtc (charge_step 100) (0, [Waiting r; Waiting r]) (60, ts) /\ 0 <= 60 <= ceiling false 100.
Proof.
  intros r. exists [Charged r 0; Refused r].
  assert (Hs : rtc (charge_step 100) (0, [Waiting r; Waiting r]) (60, [Charged r 0; Refused r])).
  { eapply rtc_l; [by apply (step_load _ _ _ 0)|]. eapply rtc_l; [by apply (step_load _ _ _ 1)|].
    eapply rtc_l; [by apply (step_swap _ _ _ 0)|]. eapply rtc_l; [by eapply (step_retry _ _ _ 1)|].
    eapply rtc_l; [by eapply (step_refuse _ _ _ 1)|]. apply rtc_refl. }
  split; [done|].
  apply (charge_never_overshoots 100 0 [Waiting r; Waiting r] 60 [Charged r 0; Refused r]); try lia; try done.
  - repeat constructor; cbn; lia.
  - repeat constructor; by eexists.
Defined.
