(* ===== verification/KvBackend.v ===== *)
(** * The default engine: src/storage/engines/kv_bplus.cpp

    One paged file, one B+Tree per collection over it and the records in slotted pages of
    the same file; the roots of the trees in a small sealed file beside it.  [None] is an
    exception that escapes, or an access outside a page or through a null frame. *)
From coqutil Require Import Word.LittleEndianList.
From S2P Require Import Prelude Bytes Hlc Json JsonText Crdt CrdtMerge CrdtCodec AtRest SlottedPage AtRestFiles DiskManager BufferPool BPlusTree Catalog Backend.
Local Open Scope Z_scope.

(** What a write of roots.json and a sync meet. *)
Record kv_event := mkKvEvent { ev_save : save_env; ev_sync : bool }.

Record KvBPlusBackend := mkKv {
  kv_dek : bytes;
  kv_roots_file : option bytes;
  kv_pool : BufferPool;
  indexes_ : gmap bytes Z;       (* the root each tree object has *)
  roots_ : gmap bytes Z;
  write_pages_ : gmap bytes Z;
  kv_quota : quota;
  kv_env : nat -> kv_event;
  kv_saves : nat;
}.

Definition set_pool (b : BufferPool) (kv : KvBPlusBackend) : KvBPlusBackend :=
  mkKv (kv_dek kv) (kv_roots_file kv) b (indexes_ kv) (roots_ kv) (write_pages_ kv) (kv_quota kv) (kv_env kv) (kv_saves kv).
Definition set_index (c : bytes) (root : Z) (kv : KvBPlusBackend) : KvBPlusBackend :=
  mkKv (kv_dek kv) (kv_roots_file kv) (kv_pool kv) (<[c := root]> (indexes_ kv)) (roots_ kv) (write_pages_ kv) (kv_quota kv) (kv_env kv) (kv_saves kv).
Definition set_roots (r : gmap bytes Z) (kv : KvBPlusBackend) : KvBPlusBackend :=
  mkKv (kv_dek kv) (kv_roots_file kv) (kv_pool kv) (indexes_ kv) r (write_pages_ kv) (kv_quota kv) (kv_env kv) (kv_saves kv).
Definition set_write_page (c : bytes) (id : Z) (kv : KvBPlusBackend) : KvBPlusBackend :=
  mkKv (kv_dek kv) (kv_roots_file kv) (kv_pool kv) (indexes_ kv) (roots_ kv) (<[c := id]> (write_pages_ kv)) (kv_quota kv) (kv_env kv) (kv_saves kv).
Definition set_quota (q : quota) (kv : KvBPlusBackend) : KvBPlusBackend :=
  mkKv (kv_dek kv) (kv_roots_file kv) (kv_pool kv) (indexes_ kv) (roots_ kv) (write_pages_ kv) q (kv_env kv) (kv_saves kv).
Definition set_roots_file (f : option bytes) (kv : KvBPlusBackend) : KvBPlusBackend :=
  mkKv (kv_dek kv) f (kv_pool kv) (indexes_ kv) (roots_ kv) (write_pages_ kv) (kv_quota kv) (kv_env kv) (S (kv_saves kv)).

Section Kv.
Context `{C : Crypto}.

(** ** Roots *)
Definition load_root (m : gmap bytes Z) (e : bytes * JsonValue) : gmap bytes Z :=
  if is_number e.2 then <[e.1 := to_signed 32 (u32 (AsInt e.2))]> m else m.

Definition LoadRoots (file : option bytes) (dek : bytes) : option (StatusOr (gmap bytes Z)) :=
  match ReadSealedJsonFile file dek (bs "roots") with
  | None => None
  | Some (Fault c) => Some (if bool_decide (c = kNotFound) then OK ∅ else Fault kCorruption)
  | Some (OK text) =>
      if bool_decide (text = []) then Some (OK ∅)
      else match Parse text with
           | None => Some (Fault kCorruption)
           | Some root => Some (OK (if is_object root then fold_left load_root (AsObject root) ∅ else ∅))
           end
  end.

Definition roots_text (m : gmap bytes Z) : bytes := Dump (JObject (map (fun '(c, r) => (c, JInt r)) (map_to_list m))).

Definition SaveRoots (kv : KvBPlusBackend) : StatusOr unit * KvBPlusBackend :=
  let e := ev_save (kv_env kv (kv_saves kv)) in
  let '(st, file) := WriteSealedJsonFile (se_io e) (se_nonce e) (roots_text (roots_ kv)) (kv_dek kv) (bs "roots") (kv_roots_file kv) in
  (match st with OK _ => OK tt | Fault _ => Fault kIOError end, set_roots_file file kv).

(** ** Open *)
Definition disk_bytes (b : BufferPool) : Z := u64 (Z.max 0 (NumAllocatedPages (disk_ b)) * kPageSize).

Definition OpenKv (made : bool) (env : open_env) (wenv : nat -> write_env) (events : nat -> kv_event)
    (file hdr roots : option bytes) (quota_mb : Z) (buffer_pool_pages : nat) (dek : bytes)
  : option (StatusOr KvBPlusBackend * (option bytes * option bytes)) :=
  if bad_dek dek then Some (Fault kInvalidArgument, (file, hdr))
  else if negb made then Some (Fault kIOError, (file, hdr))
  else match OpenDisk env wenv file hdr dek with
       | (Fault c, fs) => Some (Fault c, fs)
       | (OK d, fs) =>
           let b := new_pool (if (buffer_pool_pages =? 0)%nat then 16%nat else buffer_pool_pages) d in
           match LoadRoots roots dek with
           | None => None
           | Some (Fault c) => Some (Fault c, fs)
           | Some (OK m) => Some (OK (mkKv dek roots b ∅ m ∅ (mkQuota (u64 (quota_mb * 1024 * 1024)) (disk_bytes b)) events 0), fs)
           end
       end.

Definition BufferPoolPages (kv : KvBPlusBackend) : nat := PoolSize (kv_pool kv).

(** ** The tree of a collection; [None] inside is the null pointer *)
Definition IndexFor (c : bytes) (kv : KvBPlusBackend) : option (option Z * KvBPlusBackend) :=
  match indexes_ kv !! c with
  | Some root => Some (Some root, kv)
  | None =>
      '(valid, b) ← match roots_ kv !! c with
                    | Some r => RootLooksValid r (kv_pool kv)
                    | None => Some (false, kv_pool kv)
                    end;
      match valid : bool, roots_ kv !! c with
      | true, Some r => Some (Some r, set_index c r (set_pool b kv))
      | _, _ =>
          '(made, b1) ← CreateNew b;
          match made with
          | Fault _ => Some (None, set_pool b1 kv)
          | OK root =>
              let kv1 := set_roots (<[c := root]> (roots_ kv)) (set_pool b1 kv) in
              let kv2 := (SaveRoots kv1).2 in
              Some (Some root, set_index c root kv2)
          end
      end
  end.

(** ** Records *)
Definition read_record (r : RID) (b : BufferPool) : option (StatusOr bytes * BufferPool) :=
  match FetchPage (rid_page r) b with
  | (None, b1) => Some (Fault kInternal, b1)
  | (Some f, b1) =>
      found ← GetRecord (rid_slot r) (frame_data f b1);
      let b2 := unpin (rid_page r) false b1 in
      Some (match found with Some d => OK d | None => Fault kNotFound end, b2)
  end.

Definition KvGet (c k : bytes) (kv : KvBPlusBackend) : option (StatusOr bytes * KvBPlusBackend) :=
  '(index, kv1) ← IndexFor c kv;
  match index with
  | None => Some (Fault kNotFound, kv1)
  | Some root =>
      '(found, b) ← Search root k (kv_pool kv1);
      match found with
      | None => Some (Fault kNotFound, set_pool b kv1)
      | Some r => '(d, b1) ← read_record r b; Some (d, set_pool b1 kv1)
      end
  end.

(** The page that takes the next record. *)
Definition open_write_page (c : bytes) (kv : KvBPlusBackend) : option (StatusOr Z * KvBPlusBackend) :=
  match write_pages_ kv !! c with
  | Some id => Some (OK id, kv)
  | None =>
      match NewPage (kv_pool kv) with
      | (None, b) => Some (Fault kOutOfSpace, set_pool b kv)
      | (Some (f, id), b) =>
          b1 ← edit f Init b;
          Some (OK id, set_write_page c id (set_pool (unpin id true b1) kv))
      end
  end.

(** A record into a page through its frame: the slot, negative when there is no room. *)
Definition insert_record (f : nat) (d : bytes) (b : BufferPool) : option (Z * BufferPool) :=
  '(slot, p) ← InsertRecord d (frame_data f b); Some (slot, if slot <? 0 then b else write_frame f p b).

Definition place_record (c d : bytes) (kv : KvBPlusBackend) : option (StatusOr RID * KvBPlusBackend) :=
  '(wp, kv1) ← open_write_page c kv;
  match wp with
  | Fault e => Some (Fault e, kv1)
  | OK id =>
      match FetchPage id (kv_pool kv1) with
      | (None, b) => Some (Fault kOutOfSpace, set_pool b kv1)
      | (Some f, b) =>
          '(slot, b1) ← insert_record f d b;
          if slot <? 0 then
            match NewPage (unpin id false b1) with
            | (None, b2) => Some (Fault kOutOfSpace, set_pool b2 kv1)
            | (Some (fn, new_id), b2) =>
                b3 ← edit fn Init b2;
                '(slot', b4) ← insert_record fn d b3;
                let kv2 := set_pool (unpin new_id true b4) kv1 in
                if slot' <? 0 then Some (Fault kInvalidArgument, kv2)
                else Some (OK (mkRid new_id slot'), set_write_page c new_id kv2)
            end
          else Some (OK (mkRid id slot), set_pool (unpin id true b1) kv1)
      end
  end.

Definition KvPut (merge : bool) (c k d : bytes) (kv : KvBPlusBackend) : option (StatusOr unit * KvBPlusBackend) :=
  if bool_decide (k = []) || (BPlusTree.kMaxKeyBytes <=? Zlen k) then Some (Fault kInvalidArgument, kv)
  else
    '(existing, kv0) ← KvGet c k kv;
    let old_cost := match existing with OK e => RecordCost k e | Fault _ => 0 end in
    match Charge merge old_cost (RecordCost k d) (kv_quota kv0) with
    | (Fault e, _) => Some (Fault e, kv0)
    | (OK _, q) =>
        '(index, kv1) ← IndexFor c (set_quota q kv0);
        match index with
        | None => Some (Fault kInternal, kv1)
        | Some root =>
            '(placed, kv2) ← place_record c d kv1;
            match placed with
            | Fault e => Some (Fault e, kv2)
            | OK r =>
                let kv3 := set_quota (mkQuota (quota_bytes_ (kv_quota kv2)) (disk_bytes (kv_pool kv2))) kv2 in
                '(st, root', b) ← Insert root k r (kv_pool kv3);
                Some (st, set_index c root' (set_pool b kv3))
            end
        end
    end.

Fixpoint read_rows (rows : list (bytes * RID)) (b : BufferPool) : option (list EngineRow * BufferPool) :=
  match rows with
  | [] => Some ([], b)
  | (k, r) :: rest =>
      '(d, b1) ← read_record r b;
      '(out, b2) ← read_rows rest b1;
      Some (match d with OK x => (k, x) :: out | Fault _ => out end, b2)
  end.

Definition KvScan (c start : bytes) (limit : nat) (kv : KvBPlusBackend) : option (list EngineRow * KvBPlusBackend) :=
  '(index, kv1) ← IndexFor c kv;
  match index with
  | None => Some ([], kv1)
  | Some root =>
      '(rows, b) ← ScanTree root start limit (kv_pool kv1);
      '(out, b1) ← read_rows rows b;
      Some (out, set_pool b1 kv1)
  end.

(** ** Verification and flush *)
Definition KvListCollections (kv : KvBPlusBackend) : list bytes := std_sort str_lt id (map_to_list (roots_ kv)).*1.

Fixpoint verify_rows (root : Z) (rows : list (bytes * RID)) (b : BufferPool) : option (StatusOr unit * BufferPool) :=
  match rows with
  | [] => Some (OK tt, b)
  | (k, r) :: rest =>
      '(routed, b1) ← Search root k b;
      if bool_decide (routed = Some r) then
        match FetchPage (rid_page r) b1 with
        | (None, b2) => Some (Fault kCorruption, b2)
        | (Some f, b2) =>
            found ← GetRecord (rid_slot r) (frame_data f b2);
            let b3 := unpin (rid_page r) false b2 in
            match found with None => Some (Fault kCorruption, b3) | Some _ => verify_rows root rest b3 end
        end
      else Some (Fault kCorruption, b1)
  end.

Fixpoint verify_collections (names : list bytes) (kv : KvBPlusBackend) : option (StatusOr unit * KvBPlusBackend) :=
  match names with
  | [] => Some (OK tt, kv)
  | c :: rest =>
      '(index, kv1) ← IndexFor c kv;
      match index with
      | None => Some (Fault kCorruption, kv1)
      | Some root =>
          '(rows, b) ← ScanTree root [] 0 (kv_pool kv1);
          '(st, b1) ← verify_rows root rows b;
          let kv2 := set_pool b1 kv1 in
          match st with Fault e => Some (Fault e, kv2) | OK _ => verify_collections rest kv2 end
      end
  end.

Definition KvVerify (kv : KvBPlusBackend) : option (StatusOr unit * KvBPlusBackend) := verify_collections (KvListCollections kv) kv.

Definition KvFlush (kv : KvBPlusBackend) : StatusOr unit * KvBPlusBackend :=
  let kv1 := set_roots (indexes_ kv ∪ roots_ kv) kv in
  let kv2 := set_pool (FlushAllPages (kv_pool kv1)) kv1 in
  let sync := ev_sync (kv_env kv2 (kv_saves kv2)) in
  match SaveRoots kv2 with
  | (Fault e, kv3) => (Fault e, kv3)
  | (OK _, kv3) => (SyncDisk sync (disk_ (kv_pool kv3)), kv3)
  end.
End Kv.
