(* ===== verification/KvProps.v ===== *)
(** * The default engine is a map of documents

    The trees of the collections and the pages of records share one file: the invariant
    says which page belongs to whom, and each operation is shown to keep to its own. *)
From stdpp Require Import functions.
From coqutil Require Import Byte.
From S2P Require Import Prelude Bytes Hlc Json JsonText Crdt CrdtMerge CrdtCodec AtRest SlottedPage AtRestFiles DiskManager BufferPool BufferPoolProps BPlusTree Pins BNode BTree BPlusProps BPlusGrow BPlusRefine Catalog Backend KvBackend.
Local Open Scope Z_scope.

(** ** The invariant *)
Abbreviation forest := (gmap bytes (nat * tree)).
Abbreviation record_pages := (gmap Z slots_spec).

(** The document a record id stands for. *)
Definition record_of (D : record_pages) (r : RID) : option bytes := D !! rid_page r ≫= spec_get (rid_slot r).

(** The root by which a collection is reached. *)
Definition root_of (kv : KvBPlusBackend) (c : bytes) : option Z :=
  match indexes_ kv !! c with Some r => Some r | None => roots_ kv !! c end.

Record layout_ok (V : Z -> bytes) (n : Z) (F : forest) (D : record_pages) : Prop := {
  lo_tree : forall c h t, F !! c = Some (h, t) -> tree_ok V n h t;
  lo_trees : forall c c' h h' t t' i, F !! c = Some (h, t) -> F !! c' = Some (h', t') -> c <> c' -> i ∈ ids t -> i ∉ ids t';
  lo_page : forall p s, D !! p = Some s -> 0 <= p < n /\ page_means (V p) s;
  lo_apart : forall c h t p s, F !! c = Some (h, t) -> D !! p = Some s -> p ∉ ids t;
  lo_live : forall c h t k r, F !! c = Some (h, t) -> (k, r) ∈ entries_of (flat t) -> is_Some (record_of D r);
}.

(** The documents of a layout. *)
Definition shows (F : forest) (D : record_pages) (m : docs) : Prop :=
  forall c k, m !! (c, k) = F !! c ≫= fun ht => assoc k (entries_of (flat ht.2)) ≫= record_of D.

(** What an engine is opened with and keeps: its key and its environment. *)
Class KvStatic := { static_dek : bytes; static_env : nat -> kv_event }.

Section Invariant.
Context `{C : Crypto} `{!CryptoLaws C} `{K : DiskKey} `{St : KvStatic}.
Implicit Types (b : BufferPool) (V : Z -> bytes) (kv : KvBPlusBackend) (F : forest) (D : record_pages) (n : Z) (c k d : bytes) (t : tree) (h : nat).

Record kv_inv kv V (n : Z) (F : forest) (D : record_pages) (m : docs) : Prop := {
  ki_pool : held (kv_pool kv) V n [] ∅;
  ki_layout : layout_ok V n F D;
  ki_root : forall c, root_of kv c = (fun ht => root_id ht.2) <$> F !! c;
  ki_write : forall c p, write_pages_ kv !! c = Some p -> is_Some (D !! p);
  ki_docs : shows F D m;
  ki_static : kv_dek kv = static_dek /\ kv_env kv = static_env;
}.

(** *** Frames *)
Lemma tree_frame V V' n n' h t : (forall i, i ∈ ids t -> V' i = V i) -> n <= n' -> tree_ok V n h t -> tree_ok V' n' h t.
Proof.
  intros HV Hn [H1 H2 H3 H4 H5]. split; [by eapply stored_frame|done| | |done].
  - intros i Hi. apply H3 in Hi. lia.
  - eapply links_frame; [|exact H4]. intros i Hi. rewrite HV; [done|]. eapply sublist_mem; [apply leafs_sublist|done].
Qed.

(** Pages nobody owns may change. *)
Lemma layout_frame V V' n n' F D :
  layout_ok V n F D -> n <= n' -> (forall i, i < n -> V' i = V i) -> layout_ok V' n' F D.
Proof.
  intros [H1 H2 H3 H4 H5] Hn HV. split; [|done| |done|done].
  - intros c h t Ht. eapply tree_frame; [|exact Hn|by eapply H1]. intros i Hi. apply HV. apply (to_range _ _ _ _ (H1 _ _ _ Ht)) in Hi. lia.
  - intros p s Hp. destruct (H3 p s Hp) as [Hr Hm]. split; [lia|]. by rewrite HV by lia.
Qed.

(** A record page changed, or is new. *)
Lemma layout_page V n n' F D p q s :
  layout_ok V n F D -> n <= n' -> 0 <= p < n' -> (forall c h t, F !! c = Some (h, t) -> p ∉ ids t) -> page_means q s ->
  (forall r d, record_of D r = Some d -> record_of (<[p := s]> D) r = Some d) ->
  layout_ok (<[p := q]> V) n' F (<[p := s]> D).
Proof.
  intros [H1 H2 H3 H4 H5] Hn Hp Hf Hq Hk. split; [|done| | |].
  - intros c h t Ht. eapply tree_frame; [|exact Hn|by eapply H1]. intros i Hi. apply fn_lookup_insert_ne. intros <-. by apply (Hf _ _ _ Ht).
  - intros p' s' Hs. destruct (decide (p' = p)) as [->|Hne].
    + rewrite lookup_insert_eq in Hs. injection Hs as <-. rewrite fn_lookup_insert. done.
    + rewrite lookup_insert_ne in Hs by done. destruct (H3 _ _ Hs). rewrite fn_lookup_insert_ne by done. split; [lia|done].
  - intros c h t p' s' Ht Hs. destruct (decide (p' = p)) as [->|Hne]; [by eapply Hf|]. rewrite lookup_insert_ne in Hs by done. by eapply H4.
  - intros c h t k r Ht Hk'. destruct (H5 _ _ _ _ _ Ht Hk') as [d Hd]. exists d. by apply Hk.
Qed.

Lemma shows_more F D D' m :
  (forall r d, record_of D r = Some d -> record_of D' r = Some d) ->
  (forall c h t k r, F !! c = Some (h, t) -> (k, r) ∈ entries_of (flat t) -> is_Some (record_of D r)) -> shows F D m -> shows F D' m.
Proof.
  intros Hk Hl Hm c k. rewrite Hm. destruct (F !! c) as [[h t]|] eqn:Ec; [|done]. cbn [mbind option_bind snd].
  destruct (assoc k (entries_of (flat t))) as [r|] eqn:Er; [|done]. cbn [mbind option_bind].
  destruct (Hl _ _ _ k r Ec) as [d Hd]; [by apply assoc_elem|]. rewrite Hd. symmetry. by apply Hk.
Qed.

(** A tree changed at one key. *)
Lemma layout_update V n F D c h t V' n' h' t' k r :
  layout_ok V n F D -> F !! c = Some (h, t) -> tree_ok V' n' h' t' -> updated V n t k (Some r) V' t' -> n <= n' ->
  is_Some (record_of D r) -> layout_ok V' n' (<[c := (h', t')]> F) D.
Proof.
  intros [H1 H2 H3 H4 H5] Hc Ht U Hn Hr.
  assert (Hother : forall c' h2 t2 i, F !! c' = Some (h2, t2) -> c' <> c -> i ∈ ids t2 -> V' i = V i /\ (i ∉ ids t')).
  { intros c' h2 t2 i Hc' Hne Hi. pose proof (to_range _ _ _ _ (H1 _ _ _ Hc') i Hi) as Hi'.
    assert (Hnot : i ∉ ids t) by (by eapply (H2 c' c)). split; [apply (up_frame _ _ _ _ _ _ _ U); [lia|done]|].
    intros Hin. destruct (up_ids _ _ _ _ _ _ _ U i Hin); [done|lia]. }
  assert (Hpage : forall p s, D !! p = Some s -> V' p = V p /\ (p ∉ ids t')).
  { intros p s Hs. destruct (H3 p s Hs) as [Hp _]. pose proof (H4 _ _ _ _ _ Hc Hs) as Hnot.
    split; [apply (up_frame _ _ _ _ _ _ _ U); [lia|done]|]. intros Hin. destruct (up_ids _ _ _ _ _ _ _ U p Hin); [done|lia]. }
  split.
  - intros c' h2 t2 Hl. destruct (decide (c' = c)) as [->|Hne]; [rewrite lookup_insert_eq in Hl; by simplify_eq|].
    rewrite lookup_insert_ne in Hl by done. eapply tree_frame; [|exact Hn|by eapply H1]. intros i Hi. by eapply Hother.
  - intros c1 c2 h1 h2 t1 t2 i L1 L2 Hne Hi. destruct (decide (c1 = c)) as [->|N1], (decide (c2 = c)) as [->|N2]; try done.
    + rewrite lookup_insert_eq in L1. rewrite lookup_insert_ne in L2 by done. simplify_eq. intros Hi2. by destruct (Hother _ _ _ _ L2 N2 Hi2).
    + rewrite lookup_insert_eq in L2. rewrite lookup_insert_ne in L1 by done. simplify_eq. by apply (Hother _ _ _ _ L1 N1 Hi).
    + rewrite lookup_insert_ne in L1, L2 by done. by eapply (H2 c1 c2).
  - intros p s Hs. destruct (H3 p s Hs) as [Hp Hm]. destruct (Hpage p s Hs) as [-> _]. split; [lia|done].
  - intros c' h2 t2 p s Hl Hs. destruct (decide (c' = c)) as [->|Hne].
    + rewrite lookup_insert_eq in Hl. simplify_eq. by eapply Hpage.
    + rewrite lookup_insert_ne in Hl by done. by eapply H4.
  - intros c' h2 t2 k' r' Hl Hin. destruct (decide (c' = c)) as [->|Hne]; [|rewrite lookup_insert_ne in Hl by done; by eapply H5].
    rewrite lookup_insert_eq in Hl. simplify_eq.
    assert (Hn' : NoDup (entries_of (flat t2)).*1) by (eapply (sorted_strict_nodup str_lt fst), ordered_entries, Ht).
    apply (assoc_Some k' r' _ Hn') in Hin. rewrite (up_maps _ _ _ _ _ _ _ U) in Hin. case_decide; [by simplify_eq|].
    eapply H5; [exact Hc|]. apply assoc_elem. exact Hin.
Qed.

Lemma shows_update F D m c h t V n V' h' t' k r d :
  shows F D m -> F !! c = Some (h, t) -> updated V n t k (Some r) V' t' -> record_of D r = Some d ->
  shows (<[c := (h', t')]> F) D (<[(c, k) := d]> m).
Proof.
  intros Hm Hc U Hr c' k'. destruct (decide (c' = c)) as [->|Hne].
  - rewrite lookup_insert_eq. cbn [mbind option_bind snd]. rewrite (up_maps _ _ _ _ _ _ _ U). case_decide as Hk.
    + subst k'. rewrite lookup_insert_eq. cbn. by rewrite Hr.
    + rewrite lookup_insert_ne by congruence. rewrite Hm, Hc. done.
  - rewrite (lookup_insert_ne F) by done. rewrite lookup_insert_ne by congruence. apply Hm.
Qed.

(** ** The tree of a collection *)

(** What stays of the state when only the pool, the quota and the trees change. *)
Definition same_quota kv kv' : Prop := kv_quota kv' = kv_quota kv.

Lemma inv_pool kv V n F D m b : kv_inv kv V n F D m -> held b V n [] ∅ -> kv_inv (set_pool b kv) V n F D m.
Proof. intros [H1 H2 H3 H4 H5] Hb. by split. Qed.

Lemma save_keeps kv V n F D m : kv_inv kv V n F D m -> kv_inv (SaveRoots kv).2 V n F D m.
Proof. intros [H1 H2 H3 H4 H5]. unfold SaveRoots. destruct (WriteSealedJsonFile _ _ _ _ _ _) as [st f]. by split. Qed.

Lemma save_same kv : let kv' := (SaveRoots kv).2 in
  kv_pool kv' = kv_pool kv /\ indexes_ kv' = indexes_ kv /\ roots_ kv' = roots_ kv /\ write_pages_ kv' = write_pages_ kv /\ kv_quota kv' = kv_quota kv
  /\ kv_dek kv' = kv_dek kv /\ kv_env kv' = kv_env kv.
Proof. unfold SaveRoots. by destruct (WriteSealedJsonFile _ _ _ _ _ _). Qed.

(** A new, empty tree beside the others. *)
Lemma layout_new V n F D c p :
  layout_ok V n F D -> F !! c = None -> tree_ok (<[n := p]> V) (n + 1) 0 (TLeaf n []) ->
  layout_ok (<[n := p]> V) (n + 1) (<[c := (0%nat, TLeaf n [])]> F) D.
Proof.
  intros Hl Hc Ht. assert (H0 : layout_ok (<[n := p]> V) (n + 1) F D).
  { eapply layout_frame; [exact Hl|lia|]. intros i Hi. apply fn_lookup_insert_ne. lia. }
  destruct H0 as [H1 H2 H3 H4 H5]. pose proof (lo_tree _ _ _ _ Hl) as R1. pose proof (lo_page _ _ _ _ Hl) as R3.
  assert (Hfresh : forall c' h t, F !! c' = Some (h, t) -> n ∉ ids t) by (intros c' h t Hl' Hi; apply (to_range _ _ _ _ (R1 _ _ _ Hl')) in Hi; lia).
  split; [| |done| |].
  - intros c' h t. rewrite lookup_insert_Some. intros [[<- [= <- <-]]|[Hne Hl']]; [done|by eapply H1].
  - intros c1 c2 h1 h2 t1 t2 i. rewrite !lookup_insert_Some. intros [[<- [= <- <-]]|[N1 L1]] [[<- [= <- <-]]|[N2 L2]] Hne Hi; try done.
    + cbn in Hi. apply list_elem_of_singleton in Hi as ->. by eapply Hfresh.
    + cbn. intros ->%list_elem_of_singleton. by eapply Hfresh.
    + by eapply (H2 c1 c2).
  - intros c' h t q s. rewrite lookup_insert_Some. intros [[<- [= <- <-]]|[Hne Hl']] Hs; [|by eapply H4].
    cbn. intros ->%list_elem_of_singleton. destruct (R3 _ _ Hs). lia.
  - intros c' h t k r. rewrite lookup_insert_Some. intros [[<- [= <- <-]]|[Hne Hl']] Hin; [by apply elem_of_nil in Hin|by eapply H5].
Qed.

Lemma IndexFor_ok c kv V n F D m :
  kv_inv kv V n F D m -> n < 2 ^ 31 ->
  exists kv' V' n' F' h t, IndexFor c kv = Some (Some (root_id t), kv') /\ kv_inv kv' V' n' F' D m
    /\ indexes_ kv' !! c = Some (root_id t) /\ F' !! c = Some (h, t) /\ n <= n' <= n + 1 /\ same_quota kv kv'
    /\ (is_Some (F !! c) -> V' = V /\ n' = n /\ F' = F).
Proof.
  intros Hi Hn. pose proof Hi as [Hb Hl Hr Hw Hm]. unfold IndexFor. pose proof (Hr c) as Hrc. unfold root_of in Hrc.
  destruct (indexes_ kv !! c) as [root|] eqn:Ei.
  { destruct (F !! c) as [[h t]|] eqn:Ec; [|done]. injection Hrc as ->. exists kv, V, n, F, h, t. split; [done|]. split; [done|]. split; [done|]. split; [done|]. split; [lia|by split]. }
  destruct (roots_ kv !! c) as [r|] eqn:Er.
  - destruct (F !! c) as [[h t]|] eqn:Ec; [|done]. injection Hrc as ->. cbn [snd].
    destruct (RootLooksValid_ok (kv_pool kv) V n h t) as (b' & -> & [Hb' _]); [split; [done|by eapply lo_tree]|]. cbn [mbind option_bind].
    exists (set_index c (root_id t) (set_pool b' kv)), V, n, F, h, t. split; [done|]. split; [|split; [apply lookup_insert_eq|split; [done|split; [lia|by split]]]].
    split; [done|done| |done|done|done]. intros c'. unfold root_of. cbn. destruct (decide (c' = c)) as [->|Hne].
    + by rewrite lookup_insert_eq, Ec.
    + rewrite lookup_insert_ne by done. apply Hr.
  - destruct (F !! c) as [[h t]|] eqn:Ec; [done|]. cbn [mbind option_bind].
    pose proof (pi_next _ _ _ (h_ok _ _ _ _ _ Hb)) as H0. rewrite (h_count _ _ _ _ _ Hb) in H0.
    destruct (CreateNew_ok (kv_pool kv) V n Hb ltac:(lia)) as (b' & p & -> & [Hb' Ht]). cbn [mbind option_bind].
    set (kv1 := set_roots (<[c := n]> (roots_ kv)) (set_pool b' kv)). destruct (save_same kv1) as (S1 & S2 & S3 & S4 & S5 & S6 & S7).
    exists (set_index c n (SaveRoots kv1).2), (<[n := p]> V), (n + 1), (<[c := (0%nat, TLeaf n [])]> F), 0%nat, (TLeaf n []).
    split; [done|]. split; [|split; [apply lookup_insert_eq|split; [apply lookup_insert_eq|split; [lia|split; [exact S5|intros [? ?]; done]]]]].
    split; cbn; [by rewrite S1|by apply layout_new| | | |by rewrite S6, S7].
    + intros c'. unfold root_of. cbn. rewrite S2, S3. cbn. destruct (decide (c' = c)) as [->|Hne]; [by rewrite !lookup_insert_eq|].
      rewrite !lookup_insert_ne by done. apply Hr.
    + intros c' q. rewrite S4. cbn. apply Hw.
    + intros c' k. rewrite Hm. destruct (decide (c' = c)) as [->|Hne]; [by rewrite lookup_insert_eq, Ec|by rewrite lookup_insert_ne].
Qed.

(** ** Reading *)
Lemma read_record_ok r d b V n F D :
  held b V n [] ∅ -> layout_ok V n F D -> record_of D r = Some d ->
  exists b', read_record r b = Some (OK d, b') /\ held b' V n [] ∅.
Proof.
  intros Hb Hl Hr. unfold record_of in Hr. apply bind_Some in Hr as (s & Hs & Hd). destruct (lo_page _ _ _ _ Hl _ _ Hs) as [Hp Hm].
  destruct (held_read b V n (rid_page r) Hb Hp) as (f & b1 & E & D1 & _ & Hb1). unfold read_record. rewrite E, D1, (GetRecord_ok _ _ s Hm), Hd.
  by exists (unpin (rid_page r) false b1).
Qed.

Lemma KvGet_ok c k kv V n F D m :
  kv_inv kv V n F D m -> n < 2 ^ 31 ->
  exists kv' V' n' F' h t, KvGet c k kv = Some (match m !! (c, k) with Some d => OK d | None => Fault kNotFound end, kv')
    /\ kv_inv kv' V' n' F' D m /\ indexes_ kv' !! c = Some (root_id t) /\ F' !! c = Some (h, t) /\ n <= n' <= n + 1 /\ same_quota kv kv'.
Proof.
  intros Hi Hn. destruct (IndexFor_ok c kv V n F D m Hi Hn) as (kv1 & V1 & n1 & F1 & h & t & E & Hi1 & Hx & Hc & B & Q & _).
  unfold KvGet. rewrite E. cbn [mbind option_bind]. rewrite (ki_docs _ _ _ _ _ _ Hi1), Hc. cbn [mbind option_bind snd].
  destruct (Search_ok k (kv_pool kv1) V1 n1 h t) as (b1 & -> & Hb1); [apply Hi1|by eapply lo_tree; [apply Hi1|]|lia|]. cbn [mbind option_bind].
  destruct (assoc k (entries_of (flat t))) as [r|] eqn:Er.
  - destruct (lo_live _ _ _ _ (ki_layout _ _ _ _ _ _ Hi1) c h t k r Hc) as [d Hd]; [by apply assoc_elem|].
    destruct (read_record_ok r d b1 V1 n1 F1 D Hb1 (ki_layout _ _ _ _ _ _ Hi1) Hd) as (b2 & -> & Hb2). cbn [mbind option_bind]. rewrite Hd.
    exists (set_pool b2 kv1), V1, n1, F1, h, t. split; [done|]. split; [by apply inv_pool|done].
  - exists (set_pool b1 kv1), V1, n1, F1, h, t. split; [done|]. split; [by apply inv_pool|done].
Qed.

(** ** Placing a record *)
Definition keeps D D' : Prop := forall r d, record_of D r = Some d -> record_of D' r = Some d.

Lemma keeps_refl D : keeps D D.
Proof. by intros r d. Qed.
Lemma keeps_trans D1 D2 D3 : keeps D1 D2 -> keeps D2 D3 -> keeps D1 D3.
Proof. intros H1 H2 r d H. by apply H2, H1. Qed.

Lemma keeps_page D p s s' :
  D !! p = Some s \/ D !! p = None -> (forall i x, D !! p = Some s -> spec_get i s = Some x -> spec_get i s' = Some x) -> keeps D (<[p := s']> D).
Proof.
  intros Hp Hs r d. unfold record_of. destruct (decide (rid_page r = p)) as [->|Hne]; [|by rewrite lookup_insert_ne].
  rewrite lookup_insert_eq. destruct Hp as [Hp|Hp]; rewrite Hp; [|done]. cbn. by apply Hs.
Qed.

(** A record goes to a free slot. *)
Lemma spec_insert_get d p s :
  page_means p s -> 0 <= (spec_insert d s).1 ->
  let '(slot, s') := spec_insert d s in
  spec_get slot s' = Some d /\ sfits 16 slot /\ forall i x, spec_get i s = Some x -> spec_get i s' = Some x.
Proof.
  intros Hm. destruct (page_room _ _ Hm) as [_ Hroom]. unfold spec_insert. destruct (_ <? _); [cbn; lia|].
  destruct (first_free (recs s)) as [i|] eqn:Ef; cbn [fst]; intros _; unfold spec_get; cbn [recs].
  - pose proof (first_free_Some _ _ Ef) as Hi. pose proof (lookup_lt_Some _ _ _ Hi) as Hlt. pose proof (lookup_Zlen _ _ _ Hi).
    rewrite (proj2 (Z.ltb_ge _ _)) by lia. rewrite Nat2Z.id. split; [by rewrite list_lookup_insert_eq|]. split; [unfold sfits; lia|].
    intros j x. destruct (j <? 0) eqn:Ej; [done|]. apply Z.ltb_ge in Ej. intros Hx. rewrite list_lookup_insert_ne; [done|].
    intros Heq. by rewrite <- Heq, Hi in Hx.
  - pose proof (Zlen_nonneg (recs s)). rewrite (proj2 (Z.ltb_ge _ _)) by lia.
    split; [rewrite to_nat_Zlen; by rewrite list_lookup_middle|]. split; [unfold sfits; lia|].
    intros j x. destruct (j <? 0); [done|]. intros Hx. destruct (recs s !! Z.to_nat j) as [y|] eqn:Ey; [|done].
    by rewrite lookup_app_l_Some with (x := y).
Qed.

Lemma inv_page kv V n F D m b p q s n' :
  kv_inv kv V n F D m -> held b (<[p := q]> V) n' [] ∅ -> n <= n' -> 0 <= p < n' -> is_Some (D !! p) \/ n <= p -> page_means q s ->
  keeps D (<[p := s]> D) -> kv_inv (set_pool b kv) (<[p := q]> V) n' F (<[p := s]> D) m.
Proof.
  intros [H1 H2 H3 H4 H5] Hb Hn Hp Hwhose Hq Hk. split; cbn; [done| |done| | |done].
  - apply layout_page with (n := n); try done. intros c h t Hc Hi. destruct Hwhose as [[s0 Hs]|Hge].
    + by apply (lo_apart _ _ _ _ H2 _ _ _ _ _ Hc Hs).
    + pose proof (to_range _ _ _ _ (lo_tree _ _ _ _ H2 _ _ _ Hc) _ Hi). lia.
  - intros c p' Hw. destruct (decide (p' = p)) as [->|Hne]; [rewrite lookup_insert_eq; by eexists|].
    rewrite lookup_insert_ne by done. by eapply H4.
  - eapply shows_more; [exact Hk|apply H2|done].
Qed.

Lemma page_none kv V n F D m : kv_inv kv V n F D m -> D !! n = None.
Proof.
  intros Hi. destruct (D !! n) as [s|] eqn:E; [|done]. destruct (lo_page _ _ _ _ (ki_layout _ _ _ _ _ _ Hi) _ _ E) as [H _]. lia.
Qed.

(** A new page, set up for records and then perhaps given one. *)
Lemma new_record_page b V n :
  held b V n [] ∅ -> 0 <= n < 2 ^ 31 ->
  exists f b1 b2 q, NewPage b = (Some (f, n), b1) /\ edit f Init b1 = Some b2 /\ page_means q (mkSlots [] 0)
    /\ held b2 (<[n := q]> (<[n := zero_page]> V)) (n + 1) [(n, f)] ({[n]} ∪ ∅).
Proof.
  intros Hb Hn. destruct (held_new b V n [] ∅ Hb ltac:(lia) ltac:(cbn; lia)) as (f & b1 & E1 & Hb1).
  destruct (Init_ok zero_page) as (q & Eq & Hq); [done|].
  destruct (held_edit b1 _ (n + 1) _ ∅ n f Init q Hb1 ltac:(left)) as [E2 Hb2]; [by rewrite fn_lookup_insert|apply Hq|].
  by exists f, b1, (write_frame f q b1), q.
Qed.

Lemma held_same b V V' n fs T : held b V n fs T -> (forall i, 0 <= i -> V' i = V i) -> held b V' n fs T.
Proof. intros [H1 H2 H3 H4 H5 H6 H7] HV. split; try done. intros j Hj. by rewrite HV, H3. Qed.

Lemma insert_twice V (p : Z) (x y : bytes) i : (<[p := x]> (<[p := y]> V)) i = (<[p := x]> V) i.
Proof. destruct (decide (i = p)) as [->|Hne]; [by rewrite !fn_lookup_insert|by rewrite !fn_lookup_insert_ne]. Qed.

Lemma open_write_page_ok c kv V n F D m :
  kv_inv kv V n F D m -> n < 2 ^ 31 ->
  exists kv' V' n' D' id, open_write_page c kv = Some (OK id, kv') /\ kv_inv kv' V' n' F D' m /\ is_Some (D' !! id) /\ keeps D D'
    /\ n <= n' <= n + 1 /\ same_quota kv kv' /\ indexes_ kv' = indexes_ kv.
Proof.
  intros Hi Hn. unfold open_write_page. destruct (write_pages_ kv !! c) as [id|] eqn:Ew.
  { exists kv, V, n, D, id. split; [done|]. split; [done|]. split; [by eapply ki_write|]. split; [apply keeps_refl|]. split; [lia|done]. }
  pose proof (ki_pool _ _ _ _ _ _ Hi) as Hb. pose proof (pi_next _ _ _ (h_ok _ _ _ _ _ Hb)) as H0. rewrite (h_count _ _ _ _ _ Hb) in H0.
  destruct (new_record_page (kv_pool kv) V n Hb ltac:(lia)) as (f & b1 & b2 & q & -> & -> & Hq & Hb2). cbn [mbind option_bind].
  assert (Hk : keeps D (<[n := mkSlots [] 0]> D)).
  { apply (keeps_page _ _ (mkSlots [] 0)); [right; by eapply page_none|done]. }
  assert (Hb3 : held (unpin n true b2) (<[n := q]> V) (n + 1) [] ∅).
  { eapply held_same; [|intros i _; symmetry; apply insert_twice]. apply (held_return _ _ _ _ f); [done|apply not_elem_of_empty]. }
  exists (set_write_page c n (set_pool (unpin n true b2) kv)), (<[n := q]> V), (n + 1), (<[n := mkSlots [] 0]> D), n.
  split; [done|]. split; [|split; [rewrite lookup_insert_eq; by eexists|split; [done|split; [lia|done]]]].
  destruct (inv_page kv V n F D m _ n q (mkSlots [] 0) (n + 1) Hi Hb3 ltac:(lia) ltac:(lia) ltac:(right; lia) Hq Hk) as [I1 I2 I3 I4 I5].
  split; try done. intros c' p. cbn. rewrite lookup_insert_Some. intros [[<- <-]|[Hne Hw]]; [rewrite lookup_insert_eq; by eexists|by eapply I4].
Qed.

(** The longest record an empty page takes. *)
Definition kMaxRecord : Z := kPageSize - 8.

Lemma spec_insert_room d s : (spec_insert d s).1 < 0 -> spec_free s < Zlen d + 4.
Proof.
  unfold spec_insert. destruct (Z.ltb_spec (spec_free s) (Zlen d + 4)); [done|].
  pose proof (Zlen_nonneg (recs s)). destruct (first_free (recs s)); cbn; lia.
Qed.

Lemma insert_record_ok d b V n p f T s :
  held b V n [(p, f)] T -> page_means (V p) s -> Zlen d < 2 ^ 63 ->
  (insert_record f d b = Some ((spec_insert d s).1, b) /\ (spec_insert d s).1 < 0)
  \/ exists b' q, insert_record f d b = Some ((spec_insert d s).1, b') /\ 0 <= (spec_insert d s).1
       /\ page_means q (spec_insert d s).2 /\ held b' (<[p := q]> V) n [(p, f)] ({[p]} ∪ T).
Proof.
  intros Hb Hm Hd. destruct (InsertRecord_ok d (V p) s Hm ltac:(lia)) as (q & E & Hq).
  unfold insert_record. rewrite (held_data _ _ _ _ _ _ _ Hb ltac:(left)), E. cbn [mbind option_bind].
  destruct (Z.ltb_spec (spec_insert d s).1 0) as [Hneg|Hpos]; [by left|]. right.
  exists (write_frame f q b), q. split; [done|]. split; [done|]. split; [done|]. apply held_write; [done|left|apply Hq].
Qed.

Lemma place_record_ok c d kv V n F D m :
  kv_inv kv V n F D m -> n + 2 <= 2 ^ 31 -> Zlen d < 2 ^ 63 ->
  exists kv' V' n' D' res, place_record c d kv = Some (res, kv') /\ kv_inv kv' V' n' F D' m /\ keeps D D' /\ n <= n' <= n + 2
    /\ same_quota kv kv' /\ indexes_ kv' = indexes_ kv
    /\ match res with OK r => rid_ok r /\ record_of D' r = Some d | Fault _ => kMaxRecord < Zlen d end.
Proof.
  intros Hi Hn Hd. destruct (open_write_page_ok c kv V n F D m Hi ltac:(lia)) as (kv1 & V1 & n1 & D1 & id & E1 & Hi1 & [s Hs] & K1 & B1 & Q1 & X1).
  unfold place_record. rewrite E1. cbn [mbind option_bind]. destruct (lo_page _ _ _ _ (ki_layout _ _ _ _ _ _ Hi1) _ _ Hs) as [Hid Hm].
  destruct (held_read (kv_pool kv1) V1 n1 id (ki_pool _ _ _ _ _ _ Hi1) Hid) as (f & b1 & -> & _ & Hb1 & Hb1').
  destruct (insert_record_ok d b1 V1 n1 id f ∅ s Hb1 Hm Hd) as [[E2 Hneg]|(b2 & q & E2 & Hpos & Hq & Hb2)]; rewrite E2; cbn [mbind option_bind].
  - rewrite (proj2 (Z.ltb_lt _ _)) by done.
    destruct (new_record_page _ V1 n1 Hb1' ltac:(lia)) as (g & b2 & b3 & q0 & -> & -> & Hq0 & Hb3). cbn [mbind option_bind].
    assert (Hnone : D1 !! n1 = None) by (by eapply page_none).
    destruct (insert_record_ok d b3 _ (n1 + 1) n1 g _ (mkSlots [] 0) Hb3) as [[E3 Hn3]|(b4 & q & E3 & Hp3 & Hq & Hb4)];
      [by rewrite fn_lookup_insert|done|..]; rewrite E3; cbn [mbind option_bind].
    + rewrite (proj2 (Z.ltb_lt _ _)) by done.
      assert (Hk : keeps D1 (<[n1 := mkSlots [] 0]> D1)) by (by apply (keeps_page _ _ (mkSlots [] 0)); [right|]).
      eexists _, (<[n1 := q0]> V1), (n1 + 1), (<[n1 := mkSlots [] 0]> D1), (Fault kInvalidArgument). split; [done|].
      split; [|split; [by eapply keeps_trans|split; [lia|split; [done|split; [done|]]]]].
      * eapply inv_page; [exact Hi1| |lia|lia|right; lia|done|done].
        eapply held_same; [|intros i _; symmetry; apply insert_twice]. apply (held_return _ _ _ _ g); [done|apply not_elem_of_empty].
      * apply spec_insert_room in Hn3. unfold spec_free, kMaxRecord in *. cbn in Hn3. change (Zlen (@nil (option bytes))) with 0 in Hn3. lia.
    + rewrite (proj2 (Z.ltb_ge _ _)) by done. pose proof (spec_insert_get d q0 (mkSlots [] 0) Hq0 Hp3) as Hg.
      destruct (spec_insert d (mkSlots [] 0)) as [slot s'] eqn:Es. cbn [fst snd] in *. destruct Hg as (G1 & G2 & _).
      assert (Hk : keeps D1 (<[n1 := s']> D1)) by (apply (keeps_page _ _ (mkSlots [] 0)); [by right|congruence]).
      assert (Hb5 : held (unpin n1 true b4) (<[n1 := q]> V1) (n1 + 1) [] ∅).
      { eapply held_same; [|intros i _; symmetry; rewrite insert_twice; apply insert_twice].
        apply (held_return _ _ _ _ g); [|apply not_elem_of_empty]. replace ({[n1]} ∪ ∅ : gset Z) with ({[n1]} ∪ ({[n1]} ∪ ∅) : gset Z) by set_solver. done. }
      destruct (inv_page kv1 V1 n1 F D1 m _ n1 q s' (n1 + 1) Hi1 Hb5 ltac:(lia) ltac:(lia) ltac:(right; lia) Hq Hk) as [I1 I2 I3 I4 I5].
      eexists _, (<[n1 := q]> V1), (n1 + 1), (<[n1 := s']> D1), (OK (mkRid n1 slot)). split; [done|].
      split; [|split; [by eapply keeps_trans|split; [lia|split; [done|split; [done|]]]]].
      * split; try done. intros c' p. cbn. rewrite lookup_insert_Some. intros [[<- <-]|[Hne Hw]]; [rewrite lookup_insert_eq; by eexists|by eapply I4].
      * split; [split; [cbn; eapply (sfits_id n1 (n1 + 1)); lia|done]|]. unfold record_of. cbn. by rewrite lookup_insert_eq.
  - rewrite (proj2 (Z.ltb_ge _ _)) by done. pose proof (spec_insert_get d (V1 id) s Hm Hpos) as Hg.
    destruct (spec_insert d s) as [slot s'] eqn:Es. cbn [fst snd] in *. destruct Hg as (G1 & G2 & G3).
    assert (Hk : keeps D1 (<[id := s']> D1)) by (apply (keeps_page _ _ s); [by left|intros i x _; apply G3]).
    eexists _, (<[id := q]> V1), n1, (<[id := s']> D1), (OK (mkRid id slot)). split; [done|].
    split; [|split; [by eapply keeps_trans|split; [lia|split; [done|split; [done|]]]]].
    + eapply inv_page; [exact Hi1| |lia|done|left; by exists s|done|done]. apply (held_return _ _ _ _ f); [done|apply not_elem_of_empty].
    + split; [split; [cbn; eapply (sfits_id id n1); lia|done]|]. unfold record_of. cbn. by rewrite lookup_insert_eq.
Qed.

(** ** Put *)
Lemma inv_quota kv V n F D m q : kv_inv kv V n F D m -> kv_inv (set_quota q kv) V n F D m.
Proof. intros [H1 H2 H3 H4 H5]. by split. Qed.

Definition key_accepted (k : bytes) : bool := negb (bool_decide (k = []) || (BPlusTree.kMaxKeyBytes <=? Zlen k)).

(** The tree takes the record. *)
Lemma index_record kv V n F D m c h t k r d :
  kv_inv kv V n F D m -> n + 33 <= 2 ^ 31 -> indexes_ kv !! c = Some (root_id t) -> F !! c = Some (h, t) ->
  key_valid k -> rid_ok r -> record_of D r = Some d ->
  exists b V' n' F' t', Insert (root_id t) k r (kv_pool kv) = Some (OK tt, root_id t', b)
    /\ kv_inv (set_index c (root_id t') (set_pool b kv)) V' n' F' D (<[(c, k) := d]> m) /\ n <= n' <= n + 33.
Proof.
  intros Hi Hn Hx Hc Hk Hr Hd. pose proof Hi as [H1 H2 H3 H4 H5].
  destruct (Insert_ok (kv_pool kv) V n h t k r) as (b & V' & n' & h' & t' & E & [Hb Ht] & U & B); [split; [done|by eapply lo_tree]|done|done|done|].
  exists b, V', n', (<[c := (h', t')]> F), t'. split; [done|]. split; [|done]. split; cbn.
  - done.
  - eapply layout_update; [exact H2|exact Hc|done|exact U|lia|by eexists].
  - intros c'. unfold root_of. cbn. destruct (decide (c' = c)) as [->|Hne]; [by rewrite !lookup_insert_eq|]. rewrite !lookup_insert_ne by done. apply H3.
  - apply H4.
  - eapply shows_update; [exact H5|exact Hc|exact U|done].
  - done.
Qed.

Lemma KvPut_ok merge c k d kv V n F D m :
  kv_inv kv V n F D m -> n + 36 <= 2 ^ 31 -> (Byte.x00 ∉ k) -> Zlen d < 2 ^ 63 ->
  exists res kv' V' n' F' D', KvPut merge c k d kv = Some (res, kv')
    /\ kv_inv kv' V' n' F' D' (match res with OK _ => <[(c, k) := d]> m | Fault _ => m end) /\ n <= n' <= n + 36
    /\ quota_bytes_ (kv_quota kv') = quota_bytes_ (kv_quota kv)
    /\ (key_accepted k = false -> res = Fault kInvalidArgument)
    /\ (key_accepted k = true -> quota_bytes_ (kv_quota kv) = 0 -> Zlen d <= kMaxRecord -> res = OK tt).
Proof.
  intros Hi Hn Hz Hd. unfold KvPut, key_accepted. destruct (bool_decide (k = []) || (BPlusTree.kMaxKeyBytes <=? Zlen k)) eqn:Ek; cbn [negb].
  { exists (Fault kInvalidArgument), kv, V, n, F, D. split; [done|]. split; [done|]. split; [lia|]. done. }
  apply orb_false_iff in Ek as [Ek1 Ek2]. apply bool_decide_eq_false in Ek1. apply Z.leb_gt in Ek2.
  destruct (KvGet_ok c k kv V n F D m Hi ltac:(lia)) as (kv0 & V0 & n0 & F0 & h & t & -> & Hi0 & Hx & Hc & B0 & Q0). cbn [mbind option_bind].
  set (old := match _ with OK e => RecordCost k e | Fault _ => 0 end). unfold same_quota in Q0.
  destruct (Charge merge old (RecordCost k d) (kv_quota kv0)) as [[[]|e] q] eqn:Ech.
  2:{ exists (Fault e), kv0, V0, n0, F0, D. split; [done|]. split; [done|]. split; [lia|]. rewrite Q0. split; [done|]. split; [done|].
      intros _ Hq0 _. exfalso. unfold Charge, charge_next in Ech. rewrite Q0, Hq0 in Ech. cbn in Ech. by destruct (_ <=? _). }
  assert (Hq : quota_bytes_ q = quota_bytes_ (kv_quota kv)).
  { rewrite <- Q0. unfold Charge in Ech. destruct (charge_next _ _ _ _ _); by simplify_eq. }
  assert (Hix : IndexFor c (set_quota q kv0) = Some (Some (root_id t), set_quota q kv0)) by (unfold IndexFor; cbn; by rewrite Hx).
  rewrite Hix. cbn [mbind option_bind].
  destruct (place_record_ok c d (set_quota q kv0) V0 n0 F0 D m) as (kv2 & V2 & n2 & D2 & res & -> & Hi2 & K2 & B2 & Q2 & X2 & R2);
    [by apply inv_quota|lia|done|]. cbn [mbind option_bind]. unfold same_quota in Q2. cbn in Q2, X2.
  destruct res as [r|e].
  2:{ exists (Fault e), kv2, V2, n2, F0, D2. split; [done|]. split; [done|]. split; [lia|]. rewrite Q2. split; [done|]. split; [done|]. lia. }
  destruct R2 as [Hr Hrd]. set (kv3 := set_quota _ kv2).
  destruct (index_record kv3 V2 n2 F0 D2 m c h t k r d) as (b & V' & n' & F' & t' & -> & Hi' & B'); [by apply inv_quota|lia|cbn; by rewrite X2|done|done|done|done|].
  cbn [mbind option_bind]. eexists (OK tt), _, V', n', F', D2. split; [done|]. split; [done|]. split; [lia|]. cbn. rewrite Q2. done.
Qed.

(** ** Scan *)
Definition doc_row (D : record_pages) (e : entry) : EngineRow := (e.1, default [] (record_of D e.2)).

Lemma read_rows_ok rows b V n F D :
  held b V n [] ∅ -> layout_ok V n F D -> (forall k r, (k, r) ∈ rows -> is_Some (record_of D r)) ->
  exists b', read_rows rows b = Some (map (doc_row D) rows, b') /\ held b' V n [] ∅.
Proof.
  revert b. induction rows as [|[k r] rows IH]; intros b Hb Hl Hr; cbn [read_rows map]; [by exists b|].
  destruct (Hr k r ltac:(left)) as [d Hd]. destruct (read_record_ok r d b V n F D Hb Hl Hd) as (b1 & -> & Hb1). cbn [mbind option_bind].
  destruct (IH b1 Hb1 Hl) as (b2 & -> & Hb2); [intros k' r' Hin; apply (Hr k'); by right|]. cbn [mbind option_bind].
  exists b2. split; [|done]. unfold doc_row at 2. cbn. by rewrite Hd.
Qed.

Lemma from_map D start (l : list entry) :
  map (doc_row D) (from start l) = filter (fun r => str_lt r.1 start = false) (map (doc_row D) l).
Proof.
  unfold from. induction l as [|[k r] l IH]; [done|]. rewrite filter_cons. cbn [map]. rewrite filter_cons. cbn [doc_row fst].
  destruct (decide (str_lt k start = false)); cbn [map]; by rewrite IH.
Qed.

Lemma limited_map {A B} (g : A -> B) limit l : map g (limited limit l) = limited limit (map g l).
Proof. unfold limited. destruct (limit =? 0)%nat; [done|]. symmetry; apply firstn_map. Qed.

(** The rows of a collection are those of its tree. *)
Lemma tree_rows V n F D m c h t :
  layout_ok V n F D -> shows F D m -> F !! c = Some (h, t) -> map (doc_row D) (entries_of (flat t)) = rows_of m c.
Proof.
  intros Hl Hm Hc. pose proof (ordered_entries _ (to_order _ _ _ _ (lo_tree _ _ _ _ Hl _ _ _ Hc))) as Hs.
  assert (Hfst : (map (doc_row D) (entries_of (flat t))).*1 = (entries_of (flat t)).*1) by (rewrite <- list_fmap_compose; by apply list_fmap_ext).
  apply (assoc_sorted_ext str_lt).
  - revert Hs. unfold sorted_strict. generalize (entries_of (flat t)). induction 1 as [|e l _ IH Hf]; cbn; constructor; [done|].
    rewrite Forall_forall in Hf. apply Forall_forall. intros x Hx. apply list_elem_of_In, in_map_iff in Hx as (e' & <- & He').
    apply (Hf e'). by apply list_elem_of_In.
  - apply rows_of_sorted.
  - intros k. rewrite rows_of_lookup, Hm, Hc. cbn [mbind option_bind snd].
    pose proof (fun r => lo_live _ _ _ _ Hl c h t k r Hc) as Hlive. clear Hs Hfst. induction (entries_of (flat t)) as [|[k' r] l IH]; [done|].
    cbn [map assoc doc_row fst snd]. unfold doc_row at 1. cbn [fst snd]. case_decide as Hk.
    + subst k'. destruct (Hlive r ltac:(left)) as [d Hd]. cbn [mbind option_bind]. by rewrite Hd.
    + apply IH. intros r' Hin. apply Hlive. by right.
Qed.

Lemma scan_subset start limit (l : list entry) e : e ∈ limited limit (from start l) -> e ∈ l.
Proof.
  unfold limited, from. intros H. assert (Hf : e ∈ filter (fun e => str_lt e.1 start = false) l) by (destruct (limit =? 0)%nat; [done|by eapply elem_of_take in H as (i & H%list_elem_of_lookup_2 & _)]).
  by apply list_elem_of_filter in Hf as [_ Hf].
Qed.

Lemma KvScan_ok c start limit kv V n F D m :
  kv_inv kv V n F D m -> n < 2 ^ 31 ->
  exists kv' V' n' F', KvScan c start limit kv = Some (scan_rows m c start limit, kv') /\ kv_inv kv' V' n' F' D m /\ n <= n' <= n + 1 /\ same_quota kv kv'.
Proof.
  intros Hi Hn. destruct (IndexFor_ok c kv V n F D m Hi Hn) as (kv1 & V1 & n1 & F1 & h & t & E & Hi1 & Hx & Hc & B & Q & _).
  unfold KvScan. rewrite E. cbn [mbind option_bind]. pose proof (ki_layout _ _ _ _ _ _ Hi1) as Hl.
  destruct (Scan_ok (kv_pool kv1) V1 n1 h t start limit) as (b1 & -> & [Hb1 _]); [split; [apply Hi1|by eapply lo_tree]|lia|]. cbn [mbind option_bind].
  destruct (read_rows_ok (limited limit (from start (entries_of (flat t)))) b1 V1 n1 F1 D Hb1 Hl) as (b2 & -> & Hb2).
  { intros k r Hin%scan_subset. by eapply lo_live. }
  cbn [mbind option_bind]. exists (set_pool b2 kv1), V1, n1, F1. split; [|split; [by apply inv_pool|done]].
  do 2 f_equal. unfold scan_rows. rewrite <- (tree_rows V1 n1 F1 D m c h t Hl (ki_docs _ _ _ _ _ _ Hi1) Hc), limited_map, from_map. done.
Qed.

(** ** Verification *)
Lemma verify_rows_ok rows b V n F D m c h t :
  held b V n [] ∅ -> layout_ok V n F D -> shows F D m -> F !! c = Some (h, t) -> n <= 2 ^ 31 -> (forall e, e ∈ rows -> e ∈ entries_of (flat t)) ->
  exists b', verify_rows (root_id t) rows b = Some (OK tt, b') /\ held b' V n [] ∅.
Proof.
  intros Hb Hl Hm Hc Hn. pose proof (lo_tree _ _ _ _ Hl _ _ _ Hc) as Ht.
  assert (Hnd : NoDup (entries_of (flat t)).*1) by (eapply (sorted_strict_nodup str_lt fst), ordered_entries, Ht).
  revert b Hb. induction rows as [|[k r] rows IH]; intros b Hb Hr; cbn [verify_rows]; [by exists b|].
  pose proof (Hr (k, r) ltac:(left)) as Hin. destruct (lo_live _ _ _ _ Hl _ _ _ _ _ Hc Hin) as [d Hd].
  destruct (Search_ok k b V n h t Hb Ht Hn) as (b1 & -> & Hb1). cbn [mbind option_bind].
  rewrite (proj2 (assoc_Some k r _ Hnd) Hin), bool_decide_eq_true_2 by done.
  unfold record_of in Hd. apply bind_Some in Hd as (s & Hs & Hd). destruct (lo_page _ _ _ _ Hl _ _ Hs) as [Hp Hpm].
  destruct (held_read b1 V n (rid_page r) Hb1 Hp) as (f & b2 & -> & D2 & _ & Hb2). rewrite D2, (GetRecord_ok _ _ s Hpm). cbn [mbind option_bind]. rewrite Hd.
  apply IH; [done|]. intros e He. apply Hr. by right.
Qed.

Lemma verify_collections_ok names kv V n F D m :
  kv_inv kv V n F D m -> n < 2 ^ 31 -> (forall c, c ∈ names -> is_Some (F !! c)) ->
  exists kv', verify_collections names kv = Some (OK tt, kv') /\ kv_inv kv' V n F D m /\ same_quota kv kv'.
Proof.
  revert kv. induction names as [|c names IH]; intros kv Hi Hn Hc; cbn [verify_collections]; [by exists kv|].
  destruct (IndexFor_ok c kv V n F D m Hi Hn) as (kv1 & V1 & n1 & F1 & h & t & E & Hi1 & Hx & Hct & B & Q & Same).
  destruct (Same (Hc c ltac:(left))) as (-> & -> & ->). rewrite E. cbn [mbind option_bind]. pose proof (ki_layout _ _ _ _ _ _ Hi1) as Hl.
  destruct (Scan_ok (kv_pool kv1) V n h t [] 0) as (b1 & -> & [Hb1 _]); [split; [apply Hi1|by eapply lo_tree]|lia|]. cbn [mbind option_bind].
  destruct (verify_rows_ok (limited 0 (from [] (entries_of (flat t)))) b1 V n F D m c h t Hb1 Hl (ki_docs _ _ _ _ _ _ Hi1) Hct ltac:(lia)) as (b2 & -> & Hb2).
  { intros e. apply scan_subset. }
  cbn [mbind option_bind]. destruct (IH (set_pool b2 kv1)) as (kv' & E' & Hi' & Q'); [by apply inv_pool|done|intros c' Hc'; apply Hc; by right|].
  exists kv'. split; [done|]. split; [done|]. unfold same_quota in *. by rewrite Q'.
Qed.

Lemma KvVerify_ok kv V n F D m :
  kv_inv kv V n F D m -> n < 2 ^ 31 -> exists kv', KvVerify kv = Some (OK tt, kv') /\ kv_inv kv' V n F D m /\ same_quota kv kv'.
Proof.
  intros Hi Hn. apply verify_collections_ok; [done|done|]. intros c. unfold KvListCollections. rewrite std_sort_perm.
  intros ([c' r] & -> & Hin%elem_of_map_to_list)%list_elem_of_fmap. cbn. pose proof (ki_root _ _ _ _ _ _ Hi c') as Hr. unfold root_of in Hr.
  destruct (F !! c'); [by eexists|]. cbn in Hr. destruct (indexes_ kv !! c'); [done|]. by rewrite Hin in Hr.
Qed.

(** ** Flush *)
Lemma held_flush b V n :
  held b V n [] ∅ -> held (FlushAllPages b) V n [] ∅ /\ forall i, 0 <= i -> frame_view (disk_ (FlushAllPages b)) i = V i.
Proof.
  intros [H1 H2 H3 H4 H5 H6 H7 H8]. destruct (FlushAllPages_spec b H1) as (F1 & [S1 S2 S3] & F3 & F4). split.
  - split; [done|by rewrite S2|intros j Hj; by rewrite S1, H3|intros i f Hin; by apply elem_of_nil in Hin|intros j Hj; by rewrite F3, H5|done|by rewrite S3|by rewrite flush_key].
  - intros i Hi. by rewrite F4, H3.
Qed.

Lemma KvFlush_keeps kv V n F D m :
  kv_inv kv V n F D m -> kv_inv (KvFlush kv).2 V n F D m
    /\ (forall i, 0 <= i -> frame_view (disk_ (kv_pool (KvFlush kv).2)) i = V i)
    /\ quota_bytes_ (kv_quota (KvFlush kv).2) = quota_bytes_ (kv_quota kv)
    /\ roots_ (KvFlush kv).2 = indexes_ kv ∪ roots_ kv.
Proof.
  intros Hi. pose proof Hi as [H1 H2 H3 H4 H5]. destruct (held_flush _ _ _ H1) as [Hb Hd]. unfold KvFlush.
  set (kv2 := set_pool (FlushAllPages (kv_pool kv)) (set_roots (indexes_ kv ∪ roots_ kv) kv)).
  assert (Hi2 : kv_inv kv2 V n F D m).
  { split; cbn; try done. intros c. rewrite <- H3. unfold root_of. cbn. rewrite lookup_union. destruct (indexes_ kv !! c); [by destruct (roots_ kv !! c)|by destruct (roots_ kv !! c)]. }
  cbn [kv_env kv_saves set_roots set_pool kv_pool]. fold kv2. pose proof (save_keeps kv2 V n F D m Hi2) as Hs. destruct (save_same kv2) as (S1 & S2 & S3 & S4 & S5 & _).
  assert (S6 : kv_dek (SaveRoots kv2).2 = kv_dek kv) by (unfold SaveRoots; by destruct (WriteSealedJsonFile _ _ _ _ _ _)).
  destruct (SaveRoots kv2) as [[[]|e] kv3]; cbn [fst snd] in *; rewrite S1, S3, S5; done.
Qed.
End Invariant.
