(* ===== verification/KvRefine.v ===== *)
(** * Runs of the default engine, and restarts

    Any sequence of operations against a map of documents, and the same map again after a
    flush and a reopening. *)
From stdpp Require Import functions.
From coqutil Require Import Byte.
From S2P Require Import Prelude Bytes Hlc Json JsonText Crdt CrdtMerge CrdtCodec AtRest SlottedPage AtRestFiles DiskManager BufferPool BufferPoolProps BPlusTree Pins BNode BTree BPlusProps BPlusGrow BPlusRefine Catalog Backend KvBackend KvProps.
Local Open Scope Z_scope.

(** ** Operations *)
Inductive kv_op :=
  | KPut (merge : bool) (c k d : bytes)
  | KGet (c k : bytes)
  | KScan (c start : bytes) (limit : nat)
  | KVerify
  | KFlush.

Inductive kv_answer := RStatus (st : StatusOr unit) | RDoc (d : StatusOr bytes) | RRows (rows : list EngineRow).

(** Keys without NUL, documents that a 64-bit length counts. *)
Definition kv_op_ok (o : kv_op) : Prop := match o with KPut _ _ k d => (Byte.x00 ∉ k) /\ Zlen d < 2 ^ 63 | _ => True end.

(** What the contract of a backend allows: a put stores or leaves everything as it was, it
    refuses a key of the wrong length, and without a quota it takes every document that
    fits a page; reads, scans and verification answer from the documents. *)
Inductive kv_allows (unlimited : bool) : kv_op -> kv_answer -> docs -> docs -> Prop :=
  | allow_put merge c k d st (m : docs) :
      (key_accepted k = false -> st = Fault kInvalidArgument) ->
      (key_accepted k = true -> unlimited = true -> Zlen d <= kMaxRecord -> st = OK tt) ->
      kv_allows unlimited (KPut merge c k d) (RStatus st) m (match st with OK _ => <[(c, k) := d]> m | Fault _ => m end)
  | allow_get c k (m : docs) :
      kv_allows unlimited (KGet c k) (RDoc (match m !! (c, k) with Some d => OK d | None => Fault kNotFound end)) m m
  | allow_scan c start limit (m : docs) : kv_allows unlimited (KScan c start limit) (RRows (scan_rows m c start limit)) m m
  | allow_verify (m : docs) : kv_allows unlimited KVerify (RStatus (OK tt)) m m
  | allow_flush st (m : docs) : kv_allows unlimited KFlush (RStatus st) m m.

Inductive kv_trace (unlimited : bool) : list kv_op -> list kv_answer -> docs -> docs -> Prop :=
  | trace_nil m : kv_trace unlimited [] [] m m
  | trace_cons o a ops answers m1 m2 m3 :
      kv_allows unlimited o a m1 m2 -> kv_trace unlimited ops answers m2 m3 -> kv_trace unlimited (o :: ops) (a :: answers) m1 m3.

Section Runs.
Context `{C : Crypto} `{!CryptoLaws C} `{K : DiskKey} `{St : KvStatic}.
Implicit Types (kv : KvBPlusBackend) (V : Z -> bytes) (F : forest) (D : record_pages).

Definition kv_step (o : kv_op) kv : option (kv_answer * KvBPlusBackend) :=
  match o with
  | KPut merge c k d => '(st, kv') ← KvPut merge c k d kv; Some (RStatus st, kv')
  | KGet c k => '(d, kv') ← KvGet c k kv; Some (RDoc d, kv')
  | KScan c start limit => '(rows, kv') ← KvScan c start limit kv; Some (RRows rows, kv')
  | KVerify => '(st, kv') ← KvVerify kv; Some (RStatus st, kv')
  | KFlush => let '(st, kv') := KvFlush kv in Some (RStatus st, kv')
  end.

Fixpoint kv_run (ops : list kv_op) kv : option (list kv_answer * KvBPlusBackend) :=
  match ops with
  | [] => Some ([], kv)
  | o :: rest => '(a, kv1) ← kv_step o kv; '(answers, kv2) ← kv_run rest kv1; Some (a :: answers, kv2)
  end.

Definition unlimited kv : bool := quota_bytes_ (kv_quota kv) =? 0.

Lemma kv_step_ok o kv V n F D m :
  kv_inv kv V n F D m -> kv_op_ok o -> n + 36 <= 2 ^ 31 ->
  exists a kv' V' n' F' D' m', kv_step o kv = Some (a, kv') /\ kv_inv kv' V' n' F' D' m' /\ kv_allows (unlimited kv) o a m m'
    /\ n <= n' <= n + 36 /\ unlimited kv' = unlimited kv.
Proof.
  intros Hi Ho Hn. unfold unlimited. destruct o as [merge c k d|c k|c start limit| |]; cbn [kv_step].
  - destruct Ho as [Hz Hd]. destruct (KvPut_ok merge c k d kv V n F D m Hi Hn Hz Hd) as (st & kv' & V' & n' & F' & D' & -> & Hi' & B & Q & R1 & R2).
    cbn [mbind option_bind]. eexists _, kv', V', n', F', D', _. split; [done|]. split; [exact Hi'|]. rewrite Q. split; [|done].
    constructor; [done|]. intros H1 H2%Z.eqb_eq. by apply R2.
  - destruct (KvGet_ok c k kv V n F D m Hi ltac:(lia)) as (kv' & V' & n' & F' & h & t & -> & Hi' & _ & _ & B & Q). cbn [mbind option_bind].
    eexists _, kv', V', n', F', D, m. split; [done|]. split; [done|]. rewrite Q. split; [constructor|]. split; [lia|done].
  - destruct (KvScan_ok c start limit kv V n F D m Hi ltac:(lia)) as (kv' & V' & n' & F' & -> & Hi' & B & Q). cbn [mbind option_bind].
    eexists _, kv', V', n', F', D, m. split; [done|]. split; [done|]. rewrite Q. split; [constructor|]. split; [lia|done].
  - destruct (KvVerify_ok kv V n F D m Hi ltac:(lia)) as (kv' & -> & Hi' & Q). cbn [mbind option_bind].
    eexists _, kv', V, n, F, D, m. split; [done|]. split; [done|]. rewrite Q. split; [constructor|]. split; [lia|done].
  - destruct (KvFlush_keeps kv V n F D m Hi) as (Hi' & _ & Q & _). destruct (KvFlush kv) as [st kv'].
    eexists _, kv', V, n, F, D, m. split; [done|]. split; [done|]. cbn [snd] in Q. rewrite Q. split; [constructor|]. split; [lia|done].
Qed.

Lemma kv_run_ok ops kv V n F D m :
  kv_inv kv V n F D m -> Forall kv_op_ok ops -> n + 36 * Zlen ops <= 2 ^ 31 ->
  exists answers kv' V' n' F' D' m', kv_run ops kv = Some (answers, kv') /\ kv_inv kv' V' n' F' D' m'
    /\ kv_trace (unlimited kv) ops answers m m' /\ n <= n' <= n + 36 * Zlen ops.
Proof.
  revert kv V n F D m. induction ops as [|o ops IH]; intros kv V n F D m Hi Ho Hn; cbn [kv_run].
  - exists [], kv, V, n, F, D, m. split; [done|]. split; [done|]. split; [constructor|]. unfold Zlen. cbn. lia.
  - apply Forall_cons in Ho as [Ho Hos]. assert (Hz : Zlen (o :: ops) = Zlen ops + 1) by (unfold Zlen; cbn; lia).
    assert (0 <= Zlen ops) by (unfold Zlen; lia).
    destruct (kv_step_ok o kv V n F D m Hi Ho ltac:(lia)) as (a & kv1 & V1 & n1 & F1 & D1 & m1 & -> & Hi1 & A & B & U). cbn [mbind option_bind].
    destruct (IH kv1 V1 n1 F1 D1 m1 Hi1 Hos ltac:(lia)) as (as' & kv2 & V2 & n2 & F2 & D2 & m2 & -> & Hi2 & T & B2). cbn [mbind option_bind].
    exists (a :: as'), kv2, V2, n2, F2, D2, m2. split; [done|]. split; [done|]. split; [|lia]. rewrite U in T. by econstructor.
Qed.
End Runs.

(** ** Roots on disk *)
Section Roots.
Context `{C : Crypto} `{!CryptoLaws C}.

Lemma load_roots_fold (l : list (bytes * Z)) (m0 : gmap bytes Z) :
  NoDup l.*1 -> Forall (fun e => sfits 32 e.2) l ->
  fold_left load_root (map (fun '(c, r) => (c, JInt r)) l) m0 = list_to_map l ∪ m0.
Proof.
  intros Hn Hl. revert m0 Hn. induction Hl as [|[c r] l Hr _ IH]; intros m0 Hn; [symmetry; apply map_empty_union|].
  cbn in *. apply NoDup_cons in Hn as [Hni Hn]. rewrite IH by done. unfold load_root. cbn. unfold u32. rewrite to_signed_wrap by done.
  rewrite <- insert_union_l. symmetry. by apply insert_union_r, not_elem_of_list_to_map.
Qed.

Lemma roots_no_double (m : gmap bytes Z) :
  map_Forall (fun _ r => sfits 32 r) m -> no_double (JObject (map (fun '(c, r) => (c, JInt r)) (map_to_list m))) = true.
Proof.
  intros Hm. cbn. apply forallb_forall. intros [c v] Hin. apply in_map_iff in Hin as ([c' r] & [= <- <-] & Hin).
  apply list_elem_of_In, elem_of_map_to_list, Hm in Hin. unfold sfits in Hin. cbn in *. lia.
Qed.

Lemma roots_load kv kv' :
  length (se_nonce (ev_save (kv_env kv (kv_saves kv)))) = kPageNonceLen -> map_Forall (fun _ r => sfits 32 r) (roots_ kv) ->
  SaveRoots kv = (OK tt, kv') -> LoadRoots (kv_roots_file kv') (kv_dek kv) = Some (OK (roots_ kv)).
Proof.
  intros Hn Hm. unfold SaveRoots. destruct (WriteSealedJsonFile _ _ _ _ _ _) as [[[]|e] file] eqn:E; [|done]. intros [= <-]. cbn.
  assert (Ht : exists rest, roots_text (roots_ kv) = Byte.x7b :: rest) by (by eexists). destruct Ht as [rest Ht].
  assert (Hne : roots_text (roots_ kv) <> []) by (by rewrite Ht).
  assert (Hls : LooksSealedFile (roots_text (roots_ kv)) = false) by (rewrite Ht; unfold LooksSealedFile; apply andb_false_r).
  destruct (sealed_json_round_trip _ _ _ _ _ _ _ Hn Hne Hls E) as [Hr _]. unfold LoadRoots. rewrite Hr, bool_decide_eq_false_2 by done.
  unfold roots_text. rewrite Parse_Dump by (by apply roots_no_double). cbn [is_object AsObject].
  rewrite load_roots_fold, list_to_map_to_list, map_union_empty; [done|apply NoDup_fst_map_to_list|].
  apply Forall_forall. intros [c r] Hin. apply (Hm c r). by apply elem_of_map_to_list.
Qed.
End Roots.

(** ** Pages that hold something are in the file *)
Lemma stored_nonzero h V par t i : stored h V par t -> i ∈ ids t -> V i <> zero_page.
Proof.
  revert par t. induction h as [|h IH]; intros par [id es|id ks ts]; cbn [stored ids]; try done.
  - intros [nxt H] ->%list_elem_of_singleton Hz. rewrite Hz in H. pose proof (hd_leaf _ _ _ _ _ (lp_header _ _ _ _ H)) as Hx. vm_compute in Hx. done.
  - intros (Hne & H & Hts) [->|Hi]%elem_of_cons Hz.
    + rewrite Hz in H. destruct (np_header _ _ _ _ H) as [nxt Hh]. pose proof (hd_num _ _ _ _ _ Hh) as Hx. vm_compute in Hx.
      injection Hx as Hx. destruct ks; [done|]. unfold Zlen in Hx. cbn in Hx. lia.
    + apply list_elem_of_In, in_concat in Hi as (l & Hl & Hi). apply in_map_iff in Hl as (u & <- & Hu).
      rewrite Forall_forall in Hts. eapply IH; [apply Hts; by apply list_elem_of_In|by apply list_elem_of_In|done].
Qed.

Lemma records_nonzero s : ~ page_means zero_page s.
Proof.
  intros H. pose proof (pm_fso _ _ H) as Hx. pose proof (page_room _ _ H) as [Hr _]. pose proof (Zlen_nonneg (recs s)).
  assert (Hz : free_space_offset zero_page = Some 0) by (vm_compute; done). rewrite Hz in Hx. injection Hx as Hx. lia.
Qed.

Lemma layout_reopen V V2 n n2 F D :
  layout_ok V n F D -> (forall i, 0 <= i -> V2 i = V i) -> (forall i, 0 <= i -> n2 <= i -> V2 i = zero_page) -> layout_ok V2 n2 F D.
Proof.
  intros [H1 H2 H3 H4 H5] HV Hz.
  assert (Hin : forall i, 0 <= i -> V i <> zero_page -> i < n2).
  { intros i Hi Hne. destruct (Z.lt_ge_cases i n2) as [|Hge]; [done|]. exfalso. apply Hne. rewrite <- HV by done. by apply Hz. }
  split; [|done| |done|done].
  - intros c h t Hc. destruct (H1 _ _ _ Hc) as [T1 T2 T3 T4 T5].
    assert (Hv : forall i, i ∈ ids t -> V2 i = V i) by (intros i Hi; apply HV; apply T3 in Hi; lia).
    split; [by eapply stored_frame|done| | |done].
    + intros i Hi. split; [apply T3 in Hi; lia|]. apply Hin; [apply T3 in Hi; lia|]. by eapply stored_nonzero.
    + eapply links_frame; [|exact T4]. intros i Hi. rewrite Hv; [done|]. eapply sublist_mem; [apply leafs_sublist|done].
  - intros p s Hs. destruct (H3 _ _ Hs) as [Hp Hm]. rewrite HV by lia. split; [|done]. split; [lia|]. apply Hin; [lia|].
    intros Hzero. rewrite Hzero in Hm. by apply records_nonzero in Hm.
Qed.

Section Engine.
Context `{C : Crypto} `{!CryptoLaws C}.

(** ** A new engine *)
Definition frames_ok (pages : nat) : Prop := pages = 0%nat \/ (3 <= pages)%nat.

Lemma frames_three pages : frames_ok pages -> (3 <= (if (pages =? 0)%nat then 16 else pages))%nat.
Proof. intros [->|H]; [cbn; lia|]. destruct (Nat.eqb_spec pages 0); lia. Qed.

(** What opening gives. *)
Lemma OpenKv_inv made env wenv events file hdr roots quota_mb pages dek kv files :
  OpenKv made env wenv events file hdr roots quota_mb pages dek = Some (OK kv, files) ->
  exists d m, OpenDisk env wenv file hdr dek = (OK d, files) /\ LoadRoots roots dek = Some (OK m)
    /\ let b := new_pool (if (pages =? 0)%nat then 16%nat else pages) d in
       kv = mkKv dek roots b ∅ m ∅ (mkQuota (u64 (quota_mb * 1024 * 1024)) (disk_bytes b)) events 0.
Proof.
  unfold OpenKv. destruct (bad_dek dek); [done|]. destruct made; [|done]. cbn [negb].
  destruct (OpenDisk env wenv file hdr dek) as [[d|e] fs]; [|done]. cbv zeta.
  destruct (LoadRoots roots dek) as [[m|e]|]; [|done|done]. intros [= <- <-]. by exists d, m.
Qed.

(** Layouts of a pool nobody used yet. *)
Lemma fresh_inv (kv : KvBPlusBackend) (d : DiskManager) (F : forest) (D : record_pages) (m : docs) frames :
  (3 <= frames)%nat -> disk_ok d -> 0 <= next_page_id_ d -> kv_pool kv = new_pool frames d -> indexes_ kv = ∅ -> write_pages_ kv = ∅ ->
  (forall c, roots_ kv !! c = (fun ht => root_id ht.2) <$> F !! c) -> layout_ok (view (new_pool frames d)) (next_page_id_ d) F D -> shows F D m ->
  kv_inv (K := disk_key d) (St := {| static_dek := kv_dek kv; static_env := kv_env kv |}) kv (view (new_pool frames d)) (next_page_id_ d) F D m.
Proof.
  intros Hf Hd Hn Hp Hi Hw Hr Hl Hm. split; [rewrite Hp; by apply new_pool_held|done| | |done|done].
  - intros c. unfold root_of. by rewrite Hi, lookup_empty.
  - intros c p. by rewrite Hw, lookup_empty.
Qed.

Lemma empty_layout V n : layout_ok V n ∅ ∅.
Proof. split; intros *; rewrite ?lookup_empty; done. Qed.

Lemma open_empty_inv made env wenv events quota_mb pages dek kv files :
  OpenKv made env wenv events None None None quota_mb pages dek = Some (OK kv, files) ->
  frames_ok pages -> disk_ok (disk_ (kv_pool kv)) ->
  kv_inv (K := disk_key (disk_ (kv_pool kv))) (St := {| static_dek := dek; static_env := events |}) kv (view (kv_pool kv)) 0 ∅ ∅ ∅
  /\ unlimited kv = (u64 (quota_mb * 1024 * 1024) =? 0).
Proof.
  intros Ho Hf Hd. destruct (OpenKv_inv _ _ _ _ _ _ _ _ _ _ _ _ Ho) as (d & m & Ed & El & ->). cbn [kv_pool disk_ new_pool] in *.
  assert (Hm : m = ∅).
  { unfold LoadRoots, ReadSealedJsonFile in El. destruct (bad_dek dek) eqn:Eb; [|by injection El as <-].
    unfold OpenKv in Ho. by rewrite Eb in Ho. }
  subst m. split; [|done]. pose proof (OpenDisk_empty _ _ _ _ _ Ed) as Hn.
  pose proof (fresh_inv (mkKv dek None (new_pool (if (pages =? 0)%nat then 16%nat else pages) d) ∅ ∅ ∅
                 (mkQuota (u64 (quota_mb * 1024 * 1024)) (disk_bytes (new_pool (if (pages =? 0)%nat then 16%nat else pages) d))) events 0)
                d ∅ ∅ ∅ _ (frames_three _ Hf) Hd) as H. rewrite Hn in H. by apply H.
Qed.

(** C18: a new key-value engine answers every run of puts, gets, scans, verifications and
    flushes over any collections as a map of documents does, through all page allocations,
    evictions and splits; no operation leaves a page, follows a null frame or throws.
    Conditions: the keys put have no NUL byte and the documents are shorter than 2^63 bytes;
    the pool is configured with 0 frames (the default size) or at least 3; every page write
    succeeds and zeroes do not pass as a sealed page; at most 2^31 / 36 operations. *)
Theorem kv_engine_refines made env wenv events quota_mb pages dek kv files ops :
  OpenKv made env wenv events None None None quota_mb pages dek = Some (OK kv, files) ->
  frames_ok pages -> disk_ok (disk_ (kv_pool kv)) -> Forall kv_op_ok ops -> 36 * Zlen ops <= 2 ^ 31 ->
  exists answers kv' m, kv_run ops kv = Some (answers, kv')
    /\ kv_trace (u64 (quota_mb * 1024 * 1024) =? 0) ops answers ∅ m.
Proof.
  intros Ho Hf Hd Hops Hn. destruct (open_empty_inv _ _ _ _ _ _ _ _ _ Ho Hf Hd) as [Hi <-].
  destruct (kv_run_ok (K := disk_key (disk_ (kv_pool kv))) (St := {| static_dek := dek; static_env := events |}) ops kv _ _ _ _ _ Hi Hops ltac:(lia))
    as (answers & kv' & V' & n' & F' & D' & m' & E & _ & T & _). by exists answers, kv', m'.
Qed.

(** ** Restart *)
Lemma roots_in_range `{K : DiskKey} `{St : KvStatic} kv V n F D m :
  kv_inv kv V n F D m -> n <= 2 ^ 31 -> map_Forall (fun _ r => sfits 32 r) (indexes_ kv ∪ roots_ kv).
Proof.
  intros Hi Hn c r Hr. assert (Hroot : root_of kv c = Some r).
  { unfold root_of. rewrite lookup_union in Hr. destruct (indexes_ kv !! c), (roots_ kv !! c); done. }
  rewrite (ki_root _ _ _ _ _ _ Hi) in Hroot. apply fmap_Some in Hroot as ([h t] & Hc & ->). cbn.
  eapply sfits_id; [|exact Hn]. apply (lo_tree _ _ _ _ (ki_layout _ _ _ _ _ _ Hi) _ _ _ Hc), root_in_ids.
Qed.

(** A successful flush wrote the roots. *)
Lemma flush_roots `{K : DiskKey} `{St : KvStatic} kv V n F D m kv1 :
  kv_inv kv V n F D m -> n <= 2 ^ 31 -> (forall i, length (se_nonce (ev_save (static_env i))) = kPageNonceLen) -> KvFlush kv = (OK tt, kv1) ->
  LoadRoots (kv_roots_file kv1) static_dek = Some (OK (indexes_ kv ∪ roots_ kv)).
Proof.
  intros Hi Hn He. destruct (ki_static _ _ _ _ _ _ Hi) as [Sd Se]. unfold KvFlush.
  set (kv2 := set_pool _ _). destruct (SaveRoots kv2) as [[[]|e] kv3] eqn:E; [|done]. intros [= _ <-].
  pose proof (roots_load kv2 kv3) as H. cbn in H. rewrite Sd, Se in H. apply H; [apply He|by eapply roots_in_range|done].
Qed.

(** C19: the documents of a run are those of an engine opened on the files that a successful
    flush left: every collection is found again by its persisted root, also after splits
    moved it, and further runs answer from them. Conditions, before and after the restart:
    keys without NUL bytes, 0 (the default size) or at least 3 frames, and every page write
    succeeds, which the flush's own status does not tell ([FlushAllPages] drops the statuses
    of the page writes); random file tags are not empty, nonces have their length, the file
    can be opened again, and the page ids of both runs (36 an operation) stay below 2^31.
    The writes of the roots file may fail during the run. *)
Theorem kv_survives_restart made env wenv events quota_mb pages dek kv file1 hdr1 ops answers kv' kv1 env' wenv' events' quota_mb' pages' :
  OpenKv made env wenv events None None None quota_mb pages dek = Some (OK kv, (file1, hdr1)) ->
  frames_ok pages -> disk_ok (disk_ (kv_pool kv)) -> (forall raw, oe_tag env = Some raw -> raw <> []) ->
  (forall i, length (se_nonce (ev_save (events i))) = kPageNonceLen) ->
  Forall kv_op_ok ops -> 36 * Zlen ops <= 2 ^ 31 -> kv_run ops kv = Some (answers, kv') -> KvFlush kv' = (OK tt, kv1) ->
  oe_open env' = true -> (forall i, we_io (wenv' i) = None /\ length (we_nonce (wenv' i)) = kPageNonceLen) -> frames_ok pages' ->
  exists m kv2, kv_trace (u64 (quota_mb * 1024 * 1024) =? 0) ops answers ∅ m
    /\ OpenKv true env' wenv' events' (Some (d_file (disk_ (kv_pool kv1)))) hdr1 (kv_roots_file kv1) quota_mb' pages' dek
       = Some (OK kv2, (Some (d_file (disk_ (kv_pool kv1))), hdr1))
    /\ forall ops2, Forall kv_op_ok ops2 -> NumAllocatedPages (disk_ (kv_pool kv2)) + 36 * Zlen ops2 <= 2 ^ 31 ->
         exists answers2 kv3 m2, kv_run ops2 kv2 = Some (answers2, kv3)
           /\ kv_trace (u64 (quota_mb' * 1024 * 1024) =? 0) ops2 answers2 m m2.
Proof.
  intros Ho Hf Hd Htag Hev Hops Hn Hrun Hflush Hopen Hw Hf'.
  destruct (open_empty_inv _ _ _ _ _ _ _ _ _ Ho Hf Hd) as [Hi <-].
  pose (K := disk_key (disk_ (kv_pool kv)) : DiskKey). pose (St := {| static_dek := dek; static_env := events |}).
  destruct (kv_run_ok (K := K) (St := St) ops kv _ _ _ _ _ Hi Hops ltac:(lia)) as (as' & kvx & V & n & F & D & m & E & Hi' & T & B).
  rewrite Hrun in E. injection E as <- <-. destruct (KvFlush_keeps (K := K) (St := St) _ _ _ _ _ _ Hi') as (Hi1 & Hview & _).
  pose proof (flush_roots (K := K) (St := St) _ _ _ _ _ _ _ Hi' ltac:(lia) Hev Hflush) as Hroots. rewrite Hflush in Hi1, Hview. cbn [snd] in *.
  destruct (OpenKv_inv _ _ _ _ _ _ _ _ _ _ _ _ Ho) as (d & m0 & Ed & _ & Ekv).
  assert (Hdk : disk_ (kv_pool kv) = d) by (by rewrite Ekv).
  destruct (OpenDisk_reopen env env' wenv wenv' None None dek d file1 hdr1 Hopen ltac:(by right) Htag Ed (d_file (disk_ (kv_pool kv1))))
    as (d' & Ed' & Hfile & He & Hk & Htg). destruct (OpenDisk_shape _ _ _ _ _ _ _ Ed') as [Hnext Henv].
  assert (Hkey : disk_key d' = disk_key (disk_ (kv_pool kv1))).
  { rewrite (h_key (K := K) _ _ _ _ _ (ki_pool _ _ _ _ _ _ Hi1)). unfold the_key, K. rewrite Hdk. unfold disk_key. by rewrite He, Hk, Htg. }
  pose proof (pi_disk _ _ _ (h_ok _ _ _ _ _ (ki_pool _ _ _ _ _ _ Hi1))) as Hd1.
  assert (Hd' : disk_ok d').
  { destruct Hd1 as [G1 G2 G3]. pose proof Hkey as Hkey'. unfold disk_key in Hkey'. injection Hkey' as Q1 Q2 Q3.
    split; [by rewrite Hfile, Q1|rewrite Q1, Q2, Q3; exact G2|rewrite Henv; exact Hw]. }
  assert (Hn' : 0 <= next_page_id_ d') by (rewrite Hnext; apply Z.div_pos; [unfold Zlen; lia|pose proof (stride_pos (encrypted_ d')); lia]).
  exists m. eexists. split; [done|]. split.
  { unfold OpenKv. assert (Hb : bad_dek dek = false) by (unfold OpenKv in Ho; by destruct (bad_dek dek)). rewrite Hb. cbn [negb]. rewrite Ed'. cbv zeta.
    change dek with (static_dek (KvStatic := St)) at 1. rewrite Hroots. done. }
  cbn [kv_pool]. set (fr := if (pages' =? 0)%nat then 16%nat else pages'). intros ops2 Hops2 Hn2. unfold NumAllocatedPages in Hn2; cbn [disk_ new_pool] in Hn2.
  set (kv2 := mkKv _ _ _ _ _ _ _ _ _).
  assert (Hi2 : kv_inv (K := disk_key d') (St := {| static_dek := dek; static_env := events' |}) kv2 (view (new_pool fr d')) (next_page_id_ d') F D m).
  { apply (fresh_inv kv2 d' F D m fr); try done; [by apply frames_three| | |apply Hi'].
    - intros c. cbn. rewrite <- (ki_root (K := K) (St := St) _ _ _ _ _ _ Hi' c). unfold root_of. rewrite lookup_union. by destruct (indexes_ kv' !! c), (roots_ kv' !! c).
    - assert (Hv : forall i, 0 <= i -> view (new_pool fr d') i = frame_view d' i) by (intros i _; unfold view; cbn; by rewrite lookup_empty).
      apply (layout_reopen V _ n); [apply Hi'|..].
      + intros i Hi0. rewrite Hv, (same_key_view (disk_ (kv_pool kv1))) by done. by apply Hview.
      + intros i Hi0 Hge. rewrite Hv by done. apply frame_view_fresh; [done|done|]. by rewrite <- Hnext. }
  destruct (kv_run_ok (K := disk_key d') (St := {| static_dek := dek; static_env := events' |}) ops2 kv2 _ _ _ _ _ Hi2 Hops2 ltac:(lia))
    as (answers2 & kv3 & V3 & n3 & F3 & D3 & m3 & E3 & _ & T3 & _). by exists answers2, kv3, m3.
Qed.
End Engine.

(** ** Samples *)
Definition kv_key : bytes := replicate 32 Byte.x09.
Definition kv_open_env : open_env := mkOpenEnv true true (Some (replicate 16 Byte.x07)) CmOk.
Definition kv_events : nat -> kv_event := fun _ => mkKvEvent (mkSaveEnv CmOk (replicate kPageNonceLen Byte.x05)) true.
Definition kv_opened (quota_mb : Z) := @OpenKv tagged_crypto true kv_open_env good_env kv_events None None None quota_mb 3 kv_key.
Definition no_engine : KvBPlusBackend := mkKv [] None (new_pool 0 sealed_disk) ∅ ∅ ∅ (mkQuota 0 0) kv_events 0.
Definition kv_sample (quota_mb : Z) : KvBPlusBackend := match kv_opened quota_mb with Some (OK kv, _) => kv | _ => no_engine end.
Definition kv_sample_files : option bytes * option bytes := match kv_opened 0 with Some (_, fs) => fs | None => (None, None) end.

Definition kv_sample_ops : list kv_op :=
  [KPut false (bs "c") (bs "b") (bs "2"); KPut false (bs "c") (bs "a") (bs "1"); KPut true (bs "d") (bs "a") (bs "x");
   KPut false (bs "c") (bs "b") (bs "3"); KGet (bs "c") (bs "b"); KGet (bs "d") (bs "b"); KScan (bs "c") [] 0; KVerify; KFlush].
Definition kv_ran : list kv_answer * KvBPlusBackend := match @kv_run tagged_crypto kv_sample_ops (kv_sample 0) with Some r => r | None => ([], no_engine) end.
Definition kv_flushed : KvBPlusBackend := (@KvFlush tagged_crypto kv_ran.2).2.

Lemma kv_opened_0 : kv_opened 0 = Some (OK (kv_sample 0), kv_sample_files).
Proof. vm_compute. reflexivity. Qed.

Lemma kv_sample_disk : @disk_ok tagged_crypto (disk_ (kv_pool (kv_sample 0))).
Proof.
  split; [by exists 0%nat| |done]. intros _. split; [by vm_compute|]. intros id c. unfold OpenPage.
  change (Zlen (d_subkey _) =? kDekLen) with true. cbn [negb AesGcmOpen tagged_crypto].
  rewrite bool_decide_eq_false_2; [done|]. vm_compute. done.
Qed.

Lemma kv_sample_ops_ok : Forall kv_op_ok kv_sample_ops.
Proof. repeat (apply Forall_cons; split); try done; (split; [apply (bool_decide_unpack _); by vm_compute|done]). Qed.

Lemma kv_sample_answers : kv_ran.1 =
  [RStatus (OK tt); RStatus (OK tt); RStatus (OK tt); RStatus (OK tt); RDoc (OK (bs "3")); RDoc (Fault kNotFound);
   RRows [(bs "a", bs "1"); (bs "b", bs "3")]; RStatus (OK tt); RStatus (OK tt)].
Proof. vm_compute. reflexivity. Qed.

Lemma kv_engine_refines_witness :
  exists answers kv' m, @kv_run tagged_crypto kv_sample_ops (kv_sample 0) = Some (answers, kv') /\ kv_trace true kv_sample_ops answers ∅ m.
Proof.
  apply (kv_engine_refines (C := tagged_crypto) true kv_open_env good_env kv_events 0 3 kv_key (kv_sample 0) kv_sample_files);
    [apply kv_opened_0|right; lia|apply kv_sample_disk|apply kv_sample_ops_ok|vm_compute; congruence].
Defined.

Lemma kv_survives_restart_witness :
  exists m kv2, kv_trace true kv_sample_ops kv_ran.1 ∅ m
    /\ @OpenKv tagged_crypto true kv_open_env good_env kv_events (Some (d_file (disk_ (kv_pool kv_flushed)))) kv_sample_files.2 (kv_roots_file kv_flushed) 0 16 kv_key
       = Some (OK kv2, (Some (d_file (disk_ (kv_pool kv_flushed))), kv_sample_files.2))
    /\ forall ops2, Forall kv_op_ok ops2 -> NumAllocatedPages (disk_ (kv_pool kv2)) + 36 * Zlen ops2 <= 2 ^ 31 ->
         exists answers2 kv3 m2, @kv_run tagged_crypto ops2 kv2 = Some (answers2, kv3) /\ kv_trace true ops2 answers2 m m2.
Proof.
  apply (kv_survives_restart (C := tagged_crypto) true kv_open_env good_env kv_events 0 3 kv_key (kv_sample 0) kv_sample_files.1 kv_sample_files.2
           kv_sample_ops kv_ran.1 kv_ran.2 kv_flushed kv_open_env good_env kv_events 0 16);
    [apply kv_opened_0|right; lia|apply kv_sample_disk|by intros raw [= <-]|done|apply kv_sample_ops_ok|vm_compute; congruence
    |vm_compute; reflexivity|vm_compute; reflexivity|done|done|right; lia].
Defined.

(** A document that no page takes is refused, yet the refusal keeps the charge and the
    pages it allocated: repeated, it uses up a quota and the file. *)
Definition too_large : bytes := replicate 4089 Byte.x61.

Lemma refused_put_charges :
  let kv := kv_sample 1 in
  exists kv1, @KvPut tagged_crypto false (bs "c") (bs "k") too_large kv = Some (Fault kInvalidArgument, kv1)
    /\ bytes_used_ (kv_quota kv) = 0 /\ bytes_used_ (kv_quota kv1) = RecordCost (bs "k") too_large
    /\ NumAllocatedPages (disk_ (kv_pool kv)) = 0 /\ NumAllocatedPages (disk_ (kv_pool kv1)) = 3.
Proof. eexists. vm_compute. repeat split; reflexivity. Qed.
