(* ===== verification/ColumnarCodec.v ===== *)
(** * The column codec: src/storage/engines/columnar_lite.cpp

    Varints, zigzag, run-length blocks and front-coded keys, and the segment they make up.
    [None] is signed overflow or an exception that escapes, both only on malformed input. *)
From coqutil Require Import Byte.
From S2P Require Import Prelude Bytes Hlc Crdt CrdtMerge CrdtCodec AtRest Backend.
Local Open Scope Z_scope.

Definition kColumnarRowsPerSegment : Z := 2048.
Definition kColumnarBytesPerSegment : Z := Z.shiftl 4 20.
Definition kColumnarMinRunLength : nat := 4.
Definition kColumnarSegmentMagic : Z := 0x44534301.

(** ** Varints *)
Fixpoint put_varint (fuel : nat) (v : Z) : bytes :=
  match fuel with
  | O => []
  | S f => if v <? 0x80 then [byte.of_Z v] else byte.of_Z (Z.lor (Z.land v 0x7F) 0x80) :: put_varint f (Z.shiftr v 7)
  end.

(** Ten bytes hold 64 bits. *)
Definition PutVarint (v : Z) : bytes := put_varint 10 v.

Fixpoint get_varint (s : bytes) (shift result : Z) : option (Z * bytes) :=
  match s with
  | [] => None
  | c :: s' =>
      let result := Z.lor result (u64 (Z.shiftl (Z.land (uc c) 0x7F) shift)) in
      if Z.land (uc c) 0x80 =? 0 then Some (result, s')
      else if 63 <? shift + 7 then None else get_varint s' (shift + 7) result
  end.

(** The value and the position after it. *)
Definition GetVarint (s : bytes) (pos : Z) : option (Z * Z) :=
  '(v, rest) ← get_varint (drop (Z.to_nat pos) s) 0 0; Some (v, Zlen s - Zlen rest).

Definition ZigZag (v : Z) : Z := Z.lxor (u64 (Z.shiftl (u64 v) 1)) (u64 (Z.shiftr v 63)).
Definition UnZigZag (v : Z) : Z := Z.lxor (Z.shiftr v 1) (- Z.land v 1).

Fixpoint SharedPrefix (a b : bytes) : nat :=
  match a, b with
  | x :: a', y :: b' => if bool_decide (x = y) then S (SharedPrefix a' b') else O
  | _, _ => O
  end.

(** ** Runs *)
Fixpoint run_length (c : byte) (s : bytes) : nat :=
  match s with x :: s' => if bool_decide (x = c) then S (run_length c s') else O | [] => O end.

Definition flush_literal (literal : bytes) : bytes :=
  if bool_decide (literal = []) then [] else PutVarint (u64 (Z.shiftl (Zlen literal) 1)) ++ literal.

(** Every turn takes at least one byte. *)
Fixpoint rle_loop (fuel : nat) (s literal : bytes) : bytes :=
  match fuel, s with
  | S f, c :: t =>
      let run := S (run_length c t) in
      if (kColumnarMinRunLength <=? run)%nat then
        flush_literal literal ++ PutVarint (Z.lor (u64 (Z.shiftl (Z.of_nat run) 1)) 1) ++ [c] ++ rle_loop f (drop run s) []
      else rle_loop f (drop run s) (literal ++ take run s)
  | _, _ => flush_literal literal
  end.

Definition RleEncode (s : bytes) : bytes := rle_loop (length s) s [].

Fixpoint unrle_loop (fuel : nat) (s : bytes) (expected_len pos : Z) (out : bytes) : option bytes :=
  if Zlen s <=? pos then (if Zlen out =? expected_len then Some out else None)
  else
    match fuel with
    | O => None
    | S f =>
        '(header, pos) ← GetVarint s pos;
        let count := Z.shiftr header 1 in
        if count =? 0 then None
        else if expected_len <? Zlen out + count then None
        else if negb (Z.land header 1 =? 0) then
          c ← s !! Z.to_nat pos;
          unrle_loop f s expected_len (pos + 1) (out ++ replicate (Z.to_nat count) c)
        else if Zlen s <? pos + count then None
        else unrle_loop f s expected_len (pos + count) (out ++ take (Z.to_nat count) (drop (Z.to_nat pos) s))
    end.

Definition RleDecode (s : bytes) (expected_len : Z) : option bytes := unrle_loop (length s) s expected_len 0 [].

(** ** Segments *)
Fixpoint keys_column (prev : bytes) (rows : list EngineRow) : bytes :=
  match rows with
  | [] => []
  | (key, _) :: rest =>
      let shared := SharedPrefix prev key in
      PutVarint (Z.of_nat shared) ++ PutVarint (Z.of_nat (length key - shared)) ++ drop shared key ++ keys_column key rest
  end.

Fixpoint lens_column (prev_len : Z) (rows : list EngineRow) : bytes :=
  match rows with
  | [] => []
  | (_, doc) :: rest => PutVarint (ZigZag (Zlen doc - prev_len)) ++ lens_column (Zlen doc) rest
  end.

Definition payload_raw (rows : list EngineRow) : bytes := concat rows.*2.

Definition EncodeSegment (rows : list EngineRow) : bytes :=
  let keys := keys_column [] rows in
  let lens := lens_column 0 rows in
  let enc := RleEncode (payload_raw rows) in
  ByteWriter.U32 kColumnarSegmentMagic ++ ByteWriter.U32 (Zlen rows) ++ ByteWriter.U32 (Zlen keys) ++ ByteWriter.U32 (Zlen lens)
    ++ ByteWriter.U32 (Zlen (payload_raw rows)) ++ ByteWriter.U32 (Zlen enc) ++ keys ++ lens ++ enc.

Record SegmentHeader := mkSegmentHeader {
  h_row_count : Z;
  h_keys_len : Z;
  h_lens_len : Z;
  h_payload_raw_len : Z;
  h_payload_enc_len : Z;
}.

Definition kHeaderBytes : Z := 24.
Definition keys_off (h : SegmentHeader) : Z := kHeaderBytes.
Definition lens_off (h : SegmentHeader) : Z := keys_off h + h_keys_len h.
Definition payload_off (h : SegmentHeader) : Z := lens_off h + h_lens_len h.

Definition read_header : Reader (Z * SegmentHeader) :=
  (magic <-r ByteReader.U32 ;; rows <-r ByteReader.U32 ;; keys <-r ByteReader.U32 ;; lens <-r ByteReader.U32 ;;
   raw <-r ByteReader.U32 ;; enc <-r ByteReader.U32 ;; rret (magic, mkSegmentHeader rows keys lens raw enc))%reader.

Definition ParseSegmentHeader (blob : bytes) : StatusOr SegmentHeader :=
  if Zlen blob <? kHeaderBytes then Fault kCorruption
  else match read_header blob with
       | None => Fault kCorruption
       | Some ((magic, h), _) =>
           if negb (magic =? kColumnarSegmentMagic) then Fault kCorruption
           else if negb (payload_off h + h_payload_enc_len h =? Zlen blob) then Fault kCorruption
           else OK h
       end.

Definition column (blob : bytes) (off len : Z) : bytes := take (Z.to_nat len) (drop (Z.to_nat off) blob).

(** [append] of a piece clamps its length. *)
Fixpoint DecodeKeyColumn (column : bytes) (row_count : nat) (pos : Z) (prev : bytes) : StatusOr (list bytes) :=
  match row_count with
  | O => OK []
  | S n =>
      match '(shared, pos1) ← GetVarint column pos; '(suffix_len, pos2) ← GetVarint column pos1; Some (shared, suffix_len, pos2) with
      | None => Fault kCorruption
      | Some (shared, suffix_len, pos2) =>
          if (Zlen prev <? shared) || (Zlen column <? u64 (pos2 + suffix_len)) then Fault kCorruption
          else
            let key := take (Z.to_nat shared) prev ++ take (Z.to_nat suffix_len) (drop (Z.to_nat pos2) column) in
            match DecodeKeyColumn column n (u64 (pos2 + suffix_len)) key with
            | OK keys => OK (key :: keys)
            | Fault c => Fault c
            end
      end
  end.

Definition decode_keys (blob : bytes) (h : SegmentHeader) : StatusOr (list bytes) :=
  DecodeKeyColumn (column blob (keys_off h) (h_keys_len h)) (Z.to_nat (h_row_count h)) 0 [].

Definition DecodeSegmentKeys (blob : bytes) : StatusOr (list bytes) :=
  match ParseSegmentHeader blob with
  | Fault c => Fault c
  | OK h => decode_keys blob h
  end.

Fixpoint decode_lengths (lens_col : bytes) (row_count : nat) (pos prev_len : Z) : option (StatusOr (list Z)) :=
  match row_count with
  | O => Some (OK [])
  | S n =>
      match GetVarint lens_col pos with
      | None => Some (Fault kCorruption)
      | Some (zz, pos1) =>
          let len := prev_len + UnZigZag zz in
          if negb ((- 2 ^ 63 <=? len) && (len <? 2 ^ 63)) then None
          else if len <? 0 then Some (Fault kCorruption)
          else ls ← decode_lengths lens_col n pos1 len;
               Some (match ls with OK l => OK (len :: l) | Fault c => Fault c end)
      end
  end.

Definition total_length (lengths : list Z) : Z := fold_left (fun t len => u64 (t + len)) lengths 0.

Fixpoint cut_rows (keys : list bytes) (lengths : list Z) (payload : bytes) (offset : Z) : option (list EngineRow) :=
  match keys, lengths with
  | key :: keys', len :: lengths' =>
      if Zlen payload <? offset then None
      else rows ← cut_rows keys' lengths' payload (u64 (offset + len));
           Some ((key, take (Z.to_nat len) (drop (Z.to_nat offset) payload)) :: rows)
  | _, _ => Some []
  end.

Definition DecodeSegment (blob : bytes) : option (StatusOr (list EngineRow)) :=
  match ParseSegmentHeader blob with
  | Fault c => Some (Fault c)
  | OK h =>
      match decode_keys blob h with
      | Fault c => Some (Fault c)
      | OK keys =>
          ls ← decode_lengths (column blob (lens_off h) (h_lens_len h)) (Z.to_nat (h_row_count h)) 0 0;
          match ls with
          | Fault c => Some (Fault c)
          | OK lengths =>
              if negb (total_length lengths =? h_payload_raw_len h) then Some (Fault kCorruption)
              else match RleDecode (column blob (payload_off h) (h_payload_enc_len h)) (h_payload_raw_len h) with
                   | None => Some (Fault kCorruption)
                   | Some payload => rows ← cut_rows keys lengths payload 0; Some (OK rows)
                   end
          end
      end
  end.

(** ** Varints read back *)
Lemma uc_of_Z v : 0 <= v < 256 -> uc (byte.of_Z v) = v.
Proof. intros H. unfold uc. rewrite byte.unsigned_of_Z. unfold byte.wrap. by apply Z.mod_small. Qed.

Lemma low_bits v : 0 <= Z.land v 0x7F < 128.
Proof. change 0x7F with (Z.ones 7). rewrite Z.land_ones by lia. by apply Z.mod_pos_bound. Qed.

Lemma varint_byte v :
  let c := byte.of_Z (Z.lor (Z.land v 0x7F) 0x80) in Z.land (uc c) 0x7F = Z.land v 0x7F /\ Z.land (uc c) 0x80 = 0x80.
Proof.
  intros c. pose proof (low_bits v) as Hl.
  assert (Hr : 0 <= Z.lor (Z.land v 0x7F) 0x80 < 256).
  { pose proof (Z.add_lor_land (Z.land v 0x7F) 0x80) as H. rewrite <- Z.land_assoc in H. change (Z.land 127 128) with 0 in H. rewrite Z.land_0_r in H. lia. }
  unfold c. rewrite uc_of_Z by done. rewrite !Z.land_lor_distr_l, <- !Z.land_assoc. change (Z.land 127 127) with 127.
  change (Z.land 128 127) with 0. change (Z.land 127 128) with 0. change (Z.land 128 128) with 128. by rewrite Z.lor_0_r, Z.land_0_r.
Qed.

Lemma varint_join v shift : 0 <= shift ->
  Z.lor (Z.shiftl (Z.land v 0x7F) shift) (Z.shiftl (Z.shiftr v 7) (shift + 7)) = Z.shiftl v shift.
Proof.
  intros Hs. rewrite (Z.add_comm shift 7), <- Z.shiftl_shiftl, <- Z.shiftl_lor by lia. f_equal.
  change 0x7F with (Z.ones 7). rewrite <- Z.ldiff_ones_r by lia. rewrite Z.lor_comm. apply Z.lor_ldiff_and.
Qed.

Lemma small_shift v shift : 0 <= v < 2 ^ (64 - shift) -> 0 <= shift <= 64 -> u64 (Z.shiftl v shift) = Z.shiftl v shift.
Proof.
  intros Hv Hs. apply wrap_id. unfold fits. rewrite Z.shiftl_mul_pow2 by lia.
  assert (E : 2 ^ 64 = 2 ^ (64 - shift) * 2 ^ shift) by (rewrite <- Z.pow_add_r by lia; f_equal; lia).
  rewrite E. pose proof (Z.pow_pos_nonneg 2 shift). nia.
Qed.

Lemma get_put_varint fuel v shift acc rest :
  (0 < fuel)%nat -> 0 <= v < 2 ^ (7 * Z.of_nat fuel) -> v < 2 ^ (64 - shift) -> 0 <= shift <= 63 ->
  get_varint (put_varint fuel v ++ rest) shift acc = Some (Z.lor acc (Z.shiftl v shift), rest).
Proof.
  revert v shift acc. induction fuel as [|fuel IH]; intros v shift acc Hf Hv Hw Hs; [lia|]. cbn [put_varint].
  destruct (Z.ltb_spec v 0x80) as [Hlt|Hge].
  - cbn [app get_varint]. rewrite uc_of_Z by lia. assert (Hl : Z.land v 127 = v) by (change 127 with (Z.ones 7); rewrite Z.land_ones by lia; apply Z.mod_small; lia).
    rewrite Hl, small_shift by lia. rewrite <- Hl at 1. rewrite <- Z.land_assoc. change (Z.land 127 128) with 0. by rewrite Z.land_0_r.
  - cbn [app get_varint]. destruct (varint_byte v) as [-> ->]. change (128 =? 0) with false. cbn iota.
    assert (Hs7 : shift + 7 <= 63).
    { destruct (Z.le_gt_cases (shift + 7) 63) as [|Hgt]; [done|]. assert (2 ^ (64 - shift) <= 2 ^ 7) by (apply Z.pow_le_mono_r; lia). lia. }
    rewrite (proj2 (Z.ltb_ge _ _)) by lia. pose proof (low_bits v) as Hl.
    assert (Hv7 : 0 <= Z.shiftr v 7 < 2 ^ (64 - (shift + 7)) /\ Z.shiftr v 7 < 2 ^ (7 * Z.of_nat fuel)).
    { rewrite Z.shiftr_div_pow2 by lia. split; [split; [apply Z.div_pos; lia|]|]; apply Z.div_lt_upper_bound; try lia; rewrite <- Z.pow_add_r by lia.
      - replace (7 + (64 - (shift + 7))) with (64 - shift) by lia. lia.
      - replace (7 + 7 * Z.of_nat fuel) with (7 * Z.of_nat (S fuel)) by lia. lia. }
    assert (Hfuel : (0 < fuel)%nat).
    { destruct fuel; [|lia]. assert (1 <= Z.shiftr v 7) by (rewrite Z.shiftr_div_pow2 by lia; apply Z.div_le_lower_bound; lia). cbn in Hv7. lia. }
    rewrite IH by lia. rewrite <- Z.lor_assoc. f_equal. f_equal. f_equal. rewrite small_shift; [by apply varint_join; lia| |lia].
    split; [lia|]. apply Z.lt_le_trans with (2 ^ 7); [lia|]. apply Z.pow_le_mono_r; lia.
Qed.

Lemma GetVarint_at pre v rest : fits 64 v ->
  GetVarint (pre ++ PutVarint v ++ rest) (Zlen pre) = Some (v, Zlen pre + Zlen (PutVarint v)).
Proof.
  intros Hv. unfold GetVarint, Zlen. rewrite Nat2Z.id, drop_app_length. unfold fits in Hv.
  assert (H64 : 2 ^ 64 < 2 ^ (7 * Z.of_nat 10)) by (vm_compute; done).
  pose proof (get_put_varint 10 v 0 0 rest ltac:(lia) ltac:(lia) ltac:(lia) ltac:(lia)) as E. fold (PutVarint v) in E. rewrite E.
  cbn [mbind option_bind]. rewrite Z.lor_0_l, Z.shiftl_0_r, !length_app. do 2 f_equal. lia.
Qed.

Lemma put_varint_length fuel v : (length (put_varint fuel v) <= fuel)%nat.
Proof. revert v. induction fuel as [|fuel IH]; intros v; [done|]. cbn [put_varint]. destruct (v <? 0x80); cbn; [lia|]. specialize (IH (Z.shiftr v 7)). lia. Qed.

Lemma PutVarint_length v : 1 <= Zlen (PutVarint v) <= 10.
Proof.
  pose proof (put_varint_length 10 v). unfold Zlen, PutVarint. split; [|lia]. cbn [put_varint]. destruct (v <? 0x80); cbn; lia.
Qed.

Lemma lxor_u64 a b : Z.lxor (u64 a) (u64 b) = u64 (Z.lxor a b).
Proof. unfold u64, wrap. rewrite <- !Z.land_ones by lia. apply Z.bits_inj'. intros n Hn. rewrite !Z.lxor_spec, !Z.land_spec, Z.lxor_spec. by destruct (Z.testbit a n), (Z.testbit b n), (Z.testbit (Z.ones 64) n). Qed.

Lemma ZigZag_fits v : fits 64 (ZigZag v).
Proof. unfold ZigZag. rewrite lxor_u64. apply wrap_fits. lia. Qed.

Lemma land_1 z : Z.land z 1 = z mod 2.
Proof. by apply (Z.land_ones z 1). Qed.

Lemma UnZigZag_ZigZag v : sfits 64 v -> UnZigZag (ZigZag v) = v.
Proof.
  unfold sfits. change (64 - 1) with 63. intros Hv. unfold ZigZag. rewrite lxor_u64.
  assert (Hs : u64 (Z.lxor (Z.shiftl (u64 v) 1) (Z.shiftr v 63)) = if v <? 0 then - 2 * v - 1 else 2 * v).
  { rewrite <- lxor_u64. assert (E : u64 (Z.shiftl (u64 v) 1) = u64 (2 * v)).
    { unfold u64, wrap. rewrite Z.shiftl_mul_pow2 by lia. rewrite Z.mul_mod_idemp_l by lia. f_equal. lia. }
    rewrite E, lxor_u64, Z.shiftr_div_pow2 by lia. destruct (Z.ltb_spec v 0) as [Hn|Hp].
    - replace (v / 2 ^ 63) with (-1) by (apply Z.div_unique with (v + 2 ^ 63); lia). rewrite Z.lxor_m1_r.
      unfold Z.lnot. replace (Z.pred (- (2 * v))) with (- 2 * v - 1) by lia. apply wrap_id. unfold fits. lia.
    - rewrite Z.div_small by lia. rewrite Z.lxor_0_r. apply wrap_id. unfold fits. lia. }
  rewrite Hs. unfold UnZigZag. rewrite Z.shiftr_div_pow2 by lia. rewrite land_1. change (2 ^ 1) with 2.
  destruct (Z.ltb_spec v 0) as [Hn|Hp].
  - replace ((- 2 * v - 1) / 2) with (- v - 1) by (apply Z.div_unique with 1; lia). replace ((- 2 * v - 1) mod 2) with 1 by (apply Z.mod_unique with (- v - 1); lia).
    change (- (1)) with (-1). rewrite Z.lxor_m1_r. unfold Z.lnot. lia.
  - replace (2 * v / 2) with v by (apply Z.div_unique with 0; lia). replace (2 * v mod 2) with 0 by (apply Z.mod_unique with v; lia). apply Z.lxor_0_r.
Qed.

(** ** Runs read back *)
Lemma run_split c s : exists rest, s = replicate (run_length c s) c ++ rest /\ drop (run_length c s) s = rest.
Proof.
  induction s as [|x s (rest & E & D)]; cbn; [by exists []|]. case_bool_decide as Hx; [|by exists (x :: s)].
  subst x. exists rest. cbn. rewrite D. split; [by f_equal|done].
Qed.

Lemma even_header n : 0 <= n < 2 ^ 62 -> let h := u64 (Z.shiftl n 1) in fits 64 h /\ Z.shiftr h 1 = n /\ Z.land h 1 = 0.
Proof.
  intros Hn h. unfold h. rewrite small_shift by lia. rewrite Z.shiftl_mul_pow2 by lia. unfold fits. split; [lia|].
  rewrite land_1, Z.shiftr_div_pow2 by lia. change (2 ^ 1) with 2. rewrite Z.div_mul, Z.mod_mul by lia. done.
Qed.

Lemma odd_header n : 0 <= n < 2 ^ 62 -> let h := Z.lor (u64 (Z.shiftl n 1)) 1 in fits 64 h /\ Z.shiftr h 1 = n /\ Z.land h 1 = 1.
Proof.
  intros Hn h. destruct (even_header n Hn) as (F & S & L).
  assert (E : h = u64 (Z.shiftl n 1) + 1) by (unfold h; pose proof (Z.add_lor_land (u64 (Z.shiftl n 1)) 1); lia).
  rewrite small_shift in E by lia. rewrite Z.shiftl_mul_pow2 in E by lia. change (2 ^ 1) with 2 in E. rewrite E. unfold fits. split; [lia|].
  rewrite land_1, Z.shiftr_div_pow2 by lia. change (2 ^ 1) with 2. split; [symmetry; apply Z.div_unique with 1; lia|symmetry; apply Z.mod_unique with n; lia].
Qed.

Lemma lookup_at {A} (pre : list A) x rest : (pre ++ x :: rest) !! Z.to_nat (Zlen pre) = Some x.
Proof. unfold Zlen. rewrite Nat2Z.id. by apply list_lookup_middle. Qed.

Lemma slice_at {A} (pre a rest : list A) : take (Z.to_nat (Zlen a)) (drop (Z.to_nat (Zlen pre)) (pre ++ a ++ rest)) = a.
Proof. unfold Zlen. rewrite !Nat2Z.id, drop_app_length. apply take_app_length. Qed.

Lemma literal_step f pre lit rest N out :
  lit <> [] -> Zlen lit < 2 ^ 62 -> Zlen out + Zlen lit <= N ->
  unrle_loop (S f) (pre ++ flush_literal lit ++ rest) N (Zlen pre) out
  = unrle_loop f ((pre ++ flush_literal lit) ++ rest) N (Zlen (pre ++ flush_literal lit)) (out ++ lit).
Proof.
  intros Hne Hl HN. unfold flush_literal. rewrite bool_decide_eq_false_2 by done.
  destruct (even_header (Zlen lit) ltac:(pose proof (Zlen_nonneg lit); lia)) as (F & Sh & L). set (h := u64 _) in *.
  cbn [unrle_loop]. pose proof (PutVarint_length h) as Hp. pose proof (Zlen_nonneg rest).
  assert (Hpos : 0 < Zlen lit) by (destruct lit; [done|unfold Zlen; cbn; lia]).
  rewrite (proj2 (Z.leb_gt _ _)) by (rewrite !Zlen_app; lia).
  rewrite <- app_assoc, GetVarint_at by done. cbn [mbind option_bind]. rewrite Sh, L.
  rewrite (proj2 (Z.eqb_neq _ _)), (proj2 (Z.ltb_ge _ _)) by lia. cbn [Z.eqb negb].
  rewrite (proj2 (Z.ltb_ge (Zlen _) _)) by (rewrite !Zlen_app; lia). f_equal.
  - by rewrite <- !app_assoc.
  - rewrite !Zlen_app. lia.
  - f_equal. rewrite <- (Zlen_app pre (PutVarint h)), (app_assoc pre). apply slice_at.
Qed.

Lemma run_step f pre n c rest N out :
  (0 < n)%nat -> Z.of_nat n < 2 ^ 62 -> Zlen out + Z.of_nat n <= N ->
  let blk := PutVarint (Z.lor (u64 (Z.shiftl (Z.of_nat n) 1)) 1) ++ [c] in
  unrle_loop (S f) (pre ++ blk ++ rest) N (Zlen pre) out = unrle_loop f ((pre ++ blk) ++ rest) N (Zlen (pre ++ blk)) (out ++ replicate n c).
Proof.
  intros Hn Hl HN blk. destruct (odd_header (Z.of_nat n) ltac:(lia)) as (F & Sh & L). unfold blk. set (h := Z.lor _ _) in *.
  cbn [unrle_loop]. pose proof (PutVarint_length h) as Hp. pose proof (Zlen_nonneg rest).
  rewrite (proj2 (Z.leb_gt _ _)) by (rewrite !Zlen_app; pose proof (Zlen_nonneg [c]); lia).
  rewrite <- app_assoc, GetVarint_at by done. cbn [mbind option_bind]. rewrite Sh, L.
  rewrite (proj2 (Z.eqb_neq _ _)), (proj2 (Z.ltb_ge _ _)) by lia. cbn [Z.eqb negb].
  rewrite <- (Zlen_app pre (PutVarint h)), (app_assoc pre). cbn [app]. rewrite lookup_at. cbn [mbind option_bind]. rewrite Nat2Z.id. f_equal.
  - by rewrite <- !app_assoc.
  - rewrite !Zlen_app. unfold Zlen. cbn. lia.
Qed.

Lemma unrle_end f s N out : Zlen out = N -> unrle_loop f s N (Zlen s) out = Some out.
Proof. intros H. destruct f; cbn [unrle_loop]; rewrite Z.leb_refl, (proj2 (Z.eqb_eq _ _)); done. Qed.

(** [unrle_loop] after the literal, which may be empty. *)
Lemma literal_block f pre lit rest N out r :
  Zlen lit < 2 ^ 62 -> Zlen out + Zlen lit <= N -> (length (flush_literal lit ++ rest) <= f)%nat ->
  (forall f' pre', (length rest <= f')%nat -> unrle_loop f' (pre' ++ rest) N (Zlen pre') (out ++ lit) = r) ->
  unrle_loop f (pre ++ flush_literal lit ++ rest) N (Zlen pre) out = r.
Proof.
  intros Hl HN Hf H. destruct (decide (lit = [])) as [->|Hne].
  - rewrite <- (app_nil_r out). by apply H.
  - assert (Hlen : (0 < length (flush_literal lit))%nat).
    { unfold flush_literal. rewrite bool_decide_eq_false_2 by done. rewrite length_app. destruct lit; [done|cbn; lia]. }
    rewrite length_app in Hf. destruct f as [|f]; [lia|]. rewrite literal_step by done. apply H. lia.
Qed.

Lemma unrle_rle fuel s lit f pre out N :
  (length s <= fuel)%nat -> N = Zlen out + Zlen lit + Zlen s -> N < 2 ^ 62 -> (length (rle_loop fuel s lit) <= f)%nat ->
  unrle_loop f (pre ++ rle_loop fuel s lit) N (Zlen pre) out = Some (out ++ lit ++ s).
Proof.
  assert (Hend : forall f pre lit out N, N = Zlen out + Zlen lit -> N < 2 ^ 62 -> (length (flush_literal lit) <= f)%nat ->
            unrle_loop f (pre ++ flush_literal lit) N (Zlen pre) out = Some (out ++ lit)).
  { clear. intros f pre lit out N HN Hlt Hf. pose proof (Zlen_nonneg out). rewrite <- (app_nil_r (flush_literal lit)) in Hf |- *.
    eapply literal_block; [lia|lia|done|]. intros f' pre' _. rewrite app_nil_r. apply unrle_end. rewrite Zlen_app. lia. }
  revert s lit f pre out. induction fuel as [|fuel IH]; intros s lit f pre out Hs HN Hlt Hf.
  - destruct s; [|cbn in Hs; lia]. cbn [rle_loop] in *. rewrite app_nil_r. apply Hend; [change (Zlen (@nil byte)) with 0 in HN; lia|done|done].
  - destruct s as [|c t]; cbn [rle_loop] in *; [rewrite app_nil_r; apply Hend; [change (Zlen (@nil byte)) with 0 in HN; lia|done|done]|].
    destruct (run_split c t) as (rest & Et & Er). set (n := run_length c t) in *.
    assert (Hct : c :: t = replicate (S n) c ++ rest) by (by rewrite Et at 1).
    assert (Hd : drop (S n) (c :: t) = rest) by exact Er.
    assert (Htk : take (S n) (c :: t) = replicate (S n) c) by (rewrite Hct; apply take_app_length'; by rewrite length_replicate).
    assert (Hlen : length (c :: t) = (S n + length rest)%nat) by (rewrite Hct, length_app, length_replicate; done).
    assert (HlenZ : Zlen (c :: t) = Z.of_nat (S n) + Zlen rest) by (unfold Zlen; lia).
    pose proof (Zlen_nonneg out). pose proof (Zlen_nonneg lit). pose proof (Zlen_nonneg rest).
    destruct (kColumnarMinRunLength <=? S n)%nat.
    + rewrite Hd in *. eapply literal_block; [lia|lia|exact Hf|]. intros f' pre' Hf'.
      rewrite !length_app in Hf'. cbn [length] in Hf'. destruct f' as [|f']; [pose proof (PutVarint_length (Z.lor (u64 (Z.shiftl (Z.of_nat (S n)) 1)) 1)) as Hp; unfold Zlen in Hp; lia|].
      rewrite (app_assoc (PutVarint _) [c]), run_step by (try lia; rewrite Zlen_app; lia).
      rewrite IH; [|lia|unfold Zlen in *; rewrite !length_app, length_replicate; cbn [length] in *; lia|done|cbn [app length] in Hf'; lia].
      f_equal. rewrite <- !app_assoc. do 2 f_equal. by rewrite Hct.
    + rewrite Hd, Htk in *. rewrite IH; [|lia|unfold Zlen in *; rewrite !length_app, length_replicate; cbn [length] in *; lia|done|exact Hf].
      f_equal. rewrite <- !app_assoc. do 2 f_equal. by rewrite Hct.
Qed.

Lemma RleDecode_RleEncode s : Zlen s < 2 ^ 62 -> RleDecode (RleEncode s) (Zlen s) = Some s.
Proof. intros H. by apply (unrle_rle (length s) s [] (length (RleEncode s)) [] []). Qed.

(** The fuel of [RleDecode] suffices on every input: a turn moves the position. *)
Lemma get_varint_rest s shift acc v rest : 0 <= acc -> get_varint s shift acc = Some (v, rest) -> 0 <= v /\ exists used, s = used ++ rest /\ used <> [].
Proof.
  revert shift acc. induction s as [|c s IH]; intros shift acc Ha; cbn [get_varint]; [done|].
  assert (Ha' : 0 <= Z.lor acc (u64 (Z.shiftl (Z.land (uc c) 0x7F) shift))) by (apply Z.lor_nonneg; split; [done|]; apply wrap_fits; lia).
  destruct (_ =? 0); [intros [= <- <-]; split; [done|by exists [c]]|]. destruct (63 <? shift + 7); [done|].
  intros (Hv & used & -> & _)%IH; [|done]. split; [done|]. by exists (c :: used).
Qed.

Lemma GetVarint_moves s pos v pos' : 0 <= pos -> GetVarint s pos = Some (v, pos') -> 0 <= v /\ pos < pos' <= Zlen s.
Proof.
  intros H0. unfold GetVarint. destruct (get_varint _ _ _) as [[v' rest]|] eqn:E; [|done]. intros [= <- <-].
  apply get_varint_rest in E as (Hv & used & E & Hu); [|done]. split; [done|]. apply (f_equal length) in E. rewrite length_app, length_drop in E.
  destruct used; [done|]. unfold Zlen. cbn [length] in E. lia.
Qed.

Lemma unrle_fuel f f' s N pos out :
  0 <= pos -> Zlen s - pos <= Z.of_nat f -> Zlen s - pos <= Z.of_nat f' -> unrle_loop f s N pos out = unrle_loop f' s N pos out.
Proof.
  revert f' pos out. induction f as [|f IH]; intros [|f'] pos out H0 Hf Hf'; cbn [unrle_loop]; try (rewrite (proj2 (Z.leb_le _ _)) by lia; done).
  destruct (Zlen s <=? pos); [done|]. destruct (GetVarint s pos) as [[h p]|] eqn:E; [|done]. cbn [mbind option_bind].
  apply GetVarint_moves in E as [Hh E]; [|done]. apply (Z.shiftr_nonneg h 1) in Hh. destruct (Z.eqb_spec (Z.shiftr h 1) 0); [done|]. destruct (Z.ltb_spec N (Zlen out + Z.shiftr h 1)); [done|].
  destruct (negb _).
  - destruct (s !! Z.to_nat p); [|done]. cbn [mbind option_bind]. apply IH; lia.
  - destruct (Z.ltb_spec (Zlen s) (p + Z.shiftr h 1)); [done|].
    apply IH; lia.
Qed.

(** ** Columns read back *)
Lemma SharedPrefix_spec a b :
  (SharedPrefix a b <= length a)%nat /\ (SharedPrefix a b <= length b)%nat /\ take (SharedPrefix a b) a = take (SharedPrefix a b) b.
Proof.
  revert b. induction a as [|x a IH]; intros [|y b]; cbn; try (split; [lia|split; [lia|done]]).
  case_bool_decide as H; [|split; [lia|split; [lia|done]]]. subst y. destruct (IH b) as (H1 & H2 & H3). cbn. rewrite H3. split; [lia|split; [lia|done]].
Qed.

Lemma keys_read pre prev rows rest :
  Zlen (pre ++ keys_column prev rows ++ rest) < 2 ^ 63 -> Forall (fun r => Zlen r.1 < 2 ^ 63) rows ->
  DecodeKeyColumn (pre ++ keys_column prev rows ++ rest) (length rows) (Zlen pre) prev = OK rows.*1.
Proof.
  intros Hlen Hk. revert pre prev Hlen. induction Hk as [|[key doc] rows Hkey0 _ IH]; intros pre prev Hlen; [done|].
  cbn [fst] in Hkey0. cbn [keys_column length DecodeKeyColumn fmap list_fmap fst] in *. destruct (SharedPrefix_spec prev key) as (S1 & S2 & S3).
  set (n := SharedPrefix prev key) in *. set (a := PutVarint (Z.of_nat n)) in *. set (b := PutVarint (Z.of_nat (length key - n))) in *.
  rewrite !Zlen_app in Hlen. pose proof (Zlen_nonneg pre). pose proof (Zlen_nonneg rest). pose proof (Zlen_nonneg (keys_column key rows)).
  pose proof (Zlen_nonneg a). pose proof (Zlen_nonneg b).
  assert (Hdrop : Zlen (drop n key) = Z.of_nat (length key - n)) by (unfold Zlen; by rewrite length_drop). pose proof (Zlen_nonneg (drop n key)).
  assert (Hn : fits 64 (Z.of_nat n) /\ fits 64 (Z.of_nat (length key - n))) by (unfold fits; unfold Zlen in Hkey0; lia). destruct Hn as [Hn1 Hn2].
  pose proof (fun p r => GetVarint_at p _ r Hn1) as Ga. pose proof (fun p r => GetVarint_at p _ r Hn2) as Gb. fold a in Ga. fold b in Gb.
  rewrite <- !app_assoc, Ga. cbn [mbind option_bind].
  rewrite <- (Zlen_app pre a), (app_assoc pre a), Gb. cbn [mbind option_bind].
  rewrite <- (Zlen_app _ b), (app_assoc _ b). set (pre2 := (pre ++ a) ++ b).
  assert (Hp2 : Zlen pre2 = Zlen pre + Zlen a + Zlen b) by (unfold pre2; rewrite !Zlen_app; lia).
  assert (Hu : u64 (Zlen pre2 + Z.of_nat (length key - n)) = Zlen (pre2 ++ drop n key)) by (rewrite Zlen_app, <- Hdrop; apply wrap_id; unfold fits; lia).
  rewrite Hu. rewrite (proj2 (Z.ltb_ge (Zlen prev) _)) by (unfold Zlen; lia).
  rewrite (proj2 (Z.ltb_ge _ (Zlen (pre2 ++ _)))) by (rewrite !Zlen_app; lia). cbn [orb].
  assert (Hkey : take (Z.to_nat (Z.of_nat n)) prev ++ take (Z.to_nat (Z.of_nat (length key - n))) (drop (Z.to_nat (Zlen pre2)) (pre2 ++ drop n key ++ keys_column key rows ++ rest)) = key).
  { rewrite <- Hdrop, slice_at, Nat2Z.id, S3. apply take_drop. }
  rewrite Hkey, (app_assoc pre2), IH; [done|rewrite !Zlen_app; lia].
Qed.

Definition doc_lens (rows : list EngineRow) : list Z := Zlen ∘ snd <$> rows.

Lemma lens_read pre prev rows rest :
  0 <= prev < 2 ^ 63 -> Forall (fun r => Zlen r.2 < 2 ^ 63) rows ->
  decode_lengths (pre ++ lens_column prev rows ++ rest) (length rows) (Zlen pre) prev = Some (OK (doc_lens rows)).
Proof.
  intros Hp Hr. revert pre prev Hp. induction Hr as [|[key doc] rows Hd _ IH]; intros pre prev Hp; [done|].
  cbn [lens_column length decode_lengths snd] in *. rewrite <- app_assoc, GetVarint_at by apply ZigZag_fits. cbn [mbind option_bind].
  pose proof (Zlen_nonneg doc). rewrite UnZigZag_ZigZag by (unfold sfits; change (64 - 1) with 63; lia).
  replace (prev + (Zlen doc - prev)) with (Zlen doc) by lia. rewrite (proj2 (Z.leb_le _ _)), (proj2 (Z.ltb_lt _ _)), (proj2 (Z.ltb_ge _ _)) by lia. cbn [andb negb].
  rewrite <- Zlen_app, (app_assoc pre), IH by lia. done.
Qed.

Lemma total_read rows t : 0 <= t -> t + Zlen (payload_raw rows) < 2 ^ 64 ->
  fold_left (fun t len => u64 (t + len)) (doc_lens rows) t = t + Zlen (payload_raw rows).
Proof.
  revert t. induction rows as [|[key doc] rows IH]; intros t Ht Hl; cbn in *; [change (Zlen _) with 0; lia|].
  unfold payload_raw in *. cbn in *. rewrite Zlen_app in *. pose proof (Zlen_nonneg doc). pose proof (Zlen_nonneg (concat rows.*2)).
  unfold u64 at 2. rewrite wrap_id by (unfold fits; lia). rewrite IH by lia. lia.
Qed.

Lemma rows_read pre rows rest : Zlen (pre ++ payload_raw rows ++ rest) < 2 ^ 63 ->
  cut_rows rows.*1 (doc_lens rows) (pre ++ payload_raw rows ++ rest) (Zlen pre) = Some rows.
Proof.
  revert pre. induction rows as [|[key doc] rows IH]; intros pre Hl; [done|]. unfold payload_raw in *. cbn in *.
  rewrite !Zlen_app in *. pose proof (Zlen_nonneg doc). pose proof (Zlen_nonneg pre). pose proof (Zlen_nonneg rest). pose proof (Zlen_nonneg (concat rows.*2)).
  rewrite (proj2 (Z.ltb_ge _ _)) by lia. rewrite <- !app_assoc in *. unfold u64. rewrite wrap_id by (unfold fits; lia).
  rewrite <- Zlen_app. rewrite (app_assoc pre) at 1. rewrite IH by (rewrite !Zlen_app; lia). cbn. rewrite slice_at. done.
Qed.

(** ** Segments read back *)

(** The lengths the header stores in 32 bits. *)
Record seg_fits (rows : list EngineRow) : Prop := {
  sf_rows : Zlen rows < 2 ^ 32;
  sf_keys : Zlen (keys_column [] rows) < 2 ^ 32;
  sf_lens : Zlen (lens_column 0 rows) < 2 ^ 32;
  sf_raw : Zlen (payload_raw rows) < 2 ^ 32;
  sf_enc : Zlen (RleEncode (payload_raw rows)) < 2 ^ 32;
}.

Lemma U32_any v rest : ByteReader.U32 (ByteWriter.U32 v ++ rest) = Some (u32 v, rest).
Proof. apply (Read_split 4). Qed.

Definition written_header (rows : list EngineRow) : SegmentHeader :=
  mkSegmentHeader (u32 (Zlen rows)) (u32 (Zlen (keys_column [] rows))) (u32 (Zlen (lens_column 0 rows)))
    (u32 (Zlen (payload_raw rows))) (u32 (Zlen (RleEncode (payload_raw rows)))).

Lemma EncodeSegment_header rows :
  read_header (EncodeSegment rows) = Some ((kColumnarSegmentMagic, written_header rows), keys_column [] rows ++ lens_column 0 rows ++ RleEncode (payload_raw rows)).
Proof. unfold read_header, EncodeSegment. repeat (unfold rbind at 1; rewrite U32_any; cbv beta iota). done. Qed.

(** The six words in front of the columns. *)
Definition header_bytes (rows : list EngineRow) : bytes :=
  ByteWriter.U32 kColumnarSegmentMagic ++ ByteWriter.U32 (Zlen rows) ++ ByteWriter.U32 (Zlen (keys_column [] rows)) ++ ByteWriter.U32 (Zlen (lens_column 0 rows))
    ++ ByteWriter.U32 (Zlen (payload_raw rows)) ++ ByteWriter.U32 (Zlen (RleEncode (payload_raw rows))).

Lemma header_bytes_length rows : Zlen (header_bytes rows) = kHeaderBytes.
Proof. unfold header_bytes, Zlen. rewrite !length_app, !U32_length. done. Qed.

Lemma EncodeSegment_split rows :
  EncodeSegment rows = header_bytes rows ++ keys_column [] rows ++ lens_column 0 rows ++ RleEncode (payload_raw rows).
Proof. unfold EncodeSegment, header_bytes. by rewrite <- !app_assoc. Qed.

Lemma EncodeSegment_Zlen rows :
  Zlen (EncodeSegment rows) = kHeaderBytes + Zlen (keys_column [] rows) + Zlen (lens_column 0 rows) + Zlen (RleEncode (payload_raw rows)).
Proof. rewrite EncodeSegment_split, !Zlen_app, header_bytes_length. lia. Qed.

Lemma ParseSegmentHeader_written rows :
  ParseSegmentHeader (EncodeSegment rows)
  = if payload_off (written_header rows) + h_payload_enc_len (written_header rows) =? Zlen (EncodeSegment rows) then OK (written_header rows) else Fault kCorruption.
Proof.
  unfold ParseSegmentHeader. pose proof (EncodeSegment_Zlen rows). pose proof (Zlen_nonneg (keys_column [] rows)). pose proof (Zlen_nonneg (lens_column 0 rows)).
  pose proof (Zlen_nonneg (RleEncode (payload_raw rows))). rewrite (proj2 (Z.ltb_ge _ _)) by lia. rewrite EncodeSegment_header, Z.eqb_refl. cbn [negb].
  by destruct (_ =? _).
Qed.

Lemma docs_below rows N : Zlen (payload_raw rows) < N -> Forall (fun r => Zlen r.2 < N) rows.
Proof.
  intros H. induction rows as [|[k d] rows IH]; [constructor|]. unfold payload_raw in *. cbn in *. rewrite Zlen_app in H.
  pose proof (Zlen_nonneg d). pose proof (Zlen_nonneg (concat rows.*2)). constructor; [cbn; lia|]. apply IH. lia.
Qed.

Section RoundTrip.
Variable rows : list EngineRow.
Hypothesis Hfit : seg_fits rows.
Hypothesis Hkeys : Forall (fun r => Zlen r.1 < 2 ^ 63) rows.

Lemma parsed_header : ParseSegmentHeader (EncodeSegment rows) = OK (mkSegmentHeader (Zlen rows) (Zlen (keys_column [] rows)) (Zlen (lens_column 0 rows))
    (Zlen (payload_raw rows)) (Zlen (RleEncode (payload_raw rows)))).
Proof.
  rewrite ParseSegmentHeader_written. unfold written_header, u32. destruct Hfit. rewrite !wrap_id by (split; [apply Zlen_nonneg|done]).
  rewrite EncodeSegment_Zlen. unfold payload_off, lens_off, keys_off. cbn. by rewrite Z.eqb_refl.
Qed.

Lemma keys_col : column (EncodeSegment rows) kHeaderBytes (Zlen (keys_column [] rows)) = keys_column [] rows.
Proof. rewrite EncodeSegment_split, <- (header_bytes_length rows). apply slice_at. Qed.

Lemma lens_col : column (EncodeSegment rows) (kHeaderBytes + Zlen (keys_column [] rows)) (Zlen (lens_column 0 rows)) = lens_column 0 rows.
Proof. rewrite EncodeSegment_split, app_assoc, <- (header_bytes_length rows), <- Zlen_app. apply slice_at. Qed.

Lemma payload_col :
  column (EncodeSegment rows) (kHeaderBytes + Zlen (keys_column [] rows) + Zlen (lens_column 0 rows)) (Zlen (RleEncode (payload_raw rows))) = RleEncode (payload_raw rows).
Proof.
  rewrite EncodeSegment_split, app_assoc, (app_assoc (header_bytes rows ++ _)), <- (header_bytes_length rows), <- !Zlen_app.
  pose proof (slice_at ((header_bytes rows ++ keys_column [] rows) ++ lens_column 0 rows) (RleEncode (payload_raw rows)) []) as H. by rewrite app_nil_r in H.
Qed.

Lemma keys_decoded h : h_row_count h = Zlen rows -> h_keys_len h = Zlen (keys_column [] rows) -> decode_keys (EncodeSegment rows) h = OK rows.*1.
Proof.
  intros H1 H2. unfold decode_keys, keys_off. rewrite H1, H2, keys_col. unfold Zlen at 1. rewrite Nat2Z.id.
  pose proof (keys_read [] [] rows []) as H. cbn [app] in H. rewrite app_nil_r in H. apply H; [|done]. pose proof (sf_keys _ Hfit). lia.
Qed.

Lemma segment_keys_read : DecodeSegmentKeys (EncodeSegment rows) = OK rows.*1.
Proof. unfold DecodeSegmentKeys. rewrite parsed_header. by apply keys_decoded. Qed.

Lemma segment_read : DecodeSegment (EncodeSegment rows) = Some (OK rows).
Proof.
  unfold DecodeSegment. rewrite parsed_header, keys_decoded by done. unfold lens_off, payload_off, lens_off, keys_off.
  cbn [h_row_count h_keys_len h_lens_len h_payload_raw_len h_payload_enc_len]. rewrite lens_col, payload_col.
  replace (Z.to_nat (Zlen rows)) with (length rows) by (unfold Zlen; lia).
  pose proof (sf_raw _ Hfit) as Hraw. pose proof (Zlen_nonneg (payload_raw rows)).
  pose proof (docs_below rows (2 ^ 63) ltac:(lia)) as Hdocs. pose proof (lens_read [] 0 rows [] ltac:(lia) Hdocs) as Hl. cbn [app] in Hl. rewrite app_nil_r in Hl. change (Zlen []) with 0 in Hl.
  unfold EngineRow in *. rewrite Hl. cbn [mbind option_bind]. unfold total_length. rewrite total_read by lia. rewrite Z.add_0_l, Z.eqb_refl. cbn [negb].
  rewrite RleDecode_RleEncode by lia. pose proof (rows_read [] rows []) as Hr. cbn [app] in Hr. rewrite app_nil_r in Hr. change (Zlen []) with 0 in Hr.
  rewrite Hr by lia. done.
Qed.
End RoundTrip.

(** ** Sizes *)
Definition volume (rows : list EngineRow) : Z := foldr (fun r n => RecordCost r.1 r.2 + n) 0 rows.

Lemma volume_rows rows : 32 * Zlen rows <= volume rows /\ Zlen (payload_raw rows) + 32 * Zlen rows <= volume rows.
Proof.
  induction rows as [|[k d] rows [IH1 IH2]]; [done|]. unfold payload_raw, RecordCost in *. cbn [volume foldr fmap list_fmap concat fst snd] in *.
  rewrite Zlen_app. fold (volume rows). pose proof (Zlen_nonneg k). pose proof (Zlen_nonneg d). unfold RecordCost. unfold Zlen in *. cbn [length]. lia.
Qed.

Lemma keys_column_size prev rows : Zlen (keys_column prev rows) + Zlen (payload_raw rows) + 12 * Zlen rows <= volume rows.
Proof.
  revert prev. induction rows as [|[k d] rows IH]; intros prev; [done|]. specialize (IH k). unfold payload_raw, RecordCost in *.
  cbn [keys_column volume foldr fmap list_fmap concat fst snd] in *. fold (volume rows). unfold RecordCost. rewrite !Zlen_app.
  pose proof (PutVarint_length (Z.of_nat (SharedPrefix prev k))). pose proof (PutVarint_length (Z.of_nat (length k - SharedPrefix prev k))).
  assert (Zlen (drop (SharedPrefix prev k) k) <= Zlen k) by (unfold Zlen; rewrite length_drop; lia). unfold Zlen in *. cbn [length]. lia.
Qed.

Lemma lens_column_size prev rows : Zlen (lens_column prev rows) <= 10 * Zlen rows.
Proof.
  revert prev. induction rows as [|[k d] rows IH]; intros prev; [done|]. cbn [lens_column]. rewrite Zlen_app. specialize (IH (Zlen d)).
  pose proof (PutVarint_length (ZigZag (Zlen d - prev))). unfold Zlen in *. cbn [length]. lia.
Qed.

Lemma flush_literal_size lit : Zlen (flush_literal lit) <= 10 + Zlen lit.
Proof.
  unfold flush_literal. pose proof (Zlen_nonneg lit). case_bool_decide; [change (Zlen []) with 0; lia|]. rewrite Zlen_app.
  pose proof (PutVarint_length (u64 (Z.shiftl (Zlen lit) 1))). lia.
Qed.

Lemma rle_loop_size fuel s lit : (length s <= fuel)%nat -> Zlen (rle_loop fuel s lit) <= 6 * Zlen s + Zlen lit + 10.
Proof.
  revert s lit. induction fuel as [|fuel IH]; intros [|c t] lit Hs; cbn [rle_loop]; pose proof (flush_literal_size lit) as Hl;
    try (change (Zlen (@nil byte)) with 0; lia); [cbn in Hs; lia|]. cbn [length] in Hs.
  assert (Hd : Zlen (drop (S (run_length c t)) (c :: t)) = Zlen (c :: t) - Z.of_nat (S (run_length c t)) /\ (run_length c t <= length t)%nat).
  { destruct (run_split c t) as (rest & E & D). apply (f_equal length) in E. rewrite length_app, length_replicate in E. cbn [drop]. rewrite D. unfold Zlen. cbn [length]. lia. }
  destruct Hd as [Hd Hle]. assert (Hlen : (length (drop (S (run_length c t)) (c :: t)) <= fuel)%nat) by (rewrite length_drop; cbn [length]; lia).
  destruct (Nat.leb_spec kColumnarMinRunLength (S (run_length c t))) as [Hr|Hr].
  - rewrite !Zlen_app. pose proof (PutVarint_length (Z.lor (u64 (Z.shiftl (Z.of_nat (S (run_length c t))) 1)) 1)).
    pose proof (IH _ [] Hlen) as H2. change (Zlen (@nil byte)) with 0 in H2. change (Zlen [c]) with 1. unfold kColumnarMinRunLength in Hr. lia.
  - pose proof (IH _ (lit ++ take (S (run_length c t)) (c :: t)) Hlen) as H2. rewrite Zlen_app in H2.
    assert (Zlen (take (S (run_length c t)) (c :: t)) = Z.of_nat (S (run_length c t))) by (unfold Zlen; rewrite length_take; cbn [length]; lia). lia.
Qed.

Lemma RleEncode_size s : Zlen (RleEncode s) <= 6 * Zlen s + 10.
Proof. pose proof (rle_loop_size (length s) s [] ltac:(lia)) as H. change (Zlen (@nil byte)) with 0 in H. unfold RleEncode. lia. Qed.

Lemma EncodeSegment_size rows : Zlen (EncodeSegment rows) <= 34 + 6 * volume rows.
Proof.
  rewrite EncodeSegment_Zlen. pose proof (keys_column_size [] rows). pose proof (lens_column_size 0 rows). pose proof (RleEncode_size (payload_raw rows)).
  pose proof (volume_rows rows). pose proof (Zlen_nonneg rows). unfold kHeaderBytes. lia.
Qed.

Lemma volume_fits rows : volume rows <= 2 ^ 29 -> seg_fits rows /\ Forall (fun r => Zlen r.1 < 2 ^ 63) rows.
Proof.
  intros H. pose proof (keys_column_size [] rows). pose proof (lens_column_size 0 rows). pose proof (RleEncode_size (payload_raw rows)).
  pose proof (volume_rows rows). pose proof (Zlen_nonneg rows). pose proof (Zlen_nonneg (payload_raw rows)). split; [split; lia|].
  clear -H. induction rows as [|[k d] rows IH]; [constructor|]. cbn [volume foldr fst snd] in H. fold (volume rows) in H. unfold RecordCost in H.
  assert (0 <= volume rows) by (pose proof (volume_rows rows); pose proof (Zlen_nonneg rows); lia). pose proof (Zlen_nonneg k). pose proof (Zlen_nonneg d).
  constructor; [cbn; lia|apply IH; lia].
Qed.

(** C20: A segment decodes to the rows it was encoded from, in their order, and its key column
    alone to their keys, for every row set whose columns have 32-bit lengths. *)
Theorem columnar_decode_encode rows :
  seg_fits rows -> Forall (fun r => Zlen r.1 < 2 ^ 63) rows ->
  DecodeSegment (EncodeSegment rows) = Some (OK rows) /\ DecodeSegmentKeys (EncodeSegment rows) = OK rows.*1.
Proof. intros H1 H2. split; [by apply segment_read|by apply segment_keys_read]. Qed.

Definition sample_rows : list EngineRow :=
  [(bs "evt:1", replicate 40 Byte.x00); (bs "evt:17", bs "aaab"); ([], []); (bs "evt:2", bs "abc" ++ replicate 300 Byte.x00 ++ bs "d")].

Lemma columnar_decode_encode_witness :
  DecodeSegment (EncodeSegment sample_rows) = Some (OK sample_rows) /\ DecodeSegmentKeys (EncodeSegment sample_rows) = OK sample_rows.*1.
Proof. apply columnar_decode_encode; [split; vm_compute; done|by repeat constructor]. Defined.

Lemma sample_rows_compress : Zlen (payload_raw sample_rows) = 348 /\ Zlen (RleEncode (payload_raw sample_rows)) = 15.
Proof. split; vm_compute; done. Qed.

(** Documents of 4 GiB and more in one segment: the length is cut to 32 bits and the
    segment no longer decodes. *)
Theorem oversized_segment_unreadable rows :
  2 ^ 32 <= Zlen (payload_raw rows) < 2 ^ 62 -> Zlen rows < 2 ^ 32 -> Zlen (keys_column [] rows) < 2 ^ 32 -> Zlen (lens_column 0 rows) < 2 ^ 32 ->
  Forall (fun r => Zlen r.1 < 2 ^ 63) rows ->
  DecodeSegment (EncodeSegment rows) = Some (Fault kCorruption).
Proof.
  intros Hraw Hr Hk Hl Hkeys. unfold DecodeSegment. rewrite ParseSegmentHeader_written. destruct (_ =? _); [|done].
  assert (Hu : forall A (l : list A), Zlen l < 2 ^ 32 -> u32 (Zlen l) = Zlen l) by (intros A l H; apply wrap_id; split; [apply Zlen_nonneg|done]).
  assert (Hkd : decode_keys (EncodeSegment rows) (written_header rows) = OK rows.*1).
  { unfold decode_keys, keys_off, written_header. cbn [h_row_count h_keys_len]. rewrite !Hu by done. rewrite keys_col. replace (Z.to_nat (Zlen rows)) with (length rows) by (unfold Zlen; lia).
    pose proof (keys_read [] [] rows []) as H. cbn [app] in H. rewrite app_nil_r in H. apply H; [lia|done]. }
  rewrite Hkd. unfold lens_off, keys_off. cbn [written_header h_row_count h_keys_len h_lens_len h_payload_raw_len]. rewrite (Hu _ rows), (Hu _ (keys_column [] rows)), (Hu _ (lens_column 0 rows)) by done. rewrite lens_col.
  replace (Z.to_nat (Zlen rows)) with (length rows) by (unfold Zlen; lia).
  pose proof (docs_below rows (2 ^ 63) ltac:(lia)) as Hdocs. pose proof (lens_read [] 0 rows [] ltac:(lia) Hdocs) as H. cbn [app] in H. rewrite app_nil_r in H. change (Zlen []) with 0 in H.
  unfold EngineRow in *. rewrite H. cbn [mbind option_bind]. unfold total_length. rewrite total_read by lia.
  pose proof (wrap_fits 32 (Zlen (payload_raw rows)) ltac:(lia)) as Hw. unfold fits in Hw. unfold u32. rewrite (proj2 (Z.eqb_neq _ _)) by lia. done.
Qed.
