(* ===== verification/Columnar.v ===== *)
(** * The columnar engine: src/storage/engines/columnar_lite.cpp

    Rows gather in memory and are sealed into segments of the column codec; a key may be in
    several segments and the newest wins.  Iteration over an unordered map is in the order
    of [map_to_list].  [None] is an exception that escapes. *)
From S2P Require Import Prelude Bytes Hlc Json JsonText Crdt CrdtMerge CrdtCodec AtRest AtRestFiles DiskManager BufferPool BPlusTree SegmentStore Catalog Backend KvBackend ColumnarCodec.
Local Open Scope Z_scope.

Record ColumnarSegmentMeta := mkSegMeta {
  sm_collection : bytes;
  sm_first_page_id : Z;
  sm_row_count : Z;
  sm_encoded_bytes : Z;
  sm_min_key : bytes;
  sm_max_key : bytes;
  sm_sequence : Z;
}.

Record CollectionState := mkColl {
  segments : list ColumnarSegmentMeta;      (* newest first *)
  open_rows : gmap bytes bytes;
  open_bytes : Z;
  key_to_segment : gmap bytes nat;
}.

Definition new_coll : CollectionState := mkColl [] ∅ 0 ∅.

Record ColumnarLiteBackend := mkColumnar {
  co_dek : bytes;
  co_manifest : option bytes;
  co_store : BufferPool;
  next_sequence_ : Z;
  co_collections : gmap bytes CollectionState;
  co_quota : quota;
  co_env : nat -> kv_event;
  co_saves : nat;
}.

Definition co_set_store (b : BufferPool) (co : ColumnarLiteBackend) : ColumnarLiteBackend :=
  mkColumnar (co_dek co) (co_manifest co) b (next_sequence_ co) (co_collections co) (co_quota co) (co_env co) (co_saves co).
Definition co_set_coll (c : bytes) (st : CollectionState) (co : ColumnarLiteBackend) : ColumnarLiteBackend :=
  mkColumnar (co_dek co) (co_manifest co) (co_store co) (next_sequence_ co) (<[c := st]> (co_collections co)) (co_quota co) (co_env co) (co_saves co).
Definition co_set_quota (q : quota) (co : ColumnarLiteBackend) : ColumnarLiteBackend :=
  mkColumnar (co_dek co) (co_manifest co) (co_store co) (next_sequence_ co) (co_collections co) q (co_env co) (co_saves co).
Definition co_next (co : ColumnarLiteBackend) : ColumnarLiteBackend :=
  mkColumnar (co_dek co) (co_manifest co) (co_store co) (u64 (next_sequence_ co + 1)) (co_collections co) (co_quota co) (co_env co) (co_saves co).
Definition co_set_manifest (f : option bytes) (co : ColumnarLiteBackend) : ColumnarLiteBackend :=
  mkColumnar (co_dek co) f (co_store co) (next_sequence_ co) (co_collections co) (co_quota co) (co_env co) (S (co_saves co)).

(** A std::map in the order of its keys. *)
Definition in_order (m : gmap bytes bytes) : list EngineRow := std_sort str_lt fst (map_to_list m).

(** The documents from [start_key] on, [limit] at most. *)
Definition from_key (m : gmap bytes bytes) (start_key : bytes) (limit : nat) : list EngineRow :=
  let l := filter (fun r => str_lt r.1 start_key = false) (in_order m) in if (limit =? 0)%nat then l else take limit l.

Definition meta_json (m : ColumnarSegmentMeta) : JsonValue :=
  JObject [(bs "collection", JString (sm_collection m));
           (bs "first_page_id", JInt (sm_first_page_id m));
           (bs "row_count", JInt (to_signed 64 (sm_row_count m)));
           (bs "encoded_bytes", JInt (to_signed 64 (sm_encoded_bytes m)));
           (bs "min_key", JString (sm_min_key m));
           (bs "max_key", JString (sm_max_key m));
           (bs "sequence", JInt (to_signed 64 (sm_sequence m)))].

Definition json_meta (e : JsonValue) : ColumnarSegmentMeta :=
  mkSegMeta (AsString (Json.Get e (bs "collection")))
    (to_signed 32 (u32 (AsInt (Json.Get e (bs "first_page_id")))))
    (u64 (AsInt (Json.Get e (bs "row_count"))))
    (u64 (AsInt (Json.Get e (bs "encoded_bytes"))))
    (AsString (Json.Get e (bs "min_key")))
    (AsString (Json.Get e (bs "max_key")))
    (u64 (AsInt (Json.Get e (bs "sequence")))).

Definition manifest_text (m : gmap bytes CollectionState) : bytes :=
  Dump (JArray (concat (map (fun e => map meta_json (segments e.2)) (map_to_list m)))).

(** An entry of the manifest into the counter and the collections. *)
Definition load_meta (acc : Z * gmap bytes CollectionState) (e : JsonValue) : Z * gmap bytes CollectionState :=
  let meta := json_meta e in
  let st := default new_coll (acc.2 !! sm_collection meta) in
  (Z.max acc.1 (u64 (sm_sequence meta + 1)),
   <[sm_collection meta := mkColl (segments st ++ [meta]) (open_rows st) (open_bytes st) (key_to_segment st)]> acc.2).

(** [emplace]: the first entry of a key stays. *)
Definition emplace_key (i : nat) (m : gmap bytes nat) (key : bytes) : gmap bytes nat :=
  match m !! key with Some _ => m | None => <[key := i]> m end.

Definition co_newest_first (l : list ColumnarSegmentMeta) : list ColumnarSegmentMeta := std_sort (fun a b => b <? a) sm_sequence l.

Section Columnar.
Context `{C : Crypto}.

(** ** Manifest *)
Fixpoint index_segments (i : nat) (metas : list ColumnarSegmentMeta) (m : gmap bytes nat) (b : BufferPool) : StatusOr (gmap bytes nat) * BufferPool :=
  match metas with
  | [] => (OK m, b)
  | meta :: rest =>
      match ReadBlob (sm_first_page_id meta) b with
      | (Fault c, b1) => (Fault c, b1)
      | (OK blob, b1) =>
          match DecodeSegmentKeys blob with
          | Fault c => (Fault c, b1)
          | OK keys => index_segments (S i) rest (fold_left (emplace_key i) keys m) b1
          end
      end
  end.

Fixpoint index_collections (l : list (bytes * CollectionState)) (out : gmap bytes CollectionState) (b : BufferPool)
  : StatusOr (gmap bytes CollectionState) * BufferPool :=
  match l with
  | [] => (OK out, b)
  | (name, st) :: rest =>
      let metas := co_newest_first (segments st) in
      match index_segments 0 metas (key_to_segment st) b with
      | (Fault c, b1) => (Fault c, b1)
      | (OK index, b1) => index_collections rest (<[name := mkColl metas (open_rows st) (open_bytes st) index]> out) b1
      end
  end.

Definition CoLoadManifest (co : ColumnarLiteBackend) : option (StatusOr ColumnarLiteBackend) :=
  match ReadSealedJsonFile (co_manifest co) (co_dek co) (bs "columnar-manifest") with
  | None => None
  | Some (Fault c) => Some (if bool_decide (c = kNotFound) then OK co else Fault kCorruption)
  | Some (OK text) =>
      if bool_decide (text = []) then Some (OK co)
      else match Parse text with
           | None => Some (Fault kCorruption)
           | Some root =>
               if negb (is_array root) then Some (OK co)
               else
                 let '(next, colls) := fold_left load_meta (AsArray root) (next_sequence_ co, co_collections co) in
                 match index_collections (map_to_list colls) colls (co_store co) with
                 | (Fault c, _) => Some (Fault c)
                 | (OK colls', b) => Some (OK (mkColumnar (co_dek co) (co_manifest co) b next colls' (co_quota co) (co_env co) (co_saves co)))
                 end
           end
  end.

Definition CoSaveManifest (co : ColumnarLiteBackend) : StatusOr unit * ColumnarLiteBackend :=
  let e := ev_save (co_env co (co_saves co)) in
  let '(st, file) := WriteSealedJsonFile (se_io e) (se_nonce e) (manifest_text (co_collections co)) (co_dek co) (bs "columnar-manifest") (co_manifest co) in
  (match st with OK _ => OK tt | Fault _ => Fault kIOError end, co_set_manifest file co).

Definition OpenColumnar (made : bool) (env : open_env) (wenv : nat -> write_env) (events : nat -> kv_event)
    (file hdr manifest : option bytes) (quota_mb : Z) (dek : bytes)
  : option (StatusOr ColumnarLiteBackend * (option bytes * option bytes)) :=
  if bad_dek dek then Some (Fault kInvalidArgument, (file, hdr))
  else if negb made then Some (Fault kIOError, (file, hdr))
  else match OpenSegments env wenv file hdr 256 dek with
       | (Fault c, fs) => Some (Fault c, fs)
       | (OK b, fs) =>
           let co := mkColumnar dek manifest b 1 ∅ (mkQuota (u64 (quota_mb * 1024 * 1024)) (BytesOnDisk b)) events 0 in
           match CoLoadManifest co with
           | None => None
           | Some (Fault c) => Some (Fault c, fs)
           | Some (OK co') => Some (OK co', fs)
           end
       end.

(** ** Sealing *)
Definition StateFor (c : bytes) (co : ColumnarLiteBackend) : CollectionState := default new_coll (co_collections co !! c).

Definition seg_meta (c : bytes) (page : Z) (rows : list EngineRow) (blob : bytes) (seq : Z) : ColumnarSegmentMeta :=
  mkSegMeta c page (Zlen rows) (Zlen blob) (default [] (fst <$> head rows)) (default [] (fst <$> last rows)) seq.

Definition co_charge_disk (co : ColumnarLiteBackend) : ColumnarLiteBackend :=
  co_set_quota (mkQuota (quota_bytes_ (co_quota co)) (BytesOnDisk (co_store co))) co.

Definition CoSealLocked (c : bytes) (st : CollectionState) (co : ColumnarLiteBackend) : StatusOr unit * ColumnarLiteBackend :=
  if bool_decide (open_rows st = ∅) then (OK tt, co)
  else
    let rows := in_order (open_rows st) in
    let blob := EncodeSegment rows in
    match AppendBlob blob (co_store co) with
    | (Fault e, b) => (Fault e, co_set_store b co)
    | (OK page, b) =>
        let meta := seg_meta c page rows blob (next_sequence_ co) in
        let index := fold_left (fun m r => <[r.1 := 0%nat]> m) rows (S <$> key_to_segment st) in
        let st' := mkColl (meta :: segments st) ∅ 0 index in
        CoSaveManifest (co_charge_disk (co_set_coll c st' (co_next (co_set_store b co))))
    end.

Definition SealOpenSegment (c : bytes) (co : ColumnarLiteBackend) : StatusOr unit * ColumnarLiteBackend :=
  match co_collections co !! c with
  | None => (OK tt, co)
  | Some st => CoSealLocked c st co
  end.

(** ** Reads *)
Definition LoadSegment (meta : ColumnarSegmentMeta) (b : BufferPool) : option (StatusOr (list EngineRow) * BufferPool) :=
  match ReadBlob (sm_first_page_id meta) b with
  | (Fault c, b1) => Some (Fault c, b1)
  | (OK blob, b1) => rows ← DecodeSegment blob; Some (rows, b1)
  end.

Definition CoGet (c key : bytes) (co : ColumnarLiteBackend) : option (StatusOr bytes * ColumnarLiteBackend) :=
  match co_collections co !! c with
  | None => Some (Fault kNotFound, co)
  | Some st =>
      match open_rows st !! key with
      | Some doc => Some (OK doc, co)
      | None =>
          match key_to_segment st !! key with
          | None => Some (Fault kNotFound, co)
          | Some i =>
              match segments st !! i with
              | None => Some (Fault kCorruption, co)
              | Some meta =>
                  '(rows, b) ← LoadSegment meta (co_store co);
                  Some (match rows with
                        | Fault e => Fault e
                        | OK l => match assoc key l with Some doc => OK doc | None => Fault kCorruption end
                        end, co_set_store b co)
              end
          end
      end
  end.

Definition put_rows (m : gmap bytes bytes) (rows : list EngineRow) : gmap bytes bytes := fold_left (fun m r => <[r.1 := r.2]> m) rows m.

(** Oldest first; unreadable segments are passed over. *)
Fixpoint merge_segments (metas : list ColumnarSegmentMeta) (m : gmap bytes bytes) (b : BufferPool) : option (gmap bytes bytes * BufferPool) :=
  match metas with
  | [] => Some (m, b)
  | meta :: rest =>
      '(rows, b1) ← LoadSegment meta b;
      merge_segments rest (match rows with OK l => put_rows m l | Fault _ => m end) b1
  end.

Definition CoScan (c start_key : bytes) (limit : nat) (co : ColumnarLiteBackend) : option (list EngineRow * ColumnarLiteBackend) :=
  match co_collections co !! c with
  | None => Some ([], co)
  | Some st =>
      '(m, b) ← merge_segments (rev (segments st)) ∅ (co_store co);
      Some (from_key (put_rows m (in_order (open_rows st))) start_key limit, co_set_store b co)
  end.

(** ** Put *)
Definition CoPut (merge : bool) (c key doc : bytes) (co : ColumnarLiteBackend) : option (StatusOr unit * ColumnarLiteBackend) :=
  '(existing, co0) ← CoGet c key co;
  let old_cost := match existing with OK e => RecordCost key e | Fault _ => 0 end in
  match Charge merge old_cost (RecordCost key doc) (co_quota co0) with
  | (Fault e, _) => Some (Fault e, co0)
  | (OK _, q) =>
      let co1 := co_set_quota q co0 in
      let st := StateFor c co1 in
      let less := match open_rows st !! key with Some old => u64 (open_bytes st - (Zlen old + Zlen key)) | None => open_bytes st end in
      let st1 := mkColl (segments st) (<[key := doc]> (open_rows st)) (u64 (less + (Zlen doc + Zlen key))) (key_to_segment st) in
      let co2 := co_set_coll c st1 co1 in
      if (kColumnarRowsPerSegment <=? Z.of_nat (size (open_rows st1))) || (kColumnarBytesPerSegment <=? open_bytes st1)
      then Some (CoSealLocked c st1 co2) else Some (OK tt, co2)
  end.

(** ** Compaction *)
Fixpoint merge_all (metas : list ColumnarSegmentMeta) (m : gmap bytes bytes) (b : BufferPool) : option (StatusOr (gmap bytes bytes) * BufferPool) :=
  match metas with
  | [] => Some (OK m, b)
  | meta :: rest =>
      '(rows, b1) ← LoadSegment meta b;
      match rows with OK l => merge_all rest (put_rows m l) b1 | Fault e => Some (Fault e, b1) end
  end.

Definition CoCompact (c : bytes) (co : ColumnarLiteBackend) : option (StatusOr unit * ColumnarLiteBackend) :=
  match co_collections co !! c with
  | None => Some (OK tt, co)
  | Some st =>
      if (length (segments st) <? 2)%nat then Some (OK tt, co)
      else
        '(live, b) ← merge_all (rev (segments st)) ∅ (co_store co);
        let co1 := co_set_store b co in
        match live with
        | Fault e => Some (Fault e, co1)
        | OK m =>
            let rows := in_order m in
            if bool_decide (rows = []) then Some (CoSaveManifest (co_set_coll c (mkColl [] (open_rows st) (open_bytes st) ∅) co1))
            else
              let blob := EncodeSegment rows in
              match AppendBlob blob (co_store co1) with
              | (Fault e, b1) => Some (Fault e, co_set_store b1 co1)
              | (OK page, b1) =>
                  let meta := seg_meta c page rows blob (next_sequence_ co1) in
                  let index := fold_left (fun m r => <[r.1 := 0%nat]> m) rows ∅ in
                  let st' := mkColl [meta] (open_rows st) (open_bytes st) index in
                  Some (CoSaveManifest (co_charge_disk (co_set_coll c st' (co_next (co_set_store b1 co1)))))
              end
        end
  end.

(** ** Verification, flush and the rest *)
Fixpoint co_verify_segments (metas : list ColumnarSegmentMeta) (b : BufferPool) : StatusOr unit * BufferPool :=
  match metas with
  | [] => (OK tt, b)
  | meta :: rest =>
      match VerifyBlob (sm_first_page_id meta) b with
      | (Fault _, b1) => (Fault kCorruption, b1)
      | (OK _, b1) =>
          match ReadBlob (sm_first_page_id meta) b1 with
          | (Fault c, b2) => (Fault c, b2)
          | (OK blob, b2) =>
              match DecodeSegmentKeys blob with
              | Fault c => (Fault c, b2)
              | OK keys => if negb (Zlen keys =? sm_row_count meta) then (Fault kCorruption, b2) else co_verify_segments rest b2
              end
          end
      end
  end.

Definition CoVerify (co : ColumnarLiteBackend) : StatusOr unit * ColumnarLiteBackend :=
  let '(st, b) := co_verify_segments (concat (map (fun e => segments e.2) (map_to_list (co_collections co)))) (co_store co) in
  (st, co_set_store b co).

Fixpoint co_seal_all (l : list (bytes * CollectionState)) (co : ColumnarLiteBackend) : StatusOr unit * ColumnarLiteBackend :=
  match l with
  | [] => (OK tt, co)
  | (c, st) :: rest =>
      match CoSealLocked c st co with
      | (Fault e, co1) => (Fault e, co1)
      | (OK _, co1) => co_seal_all rest co1
      end
  end.

Definition CoFlush (co : ColumnarLiteBackend) : StatusOr unit * ColumnarLiteBackend :=
  match co_seal_all (map_to_list (co_collections co)) co with
  | (Fault e, co1) => (Fault e, co1)
  | (OK _, co1) =>
      let '(st, b) := FlushSegments (ev_sync (co_env co1 (co_saves co1))) (co_store co1) in (st, co_set_store b co1)
  end.

Definition CoListCollections (co : ColumnarLiteBackend) : list bytes := std_sort str_lt id (map_to_list (co_collections co)).*1.

Record Stats := mkStats { sealed_segments : Z; stat_open_rows : Z; logical_bytes : Z; encoded_bytes : Z }.

Definition StatsFor (c : bytes) (co : ColumnarLiteBackend) : Stats :=
  match co_collections co !! c with
  | None => mkStats 0 0 0 0
  | Some st => mkStats (Zlen (segments st)) (Z.of_nat (size (open_rows st))) (open_bytes st)
                 (fold_left (fun n m => u64 (n + sm_encoded_bytes m)) (segments st) 0)
  end.
End Columnar.
