(* ===== verification/Lsm.v ===== *)
(** * Levels of sealed rows

    What the engines over a segment store share: a key is in some of the sealed row sets,
    the newest one wins, an index remembers which that is, and merging the sets from the
    oldest on gives the same answer.  Also the disk key through the store's operations and
    sums over the collections. *)
From S2P Require Import Prelude Bytes Hlc Crdt CrdtMerge CrdtCodec AtRest AtRestFiles DiskManager BufferPool BufferPoolProps BPlusTree Pins SegmentStore Backend ColumnarCodec Columnar.
Local Open Scope Z_scope.

Abbreviation levels := (list (list EngineRow)).
Implicit Types (rows : list EngineRow) (k d c : bytes) (i : nat).

(** ** The newest row of a key *)
Fixpoint newest (L : levels) (k : bytes) : option bytes :=
  match L with [] => None | rows :: L' => match assoc k rows with Some d => Some d | None => newest L' k end end.

Fixpoint level_of (L : levels) (k : bytes) : option nat :=
  match L with [] => None | rows :: L' => match assoc k rows with Some _ => Some 0%nat | None => S <$> level_of L' k end end.

Lemma level_of_None (L : levels) k : level_of L k = None -> newest L k = None.
Proof. induction L as [|rows L IH]; [done|]. cbn. destruct (assoc k rows); [done|]. intros H%fmap_None. by apply IH. Qed.

Lemma level_of_Some (L : levels) k i : level_of L k = Some i -> exists rows d, L !! i = Some rows /\ assoc k rows = Some d /\ newest L k = Some d.
Proof.
  revert i. induction L as [|rows L IH]; intros i; [done|]. cbn. destruct (assoc k rows) as [d|] eqn:E.
  - intros [= <-]. by exists rows, d.
  - intros H. apply fmap_Some in H as (j & Hj & ->). by apply IH.
Qed.

Lemma put_rows_lookup (m : gmap bytes bytes) rows k :
  NoDup rows.*1 -> put_rows m rows !! k = match assoc k rows with Some d => Some d | None => m !! k end.
Proof.
  revert m. induction rows as [|[k' d] rows IH]; intros m Hn; [done|]. cbn in Hn. apply NoDup_cons in Hn as [Hni Hn].
  unfold put_rows in *. cbn [fold_left fst snd]. rewrite IH by done. cbn [assoc]. case_decide as Hk.
  - subst k'. rewrite (proj2 (assoc_None k rows)), lookup_insert_eq; done.
  - rewrite lookup_insert_ne by done. done.
Qed.

(** Merging from the oldest level on. *)
Definition merged (L : levels) : gmap bytes bytes := foldr (fun rows m => put_rows m rows) ∅ L.

Lemma merged_lookup (L : levels) k : Forall (fun rows => NoDup rows.*1) L -> merged L !! k = newest L k.
Proof. induction 1 as [|rows L Hn _ IH]; [apply lookup_empty|]. change (merged (rows :: L)) with (put_rows (merged L) rows). cbn [newest]. rewrite put_rows_lookup by done. by rewrite IH. Qed.

(** ** The index of a new level *)
Lemma fresh_index (m : gmap bytes nat) (rows : list EngineRow) k :
  fold_left (fun m r => <[r.1 := 0%nat]> m) rows m !! k = match assoc k rows with Some _ => Some 0%nat | None => m !! k end.
Proof.
  revert m. induction rows as [|[k' d] rows IH]; intros m; [done|]. cbn [fold_left fst]. rewrite IH. cbn [assoc].
  destruct (assoc k rows); case_decide as Hk; try done; [subst; by rewrite lookup_insert_eq|by rewrite lookup_insert_ne].
Qed.

Lemma level_of_cons (L : levels) rows (m : gmap bytes nat) k :
  (forall k, m !! k = level_of L k) -> fold_left (fun m r => <[r.1 := 0%nat]> m) rows (S <$> m) !! k = level_of (rows :: L) k.
Proof. intros H. rewrite fresh_index, lookup_fmap, H. cbn. by destruct (assoc k rows). Qed.

(** Building the index level by level, from the newest on. *)
Lemma emplace_keys i (m : gmap bytes nat) (rows : list EngineRow) k :
  fold_left (emplace_key i) rows.*1 m !! k = match m !! k with Some j => Some j | None => match assoc k rows with Some _ => Some i | None => None end end.
Proof.
  revert m. induction rows as [|[k' d] rows IH]; intros m; cbn [fmap list_fmap fst fold_left assoc]; [by destruct (m !! k)|].
  rewrite IH. unfold emplace_key. case_decide as Hk.
  - subst k'. destruct (m !! k) eqn:E; [by rewrite E|]. by rewrite lookup_insert_eq.
  - destruct (m !! k') eqn:E; [done|]. by rewrite lookup_insert_ne by done.
Qed.

(** ** A map in order *)
Lemma in_order_assoc (m : gmap bytes bytes) k : assoc k (in_order m) = m !! k.
Proof.
  unfold in_order. rewrite <- (assoc_map_to_list m k). apply assoc_perm; [|apply std_sort_perm]. rewrite std_sort_perm. apply NoDup_fst_map_to_list.
Qed.

Lemma in_order_NoDup (m : gmap bytes bytes) : NoDup (in_order m).*1.
Proof. unfold in_order. rewrite std_sort_perm. apply NoDup_fst_map_to_list. Qed.

Lemma in_order_nil (m : gmap bytes bytes) : in_order m = [] <-> m = ∅.
Proof.
  unfold in_order. split; [|by intros ->]. intros H. apply map_to_list_empty_iff. apply (f_equal length) in H. rewrite std_sort_length in H. by apply nil_length_inv.
Qed.

Lemma in_order_elem (m : gmap bytes bytes) r : r ∈ in_order m <-> m !! r.1 = Some r.2.
Proof. unfold in_order. rewrite std_sort_elem_of. destruct r as [k d]. apply elem_of_map_to_list. Qed.

(** ** Volumes *)
Lemma volume_nonneg rows : 0 <= volume rows.
Proof. pose proof (volume_rows rows). pose proof (Zlen_nonneg rows). lia. Qed.

#[export] Instance volume_proper : Proper ((≡ₚ) ==> eq) volume.
Proof. intros l1 l2 H. induction H as [|x l1 l2 _ IH|x y l|l1 l2 l3 _ IH1 _ IH2]; unfold volume in *; cbn [foldr]; [done|lia|lia|congruence]. Qed.

Lemma volume_pos rows : rows <> [] -> 32 <= volume rows.
Proof. intros H. pose proof (volume_rows rows) as [H1 _]. destruct rows; [done|]. unfold Zlen in H1. cbn [length] in H1. lia. Qed.

Definition map_volume (m : gmap bytes bytes) : Z := volume (map_to_list m).

Lemma in_order_volume (m : gmap bytes bytes) : volume (in_order m) = map_volume m.
Proof. unfold in_order, map_volume. by rewrite std_sort_perm. Qed.

Lemma map_volume_nonneg (m : gmap bytes bytes) : 0 <= map_volume m.
Proof. apply volume_nonneg. Qed.

Lemma RecordCost_nonneg k d : 32 <= RecordCost k d.
Proof. unfold RecordCost. pose proof (Zlen_nonneg k). pose proof (Zlen_nonneg d). lia. Qed.

Lemma map_volume_insert (m : gmap bytes bytes) k d : map_volume (<[k := d]> m) <= map_volume m + RecordCost k d.
Proof.
  rewrite <- insert_delete_eq. unfold map_volume. rewrite map_to_list_insert by apply lookup_delete_eq. cbn [volume foldr fst snd]. fold (volume (map_to_list (delete k m))).
  destruct (m !! k) as [d'|] eqn:E; [|rewrite delete_id by done; lia].
  pose proof (volume_proper _ _ (map_to_list_delete m k d' E)) as H. cbn [volume foldr fst snd] in H. fold (volume (map_to_list (delete k m))) in H.
  pose proof (RecordCost_nonneg k d'). lia.
Qed.

Lemma put_rows_volume (m : gmap bytes bytes) rows : map_volume (put_rows m rows) <= map_volume m + volume rows.
Proof.
  revert m. induction rows as [|[k d] rows IH]; intros m; [unfold put_rows; cbn; lia|]. unfold put_rows in *. cbn [fold_left fst snd volume foldr]. fold (volume rows).
  specialize (IH (<[k := d]> m)). pose proof (map_volume_insert m k d). lia.
Qed.

Definition levels_volume (L : levels) : Z := foldr (fun rows n => volume rows + n) 0 L.

Lemma levels_volume_nonneg (L : levels) : 0 <= levels_volume L.
Proof. induction L as [|rows L IH]; [done|]. cbn [levels_volume foldr]. fold (levels_volume L). pose proof (volume_nonneg rows). lia. Qed.

Lemma merged_volume (L : levels) : map_volume (merged L) <= levels_volume L.
Proof.
  induction L as [|rows L IH]; [done|]. change (merged (rows :: L)) with (put_rows (merged L) rows). cbn [levels_volume foldr]. fold (levels_volume L).
  pose proof (put_rows_volume (merged L) rows). lia.
Qed.

Lemma level_volume (L : levels) rows : rows ∈ L -> volume rows <= levels_volume L.
Proof.
  induction 1 as [rows L|rows x L _ IH]; cbn [levels_volume foldr]; fold (levels_volume L).
  - pose proof (levels_volume_nonneg L). lia.
  - pose proof (volume_nonneg x). lia.
Qed.

(** ** Sums over a map *)
Section Sums.
Context {A : Type} (f : A -> Z).

Definition msum (m : gmap bytes A) : Z := foldr (fun e n => f e.2 + n) 0 (map_to_list m).

Lemma msum_nonneg (m : gmap bytes A) : (forall x, 0 <= f x) -> 0 <= msum m.
Proof. intros H. unfold msum. induction (map_to_list m) as [|[c x] l IH]; cbn; [done|]. specialize (H x). lia. Qed.

Lemma sum_perm (l1 l2 : list (bytes * A)) : l1 ≡ₚ l2 -> foldr (fun e n => f e.2 + n) 0 l1 = foldr (fun e n => f e.2 + n) 0 l2.
Proof. induction 1; cbn; lia. Qed.

Lemma msum_delete (m : gmap bytes A) c x : m !! c = Some x -> msum m = f x + msum (delete c m).
Proof. intros H. unfold msum. rewrite <- (sum_perm _ _ (map_to_list_delete m c x H)). done. Qed.

Lemma msum_insert (m : gmap bytes A) c x : msum (<[c := x]> m) = f x + msum (delete c m).
Proof. rewrite (msum_delete _ c x) by apply lookup_insert_eq. by rewrite delete_insert_eq. Qed.

Lemma msum_update (m : gmap bytes A) c x : msum (<[c := x]> m) = msum m + f x - match m !! c with Some y => f y | None => 0 end.
Proof.
  rewrite msum_insert. destruct (m !! c) as [y|] eqn:E; [rewrite (msum_delete m c y E); lia|]. rewrite delete_id by done. lia.
Qed.
End Sums.

(** ** The disk key through the segment store *)
Section StoreKey.
Context `{C : Crypto}.

Lemma append_loop_key s i next first b : disk_key (disk_ (append_loop s i next first b).2) = disk_key (disk_ b).
Proof.
  revert next first b. induction i as [|i IH]; intros next first b; [done|]. cbn [append_loop]. pose proof (new_key b) as H.
  destruct (NewPage b) as [[[f id]|] b1]; [|done]. rewrite IH, unpin_key. done.
Qed.

Lemma append_key s b : disk_key (disk_ (AppendBlob s b).2) = disk_key (disk_ b).
Proof. apply append_loop_key. Qed.

Lemma read_key first b : disk_key (disk_ (ReadBlob first b).2) = disk_key (disk_ b).
Proof.
  unfold ReadBlob. generalize (@nil byte), (max_visits b). intros out left. revert first out b. induction left as [|left IH]; intros first out b; cbn [read_chain]; destruct (first =? kInvalidPageId); try done.
  pose proof (fetch_key first b) as H. destruct (FetchPage first b) as [[f|] b1]; [|done]. cbn [snd] in H. rewrite <- H.
  destruct (bad_header _); [destruct (_ =? 0); apply unpin_key|]. destruct (bad_chunk _); [apply unpin_key|]. rewrite IH. apply unpin_key.
Qed.

Lemma verify_key first b : disk_key (disk_ (VerifyBlob first b).2) = disk_key (disk_ b).
Proof.
  unfold VerifyBlob. generalize (max_visits b). intros left. revert first b. induction left as [|left IH]; intros first b; cbn [verify_chain]; destruct (first =? kInvalidPageId); try done.
  pose proof (fetch_key first b) as H. destruct (FetchPage first b) as [[f|] b1]; [|done]. cbn [snd] in H. rewrite <- H.
  destruct (_ || _); [apply unpin_key|]. rewrite IH. apply unpin_key.
Qed.
End StoreKey.

(** ** The store as an array of pages *)
Section Store.
Context `{C : Crypto} `{!CryptoLaws C} `{K : DiskKey}.

Record store_ok (b : BufferPool) (V : Z -> bytes) (n : Z) : Prop := {
  st_quiet : quiet b;
  st_count : pages_allocated b = n;
  st_view : forall j, 0 <= j < n -> view b j = V j;
  st_key : disk_key (disk_ b) = the_key;
}.

Lemma store_pos b V n : store_ok b V n -> 0 <= n.
Proof. intros [Hq <- _ _]. apply (pi_next _ _ _ (q_ok _ Hq)). Qed.

Lemma store_same b b' V n : store_ok b V n -> quiet b' -> same_pages b b' -> disk_key (disk_ b') = disk_key (disk_ b) -> store_ok b' V n.
Proof.
  intros [Hq Hc Hv Hk] Hq' [S1 S2 S3] Hk'. split; [done|by rewrite S2| |by rewrite Hk'].
  intros j Hj. rewrite S1 by lia. by apply Hv.
Qed.

Lemma store_blob b V n first s : store_ok b V n -> blob_at V n first s -> blob_at (view b) (pages_allocated b) first s.
Proof. intros [Hq Hc Hv _]. rewrite Hc. apply blob_at_frame; [done|lia]. Qed.

Lemma store_read b V n first s :
  store_ok b V n -> n <= 2 ^ 31 -> blob_at V n first s -> exists b', ReadBlob first b = (OK s, b') /\ store_ok b' V n.
Proof.
  intros Hs Hn Hb. pose proof (store_blob _ _ _ _ _ Hs Hb) as Hb'. destruct (read_blob_at s first b (st_quiet _ _ _ Hs)) as (b' & E & Q & S); [by rewrite (st_count _ _ _ Hs)|done|].
  exists b'. split; [done|]. eapply store_same; [done..|]. by rewrite <- (read_key first b), E.
Qed.

Lemma store_verify b V n first s :
  store_ok b V n -> n <= 2 ^ 31 -> blob_at V n first s -> exists b', VerifyBlob first b = (OK tt, b') /\ store_ok b' V n.
Proof.
  intros Hs Hn Hb. pose proof (store_blob _ _ _ _ _ Hs Hb) as Hb'. destruct (verify_blob_at s first b (st_quiet _ _ _ Hs)) as (b' & E & Q & S); [by rewrite (st_count _ _ _ Hs)|done|].
  exists b'. split; [done|]. eapply store_same; [done..|]. by rewrite <- (verify_key first b), E.
Qed.

Lemma store_append b V n s :
  store_ok b V n -> n + Z.of_nat (num_chunks s) <= 2 ^ 31 ->
  exists first b' V' n', AppendBlob s b = (OK first, b') /\ store_ok b' V' n' /\ n' = n + Z.of_nat (num_chunks s)
    /\ (forall j, 0 <= j < n -> V' j = V j) /\ blob_at V' n' first s.
Proof.
  intros Hs Hn. pose proof (st_count _ _ _ Hs) as Hc. destruct (append_blob_at s b (st_quiet _ _ _ Hs)) as (first & b' & E & Q & N & HV & B); [by rewrite Hc|].
  exists first, b', (view b'), (pages_allocated b'). split; [done|]. split; [split; [done..|by rewrite <- (st_key _ _ _ Hs), <- (append_key s b), E]|].
  split; [lia|]. split; [|done]. intros j Hj. rewrite HV by lia. by apply (st_view _ _ _ Hs).
Qed.

Lemma store_flush b V n :
  store_ok b V n -> store_ok (FlushAllPages b) V n /\ forall j, 0 <= j < n -> frame_view (disk_ (FlushAllPages b)) j = V j.
Proof.
  intros Hs. pose proof (st_quiet _ _ _ Hs) as [Hok Hp Hf]. destruct (FlushAllPages_spec b Hok) as (F1 & F2 & F3 & F4). split.
  - eapply store_same; [done| |done|apply flush_key]. split; [done| |rewrite (sp_size _ _ F2); done]. intros j Hj. rewrite F3 by done. by apply Hp.
  - intros j Hj. rewrite F4 by lia. by apply (st_view _ _ _ Hs).
Qed.
End Store.

(** Pages of a segment: no more than its volume, and at least one. *)
Lemma num_chunks_bound s v : Zlen s <= 34 + 6 * v -> 32 <= v -> 1 <= Z.of_nat (num_chunks s) <= v.
Proof.
  intros Hs Hv. pose proof (num_chunks_pos s). split; [lia|]. unfold num_chunks. unfold Zlen in Hs. destruct (Nat.eqb_spec (length s) 0); [lia|].
  pose proof payload_small as Hp. rewrite Nat2Z.inj_div. rewrite Nat2Z.inj_sub, Nat2Z.inj_add by lia. rewrite Hp. apply Z.div_le_upper_bound; lia.
Qed.
