(* ===== verification/ColumnarProps.v ===== *)
(** * The columnar engine is a map of documents

    The invariant relates each collection to its levels of sealed rows; budgets bound the
    bytes in play, the pages and the sequence numbers, so that no width is exceeded. *)
From S2P Require Import Prelude Bytes Hlc Json JsonText Crdt CrdtMerge CrdtCodec AtRest AtRestFiles DiskManager BufferPool BufferPoolProps BPlusTree Pins SegmentStore Catalog Backend KvBackend KvProps ColumnarCodec Columnar Lsm.
Local Open Scope Z_scope.

(** ** The invariant *)
Record seg_ok (V : Z -> bytes) (n : Z) (c : bytes) (meta : ColumnarSegmentMeta) (rows : list EngineRow) : Prop := {
  so_blob : blob_at V n (sm_first_page_id meta) (EncodeSegment rows);
  so_nonempty : rows <> [];
  so_nodup : NoDup rows.*1;
  so_collection : sm_collection meta = c;
  so_count : sm_row_count meta = Zlen rows;
  so_bytes : sm_encoded_bytes meta = Zlen (EncodeSegment rows);
}.

Record coll_ok (V : Z -> bytes) (n W next : Z) (c : bytes) (st : CollectionState) (L : levels) : Prop := {
  cl_segments : Forall2 (seg_ok V n c) (segments st) L;
  cl_index : forall k, key_to_segment st !! k = level_of L k;
  cl_volume : levels_volume L + map_volume (open_rows st) <= W;
  cl_newest : sorted_strict (fun a b => b <? a) sm_sequence (segments st);
  cl_sequences : Forall (fun meta => 0 <= sm_sequence meta < next) (segments st);
}.

Definition open_volume (co : ColumnarLiteBackend) : Z := msum (fun st => map_volume (open_rows st)) (co_collections co).

(** What a collection shows. *)
Definition coll_doc (st : CollectionState) (L : levels) (k : bytes) : option bytes :=
  match open_rows st !! k with Some d => Some d | None => newest L k end.

Section Invariant.
Context `{C : Crypto} `{!CryptoLaws C} `{K : DiskKey} `{St : KvStatic}.
Implicit Types (L : levels) (metas : list ColumnarSegmentMeta) (c k d : bytes) (st : CollectionState) (b : BufferPool) (co : ColumnarLiteBackend) (V : Z -> bytes) (G : bytes -> levels) (m : docs) (W B Q n : Z).

Record co_inv co V n G W B Q m : Prop := {
  ci_store : store_ok (co_store co) V n;
  ci_coll : forall c, coll_ok V n W (next_sequence_ co) c (StateFor c co) (G c);
  ci_live : forall c st, co_collections co !! c = Some st -> open_rows st <> ∅ \/ segments st <> [];
  ci_docs : forall c k, m !! (c, k) = coll_doc (StateFor c co) (G c) k;
  ci_pages : n + open_volume co <= B;
  ci_sequence : 1 <= next_sequence_ co /\ next_sequence_ co + open_volume co <= Q;
  ci_static : co_dek co = static_dek /\ co_env co = static_env;
}.

(** Widths that suffice. *)
Record room W B Q : Prop := { ro_volume : W <= 2 ^ 29; ro_pages : B <= 2 ^ 31; ro_sequence : Q < 2 ^ 63 }.

Lemma open_volume_nonneg co : 0 <= open_volume co.
Proof. apply msum_nonneg. intros st. apply map_volume_nonneg. Qed.

Lemma open_volume_coll co c : map_volume (open_rows (StateFor c co)) <= open_volume co.
Proof.
  unfold StateFor. destruct (co_collections co !! c) as [st|] eqn:E; cbn [default].
  - unfold open_volume. rewrite (msum_delete _ _ c st E). cbn. pose proof (msum_nonneg (fun st => map_volume (open_rows st)) (delete c (co_collections co)) (fun st => map_volume_nonneg (open_rows st))). lia.
  - apply open_volume_nonneg.
Qed.

Lemma StateFor_Some co c st : co_collections co !! c = Some st -> StateFor c co = st.
Proof. unfold StateFor. by intros ->. Qed.

Lemma StateFor_None co c : co_collections co !! c = None -> StateFor c co = new_coll.
Proof. unfold StateFor. by intros ->. Qed.

Lemma StateFor_set c st co c' : StateFor c' (co_set_coll c st co) = if decide (c' = c) then st else StateFor c' co.
Proof. unfold StateFor. cbn. case_decide as H; [subst; by rewrite lookup_insert_eq|by rewrite lookup_insert_ne]. Qed.

Lemma seg_frame V V' n n' c meta rows :
  (forall j, 0 <= j < n -> V' j = V j) -> n <= n' -> seg_ok V n c meta rows -> seg_ok V' n' c meta rows.
Proof. intros HV Hn [H1 H2 H3 H4 H5 H6]. split; try done. by eapply blob_at_frame. Qed.

Lemma coll_frame V V' n n' W W' next next' c st L :
  (forall j, 0 <= j < n -> V' j = V j) -> n <= n' -> W <= W' -> next <= next' -> coll_ok V n W next c st L -> coll_ok V' n' W' next' c st L.
Proof.
  intros HV Hn HW Hx [H1 H2 H3 H4 H5]. split; [|done|lia|done|].
  - eapply Forall2_impl; [exact H1|]. intros meta rows. by apply seg_frame.
  - eapply Forall_impl; [exact H5|]. cbn. lia.
Qed.

Lemma seg_rows_fit V n W next c st L rows :
  coll_ok V n W next c st L -> W <= 2 ^ 29 -> rows ∈ L -> DecodeSegment (EncodeSegment rows) = Some (OK rows) /\ DecodeSegmentKeys (EncodeSegment rows) = OK rows.*1.
Proof.
  intros [_ _ Hv _ _] HW Hin. apply level_volume in Hin. pose proof (map_volume_nonneg (open_rows st)).
  destruct (volume_fits rows ltac:(lia)) as [F1 F2]. split; [by apply segment_read|by apply segment_keys_read].
Qed.

(** The store alone changed. *)
Lemma co_inv_store co V n G W B Q m b : co_inv co V n G W B Q m -> store_ok b V n -> co_inv (co_set_store b co) V n G W B Q m.
Proof. intros [H1 H2 H3 H4 H5 H6 H7] Hb. by split. Qed.

Lemma co_inv_quota co V n G W B Q m q : co_inv co V n G W B Q m -> co_inv (co_set_quota q co) V n G W B Q m.
Proof. intros [H1 H2 H3 H4 H5 H6 H7]. by split. Qed.

Lemma co_save_inv co V n G W B Q m : co_inv co V n G W B Q m -> co_inv (CoSaveManifest co).2 V n G W B Q m.
Proof. intros [H1 H2 H3 H4 H5 H6 H7]. unfold CoSaveManifest. destruct (WriteSealedJsonFile _ _ _ _ _ _) as [st f]. by split. Qed.

(** ** Reading *)
Lemma LoadSegment_ok b V n W next c st L i meta rows :
  store_ok b V n -> n <= 2 ^ 31 -> coll_ok V n W next c st L -> W <= 2 ^ 29 -> segments st !! i = Some meta -> L !! i = Some rows ->
  exists b', LoadSegment meta b = Some (OK rows, b') /\ store_ok b' V n.
Proof.
  intros Hs Hn Hc HW Hm Hr. pose proof (Forall2_lookup_lr _ _ _ _ _ _ (cl_segments _ _ _ _ _ _ _ Hc) Hm Hr) as Hseg.
  destruct (store_read b V n _ _ Hs Hn (so_blob _ _ _ _ _ Hseg)) as (b' & E & Hs'). exists b'. split; [|done].
  unfold LoadSegment. rewrite E. destruct (seg_rows_fit _ _ _ _ _ _ _ rows Hc HW) as [-> _]; [by eapply list_elem_of_lookup_2|]. done.
Qed.

Lemma CoGet_ok c k co V n G W B Q m :
  co_inv co V n G W B Q m -> room W B Q ->
  exists b, CoGet c k co = Some (match m !! (c, k) with Some d => OK d | None => Fault kNotFound end, co_set_store b co) /\ store_ok b V n.
Proof.
  intros Hi [HW HB HQ]. pose proof (ci_store _ _ _ _ _ _ _ _ Hi) as Hs. rewrite (ci_docs _ _ _ _ _ _ _ _ Hi). pose proof (ci_coll _ _ _ _ _ _ _ _ Hi c) as Hc.
  pose proof (ci_pages _ _ _ _ _ _ _ _ Hi). pose proof (open_volume_nonneg co).
  assert (Hself : co_set_store (co_store co) co = co) by (by destruct co).
  unfold CoGet, coll_doc. destruct (co_collections co !! c) as [st|] eqn:Ec; [rewrite (StateFor_Some _ _ _ Ec) in *|rewrite (StateFor_None _ _ Ec) in *].
  2:{ exists (co_store co). rewrite Hself. pose proof (cl_segments _ _ _ _ _ _ _ Hc) as HL. apply Forall2_nil_inv_l in HL. rewrite HL. done. }
  destruct (open_rows st !! k) as [d|]; [exists (co_store co); by rewrite Hself|].
  destruct (key_to_segment st !! k) as [i|] eqn:Ei; rewrite (cl_index _ _ _ _ _ _ _ Hc) in Ei.
  - apply level_of_Some in Ei as (rows & d & HL & Ha & ->). destruct (Forall2_lookup_r _ _ _ _ _ (cl_segments _ _ _ _ _ _ _ Hc) HL) as (meta & Hm & _). rewrite Hm.
    destruct (LoadSegment_ok (co_store co) V n W _ c st (G c) i meta rows Hs ltac:(lia) Hc HW Hm HL) as (b & -> & Hb). cbn [mbind option_bind]. rewrite Ha. by exists b.
  - apply level_of_None in Ei as ->. exists (co_store co). by rewrite Hself.
Qed.

(** Merging the segments of a collection, oldest first. *)
Lemma merge_ok b V n c metas L (m0 : gmap bytes bytes) :
  store_ok b V n -> n <= 2 ^ 31 -> Forall2 (seg_ok V n c) metas L -> Forall (fun rows => volume rows <= 2 ^ 29) L ->
  exists b', merge_segments (rev metas) m0 b = Some (foldr (fun rows acc => put_rows acc rows) m0 L, b')
    /\ merge_all (rev metas) m0 b = Some (OK (foldr (fun rows acc => put_rows acc rows) m0 L), b') /\ store_ok b' V n.
Proof.
  intros Hs Hn HF Hv.
  assert (Hgo : forall metas' L' (m0 : gmap bytes bytes) b, Forall2 (seg_ok V n c) metas' L' -> Forall (fun rows => volume rows <= 2 ^ 29) L' -> store_ok b V n ->
    exists b', merge_segments metas' m0 b = Some (fold_left put_rows L' m0, b') /\ merge_all metas' m0 b = Some (OK (fold_left put_rows L' m0), b') /\ store_ok b' V n).
  { clear Hs HF Hv m0 b metas L. intros metas' L' m0 b HF. revert m0 b. induction HF as [|meta rows metas L Hseg _ IH]; intros m0 b Hv Hs; [by exists b|]. apply Forall_cons in Hv as [Hv1 Hv].
    destruct (store_read b V n _ _ Hs Hn (so_blob _ _ _ _ _ Hseg)) as (b1 & E & Hs1). destruct (volume_fits rows Hv1) as [F1 F2].
    cbn [merge_segments merge_all fold_left]. unfold LoadSegment. rewrite E, segment_read by done. cbn [mbind option_bind]. by apply IH. }
  destruct (Hgo (rev metas) (rev L) m0 b) as (b' & E1 & E2 & Hb); [rewrite !rev_alt; by apply Forall2_reverse|by apply Forall_rev|done|].
  exists b'. rewrite <- (rev_involutive L), fold_left_rev_right. done.
Qed.

(** The documents of a collection, as the scan collects them. *)
Definition coll_docs st L : gmap bytes bytes := put_rows (merged L) (in_order (open_rows st)).

Lemma coll_docs_lookup st L k : Forall (fun rows => NoDup rows.*1) L -> coll_docs st L !! k = coll_doc st L k.
Proof.
  intros HL. unfold coll_docs, coll_doc. rewrite put_rows_lookup by apply in_order_NoDup. rewrite in_order_assoc.
  destruct (open_rows st !! k); [done|]. by apply merged_lookup.
Qed.

Lemma levels_nodup V n W next c st L : coll_ok V n W next c st L -> Forall (fun rows => NoDup rows.*1) L.
Proof. intros [H _ _ _ _]. eapply Forall2_Forall_r; [exact H|]. apply Forall_forall. intros meta _ rows Hs. apply Hs. Qed.

Lemma levels_fit V n W next c st L : coll_ok V n W next c st L -> W <= 2 ^ 29 -> Forall (fun rows => volume rows <= 2 ^ 29) L.
Proof.
  intros H HW. apply Forall_forall. intros rows Hin. apply level_volume in Hin. pose proof (cl_volume _ _ _ _ _ _ _ H). pose proof (map_volume_nonneg (open_rows st)). lia.
Qed.

Lemma scan_rows_from m c (mc : gmap bytes bytes) start limit :
  (forall k, mc !! k = m !! (c, k)) -> from_key mc start limit = scan_rows m c start limit.
Proof.
  intros H. unfold from_key, scan_rows. assert (E : in_order mc = rows_of m c).
  { apply (assoc_sorted_ext str_lt); [apply std_sort_sorted; [apply _|apply NoDup_fst_map_to_list]|apply rows_of_sorted|].
    intros k. by rewrite in_order_assoc, rows_of_lookup. }
  by rewrite E.
Qed.
Lemma CoScan_ok c start limit co V n G W B Q m :
  co_inv co V n G W B Q m -> room W B Q ->
  exists b, CoScan c start limit co = Some (scan_rows m c start limit, co_set_store b co) /\ store_ok b V n.
Proof.
  intros Hi [HW HB HQ]. pose proof (ci_store _ _ _ _ _ _ _ _ Hi) as Hs. pose proof (ci_coll _ _ _ _ _ _ _ _ Hi c) as Hc.
  pose proof (ci_pages _ _ _ _ _ _ _ _ Hi). pose proof (open_volume_nonneg co).
  rewrite <- (scan_rows_from m c (coll_docs (StateFor c co) (G c)) start limit).
  2:{ intros k. rewrite coll_docs_lookup by (by eapply levels_nodup). symmetry. apply (ci_docs _ _ _ _ _ _ _ _ Hi). }
  unfold CoScan. destruct (co_collections co !! c) as [st|] eqn:Ec; [rewrite (StateFor_Some _ _ _ Ec) in *|rewrite (StateFor_None _ _ Ec) in *].
  - destruct (merge_ok (co_store co) V n c (segments st) (G c) ∅ Hs ltac:(lia) (cl_segments _ _ _ _ _ _ _ Hc)) as (b & -> & _ & Hb); [by eapply levels_fit|].
    cbn [mbind option_bind]. by exists b.
  - exists (co_store co). pose proof (cl_segments _ _ _ _ _ _ _ Hc) as HL. apply Forall2_nil_inv_l in HL. rewrite HL. split; [|done].
    unfold from_key. assert (Hself : co_set_store (co_store co) co = co) by (by destruct co). rewrite Hself. by destruct limit.
Qed.

(** ** Sealing *)
Lemma new_segment V n c first rows blob seq :
  rows <> [] -> NoDup rows.*1 -> blob = EncodeSegment rows -> blob_at V n first blob -> seg_ok V n c (seg_meta c first rows blob seq) rows.
Proof. intros H1 H2 -> H3. by split. Qed.

(** A change of one collection. *)
Lemma inv_coll co V n G W B Q m c st L co' V' n' W' B' Q' m' :
  co_inv co V n G W B Q m -> store_ok (co_store co') V' n' -> co_collections co' = <[c := st]> (co_collections co) -> (forall j, 0 <= j < n -> V' j = V j) -> n <= n' ->
  W <= W' -> next_sequence_ co <= next_sequence_ co' -> coll_ok V' n' W' (next_sequence_ co') c st L -> (open_rows st <> ∅ \/ segments st <> []) ->
  (forall c' k, m' !! (c', k) = if decide (c' = c) then coll_doc st L k else m !! (c', k)) -> n' + open_volume co' <= B' -> next_sequence_ co' + open_volume co' <= Q' ->
  co_dek co' = co_dek co -> co_env co' = co_env co -> co_inv co' V' n' (fun c' => if decide (c' = c) then L else G c') W' B' Q' m'.
Proof.
  intros Hi Hs Hcoll HV Hn HW Hx Hok Hl Hm HB HQ Hd He. destruct (ci_static _ _ _ _ _ _ _ _ Hi) as [S1 S2]. pose proof (ci_sequence _ _ _ _ _ _ _ _ Hi).
  assert (HSt : forall c', StateFor c' co' = if decide (c' = c) then st else StateFor c' co).
  { intros c'. unfold StateFor. rewrite Hcoll. case_decide as E; [subst; by rewrite lookup_insert_eq|by rewrite lookup_insert_ne]. }
  split; [done| | | |done|split; [lia|done]|by rewrite Hd, He].
  - intros c'. rewrite HSt. case_decide as E; [by subst|]. eapply coll_frame; [exact HV|done|done|done|]. apply (ci_coll _ _ _ _ _ _ _ _ Hi).
  - intros c' st'. rewrite Hcoll. destruct (decide (c' = c)) as [->|E]; [rewrite lookup_insert_eq; by intros [= <-]|rewrite lookup_insert_ne by done]. apply (ci_live _ _ _ _ _ _ _ _ Hi).
  - intros c' k. rewrite Hm, HSt. case_decide as E; [done|]. apply (ci_docs _ _ _ _ _ _ _ _ Hi).
Qed.

(** What a save leaves alone. *)
Lemma co_save_same co : let co' := (CoSaveManifest co).2 in
  co_store co' = co_store co /\ co_collections co' = co_collections co /\ next_sequence_ co' = next_sequence_ co /\ co_quota co' = co_quota co.
Proof. unfold CoSaveManifest. by destruct (WriteSealedJsonFile _ _ _ _ _ _). Qed.

Lemma co_save_status co : (CoSaveManifest co).1 = OK tt \/ (CoSaveManifest co).1 = Fault kIOError.
Proof. unfold CoSaveManifest. destruct (WriteSealedJsonFile _ _ _ _ _ _) as [[]]; auto. Qed.

(** The manifest on disk names the segments. *)
Definition manifest_ok co : Prop :=
  (co_manifest co = None /\ forall c, segments (StateFor c co) = [])
  \/ exists colls : gmap bytes CollectionState, ReadSealedJsonFile (co_manifest co) (co_dek co) (bs "columnar-manifest") = Some (OK (manifest_text colls))
       /\ forall c, segments (default new_coll (colls !! c)) = segments (StateFor c co).

Definition nonces_ok : Prop := forall i, length (se_nonce (ev_save (static_env i))) = kPageNonceLen.

Lemma manifest_text_starts colls : exists rest, manifest_text colls = Byte.x5b :: rest.
Proof. by eexists. Qed.

Lemma co_save_manifest co : co_env co = static_env -> nonces_ok -> (CoSaveManifest co).1 = OK tt -> manifest_ok (CoSaveManifest co).2.
Proof.
  intros He Hn. unfold CoSaveManifest. destruct (WriteSealedJsonFile _ _ _ _ _ _) as [[[]|e] file] eqn:E; cbn [fst snd]; [|done]. intros _. right.
  exists (co_collections co). split; [|done]. cbn. destruct (manifest_text_starts (co_collections co)) as [rest Ht].
  assert (Hne : manifest_text (co_collections co) <> []) by (by rewrite Ht).
  assert (Hls : LooksSealedFile (manifest_text (co_collections co)) = false) by (rewrite Ht; unfold LooksSealedFile; apply andb_false_r).
  rewrite He in E. by destruct (sealed_json_round_trip _ _ _ _ _ _ _ (Hn _) Hne Hls E) as [Hr _].
Qed.

(** Nothing the manifest names changed. *)
Lemma manifest_keeps co co' :
  co_manifest co' = co_manifest co -> co_dek co' = co_dek co -> (forall c, segments (StateFor c co') = segments (StateFor c co)) -> manifest_ok co -> manifest_ok co'.
Proof.
  intros H1 H2 H3 [[M1 M2]|(colls & M1 & M2)]; [left|right].
  - split; [by rewrite H1|]. intros c. by rewrite H3.
  - exists colls. rewrite H1, H2. split; [done|]. intros c. by rewrite H3.
Qed.

Definition unlimited_co co : bool := quota_bytes_ (co_quota co) =? 0.

Lemma CoSealLocked_ok c st co V n G W B Q m :
  co_inv co V n G W B Q m -> room W B Q -> co_collections co !! c = Some st ->
  exists r co' V' n' G', CoSealLocked c st co = (r, co') /\ co_inv co' V' n' G' W B Q m /\ (r = OK tt \/ r = Fault kIOError)
    /\ open_rows (StateFor c co') = ∅ /\ (forall c', c' <> c -> co_collections co' !! c' = co_collections co !! c')
    /\ unlimited_co co' = unlimited_co co /\ (nonces_ok -> r = OK tt -> manifest_ok co -> manifest_ok co').
Proof.
  intros Hi [HW HB HQ] Hst. pose proof (StateFor_Some _ _ _ Hst) as HS. unfold CoSealLocked. case_bool_decide as Ho.
  { exists (OK tt), co, V, n, G. rewrite HS. repeat (split; [by auto|]). done. }
  pose proof (ci_coll _ _ _ _ _ _ _ _ Hi c) as Hc. rewrite HS in Hc. pose proof (ci_sequence _ _ _ _ _ _ _ _ Hi) as [Hq1 Hq2]. pose proof (ci_pages _ _ _ _ _ _ _ _ Hi) as Hp.
  pose proof (open_volume_coll co c) as Hov. rewrite HS in Hov. set (rows := in_order (open_rows st)).
  assert (Hne : rows <> []) by (unfold rows; by rewrite in_order_nil). pose proof (volume_pos rows Hne) as Hv32.
  assert (Hvol : volume rows = map_volume (open_rows st)) by apply in_order_volume.
  pose proof (num_chunks_bound (EncodeSegment rows) (volume rows) (EncodeSegment_size rows) Hv32) as Hch.
  destruct (store_append (co_store co) V n (EncodeSegment rows) (ci_store _ _ _ _ _ _ _ _ Hi) ltac:(lia)) as (first & b & V' & n' & E & Hs & Hn' & HV & Hb).
  rewrite E. set (st' := mkColl _ _ _ _). set (co1 := co_charge_disk _).
  assert (Hov1 : open_volume co1 = open_volume co - map_volume (open_rows st)).
  { unfold open_volume, co1. cbn. rewrite msum_update, Hst. cbn beta iota. cbn [open_rows st']. change (map_volume ∅) with 0. lia. }
  assert (Hnext : next_sequence_ co1 = next_sequence_ co + 1) by (cbn; apply wrap_id; unfold fits; pose proof (open_volume_nonneg co); lia).
  assert (Hi1 : co_inv co1 V' n' (fun c' => if decide (c' = c) then rows :: G c else G c') W B Q m).
  { destruct Hc as [C1 C2 C3 C4 C5]. apply (inv_coll co V n G W B Q m c st' (rows :: G c) co1 V' n' W B Q m); try done; try lia; [|by right|].
    - rewrite Hnext. split; cbn [segments open_rows key_to_segment st'].
      + constructor; [by apply new_segment; [..|apply in_order_NoDup|done|done]|]. eapply Forall2_impl; [exact C1|]. intros meta rs. apply seg_frame; [done|lia].
      + intros k. by apply level_of_cons.
      + change (map_volume ∅) with 0. cbn [levels_volume foldr]. fold (levels_volume (G c)). lia.
      + constructor; [done|]. eapply Forall_impl; [exact C5|]. cbn. intros meta Hm. apply Z.ltb_lt. lia.
      + constructor; [cbn; lia|]. eapply Forall_impl; [exact C5|]. cbn. lia.
    - intros c' k. case_decide as Ec; [|done]. subst c'. rewrite (ci_docs _ _ _ _ _ _ _ _ Hi), HS. unfold coll_doc. cbn [open_rows st' newest]. rewrite lookup_empty.
      unfold rows. rewrite in_order_assoc. done. }
  destruct (co_save_same co1) as (S1 & S2 & S3 & S4). pose proof (co_save_status co1) as Hst1. pose proof (co_save_inv _ _ _ _ _ _ _ _ Hi1) as Hi2.
  pose proof (co_save_manifest co1 (proj2 (ci_static _ _ _ _ _ _ _ _ Hi1))) as Hman.
  destruct (CoSaveManifest co1) as [r co2]. cbn [fst snd] in *. eexists r, co2, V', n', _. split; [done|]. split; [exact Hi2|]. split; [done|].
  split; [unfold StateFor; rewrite S2; cbn; by rewrite lookup_insert_eq|]. split; [intros c' Hne'; rewrite S2; cbn; by rewrite lookup_insert_ne|].
  split; [unfold unlimited_co; by rewrite S4|]. auto.
Qed.

(** ** Put *)
Lemma open_put c k d co V n G W B Q m co1 st1 :
  co_inv co V n G W B Q m -> co_collections co1 = <[c := st1]> (co_collections co) -> co_store co1 = co_store co -> next_sequence_ co1 = next_sequence_ co ->
  co_dek co1 = co_dek co -> co_env co1 = co_env co -> segments st1 = segments (StateFor c co) -> key_to_segment st1 = key_to_segment (StateFor c co) ->
  open_rows st1 = <[k := d]> (open_rows (StateFor c co)) ->
  co_inv co1 V n (fun c' => if decide (c' = c) then G c else G c') (W + RecordCost k d) (B + RecordCost k d) (Q + RecordCost k d) (<[(c, k) := d]> m).
Proof.
  intros Hi Hcoll Hst Hnext Hdek Henv H1 H2 H3. pose proof (ci_coll _ _ _ _ _ _ _ _ Hi c) as [C1 C2 C3 C4 C5]. pose proof (RecordCost_nonneg k d) as Hr.
  pose proof (map_volume_insert (open_rows (StateFor c co)) k d) as Hv. pose proof (ci_sequence _ _ _ _ _ _ _ _ Hi) as [Q1 Q2]. pose proof (ci_pages _ _ _ _ _ _ _ _ Hi) as Hp.
  assert (Hov : open_volume co1 <= open_volume co + RecordCost k d).
  { unfold open_volume. rewrite Hcoll, msum_update. cbn beta. rewrite H3. destruct (co_collections co !! c) as [st|] eqn:Ec; [rewrite (StateFor_Some _ _ _ Ec) in *; lia|].
    rewrite (StateFor_None _ _ Ec) in *. change (map_volume (open_rows new_coll)) with 0 in Hv. lia. }
  apply (inv_coll co V n G W B Q m c st1 (G c) co1 V n); try done; try lia; [by rewrite Hst; apply Hi| | |].
  - split; [by rewrite H1|by rewrite H2|rewrite H3; lia|by rewrite H1|]. rewrite H1, Hnext. done.
  - left. rewrite H3. apply insert_non_empty.
  - intros c' k'. case_decide as Ec.
    + subst c'. unfold coll_doc. rewrite H3. destruct (decide (k' = k)) as [->|Hk]; [by rewrite !lookup_insert_eq|].
      rewrite lookup_insert_ne by congruence. rewrite lookup_insert_ne by done. apply (ci_docs _ _ _ _ _ _ _ _ Hi).
    + by rewrite lookup_insert_ne by congruence.
Qed.

Lemma CoPut_ok merge c k d co V n G W B Q m :
  co_inv co V n G W B Q m -> let cost := RecordCost k d in room (W + cost) (B + cost) (Q + cost) ->
  exists res co' V' n' G', CoPut merge c k d co = Some (res, co')
    /\ co_inv co' V' n' G' (W + cost) (B + cost) (Q + cost) (match res with Fault kOutOfSpace => m | _ => <[(c, k) := d]> m end)
    /\ (res = OK tt \/ res = Fault kOutOfSpace \/ res = Fault kIOError) /\ unlimited_co co' = unlimited_co co
    /\ (unlimited_co co = true -> res <> Fault kOutOfSpace)
    /\ (nonces_ok -> res <> Fault kIOError -> manifest_ok co -> manifest_ok co').
Proof.
  intros Hi cost Hroom. pose proof (RecordCost_nonneg k d) as Hr. fold cost in Hr.
  assert (Hroom0 : room W B Q) by (destruct Hroom; split; lia).
  destruct (CoGet_ok c k co V n G W B Q m Hi Hroom0) as (b & Eg & Hb). pose proof (co_inv_store _ _ _ _ _ _ _ _ _ Hi Hb) as Hi0.
  unfold CoPut. rewrite Eg. cbn [mbind option_bind]. set (old := match _ with OK e => RecordCost k e | Fault _ => 0 end). set (co0 := co_set_store b co) in *.
  destruct (Charge merge old (RecordCost k d) (co_quota co0)) as [[[]|e] q] eqn:Ech.
  2:{ assert (He : e = kOutOfSpace /\ unlimited_co co = false).
      { unfold Charge, charge_next, unlimited_co in *. change (co_quota co0) with (co_quota co) in Ech. destruct (_ <=? _); [done|]. destruct (_ =? 0); [done|]. destruct (_ <? _); [|done]. by simplify_eq. }
      destruct He as [-> Hu]. exists (Fault kOutOfSpace), co0, V, n, G. split; [done|]. split.
      { destruct Hi0 as [H1 H2 H3 H4 H5 [H6 H7] H8]. split; try done; [|lia|lia]. intros c'. eapply coll_frame; [..|apply H2]; [done|lia|lia|lia]. }
      split; [auto|]. split; [done|]. split; [by rewrite Hu|]. intros _ _. by apply manifest_keeps. }
  assert (Hq : quota_bytes_ q = quota_bytes_ (co_quota co)) by (unfold Charge in Ech; destruct (charge_next _ _ _ _ _); by simplify_eq).
  cbv zeta. change (StateFor c (co_set_quota q co0)) with (StateFor c co). set (st1 := mkColl (segments (StateFor c co)) _ _ _). set (co2 := co_set_coll c st1 (co_set_quota q co0)).
  assert (Hi2 : co_inv co2 V n (fun c' => if decide (c' = c) then G c else G c') (W + cost) (B + cost) (Q + cost) (<[(c, k) := d]> m)) by (by eapply open_put; [exact Hi0|..]).
  assert (Hu2 : unlimited_co co2 = unlimited_co co) by (unfold unlimited_co; cbn; by rewrite Hq).
  assert (Hm2 : manifest_ok co -> manifest_ok co2).
  { apply manifest_keeps; [done|done|]. intros c'. unfold co2. rewrite StateFor_set. case_decide as Ec; [by subst|done]. }
  destruct (_ || _).
  - destruct (CoSealLocked_ok c st1 co2 V n _ _ _ _ _ Hi2 Hroom) as (r & co' & V' & n' & G' & E & Hi' & Hr' & _ & _ & U & M); [cbn; apply lookup_insert_eq|].
    rewrite E. exists r, co', V', n', G'. split; [done|]. split; [destruct Hr' as [->| ->]; exact Hi'|]. split; [tauto|]. split; [congruence|].
    split; [by destruct Hr' as [->| ->]|]. intros Hn Hne Hm. apply M; [done| |auto]. by destruct Hr' as [->| ->].
  - eexists (OK tt), co2, V, n, _. split; [done|]. split; [exact Hi2|]. split; [auto|]. split; [done|]. split; [done|]. auto.
Qed.

(** Larger budgets. *)
Lemma inv_grow co V n G W B Q m W' B' Q' :
  co_inv co V n G W B Q m -> W <= W' -> B <= B' -> Q <= Q' -> co_inv co V n G W' B' Q' m.
Proof.
  intros [H1 H2 H3 H4 H5 [H6 H7] H8] HW HB HQ. split; try done; [|lia|lia]. intros c. eapply coll_frame; [..|apply H2]; [done|lia|lia|lia].
Qed.

(** ** Compaction *)
Lemma newest_one L k : Forall (fun rows => NoDup rows.*1) L -> newest [in_order (merged L)] k = newest L k.
Proof. intros HL. cbn [newest]. rewrite in_order_assoc, merged_lookup by done. by destruct (newest L k). Qed.

Lemma merged_nonempty V n c metas L : Forall2 (seg_ok V n c) metas L -> metas <> [] -> in_order (merged L) <> [].
Proof.
  intros HF Hne. destruct HF as [|meta rows metas L Hseg HF]; [done|]. rewrite in_order_nil. pose proof (so_nonempty _ _ _ _ _ Hseg) as Hr.
  destruct rows as [|[k d] rows]; [done|]. intros He. change (put_rows (merged L) ((k, d) :: rows) = ∅) in He. assert (Hl : put_rows (merged L) ((k, d) :: rows) !! k = None) by (by rewrite He).
  rewrite put_rows_lookup in Hl by apply Hseg. cbn [assoc] in Hl. by rewrite decide_True in Hl.
Qed.

Lemma CoCompact_ok c co V n G W B Q m :
  co_inv co V n G W B Q m -> 0 <= W -> room W (B + W) (Q + W) ->
  exists res co' V' n' G', CoCompact c co = Some (res, co') /\ co_inv co' V' n' G' W (B + W) (Q + W) m
    /\ (res = OK tt \/ res = Fault kIOError) /\ unlimited_co co' = unlimited_co co /\ (nonces_ok -> res = OK tt -> manifest_ok co -> manifest_ok co').
Proof.
  intros Hi HW0 [HW HB HQ]. pose proof (inv_grow _ _ _ _ _ _ _ _ W (B + W) (Q + W) Hi ltac:(lia) ltac:(lia) ltac:(lia)) as Hi0.
  pose proof (ci_coll _ _ _ _ _ _ _ _ Hi c) as Hc. pose proof (ci_sequence _ _ _ _ _ _ _ _ Hi) as [Hq1 Hq2]. pose proof (ci_pages _ _ _ _ _ _ _ _ Hi) as Hp. pose proof (open_volume_nonneg co) as Ho.
  assert (Hsame : exists res co' V' n' G', Some (OK tt, co) = Some (res, co') /\ co_inv co' V' n' G' W (B + W) (Q + W) m
    /\ (res = OK tt \/ res = Fault kIOError) /\ unlimited_co co' = unlimited_co co /\ (nonces_ok -> res = OK tt -> manifest_ok co -> manifest_ok co')).
  { exists (OK tt), co, V, n, G. split; [done|]. split; [done|]. split; [by left|]. done. }
  unfold CoCompact. destruct (co_collections co !! c) as [st|] eqn:Ec; [|exact Hsame]. rewrite (StateFor_Some _ _ _ Ec) in Hc.
  destruct (Nat.ltb_spec (length (segments st)) 2) as [Hlt|Hge]; [exact Hsame|]. clear Hsame.
  destruct (merge_ok (co_store co) V n c (segments st) (G c) ∅ (ci_store _ _ _ _ _ _ _ _ Hi) ltac:(lia) (cl_segments _ _ _ _ _ _ _ Hc)) as (b & _ & E & Hb); [by eapply levels_fit|].
  rewrite E. cbn [mbind option_bind]. fold (merged (G c)). set (rows := in_order (merged (G c))).
  assert (Hne : rows <> []) by (eapply merged_nonempty; [apply Hc|]; intros Hnil; rewrite Hnil in Hge; cbn in Hge; lia).
  rewrite bool_decide_eq_false_2 by done. pose proof (volume_pos rows Hne) as Hv32.
  assert (Hvol : volume rows <= levels_volume (G c)) by (unfold rows; rewrite in_order_volume; apply merged_volume).
  pose proof (cl_volume _ _ _ _ _ _ _ Hc) as HvW. pose proof (map_volume_nonneg (open_rows st)) as Hv0.
  pose proof (num_chunks_bound (EncodeSegment rows) (volume rows) (EncodeSegment_size rows) Hv32) as Hch.
  destruct (store_append b V n (EncodeSegment rows) Hb ltac:(lia)) as (first & b1 & V' & n' & Ea & Hs & Hn' & HV & Hblob).
  change (co_store (co_set_store b co)) with b. rewrite Ea. set (st' := mkColl _ _ _ _). set (co1 := co_charge_disk _).
  assert (Hov1 : open_volume co1 = open_volume co).
  { unfold open_volume, co1. cbn. rewrite msum_update, Ec. cbn beta iota. cbn [open_rows st']. lia. }
  assert (Hnext : next_sequence_ co1 = next_sequence_ co + 1) by (cbn; apply wrap_id; unfold fits; lia).
  assert (Hi1 : co_inv co1 V' n' (fun c' => if decide (c' = c) then [rows] else G c') W (B + W) (Q + W) m).
  { pose proof (levels_nodup _ _ _ _ _ _ _ Hc) as Hnd. destruct Hc as [C1 C2 C3 C4 C5].
    apply (inv_coll co V n G W B Q m c st' [rows] co1 V' n' W (B + W) (Q + W) m); try done; try lia; [|by right|].
    - rewrite Hnext. split; cbn [segments open_rows key_to_segment st'].
      + constructor; [by apply new_segment; [..|apply in_order_NoDup|done|done]|constructor].
      + intros k. rewrite fresh_index, lookup_empty. cbn. by destruct (assoc k rows).
      + cbn [levels_volume foldr]. lia.
      + constructor; [constructor|done].
      + constructor; [cbn; lia|constructor].
    - intros c' k. case_decide as Ec'; [|done]. subst c'. rewrite (ci_docs _ _ _ _ _ _ _ _ Hi), (StateFor_Some _ _ _ Ec). unfold coll_doc. cbn [open_rows st'].
      unfold rows. by rewrite newest_one. }
  destruct (co_save_same co1) as (S1 & S2 & S3 & S4). pose proof (co_save_status co1) as Hst1. pose proof (co_save_inv _ _ _ _ _ _ _ _ Hi1) as Hi2.
  pose proof (co_save_manifest co1 (proj2 (ci_static _ _ _ _ _ _ _ _ Hi1))) as Hman.
  destruct (CoSaveManifest co1) as [r co2]. cbn [fst snd] in *. eexists r, co2, V', n', _. split; [done|]. split; [exact Hi2|]. split; [done|].
  split; [unfold unlimited_co; by rewrite S4|]. auto.
Qed.

(** ** Verification *)
Lemma verify_segments_ok b V n c metas L :
  store_ok b V n -> n <= 2 ^ 31 -> Forall2 (seg_ok V n c) metas L -> Forall (fun rows => volume rows <= 2 ^ 29) L ->
  exists b', (forall rest, co_verify_segments (metas ++ rest) b = co_verify_segments rest b') /\ store_ok b' V n.
Proof.
  intros Hs Hn HF. revert b Hs. induction HF as [|meta rows metas L Hseg _ IH]; intros b Hs Hv; [by exists b|]. apply Forall_cons in Hv as [Hv1 Hv].
  destruct (store_verify b V n _ _ Hs Hn (so_blob _ _ _ _ _ Hseg)) as (b1 & E1 & Hs1). destruct (store_read b1 V n _ _ Hs1 Hn (so_blob _ _ _ _ _ Hseg)) as (b2 & E2 & Hs2).
  destruct (volume_fits rows Hv1) as [F1 F2]. destruct (IH b2 Hs2 Hv) as (b3 & E3 & Hs3). exists b3. split; [|done]. intros rest. cbn [app co_verify_segments].
  rewrite E1, E2, segment_keys_read by done. unfold Zlen at 1. rewrite length_fmap. rewrite (so_count _ _ _ _ _ Hseg). unfold Zlen. rewrite Z.eqb_refl. cbn [negb]. apply E3.
Qed.

Lemma CoVerify_ok co V n G W B Q m :
  co_inv co V n G W B Q m -> room W B Q -> exists b, CoVerify co = (OK tt, co_set_store b co) /\ store_ok b V n.
Proof.
  intros Hi [HW HB HQ]. pose proof (ci_pages _ _ _ _ _ _ _ _ Hi). pose proof (open_volume_nonneg co). unfold CoVerify.
  assert (Hgo : forall l b, (forall c st, (c, st) ∈ l -> co_collections co !! c = Some st) -> store_ok b V n ->
            exists b', co_verify_segments (concat (map (fun e => segments e.2) l)) b = (OK tt, b') /\ store_ok b' V n).
  { induction l as [|[c st] l IH]; intros b Hl Hs; [by exists b|]. cbn [map concat snd]. assert (Hst : co_collections co !! c = Some st) by (apply Hl; left).
    pose proof (ci_coll _ _ _ _ _ _ _ _ Hi c) as Hc. rewrite (StateFor_Some _ _ _ Hst) in Hc.
    destruct (verify_segments_ok b V n c (segments st) (G c) Hs ltac:(lia) (cl_segments _ _ _ _ _ _ _ Hc)) as (b1 & E & Hs1); [by eapply levels_fit|].
    rewrite E. apply IH; [|done]. intros c' st' Hin. apply Hl. by right. }
  destruct (Hgo (map_to_list (co_collections co)) (co_store co)) as (b & -> & Hb); [intros c st; by rewrite elem_of_map_to_list|apply Hi|]. by exists b.
Qed.

(** ** Flush *)
Lemma seal_all_ok l co V n G W B Q m :
  co_inv co V n G W B Q m -> room W B Q -> NoDup l.*1 -> (forall c st, (c, st) ∈ l -> co_collections co !! c = Some st) ->
  exists r co' V' n' G', co_seal_all l co = (r, co') /\ co_inv co' V' n' G' W B Q m /\ (r = OK tt \/ r = Fault kIOError) /\ unlimited_co co' = unlimited_co co
    /\ (nonces_ok -> r = OK tt -> manifest_ok co -> manifest_ok co') /\ (r = OK tt -> forall c, c ∈ l.*1 -> open_rows (StateFor c co') = ∅)
    /\ (forall c, c ∉ l.*1 -> co_collections co' !! c = co_collections co !! c).
Proof.
  intros Hi Hroom. revert co V n G Hi. induction l as [|[c st] l IH]; intros co V n G Hi Hnd Hl.
  { exists (OK tt), co, V, n, G. split; [done|]. split; [done|]. split; [by left|]. split; [done|]. split; [done|]. split; [set_solver|done]. }
  cbn in Hnd. apply NoDup_cons in Hnd as [Hni Hnd]. cbn [co_seal_all].
  destruct (CoSealLocked_ok c st co V n G W B Q m Hi Hroom ltac:(apply Hl; left)) as (r & co1 & V1 & n1 & G1 & -> & Hi1 & Hr & Ho & Hoth & U & M).
  destruct r as [[]|e].
  2:{ exists (Fault e), co1, V1, n1, G1. split; [done|]. split; [done|]. split; [done|]. split; [done|]. split; [done|]. split; [done|]. intros c' Hc'. apply Hoth. cbn in Hc'. set_solver. }
  destruct (IH co1 V1 n1 G1 Hi1 Hnd) as (r & co2 & V2 & n2 & G2 & -> & Hi2 & Hr2' & U2 & M2 & O2 & Hoth2).
  { intros c' st' Hin. rewrite Hoth; [apply Hl; by right|]. intros ->. apply Hni. by apply (list_elem_of_fmap_2 fst _ (c, st')). }
  exists r, co2, V2, n2, G2. split; [done|]. split; [done|]. split; [done|]. split; [congruence|]. split; [auto|]. split.
  - intros Hr2 c' [->|Hin]%elem_of_cons; [|by apply O2]. unfold StateFor in *. by rewrite Hoth2.
  - intros c' Hc'. cbn in Hc'. rewrite Hoth2 by set_solver. apply Hoth. set_solver.
Qed.

Lemma CoFlush_ok co V n G W B Q m :
  co_inv co V n G W B Q m -> room W B Q ->
  exists r co' V' n' G', CoFlush co = (r, co') /\ co_inv co' V' n' G' W B Q m /\ (r = OK tt \/ r = Fault kIOError) /\ unlimited_co co' = unlimited_co co
    /\ (nonces_ok -> r = OK tt -> manifest_ok co -> manifest_ok co')
    /\ (r = OK tt -> (forall c, open_rows (StateFor c co') = ∅) /\ forall j, 0 <= j < n' -> frame_view (disk_ (co_store co')) j = V' j).
Proof.
  intros Hi Hroom. unfold CoFlush.
  destruct (seal_all_ok (map_to_list (co_collections co)) co V n G W B Q m Hi Hroom) as (r & co1 & V1 & n1 & G1 & -> & Hi1 & Hr & U & M & O & Hoth);
    [apply NoDup_fst_map_to_list|intros c st; by rewrite elem_of_map_to_list|].
  destruct r as [[]|e]; [|exists (Fault e), co1, V1, n1, G1; by repeat (split; [done|])].
  unfold FlushSegments. destruct (store_flush _ _ _ (ci_store _ _ _ _ _ _ _ _ Hi1)) as [Hs Hv].
  eexists _, _, V1, n1, G1. split; [done|]. split; [by apply co_inv_store|]. split; [unfold SyncDisk; destruct (ev_sync _); auto|]. split; [done|]. split.
  - intros Hn _ Hm. specialize (M Hn eq_refl Hm). revert M. by apply manifest_keeps.
  - intros _. split; [|exact Hv]. intros c. change (open_rows (StateFor c co1) = ∅).
    destruct (decide (c ∈ (map_to_list (co_collections co)).*1)) as [Hin|Hni]; [by apply O|].
    rewrite StateFor_None; [done|]. rewrite Hoth by done. apply not_elem_of_list_to_map in Hni. by rewrite list_to_map_to_list in Hni.
Qed.
End Invariant.
