(* ===== verification/ColumnarRefine.v ===== *)
(** * Runs of the columnar engine

    Any sequence of operations on a new engine, against a map of documents. *)
From S2P Require Import Prelude Bytes Hlc Json JsonText Crdt CrdtMerge CrdtCodec AtRest AtRestFiles DiskManager BufferPool BufferPoolProps BPlusTree Pins SegmentStore Catalog Backend KvBackend KvProps ColumnarCodec Columnar Lsm ColumnarProps.
Local Open Scope Z_scope.

(** ** Operations *)
Inductive co_op :=
  | CPut (merge : bool) (c k d : bytes)
  | CGet (c k : bytes)
  | CScan (c start : bytes) (limit : nat)
  | CSeal (c : bytes)
  | CCompact (c : bytes)
  | CVerify
  | CFlush
  | CList.

Inductive co_answer := CStatus (st : StatusOr unit) | CDoc (d : StatusOr bytes) | CRows (rows : list EngineRow) | CNames (l : list bytes).

Definition op_volume (o : co_op) : Z := match o with CPut _ _ k d => RecordCost k d | _ => 0 end.
Definition ops_volume (ops : list co_op) : Z := foldr (fun o n => op_volume o + n) 0 ops.

(** The collections that hold a document, in order. *)
Definition names_of (m : docs) : list bytes := std_sort str_lt id (elements (set_map fst (dom m) : gset bytes)).

(** A put stores unless the quota refuses it; an I/O error says that the manifest was not
    written, the document is stored all the same.  Sealing, compaction, verification and
    flushes change no document. *)
Inductive co_allows (unlimited : bool) : co_op -> co_answer -> docs -> docs -> Prop :=
  | co_allow_put merge c k d st (m : docs) :
      st = OK tt \/ st = Fault kOutOfSpace \/ st = Fault kIOError -> (unlimited = true -> st <> Fault kOutOfSpace) ->
      co_allows unlimited (CPut merge c k d) (CStatus st) m (match st with Fault kOutOfSpace => m | _ => <[(c, k) := d]> m end)
  | co_allow_get c k (m : docs) :
      co_allows unlimited (CGet c k) (CDoc (match m !! (c, k) with Some d => OK d | None => Fault kNotFound end)) m m
  | co_allow_scan c start limit (m : docs) : co_allows unlimited (CScan c start limit) (CRows (scan_rows m c start limit)) m m
  | co_allow_seal c st (m : docs) : st = OK tt \/ st = Fault kIOError -> co_allows unlimited (CSeal c) (CStatus st) m m
  | co_allow_compact c st (m : docs) : st = OK tt \/ st = Fault kIOError -> co_allows unlimited (CCompact c) (CStatus st) m m
  | co_allow_verify (m : docs) : co_allows unlimited CVerify (CStatus (OK tt)) m m
  | co_allow_flush st (m : docs) : co_allows unlimited CFlush (CStatus st) m m
  | co_allow_list (m : docs) : co_allows unlimited CList (CNames (names_of m)) m m.

Inductive co_trace (unlimited : bool) : list co_op -> list co_answer -> docs -> docs -> Prop :=
  | co_trace_nil m : co_trace unlimited [] [] m m
  | co_trace_cons o a ops answers m1 m2 m3 :
      co_allows unlimited o a m1 m2 -> co_trace unlimited ops answers m2 m3 -> co_trace unlimited (o :: ops) (a :: answers) m1 m3.

Section Runs.
Context `{C : Crypto} `{!CryptoLaws C} `{K : DiskKey} `{St : KvStatic}.
Implicit Types (L : levels) (metas : list ColumnarSegmentMeta) (c k d : bytes) (st : CollectionState) (b : BufferPool) (co : ColumnarLiteBackend) (V : Z -> bytes) (G : bytes -> levels) (m : docs) (W B Q n : Z).

Definition co_step (o : co_op) co : option (co_answer * ColumnarLiteBackend) :=
  match o with
  | CPut merge c k d => '(st, co') ← CoPut merge c k d co; Some (CStatus st, co')
  | CGet c k => '(d, co') ← CoGet c k co; Some (CDoc d, co')
  | CScan c start limit => '(rows, co') ← CoScan c start limit co; Some (CRows rows, co')
  | CSeal c => let '(st, co') := SealOpenSegment c co in Some (CStatus st, co')
  | CCompact c => '(st, co') ← CoCompact c co; Some (CStatus st, co')
  | CVerify => let '(st, co') := CoVerify co in Some (CStatus st, co')
  | CFlush => let '(st, co') := CoFlush co in Some (CStatus st, co')
  | CList => Some (CNames (CoListCollections co), co)
  end.

Fixpoint co_run (ops : list co_op) co : option (list co_answer * ColumnarLiteBackend) :=
  match ops with
  | [] => Some ([], co)
  | o :: rest => '(a, co1) ← co_step o co; '(answers, co2) ← co_run rest co1; Some (a :: answers, co2)
  end.

Lemma newest_some V n c metas L : Forall2 (seg_ok V n c) metas L -> metas <> [] -> exists k d, newest L k = Some d.
Proof.
  intros HF Hne. destruct HF as [|meta rows metas L Hseg _]; [done|]. pose proof (so_nonempty _ _ _ _ _ Hseg) as Hr. destruct rows as [|[k d] rows]; [done|].
  exists k, d. cbn. by rewrite decide_True.
Qed.

Lemma list_ok co V n G W B Q m : co_inv co V n G W B Q m -> CoListCollections co = names_of m.
Proof.
  intros Hi. unfold CoListCollections, names_of. apply std_sort_proper; [apply _|rewrite list_fmap_id; apply NoDup_fst_map_to_list|].
  apply NoDup_Permutation; [apply NoDup_fst_map_to_list|apply NoDup_elements|]. intros c. rewrite elem_of_elements, elem_of_map. split.
  - intros Hin. apply list_elem_of_fmap in Hin as ([c' st] & -> & Hin). apply elem_of_map_to_list in Hin. cbn [fst].
    assert (Hx : exists k, is_Some (m !! (c', k))).
    { pose proof (ci_coll _ _ _ _ _ _ _ _ Hi c') as Hc. rewrite (StateFor_Some _ _ _ Hin) in Hc.
      destruct (ci_live _ _ _ _ _ _ _ _ Hi c' st Hin) as [Ho|Hs].
      - apply map_choose in Ho as (k & d & Hk). exists k. rewrite (ci_docs _ _ _ _ _ _ _ _ Hi), (StateFor_Some _ _ _ Hin). unfold coll_doc. rewrite Hk. by eexists.
      - destruct (newest_some V n c' _ _ (cl_segments _ _ _ _ _ _ _ Hc) Hs) as (k & d & Hk). exists k.
        rewrite (ci_docs _ _ _ _ _ _ _ _ Hi), (StateFor_Some _ _ _ Hin). unfold coll_doc. rewrite Hk. by destruct (open_rows st !! k). }
    destruct Hx as [k Hk]. exists (c', k). split; [done|]. by apply elem_of_dom.
  - intros ([c' k] & -> & Hk). apply elem_of_dom in Hk as [d Hd]. cbn [fst]. rewrite (ci_docs _ _ _ _ _ _ _ _ Hi) in Hd. unfold StateFor in Hd.
    destruct (co_collections co !! c') as [st|] eqn:Ec; [apply (list_elem_of_fmap_2 fst _ (c', st)); by apply elem_of_map_to_list|].
    pose proof (ci_coll _ _ _ _ _ _ _ _ Hi c') as Hc. rewrite (StateFor_None _ _ Ec) in Hc. pose proof (cl_segments _ _ _ _ _ _ _ Hc) as HL. apply Forall2_nil_inv_l in HL.
    rewrite HL in Hd. cbn in Hd. done.
Qed.

Lemma ops_volume_nonneg ops : 0 <= ops_volume ops.
Proof.
  induction ops as [|o ops IH]; [done|]. cbn [ops_volume foldr]. fold (ops_volume ops). destruct o; cbn [op_volume]; try lia. pose proof (RecordCost_nonneg k d). lia.
Qed.

(** One step, with budgets that every operation keeps to. *)
Lemma co_step_ok o co V n G W B Q m T :
  co_inv co V n G W B Q m -> 0 <= W -> W + op_volume o <= T -> room T (B + T) (Q + T) ->
  exists a co' V' n' G' m', co_step o co = Some (a, co') /\ co_inv co' V' n' G' (W + op_volume o) (B + T) (Q + T) m' /\ co_allows (unlimited_co co) o a m m'
    /\ unlimited_co co' = unlimited_co co /\ (nonces_ok -> a <> CStatus (Fault kIOError) -> manifest_ok co -> manifest_ok co').
Proof.
  intros Hi HW0 HT [R1 R2 R3]. assert (Hvol : 0 <= op_volume o) by (pose proof (ops_volume_nonneg [o]) as H; cbn [ops_volume foldr] in H; lia).
  assert (Hroom : room W B Q) by (split; lia).
  pose proof (inv_grow _ _ _ _ _ _ _ _ (W + op_volume o) (B + T) (Q + T) Hi ltac:(lia) ltac:(lia) ltac:(lia)) as Hg.
  destruct o as [merge c k d|c k|c start limit|c|c| | |]; cbn [co_step op_volume] in *.
  - destruct (CoPut_ok merge c k d co V n G W B Q m Hi) as (res & co' & V' & n' & G' & -> & Hi' & Hr & U & Hu & M); [split; lia|]. cbn [mbind option_bind].
    eexists _, co', V', n', G', _. split; [done|]. split; [eapply inv_grow; [exact Hi'|lia..]|]. split; [by constructor|]. split; [done|]. intros Hn Ha. apply M; [done|]. congruence.
  - destruct (CoGet_ok c k co V n G W B Q m Hi Hroom) as (b & -> & Hb). cbn [mbind option_bind].
    eexists _, _, V, n, G, m. split; [done|]. split; [by apply co_inv_store|]. split; [constructor|]. split; [done|]. intros _ _. by apply manifest_keeps.
  - destruct (CoScan_ok c start limit co V n G W B Q m Hi Hroom) as (b & -> & Hb). cbn [mbind option_bind].
    eexists _, _, V, n, G, m. split; [done|]. split; [by apply co_inv_store|]. split; [constructor|]. split; [done|]. intros _ _. by apply manifest_keeps.
  - unfold SealOpenSegment. destruct (co_collections co !! c) as [st|] eqn:Ec.
    + destruct (CoSealLocked_ok c st co V n G W B Q m Hi Hroom Ec) as (r & co' & V' & n' & G' & -> & Hi' & Hr & _ & _ & U & M).
      eexists _, co', V', n', G', m. split; [done|]. split; [eapply inv_grow; [exact Hi'|lia..]|]. split; [by constructor|]. split; [done|].
      intros Hn Ha. apply M; [done|]. destruct Hr as [->| ->]; [done|]. by destruct Ha.
    + eexists _, co, V, n, G, m. split; [done|]. split; [done|]. split; [constructor; by left|]. done.
  - destruct (CoCompact_ok c co V n G W B Q m Hi HW0) as (r & co' & V' & n' & G' & -> & Hi' & Hr & U & M); [split; lia|]. cbn [mbind option_bind].
    eexists _, co', V', n', G', m. split; [done|]. split; [eapply inv_grow; [exact Hi'|lia..]|]. split; [by constructor|]. split; [done|].
    intros Hn Ha. apply M; [done|]. destruct Hr as [->| ->]; [done|]. by destruct Ha.
  - destruct (CoVerify_ok co V n G W B Q m Hi Hroom) as (b & -> & Hb).
    eexists _, _, V, n, G, m. split; [done|]. split; [by apply co_inv_store|]. split; [constructor|]. split; [done|]. intros _ _. by apply manifest_keeps.
  - destruct (CoFlush_ok co V n G W B Q m Hi Hroom) as (r & co' & V' & n' & G' & -> & Hi' & Hr & U & M & _).
    eexists _, co', V', n', G', m. split; [done|]. split; [eapply inv_grow; [exact Hi'|lia..]|]. split; [constructor|]. split; [done|].
    intros Hn Ha. apply M; [done|]. destruct Hr as [->| ->]; [done|]. by destruct Ha.
  - eexists _, co, V, n, G, m. split; [done|]. split; [done|]. split; [|done]. rewrite (list_ok _ _ _ _ _ _ _ _ Hi). constructor.
Qed.

Lemma co_run_ok ops co V n G W B Q m T :
  co_inv co V n G W B Q m -> 0 <= W -> W + ops_volume ops <= T -> room T (B + Zlen ops * T) (Q + Zlen ops * T) ->
  exists answers co' V' n' G' m', co_run ops co = Some (answers, co') /\ co_inv co' V' n' G' (W + ops_volume ops) (B + Zlen ops * T) (Q + Zlen ops * T) m'
    /\ co_trace (unlimited_co co) ops answers m m'
    /\ (nonces_ok -> CStatus (Fault kIOError) ∉ answers -> manifest_ok co -> manifest_ok co').
Proof.
  revert co V n G W B Q m. induction ops as [|o ops IH]; intros co V n G W B Q m Hi HW0 HT Hroom; cbn [co_run].
  - exists [], co, V, n, G, m. split; [done|]. split; [eapply inv_grow; [exact Hi|unfold ops_volume, Zlen; cbn; lia..]|]. split; [constructor|done].
  - assert (Hz : Zlen (o :: ops) = Zlen ops + 1) by (unfold Zlen; cbn [length]; lia). rewrite Hz in *. cbn [ops_volume foldr] in *. fold (ops_volume ops) in *.
    pose proof (ops_volume_nonneg ops). pose proof (Zlen_nonneg ops).
    assert (Hvol : 0 <= op_volume o) by (pose proof (ops_volume_nonneg [o]) as H'; cbn [ops_volume foldr] in H'; lia). destruct Hroom as [R1 R2 R3].
    destruct (co_step_ok o co V n G W B Q m T Hi HW0 ltac:(lia)) as (a & co1 & V1 & n1 & G1 & m1 & -> & Hi1 & A & U & M1); [split; nia|]. cbn [mbind option_bind].
    destruct (IH co1 V1 n1 G1 _ _ _ m1 Hi1 ltac:(lia) ltac:(lia)) as (as' & co2 & V2 & n2 & G2 & m2 & -> & Hi2 & Tr & M2); [split; nia|]. cbn [mbind option_bind].
    exists (a :: as'), co2, V2, n2, G2, m2. split; [done|]. split; [eapply inv_grow; [exact Hi2|nia..]|]. split; [rewrite U in Tr; by econstructor|].
    intros Hn Hni Hm. rewrite not_elem_of_cons in Hni. destruct Hni as [Hn1 Hn2]. apply M2; [done|done|]. apply M1; [done|congruence|done].
Qed.
End Runs.

(** ** A new engine *)
Section Engine.
Context `{C : Crypto} `{!CryptoLaws C}.
Implicit Types (L : levels) (metas : list ColumnarSegmentMeta) (c k : bytes) (d : DiskManager) (st : CollectionState) (b : BufferPool) (co : ColumnarLiteBackend) (V : Z -> bytes) (G : bytes -> levels) (m : docs) (W B Q n : Z).

Lemma new_store_ok (d : DiskManager) frames : disk_ok d -> 0 <= next_page_id_ d -> (0 < frames)%nat ->
  store_ok (K := disk_key d) (new_pool frames d) (view (new_pool frames d)) (next_page_id_ d).
Proof.
  intros Hd Hn Hf. split; [|done|done|done]. split; [by apply new_pool_ok|done|]. cbn. by rewrite length_replicate.
Qed.

Definition fresh_co (dek : bytes) (manifest : option bytes) (b : BufferPool) (quota_mb : Z) (events : nat -> kv_event) : ColumnarLiteBackend :=
  mkColumnar dek manifest b 1 ∅ (mkQuota (u64 (quota_mb * 1024 * 1024)) (BytesOnDisk b)) events 0.

(** Nothing in it. *)
Lemma empty_inv (d : DiskManager) dek manifest quota_mb events :
  disk_ok d -> 0 <= next_page_id_ d ->
  co_inv (K := disk_key d) (St := {| static_dek := dek; static_env := events |}) (fresh_co dek manifest (new_pool 256 d) quota_mb events)
    (view (new_pool 256 d)) (next_page_id_ d) (fun _ => []) 0 (next_page_id_ d) 1 ∅.
Proof.
  intros Hd Hn. split; [apply new_store_ok; [done|done|lia]| |done|done|change (open_volume _) with 0; lia|change (open_volume _) with 0; cbn; lia|done].
  intros c. split; [constructor|done|done|constructor|constructor].
Qed.

Lemma OpenColumnar_inv made env wenv events file hdr manifest quota_mb dek co files :
  OpenColumnar made env wenv events file hdr manifest quota_mb dek = Some (OK co, files) ->
  exists d, OpenDisk env wenv file hdr dek = (OK d, files) /\ CoLoadManifest (fresh_co dek manifest (new_pool 256 d) quota_mb events) = Some (OK co) /\ bad_dek dek = false.
Proof.
  unfold OpenColumnar, OpenSegments. destruct (bad_dek dek) eqn:Eb; [done|]. destruct made; [|done]. cbn [negb].
  destruct (negb _ && negb _); [done|]. destruct (OpenDisk env wenv file hdr dek) as [[d|e] fs]; [|done]. cbv zeta. fold (fresh_co dek manifest (new_pool 256 d) quota_mb events).
  destruct (CoLoadManifest _) as [[co'|e]|] eqn:E; [|done|done]. intros [= <- <-]. by exists d.
Qed.

Lemma open_new_inv made env wenv events quota_mb dek co files :
  OpenColumnar made env wenv events None None None quota_mb dek = Some (OK co, files) -> disk_ok (disk_ (co_store co)) ->
  co_inv (K := disk_key (disk_ (co_store co))) (St := {| static_dek := dek; static_env := events |}) co (view (co_store co)) 0 (fun _ => []) 0 0 1 ∅
  /\ unlimited_co co = (u64 (quota_mb * 1024 * 1024) =? 0) /\ manifest_ok co /\ OpenDisk env wenv None None dek = (OK (disk_ (co_store co)), files) /\ bad_dek dek = false.
Proof.
  intros Ho Hd. destruct (OpenColumnar_inv _ _ _ _ _ _ _ _ _ _ _ Ho) as (d & Ed & El & Hb).
  unfold CoLoadManifest, ReadSealedJsonFile in El. cbn [co_dek co_manifest fresh_co] in El. rewrite Hb in El. cbn in El. injection El as <-.
  change (disk_ (co_store _)) with d in *. pose proof (OpenDisk_empty _ _ _ _ _ Ed) as Hn. pose proof (empty_inv d dek None quota_mb events Hd ltac:(lia)) as Hi. rewrite Hn in Hi.
  split; [exact Hi|]. split; [done|]. split; [by left|]. done.
Qed.

(** C21: a new columnar engine answers every run of puts, gets, scans, seals, compactions,
    verifications, flushes and listings as a map of documents does, whatever its key and
    quota and whichever writes of the manifest fail. Conditions: the volume put in all
    (keys, documents and 32 bytes each) is at most 2^29 bytes and its product with the
    number of operations at most 2^31, a bound on the pages that compactions can write;
    every page write succeeds and zeroes do not pass as a sealed page. Beyond, segments can
    become unreadable ([oversized_segment_unreadable]). *)
Theorem columnar_engine_refines made env wenv events quota_mb dek co files ops :
  OpenColumnar made env wenv events None None None quota_mb dek = Some (OK co, files) ->
  disk_ok (disk_ (co_store co)) -> ops_volume ops <= 2 ^ 29 -> Zlen ops * ops_volume ops <= 2 ^ 31 ->
  exists answers co' m, co_run ops co = Some (answers, co') /\ co_trace (u64 (quota_mb * 1024 * 1024) =? 0) ops answers ∅ m.
Proof.
  intros Ho Hd Hv Hn. destruct (open_new_inv _ _ _ _ _ _ _ _ Ho Hd) as (Hi & <- & _).
  destruct (co_run_ok (K := disk_key (disk_ (co_store co))) (St := {| static_dek := dek; static_env := events |}) ops co _ _ _ _ _ _ _ (ops_volume ops) Hi)
    as (answers & co' & V' & n' & G' & m' & E & _ & T & _); [lia|lia|split; lia|]. by exists answers, co', m'.
Qed.
End Engine.
