(* ===== verification/ColumnarRestart.v ===== *)
(** * The columnar engine after a restart

    Loading a manifest gives back the segments it was written from, and reading the key
    column of each gives back the index. *)
From S2P Require Import Prelude Bytes Hlc Json JsonText Crdt CrdtMerge CrdtCodec AtRest AtRestFiles DiskManager BufferPool BufferPoolProps BPlusTree Pins SegmentStore Catalog Backend KvBackend KvProps ColumnarCodec Columnar Lsm ColumnarProps ColumnarRefine KvRefine.
Local Open Scope Z_scope.

(** ** Entries of the manifest *)
Record meta_ok (meta : ColumnarSegmentMeta) : Prop := {
  mo_page : sfits 32 (sm_first_page_id meta);
  mo_rows : 0 <= sm_row_count meta < 2 ^ 63;
  mo_bytes : 0 <= sm_encoded_bytes meta < 2 ^ 63;
  mo_sequence : 0 <= sm_sequence meta < 2 ^ 63;
}.

Lemma signed_small z : 0 <= z < 2 ^ 63 -> to_signed 64 z = z /\ u64 z = z.
Proof.
  intros H. split; [|apply wrap_id; unfold fits; lia]. unfold to_signed. change (64 - 1) with 63. rewrite (proj2 (Z.ltb_lt _ _)) by lia. done.
Qed.

Lemma json_meta_json meta : meta_ok meta -> json_meta (meta_json meta) = meta.
Proof.
  intros [H1 H2 H3 H4]. destruct (signed_small _ H2) as [A1 B1], (signed_small _ H3) as [A2 B2], (signed_small _ H4) as [A3 B3].
  destruct meta as [c f r e lo hi s]. cbn [sm_row_count sm_encoded_bytes sm_sequence sm_first_page_id] in *.
  assert (E : json_meta (meta_json (mkSegMeta c f r e lo hi s)) = mkSegMeta c (to_signed 32 (u32 f)) (u64 (to_signed 64 r)) (u64 (to_signed 64 e)) lo hi (u64 (to_signed 64 s))) by reflexivity.
  rewrite E, A1, A2, A3, B1, B2, B3. unfold u32. by rewrite to_signed_wrap.
Qed.

Lemma meta_json_plain meta : meta_ok meta -> no_double (meta_json meta) = true.
Proof.
  intros [H1 H2 H3 H4]. destruct (signed_small _ H2) as [A1 _], (signed_small _ H3) as [A2 _], (signed_small _ H4) as [A3 _].
  unfold meta_json. rewrite A1, A2, A3. unfold sfits in H1. change (32 - 1) with 31 in H1. cbn [no_double forallb snd andb]. repeat (apply andb_true_iff; split); try done; lia.
Qed.

#[export] Instance descending_strict : StrictTotal (fun x y : Z => y <? x).
Proof.
  split.
  - intros x. apply Z.ltb_irrefl.
  - intros x y z H1%Z.ltb_lt H2%Z.ltb_lt. apply Z.ltb_lt. lia.
  - intros x y H1%Z.ltb_ge H2%Z.ltb_ge. lia.
Qed.

(** ** The collections a manifest lists *)
Definition metas_of (c : bytes) (l : list ColumnarSegmentMeta) : list ColumnarSegmentMeta := filter (fun meta => sm_collection meta = c) l.

Lemma load_fold (ms : list ColumnarSegmentMeta) (x : Z) (m0 : gmap bytes CollectionState) :
  Forall meta_ok ms ->
  let '(next, colls) := fold_left load_meta (map meta_json ms) (x, m0) in
  x <= next /\ Forall (fun meta => sm_sequence meta < next) ms /\ (forall y, x <= y -> Forall (fun meta => sm_sequence meta < y) ms -> next <= y)
  /\ forall c, colls !! c = match metas_of c ms with
                          | [] => m0 !! c
                          | l => let st := default new_coll (m0 !! c) in Some (mkColl (segments st ++ l) (open_rows st) (open_bytes st) (key_to_segment st))
                          end.
Proof.
  intros Hms. revert x m0. induction Hms as [|meta ms Hm _ IH]; intros x m0; [cbn; split; [lia|]; by split; [constructor|]|].
  cbn [map fold_left]. unfold load_meta at 2. rewrite json_meta_json by done. cbn [fst snd].
  assert (Hu : u64 (sm_sequence meta + 1) = sm_sequence meta + 1) by (apply wrap_id; unfold fits; pose proof (mo_sequence _ Hm); lia). rewrite Hu.
  set (st := default new_coll (m0 !! sm_collection meta)). set (m1 := <[_ := _]> m0). specialize (IH (Z.max x (sm_sequence meta + 1)) m1).
  destruct (fold_left load_meta _ _) as [next colls]. destruct IH as (H1 & H2 & H3 & H4). split; [lia|]. split; [constructor; [lia|done]|]. split.
  { intros y Hy Hf. apply Forall_cons in Hf as [Hf1 Hf2]. apply H3; [lia|done]. }
  intros c. rewrite H4. unfold metas_of. rewrite filter_cons. case_decide as Hc.
  - subst c. unfold m1. rewrite lookup_insert_eq. destruct (filter _ ms) as [|meta' l]; [done|]. cbn [default from_option id segments open_rows open_bytes key_to_segment].
    fold st. by rewrite <- app_assoc.
  - unfold m1. rewrite lookup_insert_ne by done. done.
Qed.

(** The entries of a map written one collection after the other. *)
Lemma metas_of_concat (l : list (bytes * CollectionState)) c :
  NoDup l.*1 -> (forall c st, (c, st) ∈ l -> Forall (fun meta => sm_collection meta = c) (segments st)) ->
  metas_of c (concat (map (fun e => segments e.2) l)) = segments (default new_coll (assoc c l)).
Proof.
  unfold metas_of. induction l as [|[c' st] l IH]; intros Hn Hl; [done|]. cbn in Hn. apply NoDup_cons in Hn as [Hni Hn]. cbn [map concat snd assoc]. rewrite filter_app.
  pose proof (Hl c' st ltac:(left)) as Hst. rewrite IH; [|done|intros c0 st0 Hin; apply Hl; by right]. case_decide as Hc.
  - subst c'. rewrite (proj2 (assoc_None c l)) by done. cbn [default from_option id segments new_coll]. rewrite app_nil_r.
    clear -Hst. induction Hst as [|meta metas Hm _ IHm]; [done|]. rewrite filter_cons, decide_True by done. by rewrite IHm.
  - replace (filter (fun meta => sm_collection meta = c) (segments st)) with (@nil ColumnarSegmentMeta); [done|].
    clear -Hst Hc. induction Hst as [|meta metas Hm _ IHm]; [done|]. rewrite filter_cons, decide_False by congruence. done.
Qed.

Lemma manifest_text_map (colls : gmap bytes CollectionState) :
  manifest_text colls = Dump (JArray (map meta_json (concat (map (fun e => segments e.2) (map_to_list colls))))).
Proof. unfold manifest_text. by rewrite concat_map, map_map. Qed.

Section Reload.
Context `{C : Crypto} `{!CryptoLaws C} `{K : DiskKey}.
Implicit Types (L : levels) (metas : list ColumnarSegmentMeta) (c k : bytes) (st : CollectionState) (b : BufferPool) (V : Z -> bytes) (G : bytes -> levels) (n : Z).

(** ** The index of a collection *)
Lemma index_segments_ok (i : nat) metas L (m0 : gmap bytes nat) b V n c :
  store_ok b V n -> n <= 2 ^ 31 -> Forall2 (seg_ok V n c) metas L -> Forall (fun rows => volume rows <= 2 ^ 29) L ->
  exists index b', index_segments i metas m0 b = (OK index, b') /\ store_ok b' V n
    /\ forall k, index !! k = match m0 !! k with Some j => Some j | None => Nat.add i <$> level_of L k end.
Proof.
  intros Hs Hn HF. revert i m0 b Hs. induction HF as [|meta rows metas L Hseg _ IH]; intros i m0 b Hs Hv.
  { exists m0, b. split; [done|]. split; [done|]. intros k. by destruct (m0 !! k). }
  apply Forall_cons in Hv as [Hv1 Hv]. destruct (volume_fits rows Hv1) as [F1 F2]. cbn [index_segments].
  destruct (store_read b V n _ _ Hs Hn (so_blob _ _ _ _ _ Hseg)) as (b1 & -> & Hs1). rewrite segment_keys_read by done.
  destruct (IH (S i) (fold_left (emplace_key i) rows.*1 m0) b1 Hs1 Hv) as (index & b2 & E & Hs2 & Hix). exists index, b2. split; [done|]. split; [done|].
  intros k. rewrite Hix, emplace_keys. destruct (m0 !! k); [done|]. cbn [level_of]. destruct (assoc k rows); cbn; [f_equal; lia|].
  destruct (level_of L k) as [j|]; cbn; [f_equal; lia|done].
Qed.

Lemma index_collections_ok (l : list (bytes * CollectionState)) (out : gmap bytes CollectionState) b V n G :
  store_ok b V n -> n <= 2 ^ 31 -> NoDup l.*1 ->
  (forall c st, (c, st) ∈ l -> Forall2 (seg_ok V n c) (segments st) (G c) /\ Forall (fun rows => volume rows <= 2 ^ 29) (G c)
     /\ sorted_strict (fun x y => y <? x) sm_sequence (segments st) /\ key_to_segment st = ∅) ->
  exists out' b', index_collections l out b = (OK out', b') /\ store_ok b' V n
    /\ forall c, match assoc c l with
                 | Some st => exists index, out' !! c = Some (mkColl (segments st) (open_rows st) (open_bytes st) index) /\ forall k, index !! k = level_of (G c) k
                 | None => out' !! c = out !! c
                 end.
Proof.
  intros Hs Hn. revert out b Hs. induction l as [|[c st] l IH]; intros out b Hs Hnd Hl; [by exists out, b|].
  cbn in Hnd. apply NoDup_cons in Hnd as [Hni Hnd]. cbn [index_collections]. destruct (Hl c st ltac:(left)) as (L1 & L2 & L3 & L4).
  unfold co_newest_first. rewrite std_sort_id by (exact L3 || apply _). rewrite L4.
  destruct (index_segments_ok 0 (segments st) (G c) ∅ b V n c Hs Hn L1 L2) as (index & b1 & -> & Hs1 & Hix).
  destruct (IH (<[c := mkColl (segments st) (open_rows st) (open_bytes st) index]> out) b1 Hs1 Hnd) as (out' & b2 & -> & Hs2 & Hout).
  { intros c' st' Hin. apply Hl. by right. }
  exists out', b2. split; [done|]. split; [done|]. intros c'. specialize (Hout c'). cbn [assoc]. case_decide as Hc.
  - subst c'. rewrite (proj2 (assoc_None c l)) in Hout by done. rewrite lookup_insert_eq in Hout. exists index. split; [done|]. intros k. rewrite Hix, lookup_empty.
    by destruct (level_of (G c) k).
  - destruct (assoc c' l); [done|]. by rewrite lookup_insert_ne in Hout.
Qed.
(** ** Pages that hold something are in the file *)
Lemma chain_page_nonzero V id cs : chain V id cs -> 0 <= id -> id <= 2 ^ 31 -> V id <> zero_page.
Proof.
  intros Hc H0 Hm. destruct Hc as [|id next c cs _ Hn Hl Hp _]; [unfold kInvalidPageId in H0; lia|]. rewrite Hp. intros Hz.
  assert (Hs : sfits 32 next) by (unfold sfits; change (2 ^ (32 - 1)) with (2 ^ 31); lia).
  pose proof (seg_page_header c next Hl Hs) as H. rewrite Hz, zero_header in H. done.
Qed.

Lemma blob_reopen V V2 n n2 first s :
  blob_at V n first s -> n <= 2 ^ 31 -> (forall j, 0 <= j < n -> V2 j = V j) -> (forall j, 0 <= j -> n2 <= j -> V2 j = zero_page) -> blob_at V2 n2 first s.
Proof.
  intros (cs & Hc & E & Hf) Hn HV Hz. exists cs.
  assert (Hc2 : chain V2 first cs) by (eapply chain_ext; [|exact Hc]; intros j Hj; apply HV; lia). split; [done|]. split; [done|]. split; [lia|].
  destruct (Z.lt_ge_cases first n2) as [|Hge]; [done|]. exfalso. eapply (chain_page_nonzero V2); [exact Hc2|lia|lia|]. apply Hz; lia.
Qed.

Lemma seg_reopen V V2 n n2 c meta rows :
  seg_ok V n c meta rows -> n <= 2 ^ 31 -> (forall j, 0 <= j < n -> V2 j = V j) -> (forall j, 0 <= j -> n2 <= j -> V2 j = zero_page) -> seg_ok V2 n2 c meta rows.
Proof. intros [H1 H2 H3 H4 H5 H6] Hn HV Hz. split; try done. by eapply blob_reopen. Qed.

Lemma seg_meta_ok V n c meta rows next :
  seg_ok V n c meta rows -> n <= 2 ^ 31 -> volume rows <= 2 ^ 29 -> 0 <= sm_sequence meta < next -> next <= 2 ^ 63 -> meta_ok meta.
Proof.
  intros [(cs & _ & _ & Hf) _ _ _ H5 H6] Hn Hv Hs Hx. pose proof (volume_rows rows). pose proof (Zlen_nonneg rows). pose proof (EncodeSegment_size rows). pose proof (Zlen_nonneg (EncodeSegment rows)).
  split; [unfold sfits; change (2 ^ (32 - 1)) with (2 ^ 31); lia|rewrite H5; lia|rewrite H6; lia|lia].
Qed.
End Reload.

Lemma msum_zero {A} (f : A -> Z) (m : gmap bytes A) : map_Forall (fun _ x => f x = 0) m -> msum f m = 0.
Proof.
  intros H. unfold msum. assert (Hl : Forall (fun e => f e.2 = 0) (map_to_list m)) by (apply Forall_forall; intros [c x] Hin; by apply (H c x), elem_of_map_to_list).
  induction Hl as [|e l He _ IH]; cbn; lia.
Qed.

Section Restart.
Context `{C : Crypto} `{!CryptoLaws C}.

Section Load.
Context `{K : DiskKey} `{St : KvStatic}.
Variables (co : ColumnarLiteBackend) (V : Z -> bytes) (n : Z) (G : bytes -> levels) (W B Q : Z) (m : docs).
Hypothesis Hi : co_inv co V n G W B Q m.
Hypothesis Hroom : room W B Q.
Hypothesis Hclosed : forall c, open_rows (StateFor c co) = ∅.
Variables (d : DiskManager) (quota_mb : Z) (events : nat -> kv_event).
Hypothesis Hd : disk_ok d.
Hypothesis Hn0 : 0 <= next_page_id_ d.
Hypothesis Hn2 : next_page_id_ d <= 2 ^ 31.
Hypothesis Hview : forall j, 0 <= j < n -> view (new_pool 256 d) j = V j.
Hypothesis Hzero : forall j, 0 <= j -> next_page_id_ d <= j -> view (new_pool 256 d) j = zero_page.

Lemma pages_fit : n <= 2 ^ 31.
Proof. pose proof (ci_pages _ _ _ _ _ _ _ _ Hi). pose proof (open_volume_nonneg co). destruct Hroom. lia. Qed.

Lemma volume_room c : Forall (fun rows => volume rows <= 2 ^ 29) (G c) /\ 0 <= W.
Proof.
  pose proof (ci_coll _ _ _ _ _ _ _ _ Hi c) as Hc. pose proof (cl_volume _ _ _ _ _ _ _ Hc). pose proof (levels_volume_nonneg (G c)). pose proof (map_volume_nonneg (open_rows (StateFor c co))).
  destruct Hroom. split; [by eapply levels_fit|lia].
Qed.

Lemma segments_reopen c : Forall2 (seg_ok (view (new_pool 256 d)) (next_page_id_ d) c) (segments (StateFor c co)) (G c).
Proof.
  eapply Forall2_impl; [apply (ci_coll _ _ _ _ _ _ _ _ Hi c)|]. intros meta rows Hs. eapply seg_reopen; [exact Hs|apply pages_fit|done|done].
Qed.

Lemma docs_sealed c k : m !! (c, k) = newest (G c) k.
Proof. rewrite (ci_docs _ _ _ _ _ _ _ _ Hi). unfold coll_doc. by rewrite Hclosed. Qed.

Lemma segments_meta_ok c : Forall meta_ok (segments (StateFor c co)) /\ Forall (fun meta => sm_collection meta = c) (segments (StateFor c co)).
Proof.
  pose proof (ci_coll _ _ _ _ _ _ _ _ Hi c) as Hc. destruct (volume_room c) as [Hv _]. pose proof (cl_sequences _ _ _ _ _ _ _ Hc) as Hs. pose proof (ci_sequence _ _ _ _ _ _ _ _ Hi) as [_ Hq].
  pose proof (open_volume_nonneg co). pose proof pages_fit. destruct Hroom as [_ _ R]. destruct Hc as [HF _ _ _ _]. induction HF as [|meta rows metas L Hseg _ IH]; [by split|].
  apply Forall_cons in Hv as [Hv1 Hv], Hs as [Hs1 Hs]. destruct (IH Hv Hs). split; constructor; try done; [|apply Hseg]. eapply seg_meta_ok; [exact Hseg|done|done|exact Hs1|lia].
Qed.

(** A collection as it was, with nothing open. *)
Definition reloaded (next : Z) (c : bytes) (o : option CollectionState) : Prop :=
  match o with
  | None => segments (StateFor c co) = []
  | Some st => exists index, st = mkColl (segments (StateFor c co)) ∅ 0 index /\ segments (StateFor c co) <> [] /\ (forall k, index !! k = level_of (G c) k)
                 /\ Forall (fun meta => sm_sequence meta < next) (segments (StateFor c co))
  end.

Lemma reloaded_inv co2 :
  store_ok (K := disk_key d) (co_store co2) (view (new_pool 256 d)) (next_page_id_ d) -> (forall c, reloaded (next_sequence_ co2) c (co_collections co2 !! c)) ->
  1 <= next_sequence_ co2 <= next_sequence_ co -> co_env co2 = events -> co_dek co2 = co_dek co ->
  co_inv (K := disk_key d) (St := {| static_dek := co_dek co; static_env := events |}) co2 (view (new_pool 256 d)) (next_page_id_ d) G W (next_page_id_ d) Q m.
Proof.
  intros Hs Hc Hnext He Hdk. pose proof (ci_sequence _ _ _ _ _ _ _ _ Hi) as [Hq1 Hq2]. pose proof (open_volume_nonneg co) as Hov.
  assert (Hov2 : open_volume co2 = 0).
  { apply msum_zero. intros c st Hst. specialize (Hc c). rewrite Hst in Hc. by destruct Hc as (index & -> & _). }
  assert (HSt : forall c, open_rows (StateFor c co2) = ∅ /\ segments (StateFor c co2) = segments (StateFor c co) /\ (forall k, key_to_segment (StateFor c co2) !! k = level_of (G c) k)
                  /\ Forall (fun meta => sm_sequence meta < next_sequence_ co2) (segments (StateFor c co))).
  { intros c. specialize (Hc c). unfold StateFor at 1 2 4. destruct (co_collections co2 !! c) as [st|].
    - destruct Hc as (index & -> & _ & Hix & Hf). done.
    - cbn in Hc. pose proof (cl_segments _ _ _ _ _ _ _ (ci_coll _ _ _ _ _ _ _ _ Hi c)) as HF. rewrite Hc in HF |- *. apply Forall2_nil_inv_l in HF. rewrite HF. by repeat split. }
  split; [done| | | |lia|lia|done].
  - intros c. destruct (HSt c) as (S1 & S2 & S3 & S4). pose proof (ci_coll _ _ _ _ _ _ _ _ Hi c) as [C1 C2 C3 C4 C5]. split; rewrite ?S1, ?S2; try done.
    + apply segments_reopen.
    + change (map_volume ∅) with 0. pose proof (map_volume_nonneg (open_rows (StateFor c co))). lia.
    + apply Forall_forall. intros meta Hin. rewrite Forall_forall in S4, C5. specialize (S4 meta Hin). specialize (C5 meta Hin). lia.
  - intros c st Hst. specialize (Hc c). rewrite Hst in Hc. destruct Hc as (index & -> & Hne & _). by right.
  - intros c k. destruct (HSt c) as (S1 & _). rewrite docs_sealed. unfold coll_doc. by rewrite S1.
Qed.

(** The engine that loading the manifest gives. *)
Lemma load_restores : manifest_ok co -> bad_dek (co_dek co) = false ->
  exists co2, CoLoadManifest (fresh_co (co_dek co) (co_manifest co) (new_pool 256 d) quota_mb events) = Some (OK co2)
    /\ co_inv (K := disk_key d) (St := {| static_dek := co_dek co; static_env := events |}) co2 (view (new_pool 256 d)) (next_page_id_ d) G W (next_page_id_ d) Q m
    /\ unlimited_co co2 = (u64 (quota_mb * 1024 * 1024) =? 0).
Proof.
  pose proof (ci_sequence _ _ _ _ _ _ _ _ Hi) as [Hq1 Hq2]. pose proof (new_store_ok d 256 Hd Hn0 ltac:(lia)) as Hs.
  intros [[M1 M2]|(colls & M1 & M2)] Hb; unfold CoLoadManifest; cbn [co_manifest co_dek fresh_co].
  { eexists. rewrite M1. unfold ReadSealedJsonFile. rewrite Hb. split; [done|]. split; [|done]. apply reloaded_inv; [done| |cbn; lia|done|done].
    intros c. cbn. rewrite lookup_empty. apply M2. }
  rewrite M1. set (ms := concat (map (fun e => segments e.2) (map_to_list colls))). rewrite manifest_text_map. fold ms.
  assert (Hcolls : forall c st, (c, st) ∈ map_to_list colls -> segments st = segments (StateFor c co)).
  { intros c st Hin%elem_of_map_to_list. by rewrite <- M2, Hin. }
  assert (Hms : Forall meta_ok ms).
  { apply Forall_concat, Forall_map, Forall_forall. intros [c st] Hin. cbn. rewrite (Hcolls c st Hin). apply segments_meta_ok. }
  assert (Hof : forall c, metas_of c ms = segments (StateFor c co)).
  { intros c. unfold ms. rewrite metas_of_concat, assoc_map_to_list; [done|apply NoDup_fst_map_to_list|]. intros c' st Hin. rewrite (Hcolls c' st Hin). apply segments_meta_ok. }
  rewrite bool_decide_eq_false_2 by done. rewrite Parse_Dump.
  2:{ cbn. apply forallb_forall. intros v Hv. apply in_map_iff in Hv as (meta & <- & Hin). apply meta_json_plain. rewrite Forall_forall in Hms. by apply Hms, list_elem_of_In. }
  cbn [is_array negb AsArray]. pose proof (load_fold ms 1 ∅ Hms) as Hf. unfold fresh_co. cbn [next_sequence_ co_collections co_store co_quota co_env co_saves].
  destruct (fold_left load_meta (map meta_json ms) (1, ∅)) as [next cs]. destruct Hf as (F1 & F2 & F3 & F4).
  assert (Hseq : Forall (fun meta => sm_sequence meta < next_sequence_ co) ms).
  { apply Forall_concat, Forall_map, Forall_forall. intros [c st] Hin. cbn. rewrite (Hcolls c st Hin). eapply Forall_impl; [apply (ci_coll _ _ _ _ _ _ _ _ Hi c)|]. cbn. lia. }
  assert (Hcs : forall c st, cs !! c = Some st -> st = mkColl (segments (StateFor c co)) ∅ 0 ∅ /\ segments (StateFor c co) <> []).
  { intros c st. rewrite F4, Hof. destruct (segments (StateFor c co)) as [|meta l]; [by rewrite lookup_empty|]. rewrite lookup_empty. by intros [= <-]. }
  destruct (index_collections_ok (K := disk_key d) (map_to_list cs) cs (new_pool 256 d) (view (new_pool 256 d)) (next_page_id_ d) G Hs Hn2) as (out & b & E & Hsb & Hout).
  { apply NoDup_fst_map_to_list. }
  { intros c st Hin%elem_of_map_to_list. destruct (Hcs c st Hin) as [-> _]. split; [apply segments_reopen|]. split; [apply volume_room|]. split; [|done]. apply (ci_coll _ _ _ _ _ _ _ _ Hi c). }
  rewrite E. eexists. split; [done|]. split; [|done]. apply reloaded_inv; [done| |cbn; split; [done|by apply F3]|done|done].
  intros c. cbn. specialize (Hout c). rewrite assoc_map_to_list in Hout. destruct (cs !! c) as [st|] eqn:Ec.
  - destruct Hout as (index & -> & Hix). destruct (Hcs c st Ec) as [-> Hne]. exists index. split; [done|]. split; [done|]. split; [done|]. rewrite <- Hof.
    unfold metas_of. apply Forall_forall. intros meta Hin. apply list_elem_of_filter in Hin as [_ Hin]. rewrite Forall_forall in F2. by apply F2.
  - rewrite Hout. cbn. rewrite F4, Hof in Ec. by destruct (segments (StateFor c co)).
Qed.
End Load.

(** C22: the documents of a run are those of an engine opened on the files that a successful
    flush left, and its further runs answer from them, when no operation reported an I/O
    error. Conditions: every page write succeeds, which no status tells because the pool
    drops them ([eviction_loses_page]), so only the reported failures of the manifest are
    excluded by the answers; random file tags are not empty and nonces have their length;
    the volume put is at most 2^29 bytes and its product with the number of operations at
    most 2^31, over both runs; the file can be opened again, is at most 2^31 pages long, and
    the new process's page writes succeed. *)
Theorem columnar_survives_restart made env wenv events quota_mb dek co file1 hdr1 ops answers co' co1 env' wenv' events' quota_mb' :
  OpenColumnar made env wenv events None None None quota_mb dek = Some (OK co, (file1, hdr1)) ->
  disk_ok (disk_ (co_store co)) -> (forall raw, oe_tag env = Some raw -> raw <> []) ->
  (forall i, length (se_nonce (ev_save (events i))) = kPageNonceLen) ->
  ops_volume ops <= 2 ^ 29 -> Zlen ops * ops_volume ops <= 2 ^ 31 ->
  co_run ops co = Some (answers, co') -> CStatus (Fault kIOError) ∉ answers -> CoFlush co' = (OK tt, co1) ->
  oe_open env' = true -> (forall i, we_io (wenv' i) = None /\ length (we_nonce (wenv' i)) = kPageNonceLen) ->
  Zlen (d_file (disk_ (co_store co1))) <= 2 ^ 31 * kPageSize ->
  exists m co2, co_trace (u64 (quota_mb * 1024 * 1024) =? 0) ops answers ∅ m
    /\ OpenColumnar true env' wenv' events' (Some (d_file (disk_ (co_store co1)))) hdr1 (co_manifest co1) quota_mb' dek
       = Some (OK co2, (Some (d_file (disk_ (co_store co1))), hdr1))
    /\ forall ops2, let T := ops_volume ops + ops_volume ops2 in T <= 2 ^ 29 -> NumAllocatedPages (disk_ (co_store co2)) + Zlen ops2 * T <= 2 ^ 31 ->
         exists answers2 co3 m2, co_run ops2 co2 = Some (answers2, co3) /\ co_trace (u64 (quota_mb' * 1024 * 1024) =? 0) ops2 answers2 m m2.
Proof.
  intros Ho Hd Htag Hev Hvol Hpages Hrun Hio Hflush Hopen Hw Hsize.
  destruct (open_new_inv _ _ _ _ _ _ _ _ Ho Hd) as (Hi & <- & Hman & Ed & Hb).
  pose (K := disk_key (disk_ (co_store co)) : DiskKey). pose (St := {| static_dek := dek; static_env := events |}).
  pose proof (ops_volume_nonneg ops) as Hv0.
  destruct (co_run_ok (K := K) (St := St) ops co _ _ _ _ _ _ _ (ops_volume ops) Hi ltac:(lia) ltac:(lia)) as (as' & cox & V & n & G & m & E & Hi' & T & M); [split; lia|].
  rewrite Hrun in E. injection E as <- <-. specialize (M Hev Hio Hman).
  assert (Hroom : room (0 + ops_volume ops) (0 + Zlen ops * ops_volume ops) (1 + Zlen ops * ops_volume ops)) by (split; lia).
  destruct (CoFlush_ok (K := K) (St := St) _ _ _ _ _ _ _ _ Hi' Hroom) as (r & cof & V1 & n1 & G1 & E & Hi1 & _ & _ & M1 & F).
  rewrite Hflush in E. injection E as <- <-. specialize (M1 Hev eq_refl M). destruct (F eq_refl) as [Hclosed Hdisk].
  destruct (ci_static (K := K) (St := St) _ _ _ _ _ _ _ _ Hi1) as [Hdek _]. change static_dek with dek in Hdek.
  destruct (OpenDisk_reopen env env' wenv wenv' None None dek _ file1 hdr1 Hopen ltac:(by right) Htag Ed (d_file (disk_ (co_store co1))))
    as (d' & Ed' & Hfile & He & Hk & Htg). destruct (OpenDisk_shape _ _ _ _ _ _ _ Ed') as [Hnext Henv].
  pose proof (ci_store (K := K) (St := St) _ _ _ _ _ _ _ _ Hi1) as Hst.
  assert (Hkey : disk_key d' = disk_key (disk_ (co_store co1))).
  { rewrite (st_key (K := K) _ _ _ Hst). unfold the_key, K, disk_key. by rewrite He, Hk, Htg. }
  assert (Hd' : disk_ok d').
  { destruct (pi_disk _ _ _ (q_ok _ (st_quiet _ _ _ Hst))) as [D1 D2 D3]. pose proof Hkey as Hkey'. unfold disk_key in Hkey'. injection Hkey' as Q1 Q2 Q3.
    split; [by rewrite Hfile, Q1|rewrite Q1, Q2, Q3; exact D2|rewrite Henv; exact Hw]. }
  assert (Hn0 : 0 <= next_page_id_ d' <= 2 ^ 31).
  { rewrite Hnext, Hfile. assert (Hstr : kPageSize <= Z.of_nat (stride_of (encrypted_ d'))) by (destruct (encrypted_ d'); vm_compute; done).
    assert (kPageSize = 4096) by done. split; [apply Z.div_pos; [apply Zlen_nonneg|lia]|]. apply Z.div_le_upper_bound; nia. }
  assert (Hv : forall j, 0 <= j -> view (new_pool 256 d') j = frame_view d' j) by (intros j _; unfold view; cbn; by rewrite lookup_empty).
  destruct (load_restores (K := K) (St := St) co1 V1 n1 G1 _ _ _ m Hi1 Hroom Hclosed d' quota_mb' events' Hd' ltac:(lia) ltac:(lia)) as (co2 & El & Hi2 & U2); try done.
  { intros j Hj. rewrite Hv, (same_key_view (disk_ (co_store co1))) by (try done; lia). by apply Hdisk. }
  { intros j Hj Hge. rewrite Hv by done. apply frame_view_fresh; [done|done|]. by rewrite <- Hnext. }
  { by rewrite Hdek. }
  rewrite Hdek in El, Hi2. exists m, co2. split; [done|]. split.
  { unfold OpenColumnar, OpenSegments. rewrite Hb. cbn [negb]. replace (negb (bool_decide (dek = [])) && negb (Zlen dek =? 32)) with false by (symmetry; exact Hb).
    rewrite Ed'. cbv zeta. unfold fresh_co in El. rewrite El. done. }
  intros ops2 T2 HT2 Hn2. rewrite <- U2.
  pose proof (st_count (K := disk_key d') _ _ _ (ci_store (K := disk_key d') (St := {| static_dek := dek; static_env := events' |}) _ _ _ _ _ _ _ _ Hi2)) as Hc2.
  unfold pages_allocated in Hc2. unfold NumAllocatedPages in Hn2. rewrite Hc2 in Hn2. pose proof (Zlen_nonneg ops2). pose proof (ops_volume_nonneg ops2).
  destruct (co_run_ok (K := disk_key d') (St := {| static_dek := dek; static_env := events' |}) ops2 co2 _ _ _ _ _ _ _ T2 Hi2 ltac:(lia) ltac:(lia))
    as (answers2 & co3 & V3 & n3 & G3 & m3 & E3 & _ & T3 & _); [split; lia|]. by exists answers2, co3, m3.
Qed.
End Restart.

(** ** Samples *)
Definition succeeded {A B} (x : option (StatusOr A * B)) : bool := match x with Some (OK _, _) => true | _ => false end.

Definition no_columnar : ColumnarLiteBackend := mkColumnar [] None (new_pool 0 sealed_disk) 1 ∅ (mkQuota 0 0) kv_events 0.

(** The first write of the manifest fails when [bad] is set. *)
Definition flaky (bad : bool) : nat -> kv_event :=
  fun i => if bad && (i =? 0)%nat then mkKvEvent (mkSaveEnv CmRenameFail (replicate kPageNonceLen Byte.x05)) true else kv_events i.

Definition co_opened (bad : bool) := @OpenColumnar tagged_crypto true kv_open_env good_env (flaky bad) None None None 0 kv_key.
Definition co_sample (bad : bool) : ColumnarLiteBackend := match co_opened bad with Some (OK co, _) => co | _ => no_columnar end.
Definition co_files : option bytes * option bytes := match co_opened false with Some (_, fs) => fs | None => (None, None) end.

Definition co_sample_ops : list co_op :=
  [CPut false (bs "c") (bs "b") (bs "2"); CPut false (bs "c") [] (bs "1"); CSeal (bs "c"); CPut true (bs "d") (bs "a") (bs "x");
   CPut false (bs "c") (bs "b") (bs "3"); CFlush; CCompact (bs "c"); CGet (bs "c") (bs "b"); CGet (bs "d") (bs "b"); CScan (bs "c") [] 0; CVerify; CList].

Definition co_ran (bad : bool) (ops : list co_op) : list co_answer * ColumnarLiteBackend :=
  match @co_run tagged_crypto ops (co_sample bad) with Some r => r | None => ([], no_columnar) end.
Definition co_flushed : StatusOr unit * ColumnarLiteBackend := @CoFlush tagged_crypto (co_ran false co_sample_ops).2.

Lemma co_opened_ok : co_opened false = Some (OK (co_sample false), co_files).
Proof.
  assert (H : succeeded (co_opened false) = true) by (vm_compute; done). unfold co_sample, co_files.
  destruct (co_opened false) as [[[co|e] fs]|]; done.
Qed.

Lemma co_ran_ok : @co_run tagged_crypto co_sample_ops (co_sample false) = Some (co_ran false co_sample_ops).
Proof.
  assert (H : (match @co_run tagged_crypto co_sample_ops (co_sample false) with Some _ => true | None => false end) = true) by (vm_compute; done).
  unfold co_ran. by destruct (@co_run tagged_crypto co_sample_ops (co_sample false)).
Qed.

Lemma co_sample_answers : (co_ran false co_sample_ops).1 =
  [CStatus (OK tt); CStatus (OK tt); CStatus (OK tt); CStatus (OK tt); CStatus (OK tt); CStatus (OK tt); CStatus (OK tt);
   CDoc (OK (bs "3")); CDoc (Fault kNotFound); CRows [([], bs "1"); (bs "b", bs "3")]; CStatus (OK tt); CNames [bs "c"; bs "d"]].
Proof. vm_compute. reflexivity. Qed.

Lemma co_sample_disk : @disk_ok tagged_crypto (disk_ (co_store (co_sample false))).
Proof.
  split; [by exists 0%nat| |done]. intros _. split; [by vm_compute|]. intros id c. unfold OpenPage.
  change (Zlen (d_subkey _) =? kDekLen) with true. cbn [negb AesGcmOpen tagged_crypto].
  rewrite bool_decide_eq_false_2; [done|]. vm_compute. done.
Qed.

Lemma co_flushed_ok : @CoFlush tagged_crypto (co_ran false co_sample_ops).2 = (OK tt, co_flushed.2).
Proof.
  assert (H : co_flushed.1 = OK tt) by (vm_compute; reflexivity). fold co_flushed. rewrite <- H. apply surjective_pairing.
Qed.

Lemma co_sample_quiet : CStatus (Fault kIOError) ∉ (co_ran false co_sample_ops).1.
Proof. rewrite co_sample_answers. by repeat (apply not_elem_of_cons; split); [..|apply not_elem_of_nil]. Qed.

Lemma co_flushed_size : Zlen (d_file (disk_ (co_store co_flushed.2))) <= 2 ^ 31 * kPageSize.
Proof. vm_compute. congruence. Qed.

Lemma columnar_engine_refines_witness :
  exists answers co' m, @co_run tagged_crypto co_sample_ops (co_sample false) = Some (answers, co') /\ co_trace true co_sample_ops answers ∅ m.
Proof.
  apply (columnar_engine_refines (C := tagged_crypto) true kv_open_env good_env (flaky false) 0 kv_key (co_sample false) co_files);
    [apply co_opened_ok|apply co_sample_disk|vm_compute; congruence|vm_compute; congruence].
Defined.

Lemma columnar_survives_restart_witness :
  exists m co2, co_trace true co_sample_ops (co_ran false co_sample_ops).1 ∅ m
    /\ @OpenColumnar tagged_crypto true kv_open_env good_env kv_events (Some (d_file (disk_ (co_store co_flushed.2)))) co_files.2 (co_manifest co_flushed.2) 0 kv_key
       = Some (OK co2, (Some (d_file (disk_ (co_store co_flushed.2))), co_files.2))
    /\ forall ops2, let T := ops_volume co_sample_ops + ops_volume ops2 in T <= 2 ^ 29 -> NumAllocatedPages (disk_ (co_store co2)) + Zlen ops2 * T <= 2 ^ 31 ->
         exists answers2 co3 m2, @co_run tagged_crypto ops2 co2 = Some (answers2, co3) /\ co_trace true ops2 answers2 m m2.
Proof.
  apply (columnar_survives_restart (C := tagged_crypto) true kv_open_env good_env (flaky false) 0 kv_key (co_sample false) co_files.1 co_files.2
           co_sample_ops (co_ran false co_sample_ops).1 (co_ran false co_sample_ops).2 co_flushed.2 kv_open_env good_env kv_events 0);
    [apply co_opened_ok|apply co_sample_disk|by intros raw [= <-]|done|vm_compute; congruence|vm_compute; congruence
    |rewrite <- surjective_pairing; apply co_ran_ok|apply co_sample_quiet|apply co_flushed_ok|done|done|apply co_flushed_size].
Defined.

(** The manifest of a seal is not written; the put that caused it, or the flush, reports
    the error.  The next flush has nothing open, writes no manifest and reports success,
    and the documents are gone after a restart. *)
Definition flush_twice : list co_op := [CPut false (bs "c") (bs "k") (bs "v"); CFlush; CFlush; CGet (bs "c") (bs "k")].

Theorem second_flush_hides_failure :
  let '(answers, co) := co_ran true flush_twice in
  answers = [CStatus (OK tt); CStatus (Fault kIOError); CStatus (OK tt); CDoc (OK (bs "v"))]
  /\ match @OpenColumnar tagged_crypto true kv_open_env good_env kv_events (Some (d_file (disk_ (co_store co)))) co_files.2 (co_manifest co) 0 kv_key with
     | Some (OK co2, _) => fst <$> @CoGet tagged_crypto (bs "c") (bs "k") co2
     | _ => None
     end = Some (Fault kNotFound).
Proof. vm_compute. split; reflexivity. Qed.

(** A seal writes the manifest while the pages it names are still in the buffer pool: an
    engine that is cut off before the next flush cannot be opened again. *)
Definition cut_after_seal : list co_op := [CPut false (bs "c") (bs "k") (bs "v"); CSeal (bs "c")].

Theorem unflushed_seal_unopenable :
  let '(answers, co) := co_ran false cut_after_seal in
  answers = [CStatus (OK tt); CStatus (OK tt)]
  /\ fst <$> @OpenColumnar tagged_crypto true kv_open_env good_env kv_events (Some (d_file (disk_ (co_store co)))) co_files.2 (co_manifest co) 0 kv_key = Some (Fault kCorruption).
Proof. vm_compute. split; reflexivity. Qed.
