(* ===== verification/Router.v ===== *)
(** * The storage router: [StorageRouter] of src/storage/router.cpp

    Splits the data-plane budget over the configured engines and dispatches each
    collection to the engine the catalog binds it to.  The catalog is borrowed, so it
    is an argument; the engines are values of any type that implements the backend
    contract.  [router_docs] is the one document store the layers above see. *)
From S2P Require Import Prelude Bytes Json JsonText Crdt CrdtMerge CrdtCodec AtRest AtRestFiles RecordLog.
From S2P Require Import Catalog CatalogProps CrossEngineIndex Backend.
Local Open Scope Z_scope.

(** ** Budgets *)
Definition kMiB : Z := 1024 * 1024.

Definition data_plane_bytes (quota_mb db_share_pct : Z) : Z :=
  if quota_mb =? 0 then 0 else u64 (quota_mb * 1024 * 1024 * db_share_pct) / 100.

(** [std::unique] after the sort. *)
Fixpoint unique (l : list bytes) : list bytes :=
  match l with
  | x :: (y :: _) as l' => if bool_decide (x = y) then unique l' else x :: unique l'
  | _ => l
  end.

Definition engine_list (engines : list bytes) (default_engine : bytes) : list bytes :=
  let l := if bool_decide (engines = []) then [bs "kv"] else engines in
  let l := if bool_decide (default_engine ∈ l) then l else l ++ [default_engine] in
  unique (std_sort str_lt id l).

Definition total_mb (db_bytes : Z) : Z := if db_bytes =? 0 then 0 else u64 (db_bytes + kMiB - 1) / kMiB.

(** The budget in MiB of the [i]-th of [n] engines. *)
Definition engine_mb (db_bytes n i : Z) : Z :=
  total_mb db_bytes / n + (if i <? total_mb db_bytes mod n then 1 else 0).

Definition engine_budgets (db_bytes : Z) (engines : list bytes) : list (bytes * Z) :=
  imap (fun i name => (name, engine_mb db_bytes (Zlen engines) (Z.of_nat i))) engines.

(** ** State *)
Record StorageRouter (B : Type) := mkRouter {
  default_engine_ : bytes;
  rt_node_id : bytes;
  rt_quota_bytes : Z;
  backends_ : gmap bytes B;
  rt_index : CrossEngineIndex;
}.
Arguments mkRouter {B}.
Arguments default_engine_ {B}.
Arguments rt_node_id {B}.
Arguments rt_quota_bytes {B}.
Arguments backends_ {B}.
Arguments rt_index {B}.

Record RouterOptions := mkRouterOptions {
  ro_quota_mb : Z;
  ro_db_share_pct : Z;
  ro_engines : list bytes;
  ro_default_engine : bytes;
  ro_node_id : bytes;
  ro_buffer_pool_pages : Z;
  ro_dek : bytes;
}.

Section Router.
Context `{C : Crypto} {B : Type} `{E : !EngineBackend B}.

(** [make_backend]: [MakeBackend] and the backend's [Open] with the budget in MiB, the
    pool size and the key. *)
Definition RegisterBackend (make_backend : bytes -> Z -> Z -> bytes -> StatusOr B) (name : bytes)
    (quota_mb pool_pages : Z) (dek : bytes) (m : gmap bytes B) : StatusOr (gmap bytes B) :=
  (b <-? make_backend name quota_mb pool_pages dek ;; OK (<[name := b]> m))%status.

Fixpoint register_all (make_backend : bytes -> Z -> Z -> bytes -> StatusOr B) (l : list (bytes * Z))
    (pool_pages : Z) (dek : bytes) (m : gmap bytes B) : StatusOr (gmap bytes B) :=
  match l with
  | [] => OK m
  | (name, mb) :: l' =>
      (m' <-? RegisterBackend make_backend name mb pool_pages dek m ;;
       register_all make_backend l' pool_pages dek m')%status
  end.

(** [None]: an exception of the index load escapes. *)
Definition RouterOpen (make_backend : bytes -> Z -> Z -> bytes -> StatusOr B) (dir_ok : bool)
    (o : RouterOptions) (index_log : bytes) : option (StatusOr (StorageRouter B)) :=
  if negb dir_ok then Some (Fault kIOError)
  else
    let db_bytes := data_plane_bytes (ro_quota_mb o) (ro_db_share_pct o) in
    if bad_dek (ro_dek o) then Some (Fault kInvalidArgument)
    else
      let pool_pages := if ro_buffer_pool_pages o =? 0 then 16 else ro_buffer_pool_pages o in
      match register_all make_backend (engine_budgets db_bytes (engine_list (ro_engines o) (ro_default_engine o)))
              pool_pages (ro_dek o) ∅ with
      | Fault c => Some (Fault c)
      | OK m =>
          match IndexOpen index_log (ro_dek o) with
          | None => None
          | Some (Fault c) => Some (Fault c)
          | Some (OK ix) => Some (OK (mkRouter (ro_default_engine o) (ro_node_id o) db_bytes m ix))
          end
      end.

Definition EngineNameFor (cat : Catalog) (r : StorageRouter B) (collection : bytes) : bytes :=
  match GetCopy cat collection with
  | Some meta => if bool_decide (cm_engine meta = []) then default_engine_ r else cm_engine meta
  | None => default_engine_ r
  end.

Definition BackendFor (cat : Catalog) (r : StorageRouter B) (collection : bytes) : option B :=
  backends_ r !! EngineNameFor cat r collection.

Definition AvailableEngines (r : StorageRouter B) : list bytes := std_sort str_lt id (map_to_list (backends_ r)).*1.

Definition set_backend (name : bytes) (b : B) (r : StorageRouter B) : StorageRouter B :=
  mkRouter (default_engine_ r) (rt_node_id r) (rt_quota_bytes r) (<[name := b]> (backends_ r)) (rt_index r).

Definition set_index (ix : CrossEngineIndex) (r : StorageRouter B) : StorageRouter B :=
  mkRouter (default_engine_ r) (rt_node_id r) (rt_quota_bytes r) (backends_ r) ix.

(** [now], and what the two saves of the catalog meet. *)
Definition BindCollection (now : Z) (e1 e2 : save_env) (collection engine_name : bytes) (r : StorageRouter B)
    (cat : Catalog) (file : option bytes) : StatusOr unit * Catalog * option bytes :=
  match backends_ r !! engine_name with
  | None => (Fault kInvalidArgument, cat, file)
  | Some _ =>
      if HasCollection cat collection then SetEngine e2 collection engine_name cat file
      else match UpsertRootPageId now e1 collection (-1) cat file with
           | (Fault c, cat1, file1) => (Fault c, cat1, file1)
           | (OK _, cat1, file1) => SetEngine e2 collection engine_name cat1 file1
           end
  end.

Definition with_backend {A} (cat : Catalog) (collection : bytes) (r : StorageRouter B)
    (missing : A) (f : B -> A * B) : A * StorageRouter B :=
  match BackendFor cat r collection with
  | None => (missing, r)
  | Some b => let '(x, b') := f b in (x, set_backend (EngineNameFor cat r collection) b' r)
  end.

(** The index append may fail without failing the write. *)
Definition RouterPut (merge : bool) (env : bytes * append_result_io) (now : Z) (cat : Catalog)
    (collection key encoded_doc : bytes) (r : StorageRouter B) : StatusOr unit * StorageRouter B :=
  match BackendFor cat r collection with
  | None => (Fault kInvalidArgument, r)
  | Some b =>
      match be_put merge collection key encoded_doc b with
      | (Fault c, b') => (Fault c, set_backend (EngineNameFor cat r collection) b' r)
      | (OK _, b') =>
          let r' := set_backend (EngineNameFor cat r collection) b' r in
          let entry := mkIndexEntry key collection (be_name b') (rt_node_id r) now in
          (OK tt, set_index (IndexUpsert env now entry (rt_index r')).2 r')
      end
  end.

Definition RouterGet (cat : Catalog) (collection key : bytes) (r : StorageRouter B)
  : StatusOr bytes * StorageRouter B := with_backend cat collection r (Fault kInvalidArgument) (be_get collection key).

Definition RouterScan (cat : Catalog) (collection start_key : bytes) (limit : nat) (r : StorageRouter B)
  : list EngineRow * StorageRouter B := with_backend cat collection r [] (be_scan collection start_key limit).

Definition RouterMergeRemote (cat : Catalog) (collection key remote : bytes) (r : StorageRouter B)
  : StatusOr unit * StorageRouter B :=
  with_backend cat collection r (Fault kInvalidArgument) (MergeRemote collection key remote).

Definition RouterChecksum (cat : Catalog) (collection : bytes) (r : StorageRouter B)
  : bytes * StorageRouter B := with_backend cat collection r [] (Checksum collection).

Definition RouterQuotaUse (r : StorageRouter B) : Z :=
  fold_left (fun n b => u64 (n + be_quota_use b)) (map_to_list (backends_ r)).*2 0.

(** The loops over the backends stop at the first failure. *)
Fixpoint for_backends (f : B -> StatusOr unit * B) (l : list (bytes * B)) (r : StorageRouter B)
  : StatusOr unit * StorageRouter B :=
  match l with
  | [] => (OK tt, r)
  | (name, b) :: l' =>
      match f b with
      | (OK _, b') => for_backends f l' (set_backend name b' r)
      | (Fault c, b') => (Fault c, set_backend name b' r)
      end
  end.

Definition RouterVerify (r : StorageRouter B) : StatusOr unit * StorageRouter B :=
  match for_backends be_verify (map_to_list (backends_ r)) r with
  | (OK _, r') => (OK tt, r')
  | (Fault _, r') => (Fault kCorruption, r')
  end.

(** Flushing the index cannot fail. *)
Definition RouterFlush (r : StorageRouter B) : StatusOr unit * StorageRouter B :=
  for_backends be_flush (map_to_list (backends_ r)) r.

(** ** Equality queries on a field *)
Definition field_matches (index_field value encoded_doc : bytes) : bool :=
  match Decode encoded_doc with
  | None => false
  | Some doc =>
      if IsEmpty doc then false
      else let json := ToJson doc in
           is_object json
           && match Find json index_field with
              | None => false
              | Some f => bool_decide ((if is_string f then AsString f else Dump f) = value)
              end
  end.

Fixpoint query_loop (index_field value : bytes) (limit : nat) (rows : list EngineRow) (matched : list bytes)
  : list bytes :=
  match rows with
  | [] => matched
  | (key, doc) :: rows' =>
      if (limit <=? length matched)%nat then matched
      else query_loop index_field value limit rows'
             (if field_matches index_field value doc then matched ++ [key] else matched)
  end.

Definition QueryIndex (cat : Catalog) (collection index_field value : bytes) (limit : nat) (r : StorageRouter B)
  : StatusOr (list bytes) * StorageRouter B :=
  match BackendFor cat r collection with
  | None => (Fault kInvalidArgument, r)
  | Some b => let '(rows, b') := be_scan collection [] 0 b in
              (OK (query_loop index_field value limit rows []), set_backend (EngineNameFor cat r collection) b' r)
  end.
End Router.
