(* ===== verification/RouterProps.v ===== *)
(** * Theorems about the storage router

    The budgets of the engines add up; reads and writes through the router behave like
    one map of documents, whatever engine each collection is bound to; two theorems
    record where the code departs from its comments. *)
From S2P Require Import Prelude Bytes Json JsonText Crdt CrdtMerge CrdtCodec AtRest AtRestFiles RecordLog.
From S2P Require Import Catalog CatalogProps CrossEngineIndex Backend Router.
Local Open Scope Z_scope.

(** ** Budgets *)
Lemma sum_extra (n : nat) (q r : Z) :
  foldr Z.add 0 (map (fun i => q + (if Z.of_nat i <? r then 1 else 0)) (seq 0 n)) = Z.of_nat n * q + Z.max 0 (Z.min r (Z.of_nat n)).
Proof.
  induction n as [|n IH]; [cbn; lia|].
  rewrite seq_S, map_app, foldr_app. cbn [map foldr Nat.add].
  assert (Hf : forall (l : list Z) z, foldr Z.add z l = foldr Z.add 0 l + z).
  { intros l z. induction l as [|x l IHl]; cbn; [lia|]. rewrite IHl. lia. }
  rewrite Hf, IH. destruct (Z.ltb_spec (Z.of_nat n) r); lia.
Qed.

Lemma budgets_sum db_bytes engines :
  engines <> [] -> 0 <= total_mb db_bytes ->
  foldr Z.add 0 (engine_budgets db_bytes engines).*2 = total_mb db_bytes.
Proof.
  intros Hne Ht. unfold engine_budgets.
  assert (Hl : 0 < Zlen engines) by (destruct engines; [done|unfold Zlen; cbn [length]; lia]).
  transitivity (foldr Z.add 0 (map (fun i => engine_mb db_bytes (Zlen engines) (Z.of_nat i)) (seq 0 (length engines)))).
  { f_equal. apply list_eq. intros i. rewrite list_lookup_fmap, list_lookup_imap.
    change (map ?f ?l) with (f <$> l). rewrite list_lookup_fmap.
    destruct (engines !! i) as [e|] eqn:Ee; cbn.
    - rewrite lookup_seq_lt by (by eapply lookup_lt_Some). done.
    - by rewrite lookup_seq_ge by (by apply lookup_ge_None). }
  unfold engine_mb. rewrite sum_extra. fold (Zlen engines).
  pose proof (Z.mod_pos_bound (total_mb db_bytes) (Zlen engines) Hl).
  pose proof (Z.div_mod (total_mb db_bytes) (Zlen engines)). lia.
Qed.

Lemma unique_nonempty l : l <> [] -> unique l <> [].
Proof.
  induction l as [|x [|y l] IH]; try done. intros _. cbn [unique]. case_bool_decide; [by apply IH|done].
Qed.

Lemma engine_list_nonempty engines d : engine_list engines d <> [].
Proof.
  unfold engine_list. apply unique_nonempty. set (l := if bool_decide (engines = []) then _ else _).
  assert (l <> []) as Hl by (unfold l; case_bool_decide; done).
  assert (forall k, k <> [] -> std_sort str_lt id k <> []) as Hs.
  { intros k Hk E. apply Hk. apply nil_length_inv. by rewrite <- (std_sort_length str_lt id), E. }
  apply Hs. case_bool_decide; [done|]. by destruct l.
Qed.

(** For a quota that does not overflow the byte counter, the whole-MiB budgets dealt
    to the engines add up to the data-plane share rounded up to a MiB: nothing is lost
    and less than one MiB is added. *)
Theorem engine_budgets_exact quota_mb pct engines default_engine :
  0 <= quota_mb -> 0 <= pct -> quota_mb * 1024 * 1024 * pct + kMiB < 2 ^ 64 ->
  let share := quota_mb * kMiB * pct / 100 in
  let budgets := engine_budgets (data_plane_bytes quota_mb pct) (engine_list engines default_engine) in
  share <= kMiB * foldr Z.add 0 budgets.*2 < share + kMiB.
Proof.
  intros Hq Hp Hb share budgets. unfold budgets, data_plane_bytes.
  assert (Hs : (if quota_mb =? 0 then 0 else u64 (quota_mb * 1024 * 1024 * pct) / 100) = share).
  { destruct (Z.eqb_spec quota_mb 0) as [->|]; [done|]. unfold share, kMiB in *.
    unfold u64. rewrite wrap_id by (unfold fits; nia). f_equal. lia. }
  rewrite Hs. assert (0 <= share) as H0 by (apply Z.div_pos; unfold kMiB; nia).
  assert (share <= quota_mb * 1024 * 1024 * pct) as Hle.
  { unfold share, kMiB. apply Z.div_le_upper_bound; [lia|]. nia. }
  assert (Ht : total_mb share = (share + kMiB - 1) / kMiB).
  { unfold total_mb. destruct (Z.eqb_spec share 0) as [->|]; [done|]. unfold u64.
    rewrite wrap_id; [done|]. unfold fits, kMiB in *. lia. }
  rewrite budgets_sum; [|apply engine_list_nonempty|rewrite Ht; apply Z.div_pos; unfold kMiB; lia].
  rewrite Ht. pose proof (Z.div_mod (share + kMiB - 1) kMiB).
  pose proof (Z.mod_pos_bound (share + kMiB - 1) kMiB). unfold kMiB in *. lia.
Qed.

Lemma engine_budgets_exact_witness :
  let share := 100 * kMiB * 60 / 100 in
  let budgets := engine_budgets (data_plane_bytes 100 60) (engine_list [bs "kv"; bs "graph_adj"; bs "kv"] (bs "ts_rollup")) in
  share <= kMiB * foldr Z.add 0 budgets.*2 < share + kMiB.
Proof. apply (engine_budgets_exact 100 60 [bs "kv"; bs "graph_adj"; bs "kv"] (bs "ts_rollup")); vm_compute; done. Defined.

(** A budget of zero means unlimited to a backend, and a quota smaller than one MiB per
    engine deals zeros: with 2 MiB of quota and three engines the second and third are
    not limited at all. *)
Lemma small_quota_unlimited :
  engine_budgets (data_plane_bytes 2 50) (engine_list [bs "graph_adj"; bs "kv"; bs "ts_rollup"] (bs "kv"))
  = [(bs "graph_adj", 1); (bs "kv", 0); (bs "ts_rollup", 0)]
  /\ forall growth, 0 <= growth < 2 ^ 63 ->
       (Charge false 0 growth (mkQuota (0 * kMiB) 0)).1 = OK tt.
Proof.
  split; [by vm_compute|]. intros growth Hg. unfold Charge, charge_next. cbn [quota_bytes_ bytes_used_].
  destruct (growth <=? 0); done.
Qed.

(** ** One map of documents *)
Section Documents.
Context `{C : Crypto} {B : Type} {E : EngineBackend B} `{S : !BackendSpec E}.

Record router_inv (cat : Catalog) (r : StorageRouter B) : Prop := {
  ri_backends : map_Forall (fun name b => be_inv b /\ be_name b = name) (backends_ r);
  ri_available : forall c, is_Some (backends_ r !! EngineNameFor cat r c);
}.

Definition router_docs (cat : Catalog) (r : StorageRouter B) (c k : bytes) : option bytes :=
  b ← BackendFor cat r c; be_docs b !! (c, k).

Lemma set_backend_inv cat r name b :
  router_inv cat r -> is_Some (backends_ r !! name) -> be_inv b -> be_name b = name ->
  router_inv cat (set_backend name b r).
Proof.
  intros [H1 H2] Hs Hb Hn. split; [by apply map_Forall_insert_2|]. intros c. cbn.
  change (EngineNameFor cat (set_backend name b r) c) with (EngineNameFor cat r c).
  apply lookup_insert_is_Some'. by right.
Qed.

Lemma set_backend_docs cat r name b c k :
  router_docs cat (set_backend name b r) c k
  = if decide (EngineNameFor cat r c = name) then be_docs b !! (c, k) else router_docs cat r c k.
Proof.
  unfold router_docs, BackendFor. cbn [set_backend backends_].
  change (EngineNameFor cat (set_backend name b r) c) with (EngineNameFor cat r c).
  case_decide as E'; [by rewrite E', lookup_insert_eq|]. by rewrite lookup_insert_ne by done.
Qed.

(** What an operation on the engine of [c] does to the whole. *)
Lemma with_backend_docs {A} cat r c (missing : A) f :
  router_inv cat r ->
  (forall b, be_inv b -> let '(x, b') := f b in be_inv b' /\ be_docs b' = be_docs b /\ be_name b' = be_name b) ->
  let '(x, r') := with_backend cat c r missing f in
  router_inv cat r' /\ (forall c' k', router_docs cat r' c' k' = router_docs cat r c' k')
  /\ exists b, BackendFor cat r c = Some b /\ be_inv b /\ x = (f b).1.
Proof.
  intros Hr Hf. unfold with_backend. destruct (ri_available _ _ Hr c) as [b Hb]. fold (BackendFor cat r c) in Hb.
  rewrite Hb. destruct (ri_backends _ _ Hr _ _ Hb) as [Hi Hn]. specialize (Hf b Hi).
  destruct (f b) as [x b'] eqn:Ef. destruct Hf as (I' & D' & N'). split; [|split].
  - apply set_backend_inv; [done|by eexists|done|congruence].
  - intros c' k'. rewrite set_backend_docs. case_decide as Ec; [|done]. unfold router_docs, BackendFor.
    rewrite Ec. fold (BackendFor cat r c). rewrite Hb. cbn. by rewrite D'.
  - exists b. by rewrite Ef.
Qed.

Lemma RouterGet_docs cat r c k :
  router_inv cat r ->
  exists r', RouterGet cat c k r = (match router_docs cat r c k with Some d => OK d | None => Fault kNotFound end, r')
    /\ router_inv cat r' /\ forall c' k', router_docs cat r' c' k' = router_docs cat r c' k'.
Proof.
  intros Hr. pose proof (with_backend_docs cat r c (Fault kInvalidArgument : StatusOr bytes) (be_get c k) Hr) as H.
  unfold RouterGet. destruct (with_backend cat c r (Fault kInvalidArgument) (be_get c k)) as [x r'].
  destruct H as (H1 & H2 & b & Hb & Hi & ->).
  { intros b Hb. destruct (be_get_spec b c k Hb) as (b' & -> & ? & ? & ?). done. }
  exists r'. split; [|done]. f_equal. destruct (be_get_spec b c k Hi) as (b' & -> & _).
  unfold router_docs. by rewrite Hb.
Qed.

Lemma RouterPut_docs merge env now cat c k d r :
  router_inv cat r ->
  let '(st, r') := RouterPut merge env now cat c k d r in
  router_inv cat r'
  /\ forall c' k', router_docs cat r' c' k'
       = match st with
         | OK _ => if decide ((c', k') = (c, k)) then Some d else router_docs cat r c' k'
         | Fault _ => router_docs cat r c' k'
         end.
Proof.
  intros Hr. unfold RouterPut. destruct (ri_available _ _ Hr c) as [b Hb]. fold (BackendFor cat r c) in Hb.
  rewrite Hb. destruct (ri_backends _ _ Hr _ _ Hb) as [Hi Hn]. pose proof (be_put_spec b merge c k d Hi) as Hp.
  destruct (be_put merge c k d b) as [st b']. destruct Hp as (I' & N' & D').
  assert (Hr' : router_inv cat (set_backend (EngineNameFor cat r c) b' r)).
  { apply set_backend_inv; [done|by eexists|done|congruence]. }
  assert (Hd : forall c' k', router_docs cat (set_backend (EngineNameFor cat r c) b' r) c' k'
    = if decide (EngineNameFor cat r c' = EngineNameFor cat r c) then be_docs b' !! (c', k') else router_docs cat r c' k').
  { intros c' k'. apply set_backend_docs. }
  destruct st as [u|code].
  - split; [by destruct Hr'|]. intros c' k'.
    change (router_docs cat (set_index ?ix ?x) c' k') with (router_docs cat x c' k'). rewrite Hd, D'.
    case_decide as Ec; case_decide as Ek; simplify_eq; rewrite ?lookup_insert_eq; try done.
    rewrite lookup_insert_ne by congruence. unfold router_docs, BackendFor. rewrite Ec.
    fold (BackendFor cat r c). by rewrite Hb.
  - split; [done|]. intros c' k'. rewrite Hd, D'. case_decide as Ec; [|done].
    unfold router_docs, BackendFor. rewrite Ec. fold (BackendFor cat r c). by rewrite Hb.
Qed.

Lemma for_backends_docs cat f l r :
  router_inv cat r ->
  (forall b, be_inv b -> let '(x, b') := f b in be_inv b' /\ be_docs b' = be_docs b /\ be_name b' = be_name b) ->
  NoDup l.*1 -> (forall name b, (name, b) ∈ l -> backends_ r !! name = Some b) ->
  let '(st, r') := for_backends f l r in
  router_inv cat r' /\ forall c k, router_docs cat r' c k = router_docs cat r c k.
Proof.
  intros Hr Hf. revert r Hr. induction l as [|[name b] l IH]; intros r Hr Hn Hl; [done|]. cbn [for_backends].
  apply NoDup_cons in Hn as [Hni Hn].
  assert (Hb : backends_ r !! name = Some b) by (apply Hl; left).
  destruct (ri_backends _ _ Hr _ _ Hb) as [Hi Hbn]. specialize (Hf b Hi) as Hfb. destruct (f b) as [st b'].
  destruct Hfb as (I' & D' & N').
  assert (H1 : router_inv cat (set_backend name b' r)).
  { apply set_backend_inv; [done|by eexists|done|congruence]. }
  assert (H2 : forall c k, router_docs cat (set_backend name b' r) c k = router_docs cat r c k).
  { intros c k. rewrite set_backend_docs. case_decide as Ec; [|done]. unfold router_docs, BackendFor.
    rewrite Ec, Hb. cbn. by rewrite D'. }
  destruct st as [[]|code]; [|done].
  specialize (IH _ H1 Hn). destruct (for_backends f l (set_backend name b' r)) as [st' r'].
  destruct IH as [J1 J2].
  { intros name' b1 Hin. cbn. rewrite lookup_insert_ne; [apply Hl; by right|]. intros ->. apply Hni.
    apply list_elem_of_fmap. by exists (name', b1). }
  split; [done|]. intros c k. by rewrite J2.
Qed.

(** *** Scans *)

(** The documents of [c] from [start] on, in key order, cut to [limit] unless it is zero. *)
Definition scan_answer (m : bytes -> bytes -> option bytes) (c start : bytes) (limit : nat) (rows : list EngineRow) : Prop :=
  exists all, sorted_strict str_lt fst all
    /\ (forall k d, (k, d) ∈ all <-> m c k = Some d /\ str_lt k start = false)
    /\ rows = if (limit =? 0)%nat then all else take limit all.

Lemma scan_rows_answer (m : docs) c start limit : scan_answer (fun c k => m !! (c, k)) c start limit (scan_rows m c start limit).
Proof.
  exists (filter (fun r => str_lt r.1 start = false) (rows_of m c)). split; [|split; [|done]].
  - pose proof (rows_of_sorted m c) as Hs. unfold sorted_strict in *. induction Hs as [|x l _ IH Hall]; [constructor|].
    rewrite filter_cons. case_decide; [|done]. constructor; [done|]. rewrite Forall_forall in Hall |- *.
    intros y [_ Hy]%list_elem_of_filter. by apply Hall.
  - intros k d. rewrite list_elem_of_filter, <- (assoc_Some _ _ _ (rows_of_nodup m c)), rows_of_lookup. cbn. tauto.
Qed.

Lemma RouterScan_docs cat r c start limit :
  router_inv cat r ->
  let '(rows, r') := RouterScan cat c start limit r in
  scan_answer (router_docs cat r) c start limit rows
  /\ router_inv cat r' /\ forall c' k', router_docs cat r' c' k' = router_docs cat r c' k'.
Proof.
  intros Hr. pose proof (with_backend_docs cat r c ([] : list EngineRow) (be_scan c start limit) Hr) as H.
  unfold RouterScan. destruct (with_backend cat c r [] (be_scan c start limit)) as [x r'].
  destruct H as (H1 & H2 & b & Hb & Hi & ->).
  { intros b Hb. destruct (be_scan_spec b c start limit Hb) as (b' & -> & ? & ? & ?). done. }
  split; [|done]. destruct (be_scan_spec b c start limit Hi) as (b' & -> & _). cbn [fst].
  destruct (scan_rows_answer (be_docs b) c start limit) as (all & A1 & A2 & A3). exists all. split; [done|]. split; [|done].
  intros k d. rewrite A2. unfold router_docs. by rewrite Hb.
Qed.

(** *** Merges *)

(** What a merge stores: the remote document, or its merge with the one that is there. *)
Definition merged_doc (old : option bytes) (remote : bytes) : option bytes :=
  rv ← Decode remote;
  match old with None => Some (Encode rv) | Some x => lv ← Decode x; Some (Encode (Merge lv rv)) end.

Lemma MergeRemote_docs c k remote (b : B) :
  be_inv b ->
  let '(st, b') := MergeRemote c k remote b in
  be_inv b' /\ be_name b' = be_name b
  /\ match st with
     | OK _ => exists d, merged_doc (be_docs b !! (c, k)) remote = Some d /\ be_docs b' = <[(c, k) := d]> (be_docs b)
     | Fault _ => be_docs b' = be_docs b
     end.
Proof.
  intros Hb. unfold MergeRemote, merged_doc. destruct (Decode remote) as [rv|]; [|done]. cbn [mbind option_bind].
  destruct (be_get_spec b c k Hb) as (b1 & -> & I1 & D1 & N1).
  destruct (be_docs b !! (c, k)) as [x|].
  - destruct (Decode x) as [lv|]; [|done]. cbn [mbind option_bind].
    pose proof (be_put_spec b1 true c k (Encode (Merge lv rv)) I1) as Hp. destruct (be_put _ _ _ _ b1) as [[u|x'] b2].
    + destruct Hp as (P1 & P2 & P3). rewrite D1 in P3. split; [done|]. split; [congruence|]. by eexists.
    + destruct Hp as (P1 & P2 & P3). split; [done|]. split; congruence.
  - rewrite bool_decide_eq_true_2 by done. pose proof (be_put_spec b1 true c k (Encode rv) I1) as Hp.
    destruct (be_put _ _ _ _ b1) as [[u|x'] b2].
    + destruct Hp as (P1 & P2 & P3). rewrite D1 in P3. split; [done|]. split; [congruence|]. by eexists.
    + destruct Hp as (P1 & P2 & P3). split; [done|]. split; congruence.
Qed.

Lemma RouterMergeRemote_docs cat c k remote r :
  router_inv cat r ->
  let '(st, r') := RouterMergeRemote cat c k remote r in
  router_inv cat r'
  /\ match st with
     | OK _ => exists d, merged_doc (router_docs cat r c k) remote = Some d
         /\ forall c' k', router_docs cat r' c' k' = if decide ((c', k') = (c, k)) then Some d else router_docs cat r c' k'
     | Fault _ => forall c' k', router_docs cat r' c' k' = router_docs cat r c' k'
     end.
Proof.
  intros Hr. unfold RouterMergeRemote, with_backend. destruct (ri_available _ _ Hr c) as [b Hb]. fold (BackendFor cat r c) in Hb.
  rewrite Hb. destruct (ri_backends _ _ Hr _ _ Hb) as [Hi Hn]. pose proof (MergeRemote_docs c k remote b Hi) as Hp.
  destruct (MergeRemote c k remote b) as [st b']. destruct Hp as (I' & N' & D').
  split; [apply set_backend_inv; [done|by eexists|done|congruence]|].
  assert (Hrd : forall c' k', EngineNameFor cat r c' = EngineNameFor cat r c -> router_docs cat r c' k' = be_docs b !! (c', k')).
  { intros c' k' Ec. unfold router_docs, BackendFor. rewrite Ec. fold (BackendFor cat r c). by rewrite Hb. }
  destruct st as [u|code].
  - destruct D' as (d & Hd & D'). exists d. rewrite Hrd by done. split; [done|]. intros c' k'. rewrite set_backend_docs, D'.
    case_decide as Ec; case_decide as Ek; simplify_eq; rewrite ?lookup_insert_eq; try done.
    by rewrite lookup_insert_ne, Hrd by congruence.
  - intros c' k'. rewrite set_backend_docs, D'. case_decide as Ec; [|done]. by rewrite Hrd.
Qed.

(** ** Runs *)
Inductive router_op :=
  | RPut (merge : bool) (env : bytes * append_result_io) (now : Z) (c k d : bytes)
  | RGet (c k : bytes)
  | RScan (c start : bytes) (limit : nat)
  | RMerge (c k remote : bytes)
  | RFlush.
Inductive router_out := OutStatus (st : StatusOr unit) | OutDoc (d : StatusOr bytes) | OutRows (rows : list EngineRow).

Definition router_step (cat : Catalog) (o : router_op) (r : StorageRouter B) : router_out * StorageRouter B :=
  match o with
  | RPut merge env now c k d => let '(st, r') := RouterPut merge env now cat c k d r in (OutStatus st, r')
  | RGet c k => let '(x, r') := RouterGet cat c k r in (OutDoc x, r')
  | RScan c start limit => let '(rows, r') := RouterScan cat c start limit r in (OutRows rows, r')
  | RMerge c k remote => let '(st, r') := RouterMergeRemote cat c k remote r in (OutStatus st, r')
  | RFlush => let '(st, r') := RouterFlush r in (OutStatus st, r')
  end.

Fixpoint router_run (cat : Catalog) (ops : list router_op) (r : StorageRouter B)
  : list (router_op * router_out) * StorageRouter B :=
  match ops with
  | [] => ([], r)
  | o :: ops' => let '(out, r1) := router_step cat o r in
                 let '(tr, r2) := router_run cat ops' r1 in ((o, out) :: tr, r2)
  end.

(** What a map of documents would answer: a put or merge that reports success takes
    effect, one that reports failure does not, a get returns what is there and a scan
    lists it. *)
Fixpoint explains (m : bytes -> bytes -> option bytes) (tr : list (router_op * router_out)) : Prop :=
  match tr with
  | [] => True
  | (RPut _ _ _ c k d, OutStatus (OK _)) :: tr' =>
      explains (fun c' k' => if decide ((c', k') = (c, k)) then Some d else m c' k') tr'
  | (RMerge c k remote, OutStatus (OK _)) :: tr' =>
      exists d, merged_doc (m c k) remote = Some d
        /\ explains (fun c' k' => if decide ((c', k') = (c, k)) then Some d else m c' k') tr'
  | (RGet c k, OutDoc x) :: tr' =>
      x = match m c k with Some d => OK d | None => Fault kNotFound end /\ explains m tr'
  | (RScan c start limit, OutRows rows) :: tr' => scan_answer m c start limit rows /\ explains m tr'
  | (RPut _ _ _ _ _ _, OutStatus (Fault _)) :: tr' | (RMerge _ _ _, OutStatus (Fault _)) :: tr'
  | (RFlush, OutStatus _) :: tr' => explains m tr'
  | _ => False
  end.

Lemma explains_ext tr m m' : (forall c k, m c k = m' c k) -> explains m tr -> explains m' tr.
Proof.
  revert m m'. induction tr as [|[o out] tr IH]; intros m m' Hm; [done|].
  destruct o as [? ? ? c k d|c k|c start limit|c k remote|], out as [[]|x|rows]; cbn; try done; try (by apply IH).
  - apply IH. intros c' k'. case_decide; [done|apply Hm].
  - intros [-> H]. rewrite Hm. split; [done|]. by eapply IH.
  - intros [(all & A1 & A2 & A3) H]. split; [|by eapply IH]. exists all. split; [done|]. split; [|done].
    intros k d. rewrite <- Hm. apply A2.
  - intros (d & Hd & H). exists d. rewrite <- Hm. split; [done|]. revert H. apply IH.
    intros c' k'. case_decide; [done|apply Hm].
Qed.

(** C15: over engines that meet the backend contract ([BackendSpec]: documents by
    collection and key, an upsert that stores or leaves everything as it was, an ordered
    scan), with a fixed catalog whose bindings name registered engines, the router answers
    every run of puts, gets, scans, remote merges and flushes as one map from collection
    and key to document: a get returns the document of the last put or merge that reported
    success, a scan lists the documents from its start in key order up to its limit, a
    merge stores the merge of the remote document and the one that is there, a failed put
    or merge has no effect, flushes and index failures change nothing. *)
Theorem router_is_document_map cat ops r :
  router_inv cat r -> explains (router_docs cat r) (router_run cat ops r).1.
Proof.
  revert r. induction ops as [|o ops IH]; intros r Hr; [done|]. cbn [router_run].
  destruct o as [merge env now c k d|c k|c start limit|c k remote|]; cbn [router_step].
  - pose proof (RouterPut_docs merge env now cat c k d r Hr) as H.
    destruct (RouterPut merge env now cat c k d r) as [st r1]. destruct H as [H1 H2].
    specialize (IH r1 H1). destruct (router_run cat ops r1) as [tr r2]. destruct st; cbn in *;
      (eapply explains_ext; [|done]); intros; by rewrite H2.
  - destruct (RouterGet_docs cat r c k Hr) as (r1 & -> & H1 & H2). specialize (IH r1 H1).
    destruct (router_run cat ops r1) as [tr r2]. cbn in *. split; [done|].
    eapply explains_ext; [|done]. intros; by rewrite H2.
  - pose proof (RouterScan_docs cat r c start limit Hr) as H. destruct (RouterScan cat c start limit r) as [rows r1].
    destruct H as (H0 & H1 & H2). specialize (IH r1 H1). destruct (router_run cat ops r1) as [tr r2]. cbn in *.
    split; [done|]. eapply explains_ext; [|done]. intros; by rewrite H2.
  - pose proof (RouterMergeRemote_docs cat c k remote r Hr) as H. destruct (RouterMergeRemote cat c k remote r) as [st r1].
    destruct H as [H1 H2]. specialize (IH r1 H1). destruct (router_run cat ops r1) as [tr r2]. destruct st; cbn in *.
    + destruct H2 as (d & Hd & H2). exists d. split; [done|]. eapply explains_ext; [|done]. intros; by rewrite H2.
    + eapply explains_ext; [|done]. intros; by rewrite H2.
  - pose proof (for_backends_docs cat be_flush (map_to_list (backends_ r)) r Hr) as H. unfold RouterFlush.
    destruct (for_backends be_flush (map_to_list (backends_ r)) r) as [st r1].
    destruct H as [H1 H2]; [apply be_flush_spec|apply NoDup_fst_map_to_list|by intros ? ? ?%elem_of_map_to_list|].
    specialize (IH r1 H1). destruct (router_run cat ops r1) as [tr r2]. cbn in *.
    eapply explains_ext; [|done]. intros; by rewrite H2.
Qed.

(** A collection that lives in the default engine is not bound in the catalog, so
    binding it later to another engine is accepted, and from then on its documents are
    not found, although the router promises to refuse the rebinding of a populated
    collection. *)
Theorem bind_strands_documents now nonce cat file r c k d meta engine b2 :
  router_inv cat r -> collections_ cat !! c = Some meta -> cm_engine meta = [] ->
  router_docs cat r c k = Some d ->
  backends_ r !! engine = Some b2 -> be_docs b2 !! (c, k) = None ->
  engine <> [] -> cat_dek cat = [] ->
  exists cat' file',
    BindCollection now (mkSaveEnv CmOk nonce) (mkSaveEnv CmOk nonce) c engine r cat file = (OK tt, cat', file')
    /\ (RouterGet cat' c k r).1 = Fault kNotFound.
Proof.
  intros Hr Hc He Hd Hb Hn Hne Hk. unfold BindCollection. rewrite Hb.
  unfold HasCollection. rewrite bool_decide_eq_true_2 by (by eexists).
  unfold SetEngine, with_meta. rewrite Hc, He. cbn [bool_decide]. rewrite bool_decide_eq_true_2 by done. cbn [negb andb].
  unfold store, SaveLocked, WriteSealedJsonFile, bad_dek. cbn [cat_dek collections_ se_io se_nonce]. rewrite Hk.
  rewrite bool_decide_eq_true_2 by done. cbn [negb andb commit_file]. eexists _, _. split; [done|].
  unfold RouterGet, with_backend, BackendFor, EngineNameFor, GetCopy. cbn [collections_]. rewrite lookup_insert_eq.
  cbn [cm_engine]. rewrite bool_decide_eq_false_2 by done. rewrite Hb.
  destruct (ri_backends _ _ Hr _ _ Hb) as [Hi _].
  destruct (be_get_spec b2 c k Hi) as (b' & -> & _). by rewrite Hn.
Qed.
End Documents.

(** ** Witnesses *)
Definition two_engines : StorageRouter MemBackend :=
  mkRouter (bs "kv") (bs "n1") 0
    {[bs "kv" := mkMem (bs "kv") {[(bs "c", bs "k") := bs "doc"]} (mkQuota 0 0);
      bs "ts" := mkMem (bs "ts") ∅ (mkQuota 0 0)]}
    (mkIndex [] true ∅ []).
Definition one_collection : Catalog := mkCatalog {[bs "c" := fresh_meta 1 (bs "c") (-1)]} [].

Lemma two_engines_inv : @router_inv MemBackend mem_backend mem_backend_spec one_collection two_engines.
Proof.
  split.
  - intros name b. cbn [backends_ two_engines]. rewrite lookup_insert_Some, lookup_singleton_Some.
    intros [[<- <-]|[_ [<- <-]]]; done.
  - intros c. unfold EngineNameFor, GetCopy. cbn [collections_ one_collection].
    destruct (decide (bs "c" = c)) as [<-|Hc]; [by rewrite lookup_singleton_eq|].
    by rewrite lookup_singleton_ne.
Qed.

Definition demo_router_ops : list router_op :=
  [RPut false ix_demo_env 5 (bs "c") (bs "k2") (bs "two"); RGet (bs "c") (bs "k"); RFlush; RGet (bs "c") (bs "k2");
   RMerge (bs "c") (bs "k") (bs "remote"); RScan (bs "c") [] 0].

Lemma router_is_document_map_witness :
  explains (router_docs one_collection two_engines)
    (router_run (C := toy_crypto) one_collection demo_router_ops two_engines).1.
Proof. apply (router_is_document_map (C := toy_crypto)). apply two_engines_inv. Defined.

Lemma bind_strands_documents_witness :
  exists cat' file',
    BindCollection (C := toy_crypto) 3 (mkSaveEnv CmOk []) (mkSaveEnv CmOk []) (bs "c") (bs "ts") two_engines one_collection None
      = (OK tt, cat', file')
    /\ (RouterGet cat' (bs "c") (bs "k") two_engines).1 = Fault kNotFound.
Proof.
  apply (bind_strands_documents (C := toy_crypto) 3 [] one_collection None two_engines (bs "c") (bs "k") (bs "doc")
           (fresh_meta 1 (bs "c") (-1)) (bs "ts") (mkMem (bs "ts") ∅ (mkQuota 0 0)));
    first [apply two_engines_inv | by vm_compute].
Defined.
