(* ===== verification/StorageEngine.v ===== *)
(** * The storage engine: src/storage/storage_engine.cpp

    The ledger, the catalog and the router together: a put is appended to the ledger
    and synced before the backend is called; at start the latest put of every key and
    the access-control records are replayed from the ledger.  Clocks, nonces and the
    outcome of every write are arguments. *)
From Stdlib Require Import SpecFloat.
From S2P Require Import Prelude Bytes Hlc Json JsonText Crdt CrdtCodec AtRest AtRestFiles RecordLog.
From S2P Require Import SlottedPage Catalog CatalogProps CrossEngineIndex Backend Router RouterProps Wal.
Local Open Scope Z_scope.

Definition kMaxKeyBytes : Z := 64.
Definition kMaxDocBytes : Z := kPageSize - 4 - 4.

Record StorageEngine (B : Type) := mkEngine {
  en_quota_bytes : Z;
  en_wal : WriteAheadLog;
  en_catalog : Catalog;
  en_catalog_file : option bytes;
  en_router : StorageRouter B;
  en_observer : bool;              (* a tip observer is installed *)
  en_tips : list Z;                (* the LSNs it was called with, latest first *)
}.
Arguments mkEngine {B}.
Arguments en_quota_bytes {B}.
Arguments en_wal {B}.
Arguments en_catalog {B}.
Arguments en_catalog_file {B}.
Arguments en_router {B}.
Arguments en_observer {B}.
Arguments en_tips {B}.

Record QuotaStatus := mkQuotaStatus {
  limit_bytes : Z;
  used_bytes : Z;
  ledger_bytes : Z;
  used_fraction : spec_float;
  over_limit : bool;
}.

(** What one put meets: the ledger append and the append of its abort, the index
    append, the clock, the save of the catalog. *)
Record put_env := mkPutEnv {
  pe_wal : append_env;
  pe_abort : append_env;
  pe_index : bytes * append_result_io;
  pe_now : Z;
  pe_save : save_env;
}.

(** What the replay of one record meets. *)
Record replay_env := mkReplayEnv {
  re_now : Z;
  re_ensure : save_env;
  re_acl : save_env;
  re_index : bytes * append_result_io;
}.

Section StorageEngine.
Context `{C : Crypto} {B : Type} `{E : !EngineBackend B}.

Definition with_wal (w : WriteAheadLog) (e : StorageEngine B) : StorageEngine B :=
  mkEngine (en_quota_bytes e) w (en_catalog e) (en_catalog_file e) (en_router e) (en_observer e) (en_tips e).
Definition with_router (r : StorageRouter B) (e : StorageEngine B) : StorageEngine B :=
  mkEngine (en_quota_bytes e) (en_wal e) (en_catalog e) (en_catalog_file e) r (en_observer e) (en_tips e).
Definition with_catalog (cat : Catalog) (file : option bytes) (e : StorageEngine B) : StorageEngine B :=
  mkEngine (en_quota_bytes e) (en_wal e) cat file (en_router e) (en_observer e) (en_tips e).

(** [if (tip_observer_) tip_observer_(lsn)] *)
Definition notify (lsn : Z) (e : StorageEngine B) : StorageEngine B :=
  mkEngine (en_quota_bytes e) (en_wal e) (en_catalog e) (en_catalog_file e) (en_router e) (en_observer e)
    (if en_observer e then lsn :: en_tips e else en_tips e).

Definition SetTipObserver (installed : bool) (e : StorageEngine B) : StorageEngine B :=
  mkEngine (en_quota_bytes e) (en_wal e) (en_catalog e) (en_catalog_file e) (en_router e) installed (en_tips e).

Definition SetLedgerOrigin (id : bytes) (s : option (bytes -> bytes)) (e : StorageEngine B) : StorageEngine B :=
  with_wal (SetOrigin (en_wal e) id s) e.

Definition EnsureCollection (now : Z) (env : save_env) (collection : bytes) (e : StorageEngine B)
  : StatusOr unit * StorageEngine B :=
  if HasCollection (en_catalog e) collection then (OK tt, e)
  else let '(st, cat, file) := UpsertRootPageId now env collection (-1) (en_catalog e) (en_catalog_file e) in
       (st, with_catalog cat file e).

(** [FileSize] of the ledger is its length; the fraction is the double quotient. *)
Definition Quota (e : StorageEngine B) : QuotaStatus :=
  let ledger := Zlen (file_ (en_wal e)) in
  let used := u64 (RouterQuotaUse (en_router e) + ledger) in
  let limited := 0 <? en_quota_bytes e in
  mkQuotaStatus (en_quota_bytes e) used ledger
    (if limited then SFdiv 53 1024 (f64_of_int used) (f64_of_int (en_quota_bytes e)) else S754_zero false)
    (limited && (en_quota_bytes e <? used)).

Definition bad_key (key : bytes) : bool := bool_decide (key = []) || (kMaxKeyBytes <=? Zlen key).

(** The refusals before anything is written. *)
Definition put_refused (key encoded_doc : bytes) (e : StorageEngine B) : option StatusCode :=
  if bad_key key then Some kInvalidArgument
  else if kMaxDocBytes <? Zlen encoded_doc then Some kInvalidArgument
  else if (0 <? en_quota_bytes e)
          && (en_quota_bytes e <? u64 (used_bytes (Quota e) + 2 * (Zlen key + Zlen encoded_doc)))
  then Some kOutOfSpace else None.

Definition PutRaw (env : put_env) (collection key encoded_doc : bytes) (e : StorageEngine B)
  : StatusOr unit * StorageEngine B :=
  match put_refused key encoded_doc e with
  | Some c => (Fault c, e)
  | None =>
      match Append (pe_wal env) (en_wal e) kPut collection key encoded_doc default_options with
      | (Fault c, w) => (Fault c, with_wal w e)
      | (OK lsn, w) =>
          let '(st, r) := RouterPut false (pe_index env) (pe_now env) (en_catalog e) collection key encoded_doc
                            (en_router e) in
          let e1 := with_router r (with_wal w e) in
          match st with
          | Fault c =>
              (Fault c, with_wal (Append (pe_abort env) w kAbort collection key [] default_options).2 e1)
          | OK _ => (OK tt, notify lsn (EnsureCollection (pe_now env) (pe_save env) collection e1).2)
          end
      end
  end.

Definition set_hlc (hlc : HLCTimestamp) (o : AppendOptions) : AppendOptions :=
  mkOpts hlc (o_transit_holder o) (o_transit_size o) (o_chunk_index o) (o_chunk_total o).

Definition AppendLedgerOp (env : append_env) (t : WalRecordType) (collection key payload : bytes)
    (hlc : HLCTimestamp) (o : AppendOptions) (e : StorageEngine B) : StatusOr Z * StorageEngine B :=
  match Append env (en_wal e) t collection key payload (set_hlc hlc o) with
  | (Fault c, w) => (Fault c, with_wal w e)
  | (OK lsn, w) => (OK lsn, notify lsn (with_wal w e))
  end.

Definition GetRaw (collection key : bytes) (e : StorageEngine B) : StatusOr bytes * StorageEngine B :=
  let '(x, r) := RouterGet (en_catalog e) collection key (en_router e) in (x, with_router r e).

Definition EngineScan (collection start_key : bytes) (limit : nat) (e : StorageEngine B)
  : list EngineRow * StorageEngine B :=
  let '(x, r) := RouterScan (en_catalog e) collection start_key limit (en_router e) in (x, with_router r e).

(** Failures are only logged. *)
Definition EngineCheckpoint (env : save_env) (e : StorageEngine B) : StorageEngine B :=
  let r := (RouterFlush (en_router e)).2 in
  with_catalog (en_catalog e) (SaveLocked env (en_catalog e) (en_catalog_file e)).2 (with_router r e).

Definition LedgerEntries (from to : Z) (e : StorageEngine B) : option (list WalRecord) := ReadRange (en_wal e) from to.

(** [None]: an exception escapes the ledger read. *)
Definition VerifyAll (verify : option SignatureVerifier) (e : StorageEngine B)
  : option (VerifyResult * bool * StorageEngine B) :=
  match VerifyChain verify (en_wal e) with
  | None => None
  | Some (vr, w) =>
      let '(st, r) := RouterVerify (en_router e) in
      Some (vr, match st with OK _ => true | Fault _ => false end, with_router r (with_wal w e))
  end.

(** ** ReplayLedger *)

(** The last put of each key, oldest first: the scan runs backwards and keeps the first
    record it meets for a key. *)
Fixpoint newest_first (seen : gset (bytes * bytes)) (rev_records : list WalRecord) : list WalRecord :=
  match rev_records with
  | [] => []
  | r :: rs =>
      if bool_decide (r_type r = kPut) then
        if bool_decide ((r_collection r, r_key r) ∈ seen) then newest_first seen rs
        else r :: newest_first ({[(r_collection r, r_key r)]} ∪ seen) rs
      else newest_first seen rs
  end.

Definition latest_puts (records : list WalRecord) : list WalRecord := reverse (newest_first ∅ (reverse records)).

(** One access-control record: a document that does not parse or lacks its members is
    skipped, and so is what the catalog refuses. *)
Definition replay_acl (renv : replay_env) (rec : WalRecord) (e : StorageEngine B) : StorageEngine B :=
  match Parse (r_document rec) with
  | None => e
  | Some env =>
      match Find env (bs "acl"), Find env (bs "updated_ms") with
      | Some acl_v, Some ms_v =>
          if is_object acl_v && is_number ms_v then
            let e1 := (EnsureCollection (re_now renv) (re_ensure renv) (r_collection rec) e).2 in
            let '(_, cat, file) := SetAclAt (re_acl renv) (r_collection rec) (acl_members acl_v) (u64 (AsInt ms_v))
                                     (en_catalog e1) (en_catalog_file e1) in
            with_catalog cat file e1
          else e
      | _, _ => e
      end
  end.

Definition replay_record (renv : WalRecord -> replay_env) (e : StorageEngine B) (rec : WalRecord) : StorageEngine B :=
  if bool_decide (r_type rec = kAcl) then replay_acl (renv rec) rec e else e.

(** One document: read, and written only when it differs; a refused write is logged. *)
Definition replay_put (renv : WalRecord -> replay_env) (e : StorageEngine B) (rec : WalRecord) : StorageEngine B :=
  let '(existing, r) := RouterGet (en_catalog e) (r_collection rec) (r_key rec) (en_router e) in
  let e1 := with_router r e in
  if match existing with OK d => bool_decide (d = r_document rec) | Fault _ => false end then e1
  else with_router (RouterPut true (re_index (renv rec)) (re_now (renv rec)) (en_catalog e1) (r_collection rec)
                      (r_key rec) (r_document rec) (en_router e1)).2 e1.

Definition ReplayLedger (renv : WalRecord -> replay_env) (e : StorageEngine B)
  : option (StatusOr unit * StorageEngine B) :=
  match ReadAllLocked (en_wal e) with
  | None => None
  | Some (records, w) =>
      let e0 := with_wal w e in
      if bool_decide (records = []) then Some (OK tt, e0)
      else
        let e1 := fold_left (replay_record renv) records e0 in
        let e2 := fold_left (replay_put renv) (latest_puts records) e1 in
        let '(st, r) := RouterFlush (en_router e2) in Some (st, with_router r e2)
  end.

(** ** Open *)
Record EngineOptions := mkEngineOptions {
  eo_quota_mb : Z;
  eo_router : RouterOptions;      (* quota, share, engines, default, node id, pool, key *)
}.

(** What is on disk, and the environment of the opening. *)
Record engine_disk := mkEngineDisk {
  ed_dir_ok : bool;
  ed_engines_dir_ok : bool;
  ed_wal : bytes;
  ed_hwm : option (Z * bytes);
  ed_catalog : option bytes;
  ed_index : bytes;
}.

Definition EngineOpen (make_backend : bytes -> Z -> Z -> bytes -> StatusOr B) (o : EngineOptions) (disk : engine_disk)
    (nonces : nat -> bytes) (io : rewrite_io) (hio : hwm_io) (renv : WalRecord -> replay_env)
  : option (StatusOr (StorageEngine B)) :=
  let dek := ro_dek (eo_router o) in
  if negb (ed_dir_ok disk) then Some (Fault kIOError)
  else if bad_dek dek then Some (Fault kInvalidArgument)
  else
    match Open nonces io hio (ed_wal disk) (ed_hwm disk) dek with
    | None => None
    | Some (Fault c) => Some (Fault c)
    | Some (OK w) =>
        match OpenCatalog (ed_catalog disk) dek with
        | None => None
        | Some (Fault c) => Some (Fault c)
        | Some (OK cat) =>
            match RouterOpen make_backend (ed_engines_dir_ok disk) (eo_router o) (ed_index disk) with
            | None => None
            | Some (Fault c) => Some (Fault c)
            | Some (OK r) =>
                match ReplayLedger renv
                        (mkEngine (u64 (eo_quota_mb o * 1024 * 1024)) w cat (ed_catalog disk) r false []) with
                | None => None
                | Some (Fault c, _) => Some (Fault c)
                | Some (OK _, e) => Some (OK e)
                end
            end
        end
    end.
End StorageEngine.
