(* ===== verification/StorageProps.v ===== *)
(** * Theorems about the storage engine

    The ledger decides: whatever the backends hold after a crash, replay brings every
    document to the value of its last ledger record, and so an acknowledged put
    survives.  The ledger also keeps what the caller was told had failed; a theorem
    shows what that means after a restart. *)
From S2P Require Import Prelude Bytes Hlc Json JsonText Crdt CrdtCodec AtRest AtRestFiles RecordLog.
From S2P Require Import SlottedPage Wal WalCodec WalLog WalProps Catalog CatalogProps CrossEngineIndex.
From S2P Require Import Backend Router RouterProps StorageEngine.
Local Open Scope Z_scope.

(** ** The documents a ledger records *)
Definition ledger_step (m : docs) (r : WalRecord) : docs :=
  if bool_decide (r_type r = kPut) then <[(r_collection r, r_key r) := r_document r]> m else m.
Definition ledger_docs (records : list WalRecord) : docs := fold_left ledger_step records ∅.

Lemma ledger_docs_snoc rs r : ledger_docs (rs ++ [r]) = ledger_step (ledger_docs rs) r.
Proof. unfold ledger_docs. by rewrite fold_left_app. Qed.

Definition rec_key (r : WalRecord) : bytes * bytes := (r_collection r, r_key r).

(** The backward scan keeps, for every key not seen yet, its last put. *)
Lemma newest_first_spec rs seen :
  let l := newest_first seen (reverse rs) in
  NoDup (map rec_key l)
  /\ (forall r, r ∈ l -> rec_key r ∉ seen)
  /\ (forall r, r ∈ l -> ledger_docs rs !! rec_key r = Some (r_document r))
  /\ (forall ck d, ck ∉ seen -> ledger_docs rs !! ck = Some d -> exists r, r ∈ l /\ rec_key r = ck /\ r_document r = d).
Proof.
  revert seen. induction rs as [|r rs IH] using rev_ind; intros seen; cbv zeta.
  - cbn. split; [constructor|]. split; [by intros r ?%elem_of_nil|]. split; [by intros r ?%elem_of_nil|].
    intros ck d _. by rewrite lookup_empty.
  - rewrite reverse_snoc, ledger_docs_snoc. cbn [newest_first]. unfold ledger_step.
    case_bool_decide as Ht; [|apply IH]. case_bool_decide as Hs.
    + destruct (IH seen) as (I1 & I2 & I3 & I4). split; [done|]. split; [done|]. split.
      * intros r' Hr'. rewrite lookup_insert_ne; [by apply I3|]. intros E. by apply (I2 r' Hr'); rewrite <- E.
      * intros ck d Hck. rewrite lookup_insert_ne; [by apply I4|]. by intros <-.
    + destruct (IH ({[(r_collection r, r_key r)]} ∪ seen)) as (I1 & I2 & I3 & I4). split; [|split; [|split]].
      * cbn. constructor; [|done]. intros (r' & E & Hr')%list_elem_of_fmap. apply (I2 r' Hr'). rewrite <- E. set_solver.
      * intros r' [->|Hr']%elem_of_cons; [done|]. specialize (I2 r' Hr'). set_solver.
      * intros r' [->|Hr']%elem_of_cons; [by rewrite lookup_insert_eq|]. rewrite lookup_insert_ne; [by apply I3|].
        intros E. apply (I2 r' Hr'). rewrite <- E. set_solver.
      * intros ck d Hck Hl. destruct (decide (ck = rec_key r)) as [->|Hne].
        -- rewrite lookup_insert_eq in Hl. exists r. split; [left|]. split; [done|congruence].
        -- rewrite lookup_insert_ne in Hl by (intros <-; done). destruct (I4 ck d) as (r' & ? & ? & ?); [set_solver|done|].
           exists r'. split; [by right|done].
Qed.

Lemma latest_puts_spec rs :
  NoDup (map rec_key (latest_puts rs))
  /\ (forall r, r ∈ latest_puts rs -> ledger_docs rs !! rec_key r = Some (r_document r))
  /\ (forall ck d, ledger_docs rs !! ck = Some d -> exists r, r ∈ latest_puts rs /\ rec_key r = ck /\ r_document r = d).
Proof.
  destruct (newest_first_spec rs ∅) as (H1 & _ & H3 & H4). unfold latest_puts. split; [|split].
  - change (map rec_key ?l) with (rec_key <$> l). rewrite fmap_reverse. by rewrite reverse_Permutation.
  - intros r. rewrite elem_of_reverse. apply H3.
  - intros ck d Hl. destruct (H4 ck d) as (r & Hr & ?); [apply not_elem_of_empty|done|].
    exists r. by rewrite elem_of_reverse.
Qed.

(** ** Replay *)
Section Replay.
Context `{C : Crypto} {B : Type} {E : EngineBackend B} `{S : !BackendSpec E}.
Implicit Types e : StorageEngine B.

Definition engine_docs e (c k : bytes) : option bytes := router_docs (en_catalog e) (en_router e) c k.
Definition engine_ok e : Prop := router_inv (en_catalog e) (en_router e).

(** The catalog changes that replay and puts make keep every binding. *)
Definition same_bindings (cat cat' : Catalog) : Prop :=
  forall c, default [] (cm_engine <$> collections_ cat' !! c) = default [] (cm_engine <$> collections_ cat !! c).

Lemma same_bindings_name cat cat' (r : StorageRouter B) c :
  same_bindings cat cat' -> EngineNameFor cat' r c = EngineNameFor cat r c.
Proof.
  intros H. specialize (H c). unfold EngineNameFor, GetCopy.
  destruct (collections_ cat' !! c) as [m'|], (collections_ cat !! c) as [m|]; cbn in H; rewrite ?H; try done.
  by rewrite <- H.
Qed.

Lemma same_bindings_docs cat cat' (r : StorageRouter B) :
  same_bindings cat cat' ->
  (router_inv cat r -> router_inv cat' r) /\ forall c k, router_docs cat' r c k = router_docs cat r c k.
Proof.
  intros H. split.
  - intros [H1 H2]. split; [done|]. intros c. by rewrite (same_bindings_name _ _ _ _ H).
  - intros c k. unfold router_docs, BackendFor. by rewrite (same_bindings_name _ _ _ _ H).
Qed.

Lemma store_bindings env name m cat file :
  cm_engine m = default [] (cm_engine <$> collections_ cat !! name) ->
  same_bindings cat (store env name m cat file).1.2.
Proof.
  intros Hm c. unfold store. destruct (SaveLocked _ _ _) as [st f]. cbn.
  destruct (decide (c = name)) as [->|]; [by rewrite lookup_insert_eq|]. by rewrite lookup_insert_ne.
Qed.

Lemma EnsureCollection_keeps now env c e :
  let e' := (EnsureCollection now env c e).2 in
  en_router e' = en_router e /\ en_wal e' = en_wal e /\ same_bindings (en_catalog e) (en_catalog e').
Proof.
  unfold EnsureCollection. destruct (HasCollection (en_catalog e) c) eqn:Eh; [done|].
  unfold HasCollection in Eh. apply bool_decide_eq_false, eq_None_not_Some in Eh.
  pose proof (store_bindings env c (fresh_meta now c (-1)) (en_catalog e) (en_catalog_file e)) as H.
  rewrite Eh in H. specialize (H eq_refl). unfold UpsertRootPageId. rewrite Eh.
  destruct (store env c _ _ _) as [[st cat] file]. done.
Qed.

Lemma SetAclAt_bindings env name acl ms cat file :
  same_bindings cat (SetAclAt env name acl ms cat file).1.2.
Proof.
  unfold SetAclAt, with_meta. destruct (collections_ cat !! name) as [m|] eqn:Em; [|done].
  destruct (bool_decide _); [done|]. destruct (_ <? _); [done|]. apply store_bindings. by rewrite Em.
Qed.

Lemma replay_record_keeps renv e rec :
  let e' := replay_record renv e rec in
  en_router e' = en_router e /\ same_bindings (en_catalog e) (en_catalog e').
Proof.
  unfold replay_record, replay_acl. repeat case_match; try done.
  match goal with H : SetAclAt ?env ?n ?a ?ms ?c ?f = _ |- _ => pose proof (SetAclAt_bindings env n a ms c f) as Hb; rewrite H in Hb end.
  destruct (EnsureCollection_keeps (re_now (renv rec)) (re_ensure (renv rec)) (r_collection rec) e) as (K1 & _ & K2).
  cbn [fst snd en_router en_catalog with_catalog] in *. split; [done|]. intros x. rewrite Hb. apply K2.
Qed.

Lemma replay_records_keep renv rs e :
  let e' := fold_left (replay_record renv) rs e in
  en_router e' = en_router e /\ same_bindings (en_catalog e) (en_catalog e').
Proof.
  revert e. induction rs as [|r rs IH]; intros e; [done|]. cbn [fold_left].
  destruct (replay_record_keeps renv e r) as [H1 H2]. destruct (IH (replay_record renv e r)) as [J1 J2].
  split; [congruence|]. intros c. by rewrite J2.
Qed.

(** One document: afterwards it has the ledger's value, or the backend refused it and
    it is as before; no other document changes. *)
Lemma replay_put_docs renv e rec :
  engine_ok e ->
  let e' := replay_put renv e rec in
  engine_ok e' /\ en_catalog e' = en_catalog e
  /\ (forall c k, (c, k) <> rec_key rec -> engine_docs e' c k = engine_docs e c k)
  /\ (engine_docs e' (r_collection rec) (r_key rec) = Some (r_document rec)
      \/ engine_docs e' (r_collection rec) (r_key rec) = engine_docs e (r_collection rec) (r_key rec)
         /\ exists r code, (RouterPut true (re_index (renv rec)) (re_now (renv rec)) (en_catalog e) (r_collection rec)
              (r_key rec) (r_document rec) r).1 = Fault code /\ router_inv (en_catalog e) r).
Proof.
  intros He. unfold replay_put, engine_docs.
  destruct (RouterGet_docs (en_catalog e) (en_router e) (r_collection rec) (r_key rec) He) as (r1 & -> & H1 & H2).
  cbn [en_catalog en_router with_router].
  destruct (match _ with OK d => _ | Fault _ => false end) eqn:Ex.
  - cbn [en_catalog en_router with_router]. split; [done|]. split; [done|]. split; [by intros; rewrite H2|].
    left. rewrite H2. destruct (router_docs _ _ (r_collection rec) (r_key rec)); [|done].
    apply bool_decide_eq_true in Ex. by rewrite Ex.
  - pose proof (RouterPut_docs true (re_index (renv rec)) (re_now (renv rec)) (en_catalog e) (r_collection rec) (r_key rec)
      (r_document rec) r1 H1) as Hp.
    destruct (RouterPut true _ _ (en_catalog e) _ _ _ r1) as [st r2] eqn:Ep. destruct Hp as [P1 P2].
    cbn [en_catalog en_router with_router snd]. split; [done|]. split; [done|]. split.
    + intros c k Hck. rewrite P2. destruct st; [|by rewrite H2]. case_decide as Ed; [|by rewrite H2]. by destruct Hck.
    + rewrite P2. destruct st as [u|code]; [left; by rewrite decide_True|right].
      split; [by rewrite H2|]. exists r1, code. by rewrite Ep.
Qed.

(** The backend the collection is bound to refuses the document of [rec], put as the
    replay puts it, in some state that satisfies its contract. *)
Definition replay_refused (renv : WalRecord -> replay_env) (cat : Catalog) (rec : WalRecord) : Prop :=
  exists (r : StorageRouter B) code, router_inv cat r
    /\ (RouterPut true (re_index (renv rec)) (re_now (renv rec)) cat (r_collection rec) (r_key rec) (r_document rec) r).1 = Fault code.

(** The engine's backends take every put of the replay. *)
Definition accepting (cat : Catalog) : Prop :=
  forall env now c k d (r : StorageRouter B), router_inv cat r -> (RouterPut true env now cat c k d r).1 = OK tt.

Lemma accepting_not_refused renv cat rec : accepting cat -> ~ replay_refused renv cat rec.
Proof. intros Ha (r & code & Hi & Hf). by rewrite (Ha _ _ _ _ _ _ Hi) in Hf. Qed.

Lemma replay_puts_docs renv l e :
  engine_ok e -> NoDup (map rec_key l) ->
  let e' := fold_left (replay_put renv) l e in
  engine_ok e' /\ en_catalog e' = en_catalog e
  /\ (forall r, r ∈ l -> engine_docs e' (r_collection r) (r_key r) = Some (r_document r)
        \/ engine_docs e' (r_collection r) (r_key r) = engine_docs e (r_collection r) (r_key r)
           /\ replay_refused renv (en_catalog e) r)
  /\ (forall c k, (c, k) ∉ map rec_key l -> engine_docs e' c k = engine_docs e c k).
Proof.
  intros He Hn. revert e He. induction l as [|r l IH]; intros e He; cbn [fold_left map] in *.
  { split; [done|]. split; [done|]. split; [by intros r ?%elem_of_nil|done]. }
  apply NoDup_cons in Hn as [Hr Hn].
  destruct (replay_put_docs renv e r He) as (H1 & H2 & H3 & H4).
  destruct (IH Hn (replay_put renv e r) H1) as (J1 & J2 & J3 & J4).
  split; [done|]. split; [congruence|]. split.
  - intros r' [->|Hr']%elem_of_cons.
    + rewrite J4 by done. destruct H4 as [?|(Hd & rx & code & Hf & Hi)]; [by left|right]. split; [done|]. by exists rx, code.
    + destruct (J3 r' Hr') as [?|[J5 J6]]; [by left|right]. rewrite H2 in J6. split; [|done]. rewrite J5. apply H3.
      intros Ek. apply Hr. change (r_collection r', r_key r') with (rec_key r') in Ek. rewrite <- Ek. by apply list_elem_of_fmap_2.
  - intros c k Hck. rewrite not_elem_of_cons in Hck. destruct Hck as [Hc1 Hc2]. rewrite J4 by done. by apply H3.
Qed.

Lemma replay_restores renv e rs w :
  ReadAllLocked (en_wal e) = Some (rs, w) -> engine_ok e ->
  exists st e', ReplayLedger renv e = Some (st, e')
    /\ forall c k, match ledger_docs rs !! (c, k) with
       | Some d => engine_docs e' c k = Some d
           \/ engine_docs e' c k = engine_docs e c k
              /\ exists cat rec, same_bindings (en_catalog e) cat /\ rec_key rec = (c, k) /\ r_document rec = d /\ replay_refused renv cat rec
       | None => engine_docs e' c k = engine_docs e c k
       end.
Proof.
  intros Hw He. unfold ReplayLedger. rewrite Hw.
  case_bool_decide as Hrs.
  { subst rs. eexists _, _. split; [done|]. intros c k. done. }
  set (e0 := with_wal _ e). set (e1 := fold_left (replay_record renv) rs e0).
  destruct (replay_records_keep renv rs e0) as [R1 R2]. fold e1 in R1, R2.
  change (en_catalog e0) with (en_catalog e) in R2. change (en_router e0) with (en_router e) in R1.
  destruct (same_bindings_docs _ _ (en_router e) R2) as [D1 D2].
  assert (He1 : engine_ok e1) by (unfold engine_ok; rewrite R1; by apply D1).
  assert (Hd1 : forall c k, engine_docs e1 c k = engine_docs e c k) by (intros c k; unfold engine_docs; rewrite R1; apply D2).
  destruct (latest_puts_spec rs) as (L1 & L2 & L3).
  destruct (replay_puts_docs renv (latest_puts rs) e1 He1 L1) as (P1 & P2 & P3 & P4).
  set (e2 := fold_left (replay_put renv) (latest_puts rs) e1) in *.
  pose proof (for_backends_docs (en_catalog e2) be_flush (map_to_list (backends_ (en_router e2))) (en_router e2) P1) as Hf.
  unfold RouterFlush. destruct (for_backends be_flush _ _) as [st r].
  destruct Hf as [_ F2]; [apply be_flush_spec|apply NoDup_fst_map_to_list|by intros ? ? ?%elem_of_map_to_list|].
  eexists _, _. split; [done|]. intros c k.
  assert (Hfl : engine_docs (with_router r e2) c k = engine_docs e2 c k) by apply F2. rewrite Hfl.
  destruct (ledger_docs rs !! (c, k)) as [d|] eqn:Ed.
  - destruct (L3 _ _ Ed) as (r' & Hr' & Ek & <-). pose proof Ek as Ek'. unfold rec_key in Ek'. simplify_eq.
    destruct (P3 r' Hr') as [?|[Hs Href]]; [by left|right]. split; [by rewrite Hs|]. by exists (en_catalog e1), r'.
  - rewrite P4; [apply Hd1|]. intros (r' & Ek & Hr')%list_elem_of_fmap.
    rewrite Ek, (L2 r' Hr') in Ed. done.
Qed.

(** Recovery from the ledger: whatever state the backends and the catalog were left
    in by a crash, after replay every document with a put in the ledger has the value of
    its last put unless its backend refused that put, which leaves it as it was, and every
    other document is untouched. *)
Theorem replay_restores_ledger renv e rs w :
  ReadAllLocked (en_wal e) = Some (rs, w) -> engine_ok e ->
  exists st e', ReplayLedger renv e = Some (st, e')
    /\ forall c k, match ledger_docs rs !! (c, k) with
       | Some d => engine_docs e' c k = Some d
           \/ engine_docs e' c k = engine_docs e c k
              /\ exists cat rec, same_bindings (en_catalog e) cat /\ rec_key rec = (c, k) /\ r_document rec = d /\ replay_refused renv cat rec
       | None => engine_docs e' c k = engine_docs e c k
       end.
Proof. apply replay_restores. Qed.

Context `{!CryptoLaws C}.

(** ** Puts *)

(** Sizes that keep a record within what the ledger reads back: the signature and the
    identifiers of the log, and the collection's name. *)
Definition sizes_ok (w : WriteAheadLog) (c : bytes) : Prop :=
  Zlen (origin_node_id w) <= 2 ^ 20 /\ Zlen c <= 2 ^ 20
  /\ match signer w with Some f => forall m, Zlen (f m) <= 2 ^ 20 | None => True end.

Lemma put_args_ok w t c k d :
  t = kPut \/ t = kAbort -> sizes_ok w c -> Zlen k < kMaxKeyBytes -> Zlen d <= kMaxDocBytes ->
  length (tip_hash w) = kWalHashLen -> append_args_ok w t c k d default_options.
Proof.
  intros Ht (Ho & Hc & Hs) Hk Hd Htip. unfold kMaxDocBytes, kPageSize, kMaxKeyBytes in *.
  assert (Hnt : bool_decide (t = kTransitIntent) = false) by (apply bool_decide_eq_false_2; by destruct Ht as [->| ->]).
  split.
  - by destruct Ht as [->| ->].
  - done.
  - intros ->. by destruct Ht.
  - assert (Hsig : Zlen (match signer w with
                        | Some f => f (BuildContent (mkRec (next_lsn w) t c k d (LedgerKeyHash c k)
                            (mkTs 0 0 (origin_node_id w)) (origin_node_id w) [] (tip_hash w) [] [] 0 0 1 true))
                        | None => [] end) <= 2 ^ 20) by (destruct (signer w); [apply Hs|done]).
    unfold new_record. rewrite Hnt. cbn [o_hlc default_options ts_default node_id physical_ms logical].
    rewrite bool_decide_eq_true_2 by done. revert Hsig. set (sig := match signer w with Some f => _ | None => _ end).
    intros Hsig. rewrite EncodeBody_fields. unfold body_fields, body_tail, kMaxRecordBytes.
    cbn [r_lsn r_type r_collection r_key r_document r_key_hash r_hlc r_origin r_signature r_prev_hash r_entry_hash
         r_transit_holder r_transit_size r_chunk_index r_chunk_total r_position_bound node_id physical_ms logical magic_of].
    rewrite Hnt. unfold Zlen in *. cbn [magic_of r_position_bound]. unfold ByteWriter.RawBytes.
    repeat rewrite length_app. rewrite !Bytes_length, !U32_length. unfold LedgerKeyHash.
    rewrite !sha_length, Htip. unfold kWalHashLen. cbn [length].
    change (length (ByteWriter.U8 _)) with 1%nat. change (length (ByteWriter.U64 _)) with 8%nat. lia.
Qed.

Lemma append_step env w rs t c k d :
  t = kPut \/ t = kAbort -> wal_inv w rs -> next_lsn w < INT64_MAX -> sizes_ok w c ->
  Zlen k < kMaxKeyBytes -> Zlen d <= kMaxDocBytes -> nonce_ok (e_nonce env) -> e_io env = IoOk ->
  exists w', Append env w t c k d default_options = (OK (next_lsn w), w')
    /\ wal_inv w' (rs ++ [new_record w t c k d default_options]) /\ next_lsn w' = next_lsn w + 1
    /\ origin_node_id w' = origin_node_id w /\ signer w' = signer w /\ subkey w' = subkey w.
Proof.
  intros Ht Hw Hmax Hs Hk Hd Hn Hio.
  assert (Ha : append_args_ok w t c k d default_options).
  { apply put_args_ok; try done. rewrite (inv_tip _ _ Hw). eapply tip_of_length, log_of_ok, (inv_log _ _ Hw). }
  destruct (Append_inv env w rs t c k d default_options Hw Hmax Ha Hn Hio) as (w' & Hap & Hinv).
  exists w'. split; [done|]. split; [done|]. revert Hap. unfold Append, commit_record.
  destruct (_ =? INT64_MAX); [done|]. destruct (SealPayload _ _ _); [|done]. destruct (negb _); [done|].
  rewrite Hio. destruct (WriteHwmIfDueLocked _ _ _ _ _) as [[? ?] ?]. intros [= <-]. done.
Qed.

Record put_op := mkPutOp { po_env : put_env; po_coll : bytes; po_key : bytes; po_doc : bytes }.

Definition op_key (p : put_op) : bytes * bytes := (po_coll p, po_key p).

(** The environment lets the ledger write. *)
Definition put_env_ok (p : put_op) : Prop :=
  nonce_ok (e_nonce (pe_wal (po_env p))) /\ e_io (pe_wal (po_env p)) = IoOk
  /\ nonce_ok (e_nonce (pe_abort (po_env p))) /\ e_io (pe_abort (po_env p)) = IoOk.

Definition put_one (p : put_op) e : StatusOr unit * StorageEngine B :=
  PutRaw (po_env p) (po_coll p) (po_key p) (po_doc p) e.

Lemma put_refused_sizes k d e : put_refused k d e = None -> Zlen k < kMaxKeyBytes /\ Zlen d <= kMaxDocBytes.
Proof.
  unfold put_refused, bad_key. destruct (bool_decide (k = [])); [done|]. cbn [orb].
  destruct (Z.leb_spec kMaxKeyBytes (Zlen k)); [done|]. destruct (Z.ltb_spec kMaxDocBytes (Zlen d)); [done|]. lia.
Qed.

Lemma put_one_spec p e rs :
  wal_inv (en_wal e) rs -> next_lsn (en_wal e) + 2 <= INT64_MAX -> sizes_ok (en_wal e) (po_coll p) ->
  put_env_ok p -> engine_ok e ->
  let '(st, e') := put_one p e in
  exists rs', wal_inv (en_wal e') (rs ++ rs') /\ Forall (fun r => rec_key r = op_key p) rs'
    /\ next_lsn (en_wal e') <= next_lsn (en_wal e) + 2
    /\ origin_node_id (en_wal e') = origin_node_id (en_wal e) /\ signer (en_wal e') = signer (en_wal e)
    /\ subkey (en_wal e') = subkey (en_wal e) /\ engine_ok e'
    /\ (st = OK tt -> ledger_docs (rs ++ rs') !! op_key p = Some (po_doc p)
                     /\ engine_docs e' (po_coll p) (po_key p) = Some (po_doc p))
    /\ (put_refused (po_key p) (po_doc p) e = None ->
        ledger_docs (rs ++ rs') !! op_key p = Some (po_doc p)).
Proof.
  intros Hw Hmax Hs (N1 & I1 & N2 & I2) He. unfold put_one, PutRaw.
  destruct (put_refused (po_key p) (po_doc p) e) as [c|] eqn:Er.
  { exists []. rewrite app_nil_r. split_and!; first [done | lia]. }
  destruct (put_refused_sizes _ _ _ Er) as [Hk Hd].
  destruct (append_step (pe_wal (po_env p)) _ rs kPut (po_coll p) (po_key p) (po_doc p) (or_introl eq_refl) Hw
    ltac:(lia) Hs Hk Hd N1 I1) as (w1 & -> & W1 & L1 & O1 & S1 & K1).
  set (rec := new_record _ kPut _ _ _ _) in *.
  assert (Hdocs : forall rs2, Forall (fun r => r_type r <> kPut) rs2 ->
            ledger_docs ((rs ++ [rec]) ++ rs2) !! op_key p = Some (po_doc p)).
  { intros rs2 H2. induction rs2 as [|r rs2 IH] using rev_ind.
    - rewrite app_nil_r, ledger_docs_snoc. apply lookup_insert_eq.
    - apply Forall_app in H2 as [H2 [H3 _]%Forall_cons]. rewrite app_assoc, ledger_docs_snoc. unfold ledger_step.
      rewrite (bool_decide_eq_false_2 (r_type r = kPut)) by exact H3. by apply IH. }
  pose proof (RouterPut_docs false (pe_index (po_env p)) (pe_now (po_env p)) (en_catalog e) (po_coll p) (po_key p)
    (po_doc p) (en_router e) He) as Hp.
  destruct (RouterPut false _ _ _ _ _ _ _) as [st r]. destruct Hp as [P1 P2]. destruct st as [[]|code].
  - set (e1 := with_router r _).
    destruct (EnsureCollection_keeps (pe_now (po_env p)) (pe_save (po_env p)) (po_coll p) e1) as (K2 & K3 & K4).
    set (e2 := (EnsureCollection _ _ _ e1).2) in *. change (en_wal (notify _ e2)) with (en_wal e2).
    change (en_wal e1) with w1 in K3. change (en_router e1) with r in K2. change (en_catalog e1) with (en_catalog e) in K4.
    destruct (same_bindings_docs _ _ r K4) as [D1 D2].
    exists [rec]. rewrite K3. split_and!; try done; try lia.
    + by constructor.
    + change (router_inv (en_catalog e2) (en_router e2)). rewrite K2. by apply D1.
    + intros _. split; [rewrite <- (app_nil_r [rec]), app_assoc; by apply Hdocs|].
      change (router_docs (en_catalog e2) (en_router e2) (po_coll p) (po_key p) = Some (po_doc p)).
      rewrite K2, D2, P2. by rewrite decide_True.
    + intros _. rewrite <- (app_nil_r [rec]), app_assoc. by apply Hdocs.
  - destruct (append_step (pe_abort (po_env p)) w1 _ kAbort (po_coll p) (po_key p) [] (or_intror eq_refl) W1
      ltac:(lia) ltac:(unfold sizes_ok; by rewrite O1, S1) Hk ltac:(done) N2 I2) as (w2 & -> & W2 & L2 & O2 & S2 & K2).
    exists [rec; new_record w1 kAbort (po_coll p) (po_key p) [] default_options].
    cbn [en_wal with_wal with_router snd]. rewrite <- app_assoc in W2.
    split_and!; try done; try lia; try congruence; [by repeat constructor|].
    intros _. specialize (Hdocs [new_record w1 kAbort (po_coll p) (po_key p) [] default_options]).
    rewrite <- app_assoc in Hdocs. apply Hdocs. by constructor.
Qed.

Fixpoint run_puts (l : list put_op) e : StorageEngine B :=
  match l with
  | [] => e
  | p :: l' => run_puts l' (put_one p e).2
  end.

Lemma run_puts_spec l e rs :
  wal_inv (en_wal e) rs -> next_lsn (en_wal e) + 2 * Zlen l <= INT64_MAX ->
  Forall (fun p => put_env_ok p /\ sizes_ok (en_wal e) (po_coll p)) l -> engine_ok e ->
  let e' := run_puts l e in
  exists rs', wal_inv (en_wal e') (rs ++ rs') /\ Forall (fun r => rec_key r ∈ map op_key l) rs'
    /\ next_lsn (en_wal e') <= next_lsn (en_wal e) + 2 * Zlen l
    /\ origin_node_id (en_wal e') = origin_node_id (en_wal e) /\ signer (en_wal e') = signer (en_wal e)
    /\ subkey (en_wal e') = subkey (en_wal e) /\ engine_ok e'.
Proof.
  revert e rs. induction l as [|p l IH]; intros e rs Hw Hmax Hl He; cbn [run_puts].
  { exists []. rewrite app_nil_r. unfold Zlen in *. cbn [length] in *. split_and!; try done; lia. }
  apply Forall_cons in Hl as [[Hp Hs] Hl]. unfold Zlen in *. cbn [length] in *.
  pose proof (put_one_spec p e rs Hw ltac:(lia) Hs Hp He) as H. destruct (put_one p e) as [st e1].
  destruct H as (rs1 & W1 & R1 & L1 & O1 & S1 & K1 & E1 & _). cbn [snd].
  destruct (IH e1 (rs ++ rs1) W1) as (rs2 & W2 & R2 & L2 & O2 & S2 & K2 & E2); [lia| |done|].
  { eapply Forall_impl; [exact Hl|]. intros q [Hq Hqs]. split; [done|]. unfold sizes_ok. by rewrite O1, S1. }
  exists (rs1 ++ rs2). rewrite app_assoc. split_and!; try done; try lia; try congruence.
  apply Forall_app. split.
  - eapply Forall_impl; [exact R1|]. intros r ->. left.
  - eapply Forall_impl; [exact R2|]. intros r Hr. by right.
Qed.

Lemma ledger_docs_other rs rs2 ck :
  Forall (fun r => rec_key r <> ck) rs2 -> ledger_docs (rs ++ rs2) !! ck = ledger_docs rs !! ck.
Proof.
  induction rs2 as [|r rs2 IH] using rev_ind; [by rewrite app_nil_r|].
  intros [H1 [H2 _]%Forall_cons]%Forall_app. rewrite app_assoc, ledger_docs_snoc. unfold ledger_step.
  case_bool_decide; [|by apply IH]. rewrite lookup_insert_ne by done. by apply IH.
Qed.


(** A put the caller was told had failed is not undone: when the backend refuses a
    put that passed the checks, the ledger keeps its record next to the abort, and a
    restart whose replay is accepted (it runs with the merge overdraft) stores the
    document that was reported as not stored. *)
Theorem aborted_put_resurfaces p e rs e1 code renv ex :
  wal_inv (en_wal e) rs -> next_lsn (en_wal e) + 2 <= INT64_MAX -> sizes_ok (en_wal e) (po_coll p) ->
  put_env_ok p -> engine_ok e -> put_refused (po_key p) (po_doc p) e = None ->
  put_one p e = (Fault code, e1) ->
  en_wal ex = en_wal e1 -> engine_ok ex -> (forall cat, same_bindings (en_catalog ex) cat -> accepting cat) ->
  exists st e', ReplayLedger renv ex = Some (st, e')
    /\ engine_docs e' (po_coll p) (po_key p) = Some (po_doc p).
Proof.
  intros Hw Hmax Hs Hp He Hr Hput Hx Hex Hacc. pose proof (put_one_spec p e rs Hw Hmax Hs Hp He) as H.
  rewrite Hput in H. destruct H as (rs' & W & _ & _ & _ & _ & _ & _ & _ & Hd).
  rewrite <- Hx in W. destruct (replay_restores renv ex _ _ (ReadAllLocked_inv _ _ W) Hex) as (st & e' & Hrep & Hdocs).
  exists st, e'. split; [done|]. specialize (Hdocs (po_coll p) (po_key p)). fold (op_key p) in Hdocs. rewrite Hd in Hdocs by done.
  destruct Hdocs as [?|(_ & cat & rec & Hb & _ & _ & Href)]; [done|]. by destruct (accepting_not_refused _ _ _ (Hacc _ Hb) Href).
Qed.
End Replay.

(** ** Witnesses: a backend that is full except for merges *)
#[local] Existing Instance toy_crypto.

Record GateBackend := mkGate { gb_docs : docs; gb_full : bool }.

#[export] Instance gate_backend : EngineBackend GateBackend := {|
  be_name _ := bs "kv";
  be_put merge c k d b :=
    if merge || negb (gb_full b) then (OK tt, mkGate (<[(c, k) := d]> (gb_docs b)) (gb_full b))
    else (Fault kOutOfSpace, b);
  be_get c k b := (match gb_docs b !! (c, k) with Some d => OK d | None => Fault kNotFound end, b);
  be_scan c start limit b := (scan_rows (gb_docs b) c start limit, b);
  be_quota_use _ := 0;
  be_verify b := (OK tt, b);
  be_flush b := (OK tt, b);
|}.

#[export] Instance gate_backend_spec : BackendSpec gate_backend.
Proof.
  refine {| be_inv _ := True; be_docs := gb_docs |}.
  - intros b c k _. by eexists.
  - intros b merge c k d _. cbn. by destruct (merge || _).
  - intros b c start limit _. by eexists.
  - intros b _. done.
Defined.

Definition gate_engine (full : bool) (w : WriteAheadLog) : StorageEngine GateBackend :=
  mkEngine 0 w (mkCatalog ∅ []) None
    (mkRouter (bs "kv") (bs "n1") 0 {[bs "kv" := mkGate ∅ full]} (mkIndex [] true ∅ [])) true [].

Lemma gate_ok full w : engine_ok (gate_engine full w).
Proof. split; [by apply map_Forall_singleton|]. intros c. by eexists. Qed.

Lemma gate_accepts cat : accepting (B := GateBackend) cat.
Proof.
  intros env now c k d r [_ Hr]. unfold RouterPut, BackendFor. destruct (Hr c) as [b Hb]. rewrite Hb. done.
Qed.

Definition gate_env (io : append_io) : put_env :=
  mkPutEnv (mkEnv (replicate kPageNonceLen Byte.x07) 5000 io HwmOk) demo_env ix_demo_env 7
    (mkSaveEnv CmOk (replicate kPageNonceLen Byte.x07)).
Definition gate_put (k : bytes) : put_op := mkPutOp (gate_env IoOk) (bs "c") k (bs "v").
Definition gate_renv : WalRecord -> replay_env :=
  fun _ => mkReplayEnv 9 (pe_save (gate_env IoOk)) (pe_save (gate_env IoOk)) ix_demo_env.

Lemma gate_put_ok k w : signer w = None -> origin_node_id w = [] -> put_env_ok (gate_put k) /\ sizes_ok w (bs "c").
Proof. intros Hs Ho. split; [done|]. unfold sizes_ok. by rewrite Hs, Ho. Qed.

Lemma replay_restores_ledger_witness :
  exists st e', ReplayLedger gate_renv (gate_engine true demo_log) = Some (st, e')
    /\ engine_docs e' (bs "c") (bs "k1") = Some (bs "v").
Proof.
  destruct (replay_restores_ledger gate_renv (gate_engine true demo_log) _ _ (ReadAllLocked_inv _ _ demo_log_inv)
    (gate_ok _ _)) as (st & e' & H1 & H2).
  exists st, e'. split; [exact H1|]. specialize (H2 (bs "c") (bs "k1")). vm_compute (ledger_docs _ !! _) in H2.
  destruct H2 as [H2|(_ & cat & rec & _ & _ & _ & Href)]; [exact H2|]. by destruct (accepting_not_refused _ _ _ (gate_accepts cat) Href).
Defined.

Lemma aborted_put_resurfaces_witness :
  exists e1 st e', put_one (gate_put (bs "k2")) (gate_engine true demo_log) = (Fault kOutOfSpace, e1)
    /\ ReplayLedger gate_renv (gate_engine true (en_wal e1)) = Some (st, e')
    /\ engine_docs e' (bs "c") (bs "k2") = Some (bs "v").
Proof.
  pose (e1 := (put_one (gate_put (bs "k2")) (gate_engine true demo_log)).2).
  assert (Ep : put_one (gate_put (bs "k2")) (gate_engine true demo_log) = (Fault kOutOfSpace, e1)).
  { apply injective_projections; [by vm_compute|done]. }
  exists e1. destruct (gate_put_ok (bs "k2") demo_log eq_refl eq_refl) as [Hp Hs].
  destruct (aborted_put_resurfaces (gate_put (bs "k2")) (gate_engine true demo_log) _ e1 kOutOfSpace gate_renv
    (gate_engine true (en_wal e1)) demo_log_inv) as (st & e' & H1 & H2).
  - by vm_compute.
  - exact Hs.
  - exact Hp.
  - apply gate_ok.
  - by vm_compute.
  - exact Ep.
  - done.
  - apply gate_ok.
  - intros cat _. apply gate_accepts.
  - exists st, e'. exact (conj Ep (conj H1 H2)).
Defined.

