(* ===== verification/Checkpoint.v ===== *)
(** * Quorum-gated checkpoints: src/ledger/checkpoint.cpp

    The vote count, the second gate on unclaimed intents, and [RunCheckpoint]
    composed from the ledger's and the transit store's operations. *)
From S2P Require Import Prelude Bytes Hlc Json AtRest RecordLog Wal WalCodec WalLog WalProps WalPrune.
From S2P Require Import Transit TransitProps.
Local Open Scope Z_scope.

Record ReplicaTip := mkTip {
  rt_node_id : bytes;
  rt_entry_id : Z;
  rt_entry_hash : bytes;
  self_verified : bool;
  signature_valid : bool;
  rt_signature : bytes;
}.

(** The diagnostic [reason] text is left out. *)
Record CheckpointDecision := mkDecision {
  proceed : bool;
  agreeing : Z;
  required : Z;
  conflicting : Z;
  unverified : Z;
  checkpoint_lsn : Z;
  agreed_entry_hash : bytes;
}.

(** [f] is an [int64_t]; the result is cast to [int]. *)
Definition CheckpointQuorumSize (replication_factor : Z) : Z :=
  if replication_factor =? 0 then 1
  else let f := (replication_factor - 1) / 2 in to_signed 32 (u32 (2 * f + 1)).

(** One replica's effect on (agreeing, conflicting, unverified). *)
Definition count_vote (local : ReplicaTip) (acc : Z * Z * Z) (r : ReplicaTip) : Z * Z * Z :=
  let '(a, c, u) := acc in
  if negb (rt_entry_id r =? rt_entry_id local) then (a, c, u)
  else if negb (bool_decide (rt_entry_hash r = rt_entry_hash local)) then (a, c + 1, u)
  else if self_verified r && (bool_decide (rt_signature r = []) || signature_valid r) then (a + 1, c, u)
  else (a, c, u + 1).

Definition EvaluateCheckpoint (local : ReplicaTip) (replicas : list ReplicaTip) (rf : Z)
  : CheckpointDecision :=
  let required := CheckpointQuorumSize rf in
  if rt_entry_id local <? 0 then mkDecision false 0 required 0 0 kInvalidLsn []
  else if negb (self_verified local) then mkDecision false 0 required 0 0 kInvalidLsn []
  else
    let '(a, c, u) := fold_left (count_vote local) replicas (1, 0, 0) in
    if 0 <? c then mkDecision false a required c u kInvalidLsn []
    else if a <? required then mkDecision false a required c u kInvalidLsn []
    else mkDecision true a required c u (rt_entry_id local) (rt_entry_hash local).

(** The scan for intents: stops at the first record at or above the checkpoint,
    reports each unclaimed key once, in order of first sight. *)
Fixpoint unclaimed_loop (ckpt : Z) (claimed seen : list bytes) (rs : list WalRecord) : list bytes :=
  match rs with
  | [] => []
  | r :: rs' =>
      if ckpt <=? r_lsn r then []
      else if negb (bool_decide (r_type r = kTransitIntent)) then unclaimed_loop ckpt claimed seen rs'
      else if bool_decide (r_key_hash r ∈ claimed) then unclaimed_loop ckpt claimed seen rs'
      else if bool_decide (r_key_hash r ∈ seen) then unclaimed_loop ckpt claimed seen rs'
      else r_key_hash r :: unclaimed_loop ckpt claimed (r_key_hash r :: seen) rs'
  end.

Definition UnclaimedIntentsBelow (entries : list WalRecord) (ckpt : Z) : list bytes :=
  unclaimed_loop ckpt (claimed_below ckpt entries) [] entries.

(** Hashes of the settled intents, from the pre-prune snapshot. *)
Fixpoint settled_loop (ckpt : Z) (claimed seen : list bytes) (rs : list WalRecord) : list bytes :=
  match rs with
  | [] => []
  | r :: rs' =>
      if ckpt <? r_lsn r then []
      else if negb (bool_decide (r_type r = kTransitIntent)) then settled_loop ckpt claimed seen rs'
      else if negb (bool_decide (r_key_hash r ∈ claimed)) then settled_loop ckpt claimed seen rs'
      else if bool_decide (r_key_hash r ∈ seen) then settled_loop ckpt claimed seen rs'
      else r_key_hash r :: settled_loop ckpt claimed (r_key_hash r :: seen) rs'
  end.

Definition settled_hashes (entries : list WalRecord) (ckpt : Z) : list bytes :=
  settled_loop ckpt (claimed_below ckpt entries) [] entries.

Record CheckpointOutcome := mkOutcome {
  decision : CheckpointDecision;
  checkpoint_entry_id : Z;
  entries_pruned : Z;
  envelopes_released : Z;
  out_previous_tip_hash : bytes;
  out_new_tip_hash : bytes;
}.

Definition refused (d : CheckpointDecision) : CheckpointOutcome := mkOutcome d kInvalidLsn 0 0 [] [].

(** A JSON member name with its double quotes. *)
Definition quoted (s : String.string) : bytes := [Byte.x22] ++ bs s ++ [Byte.x22].
Arguments quoted s%_string_scope.

(** The quorum attestation the marker carries. *)
Definition attestation (d : CheckpointDecision) : bytes :=
  [Byte.x7b] ++ quoted "agreed_entry_hash" ++ [Byte.x3a; Byte.x22] ++ HexEncode (agreed_entry_hash d)
  ++ [Byte.x22; Byte.x2c] ++ quoted "agreeing" ++ [Byte.x3a] ++ to_string (agreeing d)
  ++ [Byte.x2c] ++ quoted "required" ++ [Byte.x3a] ++ to_string (required d)
  ++ [Byte.x2c] ++ quoted "checkpoint_lsn" ++ [Byte.x3a] ++ to_string (checkpoint_lsn d) ++ [Byte.x7d].

(** The environment of one run: marker append, prune, release. *)
Record run_env := mkRunEnv {
  re_append : append_env;
  re_nonces : nat -> bytes;
  re_rewrite : rewrite_io;
  re_hwm : hwm_io;
  re_release : append_envs;
  re_compact_nonces : nat -> bytes;
  re_compact : rewrite_io;
}.

Section Checkpoint.
Context `{C : Crypto}.

Definition block (d : CheckpointDecision) : CheckpointDecision :=
  mkDecision false (agreeing d) (required d) (conflicting d) (unverified d) kInvalidLsn [].

(** [None]: an exception escapes a replay.  Null pointers are not modelled. *)
Definition RunCheckpoint (env : run_env) (w : WriteAheadLog) (t : TransitStore) (local : ReplicaTip)
    (replicas : list ReplicaTip) (rf : Z) (now : HLCTimestamp)
  : option (StatusOr CheckpointOutcome * WriteAheadLog * TransitStore) :=
  let d := EvaluateCheckpoint local replicas rf in
  if negb (proceed d) then Some (OK (refused d), w, t)
  else match ReadAllLocked w with
  | None => None
  | Some (entries, w1) =>
      if negb (bool_decide (UnclaimedIntentsBelow entries (checkpoint_lsn d) = []))
      then Some (OK (refused (block d)), w1, t)
      else
        match Append (re_append env) w1 kCheckpoint [] (bs "checkpoint") (attestation d)
                (mkOpts now [] 0 0 1) with
        | (Fault c, w2) => Some (Fault c, w2, t)
        | (OK marker, w2) =>
            match Prune (re_nonces env) (re_rewrite env) (re_hwm env) w2 (checkpoint_lsn d) with
            | None => None
            | Some (Fault c, w3) => Some (Fault c, w3, t)
            | Some (OK pr, w3) =>
                let '(rel, t') := Release (re_release env) (re_compact_nonces env) (re_compact env) t
                                    (settled_hashes entries (checkpoint_lsn d)) in
                Some (OK (mkOutcome d marker (dropped pr)
                            (match rel with OK n => n | Fault _ => 0 end)
                            (previous_tip_hash pr) (new_tip_hash pr)), w3, t')
            end
        end
  end.
End Checkpoint.

(** ** The gate *)
Definition is_vote (local r : ReplicaTip) : bool :=
  (rt_entry_id r =? rt_entry_id local) && bool_decide (rt_entry_hash r = rt_entry_hash local)
  && (self_verified r && (bool_decide (rt_signature r = []) || signature_valid r)).
Definition is_conflict (local r : ReplicaTip) : bool :=
  (rt_entry_id r =? rt_entry_id local) && negb (bool_decide (rt_entry_hash r = rt_entry_hash local)).

Definition votes (local : ReplicaTip) (replicas : list ReplicaTip) : Z :=
  Zlen (filter (fun r => is_vote local r = true) replicas).
Definition conflicts (local : ReplicaTip) (replicas : list ReplicaTip) : Z :=
  Zlen (filter (fun r => is_conflict local r = true) replicas).

Lemma count_vote_fold local replicas a c u :
  exists u', fold_left (count_vote local) replicas (a, c, u)
             = (a + votes local replicas, c + conflicts local replicas, u').
Proof.
  unfold votes, conflicts. revert a c u. induction replicas as [|r rs IH]; intros a c u.
  { exists u. change (Zlen (filter _ [])) with 0. by rewrite !Z.add_0_r. }
  cbn [fold_left]. unfold count_vote at 2. rewrite !filter_cons.
  assert (forall (x : ReplicaTip) l, Zlen (x :: l) = Zlen l + 1) as Hl by (intros; unfold Zlen; cbn [length]; lia).
  destruct (rt_entry_id r =? rt_entry_id local) eqn:E1; cbn [negb].
  2:{ rewrite !decide_False by (unfold is_vote, is_conflict; by rewrite E1). apply IH. }
  destruct (bool_decide (rt_entry_hash r = rt_entry_hash local)) eqn:E2; cbn [negb].
  - rewrite (decide_False (P := is_conflict local r = true)) by (unfold is_conflict; by rewrite E1, E2).
    destruct (self_verified r && _) eqn:E3.
    + rewrite decide_True by (unfold is_vote; by rewrite E1, E2, E3). rewrite Hl.
      destruct (IH (a + 1) c u) as [u' ->]. exists u'. do 2 f_equal. lia.
    + rewrite decide_False by (unfold is_vote; by rewrite E1, E2, E3). apply IH.
  - rewrite (decide_True (P := is_conflict local r = true)) by (unfold is_conflict; by rewrite E1, E2).
    rewrite decide_False by (unfold is_vote; by rewrite E1, E2). rewrite Hl.
    destruct (IH a (c + 1) u) as [u' ->]. exists u'. do 2 f_equal. lia.
Qed.

Lemma conflicts_zero local replicas :
  conflicts local replicas = 0
  <-> forall r, r ∈ replicas -> rt_entry_id r = rt_entry_id local -> rt_entry_hash r = rt_entry_hash local.
Proof.
  unfold conflicts. split.
  - intros H r Hr Hid. destruct (decide (rt_entry_hash r = rt_entry_hash local)) as [|Hne]; [done|exfalso].
    assert (r ∈ filter (fun r => is_conflict local r = true) replicas) as Hin.
    { apply list_elem_of_filter. split; [|done]. unfold is_conflict.
      rewrite bool_decide_eq_false_2 by done. rewrite Hid, Z.eqb_refl. done. }
    destruct (filter _ replicas); [by apply elem_of_nil in Hin|]. unfold Zlen in H. cbn in H. lia.
  - intros H. enough (filter (fun r => is_conflict local r = true) replicas = []) as -> by done.
    destruct (filter _ replicas) as [|r l] eqn:E; [done|exfalso].
    assert (r ∈ filter (fun r => is_conflict local r = true) replicas) as Hin
      by (rewrite E; by apply elem_of_cons; left).
    apply list_elem_of_filter in Hin as [Hc Hr]. unfold is_conflict in Hc.
    apply andb_true_iff in Hc as [Hid Hne]. apply Z.eqb_eq in Hid.
    by rewrite bool_decide_eq_true_2 in Hne by (by apply H).
Qed.

(** The quorum of a replication factor: the factor itself when it is odd, one less when it
    is even; beyond 2^31 the cast to [int] has made it negative. *)
Lemma quorum_value rf :
  0 <= rf < 2 ^ 32 ->
  if 2 ^ 31 <? rf then CheckpointQuorumSize rf < 0
  else rf = 0 /\ CheckpointQuorumSize rf = 1 \/ 0 < rf /\ CheckpointQuorumSize rf = rf - (if Z.even rf then 1 else 0).
Proof.
  intros Hr. unfold CheckpointQuorumSize. cbv zeta. destruct (Z.eqb_spec rf 0) as [->|Hnz].
  { change (2 ^ 31 <? 0) with false. by left. }
  assert (Hq : 2 * ((rf - 1) / 2) + 1 = rf - (if Z.even rf then 1 else 0)).
  { rewrite Zeven_mod. pose proof (Z.div_mod (rf - 1) 2 ltac:(done)). pose proof (Z.div_mod rf 2 ltac:(done)).
    pose proof (Z.mod_pos_bound (rf - 1) 2 ltac:(done)). pose proof (Z.mod_pos_bound rf 2 ltac:(done)).
    destruct (Z.eqb_spec (rf mod 2) 0); cbn; lia. }
  assert (Hodd : Z.odd (rf - (if Z.even rf then 1 else 0)) = true) by (rewrite <- Hq; by rewrite Z.add_comm, Z.odd_add_mul_2).
  rewrite Hq. clear Hq. set (q := rf - (if Z.even rf then 1 else 0)) in *. assert (q <> 0) by (intros E; by rewrite E in Hodd). assert (0 < q < 2 ^ 32 /\ rf - 1 <= q <= rf) as [Hq0 Hq1] by (subst q; destruct (Z.even rf); lia).
  unfold u32, to_signed, wrap. rewrite (Z.mod_small q) by lia. change (2 ^ (32 - 1)) with (2 ^ 31). destruct (Z.ltb_spec (2 ^ 31) rf) as [Hb|Hb].
  - assert (q <> 2 ^ 31) by (intros E; rewrite E in Hodd; done). destruct (Z.ltb_spec q (2 ^ 31)); lia.
  - assert (q <> 2 ^ 31) by (intros E; rewrite E in Hodd; done). right. destruct (Z.ltb_spec q (2 ^ 31)); lia.
Qed.

(** C4: the gate of a checkpoint opens exactly when the local chain is non-empty and
    verified, no replica at the same height reports another hash, and the local vote plus
    the matching, self-verified replicas whose signature is absent or valid are as many as
    the replication factor (one less when the factor is even), or the factor is above
    2^31, where the cast to [int] leaves a negative quorum and the local vote is enough.
    Lagging and leading replicas neither vote nor veto. *)
Theorem checkpoint_gate local replicas rf :
  0 <= rf < 2 ^ 32 ->
  let d := EvaluateCheckpoint local replicas rf in
  (proceed d = true <->
     0 <= rt_entry_id local /\ self_verified local = true
     /\ (forall r, r ∈ replicas -> rt_entry_id r = rt_entry_id local -> rt_entry_hash r = rt_entry_hash local)
     /\ (rf <= 1 + votes local replicas + (if Z.even rf then 1 else 0) \/ 2 ^ 31 < rf))
  /\ (proceed d = true -> checkpoint_lsn d = rt_entry_id local /\ agreed_entry_hash d = rt_entry_hash local).
Proof.
  intros Hrf. cbv zeta. unfold EvaluateCheckpoint.
  destruct (Z.ltb_spec (rt_entry_id local) 0); [split; [split; [done|intros (? & _); lia]|done]|].
  destruct (self_verified local); cbn [negb]; [|split; [split; [done|intros (_ & ? & _); done]|done]].
  destruct (count_vote_fold local replicas 1 0 0) as [u ->]. rewrite <- conflicts_zero, Z.add_0_l.
  assert (0 <= conflicts local replicas) by (unfold conflicts, Zlen; lia).
  destruct (Z.ltb_spec 0 (conflicts local replicas)).
  { split; [split; [done|intros (_ & _ & ? & _); lia]|done]. }
  assert (0 <= votes local replicas) by (unfold votes, Zlen; lia).
  assert (Hq : CheckpointQuorumSize rf <= 1 + votes local replicas
               <-> rf <= 1 + votes local replicas + (if Z.even rf then 1 else 0) \/ 2 ^ 31 < rf).
  { pose proof (quorum_value rf Hrf) as Hv. destruct (Z.ltb_spec (2 ^ 31) rf); [lia|].
    destruct Hv as [[-> ->]|[Hp ->]]; [cbn; lia|lia]. }
  rewrite <- Hq. destruct (Z.ltb_spec (1 + votes local replicas) (CheckpointQuorumSize rf)); cbn.
  - split; [split; [done|intros (_ & _ & _ & ?); lia]|done].
  - split; [|done]. split; [|done]. intros _. split_and!; [done|done|lia|done].
Qed.

(** Three replicas that agree, and one that lags. *)
Lemma checkpoint_gate_witness :
  let tip id := mkTip id 7 (bs "h") true true [] in
  proceed (EvaluateCheckpoint (tip (bs "a")) [tip (bs "b"); mkTip (bs "c") 5 (bs "g") true true []; tip (bs "d")] 3) = true.
Proof.
  apply (checkpoint_gate (mkTip (bs "a") 7 (bs "h") true true [])
    [mkTip (bs "b") 7 (bs "h") true true []; mkTip (bs "c") 5 (bs "g") true true []; mkTip (bs "d") 7 (bs "h") true true []] 3); [done|].
  split; [done|]. split; [done|]. split; [|by left].
  intros r Hr. repeat (apply elem_of_cons in Hr as [->|Hr]; [done|]). by apply elem_of_nil in Hr.
Defined.

(** For every replication factor but two, the quorum is a strict majority
    of the replicas, so two checkpoints always share a voter; with two replicas
    the quorum is one, the local node alone. *)
Theorem checkpoint_quorum_majority rf :
  1 <= rf <= 2 ^ 31 ->
  rf - 1 <= CheckpointQuorumSize rf <= rf
  /\ (rf < 2 * CheckpointQuorumSize rf <-> rf <> 2)
  /\ CheckpointQuorumSize 2 = 1.
Proof.
  intros H. pose proof (quorum_value rf ltac:(lia)) as Hv. destruct (Z.ltb_spec (2 ^ 31) rf); [lia|].
  destruct Hv as [[? _]|[_ ->]]; [lia|]. destruct (Z.even rf) eqn:E; (split; [lia|split; [|done]]).
  - apply Z.even_spec in E as [h ->]. lia.
  - enough (rf <> 2) by lia. by intros ->.
Qed.

Lemma checkpoint_quorum_majority_witness : 4 < 2 * CheckpointQuorumSize 4.
Proof. by apply (checkpoint_quorum_majority 4). Defined.

(** ** Unclaimed intents *)
Lemma lsns_from_tail_above e rs r ckpt :
  lsns_from e rs -> r ∈ rs -> ckpt < e -> ckpt < r_lsn r.
Proof. intros Hl Hr Hc. pose proof (lsns_from_elem _ _ _ Hl Hr). lia. Qed.

Definition open_intent (ckpt : Z) (h : bytes) (r : WalRecord) : Prop :=
  r_type r = kTransitIntent /\ r_key_hash r = h /\ r_lsn r < ckpt.

Lemma unclaimed_loop_iff ckpt claimed seen rs e h :
  lsns_from e rs ->
  h ∈ unclaimed_loop ckpt claimed seen rs
  <-> (h ∉ claimed) /\ (h ∉ seen) /\ exists r, r ∈ rs /\ open_intent ckpt h r.
Proof.
  revert seen e. induction rs as [|r rs IH]; intros seen e Hl; cbn [unclaimed_loop].
  { split; [by intros ?%elem_of_nil|]. intros (_ & _ & r & ?%elem_of_nil & _). done. }
  destruct Hl as [He Hl].
  assert (forall r', r' ∈ r :: rs -> open_intent ckpt h r' -> r' = r \/ r' ∈ rs) as Hcons
    by (intros r' ?%elem_of_cons _; done).
  destruct (Z.leb_spec ckpt (r_lsn r)).
  { split; [by intros ?%elem_of_nil|]. intros (_ & _ & r' & [->|Hr']%elem_of_cons & _ & _ & Hlt); [lia|].
    pose proof (lsns_from_elem _ _ _ Hl Hr'). lia. }
  assert (forall seen', (open_intent ckpt h r -> h ∈ claimed \/ h ∈ seen') ->
    (h ∈ unclaimed_loop ckpt claimed seen' rs
     <-> (h ∉ claimed) /\ (h ∉ seen') /\ exists r', r' ∈ r :: rs /\ open_intent ckpt h r')) as Hskip.
  { intros seen' Hno. rewrite (IH seen' _ Hl). split.
    - intros (H1 & H2 & r' & Hr' & Ho). split_and!; [done|done|]. exists r'.
      split; [by apply elem_of_cons; right|done].
    - intros (H1 & H2 & r' & [->|Hr']%elem_of_cons & Ho); [destruct (Hno Ho); done|].
      split_and!; [done|done|]. by exists r'. }
  case_bool_decide as Ht; cbn [negb]; [|apply Hskip; by intros [? _]].
  case_bool_decide as Hc; [apply Hskip; intros (_ & <- & _); by left|].
  case_bool_decide as Hs; [apply Hskip; intros (_ & <- & _); by right|].
  rewrite elem_of_cons, (IH (r_key_hash r :: seen) _ Hl). split.
  - intros [->|(H1 & H2 & r' & Hr' & Ho)].
    + split_and!; [done|done|]. exists r. split; [by apply elem_of_cons; left|by split_and!].
    + split_and!; [done|intros ?; apply H2; by apply elem_of_cons; right|].
      exists r'. split; [by apply elem_of_cons; right|done].
  - intros (H1 & H2 & r' & Hr' & Ho). destruct (decide (h = r_key_hash r)) as [|Hne]; [by left|]. right.
    split_and!; [done|by intros [?|?]%elem_of_cons|].
    apply elem_of_cons in Hr' as [->|Hr']; [destruct Ho as (_ & ? & _); congruence|]. by exists r'.
Qed.

(** The second gate reports exactly the keys with an intent below the
    checkpoint and no claim at or below it. *)
Theorem unclaimed_intents_exact entries ckpt h :
  lsns_from 0 entries ->
  h ∈ UnclaimedIntentsBelow entries ckpt
  <-> (exists r, r ∈ entries /\ open_intent ckpt h r)
      /\ ~ exists r, r ∈ entries /\ r_type r = kTransitClaimed /\ r_key_hash r = h /\ r_lsn r <= ckpt.
Proof.
  intros Hl. unfold UnclaimedIntentsBelow. rewrite (unclaimed_loop_iff _ _ _ _ _ _ Hl).
  rewrite <- (claimed_below_iff _ _ _ _ Hl). pose proof (not_elem_of_nil h). tauto.
Qed.

(** ** The whole run *)
Section Run.
Context `{C : Crypto} `{!CryptoLaws C}.

Definition run_good (env : run_env) : Prop :=
  nonce_ok (e_nonce (re_append env)) /\ e_io (re_append env) = IoOk
  /\ (forall i, nonce_ok (re_nonces env i)) /\ re_rewrite env = RwOk /\ re_hwm env <> HwmKept
  /\ (forall i, env_good (re_release env i)) /\ nonces_good (re_compact_nonces env)
  /\ re_compact env = RwOk.

Definition marker_of (w : WriteAheadLog) (d : CheckpointDecision) (now : HLCTimestamp) : WalRecord :=
  new_record w kCheckpoint [] (bs "checkpoint") (attestation d) (mkOpts now [] 0 0 1).

Definition without_links (rs : list WalRecord) := map payload_of rs.

(** The key has an intent and a claim, both at or below the checkpoint. *)
Definition settled_key (ckpt : Z) (rs : list WalRecord) (h : bytes) : Prop :=
  (exists r, r ∈ rs /\ r_type r = kTransitIntent /\ r_key_hash r = h /\ r_lsn r <= ckpt) /\ claimed_at ckpt rs h.

Lemma settled_loop_iff ckpt claimed seen rs e h :
  lsns_from e rs ->
  h ∈ settled_loop ckpt claimed seen rs
  <-> h ∈ claimed /\ (h ∉ seen) /\ exists r, r ∈ rs /\ r_type r = kTransitIntent /\ r_key_hash r = h /\ r_lsn r <= ckpt.
Proof.
  revert seen e. induction rs as [|r rs IH]; intros seen e Hl; cbn [settled_loop].
  { split; [by intros ?%elem_of_nil|]. intros (_ & _ & r & ?%elem_of_nil & _). done. }
  destruct Hl as [He Hl]. destruct (Z.ltb_spec ckpt (r_lsn r)).
  { split; [by intros ?%elem_of_nil|]. intros (_ & _ & r' & [->|Hr']%elem_of_cons & _ & _ & Hlt); [lia|].
    pose proof (lsns_from_elem _ _ _ Hl Hr'). lia. }
  assert (forall seen', (r_type r = kTransitIntent -> r_key_hash r = h -> h ∉ claimed \/ h ∈ seen') ->
    (h ∈ settled_loop ckpt claimed seen' rs
     <-> h ∈ claimed /\ (h ∉ seen') /\ exists r', r' ∈ r :: rs /\ r_type r' = kTransitIntent /\ r_key_hash r' = h /\ r_lsn r' <= ckpt)) as Hskip.
  { intros seen' Hno. rewrite (IH seen' _ Hl). split.
    - intros (H1 & H2 & r' & Hr' & Ho). split_and!; [done|done|]. exists r'. split; [by apply elem_of_cons; right|done].
    - intros (H1 & H2 & r' & [->|Hr']%elem_of_cons & Ho1 & Ho2 & Ho3); [destruct (Hno Ho1 Ho2); done|].
      split_and!; [done|done|]. by exists r'. }
  case_bool_decide as Ht; cbn [negb]; [|by apply Hskip].
  case_bool_decide as Hc; cbn [negb]; [|apply Hskip; intros _ <-; by left].
  case_bool_decide as Hs; [apply Hskip; intros _ <-; by right|].
  rewrite elem_of_cons, (IH (r_key_hash r :: seen) _ Hl). split.
  - intros [->|(H1 & H2 & r' & Hr' & Ho)].
    + split_and!; [done|done|]. exists r. split_and!; [by apply elem_of_cons; left|done|done|lia].
    + split_and!; [done|intros ?; apply H2; by apply elem_of_cons; right|].
      exists r'. split; [by apply elem_of_cons; right|done].
  - intros (H1 & H2 & r' & Hr' & Ho). destruct (decide (h = r_key_hash r)) as [|Hne]; [by left|]. right.
    split_and!; [done|by intros [?|?]%elem_of_cons|].
    apply elem_of_cons in Hr' as [->|Hr']; [destruct Ho as (_ & ? & _); congruence|]. by exists r'.
Qed.

Lemma settled_hashes_iff ckpt rs h : lsns_from 0 rs -> h ∈ settled_hashes rs ckpt <-> settled_key ckpt rs h.
Proof.
  intros Hl. unfold settled_hashes, settled_key. rewrite (settled_loop_iff _ _ _ _ _ _ Hl).
  unfold claimed_at. rewrite <- (claimed_below_iff _ _ _ _ Hl). pose proof (not_elem_of_nil h). tauto.
Qed.

(** C6: a checkpoint over an intact ledger and transit store that passes both gates, in a
    run whose writes succeed and whose stored high-water mark is not left behind, commits:
    it appends its marker; the ledger it leaves is intact and verifies, with the entries of
    the old one and the marker, in order and with their contents, except exactly the
    transit entries at or below the agreed height whose key has a claim there; and the
    transit store loses exactly the envelopes filed under a hash that has both an intent
    and a claim at or below that height. *)
Theorem run_checkpoint_commits env w rs t local replicas rf now :
  let d := EvaluateCheckpoint local replicas rf in
  let rs1 := rs ++ [marker_of w d now] in
  wal_inv w rs -> store_inv t -> run_good env -> next_lsn w < INT64_MAX ->
  append_args_ok w kCheckpoint [] (bs "checkpoint") (attestation d) (mkOpts now [] 0 0 1) ->
  proceed d = true -> UnclaimedIntentsBelow rs (checkpoint_lsn d) = [] ->
  exists out w' t' rs' kept, RunCheckpoint env w t local replicas rf now = Some (OK out, w', t')
    /\ decision out = d /\ checkpoint_entry_id out = next_lsn w
    /\ wal_inv w' rs'
    /\ unsettled (checkpoint_lsn d) rs1 kept /\ without_links rs' = without_links kept
    /\ marker_of w d now ∈ kept
    /\ forall k e, Transit.entries_ t' !! k = Some e
         <-> Transit.entries_ t !! k = Some e /\ ~ settled_key (checkpoint_lsn d) rs (e_key_hash e).
Proof.
  intros d rs1 Hw Ht (E1 & E2 & E3 & E4 & E5 & E6 & E7 & E8) Hmax Ha Hp Hu.
  pose proof (after_read_inv _ _ Hw) as Hw1. set (w1 := after_read w _ false false) in Hw1.
  destruct (Append_inv (re_append env) w1 rs kCheckpoint [] (bs "checkpoint") (attestation d)
    (mkOpts now [] 0 0 1) Hw1 Hmax) as (w2 & Hap & Hw2); [by destruct Ha|done|done|].
  change (new_record w1 kCheckpoint [] (bs "checkpoint") (attestation d) (mkOpts now [] 0 0 1))
    with (marker_of w d now) in Hw2. fold rs1 in Hw2.
  destruct (prune_ok (re_nonces env) (re_hwm env) w2 rs1 (checkpoint_lsn d) Hw2 E3 E5)
    as (pr & w3 & rs' & Hpr & Hw3 & Hpay & Hdrop).
  destruct (Release_ok (re_release env) (re_compact_nonces env) t (settled_hashes rs (checkpoint_lsn d)) Ht E6 E7)
    as (n & t' & Hrel & _ & Hent & _).
  pose proof (survivors_unsettled (checkpoint_lsn d) rs1 0 (inv_lsns _ _ Hw2)) as Hkept.
  eexists _, w3, t', rs', (survivors (checkpoint_lsn d) rs1). split_and!; [| | |exact Hw3|exact Hkept|exact Hpay| |].
  - unfold RunCheckpoint. fold d. rewrite Hp. cbn [negb]. rewrite (ReadAllLocked_inv _ _ Hw). fold w1.
    rewrite bool_decide_eq_true_2 by done. cbn [negb]. rewrite Hap, E4, Hpr, E8, Hrel. done.
  - done.
  - done.
  - apply Hkept; [apply elem_of_app; right; by apply list_elem_of_singleton|]. by intros [[?|?] _].
  - intros k e. rewrite Hent, lookup_not_in. pose proof (settled_hashes_iff (checkpoint_lsn d) rs (e_key_hash e) (inv_lsns _ _ Hw)) as Hs.
    destruct (Transit.entries_ t !! k) as [e'|]; [|naive_solver]. case_decide as Hd; naive_solver.
Qed.

(** Without agreement nothing is touched: when the quorum gate refuses, or
    an unclaimed intent lies below the agreed height, the run reports a refusal,
    the ledger file, its tip and its counter are as before, and so is the
    transit store. *)
Theorem run_checkpoint_refuses env w rs t local replicas rf now :
  let d := EvaluateCheckpoint local replicas rf in
  wal_inv w rs -> proceed d = false \/ UnclaimedIntentsBelow rs (checkpoint_lsn d) <> [] ->
  exists out w', RunCheckpoint env w t local replicas rf now = Some (OK out, w', t)
    /\ proceed (decision out) = false /\ entries_pruned out = 0
    /\ file_ w' = file_ w /\ next_lsn w' = next_lsn w /\ tip_hash w' = tip_hash w /\ wal_inv w' rs.
Proof.
  intros d Hw Hor. unfold RunCheckpoint. fold d. destruct (proceed d) eqn:Ep; cbn [negb].
  - destruct Hor as [?|Hu]; [done|]. rewrite (ReadAllLocked_inv _ _ Hw).
    rewrite bool_decide_eq_false_2 by done. cbn [negb].
    eexists _, _. split; [done|]. split_and!; try done. by apply after_read_inv.
  - eexists _, _. split; [done|]. by split_and!.
Qed.
End Run.

(** ** Concrete runs *)
#[local] Existing Instance toy_crypto.

Definition demo_run_env : run_env :=
  mkRunEnv demo_env (fun _ => replicate kPageNonceLen Byte.x07) RwOk HwmOk
    (fun _ => demo_wenv) (fun _ => replicate kPageNonceLen Byte.x07) RwOk.

Definition tip_vote (w : WriteAheadLog) : ReplicaTip :=
  mkTip (bs "self") (LastLsn w) (tip_hash w) true true [].

Lemma demo_run_good : run_good demo_run_env.
Proof.
  split_and!; try done; try (intros i); try apply demo_nonce; try apply demo_wenv_good.
Qed.

Lemma unclaimed_intents_exact_witness :
  bs "x" ∈ UnclaimedIntentsBelow [] 5
  <-> (exists r, r ∈ [] /\ open_intent 5 (bs "x") r)
      /\ ~ exists r, r ∈ [] /\ r_type r = kTransitClaimed /\ r_key_hash r = bs "x" /\ r_lsn r <= 5.
Proof. exact (unclaimed_intents_exact [] 5 (bs "x") I). Defined.

Lemma demo_marker_args :
  append_args_ok demo_log kCheckpoint [] (bs "checkpoint")
    (attestation (EvaluateCheckpoint (tip_vote demo_log) [] 1)) (mkOpts ts_default [] 0 0 1).
Proof. split; [done|done|done|by vm_compute]. Qed.

Lemma run_checkpoint_commits_witness :
  exists out w' t' rs',
    RunCheckpoint demo_run_env demo_log demo_store (tip_vote demo_log) [] 1 ts_default = Some (OK out, w', t')
    /\ checkpoint_entry_id out = next_lsn demo_log /\ wal_inv w' rs'.
Proof.
  destruct (run_checkpoint_commits demo_run_env demo_log _ demo_store (tip_vote demo_log) [] 1 ts_default
    demo_log_inv demo_store_inv demo_run_good demo_max demo_marker_args) as (out & w' & t' & rs' & kept & H1 & _ & H2 & H3 & _).
  - by vm_compute.
  - by vm_compute.
  - exists out, w', t', rs'. split; [exact H1|]. split; [exact H2|exact H3].
Defined.

Lemma run_checkpoint_refuses_witness :
  exists out w',
    RunCheckpoint demo_run_env demo_log demo_store (tip_vote demo_log) [] 3 ts_default = Some (OK out, w', demo_store)
    /\ proceed (decision out) = false /\ file_ w' = file_ demo_log.
Proof.
  destruct (run_checkpoint_refuses demo_run_env demo_log _ demo_store (tip_vote demo_log) [] 3 ts_default
    demo_log_inv) as (out & w' & H1 & H2 & _ & H3 & _).
  - left. by vm_compute.
  - exists out, w'. split; [exact H1|]. split; [exact H2|exact H3].
Defined.

(** The envelope a peer still holds for its offline owner. *)
Definition held_envelope : TransitEnvelope :=
  mkEnvelope (bs "owner") (bs "c") (bs "k") (LedgerKeyHash (bs "c") (bs "k")) (bs "second version") [] 2 0 14 0 1 [] [] [].
Definition held_store : TransitStore := (Hold demo_wenv 1000 demo_store held_envelope).2.
Definition lossy_run : option (StatusOr CheckpointOutcome * WriteAheadLog * TransitStore) :=
  RunCheckpoint demo_run_env reused_key_log held_store (tip_vote reused_key_log) [] 1 ts_default.

(** A checkpoint can delete bytes its owner never collected: when a key is
    written again after an earlier claim, the ledger ends in an intent without a
    claim after it, yet both gates pass, the prune removes the intent and the
    release deletes the only copy of the new version. *)
Theorem checkpoint_releases_unclaimed :
  Lookup 2000 held_store (bs "owner") (LedgerKeyHash (bs "c") (bs "k")) = OK (stamp 1000 demo_store held_envelope)
  /\ exists out w' t', lossy_run = Some (OK out, w', t')
       /\ entries_pruned out = 3 /\ envelopes_released out = 1
       /\ Lookup 2000 t' (bs "owner") (LedgerKeyHash (bs "c") (bs "k")) = Fault kNotFound.
Proof.
  split; [vm_compute; reflexivity|].
  assert (exists x, lossy_run = Some x) as [[[[out|c] w'] t'] Hx].
  { destruct lossy_run as [x|] eqn:E; [by exists x|]. vm_compute in E. done. }
  - exists out, w', t'. split; [done|].
    assert (match lossy_run with Some (OK out, w', t') =>
              bool_decide (entries_pruned out = 3) && bool_decide (envelopes_released out = 1)
              && match Lookup 2000 t' (bs "owner") (LedgerKeyHash (bs "c") (bs "k")) with
                 | Fault kNotFound => true | _ => false end
            | _ => false end = true) as Hb by (vm_compute; reflexivity).
    rewrite Hx in Hb. apply andb_true_iff in Hb as [Hb H3]. apply andb_true_iff in Hb as [H1 H2].
    apply bool_decide_eq_true_1 in H1, H2. split_and!; [done|done|].
    destruct (Lookup _ t' _ _) as [?|[]]; done.
  - exfalso. assert (match lossy_run with Some (Fault _, _, _) => false | _ => true end = true) as Hb
      by (vm_compute; reflexivity). by rewrite Hx in Hb.
Qed.
