(* ===== verification/ChangeFeed.v ===== *)
(** * The live change feed: src/ledger/change_feed.cpp

    [Publish], [Stop], [Snapshot] and the polling loop of [Wait] over the ledger
    model.  Each iteration of the loop sees the ledger, the stop flag and the
    clock as other threads left them: a list of observations. *)
From S2P Require Import Prelude Bytes Hlc AtRest RecordLog Wal WalCodec WalLog WalProps.
Local Open Scope Z_scope.

Record ChangeFeed := mkFeed { stopped : bool; max_tip_ever : Z }.

Record ChangeBatch := mkBatch {
  b_entries : list WalRecord;
  b_from : Z;
  b_tip : Z;
  truncated : bool;
}.

Definition Publish (tip : Z) (f : ChangeFeed) : ChangeFeed :=
  mkFeed (stopped f) (if max_tip_ever f <? tip then tip else max_tip_ever f).
Definition Stop (f : ChangeFeed) : ChangeFeed := mkFeed true (max_tip_ever f).

Section ChangeFeed.
Context `{C : Crypto}.

(** [None]: an exception escapes the range read.  [limit = 0] is unlimited. *)
Definition Snapshot (w : WriteAheadLog) (f : ChangeFeed) (since : Z) (limit : nat)
  : option (ChangeBatch * ChangeFeed) :=
  let tip := LastLsn w in
  let oldest := tip + 1 in
  let stale := (0 <=? since)
               && ((tip <? since) || (since + 1 <? oldest)
                   || ((since <? tip) && (tip <? max_tip_ever f))) in
  let f' := mkFeed (stopped f)
              (if tip <=? since then tip
               else if max_tip_ever f <? tip then tip else max_tip_ever f) in
  if stale then Some (mkBatch [] since tip true, f')
  else
    let from := if since =? kInvalidLsn then kInvalidLsn else since + 1 in
    match ReadRange w from tip with
    | None => None
    | Some records =>
        Some (mkBatch (if (limit =? 0)%nat then records else take limit records) since tip false, f')
    end.

(** One iteration of [Wait]: the batch to return, the stop error, a timeout, or
    another round.  [None] at the end of the list: still blocked. *)
Record observation := mkObs { ob_wal : WriteAheadLog; ob_stopped : bool; ob_now : Z }.

Fixpoint wait_loop (obs : list observation) (deadline since : Z) (limit : nat) (f : ChangeFeed)
  : option (StatusOr ChangeBatch) :=
  match obs with
  | [] => None
  | o :: obs' =>
      match Snapshot (ob_wal o) f since limit with
      | None => None
      | Some (batch, f') =>
          if negb (bool_decide (b_entries batch = [])) || truncated batch then Some (OK batch)
          else if ob_stopped o then Some (Fault kInternal)
          else if deadline - ob_now o <=? 0 then Some (OK batch)
          else wait_loop obs' deadline since limit f'
      end
  end.

Definition Wait (obs : list observation) (now since timeout_ms : Z) (limit : nat) (f : ChangeFeed)
  : option (StatusOr ChangeBatch) :=
  if stopped f then Some (Fault kInternal)
  else wait_loop obs (now + timeout_ms) since limit f.

Context `{!CryptoLaws C}.

(** A full read delivers the ledger: from the initial cursor a snapshot
    returns every record, oldest first, up to the limit, and the ledger's tip. *)
Theorem change_feed_initial_read w rs f limit :
  wal_inv w rs ->
  exists f', Snapshot w f kInvalidLsn limit
    = Some (mkBatch (if (limit =? 0)%nat then rs else take limit rs) kInvalidLsn (LastLsn w) false, f').
Proof.
  intros Hw. unfold Snapshot. change (0 <=? kInvalidLsn) with false.
  change (kInvalidLsn =? kInvalidLsn) with true. cbn [andb]. rewrite (ReadRange_inv w rs _ _ Hw).
  assert (range_of kInvalidLsn (LastLsn w) rs = rs) as ->; [|by eexists].
  apply range_of_all. intros r Hr. pose proof (lsns_from_elem _ _ _ (inv_lsns _ _ Hw) Hr).
  pose proof (lsns_from_last _ _ _ (inv_lsns _ _ Hw) Hr). unfold LastLsn, kInvalidLsn.
  rewrite (inv_next _ _ Hw). lia.
Qed.

(** The feed never delivers an increment: for every cursor a client can
    have reached that is behind the tip, the snapshot answers "truncated" with
    no records, on a ledger that was never pruned as well, because the oldest
    surviving entry is taken to be one past the tip. *)
Theorem change_feed_never_incremental w rs f since limit :
  wal_inv w rs -> 0 <= since < LastLsn w ->
  exists f', Snapshot w f since limit = Some (mkBatch [] since (LastLsn w) true, f').
Proof.
  intros Hw Hs. unfold Snapshot. destruct (Z.leb_spec 0 since); [|lia].
  destruct (Z.ltb_spec (LastLsn w) since); [lia|].
  destruct (Z.ltb_spec (since + 1) (LastLsn w + 1)); [|lia]. cbn [andb orb]. by eexists.
Qed.

Lemma Snapshot_current w rs f limit :
  wal_inv w rs -> 0 <= LastLsn w ->
  Snapshot w f (LastLsn w) limit
  = Some (mkBatch [] (LastLsn w) (LastLsn w) false, mkFeed (stopped f) (LastLsn w)).
Proof.
  intros Hw Hp. unfold Snapshot. rewrite !Z.ltb_irrefl, Z.leb_refl, andb_false_r. cbn [andb orb].
  destruct (Z.eqb_spec (LastLsn w) kInvalidLsn); [unfold kInvalidLsn in *; lia|].
  rewrite (ReadRange_inv w rs _ _ Hw).
  rewrite range_of_nil by (intros r _; unfold in_range;
    destruct (Z.leb_spec (LastLsn w + 1) (r_lsn r)), (Z.leb_spec (r_lsn r) (LastLsn w)); (done || lia)).
  by destruct limit.
Qed.

(** A client that is current blocks, and is not told to re-sync: while the
    ledger does not grow, [Wait] answers only with the stop error or, at the
    deadline, with an empty batch that is not truncated. *)
Theorem change_feed_wait_current w rs obs now timeout limit f r :
  wal_inv w rs -> 0 <= LastLsn w -> Forall (fun o => ob_wal o = w) obs ->
  Wait obs now (LastLsn w) timeout limit f = Some r ->
  r = Fault kInternal \/ r = OK (mkBatch [] (LastLsn w) (LastLsn w) false).
Proof.
  intros Hw Hp Hobs. unfold Wait. destruct (stopped f); [intros [= <-]; by left|].
  revert f. induction Hobs as [|o obs Ho _ IH]; intros f; cbn [wait_loop]; [done|].
  rewrite Ho, (Snapshot_current w rs f limit Hw Hp).
  rewrite bool_decide_eq_true_2 by done. cbn [negb orb truncated].
  destruct (ob_stopped o); [intros [= <-]; by left|].
  destruct (_ <=? 0); [intros [= <-]; by right|]. apply IH.
Qed.
End ChangeFeed.

#[local] Existing Instance toy_crypto.

Definition demo_log2 : WriteAheadLog := (demo_put IoOk demo_log (bs "k2")).2.

Lemma demo_log2_inv :
  wal_inv demo_log2 [demo_rec (empty_log []) (bs "k1"); demo_rec demo_log (bs "k2")].
Proof.
  destruct (Append_inv demo_env demo_log _ kPut (bs "c") (bs "k2") (bs "v") default_options
    demo_log_inv demo_max demo_args_2 demo_nonce eq_refl) as (w' & Hap & Hinv).
  unfold demo_log2, demo_put. fold demo_env. rewrite Hap. exact Hinv.
Qed.

Lemma change_feed_initial_read_witness :
  exists f', Snapshot demo_log (mkFeed false (-1)) kInvalidLsn 0
    = Some (mkBatch [demo_rec (empty_log []) (bs "k1")] kInvalidLsn (LastLsn demo_log) false, f').
Proof. exact (change_feed_initial_read demo_log _ (mkFeed false (-1)) 0 demo_log_inv). Defined.

Lemma change_feed_never_incremental_witness :
  exists f', Snapshot demo_log2 (mkFeed false 1) 0 0 = Some (mkBatch [] 0 (LastLsn demo_log2) true, f').
Proof.
  apply (change_feed_never_incremental demo_log2 _ (mkFeed false 1) 0 0 demo_log2_inv).
  vm_compute. split; [discriminate|reflexivity].
Defined.

Lemma change_feed_wait_current_witness :
  (OK (mkBatch [] (LastLsn demo_log) (LastLsn demo_log) false) = Fault kInternal
   \/ OK (mkBatch [] (LastLsn demo_log) (LastLsn demo_log) false)
      = OK (mkBatch [] (LastLsn demo_log) (LastLsn demo_log) false)).
Proof.
  apply (change_feed_wait_current demo_log _ [mkObs demo_log false 50] 0 50 0 (mkFeed false (-1))
    (OK (mkBatch [] (LastLsn demo_log) (LastLsn demo_log) false)) demo_log_inv).
  - by vm_compute.
  - constructor; [done|constructor].
  - vm_compute. reflexivity.
Defined.
