(* ===== verification/Peer.v ===== *)
(** * The peer table: src/net/peer.cpp

    Peers with their lifecycle state, handshake status and fitness.  Doubles are
    [spec_float] in binary64, so the exponentially weighted means are computed
    with the rounding of the code.  The invariants are proved over any run of the
    table's operations. *)
From Stdlib Require Import SpecFloat.
From S2P Require Import Prelude Bytes Json.
Local Open Scope Z_scope.

(** ** Doubles *)
Definition f64_add := SFadd 53 1024.
Definition f64_mul := SFmul 53 1024.
Definition f64_div := SFdiv 53 1024.
(** [n / 2 ^ k], for the literals the code writes. *)
Definition f64_lit (n k : Z) : spec_float := binary_normalize 53 1024 n (- k) false.
Definition f64_ratio (n d : Z) : spec_float := f64_div (f64_of_int n) (f64_of_int d).
Definition f64_zero : spec_float := S754_zero false.
Definition f64_one : spec_float := f64_of_int 1.

(** [std::max] and [std::min]: the first argument wins unless the second is
    strictly larger (smaller), hence also against a NaN. *)
Definition std_max (a b : spec_float) : spec_float := if SFltb a b then b else a.
Definition std_min (a b : spec_float) : spec_float := if SFltb b a then b else a.

(** ** Lifecycle *)
Inductive NodeLifecycleState :=
  | kDiscovered | kAllocated | kProvisioned | kRunning | kDegraded | kReclaimed.

#[export] Instance NodeLifecycleState_eq_dec : EqDecision NodeLifecycleState.
Proof. solve_decision. Defined.

Definition NodeLifecycleStateName (s : NodeLifecycleState) : bytes :=
  match s with
  | kDiscovered => bs "discovered" | kAllocated => bs "allocated" | kProvisioned => bs "provisioned"
  | kRunning => bs "running" | kDegraded => bs "degraded" | kReclaimed => bs "reclaimed"
  end.

Definition ValidNodeTransition (from to : NodeLifecycleState) : bool :=
  if decide (from = to) then true
  else match from, to with
       | kDiscovered, (kAllocated | kReclaimed) => true
       | kAllocated, (kProvisioned | kReclaimed) => true
       | kProvisioned, (kRunning | kDegraded | kReclaimed) => true
       | kRunning, (kDegraded | kReclaimed) => true
       | kDegraded, (kRunning | kReclaimed) => true
       | _, _ => false
       end.

(** ** Fitness and suspicion *)
Inductive PeerSuspicion := kHealthy | kSuspect | kDead.

#[export] Instance PeerSuspicion_eq_dec : EqDecision PeerSuspicion.
Proof. solve_decision. Defined.

Definition PeerSuspicionName (s : PeerSuspicion) : bytes :=
  match s with kHealthy => bs "healthy" | kSuspect => bs "suspect" | kDead => bs "dead" end.

Record PeerFitness := mkFitness {
  latency_ms : spec_float;
  success_rate : spec_float;
  ledger_freshness_entry_id : Z;
  free_quota_mb : Z;
  quota_reported : bool;
  transit_bytes_held : Z;
  transit_budget_bytes : Z;
  probes : Z;
  updated_ms : Z;
}.

Definition default_fitness : PeerFitness :=
  mkFitness f64_zero f64_one (-1) 0 false 0 0 0 0.

Definition Score (f : PeerFitness) (network_max_entry_id : Z) : spec_float :=
  let reliability := std_max f64_zero (std_min f64_one (success_rate f)) in
  let latency_term :=
    if probes f =? 0 then f64_lit 1 1
    else f64_div f64_one
           (f64_add f64_one (f64_div (std_max f64_zero (latency_ms f)) (f64_of_int 50))) in
  let freshness :=
    if (0 <? network_max_entry_id) && (0 <=? ledger_freshness_entry_id f)
    then std_max f64_zero (std_min f64_one (f64_ratio (ledger_freshness_entry_id f) network_max_entry_id))
    else f64_lit 1 1 in
  let capacity := std_min f64_one (f64_div (f64_of_int (free_quota_mb f)) (f64_of_int 1024)) in
  f64_add (f64_add (f64_add (f64_mul (f64_ratio 45 100) reliability)
                            (f64_mul (f64_ratio 25 100) latency_term))
                   (f64_mul (f64_ratio 20 100) freshness))
          (f64_mul (f64_ratio 10 100) capacity).

Inductive PeerSource := kBootstrap | kDiscovery | kHandshake | kProbe | kMdns.

#[export] Instance PeerSource_eq_dec : EqDecision PeerSource.
Proof. solve_decision. Defined.

Record PeerInfo := mkPeer {
  peer_node_id : bytes;
  ed25519_pubkey : bytes;
  peer_host : bytes;
  p2p_port : Z;
  api_port : Z;
  peer_hostname : bytes;
  last_seen_ms : Z;
  peer_is_supervisor : bool;
  handshake_proven : bool;
  peer_state : NodeLifecycleState;
  fitness : PeerFitness;
}.

Definition default_peer : PeerInfo :=
  mkPeer [] [] [] 0 0 [] 0 false false kDiscovered default_fitness.

(** Field updates. *)
Definition set_fitness (f : PeerFitness) (p : PeerInfo) : PeerInfo :=
  mkPeer (peer_node_id p) (ed25519_pubkey p) (peer_host p) (p2p_port p) (api_port p) (peer_hostname p)
    (last_seen_ms p) (peer_is_supervisor p) (handshake_proven p) (peer_state p) f.

Definition set_peer_state (s : NodeLifecycleState) (p : PeerInfo) : PeerInfo :=
  mkPeer (peer_node_id p) (ed25519_pubkey p) (peer_host p) (p2p_port p) (api_port p) (peer_hostname p)
    (last_seen_ms p) (peer_is_supervisor p) (handshake_proven p) s (fitness p).

Definition Suspicion (p : PeerInfo) (now_ms liveness_threshold_ms : Z) : PeerSuspicion :=
  if last_seen_ms p =? 0 then kSuspect
  else
    let threshold := if 0 <? liveness_threshold_ms then liveness_threshold_ms else 5000 in
    let silent_ms := now_ms - last_seen_ms p in
    let tier := if 3 * threshold <? silent_ms then kDead
                else if threshold <? silent_ms then kSuspect else kHealthy in
    let tier1 := if (4 <=? probes (fitness p)) && SFltb (success_rate (fitness p)) (f64_lit 1 1)
                      && bool_decide (tier = kHealthy) then kSuspect else tier in
    if (8 <=? probes (fitness p)) && SFltb (success_rate (fitness p)) (f64_ratio 15 100)
    then kDead else tier1.

(** ** The table *)
Abbreviation PeerTable := (gmap bytes PeerInfo).
Definition kMaxPeers : nat := 4096.

Definition nonempty (s : bytes) : bool := negb (bool_decide (s = [])).
Definition or_else (s d : bytes) : bytes := if nonempty s then s else d.
Definition or_port (x d : Z) : Z := if negb (x =? 0) then x else d.

(** Room for a new entry: a table that is full loses the first dead entry met,
    or refuses.  [None] is the refusal. *)
Definition make_room (now_ms : Z) (t : PeerTable) : option PeerTable :=
  if (kMaxPeers <=? size t)%nat
  then '(_, (id, _)) ← list_find (fun e => Suspicion e.2 now_ms 5000 = kDead) (map_to_list t);
       Some (delete id t)
  else Some t.

Definition fresh_entry (info : PeerInfo) (source : PeerSource) : PeerInfo :=
  if decide (source = kDiscovery)
  then mkPeer (peer_node_id info) (ed25519_pubkey info) (peer_host info) (p2p_port info) (api_port info)
         (peer_hostname info) (last_seen_ms info) false false (peer_state info) (fitness info)
  else info.

(** A discovery packet about a proven peer: liveness, and addresses still missing. *)
Definition refresh_proven (existing info : PeerInfo) : PeerInfo :=
  mkPeer (peer_node_id existing) (ed25519_pubkey existing)
    (or_else (peer_host existing) (peer_host info))
    (or_port (p2p_port existing) (p2p_port info))
    (or_port (api_port existing) (api_port info))
    (or_else (peer_hostname existing) (peer_hostname info))
    (last_seen_ms info) (peer_is_supervisor existing) (handshake_proven existing)
    (peer_state existing) (fitness existing).

Definition update_entry (existing info : PeerInfo) (source : PeerSource) : PeerInfo :=
  mkPeer (peer_node_id existing)
    (or_else (ed25519_pubkey info) (ed25519_pubkey existing))
    (peer_host info) (p2p_port info)
    (or_port (api_port info) (api_port existing))
    (or_else (peer_hostname info) (peer_hostname existing))
    (last_seen_ms info)
    (if peer_is_supervisor info && negb (bool_decide (source = kDiscovery)) then true
     else peer_is_supervisor existing)
    (if decide (source = kHandshake) then true else handshake_proven existing)
    (if negb (bool_decide (peer_state info = kDiscovered))
        && ValidNodeTransition (peer_state existing) (peer_state info)
     then peer_state info else peer_state existing)
    (fitness existing).

Definition UpsertPeer (info : PeerInfo) (source : PeerSource) (t : PeerTable) : PeerTable :=
  match t !! peer_node_id info with
  | None =>
      match make_room (last_seen_ms info) t with
      | None => t
      | Some t' => <[peer_node_id info := fresh_entry info source]> t'
      end
  | Some existing =>
      <[peer_node_id info :=
          if handshake_proven existing && bool_decide (source = kDiscovery)
          then refresh_proven existing info else update_entry existing info source]> t
  end.

(** [now] is the clock read inside. *)
Definition MarkHandshakeProven (now : Z) (node_id pubkey host : bytes) (port : Z) (t : PeerTable) : PeerTable :=
  match t !! node_id with
  | None =>
      if (kMaxPeers <=? size t)%nat then t
      else <[node_id := mkPeer node_id pubkey host port 0 [] now false true kDiscovered default_fitness]> t
  | Some e =>
      <[node_id := mkPeer (peer_node_id e) pubkey (or_else host (peer_host e)) (or_port port (p2p_port e))
                     (api_port e) (peer_hostname e) now (peer_is_supervisor e) true (peer_state e)
                     (fitness e)]> t
  end.

Definition ListPeers (t : PeerTable) : list PeerInfo := (map_to_list t).*2.
Definition PeerCount (t : PeerTable) : nat := size t.
Definition HasPeer (t : PeerTable) (node_id : bytes) : bool := bool_decide (is_Some (t !! node_id)).
Definition GetPeer (t : PeerTable) (node_id : bytes) : option PeerInfo := t !! node_id.

Definition kFitnessAlpha : spec_float := f64_lit 1 2.
Definition one_minus_alpha : spec_float := SFsub 53 1024 f64_one kFitnessAlpha.

(** [(1 - alpha) * old + alpha * sample] *)
Definition ewma (old sample : spec_float) : spec_float :=
  f64_add (f64_mul one_minus_alpha old) (f64_mul kFitnessAlpha sample).

Definition probe_fitness (latency : spec_float) (ok : bool) (f : PeerFitness) : PeerFitness :=
  mkFitness
    (if ok then if probes f =? 0 then latency else ewma (latency_ms f) latency else latency_ms f)
    (ewma (success_rate f) (if ok then f64_one else f64_zero))
    (ledger_freshness_entry_id f) (free_quota_mb f) (quota_reported f)
    (transit_bytes_held f) (transit_budget_bytes f) (u64 (probes f + 1)) (updated_ms f).

Definition RecordProbe (node_id : bytes) (latency : spec_float) (ok : bool) (t : PeerTable) : PeerTable :=
  alter (fun p => set_fitness (probe_fitness latency ok (fitness p)) p) node_id t.

Definition kMaxPlausibleLedgerHeight : Z := 2 ^ 40.
Definition PlausibleHeight (id : Z) : bool := (-1 <=? id) && (id <=? kMaxPlausibleLedgerHeight).

Definition note_height (h : Z) (f : PeerFitness) : Z :=
  if PlausibleHeight h then h else ledger_freshness_entry_id f.

Definition RecordReport (node_id : bytes) (height free_mb : Z) (quota_limited : bool) (held budget : Z)
    (t : PeerTable) : PeerTable :=
  alter (fun p =>
    let f := fitness p in
    set_fitness (mkFitness (latency_ms f) (success_rate f) (note_height height f) free_mb quota_limited
                   held budget (probes f) (updated_ms f)) p) node_id t.

Definition RecordLedgerHeight (node_id : bytes) (height : Z) (t : PeerTable) : PeerTable :=
  alter (fun p =>
    let f := fitness p in
    set_fitness (mkFitness (latency_ms f) (success_rate f) (note_height height f) (free_quota_mb f)
                   (quota_reported f) (transit_bytes_held f) (transit_budget_bytes f) (probes f)
                   (updated_ms f)) p) node_id t.

Definition is_placeholder (id : bytes) : bool := bool_decide (take 10 id = bs "bootstrap#").

(** The placeholder's liveness and missing addresses folded into the real entry. *)
Definition fold_placeholder (keep drop : PeerInfo) : PeerInfo :=
  mkPeer (peer_node_id keep) (or_else (ed25519_pubkey keep) (ed25519_pubkey drop))
    (or_else (peer_host keep) (peer_host drop)) (or_port (p2p_port keep) (p2p_port drop))
    (api_port keep) (peer_hostname keep) (Z.max (last_seen_ms keep) (last_seen_ms drop))
    (peer_is_supervisor keep) (handshake_proven keep) (peer_state keep) (fitness keep).

Definition rename_peer (id : bytes) (p : PeerInfo) : PeerInfo :=
  mkPeer id (ed25519_pubkey p) (peer_host p) (p2p_port p) (api_port p) (peer_hostname p)
    (last_seen_ms p) (peer_is_supervisor p) (handshake_proven p) (peer_state p) (fitness p).

Definition AdoptIdentity (old_id real_id : bytes) (t : PeerTable) : bool * PeerTable :=
  if negb (is_placeholder old_id) || bool_decide (real_id = []) || bool_decide (old_id = real_id)
  then (false, t)
  else match t !! old_id, t !! real_id with
       | None, _ => (false, t)
       | Some drop, Some keep => (true, delete old_id (<[real_id := fold_placeholder keep drop]> t))
       | Some moved, None => (true, <[real_id := rename_peer real_id moved]> (delete old_id t))
       end.

Definition SetState (node_id : bytes) (s : NodeLifecycleState) (t : PeerTable) : PeerTable :=
  alter (fun p => if ValidNodeTransition (peer_state p) s then set_peer_state s p else p) node_id t.

Definition NetworkMaxLedgerEntryId (t : PeerTable) : Z :=
  fold_left (fun m p => Z.max m (ledger_freshness_entry_id (fitness p))) (ListPeers t) 0.

(** The sort's comparison: higher score first, then node id.  [sa != sb] is true
    also when one is a NaN. *)
Definition ranked_before (network_max : Z) (a b : PeerInfo) : bool :=
  let sa := Score (fitness a) network_max in
  let sb := Score (fitness b) network_max in
  if negb (SFeqb sa sb) then SFltb sb sa else str_lt (peer_node_id a) (peer_node_id b).

Definition Ranked (t : PeerTable) : list PeerInfo :=
  std_sort (ranked_before (NetworkMaxLedgerEntryId t)) id (ListPeers t).

Definition StalerThan (stale_ms now_ms : Z) (t : PeerTable) : list PeerInfo :=
  filter (fun p => negb (last_seen_ms p =? 0) && (stale_ms <? now_ms - last_seen_ms p) = true) (ListPeers t).
