(* ===== verification/PeerProps.v ===== *)
(** * The peer table: invariants and suspicion

    Runs of the table's operations: the size cap, keys and plausible heights; the
    lifecycle automaton; what unauthenticated input can do to a proven entry; the
    failure detector under consecutive failed probes; the ranking. *)
From Stdlib Require Import SpecFloat.
From stdpp Require Import relations.
From S2P Require Import Prelude Bytes Json Peer.
Local Open Scope Z_scope.

(** ** Operations as steps *)
Inductive peer_op :=
  | OpUpsert (info : PeerInfo) (source : PeerSource)
  | OpHandshake (now : Z) (node_id pubkey host : bytes) (port : Z)
  | OpProbe (node_id : bytes) (latency : spec_float) (ok : bool)
  | OpReport (node_id : bytes) (height free_mb : Z) (limited : bool) (held budget : Z)
  | OpHeight (node_id : bytes) (height : Z)
  | OpAdopt (old_id real_id : bytes)
  | OpSetState (node_id : bytes) (s : NodeLifecycleState).

Definition apply_op (t : PeerTable) (o : peer_op) : PeerTable :=
  match o with
  | OpUpsert info source => UpsertPeer info source t
  | OpHandshake now id pk h port => MarkHandshakeProven now id pk h port t
  | OpProbe id l ok => RecordProbe id l ok t
  | OpReport id h free lim held budget => RecordReport id h free lim held budget t
  | OpHeight id h => RecordLedgerHeight id h t
  | OpAdopt old real => (AdoptIdentity old real t).2
  | OpSetState id s => SetState id s t
  end.

Definition run_ops (t : PeerTable) (ops : list peer_op) : PeerTable := fold_left apply_op ops t.

(** ** The invariant *)
Definition peer_ok (id : bytes) (p : PeerInfo) : Prop :=
  peer_node_id p = id /\ PlausibleHeight (ledger_freshness_entry_id (fitness p)) = true.

Record table_ok (t : PeerTable) : Prop := {
  table_entries : map_Forall peer_ok t;
  table_size : (size t <= kMaxPeers)%nat;
}.

(** Upserted descriptions carry a height that passed the check (or the default). *)
Definition op_ok (o : peer_op) : Prop :=
  match o with
  | OpUpsert info _ => PlausibleHeight (ledger_freshness_entry_id (fitness info)) = true
  | _ => True
  end.

Lemma size_insert_le (t : PeerTable) id p : (size (<[id := p]> t) <= S (size t))%nat.
Proof. rewrite map_size_insert. destruct (t !! id); cbn; lia. Qed.

Lemma make_room_spec now t t' :
  make_room now t = Some t' -> (size t <= kMaxPeers)%nat -> (size t' < kMaxPeers)%nat /\ t' ⊆ t.
Proof.
  unfold make_room. intros H Hs. destruct (Nat.leb_spec kMaxPeers (size t)) as [Hf|Hf].
  - apply bind_Some in H as ([i [id p]] & Hfind & H). injection H as <-.
    apply list_find_Some in Hfind as (Hl & _). apply list_elem_of_lookup_2, elem_of_map_to_list in Hl.
    split; [|apply delete_subseteq]. rewrite map_size_delete_Some by eauto.
    unfold kMaxPeers in *. lia.
  - injection H as <-. done.
Qed.

Lemma make_room_roomy now t : (size t < kMaxPeers)%nat -> make_room now t = Some t.
Proof. intros H. unfold make_room. destruct (Nat.leb_spec kMaxPeers (size t)); [lia|done]. Qed.

Lemma size_insert_present (t : PeerTable) id p e : t !! id = Some e -> size (<[id := p]> t) = size t.
Proof. intros H. rewrite map_size_insert, H. done. Qed.

Lemma note_height_plausible h f :
  PlausibleHeight (ledger_freshness_entry_id f) = true -> PlausibleHeight (note_height h f) = true.
Proof. unfold note_height. destruct (PlausibleHeight h) eqn:E; done. Qed.

Lemma size_alter (g : PeerInfo -> PeerInfo) (id : bytes) (t : PeerTable) : size (alter g id t) = size t.
Proof.
  destruct (t !! id) as [p|] eqn:E.
  - assert (alter g id t = <[id := g p]> t) as ->; [|by eapply size_insert_present].
    apply map_eq. intros j. destruct (decide (id = j)) as [<-|].
    + by rewrite lookup_alter_eq, lookup_insert_eq, E.
    + by rewrite lookup_alter_ne, lookup_insert_ne.
  - rewrite alter_id; [done|]. intros p. by rewrite E.
Qed.

(** An update in place keeps the invariant when it keeps it on the entry. *)
Lemma table_ok_alter g id t :
  (forall p, peer_ok id p -> peer_ok id (g p)) -> table_ok t -> table_ok (alter g id t).
Proof.
  intros Hg [He Hs]. split.
  - intros j p. destruct (decide (id = j)) as [<-|Hne].
    + rewrite lookup_alter_eq. intros (q & Hq & ->)%fmap_Some. apply Hg. by apply (He id).
    + rewrite lookup_alter_ne by done. apply He.
  - by rewrite size_alter.
Qed.

Lemma table_ok_insert id p t :
  peer_ok id p -> (size t < kMaxPeers)%nat \/ is_Some (t !! id) -> table_ok t -> table_ok (<[id := p]> t).
Proof.
  intros Hp Hr [He Hs]. split; [by apply map_Forall_insert_2|].
  destruct Hr as [Hr|[e Hr]].
  - pose proof (size_insert_le t id p). lia.
  - by rewrite (size_insert_present _ _ _ _ Hr).
Qed.

Lemma table_ok_subset t t' : t' ⊆ t -> table_ok t -> table_ok t'.
Proof.
  intros Hsub [He Hs]. split.
  - intros j p Hj. apply He. by eapply lookup_weaken.
  - etransitivity; [|exact Hs]. by apply map_subseteq_size.
Qed.

Lemma AdoptIdentity_table_ok old real t : table_ok t -> table_ok (AdoptIdentity old real t).2.
Proof.
  intros Ht. unfold AdoptIdentity. destruct (_ || _ || _); [done|].
  destruct (t !! old) as [d|] eqn:Ed; [|done]. destruct (t !! real) as [k|] eqn:Ek; cbn [snd].
  - eapply table_ok_subset; [apply delete_subseteq|]. apply table_ok_insert; [|by right|done].
    destruct Ht as [He _]. specialize (He _ _ Ek) as [H1 H2]. by split.
  - apply table_ok_insert.
    + destruct Ht as [He _]. specialize (He _ _ Ed) as [H1 H2]. by split.
    + left. rewrite map_size_delete_Some by eauto. destruct Ht as [_ Hs].
      unfold kMaxPeers in *. lia.
    + eapply table_ok_subset; [apply delete_subseteq|done].
Qed.

Lemma apply_op_ok t o : op_ok o -> table_ok t -> table_ok (apply_op t o).
Proof.
  intros Ho Ht. destruct o; cbn [apply_op op_ok] in *.
  - unfold UpsertPeer. destruct (t !! peer_node_id info) as [e|] eqn:E.
    + apply table_ok_insert; [|right; eauto|done].
      destruct Ht as [He _]. specialize (He _ _ E) as [H1 H2]. by destruct (_ && _); split.
    + destruct (make_room _ t) as [t'|] eqn:Er; [|done].
      apply make_room_spec in Er as [Hs Hsub]; [|apply Ht].
      apply table_ok_insert; [|by left|by eapply table_ok_subset].
      unfold fresh_entry. by destruct (decide _); split.
  - unfold MarkHandshakeProven. destruct (t !! node_id) as [e|] eqn:E.
    + apply table_ok_insert; [|right; eauto|done].
      destruct Ht as [He _]. specialize (He _ _ E) as [H1 H2]. by split.
    + destruct (Nat.leb_spec kMaxPeers (size t)); [done|]. apply table_ok_insert; [done|by left|done].
  - apply table_ok_alter; [|done]. intros p [H1 H2]. by split.
  - apply table_ok_alter; [|done]. intros p [H1 H2]. split; [done|]. by apply note_height_plausible.
  - apply table_ok_alter; [|done]. intros p [H1 H2]. split; [done|]. by apply note_height_plausible.
  - by apply AdoptIdentity_table_ok.
  - apply table_ok_alter; [|done]. intros p [H1 H2]. by destruct (ValidNodeTransition _ _); split.
Qed.

Lemma run_ops_ok t ops : Forall op_ok ops -> table_ok t -> table_ok (run_ops t ops).
Proof.
  intros H. revert t. induction H as [|o ops Ho _ IH]; intros t Ht; [done|].
  apply IH. by apply apply_op_ok.
Qed.

Lemma empty_table_ok : table_ok ∅.
Proof. split; [apply map_Forall_empty|]. rewrite map_size_empty. unfold kMaxPeers. lia. Qed.

Lemma max_height_bound (l : list PeerInfo) m :
  m <= kMaxPlausibleLedgerHeight ->
  Forall (fun p => PlausibleHeight (ledger_freshness_entry_id (fitness p)) = true) l ->
  m <= fold_left (fun m p => Z.max m (ledger_freshness_entry_id (fitness p))) l m <= kMaxPlausibleLedgerHeight.
Proof.
  intros Hm H. revert m Hm. induction H as [|p l Hp _ IH]; intros m Hm; cbn [fold_left]; [lia|].
  unfold PlausibleHeight in Hp. rewrite andb_true_iff, !Z.leb_le in Hp.
  specialize (IH (Z.max m (ledger_freshness_entry_id (fitness p))) ltac:(lia)). lia.
Qed.

(** C35: over any run of operations from the empty table, every entry is filed under its own
    id, the table never exceeds its cap whatever is announced to it, and the freshest ledger
    height it reports stays within the plausible range. Condition: announced heights are
    plausible, as every caller has checked. *)
Theorem peer_table_invariant ops :
  Forall op_ok ops ->
  let t := run_ops ∅ ops in
  (forall id p, t !! id = Some p -> peer_node_id p = id)
  /\ (PeerCount t <= kMaxPeers)%nat
  /\ 0 <= NetworkMaxLedgerEntryId t <= kMaxPlausibleLedgerHeight.
Proof.
  intros Hops t. destruct (run_ops_ok ∅ ops Hops empty_table_ok) as [He Hs]. fold t in He, Hs.
  split; [intros id p Hp; by apply (He id)|]. split; [done|].
  apply max_height_bound; [unfold kMaxPlausibleLedgerHeight; lia|].
  unfold ListPeers. rewrite Forall_forall. intros p ([id q] & -> & Hin)%list_elem_of_fmap.
  apply elem_of_map_to_list in Hin. by apply (He id).
Qed.

(** ** What one step does to an entry that stays *)

(** The entry of [id] before and after are related by [R]. *)
Definition entry_step (R : PeerInfo -> PeerInfo -> Prop) (id : bytes) (t t' : PeerTable) : Prop :=
  forall p, t !! id = Some p -> exists p', t' !! id = Some p' /\ R p p'.

Lemma entry_step_alter R `{!Reflexive R} id j g t :
  (forall p, R p (g p)) -> entry_step R id t (alter g j t).
Proof.
  intros Hg p Hp. destruct (decide (j = id)) as [->|Hne].
  - exists (g p). rewrite lookup_alter_eq, Hp. by split.
  - exists p. by rewrite lookup_alter_ne.
Qed.

Lemma entry_step_insert R `{!Reflexive R} id j q t :
  (forall p, t !! j = Some p -> R p q) -> entry_step R id t (<[j := q]> t).
Proof.
  intros Hq p Hp. destruct (decide (j = id)) as [->|Hne].
  - exists q. rewrite lookup_insert_eq. split; [done|]. by apply Hq.
  - exists p. by rewrite lookup_insert_ne.
Qed.

(** The steps a relation has to survive; [trusted] marks the upserts and
    handshakes that may change a proven identity. *)
Record step_closed (R : PeerInfo -> PeerInfo -> Prop) (allowed : peer_op -> Prop) : Prop := {
  closed_refl : Reflexive R;
  closed_refresh : forall p info, handshake_proven p = true -> R p (refresh_proven p info);
  closed_update : forall p info source, allowed (OpUpsert info source) ->
    handshake_proven p && bool_decide (source = kDiscovery) = false -> R p (update_entry p info source);
  closed_handshake : forall now id pk h port p, allowed (OpHandshake now id pk h port) ->
    R p (mkPeer (peer_node_id p) pk (or_else h (peer_host p)) (or_port port (p2p_port p)) (api_port p)
           (peer_hostname p) now (peer_is_supervisor p) true (peer_state p) (fitness p));
  closed_fitness : forall p f, R p (set_fitness f p);
  closed_fold : forall keep drop, R keep (fold_placeholder keep drop);
  closed_state : forall p s, ValidNodeTransition (peer_state p) s = true -> R p (set_peer_state s p);
}.

Lemma upsert_entry_step R allowed info source id t :
  step_closed R allowed -> allowed (OpUpsert info source) -> (size t < kMaxPeers)%nat ->
  entry_step R id t (UpsertPeer info source t).
Proof.
  intros HR Hal Hs. pose proof (closed_refl _ _ HR). unfold UpsertPeer.
  destruct (t !! peer_node_id info) as [e|] eqn:E.
  - apply entry_step_insert; [done|]. intros p. rewrite E. intros [= <-].
    destruct (handshake_proven e && _) eqn:Eb.
    + apply (closed_refresh _ _ HR). by apply andb_true_iff in Eb as [? _].
    + by apply (closed_update _ _ HR).
  - rewrite make_room_roomy by done. apply entry_step_insert; [done|]. intros p. by rewrite E.
Qed.

Lemma adopt_entry_step R allowed old real id t :
  step_closed R allowed -> is_placeholder id = false ->
  entry_step R id t (AdoptIdentity old real t).2.
Proof.
  intros HR Hid p Hp. pose proof (closed_refl _ _ HR). unfold AdoptIdentity.
  destruct (is_placeholder old) eqn:Eo; cbn [negb orb]; [|by exists p].
  assert (old <> id) as Hne by congruence.
  destruct (_ || _); [by exists p|]. destruct (t !! old) as [d|] eqn:Ed; [|by exists p].
  destruct (t !! real) as [k|] eqn:Ek; cbn [snd].
  - rewrite lookup_delete_ne by done. destruct (decide (real = id)) as [->|Hr].
    + rewrite lookup_insert_eq. simplify_eq. eexists. split; [done|]. apply (closed_fold _ _ HR).
    + rewrite lookup_insert_ne by done. by exists p.
  - destruct (decide (real = id)) as [->|Hr]; [congruence|].
    rewrite lookup_insert_ne, lookup_delete_ne by done. by exists p.
Qed.

Lemma apply_op_entry R allowed o id t :
  step_closed R allowed -> allowed o -> is_placeholder id = false -> (size t < kMaxPeers)%nat ->
  entry_step R id t (apply_op t o).
Proof.
  intros HR Hal Hid Hs. pose proof (closed_refl _ _ HR) as Hrefl. destruct o; cbn [apply_op].
  - by eapply upsert_entry_step.
  - unfold MarkHandshakeProven. destruct (t !! node_id) as [e|] eqn:E.
    + apply entry_step_insert; [done|]. intros p. rewrite E. intros [= <-].
      by eapply (closed_handshake _ _ HR).
    + destruct (kMaxPeers <=? size t)%nat; [by intros p Hp; exists p|].
      apply entry_step_insert; [done|]. intros p. by rewrite E.
  - apply entry_step_alter; [done|]. intros p. apply (closed_fitness _ _ HR).
  - apply entry_step_alter; [done|]. intros p. apply (closed_fitness _ _ HR).
  - apply entry_step_alter; [done|]. intros p. apply (closed_fitness _ _ HR).
  - by eapply adopt_entry_step.
  - apply entry_step_alter; [done|]. intros p.
    destruct (ValidNodeTransition _ _) eqn:Ev; [by apply (closed_state _ _ HR)|done].
Qed.

Lemma apply_op_size t o : (size (apply_op t o) <= S (size t))%nat.
Proof.
  assert (forall (g : PeerInfo -> PeerInfo) (id : bytes), size (alter g id t) <= S (size t))%nat as Halt.
  { intros g id. rewrite size_alter. lia. }
  destruct o; cbn [apply_op]; try apply Halt.
  - unfold UpsertPeer. destruct (t !! _); [apply size_insert_le|].
    destruct (make_room _ t) as [t'|] eqn:Er; [|lia].
    etransitivity; [apply size_insert_le|]. apply le_n_S. apply map_subseteq_size.
    unfold make_room in Er. destruct (_ <=? _)%nat; [|by simplify_eq].
    apply bind_Some in Er as ([? [? ?]] & _ & [= <-]). apply delete_subseteq.
  - unfold MarkHandshakeProven. destruct (t !! _); [apply size_insert_le|].
    destruct (_ <=? _)%nat; [lia|apply size_insert_le].
  - unfold AdoptIdentity. destruct (_ || _ || _); [cbn; lia|].
    destruct (t !! old_id); [|cbn; lia]. destruct (t !! real_id); cbn [snd].
    + etransitivity; [apply map_subseteq_size, delete_subseteq|]. apply size_insert_le.
    + etransitivity; [apply size_insert_le|]. apply le_n_S, map_subseteq_size, delete_subseteq.
Qed.

Lemma run_entry R allowed ops id t p :
  step_closed R allowed -> Forall allowed ops -> is_placeholder id = false ->
  (size t + length ops <= kMaxPeers)%nat -> t !! id = Some p ->
  exists p', run_ops t ops !! id = Some p' /\ rtc R p p'.
Proof.
  intros HR Hall Hid. revert t p. induction Hall as [|o ops Ho _ IH]; intros t p Hs Hp.
  - exists p. by split.
  - cbn [length] in Hs. destruct (apply_op_entry R allowed o id t HR Ho Hid ltac:(lia) p Hp) as (q & Hq & Rq).
    pose proof (apply_op_size t o).
    destruct (IH (apply_op t o) q ltac:(lia) Hq) as (p' & Hp' & Rp). exists p'. split; [done|].
    by eapply rtc_l.
Qed.

(** ** The lifecycle automaton *)
Definition lifecycle_le (p q : PeerInfo) : Prop := ValidNodeTransition (peer_state p) (peer_state q) = true.

Lemma valid_refl s : ValidNodeTransition s s = true.
Proof. by destruct s. Qed.

Lemma lifecycle_closed : step_closed lifecycle_le (fun _ => True).
Proof.
  unfold lifecycle_le. split; try by intros; apply valid_refl.
  - intros p. apply valid_refl.
  - intros p info source _ _. cbn. destruct (negb _ && _) eqn:E; [|apply valid_refl].
    by apply andb_true_iff in E as [_ ?].
  - done.
Qed.

Lemma reclaimed_rtc p q : rtc lifecycle_le p q -> peer_state p = kReclaimed -> peer_state q = kReclaimed.
Proof.
  induction 1 as [|p q r Hpq _ IH]; [done|]. intros E. apply IH. unfold lifecycle_le in Hpq.
  rewrite E in Hpq. by destruct (peer_state q).
Qed.

(** Whatever the table is told -- discovery packets, handshakes, probes, explicit
    state changes -- an entry that is not evicted only moves along the documented
    lifecycle transitions, and one that was reclaimed stays reclaimed.  (No eviction
    can happen while the table has room for the entries the run adds.) *)
Theorem peer_lifecycle_monotone ops t id p :
  is_placeholder id = false -> (size t + length ops <= kMaxPeers)%nat -> t !! id = Some p ->
  exists p', run_ops t ops !! id = Some p'
    /\ rtc (fun a b => ValidNodeTransition a b = true) (peer_state p) (peer_state p')
    /\ (peer_state p = kReclaimed -> peer_state p' = kReclaimed).
Proof.
  intros Hid Hs Hp.
  destruct (run_entry lifecycle_le (fun _ => True) ops id t p lifecycle_closed) as (p' & Hp' & R);
    [by apply Forall_true|done..|].
  exists p'. split; [done|]. split; [|by apply reclaimed_rtc].
  clear -R. induction R as [|a b c Hab _ IH]; [done|]. by eapply rtc_l.
Qed.

(** ** What unauthenticated input can do to a proven entry *)
Definition unauthenticated (o : peer_op) : Prop :=
  match o with OpUpsert _ source => source = kDiscovery | OpHandshake _ _ _ _ _ => False | _ => True end.

Definition identity_kept (p q : PeerInfo) : Prop :=
  handshake_proven p = true -> ed25519_pubkey p <> [] ->
  handshake_proven q = true /\ ed25519_pubkey q = ed25519_pubkey p
  /\ peer_is_supervisor q = peer_is_supervisor p
  /\ (peer_host p <> [] -> peer_host q = peer_host p)
  /\ (p2p_port p <> 0 -> p2p_port q = p2p_port p).

Lemma or_else_same a b : a <> [] -> or_else a b = a.
Proof. intros H. unfold or_else, nonempty. by rewrite bool_decide_eq_false_2. Qed.

Lemma or_port_same a b : a <> 0 -> or_port a b = a.
Proof. intros H. unfold or_port. by destruct (Z.eqb_spec a 0). Qed.

Lemma identity_closed : step_closed identity_kept unauthenticated.
Proof.
  unfold identity_kept. split; cbn -[or_else or_port].
  - intros p Hp Hk. done.
  - intros p info Hp _ Hk. repeat split; try done; intros; [by apply or_else_same|by apply or_port_same].
  - intros p info source -> Hb Hp. by rewrite Hp in Hb.
  - done.
  - done.
  - intros k d Hp Hk. rewrite or_else_same by done.
    repeat split; try done; intros; [by apply or_else_same|by apply or_port_same].
  - done.
Qed.

Lemma identity_trans p q r : identity_kept p q -> identity_kept q r -> identity_kept p r.
Proof.
  intros H1 H2 Hp Hk. destruct (H1 Hp Hk) as (A1 & A2 & A3 & A4 & A5).
  destruct (H2 A1 ltac:(congruence)) as (B1 & B2 & B3 & B4 & B5).
  split; [done|]. split; [congruence|]. split; [congruence|]. split; intros H.
  - rewrite B4; rewrite A4 by done; done.
  - rewrite B5; rewrite A5 by done; done.
Qed.

(** C34: no run of UDP discovery packets, probe results, peer reports, adoptions of
    placeholder entries and changes of lifecycle state alters the public key, the supervisor
    flag or the learned address of a peer whose handshake was proven, nor makes it unproven.
    Conditions: the run contains no handshake and no announcement by mDNS (which does move
    the address, [mdns_moves_proven]); the peer is filed under a real id with its public
    key; and the table cannot fill up during the run, that is, its size and the number of
    operations together stay within 4096, so that nothing is evicted. *)
Theorem discovery_cannot_spoof ops t id p :
  Forall unauthenticated ops -> is_placeholder id = false ->
  (size t + length ops <= kMaxPeers)%nat -> t !! id = Some p ->
  handshake_proven p = true -> ed25519_pubkey p <> [] ->
  exists p', run_ops t ops !! id = Some p'
    /\ handshake_proven p' = true /\ ed25519_pubkey p' = ed25519_pubkey p
    /\ peer_is_supervisor p' = peer_is_supervisor p
    /\ (peer_host p <> [] -> peer_host p' = peer_host p)
    /\ (p2p_port p <> 0 -> p2p_port p' = p2p_port p).
Proof.
  intros Hops Hid Hs Hp Hpr Hk.
  destruct (run_entry _ _ ops id t p identity_closed Hops Hid Hs Hp) as (p' & Hp' & R).
  exists p'. split; [done|]. assert (identity_kept p p') as HI; [|by apply HI].
  clear -R. induction R as [a|a b c Hab _ IH]; [by intros ??|]. by eapply identity_trans.
Qed.

(** mDNS announcements are as unsigned as discovery packets, but the guard only
    tests for [kDiscovery]: an announcement moves a proven peer's address and
    liveness stamp, and the entry still counts as proven. *)
Theorem mdns_moves_proven info t p :
  t !! peer_node_id info = Some p -> handshake_proven p = true ->
  exists p', UpsertPeer info kMdns t !! peer_node_id info = Some p'
    /\ handshake_proven p' = true /\ peer_host p' = peer_host info
    /\ p2p_port p' = p2p_port info /\ last_seen_ms p' = last_seen_ms info.
Proof.
  intros Hp Hpr. unfold UpsertPeer. rewrite Hp, Hpr, bool_decide_eq_false_2 by done. cbn [andb].
  eexists. rewrite lookup_insert_eq. split; [done|]. by rewrite <- Hpr.
Qed.

(** ** The failure detector *)

(** The success rate after [n] failed probes in a row. *)
Fixpoint failing_rate (n : nat) (r : spec_float) : spec_float :=
  match n with O => r | S n' => failing_rate n' (ewma r f64_zero) end.

Fixpoint fail_probes (n : nat) (p : PeerInfo) : PeerInfo :=
  match n with O => p | S n' => fail_probes n' (set_fitness (probe_fitness f64_zero false (fitness p)) p) end.

Lemma fail_probes_rate n p : success_rate (fitness (fail_probes n p)) = failing_rate n (success_rate (fitness p)).
Proof. revert p. induction n as [|n IH]; intros p; [done|]. apply IH. Qed.

Lemma fail_probes_seen n p : last_seen_ms (fail_probes n p) = last_seen_ms p.
Proof. revert p. induction n as [|n IH]; intros p; [done|]. cbn [fail_probes]. by rewrite IH. Qed.

Lemma fail_probes_count n p :
  0 <= probes (fitness p) -> probes (fitness p) + Z.of_nat n < 2 ^ 64 ->
  probes (fitness (fail_probes n p)) = probes (fitness p) + Z.of_nat n.
Proof.
  revert p. induction n as [|n IH]; intros p H0 H; [cbn; lia|]. cbn [fail_probes].
  assert (probes (probe_fitness f64_zero false (fitness p)) = probes (fitness p) + 1) as E.
  { cbn [probe_fitness probes]. apply wrap_id. unfold fits. lia. }
  rewrite IH; cbn [set_fitness fitness]; rewrite ?E; lia.
Qed.

#[export] Instance spec_float_eq_dec : EqDecision spec_float.
Proof. solve_decision. Defined.

(** Rounding stops the decay at the smallest subnormal: the orbit of a rate
    reaches a fixed point, and checking it up to there covers every [n]. *)
Fixpoint orbit_below (fuel : nat) (bound r : spec_float) : bool :=
  match fuel with
  | O => false
  | S f =>
      let r' := ewma r f64_zero in
      SFltb r bound && (if decide (r' = r) then true else orbit_below f bound r')
  end.

Lemma orbit_below_sound fuel bound r n :
  orbit_below fuel bound r = true -> SFltb (failing_rate n r) bound = true.
Proof.
  revert r n. induction fuel as [|f IH]; intros r n; [done|]. cbn [orbit_below].
  intros (H1 & H2)%andb_true_iff. destruct n as [|n]; [done|]. cbn [failing_rate].
  destruct (decide (ewma r f64_zero = r)) as [E|]; [|by apply IH]. rewrite E.
  assert (failing_rate n r = r) as ->; [|done].
  clear -E. induction n as [|n IHn]; [done|]. cbn [failing_rate]. by rewrite E.
Qed.

(** Below 0.5 after four failures, below 0.15 after eight, whatever follows. *)
Lemma rate_after_4 n : SFltb (failing_rate n (failing_rate 4 f64_one)) (f64_lit 1 1) = true.
Proof. apply (orbit_below_sound 3000). vm_compute. reflexivity. Qed.

Lemma rate_after_8 n : SFltb (failing_rate n (failing_rate 8 f64_one)) (f64_ratio 15 100) = true.
Proof. apply (orbit_below_sound 3000). vm_compute. reflexivity. Qed.

Lemma failing_rate_add n m r : failing_rate (n + m) r = failing_rate m (failing_rate n r).
Proof. revert r. induction n as [|n IH]; intros r; [done|]. apply IH. Qed.

(** The failure detector on a peer heard from within the threshold: consecutive
    failed probes leave it healthy up to three, make it suspect from the fourth and
    dead from the eighth on, for every number of failures. *)
Theorem suspicion_under_failures n p now threshold :
  success_rate (fitness p) = f64_one -> probes (fitness p) = 0 -> last_seen_ms p <> 0 ->
  Z.of_nat n < 2 ^ 64 ->
  now - last_seen_ms p <= (if 0 <? threshold then threshold else 5000) ->
  Suspicion (fail_probes n p) now threshold
  = if (n <? 4)%nat then kHealthy else if (n <? 8)%nat then kSuspect else kDead.
Proof.
  intros Hr Hp Hs Hn Hl. unfold Suspicion.
  rewrite fail_probes_seen, fail_probes_rate, fail_probes_count, Hr, Hp by (rewrite Hp; lia).
  rewrite (proj2 (Z.eqb_neq _ _) Hs). set (th := if 0 <? threshold then threshold else 5000) in *.
  assert (0 < th) by (unfold th; destruct (Z.ltb_spec 0 threshold); lia).
  rewrite (proj2 (Z.ltb_ge (3 * th) _)), (proj2 (Z.ltb_ge th _)) by lia. cbv zeta.
  rewrite bool_decide_eq_true_2 by done. rewrite andb_true_r.
  destruct (Nat.ltb_spec n 4) as [H4|H4].
  { rewrite !(proj2 (Z.leb_gt _ _)) by lia. done. }
  rewrite (proj2 (Z.leb_le 4 _)) by lia. destruct (Nat.ltb_spec n 8) as [H8|H8].
  - rewrite (proj2 (Z.leb_gt 8 _)) by lia. cbn [andb].
    replace n with (4 + (n - 4))%nat by lia. by rewrite failing_rate_add, rate_after_4.
  - rewrite (proj2 (Z.leb_le 8 _)) by lia. cbn [andb].
    replace n with (8 + (n - 8))%nat by lia. by rewrite (failing_rate_add 8), rate_after_8.
Qed.

(** ** Witnesses *)
Definition alice : PeerInfo :=
  mkPeer (bs "alice") (bs "key") (bs "10.0.0.1") 7000 0 [] 100 false true kRunning default_fitness.
Definition rogue : PeerInfo :=
  mkPeer (bs "alice") (bs "other") (bs "10.6.6.6") 1 9 [] 200 true true kReclaimed default_fitness.

Lemma peer_table_invariant_witness :
  let t := run_ops ∅ [OpUpsert alice kHandshake; OpReport (bs "alice") (2 ^ 62) 5 true 0 0] in
  (forall id p, t !! id = Some p -> peer_node_id p = id)
  /\ (PeerCount t <= kMaxPeers)%nat
  /\ 0 <= NetworkMaxLedgerEntryId t <= kMaxPlausibleLedgerHeight.
Proof. apply peer_table_invariant. repeat constructor. Defined.

Lemma peer_lifecycle_monotone_witness :
  exists p', run_ops {[bs "alice" := alice]} [OpSetState (bs "alice") kReclaimed; OpUpsert alice kProbe] !! bs "alice" = Some p'
    /\ rtc (fun a b => ValidNodeTransition a b = true) kRunning (peer_state p')
    /\ (kRunning = kReclaimed -> peer_state p' = kReclaimed).
Proof.
  apply (peer_lifecycle_monotone _ _ _ alice); [done| |done]. rewrite map_size_singleton. cbn. unfold kMaxPeers. lia.
Defined.

(** The two operations of the witness leave the peer reclaimed. *)
Example reclaimed_example :
  peer_state <$> (run_ops {[bs "alice" := alice]} [OpSetState (bs "alice") kReclaimed; OpUpsert alice kProbe] !! bs "alice")
  = Some kReclaimed.
Proof. vm_compute. reflexivity. Qed.

Lemma discovery_cannot_spoof_witness :
  exists p', run_ops {[bs "alice" := alice]} [OpUpsert rogue kDiscovery] !! bs "alice" = Some p'
    /\ handshake_proven p' = true /\ ed25519_pubkey p' = bs "key"
    /\ peer_is_supervisor p' = false
    /\ (bs "10.0.0.1" <> [] -> peer_host p' = bs "10.0.0.1")
    /\ (7000 <> 0 -> p2p_port p' = 7000).
Proof.
  apply (discovery_cannot_spoof _ _ _ alice); [by repeat constructor|done| |done|done|done].
  rewrite map_size_singleton. cbn. unfold kMaxPeers. lia.
Defined.

Lemma mdns_moves_proven_witness :
  exists p', UpsertPeer rogue kMdns {[bs "alice" := alice]} !! bs "alice" = Some p'
    /\ handshake_proven p' = true /\ peer_host p' = bs "10.6.6.6" /\ p2p_port p' = 1 /\ last_seen_ms p' = 200.
Proof. apply (mdns_moves_proven rogue _ alice); done. Defined.

Lemma suspicion_under_failures_witness : Suspicion (fail_probes 5 alice) 200 0 = kSuspect.
Proof. apply (suspicion_under_failures 5 alice 200 0); vm_compute; done. Defined.
