(* ===== verification/TsRollup.v ===== *)
(** * The time-series engine: src/storage/engines/ts_rollup.cpp

    Points gather in an open chunk and are sealed, by the hour, into blobs of a segment
    store: the rollups of the chunk per series and minute, then the points in the column
    codec.  Doubles are [spec_float] in binary64.  A [std::map] is a finite map, iterated
    in the order of its keys.  [None] is signed overflow or an exception that escapes. *)
From Stdlib Require Import SpecFloat.
From S2P Require Import Prelude Bytes Hlc Json JsonText Crdt CrdtMerge CrdtCodec AtRest AtRestFiles DiskManager BufferPool BPlusTree SegmentStore Catalog Backend KvBackend ColumnarCodec Columnar Peer.
Local Open Scope Z_scope.

Definition kTsChunkMillis : Z := 3600 * 1000.
Definition kTsRollupBucketMs : Z := 60 * 1000.
Definition kTsMaxOpenRows : Z := 8192.
Definition kTsChunkMagic : Z := 0x44535401.

Record TsRollupBucket := mkBucket {
  bucket_start_ms : Z;
  b_count : Z;
  b_min : spec_float;
  b_max : spec_float;
  b_sum : spec_float;
  b_first : spec_float;
  b_last : spec_float;
}.

Record TsChunkMeta := mkChunkMeta {
  tm_collection : bytes;
  tm_first_page_id : Z;
  chunk_start_ms : Z;
  min_ts_ms : Z;
  max_ts_ms : Z;
  tm_row_count : Z;
  tm_encoded_bytes : Z;
  tm_sequence : Z;
}.

(** ** Extraction *)
Definition in_int64 (z : Z) : option Z := if (- 2 ^ 63 <=? z) && (z <? 2 ^ 63) then Some z else None.

Definition AlignDown (value modulus : Z) : option Z :=
  if modulus <=? 0 then Some value
  else let r := Z.rem value modulus in in_int64 (value - (if r <? 0 then r + modulus else r)).

Fixpoint find_numeric (doc : JsonValue) (names : list bytes) : option JsonValue :=
  match names with
  | [] => None
  | name :: rest =>
      match Find doc name with
      | Some v => if is_number v then Some v else find_numeric doc rest
      | None => find_numeric doc rest
      end
  end.

Definition FindNumeric (doc : JsonValue) (names : list bytes) : option JsonValue := if negb (is_object doc) then None else find_numeric doc names.

Definition time_fields : list bytes := [bs "ts"; bs "timestamp"; bs "time"; bs "timestamp_ms"; bs "ts_ms"; bs "time_ms"].

Definition ExtractTimestampMs (encoded_doc : bytes) : Z :=
  match CrdtCodec.Decode encoded_doc with
  | None => 0
  | Some doc =>
      match FindNumeric (ToJson doc) time_fields with
      | Some ts => AsInt ts
      | None => to_signed 64 (physical_ms (MaxTimestamp doc))
      end
  end.

Definition colon : byte := Byte.x3a.

Fixpoint until_colon (key : bytes) : bytes :=
  match key with [] => [] | x :: rest => if bool_decide (x = colon) then [] else x :: until_colon rest end.

Definition ExtractSeries (key encoded_doc : bytes) : bytes :=
  match doc ← CrdtCodec.Decode encoded_doc;
        s ← Find (ToJson doc) (bs "series");
        if is_string s && negb (bool_decide (AsString s = [])) then Some (AsString s) else None with
  | Some s => s
  | None => until_colon key
  end.

Definition value_fields : list bytes := [bs "value"; bs "v"; bs "val"; bs "reading"; bs "metric"; bs "measurement"; bs "count"; bs "data"].
Definition non_value_fields : list bytes :=
  time_fields ++ [bs "date"; bs "datetime"; bs "series"; bs "id"; bs "key"; bs "name"; bs "tag"; bs "device"; bs "host"].

Fixpoint other_number (fields : list (bytes * JsonValue)) : option JsonValue :=
  match fields with
  | [] => None
  | (field, v) :: rest => if is_number v && negb (bool_decide (field ∈ non_value_fields)) then Some v else other_number rest
  end.

Definition ExtractValue (encoded_doc : bytes) : option spec_float :=
  doc ← CrdtCodec.Decode encoded_doc;
  let json := ToJson doc in
  if negb (is_object json) then None
  else match FindNumeric json value_fields with
       | Some v => Some (AsDouble v)
       | None => AsDouble <$> other_number (AsObject json)
       end.

(** ** Rollups *)
Abbreviation rollups := (gmap bytes (list TsRollupBucket)).
Abbreviation accumulator := (gmap bytes (gmap Z TsRollupBucket)).

Definition add_point (bucket : Z) (value : spec_float) (b : option TsRollupBucket) : TsRollupBucket :=
  let fresh := mkBucket bucket 1 value value value value value in
  match b with
  | None => fresh
  | Some b =>
      if b_count b =? 0 then fresh
      else mkBucket (bucket_start_ms b) (u64 (b_count b + 1)) (std_min (b_min b) value) (std_max (b_max b) value) (f64_add (b_sum b) value) (b_first b) value
  end.

Fixpoint accumulate (rows : list EngineRow) (acc : accumulator) : option accumulator :=
  match rows with
  | [] => Some acc
  | (key, doc) :: rest =>
      match ExtractValue doc with
      | None => accumulate rest acc
      | Some value =>
          bucket ← AlignDown (ExtractTimestampMs doc) kTsRollupBucketMs;
          let series := ExtractSeries key doc in
          let buckets := default ∅ (acc !! series) in
          accumulate rest (<[series := <[bucket := add_point bucket value (buckets !! bucket)]> buckets]> acc)
      end
  end.

(** The buckets of a series in the order of their starts. *)
Definition bucket_list (m : gmap Z TsRollupBucket) : list TsRollupBucket := (std_sort Z.ltb fst (map_to_list m)).*2.

Definition listed (acc : accumulator) : rollups := bucket_list <$> acc.

Definition ComputeRollups (rows : list EngineRow) : option rollups := listed <$> accumulate rows ∅.

(** *** Their encoding; a NaN is written as the positive quiet one *)
Definition bits_of_f64 (f : spec_float) : Z :=
  let sign (s : bool) := if s then 2 ^ 63 else 0 in
  match f with
  | S754_zero s => sign s
  | S754_infinity s => sign s + 2047 * 2 ^ 52
  | S754_nan => 0x7FF8000000000000
  | S754_finite s m e => if Zpos m <? 2 ^ 52 then sign s + Zpos m else sign s + (e + 1075) * 2 ^ 52 + (Zpos m - 2 ^ 52)
  end.

Definition write_bucket (b : TsRollupBucket) : bytes :=
  ByteWriter.I64 (bucket_start_ms b) ++ ByteWriter.U64 (b_count b) ++ ByteWriter.F64 (bits_of_f64 (b_min b)) ++ ByteWriter.F64 (bits_of_f64 (b_max b))
    ++ ByteWriter.F64 (bits_of_f64 (b_sum b)) ++ ByteWriter.F64 (bits_of_f64 (b_first b)) ++ ByteWriter.F64 (bits_of_f64 (b_last b)).

Definition write_series (e : bytes * list TsRollupBucket) : bytes :=
  ByteWriter.Bytes e.1 ++ ByteWriter.U32 (Zlen e.2) ++ concat (map write_bucket e.2).

Definition series_list (r : rollups) : list (bytes * list TsRollupBucket) := std_sort str_lt fst (map_to_list r).

Definition EncodeRollups (r : rollups) : bytes := ByteWriter.U32 (Z.of_nat (size r)) ++ concat (map write_series (series_list r)).

Definition read_f64 : Reader spec_float := (v <-r ByteReader.F64 ;; rret (f64_of_bits v))%reader.

Definition read_bucket : Reader TsRollupBucket :=
  (start <-r ByteReader.I64 ;; count <-r ByteReader.U64 ;; lo <-r read_f64 ;; hi <-r read_f64 ;; sum <-r read_f64 ;; first <-r read_f64 ;; last <-r read_f64 ;;
   rret (mkBucket start count lo hi sum first last))%reader.

Fixpoint read_buckets (n : nat) : Reader (list TsRollupBucket) :=
  match n with
  | O => rret []
  | S n' => (b <-r read_bucket ;; l <-r read_buckets n' ;; rret (b :: l))%reader
  end.

(** [out[series]] appends to what a series already has. *)
Fixpoint read_series (n : nat) (out : rollups) : Reader rollups :=
  match n with
  | O => rret out
  | S n' => (series <-r ByteReader.Bytes ;; count <-r ByteReader.U32 ;; l <-r read_buckets (Z.to_nat count) ;;
             read_series n' (<[series := default [] (out !! series) ++ l]> out))%reader
  end.

Definition DecodeRollups (s : bytes) : StatusOr rollups :=
  match (n <-r ByteReader.U32 ;; read_series (Z.to_nat n) ∅)%reader s with
  | None => Fault kCorruption
  | Some (r, _) => OK r
  end.

(** ** Chunks *)
Definition EncodeChunk (rows : list EngineRow) : option bytes :=
  r ← ComputeRollups rows;
  let block := EncodeRollups r in
  let points := EncodeSegment rows in
  Some (ByteWriter.U32 kTsChunkMagic ++ ByteWriter.U32 (Zlen block) ++ ByteWriter.U32 (Zlen points) ++ block ++ points).

Definition read_chunk_header : Reader (Z * Z * Z) :=
  (magic <-r ByteReader.U32 ;; rl <-r ByteReader.U32 ;; pl <-r ByteReader.U32 ;; rret (magic, rl, pl))%reader.

Definition SplitChunk (blob : bytes) : StatusOr (bytes * bytes) :=
  if Zlen blob <? 12 then Fault kCorruption
  else match read_chunk_header blob with
       | None => Fault kCorruption
       | Some ((magic, rl, pl), _) =>
           if negb (magic =? kTsChunkMagic) then Fault kCorruption
           else if negb (12 + rl + pl =? Zlen blob) then Fault kCorruption
           else OK (column blob 12 rl, column blob (12 + rl) pl)
       end.

(** ** The engine *)
Record TsCollection := mkTsColl {
  chunks : list TsChunkMeta;             (* newest first *)
  ts_open_rows : gmap bytes bytes;
  open_chunk_start_ms : Z;
  open_active : bool;
  key_to_chunk : gmap bytes nat;
}.

Definition new_ts : TsCollection := mkTsColl [] ∅ 0 false ∅.

Record TsRollupBackend := mkTsBackend {
  ts_dek : bytes;
  ts_manifest : option bytes;
  ts_store : BufferPool;
  ts_next_sequence : Z;
  ts_collections : gmap bytes TsCollection;
  ts_quota : quota;
  ts_env : nat -> kv_event;
  ts_saves : nat;
}.

Definition ts_set_store (b : BufferPool) (e : TsRollupBackend) : TsRollupBackend :=
  mkTsBackend (ts_dek e) (ts_manifest e) b (ts_next_sequence e) (ts_collections e) (ts_quota e) (ts_env e) (ts_saves e).
Definition ts_set_coll (c : bytes) (st : TsCollection) (e : TsRollupBackend) : TsRollupBackend :=
  mkTsBackend (ts_dek e) (ts_manifest e) (ts_store e) (ts_next_sequence e) (<[c := st]> (ts_collections e)) (ts_quota e) (ts_env e) (ts_saves e).
Definition ts_set_quota (q : quota) (e : TsRollupBackend) : TsRollupBackend :=
  mkTsBackend (ts_dek e) (ts_manifest e) (ts_store e) (ts_next_sequence e) (ts_collections e) q (ts_env e) (ts_saves e).
Definition ts_next (e : TsRollupBackend) : TsRollupBackend :=
  mkTsBackend (ts_dek e) (ts_manifest e) (ts_store e) (u64 (ts_next_sequence e + 1)) (ts_collections e) (ts_quota e) (ts_env e) (ts_saves e).
Definition ts_set_manifest (f : option bytes) (e : TsRollupBackend) : TsRollupBackend :=
  mkTsBackend (ts_dek e) f (ts_store e) (ts_next_sequence e) (ts_collections e) (ts_quota e) (ts_env e) (S (ts_saves e)).

Definition chunk_json (m : TsChunkMeta) : JsonValue :=
  JObject [(bs "collection", JString (tm_collection m));
           (bs "first_page_id", JInt (tm_first_page_id m));
           (bs "chunk_start_ms", JInt (chunk_start_ms m));
           (bs "min_ts_ms", JInt (min_ts_ms m));
           (bs "max_ts_ms", JInt (max_ts_ms m));
           (bs "row_count", JInt (to_signed 64 (tm_row_count m)));
           (bs "encoded_bytes", JInt (to_signed 64 (tm_encoded_bytes m)));
           (bs "sequence", JInt (to_signed 64 (tm_sequence m)))].

Definition json_chunk (e : JsonValue) : TsChunkMeta :=
  mkChunkMeta (AsString (Json.Get e (bs "collection")))
    (to_signed 32 (u32 (AsInt (Json.Get e (bs "first_page_id")))))
    (AsInt (Json.Get e (bs "chunk_start_ms")))
    (AsInt (Json.Get e (bs "min_ts_ms")))
    (AsInt (Json.Get e (bs "max_ts_ms")))
    (u64 (AsInt (Json.Get e (bs "row_count"))))
    (u64 (AsInt (Json.Get e (bs "encoded_bytes"))))
    (u64 (AsInt (Json.Get e (bs "sequence")))).

Definition ts_manifest_text (m : gmap bytes TsCollection) : bytes :=
  Dump (JArray (concat (map (fun e => map chunk_json (chunks e.2)) (map_to_list m)))).

Definition load_chunk (acc : Z * gmap bytes TsCollection) (e : JsonValue) : Z * gmap bytes TsCollection :=
  let meta := json_chunk e in
  let st := default new_ts (acc.2 !! tm_collection meta) in
  (Z.max acc.1 (u64 (tm_sequence meta + 1)),
   <[tm_collection meta := mkTsColl (chunks st ++ [meta]) (ts_open_rows st) (open_chunk_start_ms st) (open_active st) (key_to_chunk st)]> acc.2).

Definition ts_newest_first (l : list TsChunkMeta) : list TsChunkMeta := std_sort (fun a b => b <? a) tm_sequence l.

Section Ts.
Context `{C : Crypto}.

(** The index so far also when a chunk cannot be read. *)
Fixpoint index_chunks (i : nat) (metas : list TsChunkMeta) (m : gmap bytes nat) (b : BufferPool) : StatusOr unit * gmap bytes nat * BufferPool :=
  match metas with
  | [] => (OK tt, m, b)
  | meta :: rest =>
      match ReadBlob (tm_first_page_id meta) b with
      | (Fault c, b1) => (Fault c, m, b1)
      | (OK blob, b1) =>
          match SplitChunk blob with
          | Fault c => (Fault c, m, b1)
          | OK (_, segment) =>
              match DecodeSegmentKeys segment with
              | Fault c => (Fault c, m, b1)
              | OK keys => index_chunks (S i) rest (fold_left (emplace_key i) keys m) b1
              end
          end
      end
  end.

Fixpoint index_ts_collections (l : list (bytes * TsCollection)) (out : gmap bytes TsCollection) (b : BufferPool) : StatusOr (gmap bytes TsCollection) * BufferPool :=
  match l with
  | [] => (OK out, b)
  | (name, st) :: rest =>
      let metas := ts_newest_first (chunks st) in
      match index_chunks 0 metas (key_to_chunk st) b with
      | (Fault c, _, b1) => (Fault c, b1)
      | (OK _, index, b1) =>
          index_ts_collections rest (<[name := mkTsColl metas (ts_open_rows st) (open_chunk_start_ms st) (open_active st) index]> out) b1
      end
  end.

Definition TsLoadManifest (e : TsRollupBackend) : option (StatusOr TsRollupBackend) :=
  match ReadSealedJsonFile (ts_manifest e) (ts_dek e) (bs "ts-manifest") with
  | None => None
  | Some (Fault c) => Some (if bool_decide (c = kNotFound) then OK e else Fault kCorruption)
  | Some (OK text) =>
      if bool_decide (text = []) then Some (OK e)
      else match Parse text with
           | None => Some (Fault kCorruption)
           | Some root =>
               if negb (is_array root) then Some (OK e)
               else
                 let '(next, colls) := fold_left load_chunk (AsArray root) (ts_next_sequence e, ts_collections e) in
                 match index_ts_collections (map_to_list colls) colls (ts_store e) with
                 | (Fault c, _) => Some (Fault c)
                 | (OK colls', b) => Some (OK (mkTsBackend (ts_dek e) (ts_manifest e) b next colls' (ts_quota e) (ts_env e) (ts_saves e)))
                 end
           end
  end.

Definition TsSaveManifest (e : TsRollupBackend) : StatusOr unit * TsRollupBackend :=
  let ev := ev_save (ts_env e (ts_saves e)) in
  let '(st, file) := WriteSealedJsonFile (se_io ev) (se_nonce ev) (ts_manifest_text (ts_collections e)) (ts_dek e) (bs "ts-manifest") (ts_manifest e) in
  (match st with OK _ => OK tt | Fault _ => Fault kIOError end, ts_set_manifest file e).

Definition OpenTs (made : bool) (env : open_env) (wenv : nat -> write_env) (events : nat -> kv_event)
    (file hdr manifest : option bytes) (quota_mb : Z) (dek : bytes)
  : option (StatusOr TsRollupBackend * (option bytes * option bytes)) :=
  if bad_dek dek then Some (Fault kInvalidArgument, (file, hdr))
  else if negb made then Some (Fault kIOError, (file, hdr))
  else match OpenSegments env wenv file hdr 256 dek with
       | (Fault c, fs) => Some (Fault c, fs)
       | (OK b, fs) =>
           let e := mkTsBackend dek manifest b 1 ∅ (mkQuota (u64 (quota_mb * 1024 * 1024)) (BytesOnDisk b)) events 0 in
           match TsLoadManifest e with
           | None => None
           | Some (Fault c) => Some (Fault c, fs)
           | Some (OK e') => Some (OK e', fs)
           end
       end.

(** ** Reads *)
Definition LoadChunkRows (meta : TsChunkMeta) (b : BufferPool) : option (StatusOr (list EngineRow) * BufferPool) :=
  match ReadBlob (tm_first_page_id meta) b with
  | (Fault c, b1) => Some (Fault c, b1)
  | (OK blob, b1) =>
      match SplitChunk blob with
      | Fault c => Some (Fault c, b1)
      | OK (_, segment) => rows ← DecodeSegment segment; Some (rows, b1)
      end
  end.

Definition LoadChunkRollups (meta : TsChunkMeta) (b : BufferPool) : StatusOr rollups * BufferPool :=
  match ReadBlob (tm_first_page_id meta) b with
  | (Fault c, b1) => (Fault c, b1)
  | (OK blob, b1) => (match SplitChunk blob with Fault c => Fault c | OK (block, _) => DecodeRollups block end, b1)
  end.

Definition TsGet (c key : bytes) (e : TsRollupBackend) : option (StatusOr bytes * TsRollupBackend) :=
  match ts_collections e !! c with
  | None => Some (Fault kNotFound, e)
  | Some st =>
      match ts_open_rows st !! key with
      | Some doc => Some (OK doc, e)
      | None =>
          match key_to_chunk st !! key with
          | None => Some (Fault kNotFound, e)
          | Some i =>
              match chunks st !! i with
              | None => Some (Fault kCorruption, e)
              | Some meta =>
                  '(rows, b) ← LoadChunkRows meta (ts_store e);
                  Some (match rows with
                        | Fault x => Fault x
                        | OK l => match assoc key l with Some doc => OK doc | None => Fault kCorruption end
                        end, ts_set_store b e)
              end
          end
      end
  end.

(** Oldest first; chunks that [skip] says or that are unreadable are passed over. *)
Fixpoint merge_chunks (skip : TsChunkMeta -> bool) (metas : list TsChunkMeta) (m : gmap bytes bytes) (b : BufferPool) : option (gmap bytes bytes * BufferPool) :=
  match metas with
  | [] => Some (m, b)
  | meta :: rest =>
      if skip meta then merge_chunks skip rest m b
      else '(rows, b1) ← LoadChunkRows meta b;
           merge_chunks skip rest (match rows with OK l => put_rows m l | Fault _ => m end) b1
  end.

Definition TsScan (c start_key : bytes) (limit : nat) (e : TsRollupBackend) : option (list EngineRow * TsRollupBackend) :=
  match ts_collections e !! c with
  | None => Some ([], e)
  | Some st =>
      '(m, b) ← merge_chunks (fun _ => false) (rev (chunks st)) ∅ (ts_store e);
      Some (from_key (put_rows m (in_order (ts_open_rows st))) start_key limit, ts_set_store b e)
  end.

Definition outside (from_ms to_ms : Z) (meta : TsChunkMeta) : bool := (max_ts_ms meta <? from_ms) || (to_ms <? min_ts_ms meta).

Definition in_window (series : bytes) (from_ms to_ms : Z) (r : EngineRow) : bool :=
  let ts := ExtractTimestampMs r.2 in
  negb ((ts <? from_ms) || (to_ms <? ts)) && (bool_decide (series = []) || bool_decide (ExtractSeries r.1 r.2 = series)).

Definition RangeQuery (c series : bytes) (from_ms to_ms : Z) (limit : nat) (e : TsRollupBackend) : option (list EngineRow * TsRollupBackend) :=
  match ts_collections e !! c with
  | None => Some ([], e)
  | Some st =>
      '(m, b) ← merge_chunks (outside from_ms to_ms) (rev (chunks st)) ∅ (ts_store e);
      let l := filter (fun r => in_window series from_ms to_ms r = true) (in_order (put_rows m (in_order (ts_open_rows st)))) in
      Some (if (limit =? 0)%nat then l else take limit l, ts_set_store b e)
  end.

(** ** Aggregates *)
Definition fold_fine (coarse : Z) (fine : TsRollupBucket) (b : option TsRollupBucket) : TsRollupBucket :=
  let fresh := mkBucket coarse (b_count fine) (b_min fine) (b_max fine) (b_sum fine) (b_first fine) (b_last fine) in
  match b with
  | None => fresh
  | Some b =>
      if b_count b =? 0 then fresh
      else mkBucket (bucket_start_ms b) (u64 (b_count b + b_count fine)) (std_min (b_min b) (b_min fine)) (std_max (b_max b) (b_max fine))
             (f64_add (b_sum b) (b_sum fine)) (b_first b) (b_last fine)
  end.

Definition fold_bucket (series : bytes) (from_ms to_ms bucket_ms : Z) (acc : option accumulator) (p : bytes * TsRollupBucket) : option accumulator :=
  let '(s, fine) := p in
  acc ← acc;
  if b_count fine =? 0 then Some acc
  else
    fine_end ← in_int64 (bucket_start_ms fine + kTsRollupBucketMs);
    if (fine_end <=? from_ms) || (to_ms <? bucket_start_ms fine) then Some acc
    else if negb (bool_decide (series = [])) && negb (bool_decide (s = series)) then Some acc
    else
      coarse ← AlignDown (bucket_start_ms fine) bucket_ms;
      let buckets := default ∅ (acc !! s) in
      Some (<[s := <[coarse := fold_fine coarse fine (buckets !! coarse)]> buckets]> acc).

(** The buckets of all series, series by series. *)
Definition flat_rollups (r : rollups) : list (bytes * TsRollupBucket) := concat (map (fun e => map (pair e.1) e.2) (series_list r)).

Fixpoint fold_chunks (series : bytes) (from_ms to_ms bucket_ms : Z) (metas : list TsChunkMeta) (acc : option accumulator) (b : BufferPool) : option accumulator * BufferPool :=
  match metas with
  | [] => (acc, b)
  | meta :: rest =>
      if outside from_ms to_ms meta then fold_chunks series from_ms to_ms bucket_ms rest acc b
      else match LoadChunkRollups meta b with
           | (Fault _, b1) => fold_chunks series from_ms to_ms bucket_ms rest acc b1
           | (OK r, b1) => fold_chunks series from_ms to_ms bucket_ms rest (fold_left (fold_bucket series from_ms to_ms bucket_ms) (flat_rollups r) acc) b1
           end
  end.

Definition Rollups (c series : bytes) (from_ms to_ms bucket_ms : Z) (e : TsRollupBackend) : option (rollups * TsRollupBackend) :=
  let bucket_ms := if bucket_ms <? kTsRollupBucketMs then kTsRollupBucketMs else bucket_ms in
  up ← in_int64 (bucket_ms + kTsRollupBucketMs);
  bucket_ms ← AlignDown (up - 1) kTsRollupBucketMs;
  match ts_collections e !! c with
  | None => Some (∅, e)
  | Some st =>
      let '(acc, b) := fold_chunks series from_ms to_ms bucket_ms (rev (chunks st)) (Some ∅) (ts_store e) in
      acc ← (if bool_decide (ts_open_rows st = ∅) then acc
             else r ← ComputeRollups (in_order (ts_open_rows st)); fold_left (fold_bucket series from_ms to_ms bucket_ms) (flat_rollups r) acc);
      Some (listed acc, ts_set_store b e)
  end.

(** ** Sealing and put *)
Definition ts_charge_disk (e : TsRollupBackend) : TsRollupBackend := ts_set_quota (mkQuota (quota_bytes_ (ts_quota e)) (BytesOnDisk (ts_store e))) e.

Definition TsSealLocked (c : bytes) (st : TsCollection) (e : TsRollupBackend) : option (StatusOr unit * TsRollupBackend) :=
  if bool_decide (ts_open_rows st = ∅) then Some (OK tt, ts_set_coll c (mkTsColl (chunks st) ∅ (open_chunk_start_ms st) false (key_to_chunk st)) e)
  else
    let rows := in_order (ts_open_rows st) in
    let times := map (fun r => ExtractTimestampMs r.2) rows in
    blob ← EncodeChunk rows;
    match AppendBlob blob (ts_store e) with
    | (Fault x, b) => Some (Fault x, ts_set_store b e)
    | (OK page, b) =>
        let meta := mkChunkMeta c page (open_chunk_start_ms st) (fold_left Z.min times (2 ^ 63 - 1)) (fold_left Z.max times (- 2 ^ 63)) (Zlen rows) (Zlen blob) (ts_next_sequence e) in
        let index := fold_left (fun m r => <[r.1 := 0%nat]> m) rows (S <$> key_to_chunk st) in
        let st' := mkTsColl (meta :: chunks st) ∅ (open_chunk_start_ms st) false index in
        Some (TsSaveManifest (ts_charge_disk (ts_set_coll c st' (ts_next (ts_set_store b e)))))
    end.

Definition SealOpenChunk (c : bytes) (e : TsRollupBackend) : option (StatusOr unit * TsRollupBackend) :=
  match ts_collections e !! c with
  | None => Some (OK tt, e)
  | Some st => TsSealLocked c st e
  end.

Definition TsStateFor (c : bytes) (e : TsRollupBackend) : TsCollection := default new_ts (ts_collections e !! c).

Definition TsPut (merge : bool) (c key doc : bytes) (e : TsRollupBackend) : option (StatusOr unit * TsRollupBackend) :=
  '(existing, e0) ← TsGet c key e;
  let old_cost := match existing with OK x => RecordCost key x | Fault _ => 0 end in
  match Charge merge old_cost (RecordCost key doc) (ts_quota e0) with
  | (Fault x, _) => Some (Fault x, e0)
  | (OK _, q) =>
      chunk_start ← AlignDown (ExtractTimestampMs doc) kTsChunkMillis;
      let e1 := ts_set_quota q e0 in
      let st := TsStateFor c e1 in
      let e1 := ts_set_coll c st e1 in
      '(sealed, e2) ← (if open_active st && negb (open_chunk_start_ms st =? chunk_start) then TsSealLocked c st e1 else Some (OK tt, e1));
      match sealed with
      | Fault x => Some (Fault x, e2)
      | OK _ =>
          let st2 := TsStateFor c e2 in
          let start := if open_active st2 then open_chunk_start_ms st2 else chunk_start in
          let st3 := mkTsColl (chunks st2) (<[key := doc]> (ts_open_rows st2)) start true (key_to_chunk st2) in
          let e3 := ts_set_coll c st3 e2 in
          if kTsMaxOpenRows <=? Z.of_nat (size (ts_open_rows st3)) then TsSealLocked c st3 e3 else Some (OK tt, e3)
      end
  end.

(** ** Retention *)
Definition TsPrune (c : bytes) (cutoff_ms : Z) (e : TsRollupBackend) : StatusOr Z * TsRollupBackend :=
  match ts_collections e !! c with
  | None => (OK 0, e)
  | Some st =>
      let kept := filter (fun meta => (max_ts_ms meta <? cutoff_ms) = false) (chunks st) in
      let dropped := filter (fun meta => (max_ts_ms meta <? cutoff_ms) = true) (chunks st) in
      if bool_decide (dropped = []) then (OK 0, e)
      else
        let '(r, index, b) := index_chunks 0 kept ∅ (ts_store e) in
        let e1 := ts_set_coll c (mkTsColl kept (ts_open_rows st) (open_chunk_start_ms st) (open_active st) index) (ts_set_store b e) in
        match r with
        | Fault x => (Fault x, e1)
        | OK _ =>
            match TsSaveManifest e1 with
            | (Fault x, e2) => (Fault x, e2)
            | (OK _, e2) => (OK (Zlen dropped), e2)
            end
        end
  end.

Definition ApplyRetention (now_ms : Z) (c : bytes) (retention_days : Z) (e : TsRollupBackend) : StatusOr Z * TsRollupBackend :=
  if retention_days =? 0 then (OK 0, e) else TsPrune c (now_ms - retention_days * 24 * 3600 * 1000) e.

(** ** Verification, flush and listing *)
Fixpoint ts_verify_chunks (metas : list TsChunkMeta) (b : BufferPool) : StatusOr unit * BufferPool :=
  match metas with
  | [] => (OK tt, b)
  | meta :: rest =>
      match VerifyBlob (tm_first_page_id meta) b with
      | (Fault _, b1) => (Fault kCorruption, b1)
      | (OK _, b1) =>
          match ReadBlob (tm_first_page_id meta) b1 with
          | (Fault c, b2) => (Fault c, b2)
          | (OK blob, b2) =>
              match SplitChunk blob with
              | Fault c => (Fault c, b2)
              | OK (block, segment) =>
                  match DecodeRollups block, DecodeSegmentKeys segment with
                  | Fault c, _ => (Fault c, b2)
                  | OK _, Fault c => (Fault c, b2)
                  | OK _, OK keys => if negb (Zlen keys =? tm_row_count meta) then (Fault kCorruption, b2) else ts_verify_chunks rest b2
                  end
              end
          end
      end
  end.

Definition TsVerify (e : TsRollupBackend) : StatusOr unit * TsRollupBackend :=
  let '(st, b) := ts_verify_chunks (concat (map (fun x => chunks x.2) (map_to_list (ts_collections e)))) (ts_store e) in
  (st, ts_set_store b e).

Fixpoint ts_seal_all (l : list (bytes * TsCollection)) (e : TsRollupBackend) : option (StatusOr unit * TsRollupBackend) :=
  match l with
  | [] => Some (OK tt, e)
  | (c, st) :: rest =>
      '(r, e1) ← TsSealLocked c st e;
      match r with Fault x => Some (Fault x, e1) | OK _ => ts_seal_all rest e1 end
  end.

Definition TsFlush (e : TsRollupBackend) : option (StatusOr unit * TsRollupBackend) :=
  '(r, e1) ← ts_seal_all (map_to_list (ts_collections e)) e;
  match r with
  | Fault x => Some (Fault x, e1)
  | OK _ => let '(st, b) := FlushSegments (ev_sync (ts_env e1 (ts_saves e1))) (ts_store e1) in Some (st, ts_set_store b e1)
  end.

Definition TsListCollections (e : TsRollupBackend) : list bytes := std_sort str_lt id (map_to_list (ts_collections e)).*1.
End Ts.
