(* ===== verification/TsProps.v ===== *)
(** * Theorems about the time-series engine

    The rollup block and the chunk round-trip; a range query that skips chunks by their
    time bounds answers as a filter over all documents when no key was written twice;
    where keys are written again, three theorems record what the code gets wrong. *)
From Stdlib Require Import SpecFloat.
From S2P Require Import Prelude Bytes Hlc Json JsonText Crdt CrdtMerge CrdtCodec AtRest AtRestFiles DiskManager BufferPool BufferPoolProps BPlusTree Pins SegmentStore Catalog Backend KvBackend KvProps ColumnarCodec Columnar Lsm Peer TsRollup.
Local Open Scope Z_scope.

(** ** Doubles *)
Definition float_ok (f : spec_float) : bool :=
  match f with
  | S754_finite _ m e => ((2 ^ 52 <=? Zpos m) && (Zpos m <? 2 ^ 53) && (-1074 <=? e) && (e <=? 971)) || ((Zpos m <? 2 ^ 52) && (e =? -1074))
  | _ => true
  end.

Lemma split_bits (s : bool) (e m : Z) :
  0 <= e < 2 ^ 11 -> 0 <= m < 2 ^ 52 ->
  let z := (if s then 2 ^ 63 else 0) + e * 2 ^ 52 + m in
  Z.testbit z 63 = s /\ Z.land (Z.shiftr z 52) 2047 = e /\ Z.land z (2 ^ 52 - 1) = m /\ fits 64 z.
Proof.
  intros He Hm z. assert (Hz : z = ((if s then 2 ^ 11 else 0) + e) * 2 ^ 52 + m) by (unfold z; destruct s; lia).
  assert (Hd : z / 2 ^ 52 = (if s then 2 ^ 11 else 0) + e) by (rewrite Hz, Z.div_add_l by lia; rewrite (Z.div_small m) by lia; lia).
  split; [|split; [|split]].
  - rewrite Z.testbit_odd, Z.shiftr_div_pow2 by lia. replace (2 ^ 63) with (2 ^ 52 * 2 ^ 11) by done. rewrite <- Z.div_div, Hd by lia.
    destruct s; [replace ((2 ^ 11 + e) / 2 ^ 11) with 1 by (apply Z.div_unique with e; lia); done|]. rewrite Z.div_small by lia. done.
  - rewrite Z.shiftr_div_pow2, Hd by lia. change 2047 with (Z.ones 11). rewrite Z.land_ones by lia.
    destruct s; [symmetry; apply Z.mod_unique with 1; lia|apply Z.mod_small; lia].
  - change (2 ^ 52 - 1) with (Z.ones 52). rewrite Z.land_ones by lia. rewrite Hz. rewrite Z.add_comm, Z.mod_add by lia. apply Z.mod_small. lia.
  - unfold fits, z. destruct s; lia.
Qed.

Lemma f64_bits_round_trip f : float_ok f = true -> f64_of_bits (bits_of_f64 f) = f /\ fits 64 (bits_of_f64 f).
Proof.
  destruct f as [s|s| |s m e]; intros Hf.
  - destruct s; vm_compute; done.
  - destruct s; vm_compute; done.
  - vm_compute; done.
  - cbn [float_ok] in Hf. unfold bits_of_f64. apply orb_true_iff in Hf as [Hf|Hf].
    + repeat (apply andb_true_iff in Hf as [Hf ?]). assert (Hm : 2 ^ 52 <= Zpos m < 2 ^ 53) by lia. rewrite (proj2 (Z.ltb_ge _ _)) by lia.
      destruct (split_bits s (e + 1075) (Zpos m - 2 ^ 52) ltac:(lia) ltac:(lia)) as (B1 & B2 & B3 & B4). split; [|exact B4]. unfold f64_of_bits. rewrite B1, B2, B3.
      rewrite (proj2 (Z.eqb_neq _ 0)), (proj2 (Z.eqb_neq _ 2047)) by lia. f_equal; [|lia]. replace (Zpos m - 2 ^ 52 + 2 ^ 52) with (Zpos m) by lia. done.
    + apply andb_true_iff in Hf as [Hm%Z.ltb_lt He%Z.eqb_eq]. rewrite (proj2 (Z.ltb_lt _ _)) by done. subst e.
      destruct (split_bits s 0 (Zpos m) ltac:(lia) ltac:(lia)) as (B1 & B2 & B3 & B4). rewrite Z.mul_0_l, Z.add_0_r in *. split; [|exact B4]. unfold f64_of_bits. by rewrite B1, B2, B3.
Qed.

Definition f64_value (f : spec_float) : Prop := float_ok f = true.

#[export] Instance f64_round_trip : RoundTrip (fun f => ByteWriter.F64 (bits_of_f64 f)) read_f64 f64_value.
Proof.
  intros f rest Hf. destruct (f64_bits_round_trip f Hf) as [E F]. unfold read_f64, rbind. rewrite (F64_round_trip _ rest F). unfold rret. by rewrite E.
Qed.

(** ** Rollup blocks *)
Record bucket_ok (b : TsRollupBucket) : Prop := {
  bo_start : sfits 64 (bucket_start_ms b);
  bo_count : fits 64 (b_count b);
  bo_values : f64_value (b_min b) /\ f64_value (b_max b) /\ f64_value (b_sum b) /\ f64_value (b_first b) /\ f64_value (b_last b);
}.

#[export] Instance bucket_round_trip : RoundTrip write_bucket read_bucket bucket_ok.
Proof.
  intros [start count lo hi sum first last] rest [H1 H2 (H3 & H4 & H5 & H6 & H7)]. cbn [bucket_start_ms b_count b_min b_max b_sum b_first b_last] in *.
  unfold read_bucket, write_bucket. cbn [bucket_start_ms b_count b_min b_max b_sum b_first b_last].
  unfold rbind at 1. rewrite <- app_assoc, round_trip by done. unfold rbind at 1. rewrite <- app_assoc, round_trip by done.
  do 5 (unfold rbind at 1; rewrite <- ?app_assoc; rewrite f64_round_trip by done). done.
Qed.

Lemma read_buckets_ok l rest : Forall bucket_ok l -> read_buckets (length l) (concat (map write_bucket l) ++ rest) = Some (l, rest).
Proof.
  intros H. induction H as [|b l Hb _ IH]; [done|]. cbn [length read_buckets map concat]. unfold rbind at 1. rewrite <- app_assoc, round_trip by done.
  unfold rbind. rewrite IH. done.
Qed.

Definition series_ok (e : bytes * list TsRollupBucket) : Prop := blob_ok e.1 /\ Zlen e.2 < 2 ^ 32 /\ Forall bucket_ok e.2.

Lemma read_series_ok (l : list (bytes * list TsRollupBucket)) (out : rollups) rest :
  Forall series_ok l -> NoDup l.*1 -> (forall s, s ∈ l.*1 -> out !! s = None) ->
  read_series (length l) out (concat (map write_series l) ++ rest) = Some (list_to_map l ∪ out, rest).
Proof.
  intros H. revert out. induction H as [|[s bs'] l (H1 & H2 & H3) _ IH]; intros out Hn Ho; [cbn; by rewrite (left_id_L ∅ (∪))|].
  cbn in Hn. apply NoDup_cons in Hn as [Hni Hn]. cbn [length read_series map concat fst snd] in *. unfold write_series at 1. cbn [fst snd].
  unfold rbind at 1. rewrite <- !app_assoc, round_trip by done. unfold rbind at 1. rewrite round_trip by (split; [apply Zlen_nonneg|done]).
  unfold Zlen. rewrite Nat2Z.id. unfold rbind at 1. rewrite read_buckets_ok by done. rewrite (Ho s) by (cbn; left). cbn [default from_option id app].
  rewrite IH; [|done|].
  - cbn [list_to_map foldr fst snd]. f_equal. f_equal. rewrite <- insert_union_l. symmetry. apply insert_union_r. by apply not_elem_of_list_to_map.
  - intros s' Hs'. rewrite lookup_insert_ne by set_solver. apply Ho. cbn. by right.
Qed.

Definition rollups_ok (r : rollups) : Prop := Z.of_nat (size r) < 2 ^ 32 /\ map_Forall (fun s l => series_ok (s, l)) r.

Lemma rollups_read r : rollups_ok r -> DecodeRollups (EncodeRollups r) = OK r.
Proof.
  intros [Hs Hr]. unfold DecodeRollups, EncodeRollups. unfold rbind at 1. rewrite round_trip by (unfold fits; lia).
  assert (Hl : length (series_list r) = size r) by (unfold series_list; rewrite std_sort_length; apply length_map_to_list).
  rewrite Nat2Z.id, <- Hl, <- (app_nil_r (concat _)), read_series_ok.
  - rewrite map_union_empty. unfold series_list. f_equal. rewrite <- (list_to_map_to_list r) at 2. apply list_to_map_proper; [|apply std_sort_perm].
    rewrite std_sort_perm. apply NoDup_fst_map_to_list.
  - apply Forall_forall. intros [s l] Hin. unfold series_list in Hin. rewrite std_sort_elem_of, elem_of_map_to_list in Hin. by apply Hr.
  - unfold series_list. rewrite std_sort_perm. apply NoDup_fst_map_to_list.
  - intros s _. apply lookup_empty.
Qed.

(** ** What the rollups hold *)

(** The value a row adds to a bucket. *)
Definition bucket_point (s : bytes) (t : Z) (r : EngineRow) : option spec_float :=
  v ← ExtractValue r.2;
  if bool_decide (ExtractSeries r.1 r.2 = s) && bool_decide (AlignDown (ExtractTimestampMs r.2) kTsRollupBucketMs = Some t) then Some v else None.

Definition bucket_points (s : bytes) (t : Z) (rows : list EngineRow) : list spec_float := omap (bucket_point s t) rows.

(** The aggregates of the values, directly. *)
Definition ref_bucket (t : Z) (points : list spec_float) : option TsRollupBucket :=
  match points with
  | [] => None
  | v :: vs => Some (mkBucket t (Zlen points) (fold_left std_min vs v) (fold_left std_max vs v) (fold_left f64_add vs v) v (List.last points v))
  end.

Definition add_points (t : Z) (points : list spec_float) (b : option TsRollupBucket) : option TsRollupBucket :=
  fold_left (fun b v => Some (add_point t v b)) points b.

Lemma accumulate_lookup (rows : list EngineRow) (acc acc' : accumulator) s t :
  accumulate rows acc = Some acc' -> default ∅ (acc' !! s) !! t = add_points t (bucket_points s t rows) (default ∅ (acc !! s) !! t).
Proof.
  revert acc. induction rows as [|[k d] rows IH]; intros acc; [by intros [= <-]|]. cbn [accumulate]. unfold bucket_points, bucket_point in *. cbn [omap list_omap fst snd].
  destruct (ExtractValue d) as [v|]; cbn [mbind option_bind]; [|apply IH]. destruct (AlignDown _ _) as [t'|]; cbn [mbind option_bind]; [|done].
  intros E. rewrite (IH _ E). case_bool_decide as Hs; cbn [andb].
  - subst s. rewrite lookup_insert_eq. cbn [default from_option id]. case_bool_decide as Ht.
    + injection Ht as ->. cbn. by rewrite lookup_insert_eq.
    + by rewrite lookup_insert_ne by congruence.
  - by rewrite lookup_insert_ne by done.
Qed.

Lemma add_points_from t vs b :
  bucket_start_ms b = t -> 1 <= b_count b -> b_count b + Zlen vs < 2 ^ 64 ->
  add_points t vs (Some b) = Some (mkBucket t (b_count b + Zlen vs) (fold_left std_min vs (b_min b)) (fold_left std_max vs (b_max b)) (fold_left f64_add vs (b_sum b)) (b_first b) (List.last vs (b_last b))).
Proof.
  revert b. induction vs as [|v vs IH]; intros [t0 n lo hi sum fi la] Ht H1 Hn; cbn [bucket_start_ms b_count b_min b_max b_sum b_first b_last] in *; subst t0.
  { unfold Zlen in *. cbn. f_equal. f_equal. lia. }
  assert (Hz : Zlen (v :: vs) = Zlen vs + 1) by (unfold Zlen; cbn [length]; lia). pose proof (Zlen_nonneg vs).
  unfold add_points in *. cbn [fold_left add_point bucket_start_ms b_count b_min b_max b_sum b_first b_last]. rewrite (proj2 (Z.eqb_neq _ _)) by lia.
  assert (Hw : u64 (n + 1) = n + 1) by (apply wrap_id; unfold fits; lia). rewrite IH; cbn [bucket_start_ms b_count b_min b_max b_sum b_first b_last]; rewrite ?Hw; [|done|lia|lia].
  f_equal. f_equal; [lia|]. destruct vs as [|w vs]; [done|]. change (List.last (v :: w :: vs) la) with (List.last (w :: vs) la). clear. revert w. induction vs as [|x vs IH]; intros w; [done|]. apply IH.
Qed.

Lemma add_points_ref t points : Zlen points < 2 ^ 64 -> add_points t points None = ref_bucket t points.
Proof.
  destruct points as [|v vs]; [done|]. intros Hn. assert (Hz : Zlen (v :: vs) = Zlen vs + 1) by (unfold Zlen; cbn [length]; lia). rewrite Hz in *.
  change (add_points t (v :: vs) None) with (add_points t vs (Some (mkBucket t 1 v v v v v))). rewrite add_points_from by (cbn; lia). cbn [ref_bucket b_count b_min b_max b_sum b_first b_last].
  f_equal. f_equal; [lia|]. by destruct vs.
Qed.

Lemma ref_bucket_start t points b : ref_bucket t points = Some b -> bucket_start_ms b = t.
Proof. destruct points; [done|]. by intros [= <-]. Qed.

Lemma bucket_list_sorted (m : gmap Z TsRollupBucket) :
  (forall t b, m !! t = Some b -> bucket_start_ms b = t) -> sorted_strict Z.ltb bucket_start_ms (bucket_list m).
Proof.
  intros Hm. unfold bucket_list. assert (Hs : sorted_strict Z.ltb fst (std_sort Z.ltb fst (map_to_list m))) by (apply std_sort_sorted; [apply _|apply NoDup_fst_map_to_list]).
  assert (Hf : Forall (fun e => bucket_start_ms e.2 = e.1) (std_sort Z.ltb fst (map_to_list m))).
  { apply Forall_forall. intros [t b]. rewrite std_sort_elem_of, elem_of_map_to_list. apply Hm. }
  unfold sorted_strict in *. induction Hs as [|[t b] l _ IH Hl]; [constructor|]. apply Forall_cons in Hf as [H1 Hf]. constructor; [by apply IH|].
  apply (proj2 (Forall_fmap snd _ l)). rewrite Forall_forall in Hl, Hf |- *. intros e He. cbn [fst snd compose] in *. rewrite H1, (Hf e He). by apply Hl.
Qed.

Lemma bucket_list_elem (m : gmap Z TsRollupBucket) b : b ∈ bucket_list m <-> exists t, m !! t = Some b.
Proof.
  unfold bucket_list. rewrite list_elem_of_fmap. split.
  - intros ([t b'] & -> & H). rewrite std_sort_elem_of, elem_of_map_to_list in H. by exists t.
  - intros [t H]. exists (t, b). split; [done|]. by rewrite std_sort_elem_of, elem_of_map_to_list.
Qed.

(** C24: the rollups of a chunk are, series by series and minute by minute, the count,
    minimum, maximum, sum, first and last of the values of that series and minute, listed by
    the start of the minute. First and last are taken in the order of the rows, which is the
    order of the keys and not of the times ([first_follows_keys]). Conditions: the rows'
    times can be aligned, so that the rollups are defined, and there are less than 2^64
    rows. *)
Theorem rollups_exact (rows : list EngineRow) r s :
  ComputeRollups rows = Some r -> Zlen rows < 2 ^ 64 ->
  sorted_strict Z.ltb bucket_start_ms (default [] (r !! s))
  /\ forall b, b ∈ default [] (r !! s) <-> ref_bucket (bucket_start_ms b) (bucket_points s (bucket_start_ms b) rows) = Some b.
Proof.
  intros Hr Hn. unfold ComputeRollups in Hr. apply fmap_Some in Hr as (acc & Ha & ->).
  assert (Hlook : forall t, default ∅ (acc !! s) !! t = ref_bucket t (bucket_points s t rows)).
  { intros t. rewrite (accumulate_lookup _ _ _ s t Ha), lookup_empty. cbn [default]. rewrite lookup_empty. apply add_points_ref.
    unfold bucket_points, Zlen in *. enough (length (omap (bucket_point s t) rows) <= length rows)%nat by lia.
    clear. induction rows as [|x rows IH]; [done|]. cbn [omap list_omap length]. destruct (bucket_point s t x); cbn [length]; lia. }
  assert (Hl : default [] (listed acc !! s) = bucket_list (default ∅ (acc !! s))) by (unfold listed; rewrite lookup_fmap; by destruct (acc !! s)).
  rewrite Hl. split.
  - apply bucket_list_sorted. intros t b. rewrite Hlook. apply ref_bucket_start.
  - intros b. rewrite bucket_list_elem. split; [|intros H; exists (bucket_start_ms b); by rewrite Hlook].
    intros [t Ht]. rewrite Hlook in Ht. by rewrite (ref_bucket_start _ _ _ Ht).
Qed.

(** ** Chunks *)
Record chunk_fits (rows : list EngineRow) (r : rollups) : Prop := {
  cf_segment : seg_fits rows /\ Forall (fun x => Zlen x.1 < 2 ^ 63) rows;
  cf_points : Zlen (EncodeSegment rows) < 2 ^ 32;
  cf_block : Zlen (EncodeRollups r) < 2 ^ 32;
}.

Lemma chunk_split rows r : ComputeRollups rows = Some r -> chunk_fits rows r ->
  exists blob, EncodeChunk rows = Some blob /\ SplitChunk blob = OK (EncodeRollups r, EncodeSegment rows).
Proof.
  intros Hr [_ Hp Hb]. unfold EncodeChunk. rewrite Hr. cbn [mbind option_bind]. eexists. split; [done|]. set (block := EncodeRollups r) in *. set (points := EncodeSegment rows) in *.
  assert (Hlen : forall v rest, Zlen (ByteWriter.U32 v ++ rest) = 4 + Zlen rest) by (intros v rest; unfold Zlen; rewrite length_app, U32_length; lia).
  pose proof (Zlen_nonneg block). pose proof (Zlen_nonneg points). unfold SplitChunk. rewrite !Hlen, Zlen_app, (proj2 (Z.ltb_ge _ _)) by lia.
  unfold read_chunk_header. do 3 (unfold rbind at 1; rewrite round_trip by first [by split|split; [apply Zlen_nonneg|done]]). unfold rret. cbv beta iota.
  rewrite Z.eqb_refl. cbn [negb]. rewrite (proj2 (Z.eqb_eq _ _)) by lia. cbn [negb].
  set (h := ByteWriter.U32 kTsChunkMagic ++ ByteWriter.U32 (Zlen block) ++ ByteWriter.U32 (Zlen points)).
  assert (Hh : Zlen h = 12) by (unfold h, Zlen; rewrite !length_app, !U32_length; done).
  replace (ByteWriter.U32 kTsChunkMagic ++ ByteWriter.U32 (Zlen block) ++ ByteWriter.U32 (Zlen points) ++ block ++ points) with (h ++ block ++ points) by (unfold h; by rewrite <- !app_assoc).
  f_equal. f_equal; unfold column.
  - rewrite <- Hh at 1. apply slice_at.
  - rewrite <- Hh at 1. rewrite <- Zlen_app, app_assoc. pose proof (slice_at (h ++ block) points []) as E. by rewrite app_nil_r in E.
Qed.

(** A chunk splits into the rollups of its points and the points themselves, and both
    decode to what was encoded. *)
Theorem ts_chunk_round_trip rows r :
  ComputeRollups rows = Some r -> chunk_fits rows r -> rollups_ok r ->
  exists blob block segment, EncodeChunk rows = Some blob /\ SplitChunk blob = OK (block, segment)
    /\ DecodeRollups block = OK r /\ DecodeSegment segment = Some (OK rows) /\ DecodeSegmentKeys segment = OK rows.*1.
Proof.
  intros Hr Hf Ho. destruct (chunk_split rows r Hr Hf) as (blob & E & S). destruct Hf as [[F1 F2] _ _]. exists blob, (EncodeRollups r), (EncodeSegment rows).
  split; [done|]. split; [done|]. split; [by apply rollups_read|]. split; [by apply segment_read|by apply segment_keys_read].
Qed.

(** ** Sizes *)

(** A point whose series name is no longer than the point and whose time can be aligned. *)
Definition point_ok (r : EngineRow) : bool :=
  (Zlen (ExtractSeries r.1 r.2) <=? Zlen r.1 + Zlen r.2) && (- 2 ^ 63 + kTsChunkMillis <=? ExtractTimestampMs r.2) && (ExtractTimestampMs r.2 <? 2 ^ 63).

Lemma AlignDown_ok ts modulus : 0 < modulus <= kTsChunkMillis -> - 2 ^ 63 + kTsChunkMillis <= ts < 2 ^ 63 -> exists t, AlignDown ts modulus = Some t /\ t <= ts < t + modulus /\ (modulus | t).
Proof.
  unfold kTsChunkMillis. intros Hm Ht. unfold AlignDown. rewrite (proj2 (Z.leb_gt _ _)) by lia. pose proof (Z.rem_bound_abs ts modulus ltac:(lia)) as Hb. pose proof (Z.quot_rem' ts modulus) as Hq.
  set (r := Z.rem ts modulus) in *. destruct (Z.ltb_spec r 0); unfold in_int64; rewrite (proj2 (andb_true_iff _ _)) by (rewrite Z.leb_le, Z.ltb_lt; lia); eexists; (split; [done|]); (split; [lia|]).
  - exists (Z.quot ts modulus - 1). lia.
  - exists (Z.quot ts modulus). lia.
Qed.

Definition series_weight (s : bytes) (n : Z) : Z := 8 + Zlen s + 56 * n.
Definition block_weight {A} (len : A -> Z) (l : list (bytes * A)) : Z := foldr (fun e n => series_weight e.1 (len e.2) + n) 0 l.
Definition acc_weight (acc : accumulator) : Z := block_weight (fun m : gmap Z TsRollupBucket => Z.of_nat (size m)) (map_to_list acc).

Lemma block_weight_cons {A} (len : A -> Z) s x l : block_weight len ((s, x) :: l) = series_weight s (len x) + block_weight len l.
Proof. done. Qed.

Lemma block_weight_perm {A} (len : A -> Z) l1 l2 : l1 ≡ₚ l2 -> block_weight len l1 = block_weight len l2.
Proof. unfold block_weight. induction 1; cbn [foldr]; lia. Qed.

Lemma write_bucket_length b : length (write_bucket b) = 56%nat.
Proof. done. Qed.

Lemma write_series_length e : Zlen (write_series e) = series_weight e.1 (Zlen e.2).
Proof.
  unfold write_series, series_weight, ByteWriter.Bytes, Zlen. rewrite !length_app, !U32_length.
  assert (Hc : forall l, length (concat (map write_bucket l)) = (56 * length l)%nat).
  { intros l. induction l as [|b l IH]; [done|]. cbn [map concat length]. rewrite length_app, write_bucket_length, IH. lia. }
  rewrite Hc. lia.
Qed.

Lemma write_all_length l : Z.of_nat (length (concat (map write_series l))) = block_weight Zlen l.
Proof. induction l as [|[s x] l IH]; [done|]. cbn [map concat]. rewrite block_weight_cons, length_app, Nat2Z.inj_add, IH. f_equal. apply (write_series_length (s, x)). Qed.

Lemma EncodeRollups_length acc : Zlen (EncodeRollups (listed acc)) = 4 + acc_weight acc.
Proof.
  unfold EncodeRollups. unfold Zlen at 1. rewrite length_app, U32_length.
  rewrite Nat2Z.inj_add, write_all_length. unfold series_list. rewrite (block_weight_perm _ _ _ (std_sort_perm _ _ _)). unfold listed, acc_weight. rewrite map_to_list_fmap.
  f_equal. induction (map_to_list acc) as [|[s m] l IH]; [done|]. cbn [fmap list_fmap prod_map]. rewrite !block_weight_cons. f_equal; [|exact IH].
  f_equal. unfold bucket_list, Zlen. rewrite length_fmap, std_sort_length. by rewrite length_map_to_list.
Qed.

Lemma acc_weight_nonneg acc : 0 <= acc_weight acc.
Proof. unfold acc_weight. induction (map_to_list acc) as [|[s m] l IH]; [done|]. rewrite block_weight_cons. unfold series_weight. cbv beta. pose proof (Zlen_nonneg s). lia. Qed.

Lemma acc_weight_insert acc s t b : acc_weight (<[s := <[t := b]> (default ∅ (acc !! s))]> acc) <= acc_weight acc + 64 + Zlen s.
Proof.
  unfold acc_weight. rewrite <- insert_delete_eq. rewrite (block_weight_perm _ _ _ (map_to_list_insert _ _ _ (lookup_delete_eq acc s))), block_weight_cons. unfold series_weight. cbv beta.
  destruct (acc !! s) as [m|] eqn:E; cbn [default from_option id].
  - pose proof (block_weight_perm (fun m : gmap Z TsRollupBucket => Z.of_nat (size m)) _ _ (map_to_list_delete acc s m E)) as H. rewrite block_weight_cons in H. unfold series_weight in H. cbv beta in H.
    assert (Hs : (size (<[t := b]> m) <= size m + 1)%nat) by (rewrite map_size_insert; destruct (m !! t); cbn; lia). pose proof (Zlen_nonneg s). lia.
  - rewrite delete_id by done. change (<[t := b]> (∅ : gmap Z TsRollupBucket)) with ({[t := b]} : gmap Z TsRollupBucket). rewrite map_size_singleton. lia.
Qed.

Lemma accumulate_total (rows : list EngineRow) (acc : accumulator) :
  Forall (fun r => point_ok r = true) rows -> exists acc', accumulate rows acc = Some acc' /\ acc_weight acc' <= acc_weight acc + 2 * volume rows.
Proof.
  intros H. revert acc. induction H as [|[k d] rows Hp _ IH]; intros acc; [exists acc; split; [done|cbn; lia]|]. cbn [volume foldr fst snd]. fold (volume rows).
  pose proof (RecordCost_nonneg k d). unfold point_ok in Hp. cbn [fst snd] in Hp. apply andb_true_iff in Hp as [[Hs%Z.leb_le Ht1%Z.leb_le]%andb_true_iff Ht2%Z.ltb_lt].
  cbn [accumulate]. destruct (ExtractValue d) as [v|].
  - destruct (AlignDown_ok (ExtractTimestampMs d) kTsRollupBucketMs) as (t & -> & _); [done|lia|]. cbn [mbind option_bind]. cbv zeta.
    match goal with |- context [accumulate rows ?a] => destruct (IH a) as (acc' & E & Hw) end. exists acc'. split; [done|].
    match type of Hw with _ <= acc_weight (<[_ := <[_ := ?b]> _]> _) + _ => pose proof (acc_weight_insert acc (ExtractSeries k d) t b) end. unfold RecordCost in *. lia.
  - destruct (IH acc) as (acc' & E & Hw). exists acc'. split; [done|]. lia.
Qed.

Lemma ComputeRollups_total (rows : list EngineRow) :
  Forall (fun r => point_ok r = true) rows -> exists r, ComputeRollups rows = Some r /\ Zlen (EncodeRollups r) <= 4 + 2 * volume rows.
Proof.
  intros H. destruct (accumulate_total rows ∅ H) as (acc & E & Hw). exists (listed acc). unfold ComputeRollups. rewrite E. split; [done|]. rewrite EncodeRollups_length.
  change (acc_weight ∅) with 0 in Hw. lia.
Qed.

Lemma EncodeChunk_total (rows : list EngineRow) :
  Forall (fun r => point_ok r = true) rows -> volume rows <= 2 ^ 29 ->
  exists r blob, ComputeRollups rows = Some r /\ chunk_fits rows r /\ EncodeChunk rows = Some blob /\ Zlen blob <= 50 + 8 * volume rows.
Proof.
  intros H Hv. destruct (ComputeRollups_total rows H) as (r & E & Hw). pose proof (EncodeSegment_size rows). pose proof (volume_nonneg rows).
  assert (Hf : chunk_fits rows r) by (split; [by apply volume_fits|lia|lia]). destruct (chunk_split rows r E Hf) as (blob & Eb & _). exists r, blob. split; [done|]. split; [done|]. split; [done|].
  unfold EncodeChunk in Eb. rewrite E in Eb. cbn [mbind option_bind] in Eb. apply (inj Some) in Eb as <-. unfold Zlen in *. rewrite !length_app, !U32_length. lia.
Qed.

Lemma chunk_pages s v : Zlen s <= 50 + 8 * v -> 32 <= v -> 1 <= Z.of_nat (num_chunks s) <= v.
Proof.
  intros Hs Hv. pose proof (num_chunks_pos s). split; [lia|]. unfold num_chunks. unfold Zlen in Hs. destruct (Nat.eqb_spec (length s) 0); [lia|].
  pose proof payload_small as Hp. rewrite Nat2Z.inj_div. rewrite Nat2Z.inj_sub, Nat2Z.inj_add by lia. rewrite Hp. apply Z.div_le_upper_bound; lia.
Qed.

(** A written block can always be read, NaNs and all. *)
Lemma read8 v rest : exists v', ByteReader.Read 8 (ByteWriter.U64 v ++ rest) = Some (v', rest).
Proof. eexists. apply (Read_split 8). Qed.

Lemma read_bucket_total b rest : exists b', read_bucket (write_bucket b ++ rest) = Some (b', rest).
Proof.
  unfold read_bucket, write_bucket, ByteReader.I64, ByteReader.U64, read_f64, ByteReader.F64, rret, rbind. rewrite <- !app_assoc.
  change ByteWriter.I64 with ByteWriter.U64. change ByteWriter.F64 with ByteWriter.U64.
  do 7 (match goal with |- context [ByteReader.Read 8 (ByteWriter.U64 ?v ++ ?rest)] => destruct (read8 v rest) as (? & ->) end). by eexists.
Qed.

Lemma read_buckets_total l rest : exists l', read_buckets (length l) (concat (map write_bucket l) ++ rest) = Some (l', rest).
Proof.
  induction l as [|b l [l' IH]]; [by exists []|]. cbn [length read_buckets map concat]. rewrite <- app_assoc. unfold rbind at 1. destruct (read_bucket_total b (concat (map write_bucket l) ++ rest)) as (b' & ->).
  unfold rbind. rewrite IH. by eexists.
Qed.

Definition series_fits (e : bytes * list TsRollupBucket) : Prop := blob_ok e.1 /\ Zlen e.2 < 2 ^ 32.

Lemma read_series_total (l : list (bytes * list TsRollupBucket)) (out : rollups) rest :
  Forall series_fits l -> exists out', read_series (length l) out (concat (map write_series l) ++ rest) = Some (out', rest).
Proof.
  intros H. revert out. induction H as [|[s l'] l [H1 H2] _ IH]; intros out; [by exists out|]. cbn [length read_series map concat fst snd] in *. unfold write_series at 1. cbn [fst snd].
  unfold rbind at 1. rewrite <- !app_assoc, round_trip by done. unfold rbind at 1. rewrite round_trip by (split; [apply Zlen_nonneg|done]). unfold Zlen. rewrite Nat2Z.id.
  unfold rbind at 1. destruct (read_buckets_total l' (concat (map write_series l) ++ rest)) as (l'' & ->). apply IH.
Qed.

Lemma block_weight_elem (l : list (bytes * list TsRollupBucket)) e : e ∈ l -> series_weight e.1 (Zlen e.2) <= block_weight Zlen l.
Proof.
  induction 1 as [[s x] l|[s x] [s' x'] l _ IH]; rewrite block_weight_cons.
  - enough (0 <= block_weight Zlen l) by (cbn [fst snd]; lia). clear. induction l as [|[s x] l IH]; [done|]. rewrite block_weight_cons. unfold series_weight. pose proof (Zlen_nonneg s). pose proof (Zlen_nonneg x). lia.
  - unfold series_weight in *. pose proof (Zlen_nonneg s'). pose proof (Zlen_nonneg x'). lia.
Qed.

Lemma DecodeRollups_total r : Zlen (EncodeRollups r) < 2 ^ 32 -> exists r', DecodeRollups (EncodeRollups r) = OK r'.
Proof.
  intros Hz. assert (Hw : Zlen (EncodeRollups r) = 4 + block_weight Zlen (series_list r)).
  { unfold EncodeRollups. unfold Zlen at 1. rewrite length_app, U32_length, Nat2Z.inj_add. f_equal. apply write_all_length. }
  assert (Hl : length (series_list r) = size r) by (unfold series_list; rewrite std_sort_length; apply length_map_to_list).
  assert (Hf : Forall series_fits (series_list r)).
  { apply Forall_forall. intros e He. apply block_weight_elem in He. unfold series_weight in He. pose proof (Zlen_nonneg e.1). pose proof (Zlen_nonneg e.2). split; unfold blob_ok; lia. }
  assert (Hn : Zlen (series_list r) <= block_weight Zlen (series_list r)).
  { clear. induction (series_list r) as [|[s x] l IH]; [done|]. rewrite block_weight_cons. unfold series_weight. pose proof (Zlen_nonneg s). pose proof (Zlen_nonneg x). unfold Zlen at 1. cbn [length]. unfold Zlen in IH at 1. lia. }
  unfold DecodeRollups. unfold EncodeRollups at 1. unfold rbind. rewrite round_trip by (unfold fits, Zlen in *; lia). rewrite Nat2Z.id, <- Hl, <- (app_nil_r (concat _)).
  destruct (read_series_total (series_list r) ∅ [] Hf) as (r' & ->). by exists r'.
Qed.

(** ** Range queries *)
Lemma newest_concat (L : levels) k : newest L k = assoc k (concat L).
Proof. induction L as [|rows L IH]; [done|]. cbn [newest concat]. unfold EngineRow in *. rewrite assoc_app, IH. by destruct (assoc k rows). Qed.

Lemma concat_nodup (L : levels) : NoDup (concat L).*1 -> Forall (fun rows => NoDup rows.*1) L.
Proof.
  induction L as [|rows L IH]; [constructor|]. cbn [concat]. rewrite fmap_app. intros (H1 & _ & H2)%NoDup_app. constructor; [done|by apply IH].
Qed.

Definition kept_levels (skip : TsChunkMeta -> bool) (l : list (TsChunkMeta * list EngineRow)) : levels := (filter (fun p => skip p.1 = false) l).*2.

Lemma kept_cons skip meta rows l : kept_levels skip ((meta, rows) :: l) = if skip meta then kept_levels skip l else rows :: kept_levels skip l.
Proof. unfold kept_levels. rewrite filter_cons. cbn [fst]. destruct (skip meta); by case_decide. Qed.

Section Range.
Context `{C : Crypto} `{!CryptoLaws C} `{K : DiskKey}.
Implicit Types (b : BufferPool) (V : Z -> bytes) (n : Z) (c series : bytes) (from_ms to_ms : Z).

(** A sealed chunk, with the time bounds of its points. *)
Record chunk_ok V n (meta : TsChunkMeta) (rows : list EngineRow) : Prop := {
  ck_blob : exists r blob, ComputeRollups rows = Some r /\ chunk_fits rows r /\ EncodeChunk rows = Some blob /\ blob_at V n (tm_first_page_id meta) blob;
  ck_bounds : Forall (fun x => min_ts_ms meta <= ExtractTimestampMs x.2 <= max_ts_ms meta) rows;
}.

Lemma LoadChunkRows_ok b V n meta rows :
  store_ok b V n -> n <= 2 ^ 31 -> chunk_ok V n meta rows -> exists b', LoadChunkRows meta b = Some (OK rows, b') /\ store_ok b' V n.
Proof.
  intros Hs Hn [(r & blob & Hr & Hf & He & Hb) _]. destruct (store_read b V n _ _ Hs Hn Hb) as (b' & E & Hs'). exists b'. split; [|done].
  destruct (chunk_split rows r Hr Hf) as (blob' & He' & Hsp). rewrite He in He'. injection He' as <-. destruct Hf as [[F1 F2] _ _].
  unfold LoadChunkRows. rewrite E, Hsp, segment_read by done. done.
Qed.

Lemma merge_chunks_ok (skip : TsChunkMeta -> bool) (l : list (TsChunkMeta * list EngineRow)) (m0 : gmap bytes bytes) b V n :
  store_ok b V n -> n <= 2 ^ 31 -> Forall (fun p => chunk_ok V n p.1 p.2) l ->
  exists b', merge_chunks skip (rev l.*1) m0 b = Some (foldr (fun rows acc => put_rows acc rows) m0 (kept_levels skip l), b') /\ store_ok b' V n.
Proof.
  intros Hs Hn Hl.
  assert (Hgo : forall l' (m0 : gmap bytes bytes) b, Forall (fun p => chunk_ok V n p.1 p.2) l' -> store_ok b V n ->
    exists b', merge_chunks skip l'.*1 m0 b = Some (fold_left put_rows (kept_levels skip l') m0, b') /\ store_ok b' V n).
  { clear Hs Hl l m0 b. intros l' m0 b Hl'. revert m0 b. induction Hl' as [|[meta rows] l' Hc _ IH]; intros m0 b Hs; [by exists b|]. cbn [fmap list_fmap fst snd merge_chunks] in *.
    rewrite kept_cons. destruct (skip meta) eqn:Es; [by apply IH|].
    destruct (LoadChunkRows_ok b V n meta rows Hs Hn Hc) as (b1 & -> & Hs1). cbn [mbind option_bind fold_left]. by apply IH. }
  destruct (Hgo (rev l) m0 b) as (b' & E & Hb); [by apply Forall_rev|done|]. exists b'. split; [|done]. 
  replace (rev l.*1) with (rev l).*1 by (apply map_rev). rewrite E. f_equal. f_equal.
  assert (Hk : kept_levels skip (rev l) = rev (kept_levels skip l)).
  { assert (Hrev : forall A (x : list A), rev x = reverse x) by (intros; apply rev_alt). unfold kept_levels. rewrite !Hrev, <- fmap_reverse. f_equal. apply filter_reverse. }
  rewrite Hk, <- fold_left_rev_right, rev_involutive. done.
Qed.

(** All the documents of a collection: each key once. *)
Definition all_rows (st : TsCollection) (l : list (TsChunkMeta * list EngineRow)) : list EngineRow := in_order (ts_open_rows st) ++ concat l.*2.

Lemma collected_lookup (st : TsCollection) (skip : TsChunkMeta -> bool) (l : list (TsChunkMeta * list EngineRow)) k d :
  NoDup (all_rows st l).*1 ->
  put_rows (foldr (fun rows acc => put_rows acc rows) ∅ (kept_levels skip l)) (in_order (ts_open_rows st)) !! k = Some d
  <-> (k, d) ∈ in_order (ts_open_rows st) ++ concat (kept_levels skip l).
Proof.
  intros Hn. assert (Hsub : NoDup (in_order (ts_open_rows st) ++ concat (kept_levels skip l)).*1).
  { eapply sublist_NoDup; [exact Hn|]. unfold all_rows. apply fmap_sublist, sublist_app; [done|].
    clear. induction l as [|[meta rows] l IH]; [done|]. rewrite kept_cons. destruct (skip meta); cbn [fmap list_fmap concat snd]; [by apply sublist_inserts_l|by apply sublist_app]. }
  pose proof Hsub as Hsub'. rewrite fmap_app in Hsub'. apply NoDup_app in Hsub' as (_ & _ & Hk).
  rewrite put_rows_lookup by apply in_order_NoDup. rewrite <- (assoc_Some k d _ Hsub). unfold EngineRow in *. rewrite assoc_app.
  fold (merged (kept_levels skip l)). rewrite merged_lookup by (by apply concat_nodup). rewrite newest_concat. by destruct (assoc k (in_order (ts_open_rows st))).
Qed.

Lemma filter_sorted (P : EngineRow -> bool) (l : list EngineRow) : sorted_strict str_lt fst l -> sorted_strict str_lt fst (filter (fun r => P r = true) l).
Proof.
  unfold sorted_strict. induction 1 as [|x l _ IH Hf]; [constructor|]. rewrite filter_cons. case_decide; [|done]. constructor; [done|].
  apply Forall_forall. intros y Hy%list_elem_of_filter. rewrite Forall_forall in Hf. apply Hf, Hy.
Qed.

Lemma in_order_sorted (m : gmap bytes bytes) : sorted_strict str_lt fst (in_order m).
Proof. apply std_sort_sorted; [apply _|apply NoDup_fst_map_to_list]. Qed.

(** Two maps that agree on the rows a filter keeps. *)
Lemma filter_in_order (P : EngineRow -> bool) (m1 m2 : gmap bytes bytes) :
  (forall k d, P (k, d) = true -> m1 !! k = Some d <-> m2 !! k = Some d) ->
  filter (fun r => P r = true) (in_order m1) = filter (fun r => P r = true) (in_order m2).
Proof.
  intros H. eapply (sorted_strict_unique str_lt fst); [apply filter_sorted, in_order_sorted..|].
  apply NoDup_Permutation; [apply NoDup_filter, (NoDup_fmap_1 fst), in_order_NoDup..|].
  intros [k d]. rewrite !list_elem_of_filter, !in_order_elem. cbn [fst snd]. split; intros [HP Hm]; (split; [done|]); by apply (H k d HP).
Qed.

(** A chunk whose bounds lie outside the range has no point inside it. *)
Lemma kept_in_window V n series from_ms to_ms (l : list (TsChunkMeta * list EngineRow)) k d :
  Forall (fun p => chunk_ok V n p.1 p.2) l -> in_window series from_ms to_ms (k, d) = true ->
  (k, d) ∈ concat (kept_levels (outside from_ms to_ms) l) <-> (k, d) ∈ concat (kept_levels (fun _ => false) l).
Proof.
  intros Hl HP. unfold in_window in HP. cbn [snd] in HP. apply andb_true_iff in HP as [HP _]. apply negb_true_iff, orb_false_iff in HP as [H1%Z.ltb_ge H2%Z.ltb_ge].
  induction Hl as [|[meta rows] l [_ Hb] _ IH]; [done|]. rewrite !kept_cons. cbn [fst snd] in *.
  destruct (outside from_ms to_ms meta) eqn:Ho; cbn [concat]; rewrite !elem_of_app; [|by apply or_iff_compat_l].
  split; [intros H; right; by apply IH|]. intros [Hin|Hin]; [|by apply IH]. exfalso. apply not_false_iff_true in Ho. apply Ho.
  rewrite Forall_forall in Hb. specialize (Hb _ Hin). cbn in Hb. unfold outside. apply orb_false_iff. split; apply Z.ltb_ge; lia.
Qed.

Lemma kept_all (l : list (TsChunkMeta * list EngineRow)) : kept_levels (fun _ => false) l = l.*2.
Proof. induction l as [|[meta rows] l IH]; [done|]. rewrite kept_cons. cbn. by rewrite IH. Qed.

(** The documents of a collection. *)
Definition ts_docs (st : TsCollection) (L : levels) : gmap bytes bytes := put_rows (merged L) (in_order (ts_open_rows st)).

Lemma TsScan_docs c start limit e V n st (l : list (TsChunkMeta * list EngineRow)) :
  store_ok (ts_store e) V n -> n <= 2 ^ 31 -> ts_collections e !! c = Some st -> chunks st = l.*1 -> Forall (fun p => chunk_ok V n p.1 p.2) l ->
  exists b, TsScan c start limit e = Some (from_key (ts_docs st l.*2) start limit, ts_set_store b e) /\ store_ok b V n.
Proof.
  intros Hs Hn Hst Hch Hl. unfold TsScan. rewrite Hst, Hch. destruct (merge_chunks_ok (fun _ => false) l ∅ (ts_store e) V n Hs Hn Hl) as (b & -> & Hb).
  cbn [mbind option_bind]. exists b. split; [|done]. rewrite kept_all. done.
Qed.

(** A range query that skips chunks by their time bounds answers as the documents
    filtered by time and series, in the order of the keys and up to the limit, whatever
    is open and sealed, as long as no key of the collection was written twice. *)
Lemma RangeQuery_docs c series from_ms to_ms limit e V n st (l : list (TsChunkMeta * list EngineRow)) :
  store_ok (ts_store e) V n -> n <= 2 ^ 31 -> ts_collections e !! c = Some st -> chunks st = l.*1 -> Forall (fun p => chunk_ok V n p.1 p.2) l ->
  exists b rows, RangeQuery c series from_ms to_ms limit e = Some (rows, ts_set_store b e) /\ store_ok b V n
    /\ (NoDup (all_rows st l).*1 ->
        rows = let found := filter (fun r => in_window series from_ms to_ms r = true) (in_order (ts_docs st l.*2)) in if (limit =? 0)%nat then found else take limit found).
Proof.
  intros Hs Hn Hst Hch Hl. unfold RangeQuery. rewrite Hst, Hch. destruct (merge_chunks_ok (outside from_ms to_ms) l ∅ (ts_store e) V n Hs Hn Hl) as (b & -> & Hb).
  cbn [mbind option_bind]. eexists b, _. split; [done|]. split; [done|]. intros Hnd. cbv zeta.
  match goal with |- (if _ then ?x else take _ ?x) = (if _ then ?y else take _ ?y) => enough (x = y) as -> by done end.
  apply filter_in_order. intros k d HP. unfold ts_docs, merged. rewrite <- (kept_all l), !collected_lookup by done. rewrite !elem_of_app. apply or_iff_compat_l. by apply (kept_in_window V n series).
Qed.
End Range.
