(* ===== verification/TsRefine.v ===== *)
(** * The time-series engine is a map of points

    The invariant relates each collection to its sealed chunks.  A history says in which
    collections a key was written twice, where range queries and retention lose their
    guarantees, and which points are known to be sealed. *)
From Stdlib Require Import SpecFloat.
From S2P Require Import Prelude Bytes Hlc Json JsonText Crdt CrdtMerge CrdtCodec AtRest AtRestFiles DiskManager BufferPool BufferPoolProps BPlusTree Pins SegmentStore Catalog Backend KvBackend KvProps ColumnarCodec Columnar Lsm ColumnarProps ColumnarRefine Peer TsRollup TsProps.
Local Open Scope Z_scope.

(** ** The invariant *)
Record sealed_ok (V : Z -> bytes) (n : Z) (meta : TsChunkMeta) (rows : list EngineRow) : Prop := {
  sl_chunk : chunk_ok V n meta rows;
  sl_nonempty : rows <> [];
  sl_nodup : NoDup rows.*1;
  sl_count : tm_row_count meta = Zlen rows;
  sl_hour : Forall (fun r => AlignDown (ExtractTimestampMs r.2) kTsChunkMillis = Some (chunk_start_ms meta)) rows;
  sl_latest : exists r, r ∈ rows /\ max_ts_ms meta <= ExtractTimestampMs r.2;
}.

Record ts_coll_ok (V : Z -> bytes) (n W : Z) (st : TsCollection) (L : levels) : Prop := {
  tc_chunks : Forall2 (sealed_ok V n) (chunks st) L;
  tc_index : forall k, key_to_chunk st !! k = level_of L k;
  tc_volume : levels_volume L + map_volume (ts_open_rows st) <= W;
  tc_points : Forall (fun r => point_ok r = true) (in_order (ts_open_rows st));
  tc_hour : Forall (fun r => AlignDown (ExtractTimestampMs r.2) kTsChunkMillis = Some (open_chunk_start_ms st)) (in_order (ts_open_rows st));
  tc_idle : open_active st = false -> ts_open_rows st = ∅;
}.

(** The collections in which a key was written again, and the points known to be sealed. *)
Record ts_history := mkHistory { th_again : gset bytes; th_sealed : gset (bytes * bytes) }.

Definition put_history (c k : bytes) (m : docs) (h : ts_history) : ts_history :=
  mkHistory (match m !! (c, k) with None => th_again h | Some _ => {[c]} ∪ th_again h end) (th_sealed h ∖ {[(c, k)]}).
Definition seal_history (P : bytes -> bool) (m : docs) (h : ts_history) : ts_history :=
  mkHistory (th_again h) (filter (fun ck => P ck.1 = true) (dom m) ∪ th_sealed h).

(** All versions of the points of a collection, and what it shows of a key. *)
Definition ts_all (st : TsCollection) (L : levels) : list EngineRow := in_order (ts_open_rows st) ++ concat L.
Definition ts_doc (st : TsCollection) (L : levels) (k : bytes) : option bytes :=
  match ts_open_rows st !! k with Some d => Some d | None => newest L k end.

Definition ts_open_volume (e : TsRollupBackend) : Z := msum (fun st => map_volume (ts_open_rows st)) (ts_collections e).

Section Invariant.
Context `{C : Crypto} `{!CryptoLaws C} `{K : DiskKey}.
Implicit Types (L : levels) (metas : list TsChunkMeta) (c k d : bytes) (st : TsCollection) (b : BufferPool) (e : TsRollupBackend) (V : Z -> bytes) (G : bytes -> levels) (m : docs) (W B n : Z) (h : ts_history).

Record ts_inv e V n G W B h m : Prop := {
  ti_store : store_ok (ts_store e) V n;
  ti_coll : forall c, ts_coll_ok V n W (TsStateFor c e) (G c);
  ti_docs : forall c k, m !! (c, k) = ts_doc (TsStateFor c e) (G c) k;
  ti_pages : n + ts_open_volume e <= B;
  ti_once : forall c, c ∉ th_again h -> NoDup (ts_all (TsStateFor c e) (G c)).*1;
  ti_sealed : forall c k, (c, k) ∈ th_sealed h -> ts_open_rows (TsStateFor c e) !! k = None;
}.

Record ts_room W B : Prop := { tr_volume : W <= 2 ^ 29; tr_pages : B <= 2 ^ 31 }.

Lemma ts_open_volume_nonneg e : 0 <= ts_open_volume e.
Proof. apply msum_nonneg. intros st. apply map_volume_nonneg. Qed.

Lemma TsStateFor_Some e c st : ts_collections e !! c = Some st -> TsStateFor c e = st.
Proof. unfold TsStateFor. by intros ->. Qed.

Lemma TsStateFor_None e c : ts_collections e !! c = None -> TsStateFor c e = new_ts.
Proof. unfold TsStateFor. by intros ->. Qed.

Lemma ts_open_volume_coll e c : map_volume (ts_open_rows (TsStateFor c e)) <= ts_open_volume e.
Proof.
  destruct (ts_collections e !! c) as [st|] eqn:E.
  - rewrite (TsStateFor_Some _ _ _ E). unfold ts_open_volume. rewrite (msum_delete _ _ c st E). pose proof (msum_nonneg (fun st => map_volume (ts_open_rows st)) (delete c (ts_collections e)) (fun st => map_volume_nonneg (ts_open_rows st))). cbn beta. lia.
  - rewrite (TsStateFor_None _ _ E). apply ts_open_volume_nonneg.
Qed.

Lemma sealed_frame V V' n n' meta rows :
  (forall j, 0 <= j < n -> V' j = V j) -> n <= n' -> sealed_ok V n meta rows -> sealed_ok V' n' meta rows.
Proof.
  intros HV Hn [[(r & blob & H1 & H2 & H3 & H4) H5] H6 H7 H8 H9 H10]. split; [|done..]. split; [|done]. exists r, blob. split; [done|]. split; [done|]. split; [done|]. by eapply blob_at_frame.
Qed.

Lemma ts_coll_frame V V' n n' W W' st L :
  (forall j, 0 <= j < n -> V' j = V j) -> n <= n' -> W <= W' -> ts_coll_ok V n W st L -> ts_coll_ok V' n' W' st L.
Proof. intros HV Hn HW [H1 H2 H3 H4 H5 H6]. split; [|done|lia|done..]. eapply Forall2_impl; [exact H1|]. intros meta rows. by apply sealed_frame. Qed.

Lemma ts_inv_store e V n G W B h m b : ts_inv e V n G W B h m -> store_ok b V n -> ts_inv (ts_set_store b e) V n G W B h m.
Proof. intros [H1 H2 H3 H4 H5 H6] Hb. by split. Qed.

Lemma ts_inv_quota e V n G W B h m q : ts_inv e V n G W B h m -> ts_inv (ts_set_quota q e) V n G W B h m.
Proof. intros [H1 H2 H3 H4 H5 H6]. by split. Qed.

Lemma ts_inv_save e V n G W B h m : ts_inv e V n G W B h m -> ts_inv (TsSaveManifest e).2 V n G W B h m.
Proof. intros [H1 H2 H3 H4 H5 H6]. unfold TsSaveManifest. destruct (WriteSealedJsonFile _ _ _ _ _ _) as [st f]. by split. Qed.

Lemma ts_save_same e : let e' := (TsSaveManifest e).2 in ts_collections e' = ts_collections e /\ ts_quota e' = ts_quota e.
Proof. unfold TsSaveManifest. by destruct (WriteSealedJsonFile _ _ _ _ _ _). Qed.

Lemma ts_save_status e : (TsSaveManifest e).1 = OK tt \/ (TsSaveManifest e).1 = Fault kIOError.
Proof. unfold TsSaveManifest. destruct (WriteSealedJsonFile _ _ _ _ _ _) as [[]]; auto. Qed.

Lemma ts_inv_history e V n G W B h m h' :
  ts_inv e V n G W B h m -> th_again h ⊆ th_again h' -> (forall c k, (c, k) ∈ th_sealed h' -> ts_open_rows (TsStateFor c e) !! k = None) -> ts_inv e V n G W B h' m.
Proof. intros [H1 H2 H3 H4 H5 H6] Ha Hs. split; [done..| |done]. intros c Hc. apply H5. set_solver. Qed.

Lemma ts_inv_grow e V n G W B h m W' B' :
  ts_inv e V n G W B h m -> W <= W' -> B <= B' -> ts_inv e V n G W' B' h m.
Proof. intros [H1 H2 H3 H4 H5 H6] HW HB. split; [done| |done|lia|done..]. intros c. eapply ts_coll_frame; [..|apply H2]; [done|lia|lia]. Qed.

(** A change of one collection. *)
Lemma ts_inv_coll e V n G W B h m c st L e' V' n' W' B' h' m' :
  ts_inv e V n G W B h m -> store_ok (ts_store e') V' n' -> ts_collections e' = <[c := st]> (ts_collections e) -> (forall j, 0 <= j < n -> V' j = V j) -> n <= n' ->
  W <= W' -> ts_coll_ok V' n' W' st L -> (forall c' k, m' !! (c', k) = if decide (c' = c) then ts_doc st L k else m !! (c', k)) -> n' + ts_open_volume e' <= B' ->
  th_again h ⊆ th_again h' -> (c ∉ th_again h' -> NoDup (ts_all st L).*1) ->
  (forall c' k, (c', k) ∈ th_sealed h' -> if decide (c' = c) then ts_open_rows st !! k = None else (c', k) ∈ th_sealed h) -> ts_inv e' V' n' (fun c' => if decide (c' = c) then L else G c') W' B' h' m'.
Proof.
  intros Hi Hs Hcoll HV Hn HW Hok Hm HB Ha Ho Hse.
  assert (HSt : forall c', TsStateFor c' e' = if decide (c' = c) then st else TsStateFor c' e).
  { intros c'. unfold TsStateFor. rewrite Hcoll. case_decide as E; [subst; by rewrite lookup_insert_eq|by rewrite lookup_insert_ne]. }
  split; [done| | |done| |].
  - intros c'. rewrite HSt. case_decide as E; [by subst|]. eapply ts_coll_frame; [exact HV|done|done|]. apply (ti_coll _ _ _ _ _ _ _ _ Hi).
  - intros c' k. rewrite Hm, HSt. case_decide as E; [done|]. apply (ti_docs _ _ _ _ _ _ _ _ Hi).
  - intros c' Ht. rewrite HSt. case_decide as E; [subst; by apply Ho|]. apply (ti_once _ _ _ _ _ _ _ _ Hi). set_solver.
  - intros c' k Hin%Hse. rewrite HSt. case_decide; [done|]. by apply (ti_sealed _ _ _ _ _ _ _ _ Hi).
Qed.

(** ** Reading *)
Lemma ts_levels_nodup V n W st L : ts_coll_ok V n W st L -> Forall (fun rows => NoDup rows.*1) L.
Proof. intros [H _ _ _ _ _]. eapply Forall2_Forall_r; [exact H|]. apply Forall_forall. intros meta _ rows Hs. apply Hs. Qed.

Lemma ts_docs_lookup st L k : Forall (fun rows => NoDup rows.*1) L -> ts_docs st L !! k = ts_doc st L k.
Proof.
  intros HL. unfold ts_docs, ts_doc. rewrite put_rows_lookup by apply in_order_NoDup. rewrite in_order_assoc. destruct (ts_open_rows st !! k); [done|]. by apply merged_lookup.
Qed.

(** The chunks with their rows. *)
Lemma paired V n metas L : Forall2 (sealed_ok V n) metas L ->
  (zip metas L).*1 = metas /\ (zip metas L).*2 = L /\ Forall (fun p => chunk_ok V n p.1 p.2) (zip metas L).
Proof.
  induction 1 as [|meta rows metas L Hs _ (IH1 & IH2 & IH3)]; [done|]. cbn. rewrite IH1, IH2. split; [done|]. split; [done|]. constructor; [apply Hs|done].
Qed.

Lemma TsGet_ok c k e V n G W B h m :
  ts_inv e V n G W B h m -> ts_room W B ->
  exists b, TsGet c k e = Some (match m !! (c, k) with Some d => OK d | None => Fault kNotFound end, ts_set_store b e) /\ store_ok b V n.
Proof.
  intros Hi [HW HB]. pose proof (ti_store _ _ _ _ _ _ _ _ Hi) as Hs. rewrite (ti_docs _ _ _ _ _ _ _ _ Hi). pose proof (ti_coll _ _ _ _ _ _ _ _ Hi c) as Hc.
  pose proof (ti_pages _ _ _ _ _ _ _ _ Hi). pose proof (ts_open_volume_nonneg e). assert (Hself : ts_set_store (ts_store e) e = e) by (by destruct e).
  unfold TsGet, ts_doc. destruct (ts_collections e !! c) as [st|] eqn:Ec; [rewrite (TsStateFor_Some _ _ _ Ec) in *|rewrite (TsStateFor_None _ _ Ec) in *].
  2:{ exists (ts_store e). rewrite Hself. pose proof (tc_chunks _ _ _ _ _ Hc) as HL. apply Forall2_nil_inv_l in HL. rewrite HL. done. }
  destruct (ts_open_rows st !! k) as [d|]; [exists (ts_store e); by rewrite Hself|].
  destruct (key_to_chunk st !! k) as [i|] eqn:Ei; rewrite (tc_index _ _ _ _ _ Hc) in Ei.
  - apply level_of_Some in Ei as (rows & d & HL & Ha & ->). destruct (Forall2_lookup_r _ _ _ _ _ (tc_chunks _ _ _ _ _ Hc) HL) as (meta & Hm & Hseal). rewrite Hm.
    destruct (LoadChunkRows_ok (ts_store e) V n meta rows Hs ltac:(lia) (sl_chunk _ _ _ _ Hseal)) as (b & -> & Hb). cbn [mbind option_bind]. rewrite Ha. by exists b.
  - apply level_of_None in Ei as ->. exists (ts_store e). by rewrite Hself.
Qed.

Lemma ts_rows_of c e V n G W B h m : ts_inv e V n G W B h m -> in_order (ts_docs (TsStateFor c e) (G c)) = rows_of m c.
Proof.
  intros Hi. apply (assoc_sorted_ext str_lt); [apply in_order_sorted|apply rows_of_sorted|]. intros k.
  rewrite in_order_assoc, rows_of_lookup, ts_docs_lookup by (eapply ts_levels_nodup, (ti_coll _ _ _ _ _ _ _ _ Hi)). symmetry. apply (ti_docs _ _ _ _ _ _ _ _ Hi).
Qed.

Lemma ts_empty_coll c e V n G W B h m : ts_inv e V n G W B h m -> ts_collections e !! c = None -> rows_of m c = [].
Proof.
  intros Hi Hc. rewrite <- (ts_rows_of _ _ _ _ _ _ _ _ _ Hi). pose proof (ti_coll _ _ _ _ _ _ _ _ Hi c) as Hk. rewrite (TsStateFor_None _ _ Hc) in *.
  pose proof (tc_chunks _ _ _ _ _ Hk) as HL. apply Forall2_nil_inv_l in HL. rewrite HL. done.
Qed.

Lemma TsScan_ok c start limit e V n G W B h m :
  ts_inv e V n G W B h m -> ts_room W B -> exists b, TsScan c start limit e = Some (scan_rows m c start limit, ts_set_store b e) /\ store_ok b V n.
Proof.
  intros Hi [HW HB]. pose proof (ti_store _ _ _ _ _ _ _ _ Hi) as Hs. pose proof (ti_pages _ _ _ _ _ _ _ _ Hi). pose proof (ts_open_volume_nonneg e).
  unfold scan_rows. destruct (ts_collections e !! c) as [st|] eqn:Ec.
  - rewrite <- (ts_rows_of c _ _ _ _ _ _ _ _ Hi), (TsStateFor_Some _ _ _ Ec). pose proof (ti_coll _ _ _ _ _ _ _ _ Hi c) as Hc. rewrite (TsStateFor_Some _ _ _ Ec) in Hc.
    destruct (paired V n _ _ (tc_chunks _ _ _ _ _ Hc)) as (P1 & P2 & P3).
    destruct (TsScan_docs c start limit e V n st (zip (chunks st) (G c)) Hs ltac:(lia) Ec (eq_sym P1) P3) as (b & E & Hb). exists b. rewrite E, P2. done.
  - rewrite (ts_empty_coll c _ _ _ _ _ _ _ _ Hi Ec). exists (ts_store e). unfold TsScan. rewrite Ec. split; [|done]. assert (Hself : ts_set_store (ts_store e) e = e) by (by destruct e). rewrite Hself. by destruct limit.
Qed.

(** The points of a collection in a range. *)
Definition range_rows m c (series : bytes) (from_ms to_ms : Z) (limit : nat) : list EngineRow :=
  let found := filter (fun r => in_window series from_ms to_ms r = true) (rows_of m c) in if (limit =? 0)%nat then found else take limit found.

Lemma RangeQuery_ok c series from_ms to_ms limit e V n G W B h m :
  ts_inv e V n G W B h m -> ts_room W B ->
  exists b rows, RangeQuery c series from_ms to_ms limit e = Some (rows, ts_set_store b e) /\ store_ok b V n /\ (c ∉ th_again h -> rows = range_rows m c series from_ms to_ms limit).
Proof.
  intros Hi [HW HB]. pose proof (ti_store _ _ _ _ _ _ _ _ Hi) as Hs. pose proof (ti_pages _ _ _ _ _ _ _ _ Hi). pose proof (ts_open_volume_nonneg e).
  unfold range_rows. destruct (ts_collections e !! c) as [st|] eqn:Ec.
  - rewrite <- (ts_rows_of c _ _ _ _ _ _ _ _ Hi). pose proof (ti_coll _ _ _ _ _ _ _ _ Hi c) as Hc. pose proof (ti_once _ _ _ _ _ _ _ _ Hi c) as Ho.
    rewrite (TsStateFor_Some _ _ _ Ec) in *. destruct (paired V n _ _ (tc_chunks _ _ _ _ _ Hc)) as (P1 & P2 & P3).
    destruct (RangeQuery_docs c series from_ms to_ms limit e V n st (zip (chunks st) (G c)) Hs ltac:(lia) Ec (eq_sym P1) P3) as (b & rows & E & Hb & Hr). exists b, rows. split; [done|]. split; [done|].
    intros Ht. rewrite P2 in Hr. apply Hr. unfold all_rows. rewrite P2. exact (Ho Ht).
  - rewrite (ts_empty_coll c _ _ _ _ _ _ _ _ Hi Ec). exists (ts_store e), []. unfold RangeQuery. rewrite Ec. assert (Hself : ts_set_store (ts_store e) e = e) by (by destruct e). rewrite Hself. split; [done|]. split; [done|]. by destruct limit.
Qed.

(** ** Sealing *)
Lemma min_le_times l z : fold_left Z.min l z <= z /\ Forall (fun x => fold_left Z.min l z <= x) l.
Proof.
  revert z. induction l as [|x l IH]; intros z; [split; [done|constructor]|]. cbn [fold_left]. destruct (IH (Z.min z x)) as [H1 H2]. split; [lia|]. constructor; [lia|done].
Qed.

Lemma times_le_max l z : z <= fold_left Z.max l z /\ Forall (fun x => x <= fold_left Z.max l z) l.
Proof.
  revert z. induction l as [|x l IH]; intros z; [split; [done|constructor]|]. cbn [fold_left]. destruct (IH (Z.max z x)) as [H1 H2]. split; [lia|]. constructor; [lia|done].
Qed.

Lemma time_bounds (rows : list EngineRow) lo hi : let times := map (fun r => ExtractTimestampMs r.2) rows in
  Forall (fun r => fold_left Z.min times lo <= ExtractTimestampMs r.2 <= fold_left Z.max times hi) rows.
Proof.
  intros times. destruct (min_le_times times lo) as [_ H1], (times_le_max times hi) as [_ H2]. unfold times in *. rewrite Forall_map in H1, H2.
  rewrite Forall_forall in *. intros r Hr. split; [by apply H1|by apply H2].
Qed.

Lemma max_attained l z : fold_left Z.max l z = z \/ fold_left Z.max l z ∈ l.
Proof.
  revert z. induction l as [|x l IH]; intros z; [by left|]. cbn [fold_left]. destruct (IH (Z.max z x)) as [->|H]; [|right; by right].
  destruct (Z.max_spec z x) as [[_ ->]|[_ ->]]; [right; left|by left].
Qed.

(** The latest time of a chunk is that of one of its points. *)
Lemma latest_row (rows : list EngineRow) : rows <> [] -> Forall (fun r => point_ok r = true) rows ->
  let times := map (fun r => ExtractTimestampMs r.2) rows in exists r, r ∈ rows /\ fold_left Z.max times (- 2 ^ 63) <= ExtractTimestampMs r.2.
Proof.
  intros Hne Hp times. destruct (max_attained times (- 2 ^ 63)) as [E|Hin].
  - destruct rows as [|r rows]; [done|]. exists r. split; [left|]. apply Forall_cons in Hp as [Hp _]. unfold point_ok in Hp. apply andb_true_iff in Hp as [[_ Hp%Z.leb_le]%andb_true_iff _]. unfold kTsChunkMillis in Hp. lia.
  - apply list_elem_of_In, in_map_iff in Hin as (r & E & Hr). exists r. split; [by apply list_elem_of_In|lia].
Qed.

Definition unlimited_ts e : bool := quota_bytes_ (ts_quota e) =? 0.

Lemma TsSealLocked_ok c st e V n G W B h m :
  ts_inv e V n G W B h m -> ts_room W B -> ts_collections e !! c = Some st ->
  exists r e' V' n' G', TsSealLocked c st e = Some (r, e') /\ ts_inv e' V' n' G' W B h m /\ (r = OK tt \/ r = Fault kIOError)
    /\ (forall c', c' <> c -> ts_collections e' !! c' = ts_collections e !! c') /\ unlimited_ts e' = unlimited_ts e
    /\ ts_open_rows (TsStateFor c e') = ∅ /\ open_active (TsStateFor c e') = false.
Proof.
  intros Hi [HW HB] Hst. pose proof (TsStateFor_Some _ _ _ Hst) as HS. pose proof (ti_coll _ _ _ _ _ _ _ _ Hi c) as Hc. pose proof (ti_once _ _ _ _ _ _ _ _ Hi c) as Hon. pose proof (ti_sealed _ _ _ _ _ _ _ _ Hi) as Hse.
  pose proof (ti_docs _ _ _ _ _ _ _ _ Hi c) as Hd. pose proof (ti_pages _ _ _ _ _ _ _ _ Hi) as Hp. rewrite HS in *. unfold TsSealLocked. case_bool_decide as Ho.
  { eexists (OK tt), _, V, n, _. split; [done|]. split; [|split; [by left|split; [|split; [done|]]]].
    - destruct Hc as [C1 C2 C3 C4 C5 C6]. eapply (ts_inv_coll e V n G W B h m c _ (G c)); [done|apply Hi|done|done|lia|lia| | | |done| |].
      + split; cbn [chunks ts_open_rows key_to_chunk]; rewrite <- ?Ho; done.
      + intros c' k. case_decide as E; [|done]. subst c'. rewrite Hd. unfold ts_doc. cbn [ts_open_rows]. by rewrite Ho.
      + unfold ts_open_volume in *. cbn. rewrite msum_update, Hst. cbn beta. cbn [ts_open_rows]. rewrite Ho. lia.
      + intros Ht. specialize (Hon Ht). unfold ts_all in *. cbn [ts_open_rows]. by rewrite Ho in Hon.
      + intros c' k Hin. by case_decide.
    - intros c' Hne. cbn. by rewrite lookup_insert_ne.
    - unfold TsStateFor. cbn. by rewrite lookup_insert_eq. }
  pose proof (ts_open_volume_coll e c) as Hov. rewrite HS in Hov. set (rows := in_order (ts_open_rows st)) in *.
  assert (Hne : rows <> []) by (unfold rows; by rewrite in_order_nil). pose proof (volume_pos rows Hne) as Hv32.
  assert (Hvol : volume rows = map_volume (ts_open_rows st)) by apply in_order_volume. pose proof (levels_volume_nonneg (G c)) as HL0. pose proof (tc_volume _ _ _ _ _ Hc) as HvW.
  destruct (EncodeChunk_total rows (tc_points _ _ _ _ _ Hc) ltac:(lia)) as (r & blob & Hr & Hf & Eb & Hsz). rewrite Eb. cbn [mbind option_bind].
  pose proof (chunk_pages blob (volume rows) Hsz Hv32) as Hch.
  destruct (store_append (ts_store e) V n blob (ti_store _ _ _ _ _ _ _ _ Hi) ltac:(lia)) as (first & b & V' & n' & E & Hs & Hn' & HV & Hb).
  rewrite E. set (meta := mkChunkMeta _ _ _ _ _ _ _ _). set (st' := mkTsColl (meta :: _) _ _ _ _). set (e1 := ts_charge_disk _).
  assert (Hov1 : ts_open_volume e1 = ts_open_volume e - map_volume (ts_open_rows st)).
  { unfold ts_open_volume, e1. cbn. rewrite msum_update, Hst. cbn beta iota. cbn [ts_open_rows st']. change (map_volume ∅) with 0. lia. }
  assert (Hseal : sealed_ok V' n' meta rows).
  { split; [|done|apply in_order_NoDup|done|apply Hc|apply latest_row; [done|apply Hc]]. split; [by exists r, blob|]. apply time_bounds. }
  assert (Hi1 : ts_inv e1 V' n' (fun c' => if decide (c' = c) then rows :: G c else G c') W B h m).
  { destruct Hc as [C1 C2 C3 C4 C5 C6]. apply (ts_inv_coll e V n G W B h m c st' (rows :: G c) e1 V' n' W B h m); try done; try lia.
    - split; cbn [chunks ts_open_rows key_to_chunk st'].
      + constructor; [done|]. eapply Forall2_impl; [exact C1|]. intros m' rs. apply sealed_frame; [done|lia].
      + intros k. by apply level_of_cons.
      + change (map_volume ∅) with 0. cbn [levels_volume foldr]. fold (levels_volume (G c)). lia.
      + constructor.
      + constructor.
      + done.
    - intros c' k. case_decide as Ec; [|done]. subst c'. rewrite Hd. unfold ts_doc. cbn [ts_open_rows st' newest]. rewrite lookup_empty. unfold rows. by rewrite in_order_assoc.
    - intros c' k Hin. by case_decide. }
  destruct (ts_save_same e1) as [S1 S2]. pose proof (ts_save_status e1) as Hst1. pose proof (ts_inv_save _ _ _ _ _ _ _ _ Hi1) as Hi2.
  destruct (TsSaveManifest e1) as [res e2]. cbn [fst snd] in *. eexists res, e2, V', n', _. split; [done|]. split; [exact Hi2|]. split; [done|].
  split; [intros c' Hne'; rewrite S1; cbn; by rewrite lookup_insert_ne|]. split; [unfold unlimited_ts; by rewrite S2|]. unfold TsStateFor. rewrite S1. cbn. by rewrite lookup_insert_eq.
Qed.

(** ** Put *)
Lemma fresh_key st L k : Forall (fun rows => NoDup rows.*1) L -> ts_doc st L k = None -> k ∉ (ts_all st L).*1.
Proof.
  intros HL Hd. unfold ts_doc, ts_all in *. destruct (ts_open_rows st !! k) eqn:Eo; [done|]. rewrite fmap_app, elem_of_app. rewrite newest_concat in Hd.
  rewrite <- in_order_assoc in Eo. apply assoc_None in Eo, Hd. tauto.
Qed.

Lemma in_order_insert (om : gmap bytes bytes) k d : om !! k = None -> in_order (<[k := d]> om) ≡ₚ (k, d) :: in_order om.
Proof. intros H. unfold in_order. rewrite !std_sort_perm. by apply map_to_list_insert. Qed.

Lemma in_order_forall (P : EngineRow -> Prop) (om : gmap bytes bytes) k d : Forall P (in_order om) -> P (k, d) -> Forall P (in_order (<[k := d]> om)).
Proof.
  rewrite !Forall_forall. intros H Hk [k' d'] Hin. rewrite in_order_elem in Hin. cbn [fst snd] in Hin. apply lookup_insert_Some in Hin as [[<- <-]|[_ Hin]]; [done|]. apply H. by rewrite in_order_elem.
Qed.

Lemma ts_open_put c k d e V n G W B h m e1 st1 :
  ts_inv e V n G W B h m -> ts_collections e1 = <[c := st1]> (ts_collections e) -> ts_store e1 = ts_store e -> point_ok (k, d) = true ->
  chunks st1 = chunks (TsStateFor c e) -> key_to_chunk st1 = key_to_chunk (TsStateFor c e) -> ts_open_rows st1 = <[k := d]> (ts_open_rows (TsStateFor c e)) ->
  Forall (fun r => AlignDown (ExtractTimestampMs r.2) kTsChunkMillis = Some (open_chunk_start_ms st1)) (in_order (ts_open_rows st1)) -> open_active st1 = true ->
  ts_inv e1 V n (fun c' => if decide (c' = c) then G c else G c') (W + RecordCost k d) (B + RecordCost k d) (put_history c k m h) (<[(c, k) := d]> m).
Proof.
  intros Hi Hcoll Hst Hpt H1 H2 H3 H4 H5. pose proof (ti_coll _ _ _ _ _ _ _ _ Hi c) as Hc. pose proof (ts_levels_nodup _ _ _ _ _ Hc) as Hnd. destruct Hc as [C1 C2 C3 C4 C5 C6]. pose proof (RecordCost_nonneg k d) as Hr.
  pose proof (map_volume_insert (ts_open_rows (TsStateFor c e)) k d) as Hv. pose proof (ti_pages _ _ _ _ _ _ _ _ Hi) as Hp.
  assert (Hov : ts_open_volume e1 <= ts_open_volume e + RecordCost k d).
  { unfold ts_open_volume. rewrite Hcoll, msum_update. cbn beta. rewrite H3. destruct (ts_collections e !! c) as [st|] eqn:Ec; [rewrite (TsStateFor_Some _ _ _ Ec) in *; lia|].
    rewrite (TsStateFor_None _ _ Ec) in *. change (map_volume (ts_open_rows new_ts)) with 0 in Hv. lia. }
  apply (ts_inv_coll e V n G W B h m c st1 (G c) e1 V n); try done; try lia; [by rewrite Hst; apply Hi| | | | |].
  - split; [by rewrite H1|by rewrite H2|rewrite H3; lia| |done|by rewrite H5]. rewrite H3. by apply in_order_forall.
  - intros c' k'. case_decide as Ec.
    + subst c'. unfold ts_doc. rewrite H3. destruct (decide (k' = k)) as [->|Hk]; [by rewrite !lookup_insert_eq|].
      rewrite lookup_insert_ne by congruence. rewrite lookup_insert_ne by done. apply (ti_docs _ _ _ _ _ _ _ _ Hi).
    + by rewrite lookup_insert_ne by congruence.
  - unfold put_history. destruct (m !! (c, k)); cbn; set_solver.
  - unfold put_history. destruct (m !! (c, k)) eqn:Hm; cbn [th_again]; intros Ho; [set_solver|]. rewrite (ti_docs _ _ _ _ _ _ _ _ Hi) in Hm. pose proof (fresh_key _ _ _ Hnd Hm) as Hf.
    pose proof (ti_once _ _ _ _ _ _ _ _ Hi c Ho) as Hn. unfold ts_all in *. rewrite H3. rewrite in_order_insert; [|unfold ts_doc in Hm; by destruct (ts_open_rows _ !! k)]. cbn. by constructor.
  - intros c' k' Hin. cbn [put_history th_sealed] in Hin. apply elem_of_difference in Hin as [Hin Hn]. case_decide as Ec; [|done]. subst c'. rewrite H3. rewrite lookup_insert_ne by (intros ->; set_solver).
    by apply (ti_sealed _ _ _ _ _ _ _ _ Hi).
Qed.
End Invariant.
