(* ===== verification/TsRuns.v ===== *)
(** * Runs of the time-series engine

    Puts, retention, verification and flushes, then any sequence of operations on a new
    engine against a map of points. *)
From Stdlib Require Import SpecFloat.
From S2P Require Import Prelude Bytes Hlc Json JsonText Crdt CrdtMerge CrdtCodec AtRest AtRestFiles DiskManager BufferPool BufferPoolProps BPlusTree Pins SegmentStore Catalog Backend KvBackend KvProps ColumnarCodec Columnar Lsm ColumnarProps ColumnarRefine Peer TsRollup TsProps TsRefine.
Local Open Scope Z_scope.

Section Operations.
Context `{C : Crypto} `{!CryptoLaws C} `{K : DiskKey}.
Implicit Types (L : levels) (metas : list TsChunkMeta) (c k d : bytes) (st : TsCollection) (b : BufferPool) (e : TsRollupBackend) (V : Z -> bytes) (G : bytes -> levels) (m : docs) (W B n : Z) (h : ts_history).

(** ** Put *)

(** What is left of the points and of the history after a put. *)
Definition put_outcome (unlimited : bool) c k d (res : StatusOr unit) m h m' h' : Prop :=
  let stored := m' = <[(c, k) := d]> m /\ h' = put_history c k m h in
  let kept := m' = m /\ h' = h in
  (res = OK tt /\ stored) \/ (res = Fault kOutOfSpace /\ kept /\ unlimited = false) \/ (res = Fault kIOError /\ (stored \/ kept)).

Lemma store_point c k d e V n G W B h m start :
  ts_inv e V n G W B h m -> point_ok (k, d) = true -> AlignDown (ExtractTimestampMs d) kTsChunkMillis = Some start ->
  (open_active (TsStateFor c e) = true -> open_chunk_start_ms (TsStateFor c e) = start) ->
  let st := TsStateFor c e in
  let st3 := mkTsColl (chunks st) (<[k := d]> (ts_open_rows st)) start true (key_to_chunk st) in
  ts_room (W + RecordCost k d) (B + RecordCost k d) ->
  exists res e' V' n' G', (if kTsMaxOpenRows <=? Z.of_nat (size (ts_open_rows st3)) then TsSealLocked c st3 (ts_set_coll c st3 e) else Some (OK tt, ts_set_coll c st3 e)) = Some (res, e')
    /\ ts_inv e' V' n' G' (W + RecordCost k d) (B + RecordCost k d) (put_history c k m h) (<[(c, k) := d]> m)
    /\ (res = OK tt \/ res = Fault kIOError) /\ unlimited_ts e' = unlimited_ts e.
Proof.
  intros Hi Hp Ha Hs st st3 Hroom. assert (Hal : Forall (fun r => AlignDown (ExtractTimestampMs r.2) kTsChunkMillis = Some start) (in_order (ts_open_rows st3))).
  { apply in_order_forall; [|done]. pose proof (ti_coll _ _ _ _ _ _ _ _ Hi c) as [_ _ _ _ Hh Hid]. fold st in Hh, Hid, Hs. destruct (open_active st); [by rewrite <- Hs|]. rewrite Hid by done. constructor. }
  pose proof (ts_open_put c k d e V n G W B h m (ts_set_coll c st3 e) st3 Hi eq_refl eq_refl Hp eq_refl eq_refl eq_refl Hal eq_refl) as Hi3. destruct (_ <=? _).
  - destruct (TsSealLocked_ok c st3 _ _ _ _ _ _ _ _ Hi3 Hroom) as (r & e' & V' & n' & G' & E & Hi' & Hr & _ & U & _); [cbn; apply lookup_insert_eq|]. by exists r, e', V', n', G'.
  - eexists (OK tt), _, V, n, _. split; [done|]. split; [exact Hi3|]. auto.
Qed.

Lemma TsPut_ok merge c k d e V n G W B h m :
  ts_inv e V n G W B h m -> point_ok (k, d) = true -> let cost := RecordCost k d in ts_room (W + cost) (B + cost) ->
  exists res e' V' n' G' h' m', TsPut merge c k d e = Some (res, e') /\ ts_inv e' V' n' G' (W + cost) (B + cost) h' m'
    /\ put_outcome (unlimited_ts e) c k d res m h m' h' /\ unlimited_ts e' = unlimited_ts e.
Proof.
  intros Hi Hp cost Hroom. pose proof (RecordCost_nonneg k d) as Hr. fold cost in Hr. assert (Hroom0 : ts_room W B) by (destruct Hroom; split; lia).
  destruct (TsGet_ok c k e V n G W B h m Hi Hroom0) as (b & Eg & Hb). pose proof (ts_inv_store _ _ _ _ _ _ _ _ _ Hi Hb) as Hi0.
  unfold TsPut. rewrite Eg. cbn [mbind option_bind]. set (old := match _ with OK x => RecordCost k x | Fault _ => 0 end). set (e0 := ts_set_store b e) in *.
  destruct (Charge merge old (RecordCost k d) (ts_quota e0)) as [[[]|x] q] eqn:Ech.
  2:{ assert (Hx : x = kOutOfSpace /\ unlimited_ts e = false).
      { unfold Charge, charge_next, unlimited_ts in *. change (ts_quota e0) with (ts_quota e) in Ech. destruct (_ <=? _); [done|]. destruct (_ =? 0); [done|]. destruct (_ <? _); [|done]. by simplify_eq. }
      destruct Hx as [-> Hu]. exists (Fault kOutOfSpace), e0, V, n, G, h, m. split; [done|]. split; [eapply ts_inv_grow; [exact Hi0|lia|lia]|]. split; [|done]. right. left. done. }
  assert (Hq : quota_bytes_ q = quota_bytes_ (ts_quota e)) by (unfold Charge in Ech; destruct (charge_next _ _ _ _ _); by simplify_eq).
  unfold point_ok in Hp. pose proof Hp as Hp'. cbn [fst snd] in Hp'. apply andb_true_iff in Hp' as [[_ Ht1%Z.leb_le]%andb_true_iff Ht2%Z.ltb_lt].
  destruct (AlignDown_ok (ExtractTimestampMs d) kTsChunkMillis) as (t & Et & _); [done|lia|]. rewrite Et. cbn [mbind option_bind]. cbv zeta.
  set (e1 := ts_set_quota q e0). pose proof (ts_inv_quota _ _ _ _ _ _ _ _ q Hi0) as Hi1. fold e1 in Hi1. change (TsStateFor c e1) with (TsStateFor c e).
  assert (Hu1 : unlimited_ts e1 = unlimited_ts e) by (unfold unlimited_ts; cbn; by rewrite Hq). set (st := TsStateFor c e).
  destruct (open_active st && _) eqn:Eact.
  - apply andb_true_iff in Eact as [Ea _]. assert (Ec : ts_collections e1 !! c = Some st).
    { unfold st, TsStateFor in *. change (ts_collections e1) with (ts_collections e). destruct (ts_collections e !! c); [done|]. done. }
    assert (Hsame : ts_set_coll c st e1 = e1) by (unfold ts_set_coll; rewrite insert_id by done; done). rewrite Hsame.
    destruct (TsSealLocked_ok c st e1 V n G W B h m Hi1 Hroom0 Ec) as (r & e2 & V2 & n2 & G2 & -> & Hi2 & Hr2 & _ & U2 & _ & Hact). cbn [mbind option_bind].
    destruct r as [[]|x].
    2:{ exists (Fault x), e2, V2, n2, G2, h, m. split; [done|]. split; [eapply ts_inv_grow; [exact Hi2|lia|lia]|]. split; [|congruence]. right. right. destruct Hr2 as [|[= ->]]; [done|]. auto. }
    rewrite Hact. destruct (store_point c k d e2 V2 n2 G2 W B h m t Hi2 Hp Et ltac:(by rewrite Hact) Hroom) as (res & e3 & V3 & n3 & G3 & E & Hi3 & Hr3 & U3).
    exists res, e3, V3, n3, G3, (put_history c k m h), (<[(c, k) := d]> m). split; [exact E|]. split; [exact Hi3|]. split; [|congruence]. unfold put_outcome. cbv zeta. destruct Hr3 as [->| ->]; tauto.
  - cbn [mbind option_bind]. set (e2 := ts_set_coll c st e1).
    assert (Hst2 : TsStateFor c e2 = st) by (unfold TsStateFor; cbn; by rewrite lookup_insert_eq). rewrite Hst2.
    set (start := if open_active st then open_chunk_start_ms st else t).
    assert (Hstart : start = t).
    { unfold start. destruct (open_active st) eqn:Ea; [|done]. cbn [andb] in Eact. apply negb_false_iff, Z.eqb_eq in Eact. done. }
    rewrite Hstart in *. destruct (store_point c k d e1 V n G W B h m t Hi1 Hp Et) as (res & e3 & V3 & n3 & G3 & E & Hi3 & Hr3 & U3); [|done|].
    { change (TsStateFor c e1) with st. intros Ha. unfold start in Hstart. by rewrite Ha in Hstart. }
    change (TsStateFor c e1) with st in E.
    assert (Hset : forall st3, ts_set_coll c st3 e2 = ts_set_coll c st3 e1) by (intros st3; unfold e2, ts_set_coll; cbn; by rewrite insert_insert_eq). rewrite Hset.
    exists res, e3, V3, n3, G3, (put_history c k m h), (<[(c, k) := d]> m). split; [exact E|]. split; [exact Hi3|]. split; [|congruence]. unfold put_outcome. cbv zeta. destruct Hr3 as [->| ->]; tauto.
Qed.

(** ** Verification *)
Lemma ts_verify_chunks_ok b V n metas L :
  store_ok b V n -> n <= 2 ^ 31 -> Forall2 (sealed_ok V n) metas L ->
  exists b', (forall rest, ts_verify_chunks (metas ++ rest) b = ts_verify_chunks rest b') /\ store_ok b' V n.
Proof.
  intros Hs Hn HF. revert b Hs. induction HF as [|meta rows metas L [[(r & blob & Hr & Hf & He & Hb) _] _ _ Hcnt _ _] _ IH]; intros b Hs; [by exists b|].
  destruct (store_verify b V n _ _ Hs Hn Hb) as (b1 & E1 & Hs1). destruct (store_read b1 V n _ _ Hs1 Hn Hb) as (b2 & E2 & Hs2).
  destruct (IH b2 Hs2) as (b3 & E3 & Hs3). exists b3. split; [|done]. intros rest. cbn [app ts_verify_chunks]. rewrite E1, E2.
  destruct (chunk_split rows r Hr Hf) as (blob' & He' & Hsp). rewrite He in He'. injection He' as <-. rewrite Hsp. destruct Hf as [[F1 F2] _ F4]. destruct (DecodeRollups_total r F4) as (r' & ->).
  rewrite segment_keys_read by done. unfold Zlen at 1. rewrite length_fmap, Hcnt. unfold Zlen. rewrite Z.eqb_refl. cbn [negb]. apply E3.
Qed.

Lemma TsVerify_ok e V n G W B h m :
  ts_inv e V n G W B h m -> ts_room W B -> exists b, TsVerify e = (OK tt, ts_set_store b e) /\ store_ok b V n.
Proof.
  intros Hi [HW HB]. pose proof (ti_pages _ _ _ _ _ _ _ _ Hi). pose proof (ts_open_volume_nonneg e). unfold TsVerify.
  assert (Hgo : forall l b, (forall c st, (c, st) ∈ l -> ts_collections e !! c = Some st) -> store_ok b V n ->
            exists b', ts_verify_chunks (concat (map (fun x => chunks x.2) l)) b = (OK tt, b') /\ store_ok b' V n).
  { induction l as [|[c st] l IH]; intros b Hl Hs; [by exists b|]. cbn [map concat snd]. assert (Hst : ts_collections e !! c = Some st) by (apply Hl; left).
    pose proof (ti_coll _ _ _ _ _ _ _ _ Hi c) as Hc. rewrite (TsStateFor_Some _ _ _ Hst) in Hc.
    destruct (ts_verify_chunks_ok b V n (chunks st) (G c) Hs ltac:(lia) (tc_chunks _ _ _ _ _ Hc)) as (b1 & E & Hs1).
    rewrite E. apply IH; [|done]. intros c' st' Hin. apply Hl. by right. }
  destruct (Hgo (map_to_list (ts_collections e)) (ts_store e)) as (b & -> & Hb); [intros c st; by rewrite elem_of_map_to_list|apply Hi|]. by exists b.
Qed.

(** The history after an operation that changes it only when it succeeds. *)
Definition if_ok (r : StatusOr unit) (f : ts_history -> ts_history) (h : ts_history) : ts_history := match r with OK _ => f h | Fault _ => h end.

(** ** Flush *)
Lemma ts_seal_all_ok l e V n G W B h m :
  ts_inv e V n G W B h m -> ts_room W B -> NoDup l.*1 -> (forall c st, (c, st) ∈ l -> ts_collections e !! c = Some st) ->
  exists r e' V' n' G', ts_seal_all l e = Some (r, e') /\ ts_inv e' V' n' G' W B h m /\ (r = OK tt \/ r = Fault kIOError) /\ unlimited_ts e' = unlimited_ts e
    /\ (r = OK tt -> forall c, (c ∉ l.*1 -> ts_collections e' !! c = ts_collections e !! c) /\ (c ∈ l.*1 -> ts_open_rows (TsStateFor c e') = ∅)).
Proof.
  intros Hi Hroom. revert e V n G Hi. induction l as [|[c st] l IH]; intros e V n G Hi Hnd Hl.
  { exists (OK tt), e, V, n, G. split; [done|]. split; [done|]. split; [by left|]. split; [done|]. intros _ c. split; [done|]. cbn. by intros ?%elem_of_nil. }
  cbn in Hnd. apply NoDup_cons in Hnd as [Hni Hnd]. cbn [ts_seal_all].
  destruct (TsSealLocked_ok c st e V n G W B h m Hi Hroom ltac:(apply Hl; left)) as (r & e1 & V1 & n1 & G1 & -> & Hi1 & Hr & Hoth & U & Hop & _). cbn [mbind option_bind].
  destruct r as [[]|x]; [|by exists (Fault x), e1, V1, n1, G1].
  destruct (IH e1 V1 n1 G1 Hi1 Hnd) as (r & e2 & V2 & n2 & G2 & -> & Hi2 & Hr2 & U2 & Hall).
  { intros c' st' Hin. rewrite Hoth; [apply Hl; by right|]. intros ->. apply Hni. by apply (list_elem_of_fmap_2 fst _ (c, st')). }
  exists r, e2, V2, n2, G2. split; [done|]. split; [done|]. split; [done|]. split; [congruence|]. intros Hok c'. destruct (Hall Hok c') as [A1 A2]. cbn. rewrite not_elem_of_cons, elem_of_cons. split.
  - intros [Hne Hn]. rewrite A1 by done. by apply Hoth.
  - destruct (decide (c' ∈ l.*1)) as [Hin|Hn]; [by intros _; apply A2|]. intros [->|]; [|done]. unfold TsStateFor in *. by rewrite A1.
Qed.

Lemma TsFlush_ok e V n G W B h m :
  ts_inv e V n G W B h m -> ts_room W B ->
  exists r e' V' n' G', TsFlush e = Some (r, e') /\ ts_inv e' V' n' G' W B (if_ok r (seal_history (fun _ => true) m) h) m /\ (r = OK tt \/ r = Fault kIOError) /\ unlimited_ts e' = unlimited_ts e.
Proof.
  intros Hi Hroom. unfold TsFlush.
  destruct (ts_seal_all_ok (map_to_list (ts_collections e)) e V n G W B h m Hi Hroom) as (r & e1 & V1 & n1 & G1 & -> & Hi1 & Hr & U & Hall);
    [apply NoDup_fst_map_to_list|intros c st; by rewrite elem_of_map_to_list|]. cbn [mbind option_bind].
  destruct r as [[]|x]; [|by exists (Fault x), e1, V1, n1, G1]. unfold FlushSegments. destruct (store_flush _ _ _ (ti_store _ _ _ _ _ _ _ _ Hi1)) as [Hs _].
  assert (Hopen : forall c, ts_open_rows (TsStateFor c e1) = ∅).
  { intros c. destruct (Hall eq_refl c) as [A1 A2]. destruct (decide (c ∈ (map_to_list (ts_collections e)).*1)) as [Hin|Hn]; [by apply A2|]. rewrite TsStateFor_None; [done|]. rewrite A1 by done.
    destruct (ts_collections e !! c) as [st|] eqn:E; [|done]. destruct Hn. apply (list_elem_of_fmap_2 fst _ (c, st)). by apply elem_of_map_to_list. }
  eexists _, _, V1, n1, G1. split; [done|]. split; [apply ts_inv_store; [|done]; eapply ts_inv_history; [exact Hi1|by unfold if_ok; case_match|intros c k _; by rewrite Hopen]|]. split; [unfold SyncDisk; destruct (ev_sync _); auto|done].
Qed.

(** ** Retention *)
Lemma index_chunks_ok (i : nat) (l : list (TsChunkMeta * list EngineRow)) (idx : gmap bytes nat) b V n :
  store_ok b V n -> n <= 2 ^ 31 -> Forall (fun p => chunk_ok V n p.1 p.2) l ->
  exists idx' b', index_chunks i l.*1 idx b = (OK tt, idx', b') /\ store_ok b' V n
    /\ forall k, idx' !! k = match idx !! k with Some j => Some j | None => (fun j => i + j)%nat <$> level_of l.*2 k end.
Proof.
  intros Hs Hn Hl. revert i idx b Hs. induction Hl as [|[meta rows] l [(r & blob & Hr & Hf & He & Hb) _] _ IH]; intros i idx b Hs.
  { exists idx, b. split; [done|]. split; [done|]. intros k. cbn. by destruct (idx !! k). }
  cbn [fmap list_fmap fst snd index_chunks] in *. destruct (store_read b V n _ _ Hs Hn Hb) as (b1 & -> & Hs1).
  destruct (chunk_split rows r Hr Hf) as (blob' & He' & Hsp). rewrite He in He'. injection He' as <-. rewrite Hsp. destruct Hf as [[F1 F2] _ _]. rewrite segment_keys_read by done.
  destruct (IH (S i) (fold_left (emplace_key i) rows.*1 idx) b1 Hs1) as (idx' & b' & E & Hs' & Hk). exists idx', b'. split; [done|]. split; [done|]. intros k. rewrite Hk, emplace_keys. cbn [level_of].
  destruct (idx !! k); [done|]. destruct (assoc k rows); cbn [fmap option_fmap option_map]; [by rewrite Nat.add_0_r|]. destruct (level_of l.*2 k); cbn; [f_equal; lia|done].
Qed.

Lemma ts_doc_assoc st L k : ts_doc st L k = assoc k (ts_all st L).
Proof. unfold ts_doc, ts_all. unfold EngineRow in *. rewrite assoc_app, newest_concat, in_order_assoc. by destruct (ts_open_rows st !! k). Qed.

(** What a retention may drop, points older than the cutoff, and what it has to drop: an
    older point that is sealed stays only beside a point of the same hour that is not. *)
Definition retained c (cutoff_ms : Z) m m' : Prop :=
  (forall k d, m' !! (c, k) = Some d -> m !! (c, k) = Some d) /\ (forall k d, m !! (c, k) = Some d -> m' !! (c, k) = None -> ExtractTimestampMs d < cutoff_ms).

Definition same_hour d d' : Prop := ExtractTimestampMs d / kTsChunkMillis = ExtractTimestampMs d' / kTsChunkMillis.

Definition swept c (cutoff_ms : Z) (sealed : gset (bytes * bytes)) m' : Prop :=
  forall k d, (c, k) ∈ sealed -> m' !! (c, k) = Some d -> exists k' d', m' !! (c, k') = Some d' /\ cutoff_ms <= ExtractTimestampMs d' /\ same_hour d d'.

Definition prune_outcome c (cutoff_ms : Z) h m m' : Prop :=
  (forall c' k, c' <> c -> m' !! (c', k) = m !! (c', k)) /\ (c ∉ th_again h -> retained c cutoff_ms m m' /\ swept c cutoff_ms (th_sealed h) m').

Definition replace_docs c (mc : gmap bytes bytes) m : docs := kmap (pair c) mc ∪ filter (fun p => p.1.1 <> c) m.

Lemma replace_docs_lookup c (mc : gmap bytes bytes) m c' k : replace_docs c mc m !! (c', k) = if decide (c' = c) then mc !! k else m !! (c', k).
Proof.
  unfold replace_docs. destruct (decide (c' = c)) as [->|Hne].
  - rewrite lookup_union, (lookup_kmap (pair c)). rewrite (map_lookup_filter_None_2 (fun p : (bytes * bytes) * bytes => p.1.1 <> c) m (c, k)) by (right; intros x _ Hx; by apply Hx). by destruct (mc !! k).
  - rewrite lookup_union_r.
    + destruct (m !! (c', k)) eqn:E; [by apply map_lookup_filter_Some_2|]. apply map_lookup_filter_None_2. by left.
    + apply lookup_kmap_None; [apply _|]. intros k' [= -> ->]. done.
Qed.

Lemma paired_ok V n (l : list (TsChunkMeta * list EngineRow)) : Forall (fun p => sealed_ok V n p.1 p.2) l -> Forall2 (sealed_ok V n) l.*1 l.*2.
Proof. induction 1 as [|p l Hp _ IH]; [constructor|]. by constructor. Qed.

Lemma zip_sealed V n metas L : Forall2 (sealed_ok V n) metas L -> Forall (fun p => sealed_ok V n p.1 p.2) (zip metas L).
Proof. induction 1; by constructor. Qed.

Definition too_old (cutoff_ms : Z) (meta : TsChunkMeta) : bool := max_ts_ms meta <? cutoff_ms.

Lemma forall_kept {A} (P Q : A -> Prop) `{!forall x, Decision (P x)} (l : list A) : Forall Q l -> Forall Q (filter P l).
Proof. rewrite !Forall_forall. intros HQ x Hx%list_elem_of_filter. apply HQ, Hx. Qed.

Lemma filter_fst (P : TsChunkMeta -> bool) (l : list (TsChunkMeta * list EngineRow)) : (filter (fun p => P p.1 = false) l).*1 = filter (fun meta => P meta = false) l.*1.
Proof. induction l as [|[meta rows] l IH]; [done|]. cbn [fmap list_fmap]. rewrite !filter_cons. cbn [fst]. repeat case_decide; cbn; by rewrite ?IH. Qed.

Lemma kept_sublist (skip : TsChunkMeta -> bool) (l : list (TsChunkMeta * list EngineRow)) : concat (kept_levels skip l) `sublist_of` concat l.*2.
Proof. induction l as [|[meta rows] l IH]; [done|]. rewrite kept_cons. destruct (skip meta); cbn [fmap list_fmap concat snd]; [by apply sublist_inserts_l|by apply sublist_app]. Qed.

Lemma kept_volume (skip : TsChunkMeta -> bool) (l : list (TsChunkMeta * list EngineRow)) : levels_volume (kept_levels skip l) <= levels_volume l.*2.
Proof.
  induction l as [|[meta rows] l IH]; [done|]. rewrite kept_cons. pose proof (volume_nonneg rows). destruct (skip meta); cbn [fmap list_fmap levels_volume foldr snd]; fold (levels_volume l.*2); [lia|].
  fold (levels_volume (kept_levels skip l)). lia.
Qed.

Lemma dropped_old V n cutoff_ms (l : list (TsChunkMeta * list EngineRow)) k d :
  Forall (fun p => sealed_ok V n p.1 p.2) l -> (k, d) ∈ concat l.*2 -> (k, d) ∈ concat (kept_levels (too_old cutoff_ms) l) \/ ExtractTimestampMs d < cutoff_ms.
Proof.
  induction 1 as [|[meta rows] l Hs _ IH]; [by intros ?%not_elem_of_nil|]. rewrite kept_cons. cbn [fmap list_fmap concat snd]. rewrite elem_of_app. intros [Hin|Hin].
  - destruct (too_old cutoff_ms meta) eqn:E; [right|left; cbn; rewrite elem_of_app; by left]. apply Z.ltb_lt in E. pose proof (ck_bounds _ _ _ _ (sl_chunk _ _ _ _ Hs)) as Hb. cbn [fst snd] in Hb.
    rewrite Forall_forall in Hb. specialize (Hb _ Hin). cbn in Hb. lia.
  - destruct (IH Hin) as [H|H]; [left|by right]. destruct (too_old cutoff_ms meta); [done|]. cbn. rewrite elem_of_app. by right.
Qed.

Lemma all_kept st (l : list (TsChunkMeta * list EngineRow)) skip start active idx :
  ts_all (mkTsColl (filter (fun meta => skip meta = false) l.*1) (ts_open_rows st) start active idx) (kept_levels skip l) `sublist_of` ts_all st l.*2.
Proof. unfold ts_all. apply sublist_app; [done|]. apply kept_sublist. Qed.

Lemma prune_docs V n c cutoff_ms st L m (again : Prop) start active idx :
  Forall2 (sealed_ok V n) (chunks st) L -> (forall k, m !! (c, k) = ts_doc st L k) -> (~ again -> NoDup (ts_all st L).*1) ->
  let l := zip (chunks st) L in
  let st' := mkTsColl (filter (fun meta => too_old cutoff_ms meta = false) (chunks st)) (ts_open_rows st) start active idx in
  let L' := kept_levels (too_old cutoff_ms) l in
  (forall c' k, c' <> c -> replace_docs c (ts_docs st' L') m !! (c', k) = m !! (c', k)) /\ (~ again -> retained c cutoff_ms m (replace_docs c (ts_docs st' L') m)) /\ (~ again -> NoDup (ts_all st' L').*1)
  /\ forall c' k, replace_docs c (ts_docs st' L') m !! (c', k) = if decide (c' = c) then ts_doc st' L' k else m !! (c', k).
Proof.
  intros HF Hm Ho l st' L'. pose proof (zip_sealed V n _ _ HF) as Hz. destruct (paired V n _ _ HF) as (P1 & P2 & _). fold l in Hz, P1, P2.
  assert (HL' : Forall (fun rows => NoDup rows.*1) L').
  { unfold L', kept_levels. rewrite Forall_fmap. apply forall_kept. eapply Forall_impl; [exact Hz|]. intros p Hp. apply Hp. }
  assert (Hlook : forall c' k, replace_docs c (ts_docs st' L') m !! (c', k) = if decide (c' = c) then ts_doc st' L' k else m !! (c', k)).
  { intros c' k. rewrite replace_docs_lookup. case_decide; [|done]. by rewrite ts_docs_lookup. }
  pose proof (all_kept st l (too_old cutoff_ms) start active idx) as Hsub. rewrite P1, P2 in Hsub. fold st' L' in Hsub.
  assert (Hnd : ~ again -> NoDup (ts_all st' L').*1) by (intros Ht; eapply sublist_NoDup; [by apply Ho|]; by apply fmap_sublist).
  split; [intros c' k Hne; rewrite Hlook; by rewrite decide_False|]. split; [|by split]. intros Ht. specialize (Hnd Ht). specialize (Ho Ht).
  split; intros k d; rewrite Hlook, decide_True, Hm, !ts_doc_assoc by done.
  - rewrite !assoc_Some by done. intros Hin. eapply elem_of_submseteq; [exact Hin|by apply sublist_submseteq].
  - rewrite assoc_Some by done. intros Hin Hn%assoc_None. unfold ts_all in Hin, Hn. rewrite elem_of_app in Hin. destruct Hin as [Hin|Hin].
    + destruct Hn. rewrite fmap_app, elem_of_app. left. cbn [ts_open_rows st']. by apply (list_elem_of_fmap_2 fst _ (k, d)).
    + rewrite <- P2 in Hin. destruct (dropped_old V n cutoff_ms l k d Hz Hin) as [Hin'|]; [|done]. destruct Hn. rewrite fmap_app, elem_of_app. right. by apply (list_elem_of_fmap_2 fst _ (k, d)).
Qed.

Lemma aligned_hour d t : AlignDown (ExtractTimestampMs d) kTsChunkMillis = Some t -> ExtractTimestampMs d / kTsChunkMillis = t / kTsChunkMillis.
Proof.
  unfold AlignDown. change (kTsChunkMillis <=? 0) with false. cbv iota zeta. unfold in_int64. destruct (_ && _); [|done]. intros [= <-]. generalize (ExtractTimestampMs d). intros x. clear d.
  pose proof (Z.quot_rem' x kTsChunkMillis) as Hq. pose proof (Z.rem_bound_abs x kTsChunkMillis ltac:(done)) as Hb. change kTsChunkMillis with 3600000 in *. set (r := Z.rem x _) in *. set (q := Z.quot x _) in *. clearbody r q. destruct (Z.ltb_spec r 0).
  - rewrite <- (Z.div_unique x 3600000 (q - 1) (r + 3600000)) by lia. apply (Z.div_unique _ 3600000 (q - 1) 0); lia.
  - rewrite <- (Z.div_unique x 3600000 q r) by lia. apply (Z.div_unique _ 3600000 q 0); lia.
Qed.

(** When no chunk is wholly older than the cutoff, every sealed point lies beside one that
    is not older. *)
Lemma swept_docs V n c (cutoff_ms : Z) st L m (sealed : gset (bytes * bytes)) :
  Forall2 (sealed_ok V n) (chunks st) L -> Forall (fun meta => too_old cutoff_ms meta = false) (chunks st) -> NoDup (ts_all st L).*1 ->
  (forall k, m !! (c, k) = ts_doc st L k) -> (forall k, (c, k) ∈ sealed -> ts_open_rows st !! k = None) -> swept c cutoff_ms sealed m.
Proof.
  intros HF Hyoung Hnd Hm Hse k d Hk%Hse Hd. rewrite Hm, ts_doc_assoc, assoc_Some in Hd by done. unfold ts_all in Hd. rewrite elem_of_app, in_order_elem in Hd. cbn [fst snd] in Hd. rewrite Hk in Hd. destruct Hd as [|Hd]; [done|].
  apply list_elem_of_In, in_concat in Hd as (rows & HL & Hin). apply list_elem_of_In in HL, Hin. apply list_elem_of_lookup in HL as [i Hi].
  destruct (Forall2_lookup_r _ _ _ _ _ HF Hi) as (meta & Hmeta & Hs). destruct (sl_latest _ _ _ _ Hs) as ([k' d'] & Hin' & Hmax). pose proof (Forall_lookup_1 _ _ _ _ Hyoung Hmeta) as Hy.
  apply Z.ltb_ge in Hy. exists k', d'. split; [|split; [cbn in Hmax; lia|]].
  - rewrite Hm, ts_doc_assoc, assoc_Some by done. unfold ts_all. rewrite elem_of_app. right. apply list_elem_of_In, in_concat. exists rows. split; apply list_elem_of_In; [by eapply list_elem_of_lookup_2|done].
  - pose proof (sl_hour _ _ _ _ Hs) as Hh. rewrite Forall_forall in Hh. unfold same_hour. by rewrite (aligned_hour d _ (Hh _ Hin)), (aligned_hour d' _ (Hh _ Hin')).
Qed.

(** A sweep that finds no chunk to drop. *)
Lemma prune_nothing c cutoff_ms e V n G W B h m :
  ts_inv e V n G W B h m -> Forall (fun meta => too_old cutoff_ms meta = false) (chunks (TsStateFor c e)) -> prune_outcome c cutoff_ms h m m.
Proof.
  intros Hi Hy. split; [done|]. intros Ha. split; [split; [done|by intros k d ->]|].
  apply (swept_docs V n c cutoff_ms (TsStateFor c e) (G c)); [apply Hi|done|by apply Hi|apply Hi|apply (ti_sealed _ _ _ _ _ _ _ _ Hi)].
Qed.

Lemma not_dropped (cutoff_ms : Z) metas : filter (fun meta => (max_ts_ms meta <? cutoff_ms) = true) metas = [] -> Forall (fun meta => too_old cutoff_ms meta = false) metas.
Proof.
  intros Hf. apply Forall_forall. intros meta Hin. apply not_true_is_false. intros Ht. assert (Hin' : meta ∈ filter (fun meta => (max_ts_ms meta <? cutoff_ms) = true) metas) by (by apply list_elem_of_filter).
  rewrite Hf in Hin'. by apply elem_of_nil in Hin'.
Qed.

Lemma TsPrune_ok c cutoff_ms e V n G W B h m :
  ts_inv e V n G W B h m -> ts_room W B ->
  exists r e' G' m', TsPrune c cutoff_ms e = (r, e') /\ ts_inv e' V n G' W B h m' /\ prune_outcome c cutoff_ms h m m'
    /\ ((exists dropped, r = OK dropped) \/ r = Fault kIOError) /\ unlimited_ts e' = unlimited_ts e.
Proof.
  intros Hi [HW HB]. pose proof (ti_pages _ _ _ _ _ _ _ _ Hi) as Hp. pose proof (ts_open_volume_nonneg e).
  assert (Hsame : Forall (fun meta => too_old cutoff_ms meta = false) (chunks (TsStateFor c e)) -> exists r e' G' m', (OK 0, e) = (r, e') /\ ts_inv e' V n G' W B h m' /\ prune_outcome c cutoff_ms h m m' /\ ((exists dropped, r = OK dropped) \/ r = Fault kIOError) /\ unlimited_ts e' = unlimited_ts e).
  { intros Hy. exists (OK 0), e, G, m. split; [done|]. split; [done|]. split; [by eapply prune_nothing|]. split; [left; by eexists|done]. }
  unfold TsPrune. destruct (ts_collections e !! c) as [st|] eqn:Ec; [|apply Hsame; rewrite (TsStateFor_None _ _ Ec); constructor].
  case_bool_decide as Hd; [apply Hsame; rewrite (TsStateFor_Some _ _ _ Ec); by apply not_dropped|]. clear Hsame Hd.
  pose proof (ti_coll _ _ _ _ _ _ _ _ Hi c) as Hc. pose proof (ti_once _ _ _ _ _ _ _ _ Hi c) as Ho. pose proof (ti_docs _ _ _ _ _ _ _ _ Hi c) as Hm. pose proof (ti_sealed _ _ _ _ _ _ _ _ Hi) as Hse. pose proof (Hse c) as Hsc.
  rewrite (TsStateFor_Some _ _ _ Ec) in *.
  set (l := zip (chunks st) (G c)). destruct (paired V n _ _ (tc_chunks _ _ _ _ _ Hc)) as (P1 & P2 & P3). fold l in P1, P2, P3. set (l' := filter (fun p => too_old cutoff_ms p.1 = false) l).
  assert (Hl1 : l'.*1 = filter (fun meta => (max_ts_ms meta <? cutoff_ms) = false) (chunks st)) by (unfold l'; rewrite filter_fst, P1; done). rewrite <- Hl1.
  assert (Hl' : Forall (fun p => chunk_ok V n p.1 p.2) l') by (by apply forall_kept).
  destruct (index_chunks_ok 0 l' ∅ (ts_store e) V n (ti_store _ _ _ _ _ _ _ _ Hi) ltac:(lia) Hl') as (idx & b & -> & Hb & Hidx). set (e1 := ts_set_coll c _ _).
  destruct (prune_docs V n c cutoff_ms st (G c) m (c ∈ th_again h) (open_chunk_start_ms st) (open_active st) idx (tc_chunks _ _ _ _ _ Hc) Hm Ho) as (D1 & D1' & D2 & D3).
  change (filter (fun meta => too_old cutoff_ms meta = false) (chunks st)) with (filter (fun meta => (max_ts_ms meta <? cutoff_ms) = false) (chunks st)) in *. rewrite <- Hl1 in *.
  set (st' := mkTsColl l'.*1 _ _ _ _) in *. change (kept_levels (too_old cutoff_ms) (zip (chunks st) (G c))) with l'.*2 in *. set (m' := replace_docs c _ m) in *.
  assert (Hsl' : Forall2 (sealed_ok V n) l'.*1 l'.*2) by (apply paired_ok, forall_kept, zip_sealed, Hc).
  assert (Hout : prune_outcome c cutoff_ms h m m').
  { split; [done|]. intros Ha. split; [by apply D1'|]. apply (swept_docs V n c cutoff_ms st' l'.*2); [exact Hsl'| |by apply D2|intros k; by rewrite D3, decide_True|exact Hsc].
    cbn [chunks st']. rewrite Hl1. apply Forall_forall. intros meta [Hy _]%list_elem_of_filter. exact Hy. }
  assert (Hi1 : ts_inv e1 V n (fun c' => if decide (c' = c) then l'.*2 else G c') W B h m').
  { destruct Hc as [C1 C2 C3 C4 C5 C6]. apply (ts_inv_coll e V n G W B h m c st' l'.*2 e1 V n W B h m'); try done; try lia.
    - split; cbn [chunks ts_open_rows key_to_chunk open_active open_chunk_start_ms st']; [exact Hsl'|intros k; rewrite Hidx, lookup_empty; by destruct (level_of l'.*2 k)| |done..].
      pose proof (kept_volume (too_old cutoff_ms) l) as Hv. change (kept_levels (too_old cutoff_ms) l) with l'.*2 in Hv. rewrite P2 in Hv. lia.
    - unfold ts_open_volume in *. cbn. rewrite msum_update, Ec. cbn beta iota. cbn [ts_open_rows st']. lia.
    - intros c' k Hin. case_decide; [subst; by apply Hsc|done]. }
  destruct (ts_save_same e1) as [_ S2]. pose proof (ts_save_status e1) as Hst1. pose proof (ts_inv_save _ _ _ _ _ _ _ _ Hi1) as Hi2.
  destruct (TsSaveManifest e1) as [[[]|x] e2]; cbn [fst snd] in *.
  - eexists _, e2, _, m'. split; [done|]. split; [exact Hi2|]. split; [done|]. split; [left; by eexists|]. unfold unlimited_ts. by rewrite S2.
  - eexists _, e2, _, m'. split; [done|]. split; [exact Hi2|]. split; [done|]. split; [right; destruct Hst1 as [|[= ->]]; done|]. unfold unlimited_ts. by rewrite S2.
Qed.
End Operations.

(** ** Operations *)
Inductive ts_op :=
  | TPut (merge : bool) (c k d : bytes)
  | TGet (c k : bytes)
  | TScan (c start : bytes) (limit : nat)
  | TRange (c series : bytes) (from_ms to_ms : Z) (limit : nat)
  | TSeal (c : bytes)
  | TPrune (c : bytes) (cutoff_ms : Z)
  | TVerify
  | TFlush.

Inductive ts_answer := TStatus (st : StatusOr unit) | TDoc (d : StatusOr bytes) | TRows (rows : list EngineRow) | TDropped (n : StatusOr Z).

Definition ts_op_ok (o : ts_op) : bool := match o with TPut _ _ k d => point_ok (k, d) | _ => true end.
Definition ts_op_volume (o : ts_op) : Z := match o with TPut _ _ k d => RecordCost k d | _ => 0 end.
Definition ts_volume (ops : list ts_op) : Z := foldr (fun o n => ts_op_volume o + n) 0 ops.

(** The points and their history.  A put stores unless the quota refuses it; an I/O error
    leaves open whether it did.  A seal or a flush that succeeds has sealed the points.  In
    a collection whose keys were written once, a range query is exact, and retention drops
    nothing but points older than the cutoff and keeps an older sealed point only beside
    one of the same hour that is not older. *)
Inductive ts_allows (unlimited : bool) : ts_op -> ts_answer -> docs * ts_history -> docs * ts_history -> Prop :=
  | ts_allow_put merge c k d st (m m' : docs) h h' :
      put_outcome unlimited c k d st m h m' h' -> ts_allows unlimited (TPut merge c k d) (TStatus st) (m, h) (m', h')
  | ts_allow_get c k (m : docs) h :
      ts_allows unlimited (TGet c k) (TDoc (match m !! (c, k) with Some d => OK d | None => Fault kNotFound end)) (m, h) (m, h)
  | ts_allow_scan c start limit (m : docs) h : ts_allows unlimited (TScan c start limit) (TRows (scan_rows m c start limit)) (m, h) (m, h)
  | ts_allow_range c series from_ms to_ms limit rows (m : docs) h :
      (c ∉ th_again h -> rows = range_rows m c series from_ms to_ms limit) -> ts_allows unlimited (TRange c series from_ms to_ms limit) (TRows rows) (m, h) (m, h)
  | ts_allow_seal c st (m : docs) h :
      st = OK tt \/ st = Fault kIOError -> ts_allows unlimited (TSeal c) (TStatus st) (m, h) (m, if_ok st (seal_history (fun c' => bool_decide (c' = c)) m) h)
  | ts_allow_prune c cutoff_ms r (m m' : docs) h :
      prune_outcome c cutoff_ms h m m' -> (exists n, r = OK n) \/ r = Fault kIOError -> ts_allows unlimited (TPrune c cutoff_ms) (TDropped r) (m, h) (m', h)
  | ts_allow_verify (m : docs) h : ts_allows unlimited TVerify (TStatus (OK tt)) (m, h) (m, h)
  | ts_allow_flush st (m : docs) h :
      st = OK tt \/ st = Fault kIOError -> ts_allows unlimited TFlush (TStatus st) (m, h) (m, if_ok st (seal_history (fun _ => true) m) h).

Inductive ts_trace (unlimited : bool) : list ts_op -> list ts_answer -> docs * ts_history -> docs * ts_history -> Prop :=
  | ts_trace_nil s : ts_trace unlimited [] [] s s
  | ts_trace_cons o a ops answers s1 s2 s3 :
      ts_allows unlimited o a s1 s2 -> ts_trace unlimited ops answers s2 s3 -> ts_trace unlimited (o :: ops) (a :: answers) s1 s3.

Section Runs.
Context `{C : Crypto} `{!CryptoLaws C} `{K : DiskKey}.
Implicit Types (e : TsRollupBackend) (V : Z -> bytes) (G : bytes -> levels) (m : docs) (W B n : Z) (h : ts_history).

Definition ts_step (o : ts_op) e : option (ts_answer * TsRollupBackend) :=
  match o with
  | TPut merge c k d => '(st, e') ← TsPut merge c k d e; Some (TStatus st, e')
  | TGet c k => '(d, e') ← TsGet c k e; Some (TDoc d, e')
  | TScan c start limit => '(rows, e') ← TsScan c start limit e; Some (TRows rows, e')
  | TRange c series from_ms to_ms limit => '(rows, e') ← RangeQuery c series from_ms to_ms limit e; Some (TRows rows, e')
  | TSeal c => '(st, e') ← SealOpenChunk c e; Some (TStatus st, e')
  | TPrune c cutoff_ms => let '(r, e') := TsPrune c cutoff_ms e in Some (TDropped r, e')
  | TVerify => let '(st, e') := TsVerify e in Some (TStatus st, e')
  | TFlush => '(st, e') ← TsFlush e; Some (TStatus st, e')
  end.

Fixpoint ts_run (ops : list ts_op) e : option (list ts_answer * TsRollupBackend) :=
  match ops with
  | [] => Some ([], e)
  | o :: rest => '(a, e1) ← ts_step o e; '(answers, e2) ← ts_run rest e1; Some (a :: answers, e2)
  end.

Lemma ts_inv_seal (r : StatusOr unit) c e V n G W B h m :
  ts_inv e V n G W B h m -> ts_open_rows (TsStateFor c e) = ∅ -> ts_inv e V n G W B (if_ok r (seal_history (fun c' => bool_decide (c' = c)) m) h) m.
Proof.
  intros Hi Ho. eapply ts_inv_history; [exact Hi|by unfold if_ok; case_match|]. intros c' k. destruct r; cbn [if_ok seal_history th_sealed]; [|apply (ti_sealed _ _ _ _ _ _ _ _ Hi)].
  rewrite elem_of_union, elem_of_filter. cbn [fst]. rewrite bool_decide_eq_true. intros [[-> _]|Hin]; [by rewrite Ho|by apply (ti_sealed _ _ _ _ _ _ _ _ Hi)].
Qed.

Lemma ts_step_ok o e V n G W B h m :
  ts_inv e V n G W B h m -> ts_op_ok o = true -> ts_room (W + ts_op_volume o) (B + ts_op_volume o) ->
  exists a e' V' n' G' m' h', ts_step o e = Some (a, e') /\ ts_inv e' V' n' G' (W + ts_op_volume o) (B + ts_op_volume o) h' m'
    /\ ts_allows (unlimited_ts e) o a (m, h) (m', h') /\ unlimited_ts e' = unlimited_ts e.
Proof.
  intros Hi Hok Hroom. destruct o as [merge c k d|c k|c start limit|c series from_ms to_ms limit|c|c cutoff_ms| |]; cbn [ts_step ts_op_volume ts_op_ok] in *; rewrite ?Z.add_0_r in *.
  - destruct (TsPut_ok merge c k d e V n G W B h m Hi Hok Hroom) as (res & e' & V' & n' & G' & h' & m' & -> & Hi' & Ho & U). cbn [mbind option_bind].
    exists (TStatus res), e', V', n', G', m', h'. split; [done|]. split; [done|]. split; [by constructor|done].
  - destruct (TsGet_ok c k e V n G W B h m Hi Hroom) as (b & -> & Hb). cbn [mbind option_bind].
    eexists _, _, V, n, G, m, h. split; [done|]. split; [by apply ts_inv_store|]. split; [constructor|done].
  - destruct (TsScan_ok c start limit e V n G W B h m Hi Hroom) as (b & -> & Hb). cbn [mbind option_bind].
    eexists _, _, V, n, G, m, h. split; [done|]. split; [by apply ts_inv_store|]. split; [constructor|done].
  - destruct (RangeQuery_ok c series from_ms to_ms limit e V n G W B h m Hi Hroom) as (b & rows & -> & Hb & Hr). cbn [mbind option_bind].
    eexists _, _, V, n, G, m, h. split; [done|]. split; [by apply ts_inv_store|]. split; [by constructor|done].
  - unfold SealOpenChunk. destruct (ts_collections e !! c) as [st|] eqn:Ec.
    + destruct (TsSealLocked_ok c st e V n G W B h m Hi Hroom Ec) as (r & e' & V' & n' & G' & -> & Hi' & Hr & _ & U & Hop & _). cbn [mbind option_bind].
      eexists _, e', V', n', G', m, _. split; [done|]. split; [eapply ts_inv_seal; [exact Hi'|exact Hop]|]. split; [by constructor|done].
    + eexists _, e, V, n, G, m, _. split; [done|]. split; [eapply (ts_inv_seal (OK tt)); [exact Hi|by rewrite (TsStateFor_None _ _ Ec)]|]. split; [constructor; by left|done].
  - destruct (TsPrune_ok c cutoff_ms e V n G W B h m Hi Hroom) as (r & e' & G' & m' & -> & Hi' & Ho & Hr & U).
    eexists _, e', V, n, G', m', h. split; [done|]. split; [done|]. split; [by constructor|done].
  - destruct (TsVerify_ok e V n G W B h m Hi Hroom) as (b & -> & Hb).
    eexists _, _, V, n, G, m, h. split; [done|]. split; [by apply ts_inv_store|]. split; [constructor|done].
  - destruct (TsFlush_ok e V n G W B h m Hi Hroom) as (r & e' & V' & n' & G' & -> & Hi' & Hr & U). cbn [mbind option_bind].
    eexists _, e', V', n', G', m, _. split; [done|]. split; [exact Hi'|]. split; [by constructor|done].
Qed.

Lemma ts_volume_nonneg ops : 0 <= ts_volume ops.
Proof. induction ops as [|o ops IH]; [done|]. cbn [ts_volume foldr]. fold (ts_volume ops). destruct o; cbn [ts_op_volume]; try lia. pose proof (RecordCost_nonneg k d). lia. Qed.

Lemma ts_run_ok ops e V n G W B h m :
  ts_inv e V n G W B h m -> Forall (fun o => ts_op_ok o = true) ops -> ts_room (W + ts_volume ops) (B + ts_volume ops) ->
  exists answers e' s, ts_run ops e = Some (answers, e') /\ ts_trace (unlimited_ts e) ops answers (m, h) s.
Proof.
  intros Hi Hok. revert e V n G W B h m Hi. induction Hok as [|o ops Ho _ IH]; intros e V n G W B h m Hi Hroom; cbn [ts_run]; [exists [], e, (m, h); split; [done|constructor]|].
  cbn [ts_volume foldr] in Hroom. fold (ts_volume ops) in Hroom. pose proof (ts_volume_nonneg ops). destruct Hroom as [R1 R2].
  destruct (ts_step_ok o e V n G W B h m Hi Ho) as (a & e1 & V1 & n1 & G1 & m1 & h1 & -> & Hi1 & A & U); [split; lia|]. cbn [mbind option_bind].
  destruct (IH e1 V1 n1 G1 _ _ h1 m1 Hi1) as (answers & e2 & s & -> & T); [split; lia|]. cbn [mbind option_bind].
  exists (a :: answers), e2, s. split; [done|]. rewrite U in T. by econstructor.
Qed.
End Runs.

(** ** A new engine *)
Definition no_history : ts_history := mkHistory ∅ ∅.

Section Engine.
Context `{C : Crypto} `{!CryptoLaws C}.

Lemma open_new_ts made env wenv events quota_mb dek e files :
  OpenTs made env wenv events None None None quota_mb dek = Some (OK e, files) -> disk_ok (disk_ (ts_store e)) ->
  ts_inv (K := disk_key (disk_ (ts_store e))) e (view (ts_store e)) 0 (fun _ => []) 0 0 no_history ∅ /\ unlimited_ts e = (u64 (quota_mb * 1024 * 1024) =? 0).
Proof.
  unfold OpenTs, OpenSegments. destruct (bad_dek dek) eqn:Eb; [done|]. destruct made; [|done]. cbn [negb]. destruct (negb _ && negb _); [done|].
  destruct (OpenDisk env wenv None None dek) as [[d|x] fs] eqn:Ed; [|done]. cbv zeta. unfold TsLoadManifest, ReadSealedJsonFile. cbn [ts_dek ts_manifest]. rewrite Eb. cbn. intros [= <- <-] Hd.
  cbn [ts_store] in *. change (disk_ (new_pool 256 d)) with d in *. pose proof (OpenDisk_empty _ _ _ _ _ Ed) as Hn. split; [|done].
  pose proof (new_store_ok d 256 Hd ltac:(lia) ltac:(lia)) as Hs. rewrite Hn in Hs. split; [exact Hs| |done|change (ts_open_volume _) with 0; lia|intros c _; constructor|done].
  intros c. by split; [constructor|..].
Qed.

(** C23: A new engine answers every run of puts, gets, scans, range queries, seals, retention
    sweeps, verifications and flushes as a map of points does, whatever its key and quota
    and whichever writes of the manifest fail.  In a collection no key of which was written
    twice, a range query answers exactly the points in range although it skips chunks, and a
    retention sweep drops no point at or after the cutoff, and of the points already sealed
    keeps an older one only beside a point of the same hour that is not older; nothing is
    said of the range queries and sweeps of a collection with a rewritten key.  Conditions:
    every timestamp can be aligned to its hour in 64 bits and the series name is no longer
    than key and document, at most 512 MiB are put in all, and no page read or write fails. *)
Theorem ts_engine_refines made env wenv events quota_mb dek e files ops :
  OpenTs made env wenv events None None None quota_mb dek = Some (OK e, files) -> disk_ok (disk_ (ts_store e)) ->
  Forall (fun o => ts_op_ok o = true) ops -> ts_volume ops <= 2 ^ 29 ->
  exists answers e' s, ts_run ops e = Some (answers, e') /\ ts_trace (u64 (quota_mb * 1024 * 1024) =? 0) ops answers (∅, no_history) s.
Proof.
  intros Ho Hd Hok Hv. destruct (open_new_ts _ _ _ _ _ _ _ _ Ho Hd) as [Hi <-].
  apply (ts_run_ok (K := disk_key (disk_ (ts_store e))) ops e _ _ _ _ _ _ _ Hi Hok). split; lia.
Qed.
End Engine.
