(* ===== verification/TsSample.v ===== *)
(** * The time-series engine on samples

    Witnesses of the theorems, and what happens to keys that are written again. *)
From Stdlib Require Import SpecFloat.
From S2P Require Import Prelude Bytes Hlc Json JsonText Crdt CrdtMerge CrdtCodec AtRest AtRestFiles DiskManager BufferPool BufferPoolProps BPlusTree Pins SegmentStore Catalog Backend KvBackend KvProps KvRefine ColumnarCodec Columnar Lsm ColumnarProps ColumnarRefine ColumnarRestart Peer TsRollup TsProps TsRefine TsRuns.
Local Open Scope Z_scope.

Definition ts_stamp (ms : Z) : HLCTimestamp := Hlc.mkTs ms 0 (bs "n").

(** A reading [v] at time [t]. *)
Definition reading (t v : Z) : bytes :=
  CrdtCodec.Encode (CObject (ts_stamp t) false [(bs "ts", CInt (ts_stamp t) false t); (bs "value", CInt (ts_stamp t) false v)]).
(** Deleting puts the empty object: every field becomes a tombstone. *)
Definition deletion (t : Z) : bytes :=
  CrdtCodec.Encode (CObject (ts_stamp t) false [(bs "ts", MakeTombstone (ts_stamp t)); (bs "value", MakeTombstone (ts_stamp t))]).

Definition hour (n : Z) : Z := n * kTsChunkMillis.

Definition ts_opened := @OpenTs tagged_crypto true kv_open_env good_env kv_events None None None 0 kv_key.
Definition no_ts : TsRollupBackend := mkTsBackend [] None (new_pool 0 sealed_disk) 1 ∅ (mkQuota 0 0) kv_events 0.
Definition ts_sample : TsRollupBackend := match ts_opened with Some (OK e, _) => e | _ => no_ts end.
Definition ts_files : option bytes * option bytes := match ts_opened with Some (_, fs) => fs | None => (None, None) end.

Lemma ts_opened_ok : ts_opened = Some (OK ts_sample, ts_files).
Proof.
  assert (H : succeeded ts_opened = true) by (vm_compute; done). unfold ts_sample, ts_files. destruct ts_opened as [[[e|x] fs]|]; done.
Qed.

Lemma ts_sample_disk : @disk_ok tagged_crypto (disk_ (ts_store ts_sample)).
Proof.
  split; [by exists 0%nat| |done]. intros _. split; [by vm_compute|]. intros id c. unfold OpenPage.
  change (Zlen (d_subkey _) =? kDekLen) with true. cbn [negb AesGcmOpen tagged_crypto].
  rewrite bool_decide_eq_false_2; [done|]. vm_compute. done.
Qed.

Definition ts_sample_ops : list ts_op :=
  [TPut false (bs "c") (bs "a:1") (reading 5 1); TPut false (bs "c") (bs "a:2") (reading (hour 2) 7); TPut true (bs "c") (bs "b:1") (reading (hour 1) 3);
   TGet (bs "c") (bs "a:1"); TRange (bs "c") (bs "a") 0 (hour 2) 0; TSeal (bs "c"); TScan (bs "c") [] 0; TPrune (bs "c") 1000; TVerify; TFlush; TRange (bs "c") [] 0 (hour 1) 1].

Definition ts_ran (ops : list ts_op) : list ts_answer * TsRollupBackend :=
  match @ts_run tagged_crypto ops ts_sample with Some r => r | None => ([], no_ts) end.

Lemma ts_sample_answers : (ts_ran ts_sample_ops).1 =
  [TStatus (OK tt); TStatus (OK tt); TStatus (OK tt); TDoc (OK (reading 5 1)); TRows [(bs "a:1", reading 5 1); (bs "a:2", reading (hour 2) 7)]; TStatus (OK tt);
   TRows [(bs "a:1", reading 5 1); (bs "a:2", reading (hour 2) 7); (bs "b:1", reading (hour 1) 3)]; TDropped (OK 1); TStatus (OK tt); TStatus (OK tt); TRows [(bs "b:1", reading (hour 1) 3)]].
Proof. vm_compute. reflexivity. Qed.

Lemma ts_engine_refines_witness :
  exists answers e' s, @ts_run tagged_crypto ts_sample_ops ts_sample = Some (answers, e') /\ ts_trace true ts_sample_ops answers (∅, no_history) s.
Proof.
  apply (ts_engine_refines (C := tagged_crypto) true kv_open_env good_env kv_events 0 kv_key ts_sample ts_files);
    [apply ts_opened_ok|apply ts_sample_disk|by repeat (apply Forall_cons; split; [by vm_compute|])|vm_compute; congruence].
Defined.

(** ** Chunks *)
Definition chunk_rows : list EngineRow := [(bs "a:1", reading 5 1); (bs "a:2", reading 70000 7); (bs "a:3", reading 80000 2); (bs "b:1", bs "not a document")].
Definition chunk_rollups : rollups := match ComputeRollups chunk_rows with Some r => r | None => ∅ end.

Definition bucket_okb (b : TsRollupBucket) : bool :=
  (- 2 ^ 63 <=? bucket_start_ms b) && (bucket_start_ms b <? 2 ^ 63) && (0 <=? b_count b) && (b_count b <? 2 ^ 64)
  && float_ok (b_min b) && float_ok (b_max b) && float_ok (b_sum b) && float_ok (b_first b) && float_ok (b_last b).

Lemma bucket_okb_ok b : bucket_okb b = true -> bucket_ok b.
Proof.
  unfold bucket_okb. intros H. repeat (apply andb_true_iff in H as [H ?]). split; [unfold sfits; cbn; lia|unfold fits; lia|]. unfold f64_value. auto.
Qed.

Definition series_okb (e : bytes * list TsRollupBucket) : bool := (Zlen e.1 <? 2 ^ 32) && (Zlen e.2 <? 2 ^ 32) && forallb bucket_okb e.2.

Lemma rollups_okb_ok (r : rollups) : (Z.of_nat (size r) <? 2 ^ 32) = true -> forallb series_okb (map_to_list r) = true -> rollups_ok r.
Proof.
  intros H1%Z.ltb_lt H2. split; [done|]. intros s l Hl. rewrite forallb_forall in H2. assert (Hin : (s, l) ∈ map_to_list r) by (by apply elem_of_map_to_list).
  apply list_elem_of_In, H2 in Hin. unfold series_okb in Hin. cbn [fst snd] in Hin. apply andb_true_iff in Hin as [[Ha%Z.ltb_lt Hb%Z.ltb_lt]%andb_true_iff Hc].
  split; [done|]. split; [done|]. rewrite forallb_forall in Hc. apply Forall_forall. intros b Hb'%list_elem_of_In. by apply bucket_okb_ok, Hc.
Qed.

Lemma chunk_rollups_ok : ComputeRollups chunk_rows = Some chunk_rollups /\ chunk_fits chunk_rows chunk_rollups /\ rollups_ok chunk_rollups.
Proof.
  assert (H : (match ComputeRollups chunk_rows with Some _ => true | None => false end) = true) by (vm_compute; done).
  split; [|split].
  - unfold chunk_rollups. by destruct (ComputeRollups chunk_rows).
  - split; [apply volume_fits|..]; vm_compute; congruence.
  - by apply rollups_okb_ok; vm_compute.
Qed.

Lemma ts_chunk_round_trip_witness :
  exists blob block segment, EncodeChunk chunk_rows = Some blob /\ SplitChunk blob = OK (block, segment)
    /\ DecodeRollups block = OK chunk_rollups /\ DecodeSegment segment = Some (OK chunk_rows) /\ DecodeSegmentKeys segment = OK chunk_rows.*1.
Proof. apply (ts_chunk_round_trip chunk_rows chunk_rollups); apply chunk_rollups_ok. Defined.

Lemma rollups_exact_witness :
  sorted_strict Z.ltb bucket_start_ms (default [] (chunk_rollups !! bs "a"))
  /\ forall b, b ∈ default [] (chunk_rollups !! bs "a") <-> ref_bucket (bucket_start_ms b) (bucket_points (bs "a") (bucket_start_ms b) chunk_rows) = Some b.
Proof. apply (rollups_exact chunk_rows chunk_rollups (bs "a")); [apply chunk_rollups_ok|vm_compute; congruence]. Defined.

(** The first value of a minute is that of the smallest key, here of the later point. *)
Theorem first_follows_keys :
  option_map (fun r : rollups => map (fun b => (b_first b, b_last b)) (default [] (r !! bs "s"))) (ComputeRollups [(bs "s:1", reading 2000 7); (bs "s:2", reading 1000 3)])
  = Some [(f64_of_int 7, f64_of_int 3)].
Proof. vm_compute. reflexivity. Qed.

(** ** Keys written again *)

(** A point whose newer version lies in a chunk outside the range is answered with its
    old version; a deleted point is still answered. *)
Definition moved_ops (newer : bytes) : list ts_op :=
  [TPut false (bs "c") (bs "k") (reading 5 1); TPut false (bs "c") (bs "k") newer; TPut false (bs "c") (bs "z") (reading (hour 4) 0);
   TGet (bs "c") (bs "k"); TRange (bs "c") [] 0 1000 0].

Theorem range_returns_superseded :
  drop 3 (ts_ran (moved_ops (reading (hour 2) 2))).1 = [TDoc (OK (reading (hour 2) 2)); TRows [(bs "k", reading 5 1)]]
  /\ drop 3 (ts_ran (moved_ops (deletion (hour 2)))).1 = [TDoc (OK (deletion (hour 2))); TRows [(bs "k", reading 5 1)]].
Proof. vm_compute. split; reflexivity. Qed.

(** Retention drops the chunk with the newer version, because its point is older in time,
    and the superseded version is back. *)
Theorem prune_resurrects :
  (ts_ran [TPut false (bs "c") (bs "k") (reading (hour 2) 1); TPut false (bs "c") (bs "k") (reading 5 2); TSeal (bs "c"); TGet (bs "c") (bs "k");
           TPrune (bs "c") 1000; TGet (bs "c") (bs "k")]).1
  = [TStatus (OK tt); TStatus (OK tt); TStatus (OK tt); TDoc (OK (reading 5 2)); TDropped (OK 1); TDoc (OK (reading (hour 2) 1))].
Proof. vm_compute. reflexivity. Qed.

(** The aggregates count both versions of a key. *)
Theorem rollups_count_superseded :
  let e := (ts_ran (moved_ops (reading (hour 2) 2))).2 in
  option_map (fun p : rollups * TsRollupBackend => map b_count (default [] (p.1 !! bs "k"))) (@Rollups tagged_crypto (bs "c") (bs "k") 0 (hour 3) (hour 4) e) = Some [2]
  /\ option_map (fun p : list EngineRow * TsRollupBackend => length p.1) (@TsScan tagged_crypto (bs "c") [] 0 e) = Some 2%nat.
Proof. vm_compute. split; reflexivity. Qed.

(** As in the columnar engine, a point of the next hour seals the open chunk and writes a
    manifest that names pages still in the buffer pool: an engine that is cut off before
    the next flush cannot be opened again. *)
Theorem next_hour_unopenable :
  let '(answers, e) := ts_ran [TPut false (bs "c") (bs "a") (reading 5 1); TPut false (bs "c") (bs "b") (reading (hour 1) 2)] in
  answers = [TStatus (OK tt); TStatus (OK tt)]
  /\ fst <$> @OpenTs tagged_crypto true kv_open_env good_env kv_events (Some (d_file (disk_ (ts_store e)))) ts_files.2 (ts_manifest e) 0 kv_key = Some (Fault kCorruption).
Proof. vm_compute. split; reflexivity. Qed.
