(* ===== verification/GraphAdj.v ===== *)
(** * The graph engine: src/storage/engines/graph_adj.cpp

    Documents live in an embedded key-value engine; the edges they declare are kept in
    adjacency maps, with the document that declared each edge, and saved as a snapshot in
    a segment store.  [None] is an exception that escapes the embedded engine, or a walk
    that has run out of fuel, which [GraphWalk] excludes. *)
From S2P Require Import Prelude Bytes Hlc Json JsonText Crdt CrdtMerge CrdtCodec AtRest AtRestFiles DiskManager BufferPool BPlusTree SegmentStore Catalog Backend KvBackend Columnar.
Local Open Scope Z_scope.

Definition kGraphAdjMagic : Z := 0x44534701.
Definition kGraphMaxWalkDepth : nat := 64.

Record GraphEdge := mkEdge { ge_to : bytes; ge_label : bytes; ge_owner : bytes }.

#[export] Instance GraphEdge_eq_dec : EqDecision GraphEdge.
Proof. solve_decision. Defined.

Record ObjectTable := mkTable {
  ot_class_name : bytes;
  ot_columns : list bytes;
  ot_rows : list (list bytes);
  ot_keys : list bytes;
}.

(** ** Derivation from a document *)
Definition ToJsonSafe (encoded_doc : bytes) : JsonValue :=
  match CrdtCodec.Decode encoded_doc with Some doc => ToJson doc | None => JNull end.

(** The text of a field that is a non-empty string. *)
Definition some_text (v : option JsonValue) : option bytes :=
  x ← v; if is_string x && negb (bool_decide (AsString x = [])) then Some (AsString x) else None.

Definition text_or_empty (v : option JsonValue) : bytes :=
  match v with Some x => if is_string x then AsString x else [] | None => [] end.

Definition DeriveParent (encoded_doc : bytes) : bytes := text_or_empty (Find (ToJsonSafe encoded_doc) (bs "parent")).

Fixpoint first_text (json : JsonValue) (names : list bytes) : bytes :=
  match names with
  | [] => []
  | name :: rest => match some_text (Find json name) with Some s => s | None => first_text json rest end
  end.

Definition DeriveClass (encoded_doc : bytes) : bytes := first_text (ToJsonSafe encoded_doc) [bs "_class"; bs "class"; bs "type"].

(** The first of two fields that is present. *)
Definition present (a b : option JsonValue) : option JsonValue := match a with Some _ => a | None => b end.

Definition child_edge (child : JsonValue) : option GraphEdge := to ← some_text (Some child); Some (mkEdge to (bs "child") []).

Definition general_edge (e : JsonValue) : option GraphEdge :=
  match some_text (Some e) with
  | Some to => Some (mkEdge to [] [])
  | None =>
      if negb (is_object e) then None
      else
        to ← match some_text (Find e (bs "to")) with Some to => Some to | None => some_text (Find e (bs "target")) end;
        let label := present (Find e (bs "label")) (present (Find e (bs "rel")) (Find e (bs "relation"))) in
        Some (mkEdge to (text_or_empty label) [])
  end.

(** The elements of an array field, none when it is missing or of another kind. *)
Definition items (v : option JsonValue) : list JsonValue := match v with Some x => AsArray x | None => [] end.

Definition DeriveOutEdges (encoded_doc : bytes) : list GraphEdge :=
  let json := ToJsonSafe encoded_doc in
  if negb (is_object json) then []
  else omap child_edge (items (Find json (bs "children"))) ++ omap general_edge (items (Find json (bs "edges"))).

(** ** Adjacency *)
Record GraphCollection := mkGraph {
  out_edges : gmap bytes (list GraphEdge);
  in_edges : gmap bytes (list GraphEdge);
  class_members : gmap bytes (gset bytes);
  key_class : gmap bytes bytes;
  declared : gmap bytes (list (bytes * bytes));
  snapshot_page_id : Z;
  dirty : bool;
}.

Definition new_graph : GraphCollection := mkGraph ∅ ∅ ∅ ∅ ∅ kInvalidPageId false.

Definition set_edges (o i : gmap bytes (list GraphEdge)) (st : GraphCollection) : GraphCollection :=
  mkGraph o i (class_members st) (key_class st) (declared st) (snapshot_page_id st) (dirty st).
Definition set_classes (ms : gmap bytes (gset bytes)) (kc : gmap bytes bytes) (st : GraphCollection) : GraphCollection :=
  mkGraph (out_edges st) (in_edges st) ms kc (declared st) (snapshot_page_id st) (dirty st).
Definition set_declared (d : gmap bytes (list (bytes * bytes))) (st : GraphCollection) : GraphCollection :=
  mkGraph (out_edges st) (in_edges st) (class_members st) (key_class st) d (snapshot_page_id st) (dirty st).
Definition set_dirty (d : bool) (st : GraphCollection) : GraphCollection :=
  mkGraph (out_edges st) (in_edges st) (class_members st) (key_class st) (declared st) (snapshot_page_id st) d.

(** The edges of [owner] to [to] taken out of a list. *)
Definition without (owner to : bytes) (l : list GraphEdge) : list GraphEdge :=
  filter (fun e => ~ (ge_owner e = owner /\ ge_to e = to)) l.

Definition remove_edge (key : bytes) (st : GraphCollection) (p : bytes * bytes) : GraphCollection :=
  let '(from, to) := p in
  let out' := match out_edges st !! from with Some l => <[from := without key to l]> (out_edges st) | None => out_edges st end in
  let in' := match in_edges st !! to with
             | Some l => let l' := without key from l in if bool_decide (l' = []) then delete to (in_edges st) else <[to := l']> (in_edges st)
             | None => in_edges st
             end in
  set_edges out' in' st.

Definition remove_class (key : bytes) (st : GraphCollection) : GraphCollection :=
  match key_class st !! key with
  | None => st
  | Some cls =>
      let ms := match class_members st !! cls with
                | Some s => let s' := s ∖ {[key]} in if bool_decide (s' = ∅) then delete cls (class_members st) else <[cls := s']> (class_members st)
                | None => class_members st
                end in
      set_classes ms (delete key (key_class st)) st
  end.

Definition UnindexDocumentLocked (key : bytes) (st : GraphCollection) : GraphCollection :=
  let st1 := match declared st !! key with
             | Some pairs => let st' := fold_left (remove_edge key) pairs st in set_declared (delete key (declared st')) st'
             | None => st
             end in
  remove_class key st1.

Definition emplace_node (to : bytes) (o : gmap bytes (list GraphEdge)) : gmap bytes (list GraphEdge) :=
  match o !! to with Some _ => o | None => <[to := []]> o end.

Definition add_edge (key : bytes) (st : GraphCollection) (p : bytes * bytes * bytes) : GraphCollection :=
  let '(from, to, label) := p in
  let mine := default [] (declared st !! key) in
  if bool_decide ((from, to) ∈ mine) then st
  else
    let o := <[from := default [] (out_edges st !! from) ++ [mkEdge to label key]]> (out_edges st) in
    let i := <[to := default [] (in_edges st !! to) ++ [mkEdge from label key]]> (in_edges st) in
    set_declared (<[key := mine ++ [(from, to)]]> (declared st)) (set_edges (emplace_node to o) i st).

(** A document that is an edge itself. *)
Fixpoint first_string (json : JsonValue) (names : list bytes) : bytes :=
  match names with
  | [] => []
  | name :: rest => match Find json name with Some v => if is_string v then AsString v else first_string json rest | None => first_string json rest end
  end.

Definition edge_document (encoded_doc : bytes) : list (bytes * bytes * bytes) :=
  let json := ToJsonSafe encoded_doc in
  let from := text_or_empty (present (Find json (bs "from")) (Find json (bs "source"))) in
  let to := text_or_empty (present (Find json (bs "to")) (Find json (bs "target"))) in
  if is_object json && negb (bool_decide (from = [])) && negb (bool_decide (to = []))
  then [(from, to, first_string json [bs "label"; bs "rel"; bs "relation"; bs "type"])]
  else [].

(** The edges a document asserts, in the order they are added. *)
Definition asserted (key encoded_doc : bytes) : list (bytes * bytes * bytes) :=
  let parent := DeriveParent encoded_doc in
  edge_document encoded_doc
    ++ (if bool_decide (parent = []) then [] else [(parent, key, bs "child")])
    ++ map (fun e => (key, ge_to e, ge_label e)) (DeriveOutEdges encoded_doc).

Definition add_class (key encoded_doc : bytes) (st : GraphCollection) : GraphCollection :=
  let cls := DeriveClass encoded_doc in
  if bool_decide (cls = []) then st
  else set_classes (<[cls := default ∅ (class_members st !! cls) ∪ {[key]}]> (class_members st)) (<[key := cls]> (key_class st)) st.

Definition IndexDocumentLocked (key encoded_doc : bytes) (st : GraphCollection) : GraphCollection :=
  let st1 := UnindexDocumentLocked key st in
  let st2 := set_declared (<[key := default [] (declared st1 !! key)]> (declared st1)) st1 in
  let st3 := fold_left (add_edge key) (asserted key encoded_doc) st2 in
  let st4 := set_edges (emplace_node key (out_edges st3)) (in_edges st3) st3 in
  set_dirty true (add_class key encoded_doc st4).

(** ** The snapshot *)
Definition write_edge (e : GraphEdge) : bytes := ByteWriter.Bytes (ge_to e) ++ ByteWriter.Bytes (ge_label e) ++ ByteWriter.Bytes (ge_owner e).
Definition write_source (p : bytes * list GraphEdge) : bytes := ByteWriter.Bytes p.1 ++ ByteWriter.U32 (Zlen p.2) ++ concat (map write_edge p.2).
Definition write_classed (p : bytes * bytes) : bytes := ByteWriter.Bytes p.1 ++ ByteWriter.Bytes p.2.

Definition EncodeAdjacency (st : GraphCollection) : bytes :=
  ByteWriter.U32 kGraphAdjMagic ++ ByteWriter.U32 (Z.of_nat (size (out_edges st))) ++ concat (map write_source (map_to_list (out_edges st)))
    ++ ByteWriter.U32 (Z.of_nat (size (key_class st))) ++ concat (map write_classed (map_to_list (key_class st))).

Definition read_edge : Reader GraphEdge :=
  (to <-r ByteReader.Bytes ;; label <-r ByteReader.Bytes ;; owner <-r ByteReader.Bytes ;; rret (mkEdge to label owner))%reader.

Definition load_edge (from : bytes) (st : GraphCollection) (e : GraphEdge) : GraphCollection :=
  let o := <[from := default [] (out_edges st !! from) ++ [e]]> (out_edges st) in
  let i := <[ge_to e := default [] (in_edges st !! ge_to e) ++ [mkEdge from (ge_label e) (ge_owner e)]]> (in_edges st) in
  set_declared (<[ge_owner e := default [] (declared st !! ge_owner e) ++ [(from, ge_to e)]]> (declared st)) (set_edges o i st).

Fixpoint read_edges (n : nat) (from : bytes) (st : GraphCollection) : Reader GraphCollection :=
  match n with
  | O => rret st
  | S n' => (e <-r read_edge ;; read_edges n' from (load_edge from st e))%reader
  end.

Fixpoint read_sources (n : nat) (st : GraphCollection) : Reader GraphCollection :=
  match n with
  | O => rret st
  | S n' =>
      (from <-r ByteReader.Bytes ;; count <-r ByteReader.U32 ;;
       st1 <-r read_edges (Z.to_nat count) from (set_edges (emplace_node from (out_edges st)) (in_edges st) st) ;; read_sources n' st1)%reader
  end.

Definition load_class (key cls : bytes) (st : GraphCollection) : GraphCollection :=
  set_classes (<[cls := default ∅ (class_members st !! cls) ∪ {[key]}]> (class_members st)) (<[key := cls]> (key_class st)) st.

Fixpoint read_classes (n : nat) (st : GraphCollection) : Reader GraphCollection :=
  match n with
  | O => rret st
  | S n' => (key <-r ByteReader.Bytes ;; cls <-r ByteReader.Bytes ;; read_classes n' (load_class key cls st))%reader
  end.

(** Into a collection that has nothing yet; [Some None] is a wrong magic number. *)
Definition read_adjacency : Reader (option GraphCollection) :=
  (magic <-r ByteReader.U32 ;;
   if negb (magic =? kGraphAdjMagic) then rret None
   else sources <-r ByteReader.U32 ;; st <-r read_sources (Z.to_nat sources) new_graph ;;
        classed <-r ByteReader.U32 ;; st' <-r read_classes (Z.to_nat classed) st ;; rret (Some st'))%reader.

Definition DecodeAdjacency (blob : bytes) : StatusOr GraphCollection :=
  match read_adjacency blob with Some (Some st, _) => OK st | _ => Fault kCorruption end.

(** ** Queries *)
Definition edge_signature (e : GraphEdge) : bytes := ge_to e ++ ge_label e.

Fixpoint unique_edges (seen : gset bytes) (l : list GraphEdge) : list GraphEdge :=
  match l with
  | [] => []
  | e :: rest => if bool_decide (edge_signature e ∈ seen) then unique_edges seen rest else e :: unique_edges ({[edge_signature e]} ∪ seen) rest
  end.

Definition out_of (st : GraphCollection) (key : bytes) : list GraphEdge := default [] (out_edges st !! key).
Definition in_of (st : GraphCollection) (key : bytes) : list GraphEdge := default [] (in_edges st !! key).

(** The neighbours not seen yet, in order. *)
Fixpoint visit (l : list GraphEdge) (seen : gset bytes) : list bytes * gset bytes :=
  match l with
  | [] => ([], seen)
  | e :: rest =>
      if bool_decide (ge_to e ∈ seen) then visit rest seen
      else let '(new, seen') := visit rest ({[ge_to e]} ∪ seen) in (ge_to e :: new, seen')
  end.

Fixpoint walk_down (fuel : nat) (limit : nat) (st : GraphCollection) (queue : list (bytes * nat)) (seen : gset bytes) (out : list bytes) : option (list bytes) :=
  match fuel, queue with
  | _, [] => Some out
  | O, _ => None
  | S fuel', (key, depth) :: rest =>
      if (limit <=? depth)%nat then walk_down fuel' limit st rest seen out
      else let '(new, seen') := visit (out_of st key) seen in
           walk_down fuel' limit st (rest ++ map (fun x => (x, S depth)) new) seen' (out ++ new)
  end.

Definition edge_count (st : GraphCollection) : nat := foldr (fun p n => (length p.2 + n)%nat) 0%nat (map_to_list (out_edges st)).

Definition descendants_of (root : bytes) (max_depth : nat) (st : GraphCollection) : option (list bytes) :=
  let limit := if (max_depth =? 0)%nat then kGraphMaxWalkDepth else Nat.min max_depth kGraphMaxWalkDepth in
  walk_down (S (edge_count st)) limit st [(root, 0%nat)] {[root]} [].

(** One level of the walk towards the ancestors, and all levels; [adj] is the list of
    edges to follow. *)
Fixpoint walk_level (adj : bytes -> list GraphEdge) (level : list bytes) (seen : gset bytes) : list bytes * gset bytes :=
  match level with
  | [] => ([], seen)
  | key :: rest =>
      let '(new, seen1) := visit (adj key) seen in
      let '(more, seen2) := walk_level adj rest seen1 in (new ++ more, seen2)
  end.

Fixpoint walk_levels (adj : bytes -> list GraphEdge) (depth : nat) (level : list bytes) (seen : gset bytes) : list bytes :=
  match depth with
  | O => []
  | S depth' =>
      match level with
      | [] => []
      | _ => let '(next, seen') := walk_level adj level seen in next ++ walk_levels adj depth' next seen'
      end
  end.

Definition ancestors_of (node : bytes) (st : GraphCollection) : list bytes := walk_levels (in_of st) kGraphMaxWalkDepth [node] {[node]}.

Definition is_root (st : GraphCollection) (key : bytes) : bool := bool_decide (in_edges st !! key = None).
Definition node_keys (st : GraphCollection) : list bytes := (map_to_list (out_edges st)).*1.
Definition roots_of (st : GraphCollection) : list bytes := std_sort str_lt id (filter (fun key => is_root st key = true) (node_keys st)).
Definition classes_of (st : GraphCollection) : list bytes := std_sort str_lt id (map_to_list (class_members st)).*1.

Record GraphStats := mkGraphStats { gs_nodes : Z; gs_edges : Z; gs_roots : Z; gs_classes : Z }.

Definition stats_of (st : GraphCollection) : GraphStats :=
  mkGraphStats (Z.of_nat (size (out_edges st)))
    (Z.of_nat (size (list_to_set (concat (map (fun p => map (fun e => (p.1, ge_to e)) p.2) (map_to_list (out_edges st)))) : gset (bytes * bytes))))
    (Zlen (filter (fun key => is_root st key = true) (node_keys st)))
    (Z.of_nat (size (class_members st))).

(** Every out-edge has its reverse. *)
Definition has_reverse (st : GraphCollection) (from : bytes) (e : GraphEdge) : bool :=
  existsb (fun r => bool_decide (ge_to r = from) && bool_decide (ge_owner r = ge_owner e)) (in_of st (ge_to e)).
Definition reversible (st : GraphCollection) : bool := forallb (fun p => forallb (has_reverse st p.1) p.2) (map_to_list (out_edges st)).

(** ** The engine *)
Record GraphAdjBackend := mkGraphBackend {
  ga_dek : bytes;
  ga_manifest : option bytes;
  ga_docs : KvBPlusBackend;
  ga_store : BufferPool;
  ga_collections : gmap bytes GraphCollection;
  ga_quota : quota;
  ga_env : nat -> kv_event;
  ga_saves : nat;
}.

Definition ga_set_docs (kv : KvBPlusBackend) (g : GraphAdjBackend) : GraphAdjBackend :=
  mkGraphBackend (ga_dek g) (ga_manifest g) kv (ga_store g) (ga_collections g) (ga_quota g) (ga_env g) (ga_saves g).
Definition ga_set_store (b : BufferPool) (g : GraphAdjBackend) : GraphAdjBackend :=
  mkGraphBackend (ga_dek g) (ga_manifest g) (ga_docs g) b (ga_collections g) (ga_quota g) (ga_env g) (ga_saves g).
Definition ga_set_coll (c : bytes) (st : GraphCollection) (g : GraphAdjBackend) : GraphAdjBackend :=
  mkGraphBackend (ga_dek g) (ga_manifest g) (ga_docs g) (ga_store g) (<[c := st]> (ga_collections g)) (ga_quota g) (ga_env g) (ga_saves g).
Definition ga_set_quota (q : quota) (g : GraphAdjBackend) : GraphAdjBackend :=
  mkGraphBackend (ga_dek g) (ga_manifest g) (ga_docs g) (ga_store g) (ga_collections g) q (ga_env g) (ga_saves g).
Definition ga_set_manifest (f : option bytes) (g : GraphAdjBackend) : GraphAdjBackend :=
  mkGraphBackend (ga_dek g) f (ga_docs g) (ga_store g) (ga_collections g) (ga_quota g) (ga_env g) (S (ga_saves g)).

Definition GraphFor (c : bytes) (g : GraphAdjBackend) : GraphCollection := default new_graph (ga_collections g !! c).

Definition OutEdges (c key : bytes) (g : GraphAdjBackend) : list GraphEdge :=
  match ga_collections g !! c with None => [] | Some st => unique_edges ∅ (out_of st key) end.
Definition InEdges (c key : bytes) (g : GraphAdjBackend) : list GraphEdge :=
  match ga_collections g !! c with None => [] | Some st => unique_edges ∅ (in_of st key) end.
Definition Descendants (c root : bytes) (max_depth : nat) (g : GraphAdjBackend) : option (list bytes) :=
  match ga_collections g !! c with None => Some [] | Some st => descendants_of root max_depth st end.
Definition Ancestors (c node : bytes) (g : GraphAdjBackend) : list bytes :=
  match ga_collections g !! c with None => [] | Some st => ancestors_of node st end.
Definition Roots (c : bytes) (g : GraphAdjBackend) : list bytes := match ga_collections g !! c with None => [] | Some st => roots_of st end.
Definition Classes (c : bytes) (g : GraphAdjBackend) : list bytes := match ga_collections g !! c with None => [] | Some st => classes_of st end.
Definition GraphStatsFor (c : bytes) (g : GraphAdjBackend) : GraphStats :=
  match ga_collections g !! c with None => mkGraphStats 0 0 0 0 | Some st => stats_of st end.

Definition manifest_entry (p : bytes * GraphCollection) : JsonValue :=
  JObject [(bs "collection", JString p.1); (bs "snapshot_page_id", JInt (snapshot_page_id p.2)); (bs "nodes", JInt (Z.of_nat (size (out_edges p.2))))].

Definition graph_manifest_text (m : gmap bytes GraphCollection) : bytes := Dump (JArray (map manifest_entry (map_to_list m))).

Section Graph.
Context `{C : Crypto}.

Fixpoint load_graphs (entries : list JsonValue) (m : gmap bytes GraphCollection) (b : BufferPool) : StatusOr (gmap bytes GraphCollection) * BufferPool :=
  match entries with
  | [] => (OK m, b)
  | entry :: rest =>
      let name := AsString (Json.Get entry (bs "collection")) in
      let page := to_signed 32 (u32 (AsInt (Json.Get entry (bs "snapshot_page_id")))) in
      if bool_decide (name = []) then load_graphs rest m b
      else if page =? kInvalidPageId then load_graphs rest (<[name := new_graph]> m) b
      else match ReadBlob page b with
           | (Fault c, b1) => (Fault c, b1)
           | (OK blob, b1) =>
               match DecodeAdjacency blob with
               | Fault c => (Fault c, b1)
               | OK st => load_graphs rest (<[name := mkGraph (out_edges st) (in_edges st) (class_members st) (key_class st) (declared st) page (dirty st)]> m) b1
               end
           end
  end.

Definition GraphLoadManifest (g : GraphAdjBackend) : option (StatusOr GraphAdjBackend) :=
  match ReadSealedJsonFile (ga_manifest g) (ga_dek g) (bs "graph-manifest") with
  | None => None
  | Some (Fault c) => Some (if bool_decide (c = kNotFound) then OK g else Fault kCorruption)
  | Some (OK text) =>
      if bool_decide (text = []) then Some (OK g)
      else match Parse text with
           | None => Some (Fault kCorruption)
           | Some root =>
               if negb (is_array root) then Some (OK g)
               else match load_graphs (AsArray root) (ga_collections g) (ga_store g) with
                    | (Fault c, _) => Some (Fault c)
                    | (OK m, b) => Some (OK (mkGraphBackend (ga_dek g) (ga_manifest g) (ga_docs g) b m (ga_quota g) (ga_env g) (ga_saves g)))
                    end
           end
  end.

Definition GraphSaveManifest (g : GraphAdjBackend) : StatusOr unit * GraphAdjBackend :=
  let ev := ev_save (ga_env g (ga_saves g)) in
  let '(st, file) := WriteSealedJsonFile (se_io ev) (se_nonce ev) (graph_manifest_text (ga_collections g)) (ga_dek g) (bs "graph-manifest") (ga_manifest g) in
  (match st with OK _ => OK tt | Fault _ => Fault kIOError end, ga_set_manifest file g).

Definition ga_disk_use (kv : KvBPlusBackend) (b : BufferPool) : Z := u64 (bytes_used_ (kv_quota kv) + BytesOnDisk b).

(** What the directories hold: the embedded engine's files, and the snapshot's. *)
Definition OpenGraph (made kv_made : bool) (kv_oenv env : open_env) (kv_wenv wenv : nat -> write_env) (kv_events events : nat -> kv_event)
    (kv_file kv_hdr roots file hdr manifest : option bytes) (quota_mb : Z) (buffer_pool_pages : nat) (dek : bytes)
  : option (StatusOr GraphAdjBackend * ((option bytes * option bytes) * (option bytes * option bytes))) :=
  if bad_dek dek then Some (Fault kInvalidArgument, ((kv_file, kv_hdr), (file, hdr)))
  else if negb made then Some (Fault kIOError, ((kv_file, kv_hdr), (file, hdr)))
  else
    '(opened, kv_fs) ← OpenKv kv_made kv_oenv kv_wenv kv_events kv_file kv_hdr roots 0 buffer_pool_pages dek;
    match opened with
    | Fault c => Some (Fault c, (kv_fs, (file, hdr)))
    | OK kv =>
        match OpenSegments env wenv file hdr 256 dek with
        | (Fault c, fs) => Some (Fault c, (kv_fs, fs))
        | (OK b, fs) =>
            let g := mkGraphBackend dek manifest kv b ∅ (mkQuota (u64 (quota_mb * 1024 * 1024)) (ga_disk_use kv b)) events 0 in
            loaded ← GraphLoadManifest g;
            Some (loaded, (kv_fs, fs))
        end
    end.

Definition GraphGet (c k : bytes) (g : GraphAdjBackend) : option (StatusOr bytes * GraphAdjBackend) :=
  '(d, kv) ← KvGet c k (ga_docs g); Some (d, ga_set_docs kv g).

Definition GraphScan (c start : bytes) (limit : nat) (g : GraphAdjBackend) : option (list EngineRow * GraphAdjBackend) :=
  '(rows, kv) ← KvScan c start limit (ga_docs g); Some (rows, ga_set_docs kv g).

Definition GraphPut (merge : bool) (c k d : bytes) (g : GraphAdjBackend) : option (StatusOr unit * GraphAdjBackend) :=
  '(existing, kv0) ← KvGet c k (ga_docs g);
  let old_cost := match existing with OK x => RecordCost k x | Fault _ => 0 end in
  match Charge merge old_cost (RecordCost k d) (ga_quota g) with
  | (Fault x, _) => Some (Fault x, ga_set_docs kv0 g)
  | (OK _, q) =>
      '(st, kv1) ← KvPut merge c k d kv0;
      let g1 := ga_set_quota q (ga_set_docs kv1 g) in
      match st with
      | Fault x => Some (Fault x, g1)
      | OK _ => Some (OK tt, ga_set_coll c (IndexDocumentLocked k d (GraphFor c g1)) g1)
      end
  end.

Definition GraphRebuild (c : bytes) (g : GraphAdjBackend) : option (StatusOr unit * GraphAdjBackend) :=
  '(rows, kv) ← KvScan c [] 0 (ga_docs g);
  let st := GraphFor c g in
  let empty := mkGraph ∅ ∅ ∅ ∅ ∅ (snapshot_page_id st) (dirty st) in
  let st' := fold_left (fun st r => IndexDocumentLocked r.1 r.2 st) rows empty in
  Some (OK tt, ga_set_coll c (set_dirty true st') (ga_set_docs kv g)).

(** *** The object view *)
Fixpoint read_members (c : bytes) (members : list bytes) (kv : KvBPlusBackend) : option (list (bytes * JsonValue) * KvBPlusBackend) :=
  match members with
  | [] => Some ([], kv)
  | key :: rest =>
      '(raw, kv1) ← KvGet c key kv;
      '(docs, kv2) ← read_members c rest kv1;
      Some (match raw with
            | OK d => let json := ToJsonSafe d in if is_object json then (key, json) :: docs else docs
            | Fault _ => docs
            end, kv2)
  end.

Definition is_scalar (v : JsonValue) : bool := negb (is_array v) && negb (is_object v).
Definition scalar_fields (json : JsonValue) : list bytes := (filter (fun f => is_scalar f.2 = true) (AsObject json)).*1.
Definition view_columns (docs : list (bytes * JsonValue)) : list bytes :=
  std_sort str_lt id (elements (list_to_set (concat (map (fun d => scalar_fields d.2) docs)) : gset bytes)).

Definition view_row (c : bytes) (g : GraphAdjBackend) (columns : list bytes) (d : bytes * JsonValue) : list bytes :=
  map (fun column => match Find d.2 column with Some v => Dump v | None => bs "null" end) columns
    ++ [match InEdges c d.1 g with [] => bs "null" | e :: _ => Dump (JString (ge_to e)) end; to_string (Zlen (OutEdges c d.1 g))].

Definition ObjectView (c class_name : bytes) (g : GraphAdjBackend) : option (StatusOr ObjectTable * GraphAdjBackend) :=
  match ga_collections g !! c with
  | None => Some (Fault kNotFound, g)
  | Some st =>
      match class_members st !! class_name with
      | None => Some (Fault kNotFound, g)
      | Some members =>
          '(docs, kv) ← read_members c (std_sort str_lt id (elements members)) (ga_docs g);
          let columns := view_columns docs in
          let docs := std_sort str_lt fst docs in
          Some (OK (mkTable class_name (columns ++ [bs "_parent"; bs "_child_count"]) (map (view_row c g columns) docs) docs.*1), ga_set_docs kv g)
      end
  end.

(** *** Verification and flush *)
Fixpoint verify_graphs (l : list (bytes * GraphCollection)) (b : BufferPool) : StatusOr unit * BufferPool :=
  match l with
  | [] => (OK tt, b)
  | (_, st) :: rest =>
      if negb (reversible st) then (Fault kCorruption, b)
      else if snapshot_page_id st =? kInvalidPageId then verify_graphs rest b
      else match VerifyBlob (snapshot_page_id st) b with
           | (Fault _, b1) => (Fault kCorruption, b1)
           | (OK _, b1) => verify_graphs rest b1
           end
  end.

Definition GraphVerify (g : GraphAdjBackend) : option (StatusOr unit * GraphAdjBackend) :=
  '(r, kv) ← KvVerify (ga_docs g);
  let g1 := ga_set_docs kv g in
  match r with
  | Fault x => Some (Fault x, g1)
  | OK _ => let '(r', b) := verify_graphs (map_to_list (ga_collections g1)) (ga_store g1) in Some (r', ga_set_store b g1)
  end.

Definition SnapshotLocked (st : GraphCollection) (b : BufferPool) : StatusOr unit * GraphCollection * BufferPool :=
  if negb (dirty st) then (OK tt, st, b)
  else match AppendBlob (EncodeAdjacency st) b with
       | (Fault x, b1) => (Fault x, st, b1)
       | (OK page, b1) => (OK tt, mkGraph (out_edges st) (in_edges st) (class_members st) (key_class st) (declared st) page false, b1)
       end.

Fixpoint snapshot_all (l : list (bytes * GraphCollection)) (g : GraphAdjBackend) : StatusOr unit * GraphAdjBackend :=
  match l with
  | [] => (OK tt, g)
  | (c, st) :: rest =>
      match SnapshotLocked st (ga_store g) with
      | (Fault x, _, b) => (Fault x, ga_set_store b g)
      | (OK _, st', b) => snapshot_all rest (ga_set_coll c st' (ga_set_store b g))
      end
  end.

Definition GraphFlush (g : GraphAdjBackend) : StatusOr unit * GraphAdjBackend :=
  match KvFlush (ga_docs g) with
  | (Fault x, kv) => (Fault x, ga_set_docs kv g)
  | (OK _, kv) =>
      let g1 := ga_set_docs kv g in
      match snapshot_all (map_to_list (ga_collections g1)) g1 with
      | (Fault x, g2) => (Fault x, g2)
      | (OK _, g2) =>
          let sync := ev_sync (ga_env g2 (ga_saves g2)) in
          match GraphSaveManifest g2 with
          | (Fault x, g3) => (Fault x, g3)
          | (OK _, g3) =>
              let g4 := ga_set_quota (mkQuota (quota_bytes_ (ga_quota g3)) (ga_disk_use (ga_docs g3) (ga_store g3))) g3 in
              let '(r, b) := FlushSegments sync (ga_store g4) in (r, ga_set_store b g4)
          end
      end
  end.

Definition GraphListCollections (g : GraphAdjBackend) : list bytes := KvListCollections (ga_docs g).
End Graph.
