(* ===== verification/GraphWalk.v ===== *)
(** * Walks over the adjacency maps

    The queue of the walk down visits level by level, like the walk up; both return every
    node within the depth bound once, and nothing else, on any graph, cyclic or not. *)
From S2P Require Import Prelude Bytes Json Backend GraphAdj.

Section Walk.
Variable adj : bytes -> list GraphEdge.
Implicit Types (x y root : bytes) (seen : gset bytes) (level : list bytes) (n : nat).

(** [y] can be reached in [n] steps. *)
Fixpoint path n x y : Prop :=
  match n with
  | O => x = y
  | S n' => exists z, path n' x z /\ y ∈ map ge_to (adj z)
  end.

Definition within n x y : Prop := exists i, (i <= n)%nat /\ path i x y.

Lemma within_0 x y : within 0 x y <-> x = y.
Proof. split; [|intros ->; by exists 0%nat]. intros (i & Hi & Hp). assert (i = 0%nat) as -> by lia. done. Qed.

Lemma within_S n x y : within (S n) x y <-> within n x y \/ exists z, within n x z /\ y ∈ map ge_to (adj z).
Proof.
  split.
  - intros (i & Hi & Hp). destruct (decide (i <= n)%nat); [left; by exists i|]. assert (i = S n) as -> by lia. destruct Hp as (z & Hz & Hy). right. exists z. split; [by exists n|done].
  - intros [(i & Hi & Hp)|(z & (i & Hi & Hp) & Hy)]; [exists i; split; [lia|done]|]. exists (S i). split; [lia|]. by exists z.
Qed.

(** ** One node, one level *)
Lemma visit_spec l seen : let '(new, seen') := visit l seen in
  NoDup new /\ (forall y, y ∈ new <-> y ∈ map ge_to l /\ y ∉ seen) /\ (forall y, y ∈ seen' <-> y ∈ seen \/ y ∈ new).
Proof.
  revert seen. induction l as [|e l IH]; intros seen; cbn [visit map].
  - split; [constructor|]. split; [intros y; rewrite elem_of_nil; tauto|intros y; rewrite elem_of_nil; tauto].
  - case_bool_decide as Hs.
    + specialize (IH seen). destruct (visit l seen) as [new seen']. destruct IH as (I1 & I2 & I3). split; [done|]. split; [|done].
      intros y. rewrite I2, elem_of_cons. split; [tauto|]. intros [[->|Hy] Hn]; [done|done].
    + specialize (IH ({[ge_to e]} ∪ seen)). destruct (visit l _) as [new seen']. destruct IH as (I1 & I2 & I3). split; [|split].
      * constructor; [|done]. rewrite I2. set_solver.
      * intros y. rewrite !elem_of_cons, I2. destruct (decide (y = ge_to e)) as [->|]; set_solver.
      * intros y. rewrite I3, elem_of_cons. set_solver.
Qed.

Lemma walk_level_spec level seen : let '(new, seen') := walk_level adj level seen in
  NoDup new /\ (forall y, y ∈ new <-> (exists x, x ∈ level /\ y ∈ map ge_to (adj x)) /\ y ∉ seen) /\ (forall y, y ∈ seen' <-> y ∈ seen \/ y ∈ new).
Proof.
  revert seen. induction level as [|x level IH]; intros seen; cbn [walk_level].
  - split; [constructor|]. split; [|intros y; rewrite elem_of_nil; tauto]. intros y. rewrite elem_of_nil. split; [done|]. intros [(x & Hx%elem_of_nil & _) _]. done.
  - pose proof (visit_spec (adj x) seen) as Hv. destruct (visit (adj x) seen) as [new seen1]. destruct Hv as (V1 & V2 & V3).
    specialize (IH seen1). destruct (walk_level adj level seen1) as [more seen2]. destruct IH as (I1 & I2 & I3). split; [|split].
    + apply NoDup_app. split; [done|]. split; [|done]. intros y Hy Hm. apply I2 in Hm as [_ Hm]. apply Hm, V3. by right.
    + intros y. rewrite elem_of_app, V2, I2. split.
      * intros [[Hy Hn]|[(z & Hz & Hy) Hn]]; (split; [|]); [exists x; split; [left|done]|done|exists z; split; [by right|done]|]. intros Hs. apply Hn, V3. by left.
      * intros [(z & Hz & Hy) Hn]. destruct (decide (y ∈ map ge_to (adj x))) as [Hx|Hx]; [by left|]. apply elem_of_cons in Hz as [->|Hz]; [done|]. right. split; [by exists z|].
        rewrite V3. intros [|Hn']; [done|]. by apply V2 in Hn' as [? _].
    + intros y. rewrite I3, V3, elem_of_app. tauto.
Qed.

(** ** All levels *)

(** What the walk has done after [n] levels. *)
Record frontier root n level seen : Prop := {
  fr_seen : forall y, y ∈ seen <-> within n root y;
  fr_level : forall y, y ∈ level -> within n root y;
  fr_next : forall y z, within n root z -> y ∈ map ge_to (adj z) -> y ∈ seen \/ z ∈ level;
}.

Lemma frontier_start root : frontier root 0 [root] {[root]}.
Proof. split; intros y; rewrite ?within_0; [set_solver|set_solver|]. intros z <-%within_0 _. right. set_solver. Qed.

Lemma frontier_step root n level seen :
  frontier root n level seen -> let '(next, seen') := walk_level adj level seen in
  frontier root (S n) next seen' /\ NoDup next /\ forall y, y ∈ next <-> within (S n) root y /\ ~ within n root y.
Proof.
  intros [F1 F2 F3]. pose proof (walk_level_spec level seen) as Hl. destruct (walk_level adj level seen) as [next seen']. destruct Hl as (L1 & L2 & L3).
  assert (Hnext : forall y, y ∈ next <-> within (S n) root y /\ ~ within n root y).
  { intros y. rewrite L2, within_S, <- F1. split.
    - intros [(x & Hx & Hy) Hn]. split; [|done]. right. exists x. split; [by apply F2|done].
    - intros [[|(z & Hz & Hy)] Hn]; [done|]. split; [|done]. exists z. split; [|done]. destruct (F3 y z Hz Hy); done. }
  split; [|done]. split.
  - intros y. rewrite L3, F1, Hnext. split; [intros [(i & Hi & Hp)|[? _]]; [exists i; split; [lia|done]|done]|].
    intros Hw. destruct (decide (y ∈ seen)) as [Hy|Hy]; [left; by apply F1|]. right. split; [done|]. by rewrite <- F1.
  - intros y [Hy _]%Hnext. done.
  - intros y z Hz Hy. destruct (decide (z ∈ seen)) as [Hs|Hs]; [left|right; apply Hnext; split; [done|by rewrite <- F1]].
    rewrite L3. destruct (decide (y ∈ seen)) as [|Hn]; [by left|]. right. rewrite L2. split; [|done]. exists z. split; [|done]. rewrite F1 in Hs. destruct (F3 y z Hs Hy); done.
Qed.

Lemma walk_levels_spec root depth n level seen :
  frontier root n level seen ->
  NoDup (walk_levels adj depth level seen) /\ forall y, y ∈ walk_levels adj depth level seen <-> within (n + depth) root y /\ ~ within n root y.
Proof.
  revert n level seen. induction depth as [|depth IH]; intros n level seen Hf; cbn [walk_levels].
  - split; [constructor|]. intros y. rewrite elem_of_nil, Nat.add_0_r. tauto.
  - assert (Hnil : level = [] -> forall y m, within (n + m) root y -> within n root y).
    { intros -> y m. revert y. induction m as [|m IHm]; intros y; [by rewrite Nat.add_0_r|]. rewrite Nat.add_succ_r, within_S. intros [Hw|(z & Hz & Hy)]; [by apply IHm|].
      apply IHm in Hz. destruct (fr_next _ _ _ _ Hf y z Hz Hy) as [Hs|Hs%elem_of_nil]; [|done]. by apply (fr_seen _ _ _ _ Hf). }
    destruct level as [|x level']; [split; [constructor|]; intros y; rewrite elem_of_nil; split; [done|]; intros [Hw Hn]; apply Hn; by eapply Hnil|]. clear Hnil.
    pose proof (frontier_step root n (x :: level') seen Hf) as Hs. destruct (walk_level adj (x :: level') seen) as [next seen']. destruct Hs as (Hf' & Hnd & Hnext).
    destruct (IH (S n) next seen' Hf') as [I1 I2]. rewrite Nat.add_succ_r. cbn [Nat.add] in I2. split.
    + apply NoDup_app. split; [done|]. split; [|done]. intros y [Hy _]%Hnext [_ Hn]%I2. done.
    + intros y. rewrite elem_of_app, Hnext, I2. split.
      * intros [[(i & Hi & Hp) Hn]|[Hw Hn]]; [split; [exists i; split; [lia|done]|done]|]. split; [done|]. intros (i & Hi & Hp). apply Hn. exists i. split; [lia|done].
      * intros [Hw Hn]. destruct (decide (y ∈ seen')) as [Hy|Hy]; rewrite (fr_seen _ _ _ _ Hf') in Hy; tauto.
Qed.
End Walk.

(** ** The queue of the walk down *)
Section Queue.
Variable st : GraphCollection.
Implicit Types (seen : gset bytes) (level acc out : list bytes) (d limit fuel : nat).

Definition queued d level : list (bytes * nat) := map (fun x => (x, d)) level.

Lemma walk_down_level limit level acc d seen out fuel :
  (d < limit)%nat ->
  walk_down (length level + fuel) limit st (queued d level ++ queued (S d) acc) seen out
  = let '(new, seen') := walk_level (out_of st) level seen in walk_down fuel limit st (queued (S d) (acc ++ new)) seen' (out ++ new).
Proof.
  intros Hd. revert acc seen out. induction level as [|x level IH]; intros acc seen out; [cbn [walk_level]; by rewrite !app_nil_r|]. cbn [length Nat.add queued map app walk_down walk_level]. fold (queued d level).
  rewrite (proj2 (Nat.leb_gt _ _)) by done. destruct (visit (out_of st x) seen) as [new seen1]. fold (queued (S d) new). rewrite <- app_assoc.
  assert (Hq : queued (S d) acc ++ queued (S d) new = queued (S d) (acc ++ new)) by (unfold queued; by rewrite map_app). rewrite Hq, IH.
  destruct (walk_level (out_of st) level seen1) as [more seen2]. by rewrite <- !app_assoc.
Qed.

Lemma walk_down_end limit level d seen out fuel : (limit <= d)%nat -> walk_down (length level + fuel) limit st (queued d level) seen out = Some out.
Proof. intros Hd. induction level as [|x level IH]; [by destruct fuel|]. cbn [length Nat.add queued map walk_down]. rewrite (proj2 (Nat.leb_le _ _)) by done. apply IH. Qed.

Lemma walk_down_levels limit depth d level seen out fuel :
  (limit = d + depth)%nat ->
  let found := walk_levels (out_of st) depth level seen in
  walk_down (length level + (length found + fuel)) limit st (queued d level) seen out = Some (out ++ found).
Proof.
  revert d level seen out. induction depth as [|depth IH]; intros d level seen out Hl found.
  { unfold found. cbn [walk_levels length Nat.add]. rewrite app_nil_r. apply walk_down_end. lia. }
  unfold found. clear found. cbn [walk_levels]. destruct level as [|x level]; [cbn; by rewrite app_nil_r; destruct fuel|]. set (level' := x :: level).
  pose proof (walk_down_level limit level' [] d seen out) as Hs. rewrite app_nil_r in Hs.
  match goal with |- walk_down (_ + ?f) _ _ _ _ _ = _ => rewrite (Hs f ltac:(lia)) end. destruct (walk_level (out_of st) level' seen) as [next seen']. cbn [app].
  rewrite length_app, <- Nat.add_assoc, (IH (S d) next seen' (out ++ next)) by lia. by rewrite <- app_assoc.
Qed.

Definition targets : list bytes := concat (map (fun p => map ge_to p.2) (map_to_list (out_edges st))).

Lemma targets_length : length targets = edge_count st.
Proof.
  unfold targets, edge_count. induction (map_to_list (out_edges st)) as [|p l IH]; [done|]. cbn [map concat foldr]. by rewrite length_app, length_map, IH.
Qed.

Lemma targets_elem x y : y ∈ map ge_to (out_of st x) -> y ∈ targets.
Proof.
  unfold out_of, targets. destruct (out_edges st !! x) as [l|] eqn:E; cbn [default from_option id]; [|by intros ?%elem_of_nil]. intros Hy.
  apply list_elem_of_In, in_concat. exists (map ge_to l). split; [|by apply list_elem_of_In]. apply in_map_iff. exists (x, l). split; [done|]. apply list_elem_of_In. by apply elem_of_map_to_list.
Qed.

Definition depth_limit (max_depth : nat) : nat := if (max_depth =? 0)%nat then kGraphMaxWalkDepth else Nat.min max_depth kGraphMaxWalkDepth.

(** The walk down ends within its fuel, and visits as the level-by-level walk does. *)
Lemma descendants_levels root max_depth : descendants_of root max_depth st = Some (walk_levels (out_of st) (depth_limit max_depth) [root] {[root]}).
Proof.
  unfold descendants_of. fold (depth_limit max_depth). set (found := walk_levels _ _ _ _).
  destruct (walk_levels_spec (out_of st) root (depth_limit max_depth) 0 [root] {[root]} (frontier_start _ root)) as [Hnd Hin]. fold found in Hnd, Hin.
  assert (Hlen : (length found <= edge_count st)%nat).
  { rewrite <- targets_length. apply submseteq_length, NoDup_submseteq; [done|]. intros y [(i & Hi & Hp) Hn]%Hin. destruct i as [|i]; [destruct Hn; by apply within_0|]. destruct Hp as (z & _ & Hy). by apply (targets_elem z). }
  pose proof (walk_down_levels (depth_limit max_depth) (depth_limit max_depth) 0 [root] {[root]} [] (edge_count st - length found) eq_refl) as H. cbv zeta in H. fold found in H.
  replace (length [root] + (length found + (edge_count st - length found)))%nat with (S (edge_count st)) in H by (cbn; lia). exact H.
Qed.
End Queue.
