(* ===== verification/GraphIndex.v ===== *)
(** * The adjacency maps are what the documents assert

    Indexing and re-indexing documents, in any order, keeps exactly the edges and the
    classes of the latest version of each document. *)
From S2P Require Import Prelude Bytes Json Backend GraphAdj.

Implicit Types (st : GraphCollection) (f t lb o key doc cls : bytes) (D : gmap bytes bytes) (pairs : list (bytes * bytes)).

(** ** Edges by membership *)
Definition has_out st f t lb o : Prop := mkEdge t lb o ∈ out_of st f.
Definition has_in st f t lb o : Prop := mkEdge f lb o ∈ in_of st t.
Definition declares st o (p : bytes * bytes) : Prop := p ∈ default [] (declared st !! o).
Definition members_of st cls : gset bytes := default ∅ (class_members st !! cls).

Definition no_empty_in st : Prop := forall t, in_edges st !! t <> Some [].

Lemma without_elem key t l e : e ∈ without key t l <-> e ∈ l /\ ~ (ge_owner e = key /\ ge_to e = t).
Proof. unfold without. rewrite list_elem_of_filter. tauto. Qed.

(** *** Removing *)
Lemma remove_edge_out key st f t f' t' lb o : has_out (remove_edge key st (f, t)) f' t' lb o <-> has_out st f' t' lb o /\ ~ (o = key /\ f' = f /\ t' = t).
Proof.
  unfold has_out, out_of, remove_edge. cbn [out_edges set_edges]. destruct (out_edges st !! f) as [l|] eqn:E.
  - destruct (decide (f' = f)) as [->|Hne].
    + rewrite lookup_insert_eq, E. cbn [default from_option id]. rewrite without_elem. cbn [ge_owner ge_to]. tauto.
    + rewrite lookup_insert_ne by done. tauto.
  - destruct (decide (f' = f)) as [->|Hne]; [rewrite E; cbn; rewrite elem_of_nil; tauto|tauto].
Qed.

Lemma remove_edge_in key st f t f' t' lb o : has_in (remove_edge key st (f, t)) f' t' lb o <-> has_in st f' t' lb o /\ ~ (o = key /\ f' = f /\ t' = t).
Proof.
  unfold has_in, in_of, remove_edge. cbn [in_edges set_edges]. destruct (in_edges st !! t) as [l|] eqn:E.
  - destruct (decide (t' = t)) as [->|Hne].
    + assert (Hw : default [] ((if bool_decide (without key f l = []) then delete t (in_edges st) else <[t := without key f l]> (in_edges st)) !! t) = without key f l).
      { case_bool_decide as Hb; [by rewrite lookup_delete_eq, Hb|by rewrite lookup_insert_eq]. }
      rewrite Hw, E. cbn [default from_option id]. rewrite without_elem. cbn [ge_owner ge_to]. tauto.
    + case_bool_decide; [rewrite lookup_delete_ne by done|rewrite lookup_insert_ne by done]; tauto.
  - destruct (decide (t' = t)) as [->|Hne]; [rewrite E; cbn; rewrite elem_of_nil; tauto|tauto].
Qed.

Lemma remove_edge_keeps key st p : no_empty_in st ->
  no_empty_in (remove_edge key st p) /\ dom (out_edges (remove_edge key st p)) = dom (out_edges st) /\ declared (remove_edge key st p) = declared st
  /\ class_members (remove_edge key st p) = class_members st /\ key_class (remove_edge key st p) = key_class st.
Proof.
  destruct p as [f t]. intros Hne. unfold remove_edge. split; [|split; [|done]]; cbn [in_edges out_edges set_edges].
  - intros t'. cbn [in_edges set_edges]. destruct (in_edges st !! t) as [l|] eqn:E; [|apply Hne]. case_bool_decide as Hb.
    + destruct (decide (t' = t)) as [->|]; [by rewrite lookup_delete_eq|rewrite lookup_delete_ne by done; apply Hne].
    + destruct (decide (t' = t)) as [->|]; [rewrite lookup_insert_eq; congruence|rewrite lookup_insert_ne by done; apply Hne].
  - destruct (out_edges st !! f) as [l|] eqn:E; [|done]. apply dom_insert_lookup_L. by eexists.
Qed.

Lemma remove_edges key pairs st : no_empty_in st -> let st' := fold_left (remove_edge key) pairs st in
  (forall f t lb o, has_out st' f t lb o <-> has_out st f t lb o /\ ~ (o = key /\ (f, t) ∈ pairs))
  /\ (forall f t lb o, has_in st' f t lb o <-> has_in st f t lb o /\ ~ (o = key /\ (f, t) ∈ pairs))
  /\ no_empty_in st' /\ dom (out_edges st') = dom (out_edges st) /\ declared st' = declared st /\ class_members st' = class_members st /\ key_class st' = key_class st.
Proof.
  revert st. induction pairs as [|[f0 t0] pairs IH]; intros st Hne; cbn [fold_left].
  { split; [intros; rewrite elem_of_nil; tauto|]. split; [intros; rewrite elem_of_nil; tauto|]. done. }
  destruct (remove_edge_keeps key st (f0, t0) Hne) as (K1 & K2 & K3 & K4 & K5). destruct (IH _ K1) as (I1 & I2 & I3 & I4 & I5 & I6 & I7). rewrite <- K2, <- K3, <- K4, <- K5.
  split; [|split; [|done]]; intros f t lb o.
  - rewrite I1, remove_edge_out, elem_of_cons, pair_eq. tauto.
  - rewrite I2, remove_edge_in, elem_of_cons, pair_eq. tauto.
Qed.

(** *** Adding *)
Lemma emplace_node_out t om f : default [] (emplace_node t om !! f) = default [] (om !! f).
Proof.
  unfold emplace_node. destruct (om !! t) eqn:E; [done|]. destruct (decide (f = t)) as [->|]; [by rewrite lookup_insert_eq, E|by rewrite lookup_insert_ne].
Qed.

Lemma emplace_node_dom t om : dom (emplace_node t om) = {[t]} ∪ dom om.
Proof. unfold emplace_node. destruct (om !! t) eqn:E; [|by rewrite dom_insert_L]. apply elem_of_dom_2 in E. set_solver. Qed.

(** What a new edge changes. *)
Lemma add_edge_new key st f t lb : ~ declares st key (f, t) -> let st' := add_edge key st (f, t, lb) in
  (forall f' t' lb' o, has_out st' f' t' lb' o <-> has_out st f' t' lb' o \/ (o = key /\ (f', t', lb') = (f, t, lb)))
  /\ (forall f' t' lb' o, has_in st' f' t' lb' o <-> has_in st f' t' lb' o \/ (o = key /\ (f', t', lb') = (f, t, lb)))
  /\ (no_empty_in st -> no_empty_in st') /\ dom (out_edges st') = {[f; t]} ∪ dom (out_edges st)
  /\ (forall o p, declares st' o p <-> declares st o p \/ (o = key /\ p = (f, t))) /\ class_members st' = class_members st /\ key_class st' = key_class st.
Proof.
  intros Hd. unfold declares in Hd. unfold add_edge. rewrite bool_decide_eq_false_2 by done. cbv zeta. split; [|split; [|split; [|split; [|split; [|done]]]]].
  - intros f' t' lb' o. unfold has_out, out_of. cbn [out_edges set_edges set_declared]. rewrite emplace_node_out. destruct (decide (f' = f)) as [->|Hne].
    + rewrite lookup_insert_eq. cbn [default from_option id]. rewrite elem_of_app, list_elem_of_singleton. split; (intros [?|E]; [by left|right]); [by injection E as -> -> ->|destruct E as [-> E]; by injection E as -> ->].
    + rewrite lookup_insert_ne by done. split; [by left|]. intros [?|[_ [=]]]; [done|]. congruence.
  - intros f' t' lb' o. unfold has_in, in_of. cbn [in_edges set_edges set_declared]. destruct (decide (t' = t)) as [->|Hne].
    + rewrite lookup_insert_eq. cbn [default from_option id]. rewrite elem_of_app, list_elem_of_singleton. split; (intros [?|E]; [by left|right]); [by injection E as -> -> ->|destruct E as [-> E]; by injection E as -> ->].
    + rewrite lookup_insert_ne by done. split; [by left|]. intros [?|[_ [=]]]; [done|]. congruence.
  - intros Hne t'. cbn [in_edges set_edges set_declared]. destruct (decide (t' = t)) as [->|]; [|rewrite lookup_insert_ne by done; apply Hne]. rewrite lookup_insert_eq. intros [= E]. by apply app_eq_nil in E as [_ ?].
  - cbn [out_edges set_edges set_declared]. rewrite emplace_node_dom, dom_insert_L. set_solver.
  - intros o p. unfold declares. cbn [declared set_edges set_declared]. destruct (decide (o = key)) as [->|Hne].
    + rewrite lookup_insert_eq. cbn [default from_option id]. rewrite elem_of_app, list_elem_of_singleton. tauto.
    + rewrite lookup_insert_ne by done. tauto.
Qed.

(** The first edge of each pair of ends. *)
Fixpoint first_edges (seen : list (bytes * bytes)) (l : list (bytes * bytes * bytes)) : list (bytes * bytes * bytes) :=
  match l with
  | [] => []
  | (f, t, lb) :: rest => if bool_decide ((f, t) ∈ seen) then first_edges seen rest else (f, t, lb) :: first_edges ((f, t) :: seen) rest
  end.

Lemma first_edges_ext (s1 s2 : list (bytes * bytes)) l : (forall p, p ∈ s1 <-> p ∈ s2) -> first_edges s1 l = first_edges s2 l.
Proof.
  revert s1 s2. induction l as [|[[f t] lb] l IH]; intros s1 s2 H; [done|]. cbn [first_edges]. rewrite (bool_decide_ext ((f, t) ∈ s1) ((f, t) ∈ s2)) by apply H.
  case_bool_decide; [by apply IH|]. f_equal. apply IH. intros p. rewrite !elem_of_cons, H. done.
Qed.

Lemma add_edges key (l : list (bytes * bytes * bytes)) st : let st' := fold_left (add_edge key) l st in
  let new := first_edges (default [] (declared st !! key)) l in
  (forall f t lb o, has_out st' f t lb o <-> has_out st f t lb o \/ (o = key /\ (f, t, lb) ∈ new))
  /\ (forall f t lb o, has_in st' f t lb o <-> has_in st f t lb o \/ (o = key /\ (f, t, lb) ∈ new))
  /\ (no_empty_in st -> no_empty_in st') /\ (forall x, x ∈ dom (out_edges st') <-> x ∈ dom (out_edges st) \/ exists f t lb, (f, t, lb) ∈ new /\ (x = f \/ x = t))
  /\ (forall o p, declares st' o p <-> declares st o p \/ (o = key /\ p ∈ new.*1)) /\ class_members st' = class_members st /\ key_class st' = key_class st.
Proof.
  revert st. induction l as [|[[f0 t0] lb0] l IH]; intros st; cbn [fold_left first_edges].
  { split; [intros; rewrite elem_of_nil; tauto|]. split; [intros; rewrite elem_of_nil; tauto|]. split; [done|]. split; [|split; [intros; cbn; rewrite elem_of_nil; tauto|done]].
    intros x. split; [by left|]. intros [?|(f & t & lb & H%elem_of_nil & _)]; done. }
  destruct (decide ((f0, t0) ∈ default [] (declared st !! key))) as [Hd|Hd].
  - rewrite bool_decide_eq_true_2 by done. assert (Hsame : add_edge key st (f0, t0, lb0) = st) by (unfold add_edge; by rewrite bool_decide_eq_true_2). rewrite Hsame. apply IH.
  - destruct (add_edge_new key st f0 t0 lb0 Hd) as (A1 & A2 & A3 & A4 & A5 & A6 & A7). set (st1 := add_edge key st (f0, t0, lb0)) in *. rewrite bool_decide_eq_false_2 by done.
    destruct (IH st1) as (I1 & I2 & I3 & I4 & I5 & I6 & I7).
    assert (Hnew : first_edges (default [] (declared st1 !! key)) l = first_edges ((f0, t0) :: default [] (declared st !! key)) l).
    { apply first_edges_ext. intros p. pose proof (A5 key p) as H. unfold declares in H. rewrite H, elem_of_cons. tauto. }
    rewrite Hnew in *. set (new := first_edges _ l) in *. rewrite <- A6, <- A7. split; [|split; [|split; [auto|split; [|split; [|done]]]]].
    + intros f t lb o. rewrite I1, A1, elem_of_cons. tauto.
    + intros f t lb o. rewrite I2, A2, elem_of_cons. tauto.
    + intros x. rewrite I4, A4. split.
      * intros [Hx|(f & t & lb & Hin & Hx)]; [|right; exists f, t, lb; split; [by right|done]]. rewrite !elem_of_union, !elem_of_singleton in Hx. destruct Hx as [Hx|]; [right|by left]. exists f0, t0, lb0. split; [left|done].
      * intros [Hx|(f & t & lb & [[= -> -> ->]|Hin]%elem_of_cons & Hx)]; [left; set_solver|left; set_solver|]. right. by exists f, t, lb.
    + intros o p. rewrite I5, A5. cbn. rewrite elem_of_cons. tauto.
Qed.

(** ** The invariant *)

(** The edges of a document, and its class. *)
Definition document_edges key doc : list (bytes * bytes * bytes) := first_edges [] (asserted key doc).
Definition document_class doc : option bytes := if bool_decide (DeriveClass doc = []) then None else Some (DeriveClass doc).

(** What the documents of a collection assert. *)
Definition asserts D f t lb o : Prop := exists doc, D !! o = Some doc /\ (f, t, lb) ∈ document_edges o doc.

Record index_ok st D : Prop := {
  ix_out : forall f t lb o, has_out st f t lb o <-> asserts D f t lb o;
  ix_in : forall f t lb o, has_in st f t lb o <-> asserts D f t lb o;
  ix_declared : forall o f t, declares st o (f, t) <-> exists lb, asserts D f t lb o;
  ix_no_empty : no_empty_in st;
  ix_nodes : forall x, is_Some (D !! x) \/ (exists f t lb o, asserts D f t lb o /\ (x = f \/ x = t)) -> x ∈ dom (out_edges st);
  ix_class : forall k, key_class st !! k = D !! k ≫= document_class;
  ix_members : forall cls k, k ∈ members_of st cls <-> key_class st !! k = Some cls;
  ix_no_empty_class : forall cls, class_members st !! cls <> Some ∅;
}.

Lemma asserts_insert D key doc f t lb o :
  asserts (<[key := doc]> D) f t lb o <-> (o = key /\ (f, t, lb) ∈ document_edges key doc) \/ (o <> key /\ asserts D f t lb o).
Proof.
  unfold asserts. destruct (decide (o = key)) as [->|Hne].
  - rewrite lookup_insert_eq. split; [intros (d & [= <-] & H); by left|]. intros [[_ H]|[? _]]; [by exists doc|done].
  - rewrite lookup_insert_ne by done. split; [intros H; by right|]. intros [[? _]|[_ H]]; done.
Qed.

(** *** Removing a document *)
Lemma remove_class_ok key st :
  (forall cls k, k ∈ members_of st cls <-> key_class st !! k = Some cls) -> (forall cls, class_members st !! cls <> Some ∅) ->
  let st' := remove_class key st in
  key_class st' = delete key (key_class st) /\ (forall cls k, k ∈ members_of st' cls <-> k <> key /\ k ∈ members_of st cls) /\ (forall cls, class_members st' !! cls <> Some ∅)
  /\ out_edges st' = out_edges st /\ in_edges st' = in_edges st /\ declared st' = declared st.
Proof.
  intros Hm Hne. unfold remove_class. destruct (key_class st !! key) as [cls0|] eqn:E.
  - set (ms := match class_members st !! cls0 with Some _ => _ | None => _ end).
    assert (Hms : forall cls, default ∅ (ms !! cls) = if decide (cls = cls0) then members_of st cls0 ∖ {[key]} else members_of st cls).
    { intros cls. unfold ms, members_of. destruct (class_members st !! cls0) as [s|] eqn:Es; cbn [default from_option id]; [case_bool_decide as Hb|]; case_decide as Hc; try subst cls.
      - by rewrite lookup_delete_eq, Hb.
      - by rewrite lookup_delete_ne.
      - by rewrite lookup_insert_eq.
      - by rewrite lookup_insert_ne.
      - rewrite Es. cbn. set_solver.
      - done. }
    assert (Hms0 : forall cls, ms !! cls <> Some ∅).
    { intros cls. unfold ms. destruct (class_members st !! cls0) as [s|] eqn:Es; [|apply Hne]. case_bool_decide as Hb.
      - destruct (decide (cls = cls0)) as [->|]; [by rewrite lookup_delete_eq|rewrite lookup_delete_ne by done; apply Hne].
      - destruct (decide (cls = cls0)) as [->|]; [rewrite lookup_insert_eq; congruence|rewrite lookup_insert_ne by done; apply Hne]. }
    cbv zeta. split; [done|]. split; [|split; [exact Hms0|done]]. intros cls k. change (k ∈ default ∅ (ms !! cls) <-> k <> key /\ k ∈ members_of st cls). rewrite Hms. case_decide as Hc; [subst; set_solver|].
    split; [|tauto]. intros Hin. split; [|done]. intros ->. apply Hm in Hin. congruence.
  - split; [by rewrite delete_id|]. split; [|done]. intros cls k. split; [|tauto]. intros Hin. split; [|done]. intros ->. apply Hm in Hin. congruence.
Qed.

Lemma unindex_ok key st D : index_ok st D -> let st' := UnindexDocumentLocked key st in
  (forall f t lb o, has_out st' f t lb o <-> o <> key /\ asserts D f t lb o) /\ (forall f t lb o, has_in st' f t lb o <-> o <> key /\ asserts D f t lb o)
  /\ (forall o f t, declares st' o (f, t) <-> o <> key /\ exists lb, asserts D f t lb o) /\ no_empty_in st' /\ dom (out_edges st') = dom (out_edges st)
  /\ key_class st' = delete key (key_class st) /\ (forall cls k, k ∈ members_of st' cls <-> k <> key /\ k ∈ members_of st cls) /\ (forall cls, class_members st' !! cls <> Some ∅).
Proof.
  intros [I1 I2 I3 I4 I5 I6 I7 I8]. unfold UnindexDocumentLocked. set (pairs := default [] (declared st !! key)).
  set (st1 := match declared st !! key with Some _ => _ | None => _ end).
  destruct (remove_edges key pairs st I4) as (R1 & R2 & R3 & R4 & R5 & R6 & R7). set (st0 := fold_left (remove_edge key) pairs st) in *.
  assert (H1 : out_edges st1 = out_edges st0 /\ in_edges st1 = in_edges st0 /\ class_members st1 = class_members st /\ key_class st1 = key_class st /\ declared st1 = delete key (declared st)).
  { unfold st1, st0, pairs in *. destruct (declared st !! key) as [l|] eqn:E; cbn [default from_option id] in *.
    - cbn. rewrite R5, R6, R7. done.
    - cbn. by rewrite delete_id. }
  destruct H1 as (O1 & O2 & O3 & O4 & O5).
  destruct (remove_class_ok key st1) as (C1 & C2 & C3 & C4 & C5 & C6).
  { intros cls k. unfold members_of. rewrite O3, O4. apply I7. }
  { intros cls. rewrite O3. apply I8. }
  assert (Hpair : forall f t, (f, t) ∈ pairs <-> exists lb, asserts D f t lb key) by (intros f t; apply I3).
  split; [|split; [|split; [|split; [|split; [|split; [|split]]]]]].
  - intros f t lb o. unfold has_out, out_of. rewrite C4, O1. fold (out_of st0 f). fold (has_out st0 f t lb o). rewrite R1, I1. split.
    + intros [Ha Hn]. split; [|done]. intros ->. apply Hn. split; [done|]. apply Hpair. by exists lb.
    + intros [Hne Ha]. split; [done|]. tauto.
  - intros f t lb o. unfold has_in, in_of. rewrite C5, O2. fold (in_of st0 t). fold (has_in st0 f t lb o). rewrite R2, I2. split.
    + intros [Ha Hn]. split; [|done]. intros ->. apply Hn. split; [done|]. apply Hpair. by exists lb.
    + intros [Hne Ha]. split; [done|]. tauto.
  - intros o f t. unfold declares. rewrite C6, O5. destruct (decide (o = key)) as [->|Hne].
    + rewrite lookup_delete_eq. cbn. rewrite elem_of_nil. tauto.
    + rewrite lookup_delete_ne by done. fold (declares st o (f, t)). rewrite I3. tauto.
  - intros t. rewrite C5, O2. apply R3.
  - by rewrite C4, O1, R4.
  - by rewrite C1, O4.
  - intros cls k. rewrite C2. unfold members_of. by rewrite O3.
  - done.
Qed.

(** *** Indexing a document *)
Lemma add_class_ok key doc st :
  key_class st !! key = None -> (forall cls k, k ∈ members_of st cls <-> key_class st !! k = Some cls) -> (forall cls, class_members st !! cls <> Some ∅) ->
  let st' := add_class key doc st in
  (forall k, key_class st' !! k = if decide (k = key) then document_class doc else key_class st !! k)
  /\ (forall cls k, k ∈ members_of st' cls <-> key_class st' !! k = Some cls) /\ (forall cls, class_members st' !! cls <> Some ∅)
  /\ out_edges st' = out_edges st /\ in_edges st' = in_edges st /\ declared st' = declared st.
Proof.
  intros Hk Hm Hne. unfold add_class, document_class. case_bool_decide as Hc; cbv zeta.
  - split; [|done]. intros k. case_decide; [by subst|done].
  - set (cls0 := DeriveClass doc) in *. cbn [key_class class_members set_classes out_edges in_edges declared].
    assert (Hkc : forall k, <[key := cls0]> (key_class st) !! k = if decide (k = key) then Some cls0 else key_class st !! k).
    { intros k. case_decide as Ek; [subst; by rewrite lookup_insert_eq|by rewrite lookup_insert_ne]. }
    split; [done|]. split; [|split; [|done]].
    + intros cls k. rewrite Hkc. unfold members_of. cbn [class_members set_classes]. destruct (decide (cls = cls0)) as [->|Hcl].
      * rewrite lookup_insert_eq. cbn [default from_option id]. rewrite elem_of_union, elem_of_singleton. fold (members_of st cls0). rewrite Hm. case_decide as Ek; [subst; naive_solver|naive_solver].
      * rewrite lookup_insert_ne by done. fold (members_of st cls). rewrite Hm. case_decide as Ek; [subst; naive_solver|done].
    + intros cls. destruct (decide (cls = cls0)) as [->|]; [rewrite lookup_insert_eq; intros [= E]; set_solver|rewrite lookup_insert_ne by done; apply Hne].
Qed.

(** The index follows the documents. *)
Lemma index_document key doc st D : index_ok st D -> index_ok (IndexDocumentLocked key doc st) (<[key := doc]> D).
Proof.
  intros Hi. pose proof (ix_nodes _ _ Hi) as Hnodes. pose proof (ix_class _ _ Hi) as Hcls. pose proof (ix_members _ _ Hi) as Hmem.
  destruct (unindex_ok key st D Hi) as (U1 & U2 & U3 & U4 & U5 & U6 & U7 & U8). unfold IndexDocumentLocked. set (st1 := UnindexDocumentLocked key st) in *.
  set (st2 := set_declared _ st1).
  assert (Hmine : default [] (declared st1 !! key) = []).
  { destruct (default [] (declared st1 !! key)) as [|[f t] l] eqn:E; [done|]. assert (H : declares st1 key (f, t)) by (unfold declares; rewrite E; left). apply U3 in H as [? _]. done. }
  destruct (add_edges key (asserted key doc) st2) as (A1 & A2 & A3 & A4 & A5 & A6 & A7). set (st3 := fold_left (add_edge key) (asserted key doc) st2) in *.
  assert (Hnew : first_edges (default [] (declared st2 !! key)) (asserted key doc) = document_edges key doc) by (unfold st2; cbn; rewrite lookup_insert_eq, Hmine; done). rewrite Hnew in *.
  set (st4 := set_edges _ _ st3). destruct (add_class_ok key doc st4) as (C1 & C2 & C3 & C4 & C5 & C6).
  { change (key_class st3 !! key = None). rewrite A7. change (key_class st1 !! key = None). rewrite U6. apply lookup_delete_eq. }
  { intros cls k. change (k ∈ members_of st3 cls <-> key_class st3 !! k = Some cls). unfold members_of. rewrite A6, A7. change (k ∈ members_of st1 cls <-> key_class st1 !! k = Some cls).
    rewrite U6, U7, Hmem. destruct (decide (k = key)) as [->|]; [rewrite lookup_delete_eq; naive_solver|rewrite lookup_delete_ne by done; naive_solver]. }
  { intros cls. change (class_members st3 !! cls <> Some ∅). rewrite A6. apply U8. }
  set (st5 := add_class key doc st4) in *.
  assert (Hout : forall f, out_of st5 f = out_of st3 f) by (intros f; unfold out_of; rewrite C4; apply emplace_node_out).
  assert (Hin : forall t, in_of st5 t = in_of st3 t) by (intros t; unfold in_of; by rewrite C5).
  split.
  - intros f t lb o. change (has_out st5 f t lb o <-> asserts (<[key := doc]> D) f t lb o). unfold has_out. rewrite Hout. fold (has_out st3 f t lb o). rewrite A1, asserts_insert. change (has_out st2 f t lb o) with (has_out st1 f t lb o). rewrite U1. tauto.
  - intros f t lb o. change (has_in st5 f t lb o <-> asserts (<[key := doc]> D) f t lb o). unfold has_in. rewrite Hin. fold (has_in st3 f t lb o). rewrite A2, asserts_insert. change (has_in st2 f t lb o) with (has_in st1 f t lb o). rewrite U2. tauto.
  - intros o f t. change (declares st5 o (f, t) <-> exists lb, asserts (<[key := doc]> D) f t lb o). unfold declares. rewrite C6. change (declares st3 o (f, t) <-> exists lb, asserts (<[key := doc]> D) f t lb o). rewrite A5.
    assert (H2 : declares st2 o (f, t) <-> o <> key /\ exists lb, asserts D f t lb o).
    { rewrite <- U3. unfold declares, st2. cbn. destruct (decide (o = key)) as [->|]; [by rewrite lookup_insert_eq, Hmine|by rewrite lookup_insert_ne]. }
    rewrite H2, list_elem_of_fmap. setoid_rewrite asserts_insert. split.
    + intros [[Hne [lb Ha]]|[-> ([[f' t'] lb] & [= <- <-] & Hin')]]; exists lb; [by right|by left].
    + intros [lb [[-> Hin']|[Hne Ha]]]; [right|left]; [split; [done|]; by exists (f, t, lb)|]. split; [done|]. by exists lb.
  - intros t. change (in_edges st5 !! t <> Some []). rewrite C5. by apply A3.
  - intros x Hx. change (x ∈ dom (out_edges st5)). rewrite C4. change (x ∈ dom (emplace_node key (out_edges st3))). rewrite emplace_node_dom, elem_of_union, elem_of_singleton, A4. change (out_edges st2) with (out_edges st1). rewrite U5.
    destruct Hx as [Hx|(f & t & lb & o & Ha & Hx)].
    + destruct (decide (x = key)) as [|Hne]; [by left|]. rewrite lookup_insert_ne in Hx by done. right. left. apply Hnodes. by left.
    + right. apply asserts_insert in Ha as [[-> Ha]|[_ Ha]]; [right; by exists f, t, lb|left]. apply Hnodes. right. by exists f, t, lb, o.
  - intros k. change (key_class st5 !! k = <[key := doc]> D !! k ≫= document_class). rewrite C1. case_decide as Ek; [subst; by rewrite lookup_insert_eq|]. rewrite lookup_insert_ne by done.
    change (key_class st3 !! k = D !! k ≫= document_class). rewrite A7. change (key_class st1 !! k = D !! k ≫= document_class). rewrite U6, lookup_delete_ne by done. apply Hcls.
  - exact C2.
  - exact C3.
Qed.

Lemma empty_index_ok page d : index_ok (mkGraph ∅ ∅ ∅ ∅ ∅ page d) ∅.
Proof.
  assert (Ha : forall f t lb o, ~ asserts ∅ f t lb o) by (intros f t lb o (doc & H & _); by rewrite lookup_empty in H).
  split.
  - intros f t lb o. split; [|intros H; by apply Ha in H]. unfold has_out, out_of. cbn. rewrite lookup_empty. by intros ?%elem_of_nil.
  - intros f t lb o. split; [|intros H; by apply Ha in H]. unfold has_in, in_of. cbn. rewrite lookup_empty. by intros ?%elem_of_nil.
  - intros o f t. split; [|intros [lb H]; by apply Ha in H]. unfold declares. cbn. rewrite lookup_empty. by intros ?%elem_of_nil.
  - intros t. cbn. by rewrite lookup_empty.
  - intros x [[doc H]|(f & t & lb & o & H & _)]; [by rewrite lookup_empty in H|by apply Ha in H].
  - intros k. cbn. by rewrite !lookup_empty.
  - intros cls k. unfold members_of. cbn. rewrite !lookup_empty. cbn. set_solver.
  - intros cls. cbn. by rewrite lookup_empty.
Qed.

(** Any order of documents, with any versions, leaves the edges of the latest. *)
Definition index_all (rows : list EngineRow) st : GraphCollection := fold_left (fun st r => IndexDocumentLocked r.1 r.2 st) rows st.

Lemma index_all_ok (rows : list EngineRow) st D : index_ok st D -> index_ok (index_all rows st) (fold_left (fun D r => <[r.1 := r.2]> D) rows D).
Proof. revert st D. induction rows as [|[k d] rows IH]; intros st D Hi; [done|]. apply IH. by apply index_document. Qed.
