(* ===== verification/GraphSnapshot.v ===== *)
(** * The snapshot of an adjacency

    Decoding what was encoded gives maps that hold the same edges, nodes and classes: the
    reverse index and the owners are rebuilt from the out-edges. *)
From S2P Require Import Prelude Bytes Json Backend GraphAdj GraphIndex.
Local Open Scope Z_scope.

Implicit Types (st : GraphCollection) (f t lb o k cls : bytes) (D : gmap bytes bytes) (l : list (bytes * list GraphEdge)).

(** ** Reading what was written *)
Definition edge_fits (e : GraphEdge) : Prop := blob_ok (ge_to e) /\ blob_ok (ge_label e) /\ blob_ok (ge_owner e).
Definition source_fits (p : bytes * list GraphEdge) : Prop := blob_ok p.1 /\ Zlen p.2 < 2 ^ 32 /\ Forall edge_fits p.2.
Definition classed_fits (p : bytes * bytes) : Prop := blob_ok p.1 /\ blob_ok p.2.

Record snapshot_fits st : Prop := {
  sf_sources : Z.of_nat (size (out_edges st)) < 2 ^ 32;
  sf_classed : Z.of_nat (size (key_class st)) < 2 ^ 32;
  sf_edges : Forall source_fits (map_to_list (out_edges st));
  sf_classes : Forall classed_fits (map_to_list (key_class st));
}.

#[export] Instance edge_round_trip : RoundTrip write_edge read_edge edge_fits.
Proof.
  intros [t lb o] rest (H1 & H2 & H3). cbn [ge_to ge_label ge_owner] in *. unfold read_edge, write_edge. cbn [ge_to ge_label ge_owner].
  do 3 (unfold rbind at 1; rewrite <- ?app_assoc, round_trip by done). done.
Qed.

Definition load_source st (p : bytes * list GraphEdge) : GraphCollection :=
  fold_left (load_edge p.1) p.2 (set_edges (emplace_node p.1 (out_edges st)) (in_edges st) st).
Definition load_classed st (p : bytes * bytes) : GraphCollection := load_class p.1 p.2 st.

Lemma read_edges_ok from (es : list GraphEdge) st rest :
  Forall edge_fits es -> read_edges (length es) from st (concat (map write_edge es) ++ rest) = Some (fold_left (load_edge from) es st, rest).
Proof.
  intros H. revert st. induction H as [|e es He _ IH]; intros st; [done|]. cbn [length read_edges map concat fold_left]. unfold rbind. rewrite <- app_assoc, round_trip by done. apply IH.
Qed.

Lemma read_sources_ok l st rest :
  Forall source_fits l -> read_sources (length l) st (concat (map write_source l) ++ rest) = Some (fold_left load_source l st, rest).
Proof.
  intros H. revert st. induction H as [|[f es] l (H1 & H2 & H3) _ IH]; intros st; [done|]. cbn [length read_sources map concat fold_left fst snd] in *. unfold write_source at 1. cbn [fst snd].
  unfold rbind at 1. rewrite <- !app_assoc, round_trip by done. unfold rbind at 1. rewrite round_trip by (split; [apply Zlen_nonneg|done]). unfold Zlen. rewrite Nat2Z.id.
  unfold rbind at 1. rewrite read_edges_ok by done. apply IH.
Qed.

Lemma read_classes_ok (ks : list (bytes * bytes)) st rest :
  Forall classed_fits ks -> read_classes (length ks) st (concat (map write_classed ks) ++ rest) = Some (fold_left load_classed ks st, rest).
Proof.
  intros H. revert st. induction H as [|[k cls] ks (H1 & H2) _ IH]; intros st; [done|]. cbn [length read_classes map concat fold_left fst snd] in *. unfold write_classed at 1. cbn [fst snd].
  unfold rbind at 1. rewrite <- !app_assoc, round_trip by done. unfold rbind at 1. rewrite round_trip by done. apply IH.
Qed.

Definition reloaded st : GraphCollection := fold_left load_classed (map_to_list (key_class st)) (fold_left load_source (map_to_list (out_edges st)) new_graph).

Lemma adjacency_read st : snapshot_fits st -> DecodeAdjacency (EncodeAdjacency st) = OK (reloaded st).
Proof.
  intros [H1 H2 H3 H4]. unfold DecodeAdjacency, EncodeAdjacency, read_adjacency. unfold rbind at 1. rewrite round_trip by done. rewrite Z.eqb_refl. cbn [negb].
  unfold rbind at 1. rewrite round_trip by (unfold fits; lia). rewrite Nat2Z.id, <- (length_map_to_list (out_edges st)). unfold rbind at 1. rewrite read_sources_ok by done.
  unfold rbind at 1. rewrite round_trip by (unfold fits; lia). rewrite Nat2Z.id, <- (length_map_to_list (key_class st)). unfold rbind at 1.
  rewrite <- (app_nil_r (concat (map write_classed _))), read_classes_ok by done. done.
Qed.

(** ** What the maps hold then *)
Lemma load_edge_spec from st e :
  (forall f t lb o, has_out (load_edge from st e) f t lb o <-> has_out st f t lb o \/ (f = from /\ mkEdge t lb o = e))
  /\ (forall f t lb o, has_in (load_edge from st e) f t lb o <-> has_in st f t lb o \/ (f = from /\ mkEdge t lb o = e))
  /\ (forall f t o, declares (load_edge from st e) o (f, t) <-> declares st o (f, t) \/ (f = from /\ exists lb, mkEdge t lb o = e))
  /\ (no_empty_in st -> no_empty_in (load_edge from st e)) /\ dom (out_edges (load_edge from st e)) = {[from]} ∪ dom (out_edges st)
  /\ class_members (load_edge from st e) = class_members st /\ key_class (load_edge from st e) = key_class st.
Proof.
  destruct e as [t0 lb0 o0]. unfold load_edge. cbn [ge_to ge_label ge_owner]. split; [|split; [|split; [|split; [|split; [|done]]]]].
  - intros f t lb o. unfold has_out, out_of. cbn [out_edges set_edges set_declared]. destruct (decide (f = from)) as [->|Hne].
    + rewrite lookup_insert_eq. cbn [default from_option id]. rewrite elem_of_app, list_elem_of_singleton. tauto.
    + rewrite lookup_insert_ne by done. tauto.
  - intros f t lb o. unfold has_in, in_of. cbn [in_edges set_edges set_declared]. destruct (decide (t = t0)) as [->|Hne].
    + rewrite lookup_insert_eq. cbn [default from_option id]. rewrite elem_of_app, list_elem_of_singleton. split; (intros [?|H]; [by left|right]); [by injection H as -> -> ->|destruct H as [-> H]; by injection H as -> ->].
    + rewrite lookup_insert_ne by done. split; [by left|]. intros [?|[_ H]]; [done|]. congruence.
  - intros f t o. unfold declares. cbn [declared set_declared]. destruct (decide (o = o0)) as [->|Hne].
    + rewrite lookup_insert_eq. cbn [default from_option id]. rewrite elem_of_app, list_elem_of_singleton. split; (intros [?|H]; [by left|right]).
      * injection H as -> ->. split; [done|]. by exists lb0.
      * destruct H as [-> [lb H]]. by injection H as -> _.
    + rewrite lookup_insert_ne by done. split; [by left|]. intros [?|[_ [lb H]]]; [done|]. congruence.
  - intros Hne t. cbn [in_edges set_edges set_declared]. destruct (decide (t = t0)) as [->|]; [|rewrite lookup_insert_ne by done; apply Hne]. rewrite lookup_insert_eq. intros [= E]. by apply app_eq_nil in E as [_ ?].
  - cbn. by rewrite dom_insert_L.
Qed.

Lemma load_edges_spec from (es : list GraphEdge) st : let st' := fold_left (load_edge from) es st in
  from ∈ dom (out_edges st) ->
  (forall f t lb o, has_out st' f t lb o <-> has_out st f t lb o \/ (f = from /\ mkEdge t lb o ∈ es))
  /\ (forall f t lb o, has_in st' f t lb o <-> has_in st f t lb o \/ (f = from /\ mkEdge t lb o ∈ es))
  /\ (forall f t o, declares st' o (f, t) <-> declares st o (f, t) \/ (f = from /\ exists lb, mkEdge t lb o ∈ es))
  /\ (no_empty_in st -> no_empty_in st') /\ dom (out_edges st') = dom (out_edges st) /\ class_members st' = class_members st /\ key_class st' = key_class st.
Proof.
  revert st. induction es as [|e es IH]; intros st st' Hd; unfold st'; clear st'; cbn [fold_left].
  { split; [intros; rewrite elem_of_nil; tauto|]. split; [intros; rewrite elem_of_nil; tauto|]. split; [|done]. intros f t o. split; [by left|]. intros [?|[_ [lb ?%elem_of_nil]]]; done. }
  destruct (load_edge_spec from st e) as (L1 & L2 & L3 & L4 & L5 & L6 & L7).
  destruct (IH (load_edge from st e)) as (I1 & I2 & I3 & I4 & I5 & I6 & I7); [rewrite L5; set_solver|]. rewrite <- L6, <- L7.
  split; [|split; [|split; [|split; [auto|split; [rewrite I5, L5; set_solver|done]]]]].
  - intros f t lb o. rewrite I1, L1, elem_of_cons. tauto.
  - intros f t lb o. rewrite I2, L2, elem_of_cons. tauto.
  - intros f t o. rewrite I3, L3. setoid_rewrite elem_of_cons. naive_solver.
Qed.

Lemma load_sources_spec l st : let st' := fold_left load_source l st in
  (forall f t lb o, has_out st' f t lb o <-> has_out st f t lb o \/ exists es, (f, es) ∈ l /\ mkEdge t lb o ∈ es)
  /\ (forall f t lb o, has_in st' f t lb o <-> has_in st f t lb o \/ exists es, (f, es) ∈ l /\ mkEdge t lb o ∈ es)
  /\ (forall f t o, declares st' o (f, t) <-> declares st o (f, t) \/ exists lb es, (f, es) ∈ l /\ mkEdge t lb o ∈ es)
  /\ (no_empty_in st -> no_empty_in st') /\ (forall x, x ∈ dom (out_edges st') <-> x ∈ dom (out_edges st) \/ x ∈ l.*1) /\ class_members st' = class_members st /\ key_class st' = key_class st.
Proof.
  revert st. induction l as [|[from es0] l IH]; intros st; cbn [fold_left].
  { split; [|split; [|split; [|split; [done|split; [|done]]]]].
    - intros f t lb o. split; [by left|]. intros [?|(es & ?%elem_of_nil & _)]; done.
    - intros f t lb o. split; [by left|]. intros [?|(es & ?%elem_of_nil & _)]; done.
    - intros f t o. split; [by left|]. intros [?|(lb & es & ?%elem_of_nil & _)]; done.
    - intros x. cbn. rewrite elem_of_nil. tauto. }
  set (st0 := set_edges (emplace_node from (out_edges st)) (in_edges st) st). change (load_source st (from, es0)) with (fold_left (load_edge from) es0 st0).
  assert (Hdom : dom (out_edges st0) = {[from]} ∪ dom (out_edges st)) by apply emplace_node_dom.
  assert (Hout : forall f t lb o, has_out st0 f t lb o <-> has_out st f t lb o) by (intros; unfold has_out, out_of; cbn; by rewrite emplace_node_out).
  destruct (load_edges_spec from es0 st0) as (E1 & E2 & E3 & E4 & E5 & E6 & E7); [rewrite Hdom; set_solver|].
  set (st1 := fold_left (load_edge from) es0 st0) in *. destruct (IH st1) as (I1 & I2 & I3 & I4 & I5 & I6 & I7).
  split; [|split; [|split; [|split; [auto|split; [|by rewrite I6, I7]]]]].
  - intros f t lb o. rewrite I1, E1, Hout. setoid_rewrite elem_of_cons. naive_solver.
  - intros f t lb o. rewrite I2, E2. change (has_in st0 f t lb o) with (has_in st f t lb o). setoid_rewrite elem_of_cons. naive_solver.
  - intros f t o. rewrite I3, E3. change (declares st0 o (f, t)) with (declares st o (f, t)). setoid_rewrite elem_of_cons. naive_solver.
  - intros x. rewrite I5, E5, Hdom. cbn. set_solver.
Qed.

Lemma load_classes_spec (ks : list (bytes * bytes)) st : let st' := fold_left load_classed ks st in
  NoDup ks.*1 -> (forall k, k ∈ ks.*1 -> key_class st !! k = None) ->
  (forall cls k, k ∈ members_of st cls <-> key_class st !! k = Some cls) -> (forall cls, class_members st !! cls <> Some ∅) ->
  key_class st' = list_to_map ks ∪ key_class st /\ (forall cls k, k ∈ members_of st' cls <-> key_class st' !! k = Some cls) /\ (forall cls, class_members st' !! cls <> Some ∅)
  /\ out_edges st' = out_edges st /\ in_edges st' = in_edges st /\ declared st' = declared st.
Proof.
  revert st. induction ks as [|[k0 cls0] ks IH]; intros st st' Hnd Hk Hm Hne; unfold st'; clear st'; cbn [fold_left]; [cbn; by rewrite (left_id_L ∅ (∪))|].
  cbn in Hnd. apply NoDup_cons in Hnd as [Hni Hnd]. set (st1 := load_class k0 cls0 st). change (load_classed st (k0, cls0)) with st1.
  assert (Hk0 : key_class st !! k0 = None) by (apply Hk; cbn; left).
  destruct (IH st1) as (I1 & I2 & I3 & I4 & I5 & I6).
  - done.
  - intros k Hin. unfold st1. cbn. rewrite lookup_insert_ne by (intros ->; done). apply Hk. cbn. by right.
  - intros cls k. unfold st1, members_of. cbn. destruct (decide (cls = cls0)) as [->|Hc].
    + rewrite lookup_insert_eq. cbn [default from_option id]. rewrite elem_of_union, elem_of_singleton. fold (members_of st cls0). rewrite Hm.
      destruct (decide (k = k0)) as [->|]; [rewrite lookup_insert_eq; naive_solver|rewrite lookup_insert_ne by done; naive_solver].
    + rewrite lookup_insert_ne by done. fold (members_of st cls). rewrite Hm. destruct (decide (k = k0)) as [->|]; [rewrite lookup_insert_eq; naive_solver|by rewrite lookup_insert_ne].
  - intros cls. unfold st1. cbn. destruct (decide (cls = cls0)) as [->|]; [rewrite lookup_insert_eq; intros [= E]; set_solver|rewrite lookup_insert_ne by done; apply Hne].
  - rewrite I4, I5, I6. split; [|done]. rewrite I1. unfold st1. cbn. rewrite <- insert_union_l. symmetry. apply insert_union_r. by apply not_elem_of_list_to_map.
Qed.

(** The reloaded maps hold what the documents assert. *)
Lemma reloaded_ok st D : index_ok st D -> index_ok (reloaded st) D /\ dom (out_edges (reloaded st)) = dom (out_edges st).
Proof.
  intros [I1 I2 I3 I4 I5 I6 I7 I8]. unfold reloaded. destruct (load_sources_spec (map_to_list (out_edges st)) new_graph) as (S1 & S2 & S3 & S4 & S5 & S6 & S7).
  set (st1 := fold_left load_source _ new_graph) in *.
  destruct (load_classes_spec (map_to_list (key_class st)) st1) as (C1 & C2 & C3 & C4 & C5 & C6); [apply NoDup_fst_map_to_list|..].
  { intros k _. by rewrite S7. }
  { intros cls k. unfold members_of. rewrite S6, S7. cbn. rewrite !lookup_empty. cbn. set_solver. }
  { intros cls. by rewrite S6. }
  set (st2 := fold_left load_classed _ st1) in *. rewrite S7, list_to_map_to_list in C1. cbn [key_class new_graph] in C1. rewrite map_union_empty in C1.
  assert (Hrows : forall f t lb o, (exists es, (f, es) ∈ map_to_list (out_edges st) /\ mkEdge t lb o ∈ es) <-> has_out st f t lb o).
  { intros f t lb o. unfold has_out, out_of. setoid_rewrite elem_of_map_to_list. split; [intros (es & -> & H); done|]. destruct (out_edges st !! f) as [es|]; [by exists es|by intros ?%elem_of_nil]. }
  assert (Hdom : dom (out_edges st2) = dom (out_edges st)).
  { rewrite C4. apply set_eq. intros x. rewrite S5. cbn. rewrite dom_empty_L. rewrite elem_of_dom. split.
    - intros [?|H]; [set_solver|]. apply list_elem_of_fmap in H as ([x' es] & -> & H). apply elem_of_map_to_list in H. by eexists.
    - intros [es H]. right. apply (list_elem_of_fmap_2 fst _ (x, es)). by apply elem_of_map_to_list. }
  split; [|done]. split.
  - intros f t lb o. unfold has_out, out_of. rewrite C4. fold (out_of st1 f). fold (has_out st1 f t lb o). rewrite S1, Hrows, I1. split; [|by right]. intros [H|]; [|done]. unfold has_out, out_of in H. cbn in H. rewrite lookup_empty in H. by apply elem_of_nil in H.
  - intros f t lb o. unfold has_in, in_of. rewrite C5. fold (in_of st1 t). fold (has_in st1 f t lb o). rewrite S2, Hrows, I1. split; [|by right]. intros [H|]; [|done]. unfold has_in, in_of in H. cbn in H. rewrite lookup_empty in H. by apply elem_of_nil in H.
  - intros o f t. unfold declares. rewrite C6. fold (declares st1 o (f, t)). rewrite S3. setoid_rewrite Hrows. setoid_rewrite I1. split; [|by right]. intros [H|]; [|done]. unfold declares in H. cbn in H. rewrite lookup_empty in H. by apply elem_of_nil in H.
  - intros t. rewrite C5. apply S4. intros t'. cbn. by rewrite lookup_empty.
  - intros x Hx. rewrite Hdom. by apply I5.
  - intros k. rewrite C1. apply I6.
  - done.
  - done.
Qed.
