(* ===== verification/GraphRefine.v ===== *)
(** * The graph engine answers from its documents

    Documents as in the embedded engine; edges, walks, roots and classes as the documents
    assert them, whatever was written, overwritten, rebuilt and flushed before. *)
From S2P Require Import Prelude Bytes Hlc Json JsonText Crdt CrdtMerge CrdtCodec AtRest AtRestFiles DiskManager BufferPool BufferPoolProps BPlusTree Pins SegmentStore Catalog Backend KvBackend KvProps KvRefine Columnar Lsm GraphAdj GraphWalk GraphIndex.
Local Open Scope Z_scope.

Implicit Types (c k d f t lb o x y cls : bytes) (m : docs) (st : GraphCollection) (g : GraphAdjBackend).

(** ** The documents of a collection *)
Definition docs_in m c : gmap bytes bytes := put_rows ∅ (rows_of m c).

Lemma docs_in_lookup m c k : docs_in m c !! k = m !! (c, k).
Proof.
  unfold docs_in. rewrite put_rows_lookup by (eapply sorted_strict_nodup; [apply _|apply rows_of_sorted]). rewrite rows_of_lookup, lookup_empty. by destruct (m !! (c, k)).
Qed.

Lemma docs_in_insert m c k d c' : docs_in (<[(c, k) := d]> m) c' = if decide (c' = c) then <[k := d]> (docs_in m c) else docs_in m c'.
Proof.
  apply map_eq. intros k'. rewrite docs_in_lookup. case_decide as Hc.
  - subst c'. destruct (decide (k' = k)) as [->|Hk]; [by rewrite !lookup_insert_eq|]. rewrite lookup_insert_ne by congruence. by rewrite lookup_insert_ne, docs_in_lookup by done.
  - rewrite lookup_insert_ne by congruence. by rewrite docs_in_lookup.
Qed.

Lemma docs_in_empty c : docs_in ∅ c = ∅.
Proof. apply map_eq. intros k. by rewrite docs_in_lookup, !lookup_empty. Qed.

(** ** What a document graph is *)
Definition edge m c x y : Prop := exists lb o, asserts (docs_in m c) x y lb o.

Fixpoint steps (R : bytes -> bytes -> Prop) (n : nat) x y : Prop := match n with O => x = y | S n' => exists z, steps R n' x z /\ R z y end.

(** The nodes [1] to [limit] steps away, without the start. *)
Definition reached (R : bytes -> bytes -> Prop) (limit : nat) x (found : list bytes) : Prop :=
  NoDup found /\ forall y, y ∈ found <-> y <> x /\ exists n, (1 <= n <= limit)%nat /\ steps R n x y.

Lemma path_steps (adj : bytes -> list GraphEdge) (R : bytes -> bytes -> Prop) n x y : (forall x y, y ∈ map ge_to (adj x) <-> R x y) -> path adj n x y <-> steps R n x y.
Proof. intros H. revert y. induction n as [|n IH]; intros y; [done|]. cbn. setoid_rewrite IH. by setoid_rewrite H. Qed.

Lemma levels_reached (adj : bytes -> list GraphEdge) (R : bytes -> bytes -> Prop) limit x :
  (forall x y, y ∈ map ge_to (adj x) <-> R x y) -> reached R limit x (walk_levels adj limit [x] {[x]}).
Proof.
  intros HR. destruct (walk_levels_spec adj x limit 0 [x] {[x]} (frontier_start adj x)) as [Hn Hin]. split; [done|]. intros y. rewrite Hin, within_0. split.
  - intros [(i & Hi & Hp) Hne]. split; [by intros ->|]. exists i. destruct i as [|i]; [by cbn in Hp|]. split; [cbn in Hi; lia|]. by apply (path_steps adj).
  - intros [Hne (i & Hi & Hp)]. split; [|by intros ->]. exists i. split; [cbn; lia|]. by apply (path_steps adj R).
Qed.

Lemma out_targets st D x y : index_ok st D -> y ∈ map ge_to (out_of st x) <-> exists lb o, asserts D x y lb o.
Proof.
  intros Hi. rewrite list_elem_of_In, in_map_iff. setoid_rewrite <- (ix_out _ _ Hi). split.
  - intros ([t lb o] & <- & H). apply list_elem_of_In in H. by exists lb, o.
  - intros (lb & o & H). exists (mkEdge y lb o). split; [done|]. by apply list_elem_of_In.
Qed.

Lemma in_targets st D x y : index_ok st D -> y ∈ map ge_to (in_of st x) <-> exists lb o, asserts D y x lb o.
Proof.
  intros Hi. rewrite list_elem_of_In, in_map_iff. setoid_rewrite <- (ix_in _ _ Hi). split.
  - intros ([t lb o] & <- & H). apply list_elem_of_In in H. by exists lb, o.
  - intros (lb & o & H). exists (mkEdge y lb o). split; [done|]. by apply list_elem_of_In.
Qed.

(** *** The answers

    An edge list names every pair of a target and a label once. It may omit a pair only
    when another edge has a different target and the same text once target and label are
    written one after the other. *)
Definition run_together (e1 e2 : GraphEdge) : Prop := ge_to e1 ++ ge_label e1 = ge_to e2 ++ ge_label e2 /\ ge_to e1 <> ge_to e2.

Record edges_answer (P : GraphEdge -> Prop) (answer : list GraphEdge) : Prop := {
  ea_sound : forall e, e ∈ answer -> P e;
  ea_complete : forall e, P e -> (forall e', P e' -> ~ run_together e' e) -> exists e', e' ∈ answer /\ ge_to e' = ge_to e /\ ge_label e' = ge_label e;
  ea_distinct : NoDup (map (fun e => (ge_to e, ge_label e)) answer);
}.

Lemma unique_edges_spec seen (l : list GraphEdge) :
  (forall e, e ∈ unique_edges seen l -> e ∈ l /\ edge_signature e ∉ seen)
  /\ (forall e, e ∈ l -> edge_signature e ∈ seen \/ exists e', e' ∈ unique_edges seen l /\ edge_signature e' = edge_signature e) /\ NoDup (map edge_signature (unique_edges seen l)).
Proof.
  revert seen. induction l as [|e l IH]; intros seen; cbn [unique_edges].
  { split; [by intros e ?%elem_of_nil|]. split; [by intros e ?%elem_of_nil|constructor]. }
  case_bool_decide as Hs.
  - destruct (IH seen) as (I1 & I2 & I3). split; [|split; [|done]].
    + intros e' [H1 H2]%I1. split; [by right|done].
    + intros e' [->|H]%elem_of_cons; [by left|by apply I2].
  - destruct (IH ({[edge_signature e]} ∪ seen)) as (I1 & I2 & I3). split; [|split].
    + intros e' [->|H]%elem_of_cons; [split; [left|done]|]. apply I1 in H as [H1 H2]. split; [by right|set_solver].
    + intros e' [->|H]%elem_of_cons; [right; exists e; split; [left|done]|]. destruct (I2 e' H) as [H1|(e'' & H1 & H2)].
      * rewrite elem_of_union, elem_of_singleton in H1. destruct H1 as [H1|]; [right|by left]. exists e. split; [left|done].
      * right. exists e''. split; [by right|done].
    + cbn. constructor; [|done]. intros Hin. apply list_elem_of_In, in_map_iff in Hin as (e' & He & Hin). apply list_elem_of_In, I1 in Hin as [_ Hn]. set_solver.
Qed.

Lemma unique_answer (P : GraphEdge -> Prop) (l : list GraphEdge) : (forall e, e ∈ l <-> P e) -> edges_answer P (unique_edges ∅ l).
Proof.
  intros H. destruct (unique_edges_spec ∅ l) as (U1 & U2 & U3). unfold edge_signature in *. split.
  - intros e He. by apply H, U1.
  - intros e He Hn. destruct (U2 e (proj2 (H e) He)) as [Hs|(e' & He' & Hs)]; [set_solver|]. exists e'. split; [done|].
    assert (Ht : ge_to e' = ge_to e).
    { destruct (decide (ge_to e' = ge_to e)) as [|Hne]; [done|]. destruct (Hn e'); [|done]. by apply H, U1. }
    split; [done|]. rewrite Ht in Hs. by apply app_inv_head in Hs.
  - clear -U3. revert U3. generalize (unique_edges ∅ l). intros l'. induction l' as [|e l' IH]; cbn; intros Hu; [constructor|]. apply NoDup_cons in Hu as [Hn Hu]. constructor; [|by apply IH].
    intros Hin. apply Hn. apply list_elem_of_In, in_map_iff in Hin as (e' & He & Hin). apply list_elem_of_In, in_map_iff. exists e'. split; [|done]. by injection He as -> ->.
Qed.

(** The keys without an edge into them: those of documents and of ends of edges, and
    possibly of nodes no document mentions any more. *)
Definition roots_answer m c (answer : list bytes) : Prop :=
  sorted_strict str_lt id answer /\ (forall x, x ∈ answer -> forall y, ~ edge m c y x)
  /\ (forall x, (is_Some (m !! (c, x)) \/ exists y, edge m c x y) -> (forall y, ~ edge m c y x) -> x ∈ answer).

Definition classes_answer m c (answer : list bytes) : Prop :=
  sorted_strict str_lt id answer /\ forall cls, cls ∈ answer <-> exists k d, m !! (c, k) = Some d /\ document_class d = Some cls.

Lemma index_roots st m c : index_ok st (docs_in m c) -> roots_answer m c (roots_of st).
Proof.
  intros Hi. assert (Hroot : forall x, is_root st x = true <-> forall y, ~ edge m c y x).
  { intros x. unfold is_root. rewrite bool_decide_eq_true. split.
    - intros Hn y (lb & o & Ha). apply (ix_in _ _ Hi) in Ha. unfold has_in, in_of in Ha. rewrite Hn in Ha. by apply elem_of_nil in Ha.
    - intros Hn. destruct (in_edges st !! x) as [[|[y lb o] l]|] eqn:E; [by destruct (ix_no_empty _ _ Hi x)| |done].
      destruct (Hn y). exists lb, o. apply (ix_in _ _ Hi). unfold has_in, in_of. rewrite E. left. }
  unfold roots_of, roots_answer. split; [|split].
  - apply std_sort_sorted; [apply _|]. rewrite list_fmap_id. apply NoDup_filter, NoDup_fst_map_to_list.
  - intros x Hx. rewrite std_sort_elem_of, list_elem_of_filter in Hx. apply Hroot, Hx.
  - intros x Hx Hn. rewrite std_sort_elem_of, list_elem_of_filter. split; [by apply Hroot|]. assert (Hd : x ∈ dom (out_edges st)).
    { apply (ix_nodes _ _ Hi). destruct Hx as [Hx|(y & lb & o & Ha)]; [left; by rewrite docs_in_lookup|right]. exists x, y, lb, o. auto. }
    apply elem_of_dom in Hd as [l Hl]. apply (list_elem_of_fmap_2 fst _ (x, l)). by apply elem_of_map_to_list.
Qed.

Lemma index_classes st m c : index_ok st (docs_in m c) -> classes_answer m c (classes_of st).
Proof.
  intros Hi. unfold classes_of, classes_answer. split.
  - apply std_sort_sorted; [apply _|]. rewrite list_fmap_id. apply NoDup_fst_map_to_list.
  - intros cls. rewrite std_sort_elem_of. assert (Hm : forall k, k ∈ members_of st cls <-> exists d, m !! (c, k) = Some d /\ document_class d = Some cls).
    { intros k. rewrite (ix_members _ _ Hi), (ix_class _ _ Hi), docs_in_lookup. destruct (m !! (c, k)) as [d|]; cbn; naive_solver. }
    split.
    + intros H. apply list_elem_of_fmap in H as ([cls' s] & -> & H). apply elem_of_map_to_list in H. cbn [fst] in *. destruct (decide (s = ∅)) as [->|Hne]; [by destruct (ix_no_empty_class _ _ Hi cls')|].
      apply set_choose_L in Hne as [k Hk]. exists k. apply Hm. unfold members_of. by rewrite H.
    + intros (k & Hk). apply Hm in Hk. unfold members_of in Hk. destruct (class_members st !! cls) as [s|] eqn:E; [|cbn in Hk; set_solver]. apply (list_elem_of_fmap_2 fst _ (cls, s)). by apply elem_of_map_to_list.
Qed.

(** Verification finds every reverse edge. *)
Lemma index_reversible st D : index_ok st D -> reversible st = true.
Proof.
  intros Hi. unfold reversible. apply forallb_forall. intros [f es] Hin. apply list_elem_of_In, elem_of_map_to_list in Hin. apply forallb_forall. intros [t lb o] He. apply list_elem_of_In in He. cbn [fst snd] in *.
  assert (Ho : has_out st f t lb o) by (unfold has_out, out_of; by rewrite Hin). apply (ix_out _ _ Hi), (ix_in _ _ Hi) in Ho. unfold has_reverse. apply existsb_exists. cbn [ge_to ge_owner].
  exists (mkEdge f lb o). split; [by apply list_elem_of_In|]. cbn. by rewrite !bool_decide_eq_true_2.
Qed.

(** ** Operations *)
Inductive graph_op :=
  | GPut (merge : bool) (c k d : bytes)
  | GGet (c k : bytes)
  | GScan (c start : bytes) (limit : nat)
  | GOut (c k : bytes)
  | GIn (c k : bytes)
  | GDescendants (c root : bytes) (max_depth : nat)
  | GAncestors (c node : bytes)
  | GRoots (c : bytes)
  | GClasses (c : bytes)
  | GRebuild (c : bytes)
  | GVerify
  | GFlush.

Inductive graph_answer :=
  | GStatus (st : StatusOr unit)
  | GDoc (d : StatusOr bytes)
  | GRows (rows : list EngineRow)
  | GEdges (l : list GraphEdge)
  | GKeys (l : list bytes).

Definition graph_op_ok (o : graph_op) : Prop := match o with GPut _ _ k d => (Byte.x00 ∉ k) /\ Zlen d < 2 ^ 63 | _ => True end.

(** What the documents allow, and whether a flush has happened.  A put stores or leaves
    everything as it was; without a quota it takes every document that fits a page.
    Verification succeeds as long as there is no snapshot to read. *)
Inductive graph_allows (unlimited : bool) : graph_op -> graph_answer -> docs * bool -> docs * bool -> Prop :=
  | graph_allow_put merge c k d r m fl :
      (unlimited = true -> key_accepted k = false -> r = Fault kInvalidArgument) ->
      (unlimited = true -> key_accepted k = true -> Zlen d <= kMaxRecord -> r = OK tt) ->
      graph_allows unlimited (GPut merge c k d) (GStatus r) (m, fl) (match r with OK _ => <[(c, k) := d]> m | Fault _ => m end, fl)
  | graph_allow_get c k m fl : graph_allows unlimited (GGet c k) (GDoc (match m !! (c, k) with Some d => OK d | None => Fault kNotFound end)) (m, fl) (m, fl)
  | graph_allow_scan c start limit m fl : graph_allows unlimited (GScan c start limit) (GRows (scan_rows m c start limit)) (m, fl) (m, fl)
  | graph_allow_out c k l m fl :
      edges_answer (fun e => asserts (docs_in m c) k (ge_to e) (ge_label e) (ge_owner e)) l -> graph_allows unlimited (GOut c k) (GEdges l) (m, fl) (m, fl)
  | graph_allow_in c k l m fl :
      edges_answer (fun e => asserts (docs_in m c) (ge_to e) k (ge_label e) (ge_owner e)) l -> graph_allows unlimited (GIn c k) (GEdges l) (m, fl) (m, fl)
  | graph_allow_descendants c root max_depth l m fl :
      reached (edge m c) (depth_limit max_depth) root l -> graph_allows unlimited (GDescendants c root max_depth) (GKeys l) (m, fl) (m, fl)
  | graph_allow_ancestors c node l m fl :
      reached (fun x y => edge m c y x) kGraphMaxWalkDepth node l -> graph_allows unlimited (GAncestors c node) (GKeys l) (m, fl) (m, fl)
  | graph_allow_roots c l m fl : roots_answer m c l -> graph_allows unlimited (GRoots c) (GKeys l) (m, fl) (m, fl)
  | graph_allow_classes c l m fl : classes_answer m c l -> graph_allows unlimited (GClasses c) (GKeys l) (m, fl) (m, fl)
  | graph_allow_rebuild c m fl : graph_allows unlimited (GRebuild c) (GStatus (OK tt)) (m, fl) (m, fl)
  | graph_allow_verify r m (fl : bool) : (fl = false -> r = OK tt) -> graph_allows unlimited GVerify (GStatus r) (m, fl) (m, fl)
  | graph_allow_flush r m fl : graph_allows unlimited GFlush (GStatus r) (m, fl) (m, true).

Inductive graph_trace (unlimited : bool) : list graph_op -> list graph_answer -> docs * bool -> docs * bool -> Prop :=
  | graph_trace_nil s : graph_trace unlimited [] [] s s
  | graph_trace_cons (o : graph_op) a ops answers s1 s2 s3 :
      graph_allows unlimited o a s1 s2 -> graph_trace unlimited ops answers s2 s3 -> graph_trace unlimited (o :: ops) (a :: answers) s1 s3.

(** Indexing leaves the snapshot alone. *)
Lemma index_snapshot k d st : snapshot_page_id (IndexDocumentLocked k d st) = snapshot_page_id st.
Proof.
  assert (Hr : forall l st, snapshot_page_id (fold_left (remove_edge k) l st) = snapshot_page_id st) by (intros l; induction l as [|[f t] l IH]; intros st'; [done|]; cbn [fold_left]; by rewrite IH).
  assert (Ha : forall l st, snapshot_page_id (fold_left (add_edge k) l st) = snapshot_page_id st).
  { intros l. induction l as [|[[f t] lb] l IH]; intros st'; [done|]. cbn [fold_left]. rewrite IH. unfold add_edge. by case_bool_decide. }
  assert (Hu : snapshot_page_id (UnindexDocumentLocked k st) = snapshot_page_id st).
  { unfold UnindexDocumentLocked, remove_class. destruct (declared st !! k); destruct (key_class _ !! k); cbn; rewrite ?Hr; done. }
  unfold IndexDocumentLocked. cbn [snapshot_page_id set_dirty]. unfold add_class. case_bool_decide; cbn [snapshot_page_id set_classes set_edges]; rewrite Ha; cbn [snapshot_page_id set_declared]; apply Hu.
Qed.

Section Runs.
Context `{C : Crypto} `{!CryptoLaws C} `{K : DiskKey} `{St : KvStatic}.
Implicit Types (kv : KvBPlusBackend) (V : Z -> bytes) (F : forest) (D : record_pages) (n : Z) (fl : bool).

Definition graph_step (o : graph_op) g : option (graph_answer * GraphAdjBackend) :=
  match o with
  | GPut merge c k d => '(r, g') ← GraphPut merge c k d g; Some (GStatus r, g')
  | GGet c k => '(d, g') ← GraphGet c k g; Some (GDoc d, g')
  | GScan c start limit => '(rows, g') ← GraphScan c start limit g; Some (GRows rows, g')
  | GOut c k => Some (GEdges (OutEdges c k g), g)
  | GIn c k => Some (GEdges (InEdges c k g), g)
  | GDescendants c root max_depth => l ← Descendants c root max_depth g; Some (GKeys l, g)
  | GAncestors c node => Some (GKeys (Ancestors c node g), g)
  | GRoots c => Some (GKeys (Roots c g), g)
  | GClasses c => Some (GKeys (Classes c g), g)
  | GRebuild c => '(r, g') ← GraphRebuild c g; Some (GStatus r, g')
  | GVerify => '(r, g') ← GraphVerify g; Some (GStatus r, g')
  | GFlush => let '(r, g') := GraphFlush g in Some (GStatus r, g')
  end.

Fixpoint graph_run (ops : list graph_op) g : option (list graph_answer * GraphAdjBackend) :=
  match ops with
  | [] => Some ([], g)
  | o :: rest => '(a, g1) ← graph_step o g; '(answers, g2) ← graph_run rest g1; Some (a :: answers, g2)
  end.

Definition graph_unlimited g : bool := quota_bytes_ (ga_quota g) =? 0.

Record graph_inv g V n F D m fl : Prop := {
  gi_docs : kv_inv (ga_docs g) V n F D m;
  gi_index : forall c, index_ok (GraphFor c g) (docs_in m c);
  gi_inner : unlimited (ga_docs g) = true;
  gi_fresh : fl = false -> forall c, snapshot_page_id (GraphFor c g) = kInvalidPageId;
}.

Lemma GraphFor_set c st g c' : GraphFor c' (ga_set_coll c st g) = if decide (c' = c) then st else GraphFor c' g.
Proof. unfold GraphFor. cbn. case_decide as H; [subst; by rewrite lookup_insert_eq|by rewrite lookup_insert_ne]. Qed.

(** The embedded engine moved on with the same documents. *)
Lemma graph_inv_docs g V n F D m fl kv V' n' F' D' :
  graph_inv g V n F D m fl -> kv_inv kv V' n' F' D' m -> unlimited kv = unlimited (ga_docs g) -> graph_inv (ga_set_docs kv g) V' n' F' D' m fl.
Proof. intros [H1 H2 H3 H4] Hk Hu. split; [done|done|by cbn; rewrite Hu|done]. Qed.

Lemma graph_inv_quota g V n F D m fl q : graph_inv g V n F D m fl -> graph_inv (ga_set_quota q g) V n F D m fl.
Proof. intros [H1 H2 H3 H4]. by split. Qed.

Lemma kv_get c k kv V n F D m : kv_inv kv V n F D m -> n + 36 <= 2 ^ 31 ->
  exists kv' V' n' F' D', KvGet c k kv = Some (match m !! (c, k) with Some d => OK d | None => Fault kNotFound end, kv') /\ kv_inv kv' V' n' F' D' m /\ n <= n' <= n + 36 /\ unlimited kv' = unlimited kv.
Proof.
  intros Hi Hn. destruct (kv_step_ok (KGet c k) kv V n F D m Hi I Hn) as (a & kv' & V' & n' & F' & D' & m' & E & Hi' & A & B & U). inversion A; subst. cbn [kv_step] in E.
  destruct (KvGet c k kv) as [[r kv0]|]; [|done]. cbn in E. injection E as <- <-. by exists kv0, V', n', F', D'.
Qed.

Lemma kv_scan c start limit kv V n F D m : kv_inv kv V n F D m -> n + 36 <= 2 ^ 31 ->
  exists kv' V' n' F' D', KvScan c start limit kv = Some (scan_rows m c start limit, kv') /\ kv_inv kv' V' n' F' D' m /\ n <= n' <= n + 36 /\ unlimited kv' = unlimited kv.
Proof.
  intros Hi Hn. destruct (kv_step_ok (KScan c start limit) kv V n F D m Hi I Hn) as (a & kv' & V' & n' & F' & D' & m' & E & Hi' & A & B & U). inversion A; subst. cbn [kv_step] in E.
  destruct (KvScan c start limit kv) as [[r kv0]|]; [|done]. cbn in E. injection E as <- <-. by exists kv0, V', n', F', D'.
Qed.

Lemma kv_put merge c k d kv V n F D m : kv_inv kv V n F D m -> n + 36 <= 2 ^ 31 -> Byte.x00 ∉ k -> Zlen d < 2 ^ 63 -> unlimited kv = true ->
  exists r kv' V' n' F' D', KvPut merge c k d kv = Some (r, kv') /\ kv_inv kv' V' n' F' D' (match r with OK _ => <[(c, k) := d]> m | Fault _ => m end) /\ n <= n' <= n + 36 /\ unlimited kv' = true
    /\ (key_accepted k = false -> r = Fault kInvalidArgument) /\ (key_accepted k = true -> Zlen d <= kMaxRecord -> r = OK tt).
Proof.
  intros Hi Hn Hz Hd Hu. destruct (kv_step_ok (KPut merge c k d) kv V n F D m Hi (conj Hz Hd) Hn) as (a & kv' & V' & n' & F' & D' & m' & E & Hi' & A & B & U). rewrite Hu in *. inversion A as [merge' c' k' d' r m0 A1 A2| | | |]; subst. cbn [kv_step] in E.
  destruct (KvPut merge c k d kv) as [[r0 kv0]|]; [|done]. cbn in E. injection E as -> ->. exists r, kv', V', n', F', D'. auto 10.
Qed.

Lemma GraphPut_ok merge c k d g V n F D m fl :
  graph_inv g V n F D m fl -> n + 72 <= 2 ^ 31 -> Byte.x00 ∉ k -> Zlen d < 2 ^ 63 ->
  exists r g' V' n' F' D', GraphPut merge c k d g = Some (r, g') /\ graph_inv g' V' n' F' D' (match r with OK _ => <[(c, k) := d]> m | Fault _ => m end) fl /\ n <= n' <= n + 72
    /\ graph_unlimited g' = graph_unlimited g /\ (graph_unlimited g = true -> key_accepted k = false -> r = Fault kInvalidArgument)
    /\ (graph_unlimited g = true -> key_accepted k = true -> Zlen d <= kMaxRecord -> r = OK tt).
Proof.
  intros Hi Hn Hz Hd. destruct (kv_get c k _ _ _ _ _ _ (gi_docs _ _ _ _ _ _ _ Hi) ltac:(lia)) as (kv0 & V0 & n0 & F0 & D0 & E0 & Hi0 & B0 & U0).
  unfold GraphPut. rewrite E0. cbn [mbind option_bind]. set (old := match _ with OK x => RecordCost k x | Fault _ => 0 end).
  pose proof (graph_inv_docs _ _ _ _ _ _ _ _ _ _ _ _ Hi Hi0 U0) as Hg0. pose proof (gi_inner _ _ _ _ _ _ _ Hi) as Hin.
  destruct (Charge merge old (RecordCost k d) (ga_quota g)) as [[[]|x] q] eqn:Ech.
  2:{ assert (Hu : graph_unlimited g = false).
      { unfold Charge, charge_next, graph_unlimited in *. destruct (_ <=? _); [done|]. destruct (_ =? 0); done. }
      exists (Fault x), (ga_set_docs kv0 g), V0, n0, F0, D0. rewrite Hu. split; [done|]. split; [done|]. split; [lia|]. split; [exact Hu|]. done. }
  assert (Hq : quota_bytes_ q = quota_bytes_ (ga_quota g)) by (unfold Charge in Ech; destruct (charge_next _ _ _ _ _); by simplify_eq).
  destruct (kv_put merge c k d kv0 V0 n0 F0 D0 m Hi0 ltac:(lia) Hz Hd) as (r & kv1 & V1 & n1 & F1 & D1 & -> & Hi1 & B1 & U1 & R1 & R2); [by rewrite U0|]. cbn [mbind option_bind].
  set (g1 := ga_set_quota q (ga_set_docs kv1 g)). assert (Hu1 : graph_unlimited g1 = graph_unlimited g) by (unfold graph_unlimited; cbn; by rewrite Hq).
  destruct r as [[]|x].
  - eexists (OK tt), _, V1, n1, F1, D1. split; [done|]. split; [|split; [lia|split; [exact Hu1|split; [intros _; exact R1|intros _; exact R2]]]].
    destruct Hi as [H1 H2 H3 H4]. split; [done| |done|].
    + intros c'. rewrite GraphFor_set, docs_in_insert. change (GraphFor c' g1) with (GraphFor c' g). change (GraphFor c g1) with (GraphFor c g). case_decide; [by apply index_document|apply H2].
    + intros Hf c'. rewrite GraphFor_set. change (GraphFor c' g1) with (GraphFor c' g). change (GraphFor c g1) with (GraphFor c g). case_decide; [|by apply H4]. rewrite index_snapshot. by apply H4.
  - exists (Fault x), g1, V1, n1, F1, D1. split; [done|]. split; [|split; [lia|split; [exact Hu1|split; [intros _; exact R1|intros _; exact R2]]]].
    apply graph_inv_quota. eapply graph_inv_docs; [exact Hi|done|]. by rewrite U1, Hin.
Qed.

(** ** Rebuilding, verification and flush *)
Lemma rebuild_index m c page dr : index_ok (set_dirty true (index_all (rows_of m c) (mkGraph ∅ ∅ ∅ ∅ ∅ page dr))) (docs_in m c).
Proof. destruct (index_all_ok (rows_of m c) _ _ (empty_index_ok page dr)) as [H1 H2 H3 H4 H5 H6 H7 H8]. by split. Qed.

Lemma index_all_snapshot (rows : list EngineRow) st : snapshot_page_id (index_all rows st) = snapshot_page_id st.
Proof. revert st. induction rows as [|[k d] rows IH]; intros st; [done|]. cbn [index_all fold_left fst snd]. fold (index_all rows (IndexDocumentLocked k d st)). by rewrite IH, index_snapshot. Qed.

Lemma GraphRebuild_ok c g V n F D m fl : graph_inv g V n F D m fl -> n + 36 <= 2 ^ 31 ->
  exists g' V' n' F' D', GraphRebuild c g = Some (OK tt, g') /\ graph_inv g' V' n' F' D' m fl /\ n <= n' <= n + 36 /\ graph_unlimited g' = graph_unlimited g.
Proof.
  intros Hi Hn. destruct (kv_scan c [] 0 _ _ _ _ _ _ (gi_docs _ _ _ _ _ _ _ Hi) Hn) as (kv' & V' & n' & F' & D' & E & Hi' & B & U). unfold GraphRebuild. rewrite E, scan_all. cbn [mbind option_bind].
  eexists _, V', n', F', D'. split; [done|]. split; [|done]. destruct Hi as [H1 H2 H3 H4]. split; [done| |by cbn; rewrite U|].
  - intros c'. rewrite GraphFor_set. case_decide as Hc; [subst c'; apply rebuild_index|apply H2].
  - intros Hf c'. rewrite GraphFor_set. case_decide as Hc; [|by apply H4]. cbn [snapshot_page_id set_dirty]. fold (index_all (rows_of m c) (mkGraph ∅ ∅ ∅ ∅ ∅ (snapshot_page_id (GraphFor c g)) (dirty (GraphFor c g)))).
    rewrite index_all_snapshot. by apply H4.
Qed.

(** The same adjacency with another snapshot. *)
Record same_graph st st' : Prop := {
  sg_out : out_edges st' = out_edges st;
  sg_in : in_edges st' = in_edges st;
  sg_members : class_members st' = class_members st;
  sg_class : key_class st' = key_class st;
  sg_declared : declared st' = declared st;
}.

Lemma same_graph_refl st : same_graph st st.
Proof. done. Qed.

Lemma same_graph_trans st1 st2 st3 : same_graph st1 st2 -> same_graph st2 st3 -> same_graph st1 st3.
Proof. intros [] []. split; congruence. Qed.

Lemma same_graph_index st st' (Dc : gmap bytes bytes) : same_graph st st' -> index_ok st Dc -> index_ok st' Dc.
Proof.
  intros [S1 S2 S3 S4 S5] [H1 H2 H3 H4 H5 H6 H7 H8]. unfold has_out, has_in, out_of, in_of, declares, no_empty_in, members_of in *.
  split; unfold has_out, has_in, out_of, in_of, declares, no_empty_in, members_of; rewrite ?S1, ?S2, ?S3, ?S4, ?S5; done.
Qed.

Lemma snapshot_all_keeps (l : list (bytes * GraphCollection)) g : (forall c st, (c, st) ∈ l -> same_graph st (GraphFor c g)) ->
  let g' := (snapshot_all l g).2 in (forall c, same_graph (GraphFor c g) (GraphFor c g')) /\ ga_docs g' = ga_docs g /\ ga_quota g' = ga_quota g.
Proof.
  revert g. induction l as [|[c st] l IH]; intros g Hl; [done|]. cbn [snapshot_all].
  assert (Hs : forall r st' b, SnapshotLocked st (ga_store g) = (r, st', b) -> same_graph st st').
  { intros r st' b. unfold SnapshotLocked. destruct (negb (dirty st)); [by intros [= <- <- <-]|]. destruct (AppendBlob _ _) as [[page|x] b1]; by intros [= <- <- <-]. }
  destruct (SnapshotLocked st (ga_store g)) as [[[[]|x] st'] b] eqn:E; [|done]. specialize (Hs _ _ _ eq_refl). set (g1 := ga_set_coll c st' (ga_set_store b g)).
  assert (Hg1 : forall c', same_graph (GraphFor c' g) (GraphFor c' g1)).
  { intros c'. unfold g1. rewrite GraphFor_set. case_decide as Hc; [|done]. subst c'. destruct (Hl c st ltac:(left)) as [A1 A2 A3 A4 A5], Hs as [B1 B2 B3 B4 B5]. split; congruence. }
  destruct (IH g1) as (I1 & I2 & I3).
  - intros c' st1 Hin. eapply same_graph_trans; [apply Hl; by right|apply Hg1].
  - split; [|done]. intros c'. eapply same_graph_trans; [apply Hg1|apply I1].
Qed.

Lemma GraphFlush_ok g V n F D m fl : graph_inv g V n F D m fl -> n + 36 <= 2 ^ 31 ->
  exists r g' V' n' F' D', GraphFlush g = (r, g') /\ graph_inv g' V' n' F' D' m true /\ n <= n' <= n + 36 /\ graph_unlimited g' = graph_unlimited g.
Proof.
  intros Hi Hn. destruct (kv_step_ok KFlush _ V n F D m (gi_docs _ _ _ _ _ _ _ Hi) I Hn) as (a & kv' & V' & n' & F' & D' & m' & E & Hi' & A & B & U).
  assert (Hm : m' = m) by (by inversion A). subst m'. clear A. cbn [kv_step] in E. unfold GraphFlush.
  destruct (KvFlush (ga_docs g)) as [r0 kv0]. injection E as _ ->. pose proof (graph_inv_docs _ _ _ _ _ _ _ _ _ _ _ _ Hi Hi' U) as Hg1. set (g1 := ga_set_docs kv' g) in *.
  assert (Hlax : forall g2, (forall c, same_graph (GraphFor c g1) (GraphFor c g2)) -> ga_docs g2 = ga_docs g1 -> graph_inv g2 V' n' F' D' m true).
  { intros g2 Hs Hd. destruct Hg1 as [H1 H2 H3 H4]. split; [by rewrite Hd| |by rewrite Hd|done]. intros c. eapply same_graph_index; [apply Hs|apply H2]. }
  destruct r0 as [[]|x]; [|exists (Fault x), g1, V', n', F', D'; split; [done|]; split; [by apply Hlax|done]].
  destruct (snapshot_all_keeps (map_to_list (ga_collections g1)) g1) as (S1 & S2 & S3).
  { intros c st' Hin. apply elem_of_map_to_list in Hin. unfold GraphFor. by rewrite Hin. }
  destruct (snapshot_all (map_to_list (ga_collections g1)) g1) as [[[]|x] g2]; cbn [snd] in *.
  2:{ exists (Fault x), g2, V', n', F', D'. split; [done|]. split; [by apply Hlax|]. split; [done|]. unfold graph_unlimited. by rewrite S3. }
  unfold GraphSaveManifest. destruct (WriteSealedJsonFile _ _ _ _ _ _) as [[[]|x] file]; cbn [fst snd].
  - destruct (FlushSegments _ _) as [r b]. eexists _, _, V', n', F', D'. split; [done|]. split; [by apply Hlax|]. split; [done|]. unfold graph_unlimited. cbn. by rewrite S3.
  - eexists _, _, V', n', F', D'. split; [done|]. split; [by apply Hlax|]. split; [done|]. unfold graph_unlimited. cbn. by rewrite S3.
Qed.

Lemma verify_graphs_ok (l : list (bytes * GraphCollection)) b :
  Forall (fun p => reversible p.2 = true /\ snapshot_page_id p.2 = kInvalidPageId) l -> verify_graphs l b = (OK tt, b).
Proof. induction 1 as [|[c st] l [H1 H2] _ IH]; [done|]. cbn [verify_graphs snd] in *. rewrite H1, H2. cbn [negb]. rewrite Z.eqb_refl. done. Qed.

Lemma GraphVerify_ok g V n F D m fl : graph_inv g V n F D m fl -> n + 36 <= 2 ^ 31 ->
  exists r g' V' n' F' D', GraphVerify g = Some (r, g') /\ graph_inv g' V' n' F' D' m fl /\ n <= n' <= n + 36 /\ graph_unlimited g' = graph_unlimited g /\ (fl = false -> r = OK tt).
Proof.
  intros Hi Hn. destruct (kv_step_ok KVerify _ V n F D m (gi_docs _ _ _ _ _ _ _ Hi) I Hn) as (a & kv' & V' & n' & F' & D' & m' & E & Hi' & A & B & U).
  assert (Hm : m' = m /\ a = RStatus (OK tt)) by (by inversion A). destruct Hm as [-> ->]. clear A. cbn [kv_step] in E. unfold GraphVerify.
  destruct (KvVerify (ga_docs g)) as [[r0 kv0]|]; [|done]. cbn in E. injection E as -> ->. cbn [mbind option_bind].
  pose proof (graph_inv_docs _ _ _ _ _ _ _ _ _ _ _ _ Hi Hi' U) as Hg1. set (g1 := ga_set_docs kv' g) in *. destruct (verify_graphs (map_to_list (ga_collections g1)) (ga_store g1)) as [r b] eqn:Ev.
  eexists r, _, V', n', F', D'. split; [done|]. split; [destruct Hg1 as [H1 H2 H3 H4]; by split|]. split; [done|]. split; [done|]. intros Hf. rewrite verify_graphs_ok in Ev; [by injection Ev|].
  apply Forall_forall. intros [c st] Hin. apply elem_of_map_to_list in Hin. assert (Hst : GraphFor c g1 = st) by (unfold GraphFor; by rewrite Hin). cbn [snd]. rewrite <- Hst. split; [eapply index_reversible; apply Hg1|by apply Hg1].
Qed.

(** ** Runs *)
Lemma Descendants_for c root max_depth g : Descendants c root max_depth g = Some (walk_levels (out_of (GraphFor c g)) (depth_limit max_depth) [root] {[root]}).
Proof.
  rewrite <- descendants_levels. unfold Descendants, GraphFor. destruct (ga_collections g !! c); [done|]. cbn [default]. rewrite descendants_levels. f_equal. unfold depth_limit.
  assert (Hnil : forall limit, walk_levels (out_of new_graph) limit [root] {[root]} = []) by (intros [|limit]; [done|]; cbn; unfold out_of; cbn; by destruct limit). by rewrite Hnil.
Qed.

Lemma Ancestors_for c node g : Ancestors c node g = walk_levels (in_of (GraphFor c g)) kGraphMaxWalkDepth [node] {[node]}.
Proof. unfold Ancestors, GraphFor. by destruct (ga_collections g !! c). Qed.

Lemma graph_step_ok (o : graph_op) g V n F D m fl :
  graph_inv g V n F D m fl -> graph_op_ok o -> n + 72 <= 2 ^ 31 ->
  exists a g' V' n' F' D' m' fl', graph_step o g = Some (a, g') /\ graph_inv g' V' n' F' D' m' fl' /\ graph_allows (graph_unlimited g) o a (m, fl) (m', fl')
    /\ n <= n' <= n + 72 /\ graph_unlimited g' = graph_unlimited g.
Proof.
  intros Hi Ho Hn. pose proof (gi_index _ _ _ _ _ _ _ Hi) as Hix.
  destruct o as [merge c k d|c k|c start limit|c k|c k|c root max_depth|c node|c|c|c| |]; cbn [graph_step].
  - destruct Ho as [Hz Hd]. destruct (GraphPut_ok merge c k d g V n F D m fl Hi Hn Hz Hd) as (r & g' & V' & n' & F' & D' & -> & Hi' & B & U & R1 & R2). cbn [mbind option_bind].
    eexists _, g', V', n', F', D', _, fl. split; [done|]. split; [exact Hi'|]. split; [by constructor|done].
  - destruct (kv_get c k _ _ _ _ _ _ (gi_docs _ _ _ _ _ _ _ Hi) ltac:(lia)) as (kv' & V' & n' & F' & D' & E & Hi' & B & U). unfold GraphGet. rewrite E. cbn [mbind option_bind].
    eexists _, _, V', n', F', D', m, fl. split; [done|]. split; [by eapply graph_inv_docs|]. split; [constructor|]. split; [lia|done].
  - destruct (kv_scan c start limit _ _ _ _ _ _ (gi_docs _ _ _ _ _ _ _ Hi) ltac:(lia)) as (kv' & V' & n' & F' & D' & E & Hi' & B & U). unfold GraphScan. rewrite E. cbn [mbind option_bind].
    eexists _, _, V', n', F', D', m, fl. split; [done|]. split; [by eapply graph_inv_docs|]. split; [constructor|]. split; [lia|done].
  - eexists _, g, V, n, F, D, m, fl. split; [done|]. split; [done|]. split; [|split; [lia|done]]. constructor.
    assert (E : OutEdges c k g = unique_edges ∅ (out_of (GraphFor c g) k)) by (unfold OutEdges, GraphFor; by destruct (ga_collections g !! c)). rewrite E. apply unique_answer. intros [t lb o]. apply (ix_out _ _ (Hix c)).
  - eexists _, g, V, n, F, D, m, fl. split; [done|]. split; [done|]. split; [|split; [lia|done]]. constructor.
    assert (E : InEdges c k g = unique_edges ∅ (in_of (GraphFor c g) k)) by (unfold InEdges, GraphFor; by destruct (ga_collections g !! c)). rewrite E. apply unique_answer. intros [t lb o]. apply (ix_in _ _ (Hix c)).
  - rewrite Descendants_for. cbn [mbind option_bind]. eexists _, g, V, n, F, D, m, fl. split; [done|]. split; [done|]. split; [|split; [lia|done]]. constructor.
    apply levels_reached. intros x y. apply out_targets, Hix.
  - rewrite Ancestors_for. eexists _, g, V, n, F, D, m, fl. split; [done|]. split; [done|]. split; [|split; [lia|done]]. constructor.
    apply levels_reached. intros x y. apply in_targets, Hix.
  - eexists _, g, V, n, F, D, m, fl. split; [done|]. split; [done|]. split; [|split; [lia|done]]. constructor.
    assert (E : Roots c g = roots_of (GraphFor c g)) by (unfold Roots, GraphFor; by destruct (ga_collections g !! c)). rewrite E. by apply index_roots.
  - eexists _, g, V, n, F, D, m, fl. split; [done|]. split; [done|]. split; [|split; [lia|done]]. constructor.
    assert (E : Classes c g = classes_of (GraphFor c g)) by (unfold Classes, GraphFor; by destruct (ga_collections g !! c)). rewrite E. by apply index_classes.
  - destruct (GraphRebuild_ok c g V n F D m fl Hi ltac:(lia)) as (g' & V' & n' & F' & D' & -> & Hi' & B & U). cbn [mbind option_bind].
    eexists _, g', V', n', F', D', m, fl. split; [done|]. split; [done|]. split; [constructor|]. split; [lia|done].
  - destruct (GraphVerify_ok g V n F D m fl Hi ltac:(lia)) as (r & g' & V' & n' & F' & D' & -> & Hi' & B & U & R). cbn [mbind option_bind].
    eexists _, g', V', n', F', D', m, fl. split; [done|]. split; [done|]. split; [by constructor|]. split; [lia|done].
  - destruct (GraphFlush_ok g V n F D m fl Hi ltac:(lia)) as (r & g' & V' & n' & F' & D' & -> & Hi' & B & U).
    eexists _, g', V', n', F', D', m, true. split; [done|]. split; [done|]. split; [constructor|]. split; [lia|done].
Qed.

Lemma graph_run_ok (ops : list graph_op) g V n F D m fl :
  graph_inv g V n F D m fl -> Forall graph_op_ok ops -> n + 72 * Zlen ops <= 2 ^ 31 ->
  exists answers g' s, graph_run ops g = Some (answers, g') /\ graph_trace (graph_unlimited g) ops answers (m, fl) s.
Proof.
  intros Hi Ho. revert g V n F D m fl Hi. induction Ho as [|o ops Ho _ IH]; intros g V n F D m fl Hi Hn; cbn [graph_run]; [exists [], g, (m, fl); split; [done|constructor]|].
  assert (Hz : Zlen (o :: ops) = Zlen ops + 1) by (unfold Zlen; cbn; lia). pose proof (Zlen_nonneg ops).
  destruct (graph_step_ok o g V n F D m fl Hi Ho ltac:(lia)) as (a & g1 & V1 & n1 & F1 & D1 & m1 & fl1 & -> & Hi1 & A & B & U). cbn [mbind option_bind].
  destruct (IH g1 V1 n1 F1 D1 m1 fl1 Hi1 ltac:(lia)) as (answers & g2 & s & -> & T). cbn [mbind option_bind]. exists (a :: answers), g2, s. split; [done|]. rewrite U in T. by econstructor.
Qed.
End Runs.

(** ** A new engine *)
Section Engine.
Context `{C : Crypto} `{!CryptoLaws C}.

Lemma open_new_graph made kv_made kv_oenv env kv_wenv wenv kv_events events quota_mb pages dek g files :
  OpenGraph made kv_made kv_oenv env kv_wenv wenv kv_events events None None None None None None quota_mb pages dek = Some (OK g, files) ->
  frames_ok pages -> disk_ok (disk_ (kv_pool (ga_docs g))) ->
  graph_inv (K := disk_key (disk_ (kv_pool (ga_docs g)))) (St := {| static_dek := dek; static_env := kv_events |}) g (view (kv_pool (ga_docs g))) 0 ∅ ∅ ∅ false
  /\ graph_unlimited g = (u64 (quota_mb * 1024 * 1024) =? 0).
Proof.
  unfold OpenGraph. destruct (bad_dek dek) eqn:Eb; [done|]. destruct (negb made); [done|]. destruct (OpenKv _ _ _ _ _ _ _ _ _ _) as [[[kv|x] kv_fs]|] eqn:Ek; [|done|done]. cbn [mbind option_bind].
  destruct (OpenSegments _ _ _ _ _ _) as [[b|x] fs]; [|done]. unfold GraphLoadManifest, ReadSealedJsonFile. cbn [ga_dek ga_manifest]. rewrite Eb. cbn. intros [= <- <-] Hf Hd. cbn [ga_docs] in *.
  destruct (open_empty_inv _ _ _ _ _ _ _ _ _ Ek Hf Hd) as [Hi Hu]. split; [|done]. split; [exact Hi| |exact Hu|done]. intros c. unfold GraphFor. cbn. rewrite docs_in_empty. apply empty_index_ok.
Qed.

(** C25: A new graph engine answers every run of puts, reads, scans, edge lists, walks, roots,
    classes, rebuilds, verifications and flushes from the map of its documents: the edges
    listed are those the latest versions assert, each target and label once, and only an
    edge whose target and label read as another edge's when written one after the other
    may be missing; the walks return every node within their depth exactly once, on cyclic
    graphs too; every node of a document or at the start of an edge that no edge enters is
    a root, and roots may also hold nodes without an entering edge that no document mentions
    any more. Conditions: the document keys are free of NUL bytes and the documents shorter
    than 2^63 bytes, the pool has 0 (the default size) or at least 3 frames, no page read or
    write fails, and there are at most 2^31 / 72 operations. *)
Theorem graph_engine_refines made kv_made kv_oenv env kv_wenv wenv kv_events events quota_mb pages dek g files (ops : list graph_op) :
  OpenGraph made kv_made kv_oenv env kv_wenv wenv kv_events events None None None None None None quota_mb pages dek = Some (OK g, files) ->
  frames_ok pages -> disk_ok (disk_ (kv_pool (ga_docs g))) -> Forall graph_op_ok ops -> 72 * Zlen ops <= 2 ^ 31 ->
  exists answers g' s, graph_run ops g = Some (answers, g') /\ graph_trace (u64 (quota_mb * 1024 * 1024) =? 0) ops answers (∅, false) s.
Proof.
  intros Ho Hf Hd Hops Hn. destruct (open_new_graph _ _ _ _ _ _ _ _ _ _ _ _ _ Ho Hf Hd) as [Hi <-].
  by apply (graph_run_ok (K := disk_key (disk_ (kv_pool (ga_docs g)))) (St := {| static_dek := dek; static_env := kv_events |}) ops g _ _ _ _ _ _ Hi Hops).
Qed.
End Engine.
