(* ===== verification/GraphSample.v ===== *)
(** * The graph engine on samples

    The snapshot theorem, witnesses, and where the answers depart from the comments. *)
From S2P Require Import Prelude Bytes Hlc Json JsonText Crdt CrdtMerge CrdtCodec AtRest AtRestFiles DiskManager BufferPool BufferPoolProps BPlusTree Pins SegmentStore Catalog Backend KvBackend KvProps KvRefine Columnar Lsm ColumnarRestart GraphAdj GraphWalk GraphIndex GraphSnapshot GraphRefine.
Local Open Scope Z_scope.

(** C26: the snapshot of maps that hold what documents assert decodes to maps that hold the
    same, with the reverse index, the owners and the classes rebuilt and the same nodes.
    Condition: the counts and lengths written are below 2^32. *)
Theorem graph_snapshot_round_trip (st : GraphCollection) (D : gmap bytes bytes) :
  index_ok st D -> snapshot_fits st ->
  exists st', DecodeAdjacency (EncodeAdjacency st) = OK st' /\ index_ok st' D /\ dom (out_edges st') = dom (out_edges st).
Proof. intros Hi Hf. destruct (reloaded_ok st D Hi) as [H1 H2]. exists (reloaded st). split; [by apply adjacency_read|done]. Qed.

(** ** Samples *)
Definition gstamp : HLCTimestamp := Hlc.mkTs 1 0 (bs "n").
Definition gtext (s : bytes) : CrdtValue := CString gstamp false s.
Definition gobject (fields : list (bytes * CrdtValue)) : CrdtValue := CObject gstamp false fields.
Definition garray (l : list CrdtValue) : CrdtValue := CArray gstamp false (imap (fun i v => (to_string (Z.of_nat i), (false, v))) l).
Definition gdoc (fields : list (bytes * CrdtValue)) : bytes := CrdtCodec.Encode (gobject fields).
Definition child_of (parent : bytes) : bytes := gdoc [(bs "class", gtext (bs "leaf")); (bs "parent", gtext parent)].
Definition parent_of (children : list bytes) : bytes := gdoc [(bs "children", garray (map gtext children))].

Definition graph_opened := @OpenGraph tagged_crypto true true kv_open_env kv_open_env good_env good_env kv_events kv_events None None None None None None 0 3 kv_key.
Definition no_graph : GraphAdjBackend := mkGraphBackend [] None no_engine (new_pool 0 sealed_disk) ∅ (mkQuota 0 0) kv_events 0.
Definition graph_sample : GraphAdjBackend := match graph_opened with Some (OK g, _) => g | _ => no_graph end.
Definition graph_files := match graph_opened with Some (_, fs) => fs | None => ((None, None), (None, None)) end.

Lemma graph_opened_ok : graph_opened = Some (OK graph_sample, graph_files).
Proof.
  assert (H : succeeded graph_opened = true) by (vm_compute; done). unfold graph_sample, graph_files. destruct graph_opened as [[[g|x] fs]|]; done.
Qed.

Lemma graph_sample_disk : @disk_ok tagged_crypto (disk_ (kv_pool (ga_docs graph_sample))).
Proof.
  split; [by exists 0%nat| |done]. intros _. split; [by vm_compute|]. intros id c. unfold OpenPage.
  change (Zlen (d_subkey _) =? kDekLen) with true. cbn [negb AesGcmOpen tagged_crypto].
  rewrite bool_decide_eq_false_2; [done|]. vm_compute. done.
Qed.

Definition graph_ran (ops : list graph_op) : list graph_answer * GraphAdjBackend :=
  match @graph_run tagged_crypto ops graph_sample with Some r => r | None => ([], no_graph) end.

(** A cycle [a -> b -> c -> a], and [d] below [b]. *)
Definition graph_sample_ops : list graph_op :=
  [GPut false (bs "g") (bs "a") (parent_of [bs "b"]); GPut false (bs "g") (bs "c") (gdoc [(bs "parent", gtext (bs "b")); (bs "children", garray [gtext (bs "a")])]);
   GPut true (bs "g") (bs "d") (child_of (bs "b")); GOut (bs "g") (bs "b"); GIn (bs "g") (bs "a"); GDescendants (bs "g") (bs "a") 0; GDescendants (bs "g") (bs "a") 1;
   GAncestors (bs "g") (bs "d"); GRoots (bs "g"); GClasses (bs "g"); GVerify; GPut false (bs "g") (bs "d") (child_of (bs "x")); GRoots (bs "g"); GRebuild (bs "g");
   GDescendants (bs "g") (bs "x") 0; GFlush; GGet (bs "g") (bs "d"); GScan (bs "g") (bs "c") 1].

Lemma graph_sample_answers : (graph_ran graph_sample_ops).1 =
  [GStatus (OK tt); GStatus (OK tt); GStatus (OK tt); GEdges [mkEdge (bs "c") (bs "child") (bs "c"); mkEdge (bs "d") (bs "child") (bs "d")]; GEdges [mkEdge (bs "c") (bs "child") (bs "c")];
   GKeys [bs "b"; bs "c"; bs "d"]; GKeys [bs "b"]; GKeys [bs "b"; bs "a"; bs "c"]; GKeys []; GKeys [bs "leaf"]; GStatus (OK tt); GStatus (OK tt); GKeys [bs "x"]; GStatus (OK tt);
   GKeys [bs "d"]; GStatus (OK tt); GDoc (OK (child_of (bs "x"))); GRows [(bs "c", gdoc [(bs "parent", gtext (bs "b")); (bs "children", garray [gtext (bs "a")])])]].
Proof. vm_compute. reflexivity. Qed.

Lemma graph_sample_ops_ok : Forall graph_op_ok graph_sample_ops.
Proof. repeat (apply Forall_cons; split); try done; (split; [apply (bool_decide_unpack _); by vm_compute|by vm_compute]). Qed.

Lemma graph_engine_refines_witness :
  exists answers g' s, @graph_run tagged_crypto graph_sample_ops graph_sample = Some (answers, g') /\ graph_trace true graph_sample_ops answers (∅, false) s.
Proof.
  apply (graph_engine_refines (C := tagged_crypto) true true kv_open_env kv_open_env good_env good_env kv_events kv_events 0 3 kv_key graph_sample graph_files);
    [apply graph_opened_ok|right; lia|apply graph_sample_disk|apply graph_sample_ops_ok|vm_compute; congruence].
Defined.

Definition small_graph : GraphCollection := IndexDocumentLocked (bs "d") (child_of (bs "b")) new_graph.

Lemma small_graph_fits : snapshot_fits small_graph.
Proof.
  assert (Hs : forall s, (Zlen s <? 2 ^ 32) = true -> blob_ok s) by (intros s H; by apply Z.ltb_lt).
  split; [by vm_compute|by vm_compute| |].
  - apply Forall_forall. intros [f es] Hin. assert (Hb : forallb (fun p : bytes * list GraphEdge => (Zlen p.1 <? 2 ^ 32) && (Zlen p.2 <? 2 ^ 32) && forallb (fun e => (Zlen (ge_to e) <? 2 ^ 32) && (Zlen (ge_label e) <? 2 ^ 32) && (Zlen (ge_owner e) <? 2 ^ 32)) p.2) (map_to_list (out_edges small_graph)) = true) by (by vm_compute).
    rewrite forallb_forall in Hb. apply list_elem_of_In, Hb in Hin. cbn [fst snd] in Hin. apply andb_true_iff in Hin as [[H1 H2%Z.ltb_lt]%andb_true_iff H3]. split; [by apply Hs|]. split; [done|].
    apply Forall_forall. intros e He. rewrite forallb_forall in H3. apply list_elem_of_In, H3 in He. apply andb_true_iff in He as [[E1 E2]%andb_true_iff E3]. split; [by apply Hs|]. split; by apply Hs.
  - apply Forall_forall. intros [k cls] Hin. assert (Hb : forallb (fun p : bytes * bytes => (Zlen p.1 <? 2 ^ 32) && (Zlen p.2 <? 2 ^ 32)) (map_to_list (key_class small_graph)) = true) by (by vm_compute).
    rewrite forallb_forall in Hb. apply list_elem_of_In, Hb in Hin. apply andb_true_iff in Hin as [H1 H2]. split; by apply Hs.
Qed.

Lemma graph_snapshot_round_trip_witness :
  exists st', DecodeAdjacency (EncodeAdjacency small_graph) = OK st' /\ index_ok st' (<[bs "d" := child_of (bs "b")]> ∅) /\ dom (out_edges st') = dom (out_edges small_graph).
Proof. apply (graph_snapshot_round_trip small_graph); [apply index_document, empty_index_ok|apply small_graph_fits]. Defined.

(** ** Departures *)

(** The separator in an edge's signature is an empty C string: of two edges whose target
    and label run together to the same text, the second is not listed. *)
Definition two_edges : bytes :=
  gdoc [(bs "edges", garray [gobject [(bs "label", gtext (bs "c")); (bs "to", gtext (bs "ab"))]; gobject [(bs "label", gtext (bs "bc")); (bs "to", gtext (bs "a"))]])].

Theorem signature_hides_edge :
  (graph_ran [GPut false (bs "g") (bs "k") two_edges; GOut (bs "g") (bs "k"); GDescendants (bs "g") (bs "k") 1]).1
  = [GStatus (OK tt); GEdges [mkEdge (bs "ab") (bs "c") (bs "k")]; GKeys [bs "ab"; bs "a"]].
Proof. vm_compute. reflexivity. Qed.

(** A node that no document mentions any more stays a root until a rebuild, although the
    adjacency is said to be a pure function of the documents. *)
Theorem stale_root_remains :
  (graph_ran [GPut false (bs "g") (bs "a") (parent_of [bs "b"]); GPut false (bs "g") (bs "a") (parent_of []); GRoots (bs "g"); GRebuild (bs "g"); GRoots (bs "g")]).1
  = [GStatus (OK tt); GStatus (OK tt); GKeys [bs "a"; bs "b"]; GStatus (OK tt); GKeys [bs "a"]].
Proof. vm_compute. reflexivity. Qed.
