(* ===== verification/Placement.v ===== *)
(** * Consistent-hash placement: src/net/placement.cpp

    The ring of virtual nodes, replica selection, the placement policy built from
    a membership list, and transit holder selection.  [std::map] positions are
    walked in increasing order: the ring as the sorted list of its slots. *)
From S2P Require Import Prelude Bytes Json AtRest Peer.
Local Open Scope Z_scope.

Definition kVirtualNodesPerPeer : nat := 160.

Record ConsistentHashRing := mkRing {
  ring_ : gmap Z bytes;         (* position -> node id *)
  nodes_ : gmap bytes nat;      (* node id -> virtual node count *)
}.

Definition empty_ring : ConsistentHashRing := mkRing ∅ ∅.

(** [a <= b] on strings. *)
Definition str_le (a b : bytes) : bool := negb (str_lt b a).

Section Placement.
Context `{C : Crypto}.

Definition HashToRing (value : bytes) : Z :=
  fold_left (fun out b => u64 (Z.lor (Z.shiftl out 8) (uc b))) (take 8 (Sha256 value)) 0.

(** Position of the i-th virtual node. *)
Definition vnode (node_id : bytes) (i : nat) : Z :=
  HashToRing (node_id ++ bs "#" ++ to_string (Z.of_nat i)).

(** One slot: a taken position keeps the smaller node id. *)
Definition claim (node_id : bytes) (r : gmap Z bytes) (position : Z) : gmap Z bytes :=
  match r !! position with
  | Some other => if str_le other node_id then r else <[position := node_id]> r
  | None => <[position := node_id]> r
  end.

Definition positions (node_id : bytes) (n : nat) : list Z := vnode node_id <$> seq 0 n.

Definition AddNode (node_id : bytes) (virtual_nodes : nat) (r : ConsistentHashRing) : ConsistentHashRing :=
  if bool_decide (node_id = []) || (virtual_nodes =? 0)%nat then r
  else match nodes_ r !! node_id with
       | Some _ => r
       | None => mkRing (fold_left (claim node_id) (positions node_id virtual_nodes) (ring_ r))
                   (<[node_id := virtual_nodes]> (nodes_ r))
       end.

Definition release (node_id : bytes) (r : gmap Z bytes) (position : Z) : gmap Z bytes :=
  match r !! position with
  | Some other => if bool_decide (other = node_id) then delete position r else r
  | None => r
  end.

Definition RemoveNode (node_id : bytes) (r : ConsistentHashRing) : ConsistentHashRing :=
  match nodes_ r !! node_id with
  | None => r
  | Some n => mkRing (fold_left (release node_id) (positions node_id n) (ring_ r))
                (delete node_id (nodes_ r))
  end.

(** The slots in ring order, and the walk that starts at [lower_bound]. *)
Definition slots (r : gmap Z bytes) : list (Z * bytes) := std_sort Z.ltb fst (map_to_list r).
Definition walk_from (position : Z) (l : list (Z * bytes)) : list (Z * bytes) :=
  filter (fun s => position <= s.1) l ++ filter (fun s => s.1 < position) l.

(** Distinct nodes in walk order, until [count] are found. *)
Fixpoint distinct (count : nat) (seen : list bytes) (l : list bytes) : list bytes :=
  match count, l with
  | O, _ => []
  | _, [] => []
  | S c, n :: l' => if bool_decide (n ∈ seen) then distinct count seen l' else n :: distinct c (n :: seen) l'
  end.

Definition Replicas (r : ConsistentHashRing) (key : bytes) (count : nat) : list bytes :=
  distinct count [] (walk_from (HashToRing key) (slots (ring_ r))).*2.

Definition NodeCount (r : ConsistentHashRing) : nat := size (nodes_ r).
Definition VirtualNodeCount (r : ConsistentHashRing) : nat := size (ring_ r).
Definition Contains (r : ConsistentHashRing) (node_id : bytes) : bool :=
  bool_decide (is_Some (nodes_ r !! node_id)).

Definition PlacementHashInput (collection key shard_key_value : bytes) : bytes :=
  if negb (bool_decide (shard_key_value = [])) then collection ++ bs "|shard|" ++ shard_key_value
  else collection ++ bs "/" ++ key.

(** ** The policy *)
Record PlacementOptions := mkPlacementOptions {
  replication_factor : nat;
  stale_after_ms : Z;
  po_now_ms : Z;
  include_degraded : bool;
  is_supervisor : bool;
}.

Record PlacementPolicy := mkPolicy {
  local_node_id : bytes;
  options_ : PlacementOptions;
  live_ring : ConsistentHashRing;
  ring_with_absent : ConsistentHashRing;
  skipped_ : list bytes;
}.

Definition starts_with (prefix s : bytes) : bool := bool_decide (take (length prefix) s = prefix).

Definition add (node_id : bytes) (r : ConsistentHashRing) : ConsistentHashRing :=
  AddNode node_id kVirtualNodesPerPeer r.

(** One peer of the membership list. *)
Definition consider (o : PlacementOptions) (now : Z)
    (acc : ConsistentHashRing * ConsistentHashRing * list bytes) (peer : PeerInfo)
  : ConsistentHashRing * ConsistentHashRing * list bytes :=
  let '(ring, absent, skipped) := acc in
  let id := peer_node_id peer in
  if bool_decide (id = []) then acc
  else if starts_with (bs "bootstrap#") id then (ring, absent, skipped ++ [id ++ bs " (not yet handshaked)"])
  else if peer_is_supervisor peer then (ring, absent, skipped ++ [id ++ bs " (supervisor)"])
  else if bool_decide (peer_state peer = kReclaimed) then (ring, absent, skipped ++ [id ++ bs " (reclaimed)"])
  else if bool_decide (peer_state peer = kDegraded) && negb (include_degraded o)
  then (ring, add id absent, skipped ++ [id ++ bs " (degraded)"])
  else if negb (last_seen_ms peer =? 0) && (stale_after_ms o <? now - last_seen_ms peer)
  then (ring, add id absent, skipped ++ [id ++ bs " (stale)"])
  else (add id ring, add id absent, skipped).

(** [wall] is the clock read when the options carry no time. *)
Definition Rebuild (wall : Z) (p : PlacementPolicy) (peers : list PeerInfo) : PlacementPolicy :=
  let o := options_ p in
  let now := if po_now_ms o =? 0 then wall else po_now_ms o in
  let start := if negb (bool_decide (local_node_id p = [])) && negb (is_supervisor o)
               then add (local_node_id p) empty_ring else empty_ring in
  let '(ring, absent, skipped) := fold_left (consider o now) peers (start, start, []) in
  mkPolicy (local_node_id p) o ring absent skipped.

Record PlacementPlan := mkPlan {
  plan_key : bytes;
  replicas : list bytes;
  requested_rf : nat;
  under_replicated : bool;
  skipped : list bytes;
  displaced_owners : list bytes;
}.

Definition Includes (plan : PlacementPlan) (node_id : bytes) : bool := bool_decide (node_id ∈ replicas plan).

Definition Place (p : PlacementPolicy) (collection key shard_key_value : bytes) : PlacementPlan :=
  let hashed := PlacementHashInput collection key shard_key_value in
  let rf := replication_factor (options_ p) in
  let reps := Replicas (live_ring p) hashed rf in
  mkPlan hashed reps rf (length reps <? rf)%nat (skipped_ p)
    (if (NodeCount (live_ring p) <? NodeCount (ring_with_absent p))%nat
     then filter (fun n => n ∉ reps) (Replicas (ring_with_absent p) hashed rf) else []).

(** ** Transit holders *)
Definition rank (owner doc_key_hash candidate : bytes) : Z :=
  HashToRing (owner ++ [Byte.x00] ++ doc_key_hash ++ [Byte.x00] ++ candidate).

(** Highest rank first, then the smaller id. *)
Definition ranked_before (a b : Z * bytes) : bool :=
  if negb (a.1 =? b.1) then b.1 <? a.1 else str_lt a.2 b.2.

Definition rotate {A} (n : nat) (l : list A) : list A := drop n l ++ take n l.

Definition SelectTransitHolders (owner doc_key_hash : bytes) (candidates : list bytes) (max_holders : nat)
    (chunk_index : Z) : list bytes :=
  if bool_decide (candidates = []) || (max_holders =? 0)%nat then []
  else
    let ranked := std_sort ranked_before id
                    ((fun c => (rank owner doc_key_hash c, c)) <$> filter (fun c => c <> []) candidates) in
    let ranked := if bool_decide (ranked = []) then ranked
                  else rotate (Z.to_nat (chunk_index mod Zlen ranked)) ranked in
    (take (Nat.min max_holders (length ranked)) ranked).*2.

Definition GroupByPrimary (p : PlacementPolicy) (collection : bytes) (keys : list bytes)
  : gmap bytes (list bytes) :=
  fold_left (fun grouped key =>
    match replicas (Place p collection key []) with
    | [] => grouped
    | primary :: _ => <[primary := default [] (grouped !! primary) ++ [key]]> grouped
    end) keys ∅.
End Placement.
