(* ===== verification/PlacementProps.v ===== *)
(** * Placement is the same on every node: src/net/placement.cpp

    The ring does not depend on the order in which members were added, replica
    lists are distinct and as long as the ring allows, a joining node disturbs
    a key's replicas only by inserting itself, and holder selection does not
    depend on the order of the candidates. *)
From S2P Require Import Prelude Bytes Json AtRest Peer Placement.
Local Open Scope Z_scope.

(** ** The smaller of two ids *)
Definition str_min (a b : bytes) : bytes := if str_le a b then a else b.

Lemma str_le_refl a : str_le a a = true.
Proof. unfold str_le. by rewrite lt_irrefl. Qed.

Lemma str_le_total a b : str_le a b = false -> str_le b a = true.
Proof. unfold str_le. intros H%negb_false_iff. by rewrite (lt_asym _ _ _ H). Qed.

Lemma str_le_antisym a b : str_le a b = true -> str_le b a = true -> a = b.
Proof. unfold str_le. intros H1%negb_true_iff H2%negb_true_iff. by apply lt_total. Qed.

Lemma str_le_trans a b c : str_le a b = true -> str_le b c = true -> str_le a c = true.
Proof.
  unfold str_le. intros H1%negb_true_iff H2%negb_true_iff. apply negb_true_iff.
  by apply (nlt_trans _ a b c).
Qed.

Lemma str_min_comm a b : str_min a b = str_min b a.
Proof.
  unfold str_min. destruct (str_le a b) eqn:E1, (str_le b a) eqn:E2; try done.
  - by apply str_le_antisym.
  - apply str_le_total in E1. congruence.
Qed.

Lemma str_min_assoc a b c : str_min a (str_min b c) = str_min (str_min a b) c.
Proof.
  unfold str_min.
  destruct (str_le b c) eqn:E1, (str_le a b) eqn:E2, (str_le a c) eqn:E3; cbv iota;
    rewrite ?E1, ?E2, ?E3; try done.
  - rewrite (str_le_trans a b c) in E3; done.
  - apply str_le_total in E1, E2. apply str_le_antisym; [done|by eapply str_le_trans].
Qed.

Lemma str_min_idemp a : str_min a a = a.
Proof. unfold str_min. by rewrite str_le_refl. Qed.

Section PlacementProps.
Context `{C : Crypto}.
Implicit Types (r : ConsistentHashRing).

Definition join_min (o : option bytes) (n : bytes) : bytes :=
  match o with Some x => str_min x n | None => n end.

Lemma claim_lookup n (m : gmap Z bytes) p q :
  claim n m p !! q = if decide (q = p) then Some (join_min (m !! p) n) else m !! q.
Proof.
  unfold claim, join_min, str_min. case_decide as Hq.
  - subst q. destruct (m !! p) as [o|] eqn:E; [|by rewrite lookup_insert_eq].
    destruct (str_le o n); [done|by rewrite lookup_insert_eq].
  - destruct (m !! p) as [o|]; [destruct (str_le o n); [done|]|]; by rewrite lookup_insert_ne.
Qed.

Lemma claims_lookup n ps (m : gmap Z bytes) q :
  fold_left (claim n) ps m !! q = if decide (q ∈ ps) then Some (join_min (m !! q) n) else m !! q.
Proof.
  revert m. induction ps as [|p ps IH]; intros m; [by rewrite decide_False by apply not_elem_of_nil|].
  cbn [fold_left]. rewrite IH, claim_lookup. destruct (decide (q = p)) as [->|Hne].
  - rewrite (decide_True (P := p ∈ p :: ps)) by (by apply elem_of_cons; left).
    case_decide; [|done]. cbn. unfold join_min. destruct (m !! p) as [o|].
    + by rewrite <- str_min_assoc, str_min_idemp.
    + by rewrite str_min_idemp.
  - destruct (decide (q ∈ ps)).
    + by rewrite decide_True by (by apply elem_of_cons; right).
    + rewrite decide_False; [done|]. by intros [?|?]%elem_of_cons.
Qed.

Lemma claims_comm a b pa pb (m : gmap Z bytes) :
  fold_left (claim a) pa (fold_left (claim b) pb m) = fold_left (claim b) pb (fold_left (claim a) pa m).
Proof.
  apply map_eq. intros q. rewrite !claims_lookup.
  destruct (decide (q ∈ pa)), (decide (q ∈ pb)); try done. f_equal. cbn.
  destruct (m !! q) as [o|]; cbn; [|apply str_min_comm].
  by rewrite <- !str_min_assoc, (str_min_comm a b).
Qed.

Lemma AddNode_comm a b v r : AddNode a v (AddNode b v r) = AddNode b v (AddNode a v r).
Proof.
  destruct (decide (a = b)) as [->|Hab]; [done|]. unfold AddNode.
  destruct (bool_decide (a = []) || (v =? 0)%nat) eqn:Ea, (bool_decide (b = []) || (v =? 0)%nat) eqn:Eb; try done.
  destruct (nodes_ r !! b) as [nb|] eqn:Hb, (nodes_ r !! a) as [na|] eqn:Ha; cbn [nodes_ ring_];
    rewrite ?Hb, ?Ha, ?lookup_insert_ne by done; rewrite ?Hb, ?Ha; try done.
  f_equal; [apply claims_comm|]. by rewrite insert_insert_ne by done.
Qed.

Definition add_all (v : nat) (ns : list bytes) r : ConsistentHashRing := foldr (fun n => AddNode n v) r ns.

Lemma add_all_perm v ns1 ns2 r : ns1 ≡ₚ ns2 -> add_all v ns1 r = add_all v ns2 r.
Proof.
  induction 1 as [|n l1 l2 _ IH|n1 n2 l|l1 l2 l3 _ IH1 _ IH2]; cbn [add_all foldr].
  - done.
  - unfold add_all in IH. by rewrite IH.
  - apply AddNode_comm.
  - by rewrite IH1.
Qed.

(** Two nodes that know the same members place every key alike: whatever
    order the members were learned in, colliding ring positions included, the
    rings are equal, and so are the replicas of each key. *)
Theorem ring_order_independent v ns1 ns2 key count :
  ns1 ≡ₚ ns2 ->
  add_all v ns1 empty_ring = add_all v ns2 empty_ring
  /\ Replicas (add_all v ns1 empty_ring) key count = Replicas (add_all v ns2 empty_ring) key count.
Proof. intros H. by rewrite (add_all_perm v ns1 ns2 empty_ring H). Qed.

(** ** Walking the ring *)
Fixpoint uniq (seen l : list bytes) : list bytes :=
  match l with
  | [] => []
  | n :: l' => if bool_decide (n ∈ seen) then uniq seen l' else n :: uniq (n :: seen) l'
  end.

Lemma distinct_take count seen l : distinct count seen l = take count (uniq seen l).
Proof.
  revert count seen. induction l as [|n l IH]; intros count seen; [by destruct count|].
  destruct count as [|c]; [done|]. cbn [distinct uniq]. case_bool_decide; [apply IH|]. cbn. by rewrite IH.
Qed.

Lemma uniq_spec seen l :
  NoDup (uniq seen l) /\ forall n, n ∈ uniq seen l <-> n ∈ l /\ n ∉ seen.
Proof.
  revert seen. induction l as [|n l IH]; intros seen; cbn [uniq].
  { split; [constructor|]. intros n. split; [by intros ?%elem_of_nil|by intros [?%elem_of_nil _]]. }
  case_bool_decide as Hn.
  - destruct (IH seen) as [H1 H2]. split; [done|]. intros x. rewrite H2, elem_of_cons. split; [tauto|].
    intros [[->|?] ?]; [done|tauto].
  - destruct (IH (n :: seen)) as [H1 H2]. split.
    + constructor; [|done]. rewrite H2. intros [_ H]. apply H. by apply elem_of_cons; left.
    + intros x. rewrite !elem_of_cons, H2. rewrite not_elem_of_cons. split.
      * intros [->|(? & ? & ?)]; [tauto|tauto].
      * intros [[->|?] ?]; [by left|]. destruct (decide (x = n)) as [|]; [by left|]. right. tauto.
Qed.

Lemma walk_elem position l s : s ∈ walk_from position l <-> s ∈ l.
Proof.
  unfold walk_from. rewrite elem_of_app, !list_elem_of_filter. split; [tauto|].
  intros H. destruct (Z.le_gt_cases position s.1); [left|right]; done.
Qed.

Lemma slots_elem (m : gmap Z bytes) p n : (p, n) ∈ slots m <-> m !! p = Some n.
Proof. unfold slots. by rewrite std_sort_elem_of, elem_of_map_to_list. Qed.

(** The nodes that own at least one ring position. *)
Definition ring_nodes r : gset bytes := list_to_set (map_to_list (ring_ r)).*2.

Lemma walk_nodes r position n :
  n ∈ (walk_from position (slots (ring_ r))).*2 <-> n ∈ ring_nodes r.
Proof.
  unfold ring_nodes. rewrite elem_of_list_to_set, !list_elem_of_fmap. split.
  - intros ([p x] & -> & H%walk_elem). apply slots_elem, elem_of_map_to_list in H. by exists (p, x).
  - intros ([p x] & -> & H). apply elem_of_map_to_list, slots_elem in H. exists (p, x).
    split; [done|]. by apply walk_elem.
Qed.

Lemma Replicas_take r key count :
  exists u, Replicas r key count = take count u /\ NoDup u
    /\ (forall n, n ∈ u <-> n ∈ ring_nodes r) /\ length u = size (ring_nodes r).
Proof.
  exists (uniq [] (walk_from (HashToRing key) (slots (ring_ r))).*2). unfold Replicas. rewrite distinct_take.
  destruct (uniq_spec [] (walk_from (HashToRing key) (slots (ring_ r))).*2) as [Hnd Hin].
  assert (forall n, n ∈ uniq [] (walk_from (HashToRing key) (slots (ring_ r))).*2 <-> n ∈ ring_nodes r) as Hiff.
  { intros n. rewrite Hin, walk_nodes. pose proof (not_elem_of_nil n). tauto. }
  split_and!; [done|done|done|]. rewrite <- (size_list_to_set (C := gset bytes)) by done.
  f_equal. apply set_eq. intros n. by rewrite elem_of_list_to_set.
Qed.

(** [Replicas] returns distinct nodes of the ring, as many as asked for or,
    when the ring has fewer nodes, all of them. *)
Theorem replicas_distinct_complete r key count :
  NoDup (Replicas r key count)
  /\ (forall n, n ∈ Replicas r key count -> n ∈ ring_nodes r)
  /\ length (Replicas r key count) = Nat.min count (size (ring_nodes r)).
Proof.
  destruct (Replicas_take r key count) as (u & -> & Hnd & Hin & Hlen). split_and!.
  - eapply sublist_NoDup; [exact Hnd|apply sublist_take].
  - intros n Hn. apply Hin. eapply elem_of_sublist; [exact Hn|apply sublist_take].
  - by rewrite length_take, Hlen.
Qed.

(** ** A node joins *)
Lemma uniq_seen_ext seen1 seen2 l :
  (forall x, x ∈ l -> (x ∈ seen1 <-> x ∈ seen2)) -> uniq seen1 l = uniq seen2 l.
Proof.
  revert seen1 seen2. induction l as [|a l IH]; intros seen1 seen2 H; [done|]. cbn [uniq].
  pose proof (H a ltac:(by apply elem_of_cons; left)) as Ha.
  assert (bool_decide (a ∈ seen1) = bool_decide (a ∈ seen2)) as -> by (by apply bool_decide_ext).
  rewrite (IH seen1 seen2) by (intros x Hx; apply H; by apply elem_of_cons; right).
  rewrite (IH (a :: seen1) (a :: seen2)); [done|].
  intros x Hx. rewrite !elem_of_cons, (H x) by (by apply elem_of_cons; right). done.
Qed.

Lemma uniq_filter n seen l :
  uniq seen (filter (fun x => x <> n) l) = filter (fun x => x <> n) (uniq seen l).
Proof.
  revert seen. induction l as [|a l IH]; intros seen; [done|]. rewrite filter_cons. cbn [uniq].
  case_decide as Ha.
  - cbn [uniq]. case_bool_decide; [apply IH|]. rewrite filter_cons_True by done. f_equal. apply IH.
  - subst a. case_bool_decide; [apply IH|]. rewrite filter_cons_False by (by intros Hx).
    rewrite <- IH. apply uniq_seen_ext. intros x [Hx _]%list_elem_of_filter. rewrite elem_of_cons. tauto.
Qed.

Lemma filter_ne_id (n : bytes) (l : list bytes) : n ∉ l -> filter (fun x => x <> n) l = l.
Proof.
  induction l as [|x l IH]; intros Hn; [done|]. apply not_elem_of_cons in Hn as [Hx Hn].
  rewrite filter_cons_True by congruence. by rewrite IH.
Qed.

(** Taking [k] of a list without repetition and dropping [n] takes one fewer of the list
    without [n], or as many when [n] was not among them. *)
Lemma take_filter_ne (n : bytes) k (l : list bytes) :
  NoDup l ->
  filter (fun x => x <> n) (take k l)
  = take (if decide (n ∈ take k l) then k - 1 else k) (filter (fun x => x <> n) l).
Proof.
  intros Hnd. destruct (decide (n ∈ l)) as [Hin|Hni].
  2:{ assert (Hk : n ∉ take k l) by (intros Hx; apply Hni; rewrite <- (take_drop k l); apply elem_of_app; by left).
      rewrite decide_False, !filter_ne_id by done. done. }
  apply list_elem_of_split in Hin as (l1 & l2 & ->). apply NoDup_app in Hnd as (_ & H12 & Hn2). apply NoDup_cons in Hn2 as [Hn2 _].
  assert (Hn1 : n ∉ l1) by (intros Hx; apply (H12 n Hx); by left).
  rewrite filter_app, (filter_ne_id n l1), filter_cons_False, (filter_ne_id n l2) by (done || by intros Hx).
  destruct (Nat.le_gt_cases k (length l1)) as [Hk|Hk].
  - rewrite !take_app_le by done. rewrite decide_False.
    + rewrite filter_ne_id by (intros (i & Hi & _)%elem_of_take; apply Hn1; by eapply list_elem_of_lookup_2). by rewrite take_app_le.
    + intros (i & Hi & _)%elem_of_take. apply Hn1. by eapply list_elem_of_lookup_2.
  - destruct (k - length l1)%nat as [|j] eqn:Ej; [lia|].
    rewrite !take_app_ge by lia. rewrite Ej. cbn [take]. rewrite decide_True by (apply elem_of_app; right; by left).
    rewrite filter_app, (filter_ne_id n l1), filter_cons_False by (done || by intros Hx).
    rewrite filter_ne_id by (intros (i & Hi & _)%elem_of_take; apply Hn2; by eapply list_elem_of_lookup_2).
    rewrite take_app_ge by lia. do 2 f_equal. lia.
Qed.

Lemma sorted_filter (P : Z * bytes -> Prop) `{!forall s, Decision (P s)} l :
  sorted_strict Z.ltb fst l -> sorted_strict Z.ltb fst (filter P l).
Proof.
  unfold sorted_strict. induction 1 as [|x l Hs IH Hall]; [constructor|]. rewrite filter_cons.
  case_decide; [|done]. constructor; [done|]. apply Forall_forall. intros y [_ Hy]%list_elem_of_filter.
  by eapply Forall_forall in Hall.
Qed.

Lemma slots_sorted (m : gmap Z bytes) : sorted_strict Z.ltb fst (slots m).
Proof. apply std_sort_sorted; [apply _|]. apply NoDup_fst_map_to_list. Qed.

(** The old slots are the new ones less the joining node's. *)
Lemma slots_join n ps (m : gmap Z bytes) :
  (forall p, p ∈ ps -> m !! p = None) -> (forall p, m !! p <> Some n) ->
  slots m = filter (fun s => s.2 <> n) (slots (fold_left (claim n) ps m)).
Proof.
  intros Hfree Hnew. eapply (sorted_strict_unique Z.ltb fst).
  - apply slots_sorted.
  - apply sorted_filter, slots_sorted.
  - assert (forall (m' : gmap Z bytes), NoDup (slots m')) as Hnd.
    { intros m'. eapply NoDup_fmap_1, (sorted_strict_nodup Z.ltb fst), slots_sorted. }
    apply NoDup_Permutation; [apply Hnd|apply NoDup_filter, Hnd|].
    intros [p x]. rewrite list_elem_of_filter, !slots_elem, claims_lookup. cbn.
    destruct (decide (p ∈ ps)) as [Hp|Hp].
    + rewrite (Hfree p Hp). cbn. split; [done|]. intros [Hx [= <-]]. done.
    + split; [|tauto]. intros Hl. split; [|done]. intros ->. by apply (Hnew p).
Qed.

Lemma walk_filter n position l :
  (walk_from position (filter (fun s : Z * bytes => s.2 <> n) l)).*2
  = filter (fun x => x <> n) (walk_from position l).*2.
Proof.
  unfold walk_from. rewrite !fmap_app, filter_app.
  assert (forall (P : Z * bytes -> Prop) `{!forall s, Decision (P s)},
    (filter P (filter (fun s : Z * bytes => s.2 <> n) l)).*2 = filter (fun x => x <> n) (filter P l).*2) as H.
  { intros P HP. induction l as [|[p x] l IH]; [done|].
    rewrite !filter_cons. cbn [snd]. destruct (decide (x <> n)) as [Hx|Hx], (decide (P (p, x))) as [Hp|Hp];
      rewrite ?filter_cons; cbn [snd].
    - rewrite decide_True by done. rewrite !fmap_cons, filter_cons_True by done. by rewrite IH.
    - rewrite decide_False by done. done.
    - rewrite fmap_cons, filter_cons_False by (by intros Hc). done.
    - done. }
  by rewrite !H.
Qed.

(** C38: a node that joins takes keys over but does not shuffle them: when it is new and its
    positions on the ring are free, the replicas of any key are, without the new node,
    exactly the ones the key had before, less the last one when the new node took a place
    and there were as many as asked for; and the new node is a replica whenever the ring
    had fewer nodes than asked for.  So no two old replicas change order and no key moves
    between old nodes. *)
Theorem ring_join_minimal_disruption r n v key count :
  n <> [] -> (0 < v)%nat -> nodes_ r !! n = None ->
  (forall p, p ∈ positions n v -> ring_ r !! p = None) -> (forall p, ring_ r !! p <> Some n) ->
  let before := Replicas r key count in
  let after := Replicas (AddNode n v r) key count in
  filter (fun x => x <> n) after = take (if decide (n ∈ after) then count - 1 else count) before
  /\ ((length before < count)%nat -> n ∈ after).
Proof.
  intros Hn Hv Hnew Hfree Hno. cbv zeta. unfold AddNode.
  rewrite bool_decide_eq_false_2 by done. destruct (Nat.eqb_spec v 0); [lia|]. cbn [orb]. rewrite Hnew.
  unfold Replicas. cbn [ring_]. rewrite !distinct_take.
  rewrite (slots_join n (positions n v) (ring_ r) Hfree Hno), walk_filter, uniq_filter.
  set (ring' := fold_left (claim n) (positions n v) (ring_ r)).
  set (full := uniq [] (walk_from (HashToRing key) (slots ring')).*2).
  destruct (uniq_spec [] (walk_from (HashToRing key) (slots ring')).*2) as [Hnd Hin]. fold full in Hnd, Hin.
  assert (Hf : n ∈ full).
  { apply Hin. split; [|apply not_elem_of_nil]. destruct v as [|v]; [lia|].
    assert (Hp : vnode n 0 ∈ positions n (S v)) by (unfold positions; cbn; by left).
    apply list_elem_of_fmap. exists (vnode n 0, n). split; [done|]. apply walk_elem, slots_elem.
    unfold ring'. rewrite claims_lookup, decide_True, (Hfree _ Hp) by done. done. }
  split.
  - rewrite take_filter_ne, take_take by done. f_equal. destruct (decide _); lia.
  - intros Hlt. rewrite length_take in Hlt.
    assert (Hl : length full = S (length (filter (fun x => x <> n) full))).
    { clear -Hnd Hf. apply list_elem_of_split in Hf as (l1 & l2 & ->). apply NoDup_app in Hnd as (_ & H12 & Hn2).
      apply NoDup_cons in Hn2 as [Hn2 _]. assert (Hn1 : n ∉ l1) by (intros Hx; apply (H12 n Hx); by left).
      rewrite filter_app, (filter_ne_id n l1), filter_cons_False, (filter_ne_id n l2) by (done || by intros Hx).
      rewrite !length_app. cbn [length]. lia. }
    rewrite take_ge by lia. done.
Qed.

(** ** Plans *)
(** The owners a plan reports as displaced are never among its replicas,
    each is on the ring with the absent members, and a plan is flagged
    under-replicated exactly when the live ring has fewer nodes than asked for. *)
Theorem plan_displaced_disjoint p collection key shard :
  let plan := Place p collection key shard in
  (forall n, n ∈ displaced_owners plan -> (n ∉ replicas plan) /\ n ∈ ring_nodes (ring_with_absent p))
  /\ (under_replicated plan = true
      <-> (size (ring_nodes (live_ring p)) < replication_factor (options_ p))%nat).
Proof.
  cbv zeta. unfold Place. cbn [displaced_owners replicas under_replicated]. split.
  - intros n. destruct (_ <? _)%nat; [|by intros ?%elem_of_nil].
    intros [Hn Hr]%list_elem_of_filter. split; [done|].
    destruct (Replicas_take (ring_with_absent p) (PlacementHashInput collection key shard)
      (replication_factor (options_ p))) as (u & Hu & _ & Hin & _).
    rewrite Hu in Hr. apply Hin. eapply elem_of_sublist; [exact Hr|apply sublist_take].
  - destruct (Replicas_take (live_ring p) (PlacementHashInput collection key shard)
      (replication_factor (options_ p))) as (u & -> & _ & _ & Hlen).
    rewrite Nat.ltb_lt, length_take, Hlen. lia.
Qed.

(** ** Transit holders *)
#[export] Instance ranked_before_strict : StrictTotal ranked_before.
Proof.
  unfold ranked_before. split.
  - intros [x a]. cbn. rewrite Z.eqb_refl. cbn. apply lt_irrefl.
  - intros [x a] [y b] [z c]. cbn.
    destruct (Z.eqb_spec x y), (Z.eqb_spec y z), (Z.eqb_spec x z); cbn [negb]; subst; try done;
      rewrite ?Z.ltb_lt; try lia; try apply lt_trans.
  - intros [x a] [y b]. cbn. destruct (Z.eqb_spec x y), (Z.eqb_spec y x); cbn [negb]; subst; try done.
    + intros H1 H2. by rewrite (lt_total a b H1 H2).
    + rewrite !Z.ltb_ge. lia.
Qed.

(** The ranking itself. *)
Definition ranking (owner hash : bytes) (candidates : list bytes) : list (Z * bytes) :=
  std_sort ranked_before id ((fun c => (rank owner hash c, c)) <$> filter (fun c => c <> []) candidates).

Lemma rank_nodup owner hash candidates :
  NoDup candidates ->
  NoDup (id <$> ((fun c => (rank owner hash c, c)) <$> filter (fun c => c <> []) candidates)).
Proof.
  intros H. rewrite list_fmap_id. apply NoDup_fmap_2_strong; [|by apply NoDup_filter].
  intros x y _ _ Hxy. by injection Hxy.
Qed.

Lemma ranking_perm owner hash c1 c2 :
  NoDup c1 -> c1 ≡ₚ c2 -> ranking owner hash c1 = ranking owner hash c2.
Proof.
  intros Hnd Hp. unfold ranking. apply std_sort_proper; [apply _|by apply rank_nodup|].
  by rewrite Hp.
Qed.

Lemma ranking_snd owner hash candidates :
  (ranking owner hash candidates).*2 ≡ₚ filter (fun c => c <> []) candidates.
Proof.
  unfold ranking. rewrite std_sort_perm, <- list_fmap_compose.
  by rewrite (list_fmap_ext _ id) by done; rewrite list_fmap_id.
Qed.

Lemma Select_ranking owner hash candidates h i :
  SelectTransitHolders owner hash candidates h i
  = take h (rotate (Z.to_nat (i mod Zlen (ranking owner hash candidates))) (ranking owner hash candidates).*2).
Proof.
  unfold SelectTransitHolders. fold (ranking owner hash candidates).
  set (l := ranking owner hash candidates).
  assert (forall n (x : list (Z * bytes)), (rotate n x).*2 = rotate n x.*2) as Hrot.
  { intros n x. unfold rotate. by rewrite fmap_app, fmap_drop, fmap_take. }
  case_bool_decide as Hc; cbn [orb].
  { subst candidates l. change (ranking owner hash []) with (@nil (Z * bytes)). unfold rotate.
    rewrite fmap_nil, drop_nil, take_nil. by destruct h. }
  destruct (Nat.eqb_spec h 0) as [->|Hh]; [done|]. case_bool_decide as Hl.
  - rewrite Hl. unfold rotate. rewrite fmap_nil, drop_nil, !take_nil. by destruct h.
  - rewrite fmap_take, Hrot.
    assert (length (rotate (Z.to_nat (i mod Zlen l)) l) = length (rotate (Z.to_nat (i mod Zlen l)) l.*2)) as Hlen
      by (rewrite <- Hrot; by rewrite length_fmap).
    rewrite Hlen. destruct (Nat.le_ge_cases h (length (rotate (Z.to_nat (i mod Zlen l)) l.*2))) as [H|H].
    + by rewrite Nat.min_l.
    + by rewrite Nat.min_r, !take_ge by lia.
Qed.

Lemma rotate_perm {A} n (l : list A) : rotate n l ≡ₚ l.
Proof. unfold rotate. rewrite (Permutation_app_comm). by rewrite take_drop. Qed.

(** Peers that see the same candidates pick the same holders without
    coordination: the selection does not depend on the candidates' order, names
    distinct candidates only, and has the configured number of holders or all
    candidates when there are fewer. *)
Theorem transit_holders_deterministic owner hash c1 c2 h i :
  NoDup c1 -> c1 ≡ₚ c2 ->
  SelectTransitHolders owner hash c1 h i = SelectTransitHolders owner hash c2 h i
  /\ NoDup (SelectTransitHolders owner hash c1 h i)
  /\ (forall n, n ∈ SelectTransitHolders owner hash c1 h i -> n ∈ c1 /\ n <> [])
  /\ length (SelectTransitHolders owner hash c1 h i) = Nat.min h (length (filter (fun c => c <> []) c1)).
Proof.
  intros Hnd Hp. rewrite !Select_ranking, <- (ranking_perm owner hash c1 c2 Hnd Hp).
  set (k := Z.to_nat _). pose proof (ranking_snd owner hash c1) as Hs.
  assert (rotate k (ranking owner hash c1).*2 ≡ₚ filter (fun c => c <> []) c1) as Hr
    by (etrans; [apply rotate_perm|exact Hs]).
  split_and!.
  - done.
  - eapply sublist_NoDup; [|apply sublist_take]. rewrite Hr. by apply NoDup_filter.
  - intros n Hn. apply (elem_of_sublist _ (rotate k (ranking owner hash c1).*2)) in Hn; [|apply sublist_take].
    rewrite Hr, list_elem_of_filter in Hn. tauto.
  - rewrite length_take. f_equal. by rewrite Hr.
Qed.

(** Striping spreads a document over the candidates: among as many chunks
    as there are candidates, every candidate is the first holder of one. *)
Theorem transit_stripes_cover owner hash candidates h n :
  NoDup candidates -> (0 < h)%nat -> n ∈ candidates -> n <> [] ->
  exists i, 0 <= i < Zlen (filter (fun c => c <> []) candidates)
    /\ head (SelectTransitHolders owner hash candidates h i) = Some n.
Proof.
  intros Hnd Hh Hn Hne. pose proof (ranking_snd owner hash candidates) as Hs.
  assert (n ∈ (ranking owner hash candidates).*2) as Hin by (rewrite Hs; by apply list_elem_of_filter).
  apply list_elem_of_lookup in Hin as [j Hj]. pose proof (lookup_lt_Some _ _ _ Hj) as Hlt.
  assert (Zlen (ranking owner hash candidates) = Zlen (filter (fun c => c <> []) candidates)) as Hlen.
  { unfold Zlen. rewrite <- Hs. by rewrite length_fmap. }
  rewrite length_fmap in Hlt. exists (Z.of_nat j). split; [rewrite <- Hlen; unfold Zlen; lia|].
  rewrite Select_ranking, Z.mod_small by (unfold Zlen; lia). rewrite Nat2Z.id. unfold rotate.
  rewrite (drop_S _ _ _ Hj). destruct h as [|h]; [lia|]. done.
Qed.
End PlacementProps.

#[local] Existing Instance toy_crypto.

Lemma ring_order_independent_witness :
  add_all 2 [bs "a"; bs "b"] empty_ring = add_all 2 [bs "b"; bs "a"] empty_ring
  /\ Replicas (add_all 2 [bs "a"; bs "b"] empty_ring) (bs "k") 2
     = Replicas (add_all 2 [bs "b"; bs "a"] empty_ring) (bs "k") 2.
Proof. apply (ring_order_independent 2 [bs "a"; bs "b"] [bs "b"; bs "a"] (bs "k") 2). apply perm_swap. Defined.

(** A third node joins a ring of two. *)
Lemma ring_join_minimal_disruption_witness :
  let r := add_all 2 [bs "a"; bs "b"] empty_ring in
  let after := Replicas (AddNode (bs "n") 3 r) (bs "key") 3 in
  filter (fun x => x <> bs "n") after = take 2 (Replicas r (bs "key") 3) /\ bs "n" ∈ after.
Proof.
  intros r after. destruct (ring_join_minimal_disruption r (bs "n") 3 (bs "key") 3) as [H1 H2].
  - done.
  - lia.
  - by vm_compute.
  - apply Forall_forall. apply (bool_decide_unpack _). vm_compute. exact I.
  - intros p Hp. assert (Hin : (p, bs "n") ∈ map_to_list (ring_ r)) by (by apply elem_of_map_to_list).
    apply (list_elem_of_fmap_2 snd) in Hin. revert Hin. apply (bool_decide_unpack _). vm_compute. exact I.
  - assert (Hin : bs "n" ∈ after) by (apply H2; apply Nat.ltb_lt; by vm_compute).
    split; [|exact Hin]. fold after in H1. rewrite H1, decide_True by exact Hin. done.
Defined.

Lemma transit_holders_deterministic_witness :
  SelectTransitHolders (bs "o") (bs "h") [bs "a"; bs "b"] 1 0
  = SelectTransitHolders (bs "o") (bs "h") [bs "b"; bs "a"] 1 0.
Proof.
  apply (transit_holders_deterministic (bs "o") (bs "h") [bs "a"; bs "b"] [bs "b"; bs "a"] 1 0).
  - apply (bool_decide_eq_true_1 (NoDup [bs "a"; bs "b"])). vm_compute. reflexivity.
  - apply perm_swap.
Defined.

Lemma transit_stripes_cover_witness :
  exists i, 0 <= i < Zlen (filter (fun c : bytes => c <> []) [bs "a"])
    /\ head (SelectTransitHolders (bs "o") (bs "h") [bs "a"] 1 i) = Some (bs "a").
Proof.
  apply (transit_stripes_cover (bs "o") (bs "h") [bs "a"] 1 (bs "a")).
  - apply NoDup_singleton.
  - lia.
  - by apply list_elem_of_singleton.
  - done.
Defined.
