(* ===== verification/Admission.v ===== *)
(** * Duplicate suppression: src/net/admission.cpp

    [MessageDedup] against its specification, a sliding window over the accepted ids. *)
From S2P Require Import Prelude Bytes.
Local Open Scope Z_scope.

(** ** MessageDedup *)
Record MessageDedup := mkDedup {
  capacity_ : nat;
  seen_ : gset bytes;
  order_ : list bytes;      (* front first *)
}.

Definition new_dedup (capacity : nat) : MessageDedup := mkDedup capacity ∅ [].

(** [while (order_.size() > capacity_)]: erase and pop the front. *)
Fixpoint evict (capacity : nat) (seen : gset bytes) (order : list bytes) : gset bytes * list bytes :=
  match order with
  | [] => (seen, [])
  | front :: rest =>
      if (capacity <? length order)%nat then evict capacity (seen ∖ {[front]}) rest else (seen, order)
  end.

Definition NoteAndCheckNew (d : MessageDedup) (message_id : bytes) : bool * MessageDedup :=
  if bool_decide (message_id = []) then (true, d)
  else if bool_decide (message_id ∈ seen_ d) then (false, d)
  else
    let '(seen, order) := evict (capacity_ d) (seen_ d ∪ {[message_id]}) (order_ d ++ [message_id]) in
    (true, mkDedup (capacity_ d) seen order).

Definition DedupContains (d : MessageDedup) (message_id : bytes) : bool := bool_decide (message_id ∈ seen_ d).
Definition DedupSize (d : MessageDedup) : nat := size (seen_ d).

(** The specification: the last [capacity] ids that were accepted. *)
Definition window (capacity : nat) (accepted : list bytes) : list bytes :=
  drop (length accepted - capacity) accepted.

Definition spec_step (capacity : nat) (accepted : list bytes) (message_id : bytes) : bool * list bytes :=
  if bool_decide (message_id = []) then (true, accepted)
  else if bool_decide (message_id ∈ window capacity accepted) then (false, accepted)
  else (true, accepted ++ [message_id]).

Fixpoint run_dedup (d : MessageDedup) (ids : list bytes) : list bool * MessageDedup :=
  match ids with
  | [] => ([], d)
  | x :: ids' => let '(b, d1) := NoteAndCheckNew d x in let '(bs, d2) := run_dedup d1 ids' in (b :: bs, d2)
  end.

Fixpoint run_spec (capacity : nat) (accepted : list bytes) (ids : list bytes) : list bool * list bytes :=
  match ids with
  | [] => ([], accepted)
  | x :: ids' =>
      let '(b, a1) := spec_step capacity accepted x in
      let '(bs, a2) := run_spec capacity a1 ids' in (b :: bs, a2)
  end.

(** The deque is the window, the set its elements, and no id is twice in it. *)
Record dedup_refines (d : MessageDedup) (accepted : list bytes) : Prop := {
  dr_order : order_ d = window (capacity_ d) accepted;
  dr_seen : seen_ d = list_to_set (order_ d);
  dr_nodup : NoDup (order_ d);
}.

Lemma evict_spec capacity order :
  NoDup order ->
  evict capacity (list_to_set order) order
  = (list_to_set (drop (length order - capacity) order), drop (length order - capacity) order).
Proof.
  induction order as [|x order IH]; intros Hnd; [done|]. cbn [evict].
  apply NoDup_cons in Hnd as [Hx Hnd]. destruct (Nat.ltb_spec capacity (length (x :: order))) as [Hlt|Hge].
  - assert ((list_to_set (x :: order) : gset bytes) ∖ {[x]} = list_to_set order) as ->.
    { apply set_eq. intros y. rewrite elem_of_difference, elem_of_singleton, !elem_of_list_to_set, elem_of_cons.
      split; [tauto|]. intros Hy. split; [by right|]. intros ->. done. }
    rewrite (IH Hnd). cbn [length] in *.
    replace (S (length order) - capacity)%nat with (S (length order - capacity)) by lia. done.
  - replace (length (x :: order) - capacity)%nat with 0%nat by lia. done.
Qed.

Lemma window_snoc capacity accepted x :
  window capacity (accepted ++ [x])
  = drop (length (window capacity accepted ++ [x]) - capacity) (window capacity accepted ++ [x]).
Proof.
  unfold window. rewrite !length_app, length_drop. cbn [length].
  destruct (Nat.le_gt_cases capacity (length accepted)) as [Hc|Hc].
  - rewrite <- (drop_app_le accepted [x]) by lia. rewrite drop_drop. f_equal. lia.
  - replace (length accepted - capacity)%nat with 0%nat by lia. rewrite drop_0.
    f_equal. lia.
Qed.

Lemma dedup_step d accepted x :
  dedup_refines d accepted ->
  (NoteAndCheckNew d x).1 = (spec_step (capacity_ d) accepted x).1
  /\ dedup_refines (NoteAndCheckNew d x).2 (spec_step (capacity_ d) accepted x).2
  /\ capacity_ (NoteAndCheckNew d x).2 = capacity_ d.
Proof.
  intros [Ho Hs Hn]. unfold NoteAndCheckNew, spec_step. case_bool_decide as He; [done|].
  rewrite Hs. assert (bool_decide (x ∈ (list_to_set (order_ d) : gset bytes))
    = bool_decide (x ∈ window (capacity_ d) accepted)) as ->.
  { apply bool_decide_ext. by rewrite elem_of_list_to_set, Ho. }
  case_bool_decide as Hx; [done|]. rewrite <- Ho in Hx.
  assert ((list_to_set (order_ d) : gset bytes) ∪ {[x]} = list_to_set (order_ d ++ [x])) as ->.
  { apply set_eq. intros y. rewrite elem_of_union, elem_of_singleton, !elem_of_list_to_set, elem_of_app.
    by rewrite list_elem_of_singleton. }
  assert (NoDup (order_ d ++ [x])) as Hnd.
  { apply NoDup_app. split_and!; [done| |apply NoDup_singleton].
    intros y Hy ->%list_elem_of_singleton. done. }
  rewrite (evict_spec _ _ Hnd). cbn [fst snd capacity_]. split_and!; [done| |done]. split; cbn.
  - rewrite window_snoc, <- Ho. done.
  - done.
  - eapply sublist_NoDup; [exact Hnd|apply sublist_drop].
Qed.

Lemma dedup_run d accepted ids :
  dedup_refines d accepted ->
  (run_dedup d ids).1 = (run_spec (capacity_ d) accepted ids).1
  /\ dedup_refines (run_dedup d ids).2 (run_spec (capacity_ d) accepted ids).2
  /\ capacity_ (run_dedup d ids).2 = capacity_ d.
Proof.
  revert d accepted. induction ids as [|x ids IH]; intros d accepted Hd; [done|]. cbn [run_dedup run_spec].
  destruct (dedup_step d accepted x Hd) as (H1 & H2 & H3).
  destruct (NoteAndCheckNew d x) as [b d1], (spec_step (capacity_ d) accepted x) as [b' a1]. cbn in H1, H2, H3.
  subst b'. destruct (IH d1 a1 H2) as (I1 & I2 & I3). rewrite H3 in I1, I2, I3.
  destruct (run_dedup d1 ids) as [bs d2], (run_spec (capacity_ d) a1 ids) as [bs' a2]. cbn in *. subst. done.
Qed.

(** C37: duplicate suppression implements a sliding window: on every stream of message
    ids, from an empty cache of any capacity, the verdicts are those of the specification
    (an id is refused exactly when it is among the last [capacity] accepted ones; the
    empty id is always let through and not kept), the ids kept are those last accepted ones in their order, and their number never exceeds
    the capacity. *)
Theorem dedup_is_sliding_window capacity ids :
  (run_dedup (new_dedup capacity) ids).1 = (run_spec capacity [] ids).1
  /\ order_ (run_dedup (new_dedup capacity) ids).2 = window capacity (run_spec capacity [] ids).2
  /\ (DedupSize (run_dedup (new_dedup capacity) ids).2 <= capacity)%nat.
Proof.
  destruct (dedup_run (new_dedup capacity) [] ids) as (H1 & [H2 H3 H4] & H5).
  { split; [by destruct capacity|done|constructor]. }
  cbn [capacity_ new_dedup] in *. rewrite H5 in H2. split_and!; [done|done|].
  unfold DedupSize. rewrite H3, size_list_to_set by done. rewrite H2. unfold window.
  rewrite length_drop. lia.
Qed.
