(* ===== verification/Receipt.v ===== *)
(** * Merge receipts: src/net/receipt_tracker.cpp

    The tracker as a state machine.  Each step is one critical section: the
    entry of [WaitFor], its wake-up and return, [NoteReceipt] and [Stop]. *)
From S2P Require Import Prelude Bytes.
Local Open Scope Z_scope.

Record MergeReceipt := mkReceipt {
  mr_message_id : bytes;
  mr_key_hash : bytes;
  applier_node : bytes;
  applied_lsn : Z;
  mr_signature : bytes;
}.

#[export] Instance MergeReceipt_eq_dec : EqDecision MergeReceipt.
Proof. solve_decision. Defined.

Record WaitState := mkWait {
  wanted : nat;
  receipts : list MergeReceipt;
  satisfied : bool;
  ws_stopped : bool;
}.

Record ReceiptTracker := mkTracker {
  rt_capacity : nat;
  waits_ : gmap bytes WaitState;
  rt_order : list bytes;
}.

Definition new_tracker (capacity : nat) : ReceiptTracker := mkTracker capacity ∅ [].

(** The loop of [EvictIfNeeded]: pops the front while it names a finished wait. *)
Fixpoint evict_loop (capacity : nat) (waits : gmap bytes WaitState) (order : list bytes)
  : gmap bytes WaitState * list bytes :=
  match order with
  | [] => (waits, [])
  | front :: rest =>
      if (size waits <? capacity)%nat then (waits, order)
      else match waits !! front with
           | Some ws => if satisfied ws || ws_stopped ws then evict_loop capacity (delete front waits) rest
                        else (waits, order)
           | None => (waits, order)
           end
  end.

Definition pop_if_front (id : bytes) (order : list bytes) : list bytes :=
  match order with
  | front :: rest => if bool_decide (front = id) then rest else order
  | [] => []
  end.

(** [waits_.erase(id)] and the pop of the front. *)
Definition forget (id : bytes) (t : ReceiptTracker) : ReceiptTracker :=
  mkTracker (rt_capacity t) (delete id (waits_ t)) (pop_if_front id (rt_order t)).

Inductive wait_entry := Returned (rs : list MergeReceipt) | Registered.

(** [WaitFor] up to the point where it blocks. *)
Definition WaitBegin (t : ReceiptTracker) (id : bytes) (w : nat) : wait_entry * ReceiptTracker :=
  if (w =? 0)%nat then (Returned [], t)
  else
    let t1 :=
      match waits_ t !! id with
      | Some ws =>
          mkTracker (rt_capacity t)
            (<[id := mkWait (Nat.max w (wanted ws)) (receipts ws) (satisfied ws) (ws_stopped ws)]> (waits_ t))
            (rt_order t)
      | None =>
          let '(waits, order) := evict_loop (rt_capacity t) (waits_ t) (rt_order t) in
          mkTracker (rt_capacity t) (<[id := mkWait w [] false false]> waits) (order ++ [id])
      end in
    match waits_ t1 !! id with
    | Some ws => if (w <=? length (receipts ws))%nat then (Returned (receipts ws), forget id t1) else (Registered, t1)
    | None => (Registered, t1)
    end.

(** The return of a blocked [WaitFor], after a wake-up or a timeout.  [None]: the
    wait's state has been freed by another caller on the same id. *)
Definition WaitEnd (t : ReceiptTracker) (id : bytes) (w : nat)
  : option (StatusOr (list MergeReceipt) * ReceiptTracker) :=
  match waits_ t !! id with
  | None => None
  | Some ws => Some (if ws_stopped ws then Fault kNetworkError else OK (receipts ws), forget id t)
  end.

Definition well_formed (r : MergeReceipt) : bool :=
  negb (bool_decide (mr_message_id r = [])) && negb (bool_decide (applier_node r = []))
  && (length (mr_key_hash r) =? 32)%nat.

Definition same_source (a b : MergeReceipt) : bool :=
  bool_decide (applier_node a = applier_node b) && bool_decide (mr_key_hash a = mr_key_hash b).

Definition NoteReceipt (t : ReceiptTracker) (r : MergeReceipt) : ReceiptTracker :=
  if negb (well_formed r) then t
  else match waits_ t !! mr_message_id r with
  | None => t
  | Some ws =>
      if existsb (fun e => same_source e r) (receipts ws) then t
      else
        let rs := receipts ws ++ [r] in
        mkTracker (rt_capacity t)
          (<[mr_message_id r := mkWait (wanted ws) rs (satisfied ws || (wanted ws <=? length rs)%nat) (ws_stopped ws)]>
             (waits_ t)) (rt_order t)
  end.

Definition ReceiptStop (t : ReceiptTracker) : ReceiptTracker :=
  mkTracker (rt_capacity t)
    ((fun ws => mkWait (wanted ws) (receipts ws) (satisfied ws) true) <$> waits_ t) (rt_order t).

(** ** Steps and reachable states *)
Inductive receipt_step : ReceiptTracker -> ReceiptTracker -> Prop :=
  | step_begin t id w : receipt_step t (WaitBegin t id w).2
  | step_end t id w res t' : WaitEnd t id w = Some (res, t') -> receipt_step t t'
  | step_note t r : receipt_step t (NoteReceipt t r)
  | step_stop t : receipt_step t (ReceiptStop t).

Inductive receipt_reach (capacity : nat) : ReceiptTracker -> Prop :=
  | reach_new : receipt_reach capacity (new_tracker capacity)
  | reach_step t t' : receipt_reach capacity t -> receipt_step t t' -> receipt_reach capacity t'.

(** A receipt counts once per applier and key, and only for its own message. *)
Definition source_of (r : MergeReceipt) : bytes * bytes := (applier_node r, mr_key_hash r).

Definition wait_ok (id : bytes) (ws : WaitState) : Prop :=
  NoDup (source_of <$> receipts ws)
  /\ Forall (fun r => mr_message_id r = id /\ well_formed r = true) (receipts ws).

Definition tracker_ok (t : ReceiptTracker) : Prop := map_Forall wait_ok (waits_ t).

Lemma evict_loop_sub capacity waits order id ws :
  (evict_loop capacity waits order).1 !! id = Some ws -> waits !! id = Some ws.
Proof.
  revert waits. induction order as [|front rest IH]; intros waits; [done|]. cbn [evict_loop].
  destruct (_ <? _)%nat; [done|]. destruct (waits !! front) as [ws'|]; [|done].
  destruct (_ || _); [|done]. intros H%IH. by apply lookup_delete_Some in H as [_ H].
Qed.

Lemma forget_ok id t : tracker_ok t -> tracker_ok (forget id t).
Proof. intros H. by apply map_Forall_delete. Qed.

Lemma WaitBegin_ok t id w : tracker_ok t ->
  tracker_ok (WaitBegin t id w).2
  /\ forall rs, (WaitBegin t id w).1 = Returned rs -> exists ws, receipts ws = rs /\ wait_ok id ws.
Proof.
  intros Ht. unfold WaitBegin. destruct (w =? 0)%nat.
  { split; [done|]. intros rs [= <-]. exists (mkWait 0 [] false false). split; [done|]. split; [constructor|done]. }
  set (t1 := match waits_ t !! id with Some ws => _ | None => _ end).
  assert (tracker_ok t1) as H1.
  { subst t1. destruct (waits_ t !! id) as [ws|] eqn:E.
    - apply map_Forall_insert_2; [|done]. apply (Ht id ws E).
    - pose proof (evict_loop_sub (rt_capacity t) (waits_ t) (rt_order t)) as Hs.
      destruct (evict_loop _ _ _) as [waits order]. apply map_Forall_insert_2.
      + split; [constructor|done].
      + intros k ws Hk. apply (Ht k ws). by apply Hs. }
  destruct (waits_ t1 !! id) as [ws|] eqn:E; [|done]. destruct (_ <=? _)%nat; [|done].
  split; [by apply forget_ok|]. intros rs [= <-]. exists ws. split; [done|]. apply (H1 id ws E).
Qed.

Lemma NoteReceipt_ok t r : tracker_ok t -> tracker_ok (NoteReceipt t r).
Proof.
  intros Ht. unfold NoteReceipt. destruct (well_formed r) eqn:Hw; cbn [negb]; [|done].
  destruct (waits_ t !! mr_message_id r) as [ws|] eqn:E; [|done].
  destruct (existsb _ _) eqn:Ex; [done|]. destruct (Ht _ _ E) as [Hnd Hall].
  apply map_Forall_insert_2; [|done]. split; cbn [receipts].
  - rewrite fmap_app. apply NoDup_app. split_and!; [done| |apply NoDup_singleton].
    intros x Hx ->%list_elem_of_singleton. apply list_elem_of_fmap in Hx as (e & He & Hin).
    assert (existsb (fun e => same_source e r) (receipts ws) = true) as Hc; [|congruence].
    apply existsb_exists. exists e. split; [by apply list_elem_of_In|].
    unfold source_of in He. injection He as H1 H2. unfold same_source.
    by rewrite !bool_decide_eq_true_2.
  - apply Forall_app. split; [done|]. by constructor; [|constructor].
Qed.

Lemma receipt_reach_ok capacity t : receipt_reach capacity t -> tracker_ok t.
Proof.
  induction 1 as [|t t' _ IH Hstep]; [apply map_Forall_empty|].
  destruct Hstep as [t id w|t id w res t' He|t r|t].
  - by apply WaitBegin_ok.
  - unfold WaitEnd in He. destruct (waits_ t !! id); [|done]. injection He as _ <-. by apply forget_ok.
  - by apply NoteReceipt_ok.
  - intros k ws Hk. cbn in Hk. apply lookup_fmap_Some in Hk as (ws' & <- & Hk). apply (IH k ws' Hk).
Qed.

(** What a waiter is told is sound: in every reachable state, a returned
    list of receipts, at once or after blocking, contains only well-formed receipts for the waited message,
    and no peer is counted twice for the same key. *)
Theorem receipts_are_distinct capacity t id w rs t' :
  receipt_reach capacity t ->
  WaitBegin t id w = (Returned rs, t') \/ WaitEnd t id w = Some (OK rs, t') ->
  NoDup (source_of <$> rs) /\ Forall (fun r => mr_message_id r = id /\ well_formed r = true) rs.
Proof.
  intros Hr He. pose proof (receipt_reach_ok _ _ Hr) as Hok. destruct He as [He|He].
  { destruct (WaitBegin_ok t id w Hok) as [_ Hret]. rewrite He in Hret.
    destruct (Hret rs eq_refl) as (ws & <- & Hws). exact Hws. }
  unfold WaitEnd in He. destruct (waits_ t !! id) as [ws|] eqn:E; [|done]. destruct (ws_stopped ws); [done|].
  injection He as <- _. apply (Hok id ws E).
Qed.

Definition demo_receipt : MergeReceipt := mkReceipt (bs "m") (replicate 32 Byte.x01) (bs "peer") 4 [].
Definition demo_waiting : ReceiptTracker := NoteReceipt (WaitBegin (new_tracker 8) (bs "m") 2).2 demo_receipt.

Lemma demo_waiting_reach : receipt_reach 8 demo_waiting.
Proof.
  eapply reach_step; [|apply step_note]. eapply reach_step; [apply reach_new|apply step_begin].
Qed.

Lemma receipts_are_distinct_witness :
  exists t', WaitEnd demo_waiting (bs "m") 2 = Some (OK [demo_receipt], t')
    /\ NoDup (source_of <$> [demo_receipt]).
Proof.
  eexists. split; [vm_compute; reflexivity|].
  refine (proj1 (receipts_are_distinct 8 demo_waiting (bs "m") 2 [demo_receipt] _ demo_waiting_reach _)).
  right. vm_compute. reflexivity.
Defined.

(** [Stop] does not latch: it marks the waits present at that moment, but a
    [WaitFor] that starts afterwards registers, receives and returns like before. *)
Theorem receipt_stop_does_not_latch t id w :
  waits_ t !! id = None -> (0 < w)%nat ->
  exists t1 t2, WaitBegin (ReceiptStop t) id w = (Registered, t1)
    /\ WaitEnd t1 id w = Some (OK [], t2).
Proof.
  intros Hid Hw. unfold WaitBegin. destruct (Nat.eqb_spec w 0); [lia|]. cbn [waits_ ReceiptStop].
  rewrite lookup_fmap, Hid. cbn [fmap option_fmap option_map].
  destruct (evict_loop _ _ _) as [waits order]. cbn [waits_].
  rewrite lookup_insert_eq. cbn [receipts length]. destruct (Nat.leb_spec w 0); [lia|].
  eexists _, _. split; [done|]. unfold WaitEnd. cbn [waits_]. by rewrite lookup_insert_eq.
Qed.

Lemma receipt_stop_does_not_latch_witness :
  exists t1 t2, WaitBegin (ReceiptStop demo_waiting) (bs "other") 1 = (Registered, t1)
    /\ WaitEnd t1 (bs "other") 1 = Some (OK [], t2).
Proof. apply (receipt_stop_does_not_latch demo_waiting (bs "other") 1); [vm_compute; reflexivity|lia]. Defined.

(** Two waiters on one message id share their state, and the first to return
    frees it under the other: the second's return finds no wait. *)
Theorem receipt_shared_wait_freed t id w1 w2 :
  waits_ t !! id = None -> (0 < w1)%nat -> (0 < w2)%nat ->
  exists t1 t2 r t3, WaitBegin t id w1 = (Registered, t1) /\ WaitBegin t1 id w2 = (Registered, t2)
    /\ WaitEnd t2 id w1 = Some (r, t3) /\ WaitEnd t3 id w2 = None.
Proof.
  intros Hid H1 H2. unfold WaitBegin at 1. destruct (Nat.eqb_spec w1 0); [lia|]. rewrite Hid.
  destruct (evict_loop _ _ _) as [waits order]. cbn [waits_].
  rewrite lookup_insert_eq. cbn [receipts length]. destruct (Nat.leb_spec w1 0); [lia|].
  eexists _, _, _, _. split; [done|]. unfold WaitBegin. destruct (Nat.eqb_spec w2 0); [lia|].
  cbn [waits_]. rewrite lookup_insert_eq. cbn [receipts wanted satisfied ws_stopped waits_].
  rewrite lookup_insert_eq. cbn [receipts length]. destruct (Nat.leb_spec w2 0); [lia|].
  split; [done|]. unfold WaitEnd. cbn [waits_ forget]. rewrite lookup_insert_eq. split; [done|].
  cbn [waits_ forget]. by rewrite lookup_delete_eq.
Qed.

Lemma receipt_shared_wait_freed_witness :
  exists t1 t2 r t3, WaitBegin (new_tracker 8) (bs "m") 1 = (Registered, t1)
    /\ WaitBegin t1 (bs "m") 2 = (Registered, t2)
    /\ WaitEnd t2 (bs "m") 1 = Some (r, t3) /\ WaitEnd t3 (bs "m") 2 = None.
Proof.
  apply (receipt_shared_wait_freed (new_tracker 8) (bs "m") 1 2); [apply lookup_empty|lia|lia].
Defined.
