(* ===== verification/NodeEngine.v ===== *)
(** * The node engine: src/engine/node_engine.cpp

    Storage, clock, identity, transit store and outbox behind one interface: local
    writes and reads with their access checks, merging of remote documents, the digest
    cache, transit holds and claims, replicated access-control lists, the outbox flush.
    What the environment decides (wall clock, nonces, outcomes of writes, whether peers
    are reachable) is an argument; the broadcast hook's calls are recorded.  A result
    [None] is an exception that escapes. *)
From coqutil Require Import Word.LittleEndianList.
From S2P Require Import Prelude Bytes Hlc Json JsonText Crdt CrdtCodec AtRest AtRestFiles RecordLog Catalog.
From S2P Require Import CrossEngineIndex Backend Router Wal StorageEngine Transit Outbox Receipt Identity.
Local Open Scope Z_scope.

(** document_codec.h *)
Definition EncodeDocument (v : CrdtValue) : bytes := Encode v.
Definition DecodeDocument (s : bytes) : option CrdtValue := CrdtCodec.Decode s.

Definition kTransitCollection : bytes := bs "_transit".

Record Requestor := mkRequestor { rq_node_id : bytes; rq_is_local : bool }.
Definition Local (node : bytes) : Requestor := mkRequestor node true.
Definition PeerRequestor (node : bytes) : Requestor := mkRequestor node false.

Record DigestEntryOut := mkDigestOut { do_key : bytes; do_top_ts : HLCTimestamp; do_content_hash : bytes }.

Record NodeEngine (B : Type) := mkNode {
  ne_identity : NodeIdentity;
  ne_clock : HybridLogicalClock;
  ne_tags : TagCounter;                          (* the process-wide tag counter *)
  ne_storage : StorageEngine B;
  ne_transit : TransitStore;
  ne_outbox : OutboxStore;
  ne_hook : bool;                                (* [on_local_write_] is set *)
  ne_sent : list (bytes * bytes * bytes);        (* its calls, oldest first *)
  ne_resolver : option (bytes -> bytes);         (* [resolve_public_key_] *)
  ne_clock_file : option bytes;                  (* hlc_clock *)
  ne_saved_physical : Z;
  ne_save_counter : Z;
  ne_digests : gmap bytes DigestEntryOut;
  ne_transit_chunk_bytes : Z;
  ne_transit_budget_bytes : Z;
}.
Arguments mkNode {B}.
Arguments ne_identity {B}.
Arguments ne_clock {B}.
Arguments ne_tags {B}.
Arguments ne_storage {B}.
Arguments ne_transit {B}.
Arguments ne_outbox {B}.
Arguments ne_hook {B}.
Arguments ne_sent {B}.
Arguments ne_resolver {B}.
Arguments ne_clock_file {B}.
Arguments ne_saved_physical {B}.
Arguments ne_save_counter {B}.
Arguments ne_digests {B}.
Arguments ne_transit_chunk_bytes {B}.
Arguments ne_transit_budget_bytes {B}.

(** What one operation meets. *)
Record node_env := mkNodeEnv {
  nv_wall : Z;                                   (* the clock of the HLC *)
  nv_put : put_env;
  nv_outbox : (bytes * append_result_io) * Z;    (* the outbox append and its clock *)
  nv_reachable : option bool;                    (* the reachability provider's answer; [None]: not set *)
  nv_transit : bytes * append_result_io;
  nv_clock_saved : bool;                         (* the clock file is written and renamed *)
}.

Section NodeEngine.
Context `{C : Crypto} `{D : Ed25519} {B : Type} `{E : !EngineBackend B}.
Implicit Types n : NodeEngine B.

Definition with_clock (c : HybridLogicalClock) (tags : TagCounter) n : NodeEngine B :=
  mkNode (ne_identity n) c tags (ne_storage n) (ne_transit n) (ne_outbox n) (ne_hook n) (ne_sent n) (ne_resolver n)
    (ne_clock_file n) (ne_saved_physical n) (ne_save_counter n) (ne_digests n) (ne_transit_chunk_bytes n)
    (ne_transit_budget_bytes n).
Definition with_storage (s : StorageEngine B) n : NodeEngine B :=
  mkNode (ne_identity n) (ne_clock n) (ne_tags n) s (ne_transit n) (ne_outbox n) (ne_hook n) (ne_sent n) (ne_resolver n)
    (ne_clock_file n) (ne_saved_physical n) (ne_save_counter n) (ne_digests n) (ne_transit_chunk_bytes n)
    (ne_transit_budget_bytes n).
Definition with_transit (t : TransitStore) n : NodeEngine B :=
  mkNode (ne_identity n) (ne_clock n) (ne_tags n) (ne_storage n) t (ne_outbox n) (ne_hook n) (ne_sent n) (ne_resolver n)
    (ne_clock_file n) (ne_saved_physical n) (ne_save_counter n) (ne_digests n) (ne_transit_chunk_bytes n)
    (ne_transit_budget_bytes n).
Definition with_outbox (o : OutboxStore) n : NodeEngine B :=
  mkNode (ne_identity n) (ne_clock n) (ne_tags n) (ne_storage n) (ne_transit n) o (ne_hook n) (ne_sent n) (ne_resolver n)
    (ne_clock_file n) (ne_saved_physical n) (ne_save_counter n) (ne_digests n) (ne_transit_chunk_bytes n)
    (ne_transit_budget_bytes n).
Definition with_digests (m : gmap bytes DigestEntryOut) n : NodeEngine B :=
  mkNode (ne_identity n) (ne_clock n) (ne_tags n) (ne_storage n) (ne_transit n) (ne_outbox n) (ne_hook n) (ne_sent n)
    (ne_resolver n) (ne_clock_file n) (ne_saved_physical n) (ne_save_counter n) m (ne_transit_chunk_bytes n)
    (ne_transit_budget_bytes n).
Definition with_saved (file : option bytes) (physical counter : Z) n : NodeEngine B :=
  mkNode (ne_identity n) (ne_clock n) (ne_tags n) (ne_storage n) (ne_transit n) (ne_outbox n) (ne_hook n) (ne_sent n)
    (ne_resolver n) file physical counter (ne_digests n) (ne_transit_chunk_bytes n) (ne_transit_budget_bytes n).

(** [if (on_local_write_) on_local_write_(collection, key, encoded_doc)] *)
Definition broadcast (collection key doc : bytes) n : NodeEngine B :=
  mkNode (ne_identity n) (ne_clock n) (ne_tags n) (ne_storage n) (ne_transit n) (ne_outbox n) (ne_hook n)
    (if ne_hook n then ne_sent n ++ [(collection, key, doc)] else ne_sent n) (ne_resolver n) (ne_clock_file n)
    (ne_saved_physical n) (ne_save_counter n) (ne_digests n) (ne_transit_chunk_bytes n) (ne_transit_budget_bytes n).

(** ** The clock across restarts *)
Definition clock_bytes (physical logical tags : Z) : bytes := le_split 8 physical ++ le_split 4 logical ++ le_split 8 tags.

Definition LoadClockState n : NodeEngine B :=
  match ne_clock_file n with
  | None => n
  | Some file =>
      let buf := take 20 file in
      if (length buf <? 12)%nat then n
      else
        let phys := le_combine (take 8 buf) in
        let log := le_combine (take 4 (drop 8 buf)) in
        let n1 := with_saved (ne_clock_file n) phys (ne_save_counter n)
                    (with_clock (Restore phys log (ne_clock n)) (ne_tags n) n) in
        if (20 <=? length buf)%nat
        then with_clock (ne_clock n1) (RestoreTagCounter (le_combine (take 8 (drop 12 buf))) (ne_tags n)) n1
        else n1
  end.

(** The counter is incremented only when the first condition holds. *)
Definition PersistClockIfDue (saved : bool) n : NodeEngine B :=
  let phys := last_physical (ne_clock n) in
  let recent := phys <? u64 (ne_saved_physical n + 1000) in
  let counter := if recent then u64 (ne_save_counter n + 1) else ne_save_counter n in
  if recent && negb (counter mod 512 =? 0) then with_saved (ne_clock_file n) (ne_saved_physical n) counter n
  else if saved then with_saved (Some (clock_bytes phys (last_logical (ne_clock n)) (ne_tags n))) phys counter n
  else with_saved (ne_clock_file n) (ne_saved_physical n) counter n.

(** ** Access *)
Definition self_id n : bytes := id_node_id (ne_identity n).
Definition is_self n (who : Requestor) : bool := rq_is_local who && bool_decide (rq_node_id who = self_id n).

Definition NodeCanRead n (collection : bytes) (who : Requestor) : bool :=
  is_self n who || CanRead (en_catalog (ne_storage n)) collection (rq_node_id who).
Definition NodeCanWrite n (collection : bytes) (who : Requestor) : bool :=
  is_self n who || CanWrite (en_catalog (ne_storage n)) collection (rq_node_id who).

Definition NodeListCollections n : list bytes :=
  filter (fun name => name <> kTransitCollection) (ListCollections (en_catalog (ne_storage n))).
Definition ReadableCollections n (who : Requestor) : list bytes :=
  filter (fun name => NodeCanRead n name who = true) (NodeListCollections n).

(** ** Digest cache *)
Definition DigestCacheKey (collection key : bytes) : bytes := collection ++ [Byte.x00] ++ key.

Definition digest_of (key doc : bytes) : option DigestEntryOut :=
  match DecodeDocument doc with
  | None => None
  | Some v => Some (mkDigestOut key (MaxTimestamp v) (take 8 (Sha256 doc)))
  end.

Definition NoteDigest (collection key doc : bytes) n : NodeEngine B :=
  match digest_of key doc with
  | None => n
  | Some e => with_digests (<[DigestCacheKey collection key := e]> (ne_digests n)) n
  end.

Fixpoint digest_loop (collection : bytes) (rows : list EngineRow) (cache : gmap bytes DigestEntryOut)
  : list DigestEntryOut * gmap bytes DigestEntryOut :=
  match rows with
  | [] => ([], cache)
  | (key, doc) :: rest =>
      match cache !! DigestCacheKey collection key with
      | Some e => let '(out, cache') := digest_loop collection rest cache in (e :: out, cache')
      | None =>
          match digest_of key doc with
          | None => digest_loop collection rest cache
          | Some e => let '(out, cache') := digest_loop collection rest (<[DigestCacheKey collection key := e]> cache) in
                      (e :: out, cache')
          end
      end
  end.

Definition LocalDigest (collection : bytes) n : list DigestEntryOut * NodeEngine B :=
  let '(rows, s) := EngineScan collection [] 0 (ne_storage n) in
  let '(out, cache) := digest_loop collection rows (ne_digests n) in
  (out, with_digests cache (with_storage s n)).

(** ** Local writes *)

(** The first half of a write: the document as stored now; [None] inside is "absent". *)
Definition read_document (collection key : bytes) n : option (StatusOr (option CrdtValue)) * NodeEngine B :=
  let '(existing, s) := GetRaw collection key (ne_storage n) in
  (match existing with
   | OK doc => match DecodeDocument doc with Some v => Some (OK (Some v)) | None => None end
   | Fault c => if bool_decide (c = kNotFound) then Some (OK None) else Some (Fault c)
   end, with_storage s n).

Definition stage (env : node_env) (collection key doc : bytes) (ts : HLCTimestamp) n : NodeEngine B :=
  with_outbox (OutboxPut (nv_outbox env).1 (nv_outbox env).2 (ne_outbox n)
                 (mkEntry collection key (LedgerKeyHash collection key) doc ts 0)).2 n.

(** The second half: stamp, update, store, then broadcast or stage. *)
Definition write_update (env : node_env) (collection key : bytes) (previous : option CrdtValue) (json : JsonValue) n
  : StatusOr unit * NodeEngine B :=
  let '(ts, clock) := Now (nv_wall env) (ne_clock n) in
  let '(updated, tags) := match previous with
                          | Some p => ApplyJsonUpdate p json ts (ne_tags n)
                          | None => FromJson ts json (ne_tags n)
                          end in
  let doc := EncodeDocument updated in
  let '(st, s) := PutRaw (nv_put env) collection key doc (ne_storage n) in
  let n1 := with_storage s (with_clock clock tags n) in
  match st with
  | Fault c => (Fault c, n1)
  | OK _ =>
      let n2 := match nv_reachable env with
                | Some false => stage env collection key doc ts n1
                | _ => broadcast collection key doc n1
                end in
      (OK tt, PersistClockIfDue (nv_clock_saved env) (NoteDigest collection key doc n2))
  end.

Definition PutDocument (env : node_env) (collection key : bytes) (json : JsonValue) (who : Requestor) n
  : option (StatusOr unit) * NodeEngine B :=
  if bool_decide (collection = kTransitCollection) then (Some (Fault kInvalidArgument), n)
  else if negb (NodeCanWrite n collection who) then (Some (Fault kAuthError), n)
  else
    match read_document collection key n with
    | (None, n1) => (None, n1)
    | (Some (Fault c), n1) => (Some (Fault c), n1)
    | (Some (OK previous), n1) =>
        let '(st, n2) := write_update env collection key previous json n1 in (Some st, n2)
    end.

Definition DeleteDocument (env : node_env) (collection key : bytes) (who : Requestor) n :=
  PutDocument env collection key (JObject []) who n.

(** ** Reads *)
Definition GetDocument (collection key : bytes) (who : Requestor) n : option (StatusOr JsonValue) * NodeEngine B :=
  if negb (NodeCanRead n collection who) then (Some (Fault kNotFound), n)
  else
    let '(raw, s) := GetRaw collection key (ne_storage n) in
    (match raw with
     | Fault c => Some (Fault c)
     | OK doc => match DecodeDocument doc with
                 | None => None
                 | Some v => if IsEmpty v then Some (Fault kNotFound) else Some (OK (ToJson v))
                 end
     end, with_storage s n).

Fixpoint list_loop (limit : nat) (rows : list EngineRow) (out : list (bytes * JsonValue))
  : option (list (bytes * JsonValue)) :=
  match rows with
  | [] => Some out
  | (key, doc) :: rest =>
      match DecodeDocument doc with
      | None => None
      | Some v =>
          if IsEmpty v then list_loop limit rest out
          else
            let out' := out ++ [(key, ToJson v)] in
            if negb (limit =? 0)%nat && (limit <=? length out')%nat then Some out' else list_loop limit rest out'
      end
  end.

Definition fetch_limit (limit : nat) : nat := if (limit =? 0)%nat then 0 else limit * 2 + 16.

Definition ListDocuments (collection start_key : bytes) (limit : nat) (who : Requestor) n
  : option (list (bytes * JsonValue)) * NodeEngine B :=
  if negb (NodeCanRead n collection who) then (Some [], n)
  else
    let '(rows, s) := EngineScan collection start_key (fetch_limit limit) (ne_storage n) in
    (list_loop limit rows [], with_storage s n).

Definition GetRawEncoded (collection key : bytes) n : StatusOr bytes * NodeEngine B :=
  let '(raw, s) := GetRaw collection key (ne_storage n) in
  match raw with
  | OK doc => (OK doc, with_storage s n)
  | Fault c =>
      if negb (bool_decide (c = kNotFound)) then (Fault c, with_storage s n)
      else
        let '(rows, s') := EngineScan collection [] 0 s in
        (match assoc key rows with Some doc => OK doc | None => Fault c end, with_storage s' n)
  end.

(** ** Merging a remote document *)
Definition write_merged (env : node_env) (collection key : bytes) (existing : option CrdtValue) (remote : CrdtValue) n
  : StatusOr unit * NodeEngine B :=
  let doc := EncodeDocument (match existing with Some v => Merge v remote | None => remote end) in
  let '(st, s) := PutRaw (nv_put env) collection key doc (ne_storage n) in
  let n1 := with_storage s n in
  match st with
  | Fault c => (Fault c, n1)
  | OK _ => (OK tt, PersistClockIfDue (nv_clock_saved env) (NoteDigest collection key doc n1))
  end.

Definition NodeMergeRemote (env : node_env) (collection key remote_doc : bytes) (who : Requestor) n
  : option (StatusOr unit) * NodeEngine B :=
  if bool_decide (collection = kTransitCollection) then
    if rq_is_local who then (Some (Fault kInvalidArgument), n)
    else match Transit.Decode remote_doc with
         | Fault c => (Some (Fault c), n)
         | OK envelope =>
             let '(st, t) := MergeRemoteEnvelope (nv_transit env) (ne_transit n) envelope in
             (Some st, with_transit t n)
         end
  else if negb (NodeCanWrite n collection who) then (Some (Fault kAuthError), n)
  else
    match DecodeDocument remote_doc with
    | None => (Some (Fault kCorruption), n)
    | Some remote =>
        let '(accepted, clock) := Observe (nv_wall env) (MaxTimestamp remote) (ne_clock n) in
        if negb accepted then (Some (Fault kInvalidArgument), n)
        else
          match read_document collection key (with_clock clock (ne_tags n) n) with
          | (None, n1) => (None, n1)
          | (Some (Fault c), n1) => (Some (Fault c), n1)
          | (Some (OK existing), n1) =>
              let '(st, n2) := write_merged env collection key existing remote n1 in (Some st, n2)
          end
    end.

(** ** Summary *)
Record CollectionSummary := mkSummary {
  cs_name : bytes;
  cs_document_count : Z;
  cs_checksum_hex : bytes;
  cs_engine : bytes;
  cs_is_private : bool;
}.

Fixpoint count_live (rows : list EngineRow) : option Z :=
  match rows with
  | [] => Some 0
  | (_, doc) :: rest =>
      match DecodeDocument doc, count_live rest with
      | Some v, Some k => Some (if IsEmpty v then k else k + 1)
      | _, _ => None
      end
  end.

Definition Summarize (collection : bytes) n : option CollectionSummary * NodeEngine B :=
  let s := ne_storage n in
  let '(rows, s1) := EngineScan collection [] 0 s in
  match count_live rows with
  | None => (None, with_storage s1 n)
  | Some count =>
      let '(checksum, r) := RouterChecksum (en_catalog s1) collection (en_router s1) in
      (Some (mkSummary collection count checksum (EngineNameFor (en_catalog s) (en_router s) collection)
               (is_private (EffectiveAcl (en_catalog s) collection))),
       with_storage (with_router r s1) n)
  end.

(** ** Transit *)
Record hold_env := mkHoldEnv {
  he_wall : Z;
  he_wal : append_env;
  he_transit : bytes * append_result_io;
  he_now : Z;
}.

Definition chunk_unit n : Z := if 0 <? ne_transit_chunk_bytes n then ne_transit_chunk_bytes n else 256 * 1024.

(** [encoded_doc.substr(off, min(chunk_size, size - off))] for chunk [i] *)
Definition chunk_of (unit : Z) (doc : bytes) (i : Z) : bytes :=
  take (Z.to_nat (Z.min unit (Zlen doc - i * unit))) (drop (Z.to_nat (i * unit)) doc).

Definition hold_indexes (only_chunks : option (list Z)) (total : Z) : StatusOr (list Z) :=
  match only_chunks with
  | None => OK (map Z.of_nat (seq 0 (Z.to_nat total)))
  | Some l => if forallb (fun i => i <? total) l then OK l else Fault kInvalidArgument
  end.

Definition hold_bytes (unit : Z) (doc : bytes) (indexes : list Z) : Z :=
  u64 (foldr (fun i acc => Z.min unit (Zlen doc - i * unit) + acc) 0 indexes).

Definition hold_envelope n (owner collection key doc message_id : bytes) (total i lsn : Z) : TransitEnvelope :=
  let doc_hash := LedgerKeyHash collection key in
  let kh := if total =? 1 then doc_hash else TransitChunkKeyHash doc_hash i in
  let part := chunk_of (chunk_unit n) doc i in
  mkEnvelope owner collection key kh part (self_id n) lsn 0 (Zlen doc) i total message_id (Sha256 part)
    (Sign (ne_identity n) (TransitAttestMessage kh (Sha256 part) i total)).

(** One chunk: the intent in the ledger first, then the bytes. *)
Definition hold_chunk (env : hold_env) (owner collection key doc message_id : bytes) (total i : Z) n
  : StatusOr unit * NodeEngine B :=
  let '(ts, clock) := Now (he_wall env) (ne_clock n) in
  let kh := e_key_hash (hold_envelope n owner collection key doc message_id total i 0) in
  let '(lsn, s) := AppendLedgerOp (he_wal env) kTransitIntent owner key kh ts
                     (mkOpts ts (self_id n) (Zlen doc) i total) (ne_storage n) in
  let n1 := with_storage s (with_clock clock (ne_tags n) n) in
  match lsn with
  | Fault c => (Fault c, n1)
  | OK l =>
      let '(st, t) := Hold (he_transit env) (he_now env) (ne_transit n1)
                        (hold_envelope n owner collection key doc message_id total i l) in
      (st, with_transit t n1)
  end.

Fixpoint hold_chunks (envs : Z -> hold_env) (owner collection key doc message_id : bytes) (total : Z) (indexes : list Z) n
  : StatusOr unit * NodeEngine B :=
  match indexes with
  | [] => (OK tt, n)
  | i :: rest =>
      match hold_chunk (envs i) owner collection key doc message_id total i n with
      | (Fault c, n1) => (Fault c, n1)
      | (OK _, n1) => hold_chunks envs owner collection key doc message_id total rest n1
      end
  end.

Definition HoldForOfflineOwner (envs : Z -> hold_env) (now : Z) (owner collection key doc : bytes)
    (only_chunks : option (list Z)) (message_id : bytes) n : StatusOr unit * NodeEngine B :=
  if bool_decide (owner = []) || bool_decide (owner = self_id n) then (Fault kInvalidArgument, n)
  else
    let total := TransitChunkCount (Zlen doc) (ne_transit_chunk_bytes n) in
    match hold_indexes only_chunks total with
    | Fault c => (Fault c, n)
    | OK indexes =>
        if (0 <? ne_transit_budget_bytes n)
           && (ne_transit_budget_bytes n
               <? u64 (BytesHeld now (ne_transit n) + hold_bytes (chunk_unit n) doc indexes))
        then (Fault kOutOfSpace, n)
        else hold_chunks envs owner collection key doc message_id total indexes n
    end.

Definition ApplyClaimedTransit (env : node_env) (claim : append_env) (wall : Z) (collection key doc : bytes) n
  : option (StatusOr unit) * NodeEngine B :=
  match NodeMergeRemote env collection key doc (PeerRequestor (self_id n)) n with
  | (Some (OK _), n1) =>
      let '(ts, clock) := Now wall (ne_clock n1) in
      let '(lsn, s) := AppendLedgerOp claim kTransitClaimed (self_id n) key (LedgerKeyHash collection key) ts
                         default_options (ne_storage n1) in
      let n2 := with_storage s (with_clock clock (ne_tags n1) n1) in
      match lsn with
      | Fault c => (Some (Fault c), n2)
      | OK _ => (Some (OK tt), PersistClockIfDue (nv_clock_saved env) n2)
      end
  | r => r
  end.

Definition RecordRemoteClaim (env : append_env) (wall now : Z) (owner key_hash : bytes) n
  : StatusOr unit * NodeEngine B :=
  if negb (Zlen key_hash =? Z.of_nat kWalHashLen) then (Fault kInvalidArgument, n)
  else
    let '(ts, clock) := Now wall (ne_clock n) in
    let key := match Lookup now (ne_transit n) owner key_hash with
               | OK e => e_key e
               | Fault _ => HexEncode key_hash
               end in
    let '(lsn, s) := AppendLedgerOp env kTransitClaimed owner key key_hash ts default_options (ne_storage n) in
    (match lsn with OK _ => OK tt | Fault c => Fault c end, with_storage s (with_clock clock (ne_tags n) n)).

Record TransitIntent := mkIntent {
  ti_lsn : Z;
  ti_key_hash : bytes;
  ti_holder : bytes;
  ti_chunk_index : Z;
  ti_chunk_total : Z;
  ti_doc_size : Z;
}.

(** A failed read answers with no intents. *)
Definition TransitIntentsForSelf n : list TransitIntent :=
  match LedgerEntries kInvalidLsn (LastLsn (en_wal (ne_storage n))) (ne_storage n) with
  | None => []
  | Some entries =>
      map (fun r => mkIntent (r_lsn r) (r_key_hash r) (r_transit_holder r) (r_chunk_index r) (r_chunk_total r)
                      (r_transit_size r))
        (filter (fun r => r_type r = kTransitIntent /\ r_collection r = self_id n) entries)
  end.

(** ** Ledger tips *)
Definition LedgerTipMessage (entry_id : Z) (entry_hash : bytes) : bytes :=
  bs "DSN-TIP-v1:" ++ to_string entry_id ++ bs ":" ++ entry_hash.

Definition SignTipFor n (entry_id : Z) (entry_hash : bytes) : bytes :=
  Sign (ne_identity n) (LedgerTipMessage entry_id entry_hash).
Definition SignLedgerTip n : bytes :=
  let '(id, hash) := Tip (en_wal (ne_storage n)) in SignTipFor n id hash.

(** The key must be known, derive the claimed id, and verify the message. *)
Definition attested (pub node message sig : bytes) : bool :=
  negb (bool_decide (pub = [])) && bool_decide (DeriveNodeId pub = node) && Ed25519Verify pub message sig.

Definition VerifyPeerTip n (node : bytes) (entry_id : Z) (entry_hash sig : bytes) : bool :=
  match ne_resolver n with
  | None => false
  | Some resolve => attested (resolve node) node (LedgerTipMessage entry_id entry_hash) sig
  end.

Definition ledger_verifier n : option SignatureVerifier :=
  match ne_resolver n with
  | None => None
  | Some resolve =>
      Some (fun node message sig =>
              attested (if bool_decide (node = self_id n) then public_key (ne_identity n) else resolve node) node message sig)
  end.

Definition VerifyLedger n : option (VerifyResult * NodeEngine B) :=
  match VerifyChain (ledger_verifier n) (en_wal (ne_storage n)) with
  | None => None
  | Some (vr, w) => Some (vr, with_storage (with_wal w (ne_storage n)) n)
  end.

(** ** Replicated access-control lists *)
Definition CanonicalAclJson (acl : CollectionAcl) (updated_ms : Z) : bytes :=
  Dump (JObject [(bs "owner_node", JString (Catalog.owner_node acl)); (bs "private", JBool (is_private acl));
                 (bs "readers", JArray (map JString (std_sort str_lt id (readers acl))));
                 (bs "parent", JString (acl_parent acl)); (bs "updated_ms", JInt (to_signed 64 updated_ms))]).

Definition AclAttestMessage (collection canonical : bytes) : bytes :=
  bs "DSN-ACL-v1" ++ collection ++ [Byte.x00] ++ canonical.

Record acl_env := mkAclEnv {
  av_now : Z;                     (* the wall clock *)
  av_ensure : save_env;
  av_set : save_env;
  av_wal : append_env;
  av_clock_saved : bool;
}.

(** [SetAclAt] on the engine's catalog. *)
Definition set_acl (env : acl_env) (collection : bytes) (acl : CollectionAcl) (ms : Z) (s : StorageEngine B)
  : StatusOr unit * StorageEngine B :=
  let '(st, cat, file) := SetAclAt (av_set env) collection acl ms (en_catalog s) (en_catalog_file s) in
  (st, with_catalog cat file s).

Definition acl_envelope n (collection : bytes) (canonical_json : JsonValue) (canonical : bytes) (ms : Z) : bytes :=
  Dump (JObject [(bs "acl", canonical_json); (bs "updated_ms", JInt (to_signed 64 ms));
                 (bs "sig", JString (Sign (ne_identity n) (AclAttestMessage collection canonical)))]).

Definition SetCollectionAcl (env : acl_env) (collection : bytes) (acl : CollectionAcl) n
  : option (StatusOr unit) * NodeEngine B :=
  let ms := u64 (av_now env) in
  let stored := match EnsureCollection (av_now env) (av_ensure env) collection (ne_storage n) with
                | (Fault c, s) => (Fault c, s)
                | (OK _, s) => set_acl env collection acl ms s
                end in
  match stored with
  | (Fault c, s) => (Some (Fault c), with_storage s n)
  | (OK _, s) =>
      let canonical := CanonicalAclJson acl ms in
      match Parse canonical with
      | None => (None, with_storage s n)
      | Some cj =>
          let '(ts, clock) := Now (av_now env) (ne_clock n) in
          let '(lsn, s') := AppendLedgerOp (av_wal env) kAcl collection [] (acl_envelope n collection cj canonical ms) ts
                              default_options s in
          let n1 := with_storage s' (with_clock clock (ne_tags n) n) in
          match lsn with
          | Fault c => (Some (Fault c), n1)
          | OK _ => (Some (OK tt), PersistClockIfDue (av_clock_saved env) n1)
          end
      end
  end.

(** The attestation check of a received envelope. *)
Definition check_acl (now : Z) (origin collection : bytes) (acl : CollectionAcl) (ms : Z) (sig : bytes) n
  : StatusOr unit :=
  if bool_decide (Catalog.owner_node acl = []) || negb (bool_decide (Catalog.owner_node acl = origin)) then Fault kAuthError
  else if u64 (now + kMaxFutureSkewMs) <? ms then Fault kInvalidArgument
  else
    let key := if bool_decide (origin = self_id n) then Some (public_key (ne_identity n))
               else match ne_resolver n with Some resolve => Some (resolve origin) | None => None end in
    match key with
    | None => Fault kAuthError
    | Some pub =>
        if attested pub origin (AclAttestMessage collection (CanonicalAclJson acl ms)) sig then OK tt else Fault kAuthError
    end.

Definition ApplyRemoteAcl (env : acl_env) (origin collection envelope : bytes) (check_sig : bool) n
  : StatusOr unit * NodeEngine B :=
  match Parse envelope with
  | None => (Fault kCorruption, n)
  | Some v =>
      match is_object v, Find v (bs "acl"), Find v (bs "updated_ms"), Find v (bs "sig") with
      | true, Some acl_v, Some ms_v, Some sig_v =>
          if is_object acl_v && is_number ms_v && is_string sig_v then
            let acl := acl_members acl_v in
            let ms := u64 (AsInt ms_v) in
            match (if check_sig then check_acl (av_now env) origin collection acl ms (AsString sig_v) n else OK tt) with
            | Fault c => (Fault c, n)
            | OK _ =>
                match EnsureCollection (av_now env) (av_ensure env) collection (ne_storage n) with
                | (Fault c, s) => (Fault c, with_storage s n)
                | (OK _, s) =>
                    let '(st, s1) := set_acl env collection acl ms s in
                    (match st with
                     | Fault c => if bool_decide (c = kInvalidArgument) then OK tt else Fault c
                     | OK u => OK u
                     end, with_storage s1 n)
                end
            end
          else (Fault kCorruption, n)
      | _, _, _, _ => (Fault kCorruption, n)
      end
  end.

(** ** Outbox *)
Fixpoint replay_entries (envs : nat -> node_env) (entries : list OutboxEntry) n : option nat * NodeEngine B :=
  match entries with
  | [] => (Some O, n)
  | e :: rest =>
      match DecodeDocument (x_doc e) with
      | None => (None, n)
      | Some v =>
          match PutDocument (envs O) (x_collection e) (x_key e) (ToJson v) (Local (self_id n)) n with
          | (None, n1) => (None, n1)
          | (Some (OK _), n1) =>
              let '(r, n2) := replay_entries (fun i => envs (S i)) rest n1 in
              (match r with Some k => Some (S k) | None => None end, n2)
          | (Some (Fault _), n1) =>
              replay_entries (fun i => envs (S i)) rest
                (with_outbox (OutboxPut (nv_outbox (envs O)).1 (nv_outbox (envs O)).2 (ne_outbox n1) e).2 n1)
          end
      end
  end.

Definition FlushOutbox (drops : nat -> bytes * append_result_io) (nonces : nat -> bytes) (io : rewrite_io)
    (envs : nat -> node_env) n : option nat * NodeEngine B :=
  let '(entries, ox) := DrainAll drops nonces io (ne_outbox n) in
  replay_entries envs entries (with_outbox ox n).

(** ** Durability *)
Record DurabilityReport := mkDurability {
  dr_requested : Z;
  dr_achieved : Z;
  dr_timed_out : bool;
  dr_replicas : list bytes;
}.

Definition wanted_from_peers (durability : Z) : Z := if 1 <? durability then durability - 1 else 0.

(** [waited] is what the tracker's [WaitFor] returned. *)
Definition WaitForDurability n (durability : Z) (waited : StatusOr (list MergeReceipt)) : DurabilityReport :=
  let wanted := wanted_from_peers durability in
  if wanted =? 0 then mkDurability durability 1 false [self_id n]
  else match waited with
       | Fault _ => mkDurability durability 1 true [self_id n]
       | OK rs => mkDurability durability (u32 (1 + Zlen rs)) (Zlen rs <? wanted) (self_id n :: map applier_node rs)
       end.

(** ** Open *)
Record node_disk := mkNodeDisk {
  nd_dir_ok : bool;
  nd_identity : option bytes;
  nd_clock : option bytes;
  nd_engine : engine_disk;
  nd_transit : bytes;
  nd_outbox : bytes;
}.

Record node_options := mkNodeOptions {
  no_quota_mb : Z;
  no_db_share_pct : Z;
  no_engines : list bytes;
  no_default_engine : bytes;
  no_buffer_pool_pages : Z;
  no_dek : bytes;
  no_transit_ttl : Z;
  no_transit_chunk_bytes : Z;
  no_transit_budget_bytes : Z;
}.

(** The identity first, since everything else is stamped with its id; the key pair, the
    nonces and the outcomes of the rewrites are arguments.  The second component is the
    identity file afterwards. *)
Definition NodeOpen (make_backend : bytes -> Z -> Z -> bytes -> StatusOr B) (o : node_options) (disk : node_disk)
    (kp : bytes * bytes) (id_nonce : bytes) (id_io : identity_io) (tags : TagCounter)
    (nonces : nat -> bytes) (io : rewrite_io) (hio : hwm_io) (renv : WalRecord -> replay_env)
  : option (StatusOr (NodeEngine B)) * option bytes :=
  let dek := no_dek o in
  if negb (nd_dir_ok disk) then (Some (Fault kIOError), nd_identity disk)
  else if bad_dek dek then (Some (Fault kInvalidArgument), nd_identity disk)
  else
    let '(id, id_file) := LoadOrCreate kp id_nonce id_io (nd_identity disk) dek in
    (match id with
     | None => None
     | Some (Fault c) => Some (Fault c)
     | Some (OK ident) =>
         let engine := mkEngineOptions (no_quota_mb o)
                         (mkRouterOptions (no_quota_mb o) (no_db_share_pct o) (no_engines o) (no_default_engine o)
                            (id_node_id ident) (no_buffer_pool_pages o) dek) in
         match EngineOpen make_backend engine (nd_engine disk) nonces io hio renv with
         | None => None
         | Some (Fault c) => Some (Fault c)
         | Some (OK storage) =>
             let storage := SetLedgerOrigin (id_node_id ident) (Some (Sign ident)) storage in
             match Transit.Open nonces io (nd_transit disk) (no_transit_ttl o) (id_node_id ident) dek with
             | None => None
             | Some (Fault c) => Some (Fault c)
             | Some (OK transit) =>
                 match OutboxOpen (nd_outbox disk) (id_node_id ident) dek with
                 | None => None
                 | Some (Fault c) => Some (Fault c)
                 | Some (OK outbox) =>
                     Some (OK (LoadClockState
                       (mkNode ident (new_clock (id_node_id ident)) tags (SetTipObserver true storage) transit outbox
                          false [] None (nd_clock disk) 0 0 ∅ (no_transit_chunk_bytes o) (no_transit_budget_bytes o))))
                 end
             end
         end
     end, id_file).
End NodeEngine.
