(* ===== verification/NodeProps.v ===== *)
(** * Theorems about the node engine

    What a write, a merge and a read do to the documents; that the digest cache always
    answers what a recomputation would; who can change and see a private collection;
    which access-control envelopes are adopted; how transit holds meet checkpoints. *)
From coqutil Require Import Word.LittleEndianList.
From S2P Require Import Prelude Bytes Hlc Json JsonText Crdt CrdtMerge CrdtUpdate CrdtCodec AtRest.
From S2P Require Import AtRestFiles RecordLog Catalog CatalogProps CrossEngineIndex Backend Router.
From S2P Require Import RouterProps Wal WalProps StorageEngine StorageProps Transit TransitProps Outbox.
From S2P Require Import Checkpoint Receipt Identity NodeEngine.
Local Open Scope Z_scope.

(** ** JSON up to the order of fields and elements *)
#[local] Set Warnings "-register-all".
Inductive json_perm : JsonValue -> JsonValue -> Prop :=
  | jp_refl v : json_perm v v
  | jp_array a b b' : Forall2 json_perm a b -> b ≡ₚ b' -> json_perm (JArray a) (JArray b')
  | jp_object a b b' : Forall2 (fun x y => x.1 = y.1 /\ json_perm x.2 y.2) a b -> b ≡ₚ b' ->
      json_perm (JObject a) (JObject b').

Lemma to_array_perm tj l l' : l ≡ₚ l' -> to_array tj l ≡ₚ to_array tj l'.
Proof.
  induction 1 as [|[? [[] ?]] ? ? _ IH|[? [[] ?]] [? [[] ?]] ?|]; cbn; try done; try (by constructor); by etrans.
Qed.
Lemma to_object_perm tj l l' : l ≡ₚ l' -> to_object tj l ≡ₚ to_object tj l'.
Proof.
  induction 1 as [|[? v] ? ? _ IH|[? v] [? w] ?|]; cbn; [done| | |by etrans].
  - destruct (tombstone_of v); [done|by constructor].
  - destruct (tombstone_of v), (tombstone_of w); (done || by constructor).
Qed.

Lemma tombstone_normalize v : tombstone_of (normalize v) = tombstone_of v.
Proof. by destruct v. Qed.

(** Storing a document and reading it again shows the same JSON up to order. *)
Lemma ToJson_normalize v : json_perm (ToJson v) (ToJson (normalize v)).
Proof.
  induction v as [| | | | |ts t a IH|ts t o IH] using CrdtValue_ind; try apply jp_refl.
  - cbn [normalize ToJson tombstone_of]. destruct t; [apply jp_refl|].
    eapply jp_array; [|symmetry; by apply to_array_perm, std_sort_perm].
    induction IH as [|[tag [x v]] a Hv _ IHa]; [constructor|]. cbn. destruct x; cbn; [done|by constructor].
  - cbn [normalize ToJson tombstone_of]. destruct t; [apply jp_refl|].
    eapply jp_object; [|symmetry; by apply to_object_perm, std_sort_perm].
    induction IH as [|[k v] o Hv _ IHo]; [constructor|]. cbn. rewrite tombstone_normalize.
    destruct (tombstone_of v); cbn; [done|by constructor].
Qed.

Lemma IsEmpty_normalize v : IsEmpty (normalize v) = IsEmpty v.
Proof.
  destruct v as [| | | | | |ts t o]; try done. cbn [normalize IsEmpty]. apply eq_true_iff_eq. rewrite !forallb_forall.
  split; intros H x Hx.
  - rewrite <- tombstone_normalize. apply (H (x.1, normalize x.2)). apply list_elem_of_In.
    rewrite std_sort_perm. apply list_elem_of_fmap. exists x. split; [done|]. by apply list_elem_of_In.
  - apply list_elem_of_In in Hx. rewrite std_sort_perm in Hx. apply list_elem_of_fmap in Hx as (y & -> & Hy). cbn.
    rewrite tombstone_normalize. apply H. by apply list_elem_of_In.
Qed.

(** Live and empty is exactly the empty object. *)
Lemma IsEmpty_shows v : tombstone_of v = false -> IsEmpty v = true <-> ToJson v = JObject [].
Proof.
  intros Ht. destruct v as [| | | | | |ts t o]; cbn in Ht; subst; cbn; try done.
  induction o as [|[k v] o IH]; [done|]. cbn. destruct (tombstone_of v); cbn; [done|]. by split; intros [=].
Qed.

Lemma shows_empty a b : shows a b -> a = JObject [] <-> b = JObject [].
Proof.
  intros H. inversion H as [| | | |x y Hn _|x y _|x p y HF Hp]; subst; try (by split; intros [=]).
  - destruct a, b; try done; by split; intros [=].
  - split; intros [= ->].
    + apply Forall2_nil_inv_l in HF. subst p. by apply Permutation_nil in Hp as ->.
    + symmetry in Hp. apply Permutation_nil in Hp. subst p. by apply Forall2_nil_inv_r in HF as ->.
Qed.

(** ** Storage, seen as documents and access *)
Section Node.
Context `{C : Crypto} `{D : Ed25519} {B : Type} {E : EngineBackend B} `{S : !BackendSpec E}.
Implicit Types n : NodeEngine B.

Definition put_at (c k d : bytes) (f : bytes -> bytes -> option bytes) : bytes -> bytes -> option bytes :=
  fun c' k' => if decide ((c', k') = (c, k)) then Some d else f c' k'.

(** The same access decisions. *)
Definition same_access (cat cat' : Catalog) : Prop := forall x, EffectiveAcl cat' x = EffectiveAcl cat x.

Lemma resolve_acl_fresh depth m c now root x :
  m !! c = None -> resolve_acl depth (<[c := fresh_meta now c root]> m) x = resolve_acl depth m x.
Proof.
  intros Hc. revert x. induction depth as [|depth IH]; intros x; [done|]. cbn [resolve_acl].
  destruct (decide (x = c)) as [->|Hx]; [by rewrite lookup_insert_eq, Hc|].
  rewrite lookup_insert_ne by done. destruct (m !! x); [|done]. by rewrite IH.
Qed.

Lemma EnsureCollection_access now env c (s : StorageEngine B) :
  same_access (en_catalog s) (en_catalog (EnsureCollection now env c s).2).
Proof.
  unfold EnsureCollection. destruct (HasCollection (en_catalog s) c) eqn:Eh; [done|].
  unfold HasCollection in Eh. apply bool_decide_eq_false, eq_None_not_Some in Eh.
  unfold UpsertRootPageId. rewrite Eh. unfold store. destruct (SaveLocked _ _ _) as [st f].
  intros x. exact (resolve_acl_fresh kMaxAclParentDepth _ c now (-1) x Eh).
Qed.

Lemma PutRaw_docs env c k d (s : StorageEngine B) :
  engine_ok s ->
  let '(st, s') := PutRaw env c k d s in
  engine_ok s' /\ same_access (en_catalog s) (en_catalog s')
  /\ forall c' k', engine_docs s' c' k' = match st with
                                          | OK _ => put_at c k d (engine_docs s) c' k'
                                          | Fault _ => engine_docs s c' k'
                                          end.
Proof.
  intros Hs. unfold PutRaw. destruct (put_refused k d s); [done|].
  destruct (Append (pe_wal env) (en_wal s) kPut c k d default_options) as [[lsn|code] w]; [|done].
  pose proof (RouterPut_docs false (pe_index env) (pe_now env) (en_catalog s) c k d (en_router s) Hs) as Hp.
  destruct (RouterPut false _ _ _ _ _ _ _) as [[[]|code] r]; destruct Hp as [P1 P2]; [|done].
  set (e1 := with_router r (with_wal w s)).
  destruct (EnsureCollection_keeps (pe_now env) (pe_save env) c e1) as (K1 & _ & K2).
  pose proof (EnsureCollection_access (pe_now env) (pe_save env) c e1) as K3.
  set (e2 := (EnsureCollection _ _ c e1).2) in *. destruct (same_bindings_docs _ _ r K2) as [D1 D2].
  unfold engine_ok, engine_docs. cbn [notify en_catalog en_router]. rewrite K1.
  split; [by apply D1|]. split; [done|]. intros c' k'. rewrite D2. apply P2.
Qed.

Lemma GetRaw_docs c k (s : StorageEngine B) :
  engine_ok s ->
  exists s', GetRaw c k s = (match engine_docs s c k with Some d => OK d | None => Fault kNotFound end, s')
    /\ engine_ok s' /\ en_catalog s' = en_catalog s /\ forall c' k', engine_docs s' c' k' = engine_docs s c' k'.
Proof.
  intros Hs. unfold GetRaw. destruct (RouterGet_docs (en_catalog s) (en_router s) c k Hs) as (r & -> & H1 & H2).
  eexists. split; [done|]. done.
Qed.

Lemma EngineScan_docs c start limit (s : StorageEngine B) :
  engine_ok s ->
  exists m s', EngineScan c start limit s = (scan_rows m c start limit, s')
    /\ (forall k, m !! (c, k) = engine_docs s c k)
    /\ engine_ok s' /\ en_catalog s' = en_catalog s /\ forall c' k', engine_docs s' c' k' = engine_docs s c' k'.
Proof.
  intros Hs. unfold EngineScan, RouterScan.
  pose proof (with_backend_docs (en_catalog s) (en_router s) c ([] : list EngineRow) (be_scan c start limit) Hs) as H.
  destruct (with_backend _ _ _ _ _) as [x r']. destruct H as (H1 & H2 & b & Hb & Hi & ->).
  { intros b Hb. destruct (be_scan_spec b c start limit Hb) as (b' & -> & ? & ? & ?). done. }
  destruct (be_scan_spec b c start limit Hi) as (b' & -> & _). exists (be_docs b). eexists. split; [done|].
  split; [|done]. intros k. unfold engine_docs, router_docs. by rewrite Hb.
Qed.

(** ** What each operation does *)

(** The engine after an operation that changed no document. *)
Record quiet (n n' : NodeEngine B) : Prop := {
  q_ok : engine_ok (ne_storage n) -> engine_ok (ne_storage n');
  q_id : ne_identity n' = ne_identity n;
  q_access : same_access (en_catalog (ne_storage n)) (en_catalog (ne_storage n'));
  q_docs : engine_ok (ne_storage n) ->
    forall c k, engine_docs (ne_storage n') c k = engine_docs (ne_storage n) c k;
}.

Lemma quiet_can_read n n' c who : quiet n n' -> NodeCanRead n' c who = NodeCanRead n c who.
Proof. intros H. unfold NodeCanRead, is_self, self_id, CanRead. by rewrite (q_id _ _ H), (q_access _ _ H). Qed.
Lemma quiet_can_write n n' c who : quiet n n' -> NodeCanWrite n' c who = NodeCanWrite n c who.
Proof. intros H. unfold NodeCanWrite, is_self, self_id, CanWrite. by rewrite (q_id _ _ H), (q_access _ _ H). Qed.

Lemma PersistClockIfDue_keeps saved n :
  let n' := PersistClockIfDue saved n in
  ne_storage n' = ne_storage n /\ ne_identity n' = ne_identity n /\ ne_digests n' = ne_digests n
  /\ ne_sent n' = ne_sent n /\ ne_outbox n' = ne_outbox n /\ ne_clock n' = ne_clock n.
Proof. unfold PersistClockIfDue. destruct (_ && _); [done|]. by destruct saved. Qed.

Lemma NoteDigest_keeps c k d n :
  let n' := NoteDigest c k d n in
  ne_storage n' = ne_storage n /\ ne_identity n' = ne_identity n /\ ne_sent n' = ne_sent n
  /\ ne_outbox n' = ne_outbox n /\ ne_clock n' = ne_clock n
  /\ ne_digests n' = match digest_of k d with
                     | Some e => <[DigestCacheKey c k := e]> (ne_digests n)
                     | None => ne_digests n
                     end.
Proof. unfold NoteDigest. by destruct (digest_of k d). Qed.

(** What an operation that may store one document did. *)
Record stored_or_quiet (c k : bytes) (n n' : NodeEngine B) (d : option bytes) : Prop := {
  sq_ok : engine_ok (ne_storage n');
  sq_id : ne_identity n' = ne_identity n;
  sq_access : same_access (en_catalog (ne_storage n)) (en_catalog (ne_storage n'));
  sq_docs : forall c' k', engine_docs (ne_storage n') c' k'
    = match d with Some x => put_at c k x (engine_docs (ne_storage n)) c' k'
                 | None => engine_docs (ne_storage n) c' k' end;
  sq_digests : ne_digests n'
    = match d with
      | Some x => match digest_of k x with
                  | Some e => <[DigestCacheKey c k := e]> (ne_digests n)
                  | None => ne_digests n
                  end
      | None => ne_digests n
      end;
}.

Lemma read_document_spec c k n :
  engine_ok (ne_storage n) ->
  exists s, read_document c k n
    = (match engine_docs (ne_storage n) c k with
       | Some d => match DecodeDocument d with Some v => Some (OK (Some v)) | None => None end
       | None => Some (OK None)
       end, with_storage s n)
    /\ engine_ok s /\ en_catalog s = en_catalog (ne_storage n)
    /\ forall c' k', engine_docs s c' k' = engine_docs (ne_storage n) c' k'.
Proof.
  intros Hs. unfold read_document. destruct (GetRaw_docs c k (ne_storage n) Hs) as (s & -> & H1 & H2 & H3).
  exists s. split; [|done]. f_equal. by destruct (engine_docs (ne_storage n) c k).
Qed.

(** The document a local update stores. *)
Definition updated_doc (wall : Z) (previous : option CrdtValue) (json : JsonValue) n : CrdtValue :=
  let ts := (Now wall (ne_clock n)).1 in
  match previous with
  | Some p => (ApplyJsonUpdate p json ts (ne_tags n)).1
  | None => (FromJson ts json (ne_tags n)).1
  end.

Lemma write_update_spec env c k previous json n :
  engine_ok (ne_storage n) ->
  let '(st, n') := write_update env c k previous json n in
  let doc := EncodeDocument (updated_doc (nv_wall env) previous json n) in
  stored_or_quiet c k n n' (match st with OK _ => Some doc | Fault _ => None end).
Proof.
  intros Hs. unfold write_update, updated_doc. destruct (Now (nv_wall env) (ne_clock n)) as [ts clock]. cbn [fst].
  assert (Hu : (match previous with
                | Some p => ApplyJsonUpdate p json ts (ne_tags n)
                | None => FromJson ts json (ne_tags n)
                end).1
          = match previous with
            | Some p => (ApplyJsonUpdate p json ts (ne_tags n)).1
            | None => (FromJson ts json (ne_tags n)).1
            end) by (by destruct previous). rewrite <- Hu. clear Hu.
  destruct (match previous with Some _ => _ | None => _ end) as [updated tags]. cbn [fst].
  pose proof (PutRaw_docs (nv_put env) c k (EncodeDocument updated) (ne_storage n) Hs) as Hp.
  destruct (PutRaw _ c k _ _) as [[u|code] s]; destruct Hp as (P1 & P2 & P3); [|by split].
  set (n2 := match nv_reachable env with Some false => _ | _ => _ end).
  assert (H2 : ne_storage n2 = s /\ ne_identity n2 = ne_identity n /\ ne_digests n2 = ne_digests n)
    by (unfold n2; by destruct (nv_reachable env) as [[]|]). destruct H2 as (A1 & A2 & A3).
  destruct (PersistClockIfDue_keeps (nv_clock_saved env) (NoteDigest c k (EncodeDocument updated) n2))
    as (B1 & B2 & B3 & _).
  destruct (NoteDigest_keeps c k (EncodeDocument updated) n2) as (C1 & C2 & _ & _ & _ & C6).
  split.
  - by rewrite B1, C1, A1.
  - by rewrite B2, C2.
  - by rewrite B1, C1, A1.
  - intros c' k'. rewrite B1, C1, A1. apply P3.
  - rewrite B3, C6. by rewrite A3.
Qed.

Lemma write_merged_spec env c k existing remote n :
  engine_ok (ne_storage n) ->
  let '(st, n') := write_merged env c k existing remote n in
  let doc := EncodeDocument (match existing with Some v => Merge v remote | None => remote end) in
  stored_or_quiet c k n n' (match st with OK _ => Some doc | Fault _ => None end).
Proof.
  intros Hs. unfold write_merged. set (doc := EncodeDocument _).
  pose proof (PutRaw_docs (nv_put env) c k doc (ne_storage n) Hs) as Hp.
  destruct (PutRaw _ c k _ _) as [[u|code] s]; destruct Hp as (P1 & P2 & P3); [|by split].
  destruct (PersistClockIfDue_keeps (nv_clock_saved env) (NoteDigest c k doc (with_storage s n))) as (B1 & B2 & B3 & _).
  destruct (NoteDigest_keeps c k doc (with_storage s n)) as (C1 & C2 & _ & _ & _ & C6).
  split; [by rewrite B1, C1|by rewrite B2, C2|by rewrite B1, C1| |by rewrite B3, C6].
  intros c' k'. rewrite B1, C1. apply P3.
Qed.

Lemma stored_or_quiet_after c k n s clock n' d :
  engine_ok s -> en_catalog s = en_catalog (ne_storage n) ->
  (forall c' k', engine_docs s c' k' = engine_docs (ne_storage n) c' k') ->
  stored_or_quiet c k (with_storage s (with_clock clock (ne_tags n) n)) n' d -> stored_or_quiet c k n n' d.
Proof.
  intros H1 H2 H3 [Q1 Q2 Q3 Q4 Q5]. split; [done|done| | |done].
  - intros x. rewrite Q3. cbn. by rewrite H2.
  - intros c' k'. rewrite Q4. destruct d; unfold put_at; [case_decide; [done|]|]; apply H3.
Qed.

(** The document stored before, decoded. *)
Definition stored_doc n (c k : bytes) : option CrdtValue := engine_docs (ne_storage n) c k ≫= DecodeDocument.

Lemma nothing_stored c k n : engine_ok (ne_storage n) -> stored_or_quiet c k n n None.
Proof. by split. Qed.

Lemma PutDocument_spec env c k j who n :
  engine_ok (ne_storage n) ->
  let '(r, n') := PutDocument env c k j who n in
  exists d, stored_or_quiet c k n n' d
    /\ (is_Some d -> NodeCanWrite n c who = true)
    /\ (r = Some (OK tt) -> d = Some (EncodeDocument (updated_doc (nv_wall env) (stored_doc n c k) j n))).
Proof.
  intros Hs. unfold PutDocument. case_bool_decide as Hc; [by exists None; split; [apply nothing_stored|split; [intros []%is_Some_None|]]|].
  destruct (NodeCanWrite n c who) eqn:Ew; [|by exists None; split; [apply nothing_stored|split; [intros []%is_Some_None|]]].
  cbn [negb]. destruct (read_document_spec c k n Hs) as (s & -> & H1 & H2 & H3).
  assert (Hq : forall d n', stored_or_quiet c k (with_storage s n) n' d -> stored_or_quiet c k n n' d).
  { intros d n' H. by apply (stored_or_quiet_after c k n s (ne_clock n)). }
  unfold stored_doc. destruct (engine_docs (ne_storage n) c k) as [x|] eqn:Ex; cbn [mbind option_bind].
  - destruct (DecodeDocument x) as [v|] eqn:Ev.
    + pose proof (write_update_spec env c k (Some v) j (with_storage s n) H1) as Hw.
      destruct (write_update env c k (Some v) j (with_storage s n)) as [st n'].
      eexists. split; [apply Hq, Hw|]. split; [done|]. by intros [= ->].
    + exists None. split; [apply Hq; by apply nothing_stored|]. done.
  - pose proof (write_update_spec env c k None j (with_storage s n) H1) as Hw.
    destruct (write_update env c k None j (with_storage s n)) as [st n'].
    eexists. split; [apply Hq, Hw|]. split; [done|]. by intros [= ->].
Qed.

Lemma NodeMergeRemote_spec env c k d who n :
  engine_ok (ne_storage n) ->
  let '(r, n') := NodeMergeRemote env c k d who n in
  exists x, stored_or_quiet c k n n' x
    /\ (is_Some x -> NodeCanWrite n c who = true)
    /\ (r = Some (OK tt) -> c <> kTransitCollection ->
        exists remote, DecodeDocument d = Some remote
          /\ x = Some (EncodeDocument (match stored_doc n c k with Some v => Merge v remote | None => remote end))).
Proof.
  intros Hs. unfold NodeMergeRemote.
  assert (H0 : forall r : option (StatusOr unit), r <> Some (OK tt) -> exists x, stored_or_quiet c k n n x
    /\ (is_Some x -> NodeCanWrite n c who = true) /\ (r = Some (OK tt) -> c <> kTransitCollection ->
        exists remote, DecodeDocument d = Some remote
          /\ x = Some (EncodeDocument (match stored_doc n c k with Some v => Merge v remote | None => remote end)))).
  { intros r Hr. exists None. split; [by apply nothing_stored|]. split; [by intros []%is_Some_None|done]. }
  case_bool_decide as Hc.
  { destruct (rq_is_local who); [by apply H0|]. destruct (Transit.Decode d) as [e|]; [|by apply H0].
    destruct (MergeRemoteEnvelope _ _ _) as [st t]. exists None. split; [by split|]. split; [by intros []%is_Some_None|done]. }
  destruct (NodeCanWrite n c who) eqn:Ew; [|by apply H0]. cbn [negb].
  destruct (DecodeDocument d) as [remote|] eqn:Ed; [|by apply H0].
  destruct (Observe _ _ _) as [[] clock]; [|by apply H0]. cbn [negb].
  destruct (read_document_spec c k (with_clock clock (ne_tags n) n) Hs) as (s & -> & H1 & H2 & H3).
  cbn [ne_storage with_clock] in *. set (n1 := with_storage s _).
  assert (Hq : forall x n', stored_or_quiet c k n1 n' x -> stored_or_quiet c k n n' x).
  { intros x n' H. by apply (stored_or_quiet_after c k n s clock). }
  unfold stored_doc. destruct (engine_docs (ne_storage n) c k) as [x|] eqn:Ex; cbn [mbind option_bind].
  - destruct (DecodeDocument x) as [v|] eqn:Ev.
    + pose proof (write_merged_spec env c k (Some v) remote n1 H1) as Hw.
      destruct (write_merged env c k (Some v) remote n1) as [st n']. eexists. split; [apply Hq, Hw|]. split; [done|].
      intros [= ->] _. by exists remote.
    + exists None. split; [apply Hq; by apply nothing_stored|]. done.
  - pose proof (write_merged_spec env c k None remote n1 H1) as Hw.
    destruct (write_merged env c k None remote n1) as [st n']. eexists. split; [apply Hq, Hw|]. split; [done|].
    intros [= ->] _. by exists remote.
Qed.

Lemma AppendLedgerOp_keeps env t c k p hlc o (s : StorageEngine B) :
  let s' := (AppendLedgerOp env t c k p hlc o s).2 in
  en_catalog s' = en_catalog s /\ en_router s' = en_router s.
Proof. unfold AppendLedgerOp. by destruct (Append _ _ _ _ _ _ _) as [[] w]. Qed.

(** Two engines with the same documents, access and digests. *)
Definition same_node (n n' : NodeEngine B) : Prop :=
  ne_identity n' = ne_identity n /\ ne_digests n' = ne_digests n
  /\ en_catalog (ne_storage n') = en_catalog (ne_storage n) /\ en_router (ne_storage n') = en_router (ne_storage n).

Lemma hold_chunk_same env owner c k d mid total i n :
  same_node n (hold_chunk env owner c k d mid total i n).2.
Proof.
  unfold hold_chunk. destruct (Now _ _) as [ts clock].
  pose proof (AppendLedgerOp_keeps (he_wal env) kTransitIntent owner k
    (e_key_hash (hold_envelope n owner c k d mid total i 0)) ts (mkOpts ts (self_id n) (Zlen d) i total) (ne_storage n)) as [H1 H2].
  destruct (AppendLedgerOp _ _ _ _ _ _ _ _) as [[l|] s]; [|done]. by destruct (Hold _ _ _ _) as [st t].
Qed.

Lemma same_node_trans n1 n2 n3 : same_node n1 n2 -> same_node n2 n3 -> same_node n1 n3.
Proof. intros (? & ? & ? & ?) (? & ? & ? & ?). repeat split; congruence. Qed.

Lemma hold_chunks_same envs owner c k d mid total l n :
  same_node n (hold_chunks envs owner c k d mid total l n).2.
Proof.
  revert n. induction l as [|i l IH]; intros n; [done|]. cbn [hold_chunks].
  pose proof (hold_chunk_same (envs i) owner c k d mid total i n) as H.
  destruct (hold_chunk _ _ _ _ _ _ _ _ n) as [[] n1]; [|done]. by eapply same_node_trans.
Qed.

Lemma HoldForOfflineOwner_same envs now owner c k d only mid n :
  same_node n (HoldForOfflineOwner envs now owner c k d only mid n).2.
Proof.
  unfold HoldForOfflineOwner. destruct (_ || _); [done|]. destruct (hold_indexes _ _) as [l|]; [|done].
  destruct (_ && _); [done|]. apply hold_chunks_same.
Qed.

Lemma RecordRemoteClaim_same env wall now owner kh n : same_node n (RecordRemoteClaim env wall now owner kh n).2.
Proof.
  unfold RecordRemoteClaim. destruct (negb _); [done|]. destruct (Now _ _) as [ts clock].
  set (k := match Lookup _ _ _ _ with OK _ => _ | Fault _ => _ end).
  pose proof (AppendLedgerOp_keeps env kTransitClaimed owner k kh ts default_options (ne_storage n)) as [H1 H2].
  by destruct (AppendLedgerOp _ _ _ _ _ _ _ _) as [lsn s].
Qed.

Lemma same_node_stored c k n n' : engine_ok (ne_storage n) -> same_node n n' -> stored_or_quiet c k n n' None.
Proof.
  intros Hs (H1 & H2 & H3 & H4). split; [unfold engine_ok; by rewrite H3, H4|done| | |done].
  - intros x. by rewrite H3.
  - intros c' k'. unfold engine_docs. by rewrite H3, H4.
Qed.

(** ** Runs of operations *)
Inductive node_op :=
  | NPut (env : node_env) (c k : bytes) (j : JsonValue) (who : Requestor)
  | NMerge (env : node_env) (c k d : bytes) (who : Requestor)
  | NGet (c k : bytes) (who : Requestor)
  | NList (c start : bytes) (limit : nat) (who : Requestor)
  | NRaw (c k : bytes)
  | NDigest (c : bytes)
  | NHold (envs : Z -> hold_env) (now : Z) (owner c k d : bytes) (only : option (list Z)) (mid : bytes)
  | NClaim (env : append_env) (wall now : Z) (owner kh : bytes).

Definition node_step n (o : node_op) : NodeEngine B :=
  match o with
  | NPut env c k j who => (PutDocument env c k j who n).2
  | NMerge env c k d who => (NodeMergeRemote env c k d who n).2
  | NGet c k who => (GetDocument c k who n).2
  | NList c start limit who => (ListDocuments c start limit who n).2
  | NRaw c k => (GetRawEncoded c k n).2
  | NDigest c => (LocalDigest c n).2
  | NHold envs now owner c k d only mid => (HoldForOfflineOwner envs now owner c k d only mid n).2
  | NClaim env wall now owner kh => (RecordRemoteClaim env wall now owner kh n).2
  end.

Definition run_node (ops : list node_op) n : NodeEngine B := fold_left node_step ops n.

(** Collection, key and requestor of an operation that may store a document. *)
Definition op_target (o : node_op) : option (bytes * bytes * Requestor) :=
  match o with
  | NPut _ c k _ who | NMerge _ c k _ who => Some (c, k, who)
  | _ => None
  end.

Definition is_digest (o : node_op) : bool := match o with NDigest _ => true | _ => false end.

Lemma reading_stored c k n s :
  engine_ok s -> en_catalog s = en_catalog (ne_storage n) ->
  (forall c' k', engine_docs s c' k' = engine_docs (ne_storage n) c' k') ->
  stored_or_quiet c k n (with_storage s n) None.
Proof. intros H1 H2 H3. split; [done|done| |done|done]. intros x. cbn. by rewrite H2. Qed.

Lemma LocalDigest_state c n :
  exists cache, LocalDigest c n
    = ((digest_loop c (EngineScan c [] 0 (ne_storage n)).1 (ne_digests n)).1,
       with_digests cache (with_storage (EngineScan c [] 0 (ne_storage n)).2 n))
    /\ cache = (digest_loop c (EngineScan c [] 0 (ne_storage n)).1 (ne_digests n)).2.
Proof.
  unfold LocalDigest. destruct (EngineScan _ _ _ _) as [rows s]. cbn [fst snd].
  destruct (digest_loop c rows (ne_digests n)) as [out cache]. by exists cache.
Qed.

Lemma read_step_stored o n :
  engine_ok (ne_storage n) -> op_target o = None -> is_digest o = false ->
  stored_or_quiet [] [] n (node_step n o) None.
Proof.
  intros Hs Ht Hd. destruct o as [| |c k who|c start limit who|c k| | |]; try done; cbn [node_step].
  - unfold GetDocument. destruct (negb _); [by apply nothing_stored|].
    destruct (GetRaw_docs c k (ne_storage n) Hs) as (s & -> & H1 & H2 & H3). by apply reading_stored.
  - unfold ListDocuments. destruct (negb _); [by apply nothing_stored|].
    destruct (EngineScan_docs c start (fetch_limit limit) (ne_storage n) Hs) as (m & s & -> & _ & H1 & H2 & H3).
    by apply reading_stored.
  - unfold GetRawEncoded. destruct (GetRaw_docs c k (ne_storage n) Hs) as (s & -> & H1 & H2 & H3).
    destruct (engine_docs (ne_storage n) c k); [by apply reading_stored|].
    destruct (EngineScan_docs c [] 0 s H1) as (m & s' & -> & _ & J1 & J2 & J3).
    apply reading_stored; [done|by rewrite J2|]. intros. by rewrite J3.
  - apply same_node_stored; [done|]. apply HoldForOfflineOwner_same.
  - apply same_node_stored; [done|]. apply RecordRemoteClaim_same.
Qed.

(** One step: at most the targeted document changes, and only when its requestor may
    write there. *)
Lemma node_step_docs o n :
  engine_ok (ne_storage n) ->
  let n' := node_step n o in
  engine_ok (ne_storage n') /\ ne_identity n' = ne_identity n
  /\ same_access (en_catalog (ne_storage n)) (en_catalog (ne_storage n'))
  /\ forall c k, engine_docs (ne_storage n') c k = engine_docs (ne_storage n) c k
       \/ exists who, op_target o = Some (c, k, who) /\ NodeCanWrite n c who = true.
Proof.
  intros Hs. assert (H : forall c k who d n', stored_or_quiet c k n n' d -> op_target o = Some (c, k, who) ->
    (is_Some d -> NodeCanWrite n c who = true) -> engine_ok (ne_storage n') /\ ne_identity n' = ne_identity n
    /\ same_access (en_catalog (ne_storage n)) (en_catalog (ne_storage n'))
    /\ forall c k, engine_docs (ne_storage n') c k = engine_docs (ne_storage n) c k
         \/ exists who, op_target o = Some (c, k, who) /\ NodeCanWrite n c who = true).
  { intros c k who d n' [Q1 Q2 Q3 Q4 _] Ht Hw. split_and!; [done..|]. intros c' k'. rewrite Q4.
    destruct d as [x|]; [|by left]. unfold put_at. case_decide as Ec; [|by left]. simplify_eq. right. exists who.
    split; [done|]. by apply Hw. }
  destruct (op_target o) as [[[c k] who]|] eqn:Et.
  - destruct o as [env c' k' j who'|env c' k' d who'| | | | | |]; cbn in Et; simplify_eq; cbn [node_step].
    + pose proof (PutDocument_spec env c k j who n Hs) as Hp. destruct (PutDocument _ _ _ _ _ n) as [r n'].
      destruct Hp as (d & H1 & H2 & _). by eapply H.
    + pose proof (NodeMergeRemote_spec env c k d who n Hs) as Hp. destruct (NodeMergeRemote _ _ _ _ _ n) as [r n'].
      destruct Hp as (x & H1 & H2 & _). by eapply H.
  - destruct (is_digest o) eqn:Ed.
    + destruct o; try done. cbn [node_step]. destruct (LocalDigest_state c n) as (cache & -> & _). cbn [snd].
      destruct (EngineScan_docs c [] 0 (ne_storage n) Hs) as (m & s & -> & _ & H1 & H2 & H3). cbn [snd].
      split_and!; [done|done| |by left]. intros x. cbn. by rewrite H2.
    + destruct (read_step_stored o n Hs Et Ed) as [Q1 Q2 Q3 Q4 _]. split_and!; [done..|]. by left.
Qed.

Lemma access_can_write n n' c who :
  ne_identity n' = ne_identity n -> same_access (en_catalog (ne_storage n)) (en_catalog (ne_storage n')) ->
  NodeCanWrite n' c who = NodeCanWrite n c who /\ NodeCanRead n' c who = NodeCanRead n c who.
Proof. intros Hi Ha. unfold NodeCanWrite, NodeCanRead, is_self, self_id, CanWrite, CanRead. by rewrite Hi, Ha. Qed.

Lemma run_node_confined ops n c :
  engine_ok (ne_storage n) ->
  (forall o k who, o ∈ ops -> op_target o = Some (c, k, who) -> NodeCanWrite n c who = false) ->
  let n' := run_node ops n in
  engine_ok (ne_storage n') /\ ne_identity n' = ne_identity n
  /\ same_access (en_catalog (ne_storage n)) (en_catalog (ne_storage n'))
  /\ forall k, engine_docs (ne_storage n') c k = engine_docs (ne_storage n) c k.
Proof.
  revert n. induction ops as [|o ops IH]; intros n Hs Hops; [done|]. cbn [run_node fold_left].
  destruct (node_step_docs o n Hs) as (H1 & H2 & H3 & H4).
  destruct (IH (node_step n o) H1) as (J1 & J2 & J3 & J4).
  { intros o' k who Ho Ht. destruct (access_can_write n (node_step n o) c who H2 H3) as [-> _].
    eapply Hops; [by right|done]. }
  fold (run_node ops (node_step n o)). split_and!; [done|by rewrite J2|intros x; by rewrite J3|].
  intros k. rewrite J4. destruct (H4 c k) as [?|(who & Ht & Hw)]; [done|].
  rewrite (Hops o k who) in Hw; [done|by left|done].
Qed.

Definition outsider n (acl : CollectionAcl) (who : Requestor) : Prop :=
  is_self n who = false /\ rq_node_id who <> Catalog.owner_node acl /\ rq_node_id who ∉ readers acl.

Lemma outsider_denied n c who :
  let acl := EffectiveAcl (en_catalog (ne_storage n)) c in
  is_private acl = true -> outsider n acl who -> NodeCanRead n c who = false /\ NodeCanWrite n c who = false.
Proof.
  intros acl Hp (Hs & Ho & Hr). unfold NodeCanRead, NodeCanWrite, CanRead, CanWrite. fold acl. rewrite Hs, Hp.
  cbn [orb negb]. unfold AllowsReader. rewrite Hp. cbn [negb]. split.
  - rewrite (bool_decide_eq_false_2 (rq_node_id who = _)) by done. rewrite andb_false_r. by apply bool_decide_eq_false_2.
  - rewrite (bool_decide_eq_false_2 (rq_node_id who = _)) by done. by rewrite andb_false_r.
Qed.

(** C14: as long as no access list is changed, a private collection is out of an outsider's
    reach: over engines that meet the backend contract, whatever puts, merges, reads,
    lists, digests, holds and claims are performed in any order, the documents of a private
    collection that only outsiders addressed stay exactly as they were, and an outsider
    (not the owner, a listed reader or the node itself) who looks for it sees what it
    would see if the collection did not exist: no document, an empty list, no entry among
    the readable collections.  Received access lists and retention are not operations of
    these runs. *)
Theorem private_collection_confined ops n c :
  let acl := EffectiveAcl (en_catalog (ne_storage n)) c in
  engine_ok (ne_storage n) -> is_private acl = true ->
  (forall o k who, o ∈ ops -> op_target o = Some (c, k, who) -> outsider n acl who) ->
  let n' := run_node ops n in
  (forall k, engine_docs (ne_storage n') c k = engine_docs (ne_storage n) c k)
  /\ forall who, outsider n acl who ->
       (forall k, GetDocument c k who n' = (Some (Fault kNotFound), n'))
       /\ (forall start limit, ListDocuments c start limit who n' = (Some [], n'))
       /\ c ∉ ReadableCollections n' who.
Proof.
  intros acl Hs Hp Hops n'. destruct (run_node_confined ops n c Hs) as (J1 & J2 & J3 & J4).
  { intros o k who Ho Ht. by apply outsider_denied, (Hops o k who). }
  split; [done|]. intros who Hw. destruct (outsider_denied n c who Hp Hw) as [Hr _].
  destruct (access_can_write n n' c who J2 J3) as [_ E2]. rewrite <- E2 in Hr.
  split; [|split].
  - intros k. unfold GetDocument. by rewrite Hr.
  - intros start limit. unfold ListDocuments. by rewrite Hr.
  - unfold ReadableCollections. rewrite list_elem_of_filter. rewrite Hr. by intros [? _].
Qed.

(** ** The digest cache *)
Definition nul_free (s : bytes) : Prop := Byte.x00 ∉ s.

Lemma DigestCacheKey_inj c k c' k' :
  nul_free c -> nul_free c' -> DigestCacheKey c k = DigestCacheKey c' k' -> c = c' /\ k = k'.
Proof.
  unfold DigestCacheKey, nul_free. revert c'. induction c as [|x c IH]; intros [|y c'] Hc Hc' Heq; cbn in Heq; simplify_eq.
  - done.
  - exfalso. apply Hc'. by left.
  - exfalso. apply Hc. by left.
  - rewrite not_elem_of_cons in Hc, Hc'. destruct (IH c') as [-> ->]; [tauto|tauto|done|done].
Qed.

(** Every cached entry is the digest of the document stored under its key. *)
Definition cache_agrees (f : bytes -> bytes -> option bytes) (cache : gmap bytes DigestEntryOut) : Prop :=
  forall c k e d, nul_free c -> cache !! DigestCacheKey c k = Some e -> f c k = Some d -> digest_of k d = Some e.

Lemma cache_agrees_empty f : cache_agrees f ∅.
Proof. intros c k e d _ H. by rewrite lookup_empty in H. Qed.

Lemma cache_agrees_insert f cache c k e :
  nul_free c -> cache_agrees f cache -> (forall d, f c k = Some d -> digest_of k d = Some e) ->
  cache_agrees f (<[DigestCacheKey c k := e]> cache).
Proof.
  intros Hc Ha He c' k' e' d Hc' Hl Hd. apply lookup_insert_Some in Hl as [[Heq <-]|[_ Hl]].
  - destruct (DigestCacheKey_inj _ _ _ _ Hc Hc' Heq) as [-> ->]. by apply He.
  - by eapply Ha.
Qed.

Lemma digest_loop_exact f c rows cache :
  nul_free c -> cache_agrees f cache -> Forall (fun r => f c r.1 = Some r.2) rows ->
  let '(out, cache') := digest_loop c rows cache in
  out = omap (fun r => digest_of r.1 r.2) rows /\ cache_agrees f cache'.
Proof.
  intros Hc. revert cache. induction rows as [|[k d] rows IH]; intros cache Ha Hr; [done|].
  apply Forall_cons in Hr as [Hkd Hr]. cbn [fst snd] in Hkd. cbn [digest_loop omap list_omap fst snd].
  destruct (cache !! DigestCacheKey c k) as [e|] eqn:Ee.
  - rewrite (Ha c k e d Hc Ee Hkd). specialize (IH cache Ha Hr). destruct (digest_loop c rows cache) as [out cache'].
    destruct IH as [-> ?]. done.
  - destruct (digest_of k d) as [e|] eqn:Ed; [|by apply IH].
    specialize (IH (<[DigestCacheKey c k := e]> cache)). destruct (digest_loop c rows _) as [out cache'].
    destruct IH as [-> ?]; [|done|done]. apply cache_agrees_insert; [done|done|]. intros d' Hd'. congruence.
Qed.

Lemma scan_rows_docs m c start limit r : r ∈ scan_rows m c start limit -> m !! (c, r.1) = Some r.2.
Proof.
  assert (H : forall r, r ∈ rows_of m c -> m !! (c, r.1) = Some r.2).
  { intros r'. unfold rows_of. rewrite std_sort_perm. intros ([[c' k] d] & Hin & Hr)%list_elem_of_omap.
    cbn in Hr. case_bool_decide; simplify_eq. by apply elem_of_map_to_list in Hin. }
  unfold scan_rows. destruct (limit =? 0)%nat; intros Hr; [|apply elem_of_take in Hr as (i & Hi & _);
    apply list_elem_of_lookup_2 in Hi; revert Hi; intros Hr]; apply list_elem_of_filter in Hr as [_ Hr]; by apply H.
Qed.

Lemma LocalDigest_exact c n :
  engine_ok (ne_storage n) -> nul_free c -> cache_agrees (engine_docs (ne_storage n)) (ne_digests n) ->
  (LocalDigest c n).1 = omap (fun r => digest_of r.1 r.2) (EngineScan c [] 0 (ne_storage n)).1
  /\ cache_agrees (engine_docs (ne_storage n)) (ne_digests (LocalDigest c n).2).
Proof.
  intros Hs Hc Ha. destruct (LocalDigest_state c n) as (cache & -> & ->). cbn [fst snd ne_digests with_digests].
  destruct (EngineScan_docs c [] 0 (ne_storage n) Hs) as (m & s & -> & Hm & _). cbn [fst].
  pose proof (digest_loop_exact (engine_docs (ne_storage n)) c (scan_rows m c [] 0) (ne_digests n) Hc Ha) as H.
  destruct (digest_loop c _ _) as [out cache']. apply H. apply Forall_forall. intros r Hr. rewrite <- Hm.
  by apply scan_rows_docs in Hr.
Qed.

(** Every stored document can be decoded. *)
Definition readable n : Prop :=
  forall c k d, engine_docs (ne_storage n) c k = Some d -> is_Some (DecodeDocument d).

Definition op_nul_free (o : node_op) : Prop :=
  match o with
  | NPut _ c _ _ _ | NMerge _ c _ _ _ | NDigest c => nul_free c
  | _ => True
  end.

Lemma stored_cache_doc c k n n' d :
  nul_free c -> stored_or_quiet c k n n' d -> (forall x, d = Some x -> is_Some (DecodeDocument x)) ->
  cache_agrees (engine_docs (ne_storage n)) (ne_digests n) -> cache_agrees (engine_docs (ne_storage n')) (ne_digests n').
Proof.
  intros Hc [_ _ _ Q4 Q5] Hr Ha. rewrite Q5. destruct d as [x|].
  - destruct (Hr x eq_refl) as [v Hv].
    assert (Hdg : digest_of k x = Some (mkDigestOut k (MaxTimestamp v) (take 8 (Sha256 x)))) by (unfold digest_of; by rewrite Hv).
    rewrite Hdg.
    intros c' k' e' d' Hc' Hl Hd'. rewrite Q4 in Hd'. unfold put_at in Hd'.
    apply lookup_insert_Some in Hl as [[Heq <-]|[Hne Hl]].
    + destruct (DigestCacheKey_inj _ _ _ _ Hc Hc' Heq) as [<- <-]. rewrite decide_True in Hd' by done. by simplify_eq.
    + rewrite decide_False in Hd' by (intros [= -> ->]; done). by eapply Ha.
  - intros c' k' e' d' Hc' Hl Hd'. rewrite Q4 in Hd'. by eapply Ha.
Qed.

Lemma stored_cache c k n n' d :
  nul_free c -> stored_or_quiet c k n n' d -> readable n' ->
  cache_agrees (engine_docs (ne_storage n)) (ne_digests n) -> cache_agrees (engine_docs (ne_storage n')) (ne_digests n').
Proof.
  intros Hc Hq Hr. apply (stored_cache_doc c k n n' d); [done|done|]. intros x ->. apply (Hr c k x).
  destruct Hq as [_ _ _ Q4 _]. rewrite Q4. unfold put_at. by rewrite decide_True.
Qed.

Lemma node_step_cache o n :
  engine_ok (ne_storage n) -> op_nul_free o -> readable (node_step n o) ->
  cache_agrees (engine_docs (ne_storage n)) (ne_digests n) ->
  cache_agrees (engine_docs (ne_storage (node_step n o))) (ne_digests (node_step n o)).
Proof.
  intros Hs Hn Hr Ha. destruct (op_target o) as [[[c k] who]|] eqn:Et.
  - destruct o as [env c' k' j who'|env c' k' d who'| | | | | |]; cbn in Et; simplify_eq; cbn [node_step] in *.
    + pose proof (PutDocument_spec env c k j who n Hs) as Hp. destruct (PutDocument _ _ _ _ _ n) as [r n'].
      destruct Hp as (d & H1 & _). by eapply stored_cache.
    + pose proof (NodeMergeRemote_spec env c k d who n Hs) as Hp. destruct (NodeMergeRemote _ _ _ _ _ n) as [r n'].
      destruct Hp as (x & H1 & _). by eapply stored_cache.
  - destruct (is_digest o) eqn:Ed.
    + destruct o; try done. cbn [node_step] in *. destruct (LocalDigest_exact c n Hs Hn Ha) as [_ H].
      intros c' k' e' d' Hc' Hl Hd'. eapply H; [done|done|]. rewrite <- Hd'.
      destruct (node_step_docs (NDigest c) n Hs) as (_ & _ & _ & H4).
      destruct (H4 c' k') as [Hq|(? & ? & _)]; [by symmetry|done].
    + eapply (stored_cache [] []); [by intros ?%elem_of_nil|by apply read_step_stored|done|done].
Qed.

Lemma run_node_cache ops n :
  engine_ok (ne_storage n) -> Forall op_nul_free ops ->
  (forall k, (k <= length ops)%nat -> readable (run_node (take k ops) n)) ->
  cache_agrees (engine_docs (ne_storage n)) (ne_digests n) ->
  engine_ok (ne_storage (run_node ops n))
  /\ cache_agrees (engine_docs (ne_storage (run_node ops n))) (ne_digests (run_node ops n)).
Proof.
  revert n. induction ops as [|o ops IH]; intros n Hs Hn Hr Ha; [done|]. apply Forall_cons in Hn as [Ho Hn].
  cbn [run_node fold_left]. apply (IH (node_step n o)).
  - by destruct (node_step_docs o n Hs).
  - done.
  - intros k Hk. apply (Hr (Datatypes.S k)). cbn. lia.
  - apply node_step_cache; [done|done| |done]. apply (Hr 1%nat). cbn. lia.
Qed.

(** C31: the digest cache does not show: over engines that meet the backend contract, when
    the cache starts empty and the names of collections and keys have no NUL byte, after
    any run of puts, merges, reads, lists, digests, holds and claims during which every
    stored document could be decoded, the digest a peer is sent is the one a scan with an
    empty cache would compute.  Retention, which removes documents behind the cache, is not
    an operation of these runs. *)
Theorem digest_cache_exact ops n c :
  engine_ok (ne_storage n) -> ne_digests n = ∅ -> Forall op_nul_free ops -> nul_free c ->
  (forall k, (k <= length ops)%nat -> readable (run_node (take k ops) n)) ->
  let n' := run_node ops n in
  (LocalDigest c n').1 = (LocalDigest c (with_digests ∅ n')).1.
Proof.
  intros Hs He Hn Hc Hr n'. destruct (run_node_cache ops n Hs Hn Hr) as [H1 H2].
  { rewrite He. apply cache_agrees_empty. }
  destruct (LocalDigest_exact c n' H1 Hc H2) as [-> _].
  destruct (LocalDigest_exact c (with_digests ∅ n') H1 Hc) as [-> _]; [apply cache_agrees_empty|done].
Qed.

(** ** Writes are read back *)
Lemma updated_doc_shows wall previous j n :
  json_ok j -> (forall w, previous = Some w -> fields_distinct (ToJson w) = true) ->
  let v := updated_doc wall previous j n in tombstone_of v = false /\ shows (ToJson v) j.
Proof.
  intros Hj Hd. unfold updated_doc. destruct previous as [p|]; [by apply apply_update_shows, Hd|].
  split; [apply FromJson_live|]. rewrite ToJson_FromJson. by apply shows_refl.
Qed.

(** Where the written document goes: to the hook, or to the outbox when no peer is
    reachable. *)
Definition handed_on (env : node_env) (c k doc : bytes) n n' : Prop :=
  match nv_reachable env with
  | Some false =>
      ne_sent n' = ne_sent n
      /\ ne_outbox n' = (OutboxPut (nv_outbox env).1 (nv_outbox env).2 (ne_outbox n)
                          (mkEntry c k (LedgerKeyHash c k) doc (Now (nv_wall env) (ne_clock n)).1 0)).2
  | _ => ne_sent n' = (if ne_hook n then ne_sent n ++ [(c, k, doc)] else ne_sent n) /\ ne_outbox n' = ne_outbox n
  end.

Lemma write_update_handed_on env c k previous j n n' :
  write_update env c k previous j n = (OK tt, n') ->
  handed_on env c k (EncodeDocument (updated_doc (nv_wall env) previous j n)) n n'.
Proof.
  unfold write_update, updated_doc, handed_on. destruct (Now (nv_wall env) (ne_clock n)) as [ts clock] eqn:En. cbn [fst].
  destruct previous as [p|].
  1: destruct (ApplyJsonUpdate p j ts (ne_tags n)) as [v tags]. 2: destruct (FromJson ts j (ne_tags n)) as [v tags].
  all: cbn [fst]; destruct (PutRaw _ c k _ _) as [[u|code] s]; [|done]; intros [= <-].
  all: destruct (nv_reachable env) as [[]|];
    match goal with |- context [PersistClockIfDue ?b (NoteDigest ?c ?k ?d ?x)] =>
      destruct (PersistClockIfDue_keeps b (NoteDigest c k d x)) as (_ & _ & _ & -> & -> & _);
      destruct (NoteDigest_keeps c k d x) as (_ & _ & -> & -> & _)
    end; done.
Qed.

(** C13: a write is read back: over engines that meet the backend contract, an acknowledged
    put of a value without NaN and with distinct field names, over a document (if any)
    whose shown objects have distinct field names, stores a live document that shows the
    value, changes no other document, and is handed on exactly once.  When the document
    fits the wire format and nests at most 64 deep, whoever may read the collection then
    gets a value that shows what was written up to the order of fields and of array
    elements, and "not found" exactly when the empty object was written, which is how a
    document is deleted. *)
Theorem put_then_get env c k j who reader n n' :
  engine_ok (ne_storage n) -> json_ok j -> (forall w, stored_doc n c k = Some w -> fields_distinct (ToJson w) = true) ->
  NodeCanRead n c reader = true -> PutDocument env c k j who n = (Some (OK tt), n') ->
  exists v, engine_docs (ne_storage n') c k = Some (EncodeDocument v)
    /\ tombstone_of v = false /\ shows (ToJson v) j
    /\ (forall c' k', (c', k') <> (c, k) -> engine_docs (ne_storage n') c' k' = engine_docs (ne_storage n) c' k')
    /\ handed_on env c k (EncodeDocument v) n n'
    /\ (wire_ok v -> (nesting v <= kMaxDecodeDepth)%nat ->
        exists y x, shows y j /\ json_perm y x
          /\ (GetDocument c k reader n').1
             = Some (match j with JObject [] => Fault kNotFound | _ => OK x end)).
Proof.
  intros Hs Hj Hdist Hr Hp. pose proof (PutDocument_spec env c k j who n Hs) as H. rewrite Hp in H.
  destruct H as (d & [Q1 Q2 Q3 Q4 _] & _ & Hd). specialize (Hd eq_refl). subst d.
  destruct (updated_doc_shows (nv_wall env) (stored_doc n c k) j n Hj Hdist) as [V1 V2].
  set (v := updated_doc _ _ j n) in *. exists v.
  assert (Hdoc : engine_docs (ne_storage n') c k = Some (EncodeDocument v))
    by (rewrite Q4; unfold put_at; by rewrite decide_True).
  split_and!; [done|done|done| | |].
  - intros c' k' Hne. rewrite Q4. unfold put_at. by rewrite decide_False.
  - revert Hp. unfold PutDocument. case_bool_decide; [done|]. destruct (NodeCanWrite n c who); [|done]. cbn [negb].
    destruct (read_document_spec c k n Hs) as (s & -> & H1 & H2 & H3). unfold v, stored_doc.
    destruct (engine_docs (ne_storage n) c k) as [y|]; cbn [mbind option_bind].
    + destruct (DecodeDocument y) as [w|]; [|done].
      destruct (write_update env c k (Some w) j (with_storage s n)) as [st n2] eqn:Ew. intros [= -> ->].
      exact (write_update_handed_on _ _ _ _ _ _ _ Ew).
    + destruct (write_update env c k None j (with_storage s n)) as [st n2] eqn:Ew. intros [= -> ->].
      exact (write_update_handed_on _ _ _ _ _ _ _ Ew).
  - intros Hw Hn. exists (ToJson v), (ToJson (normalize v)). split; [done|]. split; [apply ToJson_normalize|]. unfold GetDocument.
    destruct (access_can_write n n' c reader Q2 Q3) as [_ ->]. rewrite Hr. cbn [negb].
    destruct (GetRaw_docs c k (ne_storage n') Q1) as (s & -> & _). cbn [fst]. rewrite Hdoc.
    unfold DecodeDocument, EncodeDocument, CrdtCodec.Decode. rewrite (DecodeAt_Encode v Hw) by lia.
    rewrite IsEmpty_normalize. pose proof (IsEmpty_shows v V1) as He. pose proof (shows_empty _ _ V2) as Hq.
    destruct (IsEmpty v).
    + destruct He as [He _]. rewrite (proj1 Hq (He eq_refl)). done.
    + destruct j as [| | | | | |[|]]; try done. destruct He as [_ He]. by discriminate (He (proj2 Hq eq_refl)).
Qed.

(** ** Replicated access-control lists *)
Definition acl_json (acl : CollectionAcl) (ms : Z) : JsonValue :=
  JObject [(bs "owner_node", JString (Catalog.owner_node acl)); (bs "private", JBool (is_private acl));
           (bs "readers", JArray (map JString (std_sort str_lt id (readers acl))));
           (bs "parent", JString (acl_parent acl)); (bs "updated_ms", JInt (to_signed 64 ms))].

Definition sorted_acl (acl : CollectionAcl) : CollectionAcl :=
  mkAcl (Catalog.owner_node acl) (is_private acl) (std_sort str_lt id (readers acl)) (acl_parent acl).

Lemma strings_no_double l : no_double (JArray (map JString l)) = true.
Proof. cbn. apply forallb_forall. by intros x (s & <- & _)%in_map_iff. Qed.

Lemma to_signed_fits ms : fits 64 ms -> sfits 64 (to_signed 64 ms) /\ u64 (to_signed 64 ms) = ms.
Proof.
  unfold fits, sfits, to_signed, u64, wrap. intros H.
  destruct (Z.ltb_spec ms (2 ^ (64 - 1))); (split; [lia|]).
  - apply Z.mod_small. lia.
  - symmetry. apply (Z.mod_unique _ _ (-1)); lia.
Qed.

Lemma acl_json_no_double acl ms : fits 64 ms -> no_double (acl_json acl ms) = true.
Proof.
  intros Hm. destruct (to_signed_fits ms Hm) as [Hs _]. unfold acl_json. cbn -[no_double].
  change (no_double (JObject ?o)) with (forallb (fun kv : bytes * JsonValue => no_double kv.2) o).
  cbn [forallb fst snd]. rewrite strings_no_double. cbn. rewrite andb_true_r.
  unfold sfits in Hs. apply andb_true_iff. split; [apply Z.leb_le|apply Z.ltb_lt]; lia.
Qed.

Lemma strings_of_json l : map AsString (filter (fun r => is_string r = true) (map JString l)) = l.
Proof. induction l as [|x l IH]; [done|]. cbn [map]. rewrite filter_cons_True by done. cbn. by rewrite IH. Qed.

Lemma acl_members_json acl ms : acl_members (acl_json acl ms) = sorted_acl acl.
Proof. unfold acl_members, sorted_acl. f_equal. apply (strings_of_json (std_sort str_lt id (readers acl))). Qed.

Lemma acl_json_sorted acl ms : acl_json (sorted_acl acl) ms = acl_json acl ms.
Proof.
  unfold acl_json, sorted_acl. cbn [Catalog.owner_node is_private readers acl_parent].
  by rewrite (std_sort_strings (std_sort str_lt id (readers acl)) (readers acl)) by apply std_sort_perm.
Qed.

Lemma set_acl_catalog env collection acl ms (s : StorageEngine B) m :
  collections_ (en_catalog s) !! collection = Some m ->
  collections_ (en_catalog (set_acl env collection acl ms s).2) !! collection = Some (adopt collection (acl, ms) m).
Proof.
  intros Hm. unfold set_acl, SetAclAt, with_meta. rewrite Hm. unfold adopt. cbn [fst snd].
  case_bool_decide; [done|]. cbn [orb]. destruct (ms <? acl_updated_ms m); [done|].
  unfold store. destruct (SaveLocked _ _ _) as [st f]. cbn. by rewrite lookup_insert_eq.
Qed.

(** What an envelope made by [SetCollectionAcl] parses to. *)
Definition sent_envelope n (collection : bytes) (acl : CollectionAcl) (ms : Z) : bytes :=
  acl_envelope n collection (acl_json acl ms) (CanonicalAclJson acl ms) ms.

Lemma sent_envelope_parses n collection acl ms :
  fits 64 ms ->
  Parse (sent_envelope n collection acl ms)
  = Some (JObject [(bs "acl", acl_json acl ms); (bs "updated_ms", JInt (to_signed 64 ms));
                   (bs "sig", JString (Sign (ne_identity n) (AclAttestMessage collection (CanonicalAclJson acl ms))))]).
Proof.
  intros Hm. unfold sent_envelope, acl_envelope. apply Parse_Dump.
  change (no_double (JObject ?o)) with (forallb (fun kv : bytes * JsonValue => no_double kv.2) o).
  cbn [forallb fst snd]. rewrite acl_json_no_double by done. destruct (to_signed_fits ms Hm) as [Hs _]. cbn.
  unfold sfits in Hs. rewrite andb_true_r. apply andb_true_iff. split; [apply Z.leb_le|apply Z.ltb_lt]; lia.
Qed.

Context `{!Ed25519Laws D}.

(** An access-control list replicates: the envelope the owner signs is accepted by
    every peer that knows the owner's key, and the peer then holds exactly that list
    (readers sorted) unless it already has a newer version or the list names the
    collection as its own parent.  Who owned the collection before is not asked. *)
Theorem signed_acl_adopted env acl ms collection (owner peer : NodeEngine B) resolve m :
  let id := ne_identity owner in
  key_pair (private_key id) (public_key id) -> id_node_id id = DeriveNodeId (public_key id) -> self_id owner <> [] ->
  Catalog.owner_node acl = self_id owner -> self_id peer <> self_id owner ->
  ne_resolver peer = Some resolve -> resolve (self_id owner) = public_key id ->
  fits 64 ms -> fits 64 (av_now env + kMaxFutureSkewMs) -> ms <= av_now env + kMaxFutureSkewMs ->
  collections_ (en_catalog (ne_storage peer)) !! collection = Some m ->
  let '(st, peer') := ApplyRemoteAcl env (self_id owner) collection (sent_envelope owner collection acl ms) true peer in
  collections_ (en_catalog (ne_storage peer')) !! collection = Some (adopt collection (sorted_acl acl, ms) m)
  /\ (se_io (av_set env) = CmOk -> cat_dek (en_catalog (ne_storage peer)) = [] -> st = OK tt).
Proof.
  intros id Hkp Hid Hne Ho Hp Hres Hkey Hf Hn Hms Hm. unfold ApplyRemoteAcl. rewrite sent_envelope_parses by done.
  assert (Hfind : forall a b c, Find (JObject [(bs "acl", a); (bs "updated_ms", b); (bs "sig", c)]) (bs "acl") = Some a
      /\ Find (JObject [(bs "acl", a); (bs "updated_ms", b); (bs "sig", c)]) (bs "updated_ms") = Some b
      /\ Find (JObject [(bs "acl", a); (bs "updated_ms", b); (bs "sig", c)]) (bs "sig") = Some c) by done.
  destruct (Hfind (acl_json acl ms) (JInt (to_signed 64 ms))
    (JString (Sign (ne_identity owner) (AclAttestMessage collection (CanonicalAclJson acl ms))))) as (-> & -> & ->).
  cbn [is_object is_number is_string andb]. change (is_object (acl_json acl ms)) with true. cbn [andb].
  rewrite acl_members_json. destruct (to_signed_fits ms Hf) as [_ Hu]. cbn [AsInt AsString]. rewrite Hu.
  assert (Hcheck : check_acl (av_now env) (self_id owner) collection (sorted_acl acl) ms
      (Sign (ne_identity owner) (AclAttestMessage collection (CanonicalAclJson acl ms))) peer = OK tt).
  { unfold check_acl. change (Catalog.owner_node (sorted_acl acl)) with (Catalog.owner_node acl). rewrite Ho.
    rewrite (bool_decide_eq_false_2 (self_id owner = [])), (bool_decide_eq_true_2 (self_id owner = self_id owner)) by done.
    cbn [orb negb]. unfold u64. rewrite wrap_id by done. rewrite (proj2 (Z.ltb_ge _ _)) by lia.
    rewrite (bool_decide_eq_false_2 (self_id owner = self_id peer)) by done. rewrite Hres, Hkey.
    assert (Hc : CanonicalAclJson (sorted_acl acl) ms = CanonicalAclJson acl ms)
      by exact (f_equal Dump (acl_json_sorted acl ms)).
    rewrite Hc. unfold attested. destruct (key_pair_length _ _ Hkp) as [_ Hl].
    rewrite (bool_decide_eq_false_2 (public_key id = [])) by (intros Ee; rewrite Ee in Hl; done).
    rewrite bool_decide_eq_true_2 by done. cbn [negb andb]. unfold Sign. by rewrite verify_sign. }
  rewrite Hcheck. unfold EnsureCollection, HasCollection. rewrite bool_decide_eq_true_2 by (by eexists).
  pose proof (set_acl_catalog env collection (sorted_acl acl) ms (ne_storage peer) m Hm) as Hset.
  destruct (set_acl env collection (sorted_acl acl) ms (ne_storage peer)) as [st s] eqn:Es.
  split; [done|]. intros Hio Hdek. revert Es. unfold set_acl, SetAclAt, with_meta. rewrite Hm.
  case_bool_decide; [intros [= <- _]; done|]. destruct (ms <? acl_updated_ms m); [intros [= <- _]; done|].
  unfold store, SaveLocked, WriteSealedJsonFile. cbn [cat_dek]. rewrite Hdek. cbn. rewrite Hio. cbn. by intros [= <- _].
Qed.

(** An owner's signature over a list for a collection, under a key known for the owner. *)
Definition acl_signed n (now : Z) (origin c : bytes) (acl : CollectionAcl) (ms : Z) (sig : bytes) : Prop :=
  exists pub, Catalog.owner_node acl = origin /\ origin <> [] /\ DeriveNodeId pub = origin
    /\ Ed25519Verify pub (AclAttestMessage c (CanonicalAclJson acl ms)) sig = true
    /\ (if decide (origin = self_id n) then pub = public_key (ne_identity n)
        else exists resolve, ne_resolver n = Some resolve /\ pub = resolve origin)
    /\ ms <= u64 (now + kMaxFutureSkewMs).

Lemma check_acl_signed n now origin c acl ms sig u :
  check_acl now origin c acl ms sig n = OK u -> acl_signed n now origin c acl ms sig.
Proof.
  unfold check_acl. case_bool_decide as H0; [done|]. case_bool_decide as H1; [|done]. cbn [orb negb].
  destruct (Z.ltb_spec (u64 (now + kMaxFutureSkewMs)) ms) as [|Hms]; [done|].
  destruct (if bool_decide (origin = self_id n) then _ else _) as [pub|] eqn:Ek; [|done].
  destruct (attested pub origin _ _) eqn:Ea; [|done]. intros _. unfold attested in Ea.
  apply andb_true_iff in Ea as [[_ Ed%bool_decide_eq_true]%andb_true_iff Ev]. exists pub.
  split_and!; [done|congruence|done|done| |done]. case_decide as Hd.
  - rewrite bool_decide_eq_true_2 in Ek by done. congruence.
  - rewrite bool_decide_eq_false_2 in Ek by done. destruct (ne_resolver n) as [resolve|]; [|done].
    exists resolve. split; congruence.
Qed.

(** The access list of a collection, public when it is not in the catalog. *)
Definition acl_at (cat : Catalog) (c : bytes) : CollectionAcl :=
  match collections_ cat !! c with Some m => cm_acl m | None => public_acl end.

(** Only the entry of [c] differs, and its list is [acl] or as before. *)
Definition only_acl (c : bytes) (acl : CollectionAcl) (cat cat' : Catalog) : Prop :=
  (forall x, x <> c -> collections_ cat' !! x = collections_ cat !! x)
  /\ (acl_at cat' c = acl \/ acl_at cat' c = acl_at cat c).

Lemma EnsureCollection_acl now env c acl (s : StorageEngine B) :
  let cat' := en_catalog (EnsureCollection now env c s).2 in
  only_acl c acl (en_catalog s) cat' /\ acl_at cat' c = acl_at (en_catalog s) c.
Proof.
  unfold EnsureCollection, HasCollection, only_acl, acl_at. case_bool_decide as Hh; cbn [snd]; [by split; [split; [done|right]|]|].
  apply eq_None_not_Some in Hh. unfold UpsertRootPageId. rewrite Hh. unfold store.
  destruct (SaveLocked _ _ _) as [st f]. cbn. rewrite lookup_insert_eq. split; [|done]. split; [|by right].
  intros x Hx. by rewrite lookup_insert_ne.
Qed.

Lemma set_acl_only env c acl ms (s : StorageEngine B) :
  only_acl c acl (en_catalog s) (en_catalog (set_acl env c acl ms s).2).
Proof.
  unfold only_acl, acl_at, set_acl, SetAclAt, with_meta. destruct (collections_ (en_catalog s) !! c) as [m|] eqn:Em.
  2: { cbn. rewrite Em. split; [done|by right]. }
  case_bool_decide; [cbn; rewrite Em; split; [done|by right]|].
  destruct (_ <? _); [cbn; rewrite Em; split; [done|by right]|].
  unfold store. destruct (SaveLocked _ _ _) as [st f]. cbn. rewrite lookup_insert_eq. split; [|by left].
  intros x Hx. by rewrite lookup_insert_ne.
Qed.

(** C32: an access-control envelope changes the catalog only with its owner's signature:
    the claimed owner is the node it came from, a key known for that node derives its
    id and verifies the signature over this collection and this list, and the version
    is not from the future; only that collection's entry changes, and its list becomes
    the signed one or stays. *)
Theorem remote_acl_attested env origin c envelope n :
  let '(st, n') := ApplyRemoteAcl env origin c envelope true n in
  let cat := en_catalog (ne_storage n) in
  let cat' := en_catalog (ne_storage n') in
  cat' <> cat ->
  exists acl ms sig, acl_signed n (av_now env) origin c acl ms sig /\ only_acl c acl cat cat'.
Proof.
  unfold ApplyRemoteAcl. destruct (Parse envelope) as [v|]; [|done].
  destruct (is_object v); [|done]. destruct (Find v (bs "acl")) as [acl_v|]; [|done].
  destruct (Find v (bs "updated_ms")) as [ms_v|]; [|done]. destruct (Find v (bs "sig")) as [sig_v|]; [|done].
  destruct (is_object acl_v && is_number ms_v && is_string sig_v); [|done].
  set (acl := acl_members acl_v). set (ms := u64 (AsInt ms_v)).
  destruct (check_acl (av_now env) origin c acl ms (AsString sig_v) n) as [u|code] eqn:Ec; [|done].
  pose proof (EnsureCollection_acl (av_now env) (av_ensure env) c acl (ne_storage n)) as [[S1 S2] S3].
  destruct (EnsureCollection _ _ c (ne_storage n)) as [[u1|code] s1]; cbn [snd] in S1, S2, S3.
  - pose proof (set_acl_only env c acl ms s1) as [T1 T2]. destruct (set_acl env c acl ms s1) as [st s2].
    intros _. exists acl, ms, (AsString sig_v). split; [by eapply check_acl_signed|]. split.
    + intros x Hx. rewrite <- S1 by done. by apply T1.
    + rewrite <- S3. apply T2.
  - intros _. exists acl, ms, (AsString sig_v). split; [by eapply check_acl_signed|]. by split.
Qed.

(** ** Concurrency *)

(** ** Transit and checkpoints *)
Lemma settled_intent ckpt claimed seen rs h :
  h ∈ settled_loop ckpt claimed seen rs -> exists r, r ∈ rs /\ r_type r = kTransitIntent /\ r_key_hash r = h.
Proof.
  revert seen. induction rs as [|r rs IH]; intros seen; cbn [settled_loop]; [by intros ?%elem_of_nil|].
  assert (Hnext : forall seen', h ∈ settled_loop ckpt claimed seen' rs ->
    exists r0, r0 ∈ r :: rs /\ r_type r0 = kTransitIntent /\ r_key_hash r0 = h).
  { intros seen' Hin. destruct (IH seen' Hin) as (r0 & ? & ?). exists r0. split; [by right|done]. }
  destruct (_ <? _); [by intros ?%elem_of_nil|].
  case_bool_decide as Ht; cbn [negb]; [|apply Hnext].
  case_bool_decide; cbn [negb]; [|apply Hnext]. case_bool_decide; [apply Hnext|].
  intros [->|Hin]%elem_of_cons; [|by eapply Hnext]. exists r. split; [by left|done].
Qed.

(** The ledger record of an operation hashes its own collection and key. *)
Definition self_hashed (r : WalRecord) : Prop := r_key_hash r = LedgerKeyHash (r_collection r) (r_key r).

Lemma new_record_self_hashed w t c k d o : self_hashed (new_record w t c k d o).
Proof. done. Qed.

(** A checkpoint cannot release what a hold stored: the ledger names a held document
    by the hash of its owner and key, the transit store by the hash of its collection
    and key, so a settled hash is the hash of a held envelope only when the hashes of an entry of
    the ledger and of the held document collide. *)
Theorem settled_hash_misses_envelope entries ckpt (n : NodeEngine B) owner c k doc mid i lsn :
  Forall self_hashed entries ->
  Forall (fun r => r_type r = kTransitIntent -> r_collection r ++ [Byte.x00] ++ r_key r <> c ++ [Byte.x00] ++ k) entries ->
  e_key_hash (hold_envelope n owner c k doc mid 1 i lsn) ∉ settled_hashes entries ckpt
  \/ exists r, r ∈ entries /\ r_collection r ++ [Byte.x00] ++ r_key r <> c ++ [Byte.x00] ++ k
        /\ LedgerKeyHash (r_collection r) (r_key r) = LedgerKeyHash c k.
Proof.
  intros H1 H2. destruct (decide (e_key_hash (hold_envelope n owner c k doc mid 1 i lsn) ∈ settled_hashes entries ckpt))
    as [Hin|]; [right|by left]. destruct (settled_intent _ _ _ _ _ Hin) as (r & Hr & Ht & He).
  rewrite Forall_forall in H1, H2. rewrite (H1 r Hr) in He. exists r.
  split; [done|]. split; [by apply H2|done].
Qed.

(** ** The clock file *)
Lemma clock_bytes_load phys log tags n0 :
  fits 64 phys -> fits 32 log -> fits 64 tags -> ne_clock_file n0 = Some (clock_bytes phys log tags) ->
  ne_clock (LoadClockState n0) = Restore phys log (ne_clock n0)
  /\ ne_tags (LoadClockState n0) = RestoreTagCounter tags (ne_tags n0)
  /\ ne_saved_physical (LoadClockState n0) = phys.
Proof.
  intros Hp Hl Ht Hf. unfold LoadClockState. rewrite Hf. unfold clock_bytes.
  assert (L8 : forall x, length (le_split 8 x) = 8%nat) by (intros; apply length_le_split).
  assert (L4 : forall x, length (le_split 4 x) = 4%nat) by (intros; apply length_le_split).
  rewrite take_ge by (rewrite !length_app, !L8, L4; lia). rewrite !length_app, !L8, L4.
  change ((8 + (4 + 8) <? 12)%nat) with false. change ((20 <=? 8 + (4 + 8))%nat) with true. cbv iota.
  set (a := le_split 8 phys). set (b := le_split 4 log). set (d := le_split 8 tags).
  pose proof (L8 phys : length a = 8%nat) as La. pose proof (L4 log : length b = 4%nat) as Lb.
  pose proof (L8 tags : length d = 8%nat) as Ld.
  assert (H1 : take 8 (a ++ b ++ d) = a) by (by rewrite <- La, take_app_length).
  assert (H2 : drop 8 (a ++ b ++ d) = b ++ d) by (by rewrite <- La, drop_app_length).
  assert (H3 : take 4 (b ++ d) = b) by (by rewrite <- Lb, take_app_length).
  assert (H4 : drop 12 (a ++ b ++ d) = d).
  { rewrite app_assoc. apply drop_app_length'. by rewrite length_app, La, Lb. }
  assert (H5 : take 8 d = d) by (apply take_ge; by rewrite Ld).
  rewrite H1, H2, H3, H4, H5. unfold a, b, d.
  rewrite !le_combine_split. unfold fits in *. rewrite !Z.mod_small by (cbn; lia). done.
Qed.

(** The clock file and restarts: after a restart from a checkpointed clock every
    stamp is above all stamps used up to the checkpoint; but a checkpoint is skipped
    while the clock is within a second of the last one and fewer than 512 writes
    passed, and when the clock runs ahead of the wall clock (it adopted a peer's time)
    the first stamp issued after the checkpoint is issued again after a crash. *)
Theorem clock_file_restart n n0 wall tags :
  let c := ne_clock n in
  clock_ok c -> fits 64 tags -> 0 < last_physical c ->
  ne_clock_file n0 = Some (clock_bytes (last_physical c) (last_logical c) tags) ->
  ne_clock n0 = new_clock (clock_node_id c) ->
  let c0 := ne_clock (LoadClockState n0) in
  (forall t, below t c -> now_safe wall c0 = true -> ts_lt t (Now wall c0).1 = true)
  /\ (wall <= last_physical c ->
      (Now wall c0).1 = (Now wall c).1
      /\ (ne_saved_physical n = last_physical c -> fits 64 (last_physical c + 1000) ->
          (ne_save_counter n + 1) mod 2 ^ 64 mod 512 <> 0 ->
          forall saved, ne_clock_file (PersistClockIfDue saved (with_clock (Now wall c).2 tags n)) = ne_clock_file n)).
Proof.
  intros c [Hp Hl] Ht Hpos Hf Hc0 c0. destruct (clock_bytes_load _ _ _ n0 Hp Hl Ht Hf) as (E1 & _ & _).
  assert (Ec : c0 = c).
  { unfold c0. rewrite E1, Hc0. unfold Restore, new_clock. cbn [last_physical last_logical clock_node_id].
    rewrite (proj2 (Z.ltb_lt 0 (last_physical c))) by done. cbn. by destruct c. }
  rewrite Ec. split.
  - intros t Hb Hs. by apply Now_strict.
  - intros Hw. split; [done|]. intros Hsv Hfit Hcnt saved. unfold PersistClockIfDue.
    assert (Hn : last_physical (Now wall c).2 = last_physical c).
    { unfold Now. by rewrite (proj2 (Z.ltb_ge _ _)) by done. }
    cbn [ne_clock ne_saved_physical ne_save_counter with_clock]. rewrite Hn, Hsv. unfold u64.
    rewrite (wrap_id 64 (last_physical c + 1000)) by done. rewrite (proj2 (Z.ltb_lt _ _)) by lia. cbn [andb].
    unfold wrap. by rewrite (proj2 (Z.eqb_neq _ _)).
Qed.
End Node.

(** ** Witnesses *)
#[local] Existing Instance toy_crypto.
#[local] Existing Instance toy_ed25519.

Lemma result_eq {X Y} (p : X * Y) x : p.1 = x -> p = (x, p.2).
Proof. intros <-. by destruct p. Qed.

Definition peer_key : bytes := replicate 32 Byte.x11.
Definition peer_identity : NodeIdentity := identity_of peer_key peer_key.

Definition demo_transit : TransitStore := mkStore [] true ∅ false [] 0 (id_node_id demo_identity).

Definition demo_node (tags : Z) : NodeEngine GateBackend :=
  mkNode demo_identity (new_clock (id_node_id demo_identity)) tags (gate_engine false (empty_log [])) demo_transit
    empty_outbox true [] (Some (fun _ => peer_key)) None 0 0 ∅ 0 0.

Definition demo_nenv (wall : Z) (reachable : option bool) : node_env :=
  mkNodeEnv wall (gate_env IoOk) (ix_demo_env, 7) reachable ix_demo_env true.

Definition me : Requestor := Local (id_node_id demo_identity).
Definition them : Requestor := PeerRequestor (id_node_id peer_identity).

Lemma demo_node_ok tags : engine_ok (ne_storage (demo_node tags)).
Proof. apply gate_ok. Qed.

Definition demo_doc : JsonValue := JObject [(bs "b", JInt 1); (bs "a", JArray [JString (bs "x")])].
Lemma demo_doc_ok : json_ok demo_doc.
Proof.
  apply ok_object; [by apply (bool_decide_unpack _); vm_compute|]. intros k x Hx.
  repeat (apply elem_of_cons in Hx as [Hx|Hx]; [simplify_eq|]); [constructor| |by apply elem_of_nil in Hx].
  apply ok_array. intros y Hy. apply elem_of_cons in Hy as [->|Hy]; [constructor|by apply elem_of_nil in Hy].
Qed.

Definition put_demo (j : JsonValue) (n : NodeEngine GateBackend) : option (StatusOr unit) * NodeEngine GateBackend :=
  PutDocument (demo_nenv 1000 (Some true)) (bs "c") (bs "k") j me n.

Lemma put_then_get_witness :
  exists n' v, put_demo demo_doc (demo_node 0) = (Some (OK tt), n')
    /\ engine_docs (ne_storage n') (bs "c") (bs "k") = Some (EncodeDocument v)
    /\ shows (ToJson v) demo_doc.
Proof.
  pose proof (result_eq (put_demo demo_doc (demo_node 0)) (Some (OK tt)) ltac:(by vm_compute)) as Ep.
  destruct (put_then_get (demo_nenv 1000 (Some true)) (bs "c") (bs "k") demo_doc me them (demo_node 0) _
    (demo_node_ok 0) demo_doc_ok ltac:(by vm_compute) ltac:(by vm_compute) Ep) as (v & H1 & _ & H2 & _).
  exists (put_demo demo_doc (demo_node 0)).2, v. exact (conj Ep (conj H1 H2)).
Defined.

(** The order of a stored array is that of its tags as text: the element tagged with
    counter 10 comes before the one with counter 9. *)
Lemma stored_array_reordered :
  let j := JObject [(bs "embedding", JArray [JInt 100; JInt 200])] in
  let '(st, n') := put_demo j (demo_node 9) in
  st = Some (OK tt)
  /\ (GetDocument (bs "c") (bs "k") me n').1 = Some (OK (JObject [(bs "embedding", JArray [JInt 200; JInt 100])])).
Proof. vm_compute. split; reflexivity. Qed.

(** Every document the backends hold can be decoded. *)
Definition all_decode (n : NodeEngine GateBackend) : bool :=
  forallb (fun b => forallb (fun d => bool_decide (is_Some (DecodeDocument d.2))) (map_to_list (gb_docs b.2)))
    (map_to_list (backends_ (en_router (ne_storage n)))).

Lemma all_decode_readable n : all_decode n = true -> readable n.
Proof.
  intros H c k d. unfold engine_docs, router_docs, BackendFor.
  destruct (backends_ _ !! EngineNameFor _ _ c) as [b|] eqn:Eb; cbn [mbind option_bind]; [|done]. intros Hd.
  unfold all_decode in H. rewrite forallb_forall in H.
  specialize (H (_, b) (proj1 (list_elem_of_In _ _) (proj2 (elem_of_map_to_list _ _ _) Eb))). cbn [snd] in H.
  rewrite forallb_forall in H.
  specialize (H (_, d) (proj1 (list_elem_of_In _ _) (proj2 (elem_of_map_to_list _ _ _) Hd))).
  by apply bool_decide_eq_true in H.
Qed.

Definition demo_ops : list node_op :=
  [NPut (demo_nenv 1000 (Some true)) (bs "c") (bs "k") demo_doc me; NDigest (bs "c");
   NMerge (demo_nenv 1001 None) (bs "c") (bs "k") (EncodeDocument (ex_doc 5 (bs "ravi"))) them].

Lemma digest_cache_exact_witness :
  (LocalDigest (bs "c") (run_node demo_ops (demo_node 0))).1
  = (LocalDigest (bs "c") (with_digests ∅ (run_node demo_ops (demo_node 0)))).1.
Proof.
  apply (digest_cache_exact demo_ops (demo_node 0) (bs "c")).
  - apply demo_node_ok.
  - done.
  - repeat constructor; by apply (bool_decide_unpack _); vm_compute.
  - by apply (bool_decide_unpack _); vm_compute.
  - intros k Hk. apply all_decode_readable. do 4 (destruct k as [|k]; [by vm_compute|]). cbn in Hk. lia.
Defined.

(** A collection private to the peer. *)
Definition secret_acl : CollectionAcl := mkAcl (id_node_id peer_identity) true [] [].
Definition secret_meta : CollectionMeta :=
  mkMeta (bs "c") (-1) false JNull 1 [] secret_acl 10 0 [] 0 [].
Definition secret_node : NodeEngine GateBackend :=
  with_storage (with_catalog (mkCatalog {[bs "c" := secret_meta]} []) None (ne_storage (demo_node 0))) (demo_node 0).
Definition mallory_id : bytes := bs "0123".
Definition mallory : Requestor := PeerRequestor mallory_id.

Lemma secret_node_ok : engine_ok (ne_storage secret_node).
Proof.
  split; [by apply map_Forall_singleton|]. intros c. unfold EngineNameFor, GetCopy. cbn [collections_ ne_storage secret_node
    with_storage with_catalog en_catalog]. destruct (decide (bs "c" = c)) as [<-|]; [by rewrite lookup_singleton_eq|].
  by rewrite lookup_singleton_ne.
Qed.

Lemma private_collection_confined_witness :
  let n' := run_node [NMerge (demo_nenv 1001 None) (bs "c") (bs "k") (EncodeDocument (ex_doc 5 (bs "ravi"))) mallory;
                      NPut (demo_nenv 1002 None) (bs "d") (bs "k") demo_doc mallory] secret_node in
  engine_docs (ne_storage n') (bs "c") (bs "k") = None
  /\ GetDocument (bs "c") (bs "k") mallory n' = (Some (Fault kNotFound), n').
Proof.
  intros n'.
  assert (Ho : outsider secret_node (EffectiveAcl (en_catalog (ne_storage secret_node)) (bs "c")) mallory).
  { split_and!; [by vm_compute|by apply (bool_decide_unpack _); vm_compute|by apply (bool_decide_unpack _); vm_compute]. }
  destruct (private_collection_confined
    [NMerge (demo_nenv 1001 None) (bs "c") (bs "k") (EncodeDocument (ex_doc 5 (bs "ravi"))) mallory;
     NPut (demo_nenv 1002 None) (bs "d") (bs "k") demo_doc mallory] secret_node (bs "c")) as [H1 H2].
  - apply secret_node_ok.
  - by vm_compute.
  - intros o k who Hin Ht. repeat (apply elem_of_cons in Hin as [->|Hin]; [by simplify_eq/=|]). by apply elem_of_nil in Hin.
  - split; [rewrite H1; by vm_compute|]. by apply (H2 mallory Ho).
Defined.

(** A list of the peer for its collection "c", received by a node that has "c". *)
Definition peer_node : NodeEngine GateBackend :=
  mkNode peer_identity (new_clock (id_node_id peer_identity)) 0 (gate_engine false (empty_log [])) demo_transit
    empty_outbox true [] None None 0 0 ∅ 0 0.
Definition plain_node : NodeEngine GateBackend :=
  with_storage (with_catalog one_collection None (ne_storage (demo_node 0))) (demo_node 0).
Definition demo_acl_env : acl_env :=
  mkAclEnv 5000 (mkSaveEnv CmOk []) (mkSaveEnv CmOk []) demo_env true.

Lemma signed_acl_adopted_witness :
  let '(st, peer') := ApplyRemoteAcl demo_acl_env (self_id peer_node) (bs "c")
                        (sent_envelope peer_node (bs "c") secret_acl 77) true plain_node in
  collections_ (en_catalog (ne_storage peer')) !! bs "c"
  = Some (adopt (bs "c") (sorted_acl secret_acl, 77) (fresh_meta 1 (bs "c") (-1))).
Proof.
  pose proof (signed_acl_adopted demo_acl_env secret_acl 77 (bs "c") peer_node plain_node (fun _ => peer_key)
    (fresh_meta 1 (bs "c") (-1))) as H.
  destruct (ApplyRemoteAcl _ _ _ _ _ _) as [st peer']. apply H.
  - by split.
  - reflexivity.
  - by apply (bool_decide_unpack _); vm_compute.
  - reflexivity.
  - by apply (bool_decide_unpack _); vm_compute.
  - reflexivity.
  - reflexivity.
  - split; by vm_compute.
  - split; by vm_compute.
  - by vm_compute.
  - by vm_compute.
Defined.

Lemma remote_acl_attested_witness :
  let '(st, n') := ApplyRemoteAcl demo_acl_env (self_id peer_node) (bs "c")
                     (sent_envelope peer_node (bs "c") secret_acl 77) true plain_node in
  exists acl ms sig, acl_signed plain_node 5000 (self_id peer_node) (bs "c") acl ms sig.
Proof.
  pose proof (remote_acl_attested demo_acl_env (self_id peer_node) (bs "c")
    (sent_envelope peer_node (bs "c") secret_acl 77) plain_node) as H.
  assert (Hc : is_private (acl_at (en_catalog (ne_storage (ApplyRemoteAcl demo_acl_env (self_id peer_node) (bs "c")
    (sent_envelope peer_node (bs "c") secret_acl 77) true plain_node).2)) (bs "c")) = true) by (by vm_compute).
  destruct (ApplyRemoteAcl _ _ _ _ _ _) as [st n']. destruct H as (acl & ms & sig & H & _).
  - intros E. cbn [snd] in Hc. rewrite E in Hc. by vm_compute in Hc.
  - exists acl, ms, sig. exact H.
Defined.

(** The same envelope is accepted by a node where the collection is private to another
    owner: the former owner may then no longer read or write it. *)
Lemma remote_acl_takeover :
  let alice := bs "a11ce" in
  let n := with_storage (with_catalog (mkCatalog {[bs "c" := mkMeta (bs "c") (-1) false JNull 1 [] (mkAcl alice true [] []) 10 0 [] 0 []]} [])
             None (ne_storage (demo_node 0))) (demo_node 0) in
  let '(st, n') := ApplyRemoteAcl demo_acl_env (self_id peer_node) (bs "c")
                     (sent_envelope peer_node (bs "c") secret_acl 77) true n in
  NodeCanRead n (bs "c") (PeerRequestor alice) = true /\ NodeCanWrite n (bs "c") them = false
  /\ st = OK tt
  /\ NodeCanRead n' (bs "c") (PeerRequestor alice) = false /\ NodeCanWrite n' (bs "c") them = true.
Proof. vm_compute. repeat split. Qed.

(** A document for an offline owner, held, claimed by its owner, and covered by a
    checkpoint of a single-node quorum. *)
Definition hold_demo_env (i : Z) : hold_env := mkHoldEnv 1000 demo_env demo_wenv 1000.
Definition held_node : NodeEngine GateBackend :=
  (HoldForOfflineOwner hold_demo_env 1000 (bs "owner") (bs "c") (bs "k") (bs "some bytes") None [] (demo_node 0)).2.
Definition claimed_node : NodeEngine GateBackend :=
  (RecordRemoteClaim demo_env 2000 1000 (bs "owner") (LedgerKeyHash (bs "c") (bs "k")) held_node).2.

Definition claimed_entries : list WalRecord :=
  match ReadAllLocked (en_wal (ne_storage claimed_node)) with Some (l, _) => l | None => [] end.

Lemma settled_hash_misses_envelope_witness :
  map r_type claimed_entries = [kTransitIntent; kTransitClaimed]
  /\ (e_key_hash (hold_envelope (demo_node 0) (bs "owner") (bs "c") (bs "k") (bs "some bytes") [] 1 0 0)
        ∉ settled_hashes claimed_entries 1
      \/ exists r, r ∈ claimed_entries
           /\ r_collection r ++ [Byte.x00] ++ r_key r <> bs "c" ++ [Byte.x00] ++ bs "k"
           /\ LedgerKeyHash (r_collection r) (r_key r) = LedgerKeyHash (bs "c") (bs "k")).
Proof.
  split; [by vm_compute|].
  apply (settled_hash_misses_envelope claimed_entries 1 (demo_node 0) (bs "owner") (bs "c") (bs "k") (bs "some bytes") [] 0 0).
  - unfold self_hashed. by apply (bool_decide_unpack _); vm_compute.
  - by apply (bool_decide_unpack _); vm_compute.
Defined.

(** The intent and its claim are settled and pruned; the envelope stays. *)
Lemma claimed_bytes_stay_held :
  match RunCheckpoint demo_run_env (en_wal (ne_storage claimed_node)) (ne_transit claimed_node)
          (tip_vote (en_wal (ne_storage claimed_node))) [] 1 ts_default with
  | Some (OK o, w, t) => proceed (decision o) = true /\ entries_pruned o = 2 /\ envelopes_released o = 0
                         /\ map encoded_doc (PendingFor 1000 t (bs "owner")) = [bs "some bytes"]
  | _ => False
  end.
Proof. vm_compute. repeat split. Qed.

Lemma clock_file_restart_witness :
  let c := mkClock (bs "n") 90000 4 in
  let n := with_clock c 7 (demo_node 7) in
  let n0 := with_saved (Some (clock_bytes 90000 4 7)) 0 0 (with_clock (new_clock (bs "n")) 0 (demo_node 0)) in
  (Now 1000 (ne_clock (LoadClockState n0))).1 = (Now 1000 c).1.
Proof.
  intros c n n0. destruct (clock_file_restart n n0 1000 7) as [_ H]; [done|done|done|done|done|]. by apply H.
Defined.

(** Objects nested [k] deep. *)
Fixpoint nested_json (k : nat) : JsonValue :=
  match k with O => JNull | S k' => JObject [([], nested_json k')] end.

(** The parser has no depth limit and [Encode] none either: a document nested 65 deep is
    stored and acknowledged, and then neither the key nor a listing of its collection can
    be read, nor the key written or deleted: every one of them ends in the decoder's
    exception. *)
Lemma deep_put_poisons_key :
  let '(st, n') := put_demo (nested_json 65) (demo_node 0) in
  st = Some (OK tt)
  /\ (GetDocument (bs "c") (bs "k") me n').1 = None
  /\ (ListDocuments (bs "c") [] 0 me n').1 = None
  /\ (put_demo demo_doc n').1 = None
  /\ (DeleteDocument (demo_nenv 1000 None) (bs "c") (bs "k") me n').1 = None.
Proof. vm_compute. repeat split. Qed.

(** A write staged while isolated (at 1000) is replayed with a fresh stamp: it overwrites
    a later remote write (at 2000) that was merged in between. *)
Definition x_is (i : Z) : JsonValue := JObject [(bs "x", JInt i)].

Lemma flush_overwrites_newer :
  let n1 := (PutDocument (demo_nenv 1000 (Some false)) (bs "c") (bs "k") (x_is 1) me (demo_node 0)).2 in
  let later := EncodeDocument (FromJson (mkTs 2000 0 (id_node_id peer_identity)) (x_is 2) 0).1 in
  let '(merged, n2) := NodeMergeRemote (demo_nenv 2000 None) (bs "c") (bs "k") later them n1 in
  let '(flushed, n3) := FlushOutbox (fun _ => ix_demo_env) (fun _ => []) RwOk (fun _ => demo_nenv 3000 (Some true)) n2 in
  merged = Some (OK tt) /\ (GetDocument (bs "c") (bs "k") me n2).1 = Some (OK (x_is 2))
  /\ flushed = Some 1%nat /\ (GetDocument (bs "c") (bs "k") me n3).1 = Some (OK (x_is 1)).
Proof. vm_compute. repeat split. Qed.
