(* ===== verification/WireProtocol.v ===== *)
(** * The wire protocol: src/net/wire_protocol.cpp

    Payloads, the message envelope, and framing over a socket.  A payload's decoder
    is a reader (the exception of a short buffer is [None]); [opt_tail] is the
    tolerance for fields that older peers do not send.  The socket is what each
    call to send or recv meets. *)
From coqutil Require Import Word.LittleEndianList.
From S2P Require Import Prelude Bytes Receipt.
Local Open Scope Z_scope.

(** ** Codec combinators *)
Definition enc_bool (b : bool) : bytes := ByteWriter.U8 (if b then 1 else 0).
Definition dec_bool : Reader bool := (v <-r ByteReader.U8 ;; rret (negb (v =? 0)))%reader.

(** [w.U32(v.size())] and the elements; the loop of the decoder. *)
Definition enc_list {A} (enc : A -> bytes) (l : list A) : bytes := ByteWriter.U32 (u32 (Zlen l)) ++ concat (map enc l).
Fixpoint dec_times {A} (n : nat) (dec : Reader A) : Reader (list A) :=
  match n with
  | O => rret []
  | S n' => (a <-r dec ;; l <-r dec_times n' dec ;; rret (a :: l))%reader
  end.
Definition dec_list {A} (dec : Reader A) : Reader (list A) :=
  (n <-r ByteReader.U32 ;; dec_times (Z.to_nat n) dec)%reader.

(** [if (r.remaining() > 0) field = ...], the field's default otherwise. *)
Definition opt_tail {A} (d : A) (dec : Reader A) : Reader A :=
  (rem <-r ByteReader.remaining ;; if 0 <? rem then dec else rret d)%reader.

(** The capacity reserved before a peer-supplied count is read. *)
Definition BoundedCount (n remaining : Z) : Z := Z.min n (Z.min (remaining + 1) 65536).

Definition run_decoder {A} (dec : Reader A) (s : bytes) : option A := fst <$> dec s.

(** ** Handshake *)
Record HelloPayload := mkHello {
  h_node_id : bytes;
  h_ed25519_pubkey : bytes;
  x25519_ephemeral_pubkey : bytes;
  h_signature : bytes;
  h_p2p_port : Z;
  membership_tag : bytes;
}.

Definition Hello_Encode (h : HelloPayload) : bytes :=
  ByteWriter.Bytes (h_node_id h) ++ ByteWriter.Bytes (h_ed25519_pubkey h)
  ++ ByteWriter.Bytes (x25519_ephemeral_pubkey h) ++ ByteWriter.Bytes (h_signature h)
  ++ ByteWriter.U16 (h_p2p_port h) ++ ByteWriter.Bytes (membership_tag h).

Definition Hello_Decode : Reader HelloPayload :=
  (id <-r ByteReader.Bytes ;; pk <-r ByteReader.Bytes ;; eph <-r ByteReader.Bytes ;;
   sig <-r ByteReader.Bytes ;; port <-r ByteReader.U16 ;; tag <-r opt_tail [] ByteReader.Bytes ;;
   rret (mkHello id pk eph sig port tag))%reader.

Record ConfirmPayload := mkConfirm { transcript_signature : bytes }.
Definition Confirm_Encode (c : ConfirmPayload) : bytes := ByteWriter.Bytes (transcript_signature c).
Definition Confirm_Decode : Reader ConfirmPayload := (s <-r ByteReader.Bytes ;; rret (mkConfirm s))%reader.

Definition TranscriptMessage (client_hello server_hello : bytes) : bytes :=
  bs "DSN-HS-v2" ++ [Byte.x00] ++ ByteWriter.Bytes client_hello ++ ByteWriter.Bytes server_hello.

Definition MembershipHelloMessage (ephemeral_pubkey : bytes) : bytes := bs "DSN-MEMBER-HELLO-v1" ++ ephemeral_pubkey.

Definition MembershipBeaconMessage (node_id pubkey : bytes) (p2p_port : Z) : bytes :=
  bs "DSN-MEMBER-DISCO-v1" ++ node_id ++ [Byte.x00] ++ pubkey
  ++ [byte.of_Z (Z.land (Z.shiftr p2p_port 8) 0xFF); byte.of_Z (Z.land p2p_port 0xFF)].

(** ** Gossip *)
Record DigestEntry := mkDigestEntry { de_key : bytes; top_ts_encoded : bytes; de_content_hash : bytes }.
Record DigestPayload := mkDigest { dg_collection : bytes; dg_entries : list DigestEntry }.

Definition DigestEntry_Encode (e : DigestEntry) : bytes :=
  ByteWriter.Bytes (de_key e) ++ ByteWriter.Bytes (top_ts_encoded e) ++ ByteWriter.Bytes (de_content_hash e).
Definition DigestEntry_Decode : Reader DigestEntry :=
  (k <-r ByteReader.Bytes ;; t <-r ByteReader.Bytes ;; h <-r ByteReader.Bytes ;; rret (mkDigestEntry k t h))%reader.
Definition Digest_Encode (d : DigestPayload) : bytes :=
  ByteWriter.Bytes (dg_collection d) ++ enc_list DigestEntry_Encode (dg_entries d).
Definition Digest_Decode : Reader DigestPayload :=
  (c <-r ByteReader.Bytes ;; l <-r dec_list DigestEntry_Decode ;; rret (mkDigest c l))%reader.

Record DocEntry := mkDocEntry { doc_key : bytes; encoded_doc : bytes }.
Definition DocEntry_Encode (e : DocEntry) : bytes := ByteWriter.Bytes (doc_key e) ++ ByteWriter.Bytes (encoded_doc e).
Definition DocEntry_Decode : Reader DocEntry :=
  (k <-r ByteReader.Bytes ;; d <-r ByteReader.Bytes ;; rret (mkDocEntry k d))%reader.

Record DeltaResponsePayload := mkDelta { dr_collection : bytes; pushed : list DocEntry; wanted_keys : list bytes }.
Definition Delta_Encode (d : DeltaResponsePayload) : bytes :=
  ByteWriter.Bytes (dr_collection d) ++ enc_list DocEntry_Encode (pushed d)
  ++ enc_list ByteWriter.Bytes (wanted_keys d).
Definition Delta_Decode : Reader DeltaResponsePayload :=
  (c <-r ByteReader.Bytes ;; l <-r dec_list DocEntry_Decode ;; w <-r dec_list ByteReader.Bytes ;;
   rret (mkDelta c l w))%reader.

Record OpBroadcastPayload := mkBroadcast {
  ob_collection : bytes; ob_docs : list DocEntry; ob_message_id : bytes; ob_ttl : Z }.
Definition Broadcast_Encode (o : OpBroadcastPayload) : bytes :=
  ByteWriter.Bytes (ob_collection o) ++ enc_list DocEntry_Encode (ob_docs o)
  ++ ByteWriter.Bytes (ob_message_id o) ++ ByteWriter.U8 (ob_ttl o).
Definition Broadcast_Decode : Reader OpBroadcastPayload :=
  (c <-r ByteReader.Bytes ;; l <-r dec_list DocEntry_Decode ;;
   rem <-r ByteReader.remaining ;;
   if 0 <? rem then m <-r ByteReader.Bytes ;; t <-r opt_tail 1 ByteReader.U8 ;; rret (mkBroadcast c l m t)
   else rret (mkBroadcast c l [] 1))%reader.

(** ** Transit *)
Definition kTransitResponseMagicV2 : Z := 0x44545232.
Definition kLedgerDeltaMagicV2 : Z := 0x444C4432.

Definition HasMagic (s : bytes) (magic : Z) : bool :=
  if Zlen s <? 4 then false else le_combine (take 4 s) =? magic.

Record TransitQueryPayload := mkQuery { tq_offset : Z }.
Definition Query_Encode (q : TransitQueryPayload) : bytes := ByteWriter.U64 (tq_offset q).
Definition Query_Decode : Reader TransitQueryPayload :=
  (o <-r opt_tail 0 ByteReader.U64 ;; rret (mkQuery o))%reader.

Record TransitEntry := mkTransitEntry {
  te_collection : bytes;
  te_key : bytes;
  te_key_hash : bytes;
  te_encoded_doc : bytes;
  te_intent_lsn : Z;
  te_holder_node : bytes;
  te_doc_size_bytes : Z;
  te_chunk_index : Z;
  te_chunk_total : Z;
  te_content_hash : bytes;
  te_holder_sig : bytes;
}.

Record TransitResponsePayload := mkTransitResponse {
  tr_entries : list TransitEntry; truncated : bool; next_offset : Z }.

Definition TransitEntry_Encode (e : TransitEntry) : bytes :=
  ByteWriter.Bytes (te_collection e) ++ ByteWriter.Bytes (te_key e) ++ ByteWriter.Bytes (te_key_hash e)
  ++ ByteWriter.Bytes (te_encoded_doc e) ++ ByteWriter.I64 (te_intent_lsn e)
  ++ ByteWriter.Bytes (te_holder_node e) ++ ByteWriter.U64 (te_doc_size_bytes e)
  ++ ByteWriter.U32 (te_chunk_index e) ++ ByteWriter.U32 (te_chunk_total e)
  ++ ByteWriter.Bytes (te_content_hash e) ++ ByteWriter.Bytes (te_holder_sig e).

Definition TransitResponse_Encode (p : TransitResponsePayload) : bytes :=
  ByteWriter.U32 kTransitResponseMagicV2 ++ enc_list TransitEntry_Encode (tr_entries p)
  ++ enc_bool (truncated p) ++ ByteWriter.U64 (next_offset p).

(** The entry of an old holder ends at [holder_node]. *)
Definition TransitEntry_DecodeV1 : Reader TransitEntry :=
  (c <-r ByteReader.Bytes ;; k <-r ByteReader.Bytes ;; kh <-r ByteReader.Bytes ;; d <-r ByteReader.Bytes ;;
   lsn <-r ByteReader.I64 ;; h <-r ByteReader.Bytes ;;
   rret (mkTransitEntry c k kh d lsn h 0 0 1 [] []))%reader.

Definition TransitEntry_Decode : Reader TransitEntry :=
  (c <-r ByteReader.Bytes ;; k <-r ByteReader.Bytes ;; kh <-r ByteReader.Bytes ;; d <-r ByteReader.Bytes ;;
   lsn <-r ByteReader.I64 ;; h <-r ByteReader.Bytes ;;
   size <-r ByteReader.U64 ;; ci <-r ByteReader.U32 ;; ct0 <-r ByteReader.U32 ;;
   let ct := if ct0 =? 0 then 1 else ct0 in
   if ct <=? ci then rfail
   else
     hash <-r opt_tail [] ByteReader.Bytes ;; sig <-r opt_tail [] ByteReader.Bytes ;;
     rret (mkTransitEntry c k kh d lsn h size ci ct hash sig))%reader.

Definition TransitResponse_DecodeV1 : Reader TransitResponsePayload :=
  (l <-r dec_list TransitEntry_DecodeV1 ;; t <-r opt_tail false dec_bool ;; rret (mkTransitResponse l t 0))%reader.

Definition TransitResponse_Decode : Reader TransitResponsePayload := fun s =>
  if negb (HasMagic s kTransitResponseMagicV2) then TransitResponse_DecodeV1 s
  else
    (_magic <-r ByteReader.U32 ;; l <-r dec_list TransitEntry_Decode ;; t <-r opt_tail false dec_bool ;;
     n <-r opt_tail 0 ByteReader.U64 ;; rret (mkTransitResponse l t n))%reader s.

Record TransitClaimPayload := mkClaim { key_hashes : list bytes; claimer_node : bytes }.
Definition Claim_Encode (p : TransitClaimPayload) : bytes :=
  ByteWriter.Bytes (claimer_node p) ++ enc_list ByteWriter.Bytes (key_hashes p).
Definition Claim_Decode : Reader TransitClaimPayload :=
  (c <-r ByteReader.Bytes ;; l <-r dec_list ByteReader.Bytes ;; rret (mkClaim l c))%reader.

Record TransitHeldPayload := mkHeld {
  th_message_id : bytes; th_key_hash : bytes; th_holder_node : bytes; th_intent_lsn : Z; th_signature : bytes }.
Definition Held_Encode (p : TransitHeldPayload) : bytes :=
  ByteWriter.Bytes (th_message_id p) ++ ByteWriter.Bytes (th_key_hash p) ++ ByteWriter.Bytes (th_holder_node p)
  ++ ByteWriter.I64 (th_intent_lsn p) ++ ByteWriter.Bytes (th_signature p).
Definition Held_Decode : Reader TransitHeldPayload :=
  (m <-r ByteReader.Bytes ;; k <-r ByteReader.Bytes ;; h <-r ByteReader.Bytes ;; l <-r ByteReader.I64 ;;
   s <-r ByteReader.Bytes ;; rret (mkHeld m k h l s))%reader.

Definition Receipt_Encode (m : MergeReceipt) : bytes :=
  ByteWriter.Bytes (mr_message_id m) ++ ByteWriter.Bytes (mr_key_hash m) ++ ByteWriter.Bytes (applier_node m)
  ++ ByteWriter.I64 (applied_lsn m) ++ ByteWriter.Bytes (mr_signature m).
Definition Receipt_Decode : Reader MergeReceipt :=
  (m <-r ByteReader.Bytes ;; k <-r ByteReader.Bytes ;; a <-r ByteReader.Bytes ;; l <-r ByteReader.I64 ;;
   s <-r ByteReader.Bytes ;; rret (mkReceipt m k a l s))%reader.

(** ** Ledger *)
Record LedgerDigestPayload := mkLedgerDigest {
  ld_tip_entry_id : Z; ld_tip_entry_hash : bytes; ld_tip_signature : bytes; from_entry_id : Z;
  entry_hashes : list bytes }.
Definition LedgerDigest_Encode (p : LedgerDigestPayload) : bytes :=
  ByteWriter.I64 (ld_tip_entry_id p) ++ ByteWriter.Bytes (ld_tip_entry_hash p)
  ++ ByteWriter.Bytes (ld_tip_signature p) ++ ByteWriter.I64 (from_entry_id p)
  ++ enc_list ByteWriter.Bytes (entry_hashes p).
Definition LedgerDigest_Decode : Reader LedgerDigestPayload :=
  (i <-r ByteReader.I64 ;; h <-r ByteReader.Bytes ;; s <-r ByteReader.Bytes ;; f <-r ByteReader.I64 ;;
   l <-r dec_list ByteReader.Bytes ;; rret (mkLedgerDigest i h s f l))%reader.

Record LedgerEntrySummary := mkSummary {
  le_entry_id : Z;
  le_operation : Z;
  le_key_hash : bytes;
  le_entry_hash : bytes;
  le_prev_hash : bytes;
  le_origin_node_id : bytes;
  le_origin_signature : bytes;
  hlc_physical_ms : Z;
  hlc_logical : Z;
  le_collection : bytes;
  le_key : bytes;
  transit_holder : bytes;
  transit_size_bytes : Z;
  transit_chunk_index : Z;
  transit_chunk_total : Z;
  acl_json : bytes;
}.

Record LedgerDeltaPayload := mkLedgerDelta {
  ldl_entries : list LedgerEntrySummary; hashes_only : bool; ldl_tip_signature : bytes }.

(** The fields every version has. *)
Definition LedgerEntry_EncodeV1 (e : LedgerEntrySummary) : bytes :=
  ByteWriter.I64 (le_entry_id e) ++ ByteWriter.U8 (le_operation e) ++ ByteWriter.Bytes (le_key_hash e)
  ++ ByteWriter.Bytes (le_entry_hash e) ++ ByteWriter.Bytes (le_prev_hash e)
  ++ ByteWriter.Bytes (le_origin_node_id e) ++ ByteWriter.Bytes (le_origin_signature e)
  ++ ByteWriter.I64 (hlc_physical_ms e) ++ ByteWriter.U32 (hlc_logical e)
  ++ ByteWriter.Bytes (le_collection e) ++ ByteWriter.Bytes (le_key e).

Definition LedgerEntry_Encode (e : LedgerEntrySummary) : bytes :=
  LedgerEntry_EncodeV1 e ++ ByteWriter.Bytes (transit_holder e) ++ ByteWriter.U64 (transit_size_bytes e)
  ++ ByteWriter.U32 (transit_chunk_index e) ++ ByteWriter.U32 (transit_chunk_total e)
  ++ ByteWriter.Bytes (acl_json e).

Definition LedgerDelta_Encode (p : LedgerDeltaPayload) : bytes :=
  ByteWriter.U32 kLedgerDeltaMagicV2 ++ enc_bool (hashes_only p) ++ enc_list LedgerEntry_Encode (ldl_entries p)
  ++ ByteWriter.Bytes (ldl_tip_signature p).

Definition DecodeLedgerEntryV1 : Reader LedgerEntrySummary :=
  (i <-r ByteReader.I64 ;; op <-r ByteReader.U8 ;; kh <-r ByteReader.Bytes ;; eh <-r ByteReader.Bytes ;;
   ph <-r ByteReader.Bytes ;; o <-r ByteReader.Bytes ;; os <-r ByteReader.Bytes ;; p <-r ByteReader.I64 ;;
   l <-r ByteReader.U32 ;; c <-r ByteReader.Bytes ;; k <-r ByteReader.Bytes ;;
   rret (mkSummary i op kh eh ph o os p l c k [] 0 0 1 []))%reader.

Definition LedgerEntry_Decode : Reader LedgerEntrySummary :=
  (e <-r DecodeLedgerEntryV1 ;; h <-r ByteReader.Bytes ;; size <-r ByteReader.U64 ;;
   ci <-r ByteReader.U32 ;; ct0 <-r ByteReader.U32 ;;
   let ct := if ct0 =? 0 then 1 else ct0 in
   if ct <=? ci then rfail
   else
     acl <-r opt_tail [] ByteReader.Bytes ;;
     rret (mkSummary (le_entry_id e) (le_operation e) (le_key_hash e) (le_entry_hash e) (le_prev_hash e)
             (le_origin_node_id e) (le_origin_signature e) (hlc_physical_ms e) (hlc_logical e)
             (le_collection e) (le_key e) h size ci ct acl))%reader.

Definition LedgerDelta_DecodeV1 : Reader LedgerDeltaPayload :=
  (b <-r dec_bool ;; l <-r dec_list DecodeLedgerEntryV1 ;; rret (mkLedgerDelta l b []))%reader.

Definition LedgerDelta_Decode : Reader LedgerDeltaPayload := fun s =>
  if negb (HasMagic s kLedgerDeltaMagicV2) then LedgerDelta_DecodeV1 s
  else
    (_magic <-r ByteReader.U32 ;; b <-r dec_bool ;; l <-r dec_list LedgerEntry_Decode ;;
     sig <-r opt_tail [] ByteReader.Bytes ;; rret (mkLedgerDelta l b sig))%reader s.

(** ** Heartbeats and summaries *)
Record HeartbeatPayload := mkHeartbeat {
  hb_node_id : bytes;
  hb_ledger_tip_entry_id : Z;
  hb_free_quota_mb : Z;
  hb_quota_limited : bool;
  hb_transit_bytes_held : Z;
  hb_transit_budget_bytes : Z;
  hb_lifecycle_state : Z;
  hb_is_supervisor : bool;
}.

Definition Heartbeat_Encode (h : HeartbeatPayload) : bytes :=
  ByteWriter.Bytes (hb_node_id h) ++ ByteWriter.I64 (hb_ledger_tip_entry_id h)
  ++ ByteWriter.U64 (hb_free_quota_mb h) ++ enc_bool (hb_quota_limited h)
  ++ ByteWriter.U64 (hb_transit_bytes_held h) ++ ByteWriter.U64 (hb_transit_budget_bytes h)
  ++ ByteWriter.U8 (hb_lifecycle_state h) ++ enc_bool (hb_is_supervisor h).

Definition Heartbeat_Decode : Reader HeartbeatPayload :=
  (id <-r ByteReader.Bytes ;; tip <-r ByteReader.I64 ;; free <-r ByteReader.U64 ;;
   lim <-r opt_tail false dec_bool ;; held <-r opt_tail 0 ByteReader.U64 ;;
   budget <-r opt_tail 0 ByteReader.U64 ;; state <-r opt_tail 3 ByteReader.U8 ;;
   sup <-r opt_tail false dec_bool ;; rret (mkHeartbeat id tip free lim held budget state sup))%reader.

Record SyncSummaryPayload := mkSyncSummary { sync_collections : list (bytes * bytes) }.
Definition SyncPair_Encode (p : bytes * bytes) : bytes := ByteWriter.Bytes p.1 ++ ByteWriter.Bytes p.2.
Definition SyncPair_Decode : Reader (bytes * bytes) :=
  (n <-r ByteReader.Bytes ;; c <-r ByteReader.Bytes ;; rret (n, c))%reader.
Definition SyncSummary_Encode (p : SyncSummaryPayload) : bytes := enc_list SyncPair_Encode (sync_collections p).
Definition SyncSummary_Decode : Reader SyncSummaryPayload :=
  (count <-r ByteReader.U32 ;;
   if 1024 <? count then rfail
   else
     l <-r dec_times (Z.to_nat count) SyncPair_Decode ;; rem <-r ByteReader.remaining ;;
     if negb (rem =? 0) then rfail else rret (mkSyncSummary l))%reader.

(** ** The envelope *)

(** A message type is its byte: a received one need not be a known enumerator. *)
Definition kHello : Z := 1.
Definition kDigest : Z := 2.
Definition kDeltaResponse : Z := 3.
Definition kOpBroadcast : Z := 4.
Definition kPing : Z := 5.
Definition kPong : Z := 6.
Definition kError : Z := 7.
Definition kTransitQuery : Z := 8.
Definition kTransitResponse : Z := 9.
Definition kTransitClaim : Z := 10.
Definition kLedgerDigest : Z := 11.
Definition kLedgerDelta : Z := 12.
Definition kHeartbeat : Z := 13.
Definition kMergeReceipt : Z := 14.
Definition kTransitHeld : Z := 15.
Definition kConfirm : Z := 16.
Definition kSyncSummary : Z := 17.

Definition MessageTypeName (type : Z) : bytes :=
  nth (Z.to_nat type)
    [bs "UNKNOWN"; bs "HELLO"; bs "DIGEST"; bs "DELTA_RESPONSE"; bs "OP_BROADCAST"; bs "PING"; bs "PONG"; bs "ERROR";
     bs "TRANSIT_QUERY"; bs "TRANSIT_RESPONSE"; bs "TRANSIT_CLAIM"; bs "LEDGER_DIGEST"; bs "LEDGER_DELTA";
     bs "HEARTBEAT"; bs "MERGE_RECEIPT"; bs "TRANSIT_HELD"; bs "CONFIRM"; bs "SYNC_SUMMARY"] (bs "UNKNOWN").

Record WireMessage := mkMessage { m_type : Z; m_payload : bytes }.

Definition EncodeMessage (m : WireMessage) : bytes := ByteWriter.U8 (m_type m) ++ ByteWriter.RawBytes (m_payload m).

Definition DecodeMessage (s : bytes) : StatusOr WireMessage :=
  match s with
  | [] => Fault kInvalidArgument
  | b :: rest => OK (mkMessage (uc b) rest)
  end.

(** ** Framing *)

(** One call to send: accepts between one and [n] bytes, is to be retried, or fails. *)
Inductive send_event := SSent (n : nat) | SRetry | SFail.

(** One call to recv: delivers up to [n] of the bytes that have arrived (nothing
    yet: the call is made again), is to be retried, sees the peer close, or fails. *)
Inductive recv_event := RData (n : nat) | RRetry | RClosed | RFail.

(** [htonl] and [ntohl]: four bytes, most significant first. *)
Definition be32 (n : Z) : bytes := reverse (le_split 4 n).
Definition of_be32 (s : bytes) : Z := le_combine (reverse s).

Definition frame_bytes (s : bytes) : bytes := be32 (u32 (Zlen s)) ++ s.

(** Outcome and the bytes that left; no outcome: the call is still blocked. *)
Fixpoint send_loop (events : list send_event) (left sent : bytes) : option (StatusOr unit) * bytes :=
  match left with
  | [] => (Some (OK tt), sent)
  | _ =>
      match events with
      | [] => (None, sent)
      | SSent n :: es => let k := Nat.max 1 n in send_loop es (drop k left) (sent ++ take k left)
      | SRetry :: es => send_loop es left sent
      | SFail :: _ => (Some (Fault kNetworkError), sent)
      end
  end.

Definition WriteFrame (events : list send_event) (s : bytes) : option (StatusOr unit) * bytes :=
  send_loop events (frame_bytes s) [].

(** Reads [want] bytes, at most [kRecvChunk] at a time.  Outcome, input left, events left. *)
Definition kRecvChunk : nat := Z.to_nat 65536.

Fixpoint recv_loop (events : list recv_event) (want : nat) (inp got : bytes)
  : option (StatusOr bytes) * bytes * list recv_event :=
  match want with
  | O => (Some (OK got), inp, events)
  | _ =>
      match events with
      | [] => (None, inp, [])
      | RData n :: es =>
          let k := Nat.min (Nat.max 1 n) (Nat.min (Nat.min want kRecvChunk) (length inp)) in
          recv_loop es (want - k) (drop k inp) (got ++ take k inp)
      | RRetry :: es => recv_loop es want inp got
      | RClosed :: es => (Some (Fault kNetworkError), inp, es)
      | RFail :: es => (Some (Fault kNetworkError), inp, es)
      end
  end.

Definition ReadFrame (events : list recv_event) (inp : bytes) (max_len : Z)
  : option (StatusOr bytes) * bytes * list recv_event :=
  match recv_loop events 4 inp [] with
  | (Some (OK hdr), inp1, es1) =>
      let len := of_be32 hdr in
      if max_len <? len then (Some (Fault kInvalidArgument), inp1, es1)
      else recv_loop es1 (Z.to_nat len) inp1 []
  | r => r
  end.
