(* ===== verification/WireProps.v ===== *)
(** * The wire protocol: round trips, versions, framing *)
From coqutil Require Import Word.LittleEndianList.
From S2P Require Import Prelude Bytes Receipt WireProtocol.
Local Open Scope Z_scope.

(** ** Codec combinators *)
Lemma enc_bool_length b : length (enc_bool b) = 1%nat.
Proof. apply U8_length. Qed.

#[export] Instance bool_round_trip : RoundTrip enc_bool dec_bool (fun _ => True).
Proof.
  intros b rest _. unfold dec_bool, enc_bool, rbind.
  rewrite (round_trip (dec := ByteReader.U8)) by (destruct b; vm_compute; done). by destruct b.
Qed.

Section ListCodec.
Context {A : Type} (enc : A -> bytes) (dec : Reader A) (wf : A -> Prop) `{!RoundTrip enc dec wf}.

Lemma dec_times_round l rest :
  Forall wf l -> dec_times (length l) dec (concat (map enc l) ++ rest) = Some (l, rest).
Proof.
  induction 1 as [|a l Ha _ IH]; [done|]. cbn [length dec_times concat map]. unfold rbind.
  rewrite <- app_assoc, round_trip by done. by rewrite IH.
Qed.

#[export] Instance list_round_trip :
  RoundTrip (enc_list enc) (dec_list dec) (fun l => Zlen l < 2 ^ 32 /\ Forall wf l).
Proof.
  intros l rest [Hl Hw]. unfold enc_list, dec_list, rbind. rewrite <- app_assoc.
  assert (u32 (Zlen l) = Zlen l) as -> by (apply wrap_id; split; [apply Zlen_nonneg|done]).
  rewrite round_trip by (split; [apply Zlen_nonneg|done]). unfold Zlen. rewrite Nat2Z.id.
  by apply dec_times_round.
Qed.
End ListCodec.

(** An encoding that is never empty makes the optional tail present. *)
Class NonEmptyEnc {A} (enc : A -> bytes) : Prop := enc_nonempty : forall a, enc a <> [].

#[export] Instance Bytes_nonempty : NonEmptyEnc ByteWriter.Bytes.
Proof. intros s E. apply (f_equal length) in E. rewrite Bytes_length in E. cbn in E. lia. Qed.
#[export] Instance U8_nonempty : NonEmptyEnc ByteWriter.U8.
Proof. intros s E. apply (f_equal length) in E. by rewrite U8_length in E. Qed.
#[export] Instance U64_nonempty : NonEmptyEnc ByteWriter.U64.
Proof. intros s E. apply (f_equal length) in E. by rewrite U64_length in E. Qed.
#[export] Instance bool_nonempty : NonEmptyEnc enc_bool.
Proof. intros s E. apply (f_equal length) in E. by rewrite enc_bool_length in E. Qed.

Lemma remaining_pos {A} (enc : A -> bytes) `{!NonEmptyEnc enc} a rest : (0 <? Zlen (enc a ++ rest)) = true.
Proof.
  apply Z.ltb_lt. unfold Zlen. rewrite length_app. pose proof (enc_nonempty a).
  destruct (enc a); [done|]. cbn. lia.
Qed.

#[export] Instance opt_tail_round_trip {A} (enc : A -> bytes) (dec : Reader A) wf d
  `{!RoundTrip enc dec wf} `{!NonEmptyEnc enc} : RoundTrip enc (opt_tail d dec) wf.
Proof.
  intros a rest Ha. unfold opt_tail, rbind, ByteReader.remaining. rewrite (remaining_pos enc). by apply round_trip.
Qed.

(** An absent tail takes its default. *)
Lemma opt_tail_absent {A} (d : A) dec : opt_tail d dec [] = Some (d, []).
Proof. done. Qed.

(** ** Payload round trips *)
Ltac wire := repeat (read_step ltac:(done)).

Definition hello_ok (h : HelloPayload) : Prop :=
  blob_ok (h_node_id h) /\ blob_ok (h_ed25519_pubkey h) /\ blob_ok (x25519_ephemeral_pubkey h)
  /\ blob_ok (h_signature h) /\ fits 16 (h_p2p_port h) /\ blob_ok (membership_tag h).

#[export] Instance hello_round_trip : RoundTrip Hello_Encode Hello_Decode hello_ok.
Proof.
  intros [id pk eph sig port tag] rest (H1 & H2 & H3 & H4 & H5 & H6). cbn in *.
  unfold Hello_Encode, Hello_Decode. cbn. wire. done.
Qed.

#[export] Instance confirm_round_trip :
  RoundTrip Confirm_Encode Confirm_Decode (fun c => blob_ok (transcript_signature c)).
Proof. intros [s] rest H. cbn in H. unfold Confirm_Encode, Confirm_Decode. cbn [transcript_signature]. wire. done. Qed.

#[export] Instance digest_entry_round_trip :
  RoundTrip DigestEntry_Encode DigestEntry_Decode
    (fun e => blob_ok (de_key e) /\ blob_ok (top_ts_encoded e) /\ blob_ok (de_content_hash e)).
Proof.
  intros [k t h] rest (H1 & H2 & H3). cbn in *. unfold DigestEntry_Encode, DigestEntry_Decode. cbn. wire. done.
Qed.

Definition list_ok {A} (wf : A -> Prop) (l : list A) : Prop := Zlen l < 2 ^ 32 /\ Forall wf l.

Definition digest_ok (d : DigestPayload) : Prop :=
  blob_ok (dg_collection d)
  /\ list_ok (fun e => blob_ok (de_key e) /\ blob_ok (top_ts_encoded e) /\ blob_ok (de_content_hash e)) (dg_entries d).

#[export] Instance digest_round_trip : RoundTrip Digest_Encode Digest_Decode digest_ok.
Proof.
  intros [c l] rest (H1 & H2). cbn in *. unfold Digest_Encode, Digest_Decode. cbn. wire. done.
Qed.

#[export] Instance doc_entry_round_trip :
  RoundTrip DocEntry_Encode DocEntry_Decode (fun e => blob_ok (doc_key e) /\ blob_ok (encoded_doc e)).
Proof. intros [k d] rest (H1 & H2). cbn in *. unfold DocEntry_Encode, DocEntry_Decode. cbn. wire. done. Qed.

Definition docs_ok : list DocEntry -> Prop := list_ok (fun e => blob_ok (doc_key e) /\ blob_ok (encoded_doc e)).

Definition delta_ok (d : DeltaResponsePayload) : Prop :=
  blob_ok (dr_collection d) /\ docs_ok (pushed d) /\ list_ok blob_ok (wanted_keys d).

#[export] Instance delta_round_trip : RoundTrip Delta_Encode Delta_Decode delta_ok.
Proof.
  intros [c l w] rest (H1 & H2 & H3). cbn in *. unfold Delta_Encode, Delta_Decode. cbn. wire. done.
Qed.

Definition broadcast_ok (o : OpBroadcastPayload) : Prop :=
  blob_ok (ob_collection o) /\ docs_ok (ob_docs o) /\ blob_ok (ob_message_id o) /\ fits 8 (ob_ttl o).

#[export] Instance broadcast_round_trip : RoundTrip Broadcast_Encode Broadcast_Decode broadcast_ok.
Proof.
  intros [c l m t] rest (H1 & H2 & H3 & H4). cbn in *. unfold Broadcast_Encode, Broadcast_Decode. cbn.
  do 2 read_step ltac:(done). unfold rbind at 1, ByteReader.remaining. cbv beta iota.
  rewrite <- ?app_assoc, (remaining_pos ByteWriter.Bytes). wire. done.
Qed.

#[export] Instance query_round_trip : RoundTrip Query_Encode Query_Decode (fun q => fits 64 (tq_offset q)).
Proof. intros [o] rest H. cbn in *. unfold Query_Encode, Query_Decode. cbn [tq_offset]. wire. done. Qed.

Lemma HasMagic_app m rest : fits 32 m -> HasMagic (ByteWriter.U32 m ++ rest) m = true.
Proof.
  intros Hm. unfold HasMagic, Zlen. rewrite length_app, U32_length.
  destruct (Z.ltb_spec (Z.of_nat (4 + length rest)) 4); [lia|].
  rewrite take_app_length' by (by rewrite U32_length). rewrite le_combine_U32 by done. apply Z.eqb_refl.
Qed.

Definition transit_entry_ok (e : TransitEntry) : Prop :=
  blob_ok (te_collection e) /\ blob_ok (te_key e) /\ blob_ok (te_key_hash e) /\ blob_ok (te_encoded_doc e)
  /\ sfits 64 (te_intent_lsn e) /\ blob_ok (te_holder_node e) /\ fits 64 (te_doc_size_bytes e)
  /\ fits 32 (te_chunk_index e) /\ fits 32 (te_chunk_total e) /\ te_chunk_index e < te_chunk_total e
  /\ blob_ok (te_content_hash e) /\ blob_ok (te_holder_sig e).

(** The decoder's repair of a zero chunk count and its range check. *)
Lemma chunk_checked ci ct : 0 <= ci < ct -> (if ct =? 0 then 1 else ct) = ct /\ (ct <=? ci) = false.
Proof. intros H. destruct (Z.eqb_spec ct 0); [lia|]. split; [done|]. apply Z.leb_gt. lia. Qed.

#[export] Instance transit_entry_round_trip : RoundTrip TransitEntry_Encode TransitEntry_Decode transit_entry_ok.
Proof.
  intros [c k kh d lsn h size ci ct hash sig] rest (H1 & H2 & H3 & H4 & H5 & H6 & H7 & H8 & H9 & H10 & H11 & H12).
  cbn in *. unfold TransitEntry_Encode, TransitEntry_Decode. cbn -[Z.eqb Z.leb]. do 9 read_step ltac:(done).
  destruct (chunk_checked ci ct) as [-> ->]; [unfold fits in *; lia|]. wire. done.
Qed.

Definition transit_response_ok (p : TransitResponsePayload) : Prop :=
  list_ok transit_entry_ok (tr_entries p) /\ fits 64 (next_offset p).

#[export] Instance transit_response_round_trip :
  RoundTrip TransitResponse_Encode TransitResponse_Decode transit_response_ok.
Proof.
  intros [l t n] rest (H1 & H2). cbn in *. unfold TransitResponse_Encode, TransitResponse_Decode.
  cbn [tr_entries truncated next_offset]. rewrite <- app_assoc, HasMagic_app by (vm_compute; done). cbn [negb].
  read_step ltac:(vm_compute; done). wire. done.
Qed.

#[export] Instance claim_round_trip :
  RoundTrip Claim_Encode Claim_Decode (fun p => blob_ok (claimer_node p) /\ list_ok blob_ok (key_hashes p)).
Proof. intros [l c] rest (H1 & H2). cbn in *. unfold Claim_Encode, Claim_Decode. cbn. wire. done. Qed.

Definition held_ok (p : TransitHeldPayload) : Prop :=
  blob_ok (th_message_id p) /\ blob_ok (th_key_hash p) /\ blob_ok (th_holder_node p)
  /\ sfits 64 (th_intent_lsn p) /\ blob_ok (th_signature p).

#[export] Instance held_round_trip : RoundTrip Held_Encode Held_Decode held_ok.
Proof. intros [m k h l s] rest (H1 & H2 & H3 & H4 & H5). cbn in *. unfold Held_Encode, Held_Decode. cbn. wire. done. Qed.

Definition receipt_ok (m : MergeReceipt) : Prop :=
  blob_ok (mr_message_id m) /\ blob_ok (mr_key_hash m) /\ blob_ok (applier_node m)
  /\ sfits 64 (applied_lsn m) /\ blob_ok (mr_signature m).

#[export] Instance receipt_round_trip : RoundTrip Receipt_Encode Receipt_Decode receipt_ok.
Proof.
  intros [m k a l s] rest (H1 & H2 & H3 & H4 & H5). cbn in *. unfold Receipt_Encode, Receipt_Decode. cbn. wire. done.
Qed.

Definition ledger_digest_ok (p : LedgerDigestPayload) : Prop :=
  sfits 64 (ld_tip_entry_id p) /\ blob_ok (ld_tip_entry_hash p) /\ blob_ok (ld_tip_signature p)
  /\ sfits 64 (from_entry_id p) /\ list_ok blob_ok (entry_hashes p).

#[export] Instance ledger_digest_round_trip : RoundTrip LedgerDigest_Encode LedgerDigest_Decode ledger_digest_ok.
Proof.
  intros [i h s f l] rest (H1 & H2 & H3 & H4 & H5). cbn in *. unfold LedgerDigest_Encode, LedgerDigest_Decode. cbn.
  wire. done.
Qed.

(** The part of an entry both versions carry; the rest is at its default. *)
Definition entry_v1 (e : LedgerEntrySummary) : LedgerEntrySummary :=
  mkSummary (le_entry_id e) (le_operation e) (le_key_hash e) (le_entry_hash e) (le_prev_hash e)
    (le_origin_node_id e) (le_origin_signature e) (hlc_physical_ms e) (hlc_logical e)
    (le_collection e) (le_key e) [] 0 0 1 [].

Definition entry_v1_ok (e : LedgerEntrySummary) : Prop :=
  sfits 64 (le_entry_id e) /\ fits 8 (le_operation e) /\ blob_ok (le_key_hash e) /\ blob_ok (le_entry_hash e)
  /\ blob_ok (le_prev_hash e) /\ blob_ok (le_origin_node_id e) /\ blob_ok (le_origin_signature e)
  /\ sfits 64 (hlc_physical_ms e) /\ fits 32 (hlc_logical e) /\ blob_ok (le_collection e) /\ blob_ok (le_key e).

Lemma entry_v1_decode e rest :
  entry_v1_ok e -> DecodeLedgerEntryV1 (LedgerEntry_EncodeV1 e ++ rest) = Some (entry_v1 e, rest).
Proof.
  destruct e as [i op kh eh ph o os p l c k ? ? ? ? ?].
  intros (H1 & H2 & H3 & H4 & H5 & H6 & H7 & H8 & H9 & H10 & H11). cbn in *.
  unfold LedgerEntry_EncodeV1, DecodeLedgerEntryV1. cbn. wire. done.
Qed.

Definition ledger_entry_ok (e : LedgerEntrySummary) : Prop :=
  entry_v1_ok e /\ blob_ok (transit_holder e) /\ fits 64 (transit_size_bytes e)
  /\ fits 32 (transit_chunk_index e) /\ fits 32 (transit_chunk_total e)
  /\ transit_chunk_index e < transit_chunk_total e /\ blob_ok (acl_json e).

#[export] Instance ledger_entry_round_trip : RoundTrip LedgerEntry_Encode LedgerEntry_Decode ledger_entry_ok.
Proof.
  intros e rest (H1 & H2 & H3 & H4 & H5 & H6 & H7). unfold LedgerEntry_Encode, LedgerEntry_Decode.
  unfold rbind at 1. rewrite <- app_assoc, entry_v1_decode by done. cbv beta iota. do 4 read_step ltac:(done).
  destruct (chunk_checked (transit_chunk_index e) (transit_chunk_total e)) as [-> ->]; [unfold fits in *; lia|].
  wire. by destruct e.
Qed.

Definition ledger_delta_ok (p : LedgerDeltaPayload) : Prop :=
  list_ok ledger_entry_ok (ldl_entries p) /\ blob_ok (ldl_tip_signature p).

#[export] Instance ledger_delta_round_trip : RoundTrip LedgerDelta_Encode LedgerDelta_Decode ledger_delta_ok.
Proof.
  intros [l b s] rest (H1 & H2). cbn in *. unfold LedgerDelta_Encode, LedgerDelta_Decode.
  cbn [ldl_entries hashes_only ldl_tip_signature]. rewrite <- app_assoc, HasMagic_app by (vm_compute; done).
  cbn [negb]. read_step ltac:(vm_compute; done). wire. done.
Qed.

Definition heartbeat_ok (h : HeartbeatPayload) : Prop :=
  blob_ok (hb_node_id h) /\ sfits 64 (hb_ledger_tip_entry_id h) /\ fits 64 (hb_free_quota_mb h)
  /\ fits 64 (hb_transit_bytes_held h) /\ fits 64 (hb_transit_budget_bytes h) /\ fits 8 (hb_lifecycle_state h).

#[export] Instance heartbeat_round_trip : RoundTrip Heartbeat_Encode Heartbeat_Decode heartbeat_ok.
Proof.
  intros [id tip free lim held budget st sup] rest (H1 & H2 & H3 & H4 & H5 & H6). cbn in *.
  unfold Heartbeat_Encode, Heartbeat_Decode. cbn -[enc_bool]. wire. done.
Qed.

#[export] Instance sync_pair_round_trip :
  RoundTrip SyncPair_Encode SyncPair_Decode (fun p => blob_ok p.1 /\ blob_ok p.2).
Proof. intros [n c] rest (H1 & H2). cbn in *. unfold SyncPair_Encode, SyncPair_Decode. cbn. wire. done. Qed.

Definition sync_ok (p : SyncSummaryPayload) : Prop :=
  Zlen (sync_collections p) <= 1024 /\ Forall (fun p => blob_ok p.1 /\ blob_ok p.2) (sync_collections p).

(** The summary is the one payload that refuses trailing bytes. *)
Lemma sync_round p : sync_ok p -> SyncSummary_Decode (SyncSummary_Encode p) = Some (p, []).
Proof.
  destruct p as [l]. intros [Hl Hw]. cbn in *. unfold SyncSummary_Encode, SyncSummary_Decode, enc_list.
  cbn [sync_collections]. assert (u32 (Zlen l) = Zlen l) as -> by (apply wrap_id; split; [apply Zlen_nonneg|lia]).
  read_step ltac:(split; [apply Zlen_nonneg|lia]). rewrite (proj2 (Z.ltb_ge _ _)) by done. unfold rbind at 1.
  unfold Zlen. rewrite Nat2Z.id, <- (app_nil_r (concat _)), (dec_times_round _ _ _ l []) by done. done.
Qed.

(** A summary of more than 1024 collections, which its writer does not bound, is refused. *)
Theorem long_summary_refused p : 1024 < Zlen (sync_collections p) < 2 ^ 32 -> SyncSummary_Decode (SyncSummary_Encode p) = None.
Proof.
  destruct p as [l]. cbn. intros Hl. unfold SyncSummary_Encode, SyncSummary_Decode, enc_list.
  cbn [sync_collections]. assert (u32 (Zlen l) = Zlen l) as -> by (apply wrap_id; split; [apply Zlen_nonneg|lia]).
  read_step ltac:(split; [apply Zlen_nonneg|lia]). by rewrite (proj2 (Z.ltb_lt _ _)) by lia.
Qed.

(** ** Messages *)

(** A message with its payload decoded, as its handler sees it.  Pings, pongs and
    errors carry plain text. *)
Inductive Payload :=
  | PHello (p : HelloPayload)
  | PDigest (p : DigestPayload)
  | PDelta (p : DeltaResponsePayload)
  | PBroadcast (p : OpBroadcastPayload)
  | PText (type : Z) (s : bytes)
  | PQuery (p : TransitQueryPayload)
  | PTransit (p : TransitResponsePayload)
  | PClaim (p : TransitClaimPayload)
  | PLedgerDigest (p : LedgerDigestPayload)
  | PLedgerDelta (p : LedgerDeltaPayload)
  | PHeartbeat (p : HeartbeatPayload)
  | PReceipt (p : MergeReceipt)
  | PHeld (p : TransitHeldPayload)
  | PConfirm (p : ConfirmPayload)
  | PSync (p : SyncSummaryPayload).

Definition to_message (p : Payload) : WireMessage :=
  match p with
  | PHello p => mkMessage kHello (Hello_Encode p)
  | PDigest p => mkMessage kDigest (Digest_Encode p)
  | PDelta p => mkMessage kDeltaResponse (Delta_Encode p)
  | PBroadcast p => mkMessage kOpBroadcast (Broadcast_Encode p)
  | PText type s => mkMessage type s
  | PQuery p => mkMessage kTransitQuery (Query_Encode p)
  | PTransit p => mkMessage kTransitResponse (TransitResponse_Encode p)
  | PClaim p => mkMessage kTransitClaim (Claim_Encode p)
  | PLedgerDigest p => mkMessage kLedgerDigest (LedgerDigest_Encode p)
  | PLedgerDelta p => mkMessage kLedgerDelta (LedgerDelta_Encode p)
  | PHeartbeat p => mkMessage kHeartbeat (Heartbeat_Encode p)
  | PReceipt p => mkMessage kMergeReceipt (Receipt_Encode p)
  | PHeld p => mkMessage kTransitHeld (Held_Encode p)
  | PConfirm p => mkMessage kConfirm (Confirm_Encode p)
  | PSync p => mkMessage kSyncSummary (SyncSummary_Encode p)
  end.

Definition of_message (m : WireMessage) : option Payload :=
  let s := m_payload m in
  let t := m_type m in
  if t =? kHello then PHello <$> run_decoder Hello_Decode s
  else if t =? kDigest then PDigest <$> run_decoder Digest_Decode s
  else if t =? kDeltaResponse then PDelta <$> run_decoder Delta_Decode s
  else if t =? kOpBroadcast then PBroadcast <$> run_decoder Broadcast_Decode s
  else if t =? kTransitQuery then PQuery <$> run_decoder Query_Decode s
  else if t =? kTransitResponse then PTransit <$> run_decoder TransitResponse_Decode s
  else if t =? kTransitClaim then PClaim <$> run_decoder Claim_Decode s
  else if t =? kLedgerDigest then PLedgerDigest <$> run_decoder LedgerDigest_Decode s
  else if t =? kLedgerDelta then PLedgerDelta <$> run_decoder LedgerDelta_Decode s
  else if t =? kHeartbeat then PHeartbeat <$> run_decoder Heartbeat_Decode s
  else if t =? kMergeReceipt then PReceipt <$> run_decoder Receipt_Decode s
  else if t =? kTransitHeld then PHeld <$> run_decoder Held_Decode s
  else if t =? kConfirm then PConfirm <$> run_decoder Confirm_Decode s
  else if t =? kSyncSummary then PSync <$> run_decoder SyncSummary_Decode s
  else Some (PText t s).

Definition wire_ok (p : Payload) : Prop :=
  match p with
  | PHello p => hello_ok p
  | PDigest p => digest_ok p
  | PDelta p => delta_ok p
  | PBroadcast p => broadcast_ok p
  | PText t _ => t = kPing \/ t = kPong \/ t = kError
  | PQuery p => fits 64 (tq_offset p)
  | PTransit p => transit_response_ok p
  | PClaim p => blob_ok (claimer_node p) /\ list_ok blob_ok (key_hashes p)
  | PLedgerDigest p => ledger_digest_ok p
  | PLedgerDelta p => ledger_delta_ok p
  | PHeartbeat p => heartbeat_ok p
  | PReceipt p => receipt_ok p
  | PHeld p => held_ok p
  | PConfirm p => blob_ok (transcript_signature p)
  | PSync p => sync_ok p
  end.

Lemma run_round_trip {A} (enc : A -> bytes) (dec : Reader A) wf `{!RoundTrip enc dec wf} a :
  wf a -> run_decoder dec (enc a) = Some a.
Proof. intros H. unfold run_decoder. by rewrite (round_trip_end enc dec wf). Qed.

Lemma of_to_message p : wire_ok p -> of_message (to_message p) = Some p.
Proof.
  destruct p; cbn [wire_ok to_message]; intros H; unfold of_message; cbn [m_type m_payload]; cbn [Z.eqb];
    try (unfold run_decoder; rewrite sync_round by done; done);
    try (first [ rewrite (run_round_trip Hello_Encode Hello_Decode hello_ok) by done
               | rewrite (run_round_trip Digest_Encode Digest_Decode digest_ok) by done
               | rewrite (run_round_trip Delta_Encode Delta_Decode delta_ok) by done
               | rewrite (run_round_trip Broadcast_Encode Broadcast_Decode broadcast_ok) by done
               | rewrite (run_round_trip Query_Encode Query_Decode _) by done
               | rewrite (run_round_trip TransitResponse_Encode TransitResponse_Decode _) by done
               | rewrite (run_round_trip Claim_Encode Claim_Decode _) by done
               | rewrite (run_round_trip LedgerDigest_Encode LedgerDigest_Decode _) by done
               | rewrite (run_round_trip LedgerDelta_Encode LedgerDelta_Decode _) by done
               | rewrite (run_round_trip Heartbeat_Encode Heartbeat_Decode _) by done
               | rewrite (run_round_trip Receipt_Encode Receipt_Decode _) by done
               | rewrite (run_round_trip Held_Encode Held_Decode _) by done
               | rewrite (run_round_trip Confirm_Encode Confirm_Decode _) by done ]; done).
  destruct H as [->|[->| ->]]; done.
Qed.

Lemma DecodeMessage_Encode m : fits 8 (m_type m) -> DecodeMessage (EncodeMessage m) = OK m.
Proof.
  intros H. destruct m as [t s]. unfold EncodeMessage, DecodeMessage, ByteWriter.U8, ByteWriter.RawBytes. cbn in *.
  f_equal. f_equal. unfold uc. rewrite byte.unsigned_of_Z. unfold byte.wrap. by apply Z.mod_small.
Qed.

(** ** Framing *)
Lemma of_be32_be32 n : fits 32 n -> of_be32 (be32 n) = n.
Proof.
  intros H. unfold of_be32, be32. rewrite reverse_involutive. rewrite le_combine_split. by apply Z.mod_small.
Qed.

Lemma be32_length n : length (be32 n) = 4%nat.
Proof. unfold be32. rewrite length_reverse. apply length_le_split. Qed.

Lemma send_loop_ok events left sent out :
  send_loop events left sent = (Some (OK tt), out) -> out = sent ++ left.
Proof.
  revert left sent. induction events as [|e es IH]; intros left sent; destruct left as [|b left]; cbn [send_loop];
    try (intros [= <-]; by rewrite app_nil_r).
  destruct e as [n| |]; [|apply IH|done]. intros H%IH. rewrite H, <- app_assoc. by rewrite take_drop.
Qed.

(** The deliveries among the events, none of which ends the connection. *)
Fixpoint deliveries (events : list recv_event) : option nat :=
  match events with
  | [] => Some O
  | RData _ :: es => S <$> deliveries es
  | RRetry :: es => deliveries es
  | _ :: _ => None
  end.

Lemma kRecvChunk_pos : (0 < kRecvChunk)%nat.
Proof. unfold kRecvChunk. lia. Qed.

(** Enough deliveries bring what was asked for, in whatever pieces. *)
Lemma recv_loop_ok events d rest got n :
  deliveries events = Some n -> (length d <= n)%nat ->
  exists es, recv_loop events (length d) (d ++ rest) got = (Some (OK (got ++ d)), rest, es)
    /\ exists m, deliveries es = Some m /\ (n <= m + length d)%nat.
Proof.
  revert d got n. induction events as [|e es IH]; intros d got n Hn Hd.
  - cbn in Hn. simplify_eq. destruct d; [|cbn in Hd; lia]. exists []. cbn. rewrite app_nil_r. split; [done|].
    exists 0%nat. split; [done|lia].
  - destruct d as [|b d'] eqn:Ed.
    { exists (e :: es). cbn [length recv_loop]. rewrite app_nil_r. split; [done|]. exists n. split; [done|cbn; lia]. }
    rewrite <- Ed in *. assert (0 < length d)%nat as Hpos by (subst; cbn; lia). clear Ed.
    destruct (length d) as [|w] eqn:Ew; [lia|]. destruct e as [k| | |]; cbn [deliveries] in Hn; try done; cbn [recv_loop].
    + apply fmap_Some in Hn as (n' & Hn' & ->). pose proof kRecvChunk_pos.
      set (j := Nat.min (Nat.max 1 k) (Nat.min (Nat.min (S w) kRecvChunk) (length (d ++ rest)))).
      assert (0 < j <= length d)%nat as Hj by (unfold j; rewrite length_app; lia).
      rewrite drop_app_le, take_app_le by lia.
      assert (S w - j = length (drop j d))%nat as -> by (rewrite length_drop; lia).
      destruct (IH (drop j d) (got ++ take j d) n' Hn') as (es' & E & m & Hm & Hle); [rewrite length_drop; lia|].
      exists es'. rewrite E, <- app_assoc, take_drop. split; [done|]. exists m. split; [done|].
      rewrite length_drop in Hle. lia.
    + destruct (IH d got n Hn) as (es' & E & m & Hm & Hle); [lia|]. rewrite Ew in E, Hle. by eauto.
Qed.

Lemma ReadFrame_ok events s rest max_len n :
  Zlen s < 2 ^ 32 -> Zlen s <= max_len -> deliveries events = Some n -> (4 + length s <= n)%nat ->
  exists es, ReadFrame events (frame_bytes s ++ rest) max_len = (Some (OK s), rest, es)
    /\ exists m, deliveries es = Some m /\ (n <= m + (4 + length s))%nat.
Proof.
  intros Hs Hmax Hn Hle. unfold ReadFrame, frame_bytes.
  assert (u32 (Zlen s) = Zlen s) as -> by (apply wrap_id; split; [apply Zlen_nonneg|done]).
  rewrite <- app_assoc.
  destruct (recv_loop_ok events (be32 (Zlen s)) (s ++ rest) [] n Hn) as (es1 & E1 & m1 & Hm1 & Hle1);
    [rewrite be32_length; lia|].
  rewrite be32_length in E1. rewrite E1. cbn [app]. rewrite of_be32_be32 by (split; [apply Zlen_nonneg|done]).
  rewrite (proj2 (Z.ltb_ge _ _)) by done. unfold Zlen. rewrite Nat2Z.id. rewrite be32_length in Hle1.
  destruct (recv_loop_ok es1 s rest [] m1 Hm1) as (es2 & E2 & m2 & Hm2 & Hle2); [lia|].
  exists es2. rewrite E2. split; [done|]. exists m2. split; [done|lia].
Qed.

(** A frame longer than the cap is refused before any of its body is read. *)
Lemma ReadFrame_oversize events s rest max_len n :
  Zlen s < 2 ^ 32 -> max_len < Zlen s -> deliveries events = Some n -> (4 <= n)%nat ->
  exists es, ReadFrame events (frame_bytes s ++ rest) max_len = (Some (Fault kInvalidArgument), s ++ rest, es).
Proof.
  intros Hs Hmax Hn Hle. unfold ReadFrame, frame_bytes.
  assert (u32 (Zlen s) = Zlen s) as -> by (apply wrap_id; split; [apply Zlen_nonneg|done]).
  rewrite <- app_assoc.
  destruct (recv_loop_ok events (be32 (Zlen s)) (s ++ rest) [] n Hn) as (es1 & E1 & _); [rewrite be32_length; lia|].
  rewrite be32_length in E1. rewrite E1. cbn [app]. rewrite of_be32_be32 by (split; [apply Zlen_nonneg|done]).
  rewrite (proj2 (Z.ltb_lt _ _)) by done. by exists es1.
Qed.

(** ** A connection: many messages *)
Fixpoint send_all (scripts : list (list send_event)) (ps : list Payload) : option bytes :=
  match scripts, ps with
  | _, [] => Some []
  | es :: scripts', p :: ps' =>
      match WriteFrame es (EncodeMessage (to_message p)) with
      | (Some (OK _), out) => app out <$> send_all scripts' ps'
      | _ => None
      end
  | [], _ => None
  end.

Fixpoint receive_all (k : nat) (events : list recv_event) (inp : bytes) (max_len : Z) : option (list Payload) :=
  match k with
  | O => Some []
  | S k' =>
      match ReadFrame events inp max_len with
      | (Some (OK s), inp', events') =>
          match DecodeMessage s with
          | OK m => p ← of_message m; ps ← receive_all k' events' inp' max_len; Some (p :: ps)
          | Fault _ => None
          end
      | _ => None
      end
  end.

Definition size_ok (max_len : Z) (p : Payload) : Prop :=
  wire_ok p /\ Zlen (EncodeMessage (to_message p)) < 2 ^ 32 /\ Zlen (EncodeMessage (to_message p)) <= max_len.

Lemma to_message_type p : wire_ok p -> fits 8 (m_type (to_message p)).
Proof. destruct p; intros H; try (vm_compute; done). destruct H as [->|[->| ->]]; vm_compute; done. Qed.

(** C27: whatever pieces the sockets accept and deliver the bytes in, a connection hands the
    receiver exactly the messages that were written, of every type, in order: envelope,
    payload codec and framing compose to the identity. Conditions: every message is within
    the receiver's frame limit and 2^32 bytes; its fields are within their widths and
    decoder limits, in particular at most 1024 collections in a sync summary (a longer one
    is written and refused, [long_summary_refused]) and a chunk index below the number of
    chunks; the writes complete, and the deliveries amount to what was written. The receiver
    decodes each payload by the decoder its handler calls for the message type; [of_message]
    collects these calls. *)
Theorem wire_messages_delivered scripts ps events inp max_len :
  Forall (size_ok max_len) ps -> send_all scripts ps = Some inp ->
  (exists n, deliveries events = Some n /\ (length inp <= n)%nat) ->
  receive_all (length ps) events inp max_len = Some ps.
Proof.
  intros Hok. revert scripts events inp. induction Hok as [|p ps (Hw & Hs & Hm) _ IH]; intros scripts events inp Hsend Hdel.
  { done. }
  destruct scripts as [|es scripts]; [done|]. cbn [send_all] in Hsend.
  destruct (WriteFrame es _) as [[[u|c]|] out] eqn:Ew; try done. apply fmap_Some in Hsend as (inp' & Hs' & ->).
  destruct u. apply send_loop_ok in Ew. cbn [app] in Ew. subst out.
  destruct Hdel as (n & Hn & Hle). rewrite length_app in Hle. unfold frame_bytes in Hle.
  rewrite length_app, be32_length in Hle. cbn [length receive_all].
  destruct (ReadFrame_ok events (EncodeMessage (to_message p)) inp' max_len n) as (es' & E & m & Hm' & Hle');
    [done|done|done|lia|].
  rewrite E, DecodeMessage_Encode by (by apply to_message_type). rewrite of_to_message by done. cbn [mbind option_bind].
  rewrite (IH scripts es' inp' Hs'); [done|]. exists m. split; [done|lia].
Qed.

(** ** Versions *)

(** A delta as an old peer encodes it: no magic, entries without the routing tail. *)
Definition LedgerDelta_EncodeV1 (p : LedgerDeltaPayload) : bytes :=
  enc_bool (hashes_only p) ++ enc_list LedgerEntry_EncodeV1 (ldl_entries p).

Lemma le_combine_head b l : le_combine (b :: l) mod 256 = uc b.
Proof.
  change 256 with (2 ^ (8 * Z.of_nat 1)). rewrite <- le_combine_firstn.
  change (Z.lor (uc b) 0 = uc b). apply Z.lor_0_r.
Qed.

Lemma v1_delta_no_magic p : HasMagic (LedgerDelta_EncodeV1 p) kLedgerDeltaMagicV2 = false.
Proof.
  unfold HasMagic, LedgerDelta_EncodeV1. destruct (_ <? 4); [done|]. apply Z.eqb_neq. intros H.
  unfold enc_bool in H.
  change (take 4 (ByteWriter.U8 ?v ++ ?r)) with (byte.of_Z v :: take 3 r) in H.
  apply (f_equal (fun z => z mod 256)) in H. rewrite le_combine_head in H. by destruct (hashes_only p).
Qed.

(** A ledger delta from a peer of the previous version is never mistaken for a
    current one, and decodes to its entries with the routing fields at their
    whole-document defaults. *)
Theorem old_ledger_delta_decodes p :
  list_ok entry_v1_ok (ldl_entries p) ->
  run_decoder LedgerDelta_Decode (LedgerDelta_EncodeV1 p)
  = Some (mkLedgerDelta (map entry_v1 (ldl_entries p)) (hashes_only p) []).
Proof.
  intros [Hl Hw]. unfold run_decoder, LedgerDelta_Decode. rewrite v1_delta_no_magic. cbn [negb].
  unfold LedgerDelta_EncodeV1, LedgerDelta_DecodeV1, enc_list, dec_list. read_step ltac:(done).
  assert (u32 (Zlen (ldl_entries p)) = Zlen (ldl_entries p)) as -> by (apply wrap_id; split; [apply Zlen_nonneg|done]).
  unfold rbind. rewrite round_trip by (split; [apply Zlen_nonneg|done]). unfold Zlen. rewrite Nat2Z.id.
  assert (forall l, Forall entry_v1_ok l ->
            dec_times (length l) DecodeLedgerEntryV1 (concat (map LedgerEntry_EncodeV1 l)) = Some (map entry_v1 l, [])) as H.
  { induction 1 as [|e l He _ IH]; [done|]. cbn [length dec_times concat map]. unfold rbind.
    by rewrite entry_v1_decode, IH. }
  by rewrite H.
Qed.

(** An entry as a holder before the integrity tail encodes it. *)
Definition TransitEntry_EncodeOld (e : TransitEntry) : bytes :=
  ByteWriter.Bytes (te_collection e) ++ ByteWriter.Bytes (te_key e) ++ ByteWriter.Bytes (te_key_hash e)
  ++ ByteWriter.Bytes (te_encoded_doc e) ++ ByteWriter.I64 (te_intent_lsn e)
  ++ ByteWriter.Bytes (te_holder_node e) ++ ByteWriter.U64 (te_doc_size_bytes e)
  ++ ByteWriter.U32 (te_chunk_index e) ++ ByteWriter.U32 (te_chunk_total e).

(** The trailing tolerance inside the repeated element is unsound: an entry without
    the tail swallows the collection and key of the entry behind it as its content
    hash and signature, and the list is misread from there on. *)
Theorem old_transit_entries_misread e1 e2 rest :
  transit_entry_ok e1 -> transit_entry_ok e2 ->
  exists rest', TransitEntry_Decode (TransitEntry_EncodeOld e1 ++ TransitEntry_EncodeOld e2 ++ rest)
    = Some (mkTransitEntry (te_collection e1) (te_key e1) (te_key_hash e1) (te_encoded_doc e1) (te_intent_lsn e1)
              (te_holder_node e1) (te_doc_size_bytes e1) (te_chunk_index e1) (te_chunk_total e1)
              (te_collection e2) (te_key e2), rest').
Proof.
  intros (H1 & H2 & H3 & H4 & H5 & H6 & H7 & H8 & H9 & H10 & _) (G1 & G2 & _).
  unfold TransitEntry_EncodeOld, TransitEntry_Decode. do 9 read_step ltac:(done).
  destruct (chunk_checked (te_chunk_index e1) (te_chunk_total e1)) as [-> ->]; [unfold fits in *; lia|].
  eexists. do 2 read_step ltac:(done). done.
Qed.

(** ** Witnesses *)
Definition demo_entry : TransitEntry :=
  mkTransitEntry (bs "notes") (bs "k") (replicate 32 Byte.x01) (bs "doc") 3 (bs "holder") 3 0 1
    (replicate 32 Byte.x02) (bs "sig").

Definition demo_messages : list Payload :=
  [PHello (mkHello (bs "n") (bs "pk") (bs "eph") (bs "sig") 7000 []);
   PTransit (mkTransitResponse [demo_entry; demo_entry] true 2);
   PText kPing (bs "n");
   PSync (mkSyncSummary [(bs "notes", bs "00ff")])].

(** One byte per call on both sides, with retries in between. *)
Definition slow_sends : list (list send_event) := replicate 4 (replicate (Z.to_nat 400) (SSent 1)).
Definition slow_recvs : list recv_event := RRetry :: replicate (Z.to_nat 600) (RData 1).

Lemma wire_messages_delivered_witness :
  receive_all 4 slow_recvs (default [] (send_all slow_sends demo_messages)) (2 ^ 20) = Some demo_messages.
Proof.
  apply (wire_messages_delivered slow_sends demo_messages).
  - repeat constructor; vm_compute; done.
  - vm_compute. done.
  - exists (Z.to_nat 600). split; [vm_compute; done|]. apply Nat.leb_le. vm_compute. done.
Defined.

Definition demo_summary : LedgerEntrySummary :=
  mkSummary 4 1 (replicate 32 Byte.x01) (replicate 32 Byte.x02) (replicate 32 Byte.x03) (bs "n") (bs "sig") 12 0
    (bs "notes") (bs "k") (bs "holder") 9 0 1 [].

Lemma old_ledger_delta_decodes_witness :
  run_decoder LedgerDelta_Decode (LedgerDelta_EncodeV1 (mkLedgerDelta [demo_summary; demo_summary] true []))
  = Some (mkLedgerDelta (map entry_v1 [demo_summary; demo_summary]) true []).
Proof.
  apply (old_ledger_delta_decodes (mkLedgerDelta [demo_summary; demo_summary] true [])).
  split; [done|]. repeat constructor; vm_compute; done.
Defined.
