(* ===== verification/Network.v ===== *)
(** * Inbound requests: src/net/network_manager.cpp

    The network manager's state and the handlers of authenticated peer requests: the
    dispatch with its admission check, document digests and broadcasts, transit queries
    and claims, ledger digests, heartbeats and sync summaries.  A handler answers [None]
    when an exception escapes it; the dispatch turns that into an error reply.  Jobs
    handed to the broadcast pool are recorded in order. *)
From S2P Require Import Prelude Bytes Hlc Json Crdt CrdtCodec AtRest AtRestFiles RecordLog Catalog.
From S2P Require Import CrossEngineIndex Backend Router Wal StorageEngine Transit Outbox Receipt Identity.
From S2P Require Import Peer Placement Admission NodeEngine WireProtocol.
Local Open Scope Z_scope.

(** The settings the manager reads; [nc_transit_budget] is [quota_split.TransitBytes(quota_mb)]. *)
Record NetConfig := mkNetConfig {
  nc_supervisor : bool;
  nc_liveness_threshold_ms : Z;
  nc_gossip_interval_ms : Z;
  nc_transit_max_holders : Z;
  nc_transit_chunk_bytes : Z;
  nc_transit_budget : Z;
}.

Definition StaleThresholdMs (c : NetConfig) : Z := nc_gossip_interval_ms c * 3 + 5000.
Definition liveness_threshold (c : NetConfig) : Z :=
  if 0 <? nc_liveness_threshold_ms c then nc_liveness_threshold_ms c else 5000.

Record NetworkManager (B : Type) := mkNet {
  nm_config : NetConfig;
  nm_engine : NodeEngine B;
  nm_peers : PeerTable;
  nm_dedup : MessageDedup;
  nm_placement : PlacementPolicy;
  nm_receipts : ReceiptTracker;                        (* owned by the engine *)
  nm_jobs : list (PeerInfo * OpBroadcastPayload);      (* pushes queued, oldest first *)
  nm_sent : Z;                                         (* [broadcasts_sent_] *)
  nm_duplicates : Z;                                   (* [duplicates_suppressed_] *)
  nm_rate_limited : Z;
  nm_rejected : Z;                                     (* merges refused, as logged *)
}.
Arguments mkNet {B}.
Arguments nm_config {B}.
Arguments nm_engine {B}.
Arguments nm_peers {B}.
Arguments nm_dedup {B}.
Arguments nm_placement {B}.
Arguments nm_receipts {B}.
Arguments nm_jobs {B}.
Arguments nm_sent {B}.
Arguments nm_duplicates {B}.
Arguments nm_rate_limited {B}.
Arguments nm_rejected {B}.

(** What one request meets. *)
Record request_env := mkRequestEnv {
  rv_now : Z;                                 (* [NowMs()] *)
  rv_allowed : bool;                          (* the rate limiter's answer *)
  rv_merge : nat -> node_env;                 (* per document of a broadcast *)
  rv_claim : nat -> append_env;               (* per claimed hash *)
  rv_wall : nat -> Z;
  rv_queued : bytes -> bool;                  (* the pool accepts the job for that peer *)
}.

Section Network.
Context `{C : Crypto} `{D : Ed25519} {B : Type} `{E : !EngineBackend B}.
Implicit Types (n : NodeEngine B) (nm : NetworkManager B).

Definition with_engine n nm : NetworkManager B :=
  mkNet (nm_config nm) n (nm_peers nm) (nm_dedup nm) (nm_placement nm) (nm_receipts nm) (nm_jobs nm) (nm_sent nm)
    (nm_duplicates nm) (nm_rate_limited nm) (nm_rejected nm).
Definition with_peers (t : PeerTable) nm : NetworkManager B :=
  mkNet (nm_config nm) (nm_engine nm) t (nm_dedup nm) (nm_placement nm) (nm_receipts nm) (nm_jobs nm) (nm_sent nm)
    (nm_duplicates nm) (nm_rate_limited nm) (nm_rejected nm).
Definition with_dedup (d : MessageDedup) nm : NetworkManager B :=
  mkNet (nm_config nm) (nm_engine nm) (nm_peers nm) d (nm_placement nm) (nm_receipts nm) (nm_jobs nm) (nm_sent nm)
    (nm_duplicates nm) (nm_rate_limited nm) (nm_rejected nm).
Definition with_placement (p : PlacementPolicy) nm : NetworkManager B :=
  mkNet (nm_config nm) (nm_engine nm) (nm_peers nm) (nm_dedup nm) p (nm_receipts nm) (nm_jobs nm) (nm_sent nm)
    (nm_duplicates nm) (nm_rate_limited nm) (nm_rejected nm).
Definition with_receipts (t : ReceiptTracker) nm : NetworkManager B :=
  mkNet (nm_config nm) (nm_engine nm) (nm_peers nm) (nm_dedup nm) (nm_placement nm) t (nm_jobs nm) (nm_sent nm)
    (nm_duplicates nm) (nm_rate_limited nm) (nm_rejected nm).
Definition with_jobs (l : list (PeerInfo * OpBroadcastPayload)) nm : NetworkManager B :=
  mkNet (nm_config nm) (nm_engine nm) (nm_peers nm) (nm_dedup nm) (nm_placement nm) (nm_receipts nm) l (nm_sent nm)
    (nm_duplicates nm) (nm_rate_limited nm) (nm_rejected nm).
Definition with_counts (sent dup limited rejected : Z) nm : NetworkManager B :=
  mkNet (nm_config nm) (nm_engine nm) (nm_peers nm) (nm_dedup nm) (nm_placement nm) (nm_receipts nm) (nm_jobs nm)
    sent dup limited rejected.

(** ** Document digests *)

(** Top stamp and content hash. *)
Abbreviation Fingerprint := (HLCTimestamp * bytes)%type.

Definition differs (a b : Fingerprint) : bool :=
  ts_gt a.1 b.1 || (negb (ts_gt b.1 a.1) && negb (bool_decide (a.2 = b.2))).

Definition kMaxDeltaBytes : Z := 1024 * 1024.

(** [remote[e.key] = ...] over the entries received. *)
Definition remote_fingerprints (l : list DigestEntry) : gmap bytes Fingerprint :=
  fold_left (fun m e => <[de_key e := (ts_Decode (top_ts_encoded e), de_content_hash e)]> m) l ∅.

Definition local_fingerprints (l : list DigestEntryOut) : gmap bytes Fingerprint :=
  fold_left (fun m e => <[do_key e := (do_top_ts e, do_content_hash e)]> m) l ∅.

Definition must_send (others : gmap bytes Fingerprint) (key : bytes) (mine : Fingerprint) : bool :=
  match others !! key with None => true | Some theirs => differs mine theirs end.

(** The first loop: what to push, until the response is full. *)
Fixpoint push_loop (collection : bytes) (remote : gmap bytes Fingerprint) (l : list (bytes * Fingerprint))
    (delta_bytes : Z) (out : list DocEntry) n : list DocEntry * Z * NodeEngine B :=
  match l with
  | [] => (out, delta_bytes, n)
  | (key, mine) :: rest =>
      if must_send remote key mine then
        match GetRawEncoded collection key n with
        | (Fault _, n1) => push_loop collection remote rest delta_bytes out n1
        | (OK raw, n1) =>
            let entry_bytes := Zlen key + Zlen raw + 8 in
            if negb (bool_decide (out = [])) && (kMaxDeltaBytes <? delta_bytes + entry_bytes)
            then (out, delta_bytes, n1)
            else push_loop collection remote rest (delta_bytes + entry_bytes) (out ++ [mkDocEntry key raw]) n1
        end
      else push_loop collection remote rest delta_bytes out n
  end.

(** The second loop: what to ask for. *)
Fixpoint want_loop (local : gmap bytes Fingerprint) (l : list (bytes * Fingerprint)) (delta_bytes : Z)
    (pushed : list DocEntry) (out : list bytes) : list bytes :=
  match l with
  | [] => out
  | (key, theirs) :: rest =>
      if must_send local key theirs then
        let entry_bytes := Zlen key + 4 in
        if (negb (bool_decide (pushed = [])) || negb (bool_decide (out = [])))
           && (kMaxDeltaBytes <? delta_bytes + entry_bytes)
        then out
        else want_loop local rest (delta_bytes + entry_bytes) pushed (out ++ [key])
      else want_loop local rest delta_bytes pushed out
  end.

Definition HandleDigest (peer : bytes) (digest : DigestPayload) nm : option WireMessage * NetworkManager B :=
  let c := dg_collection digest in
  let n := nm_engine nm in
  if negb (NodeCanRead n c (PeerRequestor peer))
  then (Some (mkMessage kDeltaResponse (Delta_Encode (mkDelta c [] []))), nm)
  else
    let remote := remote_fingerprints (dg_entries digest) in
    let '(entries, n1) := LocalDigest c n in
    let local := local_fingerprints entries in
    let '(pushed, delta_bytes, n2) := push_loop c remote (map_to_list local) (Zlen c + 32) [] n1 in
    let wanted := want_loop local (map_to_list remote) delta_bytes pushed [] in
    (Some (mkMessage kDeltaResponse (Delta_Encode (mkDelta c pushed wanted))), with_engine n2 nm).

(** ** Broadcasts *)

(** The documents of a message, merged one after the other; the statuses are logged.
    [None]: an exception escapes a merge. *)
Fixpoint merge_docs (envs : nat -> node_env) (collection : bytes) (docs : list DocEntry) (who : Requestor) n
  : option (list (StatusOr unit)) * NodeEngine B :=
  match docs with
  | [] => (Some [], n)
  | d :: rest =>
      match NodeMergeRemote (envs O) collection (doc_key d) (encoded_doc d) who n with
      | (None, n1) => (None, n1)
      | (Some st, n1) =>
          let '(r, n2) := merge_docs (fun i => envs (S i)) collection rest who n1 in
          (match r with Some l => Some (st :: l) | None => None end, n2)
      end
  end.

Definition is_fault (st : StatusOr unit) : bool := match st with OK _ => false | Fault _ => true end.
Definition refusals (l : list (StatusOr unit)) : Z := Zlen (filter (fun st => is_fault st = true) l).

Definition FanOut (queued : bytes -> bool) (payload : OpBroadcastPayload) (exclude : bytes) nm : NetworkManager B :=
  let targets := filter (fun p => negb (bool_decide (peer_node_id p = exclude)) && negb (peer_is_supervisor p)
                                  && negb (p2p_port p =? 0) && queued (peer_node_id p) = true) (Ranked (nm_peers nm)) in
  with_jobs (nm_jobs nm ++ map (fun p => (p, payload)) targets) nm.

Definition kMaxRelayTtl : Z := 3.

(** The clamped value is overwritten by the next assignment. *)
Definition relay_ttl (ttl : Z) : Z :=
  let clamped := if kMaxRelayTtl <? ttl then kMaxRelayTtl else ttl in
  let clamped := u8 (ttl - 1) in
  clamped.

Definition ReceiptMessage (message_id key_hash : bytes) (lsn : Z) : bytes :=
  bs "DSN-RECEIPT-v1" ++ message_id ++ key_hash ++ to_string lsn.

Definition make_receipt n (message_id collection key : bytes) : MergeReceipt :=
  let kh := LedgerKeyHash collection key in
  let lsn := (Tip (en_wal (ne_storage n))).1 in
  mkReceipt message_id kh (self_id n) lsn (Sign (ne_identity n) (ReceiptMessage message_id kh lsn)).

Definition HandleOpBroadcast (env : request_env) (peer : bytes) (b : OpBroadcastPayload) nm
  : option WireMessage * NetworkManager B :=
  let '(fresh, dedup) := NoteAndCheckNew (nm_dedup nm) (ob_message_id b) in
  let nm := with_dedup dedup nm in
  if negb fresh
  then (Some (mkMessage kPong []),
        with_counts (nm_sent nm) (u64 (nm_duplicates nm + 1)) (nm_rate_limited nm) (nm_rejected nm) nm)
  else
    match merge_docs (rv_merge env) (ob_collection b) (ob_docs b) (PeerRequestor peer) (nm_engine nm) with
    | (None, n1) => (None, with_engine n1 nm)
    | (Some sts, n1) =>
        let nm1 := with_counts (nm_sent nm) (nm_duplicates nm) (nm_rate_limited nm) (nm_rejected nm + refusals sts)
                     (with_engine n1 nm) in
        let nm2 := if 0 <? ob_ttl b
                   then FanOut (rv_queued env)
                          (mkBroadcast (ob_collection b) (ob_docs b) (ob_message_id b) (relay_ttl (ob_ttl b))) peer nm1
                   else nm1 in
        (Some (match ob_docs b with
               | d :: _ => if ob_ttl b =? 1
                           then mkMessage kPong (Receipt_Encode (make_receipt n1 (ob_message_id b) (ob_collection b) (doc_key d)))
                           else mkMessage kPong []
               | [] => mkMessage kPong []
               end), nm2)
    end.

(** ** Transit *)
Definition kMaxEntriesPerResponse : Z := 256.

Definition transit_entry (e : TransitEnvelope) : TransitEntry :=
  mkTransitEntry (e_collection e) (e_key e) (e_key_hash e) (Transit.encoded_doc e) (intent_lsn e) (holder_node e)
    (doc_size_bytes e) (chunk_index e) (chunk_total e) (content_hash e) (holder_sig e).

Fixpoint serve_loop (offset : Z) (pending : list TransitEnvelope) (skipped : Z) (out : list TransitEntry)
  : list TransitEntry * bool :=
  match pending with
  | [] => (out, false)
  | e :: rest =>
      if skipped <? offset then serve_loop offset rest (skipped + 1) out
      else if kMaxEntriesPerResponse <=? Zlen out then (out, true)
      else serve_loop offset rest skipped (out ++ [transit_entry e])
  end.

Definition transit_response (now : Z) (peer : bytes) (q : TransitQueryPayload) n : TransitResponsePayload :=
  let pending := std_sort Z.ltb intent_lsn (PendingFor now (ne_transit n) peer) in
  let '(entries, more) := serve_loop (tq_offset q) pending 0 [] in
  mkTransitResponse entries more (u64 (tq_offset q + Zlen entries)).

Definition HandleTransitQuery (env : request_env) (peer : bytes) (q : TransitQueryPayload) nm
  : option WireMessage * NetworkManager B :=
  (Some (mkMessage kTransitResponse (TransitResponse_Encode (transit_response (rv_now env) peer q (nm_engine nm)))), nm).

Fixpoint claim_loop (env : request_env) (i : nat) (peer : bytes) (hashes : list bytes) n : NodeEngine B :=
  match hashes with
  | [] => n
  | h :: rest =>
      claim_loop env (S i) peer rest (RecordRemoteClaim (rv_claim env i) (rv_wall env i) (rv_now env) peer h n).2
  end.

Definition HandleTransitClaim (env : request_env) (peer : bytes) (p : TransitClaimPayload) nm
  : option WireMessage * NetworkManager B :=
  (Some (mkMessage kPong []), with_engine (claim_loop env O peer (key_hashes p) (nm_engine nm)) nm).

Definition HandleTransitHeld (peer : bytes) (p : TransitHeldPayload) nm : option WireMessage * NetworkManager B :=
  (Some (mkMessage kPong []), nm).

(** ** Ledger *)
Definition kMaxDeltaEntries : nat := 1024.

(** An entry as a peer sees it: names only for a reader, access lists for everyone. *)
Definition entry_summary (who : Requestor) n (r : WalRecord) : LedgerEntrySummary :=
  let readable := NodeCanRead n (r_collection r) who in
  let acl := bool_decide (r_type r = kAcl) in
  WireProtocol.mkSummary (r_lsn r) (u8 (type_code (r_type r))) (r_key_hash r) (r_entry_hash r) (r_prev_hash r) (r_origin r)
    (r_signature r) (to_signed 64 (physical_ms (r_hlc r))) (logical (r_hlc r))
    (if readable || acl then r_collection r else []) (if readable then r_key r else [])
    (r_transit_holder r) (r_transit_size r) (r_chunk_index r) (r_chunk_total r)
    (if acl then r_document r else []).

Definition ledger_delta (who : Requestor) n (records : list WalRecord) : LedgerDeltaPayload :=
  let served := take kMaxDeltaEntries records in
  let entries := map (entry_summary who n) served in
  mkLedgerDelta entries (existsb (fun r => negb (NodeCanRead n (r_collection r) who)) served)
    (match last entries with Some e => SignTipFor n (le_entry_id e) (le_entry_hash e) | None => [] end).

Definition HandleLedgerDigest (peer : bytes) (d : LedgerDigestPayload) nm : option WireMessage * NetworkManager B :=
  let n := nm_engine nm in
  let '(local_tip, local_hash) := Tip (en_wal (ne_storage n)) in
  let reply p := (Some (mkMessage kLedgerDelta (LedgerDelta_Encode p)), nm) in
  let forked := (ld_tip_entry_id d =? local_tip) && negb (bool_decide (ld_tip_entry_hash d = local_hash)) in
  if local_tip <? ld_tip_entry_id d then reply (mkLedgerDelta [] false [])
  else if (ld_tip_entry_id d =? local_tip) && negb forked then reply (mkLedgerDelta [] false [])
  else
    match LedgerEntries (if forked then 0 else ld_tip_entry_id d + 1) local_tip (ne_storage n) with
    | None => (Some (mkMessage kError []), nm)
    | Some records => reply (ledger_delta (PeerRequestor peer) n records)
    end.

(** ** Heartbeats and summaries *)
Definition state_code (s : NodeLifecycleState) : Z :=
  match s with
  | kDiscovered => 0 | kAllocated => 1 | kProvisioned => 2 | kRunning => 3 | kDegraded => 4 | kReclaimed => 5
  end.

Definition OwnHeartbeat (now : Z) nm : HeartbeatPayload :=
  let n := nm_engine nm in
  let q := Quota (ne_storage n) in
  mkHeartbeat (self_id n) (Tip (en_wal (ne_storage n))).1
    (if used_bytes q <? limit_bytes q then (limit_bytes q - used_bytes q) / (1024 * 1024) else 0)
    (0 <? limit_bytes q) (BytesHeld now (ne_transit n)) (nc_transit_budget (nm_config nm))
    (state_code (if over_limit q then kDegraded else kRunning)) (nc_supervisor (nm_config nm)).

(** [info.is_supervisor = true]. *)
Definition as_supervisor (p : PeerInfo) : PeerInfo :=
  mkPeer (peer_node_id p) (ed25519_pubkey p) (peer_host p) (p2p_port p) (api_port p) (peer_hostname p)
    (last_seen_ms p) true (handshake_proven p) (peer_state p) (fitness p).

Definition seen_at (now : Z) (p : PeerInfo) : PeerInfo :=
  mkPeer (peer_node_id p) (ed25519_pubkey p) (peer_host p) (p2p_port p) (api_port p) (peer_hostname p)
    now (peer_is_supervisor p) (handshake_proven p) (peer_state p) (fitness p).

Definition RebuildPlacement (now : Z) nm : NetworkManager B :=
  with_placement (Rebuild now (nm_placement nm) (ListPeers (nm_peers nm))) nm.

Definition HandleHeartbeat (env : request_env) (peer : bytes) (h : HeartbeatPayload) nm
  : option WireMessage * NetworkManager B :=
  let nm1 := with_peers (RecordReport peer (hb_ledger_tip_entry_id h) (hb_free_quota_mb h) (hb_quota_limited h)
                           (hb_transit_bytes_held h) (hb_transit_budget_bytes h) (nm_peers nm)) nm in
  let nm2 := if hb_is_supervisor h
             then match GetPeer (nm_peers nm1) peer with
                  | Some info =>
                      if negb (peer_is_supervisor info)
                      then RebuildPlacement (rv_now env)
                             (with_peers (UpsertPeer (as_supervisor info) kProbe (nm_peers nm1)) nm1)
                      else nm1
                  | None => nm1
                  end
             else nm1 in
  (Some (mkMessage kHeartbeat (Heartbeat_Encode (OwnHeartbeat (rv_now env) nm2))), nm2).

(** [CollectionChecksum] of each collection, in turn. *)
Fixpoint checksums (collections : list bytes) n : list (bytes * bytes) * NodeEngine B :=
  match collections with
  | [] => ([], n)
  | c :: rest =>
      let s := ne_storage n in
      let '(sum, r) := RouterChecksum (en_catalog s) c (en_router s) in
      let '(l, n1) := checksums rest (with_storage (with_router r s) n) in ((c, sum) :: l, n1)
  end.

Definition HandleSyncSummary (peer : bytes) nm : option WireMessage * NetworkManager B :=
  let '(l, n1) := checksums (ReadableCollections (nm_engine nm) (PeerRequestor peer)) (nm_engine nm) in
  (Some (mkMessage kSyncSummary (SyncSummary_Encode (mkSyncSummary l))), with_engine n1 nm).

(** ** Dispatch *)
Definition decoded {A} (dec : Reader A) (s : bytes) (handle : A -> NetworkManager B -> option WireMessage * NetworkManager B)
    nm : option WireMessage * NetworkManager B :=
  match run_decoder dec s with None => (None, nm) | Some a => handle a nm end.

Definition dispatch (env : request_env) (peer : bytes) (r : WireMessage) nm : option WireMessage * NetworkManager B :=
  let s := m_payload r in
  if m_type r =? kDigest then decoded Digest_Decode s (HandleDigest peer) nm
  else if m_type r =? kOpBroadcast then decoded Broadcast_Decode s (HandleOpBroadcast env peer) nm
  else if m_type r =? kTransitQuery then decoded Query_Decode s (HandleTransitQuery env peer) nm
  else if m_type r =? kTransitClaim then decoded Claim_Decode s (HandleTransitClaim env peer) nm
  else if m_type r =? kLedgerDigest then decoded LedgerDigest_Decode s (HandleLedgerDigest peer) nm
  else if m_type r =? kHeartbeat then decoded Heartbeat_Decode s (HandleHeartbeat env peer) nm
  else if m_type r =? kSyncSummary then HandleSyncSummary peer nm
  else if m_type r =? kTransitHeld then decoded Held_Decode s (HandleTransitHeld peer) nm
  else if m_type r =? kPing then (Some (mkMessage kPong (self_id (nm_engine nm))), nm)
  else (Some (mkMessage kError (bs "unrecognized message type")), nm).

Definition HandleRequest (env : request_env) (peer : bytes) (r : WireMessage) nm : WireMessage * NetworkManager B :=
  if negb (rv_allowed env)
  then (mkMessage kError (bs "rate limit exceeded"),
        with_counts (nm_sent nm) (nm_duplicates nm) (u64 (nm_rate_limited nm + 1)) (nm_rejected nm) nm)
  else
    let nm1 := match GetPeer (nm_peers nm) peer with
               | Some seen => with_peers (UpsertPeer (seen_at (rv_now env) seen) kHandshake (nm_peers nm)) nm
               | None => nm
               end in
    match dispatch env peer r nm1 with
    | (Some reply, nm2) => (reply, nm2)
    | (None, nm2) => (mkMessage kError (bs "malformed payload"), nm2)
    end.
End Network.
