(* ===== verification/Outbound.v ===== *)
(** * Outbound traffic: src/net/network_manager.cpp

    Eager pushes and their receipts, holding bytes for unreachable owners, claiming what
    others hold for this node, collecting replica tips, probing peers and their sync
    summaries.  The transport is a parameter: [SendRequest] answers a message and moves
    the world behind it on. *)
From Stdlib Require Import SpecFloat.
From S2P Require Import Prelude Bytes Hlc Json Crdt CrdtCodec AtRest AtRestFiles RecordLog Catalog.
From S2P Require Import CrossEngineIndex Backend Router Wal StorageEngine Transit Outbox Receipt Identity.
From S2P Require Import Checkpoint Peer Placement Admission NodeEngine WireProtocol Network.
Local Open Scope Z_scope.

(** [TcpTransport::SendRequest(host, port, message)] over a world [T]. *)
Class Transport (T : Type) := SendRequest : bytes -> Z -> WireMessage -> T -> StatusOr WireMessage * T.

Record ClaimReport := mkReport { peers_asked : Z; documents_claimed : Z; failures : Z }.
Definition fail_once (r : ClaimReport) : ClaimReport := mkReport (peers_asked r) (documents_claimed r) (failures r + 1).
Definition ask_once (r : ClaimReport) : ClaimReport := mkReport (peers_asked r + 1) (documents_claimed r) (failures r).
Definition claim_once (r : ClaimReport) : ClaimReport := mkReport (peers_asked r) (documents_claimed r + 1) (failures r).

(** What the claim of one document meets. *)
Record claim_env := mkClaimEnv {
  ce_now : Z;
  ce_merge : bytes -> node_env;
  ce_claim : bytes -> append_env;
  ce_wall : bytes -> Z;
}.

Section Outbound.
Context `{C : Crypto} `{D : Ed25519} {B : Type} `{E : !EngineBackend B}.
Implicit Types (n : NodeEngine B) (nm : NetworkManager B).

(** ** Pushes *)
Definition ResolvePublicKey nm (node : bytes) : bytes :=
  match GetPeer (nm_peers nm) node with Some info => ed25519_pubkey info | None => [] end.

Definition receipt_valid nm (r : MergeReceipt) : bool :=
  NodeEngine.attested (ResolvePublicKey nm (applier_node r)) (applier_node r)
    (ReceiptMessage (mr_message_id r) (mr_key_hash r) (applied_lsn r)) (mr_signature r).

(** The body of a queued job once its request has been answered. *)
Definition PushDone (peer : bytes) (latency : spec_float) (result : StatusOr WireMessage) nm : NetworkManager B :=
  let ok := match result with OK _ => true | Fault _ => false end in
  let nm1 := with_peers (RecordProbe peer latency ok (nm_peers nm)) nm in
  match result with
  | Fault _ => nm1
  | OK reply =>
      let nm2 := with_counts (u64 (nm_sent nm1 + 1)) (nm_duplicates nm1) (nm_rate_limited nm1) (nm_rejected nm1) nm1 in
      if m_type reply =? kPong then
        match run_decoder Receipt_Decode (m_payload reply) with
        | Some r => if receipt_valid nm2 r then with_receipts (NoteReceipt (nm_receipts nm2) r) nm2 else nm2
        | None => nm2
        end
      else nm2
  end.

(** ** Holding for unreachable owners *)

(** Peers a chunk can be held by, as both sides compute them. *)
Definition can_hold (self : bytes) (now threshold : Z) (p : PeerInfo) : bool :=
  negb (bool_decide (peer_node_id p = self)) && negb (p2p_port p =? 0) && negb (is_placeholder (peer_node_id p))
  && negb (peer_is_supervisor p) && negb (bool_decide (peer_state p = kReclaimed))
  && negb (bool_decide (Suspicion p now threshold = kDead)).
Definition holding_peers (now : Z) nm : list bytes :=
  map peer_node_id (filter (fun p => can_hold (self_id (nm_engine nm)) now (liveness_threshold (nm_config nm)) p = true)
                      (ListPeers (nm_peers nm))).

Definition max_holders nm : nat :=
  Z.to_nat (if 0 <? nc_transit_max_holders (nm_config nm) then nc_transit_max_holders (nm_config nm) else 3).

Definition unreachable (now : Z) nm (p : PeerInfo) : bool :=
  (last_seen_ms p =? 0) || (StaleThresholdMs (nm_config nm) <? now - last_seen_ms p)
  || bool_decide (peer_state p = kDegraded).

(** The chunks of a document this node is to hold for [owner]. *)
Definition my_chunks (now : Z) nm (owner doc_hash : bytes) (total : Z) : list Z :=
  let self := self_id (nm_engine nm) in
  let active := filter (fun h => h <> owner) (self :: holding_peers now nm) in
  filter (fun c => self ∈ SelectTransitHolders owner doc_hash active (max_holders nm) c) (seqZ 0 total).

(** [HoldForOfflineOwner] is called without the message id. *)
Fixpoint hold_loop (envs : bytes -> Z -> hold_env) (now : Z) (collection key doc : bytes) (owners : list bytes) nm
  : NetworkManager B :=
  match owners with
  | [] => nm
  | owner :: rest =>
      let n := nm_engine nm in
      if bool_decide (owner = self_id n) then hold_loop envs now collection key doc rest nm
      else match GetPeer (nm_peers nm) owner with
           | None => hold_loop envs now collection key doc rest nm
           | Some info =>
               let chunks := my_chunks now nm owner (LedgerKeyHash collection key)
                               (TransitChunkCount (Zlen doc) (nc_transit_chunk_bytes (nm_config nm))) in
               if unreachable now nm info && negb (bool_decide (chunks = []))
               then hold_loop envs now collection key doc rest
                      (with_engine (HoldForOfflineOwner (envs owner) now owner collection key doc (Some chunks) [] n).2 nm)
               else hold_loop envs now collection key doc rest nm
           end
  end.

(** The shard value of a stored document; [None]: its decoding throws. *)
Definition shard_value (collection key : bytes) n : option bytes * NodeEngine B :=
  match GetCopy (en_catalog (ne_storage n)) collection with
  | None => (Some [], n)
  | Some meta =>
      if bool_decide (shard_key meta = []) then (Some [], n)
      else
        let '(raw, n1) := GetDocument collection key (Local (self_id n)) n in
        (match raw with
         | None => None
         | Some (OK v) =>
             if is_object v then
               match Find v (shard_key meta) with
               | Some x => if is_string x then Some (AsString x) else Some []
               | None => Some []
               end
             else Some []
         | Some (Fault _) => Some []
         end, n1)
  end.

Definition HoldForUnreachableOwners (envs : bytes -> Z -> hold_env) (now : Z) (collection key doc : bytes) nm
  : option unit * NetworkManager B :=
  if bool_decide (collection = kTransitCollection) then (Some tt, nm)
  else
    let '(shard, n1) := shard_value collection key (nm_engine nm) in
    let nm1 := with_engine n1 nm in
    match shard with
    | None => (None, nm1)
    | Some sv =>
        let nm2 := RebuildPlacement now nm1 in
        let plan := Place (nm_placement nm2) collection key sv in
        (Some tt, hold_loop envs now collection key doc (displaced_owners plan ++ Placement.replicas plan) nm2)
    end.

(** [assigned] is the id the API set for this thread, [minted] a new one. *)
Definition BroadcastLocalWrite (envs : bytes -> Z -> hold_env) (now : Z) (queued : bytes -> bool)
    (assigned minted collection key doc : bytes) nm : option unit * NetworkManager B :=
  let id := if bool_decide (assigned = []) then minted else assigned in
  let nm1 := with_dedup (NoteAndCheckNew (nm_dedup nm) id).2 nm in
  let nm2 := FanOut queued (mkBroadcast collection [mkDocEntry key doc] id 1) [] nm1 in
  HoldForUnreachableOwners envs now collection key doc nm2.

(** ** Claims *)
Definition VerifyTransitEntry (e : TransitEntry) (pubkey : bytes) : bool :=
  let doc_hash := LedgerKeyHash (te_collection e) (te_key e) in
  (bool_decide (doc_hash = te_key_hash e) || bool_decide (TransitChunkKeyHash doc_hash (te_chunk_index e) = te_key_hash e))
  && negb (bool_decide (te_content_hash e = [])) && negb (bool_decide (te_holder_sig e = []))
  && bool_decide (Sha256 (te_encoded_doc e) = te_content_hash e)
  && negb (bool_decide (pubkey = []))
  && Ed25519Verify pubkey (TransitAttestMessage (te_key_hash e) (te_content_hash e) (te_chunk_index e) (te_chunk_total e))
       (te_holder_sig e).

Definition holder_key nm (holder : bytes) : bytes :=
  match GetPeer (nm_peers nm) holder with
  | Some p => if handshake_proven p then ed25519_pubkey p else []
  | None => []
  end.

Definition intents_by_hash (l : list TransitIntent) : gmap bytes TransitIntent :=
  fold_left (fun m i => <[ti_key_hash i := i]> m) l ∅.

(** An entry is taken when it verifies, its holder is designated for the chunk, and no
    local intent disagrees. *)
Definition entry_accepted (now : Z) nm (holder pubkey : bytes) (intents : gmap bytes TransitIntent) (e : TransitEntry) : bool :=
  VerifyTransitEntry e pubkey
  && bool_decide (holder ∈ SelectTransitHolders (self_id (nm_engine nm)) (LedgerKeyHash (te_collection e) (te_key e))
                             (holding_peers now nm) (max_holders nm) (te_chunk_index e))
  && match intents !! te_key_hash e with
     | Some i => bool_decide (ti_holder i = holder) && (ti_chunk_total i =? te_chunk_total e)
     | None => true
     end.

Definition doc_id (e : TransitEntry) : bytes := te_collection e ++ [Byte.x00] ++ te_key e.

(** [by_doc]: the accepted entries by document, documents in key order. *)
Definition group_docs (l : list TransitEntry) : list (bytes * list TransitEntry) :=
  std_sort str_lt fst (map_to_list
    (fold_left (fun m e => <[doc_id e := default [] (m !! doc_id e) ++ [e]]> m) l (∅ : gmap bytes (list TransitEntry)))).

(** [ordered]: each chunk once, of the same document size and total. *)
Fixpoint place_chunks (total size : Z) (chunks : list TransitEntry) (ordered : gmap Z TransitEntry)
  : option (gmap Z TransitEntry) :=
  match chunks with
  | [] => Some ordered
  | e :: rest =>
      if negb (te_chunk_total e =? total) || negb (te_doc_size_bytes e =? size) || (total <=? te_chunk_index e)
         || bool_decide (is_Some (ordered !! te_chunk_index e))
      then None
      else place_chunks total size rest (<[te_chunk_index e := e]> ordered)
  end.

(** The bytes of a document from its chunks; [None] counts as a failure. *)
Definition reassemble (chunks : list TransitEntry) : option bytes :=
  match chunks with
  | [] => None
  | first :: _ =>
      let total := te_chunk_total first in
      if total =? 1 then
        match chunks with [_] => Some (te_encoded_doc first) | _ => None end
      else if (4096 <? total) || (2 ^ 26 <? te_doc_size_bytes first) then None
      else
        ordered ← place_chunks total (te_doc_size_bytes first) chunks ∅;
        parts ← mapM (fun i => te_encoded_doc <$> ordered !! i) (seqZ 0 total);
        if Zlen (concat parts) =? te_doc_size_bytes first then Some (concat parts) else None
  end.

(** One document after the other; the hashes of the applied ones are claimed. *)
Fixpoint apply_docs (env : claim_env) (docs : list (bytes * list TransitEntry)) (report : ClaimReport) (out : list bytes) n
  : option (ClaimReport * list bytes) * NodeEngine B :=
  match docs with
  | [] => (Some (report, out), n)
  | (id, chunks) :: rest =>
      match reassemble chunks, chunks with
      | Some full, first :: _ =>
          match ApplyClaimedTransit (ce_merge env id) (ce_claim env id) (ce_wall env id) (te_collection first) (te_key first) full n with
          | (None, n1) => (None, n1)
          | (Some (Fault _), n1) => apply_docs env rest (fail_once report) out n1
          | (Some (OK _), n1) => apply_docs env rest (claim_once report) (out ++ map te_key_hash chunks) n1
          end
      | _, _ => apply_docs env rest (fail_once report) out n
      end
  end.

Definition ApplyHolderEntries (env : claim_env) (holder : bytes) (entries : list TransitEntry) (report : ClaimReport) nm
  : option (ClaimReport * list bytes) * NetworkManager B :=
  let pubkey := holder_key nm holder in
  if bool_decide (pubkey = [])
  then (Some (mkReport (peers_asked report) (documents_claimed report) (failures report + Zlen entries), []), nm)
  else
    let intents := intents_by_hash (TransitIntentsForSelf (nm_engine nm)) in
    let ok := entry_accepted (ce_now env) nm holder pubkey intents in
    let taken := filter (fun e => ok e = true) entries in
    let report := mkReport (peers_asked report) (documents_claimed report)
                    (failures report + Zlen (filter (fun e => ok e = false) entries)) in
    let '(r, n1) := apply_docs env (group_docs taken) report [] (nm_engine nm) in
    (r, with_engine n1 nm).

Section WithTransport.
Context {T : Type} `{Tr : !Transport T}.
Implicit Types t : T.

(** The paging loop of the first phase may go on as long as the holder says there is
    more: it runs on fuel, and says so when that runs out. *)
Inductive loop_end := Ended (report : ClaimReport) | Threw | Endless.

Definition send_claim (host : bytes) (port : Z) (self : bytes) (hashes : list bytes) t : T :=
  (SendRequest host port (mkMessage kTransitClaim (Claim_Encode (mkClaim hashes self))) t).2.

Fixpoint query_loop (fuel : nat) (envs : nat -> claim_env) (info : PeerInfo) (offset : Z) (report : ClaimReport) nm t
  : loop_end * NetworkManager B * T :=
  match fuel with
  | O => (Endless, nm, t)
  | S fuel' =>
      let '(resp, t1) := SendRequest (peer_host info) (p2p_port info)
                           (mkMessage kTransitQuery (Query_Encode (mkQuery offset))) t in
      let report := ask_once report in
      match resp with
      | Fault _ => (Ended (fail_once report), nm, t1)
      | OK reply =>
          if negb (m_type reply =? kTransitResponse) then (Ended (fail_once report), nm, t1)
          else match run_decoder TransitResponse_Decode (m_payload reply) with
               | None => (Ended (fail_once report), nm, t1)
               | Some p =>
                   if bool_decide (tr_entries p = []) then (Ended report, nm, t1)
                   else
                     match ApplyHolderEntries (envs O) (peer_node_id info) (tr_entries p) report nm with
                     | (None, nm1) => (Threw, nm1, t1)
                     | (Some (report1, hashes), nm1) =>
                         let applied := documents_claimed report1 - documents_claimed report in
                         let t2 := if 0 <? applied
                                   then send_claim (peer_host info) (p2p_port info) (self_id (nm_engine nm1)) hashes t1
                                   else t1 in
                         if negb (truncated p) then (Ended report1, nm1, t2)
                         else query_loop fuel' (fun i => envs (S i)) info (next_offset p) report1 nm1 t2
                     end
               end
      end
  end.

(** Phase one: the holders named by the ledger, in order. *)
Definition intent_holders (l : list TransitIntent) : list bytes :=
  std_sort str_lt id (elements (list_to_set (filter (fun h => h <> []) (map ti_holder l)) : gset bytes)).

Fixpoint targeted (fuel : nat) (envs : bytes -> nat -> claim_env) (holders : list bytes) (report : ClaimReport) nm t
  : loop_end * NetworkManager B * T :=
  match holders with
  | [] => (Ended report, nm, t)
  | h :: rest =>
      match GetPeer (nm_peers nm) h with
      | Some info =>
          if bool_decide (h = self_id (nm_engine nm)) || (p2p_port info =? 0) then targeted fuel envs rest report nm t
          else match query_loop fuel (envs h) info 0 report nm t with
               | (Ended report1, nm1, t1) => targeted fuel envs rest report1 nm1 t1
               | r => r
               end
      | None => targeted fuel envs rest report nm t
      end
  end.

(** Phase two: one page from everyone else. *)
Fixpoint sweep (envs : bytes -> claim_env) (asked : list bytes) (peers : list PeerInfo) (report : ClaimReport) nm t
  : loop_end * NetworkManager B * T :=
  match peers with
  | [] => (Ended report, nm, t)
  | p :: rest =>
      if (p2p_port p =? 0) || bool_decide (peer_node_id p = self_id (nm_engine nm)) || bool_decide (peer_node_id p ∈ asked)
      then sweep envs asked rest report nm t
      else
        let report := ask_once report in
        let '(resp, t1) := SendRequest (peer_host p) (p2p_port p) (mkMessage kTransitQuery []) t in
        let page := match resp with
                    | OK reply => if m_type reply =? kTransitResponse
                                  then run_decoder TransitResponse_Decode (m_payload reply) else None
                    | Fault _ => None
                    end in
        match page with
        | None => sweep envs asked rest (fail_once report) nm t1
        | Some q =>
            if bool_decide (tr_entries q = []) then sweep envs asked rest report nm t1
            else match ApplyHolderEntries (envs (peer_node_id p)) (peer_node_id p) (tr_entries q) report nm with
                 | (None, nm1) => (Threw, nm1, t1)
                 | (Some (report1, hashes), nm1) =>
                     let t2 := if negb (bool_decide (hashes = []))
                               then send_claim (peer_host p) (p2p_port p) (self_id (nm_engine nm1)) hashes t1
                               else t1 in
                     sweep envs asked rest report1 nm1 t2
                 end
        end
  end.

Definition ClaimPendingTransit (fuel : nat) (envs : bytes -> nat -> claim_env) (envs2 : bytes -> claim_env) nm t
  : loop_end * NetworkManager B * T :=
  let intents := TransitIntentsForSelf (nm_engine nm) in
  match targeted fuel envs (intent_holders intents) (mkReport 0 0 0) nm t with
  | (Ended report, nm1, t1) => sweep envs2 (map ti_holder intents) (Ranked (nm_peers nm1)) report nm1 t1
  | r => r
  end.

(** ** Replica tips *)

(** The segment links to itself: an empty hash starts anew. *)
Fixpoint segment_links (expected_prev : bytes) (entries : list LedgerEntrySummary) : bool :=
  match entries with
  | [] => true
  | e :: rest =>
      if negb (bool_decide (expected_prev = [])) && negb (bool_decide (le_prev_hash e = expected_prev)) then false
      else segment_links (le_entry_hash e) rest
  end.

Definition tip_of n (node : bytes) (delta : LedgerDeltaPayload) : option ReplicaTip :=
  match last (ldl_entries delta) with
  | None => None
  | Some e =>
      Some (mkTip node (le_entry_id e) (le_entry_hash e) (segment_links [] (ldl_entries delta))
              (negb (bool_decide (ldl_tip_signature delta = []))
               && VerifyPeerTip n node (le_entry_id e) (le_entry_hash e) (ldl_tip_signature delta))
              (ldl_tip_signature delta))
  end.

Definition ask_everything : WireMessage :=
  mkMessage kLedgerDigest (LedgerDigest_Encode (mkLedgerDigest (-1) [] [] 0 [])).

Fixpoint collect_loop n (l : list PeerInfo) t : list ReplicaTip * T :=
  match l with
  | [] => ([], t)
  | p :: rest =>
      if p2p_port p =? 0 then collect_loop n rest t
      else
        let '(resp, t1) := SendRequest (peer_host p) (p2p_port p) ask_everything t in
        let tip := match resp with
                   | OK reply => if m_type reply =? kLedgerDelta
                                 then run_decoder LedgerDelta_Decode (m_payload reply) ≫= tip_of n (peer_node_id p)
                                 else None
                   | Fault _ => None
                   end in
        let '(tips, t2) := collect_loop n rest t1 in
        (match tip with Some x => x :: tips | None => tips end, t2)
  end.

Definition CollectReplicaTips nm t : list ReplicaTip * T := collect_loop (nm_engine nm) (Ranked (nm_peers nm)) t.

(** ** Probes *)

(** [peer] is the snapshot taken when the probe was queued. *)
Definition probe_failed (now : Z) (peer : bytes) nm : NetworkManager B :=
  match GetPeer (nm_peers nm) peer with
  | Some current =>
      if bool_decide (Suspicion current now (liveness_threshold (nm_config nm)) = kDead)
      then with_peers (SetState peer kDegraded (nm_peers nm)) nm else nm
  | None => nm
  end.

(** What an answer proves: the responder's id, the figures, whether it is a supervisor. *)
Definition probe_answer (legacy : bool) (peer : PeerInfo) (payload : bytes) nm : bytes * bool * NetworkManager B :=
  if legacy then (payload, false, nm)
  else match run_decoder Heartbeat_Decode payload with
       | None => ([], false, nm)
       | Some h =>
           (hb_node_id h, hb_is_supervisor h,
            with_peers (RecordReport (peer_node_id peer) (hb_ledger_tip_entry_id h) (hb_free_quota_mb h) (hb_quota_limited h)
                          (hb_transit_bytes_held h) (hb_transit_budget_bytes h) (nm_peers nm)) nm)
       end.

(** [seen] as it is stored: under its key, heard from now, recovered if degraded. *)
Definition recovered (key : bytes) (now : Z) (supervisor : bool) (p : PeerInfo) : PeerInfo :=
  mkPeer key (ed25519_pubkey p) (peer_host p) (p2p_port p) (api_port p) (peer_hostname p) now
    (if supervisor then true else peer_is_supervisor p) (handshake_proven p)
    (if bool_decide (peer_state p = kDegraded) then kRunning else peer_state p) (fitness p).

Definition probe_ok (now : Z) (legacy : bool) (peer : PeerInfo) (payload : bytes) nm : NetworkManager B :=
  let '(proven, supervisor, nm1) := probe_answer legacy peer payload nm in
  let key0 := peer_node_id peer in
  let '(adopted, table) := if nonempty proven && negb (bool_decide (proven = key0))
                           then AdoptIdentity key0 proven (nm_peers nm1) else (false, nm_peers nm1) in
  let key := if adopted then proven else key0 in
  let supervisor := supervisor || peer_is_supervisor peer in
  let base := match GetPeer table key with
              | Some p => p
              | None => if supervisor then as_supervisor peer else peer
              end in
  let seen := recovered key now supervisor base in
  let nm2 := with_peers (UpsertPeer seen kProbe table) nm1 in
  if peer_is_supervisor seen then RebuildPlacement now nm2 else nm2.

Definition ProbePeer (now : Z) (latency : spec_float) (peer : PeerInfo) nm t : NetworkManager B * T :=
  if (p2p_port peer =? 0) || bool_decide (peer_node_id peer = self_id (nm_engine nm)) then (nm, t)
  else
    let '(resp, t1) := SendRequest (peer_host peer) (p2p_port peer)
                         (mkMessage kHeartbeat (Heartbeat_Encode (OwnHeartbeat now nm))) t in
    let legacy := match resp with OK reply => m_type reply =? kError | Fault _ => false end in
    let '(resp, t2) := if legacy then SendRequest (peer_host peer) (p2p_port peer) (mkMessage kPing []) t1 else (resp, t1) in
    let answer := match resp with
                  | OK reply => if (m_type reply =? kHeartbeat) || (legacy && (m_type reply =? kPong))
                                then Some (m_payload reply) else None
                  | Fault _ => None
                  end in
    let nm1 := with_peers (RecordProbe (peer_node_id peer) latency (bool_decide (is_Some answer)) (nm_peers nm)) nm in
    (match answer with
     | None => probe_failed now (peer_node_id peer) nm1
     | Some payload => probe_ok now legacy peer payload nm1
     end, t2).
End WithTransport.
End Outbound.
