(* ===== verification/Gossip.v ===== *)
(** * Gossip rounds: src/net/gossip.cpp

    Peer selection, the ledger half of a round (access lists and collection names) and
    the document half (digest, pushed documents, requested keys).  Random draws are
    arguments; the transport is that of [Outbound]. *)
From Stdlib Require Import SpecFloat.
From S2P Require Import Prelude Bytes Hlc Json Crdt CrdtCodec AtRest AtRestFiles RecordLog Catalog.
From S2P Require Import CrossEngineIndex Backend Router Wal StorageEngine Transit Outbox Receipt Identity.
From S2P Require Import Peer Placement Admission NodeEngine WireProtocol Network Outbound.
Local Open Scope Z_scope.

Record GossipOptions := mkGossipOptions {
  interval_ms : Z;
  jitter_pct : Z;
  fanout : nat;
  exploration_pct : Z;
}.

(** [draw] is the jitter drawn, between minus and plus the spread. *)
Definition NextSleepMs (o : GossipOptions) (throttle draw : Z) : Z :=
  let base := u32 (interval_ms o * throttle) in
  if jitter_pct o =? 0 then base
  else
    let spread := u32 (base * jitter_pct o) / 100 in
    if spread =? 0 then base else u32 (Z.max 50 (to_signed 32 base + draw)).

Definition SetThrottleFactor (factor : Z) : Z := if factor =? 0 then 1 else factor.

(** What one attempt draws: a percentage, an index anywhere, an index in the head. *)
Record pick := mkPick { pk_percent : Z; pk_anywhere : nat; pk_head : nat }.

(** What a round meets. *)
Record round_env := mkRoundEnv {
  re_latency : bytes -> spec_float;              (* of the digest request, per collection *)
  re_merge : bytes -> nat -> node_env;           (* per collection and pushed document *)
  re_message_id : bytes -> bytes;                (* [NewMessageId], per collection *)
  re_acl : nat -> acl_env;                       (* per ledger entry *)
}.

Section Gossip.
Context `{C : Crypto} `{D : Ed25519} {B : Type} `{E : !EngineBackend B}.
Implicit Types (n : NodeEngine B) (nm : NetworkManager B).

(** ** Selection *)
Definition can_gossip (self : bytes) (p : PeerInfo) : bool :=
  negb (peer_is_supervisor p || (p2p_port p =? 0) || bool_decide (peer_node_id p = self)).

Fixpoint select_loop (o : GossipOptions) (ranked : list PeerInfo) (want attempts : nat) (draw : nat -> pick)
    (taken : gset nat) (chosen : list PeerInfo) : list PeerInfo :=
  match attempts with
  | O => chosen
  | S more =>
      if (want <=? length chosen)%nat then chosen
      else
        let d := draw O in
        let index := if pk_percent d <? exploration_pct o then pk_anywhere d else pk_head d in
        if bool_decide (index ∈ taken) then select_loop o ranked want more (fun i => draw (S i)) taken chosen
        else match ranked !! index with
             | Some p => select_loop o ranked want more (fun i => draw (S i)) (taken ∪ {[index]}) (chosen ++ [p])
             | None => chosen
             end
  end.

Definition SelectPeers (o : GossipOptions) (draw : nat -> pick) nm : list PeerInfo :=
  let ranked := filter (fun p => can_gossip (self_id (nm_engine nm)) p = true) (Ranked (nm_peers nm)) in
  if bool_decide (ranked = []) then []
  else select_loop o ranked (Nat.min (fanout o) (length ranked)) (length ranked * 4) draw ∅ [].

(** The ranked head: the top third, at least one. *)
Definition head_size (ranked : list PeerInfo) : nat := Nat.max 1 (length ranked / 3).

(** A sorted vector without repetitions, or a [std::set] of strings. *)
Definition sorted_set (l : list bytes) : list bytes := std_sort str_lt id (elements (list_to_set l : gset bytes)).

Section WithTransport.
Context {T : Type} `{Tr : !Transport T}.
Implicit Types t : T.

(** ** Ledger *)

(** The entries of a delta: names this peer may read, and access lists to adopt. *)
Fixpoint delta_loop (envs : nat -> acl_env) (who : Requestor) (entries : list LedgerEntrySummary) n
  : list bytes * NodeEngine B :=
  match entries with
  | [] => ([], n)
  | e :: rest =>
      let c := le_collection e in
      let found := nonempty c && negb (bool_decide (c = kTransitCollection)) && NodeCanRead n c who in
      let n1 := if (le_operation e =? type_code kAcl) && nonempty (acl_json e) && nonempty c
                then (ApplyRemoteAcl (envs O) (le_origin_node_id e) c (acl_json e) true n).2 else n in
      let '(names, n2) := delta_loop (fun i => envs (S i)) who rest n1 in
      (if found then c :: names else names, n2)
  end.

Definition ledger_digest n : LedgerDigestPayload :=
  let '(id, hash) := Tip (en_wal (ne_storage n)) in mkLedgerDigest id hash (SignLedgerTip n) id [].

Definition ExchangeLedger (env : round_env) (peer : PeerInfo) nm t : list bytes * NetworkManager B * T :=
  let '(resp, t1) := SendRequest (peer_host peer) (p2p_port peer)
                       (mkMessage kLedgerDigest (LedgerDigest_Encode (ledger_digest (nm_engine nm)))) t in
  let delta := match resp with
               | OK reply => if m_type reply =? kLedgerDelta then run_decoder LedgerDelta_Decode (m_payload reply) else None
               | Fault _ => None
               end in
  match delta with
  | None => ([], nm, t1)
  | Some p =>
      match last (ldl_entries p) with
      | None => ([], nm, t1)
      | Some e =>
          let nm1 := with_peers (RecordLedgerHeight (peer_node_id peer) (le_entry_id e) (nm_peers nm)) nm in
          let '(names, n1) := delta_loop (re_acl env) (PeerRequestor (peer_node_id peer)) (ldl_entries p) (nm_engine nm1) in
          (sorted_set names, with_engine n1 nm1, t1)
      end
  end.

(** ** Documents *)
Definition digest_entry (e : DigestEntryOut) : DigestEntry := mkDigestEntry (do_key e) (ts_Encode (do_top_ts e)) (do_content_hash e).

(** The documents the peer asked for, as they are stored now. *)
Fixpoint wanted_docs (collection : bytes) (keys : list bytes) n : list DocEntry * NodeEngine B :=
  match keys with
  | [] => ([], n)
  | k :: rest =>
      let '(raw, n1) := GetRawEncoded collection k n in
      let '(docs, n2) := wanted_docs collection rest n1 in
      (match raw with OK d => mkDocEntry k d :: docs | Fault _ => docs end, n2)
  end.

(** One collection.  [Some false]: the peer is unreachable and the round stops; [None]:
    an exception escapes the thread. *)
Definition exchange_collection (env : round_env) (peer : PeerInfo) (c : bytes) nm t
  : option bool * NetworkManager B * T :=
  let '(entries, n1) := LocalDigest c (nm_engine nm) in
  let '(resp, t1) := SendRequest (peer_host peer) (p2p_port peer)
                       (mkMessage kDigest (Digest_Encode (mkDigest c (map digest_entry entries)))) t in
  let ok := match resp with OK _ => true | Fault _ => false end in
  let nm1 := with_peers (RecordProbe (peer_node_id peer) (re_latency env c) ok (nm_peers nm)) (with_engine n1 nm) in
  match resp with
  | Fault _ => (Some false, nm1, t1)
  | OK reply =>
      if negb (m_type reply =? kDeltaResponse) then (Some true, nm1, t1)
      else
        match run_decoder Delta_Decode (m_payload reply) with
        | None => (Some true, nm1, t1)
        | Some delta =>
            match merge_docs (re_merge env c) c (pushed delta) (PeerRequestor (peer_node_id peer)) (nm_engine nm1) with
            | (None, n2) => (None, with_engine n2 nm1, t1)
            | (Some sts, n2) =>
                let '(docs, n3) := wanted_docs c (wanted_keys delta) n2 in
                let nm2 := with_counts (nm_sent nm1) (nm_duplicates nm1) (nm_rate_limited nm1) (nm_rejected nm1 + refusals sts)
                             (with_engine n3 nm1) in
                let t2 := if bool_decide (docs = []) then t1
                          else (SendRequest (peer_host peer) (p2p_port peer)
                                  (mkMessage kOpBroadcast (Broadcast_Encode (mkBroadcast c docs (re_message_id env c) 0))) t1).2 in
                (Some true, nm2, t2)
            end
        end
  end.

Fixpoint exchange_loop (env : round_env) (peer : PeerInfo) (collections : list bytes) nm t
  : option unit * NetworkManager B * T :=
  match collections with
  | [] => (Some tt, nm, t)
  | c :: rest =>
      match exchange_collection env peer c nm t with
      | (Some true, nm1, t1) => exchange_loop env peer rest nm1 t1
      | (Some false, nm1, t1) => (Some tt, nm1, t1)
      | (None, nm1, t1) => (None, nm1, t1)
      end
  end.

Definition shared_collections (peer : bytes) (discovered : list bytes) n : list bytes :=
  let who := PeerRequestor peer in
  sorted_set (ReadableCollections n who
              ++ filter (fun c => nonempty c && negb (bool_decide (c = kTransitCollection)) && NodeCanRead n c who = true) discovered).

Definition ExchangeDocuments (env : round_env) (peer : PeerInfo) (discovered : list bytes) nm t
  : option unit * NetworkManager B * T :=
  exchange_loop env peer (shared_collections (peer_node_id peer) discovered (nm_engine nm)) nm t.

Definition RunRoundWith (env : round_env) (peer : PeerInfo) nm t : option unit * NetworkManager B * T :=
  let '(discovered, nm1, t1) := ExchangeLedger env peer nm t in
  ExchangeDocuments env peer discovered nm1 t1.
End WithTransport.
End Gossip.
