(* ===== verification/GossipProps.v ===== *)
(** * What a gossip round achieves

    The document half of a round between two nodes as a function on the pair of stored
    documents, convergence in two rounds, and where it fails. *)
From Stdlib Require Import SpecFloat.
From S2P Require Import Prelude Bytes Hlc Json JsonText Crdt CrdtMerge CrdtCodec AtRest AtRestFiles RecordLog.
From S2P Require Import Catalog CatalogProps CrossEngineIndex Backend Router RouterProps Wal StorageEngine StorageProps.
From S2P Require Import WalProps TransitProps Transit Outbox Checkpoint Receipt Identity Peer Placement Admission NodeEngine NodeProps.
From S2P Require Import WireProtocol WireProps Network Outbound Gossip.
Local Open Scope Z_scope.

(** ** Top stamps *)
Definition ts_le (a b : HLCTimestamp) : Prop := ts_gt a b = false.

Lemma ts_le_refl a : ts_le a a.
Proof. apply (lt_irrefl (ltb := ts_lt)). Qed.
Lemma ts_le_trans a b c : ts_le a b -> ts_le b c -> ts_le a c.
Proof. unfold ts_le, ts_gt. intros H1 H2. eapply (nlt_trans ts_lt); eassumption. Qed.
Lemma ts_le_antisym a b : ts_le a b -> ts_le b a -> a = b.
Proof. unfold ts_le, ts_gt. intros H1 H2. by apply (lt_total (ltb := ts_lt)). Qed.

(** Equal when they have the same upper bounds. *)
Lemma ts_ub_eq a b : (forall u, ts_le a u <-> ts_le b u) -> a = b.
Proof. intros H. apply ts_le_antisym; apply H, ts_le_refl. Qed.

Lemma ts_max_le (x y u : HLCTimestamp) : ts_le (if ts_gt x y then x else y) u <-> ts_le x u /\ ts_le y u.
Proof.
  destruct (ts_gt x y) eqn:E.
  - split; [|tauto]. intros H. split; [done|]. eapply ts_le_trans; [|done]. apply (lt_asym ts_lt), E.
  - split; [|tauto]. intros H. split; [by eapply ts_le_trans|done].
Qed.

Lemma max_ts_le a b u : ts_le (max_ts a b) u <-> ts_le a u /\ ts_le b u.
Proof. unfold max_ts. rewrite ts_max_le. tauto. Qed.

Lemma fold_max_le {A} (g : A -> HLCTimestamp) l ts u :
  ts_le (fold_left (fun best x => let child := g x in if ts_gt child best then child else best) l ts) u
  <-> ts_le ts u /\ forall x, x ∈ l -> ts_le (g x) u.
Proof.
  revert ts. induction l as [|x l IH]; intros ts; cbn [fold_left].
  - split; [|tauto]. intros H. split; [done|]. by intros x ?%elem_of_nil.
  - rewrite IH. cbn zeta. rewrite ts_max_le. setoid_rewrite elem_of_cons. split.
    + intros [[H1 H2] H3]. split; [done|]. intros y [->|Hy]; auto.
    + intros [H1 H2]. split_and!; auto.
Qed.

(** Leaves carry no stamp but their own. *)
Fixpoint flat (s : Shape) : Prop :=
  match s with
  | SLeaf w => forall t, MaxTimestamp (w t) = t
  | SArr f | SObj f => forall k, flat (f k)
  end.

Lemma max_object_le ts t o u :
  NoDup o.*1 ->
  ts_le (MaxTimestamp (CObject ts t o)) u
  <-> ts_le ts u /\ forall k x, assoc k o = Some x -> ts_le (MaxTimestamp x) u.
Proof.
  intros Hn. cbn [MaxTimestamp]. rewrite (fold_max_le (fun kv => MaxTimestamp (snd kv))). apply and_iff_compat_l. split.
  - intros H k x Hx. apply assoc_elem in Hx. apply (H _ Hx).
  - intros H [k x] Hx. apply (H k x). by apply assoc_Some.
Qed.

Lemma max_array_le ts t a u :
  NoDup a.*1 ->
  ts_le (MaxTimestamp (CArray ts t a)) u
  <-> ts_le ts u /\ forall k x, assoc k a = Some x -> ts_le (MaxTimestamp (snd x)) u.
Proof.
  intros Hn. cbn [MaxTimestamp]. rewrite (fold_max_le (fun e => MaxTimestamp (snd (snd e)))). apply and_iff_compat_l. split.
  - intros H k x Hx. apply assoc_elem in Hx. apply (H _ Hx).
  - intros H [k x] Hx. apply (H k x). by apply assoc_Some.
Qed.

(** What bounds a join bounds both sides. *)
Lemma join_all {V} (f : V -> V -> V) la lb (P : V -> Prop) :
  NoDup la.*1 -> NoDup lb.*1 ->
  (forall k x y, assoc k la = Some x -> assoc k lb = Some y -> P (f x y) <-> P x /\ P y) ->
  (forall k x, assoc k (join f la lb) = Some x -> P x)
  <-> (forall k x, assoc k la = Some x -> P x) /\ (forall k x, assoc k lb = Some x -> P x).
Proof.
  intros Ha Hb Hf. split.
  - intros H. split; intros k x Hx; specialize (H k); rewrite join_lookup, Hx in H by done.
    + destruct (assoc k lb) as [y|] eqn:Ey; [|by apply H]. by apply (Hf k x y Hx Ey), H.
    + destruct (assoc k la) as [y|] eqn:Ey; [|by apply H]. by apply (Hf k y x Ey Hx), H.
  - intros [H1 H2] k x Hx. rewrite join_lookup in Hx by done.
    destruct (assoc k la) as [y|] eqn:Ey, (assoc k lb) as [z|] eqn:Ez; simplify_eq.
    + apply (Hf k y z Ey Ez). split; [by eapply H1|by eapply H2].
    + by eapply H1.
    + by eapply H2.
Qed.

Lemma MaxTimestamp_Merge_le s a b u :
  flat s -> has_shape s a -> has_shape s b ->
  ts_le (MaxTimestamp (Merge a b)) u <-> ts_le (MaxTimestamp a) u /\ ts_le (MaxTimestamp b) u.
Proof.
  revert a b. induction s as [w|f IH|f IH]; intros a b Hf Ha Hb; cbn [has_shape flat] in *.
  - destruct Ha as [La Ha], Hb as [Lb Hb]. rewrite Merge_leaf by done.
    assert (Ea : MaxTimestamp a = ts_of a) by (rewrite Ha at 1; apply Hf).
    assert (Eb : MaxTimestamp b = ts_of b) by (rewrite Hb at 1; apply Hf).
    rewrite Ea, Eb, <- max_ts_le. unfold lww, max_ts. destruct (ts_gt (ts_of b) (ts_of a)); by rewrite ?Ea, ?Eb.
  - destruct a as [| | | | |ta [] aa|]; try done. destruct b as [| | | | |tb [] ab|]; try done.
    destruct Ha as [Na Ha], Hb as [Nb Hb]. rewrite Merge_array, !max_array_le by (try apply join_nodup; done).
    rewrite max_ts_le, (join_all merge_elem aa ab (fun x => ts_le (MaxTimestamp (snd x)) u)) by
      (try done; intros k x y Hx Hy; cbn; by eapply IH; eauto). tauto.
  - destruct a as [| | | | | |ta [] oa]; try done. destruct b as [| | | | | |tb [] ob]; try done.
    destruct Ha as [Na Ha], Hb as [Nb Hb]. rewrite Merge_object, !max_object_le by (try apply join_nodup; done).
    rewrite max_ts_le, (join_all Merge oa ob (fun x => ts_le (MaxTimestamp x) u)) by
      (try done; intros k x y Hx Hy; by eapply IH; eauto). tauto.
Qed.

Lemma MaxTimestamp_Merge s a b :
  flat s -> has_shape s a -> has_shape s b ->
  MaxTimestamp (Merge a b) = max_ts (MaxTimestamp a) (MaxTimestamp b).
Proof. intros. apply ts_ub_eq. intros u. by rewrite (MaxTimestamp_Merge_le s), max_ts_le. Qed.

(** A merge of canonical values is canonical. *)
Lemma Merge_canon s a b : has_shape s a -> has_shape s b -> canon a -> canon b -> canon (Merge a b).
Proof.
  revert a b. induction s as [w|f IH|f IH]; intros a b Ha Hb Ca Cb; cbn [has_shape] in *.
  - destruct Ha as [La _], Hb as [Lb _]. rewrite Merge_leaf by done. by destruct (lww_either a b) as [->| ->].
  - destruct a as [| | | | |ta [] aa|]; try done. destruct b as [| | | | |tb [] ab|]; try done.
    destruct Ha as [Na Ha], Hb as [Nb Hb]. rewrite Merge_array.
    inversion Ca as [? Hv| |]; [done|subst]. inversion Cb as [? Hv| |]; [done|subst].
    constructor; [by apply join_sorted|]. intros k x Hx. rewrite join_lookup in Hx by done.
    destruct (assoc k aa) as [y|] eqn:Ey, (assoc k ab) as [z|] eqn:Ez; simplify_eq; eauto.
    cbn. eapply IH; eauto.
  - destruct a as [| | | | | |ta [] oa]; try done. destruct b as [| | | | | |tb [] ob]; try done.
    destruct Ha as [Na Ha], Hb as [Nb Hb]. rewrite Merge_object.
    inversion Ca as [? Hv| |]; [done|subst]. inversion Cb as [? Hv| |]; [done|subst].
    constructor; [by apply join_sorted|]. intros k x Hx. rewrite join_lookup in Hx by done.
    destruct (assoc k oa) as [y|] eqn:Ey, (assoc k ob) as [z|] eqn:Ez; simplify_eq; eauto.
    eapply IH; eauto.
Qed.

(** ** Documents a node can serve *)
Record sound_doc (v : CrdtValue) : Prop := {
  sd_canon : canon v;
  sd_wire : CrdtCodec.wire_ok v;
  sd_depth : (nesting v <= kMaxDecodeDepth)%nat;
  sd_size : blob_ok (EncodeDocument v);
}.

Lemma sound_decode v : sound_doc v -> DecodeDocument (EncodeDocument v) = Some v.
Proof.
  intros [Hc Hw Hn _]. unfold DecodeDocument, EncodeDocument, CrdtCodec.Decode.
  rewrite DecodeAt_Encode by (done || lia). by rewrite normalize_canon.
Qed.

Definition stamp_ok (t : HLCTimestamp) : Prop := ts_ok t /\ blob_ok (ts_Encode t).

Lemma fold_max_stamp {A} (g : A -> HLCTimestamp) l ts :
  stamp_ok ts -> (forall x, x ∈ l -> stamp_ok (g x)) ->
  stamp_ok (fold_left (fun best x => let child := g x in if ts_gt child best then child else best) l ts).
Proof.
  revert ts. induction l as [|x l IH]; intros ts Ht Hl; cbn [fold_left]; [done|]. cbn zeta. apply IH.
  - destruct (ts_gt _ _); [apply Hl; by left|done].
  - intros y Hy. apply Hl. by right.
Qed.

Lemma MaxTimestamp_stamp v : CrdtCodec.wire_ok v -> stamp_ok (MaxTimestamp v).
Proof.
  induction 1 as [v Hs Hh Hp|ts t a Hh Hp Hb Hw IH|ts t o Hh Hp Hb Hw IH].
  - by destruct v.
  - cbn [MaxTimestamp]. by apply (fold_max_stamp (fun e => MaxTimestamp (snd (snd e)))).
  - cbn [MaxTimestamp]. by apply (fold_max_stamp (fun kv => MaxTimestamp (snd kv))).
Qed.

(** The maps of fingerprints are lookups. *)
Lemma fold_insert_assoc {A V} (key : A -> bytes) (val : A -> V) (l : list A) k :
  NoDup (map key l) ->
  fold_left (fun m e => <[key e := val e]> m) l (∅ : gmap bytes V) !! k
  = assoc k (map (fun e => (key e, val e)) l).
Proof.
  intros Hn.
  assert (E : forall m : gmap bytes V, fold_left (fun m e => <[key e := val e]> m) l m
              = fold_left (fun m kv => <[fst kv := snd kv]> m) (map (fun e => (key e, val e)) l) m).
  { clear Hn. induction l as [|e l IH]; intros m; [done|]. cbn. apply IH. }
  rewrite E, fold_insert_lookup, lookup_empty.
  - by destruct (assoc k _).
  - rewrite <- list_fmap_compose. exact Hn.
Qed.

(** A keyed partial map over rows. *)
Definition keyed {V W} (f : bytes -> V -> option W) (rows : list (bytes * V)) : list (bytes * W) :=
  omap (fun r => w ← f r.1 r.2; Some (r.1, w)) rows.

Lemma keyed_cons {V W} (f : bytes -> V -> option W) k v rows :
  keyed f ((k, v) :: rows) = match f k v with Some w => (k, w) :: keyed f rows | None => keyed f rows end.
Proof. unfold keyed. cbn. by destruct (f k v). Qed.

Lemma keyed_keys {V W} (f : bytes -> V -> option W) rows k : k ∈ (keyed f rows).*1 -> k ∈ rows.*1.
Proof.
  induction rows as [|[k' v] rows IH]; [done|]. rewrite keyed_cons. destruct (f k' v) as [w|]; cbn.
  - intros [->|H]%elem_of_cons; [by left|right; by apply IH].
  - intros H. right. by apply IH.
Qed.

Lemma keyed_nodup {V W} (f : bytes -> V -> option W) rows : NoDup rows.*1 -> NoDup (keyed f rows).*1.
Proof.
  induction rows as [|[k v] rows IH]; intros Hn; [constructor|]. apply NoDup_cons in Hn as [Hk Hn]. rewrite keyed_cons.
  destruct (f k v) as [w|]; cbn; [|by apply IH]. constructor; [|by apply IH]. intros H. by apply Hk, (keyed_keys f).
Qed.

Lemma keyed_lookup {V W} (f : bytes -> V -> option W) rows k :
  NoDup rows.*1 -> assoc k (keyed f rows) = assoc k rows ≫= f k.
Proof.
  induction rows as [|[k' v] rows IH]; intros Hn; [done|]. apply NoDup_cons in Hn as [Hk Hn]. rewrite keyed_cons. cbn [assoc].
  case_decide as Heq.
  - subst k'. cbn [mbind option_bind]. destruct (f k v) as [w|] eqn:Ef; cbn [assoc]; [by rewrite decide_True|].
    apply assoc_None. intros H. by apply Hk, (keyed_keys f).
  - destruct (f k' v) as [w|]; [cbn [assoc]; rewrite decide_False by done|]; by apply IH.
Qed.

Section Nodes.
Context `{C : Crypto} `{D : Ed25519} {B : Type} {E : EngineBackend B} `{Sp : !BackendSpec E}.
Implicit Types (n : NodeEngine B) (nm : NetworkManager B).

(** Documents, access, identity and cache unchanged. *)
Definition kept n n' : Prop := stored_or_quiet [] [] n n' None.

Lemma kept_refl n : engine_ok (ne_storage n) -> kept n n.
Proof. apply nothing_stored. Qed.

Lemma kept_trans n1 n2 n3 : kept n1 n2 -> kept n2 n3 -> kept n1 n3.
Proof.
  intros [A1 A2 A3 A4 A5] [B1 B2 B3 B4 B5]. split; [done|congruence| | |congruence].
  - intros x. by rewrite B3.
  - intros c k. by rewrite B4.
Qed.

Lemma kept_storage n s :
  engine_ok s -> en_catalog s = en_catalog (ne_storage n) ->
  (forall c k, engine_docs s c k = engine_docs (ne_storage n) c k) -> kept n (with_storage s n).
Proof. intros H1 H2 H3. split; [done|done| |done|done]. intros x. cbn. by rewrite H2. Qed.

Lemma GetRawEncoded_spec c k n :
  engine_ok (ne_storage n) ->
  exists n', GetRawEncoded c k n
    = (match engine_docs (ne_storage n) c k with Some d => OK d | None => Fault kNotFound end, n') /\ kept n n'.
Proof.
  intros Hs. unfold GetRawEncoded. destruct (GetRaw_docs c k _ Hs) as (s & -> & H1 & H2 & H3).
  destruct (engine_docs (ne_storage n) c k) as [d|] eqn:Ed.
  - eexists. split; [done|]. by apply kept_storage.
  - rewrite bool_decide_eq_true_2 by done. cbn [negb].
    destruct (EngineScan_docs c [] 0 s H1) as (m & s' & -> & Hm & J1 & J2 & J3).
    rewrite scan_all, rows_of_lookup, Hm, H3, Ed. eexists. split; [done|].
    apply kept_storage; [done|congruence|]. intros c' k'. by rewrite J3.
Qed.

(** *** Digests *)
Definition fingerprint (d : bytes) : option (HLCTimestamp * bytes) :=
  v ← DecodeDocument d; Some (MaxTimestamp v, take 8 (Sha256 d)).

Definition serving (c : bytes) n : Prop :=
  engine_ok (ne_storage n) /\ cache_agrees (engine_docs (ne_storage n)) (ne_digests n).

(** The rows a digest covers: keys once, documents as stored. *)
Lemma LocalDigest_spec c n :
  nul_free c -> serving c n ->
  exists rows n', LocalDigest c n = (omap (fun r => digest_of r.1 r.2) rows, n')
    /\ NoDup rows.*1 /\ (forall k, assoc k rows = engine_docs (ne_storage n) c k)
    /\ serving c n' /\ ne_identity n' = ne_identity n
    /\ same_access (en_catalog (ne_storage n)) (en_catalog (ne_storage n'))
    /\ forall c' k, engine_docs (ne_storage n') c' k = engine_docs (ne_storage n) c' k.
Proof.
  intros Hc [Hs Ha]. destruct (LocalDigest_exact c n Hs Hc Ha) as [H1 H2].
  destruct (LocalDigest_state c n) as (cache & E1 & E2).
  destruct (EngineScan_docs c [] 0 (ne_storage n) Hs) as (m & s & Es & Hm & J1 & J2 & J3).
  rewrite Es in H1, E1. cbn [fst snd] in H1, E1. rewrite scan_all in H1. exists (rows_of m c), (LocalDigest c n).2.
  split; [rewrite <- H1; by destruct (LocalDigest c n)|]. split; [apply rows_of_nodup|].
  split; [intros k; by rewrite rows_of_lookup, Hm|].
  assert (Hd : forall c' k, engine_docs (ne_storage (LocalDigest c n).2) c' k = engine_docs (ne_storage n) c' k).
  { intros c' k. rewrite E1. apply J3. }
  split; [split; [by rewrite E1|]|].
  - intros c' k e d Hn Hl Hk. apply (H2 c' k e d Hn Hl). by rewrite <- Hd.
  - rewrite E1. split; [done|]. split; [|done]. intros x. cbn. by rewrite J2.
Qed.

Lemma digest_fingerprint k d : digest_of k d = w ← fingerprint d; Some (mkDigestOut k w.1 w.2).
Proof. unfold digest_of, fingerprint. by destruct (DecodeDocument d). Qed.

Lemma digests_cons k d rows :
  omap (fun r => digest_of r.1 r.2) ((k, d) :: rows)
  = match fingerprint d with
    | Some w => mkDigestOut k w.1 w.2 :: omap (fun r => digest_of r.1 r.2) rows
    | None => omap (fun r => digest_of r.1 r.2) rows
    end.
Proof. cbn [omap list_omap fst snd]. rewrite digest_fingerprint. by destruct (fingerprint d). Qed.

Lemma local_fingerprints_spec rows k :
  NoDup rows.*1 ->
  local_fingerprints (omap (fun r => digest_of r.1 r.2) rows) !! k = assoc k rows ≫= fingerprint.
Proof.
  intros Hn.
  assert (Hm : map (fun e => (do_key e, (do_top_ts e, do_content_hash e))) (omap (fun r => digest_of r.1 r.2) rows)
               = keyed (fun _ => fingerprint) rows).
  { clear Hn. induction rows as [|[k' d] rows IH]; [done|]. rewrite digests_cons, keyed_cons.
    destruct (fingerprint d) as [[ts h]|]; cbn [map fst snd do_key do_top_ts do_content_hash]; by rewrite IH. }
  unfold local_fingerprints. rewrite fold_insert_assoc, Hm; [by apply keyed_lookup|].
  assert (map do_key (omap (fun r => digest_of r.1 r.2) rows) = (keyed (fun _ => fingerprint) rows).*1) as ->.
  { rewrite <- Hm. by rewrite <- list_fmap_compose. }
  by apply keyed_nodup.
Qed.

(** The stamps survive the trip through the digest. *)
Definition stamps_ok (rows : list EngineRow) : Prop :=
  forall r v, r ∈ rows -> DecodeDocument r.2 = Some v -> stamp_ok (MaxTimestamp v).

Lemma remote_fingerprints_spec rows k :
  NoDup rows.*1 -> stamps_ok rows ->
  remote_fingerprints (map digest_entry (omap (fun r => digest_of r.1 r.2) rows)) !! k = assoc k rows ≫= fingerprint.
Proof.
  intros Hn Hst.
  assert (Hm : map (fun e => (de_key e, (ts_Decode (top_ts_encoded e), de_content_hash e)))
                 (map digest_entry (omap (fun r => digest_of r.1 r.2) rows)) = keyed (fun _ => fingerprint) rows).
  { clear Hn. induction rows as [|[k' d] rows IH]; [done|]. rewrite digests_cons, keyed_cons.
    assert (Hst' : stamps_ok rows) by (intros r v Hr; apply Hst; by right).
    destruct (fingerprint d) as [[ts h]|] eqn:Ef; [|by apply IH]. unfold fingerprint in Ef.
    destruct (DecodeDocument d) as [v|] eqn:Ev; cbn [mbind option_bind] in Ef; [|done]. injection Ef as <- <-.
    destruct (Hst (k', d) v) as [Ht _]; [by left|done|].
    cbn [map digest_entry fst snd do_key do_top_ts do_content_hash de_key top_ts_encoded de_content_hash].
    by rewrite ts_Decode_Encode, IH. }
  unfold remote_fingerprints. rewrite fold_insert_assoc, Hm; [by apply keyed_lookup|].
  assert (map de_key (map digest_entry (omap (fun r => digest_of r.1 r.2) rows)) = (keyed (fun _ => fingerprint) rows).*1) as ->.
  { rewrite <- Hm. clear. induction (map digest_entry _) as [|e l IHl]; cbn [map fmap list_fmap fst]; [done|by f_equal]. }
  by apply keyed_nodup.
Qed.

(** *** The two loops of the answer *)
Definition to_push (f : bytes -> option bytes) (remote : gmap bytes (HLCTimestamp * bytes)) (l : list (bytes * (HLCTimestamp * bytes)))
  : list DocEntry :=
  omap (fun x => if must_send remote x.1 x.2 then mkDocEntry x.1 <$> f x.1 else None) l.
Definition push_cost (f : bytes -> option bytes) (keys : list bytes) : Z :=
  foldr (fun k z => Zlen k + Zlen (default [] (f k)) + 8 + z) 0 keys.
Definition want_cost (keys : list bytes) : Z := foldr (fun k z => Zlen k + 4 + z) 0 keys.

Lemma push_cost_nonneg f l : 0 <= push_cost f l.
Proof.
  induction l as [|k l IH]; cbn; [lia|]. fold (push_cost f l). pose proof (Zlen_nonneg k).
  pose proof (Zlen_nonneg (default [] (f k))). lia.
Qed.
Lemma want_cost_nonneg l : 0 <= want_cost l.
Proof. induction l as [|k l IH]; cbn; [lia|]. fold (want_cost l). pose proof (Zlen_nonneg k). lia. Qed.

Lemma push_loop_spec c f remote l db out n :
  engine_ok (ne_storage n) -> (forall k, engine_docs (ne_storage n) c k = f k) ->
  db + push_cost f l.*1 <= kMaxDeltaBytes ->
  exists db' n', push_loop c remote l db out n = (out ++ to_push f remote l, db', n')
    /\ db' <= db + push_cost f l.*1 /\ kept n n'.
Proof.
  revert db out n. induction l as [|[k mine] l IH]; intros db out n Hs Hf Hc; cbn [push_loop].
  { exists db, n. rewrite app_nil_r. split; [done|]. split; [cbn; lia|by apply kept_refl]. }
  cbn [push_cost foldr fmap list_fmap fst] in Hc. fold (push_cost f l.*1) in Hc.
  pose proof (Zlen_nonneg k). pose proof (Zlen_nonneg (default [] (f k))). pose proof (push_cost_nonneg f l.*1).
  change (to_push f remote ((k, mine) :: l)) with
    (match (if must_send remote k mine then mkDocEntry k <$> f k else None) with
     | Some y => y :: to_push f remote l | None => to_push f remote l end).
  cbn [push_cost foldr fmap list_fmap fst]. fold (push_cost f l.*1). destruct (must_send remote k mine).
  - destruct (GetRawEncoded_spec c k n Hs) as (n1 & -> & Hk). rewrite Hf.
    assert (Hf1 : forall k, engine_docs (ne_storage n1) c k = f k) by (intros k'; by rewrite (sq_docs _ _ _ _ _ Hk), Hf).
    pose proof (sq_ok _ _ _ _ _ Hk) as Hs1. destruct (f k) as [d|]; cbn [from_option id fmap option_fmap option_map] in *.
    + destruct (Z.ltb_spec kMaxDeltaBytes (db + (Zlen k + Zlen d + 8))) as [|_]; [exfalso; lia|]. rewrite andb_false_r.
      destruct (IH (db + (Zlen k + Zlen d + 8)) (out ++ [mkDocEntry k d]) n1 Hs1 Hf1) as (db' & n' & -> & J1 & J2); [lia|].
      exists db', n'. rewrite <- app_assoc. split; [done|]. split; [lia|by eapply kept_trans].
    + destruct (IH db out n1 Hs1 Hf1) as (db' & n' & -> & J1 & J2); [lia|]. exists db', n'.
      split; [done|]. split; [lia|by eapply kept_trans].
  - destruct (IH db out n Hs Hf) as (db' & n' & -> & J1 & J2); [lia|]. exists db', n'. split; [done|]. split; [lia|done].
Qed.

Lemma want_loop_spec local l db pushed out :
  db + want_cost l.*1 <= kMaxDeltaBytes ->
  want_loop local l db pushed out = out ++ (filter (fun x => must_send local x.1 x.2 = true) l).*1.
Proof.
  revert db out. induction l as [|[k theirs] l IH]; intros db out Hc; cbn [want_loop]; [by rewrite app_nil_r|].
  cbn [want_cost foldr fmap list_fmap fst] in Hc. fold (want_cost l.*1) in Hc. pose proof (Zlen_nonneg k).
  destruct (must_send local k theirs) eqn:Em.
  - rewrite filter_cons_True by done. pose proof (want_cost_nonneg l.*1).
    destruct (Z.ltb_spec kMaxDeltaBytes (db + (Zlen k + 4))) as [|_]; [exfalso; lia|]. rewrite andb_false_r.
    rewrite IH by lia. cbn. by rewrite <- app_assoc.
  - rewrite filter_cons_False by (cbn; congruence). apply IH. lia.
Qed.

Lemma wanted_docs_spec c f keys n :
  engine_ok (ne_storage n) -> (forall k, engine_docs (ne_storage n) c k = f k) ->
  exists n', wanted_docs c keys n = (omap (fun k => mkDocEntry k <$> f k) keys, n') /\ kept n n'.
Proof.
  revert n. induction keys as [|k keys IH]; intros n Hs Hf; cbn [wanted_docs]; [exists n; split; [done|by apply kept_refl]|].
  destruct (GetRawEncoded_spec c k n Hs) as (n1 & -> & Hk).
  destruct (IH n1) as (n2 & -> & Hk2); [apply Hk|intros k'; by rewrite (sq_docs _ _ _ _ _ Hk), Hf|].
  exists n2. rewrite Hf. split; [|by eapply kept_trans]. cbn. by destruct (f k).
Qed.

(** *** Merging what arrives *)
Definition pairs (l : list DocEntry) : list (bytes * bytes) := map (fun d => (doc_key d, encoded_doc d)) l.
Definition merged (old : option CrdtValue) (remote : CrdtValue) : CrdtValue :=
  match old with Some v => Merge v remote | None => remote end.

(** Who a node is, whom it admits, and its other collections: unchanged. *)
Record same_apart (c : bytes) n n' : Prop := {
  sa_serving : serving c n';
  sa_id : ne_identity n' = ne_identity n;
  sa_access : same_access (en_catalog (ne_storage n)) (en_catalog (ne_storage n'));
  sa_docs : forall c' k, c' <> c -> engine_docs (ne_storage n') c' k = engine_docs (ne_storage n) c' k;
}.

Lemma same_apart_trans c n1 n2 n3 : same_apart c n1 n2 -> same_apart c n2 n3 -> same_apart c n1 n3.
Proof.
  intros [A1 A2 A3 A4] [B1 B2 B3 B4]. split; [done|congruence| |].
  - intros x. by rewrite B3.
  - intros c' k Hc. by rewrite B4, A4.
Qed.

Lemma kept_apart c n n' : serving c n -> kept n n' -> same_apart c n n'.
Proof.
  intros [H1 H2] [A1 A2 A3 A4 A5]. split; [|done|done|intros; apply A4]. split; [done|]. rewrite A5.
  intros c' k e d Hn Hl Hd. eapply H2; [done|done|]. by rewrite <- A4.
Qed.

Lemma refusals_cons st l : refusals (st :: l) = 0 -> is_fault st = false /\ refusals l = 0.
Proof.
  unfold refusals. destruct (is_fault st) eqn:Ef.
  - rewrite filter_cons_True by done. unfold Zlen. cbn [length]. lia.
  - rewrite filter_cons_False by congruence. done.
Qed.

Lemma assoc_pairs_None k docs : k ∉ map doc_key docs -> assoc k (pairs docs) = None.
Proof. intros H. apply assoc_None. unfold pairs. by rewrite <- list_fmap_compose. Qed.

Lemma merge_docs_spec envs c docs who n sts n' :
  nul_free c -> c <> kTransitCollection -> serving c n -> NoDup (map doc_key docs) ->
  merge_docs envs c docs who n = (Some sts, n') -> refusals sts = 0 ->
  (forall d r, d ∈ docs -> DecodeDocument (encoded_doc d) = Some r ->
     is_Some (DecodeDocument (EncodeDocument (merged (stored_doc n c (doc_key d)) r)))) ->
  same_apart c n n'
  /\ forall k, engine_docs (ne_storage n') c k
       = match assoc k (pairs docs) with
         | Some d => r ← DecodeDocument d; Some (EncodeDocument (merged (stored_doc n c k) r))
         | None => engine_docs (ne_storage n) c k
         end.
Proof.
  intros Hnul Hc. revert envs n sts. induction docs as [|d docs IH]; intros envs n sts Hs Hn Hm Hr Hdec; cbn [merge_docs] in Hm.
  { injection Hm as <- <-. split; [|done]. apply kept_apart; [done|]. apply kept_refl, Hs. }
  apply NoDup_cons in Hn as [Hd Hn].
  pose proof (NodeMergeRemote_spec (envs O) c (doc_key d) (encoded_doc d) who n (proj1 Hs)) as Hspec.
  destruct (NodeMergeRemote _ _ _ _ _ n) as [[st|] n1]; [|done]. destruct Hspec as (x & Hq & _ & Hok).
  destruct (merge_docs _ _ docs _ n1) as [[l|] n2] eqn:Em; [|done]. injection Hm as <- <-.
  apply refusals_cons in Hr as [Hst Hr]. destruct st as [[]|]; [|done].
  destruct (Hok eq_refl Hc) as (remote & Hrem & ->). clear Hok. fold (merged (stored_doc n c (doc_key d)) remote) in Hq.
  assert (Hs1 : same_apart c n n1).
  { split; [split; [apply Hq|]|apply Hq|apply Hq|].
    - apply (stored_cache_doc c (doc_key d) n n1 _ Hnul Hq); [|apply Hs]. intros y [= <-]. apply (Hdec d remote); [by left|done].
    - intros c' k' Hc'. rewrite (sq_docs _ _ _ _ _ Hq). unfold put_at. by rewrite decide_False by congruence. }
  assert (Hsame : forall k, k <> doc_key d -> engine_docs (ne_storage n1) c k = engine_docs (ne_storage n) c k).
  { intros k Hk. rewrite (sq_docs _ _ _ _ _ Hq). unfold put_at. by rewrite decide_False by congruence. }
  destruct (IH _ _ _ (sa_serving _ _ _ Hs1) Hn Em Hr) as [J1 J2].
  { intros d' r Hd' Hdr. unfold stored_doc. rewrite Hsame; [by apply Hdec; [right|]|].
    intros Heq. apply Hd. rewrite <- Heq. apply list_elem_of_fmap. by exists d'. }
  split; [by eapply same_apart_trans|]. intros k. rewrite J2. cbn [pairs map assoc]. fold (pairs docs).
  case_decide as Hk.
  - subst k. rewrite assoc_pairs_None by done. rewrite Hrem. cbn [mbind option_bind]. rewrite (sq_docs _ _ _ _ _ Hq).
    unfold put_at. by rewrite decide_True.
  - unfold stored_doc. by rewrite Hsame.
Qed.

Lemma pairs_keys l : (pairs l).*1 = map doc_key l.
Proof. unfold pairs. by rewrite <- list_fmap_compose. Qed.

Lemma to_push_pairs f remote l :
  pairs (to_push f remote l) = keyed (fun k x => if must_send remote k x then f k else None) l.
Proof.
  induction l as [|[k x] l IH]; [done|]. rewrite keyed_cons, <- IH. unfold to_push. cbn [omap list_omap fst snd].
  destruct (must_send remote k x); [|done]. by destruct (f k).
Qed.

Lemma wanted_pairs (g : bytes -> option bytes) keys :
  pairs (omap (fun k => mkDocEntry k <$> g k) keys) = keyed (fun k (_ : unit) => g k) (map (fun k => (k, tt)) keys).
Proof.
  induction keys as [|k l IH]; [done|]. cbn [map]. rewrite keyed_cons, <- IH. cbn [omap list_omap]. by destruct (g k).
Qed.

Lemma assoc_unit (k : bytes) keys : assoc k (map (fun k => (k, tt)) keys) = if decide (k ∈ keys) then Some tt else None.
Proof.
  induction keys as [|k' keys IH]; [done|]. cbn [map assoc]. rewrite IH.
  repeat case_decide; try done; exfalso; set_solver.
Qed.

(** *** What a node has in a collection *)
Definition hash8 (v : CrdtValue) : bytes := take 8 (Sha256 (EncodeDocument v)).
Definition print_of (v : CrdtValue) : HLCTimestamp * bytes := (MaxTimestamp v, hash8 v).

Record stock (c : bytes) n (f : bytes -> option CrdtValue) (keys : list bytes) : Prop := {
  st_serving : serving c n;
  st_nodup : NoDup keys;
  st_keys : forall k, k ∈ keys <-> is_Some (f k);
  st_docs : forall k, engine_docs (ne_storage n) c k = EncodeDocument <$> f k;
  st_sound : forall k v, f k = Some v -> sound_doc v;
}.

Lemma print_sound v : sound_doc v -> fingerprint (EncodeDocument v) = Some (print_of v).
Proof. intros H. unfold fingerprint. by rewrite sound_decode. Qed.

Lemma stock_stored c n f keys k : stock c n f keys -> stored_doc n c k = f k.
Proof.
  intros H. unfold stored_doc. rewrite (st_docs _ _ _ _ H). destruct (f k) as [v|] eqn:Ev; [|done]. cbn.
  by apply sound_decode, (st_sound _ _ _ _ H k).
Qed.

Lemma assoc_is_Some {V} (k : bytes) (l : list (bytes * V)) : k ∈ l.*1 <-> is_Some (assoc k l).
Proof.
  destruct (assoc k l) as [v|] eqn:Ek.
  - split; [by eexists|]. intros _. apply assoc_elem in Ek. apply list_elem_of_fmap. by exists (k, v).
  - apply assoc_None in Ek. split; [done|by intros []].
Qed.

(** The digest of a stock, as rows. *)
Lemma stock_digest c n f keys :
  nul_free c -> stock c n f keys ->
  exists rows n', LocalDigest c n = (omap (fun r => digest_of r.1 r.2) rows, n') /\ NoDup rows.*1 /\ stamps_ok rows
    /\ rows.*1 ≡ₚ keys
    /\ (forall k, assoc k rows ≫= fingerprint = print_of <$> f k) /\ stock c n' f keys /\ same_apart c n n'.
Proof.
  intros Hc H. destruct (LocalDigest_spec c n Hc (st_serving _ _ _ _ H)) as (rows & n' & -> & Hn & Hr & J1 & J2 & J3 & J4).
  assert (Hrow : forall k, assoc k rows = EncodeDocument <$> f k) by (intros k; by rewrite Hr, (st_docs _ _ _ _ H)).
  exists rows, n'. split_and!; [done|done| | | | |].
  - intros [k d] v Hin Hv. cbn [snd] in Hv. apply assoc_Some in Hin; [|done]. rewrite Hrow in Hin.
    destruct (f k) as [u|] eqn:Eu; [|done]. cbn in Hin. injection Hin as <-.
    pose proof (st_sound _ _ _ _ H k u Eu) as Hu. rewrite sound_decode in Hv by done. injection Hv as <-.
    apply MaxTimestamp_stamp, Hu.
  - apply NoDup_Permutation; [done|apply H|]. intros k. rewrite (st_keys _ _ _ _ H).
    rewrite assoc_is_Some, Hrow. by rewrite fmap_is_Some.
  - intros k. rewrite Hrow. destruct (f k) as [v|] eqn:Ev; [|done]. cbn [fmap option_fmap option_map mbind option_bind].
    by apply print_sound, (st_sound _ _ _ _ H k).
  - split; [done|apply H|apply H| |apply H]. intros k. by rewrite J4, (st_docs _ _ _ _ H).
  - split; [done|done|done|]. intros c' k _. apply J4.
Qed.

(** *** The answer to a digest *)
Lemma push_cost_perm f l l' : l ≡ₚ l' -> push_cost f l = push_cost f l'.
Proof. unfold push_cost. induction 1; cbn; lia. Qed.
Lemma want_cost_perm l l' : l ≡ₚ l' -> want_cost l = want_cost l'.
Proof. unfold want_cost. induction 1; cbn; lia. Qed.

Lemma want_cost_bounds l : 4 * Zlen l <= want_cost l /\ forall k, k ∈ l -> Zlen k <= want_cost l.
Proof.
  induction l as [|k l [IH1 IH2]]; [split; [done|by intros k ?%elem_of_nil]|].
  cbn [want_cost foldr]. fold (want_cost l). pose proof (Zlen_nonneg k). pose proof (want_cost_nonneg l).
  unfold Zlen at 1. cbn [length]. unfold Zlen at 1 in IH1. split; [lia|].
  intros k' [->|Hk]%elem_of_cons; [lia|]. specialize (IH2 _ Hk). lia.
Qed.

Lemma push_cost_bounds f l :
  8 * Zlen l <= push_cost f l /\ forall k, k ∈ l -> Zlen k <= push_cost f l /\ Zlen (default [] (f k)) <= push_cost f l.
Proof.
  induction l as [|k l [IH1 IH2]]; [split; [done|by intros k ?%elem_of_nil]|].
  cbn [push_cost foldr]. fold (push_cost f l). pose proof (Zlen_nonneg k). pose proof (push_cost_nonneg f l).
  pose proof (Zlen_nonneg (default [] (f k))).
  unfold Zlen at 1. cbn [length]. unfold Zlen at 1 in IH1. split; [lia|].
  intros k' [->|Hk]%elem_of_cons; [lia|]. specialize (IH2 _ Hk). lia.
Qed.

Lemma nodup_Zlen_le (l l' : list bytes) : NoDup l -> (forall k, k ∈ l -> k ∈ l') -> Zlen l <= Zlen l'.
Proof. intros Hn Hs. unfold Zlen. apply inj_le. apply submseteq_length, NoDup_submseteq; [done|]. intros x. apply Hs. Qed.

(** The document one side sends given what the other announced. *)
Definition offers (mine theirs : option CrdtValue) : option CrdtValue :=
  match mine with
  | None => None
  | Some w => match theirs with
              | None => Some w
              | Some u => if differs (print_of w) (print_of u) then Some w else None
              end
  end.

Lemma offers_must_send (m : gmap bytes (HLCTimestamp * bytes)) f k w :
  (forall k, m !! k = print_of <$> f k) ->
  offers (Some w) (f k) = if must_send m k (print_of w) then Some w else None.
Proof. intros Hm. unfold must_send, offers. rewrite Hm. by destruct (f k). Qed.

Lemma map_keys_perm {V} (m : gmap bytes V) keys (P : bytes -> Prop) :
  NoDup keys -> (forall k, k ∈ keys <-> P k) -> (forall k, is_Some (m !! k) <-> P k) -> (map_to_list m).*1 ≡ₚ keys.
Proof.
  intros Hn Hk Hm. apply NoDup_Permutation; [apply NoDup_fst_map_to_list|done|]. intros k. rewrite Hk, <- Hm.
  split.
  - intros ([k' v] & -> & Hin)%list_elem_of_fmap. apply elem_of_map_to_list in Hin. by eexists.
  - intros [v Hv]. apply list_elem_of_fmap. exists (k, v). split; [done|]. by apply elem_of_map_to_list.
Qed.

Definition encoded (f : bytes -> option CrdtValue) (k : bytes) : option bytes := EncodeDocument <$> f k.

(** A response built from both stocks. *)
Record delta_of (c : bytes) (f g : bytes -> option CrdtValue) (p : DeltaResponsePayload) : Prop := {
  do_wire : delta_ok p;
  do_nodup : NoDup (map doc_key (pushed p));
  do_pushed : forall k, assoc k (pairs (pushed p)) = EncodeDocument <$> offers (g k) (f k);
  do_wanted_nodup : NoDup (wanted_keys p);
  do_wanted : forall k, k ∈ wanted_keys p <-> is_Some (offers (f k) (g k));
}.

Definition within_budget (c : bytes) (g : bytes -> option CrdtValue) (ka kb : list bytes) : Prop :=
  Zlen c + 32 + push_cost (encoded g) kb + want_cost ka <= kMaxDeltaBytes.

Lemma pushed_of remote local f g :
  (forall k, remote !! k = print_of <$> f k) -> (forall k, local !! k = print_of <$> g k) ->
  let p := to_push (encoded g) remote (map_to_list local) in
  NoDup (map doc_key p) /\ forall k, assoc k (pairs p) = EncodeDocument <$> offers (g k) (f k).
Proof.
  intros Hr Hl p. unfold p. split.
  - rewrite <- pairs_keys, to_push_pairs. apply keyed_nodup, NoDup_fst_map_to_list.
  - intros k. rewrite to_push_pairs, keyed_lookup, assoc_map_to_list, Hl by apply NoDup_fst_map_to_list.
    destruct (g k) as [w|] eqn:Eg; [|done]. cbn [fmap option_fmap option_map mbind option_bind].
    rewrite (offers_must_send remote f k w Hr). unfold encoded. rewrite Eg. by destruct (must_send _ _ _).
Qed.

Lemma wanted_of remote local f g :
  (forall k, remote !! k = print_of <$> f k) -> (forall k, local !! k = print_of <$> g k) ->
  let l := (filter (fun x => must_send local x.1 x.2 = true) (map_to_list remote)).*1 in
  NoDup l /\ forall k, k ∈ l <-> is_Some (offers (f k) (g k)).
Proof.
  intros Hr Hl l. unfold l. split.
  - eapply sublist_NoDup; [apply (NoDup_fst_map_to_list remote)|]. apply fmap_sublist, sublist_filter.
  - intros k. split.
    + intros ([k' x] & -> & Hin)%list_elem_of_fmap. apply list_elem_of_filter in Hin as [Hm Hin]. cbn [fst snd] in *.
      apply elem_of_map_to_list in Hin. rewrite Hr in Hin. destruct (f k') as [u|]; [|done]. cbn in Hin.
      injection Hin as <-. rewrite (offers_must_send local g k' u Hl), Hm. by eexists.
    + destruct (f k) as [u|] eqn:Ef; [|by intros []]. rewrite (offers_must_send local g k u Hl).
      destruct (must_send _ _ _) eqn:Em; [|by intros []]. intros _. apply list_elem_of_fmap. exists (k, print_of u).
      split; [done|]. apply list_elem_of_filter. split; [done|]. apply elem_of_map_to_list. by rewrite Hr, Ef.
Qed.

(** Everything in the answer fits its length fields. *)
Lemma delta_wire c f g ka kb p w :
  within_budget c g ka kb -> (forall k, k ∈ ka <-> is_Some (f k)) -> (forall k, k ∈ kb <-> is_Some (g k)) ->
  NoDup (map doc_key p) -> (forall k, assoc k (pairs p) = EncodeDocument <$> offers (g k) (f k)) ->
  NoDup w -> (forall k, k ∈ w <-> is_Some (offers (f k) (g k))) -> delta_ok (mkDelta c p w).
Proof.
  intros Hb Ha Hg Hn Hp Hwn Hw. unfold within_budget, kMaxDeltaBytes in Hb.
  destruct (push_cost_bounds (encoded g) kb) as [P1 P2]. destruct (want_cost_bounds ka) as [W1 W2].
  pose proof (Zlen_nonneg c). pose proof (push_cost_nonneg (encoded g) kb). pose proof (want_cost_nonneg ka).
  assert (Hoff : forall x y, is_Some (offers x y) -> is_Some x) by (by intros [] ? []).
  assert (Hpk : forall d, d ∈ p -> doc_key d ∈ kb /\ encoded g (doc_key d) = Some (encoded_doc d)).
  { intros d Hd. assert (Hin : assoc (doc_key d) (pairs p) = Some (encoded_doc d)).
    { apply assoc_Some; [by rewrite pairs_keys|]. apply list_elem_of_fmap. by exists d. }
    rewrite Hp in Hin. destruct (offers (g (doc_key d)) _) as [v|] eqn:Eo; [|done]. injection Hin as Hin.
    unfold encoded. destruct (g (doc_key d)) as [w'|] eqn:Eg; [|done]. split; [apply Hg; by rewrite Eg|].
    assert (v = w') as <- by (unfold offers in Eo; repeat case_match; by simplify_eq). cbn. by rewrite Hin. }
  assert (Hkw : forall k, k ∈ w -> k ∈ ka) by (intros k Hk; apply Ha; by apply Hw, Hoff in Hk).
  split; [unfold blob_ok; cbn; lia|]. split; [split|split]; cbn [pushed wanted_keys].
  - assert (Zlen p <= Zlen kb); [|lia]. replace (Zlen p) with (Zlen (map doc_key p)) by (unfold Zlen; by rewrite length_map).
    apply nodup_Zlen_le; [done|]. intros k (d & -> & Hd)%list_elem_of_fmap. by apply Hpk.
  - apply Forall_forall. intros d Hd. destruct (Hpk d Hd) as [Hk He]. destruct (P2 _ Hk) as [B1 B2]. rewrite He in B2.
    cbn in B2. unfold blob_ok. lia.
  - pose proof (nodup_Zlen_le w ka Hwn Hkw). lia.
  - apply Forall_forall. intros k Hk. specialize (W2 k (Hkw k Hk)). unfold blob_ok. lia.
Qed.

Lemma HandleDigest_spec peer entries b c f g ka kb :
  nul_free c -> NodeCanRead (nm_engine b) c (PeerRequestor peer) = true -> stock c (nm_engine b) g kb ->
  (forall k, remote_fingerprints entries !! k = print_of <$> f k) -> NoDup ka -> (forall k, k ∈ ka <-> is_Some (f k)) ->
  within_budget c g ka kb ->
  exists p n', HandleDigest peer (mkDigest c entries) b = (Some (mkMessage kDeltaResponse (Delta_Encode p)), with_engine n' b)
    /\ dr_collection p = c /\ delta_of c f g p /\ stock c n' g kb /\ same_apart c (nm_engine b) n'.
Proof.
  intros Hnul Hread Hst Hrem Hna Hka Hbud. unfold HandleDigest. cbn [dg_collection dg_entries]. rewrite Hread. cbn [negb].
  destruct (stock_digest c _ g kb Hnul Hst) as (rows & n1 & -> & Hn & _ & Hperm & Hfp & Hst1 & Hap1).
  set (remote := remote_fingerprints entries) in *. set (local := local_fingerprints _).
  assert (Hloc : forall k, local !! k = print_of <$> g k).
  { intros k. unfold local. by rewrite local_fingerprints_spec, Hfp. }
  assert (Hlk : (map_to_list local).*1 ≡ₚ kb).
  { apply (map_keys_perm local kb (fun k => is_Some (g k))); [apply Hst|apply Hst|]. intros k. rewrite Hloc.
    apply fmap_is_Some. }
  assert (Hrk : (map_to_list remote).*1 ≡ₚ ka).
  { apply (map_keys_perm remote ka (fun k => is_Some (f k))); [done|done|]. intros k. rewrite Hrem. apply fmap_is_Some. }
  unfold within_budget in Hbud. pose proof (want_cost_nonneg ka).
  destruct (push_loop_spec c (encoded g) remote (map_to_list local) (Zlen c + 32) [] n1) as (db & n2 & -> & Hdb & Hk).
  { apply Hst1. }
  { intros k. apply Hst1. }
  { rewrite (push_cost_perm _ _ _ Hlk). lia. }
  rewrite (push_cost_perm _ _ _ Hlk) in Hdb. rewrite want_loop_spec by (rewrite (want_cost_perm _ _ Hrk); lia).
  cbn [app]. destruct (pushed_of remote local f g Hrem Hloc) as [P1 P2].
  destruct (wanted_of remote local f g Hrem Hloc) as [W1 W2]. eexists _, n2. split; [done|]. split; [done|].
  pose proof (kept_apart c n1 n2 (st_serving _ _ _ _ Hst1) Hk) as Hap2. split_and!.
  - split; [|done..]. apply (delta_wire c f g ka kb); [done|done|apply Hst|done..].
  - destruct Hst1. split; [apply Hap2|done|done| |done]. intros k. by rewrite (sq_docs _ _ _ _ _ Hk).
  - by eapply same_apart_trans.
Qed.

(** *** No exception on documents that decode *)
Lemma NodeMergeRemote_total env c k d who n :
  engine_ok (ne_storage n) -> (forall x, engine_docs (ne_storage n) c k = Some x -> is_Some (DecodeDocument x)) ->
  exists st, (NodeMergeRemote env c k d who n).1 = Some st.
Proof.
  intros Hs Hx. unfold NodeMergeRemote. case_bool_decide.
  { destruct (rq_is_local who); [by eexists|]. destruct (Transit.Decode d); [|by eexists].
    destruct (MergeRemoteEnvelope _ _ _). by eexists. }
  destruct (NodeCanWrite n c who); [|by eexists]. cbn [negb]. destruct (DecodeDocument d) as [remote|]; [|by eexists].
  destruct (Observe _ _ _) as [[] clock]; [|by eexists]. cbn [negb].
  destruct (read_document_spec c k (with_clock clock (ne_tags n) n) Hs) as (s & -> & _). cbn [ne_storage with_clock].
  destruct (engine_docs (ne_storage n) c k) as [x|] eqn:Ex.
  - destruct (Hx x eq_refl) as [v ->]. destruct (write_merged _ _ _ _ _ _). by eexists.
  - destruct (write_merged _ _ _ _ _ _). by eexists.
Qed.

Lemma merge_docs_total envs c docs who n :
  engine_ok (ne_storage n) -> NoDup (map doc_key docs) ->
  (forall d x, d ∈ docs -> engine_docs (ne_storage n) c (doc_key d) = Some x -> is_Some (DecodeDocument x)) ->
  exists sts, (merge_docs envs c docs who n).1 = Some sts.
Proof.
  revert envs n. induction docs as [|d docs IH]; intros envs n Hs Hn Hx; cbn [merge_docs]; [by eexists|].
  apply NoDup_cons in Hn as [Hd Hn].
  destruct (NodeMergeRemote_total (envs O) c (doc_key d) (encoded_doc d) who n Hs) as [st Hst].
  { intros x. apply Hx. by left. }
  pose proof (NodeMergeRemote_spec (envs O) c (doc_key d) (encoded_doc d) who n Hs) as Hspec.
  destruct (NodeMergeRemote _ _ _ _ _ n) as [r n1]. cbn [fst] in Hst. subst r. destruct Hspec as (x & Hq & _).
  destruct (IH (fun i => envs (S i)) n1) as [sts Hsts]; [apply Hq|done| |].
  - intros d' y Hd' Hy. apply (Hx d' y); [by right|]. rewrite <- Hy, (sq_docs _ _ _ _ _ Hq).
    destruct x; [|done]. unfold put_at. rewrite decide_False; [done|]. intros [= Heq].
    apply Hd. rewrite <- Heq. apply list_elem_of_fmap. by exists d'.
  - destruct (merge_docs _ c docs who n1) as [r n2]. cbn [fst] in *. subst r. by eexists.
Qed.

(** *** Requests over the link *)
Definition link (envs : Z -> request_env) (from : bytes) : Transport (NetworkManager B) :=
  fun _ _ m b => let '(r, b') := HandleRequest (envs (m_type m)) from m b in (OK r, b').

Lemma digest_wire c ka rows :
  Zlen c + want_cost ka <= kMaxDeltaBytes -> NoDup rows.*1 -> stamps_ok rows -> rows.*1 ≡ₚ ka ->
  digest_ok (mkDigest c (map digest_entry (omap (fun r => digest_of r.1 r.2) rows))).
Proof.
  intros Hb Hn Hst Hp. unfold kMaxDeltaBytes in Hb. destruct (want_cost_bounds ka) as [W1 W2].
  pose proof (Zlen_nonneg c). pose proof (want_cost_nonneg ka).
  assert (Hlen : Zlen rows = Zlen ka) by (unfold Zlen; by rewrite <- (Permutation_length Hp), length_fmap).
  split; [unfold blob_ok; cbn; lia|]. cbn [dg_entries]. split.
  - assert (Zlen (map digest_entry (omap (fun r => digest_of r.1 r.2) rows)) <= Zlen rows); [|lia].
    unfold Zlen. rewrite length_map. apply inj_le. clear. induction rows as [|r rows IH]; [done|].
    cbn [omap list_omap]. destruct (digest_of r.1 r.2); cbn [length]; lia.
  - apply Forall_forall. intros e (e0 & -> & He)%list_elem_of_fmap. apply list_elem_of_omap in He as ([k d] & Hin & He).
    cbn [fst snd] in He. unfold digest_of in He. destruct (DecodeDocument d) as [v|] eqn:Ev; [|done]. injection He as <-.
    cbn [digest_entry de_key top_ts_encoded de_content_hash do_key do_top_ts do_content_hash].
    assert (Hk : k ∈ ka) by (rewrite <- Hp; apply list_elem_of_fmap; by exists (k, d)). specialize (W2 k Hk).
    destruct (Hst (k, d) v Hin Ev) as [_ Hts]. split; [unfold blob_ok; lia|]. split; [done|].
    unfold blob_ok, Zlen. rewrite length_take. lia.
Qed.

(** The parts of a manager an exchange reads again. *)
Lemma HandleRequest_digest env from d b c f g ka kb :
  rv_allowed env = true -> digest_ok d -> dg_collection d = c -> nul_free c ->
  NodeCanRead (nm_engine b) c (PeerRequestor from) = true -> stock c (nm_engine b) g kb ->
  (forall k, remote_fingerprints (dg_entries d) !! k = print_of <$> f k) -> NoDup ka -> (forall k, k ∈ ka <-> is_Some (f k)) ->
  within_budget c g ka kb ->
  exists p b1, HandleRequest env from (mkMessage kDigest (Digest_Encode d)) b = (mkMessage kDeltaResponse (Delta_Encode p), b1)
    /\ delta_of c f g p /\ stock c (nm_engine b1) g kb /\ same_apart c (nm_engine b) (nm_engine b1)
    /\ nm_dedup b1 = nm_dedup b /\ nm_rejected b1 = nm_rejected b.
Proof.
  intros Hall Hd Hc Hnul Hread Hst Hrem Hna Hka Hbud. unfold HandleRequest. rewrite Hall. cbn [negb].
  set (b0 := match GetPeer (nm_peers b) from with Some seen => _ | None => b end).
  assert (H0 : nm_engine b0 = nm_engine b /\ nm_dedup b0 = nm_dedup b /\ nm_rejected b0 = nm_rejected b)
    by (unfold b0; by destruct (GetPeer _ _)). destruct H0 as (E1 & E2 & E3).
  change (dispatch env from (mkMessage kDigest (Digest_Encode d)) b0)
    with (decoded Digest_Decode (Digest_Encode d) (HandleDigest from) b0).
  unfold decoded. rewrite (run_round_trip Digest_Encode Digest_Decode digest_ok d Hd). destruct d as [c' entries].
  cbn [dg_collection dg_entries] in *. subst c'.
  destruct (HandleDigest_spec from entries b0 c f g ka kb) as (p & n' & -> & _ & J1 & J2 & J3); try rewrite E1; try done.
  eexists p, _. split; [done|]. cbn [nm_engine with_engine nm_dedup nm_rejected]. rewrite E1 in J3. done.
Qed.

(** Fulfilment: the documents sent are merged, and nothing is relayed. *)
Lemma HandleRequest_fulfil env from c l id b g kb :
  rv_allowed env = true -> broadcast_ok (mkBroadcast c l id 0) -> nul_free c -> c <> kTransitCollection ->
  (NoteAndCheckNew (nm_dedup b) id).1 = true -> stock c (nm_engine b) g kb -> NoDup (map doc_key l) ->
  (forall d r, d ∈ l -> DecodeDocument (encoded_doc d) = Some r -> sound_doc (merged (g (doc_key d)) r)) ->
  let b1 := (HandleRequest env from (mkMessage kOpBroadcast (Broadcast_Encode (mkBroadcast c l id 0))) b).2 in
  nm_rejected b1 = nm_rejected b ->
  same_apart c (nm_engine b) (nm_engine b1)
  /\ forall k, engine_docs (ne_storage (nm_engine b1)) c k
       = match assoc k (pairs l) with
         | Some d => r ← DecodeDocument d; Some (EncodeDocument (merged (g k) r))
         | None => EncodeDocument <$> g k
         end.
Proof.
  intros Hall Hok Hnul Hc Hfresh Hst Hn Hsound b1. unfold b1, HandleRequest. rewrite Hall. cbn [negb].
  set (b0 := match GetPeer (nm_peers b) from with Some seen => _ | None => b end).
  assert (H0 : nm_engine b0 = nm_engine b /\ nm_dedup b0 = nm_dedup b /\ nm_rejected b0 = nm_rejected b)
    by (unfold b0; by destruct (GetPeer _ _)). destruct H0 as (E1 & E2 & E3).
  change (dispatch env from (mkMessage kOpBroadcast (Broadcast_Encode (mkBroadcast c l id 0))) b0)
    with (decoded Broadcast_Decode (Broadcast_Encode (mkBroadcast c l id 0)) (HandleOpBroadcast env from) b0).
  unfold decoded. rewrite (run_round_trip Broadcast_Encode Broadcast_Decode broadcast_ok _ Hok).
  unfold HandleOpBroadcast. cbn [ob_message_id ob_collection ob_docs ob_ttl]. rewrite E2.
  destruct (NoteAndCheckNew (nm_dedup b) id) as [fresh dedup]. cbn [fst] in Hfresh. subst fresh. cbn [negb].
  cbn [nm_engine with_dedup]. rewrite E1.
  assert (Hstored : forall k, stored_doc (nm_engine b) c k = g k) by (intros k; by apply (stock_stored c _ g kb)).
  destruct (merge_docs_total (rv_merge env) c l (PeerRequestor from) (nm_engine b)) as [sts Hsts].
  { apply Hst. }
  { done. }
  { intros d x _ Hx. rewrite (st_docs _ _ _ _ Hst) in Hx. destruct (g (doc_key d)) as [v|] eqn:Ev; [|done].
    injection Hx as <-. rewrite (sound_decode v); [by eexists|]. by apply (st_sound _ _ _ _ Hst (doc_key d)). }
  destruct (merge_docs (rv_merge env) c l (PeerRequestor from) (nm_engine b)) as [r n1] eqn:Em. cbn [fst] in Hsts. subst r.
  assert (Hty : (0 <? 0) = false) by done. rewrite Hty. clear Hty.
  set (reply := match l with [] => _ | _ :: _ => _ end).
  cbn [snd nm_rejected with_counts with_engine with_dedup nm_engine]. rewrite E3. intros Hrej.
  destruct (merge_docs_spec (rv_merge env) c l (PeerRequestor from) (nm_engine b) sts n1) as [J1 J2]; try done.
  - apply Hst.
  - lia.
  - intros d r Hd Hr. rewrite Hstored, (sound_decode _ (Hsound d r Hd Hr)). by eexists.
  - split; [done|]. intros k. by rewrite J2, Hstored, (st_docs _ _ _ _ Hst).
Qed.

(** *** One exchange *)

(** What both sides store for a key afterwards: the initiator first merges what is
    pushed, then sends its current document if the other side asked for it. *)
Definition round_docs (x y : option CrdtValue) : option CrdtValue * option CrdtValue :=
  let x' := match offers y x with Some w => Some (merged x w) | None => x end in
  (x', match offers x y, x' with Some _, Some v => Some (merged y v) | _, _ => y end).

Lemma offers_is x y w : offers x y = Some w -> x = Some w.
Proof. unfold offers. destruct x, y; try case_match; congruence. Qed.

Lemma round_docs_some x y :
  (is_Some (round_docs x y).1 <-> is_Some x \/ is_Some y) /\ (is_Some (round_docs x y).2 <-> is_Some x \/ is_Some y).
Proof.
  unfold round_docs. destruct x as [u|], y as [w|]; cbn [offers fst snd].
  - repeat case_match; split; split; intros; try (by eexists); left; by eexists.
  - split; (split; [by left|by eexists]).
  - split; (split; [by right|by eexists]).
  - split; (split; [by intros []|by intros [[]|[]]]).
Qed.

Definition all_keys (ka kb : list bytes) : list bytes := elements (list_to_set (ka ++ kb) : gset bytes).

Lemma all_keys_comm ka kb : all_keys kb ka ≡ₚ all_keys ka kb.
Proof. unfold all_keys. rewrite !list_to_set_app. by rewrite (comm_L (∪) (list_to_set kb) (list_to_set ka)). Qed.

Lemma stock_perm c n f keys keys' : keys ≡ₚ keys' -> stock c n f keys -> stock c n f keys'.
Proof. intros Hp []. split; [done|by rewrite <- Hp|intros k; by rewrite <- Hp|done|done]. Qed.

Lemma stock_after c n n' f f' keys (other : list bytes) :
  stock c n f keys -> same_apart c n n' -> (forall k, engine_docs (ne_storage n') c k = EncodeDocument <$> f' k) ->
  (forall k, is_Some (f' k) <-> k ∈ keys \/ k ∈ other) -> (forall k v, f' k = Some v -> sound_doc v) ->
  stock c n' f' (all_keys keys other).
Proof.
  intros Hst Hap Hd Hk Hs. split; [apply Hap| | |done|done].
  - apply NoDup_elements.
  - intros k. unfold all_keys. rewrite elem_of_elements, elem_of_list_to_set, elem_of_app. by rewrite Hk.
Qed.

Lemma fulfil_wire c id l f ka :
  Zlen c + want_cost ka <= kMaxDeltaBytes -> blob_ok id -> (forall k v, f k = Some v -> sound_doc v) -> NoDup l ->
  (forall k, k ∈ l -> k ∈ ka) ->
  broadcast_ok (mkBroadcast c (omap (fun k => mkDocEntry k <$> encoded f k) l) id 0).
Proof.
  intros Hb Hid Hs Hn Hl. unfold kMaxDeltaBytes in Hb. destruct (want_cost_bounds ka) as [W1 W2].
  pose proof (Zlen_nonneg c). pose proof (want_cost_nonneg ka).
  split; [unfold blob_ok; cbn; lia|]. cbn [ob_docs ob_message_id ob_ttl]. split; [|by split]. split.
  - assert (Zlen (omap (fun k => mkDocEntry k <$> encoded f k) l) <= Zlen l).
    { unfold Zlen. apply inj_le. clear. induction l as [|k l IH]; [done|]. cbn [omap list_omap].
      destruct (encoded f k); cbn [fmap option_fmap option_map length]; lia. }
    pose proof (nodup_Zlen_le l ka Hn Hl). lia.
  - apply Forall_forall. intros d (k & Hk & Hd)%list_elem_of_omap. unfold encoded in Hd.
    destruct (f k) as [v|] eqn:Ev; [|done]. injection Hd as <-. cbn [doc_key encoded_doc].
    specialize (W2 k (Hl k Hk)). split; [unfold blob_ok; lia|]. apply (sd_size v), (Hs k v Ev).
Qed.

(** The initiator's side after the pushed documents. *)
Lemma pushed_merged c f g p k :
  delta_of c f g p -> (forall v, g k = Some v -> sound_doc v) ->
  match assoc k (pairs (pushed p)) with
  | Some d => r ← DecodeDocument d; Some (EncodeDocument (merged (f k) r))
  | None => EncodeDocument <$> f k
  end = EncodeDocument <$> (round_docs (f k) (g k)).1.
Proof.
  intros Hp Hs. rewrite (do_pushed _ _ _ _ Hp). unfold round_docs. cbn [fst].
  destruct (offers (g k) (f k)) as [w|] eqn:Eo; [|done]. cbn [fmap option_fmap option_map].
  by rewrite (sound_decode w) by (by apply Hs, (offers_is _ (f k))).
Qed.

(** The other side after the fulfilment. *)
Lemma fulfilled_merged c f g p k (x : bytes -> option CrdtValue) :
  delta_of c f g p -> (forall v, x k = Some v -> sound_doc v) -> x k = (round_docs (f k) (g k)).1 ->
  match assoc k (pairs (omap (fun k => mkDocEntry k <$> encoded x k) (wanted_keys p))) with
  | Some d => r ← DecodeDocument d; Some (EncodeDocument (merged (g k) r))
  | None => EncodeDocument <$> g k
  end = EncodeDocument <$> (round_docs (f k) (g k)).2.
Proof.
  intros Hp Hs Hx. rewrite wanted_pairs, keyed_lookup, assoc_unit.
  2: { rewrite <- list_fmap_compose. cbn. rewrite list_fmap_id. apply Hp. }
  unfold round_docs in *. cbn [fst snd] in *. rewrite <- Hx. unfold encoded. case_decide as Hk.
  - apply (do_wanted _ _ _ _ Hp) in Hk as [u ->]. cbn [mbind option_bind]. destruct (x k) as [v|]; [|done].
    cbn [fmap option_fmap option_map mbind option_bind]. by rewrite (sound_decode v) by (by apply Hs).
  - destruct (offers (f k) (g k)) as [u|] eqn:Eo; [|done]. exfalso. apply Hk, (do_wanted _ _ _ _ Hp). by rewrite Eo.
Qed.

(** The pushed documents do not throw, and if none is refused the initiator holds the
    first half of the round. *)
Lemma initiator_side envs c who n f g p ka :
  nul_free c -> c <> kTransitCollection -> stock c n f ka -> (forall k v, g k = Some v -> sound_doc v) ->
  delta_of c f g p -> (forall k v, (round_docs (f k) (g k)).1 = Some v -> sound_doc v) ->
  exists sts, (merge_docs envs c (pushed p) who n).1 = Some sts
    /\ (refusals sts = 0 ->
        let n' := (merge_docs envs c (pushed p) who n).2 in
        same_apart c n n' /\ forall k, engine_docs (ne_storage n') c k = encoded (fun k => (round_docs (f k) (g k)).1) k).
Proof.
  intros Hnul Hc Ha Hg Hp Hsound.
  assert (Hstored : forall k, stored_doc n c k = f k) by (intros k; by apply (stock_stored c _ f ka)).
  assert (Hdec : forall d r, d ∈ pushed p -> DecodeDocument (encoded_doc d) = Some r ->
            (round_docs (f (doc_key d)) (g (doc_key d))).1 = Some (merged (f (doc_key d)) r)).
  { intros d r Hd Hr. pose proof (do_pushed _ _ _ _ Hp (doc_key d)) as Hpd.
    rewrite (proj2 (assoc_Some (doc_key d) (encoded_doc d) (pairs (pushed p)) ltac:(rewrite pairs_keys; apply Hp))) in Hpd
      by (apply list_elem_of_fmap; by exists d).
    unfold round_docs. cbn [fst]. destruct (offers (g (doc_key d)) (f (doc_key d))) as [w|] eqn:Eo; [|done].
    injection Hpd as Hpd. rewrite Hpd, sound_decode in Hr; [congruence|].
    apply (Hg (doc_key d)). by apply (offers_is _ (f (doc_key d))). }
  destruct (merge_docs_total envs c (pushed p) who n) as [sts Hsts]; [apply Ha|apply Hp| |].
  { intros d x _ Hx. rewrite (st_docs _ _ _ _ Ha) in Hx. destruct (f (doc_key d)) as [v|] eqn:Ev; [|done].
    injection Hx as <-. rewrite (sound_decode v); [by eexists|]. by apply (st_sound _ _ _ _ Ha (doc_key d)). }
  exists sts. split; [done|]. intros Hr. destruct (merge_docs envs c (pushed p) who n) as [r n'] eqn:Em. cbn [fst snd] in *. subst r.
  destruct (merge_docs_spec envs c (pushed p) who n sts n') as [J1 J2]; [done|done|apply Ha|apply Hp|done|done| |].
  { intros d r Hd Hdr. rewrite Hstored, sound_decode; [by eexists|]. apply (Hsound (doc_key d)). by apply Hdec. }
  split; [done|]. intros k. rewrite J2, Hstored, (st_docs _ _ _ _ Ha). apply (pushed_merged c f g p k Hp).
  intros v Hv. by apply (Hg k).
Qed.

(** The fulfilment, sent when there is something to send. *)
Lemma fulfil_side envs from host port c f g p id b ka kb x :
  nul_free c -> c <> kTransitCollection -> rv_allowed (envs kOpBroadcast) = true -> stock c (nm_engine b) g kb -> delta_of c f g p ->
  (forall k, x k = (round_docs (f k) (g k)).1) -> (forall k v, x k = Some v -> sound_doc v) ->
  (forall k v, (round_docs (f k) (g k)).2 = Some v -> sound_doc v) ->
  (forall k, k ∈ ka <-> is_Some (f k)) -> Zlen c + want_cost ka <= kMaxDeltaBytes -> blob_ok id ->
  (NoteAndCheckNew (nm_dedup b) id).1 = true ->
  let l := omap (fun k => mkDocEntry k <$> encoded x k) (wanted_keys p) in
  let b' := if bool_decide (l = []) then b
            else (link envs from host port (mkMessage kOpBroadcast (Broadcast_Encode (mkBroadcast c l id 0))) b).2 in
  nm_rejected b' = nm_rejected b ->
  same_apart c (nm_engine b) (nm_engine b')
  /\ forall k, engine_docs (ne_storage (nm_engine b')) c k = EncodeDocument <$> (round_docs (f k) (g k)).2.
Proof.
  intros Hnul Hc Hall Hb Hp Hx Hxs Hys Hka Hbud Hid Hfresh l b' Hrej.
  assert (Hl : forall k, match assoc k (pairs l) with
               | Some d => r ← DecodeDocument d; Some (EncodeDocument (merged (g k) r))
               | None => EncodeDocument <$> g k end = EncodeDocument <$> (round_docs (f k) (g k)).2).
  { intros k. apply (fulfilled_merged c f g p k x Hp); [apply Hxs|apply Hx]. }
  assert (Hn : NoDup (map doc_key l)).
  { rewrite <- pairs_keys. unfold l. rewrite wanted_pairs. apply keyed_nodup. rewrite <- list_fmap_compose. cbn.
    rewrite list_fmap_id. apply Hp. }
  unfold b' in *. case_bool_decide as El.
  - split; [apply kept_apart; [apply Hb|apply kept_refl, Hb]|]. intros k. rewrite <- Hl, El. apply Hb.
  - unfold link in *. cbn [m_type] in *.
    destruct (HandleRequest_fulfil (envs kOpBroadcast) from c l id b g kb) as [J1 J2]; try done.
    + unfold l. apply (fulfil_wire c id (wanted_keys p) x ka); [done|done|done|apply Hp|].
      intros k Hk. apply Hka. apply (do_wanted _ _ _ _ Hp) in Hk as [u Hu]. apply offers_is in Hu. by rewrite Hu.
    + intros d r Hd Hr. apply (Hys (doc_key d)).
      apply list_elem_of_omap in Hd as (k & Hk & Hd). unfold encoded in Hd.
      destruct (x k) as [v|] eqn:Ev; [|done]. injection Hd as <-. cbn [doc_key encoded_doc] in *.
      rewrite (sound_decode v) in Hr by (by apply (Hxs k)). injection Hr as <-.
      apply (do_wanted _ _ _ _ Hp) in Hk as [u Hu]. rewrite Hx in Ev. unfold round_docs in *. cbn [fst snd] in *.
      by rewrite Hu, Ev.
    + by destruct (HandleRequest _ _ _ b).
    + destruct (HandleRequest _ _ _ b) as [reply b2]. cbn [snd] in *. split; [done|]. intros k. by rewrite J2, Hl.
Qed.

(** Two nodes ready to exchange a collection: the answering one admits requests and lets
    the initiator read, the answer is not cut short, the fulfilment's id is new, and the
    results still fit the codec. *)
Record can_exchange (env : round_env) (envs : Z -> request_env) (c : bytes) (a b : NetworkManager B)
    (f g : bytes -> option CrdtValue) (ka kb : list bytes) : Prop := {
  cx_collection : nul_free c /\ c <> kTransitCollection;
  cx_allowed : forall t, rv_allowed (envs t) = true;
  cx_read : NodeCanRead (nm_engine b) c (PeerRequestor (self_id (nm_engine a))) = true;
  cx_mine : stock c (nm_engine a) f ka;
  cx_theirs : stock c (nm_engine b) g kb;
  cx_budget : within_budget c g ka kb;
  cx_id : blob_ok (re_message_id env c) /\ (NoteAndCheckNew (nm_dedup b) (re_message_id env c)).1 = true;
  cx_sound : forall k v, (round_docs (f k) (g k)).1 = Some v \/ (round_docs (f k) (g k)).2 = Some v -> sound_doc v;
}.

Lemma exchange_spec env peer envs c a b f g ka kb :
  can_exchange env envs c a b f g ka kb ->
  let '(r, a', b') := exchange_collection (Tr := link envs (self_id (nm_engine a))) env peer c a b in
  nm_rejected a' = nm_rejected a -> nm_rejected b' = nm_rejected b ->
  r = Some true
  /\ stock c (nm_engine a') (fun k => (round_docs (f k) (g k)).1) (all_keys ka kb)
  /\ stock c (nm_engine b') (fun k => (round_docs (f k) (g k)).2) (all_keys ka kb)
  /\ same_apart c (nm_engine a) (nm_engine a') /\ same_apart c (nm_engine b) (nm_engine b').
Proof.
  intros [[Hnul Hc] Hall Hread Ha Hb Hbud [Hid Hfresh] Hsound]. unfold exchange_collection.
  set (from := self_id (nm_engine a)) in *.
  assert (Hbud' : Zlen c + want_cost ka <= kMaxDeltaBytes).
  { unfold within_budget in Hbud. pose proof (push_cost_nonneg (encoded g) kb). lia. }
  destruct (stock_digest c _ f ka Hnul Ha) as (rows & n1 & -> & Hn & Hst & Hperm & Hfp & Ha1 & Hap1).
  unfold SendRequest, link at 1. cbn [m_type].
  destruct (HandleRequest_digest (envs kDigest) from
              (mkDigest c (map digest_entry (omap (fun r => digest_of r.1 r.2) rows))) b c f g ka kb)
    as (p & b1 & -> & Hp & Hb1 & Hbp1 & Hded & Hrej); [done|by apply (digest_wire c ka)|done..| |apply Ha|apply Ha|done|].
  { intros k. cbn [dg_entries]. by rewrite remote_fingerprints_spec, Hfp. }
  cbn [m_type m_payload]. change (kDeltaResponse =? kDeltaResponse) with true. cbn [negb].
  rewrite (run_round_trip Delta_Encode Delta_Decode delta_ok p (do_wire _ _ _ _ Hp)).
  cbn [nm_engine with_peers with_engine].
  destruct (initiator_side (re_merge env c) c (PeerRequestor (peer_node_id peer)) n1 f g p ka) as (sts & Hsts & Hinit);
    [done|done|done|apply Hb|done|intros k v Hv; apply (Hsound k); by left|].
  destruct (merge_docs (re_merge env c) c (pushed p) _ n1) as [r n2]. cbn [fst snd] in Hsts, Hinit. subst r.
  destruct (wanted_docs c (wanted_keys p) n2) as [docs n3] eqn:Ew.
  cbn [nm_rejected with_counts with_engine with_peers nm_engine]. intros Hra Hrb.
  destruct Hinit as [J1 Hx2]; [lia|]. set (x := fun k => (round_docs (f k) (g k)).1) in *.
  destruct (wanted_docs_spec c (encoded x) (wanted_keys p) n2) as (n3' & Ew' & Hk3); [apply J1|done|].
  rewrite Ew in Ew'. injection Ew' as -> ->.
  destruct (fulfil_side envs from (peer_host peer) (p2p_port peer) c f g p (re_message_id env c) b1 ka kb x) as [K1 K2];
    [done|done|apply Hall|done|done|done|intros k v Hv; apply (Hsound k); by left|intros k v Hv; apply (Hsound k); by right
    |apply Ha|done|done|by rewrite Hded|by rewrite Hrej|].
  assert (Hap3 : same_apart c (nm_engine a) n3').
  { eapply same_apart_trans; [exact Hap1|]. eapply same_apart_trans; [exact J1|]. by apply kept_apart; [apply J1|]. }
  split; [done|]. split; [|split; [|split; [done|by eapply same_apart_trans]]].
  - apply (stock_after c (nm_engine a) n3' f _ ka kb); [done|done| | |].
    + intros k. by rewrite (sq_docs _ _ _ _ _ Hk3), Hx2.
    + intros k. etrans; [apply (round_docs_some (f k) (g k))|]. by rewrite (st_keys _ _ _ _ Ha), (st_keys _ _ _ _ Hb).
    + intros k v Hv. apply (Hsound k). by left.
  - eapply stock_perm; [apply all_keys_comm|]. apply (stock_after c (nm_engine b) _ g _ kb ka); [done|by eapply same_apart_trans|done| |].
    + intros k. etrans; [apply (round_docs_some (f k) (g k))|]. rewrite (st_keys _ _ _ _ Ha), (st_keys _ _ _ _ Hb). tauto.
    + intros k v Hv. apply (Hsound k). by right.
Qed.

(** *** Two rounds *)
Definition joined (x y : option CrdtValue) : option CrdtValue :=
  match x, y with Some u, Some w => Some (Merge u w) | Some u, None => Some u | None, _ => y end.

Lemma differs_refl p : differs p p = false.
Proof.
  unfold differs. rewrite (lt_irrefl (ltb := ts_lt) p.1 : ts_gt p.1 p.1 = false), bool_decide_eq_true_2 by done. done.
Qed.

(** The hashes of the documents in play tell them apart. *)
Definition no_clash (u w : CrdtValue) : Prop :=
  (hash8 u = hash8 w -> u = w) /\ (hash8 (Merge u w) = hash8 w -> Merge u w = w) /\ (hash8 (Merge u w) = hash8 u -> Merge u w = u).

Lemma differs_newer u w : ts_gt (MaxTimestamp w) (MaxTimestamp u) = true ->
  differs (print_of w) (print_of u) = true /\ differs (print_of u) (print_of w) = false.
Proof.
  intros H. unfold differs. cbn [print_of fst snd]. rewrite H. cbn. split; [done|].
  rewrite (lt_asym ts_lt _ _ H : ts_gt (MaxTimestamp u) (MaxTimestamp w) = false). done.
Qed.

Lemma differs_same_top u w : MaxTimestamp u = MaxTimestamp w ->
  differs (print_of u) (print_of w) = negb (bool_decide (hash8 u = hash8 w)).
Proof.
  intros H. unfold differs. cbn [print_of fst snd]. rewrite H.
  by rewrite (lt_irrefl (ltb := ts_lt) (MaxTimestamp w) : ts_gt (MaxTimestamp w) (MaxTimestamp w) = false).
Qed.

(** One round where the tops agree: nothing, or both get the merge. *)
Lemma round_same_top u w :
  MaxTimestamp u = MaxTimestamp w ->
  round_docs (Some u) (Some w)
  = if bool_decide (hash8 u = hash8 w) then (Some u, Some w) else (Some (Merge u w), Some (Merge w (Merge u w))).
Proof.
  intros H. unfold round_docs, offers. rewrite !differs_same_top by done.
  rewrite (bool_decide_ext (hash8 w = hash8 u) (hash8 u = hash8 w)) by done. by case_bool_decide.
Qed.

Lemma round_newer u w : ts_gt (MaxTimestamp w) (MaxTimestamp u) = true ->
  round_docs (Some u) (Some w) = (Some (Merge u w), Some w) /\ round_docs (Some w) (Some u) = (Some w, Some (Merge u w)).
Proof. intros H. destruct (differs_newer u w H) as [H1 H2]. unfold round_docs, offers. by rewrite H1, H2. Qed.

Section Pair.
Context (s : Shape) (u w : CrdtValue) (Hflat : flat s) (Hu : has_shape s u) (Hw : has_shape s w) (Cu : canon u) (Cw : canon w).

Lemma pair_comm : Merge w u = Merge u w.
Proof using Hu Hw. by apply (merge_shape_comm s). Qed.
Lemma pair_right : Merge (Merge u w) w = Merge u w.
Proof using Hu Hw Cw. by rewrite (merge_shape_assoc s), Merge_same. Qed.
Lemma pair_left : Merge u (Merge u w) = Merge u w.
Proof using Hu Hw Cu. by rewrite <- (merge_shape_assoc s), Merge_same. Qed.
Lemma pair_shape : has_shape s (Merge u w).
Proof using Hu Hw. by apply merge_shape_closed. Qed.
Lemma pair_idem : Merge (Merge u w) (Merge u w) = Merge u w.
Proof using Hu Hw Cu Cw. apply Merge_same. by apply (Merge_canon s). Qed.
Lemma pair_wm : Merge w (Merge u w) = Merge u w.
Proof using Hu Hw Cw. rewrite (merge_shape_comm s) by (done || apply pair_shape). apply pair_right. Qed.
Lemma pair_mu : Merge (Merge u w) u = Merge u w.
Proof using Hu Hw Cu. rewrite (merge_shape_comm s) by (done || apply pair_shape). apply pair_left. Qed.

Lemma two_rounds_pair :
  no_clash u w ->
  let r := round_docs (Some u) (Some w) in round_docs r.1 r.2 = (Some (Merge u w), Some (Merge u w)).
Proof using All.
  intros (N1 & N2 & N3) r. unfold r. pose proof (MaxTimestamp_Merge s u w Hflat Hu Hw) as Hm. unfold max_ts in Hm.
  destruct (ts_gt (MaxTimestamp w) (MaxTimestamp u)) eqn:E1.
  - destruct (round_newer u w E1) as [-> _]. cbn [fst snd]. rewrite round_same_top by done.
    case_bool_decide as Hh; [by rewrite (N2 Hh)|]. by rewrite pair_right, pair_wm.
  - destruct (ts_gt (MaxTimestamp u) (MaxTimestamp w)) eqn:E2.
    + destruct (round_newer w u E2) as [_ ->]. cbn [fst snd]. rewrite pair_comm, round_same_top by done.
      case_bool_decide as Hh; [by rewrite <- (N3 (eq_sym Hh)) at 1|]. by rewrite pair_left, pair_idem.
    + assert (Ht : MaxTimestamp u = MaxTimestamp w) by (by apply (lt_total (ltb := ts_lt))).
      rewrite round_same_top by done. case_bool_decide as Hh.
      * pose proof (N1 Hh) as Heq. cbn [fst snd]. rewrite round_same_top, bool_decide_eq_true_2 by done.
        assert (Merge u w = u) as -> by (rewrite <- Heq; by apply Merge_same). by rewrite Heq.
      * cbn [fst snd]. rewrite pair_wm, round_same_top, bool_decide_eq_true_2 by done. done.
Qed.
End Pair.

Lemma two_rounds s x y :
  flat s -> (forall u, x = Some u \/ y = Some u -> has_shape s u /\ canon u) ->
  (forall u w, x = Some u -> y = Some w -> no_clash u w) ->
  let r := round_docs x y in round_docs r.1 r.2 = (joined x y, joined x y).
Proof.
  intros Hf Hs Hn r. unfold r. destruct x as [u|], y as [w|].
  - destruct (Hs u (or_introl eq_refl)), (Hs w (or_intror eq_refl)). apply (two_rounds_pair s u w); try done. by apply Hn.
  - cbn. unfold round_docs, offers. by rewrite differs_refl.
  - cbn. unfold round_docs, offers. by rewrite differs_refl.
  - done.
Qed.

Lemma round_among x y v :
  (round_docs x y).1 = Some v \/ (round_docs x y).2 = Some v ->
  x = Some v \/ y = Some v
  \/ exists u w, x = Some u /\ y = Some w /\ (v = Merge u w \/ v = Merge w u \/ v = Merge w (Merge u w)).
Proof.
  unfold round_docs. destruct x as [u|], y as [w|]; cbn [offers fst snd].
  - destruct (differs _ _), (differs _ _); intros [[= <-]|[= <-]]; eauto; right; right; exists u, w; eauto.
  - intros [[= <-]|[= <-]]; eauto.
  - intros [[= <-]|[= <-]]; eauto.
  - intros [|]; done.
Qed.

(** The documents of a key and their merge agree in shape and fit the codec. *)
Record mergeable (s : Shape) (x y : option CrdtValue) : Prop := {
  mg_flat : flat s;
  mg_shape : forall v, x = Some v \/ y = Some v -> has_shape s v;
  mg_sound : forall u w, x = Some u -> y = Some w -> sound_doc (Merge u w) /\ no_clash u w;
}.

Lemma round_sound s x y v :
  mergeable s x y -> (forall v, x = Some v \/ y = Some v -> sound_doc v) ->
  (round_docs x y).1 = Some v \/ (round_docs x y).2 = Some v -> has_shape s v /\ sound_doc v.
Proof.
  intros [Hf Hsh Hm] Hs Hv. destruct (round_among x y v Hv) as [->|[->|(u & w & -> & -> & Hcase)]];
    [split; [apply Hsh|apply Hs]; by left|split; [apply Hsh|apply Hs]; by right|].
  assert (Hu := Hsh u (or_introl eq_refl)). assert (Hw := Hsh w (or_intror eq_refl)).
  destruct (Hm u w eq_refl eq_refl) as [Hmu _].
  assert (v = Merge u w) as ->; [|split; [by apply merge_shape_closed|done]].
  destruct Hcase as [->|[->| ->]]; [done|by apply (pair_comm s)|apply (pair_wm s); [done|done|]].
  apply Hs. by right.
Qed.

Lemma second_round_sound s x y v :
  mergeable s x y -> (forall v, x = Some v \/ y = Some v -> sound_doc v) ->
  let r := round_docs x y in (round_docs r.1 r.2).1 = Some v \/ (round_docs r.1 r.2).2 = Some v -> sound_doc v.
Proof.
  intros Hm Hs r. unfold r. rewrite (two_rounds s x y).
  - cbn [fst snd]. intros Hv. assert (joined x y = Some v) as Hj by (by destruct Hv). clear Hv.
    destruct x as [u|], y as [w|]; cbn in Hj; simplify_eq; eauto. by destruct (mg_sound _ _ _ Hm u w eq_refl eq_refl).
  - apply Hm.
  - intros u Hu. split; [by eapply mg_shape|by apply (sd_canon u), Hs].
  - intros u w -> ->. by destruct (mg_sound _ _ _ Hm u w eq_refl eq_refl).
Qed.

Lemma same_access_read c n n' who :
  same_apart c n n' -> NodeCanRead n' c who = NodeCanRead n c who.
Proof. intros H. apply (access_can_write n n' c who); apply H. Qed.

(** C11: anti-entropy converges: after two exchanges of a collection in which no merge is
    refused, both nodes hold, for every key either of them had, the byte-identical encoding
    of the merge of their documents. Conditions: both nodes run on engines that meet
    [BackendSpec]; the collection name has no NUL byte and is not the transit collection;
    the responder admits the requests and lets the requester read the collection; the
    message ids were not seen before; the two documents of a key have a common shape whose
    leaves carry one stamp; documents and merges are canonical and within the codec's depth
    and lengths; all documents and wanted keys of the collection fit one response of 1 MiB;
    and the eight-byte content hashes tell the documents involved apart. *)
Theorem gossip_converges s env1 env2 envs1 envs2 peer c a b f g ka kb :
  can_exchange env1 envs1 c a b f g ka kb ->
  (forall k, mergeable (s k) (f k) (g k)) -> (forall t, rv_allowed (envs2 t) = true) ->
  within_budget c (fun k => (round_docs (f k) (g k)).2) (all_keys ka kb) (all_keys ka kb) ->
  let '(r1, a1, b1) := exchange_collection (Tr := link envs1 (self_id (nm_engine a))) env1 peer c a b in
  let '(r2, a2, b2) := exchange_collection (Tr := link envs2 (self_id (nm_engine a1))) env2 peer c a1 b1 in
  blob_ok (re_message_id env2 c) -> (NoteAndCheckNew (nm_dedup b1) (re_message_id env2 c)).1 = true ->
  nm_rejected a1 = nm_rejected a -> nm_rejected b1 = nm_rejected b ->
  nm_rejected a2 = nm_rejected a -> nm_rejected b2 = nm_rejected b ->
  r1 = Some true /\ r2 = Some true
  /\ forall k, engine_docs (ne_storage (nm_engine a2)) c k = EncodeDocument <$> joined (f k) (g k)
             /\ engine_docs (ne_storage (nm_engine b2)) c k = EncodeDocument <$> joined (f k) (g k).
Proof.
  intros Hx Hm Hall Hbud. pose proof (exchange_spec env1 peer envs1 c a b f g ka kb Hx) as H1.
  destruct (exchange_collection env1 peer c a b) as [[r1 a1] b1].
  pose proof (exchange_spec env2 peer envs2 c a1 b1 (fun k => (round_docs (f k) (g k)).1) (fun k => (round_docs (f k) (g k)).2)
                (all_keys ka kb) (all_keys ka kb)) as H2.
  destruct (exchange_collection env2 peer c a1 b1) as [[r2 a2] b2]. intros Hid Hfresh R1 R2 R3 R4.
  destruct (H1 R1 R2) as (-> & S1 & S2 & A1 & A2). clear H1.
  assert (Hsound : forall k v, f k = Some v \/ g k = Some v -> sound_doc v).
  { intros k v [Hv|Hv]; [by apply (st_sound _ _ _ _ (cx_mine _ _ _ _ _ _ _ _ _ Hx) k)
                        |by apply (st_sound _ _ _ _ (cx_theirs _ _ _ _ _ _ _ _ _ Hx) k)]. }
  destruct H2 as (-> & T1 & T2 & _); [|congruence|congruence|].
  { split; [apply Hx|done| |done|done|done|done|].
    - rewrite (same_access_read c _ _ _ A2). unfold self_id. rewrite (sa_id _ _ _ A1). apply Hx.
    - intros k v. apply (second_round_sound (s k)); [apply Hm|]. intros v'. apply Hsound. }
  split; [done|]. split; [done|]. intros k.
  assert (Er : let r := round_docs (f k) (g k) in round_docs r.1 r.2 = (joined (f k) (g k), joined (f k) (g k))).
  { apply (two_rounds (s k)); [apply Hm| |].
    - intros u Hu. split; [by eapply (mg_shape _ _ _ (Hm k))|apply (sd_canon u), (Hsound k), Hu].
    - intros u w Hu Hw. by destruct (mg_sound _ _ _ (Hm k) u w Hu Hw). }
  rewrite (st_docs _ _ _ _ T1), (st_docs _ _ _ _ T2), Er. done.
Qed.
End Nodes.

(** ** Witnesses *)
#[local] Existing Instance toy_crypto.
#[local] Existing Instance toy_ed25519.

(** A node that stores one document. *)
Definition doc_engine (v : CrdtValue) : StorageEngine GateBackend :=
  mkEngine 0 (empty_log []) (mkCatalog ∅ []) None
    (mkRouter (bs "kv") (bs "n1") 0 {[bs "kv" := mkGate {[(bs "c", bs "k") := EncodeDocument v]} false]}
       (mkIndex [] true ∅ [])) true [].
Definition doc_node (id : NodeIdentity) (v : CrdtValue) : NodeEngine GateBackend :=
  mkNode id (new_clock (id_node_id id)) 0 (doc_engine v) demo_transit empty_outbox true [] None None 0 0 ∅ 0 0.
Definition doc_net (id : NodeIdentity) (v : CrdtValue) : NetworkManager GateBackend :=
  mkNet (mkNetConfig false 0 0 0 0 0) (doc_node id v) ∅ (new_dedup 10)
    (mkPolicy [] (mkPlacementOptions 1 0 0 false false) empty_ring empty_ring []) (new_tracker 10) [] 0 0 0 0.
Definition only_k (v : CrdtValue) (k : bytes) : option CrdtValue := if decide (k = bs "k") then Some v else None.

Lemma doc_stock id v : sound_doc v -> stock (bs "c") (doc_node id v) (only_k v) [bs "k"].
Proof.
  intros Hv. split.
  - split; [|apply cache_agrees_empty]. split; [by apply map_Forall_singleton|]. intros c. by eexists.
  - apply NoDup_singleton.
  - intros k. rewrite list_elem_of_singleton. unfold only_k. case_decide; [by split; [eexists|]|]. by split; [|intros []].
  - intros k. unfold only_k. change (engine_docs _ _ _) with (({[(bs "c", bs "k") := EncodeDocument v]} : docs) !! (bs "c", k)).
    case_decide as Hk; [subst; by rewrite lookup_singleton_eq|]. rewrite lookup_singleton_ne; [done|]. congruence.
  - intros k v' Hk. unfold only_k in Hk. case_decide; by simplify_eq.
Qed.

Definition old_doc : CrdtValue := ex_doc 1 (bs "asha").
Definition new_doc : CrdtValue := ex_doc 2 (bs "ravi").
Definition gossip_request (t : Z) : request_env :=
  mkRequestEnv 1000 true (fun _ => demo_nenv 1000 None) (fun _ => demo_env) (fun _ => 1000) (fun _ => true).
Definition gossip_env (id : bytes) : round_env :=
  mkRoundEnv (fun _ => S754_zero false) (fun _ _ => demo_nenv 1000 None) (fun _ => id) (fun _ => demo_acl_env).
Definition demo_peer : PeerInfo := mkPeer (id_node_id peer_identity) peer_key (bs "10.0.0.2") 9401 0 [] 0 false true kDiscovered default_fitness.
Definition net_a : NetworkManager GateBackend := doc_net demo_identity old_doc.
Definition net_b : NetworkManager GateBackend := doc_net peer_identity new_doc.
Lemma ex_doc_one p s k x :
  assoc k [(bs "name", CString (ex_stamp p) false s)] = Some x -> k = bs "name" /\ x = CString (ex_stamp p) false s.
Proof. cbn [assoc]. case_decide; [|done]. intros; by simplify_eq. Qed.

Lemma demo_doc_shape v : v = old_doc \/ v = new_doc -> has_shape ex_shape v.
Proof. intros [->| ->]; (split; [apply NoDup_singleton|]); intros k x [-> ->]%ex_doc_one; split; reflexivity. Qed.

Lemma demo_doc_sound v : v = old_doc \/ v = new_doc -> sound_doc v.
Proof.
  intros [->| ->]; split;
    try (apply canon_object; [apply SSorted_cons; constructor|]; intros k x [-> ->]%ex_doc_one; by constructor);
    try (by apply (bool_decide_unpack _); vm_compute); try (cbn; unfold kMaxDecodeDepth; lia);
    (apply wire_object; [by repeat split|done| |]);
    intros kv ->%list_elem_of_singleton; try (split; by apply (bool_decide_unpack _); vm_compute);
    apply wire_scalar; by repeat split.
Qed.

Lemma demo_docs_mergeable k : mergeable ex_shape (only_k old_doc k) (only_k new_doc k).
Proof.
  assert (Hm : Merge old_doc new_doc = new_doc) by (by vm_compute).
  split.
  - intros k' t. by destruct (decide (k' = bs "tag")).
  - unfold only_k. intros v Hv. apply demo_doc_shape. case_decide; destruct Hv; simplify_eq; auto.
  - unfold only_k. intros u w Hu Hw. case_decide; simplify_eq. rewrite Hm. split; [apply demo_doc_sound; auto|].
    assert (Hh : hash8 old_doc <> hash8 new_doc) by (by apply (bool_decide_unpack _); vm_compute).
    unfold no_clash. rewrite Hm. split; [intros H; destruct (Hh H)|]. split; [intros _; reflexivity|]. intros H. destruct (Hh (eq_sym H)).
Qed.

Lemma unpack3 {X Y Z} (p : X * Y * Z) (P : X -> Y -> Z -> Prop) : (let '(x, y, z) := p in P x y z) -> P p.1.1 p.1.2 p.2.
Proof. by destruct p as [[x y] z]. Qed.

Lemma demo_can_exchange :
  can_exchange (gossip_env (bs "m1")) gossip_request (bs "c") net_a net_b (only_k old_doc) (only_k new_doc) [bs "k"] [bs "k"].
Proof.
  split.
  - by split; apply (bool_decide_unpack _); vm_compute.
  - intros t. reflexivity.
  - by vm_compute.
  - apply doc_stock, demo_doc_sound. by left.
  - apply doc_stock, demo_doc_sound. by right.
  - by vm_compute.
  - by split; vm_compute.
  - intros k v Hv. destruct (demo_docs_mergeable k).
    apply (round_sound ex_shape (only_k old_doc k) (only_k new_doc k)); [done| |done].
    intros v' Hv'. apply demo_doc_sound. unfold only_k in Hv'. case_decide; destruct Hv'; simplify_eq; auto.
Qed.

#[local] Abbreviation demo_round id a b :=
  (exchange_collection (Tr := link gossip_request (self_id (nm_engine a))) (gossip_env id) demo_peer (bs "c") a b).
#[local] Abbreviation first_round := (demo_round (bs "m1") net_a net_b).
#[local] Abbreviation second_round := (demo_round (bs "m2") first_round.1.2 first_round.2).
#[local] Abbreviation stored net := (engine_docs (ne_storage (nm_engine net)) (bs "c") (bs "k")).

Lemma gossip_converges_witness :
  stored second_round.1.2 = EncodeDocument <$> joined (only_k old_doc (bs "k")) (only_k new_doc (bs "k"))
  /\ stored second_round.2 = EncodeDocument <$> joined (only_k old_doc (bs "k")) (only_k new_doc (bs "k")).
Proof.
  pose proof (gossip_converges (fun _ => ex_shape) (gossip_env (bs "m1")) (gossip_env (bs "m2")) gossip_request gossip_request
    demo_peer (bs "c") net_a net_b (only_k old_doc) (only_k new_doc) [bs "k"] [bs "k"]
    demo_can_exchange demo_docs_mergeable (fun _ => eq_refl) ltac:(by vm_compute)) as H.
  apply unpack3 in H. apply unpack3 in H. destruct H as (_ & _ & H); [by vm_compute..|]. exact (H (bs "k")).
Defined.
